(* ===== verification/_CoqProject ===== *)
-Q . S2P
Prelude.v
Memory.v
MemoryLists.v
MemoryRep.v
MemoryOps.v
MemorySpec.v
MemoryInit.v
MemoryProps.v
MemoryLayout.v
Boot.v
Ring.v
Words.v
Bytes.v
Pipe.v
Tty.v
TtySpec.v
TtyProps.v
Files.v
FilesInv.v
FilesProps.v
Poll.v
PollProps.v
Wait.v
WaitProps.v
Ext3.v
Ext3Bits.v
Ext3View.v
Ext3Ops.v
Ext3Ensure.v
Ext3Write.v
Ext3Sync.v
Ext3Props.v
Ext3Release.v
Ext3Correct.v
Utf8.v
Wcwidth.v
Surface.v
SurfaceInv.v
SurfaceScroll.v
SurfaceOps.v
SurfaceProps.v
VtParser.v
VtProps.v
KString.v
Ssh.v
SshProps.v
Sha256.v
Sha256Props.v
Aes.v
AesProps.v
AesKeys.v
AesModes.v
SshCrypto.v
SshCryptoProps.v
Field25519.v
Field25519Props.v
Field25519Pack.v
X25519.v
Sha512.v
Sha512Props.v
Sha512Blocks.v
Ed25519.v
Ed25519ModL.v
Ed25519Props.v
SshKeys.v
UString.v
Json.v
JsonWrite.v
JsonParse.v
JsonRead.v
JsonProps.v
JsonSafe.v
Stdio.v
Path.v
PathNormal.v
Permissions.v
PermissionsProps.v
Sse.v
SseProps.v
