(* ===== verification/Prelude.v ===== *)
(** * Verification of sodex

    Sodex is a small operating system for i386 with a terminal, a network stack and
    an agent that runs tools.  This library models the parts of it that are pure
    programs over memory: the allocator and the memory layout of the kernel, pipes,
    files, terminals and waiting, the files of the file system, the messages and the
    cryptography of SSH, the strings of the kernel and of the C library, UTF-8, the
    escape sequences and the screen of the terminal program, and the JSON, the event
    streams, the paths and the permissions of the agent.  Paths below are relative to
    src/src of the repository.

    ** Conventions

    A C function is a Rocq function with the name it has in the source.  It takes
    the state it changes and returns it.  A computation is an [outcome]: it returns,
    hangs, or faults.  A fault is a dereference of NULL or of memory that is not an
    object, an access outside an array, or an argument that is not there.  Numbers
    are [Z]; [u32] and [i32] are the wrap-around of 32-bit unsigned and signed
    numbers and are written where the code can reach it.  Signed arithmetic wraps,
    as the compiler that builds the system does it.  Arrays are lists with checked
    access ([load1], [store1], [load_bytes], [store_bytes] in Ring.v).  Pointers to
    objects are keys of a store, pointers into an array are the array and an offset,
    and a pointer that may be NULL is an option.

    Loops that run over a list are structural.  The others take fuel, and running
    out of it is [Hang].  The fuel is enough by a theorem in each case: the walks of
    the allocator get the number of descriptors plus one ([rep_walk]); the loops of
    the tokenizer get one more than the bytes that are left
    ([json_parse_total]); the loop over a format and the loop over a path get one
    more than their length ([vsnprintf_correct], [normalize_path_correct]); the walk
    over tokens gets the number of tokens behind it ([skip_tokens_of]); the loops over
    the blocks of a read or a write get one more than the blocks they can touch
    ([ext3_read_spec], [ext3_write_spec]); the loops over bytes of the ciphers, of the
    random generator and of the event stream get one more than the bytes
    ([ctr_correct], [sse_stream_correct]); and [poll] gets the worlds it looks at
    ([poll_returns]).  Where the
    code itself does not end, the model hangs for every fuel: [kalloc_zero_hangs]
    and [tab_stops_or_hangs].

    ** The kernel

    - Memory.v models memory.c and the list macros of include/memory.h: the
      descriptors of free and used ranges on circular lists, [kalloc], [aalloc],
      [kfree], [afree], [palloc], [pfree] and their helpers over a store of
      descriptors.  MemoryLists.v and MemoryRep.v give the lists a meaning,
      MemoryOps.v the effect of splitting and merging, MemorySpec.v an abstract pool
      of ranges, MemoryInit.v the state after [init_mem_core], and MemoryProps.v the
      theorems: each operation refines the abstract one; an allocation returns, and a
      block that is handed out overlaps no other; freeing it gives the pool back when
      free memory lay above it and a descriptor was to spare; and a pointer that was
      not handed out is refused.  Runs at the end show five defects.
    - MemoryLayout.v models memory_layout.c: from the memory map of the boot loader
      to the heap of the kernel and the pool of process pages.  For machines that
      report from 768 MB to 4 GB, with no limit or one in that range, the heap and the
      pool are disjoint and inside usable memory; smaller machines are outside the
      theorem, and [small_cap_ignored] shows what a smaller limit does.  Boot.v composes
      it with the allocator as [init_mem] does.
    - Ring.v holds circular buffers and arrays.  Pipe.v models pipe.c: what is read
      is what was written, in order, and poll agrees with read and write.
    - Tty.v models tty/tty.c: the line discipline over rings and fixed buffers.
      TtySpec.v is its contract on lists of bytes, TtyProps.v the refinement, and
      that a typed line is read and an erased character is not.
    - Files.v models fs.c and the file objects of pipe.c and tty/tty.c: descriptor
      tables that share counted objects, with [fork], [exec] and [exit] as the
      operations on tables that they contain.  FilesInv.v is the invariant that the
      counts are exact up to references that were lost, FilesProps.v that every step
      of any process keeps it, with none lost unless a descriptor is duplicated in a
      full table or the standard files do not all fit, that a pipe then lives exactly
      as long as an end is open, and that a [pipe] that fails leaves nothing behind.
    - Poll.v models poll.c over those tables, and PollProps.v shows that it returns
      and reports what is ready.  Wait.v models [sleep_on] and [wakeup] of process.c
      around a pipe, statement by statement with the entries of the queues on the
      stacks of the sleepers, and shows runs in which a wakeup is lost or an entry is
      used that is gone.  WaitProps.v shows that neither happens when the sections of
      [sleep_on] and [wakeup] are not interrupted.

    ** The file system

    Ext3.v models the files of ext3fs.c: the super block, the group descriptors, the
    inodes and the bitmaps in memory, the blocks of a file behind direct, indirect and
    double indirect entries, the lists of what has to be written, reading, writing,
    releasing, flushing, and the reading of the tables at start.  The device is a map
    from numbers to sectors, and the answers of [kalloc] are a list that is part of
    the state.

    - Ext3Bits.v: the bitmaps, the device and the tables as bytes; a search finds the
      least free bit, and what is written is read back.
    - Ext3View.v: a view, which block is at which place of which file, and that no
      block is at two places; what it means that a file grows.  Ext3Ops.v and
      Ext3Ensure.v: allocation grows the view.
    - Ext3Write.v: the chunks of a write.  Ext3Sync.v: a flush writes what is marked,
      everything that changed is marked, and mounting reads it back.
      Ext3Release.v: releasing frees exactly the blocks of a file.
    - Ext3Props.v: the file system at rest, and reading and writing from rest to
      rest.  Ext3Correct.v: a formatted disk, and the theorems.

    The theorems are about calls that find the file system at rest ([at_rest]) and
    memory for their buffers ([memory_available]).  The theorem on writing also asks for
    at most one new block behind the indirect tables, because the code loses blocks
    otherwise, and for room on the disk, because an allocation on a full one faults
    ([full_disk_faults]).

    ** SSH and its cryptography

    - KString.v models lib/string.c.  Ssh.v models lib/ssh_packet_core.c,
      ssh_channel_core.c and ssh_auth_core.c, and SshProps.v shows that fields are
      read back, that packets are delivered whole and that a password is accepted
      exactly when it is right and the names before their first NUL are the expected
      ones; a length with its highest bit set is not refused.
    - Words.v and Bytes.v hold what words and bytes share.  Sha256.v models
      lib/sha256.c, Aes.v lib/aes.c, and SshCrypto.v the authentication codes and the
      random numbers of lib/ssh_crypto.c; Sha256Props.v, the Aes files and
      SshCryptoProps.v show that they compute what FIPS 180-4, FIPS 197, SP 800-38A
      and FIPS 198 define.
    - Field25519.v, X25519.v, Sha512.v and Ed25519.v model lib/tweetnacl.c, with every
      intermediate result checked against 64 bits.  Field25519Props.v and
      Field25519Pack.v relate the limbs to integers modulo 2^255 - 19, Sha512Props.v
      and Sha512Blocks.v the hash to FIPS 180-4, Ed25519ModL.v and Ed25519Props.v the
      signatures to RFC 8032.  SshKeys.v models the keys of the server and shows that
      the key exchange is that of RFC 7748 and the signature that of RFC 8032.
      Multiples of a point are those of the ladder of the standards; that the curve is
      a group is not proved.

    ** The terminal

    - Utf8.v models usr/lib/libc/utf8.c: encoder and decoder are inverse on exactly
      the valid code points.  Wcwidth.v models wcwidth.c: the binary search finds
      exactly the intervals of the tables.
    - Surface.v models terminal_surface.c.  SurfaceInv.v, SurfaceScroll.v and
      SurfaceOps.v describe each operation by the buffer it leaves; SurfaceProps.v
      shows that no sequence of operations, with any answers of malloc, leaves the
      buffers, where the cursor is, and what scrolling and the alternate screen do.
    - VtParser.v models vt_parser.c and calls the operations of Surface.v.
      VtProps.v shows that from any state of the parser no input leads outside the
      arrays, that a position that is sent is the position of the cursor, and that text
      that fits on the line appears as it was sent.

    ** Programs and the agent

    - UString.v models usr/lib/libc/string.c and stdlib.c, Stdio.v the formatted
      output of stdio.c: [vsnprintf] writes the text its format stands for in C, where
      hexadecimal conversions have no width or one the value does not exceed.
    - Json.v models usr/lib/libagent/json.c.  JsonWrite.v shows that the writer
      writes the text of a document, JsonParse.v that the tokenizer turns the text
      into the tokens of the document, JsonRead.v that the accessors find the values
      in them, JsonProps.v puts them together, and JsonSafe.v shows that the
      tokenizer ends on any input and stays inside its arrays.
    - Sse.v models sse_parser.c, and SseProps.v shows that the events are those of the
      stream, as the standard defines them, however it is cut into pieces, when no
      terminator of two characters is cut, the stream begins with no byte order mark
      and lines, data and types fit the buffers.
    - Path.v models path_utils.c and PathNormal.v shows what the normal form of a
      path is and when a path is under another.  Permissions.v models permissions.c,
      and PermissionsProps.v shows that a call is allowed exactly when the policy
      says so, from the bytes of its JSON input, of at most 32 tokens, to the decision.
      Both need paths
      without a component of two dots; with one the check can be passed by
      ([dots_reach_denied]).

    Definitions that model code are named as in the source; a helper for a loop or
    a branch of a function is next to it.  The theorems of the *Props files are the
    results; lemmas that several of them use are in the files before.

    ** Not modelled

    Processes, signals, system calls and page tables, drivers and the console, the
    directories of ext3fs.c, the network stack and the servers, the boxes, stream
    ciphers and verification of TweetNaCl, the shell, the text tools and the editor,
    the input of Japanese text, the script language, the loop of the agent and its
    tools, and the commands.  They are assembly, input and output, third-party code,
    or programs around system calls whose model would need one of processes and
    files.  Of fs.c the operations on disk files are opaque, of memory.c the page
    tables, of stdio.c the output to a descriptor, and [getenv] of stdlib.c are left
    out; waiting with a timeout is not modelled. *)

From Stdlib Require Export ZArith Lia.
From stdpp Require Export base tactics numbers list list_numbers option gmap sorting.

#[export] Set Default Goal Selector "!".
#[export] Set Default Proof Using "Type".

Open Scope Z_scope.

(** ** Outcomes

    A C function that can loop for ever or dereference a pointer that is not an
    object is a computation that returns, hangs or faults. *)

Inductive outcome (A : Type) : Type :=
  | Ret (a : A)
  | Hang
  | Fault.
Arguments Ret {A} a.
Arguments Hang {A}.
Arguments Fault {A}.

#[export] Instance outcome_ret : MRet outcome := fun A a => Ret a.
#[export] Instance outcome_bind : MBind outcome := fun A B f m =>
  match m with
  | Ret a => f a
  | Hang => Hang
  | Fault => Fault
  end.

Definition or_fault {A} (o : option A) : outcome A :=
  match o with
  | Some a => Ret a
  | None => Fault
  end.

(** [for (...) body]: the body is run for each index in turn. *)
Fixpoint foldM {S A} (f : S → A → outcome S) (l : list A) (s : S) : outcome S :=
  match l with
  | [] => Ret s
  | x :: l => s ← f s x; foldM f l s
  end.

Lemma foldM_app {S A} (f : S → A → outcome S) l1 l2 s :
  foldM f (l1 ++ l2) s = (foldM f l1 s ≫= foldM f l2).
Proof.
  revert s. induction l1 as [|x l1 IH]; intros s; simpl; [done|].
  destruct (f s x); simpl; [apply IH|done..].
Qed.

Lemma bind_ret {A B} (a : A) (f : A → outcome B) : (Ret a ≫= f) = f a.
Proof. reflexivity. Qed.

Lemma bind_ret_inv {A B} (m : outcome A) (f : A → outcome B) b :
  (m ≫= f) = Ret b → ∃ a, m = Ret a ∧ f a = Ret b.
Proof. destruct m; simpl; naive_solver. Qed.

(** ** Machine integers *)

Definition U32 : Z := 2 ^ 32.

(** The value a 32-bit unsigned object holds after a computation in [Z]. *)
Definition u32 (x : Z) : Z := x mod U32.

(** Two's complement reading of a 32-bit pattern: the C conversion to [int]. *)
Definition i32 (x : Z) : Z := (x + 2 ^ 31) mod U32 - 2 ^ 31.

(** [~x] at width 32. *)
Definition not32 (x : Z) : Z := U32 - 1 - x.

Definition is_u32 (x : Z) : Prop := 0 ≤ x < U32.
Definition is_byte (x : Z) : Prop := 0 ≤ x < 256.

#[export] Instance is_u32_dec x : Decision (is_u32 x).
Proof. unfold is_u32. apply _. Defined.
#[export] Instance is_byte_dec x : Decision (is_byte x).
Proof. unfold is_byte. apply _. Defined.

Lemma u32_small x : is_u32 x → u32 x = x.
Proof. intros H. by apply Z.mod_small. Qed.

Lemma u32_range x : is_u32 (u32 x).
Proof. unfold is_u32, u32, U32. apply Z.mod_pos_bound. lia. Qed.

Lemma i32_small x : - 2 ^ 31 ≤ x < 2 ^ 31 → i32 x = x.
Proof. intros H. unfold i32, U32. rewrite Z.mod_small; lia. Qed.

(** ** Masks: powers of two *)

Lemma land_mask v k : 0 ≤ k → Z.land v (2 ^ k - 1) = v mod 2 ^ k.
Proof. intros Hk. rewrite <-Z.land_ones, Z.ones_equiv by done. f_equal. Qed.

Lemma land_not_mask v k : is_u32 v → 0 ≤ k ≤ 32 → Z.land v (not32 (2 ^ k - 1)) = v - v mod 2 ^ k.
Proof.
  intros Hv Hk. assert (0 < 2 ^ k) by lia.
  assert (not32 (2 ^ k - 1) = Z.ldiff (Z.ones 32) (Z.ones k)) as ->.
  { unfold not32, U32. rewrite Z.ldiff_ones_r, Z.shiftl_mul_pow2, Z.shiftr_div_pow2, Z.ones_equiv by lia.
    replace (2 ^ 32) with (2 ^ (32 - k) * 2 ^ k) by (rewrite <-Z.pow_add_r by lia; f_equal; lia).
    replace (Z.pred (2 ^ (32 - k) * 2 ^ k)) with ((2 ^ (32 - k) - 1) * 2 ^ k + (2 ^ k - 1)) by lia.
    rewrite Z.div_add_l by lia. rewrite (Z.div_small (2 ^ k - 1)) by lia. nia. }
  assert (Z.land v (Z.ldiff (Z.ones 32) (Z.ones k)) = Z.ldiff v (Z.ones k)) as ->.
  { rewrite <-(u32_small v) at 2 by done. unfold u32, U32. rewrite <-Z.land_ones by lia.
    apply Z.bits_inj'. intros i Hi. rewrite !Z.land_spec, !Z.ldiff_spec, !Z.land_spec.
    by rewrite andb_assoc. }
  rewrite Z.ldiff_ones_r, Z.shiftl_mul_pow2, Z.shiftr_div_pow2 by lia.
  pose proof (Z.div_mod v (2 ^ k)). lia.
Qed.

(** Bits that do not overlap. *)
Lemma lor_join a b k : 0 ≤ k → 0 ≤ b < 2 ^ k → Z.lor (a * 2 ^ k) b = a * 2 ^ k + b.
Proof.
  intros Hk Hb. pose proof (Z.add_lor_land (a * 2 ^ k) b) as E. rewrite <-(Z.shiftl_mul_pow2 a k) in * by done.
  assert (Z.land (Z.shiftl a k) b = 0) as H0; [|lia].
  apply Z.bits_inj'. intros i Hi. rewrite Z.land_spec, Z.bits_0. destruct (decide (i < k)).
  - by rewrite Z.shiftl_spec_low.
  - rewrite <-(Z.mod_small b (2 ^ k)) by done. rewrite Z.mod_pow2_bits_high by lia. apply andb_false_r.
Qed.

(** Rounding up to a multiple of [2 ^ k], as the code writes it. *)
Lemma round_up_pow2 v k :
  is_u32 v → 0 ≤ k ≤ 31 → v + 2 ^ k ≤ U32 →
  let r := if Z.land v (u32 (2 ^ k - 1)) =? 0 then v
           else u32 (Z.land v (not32 (u32 (2 ^ k - 1))) + 2 ^ k) in
  r mod 2 ^ k = 0 ∧ v ≤ r < v + 2 ^ k.
Proof.
  intros Hv Hk Hw. cbv zeta. assert (0 < 2 ^ k) by lia.
  assert (2 ^ k ≤ 2 ^ 31) by (apply Z.pow_le_mono_r; lia).
  rewrite (u32_small (2 ^ k - 1)) by (unfold is_u32, U32; lia).
  rewrite land_mask, land_not_mask by (done || lia).
  pose proof (Z.mod_pos_bound v (2 ^ k)) as Hmod. unfold is_u32 in Hv.
  destruct (Z.eqb_spec (v mod 2 ^ k) 0) as [Hz|Hz]; [lia|].
  pose proof (Z.div_mod v (2 ^ k)) as Hdm.
  assert (v - v mod 2 ^ k + 2 ^ k = (v / 2 ^ k + 1) * 2 ^ k) as E by lia.
  rewrite u32_small by (unfold is_u32; lia). split; [|lia].
  rewrite E. apply Z.mod_mul. lia.
Qed.

(** ** Automation *)

(** Case analysis on the integer comparisons of the goal. *)
Ltac zcases :=
  repeat match goal with
  | |- context [?a <=? ?b] => destruct (Z.leb_spec a b)
  | |- context [?a <? ?b] => destruct (Z.ltb_spec a b)
  | |- context [?a =? ?b] => destruct (Z.eqb_spec a b)
  end.

(** The same on the comparisons of a hypothesis. *)
Ltac zcases_in H :=
  repeat match type of H with
  | context [?a <=? ?b] => destruct (Z.leb_spec a b)
  | context [?a <? ?b] => destruct (Z.ltb_spec a b)
  | context [?a =? ?b] => destruct (Z.eqb_spec a b)
  end.

(** ** Decimal digits *)

(** The digits of a number, the last first. *)
Fixpoint digit_loop (fuel : nat) (uval : Z) : list Z :=
  match fuel with
  | O => []
  | S fuel => if 0 <? uval then (0x30 + uval mod 10) :: digit_loop fuel (uval / 10) else []
  end.

Definition digits_value (v : Z) (ds : list Z) : Z := foldl (fun v c => v * 10 + (c - 0x30)) v ds.

Lemma digit_loop_digits f m : Forall (fun d => 0x30 ≤ d ≤ 0x39) (digit_loop f m).
Proof.
  revert m. induction f as [|f IH]; intros m; cbn [digit_loop]; [constructor|].
  destruct (0 <? m); constructor; [pose proof (Z.mod_pos_bound m 10); lia|apply IH].
Qed.

Lemma digits_value_grows ds v : Forall (fun d => 0x30 ≤ d ≤ 0x39) ds → 0 ≤ v → v ≤ digits_value v ds.
Proof.
  intros Hds. revert v. induction Hds as [|d ds Hd _ IH]; intros v Hv; [done|]. unfold digits_value. cbn [foldl].
  specialize (IH (v * 10 + (d - 0x30))). unfold digits_value in IH. lia.
Qed.

Lemma digit_loop_value f m : 0 ≤ m < 10 ^ Z.of_nat f → digits_value 0 (reverse (digit_loop f m)) = m.
Proof.
  revert m. induction f as [|f IH]; intros m Hm; cbn [digit_loop]; [simpl in *; lia|].
  destruct (Z.ltb_spec 0 m); [|simpl; lia]. rewrite reverse_cons. unfold digits_value in *. rewrite foldl_app. cbn [foldl].
  rewrite IH; [pose proof (Z.div_mod m 10); lia|]. rewrite Nat2Z.inj_succ, Z.pow_succ_r in Hm by lia.
  split; [apply Z.div_pos; lia|]. apply Z.div_lt_upper_bound; lia.
Qed.
