(* ===== verification/Memory.v ===== *)
(** * The hole allocator of the kernel: [src/memory.c], [src/include/memory.h]

    Memory is described by descriptors ([MemHole]) that sit on circular doubly
    linked lists: the unused descriptors, the free ranges sorted by address and
    the ranges in use, once for the kernel heap and once for the physical pages
    of processes.  The descriptors live in a store indexed by pointers, every
    field access of the code is an access to that store, and the macros that
    link and unlink a descriptor are sequences of stores in the order of the
    code.  [MemorySpec] proves what these programs do. *)

From S2P Require Import Prelude.

(** ** Constants of [memory.h] *)

Definition MAX_MHOLES : nat := Z.to_nat 8192.
Definition MAX_PMHOLES : nat := Z.to_nat 1024.
Definition KALLOC_MIN_SIZE : Z := 32.
Definition MIN_MEMSIZE : Z := KALLOC_MIN_SIZE.
Definition KFREE_OK : Z := 0.
Definition KFREE_FAIL_NOT_MHOLE : Z := 1.
Definition KFREE_FAIL_ILLEGAL1 : Z := 2.
Definition BLOCK_SIZE : Z := 4096.

(** ** Pointers to descriptors: the six list heads and the two arrays *)

Inductive hptr : Type :=
  | NullP
  | MHoleList | MFreeList | MUseList
  | PMHoleList | PMFreeList | PMUseList
  | Memhole (i : nat)
  | PMemhole (i : nat).

#[export] Instance hptr_eq_dec : EqDecision hptr.
Proof. solve_decision. Defined.

Definition hptr_code (p : hptr) : nat + (nat + nat) :=
  match p with
  | NullP => inl 0%nat
  | MHoleList => inl 1%nat
  | MFreeList => inl 2%nat
  | MUseList => inl 3%nat
  | PMHoleList => inl 4%nat
  | PMFreeList => inl 5%nat
  | PMUseList => inl 6%nat
  | Memhole i => inr (inl i)
  | PMemhole i => inr (inr i)
  end.

Definition hptr_decode (c : nat + (nat + nat)) : hptr :=
  match c with
  | inl 1%nat => MHoleList
  | inl 2%nat => MFreeList
  | inl 3%nat => MUseList
  | inl 4%nat => PMHoleList
  | inl 5%nat => PMFreeList
  | inl 6%nat => PMUseList
  | inl _ => NullP
  | inr (inl i) => Memhole i
  | inr (inr i) => PMemhole i
  end.

#[export] Program Instance hptr_countable : Countable hptr :=
  inj_countable' hptr_code hptr_decode _.
Next Obligation. by intros []. Qed.

Record MemHole := mkMemHole {
  mh_base : Z;
  mh_align_base : Z;
  mh_size : Z;
  mh_prev : hptr;
  mh_next : hptr
}.

Definition set_base (v : Z) (m : MemHole) : MemHole :=
  mkMemHole v (mh_align_base m) (mh_size m) (mh_prev m) (mh_next m).
Definition set_align_base (v : Z) (m : MemHole) : MemHole :=
  mkMemHole (mh_base m) v (mh_size m) (mh_prev m) (mh_next m).
Definition set_size (v : Z) (m : MemHole) : MemHole :=
  mkMemHole (mh_base m) (mh_align_base m) v (mh_prev m) (mh_next m).
Definition set_prev (v : hptr) (m : MemHole) : MemHole :=
  mkMemHole (mh_base m) (mh_align_base m) (mh_size m) v (mh_next m).
Definition set_next (v : hptr) (m : MemHole) : MemHole :=
  mkMemHole (mh_base m) (mh_align_base m) (mh_size m) (mh_prev m) v.

Abbreviation mheap := (gmap hptr MemHole).

(** [*p] and [p->field = v]: a pointer that is not an object faults. *)
Definition deref (h : mheap) (p : hptr) : outcome MemHole := or_fault (h !! p).

Definition store (f : MemHole → MemHole) (p : hptr) (h : mheap) : outcome mheap :=
  m ← deref h p; Ret (<[p := f m]> h).

(** ** The list macros of [memory.h] *)

Definition MHOLE_REMOVE (p : hptr) (h : mheap) : outcome mheap :=
  m ← deref h p;
  h ← store (set_next (mh_next m)) (mh_prev m) h;
  m ← deref h p;
  store (set_prev (mh_prev m)) (mh_next m) h.

Definition MHOLE_CLEAN (p : hptr) (h : mheap) : outcome mheap :=
  h ← store (set_base 0) p h;
  store (set_size 0) p h.

Definition MHOLE_INSERT_HEAD (p head : hptr) (h : mheap) : outcome mheap :=
  hd ← deref h head;
  h ← store (set_prev p) (mh_next hd) h;
  hd ← deref h head;
  h ← store (set_next (mh_next hd)) p h;
  h ← store (set_next p) head h;
  store (set_prev head) p h.

Definition MHOLE_INSERT_BEFORE (p ep : hptr) (h : mheap) : outcome mheap :=
  e ← deref h ep;
  h ← store (set_next p) (mh_prev e) h;
  e ← deref h ep;
  h ← store (set_prev (mh_prev e)) p h;
  h ← store (set_prev p) ep h;
  store (set_next ep) p h.

(** ** Initialisation *)

(** The zeroed static storage: [count] descriptors of an array and three heads. *)
Definition static_storage (holes : nat → hptr) (count : nat)
    (hole_list free_list use_list : hptr) (h : mheap) : mheap :=
  let zero := mkMemHole 0 0 0 NullP NullP in
  foldr (fun p h => <[p := zero]> h) h
    ([hole_list; free_list; use_list] ++ (holes <$> seq 0 count)).

Definition init_link (holes : nat → hptr) (hole_count : nat) (hole_list : hptr)
    (h : mheap) (i : nat) : outcome mheap :=
  h ← store (set_next (if (i =? hole_count - 1)%nat then hole_list
                       else holes (i + 1)%nat)) (holes i) h;
  store (set_prev (if (i =? 0)%nat then hole_list
                   else holes (i - 1)%nat)) (holes i) h.

Definition init_hole_pool (holes : nat → hptr) (hole_count : nat)
    (hole_list free_list use_list : hptr) (base size : Z) (h : mheap) : outcome mheap :=
  h ← foldM (init_link holes hole_count hole_list) (seq 0 hole_count) h;
  h ← store (set_next (holes 0%nat)) hole_list h;
  h ← store (set_prev (holes (hole_count - 1)%nat)) hole_list h;
  h ← store (set_prev hole_list) (holes 0%nat) h;
  h ← store (set_next hole_list) (holes (hole_count - 1)%nat) h;
  h ← store (set_base 0) hole_list h;
  h ← store (set_size 0) hole_list h;
  h ← store (set_base 0) free_list h;
  h ← store (set_size 0) free_list h;
  h ← store (set_base 0) use_list h;
  h ← store (set_size 0) use_list h;
  h ← store (set_next use_list) use_list h;
  h ← store (set_prev use_list) use_list h;
  h ← store (set_next free_list) free_list h;
  h ← store (set_prev free_list) free_list h;
  hl ← deref h hole_list;
  let mem := mh_next hl in
  h ← MHOLE_REMOVE mem h;
  h ← MHOLE_INSERT_HEAD mem free_list h;
  fl ← deref h free_list;
  h ← store (set_base base) (mh_next fl) h;
  fl ← deref h free_list;
  store (set_size size) (mh_next fl) h.

Definition init_mem_core (base_addr pool_size : Z) (h : mheap) : outcome mheap :=
  init_hole_pool Memhole MAX_MHOLES MHoleList MFreeList MUseList base_addr pool_size h.

(** ** Searching the lists

    A walk that visits more nodes than the store has never ends, so running out
    of [walk_fuel] is [Hang]. *)

Definition walk_fuel (h : mheap) : nat := S (size h).

Fixpoint walk (fuel : nat) (P : MemHole → bool) (stop p : hptr) (h : mheap) : outcome hptr :=
  match fuel with
  | O => Hang
  | S fuel =>
      if decide (p = stop) then Ret NullP
      else m ← deref h p;
           if P m then Ret p else walk fuel P stop (mh_next m) h
  end.

Definition _search_used_mhole (ptr : Z) (use_list : hptr) (h : mheap) : outcome hptr :=
  u ← deref h use_list;
  walk (walk_fuel h) (fun p => mh_base p =? ptr) use_list (mh_next u) h.

Definition _search_used_align_mhole (ptr : Z) (use_list : hptr) (h : mheap) : outcome hptr :=
  u ← deref h use_list;
  walk (walk_fuel h) (fun p => mh_align_base p =? ptr) use_list (mh_next u) h.

(** [used_check] stops the kernel ([for(;;);]) when a range in use has the base
    of the hole about to be handed out. *)
Definition used_check (mem : hptr) (h : mheap) : outcome unit :=
  m ← deref h mem;
  u ← deref h MUseList;
  i ← walk (walk_fuel h) (fun i => mh_base i =? mh_base m) MUseList (mh_next u) h;
  if decide (i = NullP) then Ret () else Hang.

Definition new_mhole (hole_list : hptr) (h : mheap) : outcome (hptr * mheap) :=
  hl ← deref h hole_list;
  let ret := mh_next hl in
  h ← MHOLE_REMOVE ret h;
  Ret (ret, h).

(** ** Allocation *)

(** Hand out the whole hole [i]. *)
Definition take_hole (use_list i : hptr) (h : mheap) : outcome mheap :=
  h ← MHOLE_REMOVE i h;
  MHOLE_INSERT_HEAD i use_list h.

(** Cut [size] bytes off the front of the hole [i] into a new descriptor, whose
    [align_base] only [aalloc] writes. *)
Definition split_hole (hole_list i : hptr) (align_base : option Z) (size : Z) (h : mheap) :
    outcome (hptr * mheap) :=
  '(new, h) ← new_mhole hole_list h;
  m ← deref h i;
  h ← store (set_base (mh_base m)) new h;
  h ← match align_base with
      | Some a => store (set_align_base a) new h
      | None => Ret h
      end;
  h ← store (set_size size) new h;
  m ← deref h i;
  h ← store (set_base (u32 (mh_base m + size))) i h;
  m ← deref h i;
  h ← store (set_size (u32 (mh_size m - size))) i h;
  Ret (new, h).

Fixpoint kalloc_loop (fuel : nat) (i : hptr) (size : Z) (h : mheap) : outcome (Z * mheap) :=
  match fuel with
  | O => Hang
  | S fuel =>
      if decide (i = MFreeList) then Ret (0, h)
      else
        m ← deref h i;
        if size <? mh_size m then
          _ ← used_check i h;
          if MIN_MEMSIZE <? mh_size m - size then
            '(new, h) ← split_hole MHoleList i None size h;
            h ← MHOLE_INSERT_HEAD new MUseList h;
            n ← deref h new;
            Ret (mh_base n, h)
          else
            h ← take_hole MUseList i h;
            m ← deref h i;
            Ret (mh_base m, h)
        else if mh_size m =? size then
          _ ← used_check i h;
          h ← take_hole MUseList i h;
          m ← deref h i;
          Ret (mh_base m, h)
        else kalloc_loop fuel (mh_next m) size h
  end.

Definition kalloc (size : Z) (h : mheap) : outcome (Z * mheap) :=
  fl ← deref h MFreeList;
  kalloc_loop (walk_fuel h) (mh_next fl) size h.

(** [v] rounded up to a multiple of [block], as [aalloc] writes it. *)
Definition round_up_block (v block : Z) : Z :=
  if Z.land v (u32 (block - 1)) =? 0 then v
  else u32 (Z.land v (not32 (u32 (block - 1))) + block).

Fixpoint aalloc_loop (fuel : nat) (i : hptr) (block block_size : Z) (h : mheap) :
    outcome (Z * mheap) :=
  match fuel with
  | O => Hang
  | S fuel =>
      if decide (i = MFreeList) then Ret (0, h)
      else
        m ← deref h i;
        let align_base := round_up_block (mh_base m) block in
        let alloc_size := u32 (align_base + block_size - mh_base m) in
        if alloc_size <? mh_size m then
          if MIN_MEMSIZE <? mh_size m - alloc_size then
            _ ← used_check i h;
            '(new, h) ← split_hole MHoleList i (Some align_base) alloc_size h;
            h ← MHOLE_INSERT_HEAD new MUseList h;
            n ← deref h new;
            Ret (mh_align_base n, h)
          else
            _ ← used_check i h;
            h ← take_hole MUseList i h;
            h ← store (set_align_base align_base) i h;
            m ← deref h i;
            Ret (mh_align_base m, h)
        else if mh_size m =? alloc_size then
          _ ← used_check i h;
          h ← take_hole MUseList i h;
          h ← store (set_align_base align_base) i h;
          m ← deref h i;
          Ret (mh_align_base m, h)
        else aalloc_loop fuel (mh_next m) block block_size h
  end.

(** [1 << align_bit] is undefined for a shift by the width of [int]. *)
Definition aalloc (size align_bit : Z) (h : mheap) : outcome (Z * mheap) :=
  if 32 <? align_bit then Ret (0, h)
  else if align_bit =? 32 then Fault
  else
    let block := u32 (Z.shiftl 1 align_bit) in
    let block_size := round_up_block size block in
    fl ← deref h MFreeList;
    aalloc_loop (walk_fuel h) (mh_next fl) block block_size h.

Fixpoint palloc_loop (fuel : nat) (i : hptr) (block_size : Z) (h : mheap) : outcome (Z * mheap) :=
  match fuel with
  | O => Hang
  | S fuel =>
      if decide (i = PMFreeList) then Ret (0, h)
      else
        m ← deref h i;
        if block_size <? mh_size m then
          '(new, h) ← split_hole PMHoleList i None block_size h;
          h ← MHOLE_INSERT_HEAD new PMUseList h;
          n ← deref h new;
          Ret (mh_base n, h)
        else if mh_size m =? block_size then
          h ← take_hole PMUseList i h;
          m ← deref h i;
          Ret (mh_base m, h)
        else palloc_loop fuel (mh_next m) block_size h
  end.

(** The size [palloc] rounds a request to. *)
Definition palloc_block_size (size : Z) : Z :=
  if Z.land size (not32 (BLOCK_SIZE - 1)) =? 0
  then u32 (Z.land size (not32 (BLOCK_SIZE - 1)) + BLOCK_SIZE)
  else Z.land size (not32 (BLOCK_SIZE - 1)).

Definition palloc (size : Z) (h : mheap) : outcome (Z * mheap) :=
  fl ← deref h PMFreeList;
  palloc_loop (walk_fuel h) (mh_next fl) (palloc_block_size size) h.

(** ** Freeing *)

Fixpoint merge_sum (fuel : nat) (i memfrom memto : hptr) (h : mheap) : outcome mheap :=
  match fuel with
  | O => Hang
  | S fuel =>
      t ← deref h memto;
      if decide (i = mh_next t) then Ret h
      else
        m ← deref h i;
        f ← deref h memfrom;
        h ← store (set_size (u32 (mh_size f + mh_size m))) memfrom h;
        m ← deref h i;
        merge_sum fuel (mh_next m) memfrom memto h
  end.

Fixpoint merge_move (fuel : nat) (i next : hptr) (h : mheap) : outcome mheap :=
  match fuel with
  | O => Hang
  | S fuel =>
      if decide (i = next) then Ret h
      else
        m ← deref h i;
        let j := mh_next m in
        h ← MHOLE_REMOVE i h;
        h ← MHOLE_CLEAN i h;
        h ← MHOLE_INSERT_HEAD i MHoleList h;
        merge_move fuel j next h
  end.

Definition merge_hole (memfrom memto : hptr) (h : mheap) : outcome mheap :=
  f ← deref h memfrom;
  h ← merge_sum (walk_fuel h) (mh_next f) memfrom memto h;
  f ← deref h memfrom;
  t ← deref h memto;
  merge_move (walk_fuel h) (mh_next f) (mh_next t) h.

(** The merge with the neighbours that [_internal_common_merge] and [pfree] end
    with. *)
Definition merge_neighbours (mem : hptr) (h : mheap) : outcome mheap :=
  m ← deref h mem;
  p ← deref h (mh_prev m);
  n ← deref h (mh_next m);
  if (u32 (mh_base p + mh_size p) =? mh_base m) &&
     (u32 (mh_base m + mh_size m) =? mh_base n)
  then merge_hole (mh_prev m) (mh_next m) h
  else if u32 (mh_base p + mh_size p) =? mh_base m
  then merge_hole (mh_prev m) mem h
  else if u32 (mh_base m + mh_size m) =? mh_base n
  then merge_hole mem (mh_next m) h
  else Ret h.

(** The body that [_internal_common_merge] (for [mfree_list]) and [pfree] (for
    [p_mfree_list]) share: unlink [mem], insert it before the first free range
    above it, and merge it with its neighbours.  A walk that finds no range
    above leaves [mem] unlinked, with its old links, and goes on. *)
Definition free_into (free_list mem : hptr) (h : mheap) : outcome (Z * mheap) :=
  h ← MHOLE_REMOVE mem h;
  m ← deref h mem;
  fl ← deref h free_list;
  i ← walk (walk_fuel h) (fun i => mh_base m <? mh_base i) free_list (mh_next fl) h;
  if decide (i = NullP) then
    h ← merge_neighbours mem h;
    Ret (KFREE_OK, h)
  else
    f ← deref h i;
    if mh_base f <? u32 (mh_base m + mh_size m) then Ret (KFREE_FAIL_ILLEGAL1, h)
    else
      h ← MHOLE_INSERT_BEFORE mem i h;
      h ← merge_neighbours mem h;
      Ret (KFREE_OK, h).

Definition _internal_common_merge (mem : hptr) (h : mheap) : outcome (Z * mheap) :=
  free_into MFreeList mem h.

Definition kfree (ptr : Z) (h : mheap) : outcome (Z * mheap) :=
  mem ← _search_used_mhole ptr MUseList h;
  if decide (mem = NullP) then Ret (KFREE_FAIL_NOT_MHOLE, h)
  else _internal_common_merge mem h.

Definition afree (ptr : Z) (h : mheap) : outcome (Z * mheap) :=
  mem ← _search_used_align_mhole ptr MUseList h;
  if decide (mem = NullP) then Ret (KFREE_FAIL_NOT_MHOLE, h)
  else _internal_common_merge mem h.

Definition pfree (ptr : Z) (h : mheap) : outcome (Z * mheap) :=
  mem ← _search_used_mhole ptr PMUseList h;
  if decide (mem = NullP) then Ret (KFREE_FAIL_NOT_MHOLE, h)
  else free_into PMFreeList mem h.
