(* ===== verification/MemoryLists.v ===== *)
(** * Circular doubly linked lists of descriptors

    [chain] says that consecutive pointers of a list are linked in both
    directions; the lemmas give the effect of the list macros of [memory.h] on
    the links and the payload of every descriptor. *)

From S2P Require Import Prelude Memory.

(** ** Fields of a store, as partial functions *)

Definition nxt (h : mheap) (p : hptr) : option hptr := mh_next <$> h !! p.
Definition prv (h : mheap) (p : hptr) : option hptr := mh_prev <$> h !! p.
Definition dat (h : mheap) (p : hptr) : option (Z * Z * Z) :=
  (fun m => (mh_base m, mh_align_base m, mh_size m)) <$> h !! p.

Lemma nxt_is_Some h p q : nxt h p = Some q → is_Some (h !! p).
Proof. unfold nxt. destruct (h !! p); naive_solver. Qed.
Lemma prv_is_Some h p q : prv h p = Some q → is_Some (h !! p).
Proof. unfold prv. destruct (h !! p); naive_solver. Qed.
Lemma dat_is_Some h p d : dat h p = Some d → is_Some (h !! p).
Proof. unfold dat. destruct (h !! p); naive_solver. Qed.
Lemma is_Some_nxt h p : is_Some (h !! p) → ∃ q, nxt h p = Some q.
Proof. intros [m Hm]. unfold nxt. rewrite Hm. by eexists. Qed.

Create HintDb mheap.
#[export] Hint Resolve nxt_is_Some prv_is_Some dat_is_Some : mheap.

(** Replace the value of a function at one point. *)
Definition upd {A} (f : hptr → A) (p : hptr) (v : A) : hptr → A :=
  fun q => if decide (q = p) then v else f q.

(** ** One store *)

Lemma deref_Ret h p m : h !! p = Some m → deref h p = Ret m.
Proof. unfold deref. by intros ->. Qed.

Lemma store_dom f p h h' : store f p h = Ret h' → dom h' = dom h.
Proof.
  unfold store, deref. destruct (h !! p) as [m|] eqn:E; simpl; [|done].
  intros [= <-]. rewrite dom_insert_L. apply elem_of_dom_2 in E. set_solver.
Qed.

Lemma store_lookup f p h m :
  h !! p = Some m → ∃ h', store f p h = Ret h' ∧ ∀ q, h' !! q = if decide (q = p) then Some (f m) else h !! q.
Proof.
  intros E. unfold store. rewrite (deref_Ret _ _ _ E). simpl. eexists. split; [done|].
  intros q. rewrite lookup_insert. destruct (decide (p = q)), (decide (q = p)); congruence.
Qed.

Section store.
Context (h : mheap) (p : hptr) (Hp : is_Some (h !! p)).

Lemma store_next_spec q : ∃ h', store (set_next q) p h = Ret h' ∧
  (∀ r, nxt h' r = upd (nxt h) p (Some q) r) ∧ (∀ r, prv h' r = prv h r) ∧
  (∀ r, dat h' r = dat h r) ∧ dom h' = dom h.
Proof using Hp.
  destruct Hp as [m E]. destruct (store_lookup (set_next q) p h m E) as (h' & Hs & Hl).
  exists h'. split_and!; try done; [..|by eapply store_dom];
    intros r; unfold nxt, prv, dat, upd; rewrite Hl; case_decide; subst; rewrite ?E; done.
Qed.

Lemma store_prev_spec q : ∃ h', store (set_prev q) p h = Ret h' ∧
  (∀ r, nxt h' r = nxt h r) ∧ (∀ r, prv h' r = upd (prv h) p (Some q) r) ∧
  (∀ r, dat h' r = dat h r) ∧ dom h' = dom h.
Proof using Hp.
  destruct Hp as [m E]. destruct (store_lookup (set_prev q) p h m E) as (h' & Hs & Hl).
  exists h'. split_and!; try done; [..|by eapply store_dom];
    intros r; unfold nxt, prv, dat, upd; rewrite Hl; case_decide; subst; rewrite ?E; done.
Qed.

(** A store to the payload of [p]. *)
Lemma store_data_spec f b a s b' a' s' :
  (∀ pr nx, f (mkMemHole b a s pr nx) = mkMemHole b' a' s' pr nx) →
  dat h p = Some (b, a, s) →
  ∃ h', store f p h = Ret h' ∧
  (∀ r, nxt h' r = nxt h r) ∧ (∀ r, prv h' r = prv h r) ∧
  (∀ r, dat h' r = upd (dat h) p (Some (b', a', s')) r) ∧ dom h' = dom h.
Proof using Hp.
  intros Hf. destruct Hp as [m E]. destruct (store_lookup f p h m E) as (h' & Hs & Hl).
  destruct m as [b0 a0 s0 pr nx]. unfold dat at 1. rewrite E. simpl. intros [= -> -> ->].
  rewrite Hf in Hl. exists h'. split_and!; try done; [..|by eapply store_dom];
    intros r; unfold nxt, prv, dat, upd; rewrite Hl; case_decide; subst; rewrite ?E; done.
Qed.
End store.

(** ** The macros *)

Lemma deref_eq h p a b x y z :
  prv h p = Some a → nxt h p = Some b → dat h p = Some (x, y, z) →
  deref h p = Ret (mkMemHole x y z a b).
Proof.
  unfold prv, nxt, dat, deref. destruct (h !! p) as [[]|]; simpl; [|done]. by intros [= ->] [= ->] [= -> -> ->].
Qed.

Lemma deref_total h p : is_Some (h !! p) → ∃ a b x y z,
  prv h p = Some a ∧ nxt h p = Some b ∧ dat h p = Some (x, y, z).
Proof. intros [[x y z a b] E]. exists a, b, x, y, z. unfold prv, nxt, dat. by rewrite E. Qed.

Lemma dom_is_Some (h h' : mheap) p : dom h' = dom h → is_Some (h !! p) → is_Some (h' !! p).
Proof. rewrite <-!elem_of_dom. by intros ->. Qed.
#[export] Hint Resolve dom_is_Some : mheap.

Lemma upd_eq {A} (f : hptr → A) p v : upd f p v p = v.
Proof. unfold upd. by case_decide. Qed.
Lemma upd_ne {A} (f : hptr → A) p v q : q ≠ p → upd f p v q = f q.
Proof. unfold upd. by case_decide. Qed.

Lemma MHOLE_REMOVE_spec h p a b :
  prv h p = Some a → nxt h p = Some b → is_Some (h !! a) → is_Some (h !! b) →
  ∃ h', MHOLE_REMOVE p h = Ret h' ∧
  (∀ r, nxt h' r = upd (nxt h) a (Some b) r) ∧ (∀ r, prv h' r = upd (prv h) b (Some a) r) ∧
  (∀ r, dat h' r = dat h r) ∧ dom h' = dom h.
Proof.
  intros Hpa Hpb Ha Hb. unfold MHOLE_REMOVE.
  destruct (deref_total h p) as (a' & b' & x & y & z & Ea & Eb & Ed); [eauto with mheap|].
  assert (a' = a) as -> by congruence. assert (b' = b) as -> by congruence.
  rewrite (deref_eq _ _ _ _ _ _ _ Ea Eb Ed), bind_ret. simpl.
  destruct (store_next_spec h a Ha b) as (h1 & -> & Hn1 & Hp1 & Hd1 & Hdom1). rewrite bind_ret.
  rewrite (deref_eq h1 p a b x y z), bind_ret by
    (rewrite ?Hp1, ?Hn1, ?Hd1; unfold upd; repeat case_decide; congruence). simpl.
  destruct (store_prev_spec h1 b) with (q := a) as (h2 & -> & Hn2 & Hp2 & Hd2 & Hdom2);
    [eauto with mheap|].
  exists h2. split_and!; [done|..|congruence]; intros r.
  - by rewrite Hn2, Hn1.
  - rewrite Hp2. unfold upd. by rewrite Hp1.
  - by rewrite Hd2, Hd1.
Qed.

Lemma MHOLE_INSERT_HEAD_spec h p hd n :
  nxt h hd = Some n → is_Some (h !! p) → is_Some (h !! n) → p ≠ hd → p ≠ n →
  ∃ h', MHOLE_INSERT_HEAD p hd h = Ret h' ∧
  (∀ r, nxt h' r = upd (upd (nxt h) p (Some n)) hd (Some p) r) ∧
  (∀ r, prv h' r = upd (upd (prv h) n (Some p)) p (Some hd) r) ∧
  (∀ r, dat h' r = dat h r) ∧ dom h' = dom h.
Proof.
  intros Hn Hp HnS Hne Hne'. unfold MHOLE_INSERT_HEAD.
  destruct (deref_total h hd) as (a & b & x & y & z & Ea & Eb & Ed); [eauto with mheap|].
  assert (b = n) as -> by congruence. rewrite (deref_eq _ _ _ _ _ _ _ Ea Eb Ed), bind_ret. simpl.
  destruct (store_prev_spec h n HnS p) as (h1 & -> & Hn1 & Hp1 & Hd1 & Hdom1). rewrite bind_ret.
  destruct (deref_total h1 hd) as (a' & b' & x' & y' & z' & Ea' & Eb' & Ed');
    [eauto with mheap|].
  rewrite (deref_eq _ _ _ _ _ _ _ Ea' Eb' Ed'), bind_ret. simpl.
  assert (b' = n) as -> by (rewrite Hn1 in Eb'; congruence).
  destruct (store_next_spec h1 p) with (q := n) as (h2 & -> & Hn2 & Hp2 & Hd2 & Hdom2);
    [eauto with mheap|]. rewrite bind_ret.
  destruct (store_next_spec h2 hd) with (q := p) as (h3 & -> & Hn3 & Hp3 & Hd3 & Hdom3);
    [eauto with mheap|]. rewrite bind_ret.
  destruct (store_prev_spec h3 p) with (q := hd) as (h4 & -> & Hn4 & Hp4 & Hd4 & Hdom4);
    [eauto with mheap|].
  exists h4. split_and!; [done|..|congruence]; intros r.
  - rewrite Hn4, Hn3. unfold upd. rewrite Hn2. unfold upd. by rewrite Hn1.
  - rewrite Hp4. unfold upd. rewrite Hp3, Hp2, Hp1. done.
  - by rewrite Hd4, Hd3, Hd2, Hd1.
Qed.

Lemma MHOLE_INSERT_BEFORE_spec h p ep a :
  prv h ep = Some a → is_Some (h !! p) → is_Some (h !! a) → p ≠ ep → p ≠ a →
  ∃ h', MHOLE_INSERT_BEFORE p ep h = Ret h' ∧
  (∀ r, nxt h' r = upd (upd (nxt h) a (Some p)) p (Some ep) r) ∧
  (∀ r, prv h' r = upd (upd (prv h) p (Some a)) ep (Some p) r) ∧
  (∀ r, dat h' r = dat h r) ∧ dom h' = dom h.
Proof.
  intros Ha Hp HaS Hne Hne'. unfold MHOLE_INSERT_BEFORE.
  destruct (deref_total h ep) as (a' & b & x & y & z & Ea & Eb & Ed); [eauto with mheap|].
  assert (a' = a) as -> by congruence. rewrite (deref_eq _ _ _ _ _ _ _ Ea Eb Ed), bind_ret. simpl.
  destruct (store_next_spec h a HaS p) as (h1 & -> & Hn1 & Hp1 & Hd1 & Hdom1). rewrite bind_ret.
  destruct (deref_total h1 ep) as (a' & b' & x' & y' & z' & Ea' & Eb' & Ed');
    [eauto with mheap|].
  rewrite (deref_eq _ _ _ _ _ _ _ Ea' Eb' Ed'), bind_ret. simpl.
  assert (a' = a) as -> by (rewrite Hp1 in Ea'; congruence).
  destruct (store_prev_spec h1 p) with (q := a) as (h2 & -> & Hn2 & Hp2 & Hd2 & Hdom2);
    [eauto with mheap|]. rewrite bind_ret.
  destruct (store_prev_spec h2 ep) with (q := p) as (h3 & -> & Hn3 & Hp3 & Hd3 & Hdom3);
    [eauto with mheap|]. rewrite bind_ret.
  destruct (store_next_spec h3 p) with (q := ep) as (h4 & -> & Hn4 & Hp4 & Hd4 & Hdom4);
    [eauto with mheap|].
  exists h4. split_and!; [done|..|congruence]; intros r.
  - rewrite Hn4. unfold upd. rewrite Hn3, Hn2, Hn1. done.
  - rewrite Hp4, Hp3. unfold upd. rewrite Hp2. unfold upd. by rewrite Hp1.
  - by rewrite Hd4, Hd3, Hd2, Hd1.
Qed.

(** ** Chains *)

Definition linked (h : mheap) (p q : hptr) : Prop := nxt h p = Some q ∧ prv h q = Some p.

Fixpoint chain (h : mheap) (l : list hptr) : Prop :=
  match l with
  | p :: (q :: _) as l' => linked h p q ∧ chain h l'
  | _ => True
  end.

(** The circular list with head [hd] and nodes [l]. *)
Definition ring (h : mheap) (hd : hptr) (l : list hptr) : Prop := chain h (hd :: l ++ [hd]).

Lemma chain_cons2 h p q l : chain h (p :: q :: l) ↔ linked h p q ∧ chain h (q :: l).
Proof. done. Qed.

Lemma chain_app h l1 x l2 : chain h (l1 ++ x :: l2) ↔ chain h (l1 ++ [x]) ∧ chain h (x :: l2).
Proof.
  induction l1 as [|p l1 IH]; simpl; [naive_solver|].
  destruct l1 as [|q l1]; simpl in *; [naive_solver|]. rewrite IH. naive_solver.
Qed.

#[global] Arguments chain _ _ : simpl never.

(** A chain only reads [next] of all nodes but the last and [prev] of all but
    the first. *)
Lemma chain_frame h h' l :
  (∀ p, p ∈ removelast l → nxt h' p = nxt h p) →
  (∀ p, p ∈ tail l → prv h' p = prv h p) →
  chain h l → chain h' l.
Proof.
  induction l as [|p [|q l] IH]; intros Hn Hp; [done..|].
  rewrite !chain_cons2. intros [[Hpq Hqp] Hc]. change (removelast (p :: q :: l)) with
    (p :: removelast (q :: l)) in Hn. simpl in Hp. split; [split|].
  - rewrite (Hn p); [done|set_solver].
  - rewrite (Hp q); [done|set_solver].
  - apply IH; [intros ??; apply Hn; set_solver|intros ??; apply Hp; set_solver|done].
Qed.

(** A ring whose nodes two stores agree on. *)
Lemma ring_frame h h' hd l :
  (∀ p, p ∈ hd :: l → nxt h' p = nxt h p) →
  (∀ p, p ∈ hd :: l → prv h' p = prv h p) →
  ring h hd l → ring h' hd l.
Proof.
  intros Hn Hp. unfold ring. apply chain_frame.
  - intros p. rewrite app_comm_cons, removelast_last. apply Hn.
  - intros p ?. apply Hp. simpl in *. set_solver.
Qed.

(** The two neighbours of a node of a ring. *)
Lemma ring_neighbours h hd l1 x l2 :
  ring h hd (l1 ++ x :: l2) → ∃ A a b B, hd :: l1 = A ++ [a] ∧ l2 ++ [hd] = b :: B ∧
  prv h x = Some a ∧ nxt h x = Some b ∧ nxt h a = Some x ∧ prv h b = Some x ∧
  chain h (A ++ [a]) ∧ chain h (b :: B).
Proof.
  intros Hr. destruct (exists_last (l := hd :: l1)) as (A & a & EA); [done|].
  destruct (l2 ++ [hd]) as [|b B] eqn:EB; [by destruct l2|].
  exists A, a, b, B. unfold ring in Hr. rewrite <-app_assoc in Hr. simpl in Hr.
  rewrite EB, app_comm_cons, EA, <-app_assoc in Hr. simpl in Hr.
  apply chain_app in Hr as [Hr1 Hr2]. rewrite !chain_cons2 in Hr2.
  destruct Hr2 as [[??] [[??] ?]]. by split_and!.
Qed.

Lemma ring_dom h hd l p : ring h hd l → p ∈ hd :: l → is_Some (h !! p).
Proof.
  intros Hr Hp. apply elem_of_cons in Hp as [->|Hp].
  - unfold ring in Hr. destruct l; simpl in Hr; rewrite chain_cons2 in Hr;
      destruct Hr as [[? _] _]; eauto with mheap.
  - apply list_elem_of_split in Hp as (l1 & l2 & ->).
    apply ring_neighbours in Hr as (A & a & b & B & _ & _ & Ha & _). eauto with mheap.
Qed.

Lemma ring_remove h h' hd l1 x l2 a b :
  NoDup (hd :: l1 ++ x :: l2) → ring h hd (l1 ++ x :: l2) →
  prv h x = Some a → nxt h x = Some b →
  (∀ r, nxt h' r = upd (nxt h) a (Some b) r) → (∀ r, prv h' r = upd (prv h) b (Some a) r) →
  ring h' hd (l1 ++ l2).
Proof.
  intros Hnd Hr Ha Hb Hn Hp.
  destruct (ring_neighbours _ _ _ _ _ Hr) as (A & a' & b' & B & EA & EB & ? & ? & ? & ? & HcA & HcB).
  assert (a' = a) as -> by congruence. assert (b' = b) as -> by congruence.
  assert (a ∈ hd :: l1) as Hain by (rewrite EA; set_solver).
  assert (b ∈ l2 ++ [hd]) as Hbin by (rewrite EB; set_solver).
  rewrite app_comm_cons in Hnd. apply NoDup_app in Hnd as (Hnd1 & Hdis & Hnd2).
  apply NoDup_cons in Hnd2 as [Hx Hnd2].
  assert (NoDup (A ++ [a])) as HndA by by rewrite <-EA.
  apply NoDup_app in HndA as (_ & HdA & _).
  unfold ring. rewrite <-app_assoc, EB, app_comm_cons, EA, <-app_assoc. simpl.
  apply chain_app. split; [|rewrite chain_cons2; split].
  - eapply chain_frame; [..|exact HcA]; intros p Hpin.
    + rewrite removelast_last in Hpin. rewrite Hn, upd_ne; [done|]. intros ->. set_solver.
    + rewrite Hp, upd_ne; [done|]. intros ->. rewrite <-EA in Hpin. simpl in Hpin.
      apply NoDup_cons in Hnd1 as [? _]. set_solver.
  - split; [rewrite Hn|rewrite Hp]; apply upd_eq.
  - eapply chain_frame; [..|exact HcB]; intros p Hpin.
    + rewrite <-EB, removelast_last in Hpin. rewrite Hn, upd_ne; [done|].
      intros ->. set_solver.
    + rewrite Hp, upd_ne; [done|]. intros ->.
      assert (NoDup (b :: B)) as HndB.
      { rewrite <-EB. apply NoDup_app. split_and!; [done|set_solver|apply NoDup_singleton]. }
      apply NoDup_cons in HndB as [? _]. done.
Qed.

Lemma ring_insert_head h h' hd l p n :
  NoDup (hd :: l) → p ∉ hd :: l → ring h hd l → nxt h hd = Some n →
  (∀ r, nxt h' r = upd (upd (nxt h) p (Some n)) hd (Some p) r) →
  (∀ r, prv h' r = upd (upd (prv h) n (Some p)) p (Some hd) r) →
  ring h' hd (p :: l).
Proof.
  intros Hnd Hpn Hr Hhd Hn Hp. unfold ring in *. simpl.
  destruct (l ++ [hd]) as [|n' B] eqn:EB; [by destruct l|]. rewrite !chain_cons2 in *.
  destruct Hr as [[??] HcB]. assert (n' = n) as -> by congruence.
  assert (n ∈ l ++ [hd]) as Hnin by (rewrite EB; set_solver).
  apply NoDup_cons in Hnd as [Hhdl Hnd]. split_and!.
  - split; [rewrite Hn|rewrite Hp]; apply upd_eq.
  - split.
    + rewrite Hn, upd_ne, upd_eq; [done|set_solver].
    + rewrite Hp, upd_ne, upd_eq; [done|]. intros ->. set_solver.
  - eapply chain_frame; [..|exact HcB]; intros q Hq.
    + rewrite <-EB, removelast_last in Hq. rewrite Hn, !upd_ne; [done|..]; intros ->; set_solver.
    + assert (q ∈ l ++ [hd]) by (rewrite EB; simpl in Hq; set_solver).
      rewrite Hp, !upd_ne; [done|..]; intros ->; [|set_solver]. simpl in Hq.
      assert (NoDup (n :: B)) as HndB.
      { rewrite <-EB. apply NoDup_app. split_and!; [done|set_solver|apply NoDup_singleton]. }
      apply NoDup_cons in HndB as [? _]. done.
Qed.

Lemma ring_insert_before h h' hd l1 x l2 p a :
  NoDup (hd :: l1 ++ x :: l2) → p ∉ hd :: l1 ++ x :: l2 → ring h hd (l1 ++ x :: l2) →
  prv h x = Some a →
  (∀ r, nxt h' r = upd (upd (nxt h) a (Some p)) p (Some x) r) →
  (∀ r, prv h' r = upd (upd (prv h) p (Some a)) x (Some p) r) →
  ring h' hd (l1 ++ p :: x :: l2).
Proof.
  intros Hnd Hpn Hr Ha Hn Hp.
  destruct (ring_neighbours _ _ _ _ _ Hr) as (A & a' & b & B & EA & EB & ? & ? & ? & ? & HcA & HcB).
  assert (a' = a) as -> by congruence.
  assert (a ∈ hd :: l1) as Hain by (rewrite EA; set_solver).
  rewrite app_comm_cons in Hnd. apply NoDup_app in Hnd as (Hnd1 & Hdis & Hnd2).
  apply NoDup_cons in Hnd2 as [Hx Hnd2].
  assert (NoDup (A ++ [a])) as HndA by by rewrite <-EA.
  apply NoDup_app in HndA as (_ & HdA & _).
  unfold ring. rewrite <-app_assoc. simpl. rewrite EB, app_comm_cons, EA, <-app_assoc. simpl.
  apply chain_app. rewrite !chain_cons2. split_and!.
  - eapply chain_frame; [..|exact HcA]; intros q Hq.
    + rewrite removelast_last in Hq.
      assert (q ∈ hd :: l1) by (rewrite EA; set_solver).
      rewrite Hn, !upd_ne; [done|..]; intros ->; set_solver.
    + rewrite <-EA in Hq. simpl in Hq. rewrite Hp, !upd_ne; [done|..]; intros ->; set_solver.
  - split; [rewrite Hn, upd_ne, upd_eq|rewrite Hp, upd_ne, upd_eq]; [done|set_solver..].
  - split; [rewrite Hn|rewrite Hp]; apply upd_eq.
  - assert (x ≠ a) by set_solver. assert (x ≠ p) by set_solver. split.
    + rewrite Hn, !upd_ne; [done..].
    + assert (b ∈ l2 ++ [hd]) by (rewrite EB; set_solver).
      rewrite Hp, !upd_ne; [done|..]; intros ->; set_solver.
  - eapply chain_frame; [..|exact HcB]; intros q Hq.
    + rewrite <-EB, removelast_last in Hq. rewrite Hn, !upd_ne; [done|..]; intros ->; set_solver.
    + assert (q ∈ l2 ++ [hd]) by (rewrite EB; simpl in Hq; set_solver).
      rewrite Hp, !upd_ne; [done|..]; intros ->; set_solver.
Qed.
