(* ===== verification/MemoryRep.v ===== *)
(** * The lists of one pool, as lists of blocks

    [rep head h S D] says that the store [h] holds a pool whose three lists (the
    unused descriptors, the free ranges, the ranges in use) are the lists [S] of
    blocks, with the blocks [D] linked nowhere.  Each macro of [memory.h] moves
    a block between the lists and [D]. *)

From S2P Require Import Prelude Memory MemoryLists.

(** A descriptor with its payload. *)
Record blk := Blk { b_id : hptr; b_base : Z; b_align : Z; b_size : Z }.

#[export] Instance blk_eq_dec : EqDecision blk.
Proof. solve_decision. Defined.

(** The three lists of a pool: unused descriptors (holes), free, in use. *)
Inductive lk : Type := LH | LF | LU.
#[export] Instance lk_eq_dec : EqDecision lk.
Proof. solve_decision. Defined.

Definition ids (l : list blk) : list hptr := b_id <$> l.

Definition put (k : lk) (l : list blk) (S : lk → list blk) : lk → list blk :=
  fun k' => if decide (k' = k) then l else S k'.

Lemma put_eq k l S : put k l S k = l.
Proof. unfold put. by case_decide. Qed.
Lemma put_ne k l S k' : k' ≠ k → put k l S k' = S k'.
Proof. unfold put. by case_decide. Qed.

(** A block is on some list of [S] or unlinked. *)
Definition in_pool (S : lk → list blk) (D : list blk) (b : blk) : Prop := (∃ k, b ∈ S k) ∨ b ∈ D.

Lemma in_pool_insert S D k l1 b l2 c :
  S k = l1 ++ l2 → in_pool (put k (l1 ++ b :: l2) S) D c → in_pool S (b :: D) c.
Proof.
  intros Ek [[k' Hc]|Hc]; [|right; set_solver]. unfold put in Hc. case_decide; [|left; eauto].
  subst. apply elem_of_app in Hc as [Hc|[->|Hc]%elem_of_cons];
    [left; exists k; rewrite Ek; set_solver|right; set_solver|left; exists k; rewrite Ek; set_solver].
Qed.

Section rep.
Context (head : lk → hptr).
Implicit Types (h : mheap) (S : lk → list blk) (D : list blk) (b c : blk).

Definition node S (k : lk) : list hptr := head k :: ids (S k).

(** No descriptor is in two places. *)
Record separate S D : Prop := {
  sep_nodup : ∀ k, NoDup (node S k);
  sep_lists : ∀ k k' p, p ∈ node S k → p ∈ node S k' → k = k';
  sep_det : NoDup (ids D);
  sep_det_lists : ∀ k p, p ∈ node S k → p ∉ ids D
}.

Record rep h S D : Prop := {
  rep_ring : ∀ k, ring h (head k) (ids (S k));
  rep_separate : separate S D;
  rep_data : ∀ b, in_pool S D b → dat h (b_id b) = Some (b_base b, b_align b, b_size b);
  rep_head : ∃ a, dat h (head LF) = Some (0, a, 0);
  rep_null : h !! NullP = None
}.

Lemma ids_app l1 l2 : ids (l1 ++ l2) = ids l1 ++ ids l2.
Proof. apply fmap_app. Qed.
Lemma ids_cons b l : ids (b :: l) = b_id b :: ids l.
Proof. done. Qed.
Lemma elem_of_ids p l : p ∈ ids l ↔ ∃ b, b ∈ l ∧ p = b_id b.
Proof. unfold ids. rewrite list_elem_of_fmap. naive_solver. Qed.
Lemma elem_of_ids_2 b l : b ∈ l → b_id b ∈ ids l.
Proof. intros. apply elem_of_ids. eauto. Qed.
Lemma elem_of_node S k b : b ∈ S k → b_id b ∈ node S k.
Proof. intros. apply elem_of_cons. right. by apply elem_of_ids_2. Qed.

Lemma node_put S k l k' p : p ∈ node (put k l S) k' →
  (k' = k ∧ p ∈ head k :: ids l) ∨ (k' ≠ k ∧ p ∈ node S k').
Proof.
  unfold node. destruct (decide (k' = k)) as [->|]; [rewrite put_eq|rewrite put_ne by done]; auto.
Qed.

(** ** Moving a block between a list and the unlinked blocks *)

Lemma separate_remove S D k l1 b l2 :
  separate S D → S k = l1 ++ b :: l2 → separate (put k (l1 ++ l2) S) (b :: D).
Proof.
  intros Hs Ek. pose proof (sep_nodup _ _ Hs k) as Hnd. unfold node in Hnd. rewrite Ek in Hnd.
  rewrite ids_app, ids_cons in Hnd.
  apply NoDup_cons in Hnd as [Hhd [Hnd1 [Hdis [Hb Hnd2]%NoDup_cons]]%NoDup_app].
  assert (b_id b ∈ node S k) as Hbk by (apply elem_of_node; rewrite Ek; set_solver).
  assert (∀ k' p, p ∈ node (put k (l1 ++ l2) S) k' → p ∈ node S k' ∧ p ≠ b_id b) as Hsub.
  { intros k' p [[-> Hin]|[Hne Hin]]%node_put.
    - unfold node. rewrite Ek. rewrite !ids_app, ids_cons in *. set_solver.
    - split; [done|]. intros ->. eauto using sep_lists. }
  constructor.
  - intros k'. unfold node. destruct (decide (k' = k)) as [->|Hne]; [|rewrite put_ne by done; apply Hs].
    rewrite put_eq, ids_app. apply NoDup_cons. split; [set_solver|].
    apply NoDup_app. split_and!; [done|set_solver|done].
  - intros k1 k2 p [? _]%Hsub [? _]%Hsub. eauto using sep_lists.
  - rewrite ids_cons. apply NoDup_cons. split; [eauto using sep_det_lists|apply Hs].
  - intros k' p Hin. destruct (Hsub _ _ Hin). rewrite ids_cons.
    pose proof (sep_det_lists _ _ Hs k' p). set_solver.
Qed.

Lemma separate_insert S D k l1 b l2 :
  separate S (b :: D) → S k = l1 ++ l2 → separate (put k (l1 ++ b :: l2) S) D.
Proof.
  intros Hs Ek. pose proof (sep_nodup _ _ Hs k) as Hnd. unfold node in Hnd. rewrite Ek in Hnd.
  rewrite ids_app in Hnd. apply NoDup_cons in Hnd as [Hhd [Hnd1 [Hdis Hnd2]]%NoDup_app].
  assert (∀ k', b_id b ∉ node S k') as Hbk.
  { intros k' Hin. apply (sep_det_lists _ _ Hs _ _ Hin). rewrite ids_cons. set_solver. }
  pose proof (sep_det _ _ Hs) as Hd. rewrite ids_cons in Hd. apply NoDup_cons in Hd as [HbD HD].
  assert (∀ k' p, p ∈ node (put k (l1 ++ b :: l2) S) k' →
    p ∈ node S k' ∨ (p = b_id b ∧ k' = k)) as Hsub.
  { intros k' p [[-> Hin]|[Hne Hin]]%node_put; [|by left].
    unfold node. rewrite Ek. rewrite !ids_app, ids_cons in *. set_solver. }
  constructor.
  - intros k'. unfold node. destruct (decide (k' = k)) as [->|Hne]; [|rewrite put_ne by done; apply Hs].
    specialize (Hbk k). unfold node in Hbk. rewrite Ek, ids_app in Hbk.
    rewrite put_eq, ids_app, ids_cons. apply NoDup_cons. split; [set_solver|].
    apply NoDup_app. split_and!; [done|set_solver|apply NoDup_cons; set_solver].
  - intros k1 k2 p Hp1 Hp2. apply Hsub in Hp1, Hp2.
    destruct Hp1 as [Hp1|[-> ->]], Hp2 as [Hp2|[? ->]]; subst;
      [eauto using sep_lists|destruct (Hbk k1); done|destruct (Hbk k2); done|done].
  - done.
  - intros k' p [Hin|[-> ->]]%Hsub; [|done]. pose proof (sep_det_lists _ _ Hs _ _ Hin) as H.
    rewrite ids_cons in H. set_solver.
Qed.

Section rep_facts.
Context {h S D} (Hr : rep h S D).

Lemma rep_node_dom k p : p ∈ node S k → is_Some (h !! p).
Proof using Hr. apply ring_dom, Hr. Qed.

Lemma rep_blk_dom b : in_pool S D b → is_Some (h !! b_id b).
Proof using Hr. intros Hb. eapply dat_is_Some, (rep_data _ _ _ Hr), Hb. Qed.

Lemma rep_not_null b : in_pool S D b → b_id b ≠ NullP.
Proof using Hr. intros [m Hm]%rep_blk_dom E. rewrite E, (rep_null _ _ _ Hr) in Hm. done. Qed.

(** A change of links that leaves a ring per list. *)
Lemma rep_relink h' S' D' :
  (∀ k, ring h' (head k) (ids (S' k))) → separate S' D' → (∀ b, in_pool S' D' b → in_pool S D b) →
  (∀ r, dat h' r = dat h r) → dom h' = dom h → rep h' S' D'.
Proof using Hr.
  intros ?? Hin Hd Hdom. constructor; [done|done|..].
  - intros b Hb%Hin. rewrite Hd. by apply Hr.
  - destruct (rep_head _ _ _ Hr) as [x ?]. exists x. by rewrite Hd.
  - apply not_elem_of_dom. rewrite Hdom. apply not_elem_of_dom, Hr.
Qed.

(** The other rings do not see a change of links at nodes of the ring [k]. *)
Lemma rep_ring_other h' k k' :
  k' ≠ k → (∀ p, p ∉ node S k → (∀ b, b ∈ D → p ≠ b_id b) → nxt h' p = nxt h p ∧ prv h' p = prv h p) →
  ring h' (head k') (ids (S k')).
Proof using Hr.
  intros Hne Hag. apply ring_frame with h; [..|apply Hr]; intros p Hin; apply Hag;
    try (intros ?; apply Hne; by eapply (sep_lists _ _ (rep_separate _ _ _ Hr)));
    intros b Hb ->; eapply (sep_det_lists _ _ (rep_separate _ _ _ Hr)); eauto using elem_of_ids_2.
Qed.
End rep_facts.

(** ** The macros *)

Lemma rep_remove h S D k l1 b l2 :
  rep h S D → S k = l1 ++ b :: l2 →
  ∃ h', MHOLE_REMOVE (b_id b) h = Ret h' ∧ rep h' (put k (l1 ++ l2) S) (b :: D) ∧ dom h' = dom h.
Proof.
  intros Hr Ek. pose proof (rep_ring _ _ _ Hr k) as Hring.
  pose proof (sep_nodup _ _ (rep_separate _ _ _ Hr) k) as Hnd.
  assert (node S k = head k :: ids l1 ++ b_id b :: ids l2) as Enode
    by (unfold node; by rewrite Ek, ids_app, ids_cons).
  rewrite Ek, ids_app, ids_cons in Hring. rewrite Enode in Hnd.
  destruct (ring_neighbours _ _ _ _ _ Hring) as (A & a & c & B & EA & EB & Ha & Hc & _).
  assert (a ∈ node S k) as Hain.
  { assert (a ∈ head k :: ids l1) by (rewrite EA; set_solver). rewrite Enode. set_solver. }
  assert (c ∈ node S k) as Hcin.
  { assert (c ∈ ids l2 ++ [head k]) by (rewrite EB; set_solver). rewrite Enode. set_solver. }
  destruct (MHOLE_REMOVE_spec h (b_id b) a c) as (h' & Hrun & Hn & Hp & Hd & Hdom);
    [done|done|eauto using rep_node_dom..|].
  exists h'. split_and!; [done| |done]. apply (rep_relink Hr); [..|done|done].
  - intros k'. destruct (decide (k' = k)) as [->|Hne].
    + rewrite put_eq, ids_app. eapply ring_remove; eauto.
    + rewrite put_ne by done. apply (rep_ring_other Hr h' k); [done|]. intros p ? _.
      rewrite Hn, Hp, !upd_ne by congruence. done.
  - eapply separate_remove; [apply Hr|done].
  - intros d [[k' Hd']|Hd']; [left; exists k'|apply elem_of_cons in Hd' as [->|?]; [left; exists k|by right]].
    + unfold put in Hd'. case_decide; subst; [rewrite Ek; set_solver|done].
    + rewrite Ek. set_solver.
Qed.

Lemma rep_det_ne h S D b k p : rep h S (b :: D) → p ∈ node S k → b_id b ≠ p.
Proof.
  intros Hr Hp <-. apply (sep_det_lists _ _ (rep_separate _ _ _ Hr) _ _ Hp). rewrite ids_cons. set_solver.
Qed.

Lemma rep_insert_head h S D k b :
  rep h S (b :: D) →
  ∃ h', MHOLE_INSERT_HEAD (b_id b) (head k) h = Ret h' ∧ rep h' (put k (b :: S k) S) D ∧ dom h' = dom h.
Proof.
  intros Hr. pose proof (rep_ring _ _ _ Hr k) as Hring.
  pose proof (sep_nodup _ _ (rep_separate _ _ _ Hr) k) as Hnd.
  assert (∃ n, nxt h (head k) = Some n ∧ n ∈ node S k) as (n & Hn & Hnin).
  { unfold ring in Hring. unfold node. destruct (S k) as [|c l]; simpl in *;
      rewrite chain_cons2 in Hring; destruct Hring as [[? _] _]; eexists; (split; [done|set_solver]). }
  destruct (MHOLE_INSERT_HEAD_spec h (b_id b) (head k) n) as (h' & Hrun & Hn' & Hp' & Hd & Hdom); [done|..].
  - eapply rep_blk_dom; [done|]. right. set_solver.
  - eapply rep_node_dom; eauto.
  - eapply (rep_det_ne _ _ _ _ k); [done|]. unfold node. set_solver.
  - by eapply (rep_det_ne _ _ _ _ k).
  - exists h'. split_and!; [done| |done]. apply (rep_relink Hr); [..|done|done].
    + intros k'. destruct (decide (k' = k)) as [->|Hne].
      * rewrite put_eq, ids_cons. eapply ring_insert_head; eauto.
        intros Hin. by eapply (rep_det_ne _ _ _ _ k).
      * rewrite put_ne by done. apply (rep_ring_other Hr h' k); [done|]. intros p ? Hpb.
        assert (p ≠ b_id b) by (apply Hpb; set_solver).
        assert (p ≠ head k) by (unfold node in *; set_solver).
        rewrite Hn', Hp', !upd_ne by congruence. done.
    + eapply (separate_insert _ _ _ []); [apply Hr|done].
    + intros c. by apply (in_pool_insert _ _ _ []).
Qed.

Lemma rep_insert_before h S D k l1 c l2 b :
  rep h S (b :: D) → S k = l1 ++ c :: l2 →
  ∃ h', MHOLE_INSERT_BEFORE (b_id b) (b_id c) h = Ret h' ∧
        rep h' (put k (l1 ++ b :: c :: l2) S) D ∧ dom h' = dom h.
Proof.
  intros Hr Ek. pose proof (rep_ring _ _ _ Hr k) as Hring.
  pose proof (sep_nodup _ _ (rep_separate _ _ _ Hr) k) as Hnd.
  assert (node S k = head k :: ids l1 ++ b_id c :: ids l2) as Enode
    by (unfold node; by rewrite Ek, ids_app, ids_cons).
  rewrite Ek, ids_app, ids_cons in Hring. rewrite Enode in Hnd.
  destruct (ring_neighbours _ _ _ _ _ Hring) as (A & a & d & B & EA & _ & Ha & _ & _).
  assert (a ∈ node S k) as Hain.
  { assert (a ∈ head k :: ids l1) by (rewrite EA; set_solver). rewrite Enode. set_solver. }
  assert (b_id c ∈ node S k) as Hcin by (rewrite Enode; set_solver).
  destruct (MHOLE_INSERT_BEFORE_spec h (b_id b) (b_id c) a) as (h' & Hrun & Hn' & Hp' & Hd & Hdom); [done|..].
  - eapply rep_blk_dom; [done|]. right. set_solver.
  - eapply rep_node_dom; eauto.
  - by eapply (rep_det_ne _ _ _ _ k).
  - by eapply (rep_det_ne _ _ _ _ k).
  - exists h'. split_and!; [done| |done]. apply (rep_relink Hr); [..|done|done].
    + intros k'. destruct (decide (k' = k)) as [->|Hne].
      * rewrite put_eq, ids_app, !ids_cons. eapply ring_insert_before; eauto.
        rewrite <-Enode. intros Hin. by eapply (rep_det_ne _ _ _ _ k).
      * rewrite put_ne by done. apply (rep_ring_other Hr h' k); [done|]. intros p ? Hpb.
        assert (p ≠ b_id b) by (apply Hpb; set_solver).
        rewrite Hn', Hp', !upd_ne by congruence. done.
    + eapply separate_insert; [apply Hr|done].
    + intros e. by apply in_pool_insert.
Qed.

(** ** Reading the lists *)

(** The pointer that follows the blocks before [l] on the list [k]. *)
Definition first (k : lk) (l : list blk) : hptr :=
  match l with [] => head k | b :: _ => b_id b end.

(** The pointer that precedes the blocks after [l] on the list [k]. *)
Definition final (k : lk) (l : list blk) : hptr := List.last (ids l) (head k).

Section reading.
Context {h S D} (Hr : rep h S D) (k : lk).

Lemma rep_first : nxt h (head k) = Some (first k (S k)).
Proof using Hr.
  pose proof (rep_ring _ _ _ Hr k) as Hring. unfold ring in Hring.
  destruct (S k); simpl in *; rewrite chain_cons2 in Hring; apply Hring.
Qed.

Lemma rep_links l1 b l2 : S k = l1 ++ b :: l2 →
  prv h (b_id b) = Some (final k l1) ∧ nxt h (b_id b) = Some (first k l2).
Proof using Hr.
  intros Ek. pose proof (rep_ring _ _ _ Hr k) as Hring. rewrite Ek, ids_app, ids_cons in Hring.
  destruct (ring_neighbours _ _ _ _ _ Hring) as (A & a & c & B & EA & EB & -> & -> & _). split; f_equal.
  - unfold final. destruct (ids l1) as [|x l] eqn:E.
    + simpl in *. destruct A as [|? [|]]; simplify_eq/=; done.
    + rewrite <-(last_last A a (head k)), <-EA. done.
  - destruct l2; simpl in *; congruence.
Qed.

Lemma rep_deref l1 b l2 : S k = l1 ++ b :: l2 →
  deref h (b_id b) = Ret (mkMemHole (b_base b) (b_align b) (b_size b) (final k l1) (first k l2)).
Proof using Hr.
  intros Ek. destruct (rep_links _ _ _ Ek). apply deref_eq; [done..|]. apply Hr.
  left. exists k. rewrite Ek. set_solver.
Qed.

Lemma rep_deref_head : ∃ x y z pr, deref h (head k) = Ret (mkMemHole x y z pr (first k (S k))).
Proof using Hr.
  destruct (deref_total h (head k)) as (pr & nx & x & y & z & Hp & Hn & Hd).
  { eapply (rep_node_dom Hr k). unfold node. set_solver. }
  rewrite rep_first in Hn. simplify_eq. exists x, y, z, pr.
  apply deref_eq; [done|apply rep_first|done].
Qed.

Lemma rep_length : (length (S k) < walk_fuel h)%nat.
Proof using Hr.
  unfold walk_fuel. apply Nat.lt_succ_r.
  pose proof (sep_nodup _ _ (rep_separate _ _ _ Hr) k) as [_ Hnd]%NoDup_cons.
  replace (length (S k)) with (length (ids (S k))) by apply length_fmap.
  rewrite <-(size_list_to_set (C := gset hptr) (ids (S k))) by done.
  rewrite <-size_dom. apply subseteq_size. intros p. rewrite elem_of_list_to_set, elem_of_dom.
  intros Hp. apply (rep_node_dom Hr k). unfold node. set_solver.
Qed.

(** A walk finds the first block with the property. *)
Lemma rep_walk_from (P : MemHole → bool) (Q : blk → bool) l1 l2 fuel :
  (∀ b pr nx, P (mkMemHole (b_base b) (b_align b) (b_size b) pr nx) = Q b) →
  S k = l1 ++ l2 → (length l2 < fuel)%nat →
  walk fuel P (head k) (first k l2) h = Ret (match find Q l2 with Some b => b_id b | None => NullP end).
Proof using Hr.
  intros HPQ. revert l1 fuel. induction l2 as [|b l2 IH]; intros l1 fuel Ek Hfuel;
    (destruct fuel as [|fuel]; [simpl in Hfuel; lia|]); simpl.
  - by rewrite decide_True.
  - rewrite decide_False.
    + rewrite (rep_deref _ _ _ Ek), bind_ret, HPQ. simpl. destruct (Q b); [done|].
      apply (IH (l1 ++ [b])); [by rewrite <-app_assoc|simpl in Hfuel; lia].
    + pose proof (sep_nodup _ _ (rep_separate _ _ _ Hr) k) as [Hh _]%NoDup_cons.
      rewrite Ek, ids_app, ids_cons in Hh. set_solver.
Qed.

Lemma rep_walk (P : MemHole → bool) (Q : blk → bool) :
  (∀ b pr nx, P (mkMemHole (b_base b) (b_align b) (b_size b) pr nx) = Q b) →
  walk (walk_fuel h) P (head k) (first k (S k)) h =
    Ret (match find Q (S k) with Some b => b_id b | None => NullP end).
Proof using Hr. intros HPQ. apply (rep_walk_from P Q [] _ _ HPQ); [done|apply rep_length]. Qed.
End reading.

(** ** Writing the payload of a block *)

Lemma rep_store h S D S' D' b b' f :
  rep h S D → in_pool S D b → b_id b' = b_id b →
  (∀ pr nx, f (mkMemHole (b_base b) (b_align b) (b_size b) pr nx)
            = mkMemHole (b_base b') (b_align b') (b_size b') pr nx) →
  b_id b ≠ head LF → (∀ k, ids (S' k) = ids (S k)) → ids D' = ids D →
  (∀ c, in_pool S' D' c → c = b' ∨ (in_pool S D c ∧ b_id c ≠ b_id b)) →
  ∃ h', store f (b_id b) h = Ret h' ∧ rep h' S' D' ∧ dom h' = dom h.
Proof.
  intros Hr Hb Eid Hf Hhd Hids HidsD Hc.
  destruct (store_data_spec h (b_id b) (rep_blk_dom Hr _ Hb) f _ _ _ _ _ _ Hf (rep_data _ _ _ Hr _ Hb))
    as (h' & Hrun & Hn & Hp & Hd & Hdom).
  exists h'. split_and!; [done| |done].
  assert (∀ k, node S' k = node S k) as Hnode by (intros k; unfold node; by rewrite Hids).
  destruct (rep_separate _ _ _ Hr) as [? Hl ? Hdl]. constructor.
  - intros k. rewrite Hids. eapply ring_frame; [..|apply Hr]; auto.
  - constructor; intros *; rewrite ?HidsD, ?Hnode; [auto|apply Hl|auto|apply Hdl].
  - intros c [->|[Hin Hne]]%Hc; rewrite Hd; [rewrite <-Eid; apply upd_eq|].
    rewrite upd_ne by done. by apply Hr.
  - destruct (rep_head _ _ _ Hr) as [x Hx]. exists x. by rewrite Hd, upd_ne.
  - apply not_elem_of_dom. rewrite Hdom. apply not_elem_of_dom, Hr.
Qed.

Lemma rep_blk_ne_head h S D b k : rep h S D → in_pool S D b → b_id b ≠ head k.
Proof.
  intros Hr Hb E. destruct (rep_separate _ _ _ Hr) as [Hnd Hl _ Hdl].
  destruct Hb as [[k' Hb]|Hb].
  - assert (k = k') as <- by (eapply Hl; [|by eapply elem_of_node]; rewrite E; unfold node; set_solver).
    specialize (Hnd k) as [Hh _]%NoDup_cons. apply Hh. rewrite <-E. by apply elem_of_ids_2.
  - apply (Hdl k (head k)); [unfold node; set_solver|]. rewrite <-E. by apply elem_of_ids_2.
Qed.

Lemma rep_store_list h S D k l1 b l2 b' f :
  rep h S D → S k = l1 ++ b :: l2 → b_id b' = b_id b →
  (∀ pr nx, f (mkMemHole (b_base b) (b_align b) (b_size b) pr nx)
            = mkMemHole (b_base b') (b_align b') (b_size b') pr nx) →
  ∃ h', store f (b_id b) h = Ret h' ∧ rep h' (put k (l1 ++ b' :: l2) S) D ∧ dom h' = dom h.
Proof.
  intros Hr Ek Eid Hf. assert (in_pool S D b) as Hb by (left; exists k; rewrite Ek; set_solver).
  eapply rep_store; eauto using rep_blk_ne_head.
  - intros k'. unfold put. case_decide; [subst|done]. by rewrite Ek, !ids_app, !ids_cons, Eid.
  - destruct (rep_separate _ _ _ Hr) as [Hnd Hl _ Hdl].
    specialize (Hnd k) as Hk. unfold node in Hk. rewrite Ek, ids_app, ids_cons in Hk.
    apply NoDup_cons in Hk as [_ [_ [Hdis [Hb2 _]%NoDup_cons]]%NoDup_app].
    assert (b_id b ∈ node S k) as Hbk by (apply elem_of_node; rewrite Ek; set_solver).
    intros c [[k' Hc]|Hc].
    + unfold put in Hc. case_decide as Hk'; [subst|].
      * apply elem_of_app in Hc as [Hc|[->|Hc]%elem_of_cons]; [right|by left|right];
          (split; [left; exists k; rewrite Ek; set_solver|]); intros E;
          apply elem_of_ids_2 in Hc; rewrite E in Hc; set_solver.
      * right. split; [left; eauto|]. intros E. apply Hk'.
        eapply Hl; [by eapply elem_of_node|]. by rewrite E.
    + right. split; [by right|]. intros E. apply (Hdl _ _ Hbk). rewrite <-E. by apply elem_of_ids_2.
Qed.

Lemma rep_store_det h S D b b' f :
  rep h S (b :: D) → b_id b' = b_id b →
  (∀ pr nx, f (mkMemHole (b_base b) (b_align b) (b_size b) pr nx)
            = mkMemHole (b_base b') (b_align b') (b_size b') pr nx) →
  ∃ h', store f (b_id b) h = Ret h' ∧ rep h' S (b' :: D) ∧ dom h' = dom h.
Proof.
  intros Hr Eid Hf. assert (in_pool S (b :: D) b) as Hb by (right; set_solver).
  eapply rep_store; eauto using rep_blk_ne_head.
  - by rewrite !ids_cons, Eid.
  - destruct (rep_separate _ _ _ Hr) as [_ _ Hd Hdl]. rewrite ids_cons in Hd, Hdl.
    apply NoDup_cons in Hd as [Hbd _].
    intros c [[k' Hc]|[->|Hc]%elem_of_cons]; [right|by left|right].
    + split; [left; eauto|]. intros E. apply (Hdl k' (b_id b)); [rewrite <-E; by apply elem_of_node|set_solver].
    + split; [right; set_solver|]. intros E. apply Hbd. rewrite <-E. by apply elem_of_ids_2.
Qed.

(** Pointwise equal lists are the same lists. *)
#[export] Instance rep_proper h : Proper (pointwise_relation lk (=) ==> (=) ==> iff) (rep h).
Proof.
  assert (∀ S S' D, pointwise_relation lk (=) S S' → rep h S D → rep h S' D) as Hgo.
  { intros S S' D E [? [? Hl ? Hdl] Hd ??]. unfold node in *. constructor; try done.
    - intros k. by rewrite <-E.
    - constructor; unfold node; intros *; rewrite <-?E; [auto|apply Hl|auto|apply Hdl].
    - intros b Hb. apply Hd. destruct Hb as [[k Hb]|]; [left; exists k; by rewrite E|by right]. }
  intros S S' E D ? <-. split; apply Hgo; [done|]. intros k. by rewrite E.
Qed.
End rep.
