(* ===== verification/MemoryOps.v ===== *)
(** * What the steps of the allocator do to the lists of a pool

    Taking, splitting and merging holes, on the representation of [MemoryRep]. *)

From S2P Require Import Prelude Memory MemoryLists MemoryRep.

Section any_pool.
Context (head : lk → hptr).
Implicit Types (h : mheap) (S : lk → list blk) (D : list blk) (b : blk).
Local Abbreviation rep := (rep head).

Lemma rep_new_mhole h S D n H :
  rep h S D → S LH = n :: H →
  ∃ h', new_mhole (head LH) h = Ret (b_id n, h') ∧ rep h' (put LH H S) (n :: D).
Proof.
  intros Hr E. unfold new_mhole.
  destruct (rep_deref_head head Hr LH) as (x & y & z & pr & ->). rewrite bind_ret, E. simpl.
  destruct (rep_remove head h S D LH [] n H Hr E) as (h' & -> & Hr' & _).
  exists h'. by split.
Qed.

Lemma rep_take_hole h S D l1 b l2 :
  rep h S D → S LF = l1 ++ b :: l2 →
  ∃ h', take_hole (head LU) (b_id b) h = Ret h' ∧
        rep h' (put LU (b :: S LU) (put LF (l1 ++ l2) S)) D.
Proof.
  intros Hr E. unfold take_hole.
  destruct (rep_remove head h S D LF l1 b l2 Hr E) as (h1 & -> & Hr1 & _). rewrite bind_ret.
  destruct (rep_insert_head head h1 _ D LU b Hr1) as (h2 & -> & Hr2 & _).
  exists h2. by split.
Qed.

(** The two parts of the hole [b] cut at [size]; the front gets descriptor [n]. *)
Definition cut_front (al : option Z) (n b : blk) (size : Z) : blk :=
  Blk (b_id n) (b_base b) (default (b_align n) al) size.
Definition cut_rest (b : blk) (size : Z) : blk :=
  Blk (b_id b) (b_base b + size) (b_align b) (b_size b - size).

Lemma rep_split_hole h S D n H l1 b l2 al size :
  rep h S D → S LH = n :: H → S LF = l1 ++ b :: l2 →
  is_u32 (b_base b + size) → is_u32 (b_size b - size) →
  ∃ h', split_hole (head LH) (b_id b) al size h = Ret (b_id n, h') ∧
        rep h' (put LF (l1 ++ cut_rest b size :: l2) (put LH H S)) (cut_front al n b size :: D).
Proof.
  intros Hr EH EF Hb Hs. unfold split_hole.
  destruct (rep_new_mhole h S D n H Hr EH) as (h1 & -> & Hr1). rewrite bind_ret.
  assert (put LH H S LF = l1 ++ b :: l2) as EF1 by by rewrite put_ne.
  rewrite (rep_deref head Hr1 LF _ _ _ EF1), bind_ret. cbn [mh_base].
  destruct (rep_store_det head h1 _ D n (Blk (b_id n) (b_base b) (b_align n) (b_size n))
              (set_base (b_base b)) Hr1) as (h2 & -> & Hr2 & _); [done..|]. rewrite bind_ret.
  assert (∃ h3, match al with Some a => store (set_align_base a) (b_id n) h2 | None => Ret h2 end = Ret h3 ∧
    rep h3 (put LH H S) (Blk (b_id n) (b_base b) (default (b_align n) al) (b_size n) :: D))
    as (h3 & -> & Hr3).
  { destruct al as [a|]; [|eauto]. simpl.
    edestruct (rep_store_det head h2) as (h3 & Hst & Hr3 & _); [exact Hr2|..|eauto]; done. }
  rewrite bind_ret.
  destruct (rep_store_det head h3 _ D _ (cut_front al n b size) (set_size size) Hr3)
    as (h4 & Hst4 & Hr4 & _); [done..|]. simpl in Hst4. rewrite Hst4, bind_ret.
  rewrite (rep_deref head Hr4 LF _ _ _ EF1), bind_ret. cbn [mh_base].
  destruct (rep_store_list head h4 _ _ LF l1 b l2 (Blk (b_id b) (b_base b + size) (b_align b) (b_size b))
              (set_base (u32 (b_base b + size))) Hr4 EF1) as (h5 & -> & Hr5 & _);
    [done|by intros; rewrite u32_small|]. rewrite bind_ret.
  assert (Hd5 := rep_deref head Hr5 LF _ _ _ (put_eq _ _ _)). simpl in Hd5.
  rewrite Hd5, bind_ret. cbn [mh_size].
  destruct (rep_store_list head h5 _ _ LF l1 _ l2 (cut_rest b size)
              (set_size (u32 (b_size b - size))) Hr5 (put_eq _ _ _)) as (h6 & Hst6 & Hr6 & _);
    [done|by intros; rewrite u32_small|]. simpl in Hst6. rewrite Hst6, bind_ret.
  exists h6. split; [done|]. eapply rep_proper; [|done|exact Hr6].
  intros k. unfold put. repeat case_decide; done.
Qed.

(** The first free block with a property, and the blocks around it. *)
Fixpoint find_split (Q : blk → bool) (l : list blk) : option (list blk * blk * list blk) :=
  match l with
  | [] => None
  | b :: l =>
      if Q b then Some ([], b, l)
      else match find_split Q l with
           | Some (l1, c, l2) => Some (b :: l1, c, l2)
           | None => None
           end
  end.

Lemma find_split_Some Q l l1 b l2 :
  find_split Q l = Some (l1, b, l2) → l = l1 ++ b :: l2 ∧ Q b = true ∧ ∀ c, c ∈ l1 → Q c = false.
Proof.
  revert l1. induction l as [|c l IH]; intros l1; simpl; [done|].
  destruct (Q c) eqn:E; [intros [= <- -> ->]; set_solver|].
  destruct (find_split Q l) as [[[m1 d] m2]|]; [|done]. intros [= <- -> ->].
  destruct (IH m1) as (-> & ? & ?); [done|]. set_solver.
Qed.

Lemma find_split_None Q l : find_split Q l = None → ∀ c, c ∈ l → Q c = false.
Proof.
  induction l as [|c l IH]; simpl; [set_solver|].
  destruct (Q c) eqn:E; [done|]. destruct (find_split Q l) as [[[]]|]; [done|]. set_solver.
Qed.

Lemma find_find_split Q l :
  find Q l = match find_split Q l with Some (_, b, _) => Some b | None => None end.
Proof.
  induction l as [|c l IH]; simpl; [done|]. destruct (Q c); [done|].
  rewrite IH. by destruct (find_split Q l) as [[[]]|].
Qed.
End any_pool.

(** ** The kernel pool *)

Definition khead (k : lk) : hptr :=
  match k with LH => MHoleList | LF => MFreeList | LU => MUseList end.

Section kernel_pool.
Implicit Types (h : mheap) (S : lk → list blk) (D : list blk) (b : blk).
Local Abbreviation rep := (rep khead).

Lemma rep_used_check h S D l1 b l2 :
  rep h S D → S LF = l1 ++ b :: l2 → (∀ u, u ∈ S LU → b_base u ≠ b_base b) →
  used_check (b_id b) h = Ret ().
Proof.
  intros Hr E Hu. unfold used_check. rewrite (rep_deref khead Hr LF _ _ _ E), bind_ret.
  destruct (rep_deref_head khead Hr LU) as (x & y & z & pr & Hhd). simpl in Hhd.
  rewrite Hhd, bind_ret. cbn [mh_next mh_base].
  pose proof (rep_walk khead Hr LU (fun i => mh_base i =? b_base b) (fun u => b_base u =? b_base b)) as Hw.
  cbn [khead] in Hw. rewrite Hw by done. rewrite bind_ret.
  destruct (find _ (S LU)) as [u|] eqn:Ef; [|by rewrite decide_True].
  apply find_some in Ef as [Hin Heq]. apply Z.eqb_eq in Heq. apply list_elem_of_In in Hin.
  by destruct (Hu u Hin).
Qed.

(** ** Merging *)

Definition sum_size (l : list blk) : Z := foldr Z.add 0 (b_size <$> l).
Definition grow (f : blk) (n : Z) : blk := Blk (b_id f) (b_base f) (b_align f) (b_size f + n).
Definition clean (b : blk) : blk := Blk (b_id b) 0 (b_align b) 0.

Lemma sum_size_cons b l : sum_size (b :: l) = b_size b + sum_size l.
Proof. done. Qed.

Lemma sum_size_nonneg l : (∀ m, m ∈ l → 0 ≤ b_size m) → 0 ≤ sum_size l.
Proof.
  induction l as [|c l IH]; intros Hl; [done|]. rewrite sum_size_cons.
  assert (0 ≤ b_size c) by set_solver. assert (0 ≤ sum_size l) by (apply IH; set_solver). lia.
Qed.

Lemma sum_size_app l1 l2 : sum_size (l1 ++ l2) = sum_size l1 + sum_size l2.
Proof. induction l1 as [|b l1 IH]; simpl; [done|]. rewrite !sum_size_cons, IH. lia. Qed.

(** The node after a run of blocks. *)
Lemma rep_deref_last h S D k l1 f ms rest :
  rep h S D → S k = l1 ++ f :: ms ++ rest →
  ∃ m, deref h (List.last (ids ms) (b_id f)) = Ret m ∧ mh_next m = first khead k rest.
Proof.
  intros Hr E. destruct ms as [|t ms _] using rev_ind.
  - change (List.last (ids []) (b_id f)) with (b_id f).
    rewrite (rep_deref khead Hr k _ _ _ E). by eexists.
  - assert (S k = (l1 ++ f :: ms) ++ t :: rest) as E' by (rewrite E, <-!app_assoc; done).
    rewrite ids_app. simpl. rewrite last_last, (rep_deref khead Hr k _ _ _ E'). by eexists.
Qed.

Lemma rep_first_ne h S D k l1 m l2 rest :
  rep h S D → S k = l1 ++ m :: l2 ++ rest → b_id m ≠ first khead k rest.
Proof.
  intros Hr E. pose proof (sep_nodup _ _ _ (rep_separate _ _ _ _ Hr) k) as Hnd.
  unfold node in Hnd. rewrite E, ids_app, ids_cons, ids_app in Hnd.
  apply NoDup_cons in Hnd as [Hh [_ [_ [Hm _]%NoDup_cons]]%NoDup_app].
  destruct rest as [|r rest]; simpl; [|rewrite ids_cons in Hm]; set_solver.
Qed.

Lemma merge_sum_spec h S D l1 f done_ ms rest fuel :
  rep h S D → S LF = l1 ++ f :: (done_ ++ ms) ++ rest →
  0 ≤ b_size f → (∀ m, m ∈ ms → 0 ≤ b_size m) → b_size f + sum_size ms < U32 →
  (length ms < fuel)%nat →
  ∃ h', merge_sum fuel (first khead LF (ms ++ rest)) (b_id f) (List.last (ids (done_ ++ ms)) (b_id f)) h
          = Ret h' ∧
        rep h' (put LF (l1 ++ grow f (sum_size ms) :: (done_ ++ ms) ++ rest) S) D.
Proof.
  revert h S f done_ fuel.
  induction ms as [|m ms IH]; intros h S f done_ fuel Hr E Hf0 Hm0 Hsum Hfuel;
    (destruct fuel as [|fuel]; [simpl in Hfuel; lia|]); cbn [merge_sum];
    destruct (rep_deref_last h S D LF _ _ _ _ Hr E) as (t & -> & Ht); rewrite bind_ret, Ht.
  - rewrite decide_True by done. exists h. split; [done|].
    eapply rep_proper; [|done|exact Hr]. intros k. unfold put. case_decide; [subst|done].
    rewrite E. destruct f. unfold grow, sum_size. simpl. by rewrite Z.add_0_r.
  - assert (S LF = (l1 ++ f :: done_) ++ m :: ms ++ rest) as Em by (rewrite E, <-!app_assoc; done).
    rewrite decide_False by (eapply rep_first_ne; eauto). cbn [first app].
    rewrite (rep_deref khead Hr LF _ _ _ Em), bind_ret.
    rewrite (rep_deref khead Hr LF _ _ _ E), bind_ret. cbn [mh_size].
    assert (0 ≤ b_size m) by set_solver.
    assert (0 ≤ sum_size ms) by (apply sum_size_nonneg; set_solver).
    rewrite sum_size_cons in Hsum.
    destruct (rep_store_list khead h S D LF l1 f ((done_ ++ m :: ms) ++ rest) (grow f (b_size m))
                (set_size (u32 (b_size f + b_size m))) Hr E) as (h1 & -> & Hr1 & _);
      [done|intros; by rewrite u32_small by (unfold is_u32; lia)|]. rewrite bind_ret.
    assert (put LF (l1 ++ grow f (b_size m) :: (done_ ++ m :: ms) ++ rest) S LF
            = (l1 ++ grow f (b_size m) :: done_) ++ m :: ms ++ rest) as Em1
      by (rewrite put_eq, <-!app_assoc; done).
    rewrite (rep_deref khead Hr1 LF _ _ _ Em1), bind_ret. cbn [mh_next].
    destruct (IH h1 _ (grow f (b_size m)) (done_ ++ [m]) fuel Hr1) as (h' & Hrun & Hr');
      [by rewrite put_eq, <-!app_assoc|simpl; lia|set_solver|simpl; lia|simpl in Hfuel; lia|].
    rewrite <-app_assoc in Hrun. exists h'. split; [done|]. eapply rep_proper; [|done|exact Hr'].
    intros k. unfold put. repeat case_decide; [|done..]. subst. rewrite <-!app_assoc. simpl.
    unfold grow. simpl. rewrite sum_size_cons. do 3 f_equal. lia.
Qed.

Lemma rep_clean h S D b :
  rep h S (b :: D) → ∃ h', MHOLE_CLEAN (b_id b) h = Ret h' ∧ rep h' S (clean b :: D).
Proof.
  intros Hr. unfold MHOLE_CLEAN.
  destruct (rep_store_det khead h S D b (Blk (b_id b) 0 (b_align b) (b_size b)) (set_base 0) Hr)
    as (h1 & -> & Hr1 & _); [done..|]. rewrite bind_ret.
  destruct (rep_store_det khead h1 S D _ (clean b) (set_size 0) Hr1) as (h2 & Hst & Hr2 & _); [done..|].
  eauto.
Qed.

Lemma merge_move_spec h S D l1 ms rest fuel :
  rep h S D → S LF = l1 ++ ms ++ rest → (length ms < fuel)%nat →
  ∃ h', merge_move fuel (first khead LF (ms ++ rest)) (first khead LF rest) h = Ret h' ∧
        rep h' (put LF (l1 ++ rest) (put LH (reverse (clean <$> ms) ++ S LH) S)) D.
Proof.
  revert h S fuel. induction ms as [|m ms IH]; intros h S fuel Hr E Hfuel;
    (destruct fuel as [|fuel]; [simpl in Hfuel; lia|]); cbn [merge_move].
  - rewrite decide_True by done. exists h. split; [done|]. eapply rep_proper; [|done|exact Hr].
    intros k. unfold put. repeat case_decide; subst; [by rewrite E|done..].
  - cbn [app first] in E |- *. rewrite decide_False by (eapply rep_first_ne; eauto).
    rewrite (rep_deref khead Hr LF _ _ _ E), bind_ret. cbn [mh_next].
    destruct (rep_remove khead h S D LF l1 m (ms ++ rest) Hr E) as (h1 & -> & Hr1 & _). rewrite bind_ret.
    destruct (rep_clean h1 _ D m Hr1) as (h2 & -> & Hr2). rewrite bind_ret.
    destruct (rep_insert_head khead h2 _ D LH (clean m) Hr2) as (h3 & Hins & Hr3 & _).
    simpl in Hins. rewrite Hins, bind_ret.
    destruct (IH h3 _ fuel Hr3) as (h' & Hrun & Hr'); [done|simpl in Hfuel; lia|].
    exists h'. split; [done|]. eapply rep_proper; [|done|exact Hr'].
    intros k. unfold put. repeat case_decide; subst; try done.
    rewrite fmap_cons, reverse_cons, <-app_assoc. done.
Qed.

(** [merge_hole(f, last)]: the run [ms] after [f] is melted into [f] and its
    descriptors are handed back. *)
Lemma merge_hole_spec h S D l1 f ms rest :
  rep h S D → S LF = l1 ++ f :: ms ++ rest →
  0 ≤ b_size f → (∀ m, m ∈ ms → 0 ≤ b_size m) → b_size f + sum_size ms < U32 →
  ∃ h', merge_hole (b_id f) (List.last (ids ms) (b_id f)) h = Ret h' ∧
        rep h' (put LF (l1 ++ grow f (sum_size ms) :: rest)
                  (put LH (reverse (clean <$> ms) ++ S LH) S)) D.
Proof.
  intros Hr E Hf Hm Hsum. unfold merge_hole.
  rewrite (rep_deref khead Hr LF _ _ _ E), bind_ret. cbn [mh_next].
  assert (length ms < walk_fuel h)%nat as Hfuel.
  { pose proof (rep_length khead Hr LF) as Hl. rewrite E, length_app in Hl. simpl in Hl.
    rewrite length_app in Hl. lia. }
  destruct (merge_sum_spec h S D l1 f [] ms rest (walk_fuel h) Hr E Hf Hm Hsum Hfuel)
    as (h1 & Hrun & Hr1). cbn [app] in Hrun, Hr1. rewrite Hrun, bind_ret.
  assert (Hd := rep_deref khead Hr1 LF _ _ _ (put_eq _ _ _)). simpl in Hd. rewrite Hd, bind_ret.
  destruct (rep_deref_last h1 _ D LF _ _ _ _ Hr1 (put_eq _ _ _)) as (t & Hd' & Ht).
  simpl in Hd'. rewrite Hd', bind_ret, Ht. cbn [mh_next].
  destruct (merge_move_spec h1 _ D (l1 ++ [grow f (sum_size ms)]) ms rest (walk_fuel h1) Hr1)
    as (h2 & Hrun2 & Hr2).
  - by rewrite put_eq, <-app_assoc.
  - pose proof (rep_length khead Hr1 LF) as Hl. rewrite put_eq, length_app in Hl. simpl in Hl.
    rewrite length_app in Hl. lia.
  - exists h2. split; [done|]. eapply rep_proper; [|done|exact Hr2].
    intros k. unfold put. repeat case_decide; subst; try done. by rewrite <-app_assoc.
Qed.
End kernel_pool.
