(* ===== verification/MemorySpec.v ===== *)
(** * The allocator as a contract on address ranges

    An abstract pool is three lists of blocks.  [akalloc], [aaalloc] and
    [release] say what the operations of [memory.c] do to them; the refinement
    theorems show that the pointer programs of [Memory] do exactly that, and
    that every operation keeps the pool well formed: each address of the pool is
    in exactly one block, free or in use, and free blocks are sorted and never
    touch. *)

From S2P Require Import Prelude Memory MemoryLists MemoryRep MemoryOps.

Record pool := Pool { p_holes : list blk; p_free : list blk; p_use : list blk }.

Definition lists_of (P : pool) (k : lk) : list blk :=
  match k with LH => p_holes P | LF => p_free P | LU => p_use P end.

(** The store holds the pool [P]. *)
Definition models (h : mheap) (P : pool) : Prop := rep khead h (lists_of P) [].

(** ** Well-formed pools *)

Definition b_end (b : blk) : Z := b_base b + b_size b.
Definition contains (b : blk) (x : Z) : bool := (b_base b <=? x) && (x <? b_end b).

(** How many blocks of [l] contain the address [x]. *)
Definition cover (l : list blk) (x : Z) : Z := foldr (fun b n => Z.b2z (contains b x) + n) 0 l.

Definition gap (b c : blk) : Prop := b_end b < b_base c.

Record pool_ok (lo hi : Z) (P : pool) : Prop := {
  ok_lo : 0 < lo;
  ok_hi : hi < U32;
  ok_pos : ∀ b, b ∈ p_free P ++ p_use P → 0 < b_size b;
  ok_cover : ∀ x, cover (p_free P ++ p_use P) x = Z.b2z ((lo <=? x) && (x <? hi));
  ok_sorted : StronglySorted gap (p_free P)
}.

Lemma cover_cons b l x : cover (b :: l) x = Z.b2z (contains b x) + cover l x.
Proof. done. Qed.
Lemma cover_app l1 l2 x : cover (l1 ++ l2) x = cover l1 x + cover l2 x.
Proof. induction l1 as [|b l1 IH]; simpl; [done|]. rewrite IH. lia. Qed.
Lemma cover_nonneg l x : 0 ≤ cover l x.
Proof. induction l as [|b l IH]; [done|]. rewrite cover_cons. destruct (contains b x); simpl; lia. Qed.
Lemma contains_true b x : contains b x = true ↔ b_base b ≤ x < b_end b.
Proof. unfold contains. rewrite andb_true_iff. lia. Qed.
Lemma contains_false b x : contains b x = false ↔ ¬ (b_base b ≤ x < b_end b).
Proof. rewrite <-contains_true. by destruct (contains b x). Qed.

Create Rewrite HintDb cover.
#[export] Hint Rewrite cover_app cover_cons : cover.

(** Two blocks that touch cover what one block over both covers. *)
Lemma contains_join b c d x :
  b_base d = b_base b → b_end b = b_base c → b_end d = b_end c → 0 ≤ b_size b → 0 ≤ b_size c →
  Z.b2z (contains d x) = Z.b2z (contains b x) + Z.b2z (contains c x).
Proof. unfold contains, b_end. intros. zcases; simpl; lia. Qed.

Section well_formed.
Context {lo hi P} (Hok : pool_ok lo hi P).

Lemma ok_cover_le l1 l2 x : p_free P ++ p_use P = l1 ++ l2 → cover l1 x ≤ 1.
Proof using Hok.
  intros E. pose proof (ok_cover _ _ _ Hok x) as Hc. rewrite E, cover_app in Hc.
  pose proof (cover_nonneg l2 x). destruct (_ && _); simpl in Hc; lia.
Qed.

Lemma ok_range b : b ∈ p_free P ++ p_use P → lo ≤ b_base b ∧ b_end b ≤ hi.
Proof using Hok.
  intros Hb. pose proof (ok_pos _ _ _ Hok b Hb) as Hpos.
  assert (∀ x, b_base b ≤ x < b_end b → lo ≤ x < hi) as Hin.
  { intros x Hx%contains_true. pose proof (ok_cover _ _ _ Hok x) as Hc.
    apply list_elem_of_split in Hb as (l1 & l2 & E). rewrite E, cover_app, cover_cons, Hx in Hc.
    pose proof (cover_nonneg l1 x). pose proof (cover_nonneg l2 x).
    destruct (_ && _) eqn:Ex; simpl in Hc; [|lia]. lia. }
  unfold b_end in *. pose proof (Hin (b_base b)). pose proof (Hin (b_base b + b_size b - 1)). lia.
Qed.

(** Distinct positions of the two lists hold disjoint blocks. *)
Lemma ok_disjoint l1 b l2 c :
  p_free P ++ p_use P = l1 ++ b :: l2 → c ∈ l1 ++ l2 → b_end b ≤ b_base c ∨ b_end c ≤ b_base b.
Proof using Hok.
  intros E Hc. destruct (decide (b_end b ≤ b_base c)) as [|H1]; [by left|].
  destruct (decide (b_end c ≤ b_base b)) as [|H2]; [by right|]. exfalso.
  set (x := Z.max (b_base b) (b_base c)).
  assert (0 < b_size b) by (apply Hok; rewrite E; set_solver).
  assert (0 < b_size c) by (apply Hok; rewrite E; set_solver).
  assert (contains b x = true) as Hb by (apply contains_true; unfold b_end in *; lia).
  assert (contains c x = true) as Hcx by (apply contains_true; unfold b_end in *; lia).
  pose proof (ok_cover_le (p_free P ++ p_use P) [] x) as Hle.
  rewrite app_nil_r in Hle. specialize (Hle eq_refl). rewrite E in Hle.
  apply list_elem_of_split in Hc as (m1 & m2 & Em).
  assert (1 ≤ cover (l1 ++ l2) x) as H3.
  { rewrite Em, cover_app, cover_cons, Hcx.
    pose proof (cover_nonneg m1 x). pose proof (cover_nonneg m2 x). simpl. lia. }
  autorewrite with cover in *. rewrite Hb in Hle. simpl in Hle. lia.
Qed.
End well_formed.

(** ** The abstract operations *)

Definition fits (size : Z) (b : blk) : bool := size <=? b_size b.

(** Give out [n] bytes at the front of the free block [b], or all of [b] when
    at most [MIN_MEMSIZE] bytes would remain; [al] is a new [align_base]. *)
Definition give (al : option Z) (n : Z) (l1 : list blk) (b : blk) (l2 : list blk) (P : pool) : pool :=
  if MIN_MEMSIZE <? b_size b - n then
    match p_holes P with
    | d :: H => Pool H (l1 ++ cut_rest b n :: l2) (cut_front al d b n :: p_use P)
    | [] => P
    end
  else Pool (p_holes P) (l1 ++ l2)
         (Blk (b_id b) (b_base b) (default (b_align b) al) (b_size b) :: p_use P).

Definition akalloc (size : Z) (P : pool) : Z * pool :=
  match find_split (fits size) (p_free P) with
  | Some (l1, b, l2) => (b_base b, give None size l1 b l2 P)
  | None => (0, P)
  end.

(** The bytes an aligned allocation takes from the front of [b]: up to the next
    multiple of [block], and [block_size] more. *)
Definition aligned_need (block block_size : Z) (b : blk) : Z :=
  round_up_block (b_base b) block + block_size - b_base b.

Definition aaalloc (size align_bit : Z) (P : pool) : Z * pool :=
  let block := 2 ^ align_bit in
  let need := aligned_need block (round_up_block size block) in
  match find_split (fun b => need b <=? b_size b) (p_free P) with
  | Some (l1, b, l2) =>
      let a := round_up_block (b_base b) block in
      (a, give (Some a) (need b) l1 b l2 P)
  | None => (0, P)
  end.

Lemma round_up_block_spec v k :
  is_u32 v → 0 ≤ k ≤ 31 → v + 2 ^ k ≤ U32 →
  let r := round_up_block v (2 ^ k) in r mod 2 ^ k = 0 ∧ v ≤ r < v + 2 ^ k.
Proof.
  intros Hv Hk Hw. by apply round_up_pow2.
Qed.

(** The pool stays well formed when [n] bytes are given out. *)
Lemma give_ok lo hi P al n l1 b l2 :
  pool_ok lo hi P → p_free P = l1 ++ b :: l2 → 0 < n ≤ b_size b →
  pool_ok lo hi (give al n l1 b l2 P).
Proof.
  intros Hok E Hn. unfold give.
  pose proof (ok_sorted _ _ _ Hok) as Hs. rewrite E in Hs.
  apply StronglySorted_app in Hs as (Hs12 & Hs1 & [Hb Hs2]%StronglySorted_cons).
  rewrite Forall_forall in Hb.
  destruct (Z.ltb_spec MIN_MEMSIZE (b_size b - n)) as [Hmin|Hmin].
  - unfold MIN_MEMSIZE, KALLOC_MIN_SIZE in Hmin. destruct (p_holes P) as [|d H]; [done|].
    constructor; simpl; try apply Hok.
    + intros c Hc. pose proof (ok_pos _ _ _ Hok c) as Hp. rewrite E in Hp.
      rewrite !elem_of_app, !elem_of_cons in Hc.
      destruct Hc as [[?|[->|?]]|[->|?]]; simpl; try lia; apply Hp; set_solver.
    + intros x. rewrite <-(ok_cover _ _ _ Hok x), E. autorewrite with cover.
      rewrite (contains_join (cut_front al d b n) (cut_rest b n) b x); unfold b_end; simpl; lia.
    + apply StronglySorted_app. split_and!; [|done|].
      * intros c d' Hc [->|Hd]%elem_of_cons; [|apply Hs12; set_solver].
        assert (gap c b) by (apply Hs12; set_solver). unfold gap in *. simpl. lia.
      * apply StronglySorted_cons. split; [|done]. apply Forall_forall. intros c Hc%Hb.
        unfold gap, b_end in *. simpl. lia.
  - constructor; simpl; try apply Hok.
    + intros c Hc. pose proof (ok_pos _ _ _ Hok) as Hp. rewrite E in Hp.
      rewrite !elem_of_app, !elem_of_cons in Hc.
      destruct Hc as [[?|?]|[->|?]]; simpl; [apply Hp; set_solver..|apply (Hp b); set_solver|apply Hp; set_solver].
    + intros x. rewrite <-(ok_cover _ _ _ Hok x), E. autorewrite with cover.
      change (contains (Blk _ _ _ _) x) with (contains b x). lia.
    + apply StronglySorted_app. split_and!; [|done|done]. intros; apply Hs12; set_solver.
Qed.

Section refinement.
Context {lo hi h P} (Hm : models h P) (Hok : pool_ok lo hi P).

Lemma give_split al n l1 b l2 d H :
  p_free P = l1 ++ b :: l2 → p_holes P = d :: H → 0 < n ≤ b_size b → MIN_MEMSIZE < b_size b - n →
  ∃ h1 h2 m, split_hole MHoleList (b_id b) al n h = Ret (b_id d, h1) ∧
    MHOLE_INSERT_HEAD (b_id d) MUseList h1 = Ret h2 ∧ models h2 (give al n l1 b l2 P) ∧
    deref h2 (b_id d) = Ret m ∧ mh_base m = b_base b ∧ mh_align_base m = default (b_align d) al.
Proof using Hm Hok.
  intros EF EH Hn Hmin.
  assert (b ∈ p_free P ++ p_use P) as Hin by (rewrite EF; set_solver).
  destruct (ok_range Hok b Hin) as [Hlo Hhi]. pose proof (ok_lo _ _ _ Hok). pose proof (ok_hi _ _ _ Hok).
  unfold b_end in Hhi.
  destruct (rep_split_hole khead h (lists_of P) [] d H l1 b l2 al n Hm EH EF) as (h1 & Hsp & Hr1);
    [unfold is_u32, U32 in *; lia..|].
  destruct (rep_insert_head khead h1 _ [] LU _ Hr1) as (h2 & Hins & Hr2 & _).
  assert (Hd := rep_deref khead Hr2 LU [] _ _ (put_eq _ _ _)). simpl in Hd, Hins, Hsp.
  exists h1, h2. eexists. split_and!; [done|done| |done|done|done].
  eapply rep_proper; [|reflexivity|exact Hr2]. unfold give. rewrite EH.
  intros k. destruct (Z.ltb_spec MIN_MEMSIZE (b_size b - n)); [|lia]. by destruct k.
Qed.

Lemma give_whole n l1 b l2 :
  p_free P = l1 ++ b :: l2 → b_size b - n ≤ MIN_MEMSIZE →
  ∃ h1 m, take_hole MUseList (b_id b) h = Ret h1 ∧ models h1 (give None n l1 b l2 P) ∧
    deref h1 (b_id b) = Ret m ∧ mh_base m = b_base b.
Proof using Hm.
  intros EF Hmin.
  destruct (rep_take_hole khead h (lists_of P) [] l1 b l2 Hm EF) as (h1 & Htk & Hr1).
  assert (Hd := rep_deref khead Hr1 LU [] _ _ (put_eq _ _ _)).
  exists h1. eexists. split_and!; [done| |done|done].
  eapply rep_proper; [|reflexivity|exact Hr1]. unfold give.
  intros k. destruct (Z.ltb_spec MIN_MEMSIZE (b_size b - n)); [lia|]. destruct b. by destruct k.
Qed.

(** [used_check] accepts every free block of a well-formed pool. *)
Lemma used_check_ok l1 b l2 : p_free P = l1 ++ b :: l2 → used_check (b_id b) h = Ret ().
Proof using Hm Hok.
  intros E. apply (rep_used_check h (lists_of P) [] l1 b l2 Hm E). intros u Hu Heq.
  assert (p_free P ++ p_use P = l1 ++ b :: l2 ++ p_use P) as E' by (rewrite E, <-app_assoc; done).
  assert (0 < b_size b) by (apply Hok; rewrite E'; set_solver).
  assert (0 < b_size u) by (apply Hok; rewrite E'; set_solver).
  destruct (ok_disjoint Hok _ _ _ u E') as [Hd|Hd]; [set_solver|unfold b_end in *; lia..].
Qed.

Lemma kalloc_loop_spec size l1 l2 fuel :
  0 < size → p_holes P ≠ [] → p_free P = l1 ++ l2 → (length l2 < fuel)%nat →
  ∃ h', kalloc_loop fuel (first khead LF l2) size h =
      Ret (match find_split (fits size) l2 with Some (_, b, _) => b_base b | None => 0 end, h') ∧
    models h' (match find_split (fits size) l2 with
               | Some (m1, b, m2) => give None size (l1 ++ m1) b m2 P
               | None => P end).
Proof using Hm Hok.
  intros Hsz HH. revert l1 fuel. induction l2 as [|b l2 IH]; intros l1 fuel E Hfuel;
    (destruct fuel as [|fuel]; [simpl in Hfuel; lia|]); cbn [kalloc_loop first find_split].
  - exists h. by rewrite decide_True.
  - rewrite decide_False by (eapply (rep_blk_ne_head khead _ _ _ b LF Hm); left; exists LF; simpl;
                             rewrite E; set_solver).
    rewrite (rep_deref khead Hm LF _ _ _ E), bind_ret. cbn [mh_size mh_next].
    rewrite (used_check_ok l1 b l2 E), !bind_ret. unfold fits at 1 3.
    destruct (Z.leb_spec size (b_size b)) as [Hfit|Hfit].
    + rewrite app_nil_r. destruct (Z.ltb_spec MIN_MEMSIZE (b_size b - size)) as [Hmin|Hmin].
      * destruct (p_holes P) as [|d H] eqn:EH; [done|].
        destruct (give_split None size l1 b l2 d H E EH) as (h1 & h2 & m & -> & Hins & Hm2 & Hd & Hb & _);
          [lia..|]. destruct (Z.ltb_spec size (b_size b)); [|unfold MIN_MEMSIZE, KALLOC_MIN_SIZE in Hmin; lia].
        rewrite bind_ret, Hins, bind_ret, Hd, bind_ret, Hb. eauto.
      * destruct (give_whole size l1 b l2 E Hmin) as (h1 & m & -> & Hm1 & Hd & Hb).
        rewrite !bind_ret, Hd, !bind_ret, Hb.
        destruct (Z.ltb_spec size (b_size b)), (Z.eqb_spec (b_size b) size); eauto. lia.
    + destruct (Z.ltb_spec size (b_size b)), (Z.eqb_spec (b_size b) size); [lia..|].
      destruct (IH (l1 ++ [b]) fuel) as (h' & Hrun & Hm');
        [by rewrite <-app_assoc|simpl in Hfuel; lia|].
      exists h'. rewrite Hrun. destruct (find_split (fits size) l2) as [[[m1 c] m2]|]; [|done].
      rewrite <-app_assoc in Hm'. done.
Qed.

Lemma give_whole_aligned a n l1 b l2 :
  p_free P = l1 ++ b :: l2 → b_size b - n ≤ MIN_MEMSIZE →
  ∃ h1 h2 m, take_hole MUseList (b_id b) h = Ret h1 ∧ store (set_align_base a) (b_id b) h1 = Ret h2 ∧
    models h2 (give (Some a) n l1 b l2 P) ∧ deref h2 (b_id b) = Ret m ∧ mh_align_base m = a.
Proof using Hm.
  intros EF Hmin.
  destruct (rep_take_hole khead h (lists_of P) [] l1 b l2 Hm EF) as (h1 & Htk & Hr1).
  destruct (rep_store_list khead h1 _ [] LU [] b (p_use P) (Blk (b_id b) (b_base b) a (b_size b))
              (set_align_base a) Hr1 (put_eq _ _ _)) as (h2 & Hst & Hr2 & _); [done..|].
  assert (Hd := rep_deref khead Hr2 LU [] _ _ (put_eq _ _ _)). simpl in Hd.
  exists h1, h2. eexists. split_and!; [done|done| |done|done].
  eapply rep_proper; [|reflexivity|exact Hr2]. unfold give.
  intros k. destruct (Z.ltb_spec MIN_MEMSIZE (b_size b - n)); [lia|]. by destruct k.
Qed.

(** The words [aalloc] computes do not wrap when the pool ends, and the request
    is, far enough below 2^32. *)
Lemma aligned_need_bounds k bs b :
  0 ≤ k ≤ 31 → hi + 2 ^ k ≤ U32 → 0 < bs → bs + 2 ^ k ≤ U32 → b ∈ p_free P ++ p_use P →
  is_u32 (aligned_need (2 ^ k) bs b) ∧ 0 < aligned_need (2 ^ k) bs b.
Proof using Hok.
  intros Hk Hhi Hbs0 Hbs Hb. destruct (ok_range Hok b Hb) as [Hl Hh].
  pose proof (ok_lo _ _ _ Hok). pose proof (ok_pos _ _ _ Hok b Hb). unfold b_end in Hh.
  destruct (round_up_block_spec (b_base b) k) as [_ Hr]; [unfold is_u32; lia|lia|lia|].
  unfold aligned_need, is_u32. lia.
Qed.

Lemma aalloc_loop_spec k bs l1 l2 fuel :
  0 ≤ k ≤ 31 → hi + 2 ^ k ≤ U32 → 0 < bs → bs + 2 ^ k ≤ U32 →
  p_holes P ≠ [] → p_free P = l1 ++ l2 → (length l2 < fuel)%nat →
  let need := aligned_need (2 ^ k) bs in
  let found := find_split (fun b => need b <=? b_size b) l2 in
  ∃ h', aalloc_loop fuel (first khead LF l2) (2 ^ k) bs h =
      Ret (match found with Some (_, b, _) => round_up_block (b_base b) (2 ^ k) | None => 0 end, h') ∧
    models h' (match found with
               | Some (m1, b, m2) =>
                   give (Some (round_up_block (b_base b) (2 ^ k))) (need b) (l1 ++ m1) b m2 P
               | None => P end).
Proof using Hm Hok.
  intros Hk Hhi Hbs0 Hbs HH E Hfuel need. revert l1 fuel E Hfuel.
  induction l2 as [|b l2 IH]; intros l1 fuel E Hfuel;
    (destruct fuel as [|fuel]; [simpl in Hfuel; lia|]); cbn [aalloc_loop first find_split].
  - exists h. by rewrite decide_True.
  - rewrite decide_False by (eapply (rep_blk_ne_head khead _ _ _ b LF Hm); left; exists LF; simpl;
                             rewrite E; set_solver).
    rewrite (rep_deref khead Hm LF _ _ _ E), bind_ret. cbn [mh_size mh_next mh_base].
    rewrite (used_check_ok l1 b l2 E), !bind_ret.
    destruct (aligned_need_bounds k bs b) as [Hu Hpos]; [lia..|rewrite E; set_solver|].
    fold (aligned_need (2 ^ k) bs b). rewrite u32_small by done. fold need in Hu, Hpos |- *.
    destruct (Z.leb_spec (need b) (b_size b)) as [Hfit|Hfit].
    + rewrite app_nil_r. destruct (Z.ltb_spec MIN_MEMSIZE (b_size b - need b)) as [Hmin|Hmin].
      * destruct (p_holes P) as [|d H] eqn:EH; [done|].
        destruct (give_split (Some (round_up_block (b_base b) (2 ^ k))) (need b) l1 b l2 d H E EH)
          as (h1 & h2 & m & -> & Hins & Hm2 & Hd & _ & Ha); [lia..|].
        destruct (Z.ltb_spec (need b) (b_size b)); [|unfold MIN_MEMSIZE, KALLOC_MIN_SIZE in Hmin; lia].
        rewrite bind_ret, Hins, bind_ret, Hd, bind_ret, Ha. eauto.
      * destruct (give_whole_aligned (round_up_block (b_base b) (2 ^ k)) (need b) l1 b l2 E Hmin)
          as (h1 & h2 & m & -> & Hst & Hm2 & Hd & Ha).
        rewrite !bind_ret, Hst, !bind_ret, Hd, !bind_ret, Ha.
        destruct (Z.ltb_spec (need b) (b_size b)), (Z.eqb_spec (b_size b) (need b)); eauto. lia.
    + destruct (Z.ltb_spec (need b) (b_size b)), (Z.eqb_spec (b_size b) (need b)); [lia..|].
      destruct (IH (l1 ++ [b]) fuel) as (h' & Hrun & Hm');
        [by rewrite <-app_assoc|simpl in Hfuel; lia|].
      exists h'. rewrite Hrun. destruct (find_split _ l2) as [[[m1 c] m2]|]; [|done].
      rewrite <-app_assoc in Hm'. done.
Qed.
End refinement.

(** ** Freeing *)

(** Putting [m] below [c :: f2] and above [f1], with what touches melted
    together; the first component is the descriptors the merges give back. *)
Definition join_right (m c : blk) (f2 : list blk) : list blk * blk * list blk :=
  if b_end m =? b_base c then ([clean c], grow m (b_size c), f2) else ([], m, c :: f2).

Definition join_left (f1 : list blk) (m : blk) (rest : list blk) : list blk * list blk :=
  match reverse f1 with
  | p :: r1 =>
      if b_end p =? b_base m then ([clean m], reverse r1 ++ grow p (b_size m) :: rest)
      else ([], f1 ++ m :: rest)
  | [] => ([], f1 ++ m :: rest)
  end.

Definition coalesce (f1 : list blk) (m c : blk) (f2 : list blk) : list blk * list blk :=
  let '(H1, m', rest) := join_right m c f2 in
  let '(H2, F) := join_left f1 m' rest in
  (H1 ++ H2, F).

(** Free the block [m] between the blocks [u1] and [u2] in use; there is no
    result when nothing above [m] is free. *)
Definition release (u1 : list blk) (m : blk) (u2 : list blk) (P : pool) : option pool :=
  match find_split (fun f => b_base m <? b_base f) (p_free P) with
  | Some (f1, c, f2) =>
      let '(H, F) := coalesce f1 m c f2 in Some (Pool (H ++ p_holes P) F (u1 ++ u2))
  | None => None
  end.

Definition all_pos (l : list blk) : Prop := ∀ b, b ∈ l → 0 < b_size b.

Lemma join_right_spec m c f2 H m' rest :
  join_right m c f2 = (H, m', rest) → all_pos (m :: c :: f2) →
  StronglySorted gap (c :: f2) → b_end m ≤ b_base c →
  StronglySorted gap (m' :: rest) ∧ b_base m' = b_base m ∧ all_pos (m' :: rest) ∧
  ∀ x, cover (m' :: rest) x = cover (m :: c :: f2) x.
Proof.
  intros E Hpos [Hc Hs]%StronglySorted_cons Hle. rewrite Forall_forall in Hc.
  assert (0 < b_size m) by (apply Hpos; set_solver). assert (0 < b_size c) by (apply Hpos; set_solver).
  unfold join_right in E. destruct (Z.eqb_spec (b_end m) (b_base c)) as [Heq|Hne]; simplify_eq; split_and!.
  - apply StronglySorted_cons. split; [|done]. apply Forall_forall. intros y Hy%Hc.
    unfold gap, b_end in *. simpl. lia.
  - done.
  - intros b [->|?]%elem_of_cons; [simpl; lia|apply Hpos; set_solver].
  - intros x. autorewrite with cover. rewrite (contains_join m c (grow m (b_size c)) x);
      unfold b_end in *; simpl; lia.
  - apply StronglySorted_cons. split; [|by apply StronglySorted_cons; rewrite Forall_forall].
    apply Forall_forall. intros y [->|Hy%Hc]%elem_of_cons; unfold gap, b_end in *; lia.
  - done.
  - done.
  - done.
Qed.

Lemma reverse_snoc_inv (l : list blk) p r : reverse l = p :: r → l = reverse r ++ [p].
Proof. intros E. rewrite <-(reverse_involutive l), E. apply reverse_cons. Qed.

Lemma join_left_spec f1 m rest H F :
  join_left f1 m rest = (H, F) → all_pos (f1 ++ m :: rest) →
  StronglySorted gap f1 → StronglySorted gap (m :: rest) → (∀ p, p ∈ f1 → b_end p ≤ b_base m) →
  StronglySorted gap F ∧ all_pos F ∧ ∀ x, cover F x = cover (f1 ++ m :: rest) x.
Proof.
  intros E Hpos Hs1 Hs2 Hle. pose proof Hs2 as [Hm Hs]%StronglySorted_cons. rewrite Forall_forall in Hm.
  assert (0 < b_size m) by (apply Hpos; set_solver).
  unfold join_left in E. destruct (reverse f1) as [|p r1] eqn:Er.
  { apply (f_equal reverse) in Er. rewrite reverse_involutive in Er. subst. simplify_eq. done. }
  apply reverse_snoc_inv in Er. subst f1.
  assert (0 < b_size p) by (apply Hpos; set_solver). assert (b_end p ≤ b_base m) by (apply Hle; set_solver).
  pose proof Hs1 as (Hs12 & Hsr & _)%StronglySorted_app.
  assert (∀ q, q ∈ reverse r1 → gap q p) as Hq by (intros; apply Hs12; set_solver).
  destruct (Z.eqb_spec (b_end p) (b_base m)) as [Heq|Hne]; simplify_eq; split_and!.
  - apply StronglySorted_app. split_and!; [|done|].
    + intros q y Hqr [->|Hy%Hm]%elem_of_cons; pose proof (Hq q Hqr); unfold gap, b_end in *; simpl; lia.
    + apply StronglySorted_cons. split; [|done]. apply Forall_forall. intros y Hy%Hm.
      unfold gap, b_end in *. simpl. lia.
  - intros b [?|[->|?]%elem_of_cons]%elem_of_app; [apply Hpos; set_solver|simpl; lia|apply Hpos; set_solver].
  - intros x. autorewrite with cover. rewrite (contains_join p m (grow p (b_size m)) x);
      unfold b_end in *; simpl; lia.
  - apply StronglySorted_app. split_and!; [|done|done].
    intros q y Hqf Hy. assert (gap q m) as Hqm.
    { apply elem_of_app in Hqf as [Hqf|Hqf]; [pose proof (Hq q Hqf)|apply list_elem_of_singleton in Hqf; subst];
        unfold gap, b_end in *; lia. }
    apply elem_of_cons in Hy as [->|Hy%Hm]; unfold gap, b_end in *; [done|lia].
  - done.
  - done.
Qed.

(** The free blocks around a block in use. *)
Lemma release_order lo hi P u1 m u2 f1 c f2 :
  pool_ok lo hi P → p_use P = u1 ++ m :: u2 →
  find_split (fun f => b_base m <? b_base f) (p_free P) = Some (f1, c, f2) →
  p_free P = f1 ++ c :: f2 ∧ (∀ p, p ∈ f1 → b_end p ≤ b_base m) ∧ b_end m ≤ b_base c.
Proof.
  intros Hok Eu Ef. apply find_split_Some in Ef as (Ef & Hc & Hf1). apply Z.ltb_lt in Hc.
  assert (p_free P ++ p_use P = (p_free P ++ u1) ++ m :: u2) as E by (rewrite Eu, <-app_assoc; done).
  assert (0 < b_size m) by (apply Hok; rewrite E; set_solver).
  assert (∀ f, f ∈ p_free P → b_end m ≤ b_base f ∨ b_end f ≤ b_base m) as Hdis.
  { intros f Hf. apply (ok_disjoint Hok _ _ _ _ E). set_solver. }
  assert (all_pos (p_free P)) as Hpos by (intros b Hb; apply Hok; set_solver).
  split; [done|split].
  - intros p Hp. pose proof (Hf1 p Hp) as Hle. apply Z.ltb_ge in Hle.
    assert (p ∈ p_free P) as Hpf by (rewrite Ef; set_solver).
    pose proof (Hpos p Hpf). destruct (Hdis p Hpf); unfold b_end in *; lia.
  - assert (c ∈ p_free P) as Hcf by (rewrite Ef; set_solver).
    pose proof (Hpos c Hcf). destruct (Hdis c Hcf); unfold b_end in *; lia.
Qed.

Lemma release_ok lo hi P u1 m u2 P' :
  pool_ok lo hi P → p_use P = u1 ++ m :: u2 → release u1 m u2 P = Some P' →
  pool_ok lo hi P' ∧ p_use P' = u1 ++ u2 ∧
  ∀ x, cover (p_free P') x = cover (p_free P) x + Z.b2z (contains m x).
Proof.
  intros Hok Eu Er. unfold release in Er.
  destruct (find_split _ (p_free P)) as [[[f1 c] f2]|] eqn:Ef; [|done].
  destruct (release_order _ _ _ _ _ _ _ _ _ Hok Eu Ef) as (EF & Hl & Hr).
  unfold coalesce in Er. destruct (join_right m c f2) as [[H1 m'] rest] eqn:Ejr.
  destruct (join_left f1 m' rest) as [H2 F] eqn:Ejl. simplify_eq.
  assert (all_pos (p_free P ++ p_use P)) as Hpos by (intros b; apply Hok).
  pose proof (ok_sorted _ _ _ Hok) as Hs. rewrite EF in Hs, Hpos. rewrite Eu in Hpos.
  apply StronglySorted_app in Hs as (_ & Hs1 & Hs2).
  destruct (join_right_spec _ _ _ _ _ _ Ejr) as (Hs' & Hb' & Hp' & Hc'); [|done|done|].
  { intros b Hb. apply Hpos. set_solver. }
  destruct (join_left_spec _ _ _ _ _ Ejl) as (HsF & HpF & HcF); [|done|done|by rewrite Hb'|].
  { intros b [Hb|Hb]%elem_of_app; [apply Hpos; set_solver|by apply Hp']. }
  assert (∀ x, cover F x = cover (p_free P) x + Z.b2z (contains m x)) as HF.
  { intros x. rewrite HcF, EF, cover_app, Hc'. autorewrite with cover. lia. }
  split_and!; [|done|done]. constructor; simpl; [apply Hok..| | |done].
  - intros b [Hb|Hb]%elem_of_app; [by apply HpF|]. apply Hpos. set_solver.
  - intros x. rewrite <-(ok_cover _ _ _ Hok x), cover_app, HF, Eu. autorewrite with cover. lia.
Qed.

Section freeing.
Implicit Types (h : mheap) (S : lk → list blk).

(** What [merge_neighbours] reads of the node before [m]: nothing touches the
    list head, whose base and size are 0. *)
Lemma rep_deref_final h S D f1 m rest :
  rep khead h S D → S LF = f1 ++ m :: rest → 0 < b_base m →
  ∃ p, deref h (final khead LF f1) = Ret p ∧
  match reverse f1 with
  | q :: _ => mh_base p = b_base q ∧ mh_size p = b_size q ∧ final khead LF f1 = b_id q
  | [] => mh_base p = 0 ∧ mh_size p = 0
  end.
Proof.
  intros Hr E Hm. destruct f1 as [|q f1 _] using rev_ind.
  - destruct (rep_head _ _ _ _ Hr) as [a Ha].
    destruct (deref_total h MFreeList) as (pr & nx & x & y & z & Hp & Hn & Hd); [eauto with mheap|].
    simpl in Ha. simplify_eq. eexists. split; [by apply deref_eq|done].
  - assert (S LF = f1 ++ q :: m :: rest) as E' by (rewrite E, <-app_assoc; done).
    assert (final khead LF (f1 ++ [q]) = b_id q) as Ef
      by (unfold final; rewrite ids_app; apply last_last).
    rewrite Ef, reverse_app. simpl. eexists. split; [by eapply rep_deref|done].
Qed.

(** Runs one call of [merge_hole] of [merge_neighbours_spec]. *)
Ltac run_merge spec :=
  let h' := fresh "h" in let Hrun := fresh "Hrun" in let Hr' := fresh "Hr" in
  destruct spec as (h' & Hrun & Hr');
    [lia | set_solver by lia | unfold sum_size, b_end in *; simpl; lia |];
  simpl in Hrun; exists h'; split; [done|];
  eapply rep_proper; [|reflexivity|exact Hr']; unfold sum_size; simpl; by rewrite Z.add_0_r.

Lemma merge_neighbours_spec h S f1 m c f2 :
  rep khead h S [] → S LF = f1 ++ m :: c :: f2 → all_pos (f1 ++ m :: c :: f2) →
  (∀ b, b ∈ f1 ++ m :: c :: f2 → 0 < b_base b ∧ b_end b < U32) → b_end m ≤ b_base c →
  (∀ p, p ∈ f1 → b_end p ≤ b_base m) →
  let '(H, F) := coalesce f1 m c f2 in
  ∃ h', merge_neighbours (b_id m) h = Ret h' ∧ rep khead h' (put LF F (put LH (H ++ S LH) S)) [].
Proof.
  intros Hr E Hpos Hb Hmc Hl. unfold merge_neighbours.
  assert (0 < b_size m) by (apply Hpos; set_solver). assert (0 < b_size c) by (apply Hpos; set_solver).
  destruct (Hb m) as [Hm0 Hm1]; [set_solver|]. destruct (Hb c) as [Hc0 Hc1]; [set_solver|].
  rewrite (rep_deref khead Hr LF _ _ _ E), bind_ret. cbn [mh_prev mh_next mh_base mh_size].
  destruct (rep_deref_final h S [] f1 m (c :: f2) Hr E Hm0) as (p & -> & Hp). rewrite bind_ret.
  assert (S LF = (f1 ++ [m]) ++ c :: f2) as Ec by (rewrite E, <-app_assoc; done).
  cbn [first]. rewrite (rep_deref khead Hr LF _ _ _ Ec), bind_ret. cbn [mh_base].
  rewrite (u32_small (b_base m + b_size m)) by (unfold is_u32, b_end in *; lia).
  fold (b_end m). unfold coalesce, join_right, join_left.
  destruct (reverse f1) as [|q r1] eqn:Er.
  - destruct Hp as [-> ->]. change (u32 (0 + 0)) with 0.
    destruct (Z.eqb_spec 0 (b_base m)) as [|_]; [lia|]. cbn [andb].
    destruct (Z.eqb_spec (b_end m) (b_base c)) as [Heq|Hne]; simpl.
    + run_merge (merge_hole_spec h S [] f1 m [c] f2 Hr E).
    + exists h. split; [done|]. eapply rep_proper; [|reflexivity|exact Hr].
      intros k. unfold put. repeat case_decide; subst; [by rewrite E|done..].
  - apply reverse_snoc_inv in Er. subst f1. destruct Hp as (-> & -> & ->).
    assert (0 < b_size q) by (apply Hpos; set_solver). destruct (Hb q) as [Hq0 Hq1]; [set_solver|].
    rewrite (u32_small (b_base q + b_size q)) by (unfold is_u32, b_end in *; lia). fold (b_end q).
    assert (S LF = reverse r1 ++ q :: m :: c :: f2) as Eq by (rewrite E, <-app_assoc; done).
    destruct (Z.eqb_spec (b_end m) (b_base c)) as [Heq|Hne]; cbn [b_base grow].
    + rewrite andb_true_r. destruct (Z.eqb_spec (b_end q) (b_base m)) as [Heq'|Hne']; simpl.
      * run_merge (merge_hole_spec h S [] (reverse r1) q [m; c] f2 Hr Eq).
      * run_merge (merge_hole_spec h S [] (reverse r1 ++ [q]) m [c] f2 Hr E).
    + rewrite andb_false_r. destruct (Z.eqb_spec (b_end q) (b_base m)) as [Heq'|Hne']; simpl.
      * run_merge (merge_hole_spec h S [] (reverse r1) q [m] (c :: f2) Hr Eq).
      * exists h. split; [done|]. eapply rep_proper; [|reflexivity|exact Hr].
        intros k. unfold put. repeat case_decide; subst; [by rewrite E|done..].
Qed.
Lemma rep_deref_det h S D b :
  rep khead h S (b :: D) →
  ∃ pr nx, deref h (b_id b) = Ret (mkMemHole (b_base b) (b_align b) (b_size b) pr nx).
Proof.
  intros Hr. assert (in_pool S (b :: D) b) as Hb by (right; set_solver).
  destruct (deref_total h (b_id b)) as (pr & nx & x & y & z & Hp & Hn & Hd).
  { by eapply rep_blk_dom. }
  exists pr, nx. by apply deref_eq; [..|apply Hr].
Qed.

(** Freeing a block with something free above it does what [release] says. *)
Lemma free_into_spec lo hi h P u1 m u2 P' :
  models h P → pool_ok lo hi P → p_use P = u1 ++ m :: u2 → release u1 m u2 P = Some P' →
  ∃ h', free_into MFreeList (b_id m) h = Ret (KFREE_OK, h') ∧ models h' P'.
Proof.
  intros Hm Hok Eu Er. unfold release in Er.
  destruct (find_split _ (p_free P)) as [[[f1 c] f2]|] eqn:Ef; [|done].
  destruct (release_order _ _ _ _ _ _ _ _ _ Hok Eu Ef) as (EF & Hl & Hr).
  assert (∀ b, b ∈ f1 ++ m :: c :: f2 → b ∈ p_free P ++ p_use P) as Hsub
    by (rewrite EF, Eu; set_solver).
  assert (∀ b, b ∈ f1 ++ m :: c :: f2 → 0 < b_size b ∧ 0 < b_base b ∧ b_end b < U32) as Hall.
  { intros b Hb%Hsub. destruct (ok_range Hok b Hb). pose proof (ok_pos _ _ _ Hok b Hb).
    pose proof (ok_lo _ _ _ Hok). pose proof (ok_hi _ _ _ Hok). lia. }
  destruct (Hall m) as (? & ? & ?); [set_solver|].
  unfold free_into. destruct (rep_remove khead h _ [] LU u1 m u2 Hm Eu) as (h1 & -> & Hr1 & _).
  destruct (rep_deref_det h1 _ _ _ Hr1) as (pr & nx & Hdm). rewrite bind_ret, Hdm, bind_ret.
  destruct (rep_deref_head khead Hr1 LF) as (x & y & z & pr' & Hdh). cbn [khead] in Hdh.
  rewrite Hdh, bind_ret. cbn [mh_base mh_size mh_next].
  rewrite (rep_walk khead Hr1 LF _ (fun f => b_base m <? b_base f)), bind_ret by done.
  rewrite find_find_split. change (put LU _ _ LF) with (p_free P). rewrite Ef.
  assert (put LU (u1 ++ u2) (lists_of P) LF = f1 ++ c :: f2) as EF1 by exact EF.
  rewrite decide_False by (apply (rep_not_null khead Hr1); left; exists LF; rewrite EF1; set_solver).
  rewrite (rep_deref khead Hr1 LF _ _ _ EF1), bind_ret. cbn [mh_base].
  rewrite u32_small by (unfold is_u32, b_end in *; lia). fold (b_end m).
  destruct (Z.ltb_spec (b_base c) (b_end m)); [lia|].
  destruct (rep_insert_before khead h1 _ [] LF f1 c f2 m Hr1 EF1) as (h2 & -> & Hr2 & _).
  rewrite bind_ret.
  pose proof (merge_neighbours_spec h2 _ f1 m c f2 Hr2 (put_eq _ _ _)) as Hmn.
  destruct (coalesce f1 m c f2) as [G F]. simplify_eq.
  destruct Hmn as (h' & -> & Hr'); [intros b Hb%Hall; lia|intros b Hb%Hall; lia|done|done|].
  rewrite bind_ret. exists h'. split; [done|].
  eapply rep_proper; [|reflexivity|exact Hr']. by intros [].
Qed.
End freeing.

(** ** The free list is determined by the free bytes *)

Lemma cover_pos l x : 0 < cover l x ↔ ∃ b, b ∈ l ∧ b_base b ≤ x < b_end b.
Proof.
  induction l as [|b l IH]; [split; [done|set_solver]|]. rewrite cover_cons.
  pose proof (cover_nonneg l x). destruct (contains b x) eqn:E; simpl.
  - apply contains_true in E. split; [set_solver|lia].
  - apply contains_false in E. rewrite Z.add_0_l, IH. set_solver.
Qed.

Definition extent (b : blk) : Z * Z := (b_base b, b_size b).

(** One half of the comparison of the first blocks of two sorted lists. *)
Lemma canonical_head b l c l' :
  StronglySorted gap (b :: l) → StronglySorted gap (c :: l') → all_pos (b :: l) → all_pos (c :: l') →
  (∀ x, cover (b :: l) x = cover (c :: l') x) →
  b_base c ≤ b_base b ∧ (b_base b = b_base c → b_end c ≤ b_end b).
Proof.
  intros [Hb _]%StronglySorted_cons [Hc _]%StronglySorted_cons Hp Hp' Hcov.
  rewrite Forall_forall in Hb, Hc. unfold gap in *.
  assert (0 < b_size b) by (apply Hp; set_solver). assert (0 < b_size c) by (apply Hp'; set_solver).
  split.
  - assert (0 < cover (c :: l') (b_base b)) as (d & [->|Hd]%elem_of_cons & Hin)%cover_pos; [|lia|].
    + rewrite <-Hcov. apply cover_pos. exists b. unfold b_end. split; [set_solver|lia].
    + specialize (Hc d Hd). unfold b_end in *. lia.
  - intros Eb. destruct (decide (b_end c ≤ b_end b)) as [|Hlt]; [done|].
    assert (0 < cover (b :: l) (b_end b)) as (d & [->|Hd]%elem_of_cons & Hin)%cover_pos; [|lia|].
    + rewrite Hcov. apply cover_pos. exists c. unfold b_end in *. split; [set_solver|lia].
    + specialize (Hb d Hd). lia.
Qed.

Lemma canonical l l' :
  StronglySorted gap l → StronglySorted gap l' → all_pos l → all_pos l' →
  (∀ x, cover l x = cover l' x) → extent <$> l = extent <$> l'.
Proof.
  assert (∀ b l, all_pos (b :: l) → ¬ ∀ x, cover (b :: l) x = 0) as Hne.
  { intros b l0 Hp Hx. assert (0 < cover (b :: l0) (b_base b)); [|by rewrite Hx in *].
    assert (0 < b_size b) by (apply Hp; set_solver).
    apply cover_pos. exists b. unfold b_end. split; [set_solver|lia]. }
  revert l'. induction l as [|b l IH]; intros [|c l'] Hs Hs' Hp Hp' Hcov; [done| | |].
  - destruct (Hne c l' Hp'). intros x. by rewrite <-Hcov.
  - by destruct (Hne b l Hp).
  - destruct (canonical_head b l c l') as [H1 H2]; [done..|].
    destruct (canonical_head c l' b l) as [H3 H4]; [done..|].
    assert (b_base b = b_base c) as Eb by lia. specialize (H2 Eb). specialize (H4 (eq_sym Eb)).
    assert (extent b = extent c) as Ee by (unfold extent, b_end in *; f_equal; lia).
    rewrite !fmap_cons, Ee. f_equal. apply StronglySorted_cons in Hs as [_ Hs], Hs' as [_ Hs'].
    apply IH; [done|done|intros d ?; apply Hp; set_solver|intros d ?; apply Hp'; set_solver|].
    intros x. specialize (Hcov x). rewrite !cover_cons in Hcov.
    assert (contains b x = contains c x) as Ex 
      by (unfold contains, b_end; unfold extent in Ee; by injection Ee as -> ->).
    rewrite Ex in Hcov. lia.
Qed.
