(* ===== verification/MemoryInit.v ===== *)
(** * The pool that [init_mem_core] builds

    [init_hole_pool] links all descriptors, then turns the first one into one
    free range that is the whole pool. *)

From S2P Require Import Prelude Memory MemoryLists MemoryRep MemoryOps MemorySpec.

Lemma store_at f p h m : h !! p = Some m → store f p h = Ret (<[p := f m]> h).
Proof. intros E. unfold store. by rewrite (deref_Ret _ _ _ E). Qed.

Lemma store_same f p h m : h !! p = Some m → f m = m → store f p h = Ret h.
Proof. intros E Ef. rewrite (store_at _ _ _ _ E), Ef. by rewrite insert_id. Qed.

Definition zero_hole : MemHole := mkMemHole 0 0 0 NullP NullP.

(** The links the first loop of [init_hole_pool] writes. *)
Definition linked_hole (n i : nat) : MemHole :=
  mkMemHole 0 0 0 (if (i =? 0)%nat then MHoleList else Memhole (i - 1))
    (if (i =? n - 1)%nat then MHoleList else Memhole (i + 1)).

Definition unused (n : nat) : list blk := (fun i => Blk (Memhole i) 0 0 0) <$> seq 0 n.

Lemma ids_unused n : ids (unused n) = Memhole <$> seq 0 n.
Proof. unfold ids, unused. rewrite <-list_fmap_compose. done. Qed.

Lemma NoDup_memholes n : NoDup (Memhole <$> seq 0 n).
Proof. apply NoDup_fmap; [by intros ?? [=]|apply NoDup_seq]. Qed.

Lemma zeroed_lookup (l : list hptr) (h : mheap) p :
  foldr (fun p (h : mheap) => <[p := zero_hole]> h) h l !! p = if decide (p ∈ l) then Some zero_hole else h !! p.
Proof.
  induction l as [|q l IH]; cbn [foldr]; [rewrite decide_False by set_solver; done|].
  destruct (decide (p = q)) as [->|Hne].
  - rewrite lookup_insert_eq, decide_True by set_solver. done.
  - rewrite lookup_insert_ne, IH by done. do 2 case_decide; set_solver.
Qed.

Section init.
Context (h0 : mheap) (n : nat).
Context (Hholes : ∀ i, (i < n)%nat → h0 !! Memhole i = Some zero_hole).

Lemma init_links m : (m ≤ n)%nat →
  ∃ h', foldM (init_link Memhole n MHoleList) (seq 0 m) h0 = Ret h' ∧
    (∀ i, (i < m)%nat → h' !! Memhole i = Some (linked_hole n i)) ∧
    (∀ p, (∀ i, (i < m)%nat → p ≠ Memhole i) → h' !! p = h0 !! p).
Proof using Hholes.
  induction m as [|m IH]; intros Hm; [exists h0; split_and!; [done|lia|done]|].
  destruct IH as (h1 & Hrun & Hdone & Hrest); [lia|].
  rewrite seq_S, foldM_app, Hrun. simpl. unfold init_link.
  assert (h1 !! Memhole m = Some zero_hole) as Em.
  { rewrite Hrest; [apply Hholes; lia|]. intros i Hi [=]. lia. }
  rewrite (store_at _ _ _ _ Em). simpl. erewrite store_at by apply lookup_insert_eq.
  rewrite bind_ret. eexists. split; [done|]. rewrite insert_insert_eq. split.
  - intros i Hi. destruct (decide (i = m)) as [->|Hne]; [by rewrite lookup_insert_eq|].
    rewrite lookup_insert_ne by congruence. apply Hdone. lia.
  - intros p Hp. rewrite lookup_insert_ne by (intros <-; by apply (Hp m); [lia|]).
    apply Hrest. intros i Hi. apply Hp. lia.
Qed.

End init.

Section unused.
Context (n : nat).

(** The store between the loop and the first free range: all descriptors unused. *)
Record all_unused (h : mheap) : Prop := {
  au_hole : h !! MHoleList = Some (mkMemHole 0 0 0 (Memhole (n - 1)) (Memhole 0));
  au_free : h !! MFreeList = Some (mkMemHole 0 0 0 MFreeList MFreeList);
  au_use : h !! MUseList = Some (mkMemHole 0 0 0 MUseList MUseList);
  au_links : ∀ i, (i < n)%nat → h !! Memhole i = Some (linked_hole n i);
  au_null : h !! NullP = None
}.

Lemma all_unused_chain h k i : all_unused h → (i + S k = n)%nat →
  chain h ((Memhole <$> seq i (S k)) ++ [MHoleList]).
Proof.
  intros Hu. revert i. induction k as [|k IH]; intros i Hi; simpl.
  - rewrite chain_cons2. split; [|done]. unfold linked, nxt, prv.
    rewrite (au_links _ Hu i), (au_hole _ Hu) by lia. unfold linked_hole. simpl.
    assert (i = n - 1)%nat as <- by lia. by rewrite Nat.eqb_refl.
  - rewrite chain_cons2. split; [|apply (IH (S i)); lia]. unfold linked, nxt, prv.
    rewrite !(au_links _ Hu) by lia. unfold linked_hole. simpl.
    destruct (Nat.eqb_spec i (n - 1)); [lia|]. rewrite Nat.add_1_r, Nat.sub_0_r. done.
Qed.

Lemma all_unused_models h : (0 < n)%nat → all_unused h → models h (Pool (unused n) [] []).
Proof.
  intros Hn Hu. assert (∀ h hd m, h !! hd = Some m → mh_next m = hd → mh_prev m = hd → ring h hd []) as Hself.
  { intros h' hd m E En Ep. apply chain_cons2. split; [|done]. unfold linked, nxt, prv.
    rewrite E. simpl. by rewrite En, Ep. }
  constructor; simpl.
  - intros []; simpl; [|by eapply Hself; [apply Hu|..]..].
    pose proof (all_unused_chain h (n - 1) 0 Hu) as Hc. rewrite ids_unused.
    replace (S (n - 1)) with n in Hc by lia. specialize (Hc ltac:(lia)).
    destruct (seq 0 n) as [|i l] eqn:El; [apply (f_equal length) in El; rewrite length_seq in El; simpl in El; lia|].
    assert (i = 0)%nat as -> by (destruct (n); simpl in El; congruence).
    unfold ring. simpl in *. rewrite chain_cons2. split; [|done].
    unfold linked, nxt, prv. rewrite (au_hole _ Hu), (au_links _ Hu 0%nat) by lia. done.
  - constructor; simpl; unfold node.
    + intros []; simpl; [|by apply NoDup_singleton..]. rewrite ids_unused. apply NoDup_cons.
      split; [|apply NoDup_memholes]. by intros (? & ? & _)%list_elem_of_fmap.
    + assert (∀ k p, p ∈ khead k :: ids (lists_of (Pool (unused n) [] []) k) →
        p = khead k ∨ k = LH ∧ ∃ i, p = Memhole i) as Hp.
      { intros k p [->|Hin]%elem_of_cons; [by left|right]. destruct k; simpl in Hin; [|set_solver..].
        rewrite ids_unused in Hin. apply list_elem_of_fmap in Hin as (i & -> & _). eauto. }
      intros k k' p Hk Hk'. apply Hp in Hk, Hk'.
      destruct k, k'; naive_solver.
    + apply NoDup_nil_2.
    + set_solver.
  - intros b [[[] Hb]|Hb]; simpl in *; [|set_solver..].
    apply list_elem_of_fmap in Hb as (i & -> & Hi%elem_of_seq). unfold dat. simpl.
    by rewrite (au_links _ Hu) by lia.
  - exists 0. unfold dat. by rewrite (au_free _ Hu).
  - apply Hu.
Qed.

(** Runs one store at an address whose content is known. *)
Ltac init_step :=
  erewrite store_at by (rewrite ?lookup_insert_eq; simplify_map_eq; reflexivity);
  rewrite bind_ret, ?insert_insert_eq.

Lemma init_stores h1 :
  (0 < n)%nat →
  h1 !! MHoleList = Some zero_hole → h1 !! MFreeList = Some zero_hole →
  h1 !! MUseList = Some zero_hole → h1 !! NullP = None →
  (∀ i, (i < n)%nat → h1 !! Memhole i = Some (linked_hole n i)) →
  ∃ h2, all_unused h2 ∧ ∀ (k : mheap → outcome mheap),
  (h ← store (set_next (Memhole 0)) MHoleList h1;
  h ← store (set_prev (Memhole (n - 1))) MHoleList h;
  h ← store (set_prev MHoleList) (Memhole 0) h;
  h ← store (set_next MHoleList) (Memhole (n - 1)) h;
  h ← store (set_base 0) MHoleList h;
  h ← store (set_size 0) MHoleList h;
  h ← store (set_base 0) MFreeList h;
  h ← store (set_size 0) MFreeList h;
  h ← store (set_base 0) MUseList h;
  h ← store (set_size 0) MUseList h;
  h ← store (set_next MUseList) MUseList h;
  h ← store (set_prev MUseList) MUseList h;
  h ← store (set_next MFreeList) MFreeList h;
  h ← store (set_prev MFreeList) MFreeList h; k h) = k h2.
Proof.
  intros Hn Hh Hf Hu H0 Hl.
  assert (linked_hole n 0 = set_prev MHoleList (linked_hole n 0)) as E0 by done.
  assert (linked_hole n (n-1) = set_next MHoleList (linked_hole n (n-1))) as E1
    by (unfold linked_hole, set_next; simpl; by rewrite Nat.eqb_refl).
  eexists. split; [|intros k; rewrite (store_at _ _ _ _ Hh), bind_ret; init_step;
    rewrite (store_same _ (Memhole 0) _ (linked_hole n 0)), bind_ret by (simplify_map_eq; auto with lia);
    rewrite (store_same _ (Memhole (n-1)) _ (linked_hole n (n-1))), bind_ret by (simplify_map_eq; auto with lia);
    do 10 init_step; reflexivity].
  constructor; intros; simplify_map_eq; auto.
Qed.

(** The whole of [init_hole_pool], on a store with the static storage. *)
Lemma init_hole_pool_spec h0 base size :
  (0 < n)%nat → h0 !! NullP = None →
  ∃ h', init_hole_pool Memhole n MHoleList MFreeList MUseList base size
          (static_storage Memhole n MHoleList MFreeList MUseList h0) = Ret h' ∧
    models h' (Pool (tail (unused n)) [Blk (Memhole 0) base 0 size] []).
Proof.
  intros Hn H0. unfold init_hole_pool.
  set (hs := static_storage _ _ _ _ _ _).
  pose proof (zeroed_lookup ([MHoleList; MFreeList; MUseList] ++ (Memhole <$> seq 0 n)) h0) as Hz.
  change (foldr _ _ _) with hs in Hz.
  assert (∀ p, p ∈ [MHoleList; MFreeList; MUseList] → hs !! p = Some zero_hole) as Hin
    by (intros p Hp; rewrite Hz, decide_True by set_solver; done).
  destruct (init_links hs n) with (m := n) as (h1 & -> & Hl & Hrest); [|lia|].
  { intros i Hi. rewrite Hz, decide_True; [done|]. apply elem_of_app. right. apply list_elem_of_fmap.
    exists i. split; [done|]. apply elem_of_seq. lia. }
  rewrite bind_ret.
  destruct (init_stores h1) as (h2 & Hu & Hrun);
    [done|rewrite Hrest by done; apply Hin; set_solver..| |done|].
  { rewrite Hrest, Hz, decide_False; [done| |done].
    intros [?|(? & ? & _)%list_elem_of_fmap]%elem_of_app; [set_solver|done]. }
  rewrite Hrun. pose proof (all_unused_models h2 Hn Hu) as Hm.
  destruct (rep_deref_head khead Hm LH) as (x & y & z & pr & Hdh). cbn [khead lists_of p_holes] in Hdh.
  rewrite Hdh, bind_ret. cbn [mh_next].
  assert (unused n = [] ++ Blk (Memhole 0) 0 0 0 :: tail (unused n)) as EH
    by (unfold unused; destruct (n); [lia|done]).
  assert (first khead LH (unused n) = Memhole 0) as -> by (unfold unused; destruct (n); [lia|done]).
  destruct (rep_remove khead h2 _ [] LH _ _ _ Hm EH) as (h3 & Hrem & Hr3 & _).
  cbn [b_id] in Hrem. rewrite Hrem, bind_ret.
  destruct (rep_insert_head khead h3 _ [] LF _ Hr3) as (h4 & Hins & Hr4 & _).
  cbn [b_id khead] in Hins. rewrite Hins, bind_ret.
  assert (∀ h b, rep khead h (put LF [b] (put LH (tail (unused n)) (lists_of (Pool (unused n) [] [])))) [] →
    ∃ m, deref h MFreeList = Ret m ∧ mh_next m = b_id b) as Hfirst.
  { intros h b Hr. destruct (rep_deref_head khead Hr LF) as (? & ? & ? & ? & Hd). eauto. }
  destruct (Hfirst h4 _ Hr4) as (m & -> & Em). rewrite bind_ret, Em.
  destruct (rep_store_list khead h4 _ [] LF [] _ [] (Blk (Memhole 0) base 0 0) (set_base base) Hr4 (put_eq _ _ _))
    as (h5 & Hs5 & Hr5 & _); [done..|]. rewrite Hs5, bind_ret.
  destruct (Hfirst h5 (Blk (Memhole 0) base 0 0)) as (m' & -> & Em');
    [eapply rep_proper; [|reflexivity|exact Hr5]; by intros []|]. rewrite bind_ret, Em'.
  destruct (rep_store_list khead h5 _ [] LF [] _ [] (Blk (Memhole 0) base 0 size) (set_size size) Hr5 (put_eq _ _ _))
    as (h6 & Hs6 & Hr6 & _); [done..|]. exists h6. split; [exact Hs6|].
  eapply rep_proper; [|reflexivity|exact Hr6]. by intros [].
Qed.
End unused.

(** The pool of one range is well formed. *)
Lemma init_pool_ok H base size :
  0 < base → 0 < size → base + size < U32 →
  pool_ok base (base + size) (Pool H [Blk (Memhole 0) base 0 size] []).
Proof.
  intros. constructor; simpl; [done|done|set_solver| |].
  - intros x. unfold contains, b_end. simpl. zcases; simpl; lia.
  - apply StronglySorted_cons. split; [apply Forall_nil_2|constructor].
Qed.
