(* ===== verification/MemoryProps.v ===== *)
(** * The allocator of [memory.c]: theorems

    What [init_mem_core], [kalloc], [aalloc], [kfree] and [afree] do, as
    refinements of the operations on abstract pools of [MemorySpec], the
    contract of a caller on top of them, and the runs that show where the code
    departs from it. *)

From S2P Require Import Prelude Memory MemoryLists MemoryRep MemoryOps MemorySpec MemoryInit.

(** ** Lemmas shared by the theorems *)

Lemma kalloc_spec lo hi h P size :
  models h P → pool_ok lo hi P → 0 < size → p_holes P ≠ [] →
  ∃ h', kalloc size h = Ret ((akalloc size P).1, h') ∧
        models h' (akalloc size P).2 ∧ pool_ok lo hi (akalloc size P).2.
Proof.
  intros Hm Hok Hsz HH. unfold kalloc.
  destruct (rep_deref_head khead Hm LF) as (x & y & z & pr & Hd). cbn [khead] in Hd.
  rewrite Hd, bind_ret. cbn [mh_next].
  destruct (kalloc_loop_spec Hm Hok size [] (p_free P) (walk_fuel h)) as (h' & Hrun & Hm');
    [done|done|done|apply (rep_length khead Hm LF)|].
  exists h'. change (lists_of P LF) with (p_free P). rewrite Hrun. unfold akalloc.
  destruct (find_split (fits size) (p_free P)) as [[[l1 b] l2]|] eqn:Ef; [|done].
  split_and!; [done|done|]. apply find_split_Some in Ef as (Ef & Hfit & _).
  apply give_ok; [done|done|]. unfold fits in Hfit. lia.
Qed.

(** Giving out [n] bytes moves exactly the bytes of one block from free to in
    use, and that block has room for the request. *)
Lemma give_moves al n l1 b l2 P :
  p_free P = l1 ++ b :: l2 → 0 < n ≤ b_size b → p_holes P ≠ [] →
  ∃ u, p_use (give al n l1 b l2 P) = u :: p_use P ∧ b_base u = b_base b ∧
    n ≤ b_size u ≤ n + MIN_MEMSIZE ∧ b_align u = default (b_align u) al ∧
    ∀ x, cover (p_free P) x = cover (p_free (give al n l1 b l2 P)) x + Z.b2z (contains u x).
Proof.
  intros E Hn HH. unfold give. destruct (Z.ltb_spec MIN_MEMSIZE (b_size b - n)) as [Hmin|Hmin].
  - unfold MIN_MEMSIZE, KALLOC_MIN_SIZE in Hmin. destruct (p_holes P) as [|d H]; [done|].
    eexists. split_and!; [done|done|simpl; unfold MIN_MEMSIZE, KALLOC_MIN_SIZE; lia..|by destruct al|].
    intros x. simpl. rewrite E. autorewrite with cover.
    rewrite (contains_join (cut_front al d b n) (cut_rest b n) b x); unfold b_end; simpl; lia.
  - eexists. split_and!; [done|done|simpl; lia..|by destruct al|].
    intros x. simpl. rewrite E. autorewrite with cover.
    change (contains (Blk _ _ _ _) x) with (contains b x). lia.
Qed.

Lemma aalloc_spec lo hi h P size k :
  models h P → pool_ok lo hi P → p_holes P ≠ [] →
  0 ≤ k ≤ 31 → hi + 2 ^ k ≤ U32 → 0 < size → size + 2 * 2 ^ k ≤ U32 →
  ∃ h', aalloc size k h = Ret ((aaalloc size k P).1, h') ∧
        models h' (aaalloc size k P).2 ∧ pool_ok lo hi (aaalloc size k P).2.
Proof.
  intros Hm Hok HH Hk Hhi Hsz Hsz'. unfold aalloc.
  destruct (Z.ltb_spec 32 k); [lia|]. destruct (Z.eqb_spec k 32); [lia|].
  assert (2 ^ k ≤ 2 ^ 31) by (apply Z.pow_le_mono_r; lia). assert (0 < 2 ^ k) by lia.
  rewrite Z.shiftl_1_l, (u32_small (2 ^ k)) by (unfold is_u32, U32; lia).
  destruct (round_up_block_spec size k) as [_ Hr]; [unfold is_u32; lia|lia|lia|].
  destruct (rep_deref_head khead Hm LF) as (x & y & z & pr & Hd). cbn [khead] in Hd.
  rewrite Hd, bind_ret. cbn [mh_next].
  destruct (aalloc_loop_spec Hm Hok k (round_up_block size (2 ^ k)) [] (p_free P) (walk_fuel h))
    as (h' & Hrun & Hm'); [lia..|done|done|apply (rep_length khead Hm LF)|].
  exists h'. change (lists_of P LF) with (p_free P). rewrite Hrun. unfold aaalloc.
  destruct (find_split _ (p_free P)) as [[[l1 b] l2]|] eqn:Ef; [|done].
  split_and!; [done|done|]. apply find_split_Some in Ef as (Ef & Hfit & _).
  apply give_ok; [done|done|].
  destruct (aligned_need_bounds Hok k (round_up_block size (2 ^ k)) b) as [_ Hp];
    [lia..|rewrite Ef; set_solver|]. lia.
Qed.

(** Looking a pointer up in the blocks in use. *)
Lemma search_spec h P (Q : blk → bool) (T : MemHole → bool) :
  models h P → (∀ b pr nx, T (mkMemHole (b_base b) (b_align b) (b_size b) pr nx) = Q b) →
  (u ← deref h MUseList; walk (walk_fuel h) T MUseList (mh_next u) h) =
  Ret (match find_split Q (p_use P) with Some (_, b, _) => b_id b | None => NullP end).
Proof.
  intros Hm HT. change MUseList with (khead LU).
  destruct (rep_deref_head khead Hm LU) as (x & y & z & pr & Hd).
  rewrite Hd, bind_ret. cbn [mh_next]. rewrite (rep_walk khead Hm LU T Q HT), find_find_split.
  change (lists_of P LU) with (p_use P). by destruct (find_split Q (p_use P)) as [[[? ?] ?]|].
Qed.

Lemma find_split_intro Q (l1 : list blk) b l2 :
  Q b = true → (∀ c, c ∈ l1 → Q c = false) → find_split Q (l1 ++ b :: l2) = Some (l1, b, l2).
Proof.
  intros Hb. induction l1 as [|c l1 IH]; intros Hl1; simpl; [by rewrite Hb|].
  rewrite (Hl1 c), IH by set_solver. done.
Qed.

(** The blocks in use have distinct bases. *)
Lemma find_base lo hi P u1 m u2 :
  pool_ok lo hi P → p_use P = u1 ++ m :: u2 →
  find_split (fun b => b_base b =? b_base m) (p_use P) = Some (u1, m, u2).
Proof.
  intros Hok E. rewrite E. apply find_split_intro; [apply Z.eqb_refl|]. intros c Hc.
  assert (p_free P ++ p_use P = (p_free P ++ u1) ++ m :: u2) as E' by (rewrite E, <-app_assoc; done).
  assert (0 < b_size m) by (apply Hok; rewrite E'; set_solver).
  assert (0 < b_size c) by (apply Hok; rewrite E'; set_solver).
  destruct (ok_disjoint Hok _ _ _ c E') as [Hd|Hd]; [set_solver|unfold b_end in Hd; lia..].
Qed.

Lemma release_Some u1 m u2 P :
  (∃ f, f ∈ p_free P ∧ b_base m < b_base f) → ∃ P', release u1 m u2 P = Some P'.
Proof.
  intros (f & Hf & Hlt). unfold release.
  destruct (find_split _ (p_free P)) as [[[f1 c] f2]|] eqn:Ef; [destruct (coalesce f1 m c f2); eauto|].
  pose proof (find_split_None _ _ Ef f Hf) as Hno. simpl in Hno. lia.
Qed.

(** [release] of a block found by [Q], through the code. *)
Lemma free_found lo hi h P (Q : blk → bool) (T : MemHole → bool) :
  models h P → pool_ok lo hi P →
  (∀ b pr nx, T (mkMemHole (b_base b) (b_align b) (b_size b) pr nx) = Q b) →
  ∀ u1 m u2 P', find_split Q (p_use P) = Some (u1, m, u2) → release u1 m u2 P = Some P' →
  ∃ h', (mem ← (u ← deref h MUseList; walk (walk_fuel h) T MUseList (mh_next u) h);
         if decide (mem = NullP) then Ret (KFREE_FAIL_NOT_MHOLE, h)
         else _internal_common_merge mem h) = Ret (KFREE_OK, h') ∧ models h' P' ∧ pool_ok lo hi P'.
Proof.
  intros Hm Hok HT u1 m u2 P' Ef Er. rewrite (search_spec h P Q T Hm HT), Ef, bind_ret.
  apply find_split_Some in Ef as (Eu & _ & _).
  rewrite decide_False by (apply (rep_not_null khead Hm); left; exists LU; simpl; rewrite Eu; set_solver).
  destruct (free_into_spec lo hi h P u1 m u2 P' Hm Hok Eu Er) as (h' & Hrun & Hm').
  exists h'. split_and!; [exact Hrun|done|]. by destruct (release_ok _ _ _ _ _ _ _ Hok Eu Er).
Qed.

(** What a pool gains and loses when [r] is handed out for [size] bytes. *)
Definition handed_out (al : option Z) (r size : Z) (P P' : pool) : Prop :=
  ∃ u, p_use P' = u :: p_use P ∧ b_base u = r ∧ size ≤ b_size u ≤ size + MIN_MEMSIZE ∧
    b_align u = default (b_align u) al ∧
    ∀ x, cover (p_free P) x = cover (p_free P') x + Z.b2z (contains u x).

Lemma kalloc_effect lo hi h P size r h' :
  models h P → pool_ok lo hi P → 0 < size → p_holes P ≠ [] → kalloc size h = Ret (r, h') →
  let P' := (akalloc size P).2 in models h' P' ∧ pool_ok lo hi P' ∧
  if decide (r = 0) then P' = P ∧ ∀ b, b ∈ p_free P → b_size b < size
  else handed_out None r size P P'.
Proof.
  intros Hm Hok Hsz HH Hrun. destruct (kalloc_spec lo hi h P size) as (h1 & Hrun' & Hm' & Hok'); [done..|].
  rewrite Hrun in Hrun'. injection Hrun' as -> ->. split_and!; [done..|].
  unfold akalloc in *. destruct (find_split _ (p_free P)) as [[[l1 b] l2]|] eqn:Ef; simpl.
  - apply find_split_Some in Ef as (Ef & Hfit & _). unfold fits in Hfit.
    destruct (ok_range Hok b) as [Hlo _]; [rewrite Ef; set_solver|]. pose proof (ok_lo _ _ _ Hok).
    rewrite decide_False by lia. apply give_moves; [done|lia|done].
  - split; [done|]. intros b Hb. pose proof (find_split_None _ _ Ef b Hb) as Hf.
    unfold fits in Hf. lia.
Qed.

(** Free memory far enough above a block just handed out is above it still. *)
Lemma handed_out_above lo hi al r size P P' :
  pool_ok lo hi P' → handed_out al r size P P' → 0 < size →
  (∃ x, r + size + MIN_MEMSIZE < x ∧ 0 < cover (p_free P) x) →
  ∃ f, f ∈ p_free P' ∧ r < b_base f.
Proof.
  intros Hok (u & Eu & Hu & Hsz & _ & Hc) Hpos (x & Hx & Hcx). rewrite Hc in Hcx.
  assert (contains u x = false) as Hux by (apply contains_false; unfold b_end; lia).
  rewrite Hux in Hcx. simpl in Hcx. rewrite Z.add_0_r in Hcx.
  apply cover_pos in Hcx as (f & Hf & Hin). exists f. split; [done|].
  assert (p_free P' ++ p_use P' = p_free P' ++ u :: p_use P) as E by by rewrite Eu.
  destruct (ok_disjoint Hok _ _ _ f E) as [Hd|Hd]; [set_solver|unfold b_end in *; lia..].
Qed.

(** Freeing what was handed out gives back the free list and the used list. *)
Lemma handed_out_released lo hi al r size P P' P'' :
  pool_ok lo hi P → pool_ok lo hi P' → handed_out al r size P P' →
  (∀ u U, p_use P' = u :: U → release [] u U P' = Some P'') →
  extent <$> p_free P'' = extent <$> p_free P ∧ p_use P'' = p_use P.
Proof.
  intros Hok Hok' (u & Eu & _ & _ & _ & Hc) Hrel. specialize (Hrel _ _ Eu).
  destruct (release_ok lo hi P' [] u (p_use P) P'' Hok' Eu Hrel) as (Hok'' & Eu' & Hc').
  split; [|done]. apply canonical; [apply Hok''|apply Hok|intros b ?; apply Hok''; set_solver|
    intros b ?; apply Hok; set_solver|]. intros x. by rewrite Hc', Hc.
Qed.

Lemma kfree_spec lo hi h P u1 m u2 P' :
  models h P → pool_ok lo hi P → p_use P = u1 ++ m :: u2 → release u1 m u2 P = Some P' →
  ∃ h', kfree (b_base m) h = Ret (KFREE_OK, h') ∧ models h' P' ∧ pool_ok lo hi P'.
Proof.
  intros Hm Hok Eu Er.
  apply (free_found lo hi h P (fun b => b_base b =? b_base m) (fun p => mh_base p =? b_base m))
    with (u1 := u1) (m := m) (u2 := u2); [done|done|done|by eapply find_base|done].
Qed.

Lemma afree_spec lo hi h P ptr u1 m u2 P' :
  models h P → pool_ok lo hi P → find_split (fun b => b_align b =? ptr) (p_use P) = Some (u1, m, u2) →
  release u1 m u2 P = Some P' →
  ∃ h', afree ptr h = Ret (KFREE_OK, h') ∧ models h' P' ∧ pool_ok lo hi P'.
Proof.
  intros Hm Hok Ef Er.
  by apply (free_found lo hi h P (fun b => b_align b =? ptr) (fun p => mh_align_base p =? ptr))
    with (u1 := u1) (m := m) (u2 := u2).
Qed.

Lemma aalloc_effect lo hi h P size k r h' :
  models h P → pool_ok lo hi P → p_holes P ≠ [] →
  0 ≤ k ≤ 31 → hi + 2 ^ k ≤ U32 → 0 < size → size + 2 * 2 ^ k ≤ U32 →
  aalloc size k h = Ret (r, h') →
  let P' := (aaalloc size k P).2 in models h' P' ∧ pool_ok lo hi P' ∧
  if decide (r = 0) then P' = P
  else r mod 2 ^ k = 0 ∧ ∃ base need, base ≤ r ∧ r + size ≤ base + need ∧
       need < size + 2 * 2 ^ k ∧ handed_out (Some r) base need P P'.
Proof.
  intros Hm Hok HH Hk Hhi Hsz Hsz' Hrun.
  destruct (aalloc_spec lo hi h P size k) as (h1 & Hrun' & Hm' & Hok'); [done..|].
  rewrite Hrun in Hrun'. injection Hrun' as -> ->. split_and!; [done..|].
  unfold aaalloc in *. destruct (find_split _ (p_free P)) as [[[l1 b] l2]|] eqn:Ef; simpl; [|done].
  apply find_split_Some in Ef as (Ef & Hfit & _).
  assert (b ∈ p_free P ++ p_use P) as Hb by (rewrite Ef; set_solver).
  destruct (ok_range Hok b Hb) as [Hlo Hh]. pose proof (ok_lo _ _ _ Hok). pose proof (ok_pos _ _ _ Hok b Hb).
  destruct (round_up_block_spec (b_base b) k) as [Hal Hr]; [unfold b_end, is_u32 in *; lia|lia|unfold b_end in *; lia|].
  destruct (round_up_block_spec size k) as [_ Hs]; [unfold is_u32; lia|lia|lia|].
  rewrite decide_False by lia. split; [done|].
  exists (b_base b), (aligned_need (2 ^ k) (round_up_block size (2 ^ k)) b).
  unfold aligned_need in *. split_and!; [lia..|]. apply give_moves; [done|lia|done].
Qed.

(** A small pool to run the code on: six descriptors, 100,000 bytes at 4000. *)
Definition demo_pool : pool := Pool (tail (unused 6)) [Blk (Memhole 0) 4000 0 100000] [].
Definition demo_heap : mheap :=
  match init_hole_pool Memhole 6 MHoleList MFreeList MUseList 4000 100000
          (static_storage Memhole 6 MHoleList MFreeList MUseList ∅) with
  | Ret h => h
  | _ => ∅
  end.

Lemma demo_models : models demo_heap demo_pool.
Proof.
  destruct (init_hole_pool_spec 6 ∅ 4000 100000) as (h & Hrun & Hm); [lia|done|].
  unfold demo_heap. rewrite Hrun. exact Hm.
Qed.
Lemma demo_ok : pool_ok 4000 104000 demo_pool.
Proof. by apply (init_pool_ok _ 4000 100000). Qed.

(** A pool with a block in use below the free range. *)
Definition demo_used : pool :=
  Pool [Blk (Memhole 2) 0 0 0] [Blk (Memhole 0) 4100 0 99900] [Blk (Memhole 1) 4000 0 100].
Definition demo_used_heap : mheap :=
  match init_hole_pool Memhole 3 MHoleList MFreeList MUseList 4000 100000
          (static_storage Memhole 3 MHoleList MFreeList MUseList ∅) ≫= kalloc 100 with
  | Ret (_, h) => h
  | _ => ∅
  end.

Lemma demo_used_models : models demo_used_heap demo_used ∧ pool_ok 4000 104000 demo_used.
Proof.
  destruct (init_hole_pool_spec 3 ∅ 4000 100000) as (h & Hrun & Hm); [lia|done|].
  destruct (kalloc_spec 4000 104000 h _ 100 Hm) as (h' & Hk & Hm' & Hok'); [by apply (init_pool_ok _ 4000 100000)|lia|done|].
  unfold demo_used_heap. rewrite Hrun, bind_ret, Hk. split; [exact Hm'|exact Hok'].
Qed.

(** ** Theorems *)

(** [init_mem_core] turns the zeroed static storage into a well-formed pool
    with one free range, the whole of [base_addr .. base_addr + pool_size), no
    range in use, and every other descriptor unused. *)
Theorem init_mem_core_pool base_addr pool_size h :
  h !! NullP = None → 0 < base_addr → 0 < pool_size → base_addr + pool_size < U32 →
  let P := Pool (tail (unused MAX_MHOLES)) [Blk (Memhole 0) base_addr 0 pool_size] [] in
  ∃ h', init_mem_core base_addr pool_size
          (static_storage Memhole MAX_MHOLES MHoleList MFreeList MUseList h) = Ret h' ∧
    models h' P ∧ pool_ok base_addr (base_addr + pool_size) P.
Proof.
  intros Hnull Hb Hs Hw P.
  destruct (init_hole_pool_spec MAX_MHOLES h base_addr pool_size) as (h' & Hrun & Hm);
    [unfold MAX_MHOLES; lia|done|].
  exists h'. split_and!; [done|done|by apply init_pool_ok].
Qed.

Lemma init_mem_core_pool_witness :
  ∃ h', init_mem_core 4096 1000000
          (static_storage Memhole MAX_MHOLES MHoleList MFreeList MUseList ∅) = Ret h'.
Proof.
  destruct (init_mem_core_pool 4096 1000000 ∅) as (h' & Hrun & _); [reflexivity|lia|lia|reflexivity|].
  exists h'. exact Hrun.
Defined.

(** [kalloc] of a positive size is the first fit of the abstract pool, and
    the pool stays well formed: every byte stays in exactly one block. *)
Theorem kalloc_refines lo hi h P size :
  models h P → pool_ok lo hi P → 0 < size → p_holes P ≠ [] →
  ∃ h', kalloc size h = Ret ((akalloc size P).1, h') ∧
        models h' (akalloc size P).2 ∧ pool_ok lo hi (akalloc size P).2.
Proof. apply kalloc_spec. Qed.

Lemma kalloc_refines_witness : ∃ h', kalloc 100 demo_heap = Ret (4000, h').
Proof.
  destruct (kalloc_refines 4000 104000 demo_heap demo_pool 100) as (h' & Hrun & _);
    [exact demo_models|exact demo_ok|lia|done|].
  exists h'. exact Hrun.
Defined.

(** C1: what a caller of [kalloc] gets, for a positive size and with a spare
    descriptor.  The call returns.  NULL means that no free range has [size] bytes
    and that nothing changed; otherwise the result is the base of a new range in
    use of at least [size] and at most [size + MIN_MEMSIZE] bytes, all of which
    were free and are not any more, and every range in use stays. *)
Theorem kalloc_contract lo hi h P size :
  models h P → pool_ok lo hi P → 0 < size → p_holes P ≠ [] →
  ∃ r h' P', kalloc size h = Ret (r, h') ∧ models h' P' ∧ pool_ok lo hi P' ∧
  if decide (r = 0) then P' = P ∧ ∀ b, b ∈ p_free P → b_size b < size
  else ∃ u, p_use P' = u :: p_use P ∧ b_base u = r ∧ size ≤ b_size u ≤ size + MIN_MEMSIZE ∧
       ∀ x, cover (p_free P) x = cover (p_free P') x + Z.b2z (contains u x).
Proof.
  intros Hm Hok Hsz HH. destruct (kalloc_spec lo hi h P size) as (h' & Hrun & _); [done..|].
  destruct (kalloc_effect lo hi h P size _ h' Hm Hok Hsz HH Hrun) as (Hm' & Hok' & Heff).
  eexists _, h', _. split_and!; [done..|].
  case_decide; [done|]. destruct Heff as (u & ? & ? & ? & _ & ?). eauto.
Qed.

Lemma demo_kalloc r h' : kalloc 200 demo_used_heap = Ret (r, h') → r = 4100.
Proof.
  destruct demo_used_models as [Hm Hok]. intros Hrun.
  destruct (kalloc_spec 4000 104000 demo_used_heap demo_used 200) as (h1 & Hrun' & _); [done|done|lia|done|].
  rewrite Hrun in Hrun'. by injection Hrun' as -> _.
Qed.

Lemma kalloc_contract_witness :
  ∃ h' P' u, kalloc 200 demo_used_heap = Ret (4100, h') ∧ models h' P' ∧ p_use P' = u :: p_use demo_used ∧ b_base u = 4100.
Proof.
  destruct demo_used_models as [Hm Hok].
  destruct (kalloc_contract 4000 104000 demo_used_heap demo_used 200) as (r & h' & P' & Hrun & Hm' & _ & H);
    [exact Hm|exact Hok|lia|done|].
  pose proof (demo_kalloc r h' Hrun) as ->. rewrite decide_False in H by lia. destruct H as (u & Hu & Hb & _).
  exists h', P', u. split; [exact Hrun|]. split; [exact Hm'|]. split; [exact Hu|exact Hb].
Defined.

(** C2: [kfree] of the base of a range in use below some free range removes the
    range from the ranges in use, makes exactly its bytes free, and keeps the
    pool well formed: the free ranges stay sorted and touching ones are merged. *)
Theorem kfree_refines lo hi h P u1 m u2 :
  models h P → pool_ok lo hi P → p_use P = u1 ++ m :: u2 →
  (∃ f, f ∈ p_free P ∧ b_base m < b_base f) →
  ∃ h' P', kfree (b_base m) h = Ret (KFREE_OK, h') ∧ models h' P' ∧ pool_ok lo hi P' ∧
    p_use P' = u1 ++ u2 ∧ ∀ x, cover (p_free P') x = cover (p_free P) x + Z.b2z (contains m x).
Proof.
  intros Hm Hok Eu Habove. destruct (release_Some u1 m u2 P Habove) as [P' Er].
  destruct (kfree_spec lo hi h P u1 m u2 P') as (h' & Hrun & Hm' & Hok'); [done..|].
  exists h', P'. destruct (release_ok _ _ _ _ _ _ _ Hok Eu Er) as (_ & ? & ?). by split_and!.
Qed.

Lemma kfree_refines_witness : ∃ h', kfree 4000 demo_used_heap = Ret (KFREE_OK, h').
Proof.
  destruct demo_used_models as [Hm Hok].
  destruct (kfree_refines 4000 104000 demo_used_heap demo_used [] (Blk (Memhole 1) 4000 0 100) [] Hm Hok)
    as (h' & P' & Hrun & _); [done|exists (Blk (Memhole 0) 4100 0 99900); split; [set_solver|simpl; lia]|].
  exists h'. exact Hrun.
Defined.

(** [kfree] of an address that is not the base of a range in use changes
    nothing and returns [KFREE_FAIL_NOT_MHOLE]. *)
Theorem kfree_rejects h P ptr :
  models h P → (∀ u, u ∈ p_use P → b_base u ≠ ptr) → kfree ptr h = Ret (KFREE_FAIL_NOT_MHOLE, h).
Proof.
  intros Hm Hnone. unfold kfree, _search_used_mhole.
  rewrite (search_spec h P (fun b => b_base b =? ptr)) by done.
  destruct (find_split _ (p_use P)) as [[[u1 m] u2]|] eqn:Ef; [|done].
  apply find_split_Some in Ef as (Eu & Hb & _). destruct (Hnone m); [rewrite Eu; set_solver|lia].
Qed.

Lemma kfree_rejects_witness : kfree 4001 demo_used_heap = Ret (KFREE_FAIL_NOT_MHOLE, demo_used_heap).
Proof.
  destruct demo_used_models as [Hm _]. apply (kfree_rejects demo_used_heap demo_used 4001 Hm).
  intros u Hu. simpl in Hu. apply list_elem_of_singleton in Hu. subst u. simpl. lia.
Defined.

(** C3: for a positive size, with a spare descriptor and with free memory more than
    [MIN_MEMSIZE] bytes above the end of the block, [kalloc] returns, and when it
    finds a block, [kfree] of it gives back the same free ranges and the same ranges
    in use: freeing merges what allocating split. *)
Theorem kalloc_kfree_roundtrip lo hi h P size :
  models h P → pool_ok lo hi P → 0 < size → p_holes P ≠ [] →
  ∃ r h', kalloc size h = Ret (r, h') ∧
  (r ≠ 0 → (∃ x, r + size + MIN_MEMSIZE < x ∧ 0 < cover (p_free P) x) →
   ∃ h'' P'', kfree r h' = Ret (KFREE_OK, h'') ∧ models h'' P'' ∧ pool_ok lo hi P'' ∧
     extent <$> p_free P'' = extent <$> p_free P ∧ p_use P'' = p_use P).
Proof.
  intros Hm Hok Hsz HH. destruct (kalloc_spec lo hi h P size) as (h' & Hrun & _); [done..|].
  eexists _, h'. split; [exact Hrun|]. revert Hrun. generalize (akalloc size P).1. intros r Hrun Hr Hx.
  destruct (kalloc_effect lo hi h P size _ h' Hm Hok Hsz HH Hrun) as (Hm' & Hok' & Hh).
  rewrite decide_False in Hh by done.
  pose proof (handed_out_above _ _ _ _ _ _ _ Hok' Hh Hsz Hx) as Ha. pose proof Hh as (u & Eu & <- & _).
  destruct (release_Some [] u (p_use P) _ Ha) as [P'' Er].
  destruct (kfree_spec lo hi h' _ [] u (p_use P) P'' Hm' Hok' Eu Er) as (h'' & Hf & Hm'' & Hok'').
  exists h'', P''. split_and!; [done..| |]; eapply (handed_out_released _ _ _ _ _ _ _ _ Hok Hok' Hh);
    intros ?? E; rewrite Eu in E; by injection E as <- <-.
Qed.

Lemma kalloc_kfree_roundtrip_witness :
  ∃ h' h'', kalloc 200 demo_used_heap = Ret (4100, h') ∧ kfree 4100 h' = Ret (KFREE_OK, h'').
Proof.
  destruct demo_used_models as [Hm Hok].
  destruct (kalloc_kfree_roundtrip 4000 104000 demo_used_heap demo_used 200) as (r & h' & Hrun & H);
    [exact Hm|exact Hok|lia|done|].
  pose proof (demo_kalloc r h' Hrun) as ->.
  destruct H as (h'' & P'' & Hf & _); [lia|exists 5000; vm_compute; by split|].
  exists h', h''. split; [exact Hrun|exact Hf].
Defined.

(** [aalloc] returns a multiple of [2 ^ align_bit] whose [size] bytes lie in a
    new range in use taken from the free ranges, and [afree] of that address gives
    back the same free ranges and the same ranges in use. *)
Theorem aalloc_afree_roundtrip lo hi h P size k r h' :
  models h P → pool_ok lo hi P → p_holes P ≠ [] →
  0 ≤ k ≤ 31 → hi + 2 ^ k ≤ U32 → 0 < size → size + 2 * 2 ^ k ≤ U32 →
  aalloc size k h = Ret (r, h') → r ≠ 0 →
  (∃ x, r + size + 2 * 2 ^ k + MIN_MEMSIZE < x ∧ 0 < cover (p_free P) x) →
  r mod 2 ^ k = 0 ∧ (∀ x, r ≤ x < r + size → cover (p_free P) x = 1) ∧
  ∃ h'' P'', afree r h' = Ret (KFREE_OK, h'') ∧ models h'' P'' ∧ pool_ok lo hi P'' ∧
    extent <$> p_free P'' = extent <$> p_free P ∧ p_use P'' = p_use P.
Proof.
  intros Hm Hok HH Hk Hhi Hsz Hsz' Hrun Hr (x & Hx & Hcx).
  destruct (aalloc_effect lo hi h P size k r h') as (Hm' & Hok' & Hh); [done..|].
  rewrite decide_False in Hh by done. destruct Hh as (Hal & base & need & Hb & He & Hn & Hh).
  assert (∃ f, f ∈ p_free (aaalloc size k P).2 ∧ base < b_base f) as Ha.
  { eapply handed_out_above; [done|done|lia|]. exists x. split; [|done]. assert (0 < 2 ^ k) by lia. lia. }
  pose proof Hh as (u & Eu & <- & Hs & Ealign & Hc). split_and!; [done| |].
  - intros y Hy. assert (contains u y = true) as Hu by (apply contains_true; unfold b_end; lia).
    specialize (Hc y). rewrite Hu in Hc. simpl in Hc.
    pose proof (cover_nonneg (p_free (aaalloc size k P).2) y).
    pose proof (ok_cover_le Hok (p_free P) (p_use P) y eq_refl). lia.
  - destruct (release_Some [] u (p_use P) _ Ha) as [P'' Er]. simpl in Ealign.
    destruct (afree_spec lo hi h' _ r [] u (p_use P) P'' Hm' Hok') as (h'' & Hf & Hm'' & Hok'');
      [rewrite Eu; simpl; by rewrite Ealign, Z.eqb_refl|done|].
    exists h'', P''. split_and!; [done..| |]; eapply (handed_out_released _ _ _ _ _ _ _ _ Hok Hok' Hh);
      intros ?? E; rewrite Eu in E; by injection E as <- <-.
Qed.

Lemma aalloc_afree_roundtrip_witness :
  ∃ h' h'', aalloc 4096 12 demo_heap = Ret (4096, h') ∧ afree 4096 h' = Ret (KFREE_OK, h'').
Proof.
  destruct (aalloc_spec 4000 104000 demo_heap demo_pool 4096 12) as (h' & Hrun & _);
    [exact demo_models|exact demo_ok|done|lia|reflexivity || (vm_compute; discriminate)|lia|vm_compute; discriminate|].
  destruct (aalloc_afree_roundtrip 4000 104000 demo_heap demo_pool 4096 12 4096 h') as (_ & _ & h'' & P'' & Hf & _);
    [exact demo_models|exact demo_ok|done|lia|vm_compute; discriminate|lia|vm_compute; discriminate|
     exact Hrun|lia|exists 50000; vm_compute; by split|].
  exists h', h''. split; [exact Hrun|exact Hf].
Defined.

(** ** Where the code departs from the contract *)

Definition small_pool (n : nat) (base size : Z) : outcome mheap :=
  init_hole_pool Memhole n MHoleList MFreeList MUseList base size
    (static_storage Memhole n MHoleList MFreeList MUseList ∅).

(** A block with nothing free above it never gets back to the free list: the
    whole pool is allocated and freed, [kfree] reports success, and the same
    request then fails. *)
Example kfree_top_block_lost :
  (h ← small_pool 6 4096 1000;
   '(a, h) ← kalloc 1000 h; '(b, h) ← kfree a h; '(c, h) ← kalloc 1000 h; Ret (a, b, c))
  = Ret (4096, KFREE_OK, 0).
Proof. vm_compute. reflexivity. Qed.

(** After [kalloc(0)] the next request finds a range in use with the base of the
    hole it takes, and [used_check] stops the kernel. *)
Example kalloc_zero_hangs :
  (h ← small_pool 6 4096 1000; '(a, h) ← kalloc 0 h; '(b, h) ← kalloc 8 h; Ret (a, b)) = Hang.
Proof. vm_compute. reflexivity. Qed.

(** [MHOLE_CLEAN] keeps [align_base], so a descriptor that is used again by
    [kalloc] still carries the aligned address of an earlier [aalloc]: here
    [afree] of the live aligned block 4096 frees the block 8192 of [kalloc]. *)
Example afree_frees_another_block :
  (h ← small_pool 8 4000 100000;
   '(a, h) ← aalloc 4096 12 h; '(_, h) ← afree a h; '(_, h) ← kalloc 8 h;
   '(a', h) ← aalloc 4096 12 h; '(d, h) ← kalloc 95808 h;
   '(e, h) ← afree a' h; '(f, h) ← kfree d h; Ret (a', d, e, f))
  = Ret (4096, 8192, KFREE_OK, KFREE_FAIL_NOT_MHOLE).
Proof. vm_compute. reflexivity. Qed.

(** With no descriptor left, [new_mhole] returns the list head instead of NULL:
    two blocks in use share it, and the first can not be freed. *)
Example new_mhole_exhausted :
  (h ← small_pool 1 4000 100000;
   '(a, h) ← kalloc 100 h; '(b, h) ← kalloc 100 h; '(c, h) ← kfree a h; Ret (a, b, c))
  = Ret (4000, 4100, KFREE_FAIL_NOT_MHOLE).
Proof. vm_compute. reflexivity. Qed.

(** [palloc] rounds a request of more than one page down to whole pages: 4097
    bytes get one page, and the next page is handed out to the next caller. *)
Example palloc_rounds_down :
  (h ← init_hole_pool PMemhole 6 PMHoleList PMFreeList PMUseList 0x1000000 0x100000
         (static_storage PMemhole 6 PMHoleList PMFreeList PMUseList ∅);
   '(a, h) ← palloc 4097 h; '(b, h) ← palloc 4096 h; Ret (a, b))
  = Ret (0x1000000, 0x1001000).
Proof. vm_compute. reflexivity. Qed.

(** [pfree] merges into the kernel's list of unused descriptors: freeing in the
    process pool moves a process descriptor to [mhole_list]. *)
Example pfree_moves_descriptor :
  (h ← small_pool 1 4096 1000;
   h ← init_hole_pool PMemhole 4 PMHoleList PMFreeList PMUseList 0x1000000 0x100000
         (static_storage PMemhole 4 PMHoleList PMFreeList PMUseList h);
   '(a, h) ← palloc 4096 h; '(b, h) ← pfree a h;
   m ← deref h MHoleList; Ret (b, mh_next m))
  = Ret (KFREE_OK, PMemhole 0).
Proof. vm_compute. reflexivity. Qed.
