(* ===== verification/MemoryLayout.v ===== *)
(** * Physical memory layout: [src/memory_layout.c], [src/include/memory_layout.h]

    The boot loader leaves a description of the RAM; the kernel turns it into
    lists of usable and reserved ranges and decides where its heap and the pool
    of process pages are.  An array with a count is the list of its first [count]
    elements; [SODEX_RAM_CAP_MB], a macro of the build, is an argument. *)

From S2P Require Import Prelude.

Definition BOOT_E820_MAX_ENTRIES : nat := 32.
Definition MEMORY_LAYOUT_LOW_RESERVED_BYTES : Z := 0x00100000.
Definition MEMORY_LAYOUT_DEFAULT_RAM_BYTES : Z := 768 * 1024 * 1024.
Definition MEMORY_LAYOUT_MAX_RAM_BYTES : Z := 0x40000000.
Definition MEMORY_LAYOUT_MIN_POOL_BASE : Z := 0x02000000.
Definition MEMORY_LAYOUT_PDE_BYTES : Z := 0x00400000.
Definition MEMORY_LAYOUT_KERNEL_PDE_BASE : Z := 768.
Definition MEMORY_E820_TYPE_USABLE : Z := 1.
Definition MEMORY_INFO_SOURCE_UNKNOWN : Z := 0.
Definition MEMORY_INFO_SOURCE_E820 : Z := 1.
Definition MEMORY_INFO_SOURCE_DEFAULT : Z := 4.
Definition PAGE_BYTES : Z := 4096.
Definition PAGE_OFFSET : Z := 0xC0000000.

Record boot_e820_entry := E820 {
  base_low : Z; base_high : Z; length_low : Z; length_high : Z; e_type : Z
}.

Record boot_memory_info := BootInfo {
  detected_ram_mb : Z;
  bi_source : Z;
  e820_entry_count : Z;
  bi_e820_truncated : Z;
  e820_entries : list boot_e820_entry
}.

Record memory_range := Range { r_base : Z; r_size : Z }.

Record memory_info := MemInfo {
  source : Z;
  detected_ram_bytes : Z;
  e820_truncated : Z;
  usable_ranges : list memory_range;
  reserved_ranges : list memory_range
}.

Record memory_layout_policy := Policy {
  configured_cap : Z;
  effective_ram_bytes : Z;
  direct_map_bytes : Z;
  kernel_pde_end : Z;
  kernel_heap : memory_range;
  process_pool : memory_range
}.

Definition align_up (value align : Z) : Z :=
  if align =? 0 then value
  else if Z.land value (u32 (align - 1)) =? 0 then value
  else u32 (Z.land value (not32 (u32 (align - 1))) + align).

Definition align_down (value align : Z) : Z :=
  if align =? 0 then value else Z.land value (not32 (u32 (align - 1))).

Definition min_u32 (a b : Z) : Z := if a <? b then a else b.
Definition max_u32 (a b : Z) : Z := if b <? a then a else b.

Definition append_range (ranges : list memory_range) (base size : Z) : list memory_range :=
  if size =? 0 then ranges
  else if (BOOT_E820_MAX_ENTRIES <=? length ranges)%nat then ranges
  else ranges ++ [Range base size].

Definition boot_detected_bytes (boot_info : option boot_memory_info) : Z :=
  match boot_info with
  | None => MEMORY_LAYOUT_DEFAULT_RAM_BYTES
  | Some bi =>
      if detected_ram_mb bi =? 0 then MEMORY_LAYOUT_DEFAULT_RAM_BYTES
      else
        let detected_bytes := u32 (u32 (detected_ram_mb bi * 1024) * 1024) in
        if detected_bytes =? 0 then MEMORY_LAYOUT_DEFAULT_RAM_BYTES
        else if detected_bytes <? MEMORY_LAYOUT_DEFAULT_RAM_BYTES
        then MEMORY_LAYOUT_DEFAULT_RAM_BYTES
        else detected_bytes
  end.

Definition sanitize_detected_bytes (detected_bytes : Z) : Z :=
  let d := min_u32 detected_bytes MEMORY_LAYOUT_MAX_RAM_BYTES in
  let d := align_down d MEMORY_LAYOUT_PDE_BYTES in
  if d <? MEMORY_LAYOUT_DEFAULT_RAM_BYTES then MEMORY_LAYOUT_DEFAULT_RAM_BYTES else d.

Definition configured_cap_bytes (SODEX_RAM_CAP_MB : Z) : Z :=
  if SODEX_RAM_CAP_MB <=? 0 then 0
  else sanitize_detected_bytes (u32 (u32 (SODEX_RAM_CAP_MB * 1024) * 1024)).

Definition boot_has_e820 (boot_info : option boot_memory_info) : bool :=
  match boot_info with
  | None => false
  | Some bi => negb (e820_entry_count bi =? 0)
  end.

(** One round of the loop of [select_process_pool]. *)
Definition better_pool (start end_ : Z) (best range : memory_range) : memory_range :=
  let range_end := u32 (r_base range + r_size range) in
  let clipped_base := max_u32 (r_base range) start in
  let clipped_end := min_u32 range_end end_ in
  if clipped_end <=? clipped_base then best
  else if r_size best <? clipped_end - clipped_base
  then Range clipped_base (clipped_end - clipped_base)
  else best.

Definition select_process_pool (info : memory_info) (start end_ : Z) : memory_range :=
  if end_ <=? start then Range start 0
  else
    let best := foldl (better_pool start end_) (Range start 0) (usable_ranges info) in
    if r_size best =? 0 then Range start (end_ - start) else best.

(** One round of the loop over the E820 entries: the usable ranges, the reserved
    ranges and the highest end of a usable range so far. *)
Definition e820_step (st : list memory_range * list memory_range * Z) (entry : boot_e820_entry) :
    list memory_range * list memory_range * Z :=
  let '(usable, reserved, highest_usable_end) := st in
  if length_low entry =? 0 then st
  else if negb (base_high entry =? 0) || negb (length_high entry =? 0) then st
  else
    let base := base_low entry in
    let size := length_low entry in
    let end_ := u32 (base + size) in
    if end_ <? base then st
    else if e_type entry =? MEMORY_E820_TYPE_USABLE
    then (append_range usable base size, reserved,
          if highest_usable_end <? end_ then end_ else highest_usable_end)
    else (usable, append_range reserved base size, highest_usable_end).

Definition scanned_entries (bi : boot_memory_info) : list boot_e820_entry :=
  take (Nat.min (Z.to_nat (e820_entry_count bi)) BOOT_E820_MAX_ENTRIES) (e820_entries bi).

Definition memory_info_from_boot_raw (boot_info : option boot_memory_info) : memory_info :=
  let detected_bytes := sanitize_detected_bytes (boot_detected_bytes boot_info) in
  let '(usable, reserved, highest_usable_end) :=
    match boot_info with
    | Some bi => if boot_has_e820 boot_info then foldl e820_step ([], [], 0) (scanned_entries bi)
                 else ([], [], 0)
    | None => ([], [], 0)
    end in
  match usable, boot_info with
  | _ :: _, Some bi =>
      MemInfo MEMORY_INFO_SOURCE_E820 (sanitize_detected_bytes highest_usable_end)
        (bi_e820_truncated bi) usable reserved
  | _, _ =>
      let src := match boot_info with Some bi => bi_source bi | None => 0 end in
      MemInfo (if src =? MEMORY_INFO_SOURCE_UNKNOWN then MEMORY_INFO_SOURCE_DEFAULT else src)
        detected_bytes 0
        (if MEMORY_LAYOUT_LOW_RESERVED_BYTES <? detected_bytes
         then append_range usable MEMORY_LAYOUT_LOW_RESERVED_BYTES
                (detected_bytes - MEMORY_LAYOUT_LOW_RESERVED_BYTES)
         else usable)
        (append_range reserved 0 MEMORY_LAYOUT_LOW_RESERVED_BYTES)
  end.

Definition memory_layout_build (info : option memory_info)
    (kernel_image_end_phys configured_cap_bytes : Z) : memory_layout_policy :=
  match info with
  | None => Policy 0 0 0 0 (Range 0 0) (Range 0 0)
  | Some info =>
      let detected_bytes := sanitize_detected_bytes (detected_ram_bytes info) in
      let cap := if negb (configured_cap_bytes =? 0)
                 then sanitize_detected_bytes configured_cap_bytes else configured_cap_bytes in
      let effective_bytes := if negb (cap =? 0) then min_u32 detected_bytes cap
                             else detected_bytes in
      let heap_base_phys := align_up kernel_image_end_phys PAGE_BYTES in
      let reserved_kernel_bytes :=
        align_up (max_u32 MEMORY_LAYOUT_MIN_POOL_BASE (effective_bytes / 8))
          MEMORY_LAYOUT_PDE_BYTES in
      let reserved_kernel_bytes :=
        if effective_bytes <? reserved_kernel_bytes then effective_bytes
        else reserved_kernel_bytes in
      let process_pool_base :=
        if reserved_kernel_bytes <? heap_base_phys
        then align_up heap_base_phys MEMORY_LAYOUT_PDE_BYTES else reserved_kernel_bytes in
      let process_pool_base :=
        if effective_bytes <? process_pool_base then effective_bytes else process_pool_base in
      Policy cap effective_bytes effective_bytes
        (u32 (MEMORY_LAYOUT_KERNEL_PDE_BASE + effective_bytes / MEMORY_LAYOUT_PDE_BYTES))
        (Range (u32 (PAGE_OFFSET + heap_base_phys))
           (if heap_base_phys <? process_pool_base
            then process_pool_base - heap_base_phys else 0))
        (select_process_pool info process_pool_base effective_bytes)
  end.

(** What [memory_layout_init_runtime] leaves in [g_memory_info] and
    [g_memory_layout]. *)
Definition memory_layout_init_runtime (SODEX_RAM_CAP_MB : Z) (boot_info : boot_memory_info)
    (kernel_image_end_phys : Z) : memory_info * memory_layout_policy :=
  let info := memory_info_from_boot_raw (Some boot_info) in
  (info, memory_layout_build (Some info) kernel_image_end_phys
           (configured_cap_bytes SODEX_RAM_CAP_MB)).

(** ** Lemmas *)

Lemma align_up_spec v k :
  is_u32 v → 0 ≤ k ≤ 31 → v + 2 ^ k ≤ U32 →
  align_up v (2 ^ k) mod 2 ^ k = 0 ∧ v ≤ align_up v (2 ^ k) < v + 2 ^ k.
Proof.
  intros Hv Hk Hw. unfold align_up. destruct (Z.eqb_spec (2 ^ k) 0) as [E|_]; [lia|].
  by apply round_up_pow2.
Qed.

Lemma sanitize_spec d :
  0 ≤ d → let s := sanitize_detected_bytes d in
  MEMORY_LAYOUT_DEFAULT_RAM_BYTES ≤ s ≤ MEMORY_LAYOUT_MAX_RAM_BYTES ∧ s mod MEMORY_LAYOUT_PDE_BYTES = 0 ∧
  (MEMORY_LAYOUT_DEFAULT_RAM_BYTES ≤ d → s ≤ d).
Proof.
  intros Hd. unfold sanitize_detected_bytes, align_down. change MEMORY_LAYOUT_PDE_BYTES with (2 ^ 22).
  set (m := min_u32 _ _). assert (0 ≤ m ≤ d ∧ m ≤ MEMORY_LAYOUT_MAX_RAM_BYTES) as Hm
    by (unfold m, min_u32, MEMORY_LAYOUT_MAX_RAM_BYTES; zcases; lia).
  unfold MEMORY_LAYOUT_MAX_RAM_BYTES, MEMORY_LAYOUT_DEFAULT_RAM_BYTES in *.
  destruct (Z.eqb_spec (2 ^ 22) 0) as [|_]; [lia|].
  rewrite (u32_small (2 ^ 22 - 1)), land_not_mask by (unfold is_u32, U32; lia).
  pose proof (Z.mod_pos_bound m (2 ^ 22)) as Hb. pose proof (Z.div_mod m (2 ^ 22)) as Hdm.
  assert ((m - m mod 2 ^ 22) mod 2 ^ 22 = 0) as Hz.
  { replace (m - m mod 2 ^ 22) with (m / 2 ^ 22 * 2 ^ 22) by lia. apply Z.mod_mul. lia. }
  zcases; split_and!; try done; lia.
Qed.

Definition valid_range (r : memory_range) : Prop :=
  0 ≤ r_base r ∧ 0 ≤ r_size r ∧ r_base r + r_size r < U32.

(** The part of a range between [start] and [end_]. *)
Definition clipped (start end_ : Z) (r : memory_range) : Z :=
  Z.min (r_base r + r_size r) end_ - Z.max (r_base r) start.

(** What holds of the best range among [l]. *)
Record best_of (start end_ : Z) (l : list memory_range) (best : memory_range) : Prop := {
  bo_size : 0 ≤ r_size best;
  bo_in : start ≤ r_base best ∧ r_base best + r_size best ≤ end_;
  bo_max : ∀ r, r ∈ l → clipped start end_ r ≤ r_size best;
  bo_from : r_size best = 0 ∨ ∃ r, r ∈ l ∧ r_base r ≤ r_base best ∧
    r_base best + r_size best ≤ r_base r + r_size r
}.

Lemma better_pool_best start end_ l best r :
  valid_range r → best_of start end_ l best → best_of start end_ (l ++ [r]) (better_pool start end_ best r).
Proof.
  intros (Hb & Hs & He) [Hsz Hin Hmax Hfrom]. unfold better_pool.
  rewrite u32_small by (unfold is_u32; lia).
  assert (max_u32 (r_base r) start = Z.max (r_base r) start) as -> by (unfold max_u32; zcases; lia).
  assert (min_u32 (r_base r + r_size r) end_ = Z.min (r_base r + r_size r) end_) as ->
    by (unfold min_u32; zcases; lia).
  fold (clipped start end_ r).
  assert (∀ x, x ∈ l ++ [r] → x ∈ l ∨ x = r) as Hx by (intros x; rewrite elem_of_app, list_elem_of_singleton; done).
  assert (∀ b, (r_size b = 0 ∨ ∃ x, x ∈ l ∧ r_base x ≤ r_base b ∧ r_base b + r_size b ≤ r_base x + r_size x) →
    r_size b = 0 ∨ ∃ x, x ∈ l ++ [r] ∧ r_base x ≤ r_base b ∧ r_base b + r_size b ≤ r_base x + r_size x) as Hf.
  { intros b [?|(x & ? & ?)]; [by left|right; exists x; set_solver]. }
  zcases; constructor; simpl; auto; unfold clipped in *; try lia.
  - intros x [?| ->]%Hx; [by apply Hmax|]. lia.
  - intros x [Hin'| ->]%Hx; [specialize (Hmax x Hin')|]; lia.
  - right. exists r. split; [set_solver|lia].
  - intros x [?| ->]%Hx; [by apply Hmax|]. lia.
Qed.

Lemma foldl_best start end_ l : start ≤ end_ → Forall valid_range l →
  best_of start end_ l (foldl (better_pool start end_) (Range start 0) l).
Proof.
  intros Hse. induction l as [|r l IH] using rev_ind; intros Hv.
  - constructor; simpl; [lia|lia|set_solver|by left].
  - apply Forall_app in Hv as [Hv [Hr _]%Forall_cons]. rewrite foldl_app. by apply better_pool_best, IH.
Qed.

(** An entry that the scan keeps: not empty, below 4 GB, not wrapping. *)
Definition entry_kept (e : boot_e820_entry) : bool :=
  negb (length_low e =? 0) && (base_high e =? 0) && (length_high e =? 0) &&
  (base_low e + length_low e <? U32).
Definition is_usable (e : boot_e820_entry) : bool := e_type e =? MEMORY_E820_TYPE_USABLE.
Definition entry_range (e : boot_e820_entry) : memory_range := Range (base_low e) (length_low e).
Definition entry_u32 (e : boot_e820_entry) : Prop := is_u32 (base_low e) ∧ is_u32 (length_low e).

Definition kept_usable (l : list boot_e820_entry) : list memory_range :=
  entry_range <$> List.filter (fun e => entry_kept e && is_usable e) l.
Definition kept_reserved (l : list boot_e820_entry) : list memory_range :=
  entry_range <$> List.filter (fun e => entry_kept e && negb (is_usable e)) l.

Lemma append_range_room l b s :
  s ≠ 0 → (length l < BOOT_E820_MAX_ENTRIES)%nat → append_range l b s = l ++ [Range b s].
Proof.
  intros Hs Hl. unfold append_range. destruct (Z.eqb_spec s 0); [done|].
  destruct (Nat.leb_spec BOOT_E820_MAX_ENTRIES (length l)); [lia|done].
Qed.

Lemma e820_step_spec us rs hi e :
  entry_u32 e → (length us < BOOT_E820_MAX_ENTRIES)%nat → (length rs < BOOT_E820_MAX_ENTRIES)%nat →
  ∃ hi', e820_step (us, rs, hi) e = (us ++ kept_usable [e], rs ++ kept_reserved [e], hi') ∧
         (0 ≤ hi → 0 ≤ hi').
Proof.
  intros [Hb Hl] Hus Hrs. unfold e820_step, kept_usable, kept_reserved.
  assert ((u32 (base_low e + length_low e) <? base_low e) = negb (base_low e + length_low e <? U32)) as Ew.
  { unfold u32, is_u32 in *. destruct (Z.ltb_spec (base_low e + length_low e) U32) as [Hlt|Hge]; simpl.
    - rewrite Z.mod_small by lia. lia.
    - replace (base_low e + length_low e) with (base_low e + length_low e - U32 + 1 * U32) by lia.
      rewrite Z.mod_add, Z.mod_small by (unfold U32 in *; lia). lia. }
  cbn [List.filter]. fold (is_usable e). unfold entry_kept.
  destruct (Z.eqb_spec (length_low e) 0) as [|Hne]; simpl; [exists hi; by rewrite !app_nil_r|].
  destruct (base_high e =? 0), (length_high e =? 0); simpl; try (exists hi; by rewrite !app_nil_r).
  rewrite Ew. destruct (base_low e + length_low e <? U32); simpl; [|exists hi; by rewrite !app_nil_r].
  destruct (is_usable e); simpl; rewrite append_range_room, ?app_nil_r by done; eexists; (split; [done|]);
    [|done]. pose proof (u32_range (base_low e + length_low e)) as [? _]. zcases; lia.
Qed.

Lemma e820_scan_spec l us rs hi :
  Forall entry_u32 l → (length us + length l ≤ BOOT_E820_MAX_ENTRIES)%nat →
  (length rs + length l ≤ BOOT_E820_MAX_ENTRIES)%nat →
  ∃ hi', foldl e820_step (us, rs, hi) l = (us ++ kept_usable l, rs ++ kept_reserved l, hi') ∧
         (0 ≤ hi → 0 ≤ hi').
Proof.
  revert us rs hi. induction l as [|e l IH]; intros us rs hi Hl Hus Hrs.
  - exists hi. by rewrite !app_nil_r.
  - apply Forall_cons in Hl as [He Hl]. cbn [foldl length] in *.
    destruct (e820_step_spec us rs hi e) as (hi1 & -> & H1); [done|lia..|].
    assert (∀ P, length (entry_range <$> List.filter P [e]) ≤ 1)%nat as Hone
      by (intros P; simpl; destruct (P e); simpl; lia).
    destruct (IH (us ++ kept_usable [e]) (rs ++ kept_reserved [e]) hi1) as (hi' & -> & H2);
      [done|rewrite length_app; pose proof (Hone (fun e => entry_kept e && is_usable e)); unfold kept_usable; lia
      |rewrite length_app; pose proof (Hone (fun e => entry_kept e && negb (is_usable e))); unfold kept_reserved; lia|].
    exists hi'. split; [|auto]. rewrite <-!app_assoc. unfold kept_usable, kept_reserved.
    by rewrite <-!fmap_app, <-!List.filter_app.
Qed.

Lemma scanned_length bi : (length (scanned_entries bi) ≤ BOOT_E820_MAX_ENTRIES)%nat.
Proof. unfold scanned_entries. rewrite length_take. lia. Qed.

Lemma scanned_u32 bi : Forall entry_u32 (e820_entries bi) → Forall entry_u32 (scanned_entries bi).
Proof. apply Forall_take. Qed.

Lemma kept_usable_valid l : Forall entry_u32 l → Forall valid_range (kept_usable l).
Proof.
  intros Hl. apply Forall_forall. intros r (e & -> & He)%list_elem_of_fmap.
  apply base.list_elem_of_In, filter_In in He as [He Hk]. apply base.list_elem_of_In in He.
  rewrite Forall_forall in Hl. destruct (Hl e He) as [[??] [??]].
  unfold entry_kept in Hk. unfold valid_range. simpl. lia.
Qed.

(** What the rest of the kernel may rely on in a [memory_info]. *)
Definition info_ok (info : memory_info) : Prop :=
  0 ≤ detected_ram_bytes info ∧ Forall valid_range (usable_ranges info).

Lemma boot_detected_nonneg bi : 0 ≤ boot_detected_bytes bi.
Proof.
  unfold boot_detected_bytes, MEMORY_LAYOUT_DEFAULT_RAM_BYTES. destruct bi as [bi|]; [|done].
  pose proof (u32_range (u32 (detected_ram_mb bi * 1024) * 1024)) as [? _]. zcases; lia.
Qed.

(** The result of [memory_info_from_boot_raw] on every branch. *)
Lemma boot_raw_spec bi :
  Forall entry_u32 (e820_entries bi) →
  let info := memory_info_from_boot_raw (Some bi) in
  info_ok info ∧
  (e820_entry_count bi ≠ 0 → kept_usable (scanned_entries bi) ≠ [] →
   source info = MEMORY_INFO_SOURCE_E820 ∧ usable_ranges info = kept_usable (scanned_entries bi) ∧
   reserved_ranges info = kept_reserved (scanned_entries bi)).
Proof.
  intros Hl. unfold memory_info_from_boot_raw, boot_has_e820.
  pose proof (boot_detected_nonneg (Some bi)) as Hd.
  destruct (e820_scan_spec (scanned_entries bi) [] [] 0) as (hi & -> & Hhi);
    [by apply scanned_u32|simpl; apply scanned_length..|]. specialize (Hhi ltac:(lia)).
  rewrite !app_nil_l. destruct (sanitize_spec hi Hhi) as [Hs _].
  destruct (sanitize_spec _ Hd) as [Hs' _].
  pose proof (kept_usable_valid _ (scanned_u32 _ Hl)) as Hv.
  unfold MEMORY_LAYOUT_DEFAULT_RAM_BYTES, MEMORY_LAYOUT_MAX_RAM_BYTES in *.
  set (d := sanitize_detected_bytes (boot_detected_bytes (Some bi))) in *.
  assert (∀ us, us = [] → Forall valid_range (if MEMORY_LAYOUT_LOW_RESERVED_BYTES <? d
     then append_range us MEMORY_LAYOUT_LOW_RESERVED_BYTES (d - MEMORY_LAYOUT_LOW_RESERVED_BYTES) else us)) as Hfb.
  { intros us ->. unfold MEMORY_LAYOUT_LOW_RESERVED_BYTES. zcases; [|by constructor].
    rewrite append_range_room by (simpl; unfold BOOT_E820_MAX_ENTRIES; lia).
    repeat constructor; unfold U32; simpl; lia. }
  destruct (Z.eqb_spec (e820_entry_count bi) 0) as [E|E]; cbn [negb].
  - split; [split; [simpl; lia|by apply Hfb]|done].
  - destruct (kept_usable (scanned_entries bi)) as [|r us] eqn:Eu.
    + split; [split; [simpl; lia|by apply Hfb]|done].
    + split; [split; simpl; [lia|done]|done].
Qed.

(** What [memory_layout_build] promises to the heap, the page tables and the
    process loader. *)
Record layout_sound (kernel_end : Z) (L : memory_layout_policy) : Prop := {
  ls_ram : MEMORY_LAYOUT_DEFAULT_RAM_BYTES ≤ effective_ram_bytes L ≤ MEMORY_LAYOUT_MAX_RAM_BYTES;
  ls_direct : direct_map_bytes L = effective_ram_bytes L;
  ls_pde : kernel_pde_end L * MEMORY_LAYOUT_PDE_BYTES
           = PAGE_OFFSET + effective_ram_bytes L ∧ kernel_pde_end L ≤ 1024;
  ls_heap_base : r_base (kernel_heap L) mod PAGE_BYTES = 0 ∧ PAGE_OFFSET + kernel_end ≤ r_base (kernel_heap L);
  ls_heap_size : 0 ≤ r_size (kernel_heap L) ∧
    (8 * (kernel_end + PAGE_BYTES) ≤ MEMORY_LAYOUT_DEFAULT_RAM_BYTES → 0 < r_size (kernel_heap L));
  ls_disjoint : r_base (kernel_heap L) + r_size (kernel_heap L) ≤ PAGE_OFFSET + r_base (process_pool L);
  ls_pool_size : 0 < r_size (process_pool L);
  ls_pool_end : r_base (process_pool L) + r_size (process_pool L) ≤ effective_ram_bytes L
}.

Lemma select_spec info start end_ :
  start < end_ → Forall valid_range (usable_ranges info) →
  let p := select_process_pool info start end_ in
  start ≤ r_base p ∧ r_base p + r_size p ≤ end_ ∧ 0 < r_size p ∧
  (∀ r, r ∈ usable_ranges info → clipped start end_ r ≤ r_size p) ∧
  ((∃ r, r ∈ usable_ranges info ∧ r_base r ≤ r_base p ∧ r_base p + r_size p ≤ r_base r + r_size r) ∨
   (p = Range start (end_ - start) ∧ ∀ r, r ∈ usable_ranges info → clipped start end_ r ≤ 0)).
Proof.
  intros Hse Hv. unfold select_process_pool. destruct (Z.leb_spec end_ start); [lia|].
  destruct (foldl_best start end_ (usable_ranges info)) as [Hsz Hin Hmax Hfrom]; [lia|done|].
  cbv zeta. destruct (Z.eqb_spec (r_size (foldl (better_pool start end_) (Range start 0) (usable_ranges info))) 0)
    as [E|E].
  - rewrite E in Hmax. simpl. split_and!; [lia..| |by right]. intros r Hr%Hmax. lia.
  - destruct Hfrom as [|Hfrom]; [done|]. split_and!; [lia..|done|by left].
Qed.

(** The addresses that [memory_layout_build] computes. *)
Lemma layout_build_sound info kernel_end cap :
  info_ok info → 0 ≤ cap → 0 ≤ kernel_end ≤ MEMORY_LAYOUT_DEFAULT_RAM_BYTES - MEMORY_LAYOUT_PDE_BYTES - PAGE_BYTES →
  layout_sound kernel_end (memory_layout_build (Some info) kernel_end cap).
Proof.
  intros [Hd Hv] Hcap Hk. unfold memory_layout_build. cbv zeta.
  destruct (sanitize_spec _ Hd) as (Hs & Hsm & _). set (det := sanitize_detected_bytes (detected_ram_bytes info)) in *.
  destruct (sanitize_spec _ Hcap) as (Hc & Hcm & _).
  set (c := if negb (cap =? 0) then sanitize_detected_bytes cap else cap) in *.
  set (eff := if negb (c =? 0) then min_u32 det c else det).
  assert ((MEMORY_LAYOUT_DEFAULT_RAM_BYTES ≤ eff ≤ MEMORY_LAYOUT_MAX_RAM_BYTES) ∧ eff mod MEMORY_LAYOUT_PDE_BYTES = 0)
    as [He Hem].
  { unfold eff, min_u32. destruct (Z.eqb_spec c 0) as [|Hc0]; simpl; [done|].
    unfold c in *. destruct (Z.eqb_spec cap 0); simpl in *; [done|]. by zcases. }
  clearbody eff. clear Hs Hsm Hc Hcm.
  unfold MEMORY_LAYOUT_DEFAULT_RAM_BYTES, MEMORY_LAYOUT_MAX_RAM_BYTES, MEMORY_LAYOUT_PDE_BYTES, PAGE_BYTES in *.
  destruct (align_up_spec kernel_end 12) as [Hhm Hh]; [unfold is_u32, U32; lia|lia|unfold U32; lia|].
  change (2 ^ 12) with 4096 in Hhm, Hh. set (heap := align_up kernel_end 4096) in *. clearbody heap.
  pose proof (Z.div_mod eff 8) as Hd8. pose proof (Z.mod_pos_bound eff 8) as Hd8'.
  assert (max_u32 MEMORY_LAYOUT_MIN_POOL_BASE (eff / 8) = eff / 8) as ->
    by (unfold max_u32, MEMORY_LAYOUT_MIN_POOL_BASE; zcases; lia).
  destruct (align_up_spec (eff / 8) 22) as [_ Hr]; [unfold is_u32, U32; lia|lia|unfold U32; lia|].
  destruct (align_up_spec heap 22) as [_ Hp]; [unfold is_u32, U32; lia|lia|unfold U32; lia|].
  change (2 ^ 22) with 0x400000 in Hr, Hp.
  set (res := align_up (eff / 8) 0x400000) in *. clearbody res.
  set (pb := align_up heap 0x400000) in *. clearbody pb.
  assert ((eff <? res) = false) as -> by lia.
  set (pool := if res <? heap then pb else res).
  assert (heap ≤ pool < eff ∧ (8 * (kernel_end + 4096) ≤ 768 * 1024 * 1024 → heap < pool)) as [Hpool Hpool']
    by (unfold pool; zcases; lia).
  clearbody pool. assert ((eff <? pool) = false) as -> by lia.
  destruct (select_spec info pool eff) as (Hb & Hend & Hpos & _); [lia|done|].
  pose proof (Z.div_mod eff 0x400000) as Hdm.
  assert (0 ≤ eff / 0x400000 ≤ 256) by lia.
  unfold MEMORY_LAYOUT_KERNEL_PDE_BASE, PAGE_OFFSET.
  rewrite !u32_small by (unfold is_u32, U32; lia).
  constructor; unfold PAGE_OFFSET, PAGE_BYTES, MEMORY_LAYOUT_DEFAULT_RAM_BYTES, MEMORY_LAYOUT_MAX_RAM_BYTES,
    MEMORY_LAYOUT_PDE_BYTES; cbn [effective_ram_bytes direct_map_bytes kernel_pde_end kernel_heap process_pool
    r_base r_size]; try lia; [|zcases; lia..].
  split; [|lia]. rewrite Z.add_mod, Hhm by lia. done.
Qed.

Lemma configured_cap_nonneg mb : 0 ≤ configured_cap_bytes mb.
Proof.
  unfold configured_cap_bytes. destruct (mb <=? 0); [done|].
  destruct (sanitize_spec (u32 (u32 (mb * 1024) * 1024))) as [Hs _]; [apply u32_range|].
  unfold MEMORY_LAYOUT_DEFAULT_RAM_BYTES in Hs. lia.
Qed.

(** ** Theorems *)

(** The pool of process pages lies in the window it is chosen from, is not
    empty, is at least as large as the part of every usable range in the window,
    and lies inside one usable range unless no usable range meets the window, in
    which case it is the whole window. *)
Theorem select_process_pool_largest info start end_ :
  start < end_ → Forall valid_range (usable_ranges info) →
  let p := select_process_pool info start end_ in
  start ≤ r_base p ∧ r_base p + r_size p ≤ end_ ∧ 0 < r_size p ∧
  (∀ r, r ∈ usable_ranges info → clipped start end_ r ≤ r_size p) ∧
  ((∃ r, r ∈ usable_ranges info ∧ r_base r ≤ r_base p ∧ r_base p + r_size p ≤ r_base r + r_size r) ∨
   (p = Range start (end_ - start) ∧ ∀ r, r ∈ usable_ranges info → clipped start end_ r ≤ 0)).
Proof. apply select_spec. Qed.

Definition demo_boot : boot_memory_info :=
  BootInfo 64 2 3 0 [E820 0 0 0x9fc00 0 1; E820 0x100000 0 0x3ff00000 0 1; E820 0x9fc00 0 0x60400 0 2].

Lemma select_process_pool_largest_witness :
  r_size (select_process_pool (memory_info_from_boot_raw (Some demo_boot)) 0x8000000 0x40000000) = 0x38000000 ∧
  0 < r_size (select_process_pool (memory_info_from_boot_raw (Some demo_boot)) 0x8000000 0x40000000).
Proof.
  split; [reflexivity|].
  apply (select_process_pool_largest (memory_info_from_boot_raw (Some demo_boot)) 0x8000000 0x40000000); [lia|].
  repeat constructor; simpl; (lia || reflexivity || discriminate).
Defined.

(** With an E820 map that has a usable entry, the usable and the reserved
    ranges are exactly the entries that are not empty and lie below 4 GB, in the
    order of the map; with or without a map every usable range is a range of
    32-bit addresses. *)
Theorem memory_info_from_boot_raw_ranges bi :
  Forall entry_u32 (e820_entries bi) →
  let info := memory_info_from_boot_raw (Some bi) in
  info_ok info ∧
  (e820_entry_count bi ≠ 0 → kept_usable (scanned_entries bi) ≠ [] →
   source info = MEMORY_INFO_SOURCE_E820 ∧ usable_ranges info = kept_usable (scanned_entries bi) ∧
   reserved_ranges info = kept_reserved (scanned_entries bi)).
Proof. apply boot_raw_spec. Qed.

Lemma memory_info_from_boot_raw_ranges_witness :
  usable_ranges (memory_info_from_boot_raw (Some demo_boot)) = [Range 0 0x9fc00; Range 0x100000 0x3ff00000].
Proof.
  destruct (memory_info_from_boot_raw_ranges demo_boot) as [_ H].
  - repeat constructor; simpl; (lia || reflexivity || discriminate).
  - destruct H as (_ & E & _); [simpl; lia|discriminate|]. rewrite E. reflexivity.
Defined.

(** ** The RAM that the boot loader reports *)

(** The usable entries of the E820 map, and the RAM reported: up to the end of the
    highest of them, or without one the number of megabytes found by other means. *)
Definition usable_map (bi : boot_memory_info) : list memory_range :=
  if e820_entry_count bi =? 0 then [] else kept_usable (scanned_entries bi).
Definition map_top (l : list memory_range) : Z := foldr (fun r t => Z.max (r_base r + r_size r) t) 0 l.
Definition reported_ram (bi : boot_memory_info) : Z :=
  match usable_map bi with [] => detected_ram_mb bi * 1024 * 1024 | l => map_top l end.

(** The whole page directory entries in an amount of RAM. *)
Definition whole_pdes (n : Z) : Z := n / MEMORY_LAYOUT_PDE_BYTES * MEMORY_LAYOUT_PDE_BYTES.

Lemma map_top_app l k : 0 ≤ map_top k → map_top (l ++ k) = Z.max (map_top l) (map_top k).
Proof. intros Hk. induction l as [|r l IH]; simpl; [lia|]. rewrite IH. lia. Qed.

Lemma map_top_nonneg l : 0 ≤ map_top l.
Proof. induction l as [|r l IH]; simpl; lia. Qed.

Lemma e820_step_top us rs hi e : entry_u32 e → 0 ≤ hi → (e820_step (us, rs, hi) e).2 = Z.max hi (map_top (kept_usable [e])).
Proof.
  intros [[Hb1 Hb2] [Hl1 Hl2]] Hhi. unfold e820_step, kept_usable, entry_kept, is_usable, u32. cbn [List.filter].
  destruct (Z.eqb_spec (length_low e) 0); simpl; [lia|].
  destruct (base_high e =? 0), (length_high e =? 0); simpl; try lia.
  destruct (Z.ltb_spec (base_low e + length_low e) U32) as [H|H]; cbn [andb].
  - rewrite Z.mod_small by lia. destruct (Z.ltb_spec (base_low e + length_low e) (base_low e)); [lia|].
    destruct (e_type e =? MEMORY_E820_TYPE_USABLE); simpl; [zcases|]; lia.
  - replace (base_low e + length_low e) with (base_low e + length_low e - U32 + 1 * U32) by lia.
    rewrite Z.mod_add, Z.mod_small by (unfold U32 in *; lia).
    destruct (Z.ltb_spec (base_low e + length_low e - U32) (base_low e)); simpl; lia.
Qed.

Lemma e820_scan_top l us rs hi : Forall entry_u32 l → 0 ≤ hi →
  (foldl e820_step (us, rs, hi) l).2 = Z.max hi (map_top (kept_usable l)).
Proof.
  revert us rs hi. induction l as [|e l IH]; intros us rs hi Hl Hhi; cbn [foldl]; [simpl; lia|].
  apply Forall_cons in Hl as [He Hl]. pose proof (e820_step_top us rs hi e He Hhi) as Hs.
  destruct (e820_step (us, rs, hi) e) as [[us' rs'] hi'] eqn:E. cbn [snd] in Hs. rewrite IH by (done || lia).
  assert (kept_usable (e :: l) = kept_usable [e] ++ kept_usable l) as ->.
  { unfold kept_usable. rewrite <-fmap_app, <-List.filter_app. done. }
  rewrite map_top_app by apply map_top_nonneg. lia.
Qed.

Lemma sanitize_whole d : MEMORY_LAYOUT_DEFAULT_RAM_BYTES ≤ d →
  sanitize_detected_bytes d = whole_pdes (Z.min d MEMORY_LAYOUT_MAX_RAM_BYTES).
Proof.
  intros Hd. unfold sanitize_detected_bytes, whole_pdes, align_down. change MEMORY_LAYOUT_PDE_BYTES with (2 ^ 22).
  assert (min_u32 d MEMORY_LAYOUT_MAX_RAM_BYTES = Z.min d MEMORY_LAYOUT_MAX_RAM_BYTES) as -> by (unfold min_u32; zcases; lia).
  unfold MEMORY_LAYOUT_MAX_RAM_BYTES, MEMORY_LAYOUT_DEFAULT_RAM_BYTES in *. set (m := Z.min _ _).
  assert (768 * 1024 * 1024 ≤ m ≤ 0x40000000) as Hm by lia. clearbody m.
  destruct (Z.eqb_spec (2 ^ 22) 0) as [|_]; [lia|].
  rewrite (u32_small (2 ^ 22 - 1)), land_not_mask by (unfold is_u32, U32; lia).
  pose proof (Z.div_mod m (2 ^ 22)). pose proof (Z.mod_pos_bound m (2 ^ 22)).
  assert (192 ≤ m / 2 ^ 22) by (apply Z.div_le_lower_bound; lia).
  zcases; lia.
Qed.

Lemma whole_pdes_mono a b : a ≤ b → whole_pdes a ≤ whole_pdes b.
Proof. intros H. unfold whole_pdes, MEMORY_LAYOUT_PDE_BYTES. pose proof (Z.div_le_mono a b 0x400000). lia. Qed.

Lemma sanitize_twice d : 0 ≤ d → sanitize_detected_bytes (sanitize_detected_bytes d) = sanitize_detected_bytes d.
Proof.
  intros Hd. destruct (sanitize_spec d Hd) as (Hs & Hm & _). rewrite sanitize_whole by lia.
  rewrite Z.min_l by lia. unfold whole_pdes. rewrite (Z.div_mod (sanitize_detected_bytes d) MEMORY_LAYOUT_PDE_BYTES) at 2 by (unfold MEMORY_LAYOUT_PDE_BYTES; lia). lia.
Qed.

(** The RAM and the usable ranges that the kernel takes from the boot loader. *)
Lemma boot_raw_detected bi : Forall entry_u32 (e820_entries bi) → MEMORY_LAYOUT_DEFAULT_RAM_BYTES ≤ reported_ram bi < U32 →
  let info := memory_info_from_boot_raw (Some bi) in
  detected_ram_bytes info = sanitize_detected_bytes (reported_ram bi) ∧ (usable_map bi ≠ [] → usable_ranges info = usable_map bi).
Proof.
  intros Hl Hr. unfold memory_info_from_boot_raw, boot_has_e820, reported_ram, usable_map in *.
  pose proof (e820_scan_top (scanned_entries bi) [] [] 0 (scanned_u32 _ Hl) ltac:(lia)) as Ht.
  destruct (e820_scan_spec (scanned_entries bi) [] [] 0) as (hi & E & _); [by apply scanned_u32|simpl; apply scanned_length..|].
  rewrite E in *. cbn [snd] in Ht. rewrite Z.max_r in Ht by apply map_top_nonneg. subst hi. rewrite !app_nil_l in *.
  assert (∀ mb, 0x30000000 ≤ mb * 1024 * 1024 < U32 → detected_ram_mb bi = mb → boot_detected_bytes (Some bi) = mb * 1024 * 1024) as Hmb.
  { intros mb Hmb Emb. unfold boot_detected_bytes, MEMORY_LAYOUT_DEFAULT_RAM_BYTES. rewrite Emb.
    rewrite (u32_small (mb * 1024)), u32_small by (unfold is_u32; lia). zcases; lia. }
  unfold MEMORY_LAYOUT_DEFAULT_RAM_BYTES in Hr.
  destruct (Z.eqb_spec (e820_entry_count bi) 0); cbn [negb].
  - split; [|done]. cbn [detected_ram_bytes]. by rewrite (Hmb _ Hr eq_refl).
  - destruct (kept_usable (scanned_entries bi)) as [|r us]; [|done]. split; [|done]. cbn [detected_ram_bytes]. by rewrite (Hmb _ Hr eq_refl).
Qed.

(** The amount of RAM that the layout uses. *)
Definition usable_ram (SODEX_RAM_CAP_MB : Z) (bi : boot_memory_info) : Z :=
  let ram := Z.min (reported_ram bi) MEMORY_LAYOUT_MAX_RAM_BYTES in
  if decide (SODEX_RAM_CAP_MB = 0) then ram else Z.min ram (SODEX_RAM_CAP_MB * 1024 * 1024).

Lemma layout_effective cap bi kernel_end :
  Forall entry_u32 (e820_entries bi) → MEMORY_LAYOUT_DEFAULT_RAM_BYTES ≤ reported_ram bi < U32 → cap = 0 ∨ 768 ≤ cap < 4096 →
  effective_ram_bytes (memory_layout_init_runtime cap bi kernel_end).2 = whole_pdes (usable_ram cap bi).
Proof.
  intros Hl Hr Hc. unfold memory_layout_init_runtime, memory_layout_build, usable_ram, configured_cap_bytes. cbn [snd effective_ram_bytes].
  destruct (boot_raw_detected bi Hl Hr) as [-> _].
  assert (0 ≤ reported_ram bi) by (unfold MEMORY_LAYOUT_DEFAULT_RAM_BYTES in Hr; lia).
  rewrite sanitize_twice, (sanitize_whole (reported_ram bi)) by (done || lia).
  case_decide as E; [subst cap; done|]. destruct Hc as [|Hc]; [done|]. destruct (Z.leb_spec cap 0); [lia|].
  rewrite (u32_small (cap * 1024)), u32_small by (unfold is_u32, U32; lia).
  destruct (sanitize_spec (cap * 1024 * 1024)) as [Hs _]; [lia|]. unfold MEMORY_LAYOUT_DEFAULT_RAM_BYTES in Hs.
  destruct (Z.eqb_spec (sanitize_detected_bytes (cap * 1024 * 1024)) 0) as [|_]; [lia|]. cbn [negb].
  rewrite sanitize_twice by lia. destruct (Z.eqb_spec (sanitize_detected_bytes (cap * 1024 * 1024)) 0) as [|_]; [lia|]. cbn [negb].
  rewrite sanitize_whole by (unfold MEMORY_LAYOUT_DEFAULT_RAM_BYTES; lia).
  set (a := Z.min (reported_ram bi) _). set (c := cap * 1024 * 1024).
  replace (Z.min a c) with (Z.min a (Z.min c MEMORY_LAYOUT_MAX_RAM_BYTES)) by (unfold a; lia).
  set (d := Z.min c _). unfold min_u32. destruct (Z.min_spec a d) as [[Hm ->]|[Hm ->]].
  - pose proof (whole_pdes_mono a d). zcases; lia.
  - pose proof (whole_pdes_mono d a). zcases; lia.
Qed.

(** The pool of process pages lies in a usable range. *)
Lemma layout_pool info kernel_end cap : Forall valid_range (usable_ranges info) →
  let L := memory_layout_build (Some info) kernel_end cap in let p := process_pool L in 0 < r_size p →
  (∃ r, r ∈ usable_ranges info ∧ r_base r ≤ r_base p ∧ r_base p + r_size p ≤ r_base r + r_size r) ∨
  ∀ r, r ∈ usable_ranges info → clipped (r_base p) (effective_ram_bytes L) r ≤ 0.
Proof.
  intros Hv L p Hp. assert (∃ start, p = select_process_pool info start (effective_ram_bytes L)) as [start E] by by eexists.
  destruct (Z.lt_ge_cases start (effective_ram_bytes L)) as [H|H].
  - destruct (select_spec info start (effective_ram_bytes L) H Hv) as (_ & _ & _ & _ & Hcase). rewrite <-E in Hcase.
    destruct Hcase as [Hin|[-> Hnone]]; [by left|by right].
  - unfold select_process_pool in E. destruct (Z.leb_spec (effective_ram_bytes L) start); [|lia]. rewrite E in Hp. simpl in Hp. lia.
Qed.



(** A machine with 128 MB gets a layout for 768 MB: the process pool ends above
    the RAM that the boot loader found. *)
Example small_machine_layout :
  let L := (memory_layout_init_runtime 0
              (BootInfo 128 1 2 0 [E820 0 0 0x9fc00 0 1; E820 0x100000 0 0x7f00000 0 1]) 0x800000).2 in
  (effective_ram_bytes L, r_base (process_pool L) + r_size (process_pool L)) = (0x30000000, 0x8000000) ∧
  let L := (memory_layout_init_runtime 0 (BootInfo 128 2 0 0 []) 0x800000).2 in
  (effective_ram_bytes L, r_base (process_pool L) + r_size (process_pool L)) = (0x30000000, 0x30000000).
Proof. vm_compute. done. Qed.

(** A cap of 256 MB is raised to 768 MB. *)
Example small_cap_ignored : effective_ram_bytes (memory_layout_init_runtime 256 demo_boot 0x800000).2 = 0x30000000.
Proof. vm_compute. reflexivity. Qed.
