(* ===== verification/Boot.v ===== *)
(** * The boot sequence of the kernel heap: [init_mem] of [src/memory.c]

    The layout of [MemoryLayout] decides where the pools of [Memory] are. The
    address of the linker symbol [__bss_end] is an argument. *)

From S2P Require Import Prelude Memory MemoryLists MemoryRep MemoryOps MemorySpec MemoryInit MemoryLayout.

Definition KERNEL_MEMEND : Z := 0xC2000000.
Definition KERNEL_PMEMBASE : Z := 0x02000000.
Definition KERNEL_PMEMEND : Z := 0x04000000.

Definition page_up (v : Z) : Z := Z.land (u32 (v + BLOCK_SIZE - 1)) (not32 (BLOCK_SIZE - 1)).

Definition kernel_image_end_phys (bss_end : Z) : Z := page_up (u32 (bss_end - PAGE_OFFSET)).

Definition init_kmem (bss_end memory_layout_is_initialized : Z) (layout : memory_layout_policy) (h : mheap) : outcome mheap :=
  if (memory_layout_is_initialized =? 0) || (r_size (kernel_heap layout) =? 0)
  then init_mem_core (page_up bss_end) (u32 (KERNEL_MEMEND - page_up bss_end)) h
  else init_mem_core (r_base (kernel_heap layout)) (r_size (kernel_heap layout)) h.

Definition init_pmem (memory_layout_is_initialized : Z) (layout : memory_layout_policy) (h : mheap) : outcome mheap :=
  if (memory_layout_is_initialized =? 0) || (r_size (process_pool layout) =? 0)
  then init_hole_pool PMemhole MAX_PMHOLES PMHoleList PMFreeList PMUseList
         KERNEL_PMEMBASE (KERNEL_PMEMEND - KERNEL_PMEMBASE) h
  else init_hole_pool PMemhole MAX_PMHOLES PMHoleList PMFreeList PMUseList
         (r_base (process_pool layout)) (r_size (process_pool layout)) h.

(** [memory_layout_init_runtime] ends by setting [g_memory_layout_initialized] to 1. *)
Definition init_mem (SODEX_RAM_CAP_MB bss_end : Z) (boot_info : boot_memory_info) (h : mheap) :
    outcome mheap :=
  let layout := (memory_layout_init_runtime SODEX_RAM_CAP_MB boot_info (kernel_image_end_phys bss_end)).2 in
  let g_memory_layout_initialized := 1 in
  h ← init_kmem bss_end g_memory_layout_initialized layout h;
  init_pmem g_memory_layout_initialized layout h.

Lemma page_up_spec v : is_u32 v → v + BLOCK_SIZE ≤ U32 → page_up v mod BLOCK_SIZE = 0 ∧ v ≤ page_up v < v + BLOCK_SIZE.
Proof.
  intros Hv Hw. unfold page_up, BLOCK_SIZE, is_u32 in *.
  rewrite u32_small by (unfold is_u32; lia).
  change (4096 - 1) with (2 ^ 12 - 1). rewrite land_not_mask by (unfold is_u32; lia).
  set (w := v + 4096 - 1). pose proof (Z.div_mod w (2 ^ 12)) as Hd. pose proof (Z.mod_pos_bound w (2 ^ 12)) as Hb.
  replace (w - w mod 2 ^ 12) with (w / 2 ^ 12 * 2 ^ 12) by lia. split; [apply Z.mod_mul; lia|]. unfold w in *. lia.
Qed.

(** C10: after the layout is decided, [init_kmem] gives the allocator a
    well-formed pool whose one free range is the kernel heap of the layout: above
    the kernel image, mapped, and below the process pool. *)
Theorem init_kmem_pool SODEX_RAM_CAP_MB bss_end boot_info h :
  Forall entry_u32 (e820_entries boot_info) → h !! NullP = None →
  PAGE_OFFSET ≤ bss_end → 8 * (bss_end - PAGE_OFFSET + 2 * BLOCK_SIZE) ≤ MEMORY_LAYOUT_DEFAULT_RAM_BYTES →
  let L := (memory_layout_init_runtime SODEX_RAM_CAP_MB boot_info (kernel_image_end_phys bss_end)).2 in
  let lo := r_base (kernel_heap L) in let hi := lo + r_size (kernel_heap L) in
  let P := Pool (tail (unused MAX_MHOLES)) [Blk (Memhole 0) lo 0 (hi - lo)] [] in
  bss_end ≤ lo ∧ hi ≤ PAGE_OFFSET + r_base (process_pool L) ∧
  ∃ h', init_kmem bss_end 1 L (static_storage Memhole MAX_MHOLES MHoleList MFreeList MUseList h) = Ret h' ∧
        models h' P ∧ pool_ok lo hi P.
Proof.
  intros Hl Hnull Hb1 Hb2 L lo hi P.
  unfold PAGE_OFFSET, BLOCK_SIZE, MEMORY_LAYOUT_DEFAULT_RAM_BYTES in Hb1, Hb2.
  destruct (page_up_spec (bss_end - PAGE_OFFSET)) as [_ Hk];
    [unfold is_u32, U32, PAGE_OFFSET; lia|unfold U32, PAGE_OFFSET, BLOCK_SIZE; lia|].
  assert (kernel_image_end_phys bss_end = page_up (bss_end - PAGE_OFFSET)) as Ek
    by (unfold kernel_image_end_phys; rewrite (u32_small (bss_end - PAGE_OFFSET)); [done|unfold is_u32, U32, PAGE_OFFSET; lia]).
  unfold PAGE_OFFSET, BLOCK_SIZE in *.
  assert (layout_sound (kernel_image_end_phys bss_end) L) as [Hram _ _ [Hal Hbase] [_ Hsz] Hdis Hps Hpe].
  { apply layout_build_sound; [by apply boot_raw_spec|apply configured_cap_nonneg|]. rewrite Ek.
    unfold MEMORY_LAYOUT_DEFAULT_RAM_BYTES, MEMORY_LAYOUT_PDE_BYTES, PAGE_BYTES, PAGE_OFFSET. lia. }
  fold lo hi in Hbase, Hdis, Hal. rewrite Ek in *.
  assert (0 < r_size (kernel_heap L)) as Hpos.
  { apply Hsz. unfold PAGE_BYTES, MEMORY_LAYOUT_DEFAULT_RAM_BYTES. lia. }
  unfold MEMORY_LAYOUT_DEFAULT_RAM_BYTES, MEMORY_LAYOUT_MAX_RAM_BYTES, PAGE_OFFSET in *.
  split_and!; [lia|lia|]. unfold init_kmem. cbn [Z.eqb orb]. destruct (Z.eqb_spec (r_size (kernel_heap L)) 0); [lia|].
  fold lo. assert (r_size (kernel_heap L) = hi - lo) as -> by (unfold hi; lia).
  destruct (init_hole_pool_spec MAX_MHOLES h lo (hi - lo)) as (h' & Hrun & Hm);
    [unfold MAX_MHOLES; lia|done|].
  exists h'. split_and!; [exact Hrun|done|].
  replace hi with (lo + (hi - lo)) at 1 by lia. apply init_pool_ok; [lia..|unfold U32; lia].
Qed.

Lemma init_kmem_pool_witness :
  ∃ h', init_kmem 0xC0800000 1 (memory_layout_init_runtime 0 demo_boot (kernel_image_end_phys 0xC0800000)).2
          (static_storage Memhole MAX_MHOLES MHoleList MFreeList MUseList ∅) = Ret h'.
Proof.
  destruct (init_kmem_pool 0 0xC0800000 demo_boot ∅) as (_ & _ & h' & Hrun & _);
    [|reflexivity|vm_compute; discriminate|vm_compute; discriminate|exists h'; exact Hrun].
  repeat constructor; simpl; (lia || reflexivity || discriminate).
Defined.
