(* ===== verification/Ring.v ===== *)
(** * Circular buffers

    The bytes of a circular buffer between a start and a length, and what one
    write or one read does to them; shared by the pipes and the terminals. *)

From S2P Require Import Prelude.

(** ** Checked access to arrays *)

(** [memcpy] out of and into an array: touching a byte outside it faults. *)
Definition load_bytes {A} (buf : list A) (off n : Z) : outcome (list A) :=
  if (0 <=? off) && (0 <=? n) && (off + n <=? Z.of_nat (length buf))
  then Ret (take (Z.to_nat n) (drop (Z.to_nat off) buf)) else Fault.

Definition store_bytes {A} (buf : list A) (off : Z) (bytes : list A) : outcome (list A) :=
  if (0 <=? off) && (off + Z.of_nat (length bytes) <=? Z.of_nat (length buf))
  then Ret (take (Z.to_nat off) buf ++ bytes ++ drop (Z.to_nat off + length bytes) buf) else Fault.

(** [a[i]] and [a[i] = v]. *)
Definition load1 {A} (buf : list A) (i : Z) : outcome A :=
  if 0 <=? i then or_fault (buf !! Z.to_nat i) else Fault.
Definition store1 {A} (buf : list A) (i : Z) (v : A) : outcome (list A) :=
  if (0 <=? i) && (i <? Z.of_nat (length buf)) then Ret (<[Z.to_nat i := v]> buf) else Fault.

Lemma load_bytes_Ret {A} (buf : list A) off n :
  0 ≤ off → 0 ≤ n → off + n ≤ Z.of_nat (length buf) →
  load_bytes buf off n = Ret (take (Z.to_nat n) (drop (Z.to_nat off) buf)).
Proof. intros. unfold load_bytes. by destruct (_ && _) eqn:E; [|lia]. Qed.

Lemma store_bytes_Ret {A} (buf : list A) off bytes :
  0 ≤ off → off + Z.of_nat (length bytes) ≤ Z.of_nat (length buf) →
  ∃ buf', store_bytes buf off bytes = Ret buf' ∧ length buf' = length buf ∧
    ∀ p, buf' !! p = if decide (Z.to_nat off ≤ p < Z.to_nat off + length bytes)%nat
                     then bytes !! (p - Z.to_nat off)%nat else buf !! p.
Proof.
  intros Ho Hl. unfold store_bytes. destruct (_ && _) eqn:E; [|lia]. eexists. split; [done|]. split.
  - rewrite !length_app, length_take, length_drop. lia.
  - intros p. case_decide as Hp.
    + rewrite lookup_app_r by (rewrite length_take; lia). rewrite length_take, Nat.min_l by lia.
      apply lookup_app_l. lia.
    + destruct (decide (p < Z.to_nat off)%nat).
      * rewrite lookup_app_l by (rewrite length_take; lia). apply lookup_take_lt. lia.
      * rewrite lookup_app_r by (rewrite length_take; lia). rewrite length_take, Nat.min_l by lia.
        rewrite lookup_app_r by lia. rewrite lookup_drop. f_equal. lia.
Qed.

Lemma store1_Ret {A} (buf : list A) i v :
  0 ≤ i < Z.of_nat (length buf) → store1 buf i v = Ret (<[Z.to_nat i := v]> buf).
Proof. intros. unfold store1. by destruct (_ && _) eqn:E; [|lia]. Qed.

Lemma load1_Ret {A} (buf : list A) i v :
  0 ≤ i → buf !! Z.to_nat i = Some v → load1 buf i = Ret v.
Proof. intros Hi E. unfold load1. destruct (Z.leb_spec 0 i); [|lia]. by rewrite E. Qed.

(** ** Windows of a circular buffer *)

Section window.
Context (L : nat) (HL : (0 < L)%nat).
Implicit Types (buf : list Z) (s n : nat).

(** The [n] bytes from position [s] on, going round at the end. *)
Definition window buf s n : list Z :=
  (fun i => default 0 (buf !! ((s + i) `mod` L)%nat)) <$> seq 0 n.

Lemma window_length buf s n : length (window buf s n) = n.
Proof. unfold window. by rewrite length_fmap, length_seq. Qed.

Lemma window_lookup buf s n i :
  (i < n)%nat → window buf s n !! i = Some (default 0 (buf !! ((s + i) `mod` L)%nat)).
Proof. intros Hi. unfold window. rewrite list_lookup_fmap, lookup_seq_lt by done. done. Qed.

Lemma window_ext l buf s n :
  length l = n → (∀ i x, (i < n)%nat → l !! i = Some x → buf !! ((s + i) `mod` L)%nat = Some x) →
  window buf s n = l.
Proof using HL.
  intros Hlen Hl. apply list_eq. intros i. destruct (decide (i < n)%nat) as [Hi|Hi].
  - rewrite window_lookup by done. destruct (lookup_lt_is_Some_2 l i) as [x Hx]; [lia|].
    by rewrite Hx, (Hl i x).
  - rewrite !lookup_ge_None_2; [done|lia|rewrite window_length; lia].
Qed.

(** Dropping bytes at the front moves the start. *)
Lemma window_drop buf s n k :
  (k ≤ n)%nat → window buf ((s + k) `mod` L) (n - k) = drop k (window buf s n).
Proof using HL.
  intros Hk. apply list_eq. intros i. rewrite lookup_drop.
  destruct (decide (i < n - k)%nat) as [Hi|Hi].
  - rewrite !window_lookup by lia. do 3 f_equal.
    rewrite Nat.Div0.add_mod_idemp_l. f_equal. lia.
  - rewrite !lookup_ge_None_2; [done|rewrite window_length; lia..].
Qed.

(** Taking bytes at the front shortens the window. *)
Lemma window_take buf s n k : (k ≤ n)%nat → window buf s k = take k (window buf s n).
Proof using HL.
  intros Hk. unfold window. rewrite <-fmap_take, take_seq. by rewrite Nat.min_l by done.
Qed.

(** Writing bytes behind the window appends them. *)
Lemma window_append buf buf' s n bytes :
  (n + length bytes ≤ L)%nat →
  (∀ j x, bytes !! j = Some x → buf' !! ((s + n + j) `mod` L)%nat = Some x) →
  (∀ i, (i < n)%nat → buf' !! ((s + i) `mod` L)%nat = buf !! ((s + i) `mod` L)%nat) →
  window buf' s (n + length bytes) = window buf s n ++ bytes.
Proof using HL.
  intros Hlen Hnew Hold. apply list_eq. intros i.
  destruct (decide (i < n)%nat) as [Hi|Hi].
  - rewrite lookup_app_l by (rewrite window_length; lia). rewrite !window_lookup by lia. by rewrite Hold.
  - rewrite lookup_app_r, window_length by (rewrite window_length; lia).
    destruct (bytes !! (i - n)%nat) as [x|] eqn:E.
    + pose proof (lookup_lt_Some _ _ _ E). rewrite window_lookup by lia.
      apply Hnew in E. replace (s + n + (i - n))%nat with (s + i)%nat in E by lia. by rewrite E.
    + apply lookup_ge_None in E. apply lookup_ge_None. rewrite window_length. lia.
Qed.

(** Positions of one window are distinct. *)
Lemma window_inj s i j : (i < L)%nat → (j < L)%nat → ((s + i) `mod` L = (s + j) `mod` L)%nat → i = j.
Proof using HL.
  intros Hi Hj E.
  pose proof (Nat.div_mod_eq (s + i) L). pose proof (Nat.div_mod_eq (s + j) L).
  pose proof (Nat.mod_upper_bound (s + i) L). 
  assert ((s + i) / L = (s + j) / L ∨ (s + i) / L < (s + j) / L ∨ (s + j) / L < (s + i) / L)%nat as [Hq|[Hq|Hq]] by lia;
    nia.
Qed.
End window.
