(* ===== verification/Words.v ===== *)
(** * Words, bytes and blocks

    Words by their bits, numbers by their bytes, messages by their blocks, and loops
    that count: what the hash and the cipher share. *)

From S2P Require Import Prelude Ring.

(** ** Definitions *)

(** The word whose bit [i] is [f i]. *)
Fixpoint bits_from (n : nat) (i : Z) (f : Z → bool) : Z :=
  match n with
  | O => 0
  | S n => Z.b2z (f i) + 2 * bits_from n (i + 1) f
  end.
Definition word (f : Z → bool) : Z := bits_from 32 0 f.

(** Numbers by their bytes, the highest first. *)
Definition be_value (bytes : list Z) : Z := foldl (fun v b => 256 * v + b) 0 bytes.
Fixpoint be_bytes (n : nat) (v : Z) : list Z :=
  match n with
  | O => []
  | S n => be_bytes n (v / 256) ++ [v mod 256]
  end.

(** Pieces of [n] bytes. *)
Fixpoint pieces (fuel n : nat) (l : list Z) : list (list Z) :=
  match fuel with
  | O => []
  | S fuel => match l with [] => [] | _ => take n l :: pieces fuel n (drop n l) end
  end.
Definition split_every (n : nat) (l : list Z) : list (list Z) := pieces (length l) n l.

(** ** Loops that count *)

Lemma foldM_seqZ {S} (P : Z → S → Prop) (f : S → Z → outcome S) i n s :
  0 ≤ n → P i s →
  (∀ j s, i ≤ j < i + n → P j s → ∃ s', f s j = Ret s' ∧ P (j + 1) s') →
  ∃ s', foldM f (seqZ i n) s = Ret s' ∧ P (i + n) s'.
Proof.
  intros Hn Hs Hf. rewrite <-(Z2Nat.id n) in * by lia. clear Hn. revert i s Hs Hf.
  induction (Z.to_nat n) as [|m IH]; intros i s Hs Hf.
  - exists s. by rewrite Z.add_0_r.
  - rewrite seqZ_cons by lia. destruct (Hf i s) as (s1 & E & H1); [lia|done|]. cbn [foldM]. rewrite E, bind_ret.
    replace (Z.pred (Z.of_nat (Datatypes.S m))) with (Z.of_nat m) by lia.
    replace (i + Z.of_nat (Datatypes.S m)) with (Z.succ i + Z.of_nat m) by lia. apply IH; [done|].
    intros j s' Hj. apply Hf. lia.
Qed.

(** ** Bits *)

Lemma bits_from_range n i f : 0 ≤ bits_from n i f < 2 ^ Z.of_nat n.
Proof.
  revert i. induction n as [|n IH]; intros i; cbn [bits_from]; [done|].
  specialize (IH (i + 1)). rewrite Nat2Z.inj_succ, Z.pow_succ_r by lia. destruct (f i); simpl; lia.
Qed.

Lemma testbit_bits_from n i f j : 0 ≤ j < Z.of_nat n → Z.testbit (bits_from n i f) j = f (i + j).
Proof.
  revert i j. induction n as [|n IH]; intros i j Hj; [lia|]. cbn [bits_from]. rewrite Z.add_comm.
  destruct (decide (j = 0)) as [->|].
  - rewrite Z.add_0_r. apply Z.testbit_0_r.
  - replace j with (Z.succ (j - 1)) by lia. rewrite Z.testbit_succ_r by lia. rewrite IH by lia. f_equal. lia.
Qed.

Lemma high_bits x n i : 0 ≤ n → 0 ≤ x < 2 ^ n → n ≤ i → Z.testbit x i = false.
Proof.
  intros Hn Hx Hi. destruct (decide (x = 0)) as [->|]; [apply Z.bits_0|].
  apply Z.bits_above_log2; [lia|]. enough (Z.log2 x < n) by lia. apply Z.log2_lt_pow2; lia.
Qed.

Lemma bits_range x n : 0 ≤ n → 0 ≤ x → (∀ i, n ≤ i → Z.testbit x i = false) → x < 2 ^ n.
Proof.
  intros Hn Hx Hb. assert (x mod 2 ^ n = x) as <-; [|by apply Z.mod_pos_bound; lia].
  apply Z.bits_inj'. intros i Hi. destruct (decide (i < n)).
  - apply Z.mod_pow2_bits_low. lia.
  - rewrite Z.mod_pow2_bits_high by lia. symmetry. apply Hb. lia.
Qed.

Lemma bits_equal x y n : 0 ≤ n → 0 ≤ x < 2 ^ n → 0 ≤ y < 2 ^ n →
  (∀ i, 0 ≤ i < n → Z.testbit x i = Z.testbit y i) → x = y.
Proof.
  intros Hn Hx Hy Hb. apply Z.bits_inj'. intros i Hi. destruct (decide (i < n)); [apply Hb; lia|].
  by rewrite !(high_bits _ n) by lia.
Qed.

Lemma word_range f : is_u32 (word f).
Proof. apply bits_from_range. Qed.

Lemma word_eq x f : is_u32 x → (∀ i, 0 ≤ i < 32 → Z.testbit x i = f i) → x = word f.
Proof.
  intros Hx Hb. apply (bits_equal _ _ 32); [lia|done|apply word_range|]. intros i Hi. rewrite Hb by done.
  symmetry. apply (testbit_bits_from 32 0). lia.
Qed.

Section binary.
Context (op : Z → Z → Z) (b : bool → bool → bool).
Context (Hop : ∀ x y i, Z.testbit (op x y) i = b (Z.testbit x i) (Z.testbit y i)).
Context (Hb : b false false = false) (Hpos : ∀ x y, 0 ≤ x → 0 ≤ y → 0 ≤ op x y).
#[local] Set Default Proof Using "Hop Hb Hpos".

Lemma binary_range n x y : 0 ≤ n → 0 ≤ x < 2 ^ n → 0 ≤ y < 2 ^ n → 0 ≤ op x y < 2 ^ n.
Proof.
  intros Hn Hx Hy. split; [apply Hpos; lia|]. apply bits_range; [lia|apply Hpos; lia|].
  intros i Hi. by rewrite Hop, !(high_bits _ n).
Qed.
End binary.

Lemma lor_range n x y : 0 ≤ n → 0 ≤ x < 2 ^ n → 0 ≤ y < 2 ^ n → 0 ≤ Z.lor x y < 2 ^ n.
Proof.
  apply (binary_range Z.lor orb); [apply Z.lor_spec|done|]. intros. by apply Z.lor_nonneg.
Qed.
Lemma lxor_range n x y : 0 ≤ n → 0 ≤ x < 2 ^ n → 0 ≤ y < 2 ^ n → 0 ≤ Z.lxor x y < 2 ^ n.
Proof.
  apply (binary_range Z.lxor xorb); [apply Z.lxor_spec|done|]. intros. by apply Z.lxor_nonneg.
Qed.
Lemma land_range n x y : 0 ≤ n → 0 ≤ x < 2 ^ n → 0 ≤ y < 2 ^ n → 0 ≤ Z.land x y < 2 ^ n.
Proof.
  apply (binary_range Z.land andb); [apply Z.land_spec|done|]. intros. apply Z.land_nonneg. by left.
Qed.

(** ** Bytes of a number *)

Lemma be_bytes_length n v : length (be_bytes n v) = n.
Proof. revert v. induction n as [|n IH]; intros v; simpl; [done|]. rewrite length_app, IH. simpl. lia. Qed.

Lemma be_bytes_range n v : Forall is_byte (be_bytes n v).
Proof.
  revert v. induction n as [|n IH]; intros v; simpl; [constructor|]. apply Forall_app. split; [apply IH|].
  apply Forall_singleton. by apply Z.mod_pos_bound.
Qed.

Lemma be_bytes_lookup n v i : (i < n)%nat →
  be_bytes n v !! i = Some (Z.shiftr v (8 * Z.of_nat (n - 1 - i)) mod 256).
Proof.
  revert v i. induction n as [|n IH]; intros v i Hi; [lia|]. cbn [be_bytes].
  destruct (decide (i < n)%nat).
  - rewrite lookup_app_l by (rewrite be_bytes_length; lia). rewrite IH by lia. do 2 f_equal.
    rewrite !Z.shiftr_div_pow2 by lia. change 256 with (2 ^ 8). rewrite Z.div_div by lia.
    rewrite <-Z.pow_add_r by lia. do 2 f_equal. lia.
  - rewrite lookup_app_r by (rewrite be_bytes_length; lia). rewrite be_bytes_length.
    replace (i - n)%nat with 0%nat by lia. simpl. do 2 f_equal.
    replace (n - 0 - i)%nat with 0%nat by lia. by rewrite Z.shiftr_0_r.
Qed.

(** ** Blocks *)

Lemma pieces_concat n fuel bs rest : (0 < n)%nat → Forall (fun b => length b = n) bs →
  (length (concat bs ++ rest) ≤ fuel)%nat →
  ∃ fuel', (length rest ≤ fuel')%nat ∧ pieces fuel n (concat bs ++ rest) = bs ++ pieces fuel' n rest.
Proof.
  intros Hn Hbs. revert fuel. induction Hbs as [|b bs Hb _ IH]; intros fuel Hf; [by exists fuel|].
  cbn [concat] in *. rewrite <-app_assoc in *. rewrite length_app in Hf. destruct fuel as [|fuel]; [lia|].
  destruct (IH fuel) as (f' & Hf' & E); [lia|]. exists f'. split; [done|]. cbn [pieces].
  destruct (b ++ _) eqn:Eb; [apply (f_equal length) in Eb; rewrite length_app in Eb; simpl in Eb; lia|].
  rewrite <-Eb. rewrite take_app_length', drop_app_length' by done. by rewrite E.
Qed.

Lemma split_every_concat n bs : (0 < n)%nat → Forall (fun b => length b = n) bs → split_every n (concat bs) = bs.
Proof.
  intros Hn Hbs. destruct (pieces_concat n (length (concat bs)) bs []) as (f & _ & E); [done..|by rewrite app_nil_r|].
  rewrite app_nil_r in E. unfold split_every. rewrite E. destruct f; simpl; apply app_nil_r.
Qed.

Lemma concat_of_length n q (l : list Z) : length l = (n * q)%nat →
  ∃ bs, length bs = q ∧ Forall (fun b => length b = n) bs ∧ l = concat bs.
Proof.
  revert l. induction q as [|q IH]; intros l Hl.
  - exists []. rewrite Nat.mul_0_r in Hl. by destruct l.
  - destruct (IH (drop n l)) as (bs & Hq & Hbs & E); [rewrite length_drop; lia|].
    exists (take n l :: bs). simpl. rewrite <-E, take_drop, Hq. split_and!; [done| |done].
    constructor; [rewrite length_take; lia|done].
Qed.

Lemma concat_length n (bs : list (list Z)) : Forall (fun b => length b = n) bs → length (concat bs) = (n * length bs)%nat.
Proof. induction 1 as [|b bs Hb _ IH]; simpl; [lia|]. rewrite length_app, Hb, IH. lia. Qed.

Lemma lookup_concat n (bs : list (list Z)) j b i x : Forall (fun b => length b = n) bs →
  bs !! j = Some b → b !! i = Some x → concat bs !! (n * j + i)%nat = Some x.
Proof.
  intros Hbs. revert j. induction Hbs as [|c bs Hc _ IH]; intros j Hj Hi; [done|].
  destruct j as [|j]; simpl in *; simplify_eq.
  - rewrite Nat.mul_0_r. by apply lookup_app_l_Some.
  - rewrite lookup_app_r by lia. rewrite <-(IH j) by done. f_equal. lia.
Qed.

Lemma be_bytes_mod n v : be_bytes n (v mod 2 ^ (8 * Z.of_nat n)) = be_bytes n v.
Proof.
  revert v. induction n as [|n IH]; intros v; [done|]. cbn [be_bytes].
  replace (2 ^ (8 * Z.of_nat (S n))) with (256 * 2 ^ (8 * Z.of_nat n)).
  2:{ rewrite Nat2Z.inj_succ, Z.mul_succ_r, Z.add_comm, Z.pow_add_r by lia. done. }
  pose proof (Z.pow_pos_nonneg 2 (8 * Z.of_nat n)). pose proof (Z.mod_pos_bound v 256).
  rewrite Z.rem_mul_r by lia. rewrite (Z.mul_comm 256 ((v / 256) mod _)).
  rewrite Z.div_add, Z.mod_add, Z.mod_mod, (Z.div_small (v mod 256)) by lia. by rewrite Z.add_0_l, IH.
Qed.

(** ** Arrays written from one end *)

Lemma store1_take {A} (d p : list A) i v : Z.of_nat (length p) = i → take (length p) d = p → i < Z.of_nat (length d) →
  ∃ d', store1 d i v = Ret d' ∧ length d' = length d ∧ take (length (p ++ [v])) d' = p ++ [v].
Proof.
  intros Hi Hp Hl. eexists. rewrite store1_Ret by lia. split; [done|]. rewrite length_insert. split; [done|].
  replace (Z.to_nat i) with (length p) by lia. rewrite length_app, Nat.add_1_r.
  rewrite (take_S_r _ _ v) by (apply list_lookup_insert_eq; lia). rewrite take_insert_ge by lia. by rewrite Hp.
Qed.

Lemma store1_drop {A} (d q : list A) i v : 0 ≤ i < Z.of_nat (length d) → drop (Z.to_nat i + 1) d = q →
  ∃ d', store1 d i v = Ret d' ∧ length d' = length d ∧ drop (Z.to_nat i) d' = v :: q ∧
    take (Z.to_nat i) d' = take (Z.to_nat i) d.
Proof.
  intros Hi Hq. eexists. rewrite store1_Ret by lia. split; [done|]. rewrite length_insert. split; [done|].
  rewrite (drop_S _ v) by (apply list_lookup_insert_eq; lia). rewrite drop_insert_lt by lia.
  rewrite take_insert_ge by lia. split; [|done]. f_equal. rewrite <-Hq. f_equal. lia.
Qed.

Lemma load1_prefix (d p : list Z) i v : take (length p) d = p → 0 ≤ i → p !! Z.to_nat i = Some v → load1 d i = Ret v.
Proof.
  intros Hp Hi Hv. apply load1_Ret; [done|]. rewrite <-Hp in Hv. by apply lookup_take_Some in Hv as [? _].
Qed.

Lemma load_bytes_prefix (d p : list Z) o n : take (length p) d = p → 0 ≤ o → 0 ≤ n → o + n ≤ Z.of_nat (length p) →
  load_bytes d o n = Ret (take (Z.to_nat n) (drop (Z.to_nat o) p)).
Proof.
  intros Hp Ho Hn Hl. assert (length p ≤ length d)%nat as Hle by (rewrite <-Hp, length_take; lia).
  rewrite load_bytes_Ret by lia. f_equal. rewrite <-Hp at 1. rewrite skipn_firstn_comm, take_take. f_equal. lia.
Qed.

Lemma store_bytes_take {A} (d p s : list A) o : Z.of_nat (length p) = o → take (length p) d = p → (length p + length s ≤ length d)%nat →
  ∃ d', store_bytes d o s = Ret d' ∧ length d' = length d ∧ take (length (p ++ s)) d' = p ++ s.
Proof.
  intros <- Hp Hl. unfold store_bytes.
  destruct (Z.leb_spec 0 (Z.of_nat (length p))); [|lia]. destruct (Z.leb_spec (Z.of_nat (length p) + Z.of_nat (length s)) (Z.of_nat (length d))); [|lia].
  cbn [andb]. rewrite Nat2Z.id, Hp. eexists. split; [done|]. rewrite app_assoc. split.
  - rewrite length_app, length_drop, length_app. lia.
  - by apply take_app_length'.
Qed.

(** A shorter start of an array. *)
Lemma take_shorter {A} (d p q : list A) : take (length (p ++ q)) d = p ++ q → take (length p) d = p.
Proof.
  intros E. apply (f_equal (take (length p))) in E. rewrite take_take, take_app_length in E.
  by rewrite length_app, Nat.min_l in E by lia.
Qed.
