(* ===== verification/Bytes.v ===== *)
(** * Numbers by their bytes, the lowest first *)

From S2P Require Import Prelude.

Fixpoint le_value (l : list Z) : Z := match l with [] => 0 | b :: l => b + 256 * le_value l end.
Fixpoint le_bytes (n : nat) (v : Z) : list Z := match n with O => [] | S n => v mod 256 :: le_bytes n (v / 256) end.

Lemma le_bytes_length n v : length (le_bytes n v) = n.
Proof. revert v. induction n as [|n IH]; intros v; simpl; [done|]. by rewrite IH. Qed.

Lemma le_bytes_range n v : Forall is_byte (le_bytes n v).
Proof. revert v. induction n as [|n IH]; intros v; simpl; constructor; [by apply Z.mod_pos_bound|done]. Qed.

Lemma le_value_app l k : le_value (l ++ k) = le_value l + 256 ^ Z.of_nat (length l) * le_value k.
Proof.
  induction l as [|b l IH]; cbn [app le_value length]; [change (256 ^ Z.of_nat 0) with 1; lia|].
  rewrite IH, Nat2Z.inj_succ, Z.pow_succ_r by lia. lia.
Qed.

Lemma le_bytes_app n m v : le_bytes (n + m) v = le_bytes n v ++ le_bytes m (v / 256 ^ Z.of_nat n).
Proof.
  revert v. induction n as [|n IH]; intros v; [by rewrite Z.div_1_r|]. cbn [Nat.add le_bytes app]. rewrite IH. do 3 f_equal.
  rewrite Nat2Z.inj_succ, Z.pow_succ_r, Z.div_div by (try apply Z.pow_pos_nonneg; lia). done.
Qed.

Lemma pow256_pos n : 0 < 256 ^ Z.of_nat n.
Proof. apply Z.pow_pos_nonneg; lia. Qed.

Lemma le_insert t k x y : t !! k = Some x → le_value (<[k := y]> t) = le_value t + 256 ^ Z.of_nat k * (y - x).
Proof.
  revert k. induction t as [|z t IH]; intros [|k] Hk; simplify_eq/=.
  - change (256 ^ Z.of_nat 0) with 1. lia.
  - rewrite (IH k Hk), Nat2Z.inj_succ, Z.pow_succ_r by lia. lia.
Qed.

Lemma le_bytes_snoc n v : le_bytes (S n) v = le_bytes n v ++ [(v / 256 ^ Z.of_nat n) mod 256].
Proof. replace (S n) with (n + 1)%nat by lia. by rewrite le_bytes_app. Qed.

Lemma le_bytes_shift n v k : le_bytes n (v + 256 ^ Z.of_nat n * k) = le_bytes n v.
Proof.
  revert v k. induction n as [|n IH]; intros v k; [done|]. cbn [le_bytes]. rewrite Nat2Z.inj_succ, Z.pow_succ_r by lia.
  replace (v + 256 * 256 ^ Z.of_nat n * k) with (v + (256 ^ Z.of_nat n * k) * 256) by lia.
  rewrite Z.mod_add, Z.div_add by done. by rewrite IH.
Qed.

Lemma le_take_S (l : list Z) j v : l !! j = Some v → le_value (take (S j) l) = le_value (take j l) + 256 ^ Z.of_nat j * v.
Proof.
  intros Hv. assert (j < length l)%nat by by eapply lookup_lt_Some.
  rewrite (take_S_r _ _ _ Hv), le_value_app, length_take, Nat.min_l by lia. cbn [le_value]. lia.
Qed.

Lemma le_value_zeros l : Forall (fun v => v = 0) l → le_value l = 0.
Proof. induction 1 as [|v l -> _ IH]; [done|]. cbn [le_value]. lia. Qed.

Lemma le_value_le_bytes n v : le_value (le_bytes n v) = v mod 256 ^ Z.of_nat n.
Proof.
  revert v. induction n as [|n IH]; intros v; cbn [le_bytes le_value]; [by rewrite Z.mod_1_r|].
  rewrite IH, Nat2Z.inj_succ, Z.pow_succ_r by lia. pose proof (pow256_pos n). rewrite Z.rem_mul_r by lia. done.
Qed.

Lemma le_value_range l : Forall is_byte l → 0 ≤ le_value l < 256 ^ Z.of_nat (length l).
Proof.
  induction 1 as [|b l Hb _ IH]; [done|]. cbn [le_value length]. unfold is_byte in Hb.
  rewrite Nat2Z.inj_succ, Z.pow_succ_r by lia. lia.
Qed.

Lemma le_value_drop q l : Forall is_byte l → (q ≤ length l)%nat → le_value l / 256 ^ Z.of_nat q = le_value (drop q l).
Proof.
  intros Hl Hq. rewrite <-(take_drop q l) at 1. rewrite le_value_app, length_take, Nat.min_l by lia.
  pose proof (le_value_range (take q l) (Forall_take _ _ _ Hl)) as Hr. rewrite length_take, Nat.min_l in Hr by lia.
  rewrite Z.mul_comm, Z.div_add by lia. rewrite Z.div_small by lia. lia.
Qed.

Lemma le_bytes_le_value l : Forall is_byte l → le_bytes (length l) (le_value l) = l.
Proof.
  induction 1 as [|b l Hb Hl IH]; [done|]. cbn [length le_bytes le_value]. unfold is_byte in Hb.
  replace (b + 256 * le_value l) with (b + le_value l * 256) by lia.
  rewrite Z.mod_add, Z.div_add, Z.mod_small, Z.div_small, Z.add_0_l by lia. by rewrite IH.
Qed.

Lemma le_value_small n v : 0 ≤ v < 256 ^ Z.of_nat n → le_value (le_bytes n v) = v.
Proof. intros H. by rewrite le_value_le_bytes, Z.mod_small. Qed.
