(* ===== verification/Pipe.v ===== *)
(** * Pipes: [src/pipe.c], [src/include/pipe.h]

    The ring of [PIPE_BUFFER_SIZE] bytes behind a pipe.  [pipe_read] that finds
    the pipe empty with a writer left goes to sleep; it is called again with what
    it finds when it is woken.  File objects and the opening and closing of ends
    are in [Files]. *)

From S2P Require Import Prelude Ring.

Definition PIPE_BUFFER_SIZE : Z := 4096.
Definition POLLIN : Z := 0x0001.
Definition POLLOUT : Z := 0x0004.
Definition POLLHUP : Z := 0x0010.

Record pipe_info := Pipe {
  buffer : list Z;
  read_pos : Z;
  write_pos : Z;
  data_size : Z;
  read_open : Z;
  write_open : Z
}.

(** What a read that may sleep gives back. *)
Inductive read_result : Type :=
  | RdDone (ret : Z) (bytes : list Z)
  | RdSleep.

(** [min] as the code computes a chunk. *)
Definition clamp (a b : Z) : Z := if b <? a then b else a.

(** The transfer at the end of [pipe_read]. *)
Definition pipe_take (count : Z) (p : pipe_info) : outcome (list Z * pipe_info) :=
  let total := clamp count (data_size p) in
  let first_chunk := clamp (u32 (PIPE_BUFFER_SIZE - read_pos p)) total in
  b1 ← load_bytes (buffer p) (read_pos p) first_chunk;
  b2 ← if first_chunk <? total then load_bytes (buffer p) 0 (total - first_chunk) else Ret [];
  Ret (b1 ++ b2,
       Pipe (buffer p) (u32 (read_pos p + total) mod PIPE_BUFFER_SIZE) (write_pos p)
         (u32 (data_size p - total)) (read_open p) (write_open p)).

(** [pipe_read] entered ([woken = None]) or woken from its sleep, with the
    pending signal of the reader. *)
Definition pipe_read (woken : option bool) (count : Z) (p : pipe_info) :
    outcome (read_result * pipe_info) :=
  if (data_size p =? 0) && negb (write_open p =? 0) && default false woken
  then Ret (RdDone (-1) [], p)
  else if data_size p =? 0 then
    if write_open p =? 0 then Ret (RdDone 0 [], p) else Ret (RdSleep, p)
  else
    '(bytes, p) ← pipe_take count p;
    Ret (RdDone (Z.of_nat (length bytes)) bytes, p).

Definition pipe_write (buf : list Z) (count : Z) (p : pipe_info) : outcome (Z * pipe_info) :=
  if read_open p =? 0 then Ret (-1, p)
  else
    let total := clamp count (u32 (PIPE_BUFFER_SIZE - data_size p)) in
    if total =? 0 then Ret (0, p)
    else
      let first_chunk := clamp (u32 (PIPE_BUFFER_SIZE - write_pos p)) total in
      b1 ← load_bytes buf 0 first_chunk;
      buffer ← store_bytes (buffer p) (write_pos p) b1;
      buffer ← if first_chunk <? total then
                 b2 ← load_bytes buf first_chunk (total - first_chunk);
                 store_bytes buffer 0 b2
               else Ret buffer;
      Ret (total,
           Pipe buffer (read_pos p) (u32 (write_pos p + total) mod PIPE_BUFFER_SIZE)
             (u32 (data_size p + total)) (read_open p) (write_open p)).

Definition pipe_poll_read (events : Z) (p : pipe_info) : Z :=
  let revents := if negb (Z.land events POLLIN =? 0) && (0 <? data_size p) then POLLIN else 0 in
  if write_open p =? 0 then Z.lor revents POLLHUP else revents.

Definition pipe_poll_write (events : Z) (p : pipe_info) : Z :=
  let revents := if negb (Z.land events POLLOUT =? 0) && (0 <? read_open p) &&
                    (data_size p <? PIPE_BUFFER_SIZE) then POLLOUT else 0 in
  if read_open p =? 0 then Z.lor revents POLLHUP else revents.

(** The pipe that [pipe] creates. *)
Definition new_pipe : pipe_info :=
  Pipe (replicate (Z.to_nat PIPE_BUFFER_SIZE) 0) 0 0 0 1 1.

(** ** The invariant and the contents *)

Definition psize : nat := Z.to_nat PIPE_BUFFER_SIZE.

Record pipe_inv (p : pipe_info) : Prop := {
  pi_buffer : length (buffer p) = psize;
  pi_read : 0 ≤ read_pos p < PIPE_BUFFER_SIZE;
  pi_size : 0 ≤ data_size p ≤ PIPE_BUFFER_SIZE;
  pi_write : write_pos p = (read_pos p + data_size p) mod PIPE_BUFFER_SIZE
}.

(** The bytes in the pipe, oldest first. *)
Definition contents (p : pipe_info) : list Z :=
  window psize (buffer p) (Z.to_nat (read_pos p)) (Z.to_nat (data_size p)).

Lemma contents_length p : pipe_inv p → Z.of_nat (length (contents p)) = data_size p.
Proof. intros [_ _ Hs _]. unfold contents. rewrite window_length. lia. Qed.

Lemma psize_pos : (0 < psize)%nat.
Proof. unfold psize, PIPE_BUFFER_SIZE. lia. Qed.

(** Two chunks, up to the end of the buffer and from its start, are a window. *)
Lemma two_chunks p total :
  pipe_inv p → 0 ≤ total ≤ data_size p →
  let first_chunk := clamp (PIPE_BUFFER_SIZE - read_pos p) total in
  take (Z.to_nat first_chunk) (drop (Z.to_nat (read_pos p)) (buffer p)) ++
  take (Z.to_nat (total - first_chunk)) (buffer p) = take (Z.to_nat total) (contents p).
Proof.
  intros [Hb Hr Hs Hw] Ht. cbv zeta. unfold contents.
  rewrite <-(window_take psize psize_pos) by lia. symmetry. unfold psize, PIPE_BUFFER_SIZE in *.
  set (c := clamp (4096 - read_pos p) total).
  assert (0 ≤ c ≤ total ∧ c ≤ 4096 - read_pos p ∧ (c = total ∨ c = 4096 - read_pos p)) as Hc
    by (unfold c, clamp; zcases; lia).
  apply (window_ext _ psize_pos); [rewrite length_app, !length_take, length_drop; lia|].
  intros i x Hi. change psize with (Z.to_nat 4096). destruct (decide (i < Z.to_nat c)%nat).
  - rewrite lookup_app_l, lookup_take_lt, lookup_drop by (rewrite ?length_take, ?length_drop; lia).
    by rewrite Nat.mod_small by lia.
  - rewrite lookup_app_r by (rewrite length_take, length_drop; lia).
    rewrite length_take, length_drop, Nat.min_l by lia. rewrite lookup_take_lt by lia.
    intros E. replace ((Z.to_nat (read_pos p) + i) `mod` Z.to_nat 4096)%nat with (i - Z.to_nat c)%nat; [done|].
    replace (Z.to_nat (read_pos p) + i)%nat with (i - Z.to_nat c + 1 * Z.to_nat 4096)%nat by lia.
    rewrite Nat.Div0.mod_add, Nat.mod_small; lia.
Qed.

Lemma pipe_take_spec count p :
  pipe_inv p → is_u32 count →
  ∃ p', pipe_take count p = Ret (take (Z.to_nat count) (contents p), p') ∧ pipe_inv p' ∧
    contents p' = drop (Z.to_nat count) (contents p) ∧
    read_open p' = read_open p ∧ write_open p' = write_open p.
Proof.
  intros Hinv Hc. pose proof Hinv as [Hb Hr Hs Hw]. pose proof (contents_length p Hinv) as Hlen.
  unfold pipe_take. set (total := clamp count (data_size p)).
  assert (0 ≤ total ≤ data_size p ∧ (total = count ∨ total = data_size p ∧ data_size p ≤ count)) as [Ht Ht']
    by (unfold total, clamp, is_u32 in *; zcases; lia).
  assert (take (Z.to_nat count) (contents p) = take (Z.to_nat total) (contents p)) as Etake.
  { destruct Ht' as [->|[-> ?]]; [done|]. rewrite !take_ge by lia. done. }
  assert (drop (Z.to_nat count) (contents p) = drop (Z.to_nat total) (contents p)) as Edrop.
  { destruct Ht' as [->|[-> ?]]; [done|]. rewrite !drop_ge by lia. done. }
  pose proof (two_chunks p total Hinv Ht) as Htc. cbv zeta in Htc.
  unfold psize, PIPE_BUFFER_SIZE in *. rewrite !u32_small by (unfold is_u32, U32; lia).
  set (c := clamp (4096 - read_pos p) total) in *.
  assert (0 ≤ c ≤ total ∧ c ≤ 4096 - read_pos p) as Hcb by (unfold c, clamp; zcases; lia).
  rewrite (load_bytes_Ret (buffer p) (read_pos p) c), bind_ret by lia.
  assert ((if c <? total then load_bytes (buffer p) 0 (total - c) else Ret [])
          = Ret (take (Z.to_nat (total - c)) (buffer p))) as ->.
  { destruct (Z.ltb_spec c total); [|by replace (total - c) with 0 by lia].
    rewrite load_bytes_Ret by lia. by rewrite drop_0. }
  rewrite bind_ret, Htc, Etake, Edrop. eexists. split; [done|].
  assert (pipe_inv (Pipe (buffer p) ((read_pos p + total) mod 4096) (write_pos p) (data_size p - total)
    (read_open p) (write_open p))) as Hinv'.
  { constructor; simpl; [done|by apply Z.mod_pos_bound|unfold PIPE_BUFFER_SIZE; lia|].
    rewrite Hw. unfold PIPE_BUFFER_SIZE. rewrite Zplus_mod_idemp_l. f_equal. lia. }
  split_and!; [done| |done|done]. unfold contents. simpl.
  rewrite <-(window_drop psize psize_pos) by lia. f_equal; [|lia].
  unfold psize, PIPE_BUFFER_SIZE. rewrite Z2Nat.inj_mod, Z2Nat.inj_add by lia. done.
Qed.

(** Storing [bytes] from [off] on, in two chunks, puts byte [j] at [off + j]
    modulo the size and leaves the rest. *)
Lemma store_two_chunks (buf : list Z) off (bytes : list Z) (c : Z) :
  length buf = psize → 0 ≤ off < PIPE_BUFFER_SIZE → (length bytes ≤ psize)%nat →
  c = Z.min (PIPE_BUFFER_SIZE - off) (Z.of_nat (length bytes)) →
  ∃ b1 b2, store_bytes buf off (take (Z.to_nat c) bytes) = Ret b1 ∧
    store_bytes b1 0 (drop (Z.to_nat c) bytes) = Ret b2 ∧ length b2 = psize ∧
    (∀ j x, bytes !! j = Some x → b2 !! ((Z.to_nat off + j) `mod` psize)%nat = Some x) ∧
    (∀ q, (∀ j, (j < length bytes)%nat → q ≠ ((Z.to_nat off + j) `mod` psize)%nat) → b2 !! q = buf !! q).
Proof.
  intros Hb Ho Hl Hc. unfold psize, PIPE_BUFFER_SIZE in *.
  assert (length (take (Z.to_nat c) bytes) = Z.to_nat c) as Hl1 by (rewrite length_take; lia).
  assert (length (drop (Z.to_nat c) bytes) = length bytes - Z.to_nat c)%nat as Hl2 by apply length_drop.
  destruct (store_bytes_Ret buf off (take (Z.to_nat c) bytes)) as (b1 & E1 & Hlen1 & Hb1); [lia..|].
  destruct (store_bytes_Ret b1 0 (drop (Z.to_nat c) bytes)) as (b2 & E2 & Hlen2 & Hb2); [lia..|].
  exists b1, b2. split_and!; [done|done|lia| |].
  - intros j x Hj. pose proof (lookup_lt_Some _ _ _ Hj). rewrite Hb2, Hb1, Hl1, Hl2.
    destruct (decide (j < Z.to_nat c)%nat).
    + rewrite Nat.mod_small by lia. rewrite decide_False, decide_True by lia.
      rewrite lookup_take_lt by lia. rewrite <-Hj. f_equal. lia.
    + replace (Z.to_nat off + j)%nat with (j - Z.to_nat c + 1 * Z.to_nat 4096)%nat by lia.
      rewrite Nat.Div0.mod_add, Nat.mod_small by lia. rewrite decide_True by lia.
      rewrite lookup_drop, <-Hj. f_equal. lia.
  - intros q Hq. rewrite Hb2, Hb1, Hl1, Hl2. rewrite !decide_False; [done|..].
    + intros Hin. apply (Hq (q - Z.to_nat off)%nat); [lia|].
      rewrite Nat.mod_small; lia.
    + intros Hin. apply (Hq (q + Z.to_nat c)%nat); [lia|].
      replace (Z.to_nat off + (q + Z.to_nat c))%nat with (q + 1 * Z.to_nat 4096)%nat by lia.
      rewrite Nat.Div0.mod_add, Nat.mod_small; lia.
Qed.

(** The next byte goes behind the last one. *)
Lemma write_position p j : pipe_inv p →
  ((Z.to_nat (write_pos p) + j) `mod` psize =
   (Z.to_nat (read_pos p) + Z.to_nat (data_size p) + j) `mod` psize)%nat.
Proof.
  intros [_ Hr Hs Hw]. rewrite Hw. unfold psize, PIPE_BUFFER_SIZE in *.
  rewrite Z2Nat.inj_mod, Z2Nat.inj_add by lia. by rewrite Nat.Div0.add_mod_idemp_l.
Qed.

Lemma pipe_write_spec buf count p :
  pipe_inv p → 0 ≤ count ≤ Z.of_nat (length buf) → is_u32 count → read_open p ≠ 0 →
  let n := Z.min count (PIPE_BUFFER_SIZE - data_size p) in
  ∃ p', pipe_write buf count p = Ret (n, p') ∧ pipe_inv p' ∧
    contents p' = contents p ++ take (Z.to_nat n) buf ∧
    read_open p' = read_open p ∧ write_open p' = write_open p.
Proof.
  intros Hinv Hc Hu Hro n. pose proof Hinv as [Hb Hr Hs Hw]. unfold pipe_write.
  destruct (Z.eqb_spec (read_open p) 0); [done|].
  assert (0 ≤ write_pos p < PIPE_BUFFER_SIZE) as Hwp by (rewrite Hw; by apply Z.mod_pos_bound).
  assert (clamp count (u32 (PIPE_BUFFER_SIZE - data_size p)) = n) as ->.
  { unfold n, PIPE_BUFFER_SIZE in *. rewrite u32_small by (unfold is_u32, U32; lia). unfold clamp. zcases; lia. }
  assert (0 ≤ n ≤ count ∧ data_size p + n ≤ PIPE_BUFFER_SIZE) as Hn by (unfold n; lia). clearbody n.
  destruct (Z.eqb_spec n 0) as [->|Hn0].
  { exists p. rewrite take_0, app_nil_r. done. }
  destruct (store_two_chunks (buffer p) (write_pos p) (take (Z.to_nat n) buf)
    (clamp (u32 (PIPE_BUFFER_SIZE - write_pos p)) n)) as (b1 & b2 & E1 & E2 & Hl2 & Hnew & Hold);
    [done|done|rewrite length_take; unfold psize, PIPE_BUFFER_SIZE in *; lia| |].
  { rewrite length_take. unfold PIPE_BUFFER_SIZE in *. rewrite u32_small by (unfold is_u32, U32; lia).
    unfold clamp. zcases; lia. }
  set (c := clamp (u32 (PIPE_BUFFER_SIZE - write_pos p)) n) in *.
  assert (0 ≤ c ≤ n) as Hcn.
  { unfold c, clamp, PIPE_BUFFER_SIZE in *. rewrite u32_small by (unfold is_u32, U32; lia). zcases; lia. }
  clearbody c. rewrite (load_bytes_Ret buf 0 c), bind_ret, drop_0 by lia.
  rewrite take_take, Nat.min_l in E1 by lia. change (Z.to_nat 0) with 0%nat. rewrite ?drop_0, E1, bind_ret.
  assert ((if c <? n then b2 ← load_bytes buf c (n - c); store_bytes b1 0 b2 else Ret b1) = Ret b2) as ->.
  { destruct (Z.ltb_spec c n) as [Hlt|Hge].
    - rewrite load_bytes_Ret, bind_ret by lia. rewrite skipn_firstn_comm in E2.
      by replace (Z.to_nat (n - c)) with (Z.to_nat n - Z.to_nat c)%nat by lia.
    - rewrite drop_ge in E2 by (rewrite length_take; lia). unfold store_bytes in E2.
      destruct (_ && _); [|done]. by injection E2 as <-. }
  rewrite bind_ret. eexists. split; [done|].
  assert (length (take (Z.to_nat n) buf) = Z.to_nat n) as Hlt by (rewrite length_take; lia).
  unfold PIPE_BUFFER_SIZE in *.
  pose proof (fun j => write_position p j Hinv) as Epos.
  rewrite !u32_small by (unfold is_u32, U32; lia). split_and!; [|unfold contents; simpl|done|done].
  - constructor; simpl; [done|done|unfold PIPE_BUFFER_SIZE; lia|].
    rewrite Hw. unfold PIPE_BUFFER_SIZE. rewrite Zplus_mod_idemp_l. f_equal. lia.
  - rewrite Z2Nat.inj_add by lia. rewrite <-Hlt at 1. apply (window_append psize psize_pos).
    + rewrite Hlt. unfold psize, PIPE_BUFFER_SIZE. lia.
    + intros j x Hj. rewrite <-Epos. by apply Hnew.
    + intros i Hi. apply Hold. intros j Hj Eq. rewrite Epos, <-Nat.add_assoc in Eq.
      apply (window_inj psize psize_pos) in Eq; [lia|unfold psize, PIPE_BUFFER_SIZE; lia..].
Qed.

Lemma new_pipe_inv : pipe_inv new_pipe.
Proof. constructor; try done. Qed.

(** ** Sessions of reads and writes *)

Inductive pipe_event : Type :=
  | PWrite (buf : list Z)
  | PRead (count : Z).

Definition event_ok (e : pipe_event) : Prop :=
  match e with
  | PWrite buf => is_u32 (Z.of_nat (length buf))
  | PRead count => is_u32 count
  end.

(** The pipe, the bytes its writers handed over and the bytes its readers got. *)
Definition pipe_step (st : pipe_info * list Z * list Z) (e : pipe_event) :
    outcome (pipe_info * list Z * list Z) :=
  let '(p, sent, got) := st in
  match e with
  | PWrite buf =>
      '(n, p) ← pipe_write buf (Z.of_nat (length buf)) p;
      Ret (p, sent ++ take (Z.to_nat n) buf, got)
  | PRead count =>
      '(r, p) ← pipe_read None count p;
      Ret (p, sent, match r with RdDone _ bytes => got ++ bytes | RdSleep => got end)
  end.

Lemma pipe_read_data woken count p :
  pipe_inv p → is_u32 count → contents p ≠ [] →
  ∃ p', pipe_read woken count p
        = Ret (RdDone (Z.min count (Z.of_nat (length (contents p)))) (take (Z.to_nat count) (contents p)), p') ∧
    pipe_inv p' ∧ contents p' = drop (Z.to_nat count) (contents p) ∧
    read_open p' = read_open p ∧ write_open p' = write_open p.
Proof.
  intros Hinv Hc Hne. pose proof (contents_length p Hinv) as Hl. unfold pipe_read.
  destruct (Z.eqb_spec (data_size p) 0) as [E|E].
  { destruct (contents p); simpl in Hl; [done|lia]. }
  destruct (pipe_take_spec count p Hinv Hc) as (p' & -> & Hp'). exists p'. split; [|done].
  simpl. do 3 f_equal. rewrite length_take. unfold is_u32 in Hc. lia.
Qed.

Lemma pipe_read_empty woken count p :
  pipe_inv p → contents p = [] →
  pipe_read woken count p =
    Ret (if write_open p =? 0 then RdDone 0 []
         else if default false woken then RdDone (-1) [] else RdSleep, p).
Proof.
  intros Hinv E. pose proof (contents_length p Hinv) as Hl. rewrite E in Hl. simpl in Hl.
  unfold pipe_read. rewrite <-Hl. simpl. by destruct (write_open p =? 0), (default false woken).
Qed.

Lemma pipe_step_ok st e :
  event_ok e → pipe_inv st.1.1 → read_open st.1.1 ≠ 0 → st.1.2 = st.2 ++ contents st.1.1 →
  ∃ st', pipe_step st e = Ret st' ∧ pipe_inv st'.1.1 ∧ read_open st'.1.1 ≠ 0 ∧
         st'.1.2 = st'.2 ++ contents st'.1.1.
Proof.
  destruct st as [[p sent] got]. simpl. intros He Hinv Hro ->. destruct e as [buf|count]; simpl in *.
  - destruct (pipe_write_spec buf (Z.of_nat (length buf)) p) as (p' & -> & Hinv' & Hc & Ero & _); [done|lia|done|done|].
    eexists. split; [done|]. simpl. rewrite Ero, Hc. split_and!; [done..|by rewrite app_assoc].
  - destruct (decide (contents p = [])) as [E|Hne].
    + rewrite pipe_read_empty by done. eexists. split; [done|]. simpl.
      by destruct (write_open p =? 0); simpl; rewrite ?app_nil_r.
    + destruct (pipe_read_data None count p) as (p' & -> & Hinv' & Hc & Ero & _); [done..|].
      eexists. split; [done|]. simpl. rewrite Ero, Hc. split_and!; [done..|].
      by rewrite <-app_assoc, take_drop.
Qed.

(** ** Theorems *)

(** C14: every sequence of writes and reads on a new pipe runs without leaving the
    buffer, and the bytes handed over by the writers are the bytes the readers got
    followed by the contents of the pipe: nothing is lost, repeated or reordered. *)
Theorem pipe_fifo es :
  Forall event_ok es →
  ∃ p sent got, foldM pipe_step es (new_pipe, [], []) = Ret (p, sent, got) ∧
    pipe_inv p ∧ sent = got ++ contents p.
Proof.
  intros Hes.
  assert (∀ st, pipe_inv st.1.1 → read_open st.1.1 ≠ 0 → st.1.2 = st.2 ++ contents st.1.1 →
    ∃ st', foldM pipe_step es st = Ret st' ∧ pipe_inv st'.1.1 ∧ st'.1.2 = st'.2 ++ contents st'.1.1) as Hrun.
  { induction Hes as [|e es He Hes IH]; intros st Hinv Hro Hst; [by exists st|]. cbn [foldM].
    destruct (pipe_step_ok st e) as (st' & -> & ? & ? & ?); [done..|]. rewrite bind_ret. by apply IH. }
  destruct (Hrun (new_pipe, [], [])) as ([[p sent] got] & Hf & Hinv & E);
    [apply new_pipe_inv|done|done|]. by exists p, sent, got.
Qed.

Lemma pipe_fifo_witness :
  ∃ p, foldM pipe_step [PWrite [1; 2; 3]; PRead 2; PWrite [4]; PRead 9] (new_pipe, [], [])
       = Ret (p, [1; 2; 3; 4], [1; 2; 3; 4]).
Proof.
  destruct (pipe_fifo [PWrite [1; 2; 3]; PRead 2; PWrite [4]; PRead 9]) as (p & sent & got & Hrun & _).
  - repeat constructor; unfold is_u32; simpl; (lia || reflexivity || discriminate).
  - eexists. vm_compute. reflexivity.
Defined.

(** [pipe_write] to a pipe with a reader accepts as many bytes as there is
    room for and appends exactly those; without a reader it fails and changes
    nothing. *)
Theorem pipe_write_appends buf count p :
  pipe_inv p → 0 ≤ count ≤ Z.of_nat (length buf) → is_u32 count →
  if decide (read_open p = 0) then pipe_write buf count p = Ret (-1, p)
  else let n := Z.min count (PIPE_BUFFER_SIZE - Z.of_nat (length (contents p))) in
    ∃ p', pipe_write buf count p = Ret (n, p') ∧ pipe_inv p' ∧
      contents p' = contents p ++ take (Z.to_nat n) buf.
Proof.
  intros Hinv Hc Hu. case_decide as Hro; [unfold pipe_write; by rewrite Hro|].
  rewrite contents_length by done.
  destruct (pipe_write_spec buf count p) as (p' & ? & ? & ? & _); [done..|]. eauto.
Qed.

Lemma pipe_write_appends_witness :
  ∃ p', pipe_write [7; 8; 9] 2 new_pipe = Ret (2, p') ∧ contents p' = [7; 8].
Proof.
  destruct (pipe_write_appends [7; 8; 9] 2 new_pipe) as (p' & Hrun & _ & Hc);
    [exact new_pipe_inv|simpl; lia|split; reflexivity || discriminate|].
  exists p'. split; [exact Hrun|]. rewrite Hc. reflexivity.
Defined.

(** [pipe_read] takes the oldest bytes when there are any; on an empty pipe
    it reports end of file without a writer, fails when it was woken by a signal,
    and sleeps otherwise, leaving the pipe as it was. *)
Theorem pipe_read_takes woken count p :
  pipe_inv p → is_u32 count →
  match contents p with
  | [] => pipe_read woken count p =
      Ret (if write_open p =? 0 then RdDone 0 []
           else if default false woken then RdDone (-1) [] else RdSleep, p)
  | _ :: _ => ∃ p', pipe_read woken count p
        = Ret (RdDone (Z.min count (Z.of_nat (length (contents p)))) (take (Z.to_nat count) (contents p)), p') ∧
      pipe_inv p' ∧ contents p' = drop (Z.to_nat count) (contents p)
  end.
Proof.
  intros Hinv Hc. destruct (contents p) as [|b l] eqn:E; [by apply pipe_read_empty|]. rewrite <-E.
  destruct (pipe_read_data woken count p) as (p' & ? & ? & ? & _); [done|done|congruence|eauto].
Qed.

Lemma pipe_read_takes_witness : pipe_read (Some true) 5 new_pipe = Ret (RdDone (-1) [], new_pipe).
Proof.
  exact (pipe_read_takes (Some true) 5 new_pipe new_pipe_inv (conj (ltac:(lia) : 0 <= 5) (ltac:(reflexivity) : 5 < U32))).
Defined.

(** What [pipe_poll_events] reports agrees with what a call does: an end is
    readable exactly when a read of at least one byte returns bytes, writable
    exactly when a write of at least one byte accepts some, and hung up exactly
    when the other end is closed. *)
Theorem pipe_poll_agrees p count buf :
  pipe_inv p → 0 ≤ read_open p → 0 < count → is_u32 count → count ≤ Z.of_nat (length buf) →
  (Z.land (pipe_poll_read POLLIN p) POLLIN ≠ 0 ↔
     ∃ n bytes p', pipe_read None count p = Ret (RdDone n bytes, p') ∧ 0 < n) ∧
  (Z.land (pipe_poll_write POLLOUT p) POLLOUT ≠ 0 ↔ ∃ n p', pipe_write buf count p = Ret (n, p') ∧ 0 < n) ∧
  (Z.land (pipe_poll_read POLLIN p) POLLHUP ≠ 0 ↔ write_open p = 0) ∧
  (Z.land (pipe_poll_write POLLOUT p) POLLHUP ≠ 0 ↔ read_open p = 0).
Proof.
  intros Hinv Hro Hc Hu Hb. pose proof (contents_length p Hinv) as Hl.
  pose proof (pi_size _ Hinv) as Hs. unfold pipe_poll_read, pipe_poll_write.
  change (negb (Z.land POLLIN POLLIN =? 0)) with true. change (negb (Z.land POLLOUT POLLOUT =? 0)) with true.
  cbn [andb]. split_and!.
  - transitivity (contents p ≠ []).
    + rewrite <-Hl. destruct (contents p); simpl; destruct (write_open p =? 0); done.
    + split.
      * intros Hne. destruct (pipe_read_data None count p) as (p' & -> & _); [done..|].
        eexists _, _, _. split; [done|]. destruct (contents p); simpl in *; [done|lia].
      * intros (n & bytes & p' & Hrun & Hn) E. rewrite pipe_read_empty in Hrun by done. simpl in Hrun.
        destruct (write_open p =? 0); simplify_eq. lia.
  - transitivity (read_open p ≠ 0 ∧ data_size p < PIPE_BUFFER_SIZE).
    + destruct (Z.ltb_spec 0 (read_open p)), (Z.ltb_spec (data_size p) PIPE_BUFFER_SIZE),
        (Z.eqb_spec (read_open p) 0); simpl; naive_solver lia.
    + split.
      * intros [Hr Hd]. destruct (pipe_write_spec buf count p) as (p' & -> & _); [done|lia|done|done|].
        eexists _, _. split; [done|]. lia.
      * intros (n & p' & Hrun & Hn). assert (read_open p ≠ 0) as Hr.
        { intros E. unfold pipe_write in Hrun. rewrite E in Hrun. simpl in Hrun. simplify_eq. lia. }
        split; [done|]. destruct (pipe_write_spec buf count p) as (p'' & Hrun' & _); [done|lia|done|done|].
        rewrite Hrun' in Hrun. injection Hrun as Hn'. lia.
  - destruct (0 <? data_size p), (Z.eqb_spec (write_open p) 0); simpl; naive_solver lia.
  - destruct (Z.ltb_spec 0 (read_open p)), (data_size p <? PIPE_BUFFER_SIZE),
      (Z.eqb_spec (read_open p) 0); simpl; naive_solver lia.
Qed.

Lemma pipe_poll_agrees_witness : Z.land (pipe_poll_write POLLOUT new_pipe) POLLOUT ≠ 0.
Proof.
  destruct (pipe_poll_agrees new_pipe 1 [5]) as (_ & Hw & _);
    [exact new_pipe_inv|simpl; lia|lia|split; reflexivity || discriminate|simpl; lia|].
  apply Hw. eexists _, _. split; [vm_compute; reflexivity|lia].
Defined.
