(* ===== verification/Tty.v ===== *)
(** * Terminals: [src/tty/tty.c], [src/include/tty.h]

    A terminal has a queue of bytes for the program on its slave side, a queue of
    bytes for its master, and a line that is edited in canonical mode.  Characters
    that go to the console ([_kputc]) and signals ([sys_kill]) are recorded in a
    log.  Bytes are 0..255.  File objects, reference counts of open files and the
    pool of terminals are in [Files]. *)

From S2P Require Import Prelude Ring Pipe.

Definition TTY_FLAG_ICANON : Z := 0x01.
Definition TTY_FLAG_ECHO : Z := 0x02.
Definition TTY_FLAG_ISIG : Z := 0x04.
Definition TTY_FLAG_ECHONL : Z := 0x08.
Definition ICANON : Z := 0x0001.
Definition ECHO : Z := 0x0002.
Definition ISIG : Z := 0x0004.
Definition ECHONL : Z := 0x0008.
Definition TTY_RING_SIZE : Z := 65536.
Definition TTY_CANON_SIZE : Z := 256.
Definition KEY_BACK : Z := 0x08.
Definition KEY_ENTER : Z := 0x0d.
Definition SIGINT : Z := 2.

Record tty_ring := TtyRing { data : list Z; head : Z; tail : Z }.

Record tty := Tty {
  active : bool;
  has_master : bool;
  refcount : Z;
  slave_refs : Z;
  flags : Z;
  cols : Z;
  rows : Z;
  foreground_pid : Z;
  slave_rx : tty_ring;
  master_rx : tty_ring;
  canon_buf : list Z;
  canon_len : Z
}.

Definition set_slave_rx (r : tty_ring) (t : tty) : tty :=
  Tty (active t) (has_master t) (refcount t) (slave_refs t) (flags t) (cols t) (rows t)
    (foreground_pid t) r (master_rx t) (canon_buf t) (canon_len t).
Definition set_master_rx (r : tty_ring) (t : tty) : tty :=
  Tty (active t) (has_master t) (refcount t) (slave_refs t) (flags t) (cols t) (rows t)
    (foreground_pid t) (slave_rx t) r (canon_buf t) (canon_len t).
Definition set_canon (buf : list Z) (len : Z) (t : tty) : tty :=
  Tty (active t) (has_master t) (refcount t) (slave_refs t) (flags t) (cols t) (rows t)
    (foreground_pid t) (slave_rx t) (master_rx t) buf len.
Definition set_flags (f : Z) (t : tty) : tty :=
  Tty (active t) (has_master t) (refcount t) (slave_refs t) f (cols t) (rows t)
    (foreground_pid t) (slave_rx t) (master_rx t) (canon_buf t) (canon_len t).
Definition set_size (c r : Z) (t : tty) : tty :=
  Tty (active t) (has_master t) (refcount t) (slave_refs t) (flags t) c r
    (foreground_pid t) (slave_rx t) (master_rx t) (canon_buf t) (canon_len t).
Definition set_foreground (pid : Z) (t : tty) : tty :=
  Tty (active t) (has_master t) (refcount t) (slave_refs t) (flags t) (cols t) (rows t)
    pid (slave_rx t) (master_rx t) (canon_buf t) (canon_len t).
Definition set_refs (act master : bool) (refs srefs : Z) (t : tty) : tty :=
  Tty act master refs srefs (flags t) (cols t) (rows t)
    (foreground_pid t) (slave_rx t) (master_rx t) (canon_buf t) (canon_len t).

(** What a terminal does to the rest of the kernel. *)
Inductive tty_effect : Type :=
  | KPutc (c : Z)
  | SysKill (pid signum : Z).

(** A terminal and the effects so far. *)
Abbreviation ts := (tty * list tty_effect)%type.

Definition flag_on (t : tty) (f : Z) : bool := negb (Z.land (flags t) f =? 0).

(** ** The rings *)

Definition tty_ring_empty (r : tty_ring) : bool := head r =? tail r.

Definition tty_ring_push (r : tty_ring) (c : Z) : outcome tty_ring :=
  let next := (tail r + 1) mod TTY_RING_SIZE in
  let head' := if next =? head r then (head r + 1) mod TTY_RING_SIZE else head r in
  d ← store1 (data r) (tail r) c;
  Ret (TtyRing d head' next).

Definition tty_ring_pop (r : tty_ring) : outcome (option (Z * tty_ring)) :=
  if tty_ring_empty r then Ret None
  else
    c ← load1 (data r) (head r);
    Ret (Some (c, TtyRing (data r) ((head r + 1) mod TTY_RING_SIZE) (tail r))).

Definition zero_ring : tty_ring := TtyRing (replicate (Z.to_nat TTY_RING_SIZE) 0) 0 0.

(** [tty_reset]; the size of the screen is an argument. *)
Definition tty_reset (screen_cols screen_rows : Z) (master : bool) : tty :=
  Tty false master 0 0
    (let f := Z.lor (Z.lor TTY_FLAG_ICANON TTY_FLAG_ECHO) TTY_FLAG_ISIG in
     if master then f else Z.lor f TTY_FLAG_ECHONL)
    screen_cols screen_rows 0 zero_ring zero_ring
    (replicate (Z.to_nat TTY_CANON_SIZE) 0) 0.

(** ** Settings *)

Definition tty_get_termios (t : tty) : Z :=
  let c_lflag := 0 in
  let c_lflag := if flag_on t TTY_FLAG_ICANON then Z.lor c_lflag ICANON else c_lflag in
  let c_lflag := if flag_on t TTY_FLAG_ECHO then Z.lor c_lflag ECHO else c_lflag in
  let c_lflag := if flag_on t TTY_FLAG_ISIG then Z.lor c_lflag ISIG else c_lflag in
  if flag_on t TTY_FLAG_ECHONL then Z.lor c_lflag ECHONL else c_lflag.

Definition tty_termios_flags (lflag : Z) : Z :=
  let fl := 0 in
  let fl := if negb (Z.land lflag ICANON =? 0) then Z.lor fl TTY_FLAG_ICANON else fl in
  let fl := if negb (Z.land lflag ECHO =? 0) then Z.lor fl TTY_FLAG_ECHO else fl in
  let fl := if negb (Z.land lflag ISIG =? 0) then Z.lor fl TTY_FLAG_ISIG else fl in
  if negb (Z.land lflag ECHONL =? 0) then Z.lor fl TTY_FLAG_ECHONL else fl.

Definition tty_set_termios (c_lflag : Z) (t : tty) : tty :=
  set_canon (canon_buf t) 0 (set_flags (tty_termios_flags c_lflag) t).

Definition tty_set_winsize (c r : Z) (t : tty) : Z * tty :=
  if (c =? 0) || (r =? 0) then (-1, t) else (0, set_size c r t).

Definition tty_get_winsize (t : tty) : Z * Z := (cols t, rows t).

Definition tty_set_foreground_pid (pid : Z) (t : tty) : tty :=
  set_foreground (if pid <? 0 then 0 else pid) t.

Definition tty_get_foreground_pid (t : tty) : Z := foreground_pid t.

(** ** Editing a line of UTF-8 *)

Definition is_cont (b : Z) : bool := Z.land b 0xc0 =? 0x80.

(** The loop of [tty_utf8_prev_char_start]. *)
Fixpoint prev_start_loop (data : list Z) (index : nat) : outcome Z :=
  match index with
  | O => Ret 0
  | S i =>
      b ← load1 data (Z.of_nat index);
      if is_cont b then prev_start_loop data i else Ret (Z.of_nat index)
  end.

Definition tty_utf8_prev_char_start (data : list Z) (len index : Z) : outcome Z :=
  if (len <=? 0) || (index <=? 0) then Ret 0
  else
    let index := if len <? index then len else index in
    prev_start_loop data (Z.to_nat (index - 1)).

(** [a && b] where the test [b] reads memory. *)
Definition and_also (a : bool) (b : outcome bool) : outcome bool := if a then b else Ret false.

Definition cont_at (data : list Z) (i : Z) : outcome bool := b ← load1 data i; Ret (is_cont b).

(** The code points that take two columns. *)
Definition wide_codepoint (cp : Z) : bool :=
  ((0x3000 <=? cp) && (cp <=? 0x303e)) || ((0x3041 <=? cp) && (cp <=? 0x3096)) ||
  ((0x3099 <=? cp) && (cp <=? 0x30ff)) || ((0x3400 <=? cp) && (cp <=? 0x9fff)) ||
  ((0xff01 <=? cp) && (cp <=? 0xff60)) || ((0xffe0 <=? cp) && (cp <=? 0xffe6)).

(** The width of the character at [off]. *)
Definition tty_utf8_char_width (data : list Z) (off len : Z) : outcome Z :=
  if len <=? 0 then Ret 1
  else
    first ← load1 data off;
    if first <? 0x80 then Ret 1
    else
      two ← and_also ((Z.land first 0xe0 =? 0xc0) && (2 <=? len)) (cont_at data (off + 1));
      three ← and_also ((Z.land first 0xf0 =? 0xe0) && (3 <=? len))
                (c1 ← cont_at data (off + 1); and_also c1 (cont_at data (off + 2)));
      four ← and_also ((Z.land first 0xf8 =? 0xf0) && (4 <=? len))
                (c1 ← cont_at data (off + 1);
                 and_also c1 (c2 ← cont_at data (off + 2); and_also c2 (cont_at data (off + 3))));
      codepoint ←
        (if two : bool then
           b1 ← load1 data (off + 1);
           Ret (Z.lor (Z.shiftl (Z.land first 0x1f) 6) (Z.land b1 0x3f))
         else if three : bool then
           b1 ← load1 data (off + 1); b2 ← load1 data (off + 2);
           Ret (Z.lor (Z.lor (Z.shiftl (Z.land first 0x0f) 12) (Z.shiftl (Z.land b1 0x3f) 6))
                  (Z.land b2 0x3f))
         else if four : bool then
           b1 ← load1 data (off + 1); b2 ← load1 data (off + 2); b3 ← load1 data (off + 3);
           Ret (Z.lor (Z.lor (Z.lor (Z.shiftl (Z.land first 0x07) 18) (Z.shiftl (Z.land b1 0x3f) 12))
                  (Z.shiftl (Z.land b2 0x3f) 6)) (Z.land b3 0x3f))
         else Ret 0xfffd);
      Ret (if wide_codepoint codepoint then 2 else 1).

(** ** Output, input, reading *)

Definition tty_emit_output (c : Z) (s : ts) : outcome ts :=
  let '(t, log) := s in
  if has_master t then
    r ← tty_ring_push (master_rx t) c;
    Ret (set_master_rx r t, log)
  else Ret (t, log ++ [KPutc c]).

Definition emit_all (cs : list Z) (s : ts) : outcome ts :=
  foldM (fun s c => tty_emit_output c s) cs s.

Definition tty_echo_erase (width : Z) (s : ts) : outcome ts :=
  let width := if width <=? 0 then 1 else width in
  foldM (fun s _ => emit_all [KEY_BACK; 0x20; KEY_BACK] s) (seq 0 (Z.to_nat width)) s.

Definition tty_echo_interrupt (s : ts) : outcome ts := emit_all [0x5e; 0x43; 0x0a] s.

Definition tty_push_slave_byte (c : Z) (s : ts) : outcome ts :=
  let '(t, log) := s in
  r ← tty_ring_push (slave_rx t) c;
  Ret (set_slave_rx r t, log).

Definition tty_interrupt_foreground (s : ts) : ts :=
  let '(t, log) := s in
  if foreground_pid t <=? 0 then s else (t, log ++ [SysKill (foreground_pid t) SIGINT]).

Definition tty_receive_char (c : Z) (s : ts) : outcome ts :=
  let '(t, log) := s in
  if flag_on t TTY_FLAG_ISIG && (c =? 0x03) then
    let s := (set_canon (canon_buf t) 0 t, log) in
    s ← if flag_on t TTY_FLAG_ECHO then tty_echo_interrupt s else Ret s;
    if 0 <? foreground_pid t then Ret (tty_interrupt_foreground s)
    else if flag_on t TTY_FLAG_ICANON then tty_push_slave_byte 0 s
    else Ret s
  else if negb (flag_on t TTY_FLAG_ICANON) then
    s ← tty_push_slave_byte c s;
    if flag_on t TTY_FLAG_ECHO then tty_emit_output c s else Ret s
  else if (c =? KEY_BACK) || (c =? 0x7f) then
    if 0 <? canon_len t then
      prev_len ← tty_utf8_prev_char_start (canon_buf t) (canon_len t) (canon_len t);
      width ← tty_utf8_char_width (canon_buf t) prev_len (canon_len t - prev_len);
      let s := (set_canon (canon_buf t) prev_len t, log) in
      if flag_on t TTY_FLAG_ECHO then tty_echo_erase width s else Ret s
    else Ret s
  else if (c =? KEY_ENTER) || (c =? 0x0a) then
    s ← foldM (fun s i => b ← load1 (canon_buf t) (Z.of_nat i); tty_push_slave_byte b s)
          (seq 0 (Z.to_nat (canon_len t))) s;
    s ← tty_push_slave_byte 0x0a s;
    s ← tty_push_slave_byte 0 s;
    let s := (set_canon (canon_buf t) 0 s.1, s.2) in
    if flag_on t TTY_FLAG_ECHO && flag_on t TTY_FLAG_ECHONL then tty_emit_output 0x0a s else Ret s
  else if c =? 0 then Ret s
  else if canon_len t <? TTY_CANON_SIZE - 1 then
    buf ← store1 (canon_buf t) (canon_len t) c;
    let s := (set_canon buf (canon_len t + 1) t, log) in
    if flag_on t TTY_FLAG_ECHO then tty_emit_output c s else Ret s
  else Ret s.

Definition tty_slave_write (buf : list Z) (s : ts) : outcome (Z * ts) :=
  s ← emit_all buf s; Ret (Z.of_nat (length buf), s).

Definition tty_master_write (buf : list Z) (s : ts) : outcome (Z * ts) :=
  s ← foldM (fun s c => tty_receive_char c s) buf s; Ret (Z.of_nat (length buf), s).

(** The copy loop of [tty_slave_read]; a canonical read stops after a NUL. *)
Fixpoint slave_read_loop (count : nat) (canon : bool) (r : tty_ring) : outcome (list Z * tty_ring) :=
  match count with
  | O => Ret ([], r)
  | S n =>
      p ← tty_ring_pop r;
      match p with
      | None => Ret ([], r)
      | Some (c, r) =>
          if canon && (c =? 0) then Ret ([c], r)
          else '(l, r) ← slave_read_loop n canon r; Ret (c :: l, r)
      end
  end.

(** [woken] is [None] on entry, and the pending signal after a sleep. *)
Definition tty_slave_read (woken : option bool) (count : Z) (block : bool) (t : tty) :
    outcome (read_result * tty) :=
  if count =? 0 then Ret (RdDone 0 [], t)
  else if tty_ring_empty (slave_rx t) && default false woken then Ret (RdDone (-1) [], t)
  else if tty_ring_empty (slave_rx t) then Ret (if block then RdSleep else RdDone 0 [], t)
  else
    '(l, r) ← slave_read_loop (Z.to_nat count) (flag_on t TTY_FLAG_ICANON) (slave_rx t);
    Ret (RdDone (Z.of_nat (length l)) l, set_slave_rx r t).

Fixpoint master_read_loop (count : nat) (r : tty_ring) : outcome (list Z * tty_ring) :=
  match count with
  | O => Ret ([], r)
  | S n =>
      p ← tty_ring_pop r;
      match p with
      | None => Ret ([], r)
      | Some (c, r) => '(l, r) ← master_read_loop n r; Ret (c :: l, r)
      end
  end.

Definition tty_master_read (count : Z) (t : tty) : outcome (Z * list Z * tty) :=
  '(l, r) ← master_read_loop (Z.to_nat count) (master_rx t);
  Ret (Z.of_nat (length l), l, set_master_rx r t).

(** A key of the keyboard: dropped when it is 0 or the input mode is raw. *)
Definition tty_feed_console_char (raw_mode : bool) (c : Z) (console : ts) : outcome ts :=
  if (c =? 0) || raw_mode then Ret console else tty_receive_char c console.
