(* ===== verification/TtySpec.v ===== *)
(** * The line discipline, as a contract on lists of bytes

    What a terminal promises, without rings and fixed buffers: a queue holds its
    newest [TTY_RING_SIZE - 1] bytes, a line at most [TTY_CANON_SIZE - 1].  The
    operations of [Tty] are shown to refine it. *)

From S2P Require Import Prelude Ring Pipe Tty.

(** ** The contract *)

Definition keep_last (n : nat) (l : list Z) : list Z := drop (length l - n) l.

Definition qcap : nat := Z.to_nat (TTY_RING_SIZE - 1).
Definition enqueue (q : list Z) (c : Z) : list Z := keep_last qcap (q ++ [c]).

Record disc := Disc { d_line : list Z; d_in : list Z; d_out : list Z; d_log : list tty_effect }.

(** The settings that the discipline depends on. *)
Record mode := Mode { m_flags : Z; m_master : bool; m_pid : Z }.
Definition mode_on (m : mode) (f : Z) : bool := negb (Z.land (m_flags m) f =? 0).

Fixpoint drop_while (P : Z → bool) (l : list Z) : list Z :=
  match l with
  | [] => []
  | x :: r => if P x then drop_while P r else l
  end.

(** A line without its last character: continuation bytes and one byte more. *)
Definition strip_last (l : list Z) : list Z := reverse (List.tl (drop_while is_cont (reverse l))).

(** The code point that the bytes of the last character decode to. *)
Definition char_codepoint (l : list Z) : Z :=
  match l with
  | [] => 0xfffd
  | b0 :: r =>
      let at_ i := default 0 (r !! i) in
      let cont i := match r !! i with Some b => is_cont b | None => false end in
      if (Z.land b0 0xe0 =? 0xc0) && cont 0%nat then
        Z.lor (Z.shiftl (Z.land b0 0x1f) 6) (Z.land (at_ 0%nat) 0x3f)
      else if (Z.land b0 0xf0 =? 0xe0) && cont 0%nat && cont 1%nat then
        Z.lor (Z.lor (Z.shiftl (Z.land b0 0x0f) 12) (Z.shiftl (Z.land (at_ 0%nat) 0x3f) 6))
          (Z.land (at_ 1%nat) 0x3f)
      else if (Z.land b0 0xf8 =? 0xf0) && cont 0%nat && cont 1%nat && cont 2%nat then
        Z.lor (Z.lor (Z.lor (Z.shiftl (Z.land b0 0x07) 18) (Z.shiftl (Z.land (at_ 0%nat) 0x3f) 12))
          (Z.shiftl (Z.land (at_ 1%nat) 0x3f) 6)) (Z.land (at_ 2%nat) 0x3f)
      else 0xfffd
  end.

Definition char_width (l : list Z) : Z :=
  match l with
  | [] => 1
  | b0 :: _ => if b0 <? 0x80 then 1 else if wide_codepoint (char_codepoint l) then 2 else 1
  end.

Definition aemit (m : mode) (d : disc) (c : Z) : disc :=
  if m_master m then Disc (d_line d) (d_in d) (enqueue (d_out d) c) (d_log d)
  else Disc (d_line d) (d_in d) (d_out d) (d_log d ++ [KPutc c]).
Definition apush (d : disc) (c : Z) : disc :=
  Disc (d_line d) (enqueue (d_in d) c) (d_out d) (d_log d).
Definition with_line (l : list Z) (d : disc) : disc := Disc l (d_in d) (d_out d) (d_log d).
Definition aecho (m : mode) (cs : list Z) (d : disc) : disc :=
  if mode_on m TTY_FLAG_ECHO then foldl (aemit m) d cs else d.

Definition areceive (m : mode) (c : Z) (d : disc) : disc :=
  if mode_on m TTY_FLAG_ISIG && (c =? 3) then
    let d := aecho m [0x5e; 0x43; 0x0a] (with_line [] d) in
    if 0 <? m_pid m then Disc (d_line d) (d_in d) (d_out d) (d_log d ++ [SysKill (m_pid m) SIGINT])
    else if mode_on m TTY_FLAG_ICANON then apush d 0
    else d
  else if negb (mode_on m TTY_FLAG_ICANON) then aecho m [c] (apush d c)
  else if (c =? KEY_BACK) || (c =? 0x7f) then
    match d_line d with
    | [] => d
    | _ =>
        let l := strip_last (d_line d) in
        let w := char_width (drop (length l) (d_line d)) in
        aecho m (mjoin (replicate (Z.to_nat w) [KEY_BACK; 0x20; KEY_BACK])) (with_line l d)
    end
  else if (c =? KEY_ENTER) || (c =? 0x0a) then
    let d := with_line [] (foldl apush d (d_line d ++ [0x0a; 0])) in
    if mode_on m TTY_FLAG_ECHONL then aecho m [0x0a] d else d
  else if c =? 0 then d
  else if Z.of_nat (length (d_line d)) <? TTY_CANON_SIZE - 1
  then aecho m [c] (with_line (d_line d ++ [c]) d)
  else d.

(** ** Rings *)

Definition rsize : nat := Z.to_nat TTY_RING_SIZE.
Lemma rsize_pos : (0 < rsize)%nat.
Proof. unfold rsize, TTY_RING_SIZE. lia. Qed.

Record ring_inv (r : tty_ring) : Prop := {
  ri_data : length (data r) = rsize;
  ri_head : 0 ≤ head r < TTY_RING_SIZE;
  ri_tail : 0 ≤ tail r < TTY_RING_SIZE
}.

Definition qlen (r : tty_ring) : Z := (tail r - head r) mod TTY_RING_SIZE.
Definition queue (r : tty_ring) : list Z := window rsize (data r) (Z.to_nat (head r)) (Z.to_nat (qlen r)).

Lemma qlen_cases r : ring_inv r →
  qlen r = if head r <=? tail r then tail r - head r else tail r - head r + TTY_RING_SIZE.
Proof.
  intros [_ Hh Ht]. unfold qlen, TTY_RING_SIZE in *. zcases.
  - apply Z.mod_small. lia.
  - rewrite <-(Z.mod_add _ 1) by lia. rewrite Z.mod_small; lia.
Qed.

Lemma next_cases x : 0 ≤ x < TTY_RING_SIZE →
  (x + 1) mod TTY_RING_SIZE = if x =? TTY_RING_SIZE - 1 then 0 else x + 1.
Proof.
  intros Hx. unfold TTY_RING_SIZE in *. destruct (Z.eqb_spec x (65536 - 1)) as [->|]; [done|].
  apply Z.mod_small. lia.
Qed.

Lemma queue_length r : ring_inv r → Z.of_nat (length (queue r)) = qlen r.
Proof.
  intros Hr. unfold queue. rewrite window_length. rewrite qlen_cases by done. destruct Hr as [_ Hh Ht].
  unfold TTY_RING_SIZE in *. zcases; lia.
Qed.

(** The cell at the tail is the one behind the queue. *)
Lemma tail_position r : ring_inv r →
  ((Z.to_nat (head r) + Z.to_nat (qlen r)) `mod` rsize)%nat = Z.to_nat (tail r).
Proof.
  intros Hr. rewrite qlen_cases by done. destruct Hr as [_ Hh Ht]. unfold rsize, TTY_RING_SIZE in *. zcases.
  - rewrite Nat.mod_small; lia.
  - replace (Z.to_nat (head r) + Z.to_nat (tail r - head r + 65536))%nat with (Z.to_nat (tail r) + 1 * Z.to_nat 65536)%nat by lia.
    rewrite Nat.Div0.mod_add, Nat.mod_small; lia.
Qed.

Lemma push_spec r c : ring_inv r →
  ∃ r', tty_ring_push r c = Ret r' ∧ ring_inv r' ∧ queue r' = enqueue (queue r) c.
Proof.
  intros Hr. pose proof (qlen_cases r Hr) as Hq. pose proof (queue_length r Hr) as Hl.
  pose proof (tail_position r Hr) as Hpos.
  destruct Hr as [Hd Hh Ht]. unfold tty_ring_push.
  assert (Z.of_nat (length (data r)) = TTY_RING_SIZE) as Hdl by (rewrite Hd; unfold rsize, TTY_RING_SIZE; lia).
  rewrite store1_Ret, bind_ret by lia. eexists. split; [done|].
  set (d := <[Z.to_nat (tail r):=c]> (data r)).
  assert (window rsize d (Z.to_nat (head r)) (Z.to_nat (qlen r) + 1) = queue r ++ [c]) as Happ.
  { apply (window_append rsize rsize_pos _ _ _ _ [c]).
    - simpl. unfold rsize, TTY_RING_SIZE in *. zcases_in Hq; lia.
    - intros [|j] x; [|done]. intros [= <-]. rewrite Nat.add_0_r, Hpos. unfold d.
      apply list_lookup_insert_eq. lia.
    - intros i Hi. unfold d. apply list_lookup_insert_ne. rewrite <-Hpos. intros E.
      apply (window_inj rsize rsize_pos) in E; unfold rsize, TTY_RING_SIZE in *; zcases_in Hq; lia. }
  rewrite !next_cases by done.
  assert (ring_inv (TtyRing d (if (if tail r =? TTY_RING_SIZE - 1 then 0 else tail r + 1) =? head r
     then if head r =? TTY_RING_SIZE - 1 then 0 else head r + 1 else head r)
     (if tail r =? TTY_RING_SIZE - 1 then 0 else tail r + 1))) as Hinv'.
  { constructor; simpl; [unfold d; by rewrite length_insert|unfold TTY_RING_SIZE in *; zcases; lia..]. }
  split; [done|]. unfold queue. rewrite (qlen_cases _ Hinv'). cbn [data head tail].
  fold (queue r). unfold enqueue, keep_last. rewrite <-Happ, window_length.
  destruct (Z.eqb_spec (if tail r =? TTY_RING_SIZE - 1 then 0 else tail r + 1) (head r)) as [Efull|Hroom].
  - assert (qlen r = TTY_RING_SIZE - 1) as Eq by (unfold TTY_RING_SIZE in *; zcases_in Efull; zcases_in Hq; lia).
    replace (Z.to_nat (qlen r) + 1 - qcap)%nat with 1%nat by (unfold qcap; lia).
    rewrite <-(window_drop rsize rsize_pos) by lia. f_equal.
    + replace (Z.to_nat (head r) + 1)%nat with (Z.to_nat (head r + 1)) by lia.
      rewrite <-next_cases by done. unfold rsize, TTY_RING_SIZE. by rewrite Z2Nat.inj_mod by lia.
    + unfold TTY_RING_SIZE in *. zcases_in Efull; zcases; lia.
  - assert (Z.to_nat (qlen r) + 1 - qcap = 0)%nat as ->
      by (unfold qcap, TTY_RING_SIZE in *; zcases_in Hroom; zcases_in Hq; lia).
    rewrite drop_0. f_equal. unfold TTY_RING_SIZE in *. zcases_in Hroom; zcases_in Hq; zcases; lia.
Qed.

Lemma pop_empty r : ring_inv r → queue r = [] → tty_ring_pop r = Ret None.
Proof.
  intros Hr E. pose proof (queue_length r Hr) as Hl. rewrite E in Hl. rewrite qlen_cases in Hl by done.
  destruct Hr as [_ Hh Ht]. unfold tty_ring_pop, tty_ring_empty.
  destruct (Z.eqb_spec (head r) (tail r)) as [|Hne]; [done|].
  simpl in Hl. unfold TTY_RING_SIZE in *. zcases_in Hl; lia.
Qed.

Lemma empty_queue r : ring_inv r → tty_ring_empty r = true ↔ queue r = [].
Proof.
  intros Hr. pose proof (queue_length r Hr) as Hl. rewrite qlen_cases in Hl by done.
  destruct Hr as [_ Hh Ht]. unfold tty_ring_empty. rewrite Z.eqb_eq. unfold TTY_RING_SIZE in *.
  destruct (queue r); simpl in *; zcases_in Hl; (split; [intros; first [done|lia]|intros; first [done|lia]]).
Qed.

Lemma pop_spec r c q : ring_inv r → queue r = c :: q →
  ∃ r', tty_ring_pop r = Ret (Some (c, r')) ∧ ring_inv r' ∧ queue r' = q.
Proof.
  intros Hr E. pose proof (queue_length r Hr) as Hl. pose proof (qlen_cases r Hr) as Hq.
  assert (tty_ring_empty r = false) as Hne.
  { destruct (tty_ring_empty r) eqn:Ee; [|done]. apply (empty_queue r Hr) in Ee. congruence. }
  assert (tail r ≠ head r) as Hth by (unfold tty_ring_empty in Hne; lia).
  pose proof Hr as [Hd Hh Ht]. unfold tty_ring_pop. rewrite Hne.
  assert (data r !! Z.to_nat (head r) = Some c) as Hc.
  { pose proof (f_equal (lookup 0%nat) E) as E0. simpl in E0. unfold queue in E0.
    rewrite (window_lookup rsize) in E0 by (unfold TTY_RING_SIZE in *; zcases_in Hq; lia).
    rewrite Nat.add_0_r, Nat.mod_small in E0 by (unfold rsize, TTY_RING_SIZE in *; lia).
    destruct (lookup_lt_is_Some_2 (data r) (Z.to_nat (head r))) as [x Hx];
      [rewrite Hd; unfold rsize, TTY_RING_SIZE in *; lia|]. rewrite Hx in E0 |- *. exact E0. }
  rewrite (load1_Ret _ _ c), bind_ret by (done || lia). eexists. split; [done|].
  assert (ring_inv (TtyRing (data r) ((head r + 1) mod TTY_RING_SIZE) (tail r))) as Hr'.
  { constructor; [done|by apply Z.mod_pos_bound|done]. }
  split; [done|]. unfold queue. cbn [data head]. rewrite (qlen_cases _ Hr'). cbn [head tail].
  assert (drop 1 (queue r) = q) as <- by by rewrite E.
  unfold queue. rewrite <-(window_drop rsize rsize_pos) by (unfold TTY_RING_SIZE in *; zcases_in Hq; lia).
  f_equal.
  - replace (Z.to_nat (head r) + 1)%nat with (Z.to_nat (head r + 1)) by lia.
    unfold rsize, TTY_RING_SIZE in *. by rewrite Z2Nat.inj_mod by lia.
  - rewrite Hq, next_cases by done. unfold TTY_RING_SIZE in *. zcases; lia.
Qed.

(** ** The last character of a line *)

Lemma strip_last_snoc l b :
  strip_last (l ++ [b]) = if is_cont b then strip_last l else l.
Proof.
  unfold strip_last. rewrite reverse_app. simpl. destruct (is_cont b); [done|]. simpl. apply reverse_involutive.
Qed.

Lemma strip_last_length l : (length (strip_last l) ≤ length l)%nat.
Proof.
  induction l as [|b l IH] using rev_ind; [done|]. rewrite strip_last_snoc, length_app.
  destruct (is_cont b); simpl; lia.
Qed.

Lemma strip_last_prefix l : ∃ k, l = strip_last l ++ k.
Proof.
  induction l as [|b l [k IH]] using rev_ind; [by exists []|]. rewrite strip_last_snoc.
  destruct (is_cont b); [|eauto]. exists (k ++ [b]). by rewrite app_assoc, <-IH.
Qed.

Lemma load1_nat {A} (l : list A) i x : l !! i = Some x → load1 l (Z.of_nat i) = Ret x.
Proof. intros E. apply load1_Ret; [lia|]. by rewrite Nat2Z.id. Qed.

Lemma prev_start_loop_spec data i :
  (i < length data)%nat →
  prev_start_loop data i = Ret (Z.of_nat (length (strip_last (take (S i) data)))).
Proof.
  induction i as [|i IH]; intros Hi; cbn [prev_start_loop].
  - destruct data as [|b data]; [simpl in Hi; lia|]. rewrite firstn_cons, take_0.
    rewrite (strip_last_snoc [] b : strip_last [b] = _). by destruct (is_cont b).
  - destruct (lookup_lt_is_Some_2 data (S i)) as [b Hb]; [done|].
    rewrite (load1_nat _ _ b) by done. rewrite bind_ret.
    rewrite (take_S_r _ _ _ Hb), strip_last_snoc.
    destruct (is_cont b); [apply IH; lia|]. rewrite length_take. do 2 f_equal. lia.
Qed.

Lemma prev_char_start_spec data len :
  0 < len ≤ Z.of_nat (length data) →
  tty_utf8_prev_char_start data len len = Ret (Z.of_nat (length (strip_last (take (Z.to_nat len) data)))).
Proof.
  intros Hlen. unfold tty_utf8_prev_char_start.
  destruct (Z.leb_spec len 0); [lia|]. simpl. rewrite Z.ltb_irrefl, prev_start_loop_spec by lia.
  by replace (S (Z.to_nat (len - 1))) with (Z.to_nat len) by lia.
Qed.

Lemma char_width_spec data off len :
  0 ≤ off → 0 ≤ len → off + len ≤ Z.of_nat (length data) →
  tty_utf8_char_width data off len = Ret (char_width (take (Z.to_nat len) (drop (Z.to_nat off) data))).
Proof.
  intros Ho Hlen Hb. set (l := take (Z.to_nat len) (drop (Z.to_nat off) data)).
  assert (Z.of_nat (length l) = len) as Hl by (unfold l; rewrite length_take, length_drop; lia).
  assert (∀ i x, l !! i = Some x → load1 data (off + Z.of_nat i) = Ret x) as Hload.
  { intros i x Hx. pose proof (lookup_lt_Some _ _ _ Hx). apply load1_Ret; [lia|].
    unfold l in Hx. rewrite lookup_take_lt, lookup_drop in Hx by lia. rewrite <-Hx. f_equal. lia. }
  clearbody l. pose proof (Hload 0%nat) as H0. pose proof (Hload 1%nat) as H1.
  pose proof (Hload 2%nat) as H2. pose proof (Hload 3%nat) as H3. change (Z.of_nat 0) with 0 in H0.
  change (Z.of_nat 1) with 1 in H1. change (Z.of_nat 2) with 2 in H2. change (Z.of_nat 3) with 3 in H3.
  rewrite Z.add_0_r in H0. unfold tty_utf8_char_width, cont_at.
  destruct l as [|b0 l]; [simpl in Hl; subst len; done|].
  destruct (Z.leb_spec len 0); [simpl in Hl; lia|]. rewrite (H0 b0 eq_refl), bind_ret.
  unfold char_width. destruct (b0 <? 0x80); [done|]. unfold char_codepoint.
  set (e := Z.land b0 0xe0 =? 0xc0). set (f := Z.land b0 0xf0 =? 0xe0). set (g := Z.land b0 0xf8 =? 0xf0).
  destruct l as [|b1 l]; simpl in Hl.
  { destruct (Z.leb_spec 2 len), (Z.leb_spec 3 len), (Z.leb_spec 4 len); try lia.
    destruct e, f, g; reflexivity. }
  rewrite (H1 b1 eq_refl), !bind_ret. destruct (Z.leb_spec 2 len); [|lia].
  destruct l as [|b2 l]; simpl in Hl.
  { destruct (Z.leb_spec 3 len), (Z.leb_spec 4 len); try lia.
    cbn [lookup list_lookup]. destruct e, f, g, (is_cont b1); reflexivity. }
  rewrite (H2 b2 eq_refl), !bind_ret. destruct (Z.leb_spec 3 len); [|lia].
  destruct l as [|b3 l]; simpl in Hl.
  { destruct (Z.leb_spec 4 len); [lia|].
    cbn [lookup list_lookup]. destruct e, f, g, (is_cont b1), (is_cont b2); reflexivity. }
  rewrite (H3 b3 eq_refl), !bind_ret. destruct (Z.leb_spec 4 len); [|lia].
  cbn [lookup list_lookup]. destruct e, f, g, (is_cont b1), (is_cont b2), (is_cont b3); reflexivity.
Qed.

(** ** Simulation *)

Definition mode_of (t : tty) : mode := Mode (flags t) (has_master t) (foreground_pid t).
Definition line (t : tty) : list Z := take (Z.to_nat (canon_len t)) (canon_buf t).

Record tty_inv (t : tty) : Prop := {
  ti_slave : ring_inv (slave_rx t);
  ti_master : ring_inv (master_rx t);
  ti_buf : length (canon_buf t) = Z.to_nat TTY_CANON_SIZE;
  ti_len : 0 ≤ canon_len t ≤ TTY_CANON_SIZE - 1
}.

Definition abs (s : ts) : disc := Disc (line s.1) (queue (slave_rx s.1)) (queue (master_rx s.1)) s.2.

(** The fields that input and output leave alone. *)
Definition same_settings (t t' : tty) : Prop :=
  mode_of t' = mode_of t ∧ active t' = active t ∧ refcount t' = refcount t ∧
  slave_refs t' = slave_refs t ∧ cols t' = cols t ∧ rows t' = rows t.

(** [s] is a terminal with the settings of [t] that shows as [d]. *)
Definition sim (t : tty) (s : ts) (d : disc) : Prop := tty_inv s.1 ∧ same_settings t s.1 ∧ abs s = d.

Lemma sim_self t log : tty_inv t → sim t (t, log) (abs (t, log)).
Proof. done. Qed.

Lemma sim_mode t s d f : sim t s d → flag_on s.1 f = mode_on (mode_of t) f.
Proof. intros (_ & [Hm _] & _). unfold flag_on, mode_on. by rewrite <-Hm. Qed.

Lemma sim_emit t s d c : sim t s d → ∃ s', tty_emit_output c s = Ret s' ∧ sim t s' (aemit (mode_of t) d c).
Proof.
  intros ([H1 H2 H3 H4] & Hset & <-). destruct s as [u log]. simpl in *. unfold aemit.
  assert (m_master (mode_of t) = has_master u) as -> by (destruct Hset as [Hm _]; by rewrite <-Hm).
  destruct (has_master u).
  - destruct (push_spec (master_rx u) c H2) as (r & -> & Hr & Hq). eexists. split; [done|].
    split_and!; [by constructor|done|]. unfold abs. simpl. by rewrite Hq.
  - eexists. split; [done|]. by split_and!; [constructor|..].
Qed.

Lemma sim_push t s d c : sim t s d → ∃ s', tty_push_slave_byte c s = Ret s' ∧ sim t s' (apush d c).
Proof.
  intros ([H1 H2 H3 H4] & Hset & <-). destruct s as [u log]. simpl in *.
  destruct (push_spec (slave_rx u) c H1) as (r & -> & Hr & Hq). eexists. split; [done|].
  split_and!; [by constructor|done|]. unfold abs, apush. simpl. by rewrite Hq.
Qed.

Lemma sim_canon t s d buf len :
  sim t s d → length buf = Z.to_nat TTY_CANON_SIZE → 0 ≤ len ≤ TTY_CANON_SIZE - 1 →
  sim t (set_canon buf len s.1, s.2) (with_line (take (Z.to_nat len) buf) d).
Proof. intros ([H1 H2 H3 H4] & Hset & <-) Hb Hl. by split_and!; [constructor|..]. Qed.

(** A loop whose body is simulated step by step. *)
Lemma sim_foldM {A B} t (f : ts → A → outcome ts) (g : disc → B → disc) (l : list A) (k : list B) s d :
  Forall2 (fun a b => ∀ s d, sim t s d → ∃ s', f s a = Ret s' ∧ sim t s' (g d b)) l k →
  sim t s d → ∃ s', foldM f l s = Ret s' ∧ sim t s' (foldl g d k).
Proof.
  intros Hf. revert s d. induction Hf as [|a b l k Hab Hf IH]; intros s d Hs; [by exists s|].
  cbn [foldM foldl]. destruct (Hab s d Hs) as (s1 & -> & Hs1). rewrite bind_ret. by apply IH.
Qed.

Lemma sim_emit_all t s d cs : sim t s d →
  ∃ s', emit_all cs s = Ret s' ∧ sim t s' (foldl (aemit (mode_of t)) d cs).
Proof.
  apply sim_foldM. apply Forall2_same_length_lookup. split; [done|].
  intros i c c' Hc Hc' s0 d0 Hs. simplify_eq. by apply sim_emit.
Qed.

(** The echo of [cs], when the mode has it. *)
Lemma sim_echo t s d cs :
  sim t s d →
  ∃ s', (if mode_on (mode_of t) TTY_FLAG_ECHO then emit_all cs s else Ret s) = Ret s' ∧
        sim t s' (aecho (mode_of t) cs d).
Proof.
  intros Hs. unfold aecho. destruct (mode_on _ _); [by apply sim_emit_all|eauto].
Qed.

Lemma emit_one c s : tty_emit_output c s = emit_all [c] s.
Proof. unfold emit_all. simpl. by destruct (tty_emit_output c s). Qed.

Lemma emit_all_app l k s : emit_all (l ++ k) s = (emit_all l s ≫= emit_all k).
Proof. apply foldM_app. Qed.

Lemma erase_spec w s : 0 < w →
  tty_echo_erase w s = emit_all (mjoin (replicate (Z.to_nat w) [KEY_BACK; 0x20; KEY_BACK])) s.
Proof.
  intros Hw. unfold tty_echo_erase. destruct (Z.leb_spec w 0); [lia|]. clear Hw H.
  generalize 0%nat. revert s. induction (Z.to_nat w) as [|n IH]; intros s i; [done|].
  cbn [seq foldM]. change (mjoin (replicate (S n) [KEY_BACK; 0x20; KEY_BACK])) with
    ([KEY_BACK; 0x20; KEY_BACK] ++ mjoin (replicate n [KEY_BACK; 0x20; KEY_BACK])).
  rewrite emit_all_app. destruct (emit_all [KEY_BACK; 0x20; KEY_BACK] s) as [s'| |]; [|done..].
  rewrite !bind_ret. apply IH.
Qed.

Lemma char_width_pos l : 0 < char_width l.
Proof. destruct l as [|b l]; simpl; [lia|]. repeat case_match; lia. Qed.

Lemma sim_line t u log d : sim t (u, log) d →
  d_line d = line u ∧ Z.of_nat (length (line u)) = canon_len u ∧
  canon_len u ≤ Z.of_nat (length (canon_buf u)).
Proof.
  intros ([H1 H2 H3 H4] & _ & <-). simpl in *. unfold line, TTY_CANON_SIZE in *.
  rewrite length_take. split_and!; [done|lia..].
Qed.

(** Ctrl-C. *)
Lemma sim_interrupt t u log d :
  sim t (u, log) d →
  ∃ s', (s ← if mode_on (mode_of t) TTY_FLAG_ECHO then tty_echo_interrupt (set_canon (canon_buf u) 0 u, log)
             else Ret (set_canon (canon_buf u) 0 u, log);
         if 0 <? foreground_pid u then Ret (tty_interrupt_foreground s)
         else if mode_on (mode_of t) TTY_FLAG_ICANON then tty_push_slave_byte 0 s else Ret s) = Ret s' ∧
    sim t s' (let d := aecho (mode_of t) [0x5e; 0x43; 0x0a] (with_line [] d) in
      if 0 <? m_pid (mode_of t) then Disc (d_line d) (d_in d) (d_out d) (d_log d ++ [SysKill (m_pid (mode_of t)) SIGINT])
      else if mode_on (mode_of t) TTY_FLAG_ICANON then apush d 0 else d).
Proof.
  intros Hs. pose proof Hs as ([_ _ Hb _] & [Hm _] & _). simpl in Hb.
  pose proof (sim_canon t (u, log) d (canon_buf u) 0 Hs Hb ltac:(unfold TTY_CANON_SIZE; lia)) as Hs1.
  cbn [fst snd] in Hs1. change (take (Z.to_nat 0) (canon_buf u)) with (@nil Z) in Hs1.
  destruct (sim_echo t _ _ [0x5e; 0x43; 0x0a] Hs1) as (s1 & Hrun & Hs2).
  unfold tty_echo_interrupt. rewrite Hrun, bind_ret. cbv zeta.
  assert (foreground_pid u = m_pid (mode_of t)) as -> by by rewrite <-Hm.
  destruct (Z.ltb_spec 0 (m_pid (mode_of t))) as [Hpid|]; [|destruct (mode_on _ TTY_FLAG_ICANON);
    [by apply sim_push|eauto]].
  eexists. split; [done|]. destruct s1 as [u1 log1]. destruct Hs2 as (Hi & [Hm1 Hset] & Ha).
  assert (foreground_pid u1 = m_pid (mode_of t)) as Ep by by rewrite <-Hm1.
  unfold tty_interrupt_foreground. rewrite Ep. destruct (Z.leb_spec (m_pid (mode_of t)) 0); [lia|].
  split_and!; [done|done|]. rewrite <-Ha. done.
Qed.

(** Backspace. *)
Lemma sim_erase t u log d :
  sim t (u, log) d → 0 < canon_len u →
  ∃ s', (prev_len ← tty_utf8_prev_char_start (canon_buf u) (canon_len u) (canon_len u);
         width ← tty_utf8_char_width (canon_buf u) prev_len (canon_len u - prev_len);
         if mode_on (mode_of t) TTY_FLAG_ECHO then tty_echo_erase width (set_canon (canon_buf u) prev_len u, log)
         else Ret (set_canon (canon_buf u) prev_len u, log)) = Ret s' ∧
    sim t s' (let l := strip_last (d_line d) in
        let w := char_width (drop (length l) (d_line d)) in
        aecho (mode_of t) (mjoin (replicate (Z.to_nat w) [KEY_BACK; 0x20; KEY_BACK])) (with_line l d)).
Proof.
  intros Hs Hpos. destruct (sim_line _ _ _ _ Hs) as (El & Hlen & Hle). cbv zeta. rewrite El.
  pose proof Hs as ([_ _ Hb Hl] & _ & _). simpl in Hb, Hl.
  rewrite prev_char_start_spec, bind_ret by lia. fold (line u).
  pose proof (strip_last_length (line u)) as Hsl.
  rewrite char_width_spec, bind_ret by lia.
  assert (take (Z.to_nat (canon_len u - Z.of_nat (length (strip_last (line u)))))
    (drop (Z.to_nat (Z.of_nat (length (strip_last (line u))))) (canon_buf u))
    = drop (length (strip_last (line u))) (line u)) as ->.
  { unfold line at 4. rewrite skipn_firstn_comm, Nat2Z.id. f_equal. lia. }
  pose proof (sim_canon t (u, log) d (canon_buf u) (Z.of_nat (length (strip_last (line u)))) Hs Hb) as Hs1.
  cbn [fst snd] in Hs1. rewrite Nat2Z.id in Hs1.
  assert (take (length (strip_last (line u))) (canon_buf u) = strip_last (line u)) as Et.
  { destruct (strip_last_prefix (line u)) as [k Ek].
    transitivity (take (length (strip_last (line u))) (line u)).
    - unfold line at 3. rewrite take_take. f_equal. lia.
    - rewrite Ek at 2. by rewrite take_app_length. }
  rewrite Et in Hs1. rewrite erase_spec by apply char_width_pos. apply sim_echo, Hs1. lia.
Qed.

(** Enter. *)
Lemma sim_enter t u log d :
  sim t (u, log) d →
  ∃ s', (s ← foldM (fun s i => b ← load1 (canon_buf u) (Z.of_nat i); tty_push_slave_byte b s)
              (seq 0 (Z.to_nat (canon_len u))) (u, log);
         s ← tty_push_slave_byte 0x0a s;
         s ← tty_push_slave_byte 0 s;
         let s := (set_canon (canon_buf u) 0 s.1, s.2) in
         if mode_on (mode_of t) TTY_FLAG_ECHO && mode_on (mode_of t) TTY_FLAG_ECHONL
         then tty_emit_output 0x0a s else Ret s) = Ret s' ∧
    sim t s' (let d := with_line [] (foldl apush d (d_line d ++ [0x0a; 0])) in
              if mode_on (mode_of t) TTY_FLAG_ECHONL then aecho (mode_of t) [0x0a] d else d).
Proof.
  intros Hs. destruct (sim_line _ _ _ _ Hs) as (El & Hlen & Hle). rewrite El, foldl_app. cbn [foldl].
  pose proof Hs as ([_ _ Hb _] & _ & _). simpl in Hb.
  edestruct (sim_foldM t (fun s i => b ← load1 (canon_buf u) (Z.of_nat i); tty_push_slave_byte b s) apush
    (seq 0 (Z.to_nat (canon_len u))) (line u)) as (s1 & -> & Hs1); [|exact Hs|].
  { apply Forall2_same_length_lookup. rewrite length_seq. split; [lia|].
    intros i j b Hi Hb' s0 d0 Hs0. apply lookup_seq in Hi as [-> Hi]. unfold line in Hb'.
    rewrite lookup_take_lt in Hb' by lia. rewrite (load1_nat _ _ b) by done. rewrite bind_ret. by apply sim_push. }
  rewrite bind_ret. destruct (sim_push t _ _ 0x0a Hs1) as (s2 & -> & Hs2). rewrite bind_ret.
  destruct (sim_push t _ _ 0 Hs2) as (s3 & -> & Hs3). rewrite bind_ret. cbv zeta.
  pose proof (sim_canon t s3 _ (canon_buf u) 0 Hs3 Hb ltac:(unfold TTY_CANON_SIZE; lia)) as Hs4.
  change (take (Z.to_nat 0) (canon_buf u)) with (@nil Z) in Hs4. rewrite emit_one.
  destruct (mode_on _ TTY_FLAG_ECHONL); [rewrite andb_true_r; by apply sim_echo|].
  rewrite andb_false_r. eauto.
Qed.

(** Any character. *)
Lemma sim_receive t s d c :
  sim t s d → ∃ s', tty_receive_char c s = Ret s' ∧ sim t s' (areceive (mode_of t) c d).
Proof.
  destruct s as [u log]. intros Hs. unfold tty_receive_char, areceive.
  pose proof (fun f => sim_mode _ _ _ f Hs) as Hf. cbn [fst] in Hf. rewrite !Hf.
  destruct (sim_line _ _ _ _ Hs) as (El & Hlen & Hle). pose proof Hs as ([_ _ Hb Hl] & _ & _). simpl in Hb, Hl.
  destruct (mode_on (mode_of t) TTY_FLAG_ISIG && (c =? 3)); [by apply sim_interrupt|].
  destruct (negb (mode_on (mode_of t) TTY_FLAG_ICANON)).
  { destruct (sim_push t _ _ c Hs) as (s1 & -> & Hs1). rewrite bind_ret, emit_one. by apply sim_echo. }
  destruct ((c =? KEY_BACK) || (c =? 127)).
  { destruct (Z.ltb_spec 0 (canon_len u)) as [Hpos|Hz].
    - pose proof (sim_erase t u log d Hs Hpos) as He. rewrite El in He |- *.
      destruct (line u) eqn:E; [simpl in Hlen; lia|exact He].
    - rewrite El. destruct (line u); [eauto|simpl in Hlen; lia]. }
  destruct ((c =? KEY_ENTER) || (c =? 10)); [by apply sim_enter|].
  destruct (c =? 0); [eauto|]. rewrite El, Hlen.
  destruct (Z.ltb_spec (canon_len u) (TTY_CANON_SIZE - 1)) as [Hlt|]; [|eauto].
  unfold TTY_CANON_SIZE in *. rewrite store1_Ret, bind_ret, emit_one by lia.
  pose proof (sim_canon t (u, log) d (<[Z.to_nat (canon_len u):=c]> (canon_buf u)) (canon_len u + 1) Hs) as Hs1.
  rewrite length_insert in Hs1. cbn [fst snd] in Hs1.
  assert (take (Z.to_nat (canon_len u + 1)) (<[Z.to_nat (canon_len u):=c]> (canon_buf u)) = line u ++ [c]) as Et.
  { replace (Z.to_nat (canon_len u + 1)) with (S (Z.to_nat (canon_len u))) by lia.
    rewrite (take_S_r _ _ c) by (apply list_lookup_insert_eq; lia). rewrite take_insert_ge by lia. done. }
  rewrite Et in Hs1. apply sim_echo, Hs1; unfold TTY_CANON_SIZE; [done|lia].
Qed.

Lemma sim_master_write t s d buf :
  sim t s d → ∃ s', tty_master_write buf s = Ret (Z.of_nat (length buf), s') ∧
    sim t s' (foldl (fun d c => areceive (mode_of t) c d) d buf).
Proof.
  intros Hs. unfold tty_master_write.
  edestruct (sim_foldM t (fun s c => tty_receive_char c s) (fun d c => areceive (mode_of t) c d) buf buf)
    as (s' & -> & Hs'); [|exact Hs|eauto].
  apply Forall2_same_length_lookup. split; [done|]. intros i c c' Hc Hc' s0 d0 Hs0. simplify_eq.
  by apply sim_receive.
Qed.
