(* ===== verification/TtyProps.v ===== *)
(** * Terminals: theorems

    The operations of [tty.c] on rings and fixed buffers refine the line
    discipline of [TtySpec]; typed lines reach the reader, erased characters do
    not, and what a program writes reaches the master in order. *)

From S2P Require Import Prelude Ring Pipe Tty TtySpec.

(** ** Reading *)

(** A canonical read ends after the first NUL. *)
Fixpoint upto_nul (l : list Z) : list Z :=
  match l with
  | [] => []
  | c :: r => if c =? 0 then [c] else c :: upto_nul r
  end.

Definition read_chunk (canon : bool) (count : nat) (q : list Z) : list Z :=
  if canon then upto_nul (take count q) else take count q.

Lemma slave_read_loop_spec n canon r :
  ring_inv r → ∃ r', slave_read_loop n canon r = Ret (read_chunk canon n (queue r), r') ∧ ring_inv r' ∧
    queue r' = drop (length (read_chunk canon n (queue r))) (queue r).
Proof.
  revert r. induction n as [|n IH]; intros r Hr; cbn [slave_read_loop].
  - exists r. by destruct canon.
  - destruct (queue r) as [|c q] eqn:E.
    { rewrite pop_empty by done. exists r. rewrite E. by destruct canon. }
    destruct (pop_spec r c q Hr E) as (r1 & -> & Hr1 & Eq). rewrite bind_ret. unfold read_chunk.
    destruct (IH r1 Hr1) as (r' & Hrun & Hr' & Eq'). unfold read_chunk in Hrun, Eq'.
    destruct canon; simpl in *; [destruct (c =? 0); simpl; [by exists r1; rewrite drop_0|]|];
      rewrite Hrun, bind_ret, Eq in *; exists r'; by rewrite Eq'.
Qed.

Lemma master_read_loop_spec n r :
  ring_inv r → ∃ r', master_read_loop n r = Ret (take n (queue r), r') ∧ ring_inv r' ∧
    queue r' = drop n (queue r).
Proof.
  revert r. induction n as [|n IH]; intros r Hr; cbn [master_read_loop]; [by exists r|].
  destruct (queue r) as [|c q] eqn:E.
  { rewrite pop_empty by done. exists r. by rewrite E. }
  destruct (pop_spec r c q Hr E) as (r1 & -> & Hr1 & Eq). rewrite bind_ret.
  destruct (IH r1 Hr1) as (r' & -> & Hr' & Eq'). rewrite bind_ret, Eq in *. by exists r'.
Qed.

Lemma slave_read_data t woken count block :
  tty_inv t → 0 < count → queue (slave_rx t) ≠ [] →
  let l := read_chunk (flag_on t TTY_FLAG_ICANON) (Z.to_nat count) (queue (slave_rx t)) in
  ∃ t', tty_slave_read woken count block t = Ret (RdDone (Z.of_nat (length l)) l, t') ∧ tty_inv t' ∧
    queue (slave_rx t') = drop (length l) (queue (slave_rx t)).
Proof.
  intros [H1 H2 H3 H4] Hc Hne. unfold tty_slave_read. destruct (Z.eqb_spec count 0); [lia|].
  assert (tty_ring_empty (slave_rx t) = false) as ->.
  { destruct (tty_ring_empty (slave_rx t)) eqn:Ee; [|done]. by apply (empty_queue _ H1) in Ee. }
  destruct (slave_read_loop_spec (Z.to_nat count) (flag_on t TTY_FLAG_ICANON) (slave_rx t) H1)
    as (r' & Hrun & Hr' & Hq).
  simpl. rewrite Hrun, bind_ret. eexists. split_and!; [done|by constructor|done].
Qed.

(** ** Typing a line *)

(** A byte that a canonical terminal only stores: not NUL, Ctrl-C, erase or end
    of line. *)
Definition plain (c : Z) : Prop :=
  c ≠ 0 ∧ c ≠ 3 ∧ c ≠ KEY_BACK ∧ c ≠ 0x7f ∧ c ≠ KEY_ENTER ∧ c ≠ 0x0a.

#[export] Instance plain_dec c : Decision (plain c).
Proof. unfold plain. apply _. Defined.

Lemma aecho_line m cs d : d_line (aecho m cs d) = d_line d ∧ d_in (aecho m cs d) = d_in d.
Proof.
  unfold aecho. destruct (mode_on m TTY_FLAG_ECHO); [|done].
  revert d. induction cs as [|c cs IH]; intros d; [done|]. cbn [foldl].
  destruct (IH (aemit m d c)) as [-> ->]. unfold aemit. by destruct (m_master m).
Qed.

Definition type (m : mode) (d : disc) (cs : list Z) : disc := foldl (fun d c => areceive m c d) d cs.

Lemma receive_plain m c d :
  mode_on m TTY_FLAG_ICANON = true → plain c → Z.of_nat (length (d_line d)) < TTY_CANON_SIZE - 1 →
  areceive m c d = aecho m [c] (with_line (d_line d ++ [c]) d).
Proof.
  intros Hc (H0 & H3 & H8 & H7f & Hcr & Hnl) Hlen. unfold areceive.
  destruct (Z.eqb_spec c 3); [done|]. rewrite andb_false_r, Hc. cbn [negb].
  destruct (Z.eqb_spec c KEY_BACK), (Z.eqb_spec c 127), (Z.eqb_spec c KEY_ENTER), (Z.eqb_spec c 10),
    (Z.eqb_spec c 0); try done. cbn [orb].
  by destruct (Z.ltb_spec (Z.of_nat (length (d_line d))) (TTY_CANON_SIZE - 1)); [|lia].
Qed.

Lemma type_plain m cs d :
  mode_on m TTY_FLAG_ICANON = true → Forall plain cs →
  Z.of_nat (length (d_line d) + length cs) ≤ TTY_CANON_SIZE - 1 →
  d_line (type m d cs) = d_line d ++ cs ∧ d_in (type m d cs) = d_in d.
Proof.
  intros Hc Hcs. revert d. induction Hcs as [|c cs Hp Hcs IH]; intros d Hlen; [by rewrite app_nil_r|].
  cbn [length] in Hlen. unfold type. cbn [foldl]. rewrite receive_plain by (done || lia).
  destruct (aecho_line m [c] (with_line (d_line d ++ [c]) d)) as [El Ei].
  fold (type m (aecho m [c] (with_line (d_line d ++ [c]) d)) cs).
  destruct (IH (aecho m [c] (with_line (d_line d ++ [c]) d))) as [-> ->].
  - rewrite El. cbn [with_line d_line]. rewrite length_app. cbn [length]. lia.
  - rewrite El, Ei. cbn [with_line d_line d_in]. by rewrite <-app_assoc.
Qed.

Lemma enqueue_room q c : Z.of_nat (length q) < TTY_RING_SIZE - 1 → enqueue q c = q ++ [c].
Proof.
  intros Hl. unfold enqueue, keep_last. rewrite length_app. cbn [length].
  replace (length q + 1 - qcap)%nat with 0%nat by (unfold qcap; lia). by rewrite drop_0.
Qed.

Lemma apush_all l d : Z.of_nat (length (d_in d) + length l) ≤ TTY_RING_SIZE - 1 →
  d_in (foldl apush d l) = d_in d ++ l.
Proof.
  revert d. induction l as [|c l IH]; intros d Hl; cbn [foldl length] in *; [by rewrite app_nil_r|].
  rewrite IH; unfold apush; cbn [d_in]; rewrite enqueue_room by lia; [by rewrite <-app_assoc|].
  rewrite length_app. cbn [length]. lia.
Qed.

Lemma receive_enter m d :
  mode_on m TTY_FLAG_ICANON = true →
  Z.of_nat (length (d_in d) + length (d_line d)) + 2 ≤ TTY_RING_SIZE - 1 →
  d_in (areceive m KEY_ENTER d) = d_in d ++ d_line d ++ [0x0a; 0] ∧ d_line (areceive m KEY_ENTER d) = [].
Proof.
  intros Hc Hl. unfold areceive. rewrite andb_false_r, Hc. cbn [negb orb].
  change ((KEY_ENTER =? KEY_BACK) || (KEY_ENTER =? 127)) with false.
  change ((KEY_ENTER =? KEY_ENTER) || (KEY_ENTER =? 10)) with true. cbv iota zeta.
  set (d' := with_line [] (foldl apush d (d_line d ++ [10; 0]))).
  assert (d_in d' = d_in d ++ d_line d ++ [10; 0]) as Hin
    by (unfold d'; cbn [with_line d_in]; apply apush_all; rewrite length_app; cbn [length]; lia).
  destruct (mode_on m TTY_FLAG_ECHONL); [|done].
  destruct (aecho_line m [10] d') as [-> ->]. done.
Qed.

Lemma upto_nul_line l : Forall plain l → upto_nul (l ++ [0x0a; 0]) = l ++ [0x0a; 0].
Proof.
  induction 1 as [|c l Hp Hl IH]; [done|]. cbn [app upto_nul]. destruct (Z.eqb_spec c 0) as [->|];
    [by destruct Hp|]. by rewrite IH.
Qed.

Lemma zero_ring_inv : ring_inv zero_ring ∧ queue zero_ring = [].
Proof.
  assert (ring_inv zero_ring) as Hr.
  { constructor; [unfold zero_ring, rsize; cbn [data]; apply length_replicate|
      unfold TTY_RING_SIZE; cbn [head zero_ring]; lia|unfold TTY_RING_SIZE; cbn [tail zero_ring]; lia]. }
  split; [done|]. by apply (empty_queue zero_ring Hr).
Qed.

Lemma reset_inv c r master : tty_inv (tty_reset c r master) ∧ line (tty_reset c r master) = [] ∧
  queue (slave_rx (tty_reset c r master)) = [] ∧ queue (master_rx (tty_reset c r master)) = [].
Proof.
  destruct zero_ring_inv as [Hr Hq]. split_and!; [|done..].
  constructor; [done|done|apply length_replicate|unfold TTY_CANON_SIZE; cbn [tty_reset canon_len]; lia].
Qed.

(** A character of two to four bytes or one plain byte: one byte that starts a
    character and continuation bytes. *)
Definition one_char (bs : list Z) : Prop :=
  ∃ b r, bs = b :: r ∧ is_cont b = false ∧ Forall (fun c => is_cont c = true) r.

Lemma strip_last_char l bs : one_char bs → strip_last (l ++ bs) = l.
Proof.
  intros (b & r & -> & Hb & Hr). induction r as [|c r IH] using rev_ind.
  - rewrite strip_last_snoc, Hb. done.
  - apply Forall_app in Hr as [Hr [Hc _]%Forall_cons].
    rewrite app_comm_cons, app_assoc, strip_last_snoc, Hc. by apply IH.
Qed.

Lemma receive_erase m d :
  mode_on m TTY_FLAG_ICANON = true → d_line d ≠ [] →
  d_line (areceive m 0x7f d) = strip_last (d_line d) ∧ d_in (areceive m 0x7f d) = d_in d.
Proof.
  intros Hc Hne. unfold areceive. rewrite andb_false_r, Hc. cbn [negb].
  change ((127 =? KEY_BACK) || (127 =? 127)) with true. cbv iota zeta.
  destruct (d_line d) as [|b l] eqn:E; [done|].
  by rewrite !(proj1 (aecho_line _ _ _)), !(proj2 (aecho_line _ _ _)).
Qed.

(** ** Theorems *)

(** C18: [tty_receive_char] on the rings and the fixed line buffer does what the
    line discipline says, in every mode and for every byte, and keeps every index
    inside its buffer. *)
Theorem tty_receive_char_refines t log c :
  tty_inv t → ∃ t' log', tty_receive_char c (t, log) = Ret (t', log') ∧ tty_inv t' ∧ same_settings t t' ∧
    abs (t', log') = areceive (mode_of t) c (abs (t, log)).
Proof.
  intros Ht. destruct (sim_receive t (t, log) _ c (sim_self t log Ht)) as ([t' log'] & Hrun & Hi & Hs & Ha).
  by exists t', log'.
Qed.

Lemma tty_receive_char_refines_witness :
  ∃ t' log', tty_receive_char 0x61 (tty_reset 80 25 true, []) = Ret (t', log') ∧ tty_inv t'.
Proof.
  destruct (tty_receive_char_refines (tty_reset 80 25 true) [] 0x61) as (t' & log' & Hrun & Hi & _);
    [apply reset_inv|]. exists t', log'. split; [exact Hrun|exact Hi].
Defined.

(** C19: a line typed at the master of a terminal in canonical mode reaches a
    program that reads the slave, with a newline and a NUL, in one read. *)
Theorem tty_typed_line_is_read t log keys count :
  tty_inv t → flag_on t TTY_FLAG_ICANON = true → queue (slave_rx t) = [] → line t = [] →
  Forall plain keys → Z.of_nat (length keys) ≤ TTY_CANON_SIZE - 1 → Z.of_nat (length keys) + 2 ≤ count →
  ∃ t1 log1 t2, tty_master_write (keys ++ [KEY_ENTER]) (t, log) = Ret (Z.of_nat (length keys) + 1, (t1, log1)) ∧
    tty_slave_read None count true t1
      = Ret (RdDone (Z.of_nat (length keys) + 2) (keys ++ [0x0a; 0]), t2) ∧
    queue (slave_rx t2) = [] ∧ line t1 = [].
Proof.
  intros Ht Hc Hq Hl Hk Hlen Hcount.
  destruct (sim_master_write t (t, log) _ (keys ++ [KEY_ENTER]) (sim_self t log Ht)) as ([t1 log1] & Hw & Hs).
  fold (type (mode_of t) (abs (t, log)) (keys ++ [KEY_ENTER])) in Hs.
  set (d := abs (t, log)) in *. assert (d_line d = [] ∧ d_in d = []) as [Ed Ei] by done.
  assert (mode_on (mode_of t) TTY_FLAG_ICANON = true) as Hcm by exact Hc.
  destruct (type_plain (mode_of t) keys d Hcm Hk) as [El Ein]; [rewrite Ed; simpl; lia|].
  rewrite Ed in El. rewrite Ei in Ein. simpl in El.
  assert (type (mode_of t) d (keys ++ [KEY_ENTER]) = areceive (mode_of t) KEY_ENTER (type (mode_of t) d keys)) as Et
    by (unfold type; by rewrite foldl_app).
  destruct (receive_enter (mode_of t) (type (mode_of t) d keys) Hcm) as [Hin Hline].
  { rewrite El, Ein. unfold TTY_RING_SIZE, TTY_CANON_SIZE in *. simpl. lia. }
  rewrite <-Et, El, Ein in Hin. rewrite <-Et in Hline. simpl in Hin. destruct Hs as (Hi1 & Hset & Ha).
  rewrite <-Ha in Hin, Hline. cbn [abs d_in d_line fst] in Hin, Hline.
  destruct (slave_read_data t1 None count true Hi1) as (t2 & Hr & _ & Hq2); [lia|rewrite Hin; by destruct keys|].
  assert (flag_on t1 TTY_FLAG_ICANON = true) as Hc1.
  { destruct Hset as [Hm _]. injection Hm as Hf _ _. cbn [fst] in Hf. unfold flag_on in *. by rewrite Hf. }
  rewrite Hin, Hc1 in Hr, Hq2. unfold read_chunk in Hr, Hq2.
  rewrite take_ge, upto_nul_line in Hr, Hq2 by (done || rewrite length_app; simpl; lia).
  exists t1, log1, t2. split_and!.
  - rewrite Hw, length_app. simpl. do 2 f_equal. lia.
  - rewrite Hr, length_app. simpl. do 3 f_equal. lia.
  - rewrite Hq2. by apply drop_ge.
  - done.
Qed.

Lemma tty_typed_line_is_read_witness :
  ∃ t1 log1 t2, tty_master_write ([0x6c; 0x73] ++ [KEY_ENTER]) (tty_reset 80 25 true, []) = Ret (3, (t1, log1)) ∧
    tty_slave_read None 100 true t1 = Ret (RdDone 4 [0x6c; 0x73; 0x0a; 0], t2).
Proof.
  destruct (reset_inv 80 25 true) as (Hi & Hl & Hq & _).
  destruct (tty_typed_line_is_read (tty_reset 80 25 true) [] [0x6c; 0x73] 100) as (t1 & log1 & t2 & H1 & H2 & _);
    [exact Hi|reflexivity|exact Hq|exact Hl|repeat constructor; discriminate|simpl; unfold TTY_CANON_SIZE; lia|simpl; lia|].
  exists t1, log1, t2. split; [exact H1|exact H2].
Defined.

(** C20: typing a character of one or more bytes and then the erase key leaves the
    line and the input of the program as they were: the erase key removes whole
    UTF-8 characters. *)
Theorem tty_erase_undoes_char t log bs :
  tty_inv t → flag_on t TTY_FLAG_ICANON = true → Forall plain bs → one_char bs →
  Z.of_nat (length (line t) + length bs) ≤ TTY_CANON_SIZE - 1 →
  ∃ t1 log1, tty_master_write (bs ++ [0x7f]) (t, log) = Ret (Z.of_nat (length bs) + 1, (t1, log1)) ∧
    line t1 = line t ∧ queue (slave_rx t1) = queue (slave_rx t).
Proof.
  intros Ht Hc Hp Hone Hlen.
  destruct (sim_master_write t (t, log) _ (bs ++ [0x7f]) (sim_self t log Ht)) as ([t1 log1] & Hw & Hs).
  set (d := abs (t, log)) in *. assert (mode_on (mode_of t) TTY_FLAG_ICANON = true) as Hcm by exact Hc.
  destruct (type_plain (mode_of t) bs d Hcm Hp Hlen) as [El Ein].
  destruct (receive_erase (mode_of t) (type (mode_of t) d bs) Hcm) as [Hl' Hin'].
  { rewrite El. destruct Hone as (b & r & -> & _). by destruct (d_line d). }
  destruct Hs as (_ & _ & Ha). rewrite foldl_app in Ha. cbn [foldl] in Ha. fold (type (mode_of t) d bs) in Ha.
  rewrite <-Ha, El, strip_last_char in Hl' by done. rewrite <-Ha, Ein in Hin'.
  exists t1, log1. split; [rewrite Hw, length_app; simpl; do 2 f_equal; lia|]. done.
Qed.

Lemma tty_erase_undoes_char_witness :
  ∃ t1 log1, tty_master_write ([0xe3; 0x81; 0x82] ++ [0x7f]) (tty_reset 80 25 true, []) = Ret (4, (t1, log1)) ∧
    line t1 = [].
Proof.
  destruct (reset_inv 80 25 true) as (Hi & Hl & _).
  destruct (tty_erase_undoes_char (tty_reset 80 25 true) [] [0xe3; 0x81; 0x82]) as (t1 & log1 & H1 & H2 & _);
    [exact Hi|reflexivity|repeat constructor; discriminate|exists 0xe3, [0x81; 0x82]; repeat constructor|
     rewrite Hl; simpl; unfold TTY_CANON_SIZE; lia|].
  exists t1, log1. split; [exact H1|]. rewrite H2. exact Hl.
Defined.

(** A ring is a queue that keeps its newest [TTY_RING_SIZE - 1] bytes: a push
    on a full ring drops the oldest byte and no other. *)
Theorem tty_ring_push_bounded r c :
  ring_inv r → ∃ r', tty_ring_push r c = Ret r' ∧ ring_inv r' ∧
    queue r' = if decide (Z.of_nat (length (queue r)) = TTY_RING_SIZE - 1)
               then List.tl (queue r) ++ [c] else queue r ++ [c].
Proof.
  intros Hr. destruct (push_spec r c Hr) as (r' & Hrun & Hr' & Hq). exists r'. split_and!; [done..|].
  rewrite Hq. pose proof (queue_length r Hr) as Hl. rewrite (qlen_cases r Hr) in Hl.
  case_decide as Hfull.
  - unfold enqueue, keep_last. rewrite length_app. cbn [length].
    replace (length (queue r) + 1 - qcap)%nat with 1%nat by (unfold qcap; lia).
    destruct (queue r); [simpl in Hfull; unfold TTY_RING_SIZE in Hfull; lia|done].
  - apply enqueue_room. destruct Hr as [_ Hh Ht]. unfold TTY_RING_SIZE in *. zcases_in Hl; lia.
Qed.

Lemma tty_ring_push_bounded_witness :
  ∃ r', tty_ring_push zero_ring 65 = Ret r' ∧ queue r' = [65].
Proof.
  destruct zero_ring_inv as [Hr Hq].
  destruct (tty_ring_push_bounded zero_ring 65 Hr) as (r' & Hrun & _ & Hq'). exists r'. split; [exact Hrun|].
  rewrite Hq', Hq. reflexivity.
Defined.

(** Setting the terminal attributes and reading them back gives the four
    flags that the kernel knows, and setting them discards the line being edited. *)
Theorem termios_roundtrip t c_lflag :
  0 ≤ c_lflag → tty_get_termios (tty_set_termios c_lflag t) = Z.land c_lflag 0x0f ∧
  line (tty_set_termios c_lflag t) = [].
Proof.
  intros Hl. split; [|done]. unfold tty_get_termios, flag_on. cbn [tty_set_termios set_canon set_flags flags].
  unfold tty_termios_flags, ICANON, ECHO, ISIG, ECHONL, TTY_FLAG_ICANON, TTY_FLAG_ECHO, TTY_FLAG_ISIG, TTY_FLAG_ECHONL.
  set (a := Z.land c_lflag 15).
  assert (∀ m, Z.land m 15 = m → Z.land c_lflag m = Z.land a m) as Hm.
  { intros m Em. unfold a. by rewrite <-Z.land_assoc, (Z.land_comm 15 m), Em. }
  rewrite !Hm by done. assert (0 ≤ a < 16) as Ha.
  { unfold a. change 15 with (Z.ones 4). rewrite Z.land_ones by lia. by apply Z.mod_pos_bound. }
  clearbody a. clear Hm Hl.
  assert (Forall (fun a => (let F := (let fl := 0 in
    let fl := if negb (Z.land a 1 =? 0) then Z.lor fl 1 else fl in
    let fl := if negb (Z.land a 2 =? 0) then Z.lor fl 2 else fl in
    let fl := if negb (Z.land a 4 =? 0) then Z.lor fl 4 else fl in
    if negb (Z.land a 8 =? 0) then Z.lor fl 8 else fl) in
    let c := 0 in let c := if negb (Z.land F 1 =? 0) then Z.lor c 1 else c in
    let c := if negb (Z.land F 2 =? 0) then Z.lor c 2 else c in
    let c := if negb (Z.land F 4 =? 0) then Z.lor c 4 else c in
    if negb (Z.land F 8 =? 0) then Z.lor c 8 else c) = a) (seqZ 0 16)) as Hall by by repeat constructor.
  rewrite Forall_forall in Hall. apply Hall, elem_of_seqZ. lia.
Qed.

Lemma termios_roundtrip_witness : tty_get_termios (tty_set_termios 0x15 (tty_reset 80 25 false)) = 0x05.
Proof. apply (termios_roundtrip (tty_reset 80 25 false) 0x15). lia. Defined.
