(* ===== verification/Files.v ===== *)
(** * Open files: [src/fs.c], the file objects of [src/pipe.c] and [src/tty/tty.c]

    File objects are shared between the descriptor tables of the processes and
    counted; a pipe lives as long as one of its ends is open, a pseudo terminal as
    long as a file refers to it.  The objects live in stores indexed by numbers
    that stand for their addresses: following a freed or wild pointer faults.
    Whether [kalloc] finds memory is decided by a list of answers, one per call. *)

From S2P Require Import Prelude Ring Pipe Tty.

Definition FILEDESC_MAX : nat := 32.
Definition FLAG_TTY_MASTER : Z := 4.
Definition FLAG_TTY_SLAVE : Z := 5.
Definition FLAG_PIPE_READ : Z := 6.
Definition FLAG_PIPE_WRITE : Z := 7.
Definition STDERR_FILENO : nat := 2.
Definition TTY_POOL_MAX : nat := 4.

Inductive tty_ptr : Type := Console | Pty (i : nat).
#[export] Instance tty_ptr_eq_dec : EqDecision tty_ptr.
Proof. solve_decision. Defined.

(** What [private_data] points to. *)
Inductive pdata : Type := PPipe (p : nat) | PTty (t : tty_ptr).
#[export] Instance pdata_eq_dec : EqDecision pdata.
Proof. solve_decision. Defined.

(** The tables of operations. *)
Inductive file_ops : Type :=
  | g_pipe_read_ops | g_pipe_write_ops | g_tty_slave_file_ops | g_tty_master_file_ops.

Record file := File {
  f_pos : Z;
  f_refcount : Z;
  f_stdioflag : Z;
  f_ops : option file_ops;
  private_data : option pdata
}.

Record files_struct := Files { fs_fd : list (option nat); fs_freefd : Z }.

Record kernel := Kernel {
  k_files : gmap nat file;
  k_pipes : gmap nat pipe_info;
  k_console : tty;
  k_ptys : list tty;
  k_tabs : list files_struct;
  k_alloc : list bool
}.

Definition set_files (f : gmap nat file) (s : kernel) : kernel :=
  Kernel f (k_pipes s) (k_console s) (k_ptys s) (k_tabs s) (k_alloc s).
Definition set_pipes (p : gmap nat pipe_info) (s : kernel) : kernel :=
  Kernel (k_files s) p (k_console s) (k_ptys s) (k_tabs s) (k_alloc s).
Definition set_tabs (t : list files_struct) (s : kernel) : kernel :=
  Kernel (k_files s) (k_pipes s) (k_console s) (k_ptys s) t (k_alloc s).
Definition set_alloc (a : list bool) (s : kernel) : kernel :=
  Kernel (k_files s) (k_pipes s) (k_console s) (k_ptys s) (k_tabs s) a.

(** ** Access *)

Definition get_file (s : kernel) (f : nat) : outcome file := or_fault (k_files s !! f).
Definition get_pipe (s : kernel) (p : nat) : outcome pipe_info := or_fault (k_pipes s !! p).
Definition get_tab (s : kernel) (pid : nat) : outcome files_struct := or_fault (k_tabs s !! pid).
Definition put_tab (s : kernel) (pid : nat) (t : files_struct) : kernel := set_tabs (<[pid := t]> (k_tabs s)) s.
Definition put_file (s : kernel) (f : nat) (x : file) : kernel := set_files (<[f := x]> (k_files s)) s.
Definition put_pipe (s : kernel) (p : nat) (x : pipe_info) : kernel := set_pipes (<[p := x]> (k_pipes s)) s.

Definition get_tty (s : kernel) (t : tty_ptr) : outcome tty :=
  match t with
  | Console => Ret (k_console s)
  | Pty i => or_fault (k_ptys s !! i)
  end.
Definition put_tty (s : kernel) (t : tty_ptr) (x : tty) : kernel :=
  match t with
  | Console => Kernel (k_files s) (k_pipes s) x (k_ptys s) (k_tabs s) (k_alloc s)
  | Pty i => Kernel (k_files s) (k_pipes s) (k_console s) (<[i := x]> (k_ptys s)) (k_tabs s) (k_alloc s)
  end.

(** One call of [kalloc]: the answer, and the answers left. *)
Definition kalloc_answer (s : kernel) : bool * kernel :=
  match k_alloc s with
  | b :: r => (b, set_alloc r s)
  | [] => (true, s)
  end.

Definition kfree_file (f : nat) (s : kernel) : kernel := set_files (delete f (k_files s)) s.
Definition kfree_pipe (p : nat) (s : kernel) : kernel := set_pipes (delete p (k_pipes s)) s.

(** ** Descriptor tables *)

(** The first free descriptor among [fds]. *)
Fixpoint first_free (l : list (option nat)) (fds : list nat) : Z :=
  match fds with
  | [] => -1
  | fd :: fds => match l !! fd with
                 | Some None => Z.of_nat fd
                 | _ => first_free l fds
                 end
  end.

Definition files_find_free_fd (t : files_struct) (start_fd : Z) : Z :=
  let start := Z.to_nat (if start_fd <? 0 then 0 else start_fd) in
  let fd := first_free (fs_fd t) (seq start (FILEDESC_MAX - start)) in
  if fd <? 0 then first_free (fs_fd t) (seq 0 start) else fd.

Definition files_alloc_fd (t : files_struct) (f : nat) : Z * files_struct :=
  let fd := files_find_free_fd t 0 in
  if fd <? 0 then (-1, t)
  else (fd, Files (<[Z.to_nat fd := Some f]> (fs_fd t)) (fd + 1)).

(** ** Reference counts *)

Definition file_get (f : nat) (s : kernel) : outcome kernel :=
  x ← get_file s f;
  Ret (put_file s f (File (f_pos x) (f_refcount x + 1) (f_stdioflag x) (f_ops x) (private_data x))).

Definition tty_retain (t : tty_ptr) (s : kernel) : outcome kernel :=
  x ← get_tty s t;
  Ret (put_tty s t (set_refs (active x) (has_master x) (refcount x + 1) (slave_refs x) x)).

Definition tty_release (screen_cols screen_rows : Z) (t : tty_ptr) (s : kernel) : outcome kernel :=
  x ← get_tty s t;
  let x := if 0 <? refcount x
           then set_refs (active x) (has_master x) (refcount x - 1) (slave_refs x) x else x in
  if decide (t = Console) then Ret (put_tty s t x)
  else if refcount x =? 0 then Ret (put_tty s t (tty_reset screen_cols screen_rows false))
  else Ret (put_tty s t x).

Definition pipe_close (x : file) (s : kernel) : outcome kernel :=
  match private_data x with
  | Some (PPipe p) =>
      q ← get_pipe s p;
      let q := if (f_stdioflag x =? FLAG_PIPE_READ) && (0 <? read_open q)
               then Pipe (buffer q) (read_pos q) (write_pos q) (data_size q) (read_open q - 1) (write_open q)
               else q in
      let q := if (f_stdioflag x =? FLAG_PIPE_WRITE) && (0 <? write_open q)
               then Pipe (buffer q) (read_pos q) (write_pos q) (data_size q) (read_open q) (write_open q - 1)
               else q in
      if (read_open q =? 0) && (write_open q =? 0) then Ret (kfree_pipe p s)
      else Ret (put_pipe s p q)
  | Some (PTty _) => Fault
  | None => Ret s
  end.

Definition tty_slave_file_close (screen_cols screen_rows : Z) (x : file) (s : kernel) : outcome kernel :=
  match private_data x with
  | Some (PTty t) =>
      u ← get_tty s t;
      let u := if 0 <? slave_refs u
               then set_refs (active u) (has_master u) (refcount u) (slave_refs u - 1) u else u in
      tty_release screen_cols screen_rows t (put_tty s t u)
  | Some (PPipe _) => Fault
  | None => Ret s
  end.

Definition tty_master_file_close (screen_cols screen_rows : Z) (x : file) (s : kernel) : outcome kernel :=
  match private_data x with
  | Some (PTty t) =>
      u ← get_tty s t;
      tty_release screen_cols screen_rows t
        (put_tty s t (set_refs (active u) false (refcount u) (slave_refs u) u))
  | Some (PPipe _) => Fault
  | None => Ret s
  end.

Section screen.
Context (screen_cols screen_rows : Z).

Definition ops_close (ops : file_ops) (x : file) (s : kernel) : outcome kernel :=
  match ops with
  | g_pipe_read_ops | g_pipe_write_ops => pipe_close x s
  | g_tty_slave_file_ops => tty_slave_file_close screen_cols screen_rows x s
  | g_tty_master_file_ops => tty_master_file_close screen_cols screen_rows x s
  end.

Definition file_put (f : nat) (s : kernel) : outcome kernel :=
  x ← get_file s f;
  let x := if 0 <? f_refcount x
           then File (f_pos x) (f_refcount x - 1) (f_stdioflag x) (f_ops x) (private_data x) else x in
  let s := put_file s f x in
  if 0 <? f_refcount x then Ret s
  else
    s ← match f_ops x with Some ops => ops_close ops x s | None => Ret s end;
    Ret (kfree_file f s).

(** ** Operations on the table of a process *)

Definition files_dup (pid : nat) (oldfd : Z) (s : kernel) : outcome (Z * kernel) :=
  t ← get_tab s pid;
  if (oldfd <? 0) || (Z.of_nat FILEDESC_MAX <=? oldfd) then Ret (-1, s)
  else
    slot ← load1 (fs_fd t) oldfd;
    match slot with
    | None => Ret (-1, s)
    | Some f =>
        s ← file_get f s;
        let '(fd, t) := files_alloc_fd t f in
        Ret (fd, put_tab s pid t)
    end.

(** The loop of [files_clone] and [files_clone_stdio] over the descriptors [fds]:
    each file of [src] is shared. *)
Definition clone_step (src : files_struct) (st : list (option nat) * kernel) (fd : nat) :
    outcome (list (option nat) * kernel) :=
  let '(dst, s) := st in
  slot ← load1 (fs_fd src) (Z.of_nat fd);
  match slot with
  | None => Ret (dst, s)
  | Some f =>
      s ← file_get f s;
      dst ← store1 dst (Z.of_nat fd) (Some f);
      Ret (dst, s)
  end.

Definition empty_fds : list (option nat) := replicate FILEDESC_MAX None.

Definition files_clone (src : files_struct) (s : kernel) : outcome (files_struct * kernel) :=
  '(dst, s) ← foldM (clone_step src) (seq 0 FILEDESC_MAX) (empty_fds, s);
  Ret (Files dst (fs_freefd src), s).

Definition files_clone_stdio (src : files_struct) (s : kernel) : outcome (files_struct * kernel) :=
  '(dst, s) ← foldM (clone_step src) (seq 0 (S STDERR_FILENO)) (empty_fds, s);
  Ret (Files dst (Z.of_nat STDERR_FILENO + 1), s).

(** The table of a new process: [fork] shares all files of the parent, a new
    program shares its standard files. *)
Definition new_process (clone : files_struct → kernel → outcome (files_struct * kernel))
    (parent : nat) (s : kernel) : outcome kernel :=
  t ← get_tab s parent;
  '(dst, s) ← clone t s;
  Ret (set_tabs (k_tabs s ++ [dst]) s).

Definition close_slot (pid : nat) (s : kernel) (fd : nat) : outcome kernel :=
  t ← get_tab s pid;
  slot ← load1 (fs_fd t) (Z.of_nat fd);
  match slot with
  | None => Ret s
  | Some f =>
      s ← file_put f s;
      Ret (put_tab s pid (Files (<[fd := None]> (fs_fd t)) (fs_freefd t)))
  end.

Definition files_close_all (pid : nat) (s : kernel) : outcome kernel :=
  s ← foldM (close_slot pid) (seq 0 FILEDESC_MAX) s;
  t ← get_tab s pid;
  Ret (put_tab s pid (Files (fs_fd t) 0)).

(** [close]; the slot is read before the descriptor is tested, so a descriptor
    outside the table is a fault. *)
Definition close (pid : nat) (fd : Z) (s : kernel) : outcome (bool * kernel) :=
  t ← get_tab s pid;
  slot ← load1 (fs_fd t) fd;
  if (fd <? 0) || (Z.of_nat FILEDESC_MAX <=? fd) then Ret (false, s)
  else
    let s := put_tab s pid (Files (<[Z.to_nat fd := None]> (fs_fd t)) (fs_freefd t)) in
    match slot with
    | None => Ret (true, s)
    | Some f => s ← file_put f s; Ret (true, s)
    end.
End screen.

(** ** New files, pipes and terminals *)

(** [kalloc] and fill a file object; [None] is NULL. *)
Definition new_file (x : file) (s : kernel) : option nat * kernel :=
  let '(ok, s) := kalloc_answer s in
  if ok : bool then let f := fresh (dom (k_files s)) in (Some f, put_file s f x) else (None, s).

Definition pipe_new_file (stdioflag : Z) (p : nat) (s : kernel) : option nat * kernel :=
  new_file (File 0 1 stdioflag
              (Some (if stdioflag =? FLAG_PIPE_READ then g_pipe_read_ops else g_pipe_write_ops))
              (Some (PPipe p))) s.

Definition kfree_opt (f : option nat) (s : kernel) : kernel :=
  match f with Some f => kfree_file f s | None => s end.

(** The system call [pipe] of the process [pid]: 0 and the two descriptors, or -1. *)
Definition pipe (pid : nat) (s : kernel) : outcome (option (Z * Z) * kernel) :=
  t ← get_tab s pid;
  let '(ok, s) := kalloc_answer s in
  if negb ok then Ret (None, s)
  else
    let '(ok, s) := kalloc_answer s in
    if negb ok then Ret (None, s)
    else
      let p := fresh (dom (k_pipes s)) in
      let s := put_pipe s p new_pipe in
      let '(read_file, s) := pipe_new_file FLAG_PIPE_READ p s in
      let '(write_file, s) := pipe_new_file FLAG_PIPE_WRITE p s in
      match read_file, write_file with
      | Some r, Some w =>
          let '(read_fd, t) := files_alloc_fd t r in
          if read_fd <? 0 then Ret (None, kfree_pipe p (kfree_file w (kfree_file r s)))
          else
            let '(write_fd, t) := files_alloc_fd t w in
            if write_fd <? 0 then
              let t := Files (<[Z.to_nat read_fd := None]> (fs_fd t)) (fs_freefd t) in
              Ret (None, kfree_pipe p (kfree_file w (kfree_file r (put_tab s pid t))))
            else Ret (Some (read_fd, write_fd), put_tab s pid t)
      | _, _ => Ret (None, kfree_pipe p (kfree_opt write_file (kfree_opt read_file s)))
      end.

Definition tty_new_file (stdioflag : Z) (ops : file_ops) (t : tty_ptr) (s : kernel) :
    outcome (option nat * kernel) :=
  match new_file (File 0 1 stdioflag (Some ops) (Some (PTty t))) s with
  | (None, s) => Ret (None, s)
  | (Some f, s) =>
      u ← get_tty s t;
      let u := if stdioflag =? FLAG_TTY_SLAVE
               then set_refs (active u) (has_master u) (refcount u) (slave_refs u + 1) u else u in
      s ← tty_retain t (put_tty s t u);
      Ret (Some f, s)
  end.

Section screen2.
Context (screen_cols screen_rows : Z).

(** [memset] of a terminal to zero, and [init_tty]: the console is active, the pool
    is zeroed. *)
Definition zero_tty : tty :=
  Tty false false 0 0 0 0 0 0 zero_ring zero_ring (replicate (Z.to_nat TTY_CANON_SIZE) 0) 0.

Definition init_tty (s : kernel) : kernel :=
  let u := tty_reset screen_cols screen_rows false in
  Kernel (k_files s) (k_pipes s) (set_refs true (has_master u) (refcount u) (slave_refs u) u)
    (replicate TTY_POOL_MAX zero_tty) (k_tabs s) (k_alloc s).

(** The first inactive terminal of the pool. *)
Fixpoint find_pty (l : list tty) (i : nat) : option nat :=
  match l with
  | [] => None
  | t :: l => if negb (active t) then Some i else find_pty l (S i)
  end.

Definition tty_alloc_pty (s : kernel) : option nat * kernel :=
  match find_pty (k_ptys s) 0 with
  | Some i =>
      let u := tty_reset screen_cols screen_rows true in
      (Some i, put_tty s (Pty i) (set_refs true true 1 (slave_refs u) u))
  | None => (None, s)
  end.

Definition tty_openpty (pid : nat) (s : kernel) : outcome (Z * kernel) :=
  t ← get_tab s pid;
  match tty_alloc_pty s with
  | (None, s) => Ret (-1, s)
  | (Some i, s) =>
      '(master_file, s) ← tty_new_file FLAG_TTY_MASTER g_tty_master_file_ops (Pty i) s;
      match master_file with
      | None => s ← tty_release screen_cols screen_rows (Pty i) s; Ret (-1, s)
      | Some f =>
          let '(fd, t) := files_alloc_fd t f in
          if fd <? 0 then
            s ← file_put screen_cols screen_rows f s;
            s ← tty_release screen_cols screen_rows (Pty i) s;
            Ret (-1, s)
          else
            s ← tty_release screen_cols screen_rows (Pty i) (put_tab s pid t);
            Ret (fd, s)
      end
  end.

(** The three standard files of a process on the terminal [tp]. *)
Definition tty_install_stdio (pid : nat) (tp : tty_ptr) (s : kernel) : outcome (bool * kernel) :=
  '(f0, s) ← tty_new_file FLAG_TTY_SLAVE g_tty_slave_file_ops tp s;
  '(f1, s) ← tty_new_file FLAG_TTY_SLAVE g_tty_slave_file_ops tp s;
  '(f2, s) ← tty_new_file FLAG_TTY_SLAVE g_tty_slave_file_ops tp s;
  match f0, f1, f2 with
  | Some f0, Some f1, Some f2 =>
      t ← get_tab s pid;
      let '(fd0, t) := files_alloc_fd t f0 in
      let '(fd1, t) := files_alloc_fd t f1 in
      let '(fd2, t) := files_alloc_fd t f2 in
      Ret ((fd0 =? 0) && (fd1 =? 1) && (fd2 =? 2), put_tab s pid t)
  | _, _, _ => Ret (false, s)
  end.
End screen2.

(** The terminal behind a descriptor, and behind a descriptor of a master. *)
Definition tty_lookup_file (pid : nat) (fd : Z) (s : kernel) : outcome (option tty_ptr) :=
  t ← get_tab s pid;
  if (fd <? 0) || (Z.of_nat FILEDESC_MAX <=? fd) then Ret None
  else
    slot ← load1 (fs_fd t) fd;
    match slot with
    | None => Ret None
    | Some f =>
        x ← get_file s f;
        if negb (f_stdioflag x =? FLAG_TTY_MASTER) && negb (f_stdioflag x =? FLAG_TTY_SLAVE)
        then Ret None
        else match private_data x with Some (PTty tp) => Ret (Some tp) | Some (PPipe _) => Fault | None => Ret None end
    end.

Definition tty_lookup_master (pid : nat) (fd : Z) (s : kernel) : outcome (option tty_ptr) :=
  t ← get_tab s pid;
  if (fd <? 0) || (Z.of_nat FILEDESC_MAX <=? fd) then Ret None
  else
    slot ← load1 (fs_fd t) fd;
    match slot with
    | None => Ret None
    | Some f =>
        x ← get_file s f;
        if negb (f_stdioflag x =? FLAG_TTY_MASTER) then Ret None
        else match private_data x with Some (PTty tp) => Ret (Some tp) | Some (PPipe _) => Fault | None => Ret None end
    end.
