(* ===== verification/FilesInv.v ===== *)
(** * Open files: the reference counts are exact

    Every file object is counted once per descriptor that refers to it, every
    pipe once per open file of each end, every terminal once per file.  The
    invariant is stated with the references that no descriptor accounts for: those
    that an operation holds in the middle of its work, and those that were lost
    ([ex] for files, [tx] for terminals). *)

From S2P Require Import Prelude Ring Pipe Tty Files.

(** ** Counting *)

(** The slots of one table that refer to [f], and of all tables. *)
Definition occ (f : nat) (t : files_struct) : Z :=
  foldr (fun slot n => (if decide (slot = Some f) then 1 else 0) + n) 0 (fs_fd t).
Definition refs (f : nat) (tabs : list files_struct) : Z := foldr (fun t n => occ f t + n) 0 tabs.

(** Open files with this flag on this object. *)
Definition on_object (flag : Z) (pd : pdata) (x : file) : bool :=
  bool_decide (f_stdioflag x = flag ∧ private_data x = Some pd).
Definition cnt (flag : Z) (pd : pdata) (files : gmap nat file) : Z :=
  Z.of_nat (size (filter (fun kv => on_object flag pd kv.2 = true) files)).

Lemma cnt_insert flag pd files f x :
  files !! f = None → cnt flag pd (<[f := x]> files) = cnt flag pd files + Z.b2z (on_object flag pd x).
Proof.
  intros Hf. unfold cnt. destruct (on_object flag pd x) eqn:E.
  - rewrite map_filter_insert_True by done. rewrite map_size_insert_None; [simpl; lia|].
    apply map_lookup_filter_None_2. by left.
  - rewrite map_filter_insert_False by (simpl; congruence). rewrite delete_id by done. simpl. lia.
Qed.

Lemma cnt_delete flag pd files f x :
  files !! f = Some x → cnt flag pd (delete f files) = cnt flag pd files - Z.b2z (on_object flag pd x).
Proof.
  intros Hf. rewrite <-(insert_delete_id files f x Hf) at 2.
  rewrite cnt_insert by apply lookup_delete_eq. lia.
Qed.

Lemma cnt_update flag pd files f x y :
  files !! f = Some x → on_object flag pd y = on_object flag pd x →
  cnt flag pd (<[f := y]> files) = cnt flag pd files.
Proof.
  intros Hf E. rewrite <-(insert_delete_id files f x Hf) at 2.
  rewrite <-insert_delete_eq, !cnt_insert by apply lookup_delete_eq. by rewrite E.
Qed.

Lemma cnt_nonneg flag pd files : 0 ≤ cnt flag pd files.
Proof. unfold cnt. lia. Qed.


Lemma occ_nonneg f t : 0 ≤ occ f t.
Proof. unfold occ. induction (fs_fd t) as [|a l IH]; simpl; [done|]. case_decide; lia. Qed.

Lemma refs_nonneg f tabs : 0 ≤ refs f tabs.
Proof. induction tabs as [|t tabs IH]; simpl; [done|]. pose proof (occ_nonneg f t). lia. Qed.

Definition slot_is (slot : option nat) (f : nat) : Z := if decide (slot = Some f) then 1 else 0.

Lemma occ_insert f t fd old new freefd :
  fs_fd t !! fd = Some old →
  occ f (Files (<[fd := new]> (fs_fd t)) freefd) = occ f t - slot_is old f + slot_is new f.
Proof.
  unfold occ. cbn [fs_fd]. generalize (fs_fd t) as l. intros l. revert fd.
  induction l as [|a l IH]; intros [|fd] Hl; simpl in *; simplify_eq; unfold slot_is in *.
  - lia.
  - rewrite (IH fd Hl). lia.
Qed.

Lemma refs_insert f tabs pid t t' :
  tabs !! pid = Some t → refs f (<[pid := t']> tabs) = refs f tabs - occ f t + occ f t'.
Proof.
  revert pid. induction tabs as [|u tabs IH]; intros [|pid] Hl; simpl in *; simplify_eq; [lia|].
  rewrite (IH pid Hl). lia.
Qed.

Lemma refs_app f l k : refs f (l ++ k) = refs f l + refs f k.
Proof. induction l as [|t l IH]; simpl; [done|]. rewrite IH. lia. Qed.

Lemma occ_pos f t fd : fs_fd t !! fd = Some (Some f) → 0 < occ f t.
Proof.
  intros Hl. pose proof (occ_insert f t fd (Some f) None 0 Hl) as Ho.
  pose proof (occ_nonneg f (Files (<[fd:=None]> (fs_fd t)) 0)). unfold slot_is in Ho.
  repeat case_decide; simplify_eq; lia.
Qed.

Lemma refs_pos f tabs pid t : tabs !! pid = Some t → 0 < occ f t → 0 < refs f tabs.
Proof.
  revert pid. induction tabs as [|u tabs IH]; intros [|pid] Hl Ho; simpl in *; simplify_eq.
  - pose proof (refs_nonneg f tabs). lia.
  - pose proof (IH pid Hl Ho). pose proof (occ_nonneg f u). lia.
Qed.

(** ** The invariant *)

Definition tty_ok (t : tty_ptr) : Prop := match t with Console => True | Pty i => (i < TTY_POOL_MAX)%nat end.

(** Flag, operations and object of a file belong together. *)
Definition file_ok (x : file) : Prop :=
  match f_ops x, private_data x with
  | Some g_pipe_read_ops, Some (PPipe _) => f_stdioflag x = FLAG_PIPE_READ
  | Some g_pipe_write_ops, Some (PPipe _) => f_stdioflag x = FLAG_PIPE_WRITE
  | Some g_tty_slave_file_ops, Some (PTty t) => f_stdioflag x = FLAG_TTY_SLAVE ∧ tty_ok t
  | Some g_tty_master_file_ops, Some (PTty t) => f_stdioflag x = FLAG_TTY_MASTER ∧ tty_ok t
  | None, None => True
  | _, _ => False
  end.

Definition file_inv (ex : nat → Z) (s : kernel) (f : nat) : Prop :=
  match k_files s !! f with
  | Some x => f_refcount x = refs f (k_tabs s) + ex f ∧ 0 < f_refcount x ∧ file_ok x
  | None => refs f (k_tabs s) + ex f = 0
  end.

Definition pipe_ok (s : kernel) (p : nat) : Prop :=
  let r := cnt FLAG_PIPE_READ (PPipe p) (k_files s) in
  let w := cnt FLAG_PIPE_WRITE (PPipe p) (k_files s) in
  match k_pipes s !! p with
  | Some q => read_open q = r ∧ write_open q = w ∧ 0 < r + w ∧ pipe_inv q
  | None => r = 0 ∧ w = 0
  end.

Definition tty_counts (tx : tty_ptr → Z) (s : kernel) (t : tty_ptr) (u : tty) : Prop :=
  refcount u = cnt FLAG_TTY_SLAVE (PTty t) (k_files s) + cnt FLAG_TTY_MASTER (PTty t) (k_files s) + tx t ∧
  slave_refs u = cnt FLAG_TTY_SLAVE (PTty t) (k_files s) ∧
  (t ≠ Console → active u = (0 <? refcount u)).

Record kinv (ex : nat → Z) (tx : tty_ptr → Z) (s : kernel) : Prop := {
  ki_tabs : Forall (fun t => length (fs_fd t) = FILEDESC_MAX) (k_tabs s);
  ki_ptys : length (k_ptys s) = TTY_POOL_MAX;
  ki_ex : ∀ f, 0 ≤ ex f;
  ki_tx : ∀ t, 0 ≤ tx t;
  ki_files : ∀ f, file_inv ex s f;
  ki_pipes : ∀ p, pipe_ok s p;
  ki_ttys : ∀ t u, get_tty s t = Ret u → tty_counts tx s t u
}.

Definition none {A} : A → Z := fun _ => 0.

Definition bump {A} `{EqDecision A} (a : A) (k : Z) (ex : A → Z) : A → Z :=
  fun b => if decide (b = a) then ex b + k else ex b.

Lemma bump_eq {A} `{EqDecision A} (a : A) k ex : bump a k ex a = ex a + k.
Proof. unfold bump. by rewrite decide_True. Qed.
Lemma bump_ne {A} `{EqDecision A} (a b : A) k ex : b ≠ a → bump a k ex b = ex b.
Proof. intros. unfold bump. by rewrite decide_False. Qed.
Lemma bump_nonneg {A} `{EqDecision A} (a : A) k ex : (∀ b, 0 ≤ ex b) → 0 ≤ ex a + k → ∀ b, 0 ≤ bump a k ex b.
Proof. intros H Ha b. unfold bump. case_decide; [by subst|auto]. Qed.

(** The invariant only looks at the values of [ex] and [tx]. *)
Lemma kinv_ext ex ex' tx tx' s : kinv ex tx s → (∀ f, ex' f = ex f) → (∀ t, tx' t = tx t) → kinv ex' tx' s.
Proof.
  intros [H1 H2 H3 H4 H5 H6 H7] He Ht. constructor; try done.
  - intros f. by rewrite He.
  - intros t. by rewrite Ht.
  - intros f. specialize (H5 f). unfold file_inv in *. by rewrite He.
  - intros t u Hu. destruct (H7 t u Hu) as (? & ? & ?). unfold tty_counts. by rewrite Ht.
Qed.

Section facts.
Context {ex tx s} (Hk : kinv ex tx s).

Lemma file_live f : 0 < refs f (k_tabs s) + ex f →
  ∃ x, k_files s !! f = Some x ∧ f_refcount x = refs f (k_tabs s) + ex f ∧ file_ok x.
Proof using Hk.
  intros Hpos. pose proof (ki_files _ _ _ Hk f) as Hf. unfold file_inv in Hf.
  destruct (k_files s !! f) as [x|]; [|lia]. exists x. naive_solver.
Qed.

Lemma slot_live pid t fd f :
  k_tabs s !! pid = Some t → fs_fd t !! fd = Some (Some f) → 0 < refs f (k_tabs s).
Proof using. intros Ht Hf. eapply refs_pos; [done|]. by eapply occ_pos. Qed.

Lemma get_tty_Ret t : tty_ok t → ∃ u, get_tty s t = Ret u.
Proof using Hk.
  destruct t as [|i]; simpl; [eauto|]. intros Hi. unfold or_fault.
  destruct (lookup_lt_is_Some_2 (k_ptys s) i) as [u ->]; [rewrite (ki_ptys _ _ _ Hk); done|eauto].
Qed.
End facts.

Lemma get_put_tty s t u t' :
  (∃ v, get_tty s t = Ret v) →
  get_tty (put_tty s t u) t' = if decide (t' = t) then Ret u else get_tty s t'.
Proof.
  intros [v Hv]. destruct t as [|i], t' as [|j]; simpl; try done.
  simpl in Hv. unfold or_fault in *. destruct (k_ptys s !! i) as [w|] eqn:E; [|done].
  destruct (decide (Pty j = Pty i)) as [[= ->]|Hne].
  - rewrite list_lookup_insert_eq; [done|]. by eapply lookup_lt_Some.
  - rewrite list_lookup_insert_ne; [done|]. congruence.
Qed.

(** A change to a terminal leaves the rest of the kernel. *)
Lemma put_tty_rest s t u :
  k_files (put_tty s t u) = k_files s ∧ k_pipes (put_tty s t u) = k_pipes s ∧
  k_tabs (put_tty s t u) = k_tabs s ∧ length (k_ptys (put_tty s t u)) = length (k_ptys s).
Proof. destruct t; simpl; rewrite ?length_insert; done. Qed.

(** ** Frames: what an operation does not touch *)

Lemma pipe_ok_frame s s' p :
  k_pipes s' !! p = k_pipes s !! p →
  (∀ fl, cnt fl (PPipe p) (k_files s') = cnt fl (PPipe p) (k_files s)) → pipe_ok s p → pipe_ok s' p.
Proof. intros Hp Hc. unfold pipe_ok. by rewrite Hp, !Hc. Qed.

Lemma tty_counts_frame tx s s' t u :
  (∀ fl, cnt fl (PTty t) (k_files s') = cnt fl (PTty t) (k_files s)) → tty_counts tx s t u → tty_counts tx s' t u.
Proof. intros Hc. unfold tty_counts. by rewrite !Hc. Qed.

Lemma on_other fl pd x : private_data x ≠ Some pd → on_object fl pd x = false.
Proof. intros Hne. apply bool_decide_eq_false. naive_solver. Qed.

Lemma on_flag fl pd x : private_data x = Some pd → on_object fl pd x = bool_decide (f_stdioflag x = fl).
Proof. intros E. apply bool_decide_ext. naive_solver. Qed.

Lemma kinv_put_tty ex tx tx' s t u :
  kinv ex tx s → tty_ok t → (∀ t', t' ≠ t → tx' t' = tx t') → 0 ≤ tx' t → tty_counts tx' s t u →
  kinv ex tx' (put_tty s t u).
Proof.
  intros Hk Ht Htx H0 Hu. destruct (put_tty_rest s t u) as (Ef & Ep & Et & El).
  destruct Hk as [H1 H2 H3 H4 H5 H6 H7] eqn:EK. constructor.
  - by rewrite Et.
  - by rewrite El.
  - done.
  - intros t'. destruct (decide (t' = t)) as [->|]; [done|]. by rewrite Htx.
  - intros f. unfold file_inv. rewrite Ef, Et. apply H5.
  - intros p. unfold pipe_ok. rewrite Ef, Ep. apply H6.
  - intros t' u' Hu'. rewrite get_put_tty in Hu' by (by eapply get_tty_Ret).
    unfold tty_counts. rewrite Ef. case_decide as Et'; [by simplify_eq|].
    destruct (H7 t' u' Hu') as (? & ? & ?). unfold tty_counts. by rewrite Htx.
Qed.

Section remove.
Context {ex tx s} (Hk : kinv ex tx s) (f : nat) (x : file).
Context (Hf : k_files s !! f = Some x) (Hone : f_refcount x = 1) (Hex : 0 < ex f).

(** The last reference of [f] is dropped and the object is gone. *)
Lemma kinv_remove s' tx' :
  k_files s' = delete f (k_files s) → k_tabs s' = k_tabs s → length (k_ptys s') = TTY_POOL_MAX →
  (∀ t, 0 ≤ tx' t) → (∀ p, pipe_ok s' p) → (∀ t u, get_tty s' t = Ret u → tty_counts tx' s' t u) →
  kinv (bump f (-1) ex) tx' s'.
Proof using Hk Hf Hone Hex.
  intros Ef Et El Htx Hp Htty. constructor; [by rewrite Et; apply Hk|done| |done| |done|done].
  - apply bump_nonneg; [apply Hk|lia].
  - intros g. unfold file_inv. rewrite Ef, Et. destruct (decide (g = f)) as [->|Hne].
    + rewrite lookup_delete_eq, bump_eq. pose proof (ki_files _ _ _ Hk f) as Hfi. unfold file_inv in Hfi.
      rewrite Hf in Hfi. lia.
    + rewrite lookup_delete_ne, bump_ne by congruence. apply Hk.
Qed.

Lemma remove_cnt fl pd : cnt fl pd (delete f (k_files s)) = cnt fl pd (k_files s) - Z.b2z (on_object fl pd x).
Proof using Hf. by apply cnt_delete. Qed.

Lemma remove_pipe_other s' p :
  k_files s' = delete f (k_files s) → k_pipes s' !! p = k_pipes s !! p → private_data x ≠ Some (PPipe p) →
  pipe_ok s' p.
Proof using Hk Hf.
  intros Ef Ep Hne. apply (pipe_ok_frame s); [done| |apply Hk]. intros fl.
  rewrite Ef, remove_cnt, on_other by done. simpl. lia.
Qed.

Lemma remove_tty_other s' t u :
  k_files s' = delete f (k_files s) → private_data x ≠ Some (PTty t) → get_tty s t = Ret u →
  tty_counts tx s' t u.
Proof using Hk Hf.
  intros Ef Hne Hu. apply (tty_counts_frame tx s); [|by apply Hk]. intros fl.
  rewrite Ef, remove_cnt, on_other by done. simpl. lia.
Qed.
End remove.

(** ** Closing *)

Definition unref (x : file) : file := File (f_pos x) (f_refcount x - 1) (f_stdioflag x) (f_ops x) (private_data x).

Section closing.
Context {ex tx s} (Hk : kinv ex tx s) (f : nat) (x : file).
Context (Hf : k_files s !! f = Some x) (Hone : f_refcount x = 1) (Hex : 0 < ex f).
Let s1 : kernel := put_file s f (unref x).

Lemma files_after s2 : k_files s2 = k_files s1 → k_files (kfree_file f s2) = delete f (k_files s).
Proof using. intros E. simpl. rewrite E. apply delete_insert_eq. Qed.

Lemma cnt_self fl pd : on_object fl pd x = true → 0 < cnt fl pd (k_files s).
Proof using Hf.
  intros E. pose proof (cnt_delete fl pd _ f x Hf) as Hd. rewrite E in Hd.
  pose proof (cnt_nonneg fl pd (delete f (k_files s))). simpl in Hd. lia.
Qed.

(** The pipe behind an end that is open. *)
Lemma pipe_of_end p fl :
  private_data x = Some (PPipe p) → f_stdioflag x = fl → (fl = FLAG_PIPE_READ ∨ fl = FLAG_PIPE_WRITE) →
  ∃ q, k_pipes s !! p = Some q ∧ read_open q = cnt FLAG_PIPE_READ (PPipe p) (k_files s) ∧
    write_open q = cnt FLAG_PIPE_WRITE (PPipe p) (k_files s) ∧ pipe_inv q ∧
    0 < cnt fl (PPipe p) (k_files s).
Proof using Hk Hf.
  intros Hp <- Hfl. assert (0 < cnt (f_stdioflag x) (PPipe p) (k_files s)) as Hc.
  { apply cnt_self. rewrite on_flag by done. by apply bool_decide_eq_true. }
  pose proof (ki_pipes _ _ _ Hk p) as Hpo. unfold pipe_ok in Hpo.
  destruct (k_pipes s !! p) as [q|]; [|destruct Hfl as [E|E]; rewrite E in Hc; lia].
  exists q. naive_solver.
Qed.

(** A state that differs from [s] in the file [f] and the pipe [p] only. *)
Lemma close_pipe_final p s2 :
  private_data x = Some (PPipe p) →
  k_files s2 = k_files s1 → k_tabs s2 = k_tabs s → k_ptys s2 = k_ptys s → k_console s2 = k_console s →
  (∀ p', p' ≠ p → k_pipes s2 !! p' = k_pipes s !! p') → pipe_ok (kfree_file f s2) p →
  kinv (bump f (-1) ex) tx (kfree_file f s2).
Proof using Hk Hf Hone Hex.
  intros Hp Ef Et Epty Ec Hother Hpo. apply files_after in Ef. eapply (kinv_remove Hk f x); try done.
  - simpl. rewrite Epty. apply Hk.
  - apply Hk.
  - intros p'. destruct (decide (p' = p)) as [->|Hne]; [done|].
    eapply (remove_pipe_other Hk f x); [done|done|by apply Hother|]. rewrite Hp. congruence.
  - intros t u Hu. eapply (remove_tty_other Hk f x); [done|done|by rewrite Hp|].
    rewrite <-Hu. destruct t; simpl; [by rewrite Ec|by rewrite Epty].
Qed.

(** Removing [f] takes one from the count of its own flag. *)
Lemma cnt_after fl pd :
  private_data x = Some pd →
  cnt fl pd (delete f (k_files s)) = cnt fl pd (k_files s) - Z.b2z (f_stdioflag x =? fl).
Proof using Hf.
  intros Hp. rewrite (cnt_delete _ _ _ _ x Hf), on_flag by done. do 2 f_equal.
  destruct (Z.eqb_spec (f_stdioflag x) fl); [by apply bool_decide_eq_true|by apply bool_decide_eq_false].
Qed.

Lemma close_pipe_end p :
  private_data x = Some (PPipe p) → (f_stdioflag x = FLAG_PIPE_READ ∨ f_stdioflag x = FLAG_PIPE_WRITE) →
  ∃ s2, pipe_close (unref x) s1 = Ret s2 ∧ k_tabs s2 = k_tabs s ∧ kinv (bump f (-1) ex) tx (kfree_file f s2).
Proof using Hk Hf Hone Hex.
  intros Hp Hfl. destruct (pipe_of_end p _ Hp eq_refl Hfl) as (q & Hq & Hr & Hw & Hqi & Hpos).
  unfold pipe_close. cbn [unref private_data f_stdioflag]. rewrite Hp. unfold get_pipe.
  change (k_pipes s1) with (k_pipes s). rewrite Hq. cbn [or_fault]. rewrite bind_ret.
  pose proof (cnt_nonneg FLAG_PIPE_READ (PPipe p) (k_files s)) as Hr0.
  pose proof (cnt_nonneg FLAG_PIPE_WRITE (PPipe p) (k_files s)) as Hw0.
  set (dr := Z.b2z (f_stdioflag x =? FLAG_PIPE_READ)). set (dw := Z.b2z (f_stdioflag x =? FLAG_PIPE_WRITE)).
  match goal with |- ∃ s2, (if (read_open ?Q =? 0) && _ then _ else _) = _ ∧ _ => set (q' := Q) end.
  assert (q' = Pipe (buffer q) (read_pos q) (write_pos q) (data_size q) (read_open q - dr) (write_open q - dw)) as ->.
  { unfold q', dr, dw. destruct Hfl as [E|E]; rewrite E in *; simpl in *;
      (destruct (Z.ltb_spec 0 (read_open q)) as [?|?]; [|try lia]);
      (destruct (Z.ltb_spec 0 (write_open q)) as [?|?]; [|try lia]); simpl; destruct q; simpl; f_equal; lia. }
  set (q' := Pipe _ _ _ _ _ _). assert (pipe_inv q') as Hqi' by (destruct Hqi; by constructor).
  pose proof (fun fl => cnt_after fl _ Hp) as Hdel.
  assert (read_open q' = cnt FLAG_PIPE_READ (PPipe p) (delete f (k_files s))) as Hr' by (rewrite Hdel, <-Hr; done).
  assert (write_open q' = cnt FLAG_PIPE_WRITE (PPipe p) (delete f (k_files s))) as Hw' by (rewrite Hdel, <-Hw; done).
  pose proof (cnt_nonneg FLAG_PIPE_READ (PPipe p) (delete f (k_files s))).
  pose proof (cnt_nonneg FLAG_PIPE_WRITE (PPipe p) (delete f (k_files s))).
  destruct ((read_open q' =? 0) && (write_open q' =? 0)) eqn:Ez.
  - eexists. split_and!; [done|done|]. apply (close_pipe_final p); try done.
    + intros p' Hne. simpl. by rewrite lookup_delete_ne.
    + unfold pipe_ok. rewrite files_after by done. simpl. rewrite lookup_delete_eq. lia.
  - eexists. split_and!; [done|done|]. apply (close_pipe_final p); try done.
    + intros p' Hne. simpl. by rewrite lookup_insert_ne.
    + unfold pipe_ok. rewrite files_after by done. simpl k_pipes. rewrite lookup_insert_eq. split_and!; [done..|lia|done].
Qed.

(** What [tty_release] leaves of the terminal. *)
Definition released (c r : Z) (t : tty_ptr) (u : tty) : tty :=
  let u := if 0 <? refcount u then set_refs (active u) (has_master u) (refcount u - 1) (slave_refs u) u else u in
  if decide (t = Console) then u else if refcount u =? 0 then tty_reset c r false else u.

Lemma tty_release_Ret c r t u s2 :
  get_tty s2 t = Ret u → tty_release c r t s2 = Ret (put_tty s2 t (released c r t u)).
Proof using. intros Hu. unfold tty_release, released. rewrite Hu, bind_ret. by repeat case_match. Qed.

(** The terminal behind a file that is open, when the file is closed. *)
Lemma close_tty_final c r t u v s2 :
  private_data x = Some (PTty t) → (f_stdioflag x = FLAG_TTY_SLAVE ∨ f_stdioflag x = FLAG_TTY_MASTER) →
  tty_ok t → get_tty s t = Ret u →
  refcount v = refcount u → slave_refs v = slave_refs u - Z.b2z (f_stdioflag x =? FLAG_TTY_SLAVE) → active v = active u →
  s2 = put_tty s1 t v →
  kinv (bump f (-1) ex) tx (kfree_file f (put_tty s2 t (released c r t v))).
Proof using Hk Hf Hone Hex.
  intros Hp Hfl Ht Hu Hr Hs Ha ->.
  destruct (put_tty_rest (put_tty s1 t v) t (released c r t v)) as (Ef & Ep & Et & El).
  destruct (put_tty_rest s1 t v) as (Ef1 & Ep1 & Et1 & El1).
  set (s3 := put_tty (put_tty s1 t v) t (released c r t v)) in *.
  assert (k_files (kfree_file f s3) = delete f (k_files s)) as Efin by (apply files_after; congruence).
  eapply (kinv_remove Hk f x Hf Hone Hex); [exact Efin| | | | |].
  - simpl. by rewrite Et, Et1.
  - simpl. rewrite El, El1. apply Hk.
  - apply Hk.
  - intros p. eapply (remove_pipe_other Hk f x); [done|done|simpl; by rewrite Ep, Ep1|by rewrite Hp].
  - intros t' u' Hu'. change (get_tty s3 t' = Ret u') in Hu'. unfold s3 in Hu'.
    assert (∃ w, get_tty s1 t = Ret w) as Hw by (exists u; by destruct t).
    rewrite get_put_tty in Hu' by (rewrite get_put_tty by done; rewrite decide_True by done; eauto).
    case_decide as Et'.
    + simplify_eq. destruct (ki_ttys _ _ _ Hk t u Hu) as (Hrc & Hsc & Hac).
      unfold tty_counts. rewrite Efin, !cnt_after by done.
      pose proof (cnt_nonneg FLAG_TTY_SLAVE (PTty t) (delete f (k_files s))) as HcS.
      pose proof (cnt_nonneg FLAG_TTY_MASTER (PTty t) (delete f (k_files s))) as HcM.
      pose proof (ki_tx _ _ _ Hk t) as Htx. rewrite !cnt_after in HcS, HcM by done.
      assert (Z.b2z (f_stdioflag x =? FLAG_TTY_SLAVE) + Z.b2z (f_stdioflag x =? FLAG_TTY_MASTER) = 1) as Hb
        by (destruct Hfl as [E|E]; by rewrite E).
      unfold released. rewrite Hr, Hs, Ha. destruct (Z.ltb_spec 0 (refcount u)); [|lia].
      cbn [refcount slave_refs active set_refs].
      case_decide as Hcon; [subst t; simpl; split_and!; [lia|lia|done]|].
      specialize (Hac Hcon).
      destruct (Z.eqb_spec (refcount u - 1) 0); cbn [refcount slave_refs active tty_reset set_refs].
      * split_and!; [lia|lia|done].
      * split_and!; [lia|lia|]. intros _. rewrite Hac. lia.
    + rewrite get_put_tty, decide_False in Hu' by done.
      eapply (remove_tty_other Hk f x); [done|done|rewrite Hp; congruence|by destruct t'].
Qed.

Context (sc sr : Z).

(** Dropping the last reference runs the close operation of the file. *)
Lemma close_last :
  ∃ s2, match f_ops x with Some ops => ops_close sc sr ops (unref x) s1 | None => Ret s1 end = Ret s2 ∧
    k_tabs s2 = k_tabs s ∧ kinv (bump f (-1) ex) tx (kfree_file f s2).
Proof using Hk Hf Hone Hex.
  pose proof (ki_files _ _ _ Hk f) as Hfi. unfold file_inv in Hfi. rewrite Hf in Hfi.
  destruct Hfi as (_ & _ & Hok). unfold file_ok in Hok.
  destruct (f_ops x) as [[]|] eqn:Eo.
  - destruct (private_data x) as [[p|t]|] eqn:Ed; try done. apply (close_pipe_end p); auto.
  - destruct (private_data x) as [[p|t]|] eqn:Ed; try done. apply (close_pipe_end p); auto.
  - destruct (private_data x) as [[p|t]|] eqn:Ed; try done. destruct Hok as [Hfl Ht].
    destruct (get_tty_Ret Hk t Ht) as [u Hu]. assert (get_tty s1 t = Ret u) as Hu1 by by destruct t.
    simpl. unfold tty_slave_file_close. cbn [unref private_data]. rewrite Ed, Hu1, bind_ret.
    set (v := if 0 <? slave_refs u then _ else u).
    destruct (ki_ttys _ _ _ Hk t u Hu) as (_ & Hsc & _).
    assert (0 < slave_refs u) as Hpos.
    { rewrite Hsc. apply cnt_self. rewrite on_flag by done. by apply bool_decide_eq_true. }
    rewrite (tty_release_Ret sc sr t v) by (rewrite get_put_tty by eauto; by rewrite decide_True).
    eexists. split_and!; [done| |].
    + rewrite !(proj1 (proj2 (proj2 (put_tty_rest _ _ _)))). done.
    + eapply (close_tty_final sc sr t u v); eauto; unfold v; destruct (Z.ltb_spec 0 (slave_refs u)); try lia; try done.
      simpl. rewrite Hfl. simpl. lia.
  - destruct (private_data x) as [[p|t]|] eqn:Ed; try done. destruct Hok as [Hfl Ht].
    destruct (get_tty_Ret Hk t Ht) as [u Hu]. assert (get_tty s1 t = Ret u) as Hu1 by by destruct t.
    simpl. unfold tty_master_file_close. cbn [unref private_data]. rewrite Ed, Hu1, bind_ret.
    set (v := set_refs _ _ _ _ u).
    rewrite (tty_release_Ret sc sr t v) by (rewrite get_put_tty by eauto; by rewrite decide_True).
    eexists. split_and!; [done| |].
    + rewrite !(proj1 (proj2 (proj2 (put_tty_rest _ _ _)))). done.
    + eapply (close_tty_final sc sr t u v); eauto; try done. simpl. rewrite Hfl. simpl. lia.
  - destruct (private_data x) as [[p|t]|] eqn:Ed; try done.
    exists s1. split_and!; [done|done|].
    assert (k_files (kfree_file f s1) = delete f (k_files s)) as Efin by by apply files_after.
    eapply (kinv_remove Hk f x Hf Hone Hex); [exact Efin|done|apply Hk|apply Hk| |].
    + intros p. eapply (remove_pipe_other Hk f x); [done|done|done|by rewrite Ed].
    + intros t u Hu. eapply (remove_tty_other Hk f x); [done|done|by rewrite Ed|by destruct t].
Qed.
End closing.

Section operations.
Context (sc sr : Z).

(** Changing the count of a live file. *)
Lemma kinv_recount ex tx s f x k :
  kinv ex tx s → k_files s !! f = Some x → 0 ≤ ex f + k → 0 < f_refcount x + k →
  kinv (bump f k ex) tx (put_file s f (File (f_pos x) (f_refcount x + k) (f_stdioflag x) (f_ops x) (private_data x))).
Proof.
  intros Hk Hf Hex Hpos. assert (∀ fl pd, cnt fl pd (<[f := File (f_pos x) (f_refcount x + k) (f_stdioflag x) (f_ops x)
    (private_data x)]> (k_files s)) = cnt fl pd (k_files s)) as Hc by (intros; by apply (cnt_update _ _ _ _ x)).
  constructor; try apply Hk.
  - apply bump_nonneg; [apply Hk|done].
  - intros g. unfold file_inv. simpl. pose proof (ki_files _ _ _ Hk g) as Hg. unfold file_inv in Hg.
    destruct (decide (g = f)) as [->|Hne].
    + rewrite lookup_insert_eq, bump_eq. rewrite Hf in Hg. simpl. destruct Hg as (? & ? & ?). split_and!; [lia|lia|done].
    + rewrite lookup_insert_ne, bump_ne by congruence. done.
  - intros p. apply (pipe_ok_frame s); [done|intros; apply Hc|apply Hk].
  - intros t u Hu. apply (tty_counts_frame tx s); [intros; apply Hc|]. apply Hk. by destruct t.
Qed.

Lemma file_get_inv ex tx s f :
  kinv ex tx s → 0 < refs f (k_tabs s) + ex f →
  ∃ s', file_get f s = Ret s' ∧ k_tabs s' = k_tabs s ∧ kinv (bump f 1 ex) tx s'.
Proof.
  intros Hk Hpos. destruct (file_live Hk f Hpos) as (x & Hf & Hc & _). unfold file_get, get_file. rewrite Hf. simpl.
  eexists. split_and!; [done|done|]. apply kinv_recount; [done|done|pose proof (ki_ex _ _ _ Hk f); lia|lia].
Qed.

Lemma file_put_inv ex tx s f :
  kinv ex tx s → 0 < ex f →
  ∃ s', file_put sc sr f s = Ret s' ∧ k_tabs s' = k_tabs s ∧ kinv (bump f (-1) ex) tx s'.
Proof.
  intros Hk Hex. pose proof (refs_nonneg f (k_tabs s)).
  destruct (file_live Hk f) as (x & Hf & Hc & _); [lia|]. unfold file_put, get_file. rewrite Hf. cbn [or_fault].
  rewrite bind_ret. destruct (Z.ltb_spec 0 (f_refcount x)); [|lia]. fold (unref x). cbn [f_refcount unref].
  destruct (Z.ltb_spec 0 (f_refcount x - 1)).
  - eexists. split_and!; [done|done|]. apply kinv_recount; [done|done|lia|lia].
  - assert (f_refcount x = 1) as Hone by lia.
    destruct (close_last Hk f x Hf Hone Hex sc sr) as (s2 & Hrun & Ht & Hk'). change (f_ops (unref x)) with (f_ops x).
    rewrite Hrun, bind_ret. eexists. split_and!; [done|by rewrite <-Ht|done].
Qed.

(** Changing one slot of a table. *)
Lemma kinv_slot ex tx s pid t fd old new freefd ex' :
  kinv ex tx s → k_tabs s !! pid = Some t → fs_fd t !! fd = Some old →
  (∀ f, ex' f = ex f + slot_is old f - slot_is new f) → (∀ f, 0 ≤ ex' f) →
  kinv ex' tx (put_tab s pid (Files (<[fd := new]> (fs_fd t)) freefd)).
Proof.
  intros Hk Ht Hfd Hex Hpos. constructor; try apply Hk; [|done|].
  - simpl. apply Forall_insert; [apply Hk|]. simpl. rewrite length_insert.
    eapply (Forall_lookup_1 (fun t => length (fs_fd t) = FILEDESC_MAX)); [apply Hk|done].
  - intros f. unfold file_inv. simpl. rewrite (refs_insert f _ pid t) by done.
    rewrite (occ_insert f t fd old new) by done. rewrite Hex.
    pose proof (ki_files _ _ _ Hk f) as Hfi. unfold file_inv in Hfi.
    destruct (k_files s !! f) as [x|]; [|lia]. destruct Hfi as (? & ? & ?). split_and!; [lia|done|done].
Qed.

Lemma slot_is_bump old f : slot_is (Some old) f = bump old 1 none f.
Proof. unfold slot_is, bump, none. repeat case_decide; simplify_eq; done. Qed.

(** ** Descriptor tables *)

Lemma first_free_spec l fds :
  first_free l fds = -1 ∨ ∃ fd, first_free l fds = Z.of_nat fd ∧ l !! fd = Some None ∧ fd ∈ fds.
Proof.
  induction fds as [|fd fds IH]; simpl; [by left|].
  destruct (l !! fd) as [[f|]|] eqn:E; [|right; exists fd; set_solver|];
    (destruct IH as [->|(fd' & -> & ? & ?)]; [by left|right; exists fd'; set_solver]).
Qed.

Lemma find_free_spec t :
  files_find_free_fd t 0 = -1 ∨ ∃ fd, files_find_free_fd t 0 = Z.of_nat fd ∧ fs_fd t !! fd = Some None.
Proof.
  unfold files_find_free_fd. cbv zeta. change (Z.to_nat (if 0 <? 0 then 0 else 0)) with 0%nat.
  destruct (first_free_spec (fs_fd t) (seq 0 (FILEDESC_MAX - 0))) as [E|(fd & E & Hfd & _)]; rewrite E.
  - left. reflexivity.
  - right. exists fd. destruct (Z.ltb_spec (Z.of_nat fd) 0); [lia|done].
Qed.

#[local] Opaque files_find_free_fd.

Lemma files_alloc_fd_spec t f :
  (files_alloc_fd t f = (-1, t) ∧ files_find_free_fd t 0 = -1) ∨
  ∃ fd, files_alloc_fd t f = (Z.of_nat fd, Files (<[fd := Some f]> (fs_fd t)) (Z.of_nat fd + 1)) ∧
        fs_fd t !! fd = Some None.
Proof.
  unfold files_alloc_fd. destruct (find_free_spec t) as [->|(fd & -> & Hfd)].
  - by left.
  - right. exists fd. destruct (Z.ltb_spec (Z.of_nat fd) 0); [lia|]. by rewrite Nat2Z.id.
Qed.

(** Storing a held reference in a free slot. *)
Lemma install_inv ex tx s pid t fd f freefd :
  kinv ex tx s → k_tabs s !! pid = Some t → fs_fd t !! fd = Some None → 0 < ex f →
  kinv (bump f (-1) ex) tx (put_tab s pid (Files (<[fd := Some f]> (fs_fd t)) freefd)).
Proof.
  intros Hk Ht Hfd Hex. eapply kinv_slot; [done|done|done| |].
  - intros g. rewrite slot_is_bump. unfold bump, none, slot_is. repeat case_decide; simplify_eq; lia.
  - apply bump_nonneg; [apply Hk|lia].
Qed.

(** Taking the reference of a slot. *)
Lemma take_slot_inv ex tx s pid t fd f freefd :
  kinv ex tx s → k_tabs s !! pid = Some t → fs_fd t !! fd = Some (Some f) →
  kinv (bump f 1 ex) tx (put_tab s pid (Files (<[fd := None]> (fs_fd t)) freefd)).
Proof.
  intros Hk Ht Hfd. eapply kinv_slot; [done|done|done| |].
  - intros g. rewrite slot_is_bump. unfold bump, none, slot_is. repeat case_decide; simplify_eq; lia.
  - apply bump_nonneg; [apply Hk|pose proof (ki_ex _ _ _ Hk f); lia].
Qed.

Lemma bump_undo {A} `{EqDecision A} (a : A) k ex b : bump a (- k) (bump a k ex) b = ex b.
Proof. unfold bump. case_decide; lia. Qed.
End operations.
