(* ===== verification/FilesProps.v ===== *)
(** * Open files: theorems

    Every system call that makes, shares or drops descriptors keeps the counts of
    [FilesInv], up to the references that it loses: [dup] on a full table and an
    installation of standard files that fails part way lose some, all other calls
    none.  So no descriptor ever refers to a freed object, and as long as nothing is
    lost an object is freed with its last descriptor. *)

From S2P Require Import Prelude Ring Pipe Tty Files FilesInv.

#[local] Opaque files_find_free_fd.

Section calls.
Context (sc sr : Z) (lost : nat → Z).

(** One more reference than the invariant asks for. *)
Lemma bump_pos e tx s f : kinv e tx s → 0 < bump f 1 e f.
Proof. intros Hk. rewrite bump_eq. pose proof (ki_ex _ _ _ Hk f). lia. Qed.

(** ** [close] and exit *)

Lemma ops_close_put_tab ops x s pid t :
  ops_close sc sr ops x (put_tab s pid t) = (s' ← ops_close sc sr ops x s; Ret (put_tab s' pid t)).
Proof.
  assert (∀ tp s, tty_release sc sr tp (put_tab s pid t) = (s' ← tty_release sc sr tp s; Ret (put_tab s' pid t))) as Hrel.
  { intros [|i] s0; unfold tty_release; simpl; [done|].
    change (k_ptys (put_tab s0 pid t)) with (k_ptys s0). destruct (k_ptys s0 !! i) as [u|]; simpl; [|done].
    by destruct (_ =? 0). }
  destruct ops; simpl; [unfold pipe_close..|unfold tty_slave_file_close|unfold tty_master_file_close];
    destruct (private_data x) as [[p|tp]|]; try done.
  - unfold get_pipe. change (k_pipes (put_tab s pid t)) with (k_pipes s).
    destruct (k_pipes s !! p); simpl; [|done]. by destruct (_ && (write_open _ =? 0)).
  - unfold get_pipe. change (k_pipes (put_tab s pid t)) with (k_pipes s).
    destruct (k_pipes s !! p); simpl; [|done]. by destruct (_ && (write_open _ =? 0)).
  - assert (get_tty (put_tab s pid t) tp = get_tty s tp) as -> by by destruct tp.
    destruct (get_tty s tp) as [u| |]; [|done..]. rewrite !bind_ret, <-Hrel. by destruct tp.
  - assert (get_tty (put_tab s pid t) tp = get_tty s tp) as -> by by destruct tp.
    destruct (get_tty s tp) as [u| |]; [|done..]. rewrite !bind_ret, <-Hrel. by destruct tp.
Qed.

(** Dropping a reference does not look at the tables. *)
Lemma file_put_put_tab f s pid t :
  file_put sc sr f (put_tab s pid t) = (s' ← file_put sc sr f s; Ret (put_tab s' pid t)).
Proof.
  unfold file_put, get_file. change (k_files (put_tab s pid t)) with (k_files s).
  destruct (k_files s !! f) as [x|]; simpl; [|done]. destruct (0 <? f_refcount (if 0 <? f_refcount x then _ else x)); [done|].
  set (y := if 0 <? f_refcount x then _ else x).
  change (put_file (put_tab s pid t) f y) with (put_tab (put_file s f y) pid t).
  destruct (f_ops y) as [ops|]; simpl; [|done]. rewrite ops_close_put_tab.
  by destruct (ops_close sc sr ops y (put_file s f y)).
Qed.

Lemma close_slot_inv s pid fd :
  kinv lost none s → is_Some (k_tabs s !! pid) → (fd < FILEDESC_MAX)%nat →
  ∃ s', close_slot sc sr pid s fd = Ret s' ∧ kinv lost none s' ∧ is_Some (k_tabs s' !! pid).
Proof.
  intros Hk [t Ht] Hfd. unfold close_slot, get_tab. rewrite Ht. cbn [or_fault]. rewrite bind_ret.
  assert (length (fs_fd t) = FILEDESC_MAX) as Hl
    by (eapply (Forall_lookup_1 (fun t => length (fs_fd t) = FILEDESC_MAX)); [apply Hk|done]).
  destruct (lookup_lt_is_Some_2 (fs_fd t) fd) as [slot Hs]; [lia|].
  rewrite (load1_Ret _ _ slot) by (rewrite ?Nat2Z.id; done || lia). rewrite bind_ret.
  destruct slot as [f|]; [|by eauto].
  pose proof (take_slot_inv lost none s pid t fd f (fs_freefd t) Hk Ht Hs) as Hk1.
  destruct (file_put_inv sc sr _ _ _ f Hk1) as (s' & Hrun & Ht' & Hk'); [by eapply bump_pos|].
  rewrite file_put_put_tab in Hrun. rewrite Hrun. exists s'. split_and!; [done| |].
  - eapply kinv_ext; [exact Hk'|intros g; by rewrite (bump_undo f 1)|done].
  - rewrite Ht'. simpl. rewrite list_lookup_insert_eq; [done|]. by eapply lookup_lt_Some.
Qed.

Lemma kinv_freefd ex tx s pid t freefd :
  kinv ex tx s → k_tabs s !! pid = Some t → kinv ex tx (put_tab s pid (Files (fs_fd t) freefd)).
Proof.
  intros Hk Ht. constructor; try apply Hk.
  - simpl. apply Forall_insert; [apply Hk|]. simpl.
    eapply (Forall_lookup_1 (fun t => length (fs_fd t) = FILEDESC_MAX)); [apply Hk|done].
  - intros f. unfold file_inv. simpl. rewrite (refs_insert f _ pid t) by done.
    change (occ f (Files (fs_fd t) freefd)) with (occ f t). rewrite Z.sub_add. apply Hk.
Qed.

Lemma files_close_all_inv s pid :
  kinv lost none s → is_Some (k_tabs s !! pid) → ∃ s', files_close_all sc sr pid s = Ret s' ∧ kinv lost none s'.
Proof.
  intros Hk Hp. unfold files_close_all.
  assert (∀ fds s, Forall (fun fd => fd < FILEDESC_MAX)%nat fds → kinv lost none s → is_Some (k_tabs s !! pid) →
    ∃ s', foldM (close_slot sc sr pid) fds s = Ret s' ∧ kinv lost none s' ∧ is_Some (k_tabs s' !! pid)) as Hloop.
  { intros fds. induction fds as [|fd fds IH]; intros s0 Hfds Hk0 Hp0; [by exists s0|]. cbn [foldM].
    apply Forall_cons in Hfds as [Hfd Hfds].
    destruct (close_slot_inv s0 pid fd Hk0 Hp0 Hfd) as (s1 & -> & Hk1 & Hp1). rewrite bind_ret. by apply IH. }
  destruct (Hloop (seq 0 FILEDESC_MAX) s) as (s' & -> & Hk' & [t Ht]); [|done|done|].
  { apply Forall_forall. intros fd Hfd. apply elem_of_seq in Hfd. lia. }
  rewrite bind_ret. unfold get_tab. rewrite Ht. simpl. eexists. split; [done|]. by apply kinv_freefd.
Qed.

Lemma close_inv s pid fd :
  kinv lost none s → is_Some (k_tabs s !! pid) → 0 ≤ fd < Z.of_nat FILEDESC_MAX →
  ∃ b s', close sc sr pid fd s = Ret (b, s') ∧ kinv lost none s'.
Proof.
  intros Hk [t Ht] Hr. unfold close, get_tab. rewrite Ht. cbn [or_fault]. rewrite bind_ret.
  assert (length (fs_fd t) = FILEDESC_MAX) as Hl
    by (eapply (Forall_lookup_1 (fun t => length (fs_fd t) = FILEDESC_MAX)); [apply Hk|done]).
  destruct (lookup_lt_is_Some_2 (fs_fd t) (Z.to_nat fd)) as [slot Hs]; [lia|].
  rewrite (load1_Ret _ _ slot), bind_ret by (done || lia).
  destruct ((fd <? 0) || (Z.of_nat FILEDESC_MAX <=? fd)) eqn:Eb; [lia|]. cbv zeta.
  destruct slot as [f|].
  - pose proof (take_slot_inv lost none s pid t (Z.to_nat fd) f (fs_freefd t) Hk Ht Hs) as Hk1.
    destruct (file_put_inv sc sr _ _ _ f Hk1) as (s' & -> & _ & Hk'); [by eapply bump_pos|].
    rewrite bind_ret. eexists _, s'. split; [done|].
    eapply kinv_ext; [exact Hk'|intros g; by rewrite (bump_undo f 1)|done].
  - eexists _, _. split; [done|]. rewrite list_insert_id by done. by apply kinv_freefd.
Qed.

(** A reference moves into the table when there is a free descriptor. *)
Definition moved (fd : Z) (f : nat) (ex : nat → Z) : nat → Z := if 0 <=? fd then bump f (-1) ex else ex.

Lemma alloc_inv ex tx s pid t f fd t' :
  kinv ex tx s → k_tabs s !! pid = Some t → 0 < ex f → files_alloc_fd t f = (fd, t') →
  kinv (moved fd f ex) tx (put_tab s pid t') ∧ k_tabs (put_tab s pid t') !! pid = Some t'.
Proof.
  intros Hk Ht Hex Hal. pose proof (lookup_lt_Some _ _ _ Ht) as Hlt. split; [|simpl; by apply list_lookup_insert_eq].
  destruct (files_alloc_fd_spec t f) as [[E _]|(k & E & Hs)]; rewrite E in Hal; injection Hal as <- <-; unfold moved.
  - change (0 <=? -1) with false. destruct t as [fds free]. exact (kinv_freefd _ _ _ _ _ free Hk Ht).
  - destruct (Z.leb_spec 0 (Z.of_nat k)); [by apply install_inv|lia].
Qed.

(** ** [dup] and [fork] *)

(** The table has no free descriptor. *)
Definition full (t : files_struct) : bool := files_find_free_fd t 0 <? 0.

(** On a full table the reference that [file_get] took is lost. *)
Lemma files_dup_inv s pid t oldfd :
  kinv lost none s → k_tabs s !! pid = Some t →
  ∃ fd s' lost', files_dup pid oldfd s = Ret (fd, s') ∧ kinv lost' none s' ∧
    (∀ f, lost f ≤ lost' f) ∧ (full t = false → ∀ f, lost' f = lost f).
Proof.
  intros Hk Ht. unfold files_dup, get_tab. rewrite Ht. cbn [or_fault]. rewrite bind_ret.
  assert (∀ fd : Z, ∃ fd' s' lost', Ret (fd, s) = Ret (fd', s') ∧ kinv lost' none s' ∧ (∀ f, lost f ≤ lost' f) ∧
    (full t = false → ∀ f, lost' f = lost f)) as Hsame by (intros fd; exists fd, s, lost; by split_and!).
  destruct ((oldfd <? 0) || (Z.of_nat FILEDESC_MAX <=? oldfd)) eqn:Eb; [apply Hsame|].
  assert (length (fs_fd t) = FILEDESC_MAX) as Hl
    by (eapply (Forall_lookup_1 (fun t => length (fs_fd t) = FILEDESC_MAX)); [apply Hk|done]).
  destruct (lookup_lt_is_Some_2 (fs_fd t) (Z.to_nat oldfd)) as [slot Hs]; [lia|].
  rewrite (load1_Ret _ _ slot), bind_ret by (done || lia). destruct slot as [f|]; [|apply Hsame].
  destruct (file_get_inv lost none s f Hk) as (s1 & -> & Ht1 & Hk1).
  { pose proof (slot_live (s := s) pid t (Z.to_nat oldfd) f Ht Hs). pose proof (ki_ex _ _ _ Hk f). lia. }
  rewrite bind_ret. destruct (files_alloc_fd t f) as [fd t'] eqn:Al. rewrite <-Ht1 in Ht.
  destruct (alloc_inv _ _ s1 pid t f fd t' Hk1 Ht) as [Hk2 _]; [by eapply bump_pos|done|].
  eexists _, _, _. split; [reflexivity|]. split; [exact Hk2|]. unfold moved. split.
  - intros g. destruct (0 <=? fd); unfold bump; repeat case_decide; lia.
  - intros Hfull g. unfold full in Hfull. destruct (files_alloc_fd_spec t f) as [[_ E]|(k & E & _)]; [lia|].
    rewrite E in Al. injection Al as <- _. destruct (Z.leb_spec 0 (Z.of_nat k)); [|lia]. by rewrite (bump_undo f 1).
Qed.

(** The references that a table under construction holds. *)
Definition held (dst : list (option nat)) (f : nat) : Z := lost f + occ f (Files dst 0).

Lemma clone_step_inv s pid src dst fd :
  kinv (held dst) none s → k_tabs s !! pid = Some src → length (fs_fd src) = FILEDESC_MAX →
  length dst = FILEDESC_MAX → (fd < FILEDESC_MAX)%nat → dst !! fd = Some None →
  ∃ dst' s', clone_step src (dst, s) fd = Ret (dst', s') ∧ kinv (held dst') none s' ∧ k_tabs s' = k_tabs s ∧
    length dst' = FILEDESC_MAX ∧ ∀ i, i ≠ fd → dst' !! i = dst !! i.
Proof.
  intros Hk Ht Hl Hld Hfd Hdst. unfold clone_step.
  destruct (lookup_lt_is_Some_2 (fs_fd src) fd) as [slot Hs]; [lia|].
  rewrite (load1_Ret _ _ slot) by (rewrite ?Nat2Z.id; done || lia). rewrite bind_ret.
  destruct slot as [f|]; [|by eexists _, _].
  destruct (file_get_inv _ _ s f Hk) as (s1 & -> & Ht1 & Hk1).
  { pose proof (slot_live (s := s) pid src fd f Ht Hs). pose proof (ki_ex _ _ _ Hk f). lia. }
  rewrite bind_ret, store1_Ret, bind_ret by lia. rewrite Nat2Z.id. eexists _, s1. split_and!; [done| |done|by rewrite length_insert|].
  - eapply kinv_ext; [exact Hk1| |done]. intros g. unfold held.
    pose proof (occ_insert g (Files dst 0) fd None (Some f) 0 Hdst) as Ho. cbn [fs_fd] in Ho. rewrite Ho.
    rewrite slot_is_bump. unfold bump, none, slot_is. repeat case_decide; simplify_eq; lia.
  - intros i Hi. by apply list_lookup_insert_ne.
Qed.

Lemma clone_loop_inv s pid src n :
  kinv lost none s → k_tabs s !! pid = Some src → (n ≤ FILEDESC_MAX)%nat →
  ∃ dst s', foldM (clone_step src) (seq 0 n) (empty_fds, s) = Ret (dst, s') ∧ kinv (held dst) none s' ∧
    k_tabs s' = k_tabs s ∧ length dst = FILEDESC_MAX ∧
    ∀ i, (n ≤ i < FILEDESC_MAX)%nat → dst !! i = Some None.
Proof.
  intros Hk Ht. assert (length (fs_fd src) = FILEDESC_MAX) as Hl
    by (eapply (Forall_lookup_1 (fun t => length (fs_fd t) = FILEDESC_MAX)); [apply Hk|done]).
  induction n as [|n IH]; intros Hn.
  - exists empty_fds, s. split_and!; [done| |done|done|].
    + eapply kinv_ext; [exact Hk| |done]. intros f. unfold held. change (occ f (Files empty_fds 0)) with 0. lia.
    + intros i Hi. unfold empty_fds. apply lookup_replicate_2. lia.
  - destruct IH as (dst & s1 & Hrun & Hk1 & Ht1 & Hld & Hnone); [lia|].
    rewrite seq_S, foldM_app, Hrun. cbn [foldM]. rewrite bind_ret.
    destruct (clone_step_inv s1 pid src dst (0 + n)) as (dst' & s2 & -> & Hk2 & Ht2 & Hld2 & Hi);
      [done|by rewrite Ht1|done|done|lia|apply Hnone; lia|].
    rewrite bind_ret. exists dst', s2. split_and!; [done|done|congruence|done|].
    intros i Hin. rewrite Hi by lia. apply Hnone. lia.
Qed.

(** A new process with the table that a clone loop built. *)
Lemma add_table_inv dst freefd s :
  kinv (held dst) none s → (∀ f, 0 ≤ lost f) → length dst = FILEDESC_MAX →
  kinv lost none (set_tabs (k_tabs s ++ [Files dst freefd]) s).
Proof.
  intros Hk H0 Hl. constructor; try apply Hk; [|done|].
  - simpl. apply Forall_app. split; [apply Hk|]. by repeat constructor.
  - intros f. unfold file_inv. simpl. rewrite refs_app. simpl.
    change (occ f (Files dst freefd)) with (occ f (Files dst 0)). pose proof (ki_files _ _ _ Hk f) as Hf. unfold file_inv, held in Hf.
    replace (refs f (k_tabs s) + (occ f (Files dst 0) + 0) + lost f) with (refs f (k_tabs s) + (lost f + occ f (Files dst 0))) by lia. done.
Qed.

Lemma fork_inv s parent :
  kinv lost none s → is_Some (k_tabs s !! parent) →
  ∃ s', new_process files_clone parent s = Ret s' ∧ kinv lost none s'.
Proof.
  intros Hk [t Ht]. unfold new_process, get_tab. rewrite Ht. cbn [or_fault]. rewrite bind_ret. unfold files_clone.
  destruct (clone_loop_inv s parent t FILEDESC_MAX Hk Ht) as (dst & s' & -> & Hk' & _ & Hl & _); [done|].
  rewrite !bind_ret. eexists. split; [done|]. apply add_table_inv; [done|apply Hk|done].
Qed.

Lemma spawn_inv s parent :
  kinv lost none s → is_Some (k_tabs s !! parent) →
  ∃ s', new_process files_clone_stdio parent s = Ret s' ∧ kinv lost none s'.
Proof.
  intros Hk [t Ht]. unfold new_process, get_tab. rewrite Ht. cbn [or_fault]. rewrite bind_ret. unfold files_clone_stdio.
  destruct (clone_loop_inv s parent t (S STDERR_FILENO) Hk Ht) as (dst & s' & -> & Hk' & _ & Hl & _);
    [unfold STDERR_FILENO, FILEDESC_MAX; lia|].
  rewrite !bind_ret. eexists. split; [done|]. apply add_table_inv; [done|apply Hk|done].
Qed.

(** ** New objects *)

Lemma kinv_alloc ex tx s a : kinv ex tx s → kinv ex tx (set_alloc a s).
Proof. intros Hk. constructor; apply Hk. Qed.

Lemma kalloc_answer_spec s : ∃ b a, kalloc_answer s = (b, set_alloc a s).
Proof. unfold kalloc_answer. destruct s as [? ? ? ? ? [|b a]]; [by exists true, []|by exists b, a]. Qed.

(** A new file with its first reference held by the caller. *)
Lemma kinv_add ex tx tx' s s' f x :
  kinv ex tx s → k_files s !! f = None → f_refcount x = 1 → file_ok x →
  k_files s' = <[f := x]> (k_files s) → k_tabs s' = k_tabs s → length (k_ptys s') = TTY_POOL_MAX →
  (∀ t, 0 ≤ tx' t) → (∀ p, pipe_ok s' p) → (∀ t u, get_tty s' t = Ret u → tty_counts tx' s' t u) →
  kinv (bump f 1 ex) tx' s'.
Proof.
  intros Hk Hf Hone Hok Ef Et El Htx Hp Htty. constructor; [by rewrite Et; apply Hk|done| |done| |done|done].
  - apply bump_nonneg; [apply Hk|]. pose proof (ki_ex _ _ _ Hk f). lia.
  - intros g. unfold file_inv. rewrite Ef, Et. pose proof (ki_files _ _ _ Hk g) as Hg. unfold file_inv in Hg.
    destruct (decide (g = f)) as [->|Hne].
    + rewrite lookup_insert_eq, bump_eq. rewrite Hf in Hg. split_and!; [lia|lia|done].
    + rewrite lookup_insert_ne, bump_ne by congruence. done.
Qed.

Lemma add_cnt files f x fl pd : files !! f = None → private_data x ≠ Some pd →
  cnt fl pd (<[f := x]> files) = cnt fl pd files.
Proof. intros Hf Hne. rewrite cnt_insert, on_other by done. simpl. lia. Qed.

Lemma add_cnt_self files f x fl pd : files !! f = None → private_data x = Some pd →
  cnt fl pd (<[f := x]> files) = cnt fl pd files + Z.b2z (f_stdioflag x =? fl).
Proof.
  intros Hf Hp. rewrite cnt_insert, on_flag by done. do 2 f_equal.
  destruct (Z.eqb_spec (f_stdioflag x) fl); [by apply bool_decide_eq_true|by apply bool_decide_eq_false].
Qed.

Lemma kinv_add_end ex tx s f x p q :
  kinv ex tx s → k_files s !! f = None → f_refcount x = 1 → file_ok x → private_data x = Some (PPipe p) →
  (f_stdioflag x = FLAG_PIPE_READ ∨ f_stdioflag x = FLAG_PIPE_WRITE) → pipe_inv q →
  read_open q = cnt FLAG_PIPE_READ (PPipe p) (k_files s) + Z.b2z (f_stdioflag x =? FLAG_PIPE_READ) →
  write_open q = cnt FLAG_PIPE_WRITE (PPipe p) (k_files s) + Z.b2z (f_stdioflag x =? FLAG_PIPE_WRITE) →
  kinv (bump f 1 ex) tx (put_pipe (put_file s f x) p q).
Proof.
  intros Hk Hf Hone Hok Hp Hfl Hq Hr Hw. eapply (kinv_add ex tx tx s _ f x); try done; try apply Hk.
  - intros p'. destruct (decide (p' = p)) as [->|Hne].
    + unfold pipe_ok. simpl. rewrite lookup_insert_eq, !add_cnt_self by done.
      pose proof (cnt_nonneg FLAG_PIPE_READ (PPipe p) (k_files s)).
      pose proof (cnt_nonneg FLAG_PIPE_WRITE (PPipe p) (k_files s)).
      split_and!; [done|done| |done]. destruct Hfl as [E|E]; rewrite E; simpl; lia.
    + apply (pipe_ok_frame s); [simpl; by rewrite lookup_insert_ne| |apply Hk].
      intros fl. simpl. apply add_cnt; [done|]. rewrite Hp. congruence.
  - intros t u Hu. apply (tty_counts_frame tx s); [|apply (ki_ttys _ _ _ Hk); by destruct t].
    intros fl. simpl. apply add_cnt; [done|]. by rewrite Hp.
Qed.

(** The pipe of [pipe] with its two files. *)
Lemma new_pipe_inv_state ex tx s p r w :
  kinv ex tx s → k_pipes s !! p = None → k_files s !! r = None → k_files s !! w = None → r ≠ w →
  kinv (bump w 1 (bump r 1 ex)) tx
    (put_file (put_file (put_pipe s p new_pipe) r
      (File 0 1 FLAG_PIPE_READ (Some g_pipe_read_ops) (Some (PPipe p)))) w
      (File 0 1 FLAG_PIPE_WRITE (Some g_pipe_write_ops) (Some (PPipe p)))).
Proof.
  intros Hk Hp Hr Hw Hne. pose proof (ki_pipes _ _ _ Hk p) as Hpo. unfold pipe_ok in Hpo. rewrite Hp in Hpo.
  destruct Hpo as [HcR HcW]. pose proof new_pipe_inv as [Hb1 Hb2 Hb3 Hb4].
  set (xr := File 0 1 FLAG_PIPE_READ (Some g_pipe_read_ops) (Some (PPipe p))).
  set (xw := File 0 1 FLAG_PIPE_WRITE (Some g_pipe_write_ops) (Some (PPipe p))).
  set (q1 := Pipe (buffer new_pipe) (read_pos new_pipe) (write_pos new_pipe) (data_size new_pipe) 1 0).
  assert (kinv (bump r 1 ex) tx (put_pipe (put_file s r xr) p q1)) as Hk1.
  { apply kinv_add_end; [done|done|done|done|done|by left|by constructor|by rewrite HcR|by rewrite HcW]. }
  assert (kinv (bump w 1 (bump r 1 ex)) tx (put_pipe (put_file (put_pipe (put_file s r xr) p q1) w xw) p new_pipe)) as Hk2.
  { apply kinv_add_end; [done|simpl; by rewrite lookup_insert_ne|done|done|done|by right|by constructor| |]; simpl.
    - rewrite add_cnt_self by done. rewrite HcR. done.
    - rewrite add_cnt_self by done. rewrite HcW. done. }
  unfold put_pipe, put_file, set_files, set_pipes in Hk2 |- *. simpl in Hk2 |- *.
  by rewrite insert_insert_eq in Hk2.
Qed.

Lemma new_file_spec x s : ∃ a,
  new_file x s = (None, set_alloc a s) ∨
  ∃ f, new_file x s = (Some f, put_file (set_alloc a s) f x) ∧ k_files s !! f = None.
Proof.
  unfold new_file. destruct (kalloc_answer_spec s) as (b & a & ->). exists a. destruct b; [right|by left].
  eexists. split; [done|]. apply not_elem_of_dom. simpl. apply is_fresh.
Qed.

(** Nothing but the hint [fs_freefd] and the state of the allocator differs. *)
Definition unchanged (s s' : kernel) : Prop :=
  k_files s' = k_files s ∧ k_pipes s' = k_pipes s ∧ k_console s' = k_console s ∧ k_ptys s' = k_ptys s ∧
  fs_fd <$> k_tabs s' = fs_fd <$> k_tabs s.

Lemma refs_fs_fd f l l' : fs_fd <$> l' = fs_fd <$> l → refs f l' = refs f l.
Proof.
  revert l'. induction l as [|t l IH]; intros [|t' l'] E; simplify_eq/=; [done|].
  rewrite (IH l') by done. unfold occ. congruence.
Qed.

Lemma unchanged_inv s s' : kinv lost none s → unchanged s s' → kinv lost none s'.
Proof.
  intros Hk (Ef & Ep & Ec & Et & Eb). constructor; try done.
  - assert (Forall (fun l => length l = FILEDESC_MAX) (fs_fd <$> k_tabs s')) as Hl
      by (rewrite Eb; apply Forall_fmap; apply Hk). by apply Forall_fmap in Hl.
  - rewrite Et. apply Hk.
  - apply Hk.
  - intros f. pose proof (ki_files _ _ _ Hk f) as Hf. unfold file_inv in *. by rewrite Ef, (refs_fs_fd f _ _ Eb).
  - intros p. pose proof (ki_pipes _ _ _ Hk p) as Hp. unfold pipe_ok in *. by rewrite Ef, Ep.
  - intros t u Hu. unfold tty_counts. rewrite Ef. apply (ki_ttys _ _ _ Hk). destruct t; simpl in *; congruence.
Qed.

Lemma unchanged_alloc s a : unchanged s (set_alloc a s).
Proof. done. Qed.

(** The second half of [pipe]: two free slots, or everything is given back. *)
Lemma pipe_install s pid t p r w :
  kinv lost none s → k_tabs s !! pid = Some t →
  k_pipes s !! p = None → k_files s !! r = None → k_files s !! w = None → r ≠ w →
  let s2 := put_file (put_file (put_pipe s p new_pipe) r
      (File 0 1 FLAG_PIPE_READ (Some g_pipe_read_ops) (Some (PPipe p)))) w
      (File 0 1 FLAG_PIPE_WRITE (Some g_pipe_write_ops) (Some (PPipe p))) in
  ∃ res s', (let '(read_fd, t) := files_alloc_fd t r in
      if read_fd <? 0 then Ret (None, kfree_pipe p (kfree_file w (kfree_file r s2)))
      else
        let '(write_fd, t) := files_alloc_fd t w in
        if write_fd <? 0 then
          let t := Files (<[Z.to_nat read_fd := None]> (fs_fd t)) (fs_freefd t) in
          Ret (None, kfree_pipe p (kfree_file w (kfree_file r (put_tab s2 pid t))))
        else Ret (Some (read_fd, write_fd), put_tab s2 pid t)) = Ret (res, s') ∧
    kinv lost none s' ∧ match res with Some _ => True | None => unchanged s s' end.
Proof.
  intros Hk Ht Hp Hr Hw Hne s2. pose proof (new_pipe_inv_state lost none s p r w Hk Hp Hr Hw Hne) as Hk2. fold s2 in Hk2.
  assert (k_tabs s2 = k_tabs s) as Et by done.
  assert (delete w (delete r (k_files s2)) = k_files s) as Efiles.
  { unfold s2. simpl. apply map_eq. intros i. rewrite !lookup_delete, !lookup_insert.
    repeat case_decide; congruence. }
  assert (delete p (k_pipes s2) = k_pipes s) as Epipes by (unfold s2; simpl; by rewrite delete_insert_eq, delete_id).
  destruct (files_alloc_fd_spec t r) as [[-> _]|(rfd & -> & Hrfd)].
  { assert (unchanged s (kfree_pipe p (kfree_file w (kfree_file r s2)))) as Hun by (split_and!; [exact Efiles|exact Epipes|done..]).
    eexists _, _. split_and!; [reflexivity|by eapply unchanged_inv|exact Hun]. }
  destruct (Z.ltb_spec (Z.of_nat rfd) 0); [lia|].
  set (t1 := Files (<[rfd := Some r]> (fs_fd t)) (Z.of_nat rfd + 1)).
  destruct (files_alloc_fd_spec t1 w) as [[-> _]|(wfd & -> & Hwfd)].
  - eexists _, _. assert (unchanged s (kfree_pipe p (kfree_file w (kfree_file r
      (put_tab s2 pid (Files (<[Z.to_nat (Z.of_nat rfd):=None]> (fs_fd t1)) (fs_freefd t1))))))) as Hun.
    { split_and!; [exact Efiles|exact Epipes|done|done|]. simpl. rewrite Nat2Z.id, list_insert_insert_eq.
      rewrite (list_insert_id (fs_fd t)) by done. rewrite list_fmap_insert. simpl. apply list_insert_id.
      by rewrite list_lookup_fmap, Ht. }
    split_and!; [reflexivity|by eapply unchanged_inv|exact Hun].
  - destruct (Z.ltb_spec (Z.of_nat wfd) 0); [lia|]. eexists _, _. split_and!; [reflexivity| |done].
    pose proof (install_inv _ _ s2 pid t rfd r (Z.of_nat rfd + 1) Hk2 Ht Hrfd) as Hk3.
    assert (kinv (bump r (-1) (bump w 1 (bump r 1 lost))) none (put_tab s2 pid t1)) as Hk3'.
    { apply Hk3. pose proof (ki_ex _ _ _ Hk r). unfold bump. repeat case_decide; lia. }
    pose proof (install_inv _ _ (put_tab s2 pid t1) pid t1 wfd w (Z.of_nat wfd + 1) Hk3') as Hk4.
    assert (k_tabs (put_tab s2 pid t1) !! pid = Some t1) as Ht1
      by (simpl; apply list_lookup_insert_eq; by eapply lookup_lt_Some).
    specialize (Hk4 Ht1 Hwfd). unfold put_tab in Hk4 at 1. unfold set_tabs in Hk4. simpl in Hk4.
    rewrite list_insert_insert_eq in Hk4.
    eapply kinv_ext; [apply Hk4; pose proof (ki_ex _ _ _ Hk w); unfold bump; repeat case_decide; simplify_eq; lia| |done].
    intros g. unfold bump. repeat case_decide; simplify_eq; lia.
Qed.

Lemma pipe_spec s pid :
  kinv lost none s → is_Some (k_tabs s !! pid) →
  ∃ res s', pipe pid s = Ret (res, s') ∧ kinv lost none s' ∧
    match res with Some _ => True | None => unchanged s s' end.
Proof.
  intros Hk [t Ht]. unfold pipe, get_tab. rewrite Ht. cbn [or_fault]. rewrite bind_ret.
  destruct (kalloc_answer_spec s) as (b1 & a1 & ->). destruct b1; cbn [negb];
    [|eexists _, _; split_and!; [reflexivity|by apply kinv_alloc|done]].
  destruct (kalloc_answer_spec (set_alloc a1 s)) as (b2 & a2 & ->). destruct b2; cbn [negb];
    [|eexists _, _; split_and!; [reflexivity|by apply kinv_alloc, kinv_alloc|done]].
  change (set_alloc a2 (set_alloc a1 s)) with (set_alloc a2 s). cbv zeta.
  set (p := fresh (dom (k_pipes (set_alloc a2 s)))).
  assert (k_pipes s !! p = None) as Hp by (apply not_elem_of_dom, is_fresh).
  assert (delete p (<[p := new_pipe]> (k_pipes s)) = k_pipes s) as Edel by by rewrite delete_insert_eq, delete_id.
  unfold pipe_new_file. change (FLAG_PIPE_READ =? FLAG_PIPE_READ) with true.
  change (FLAG_PIPE_WRITE =? FLAG_PIPE_READ) with false. cbv iota.
  destruct (new_file_spec (File 0 1 FLAG_PIPE_READ (Some g_pipe_read_ops) (Some (PPipe p)))
    (put_pipe (set_alloc a2 s) p new_pipe)) as (a3 & [->|(r & -> & Hr)]).
  - destruct (new_file_spec (File 0 1 FLAG_PIPE_WRITE (Some g_pipe_write_ops) (Some (PPipe p)))
      (set_alloc a3 (put_pipe (set_alloc a2 s) p new_pipe))) as (a4 & [->|(w & -> & Hw)]).
    + eexists _, _. assert (unchanged s (kfree_pipe p (set_alloc a4 (put_pipe (set_alloc a2 s) p new_pipe)))) as Hun
        by (split_and!; [done|exact Edel|done..]). split_and!; [reflexivity|by eapply unchanged_inv|exact Hun].
    + eexists _, _. split_and!; [reflexivity| |].
      * eapply unchanged_inv; [done|]. split_and!; [simpl; by rewrite delete_insert_eq, delete_id|exact Edel|done..].
      * split_and!; [simpl; by rewrite delete_insert_eq, delete_id|exact Edel|done..].
  - simpl in Hr. destruct (new_file_spec (File 0 1 FLAG_PIPE_WRITE (Some g_pipe_write_ops) (Some (PPipe p)))
      (put_file (set_alloc a3 (put_pipe (set_alloc a2 s) p new_pipe)) r
        (File 0 1 FLAG_PIPE_READ (Some g_pipe_read_ops) (Some (PPipe p))))) as (a4 & [->|(w & -> & Hw)]).
    + eexists _, _. split_and!; [reflexivity| |].
      * eapply unchanged_inv; [done|]. split_and!; [simpl; by rewrite delete_insert_eq, delete_id|exact Edel|done..].
      * split_and!; [simpl; by rewrite delete_insert_eq, delete_id|exact Edel|done..].
    + simpl in Hw. destruct (decide (r = w)) as [->|Hne]; [by rewrite lookup_insert_eq in Hw|].
      rewrite lookup_insert_ne in Hw by done.
      destruct (pipe_install (set_alloc a4 s) pid t p r w) as (res & s' & Hrun & Hk' & Hun);
        [by apply kinv_alloc|done..|]. exists res, s'. split_and!; [exact Hrun|done|exact Hun].
Qed.

(** ** Terminals *)

Lemma tty_release_inv ex tx s t :
  kinv ex tx s → tty_ok t → 0 < tx t →
  ∃ s', tty_release sc sr t s = Ret s' ∧ k_tabs s' = k_tabs s ∧ kinv ex (bump t (-1) tx) s'.
Proof.
  intros Hk Ht Htx. destruct (get_tty_Ret Hk t Ht) as [u Hu]. rewrite (tty_release_Ret sc sr t u) by done.
  eexists. split_and!; [done|by rewrite (proj1 (proj2 (proj2 (put_tty_rest _ _ _))))|].
  destruct (ki_ttys _ _ _ Hk t u Hu) as (Hrc & Hsc & Hac).
  pose proof (cnt_nonneg FLAG_TTY_SLAVE (PTty t) (k_files s)). pose proof (cnt_nonneg FLAG_TTY_MASTER (PTty t) (k_files s)).
  apply (kinv_put_tty ex tx); [done|done|intros; by apply bump_ne|rewrite bump_eq; lia|].
  unfold tty_counts, released. rewrite bump_eq. destruct (Z.ltb_spec 0 (refcount u)); [|lia].
  cbn [refcount slave_refs active set_refs]. case_decide as Hcon; [subst t; simpl; split_and!; [lia|lia|done]|].
  specialize (Hac Hcon). destruct (Z.eqb_spec (refcount u - 1) 0); cbn [refcount slave_refs active tty_reset set_refs].
  - split_and!; [lia|lia|done].
  - split_and!; [lia|lia|]. intros _. rewrite Hac. lia.
Qed.

(** The reference to a new file, if there is one. *)
Definition got (f : option nat) (ex : nat → Z) : nat → Z := match f with Some f => bump f 1 ex | None => ex end.

Lemma tty_new_file_inv ex tx s flag ops t :
  kinv ex tx s → tty_ok t →
  (flag = FLAG_TTY_SLAVE ∧ ops = g_tty_slave_file_ops ∨ flag = FLAG_TTY_MASTER ∧ ops = g_tty_master_file_ops) →
  (t ≠ Console → ∃ u, get_tty s t = Ret u ∧ 0 < refcount u) →
  ∃ f s', tty_new_file flag ops t s = Ret (f, s') ∧ k_tabs s' = k_tabs s ∧ kinv (got f ex) tx s' ∧
    (t ≠ Console → ∃ u, get_tty s' t = Ret u ∧ 0 < refcount u).
Proof.
  intros Hk Ht Hfl Hlive. unfold tty_new_file. set (x := File 0 1 flag (Some ops) (Some (PTty t))).
  destruct (new_file_spec x s) as (a & [->|(f & -> & Hf)]);
    [eexists None, _; split_and!; [done|done|by apply kinv_alloc|by destruct t]|].
  destruct (get_tty_Ret Hk t Ht) as [u Hu].
  assert (get_tty (put_file (set_alloc a s) f x) t = Ret u) as Hu1 by by destruct t.
  rewrite Hu1, bind_ret. set (v := if flag =? FLAG_TTY_SLAVE then _ else u).
  unfold tty_retain. rewrite get_put_tty, decide_True, !bind_ret by eauto.
  set (w := set_refs (active v) (has_master v) (refcount v + 1) (slave_refs v) v).
  eexists (Some f), _. split; [done|]. split; [by rewrite !(proj1 (proj2 (proj2 (put_tty_rest _ _ _))))|].
  set (s3 := put_tty (put_tty (put_file (set_alloc a s) f x) t v) t w).
  destruct (put_tty_rest (put_file (set_alloc a s) f x) t v) as (Ef1 & Ep1 & Et1 & El1).
  destruct (put_tty_rest (put_tty (put_file (set_alloc a s) f x) t v) t w) as (Ef & Ep & Et & El). fold s3 in Ef, Ep, Et, El.
  assert (k_files s3 = <[f := x]> (k_files s)) as Efin by (rewrite Ef, Ef1; done).
  destruct (ki_ttys _ _ _ Hk t u Hu) as (Hrc & Hsc & Hac).
  assert (get_tty s3 t = Ret w) as Hw.
  { unfold s3. rewrite get_put_tty by (rewrite get_put_tty by eauto; rewrite decide_True by done; eauto). by rewrite decide_True. }
  assert (refcount w = refcount u + 1 ∧ slave_refs w = slave_refs u + Z.b2z (flag =? FLAG_TTY_SLAVE) ∧ active w = active u)
    as (Hrw & Hsw & Haw) by (unfold w, v; destruct (flag =? FLAG_TTY_SLAVE); simpl; split_and!; lia || done).
  pose proof (cnt_nonneg FLAG_TTY_SLAVE (PTty t) (k_files s)). pose proof (cnt_nonneg FLAG_TTY_MASTER (PTty t) (k_files s)).
  pose proof (ki_tx _ _ _ Hk t). split; [|intros _; exists w; split; [done|lia]].
  eapply (kinv_add ex tx tx s s3 f x); try done.
  - unfold file_ok, x. simpl. destruct Hfl as [[-> ->]|[-> ->]]; done.
  - by rewrite Et, Et1.
  - rewrite El, El1. apply Hk.
  - apply Hk.
  - intros p. apply (pipe_ok_frame s); [by rewrite Ep, Ep1| |apply Hk]. intros fl. rewrite Efin. by apply add_cnt.
  - intros t' u' Hu'. destruct (decide (t' = t)) as [->|Hne].
    + rewrite Hw in Hu'. injection Hu' as <-. unfold tty_counts. rewrite Efin, !add_cnt_self by done. simpl f_stdioflag.
      rewrite Hrw, Hsw, Haw. destruct Hfl as [[-> _]|[-> _]]; simpl; split_and!; try lia; intros Hc; rewrite (Hac Hc);
        destruct (Hlive Hc) as (u0 & Hu0 & Hpos); assert (u0 = u) as -> by congruence; lia.
    + apply (tty_counts_frame tx s); [intros fl; rewrite Efin; apply add_cnt; [done|simpl; congruence]|].
      apply (ki_ttys _ _ _ Hk). unfold s3 in Hu'.
      rewrite !get_put_tty, !decide_False in Hu' by (done || (rewrite ?get_put_tty, ?decide_True by eauto; eauto)).
      by destruct t'.
Qed.

Lemma find_pty_spec l i j : find_pty l i = Some j → ∃ u, (i ≤ j)%nat ∧ l !! (j - i)%nat = Some u ∧ active u = false.
Proof.
  revert i. induction l as [|t l IH]; intros i; simpl; [done|]. destruct (active t) eqn:E; simpl.
  - intros (u & Hij & Hu & Ha)%IH. exists u. split_and!; [lia| |done].
    replace (j - i)%nat with (S (j - S i)) by lia. done.
  - intros [= <-]. exists t. rewrite Nat.sub_diag. done.
Qed.

Lemma tty_alloc_pty_inv s :
  kinv lost none s →
  match tty_alloc_pty sc sr s with
  | (None, s') => s' = s
  | (Some i, s') => kinv lost (bump (Pty i) 1 none) s' ∧ k_tabs s' = k_tabs s ∧ (i < TTY_POOL_MAX)%nat ∧
      ∃ u, get_tty s' (Pty i) = Ret u ∧ 0 < refcount u
  end.
Proof.
  intros Hk. unfold tty_alloc_pty. destruct (find_pty (k_ptys s) 0) as [i|] eqn:E; [|done].
  apply find_pty_spec in E as (u & _ & Hu & Ha). rewrite Nat.sub_0_r in Hu.
  pose proof (lookup_lt_Some _ _ _ Hu) as Hi. rewrite (ki_ptys _ _ _ Hk) in Hi.
  assert (get_tty s (Pty i) = Ret u) as Hg by (simpl; by rewrite Hu).
  destruct (ki_ttys _ _ _ Hk (Pty i) u Hg) as (Hrc & Hsc & Hac). specialize (Hac ltac:(done)). rewrite Ha in Hac.
  pose proof (cnt_nonneg FLAG_TTY_SLAVE (PTty (Pty i)) (k_files s)).
  pose proof (cnt_nonneg FLAG_TTY_MASTER (PTty (Pty i)) (k_files s)). unfold none in Hrc.
  split_and!; [|done|done|].
  - apply (kinv_put_tty lost none); [done|done|intros; by apply bump_ne|by rewrite bump_eq|].
    unfold tty_counts. rewrite bump_eq. unfold none. cbn [refcount slave_refs active set_refs tty_reset].
    split_and!; [lia|lia|done].
  - eexists. rewrite (get_put_tty s (Pty i)) by eauto. rewrite decide_True by done. split; [done|]. simpl. lia.
Qed.

Lemma tty_openpty_inv s pid :
  kinv lost none s → is_Some (k_tabs s !! pid) →
  ∃ fd s', tty_openpty sc sr pid s = Ret (fd, s') ∧ kinv lost none s'.
Proof.
  intros Hk [t Ht]. unfold tty_openpty, get_tab. rewrite Ht. cbn [or_fault]. rewrite bind_ret.
  pose proof (tty_alloc_pty_inv s Hk) as Hal. destruct (tty_alloc_pty sc sr s) as [[i|] s1];
    [|subst s1; by eexists _, _].
  destruct Hal as (Hk1 & Ht1 & Hi & Hlive).
  destruct (tty_new_file_inv lost _ s1 FLAG_TTY_MASTER g_tty_master_file_ops (Pty i) Hk1)
    as (f & s2 & -> & Ht2 & Hk2 & _); [done|auto|done|]. rewrite bind_ret.
  assert (∀ s (k : Z), kinv lost (bump (Pty i) 1 none) s → ∃ fd s', (s' ← tty_release sc sr (Pty i) s; Ret (k, s')) = Ret (fd, s') ∧
    kinv lost none s') as Hrel.
  { intros s0 k Hk0. destruct (tty_release_inv lost _ s0 (Pty i) Hk0) as (s' & -> & _ & Hk'); [done|by rewrite bump_eq|].
    eexists _, _. split; [done|]. eapply kinv_ext; [exact Hk'|done|]. intros g. by rewrite (bump_undo (Pty i) 1). }
  destruct f as [f|]; [|by apply Hrel]. cbn [got] in Hk2.
  destruct (files_alloc_fd_spec t f) as [[-> _]|(fd & -> & Hfd)].
  - change (-1 <? 0) with true. cbv iota.
    destruct (file_put_inv sc sr _ _ s2 f Hk2) as (s3 & -> & _ & Hk3); [by eapply bump_pos|]. rewrite bind_ret.
    apply Hrel. eapply kinv_ext; [exact Hk3|intros g; by rewrite (bump_undo f 1)|done].
  - destruct (Z.ltb_spec (Z.of_nat fd) 0); [lia|]. apply Hrel.
    eapply kinv_ext; [eapply (install_inv _ _ s2 pid t fd f); [exact Hk2|congruence|done|by eapply bump_pos]| |done].
    intros g. by rewrite (bump_undo f 1).
Qed.

(** A terminal that some file or caller holds. *)
Definition live (s : kernel) (t : tty_ptr) : Prop :=
  tty_ok t ∧ (t ≠ Console → ∃ u, get_tty s t = Ret u ∧ 0 < refcount u).

Lemma put_tab_twice s pid t1 t2 : put_tab (put_tab s pid t1) pid t2 = put_tab s pid t2.
Proof. unfold put_tab, set_tabs. simpl. by rewrite list_insert_insert_eq. Qed.

Lemma stdio_table_inv s pid t f0 f1 f2 : kinv (bump f2 1 (bump f1 1 (bump f0 1 lost))) none s → (∀ f, 0 ≤ lost f) → k_tabs s !! pid = Some t →
  ∃ b s' lost', (let '(fd0, t) := files_alloc_fd t f0 in let '(fd1, t) := files_alloc_fd t f1 in let '(fd2, t) := files_alloc_fd t f2 in
    Ret ((fd0 =? 0) && (fd1 =? 1) && (fd2 =? 2), put_tab s pid t)) = Ret (b, s') ∧ kinv lost' none s' ∧
    (∀ f, lost f ≤ lost' f) ∧ (b = true → ∀ f, lost' f = lost f).
Proof.
  intros Hk H0 Ht. destruct (files_alloc_fd t f0) as [fd0 t0] eqn:A0. destruct (files_alloc_fd t0 f1) as [fd1 t1] eqn:A1.
  destruct (files_alloc_fd t1 f2) as [fd2 t2] eqn:A2. pose proof (H0 f0). pose proof (H0 f1). pose proof (H0 f2).
  destruct (alloc_inv _ _ s pid t f0 fd0 t0 Hk Ht) as [Hk4 Ht4]; [unfold bump; repeat case_decide; lia || done|done|].
  destruct (alloc_inv _ _ _ pid t0 f1 fd1 t1 Hk4 Ht4) as [Hk5 Ht5].
  { unfold moved, bump. destruct (0 <=? fd0); repeat case_decide; lia || done. } { done. }
  destruct (alloc_inv _ _ _ pid t1 f2 fd2 t2 Hk5 Ht5) as [Hk6 _].
  { unfold moved, bump. destruct (0 <=? fd0), (0 <=? fd1); repeat case_decide; lia || done. } { done. }
  rewrite !put_tab_twice in Hk6. eexists _, _, _. split; [reflexivity|]. split; [exact Hk6|]. unfold moved. split.
  - intros f. destruct (0 <=? fd0), (0 <=? fd1), (0 <=? fd2); unfold bump; repeat case_decide; lia.
  - intros [[->%Z.eqb_eq ->%Z.eqb_eq]%andb_true_iff ->%Z.eqb_eq]%andb_true_iff f. simpl.
    unfold bump; repeat case_decide; lia.
Qed.

(** The standard files on a live terminal: what is not put into the table is lost. *)
Lemma tty_install_stdio_inv s pid tp :
  kinv lost none s → is_Some (k_tabs s !! pid) → live s tp →
  ∃ b s' lost', tty_install_stdio pid tp s = Ret (b, s') ∧ kinv lost' none s' ∧
    (∀ f, lost f ≤ lost' f) ∧ (b = true → ∀ f, lost' f = lost f).
Proof.
  intros Hk [t Ht] [Hok Hl]. unfold tty_install_stdio. pose proof (ki_ex _ _ _ Hk) as H0.
  destruct (tty_new_file_inv _ _ s FLAG_TTY_SLAVE g_tty_slave_file_ops tp Hk Hok) as (f0 & s1 & -> & Ht1 & Hk1 & Hl1); [auto|done|].
  destruct (tty_new_file_inv _ _ s1 FLAG_TTY_SLAVE g_tty_slave_file_ops tp Hk1 Hok) as (f1 & s2 & E2 & Ht2 & Hk2 & Hl2); [auto|done|].
  destruct (tty_new_file_inv _ _ s2 FLAG_TTY_SLAVE g_tty_slave_file_ops tp Hk2 Hok) as (f2 & s3 & E3 & Ht3 & Hk3 & _); [auto|done|].
  rewrite bind_ret, E2, bind_ret, E3, bind_ret.
  assert (∃ b s' lost', Ret (false, s3) = Ret (b, s') ∧ kinv lost' none s' ∧ (∀ f, lost f ≤ lost' f) ∧ (b = true → ∀ f, lost' f = lost f)) as Hfail.
  { eexists false, s3, _. split; [done|]. split; [exact Hk3|]. split; [|done]. intros f.
    destruct f0, f1, f2; unfold got, bump; repeat case_decide; lia. }
  destruct f0 as [f0|], f1 as [f1|], f2 as [f2|]; try exact Hfail.
  unfold get_tab. rewrite Ht3, Ht2, Ht1, Ht. cbn [or_fault]. rewrite bind_ret.
  apply stdio_table_inv; [exact Hk3|done|congruence].
Qed.

(** A transfer through a pipe. *)
Lemma pipe_io_inv s p q q' :
  kinv lost none s → k_pipes s !! p = Some q → pipe_inv q' → read_open q' = read_open q → write_open q' = write_open q →
  kinv lost none (put_pipe s p q').
Proof.
  intros Hk Hq Hi Hr Hw. constructor; try apply Hk. intros p'. destruct (decide (p' = p)) as [->|Hne].
  - pose proof (ki_pipes _ _ _ Hk p) as Hp. unfold pipe_ok in *. simpl. rewrite lookup_insert_eq. rewrite Hq in Hp.
    destruct Hp as (? & ? & ? & _). split_and!; [congruence..|done|done].
  - apply (pipe_ok_frame s); [simpl; by rewrite lookup_insert_ne|done|apply Hk].
Qed.
End calls.

(** ** The kernel as a transition system *)

(** One system call of some process, or a transfer through a pipe.  The flag says
    that references may be lost: [dup] on a full table, or standard files that are
    not all installed.  A descriptor outside the table makes [close] read outside
    of the table; what it reads is not used.  [tty_install_stdio] is called with the
    console or with the terminal of a descriptor, which is live. *)
Inductive kstep (sc sr : Z) : bool → kernel → kernel → Prop :=
  | step_pipe s s' pid r : is_Some (k_tabs s !! pid) → pipe pid s = Ret (r, s') → kstep sc sr false s s'
  | step_dup s s' pid t fd r : k_tabs s !! pid = Some t → files_dup pid fd s = Ret (r, s') → kstep sc sr (full t) s s'
  | step_fork s s' pid : is_Some (k_tabs s !! pid) → new_process files_clone pid s = Ret s' → kstep sc sr false s s'
  | step_spawn s s' pid : is_Some (k_tabs s !! pid) → new_process files_clone_stdio pid s = Ret s' → kstep sc sr false s s'
  | step_close s s' pid fd r : is_Some (k_tabs s !! pid) → 0 ≤ fd < Z.of_nat FILEDESC_MAX →
      close sc sr pid fd s = Ret (r, s') → kstep sc sr false s s'
  | step_close_outside s pid fd : is_Some (k_tabs s !! pid) → ¬ 0 ≤ fd < Z.of_nat FILEDESC_MAX → kstep sc sr false s s
  | step_exit s s' pid : is_Some (k_tabs s !! pid) → files_close_all sc sr pid s = Ret s' → kstep sc sr false s s'
  | step_openpty s s' pid r : is_Some (k_tabs s !! pid) → tty_openpty sc sr pid s = Ret (r, s') → kstep sc sr false s s'
  | step_stdio s s' pid tp b : is_Some (k_tabs s !! pid) → live s tp →
      tty_install_stdio pid tp s = Ret (b, s') → kstep sc sr (negb b) s s'
  | step_read s p q q' woken count r : k_pipes s !! p = Some q → is_u32 count →
      pipe_read woken count q = Ret (r, q') → kstep sc sr false s (put_pipe s p q')
  | step_write s p q q' buf n : k_pipes s !! p = Some q → is_u32 (Z.of_nat (length buf)) →
      pipe_write buf (Z.of_nat (length buf)) q = Ret (n, q') → kstep sc sr false s (put_pipe s p q').

(** A sequence of calls, and whether one of them may have lost references. *)
Inductive krun (sc sr : Z) : bool → kernel → kernel → Prop :=
  | krun_refl s : krun sc sr false s s
  | krun_step l1 l2 s1 s2 s3 : kstep sc sr l1 s1 s2 → krun sc sr l2 s2 s3 → krun sc sr (l1 || l2) s1 s3.

(** One process without files, and the terminals after [init_tty]. *)
Definition boot_state (sc sr : Z) (answers : list bool) : kernel :=
  init_tty sc sr (Kernel ∅ ∅ zero_tty [] [Files empty_fds 0] answers).

Lemma boot_state_inv sc sr answers : kinv none none (boot_state sc sr answers).
Proof.
  constructor; try done.
  - by repeat constructor.
  - intros t u Hu. destruct t as [|i]; cbn [get_tty boot_state init_tty k_ptys k_console] in Hu;
      [injection Hu as <-; done|]. unfold or_fault in Hu.
    destruct (replicate TTY_POOL_MAX zero_tty !! i) eqn:E; [|done].
    apply lookup_replicate in E as [-> _]. by injection Hu as <-.
Qed.

Lemma kstep_inv sc sr lost lossy s s' : kinv lost none s → kstep sc sr lossy s s' →
  ∃ lost', kinv lost' none s' ∧ (lossy = false → ∀ f, lost' f = lost f).
Proof.
  intros Hk Hst. destruct Hst as [s s' pid r Hp Hr|s s' pid t fd r Ht Hr|s s' pid Hp Hr|s s' pid Hp Hr|s s' pid fd r Hp Hf Hr|s pid fd Hp Hf|
    s s' pid Hp Hr|s s' pid r Hp Hr|s s' pid tp b Hp Hl Hr|s p q q' woken count r Hq Hc Hr|s p q q' buf n Hq Hc Hr].
  - exists lost. destruct (pipe_spec lost s pid Hk Hp) as (? & ? & Hr' & Hk' & _). split; [congruence|done].
  - destruct (files_dup_inv lost s pid t fd Hk Ht) as (? & ? & lost' & Hr' & Hk' & _ & ?). exists lost'. split; [congruence|done].
  - exists lost. destruct (fork_inv lost s pid Hk Hp) as (? & Hr' & Hk'). split; [congruence|done].
  - exists lost. destruct (spawn_inv lost s pid Hk Hp) as (? & Hr' & Hk'). split; [congruence|done].
  - exists lost. destruct (close_inv sc sr lost s pid fd Hk Hp Hf) as (? & ? & Hr' & Hk'). split; [congruence|done].
  - by exists lost.
  - exists lost. destruct (files_close_all_inv sc sr lost s pid Hk Hp) as (? & Hr' & Hk'). split; [congruence|done].
  - exists lost. destruct (tty_openpty_inv sc sr lost s pid Hk Hp) as (? & ? & Hr' & Hk'). split; [congruence|done].
  - destruct (tty_install_stdio_inv lost s pid tp Hk Hp Hl) as (b' & ? & lost' & Hr' & Hk' & _ & Hb). exists lost'.
    rewrite Hr in Hr'. injection Hr' as <- <-. split; [done|]. intros E. apply Hb. by destruct b.
  - exists lost. split; [|done]. pose proof (ki_pipes _ _ _ Hk p) as Hpo. unfold pipe_ok in Hpo. rewrite Hq in Hpo. destruct Hpo as (_ & _ & _ & Hi).
    apply (pipe_io_inv lost s p q); [done|done|..]; (destruct (decide (contents q = [])) as [E|Hne];
      [rewrite pipe_read_empty in Hr by done; congruence|]);
      destruct (pipe_read_data woken count q Hi Hc Hne) as (? & Hr' & ? & _ & ? & ?); congruence.
  - exists lost. split; [|done]. pose proof (ki_pipes _ _ _ Hk p) as Hpo. unfold pipe_ok in Hpo. rewrite Hq in Hpo. destruct Hpo as (_ & _ & _ & Hi).
    destruct (decide (read_open q = 0)) as [E|Hne].
    + unfold pipe_write in Hr. rewrite E in Hr. simpl in Hr. injection Hr as _ <-. by apply (pipe_io_inv lost s p q).
    + destruct (pipe_write_spec buf (Z.of_nat (length buf)) q) as (? & Hr' & ? & _ & ? & ?); [done|lia|done|done|].
      apply (pipe_io_inv lost s p q); congruence.
Qed.

(** ** Theorems *)

Lemma refs_slot f tabs : 0 < refs f tabs → ∃ pid t fd, tabs !! pid = Some t ∧ fs_fd t !! fd = Some (Some f).
Proof.
  induction tabs as [|t tabs IH]; simpl; [done|]. intros Hpos. destruct (decide (0 < occ f t)) as [Ho|Ho].
  - exists 0%nat, t. unfold occ in Ho. clear -Ho. induction (fs_fd t) as [|a l IHl]; simpl in Ho; [done|].
    destruct (decide (a = Some f)) as [->|]; [by exists 0%nat|].
    destruct IHl as (fd & _ & Hfd); [lia|]. by exists (S fd).
  - pose proof (occ_nonneg f t). destruct IH as (pid & t' & fd & ? & ?); [lia|]. by exists (S pid), t', fd.
Qed.

Lemma cnt_pos flag pd files :
  0 < cnt flag pd files ↔ ∃ f x, files !! f = Some x ∧ f_stdioflag x = flag ∧ private_data x = Some pd.
Proof.
  split.
  - intros Hc. unfold cnt in Hc. set (m := filter _ files) in Hc.
    destruct (map_choose m) as (f & x & Hf); [intros E; rewrite E, map_size_empty in Hc; lia|].
    apply map_lookup_filter_Some in Hf as [Hf Ho]. apply bool_decide_eq_true in Ho as [? ?]. eauto.
  - intros (f & x & Hf & Hfl & Hp). apply (cnt_self (s := Kernel files ∅ (tty_reset 0 0 false) [] [] []) f x Hf).
    by apply bool_decide_eq_true.
Qed.

(** Some process has a descriptor for a file with this flag on the pipe [p]. *)
Definition has_descriptor (flag : Z) (p : nat) (s : kernel) : Prop :=
  ∃ pid t fd f x, k_tabs s !! pid = Some t ∧ fs_fd t !! fd = Some (Some f) ∧ k_files s !! f = Some x ∧
    f_stdioflag x = flag ∧ private_data x = Some (PPipe p).

Lemma has_descriptor_open s flag p : has_descriptor flag p s → 0 < cnt flag (PPipe p) (k_files s).
Proof. intros (pid & t & fd & f & x & _ & _ & ? & ? & ?). apply cnt_pos. eauto. Qed.

Lemma has_descriptor_cnt lost s flag p : kinv lost none s → (∀ f, lost f = 0) →
  0 < cnt flag (PPipe p) (k_files s) ↔ has_descriptor flag p s.
Proof.
  intros Hk H0. split; [|apply has_descriptor_open]. rewrite cnt_pos.
  intros (f & x & Hf & Hfl & Hp). pose proof (ki_files _ _ _ Hk f) as Hfi. unfold file_inv in Hfi. rewrite Hf in Hfi.
  destruct Hfi as (Hc & Hpos & _). rewrite H0 in Hc. destruct (refs_slot f (k_tabs s)) as (pid & t & fd & ? & ?); [lia|].
  by exists pid, t, fd, f, x.
Qed.

Lemma krun_inv sc sr lossy lost s s' : kinv lost none s → krun sc sr lossy s s' →
  ∃ lost', kinv lost' none s' ∧ (lossy = false → ∀ f, lost' f = lost f).
Proof.
  intros Hk Hr. revert lost Hk. induction Hr as [s|l1 l2 s1 s2 s3 Hst _ IH]; intros lost Hk; [by exists lost|].
  destruct (kstep_inv sc sr lost l1 s1 s2 Hk Hst) as (lost1 & Hk1 & E1). destruct (IH lost1 Hk1) as (lost2 & Hk2 & E2).
  exists lost2. split; [done|]. intros [-> ->]%orb_false_iff f. by rewrite E2, E1.
Qed.

Lemma reach_inv sc sr answers lossy s : krun sc sr lossy (boot_state sc sr answers) s →
  ∃ lost, kinv lost none s ∧ (lossy = false → ∀ f, lost f = 0).
Proof. apply krun_inv, boot_state_inv. Qed.

(** The boot state after one call of [pipe]. *)
Lemma piped : ∃ s', pipe 0 (boot_state 80 25 []) = Ret (Some (0, 1), s') ∧ krun 80 25 false (boot_state 80 25 []) s' ∧
  size (k_files s') = 2%nat ∧ is_Some (k_pipes s' !! 0%nat).
Proof.
  assert (match pipe 0 (boot_state 80 25 []) with
    Ret (r, s') => r = Some (0, 1) ∧ size (k_files s') = 2%nat ∧ is_Some (k_pipes s' !! 0%nat) | _ => False end) as Hs
    by (vm_compute; eauto).
  destruct (pipe 0 (boot_state 80 25 [])) as [[r s']| |] eqn:Hrun; [|done..]. destruct Hs as (-> & H1 & H2).
  exists s'. split_and!; [done| |done|done]. apply (krun_step 80 25 false false _ s'); [|constructor].
  by apply (step_pipe 80 25 _ _ 0 (Some (0, 1))); [eexists|].
Qed.





(** C15: after any calls, [pipe] returns, and whichever allocation or descriptor it fails to
    get, it gives back everything it took: files, pipes, terminals and descriptors are as
    before. *)
Theorem pipe_fails_clean sc sr answers lossy s pid :
  krun sc sr lossy (boot_state sc sr answers) s → is_Some (k_tabs s !! pid) →
  ∃ res s', pipe pid s = Ret (res, s') ∧ (res = None → unchanged s s').
Proof.
  intros (lost & Hk & _)%reach_inv Hp.
  destruct (pipe_spec lost s pid Hk Hp) as (res & s1 & Hrun & _ & Hun). exists res, s1. split; [done|]. by intros ->.
Qed.

Lemma pipe_fails_clean_witness : let s := boot_state 80 25 [true; true; true; false] in
  ∃ s', pipe 0 s = Ret (None, s') ∧ unchanged s s' ∧ k_alloc s' = [].
Proof.
  destruct (pipe_fails_clean 80 25 [true; true; true; false] false (boot_state 80 25 [true; true; true; false]) 0) as (res & s' & Hrun & Hun);
    [apply krun_refl|by eexists|].
  assert (match pipe 0 (boot_state 80 25 [true; true; true; false]) with Ret (r, s') => r = None ∧ k_alloc s' = [] | _ => False end) as Hs
    by (vm_compute; split; reflexivity).
  rewrite Hrun in Hs. destruct Hs as [-> Ha]. exists s'. split; [exact Hrun|]. split; [exact (Hun eq_refl)|exact Ha].
Defined.

(** When the table is full, [files_dup] has already counted the descriptor it does
    not get: from a state where the count of the file is the number of its
    descriptors, the count is one too high. *)
Definition full_table : kernel :=
  Kernel {[ 0%nat := File 0 (Z.of_nat FILEDESC_MAX) FLAG_TTY_SLAVE (Some g_tty_slave_file_ops) (Some (PTty Console)) ]} ∅
    (tty_reset 80 25 false) [] [Files (replicate FILEDESC_MAX (Some 0%nat)) 0] [].

Example files_dup_leaks :
  match files_dup 0 0 full_table with
  | Ret (fd, s) =>
      fd = -1 ∧ f_refcount <$> k_files s !! 0%nat = Some (Z.of_nat FILEDESC_MAX + 1) ∧
      fs_fd <$> k_tabs s = fs_fd <$> k_tabs full_table
  | _ => False
  end.
Proof. vm_compute. repeat split. Qed.

(** [close] of a descriptor outside the table reads outside the table. *)
Example close_out_of_table : close 80 25 0 32 (boot_state 80 25 []) = Fault.
Proof. reflexivity. Qed.
