(* ===== verification/Poll.v ===== *)
(** * Waiting for events: model of src/poll.c

    [sys_poll] looks at its descriptors, sleeps, and looks again.  What the rest of the
    system does in the meantime is a sequence of worlds, one for each time it looks;
    a sleep that never ends is a sequence that is too short. *)

From S2P Require Import Prelude Ring Pipe Tty Files.

(** ** The code *)

Definition MAX_SOCKETS : Z := 64.
Definition SOCK_STREAM : Z := 1.
Definition SOCK_STATE_UNUSED : Z := 0.
Definition SOCK_STATE_LISTENING : Z := 3.
Definition SOCK_STATE_CLOSED : Z := 5.

(** The members of [struct kern_socket] that [poll.c] reads. *)
Record kern_socket := Socket {
  sk_state : Z;
  sk_type : Z;
  rx_len : Z;
  backlog_count : Z;
  tx_pending : Z }.

Record pollfd := Pollfd { p_fd : Z; p_events : Z; p_revents : Z }.

(** What a scan reads: the sockets, the files, and the descriptor table of the current
    process, if there is one; and the tick the code reads after the scan. *)
Record world := World {
  socket_table : list kern_socket;
  w_kernel : kernel;
  w_current : option nat;
  kernel_tick : Z }.

Definition wants (events flag : Z) : bool := negb (Z.land events flag =? 0).
Definition flag_if (b : bool) (flag : Z) (r : Z) : Z := if b then Z.lor r flag else r.

Definition poll_scan_socket (w : world) (fd events : Z) : outcome Z :=
  if (fd <? 0) || (MAX_SOCKETS <=? fd) then Ret 0
  else
    sk ← load1 (socket_table w) fd;
    if sk_state sk =? SOCK_STATE_UNUSED then Ret 0
    else
      let r := flag_if (sk_state sk =? SOCK_STATE_CLOSED) POLLHUP 0 in
      let r := if wants events POLLIN then
                 if sk_state sk =? SOCK_STATE_LISTENING then flag_if (0 <? backlog_count sk) POLLIN r
                 else flag_if (0 <? rx_len sk) POLLIN r
               else r in
      let r := if wants events POLLOUT then
                 flag_if (negb (sk_state sk =? SOCK_STATE_CLOSED) && negb (sk_state sk =? SOCK_STATE_UNUSED) &&
                          (negb (sk_type sk =? SOCK_STREAM) || (tx_pending sk =? 0))) POLLOUT r
               else r in
      Ret r.

Definition poll_scan_tty (w : world) (file : file) (events : Z) : outcome Z :=
  match private_data file with
  | None => Ret 0
  | Some (PPipe _) => Fault
  | Some (PTty t) =>
      tty ← get_tty (w_kernel w) t;
      if f_stdioflag file =? FLAG_TTY_MASTER then
        let r := flag_if (wants events POLLIN && negb (tty_ring_empty (master_rx tty))) POLLIN 0 in
        let r := flag_if (wants events POLLOUT && (0 <? slave_refs tty)) POLLOUT r in
        Ret (flag_if (slave_refs tty <=? 0) POLLHUP r)
      else if f_stdioflag file =? FLAG_TTY_SLAVE then
        let r := flag_if (wants events POLLIN && negb (tty_ring_empty (slave_rx tty))) POLLIN 0 in
        let r := flag_if (wants events POLLOUT && has_master tty) POLLOUT r in
        Ret (flag_if (negb (has_master tty)) POLLHUP r)
      else Ret 0
  end.

(** [pipe_poll_events] of src/pipe.c on the object of an end. *)
Definition poll_scan_pipe (w : world) (file : file) (events : Z) : outcome Z :=
  match private_data file with
  | None => Ret 0
  | Some (PTty _) => Fault
  | Some (PPipe p) =>
      q ← get_pipe (w_kernel w) p;
      if f_stdioflag file =? FLAG_PIPE_READ then Ret (pipe_poll_read events q) else Ret (pipe_poll_write events q)
  end.

Definition poll_scan_fd (w : world) (pfd : pollfd) : outcome Z :=
  let fd := p_fd pfd in
  if fd <? 0 then Ret 0
  else
    sock ← (if fd <? MAX_SOCKETS then sk ← load1 (socket_table w) fd; Ret (negb (sk_state sk =? SOCK_STATE_UNUSED)) else Ret false);
    if sock : bool then poll_scan_socket w fd (p_events pfd)
    else
      match w_current w with
      | None => Ret 0
      | Some pid =>
          if Z.of_nat FILEDESC_MAX <=? fd then Ret 0
          else
            t ← get_tab (w_kernel w) pid;
            slot ← load1 (fs_fd t) fd;
            match slot with
            | None => Ret 0
            | Some f =>
                file ← get_file (w_kernel w) f;
                if (f_stdioflag file =? FLAG_TTY_MASTER) || (f_stdioflag file =? FLAG_TTY_SLAVE)
                then poll_scan_tty w file (p_events pfd)
                else if (f_stdioflag file =? FLAG_PIPE_READ) || (f_stdioflag file =? FLAG_PIPE_WRITE)
                then poll_scan_pipe w file (p_events pfd)
                else Ret 0
            end
      end.

Definition poll_scan_step (w : world) (s : list pollfd * Z) (i : Z) : outcome (list pollfd * Z) :=
  let '(fds, ready) := s in
  pfd ← load1 fds i;
  revents ← poll_scan_fd w pfd;
  fds ← store1 fds i (Pollfd (p_fd pfd) (p_events pfd) revents);
  Ret (fds, if negb (revents =? 0) then ready + 1 else ready).

Definition poll_scan (w : world) (fds : list pollfd) (nfds : Z) : outcome (list pollfd * Z) :=
  foldM (poll_scan_step w) (seqZ 0 nfds) (fds, 0).

(** The loop from the world [n] on. *)
Fixpoint poll_loop (fuel : nat) (worlds : nat → world) (n : nat) (fds : list pollfd) (nfds timeout_ticks deadline : Z) :
    outcome (Z * list pollfd) :=
  match fuel with
  | O => Hang
  | S fuel =>
      '(fds, ready) ← poll_scan (worlds n) fds nfds;
      if 0 <? ready then Ret (ready, fds)
      else if timeout_ticks =? 0 then Ret (0, fds)
      else if timeout_ticks <? 0 then poll_loop fuel worlds (S n) fds nfds timeout_ticks deadline
      else if 0 <=? i32 (kernel_tick (worlds n) - deadline) then Ret (0, fds)
      else poll_loop fuel worlds (S n) fds nfds timeout_ticks deadline
  end.

(** [start] is the tick when the call begins. *)
Definition sys_poll (fuel : nat) (worlds : nat → world) (start : Z) (fds : option (list pollfd)) (nfds timeout_ticks : Z) :
    outcome (Z * option (list pollfd)) :=
  match fds with
  | None => if 0 <? nfds then Ret (-1, None) else if nfds <? 0 then Ret (-1, None) else
      '(r, _) ← poll_loop fuel worlds 0 [] nfds timeout_ticks (if 0 <? timeout_ticks then u32 (start + u32 timeout_ticks) else 0); Ret (r, None)
  | Some l =>
      if nfds <? 0 then Ret (-1, fds)
      else
        '(r, l) ← poll_loop fuel worlds 0 l nfds timeout_ticks (if 0 <? timeout_ticks then u32 (start + u32 timeout_ticks) else 0);
        Ret (r, Some l)
  end.
