(* ===== verification/PollProps.v ===== *)
(** * Waiting for events: theorems

    [sys_poll] returns with the first look that finds a descriptor ready or the time
    over, and reports what that look saw; a socket of the same number hides a file. *)

From S2P Require Import Prelude Ring Pipe Tty Files FilesInv FilesProps Words Poll.

(** ** What a look sees *)

Record world_ok (w : world) : Prop := {
  wo_sockets : Z.of_nat (length (socket_table w)) = MAX_SOCKETS;
  wo_kernel : kinv none none (w_kernel w);
  wo_current : ∀ pid, w_current w = Some pid → is_Some (k_tabs (w_kernel w) !! pid) }.

Definition seen (w : world) (pfd : pollfd) : Z := match poll_scan_fd w pfd with Ret r => r | _ => 0 end.
Definition mark (w : world) (pfd : pollfd) : pollfd := Pollfd (p_fd pfd) (p_events pfd) (seen w pfd).
Definition ready (w : world) (fds : list pollfd) : Z := Z.of_nat (length (filter (fun pfd => seen w pfd ≠ 0) fds)).
Definition marked (w : world) (fds : list pollfd) (nfds : Z) : list pollfd :=
  map (mark w) (take (Z.to_nat nfds) fds) ++ drop (Z.to_nat nfds) fds.

Lemma scan_tty_total w file events :
  kinv none none (w_kernel w) → file_ok file →
  f_stdioflag file = FLAG_TTY_MASTER ∨ f_stdioflag file = FLAG_TTY_SLAVE →
  ∃ r, poll_scan_tty w file events = Ret r.
Proof.
  intros Hk Hf Hfl. unfold poll_scan_tty, file_ok in *.
  destruct (private_data file) as [[p|t]|]; [..|by eauto].
  - destruct (f_ops file) as [[]|]; try done; rewrite Hf in Hfl; by destruct Hfl.
  - destruct (f_ops file) as [[]|]; try done; destruct Hf as [_ Ht];
      destruct (get_tty_Ret Hk t Ht) as [u ->]; rewrite bind_ret; repeat case_match; eauto.
Qed.

Lemma scan_pipe_total w f file events :
  kinv none none (w_kernel w) → k_files (w_kernel w) !! f = Some file → file_ok file →
  f_stdioflag file = FLAG_PIPE_READ ∨ f_stdioflag file = FLAG_PIPE_WRITE →
  ∃ r, poll_scan_pipe w file events = Ret r.
Proof.
  intros Hk Hl Hf Hfl. unfold poll_scan_pipe, get_pipe.
  destruct (private_data file) as [[p|t]|] eqn:Ep; [..|by eauto].
  - destruct (pipe_of_end Hk f file Hl p _ Ep eq_refl Hfl) as (q & -> & _). cbn [or_fault]. rewrite bind_ret.
    case_match; eauto.
  - unfold file_ok in Hf. rewrite Ep in Hf.
    destruct (f_ops file) as [[]|]; try done; destruct Hf as [E _]; rewrite E in Hfl; by destruct Hfl.
Qed.

Lemma scan_total w pfd : world_ok w → poll_scan_fd w pfd = Ret (seen w pfd).
Proof.
  intros [Hs Hk Hc]. enough (∃ r, poll_scan_fd w pfd = Ret r) as [r E] by (unfold seen; by rewrite E).
  unfold poll_scan_fd, poll_scan_socket. destruct (Z.ltb_spec (p_fd pfd) 0) as [|H0]; [by eauto|].
  assert (∀ sk, p_fd pfd < MAX_SOCKETS → socket_table w !! Z.to_nat (p_fd pfd) = Some sk →
    load1 (socket_table w) (p_fd pfd) = Ret sk) as Hsk by (intros; by apply load1_Ret).
  assert (∃ b : bool, (if p_fd pfd <? MAX_SOCKETS then sk ← load1 (socket_table w) (p_fd pfd);
      Ret (negb (sk_state sk =? SOCK_STATE_UNUSED)) else Ret false) = Ret b ∧
      (b = true → ∃ sk, (MAX_SOCKETS <=? p_fd pfd) = false ∧ load1 (socket_table w) (p_fd pfd) = Ret sk))
    as (b & -> & Hb).
  { destruct (Z.ltb_spec (p_fd pfd) MAX_SOCKETS) as [Hm|]; [|by exists false].
    destruct (lookup_lt_is_Some_2 (socket_table w) (Z.to_nat (p_fd pfd))) as [sk E]; [lia|].
    rewrite (Hsk sk Hm E), bind_ret. eexists. split; [done|]. intros _. exists sk. split; [lia|done]. }
  rewrite bind_ret. destruct b.
  - destruct Hb as (sk & -> & ->); [done|]. cbn [orb]. rewrite bind_ret. case_match; eauto.
  - clear Hb Hsk. destruct (w_current w) as [pid|]; [|by eauto]. destruct (Hc pid eq_refl) as [t Ht].
    destruct (Z.leb_spec (Z.of_nat FILEDESC_MAX) (p_fd pfd)); [by eauto|].
    unfold get_tab. rewrite Ht. cbn [or_fault]. rewrite bind_ret.
    assert (length (fs_fd t) = FILEDESC_MAX) as Hl
      by exact (Forall_lookup_1 _ _ _ _ (ki_tabs _ _ _ Hk) Ht).
    destruct (lookup_lt_is_Some_2 (fs_fd t) (Z.to_nat (p_fd pfd))) as [[f|] Hf]; [lia|..];
      rewrite (load1_Ret _ _ _ H0 Hf), bind_ret; [|by eauto].
    destruct (file_live Hk f) as (x & Hx & _ & Hok).
    { pose proof (slot_live pid t _ f Ht Hf). unfold none. lia. }
    unfold get_file. rewrite Hx. cbn [or_fault]. rewrite bind_ret.
    destruct ((_ =? FLAG_TTY_MASTER) || _) eqn:E1; [apply scan_tty_total; [done..|lia]|].
    destruct ((_ =? FLAG_PIPE_READ) || _) eqn:E2; [eapply scan_pipe_total; [done..|lia]|by eauto].
Qed.

(** One look at [nfds] descriptors. *)
Lemma poll_scan_spec w fds nfds :
  world_ok w → 0 ≤ nfds ≤ Z.of_nat (length fds) →
  poll_scan w fds nfds = Ret (marked w fds nfds, ready w (take (Z.to_nat nfds) fds)).
Proof.
  intros Hw Hn. unfold poll_scan.
  destruct (foldM_seqZ (fun i s => s = (marked w fds i, ready w (take (Z.to_nat i) fds)))
    (poll_scan_step w) 0 nfds (fds, 0)) as (s & E & Hs); [lia| | |by rewrite E, Hs].
  { unfold marked, ready. by rewrite drop_0. }
  intros i s Hi ->. destruct (lookup_lt_is_Some_2 fds (Z.to_nat i)) as [pfd Hp]; [lia|].
  assert (length (map (mark w) (take (Z.to_nat i) fds)) = Z.to_nat i) as Hl
    by (rewrite length_map, length_take; lia).
  unfold poll_scan_step. rewrite (load1_Ret _ _ pfd); [|lia|].
  2:{ unfold marked. rewrite lookup_app_r, Hl, Nat.sub_diag, lookup_drop by lia. by rewrite Nat.add_0_r. }
  rewrite bind_ret, (scan_total w pfd Hw), bind_ret, store1_Ret, bind_ret.
  2:{ unfold marked. rewrite length_app, Hl, length_drop. lia. }
  eexists. split; [done|]. replace (Z.to_nat (i + 1)) with (S (Z.to_nat i)) by lia. f_equal.
  - unfold marked. rewrite insert_app_r_alt, Hl, Nat.sub_diag by lia.
    replace (Z.to_nat (i + 1)) with (S (Z.to_nat i)) by lia.
    rewrite (drop_S _ _ (Z.to_nat i) Hp). simpl. rewrite (take_S_r _ _ _ Hp), map_app, <-app_assoc. done.
  - unfold ready. rewrite (take_S_r _ _ _ Hp), filter_app, length_app, filter_cons, filter_nil.
    destruct (Z.eqb_spec (seen w pfd) 0); simpl; case_decide; simpl; try done; lia.
Qed.

(** What an earlier look left in [revents] does not matter. *)
Lemma marked_take w fds n : 0 ≤ n ≤ Z.of_nat (length fds) →
  take (Z.to_nat n) (marked w fds n) = map (mark w) (take (Z.to_nat n) fds) ∧
  drop (Z.to_nat n) (marked w fds n) = drop (Z.to_nat n) fds ∧ length (marked w fds n) = length fds.
Proof.
  intros Hn. assert (length (map (mark w) (take (Z.to_nat n) fds)) = Z.to_nat n) as Hl
    by (rewrite length_map, length_take; lia).
  unfold marked. rewrite take_app_length', drop_app_length' by done. split_and!; [done..|].
  rewrite length_app, Hl, length_drop. lia.
Qed.

Lemma seen_mark w w' pfd : seen w (mark w' pfd) = seen w pfd.
Proof. done. Qed.

Lemma marked_marked w w' fds n : 0 ≤ n ≤ Z.of_nat (length fds) → marked w (marked w' fds n) n = marked w fds n.
Proof.
  intros Hn. destruct (marked_take w' fds n Hn) as (Et & Ed & _). unfold marked at 1. rewrite Et, Ed, map_map. done.
Qed.

Lemma ready_marked w w' fds n : 0 ≤ n ≤ Z.of_nat (length fds) →
  ready w (take (Z.to_nat n) (marked w' fds n)) = ready w (take (Z.to_nat n) fds).
Proof.
  intros Hn. destruct (marked_take w' fds n Hn) as (-> & _ & _). unfold ready. f_equal.
  induction (take (Z.to_nat n) fds) as [|p l IH]; [done|]. cbn [map]. rewrite !filter_cons, seen_mark.
  case_decide; simpl; by rewrite IH.
Qed.

(** ** The loop *)

Lemma ready_nonneg w l : 0 ≤ ready w l.
Proof. unfold ready. lia. Qed.

Section loop.
Context (worlds : nat → world) (Hw : ∀ n, world_ok (worlds n)).
Context (fds : list pollfd) (nfds : Z) (Hn : 0 ≤ nfds ≤ Z.of_nat (length fds)).
Context (start timeout : Z) (Ht : - 2 ^ 31 ≤ timeout < 2 ^ 31).
Context (elapsed : nat → Z) (He : ∀ n, 0 ≤ elapsed n < 2 ^ 31).
Context (Htick : ∀ n, kernel_tick (worlds n) = u32 (start + elapsed n)).
#[local] Set Default Proof Using "Hw Hn Ht He Htick".

(** The looks that end the call. *)
Definition ends (n : nat) : Prop :=
  0 < ready (worlds n) (take (Z.to_nat nfds) fds) ∨ timeout = 0 ∨ (0 < timeout ∧ timeout ≤ elapsed n).

#[global] Instance ends_dec n : Decision (ends n).
Proof using Type. unfold ends. apply _. Defined.

Definition deadline_of : Z := if 0 <? timeout then u32 (start + u32 timeout) else 0.

Lemma expired n : 0 < timeout → (0 <=? i32 (kernel_tick (worlds n) - deadline_of)) = (timeout <=? elapsed n).
Proof.
  intros Hp. unfold deadline_of. destruct (Z.ltb_spec 0 timeout); [|lia]. rewrite Htick.
  rewrite (u32_small timeout) by (unfold is_u32, U32; lia). specialize (He n).
  assert (i32 (u32 (start + elapsed n) - u32 (start + timeout)) = elapsed n - timeout) as ->; [|lia].
  rewrite <-(i32_small (elapsed n - timeout)) by lia. unfold i32, u32. f_equal.
  rewrite Zplus_mod, Zminus_mod_idemp_l, Zminus_mod_idemp_r, <-Zplus_mod. f_equal. lia.
Qed.

(** The descriptors as some earlier look left them. *)
Definition left_over (l : list pollfd) : Prop := l = fds ∨ ∃ w, l = marked w fds nfds.

Lemma scan_left_over n l : left_over l →
  poll_scan (worlds n) l nfds = Ret (marked (worlds n) fds nfds, ready (worlds n) (take (Z.to_nat nfds) fds)).
Proof using Hw Hn.
  intros [->|[w ->]]; [by apply poll_scan_spec|].
  rewrite poll_scan_spec; [|done|by destruct (marked_take w fds nfds Hn) as (_ & _ & ->)].
  by rewrite marked_marked, ready_marked.
Qed.

Lemma loop_spec k : ∀ n l fuel, left_over l → (k < fuel)%nat → ends (n + k) → (∀ m, (m < k)%nat → ¬ ends (n + m)) →
  poll_loop fuel worlds n l nfds timeout deadline_of =
    Ret (ready (worlds (n + k)) (take (Z.to_nat nfds) fds), marked (worlds (n + k)) fds nfds).
Proof.
  induction k as [|k IH]; intros n l [|fuel] Hl Hf Hend Hbefore; try lia; cbn [poll_loop];
    rewrite (scan_left_over n l Hl), bind_ret; cbv beta iota;
    pose proof (ready_nonneg (worlds n) (take (Z.to_nat nfds) fds)) as H0.
  - rewrite Nat.add_0_r in *. destruct (Z.ltb_spec 0 (ready (worlds n) (take (Z.to_nat nfds) fds))); [done|].
    destruct Hend as [|[->|[Hp Hel]]]; [lia|simpl; do 2 f_equal; lia|].
    destruct (Z.eqb_spec timeout 0); [lia|]. destruct (Z.ltb_spec timeout 0); [lia|]. rewrite expired by done.
    destruct (Z.leb_spec timeout (elapsed n)); [do 2 f_equal; lia|lia].
  - assert (¬ ends n) as Hnot by (specialize (Hbefore 0%nat); rewrite Nat.add_0_r in Hbefore; apply Hbefore; lia).
    destruct (Z.ltb_spec 0 (ready (worlds n) (take (Z.to_nat nfds) fds))); [by destruct Hnot; left|].
    destruct (Z.eqb_spec timeout 0); [by destruct Hnot; right; left|].
    rewrite <-Nat.add_succ_comm in *.
    assert (∀ m, (m < k)%nat → ¬ ends (S n + m)) as Hb.
    { intros m Hm. rewrite Nat.add_succ_comm. apply Hbefore. lia. }
    assert (left_over (marked (worlds n) fds nfds)) as Hl' by (right; eauto).
    destruct (Z.ltb_spec timeout 0); [apply IH; [done|lia|done..]|]. rewrite expired by lia.
    destruct (Z.leb_spec timeout (elapsed n)); [destruct Hnot; right; right; lia|apply IH; [done|lia|done..]].
Qed.

(** The first look that ends the call. *)
Lemma first_end n : ends n → ∃ m, (m ≤ n)%nat ∧ ends m ∧ ∀ k, (k < m)%nat → ¬ ends k.
Proof using Type.
  induction n as [n IH] using lt_wf_ind. intros Hn'.
  destruct (decide (Exists ends (seq 0 n))) as [Hx|Hx].
  - apply Exists_exists in Hx as (m & Hm%elem_of_seq & Hend). destruct (IH m) as (m' & ? & ?); [lia|done|].
    exists m'. split; [lia|done].
  - exists n. split_and!; [done..|]. intros k Hk Hend. apply Hx, Exists_exists. exists k. split; [|done].
    apply elem_of_seq. lia.
Qed.
End loop.

(** C16: a poll returns.  Let the files, pipes, terminals and sockets change in any way
    while the call sleeps.  If any look finds a descriptor ready, or comes when the
    timeout is over, then the call returns, with the first such look: the result is the
    number of descriptors that look found ready (0 when only the time was over), and
    every descriptor holds what that look saw.  It never returns early, and it is right
    when the tick counter wraps. *)
Theorem poll_returns worlds fds nfds start timeout elapsed n fuel :
  (∀ n, world_ok (worlds n)) → 0 ≤ nfds ≤ Z.of_nat (length fds) → - 2 ^ 31 ≤ timeout < 2 ^ 31 →
  (∀ n, 0 ≤ elapsed n < 2 ^ 31) → (∀ n, kernel_tick (worlds n) = u32 (start + elapsed n)) →
  ends worlds fds nfds timeout elapsed n → (n < fuel)%nat →
  ∃ m, (m ≤ n)%nat ∧ ends worlds fds nfds timeout elapsed m ∧
    (∀ k, (k < m)%nat → ¬ ends worlds fds nfds timeout elapsed k) ∧
    sys_poll fuel worlds start (Some fds) nfds timeout =
      Ret (ready (worlds m) (take (Z.to_nat nfds) fds), Some (marked (worlds m) fds nfds)).
Proof.
  intros Hw Hn Ht He Htick Hend Hf. destruct (first_end _ _ _ _ _ _ Hend) as (m & Hm & Hem & Hbefore).
  exists m. split_and!; [done..|]. unfold sys_poll. destruct (Z.ltb_spec nfds 0); [lia|].
  pose proof (loop_spec worlds Hw fds nfds Hn start timeout Ht elapsed He Htick m 0 fds fuel) as Hl.
  unfold deadline_of in Hl. rewrite Hl; [done|by left|lia|done..].
Qed.

(** Socket 0 with a connection to accept, seen by a process without files. *)
Definition busy_world (tick : Z) : world :=
  World (Socket SOCK_STATE_LISTENING SOCK_STREAM 0 1 0 :: replicate 63 (Socket 0 0 0 0 0))
    (boot_state 80 25 []) (Some 0%nat) tick.

Lemma busy_world_ok tick : world_ok (busy_world tick).
Proof. constructor; [done|apply boot_state_inv|]. intros pid [= <-]. by eexists. Qed.

Lemma poll_returns_witness :
  ∃ m, (m ≤ 0)%nat ∧ sys_poll 1 (fun n => busy_world (u32 (U32 - 1 + Z.min (Z.of_nat n) 5))) (U32 - 1)
    (Some [Pollfd 0 POLLIN 0]) 1 3 =
    Ret (ready (busy_world (u32 (U32 - 1 + Z.min (Z.of_nat m) 5))) [Pollfd 0 POLLIN 0],
         Some (marked (busy_world (u32 (U32 - 1 + Z.min (Z.of_nat m) 5))) [Pollfd 0 POLLIN 0] 1)).
Proof.
  destruct (poll_returns (fun n => busy_world (u32 (U32 - 1 + Z.min (Z.of_nat n) 5))) [Pollfd 0 POLLIN 0] 1 (U32 - 1) 3
    (fun n => Z.min (Z.of_nat n) 5) 0 1) as (m & Hm & _ & _ & E).
  - intros n. apply busy_world_ok.
  - done.
  - done.
  - intros n. lia.
  - done.
  - left. vm_compute. reflexivity.
  - lia.
  - exists m. split; [exact Hm|exact E].
Defined.

(** ** Sockets and files share their numbers *)

Lemma hidden_scan w fd sk :
  0 ≤ fd < MAX_SOCKETS → socket_table w !! Z.to_nat fd = Some sk →
  sk_state sk = SOCK_STATE_LISTENING → backlog_count sk ≤ 0 →
  ∀ r, poll_scan w [Pollfd fd POLLIN r] 1 = Ret ([Pollfd fd POLLIN 0], 0).
Proof.
  intros Hfd Hsk Hst Hb r. change (poll_scan w [Pollfd fd POLLIN r] 1)
    with (s ← poll_scan_step w ([Pollfd fd POLLIN r], 0) 0; Ret s).
  unfold poll_scan_step. rewrite (load1_Ret [Pollfd fd POLLIN r] 0 (Pollfd fd POLLIN r)), bind_ret by done.
  assert (poll_scan_fd w (Pollfd fd POLLIN r) = Ret 0) as ->.
  { unfold poll_scan_fd, poll_scan_socket. cbn [p_fd p_events].
    destruct (Z.ltb_spec fd 0); [lia|]. destruct (Z.ltb_spec fd MAX_SOCKETS); [|lia].
    destruct (Z.leb_spec MAX_SOCKETS fd); [lia|]. rewrite (load1_Ret _ _ sk) by (done || lia). rewrite !bind_ret.
    rewrite Hst. simpl. by destruct (Z.ltb_spec 0 (backlog_count sk)); [lia|]. }
  rewrite bind_ret. done.
Qed.

(** A socket hides the file of the same number.  While slot [fd] of the socket table
    listens and nobody connects, a poll of descriptor [fd] for input does not return,
    whatever the descriptor is in the process: its pipe or terminal may hold data. *)
Theorem poll_hidden_by_socket worlds start fd fuel :
  0 ≤ fd < MAX_SOCKETS →
  (∀ n, ∃ sk, socket_table (worlds n) !! Z.to_nat fd = Some sk ∧
     sk_state sk = SOCK_STATE_LISTENING ∧ backlog_count sk ≤ 0) →
  sys_poll fuel worlds start (Some [Pollfd fd POLLIN 0]) 1 (-1) = Hang.
Proof.
  intros Hfd Hw. unfold sys_poll. simpl (_ <? _).
  enough (∀ n r, poll_loop fuel worlds n [Pollfd fd POLLIN r] 1 (-1) 0 = Hang) as -> by done.
  induction fuel as [|fuel IH]; intros n r; cbn [poll_loop]; [done|].
  destruct (Hw n) as (sk & Hsk & Hst & Hb). rewrite (hidden_scan _ _ _ Hfd Hsk Hst Hb), bind_ret. apply IH.
Qed.

(** Descriptor 0 is a pipe that holds a byte, and socket 0 listens. *)
Definition hidden_pipe : world :=
  World (Socket SOCK_STATE_LISTENING SOCK_STREAM 0 0 0 :: replicate 63 (Socket 0 0 0 0 0))
    (Kernel {[ 0%nat := File 0 1 FLAG_PIPE_READ (Some g_pipe_read_ops) (Some (PPipe 0)) ]}
       {[ 0%nat := Pipe (replicate (Z.to_nat PIPE_BUFFER_SIZE) 65) 0 1 1 1 1 ]}
       (tty_reset 80 25 false) [] [Files (Some 0%nat :: replicate 31 None) 1] []) (Some 0%nat) 0.

Lemma poll_hidden_by_socket_witness :
  poll_scan_pipe hidden_pipe (File 0 1 FLAG_PIPE_READ (Some g_pipe_read_ops) (Some (PPipe 0))) POLLIN = Ret POLLIN ∧
  sys_poll 1000 (fun _ => hidden_pipe) 0 (Some [Pollfd 0 POLLIN 0]) 1 (-1) = Hang.
Proof.
  split; [vm_compute; reflexivity|]. apply poll_hidden_by_socket; [done|].
  intros _. exists (Socket SOCK_STATE_LISTENING SOCK_STREAM 0 0 0). done.
Defined.
