(* ===== verification/Wait.v ===== *)
(** * Sleeping and waking: sleep_on and wakeup of src/process.c

    Tasks that read from, poll, write to and close one pipe.  [sleep_on] and [wakeup] are
    modelled statement by statement: the entries of a queue are on the stacks of the tasks
    that sleep, linked by pointers, and live until [sleep_on] returns; following a pointer to
    an entry that is gone is a fault.  A system call runs with interrupts on (its gate is a
    trap gate), so the timer may switch to another task between any two statements; a step
    runs one statement of any task.  Of the callers, a copy into or out of the pipe with its
    counts, a look of poll and the counting of a close are one step each. *)

From S2P Require Import Prelude Ring Pipe.

(** ** The code *)

Definition TASK_RUNNING : Z := 0.
Definition TASK_INTERRUPTIBLE : Z := 1.

(** The queue of the readers of the pipe, and that of the processes that poll. *)
Inductive queue := QRead | QPoll.
#[global] Instance queue_dec : EqDecision queue.
Proof. solve_decision. Defined.

(** Who sleeps, and so on which queue and where it goes on afterwards: a [pipe_read] of
    [count] bytes on [read_wq], a [sys_poll] without timeout on [poll_waitq]. *)
Inductive waiter := WReader (count : Z) | WPoller.
Definition queue_of (k : waiter) : queue := match k with WReader _ => QRead | WPoller => QPoll end.

(** The statement a task is at. *)
Inductive pc :=
  (** [pipe_read]: the loop, the test for writers, the test after the sleep, the copy *)
  | RCheck (count : Z) | ROpen (count : Z) | RAgain (count : Z) | RTake (count : Z)
  (** [sys_poll]: a look for input at the read end *)
  | PScan
  (** [sleep_on]: fill the entry, put it in front of the queue, set the state, the loop with
      its test for a signal, and the search for the entry with the pointer [pp]: [None] is
      the head of the queue, [Some u] the field [next] of the entry of [u] *)
  | Link (k : waiter) | Push (k : waiter) | SetState (k : waiter) | Spin (k : waiter) | Signal (k : waiter)
  | Find (k : waiter) (pp : option nat) | Cut (k : waiter) (pp : option nat)
  (** [pipe_write] and the [pipe_close] of a write end *)
  | WWrite (bytes : list Z) | WClose
  (** [wakeup]: take the head, wake the task of the entry [p], go to the next, clear the head *)
  | Head (q : queue) (ret : Z) | Walk (q : queue) (ret : Z) (p : option nat) | Next (q : queue) (ret : Z) (p : nat)
  | Clear (q : queue) (ret : Z)
  | Done (ret : Z).

(** [t_next] is the field [next] of the entry of the task, while it has one; the field
    [task] of the entry of [t] is [t]. *)
Record task := Task { t_state : Z; t_signal : bool; t_next : option (option nat); t_pc : pc }.

Record sys := Sys {
  s_pipe : pipe_info;
  read_wq : option nat;
  poll_waitq : option nat;
  tasks : list task }.

Definition get_task (s : sys) (t : nat) : outcome task := or_fault (tasks s !! t).
Definition put_task (t : nat) (x : task) (s : sys) : sys :=
  Sys (s_pipe s) (read_wq s) (poll_waitq s) (<[t := x]> (tasks s)).
Definition goto (t : nat) (x : task) (p : pc) (s : sys) : sys :=
  put_task t (Task (t_state x) (t_signal x) (t_next x) p) s.
Definition put_pipe (p : pipe_info) (s : sys) : sys := Sys p (read_wq s) (poll_waitq s) (tasks s).

(** [*wq] and the assignment to it. *)
Definition wq (q : queue) (s : sys) : option nat := match q with QRead => read_wq s | QPoll => poll_waitq s end.
Definition set_wq (q : queue) (h : option nat) (s : sys) : sys :=
  match q with
  | QRead => Sys (s_pipe s) h (poll_waitq s) (tasks s)
  | QPoll => Sys (s_pipe s) (read_wq s) h (tasks s)
  end.

(** [entry->next] of the entry of [u], [*pp] and [*pp = p]. *)
Definition next (u : nat) (s : sys) : outcome (option nat) := x ← get_task s u; or_fault (t_next x).
Definition deref (q : queue) (pp : option nat) (s : sys) : outcome (option nat) :=
  match pp with None => Ret (wq q s) | Some u => next u s end.
Definition assign (q : queue) (pp : option nat) (p : option nat) (s : sys) : outcome sys :=
  match pp with
  | None => Ret (set_wq q p s)
  | Some u => _ ← next u s; x ← get_task s u; Ret (put_task u (Task (t_state x) (t_signal x) (Some p) (t_pc x)) s)
  end.

Definition after_sleep (k : waiter) : pc := match k with WReader count => RAgain count | WPoller => PScan end.
Definition after_wakeup (q : queue) (ret : Z) : pc := match q with QRead => Head QPoll ret | QPoll => Done ret end.

(** [sleep_on] returns, and its entry is gone. *)
Definition leave (t : nat) (k : waiter) (s : sys) : outcome sys :=
  x ← get_task s t; Ret (put_task t (Task (t_state x) (t_signal x) None (after_sleep k)) s).

(** One statement of [sleep_on] by task [t]. *)
Definition sleep_on (s : sys) (t : nat) (x : task) (c : pc) : outcome sys :=
  match c with
  | Link k => Ret (put_task t (Task (t_state x) (t_signal x) (Some (wq (queue_of k) s)) (Push k)) s)
  | Push k => Ret (set_wq (queue_of k) (Some t) (goto t x (SetState k) s))
  | SetState k => Ret (put_task t (Task TASK_INTERRUPTIBLE (t_signal x) (t_next x) (Spin k)) s)
  | Spin k => Ret (goto t x (if t_state x =? TASK_INTERRUPTIBLE then Signal k else Find k None) s)
  | Signal k =>
      if t_signal x then Ret (put_task t (Task TASK_RUNNING (t_signal x) (t_next x) (Find k None)) s)
      else Ret (goto t x (Spin k) s)
  | Find k pp =>
      p ← deref (queue_of k) pp s;
      match p with
      | None => leave t k s
      | Some u => _ ← next u s; Ret (goto t x (if (u =? t)%nat then Cut k pp else Find k (Some u)) s)
      end
  | Cut k pp =>
      p ← deref (queue_of k) pp s;
      match p with
      | None => Fault
      | Some u => n ← next u s; s ← assign (queue_of k) pp n s; leave t k s
      end
  | _ => Ret s
  end.

(** One statement of [wakeup] by task [t]. *)
Definition wakeup (s : sys) (t : nat) (x : task) (c : pc) : outcome sys :=
  match c with
  | Head q ret => Ret (goto t x (Walk q ret (wq q s)) s)
  | Walk q ret None => Ret (goto t x (Clear q ret) s)
  | Walk q ret (Some u) =>
      _ ← next u s; y ← get_task s u;
      let s := put_task u (Task TASK_RUNNING (t_signal y) (t_next y) (t_pc y)) s in
      x ← get_task s t; Ret (goto t x (Next q ret u) s)
  | Next q ret u => n ← next u s; Ret (goto t x (Walk q ret n) s)
  | Clear q ret => Ret (set_wq q None (goto t x (after_wakeup q ret) s))
  | _ => Ret s
  end.

(** One statement of task [t]. *)
Definition run1 (s : sys) (t : nat) : outcome sys :=
  x ← get_task s t;
  let p := s_pipe s in
  match t_pc x with
  | RCheck count => Ret (goto t x (if data_size p =? 0 then ROpen count else RTake count) s)
  | ROpen count => Ret (goto t x (if write_open p =? 0 then Done 0 else Link (WReader count)) s)
  | RAgain count => Ret (goto t x (if (data_size p =? 0) && negb (write_open p =? 0) && t_signal x
                                   then Done (-1) else RCheck count) s)
  | RTake count =>
      '(bytes, p) ← pipe_take count p;
      Ret (put_pipe p (goto t x (Head QPoll (Z.of_nat (length bytes))) s))
  | PScan => Ret (goto t x (if pipe_poll_read POLLIN p =? 0 then Link WPoller else Done 1) s)
  | (Link _ | Push _ | SetState _ | Spin _ | Signal _ | Find _ _ | Cut _ _) as c => sleep_on s t x c
  | WWrite bytes =>
      '(n, p) ← pipe_write bytes (Z.of_nat (length bytes)) p;
      Ret (put_pipe p (goto t x (if n <=? 0 then Done n else Head QRead n) s))
  | WClose =>
      let w := if 0 <? write_open p then write_open p - 1 else write_open p in
      Ret (put_pipe (Pipe (buffer p) (read_pos p) (write_pos p) (data_size p) (read_open p) w)
             (goto t x (if (0 <? write_open p) && (w =? 0) then Head QRead 1 else Head QPoll 1) s))
  | (Head _ _ | Walk _ _ _ | Next _ _ _ | Clear _ _) as c => wakeup s t x c
  | Done _ => Ret s
  end.

Definition run (s : sys) (schedule : list nat) : outcome sys := foldM run1 schedule s.

Inductive step (s : sys) : sys → Prop :=
  | step_run t s' : run1 s t = Ret s' → step s s'
  | step_signal t x : tasks s !! t = Some x → step s (put_task t (Task (t_state x) true (t_next x) (t_pc x)) s).

(** Steps without signals. *)
Definition quiet_step (s s' : sys) : Prop := ∃ t, run1 s t = Ret s'.

(** A task sleeps, and a task runs again. *)
Definition asleep (s : sys) (t : nat) : Prop :=
  ∃ x k, tasks s !! t = Some x ∧ (t_pc x = Spin k ∨ t_pc x = Signal k) ∧ t_state x = TASK_INTERRUPTIBLE.
Definition awake (s : sys) (t : nat) : Prop := ∃ x, tasks s !! t = Some x ∧ t_state x = TASK_RUNNING.

(** Reading would not sleep, polling would report the pipe. *)
Definition input (p : pipe_info) : Prop := 0 < data_size p ∨ write_open p = 0.

Definition start (p : pipe_info) (pcs : list pc) : sys := Sys p None None (map (Task TASK_RUNNING false None) pcs).

(** The calls as they begin. *)
Definition call_ok (c : pc) : Prop :=
  match c with
  | RCheck count => is_u32 count
  | PScan | WClose => True
  | WWrite bytes => is_u32 (Z.of_nat (length bytes))
  | _ => False
  end.

(** ** Sections

    A task is in the middle of falling asleep, of taking its entry out of the queue, or of a
    [wakeup]. *)
Definition critical (c : pc) : bool :=
  match c with
  | ROpen _ | Link _ | Push _ | SetState _ | Find _ (Some _) | Cut _ _ | Walk _ _ _ | Next _ _ _ | Clear _ _ => true
  | _ => false
  end.

(** No task but [t] is in a section; no task is. *)
Definition others_out (t : nat) (s : sys) : Prop :=
  ∀ u x, u ≠ t → tasks s !! u = Some x → critical (t_pc x) = false.
Definition all_out (s : sys) : Prop := ∀ u x, tasks s !! u = Some x → critical (t_pc x) = false.

(** Steps when a task in a section is not interrupted. *)
Inductive cstep (s : sys) : sys → Prop :=
  | cstep_run t s' : others_out t s → run1 s t = Ret s' → cstep s s'
  | cstep_signal t x : all_out s → tasks s !! t = Some x →
      cstep s (put_task t (Task (t_state x) true (t_next x) (t_pc x)) s).

(** ** What can go wrong *)

(** A run of the calls reaches a state in which task [t] sleeps with input, and which no task
    changes any more: the sleeper goes round its loop. *)
Definition lost (calls : list pc) (t : nat) : Prop :=
  ∃ s, rtc step (start new_pipe calls) s ∧ input (s_pipe s) ∧ asleep s t ∧
    ∀ s', rtc quiet_step s s' → input (s_pipe s') ∧ asleep s' t.

Lemma run_steps schedule : ∀ s s', run s schedule = Ret s' → rtc step s s'.
Proof.
  induction schedule as [|t l IH]; intros s s' E; [injection E as ->; apply rtc_refl|].
  apply bind_ret_inv in E as (s1 & E1 & E). eapply rtc_l; [by eapply step_run|by apply IH].
Qed.

(** Nobody is left to wake the sleeper. *)
Definition stuck (k : waiter) (t : nat) (s : sys) : Prop :=
  ∃ n, (tasks s !! t = Some (Task TASK_INTERRUPTIBLE false n (Spin k)) ∨ tasks s !! t = Some (Task TASK_INTERRUPTIBLE false n (Signal k))) ∧
    ∀ u x, u ≠ t → tasks s !! u = Some x → ∃ r, t_pc x = Done r.

Lemma stuck_step k t s s' : stuck k t s → quiet_step s s' → stuck k t s' ∧ s_pipe s' = s_pipe s.
Proof.
  intros (n & Ht & Ho) [u E]. unfold run1, get_task in E. destruct (tasks s !! u) as [x|] eqn:Hu; [|done].
  cbn [or_fault] in E. rewrite bind_ret in E. destruct (decide (u = t)) as [->|Hne].
  - assert (tasks s' !! t = Some (Task TASK_INTERRUPTIBLE false n (Spin k)) ∨ tasks s' !! t = Some (Task TASK_INTERRUPTIBLE false n (Signal k))) as Ht'.
    { destruct Ht as [Ht|Ht]; simplify_eq; cbn in E; injection E as <-; cbn;
        rewrite list_lookup_insert_eq by (by eapply lookup_lt_Some); auto. }
    assert (s_pipe s' = s_pipe s ∧ ∀ u, u ≠ t → tasks s' !! u = tasks s !! u) as [Ep Eo].
    { destruct Ht as [Ht|Ht]; simplify_eq; cbn in E; injection E as <-; (split; [done|]); intros v Hv; cbn; by rewrite list_lookup_insert_ne. }
    split; [|done]. exists n. split; [done|]. intros v y Hv Hy. rewrite Eo in Hy by done. by apply (Ho v).
  - destruct (Ho u x Hne Hu) as [r Er]. rewrite Er in E. injection E as <-. split; [by exists n|done].
Qed.

Lemma stuck_lost k t s : stuck k t s → input (s_pipe s) → ∀ s', rtc quiet_step s s' → input (s_pipe s') ∧ asleep s' t.
Proof.
  intros Hs Hi s' Hr. induction Hr as [s|s s1 s2 Hst _ IH].
  - split; [done|]. destruct Hs as (n & [Ht|Ht] & _); eexists _, k; (split; [exact Ht|]); split; [by left|done|by right|done].
  - destruct (stuck_step k t s s1 Hs Hst) as [Hs1 E]. apply IH; [done|by rewrite E].
Qed.

Lemma lost_by calls k t schedule :
  match run (start new_pipe calls) schedule with Ret s => stuck k t s ∧ input (s_pipe s) | _ => False end → lost calls t.
Proof.
  destruct (run _ schedule) as [s| |] eqn:E; [|done..]. intros [Hs Hi]. exists s. split; [by eapply run_steps|]. split; [done|].
  split; [|by eapply stuck_lost]. by apply (stuck_lost k t s Hs Hi s).
Qed.

(** A wakeup can be lost.  A reader of an empty pipe, or a process that polls it, is
    interrupted after it has found nothing and before it is in the queue; the writer
    writes a byte and wakes nobody.  The sleeper then sleeps although there is input, and
    does so forever, unless a signal comes. *)
Theorem wakeup_can_be_lost : lost [RCheck 1; WWrite [65]] 0 ∧ lost [PScan; WWrite [65]] 0.
Proof.
  split.
  - apply (lost_by _ (WReader 1) 0 [0; 0; 1; 1; 1; 1; 1; 1; 1; 0; 0; 0]%nat). vm_compute. split; [|by left].
    eexists. split; [by left|]. intros [|[|u]] x Hne Hx; try done. injection Hx as <-. by eexists.
  - apply (lost_by _ WPoller 0 [0; 1; 1; 1; 1; 1; 1; 1; 0; 0; 0]%nat). vm_compute. split; [|by left].
    eexists. split; [by left|]. intros [|[|u]] x Hne Hx; try done. injection Hx as <-. by eexists.
Qed.

(** Two readers of one byte: both find data, and the second gets none, which is the
    answer for a pipe whose writers are gone. *)
Theorem second_reader_sees_end :
  ∃ s, rtc step (start new_pipe [RCheck 1; RCheck 1; WWrite [65]]) s ∧ write_open (s_pipe s) = 1 ∧
    t_pc <$> tasks s !! 0%nat = Some (Done 0).
Proof.
  assert (match run (start new_pipe [RCheck 1; RCheck 1; WWrite [65]]) [2; 0; 1; 1; 0; 0; 0; 0]%nat with
    | Ret s => write_open (s_pipe s) = 1 ∧ t_pc <$> tasks s !! 0%nat = Some (Done 0)
    | _ => False end) as H by (vm_compute; done).
  destruct (run _ _) as [s| |] eqn:E; [|done..]. exists s. split; [by eapply run_steps|done].
Qed.

(** So does an entry put in the queue between the walk of a [wakeup] and its last
    statement, which empties the queue: the first byte is read by one reader, the other
    reader finds nothing and falls asleep, its entry is thrown away, and the second byte
    wakes nobody. *)
Theorem clear_loses_sleeper : lost [RCheck 1; RCheck 1; WWrite [65]; WWrite [66]] 1.
Proof.
  apply (lost_by _ (WReader 1) 1
    [2; 2; 2; 0; 0; 1; 1; 1; 1; 1; 2; 2; 2; 2; 0; 0; 0; 3; 3; 3; 3; 3; 3; 3]%nat).
  vm_compute. split; [|by left].
  eexists. split; [by left|]. intros [|[|[|[|u]]]] x Hne Hx; try done; injection Hx as <-; by eexists.
Qed.

(** [wakeup] may use an entry that is gone: the reader it has woken returns from [sleep_on]
    before [p = p->next] is run. *)
Theorem wakeup_uses_dead_entry :
  run (start new_pipe [RCheck 1; WWrite [65]]) [0; 0; 0; 0; 0; 1; 1; 1; 0; 0; 0; 1]%nat = Fault.
Proof. by vm_compute. Qed.
