(* ===== verification/WaitProps.v ===== *)
(** * Sleeping and waking: theorems

    What sleep_on and wakeup of Wait.v guarantee when a task that is falling asleep, taking
    its entry out of a queue or waking the others is not interrupted: the pointers of the
    queues are always good, and no wakeup is lost. *)

From S2P Require Import Prelude Ring Pipe Wait.

(** ** Queues as lists *)

Definition next_of (s : sys) (u : nat) : option (option nat) := tasks s !! u ≫= t_next.

(** The entries from [h] on are those of the tasks [l]. *)
Fixpoint entries (s : sys) (h : option nat) (l : list nat) : Prop :=
  match l with
  | [] => h = None
  | u :: l => h = Some u ∧ ∃ n, next_of s u = Some n ∧ entries s n l
  end.

Lemma next_spec s u n : next_of s u = Some n → next u s = Ret n.
Proof. unfold next_of, next, get_task. destruct (tasks s !! u) as [x|]; [|done]. simpl. by intros ->. Qed.

Lemma entries_frame s s' h l : (∀ u, u ∈ l → next_of s' u = next_of s u) → entries s h l → entries s' h l.
Proof.
  revert h. induction l as [|u l IH]; intros h Hf Hc; [done|]. destruct Hc as [-> (n & Hn & Hc)].
  split; [done|]. exists n. split; [rewrite Hf; [done|by left]|]. apply IH; [|done]. intros v Hv. apply Hf. by right.
Qed.

Lemma entries_app s h l1 l2 : entries s h (l1 ++ l2) →
  match last l1 with None => h = list.head l2 | Some u => next_of s u = Some (list.head l2) end ∧ entries s (list.head l2) l2.
Proof.
  revert h. induction l1 as [|u l1 IH]; intros h Hc.
  - simpl in *. destruct l2 as [|v l2]; simpl in *; [by split|]. destruct Hc as [-> Hc]. by split.
  - destruct Hc as [-> (n & Hn & Hc)]. destruct (IH n Hc) as [Hl Hc2]. split; [|done].
    rewrite last_cons. destruct (last l1); [done|]. by subst.
Qed.

Lemma entries_deref s q l1 l2 : entries s (wq q s) (l1 ++ l2) → deref q (last l1) s = Ret (list.head l2).
Proof.
  intros [Hl _]%entries_app. destruct (last l1); simpl; [by apply next_spec|by rewrite Hl].
Qed.

(** An entry is taken out. *)
Lemma entries_cut s s' h t l1 l2 n : NoDup (l1 ++ t :: l2) → entries s h (l1 ++ t :: l2) → next_of s t = Some n →
  (∀ u, u ∈ l1 ++ l2 → Some u ≠ last l1 → next_of s' u = next_of s u) →
  (∀ u, last l1 = Some u → next_of s' u = Some n) →
  entries s' (match last l1 with None => n | Some _ => h end) (l1 ++ l2).
Proof.
  revert h. induction l1 as [|u l1 IH]; intros h Hnd Hc Hn Hsame Hlast.
  - simpl in *. destruct Hc as [_ (n' & Hn' & Hc)]. simplify_eq. eapply entries_frame; [|done]. intros u Hu. by apply Hsame.
  - destruct Hc as [-> (n' & Hn' & Hc)]. rewrite <-app_comm_cons in Hnd. apply NoDup_cons in Hnd as [Hu Hnd].
    assert (∃ m, next_of s' u = Some m ∧ entries s' m (l1 ++ l2)) as Hm.
    { destruct (last l1) as [w|] eqn:El.
      - exists n'. assert (Some u ≠ last (u :: l1)) as Hne.
        { rewrite last_cons, El. intros [= ->]. destruct Hu. apply last_Some_elem_of in El. apply elem_of_app. by left. }
        split; [rewrite Hsame; [done|by left|done]|]. rewrite last_cons, El in Hsame, Hlast.
        apply (IH n'); [done..| |done]. intros v Hv. apply Hsame. by right.
      - apply last_None in El as ->. exists n. split; [by apply Hlast|]. apply (IH n'); [done..| |done].
        intros v Hv _. apply Hsame; [by right|]. simpl. intros [= ->]. destruct Hu. simpl in *. by right. }
    rewrite last_cons. destruct (last l1); by split.
Qed.

(** ** The invariant *)

Definition idle (p : pipe_info) : Prop := data_size p = 0 ∧ write_open p ≠ 0.

(** The task is in a [wakeup], or before one, that reaches the sleepers of the queue [q]. *)
Definition wakes (q : queue) (c : pc) : Prop :=
  match c with Head q' _ | Walk q' _ _ | Next q' _ _ | Clear q' _ => q' = q ∨ q' = QRead | _ => False end.
Definition pending (q : queue) (s : sys) : Prop := ∃ v x, tasks s !! v = Some x ∧ wakes q (t_pc x).

(** Where a task is whose entry is in the queue [q]. *)
Definition queued (q : queue) (c : pc) : Prop :=
  match c with SetState k | Spin k | Signal k | Find k _ | Cut k _ => queue_of k = q | _ => False end.

Definition waiter_ok (k : waiter) : Prop := match k with WReader c => is_u32 c | WPoller => True end.

(** What is known of task [t], whose queues hold the tasks [L]; a task in a section leaves it
    within [m] statements. *)
Definition task_inv (s : sys) (L : queue → list nat) (m : nat) (t : nat) (x : task) : Prop :=
  match t_pc x with
  | RCheck c | RAgain c | RTake c => is_u32 c
  | ROpen c => is_u32 c ∧ data_size (s_pipe s) = 0 ∧ (3 < m)%nat
  | WWrite bytes => is_u32 (Z.of_nat (length bytes))
  | Link k => waiter_ok k ∧ idle (s_pipe s) ∧ (2 < m)%nat
  | Push k => waiter_ok k ∧ idle (s_pipe s) ∧ t_next x = Some (wq (queue_of k) s) ∧ (1 < m)%nat
  | SetState k => waiter_ok k ∧ idle (s_pipe s) ∧ t ∈ L (queue_of k) ∧ (0 < m)%nat
  | Spin k | Signal k => waiter_ok k ∧
      (t_state x = TASK_INTERRUPTIBLE → t ∈ L (queue_of k) ∧ (idle (s_pipe s) ∨ pending (queue_of k) s))
  | Find k None => waiter_ok k
  | Find k (Some u) => waiter_ok k ∧
      ∃ l1 l2, L (queue_of k) = l1 ++ l2 ∧ last l1 = Some u ∧ (t ∉ l1) ∧ (length l2 < m)%nat
  | Cut k pp => waiter_ok k ∧ ∃ l1 l2, L (queue_of k) = l1 ++ t :: l2 ∧ last l1 = pp ∧ (0 < m)%nat
  | Walk q _ p => ∃ l1 l2, L q = l1 ++ l2 ∧ p = list.head l2 ∧ Forall (awake s) l1 ∧ (2 * length l2 + 1 < m)%nat
  | Next q _ u => ∃ l1 l2, L q = l1 ++ u :: l2 ∧ Forall (awake s) (l1 ++ [u]) ∧ (2 * length l2 + 2 < m)%nat
  | Clear q _ => Forall (awake s) (L q) ∧ (0 < m)%nat
  | PScan | WClose | Head _ _ | Done _ => True
  end.

Record inv (s : sys) (L : queue → list nat) (m : nat) : Prop := {
  iv_pipe : pipe_inv (s_pipe s);
  iv_reader : read_open (s_pipe s) ≠ 0;
  iv_writers : 0 ≤ write_open (s_pipe s);
  iv_chain : ∀ q, entries s (wq q s) (L q);
  iv_nodup : ∀ q, NoDup (L q);
  iv_queued : ∀ q u, u ∈ L q → ∃ x, tasks s !! u = Some x ∧ queued q (t_pc x);
  iv_states : ∀ u x, tasks s !! u = Some x → t_state x = TASK_RUNNING ∨ t_state x = TASK_INTERRUPTIBLE;
  iv_tasks : ∀ u x, tasks s !! u = Some x → task_inv s L m u x }.

(** The other tasks are where they were, and may have been woken. *)
Definition still (z z' : task) : Prop := t_pc z' = t_pc z ∧ (t_state z' = t_state z ∨ t_state z' = TASK_RUNNING).
Definition others_still (t : nat) (s s' : sys) : Prop := ∀ u, u ≠ t → option_Forall2 still (tasks s !! u) (tasks s' !! u).

Lemma still_l t s s' u z : others_still t s s' → u ≠ t → tasks s !! u = Some z → ∃ z', tasks s' !! u = Some z' ∧ still z z'.
Proof. intros Hs Hne Hz. specialize (Hs u Hne). rewrite Hz in Hs. inversion Hs; eauto. Qed.
Lemma still_r t s s' u z' : others_still t s s' → u ≠ t → tasks s' !! u = Some z' → ∃ z, tasks s !! u = Some z ∧ still z z'.
Proof. intros Hs Hne Hz. specialize (Hs u Hne). rewrite Hz in Hs. inversion Hs; eauto. Qed.

Lemma still_out t s s' : others_still t s s' → others_out t s → others_out t s'.
Proof.
  intros Hs Ho u z' Hne Hz'. destruct (still_r t s s' u z' Hs Hne Hz') as (z & Hz & E & _). rewrite E. by apply (Ho u).
Qed.

(** A step of [t], which is at [x] before and at [y] after it. *)
Lemma frame s L m s' L' m' t x y : inv s L m → others_out t s →
  tasks s !! t = Some x → tasks s' !! t = Some y → others_still t s s' →
  pipe_inv (s_pipe s') → read_open (s_pipe s') = read_open (s_pipe s) → 0 ≤ write_open (s_pipe s') →
  (idle (s_pipe s) → idle (s_pipe s') ∨ ∀ q, wakes q (t_pc y)) →
  (∀ q, wakes q (t_pc x) → wakes q (t_pc y) ∨ L' q = []) →
  (∀ q, entries s' (wq q s') (L' q)) → (∀ q, NoDup (L' q)) →
  (∀ q u, u ≠ t → u ∈ L' q → u ∈ L q) → (∀ q, t ∈ L' q → queued q (t_pc y)) →
  (∀ q u, u ≠ t → u ∈ L q → u ∈ L' q ∨ awake s' u) →
  (t_state y = t_state x ∨ t_state y = TASK_RUNNING ∨ t_state y = TASK_INTERRUPTIBLE) →
  task_inv s' L' m' t y → inv s' L' m'.
Proof.
  intros Hi Ho Hx Hy Hst Hp Hr Hw Hidle Hwk Hc Hnd HL' Ht HL Hys Hyi.
  constructor; try done; [by rewrite Hr; apply Hi|..].
  - intros q u Hu. destruct (decide (u = t)) as [->|Hne]; [exists y; split; [done|by apply Ht]|].
    destruct (iv_queued _ _ _ Hi q u) as (z & Hz & Hq); [by apply HL'|].
    destruct (still_l t s s' u z Hst Hne Hz) as (z' & Hz' & E & _). exists z'. by rewrite E.
  - intros u z' Hz'. destruct (decide (u = t)) as [->|Hne].
    { simplify_eq. destruct Hys as [->|]; [by apply (iv_states _ _ _ Hi t)|done]. }
    destruct (still_r t s s' u z' Hst Hne Hz') as (z & Hz & _ & E).
    destruct (iv_states _ _ _ Hi u z); [done|..]; destruct E as [->| ->]; auto.
  - intros u z' Hz'. destruct (decide (u = t)) as [->|Hne]; [by simplify_eq|].
    destruct (still_r t s s' u z' Hst Hne Hz') as (z & Hz & E & Es).
    pose proof (iv_tasks _ _ _ Hi u z Hz) as Hui. pose proof (Ho u z Hne Hz) as Hout.
    assert (∀ k, t_state z' = TASK_INTERRUPTIBLE → t_state z = TASK_INTERRUPTIBLE ∧
      (u ∈ L (queue_of k) ∧ (idle (s_pipe s) ∨ pending (queue_of k) s) → u ∈ L' (queue_of k) ∧ (idle (s_pipe s') ∨ pending (queue_of k) s'))) as Hspin.
    { intros k Hint. split; [destruct Es as [<-|Es]; [done|by rewrite Es in Hint]|]. intros [Hin Hor].
      assert (u ∈ L' (queue_of k)) as Hin'.
      { destruct (HL _ u Hne Hin) as [|(w & Hw' & Hrun)]; [done|]. simplify_eq. by rewrite Hrun in Hint. }
      split; [done|]. destruct Hor as [Hid|(v & w & Hv & Hwv)].
      - destruct (Hidle Hid) as [|Hyw]; [by left|]. right. exists t, y. by split.
      - right. destruct (decide (v = t)) as [->|Hvt].
        + simplify_eq. destruct (Hwk _ Hwv) as [|E0]; [by exists t, y|]. rewrite E0 in Hin'. by apply elem_of_nil in Hin'.
        + destruct (still_l t s s' v w Hst Hvt Hv) as (w' & Hw' & Ew & _). exists v, w'. by rewrite Ew. }
    unfold task_inv in *. rewrite E. destruct (t_pc z); simpl in Hout; try done.
    + split; [apply Hui|]. intros Hint. destruct (Hspin k Hint) as [H1 H2]. apply H2. by apply Hui.
    + split; [apply Hui|]. intros Hint. destruct (Hspin k Hint) as [H1 H2]. apply H2. by apply Hui.
    + by destruct pp.
Qed.

(** A step of [t] that changes nothing but [t] and the pipe. *)
Lemma keep s L m s' m' t x y : inv s L m → others_out t s → tasks s !! t = Some x →
  tasks s' = <[t := y]> (tasks s) → (∀ q, wq q s' = wq q s) →
  pipe_inv (s_pipe s') → read_open (s_pipe s') = read_open (s_pipe s) → 0 ≤ write_open (s_pipe s') →
  (idle (s_pipe s) → idle (s_pipe s') ∨ ∀ q, wakes q (t_pc y)) →
  (∀ q, wakes q (t_pc x) → wakes q (t_pc y)) →
  (∀ q, t ∈ L q → queued q (t_pc x) → t_next y = t_next x ∧ queued q (t_pc y)) →
  (t_state y = t_state x ∨ t_state y = TASK_RUNNING ∨ t_state y = TASK_INTERRUPTIBLE) →
  task_inv s' L m' t y → inv s' L m' ∧ others_still t s s'.
Proof.
  intros Hi Ho Hx Et Eq Hp Hr Hw Hidle Hwk Hq Hys Hyi.
  assert (tasks s' !! t = Some y) as Hy by (rewrite Et; apply list_lookup_insert_eq; by eapply lookup_lt_Some).
  assert (others_still t s s') as Hst.
  { intros u Hne. rewrite Et, list_lookup_insert_ne by done. destruct (tasks s !! u); constructor. split; [done|by left]. }
  assert (∀ q, t ∈ L q → t_next y = t_next x ∧ queued q (t_pc y)) as Hq'.
  { intros q Hin. apply Hq; [done|]. destruct (iv_queued _ _ _ Hi q t Hin) as (x' & Hx' & Hx''). by simplify_eq. }
  split; [|done]. eapply (frame s L m s' L m' t x y); try done.
  - intros q Hwq. left. by apply Hwk.
  - intros q. rewrite Eq. eapply entries_frame; [|apply Hi]. intros u Hu. unfold next_of.
    destruct (decide (u = t)) as [->|Hne]; [|by rewrite Et, list_lookup_insert_ne].
    rewrite Hy, Hx. by apply (Hq' q).
  - apply Hi.
  - intros q Hin. by apply (Hq' q).
  - intros q u _ Hin. by left.
Qed.

(** ** Every statement runs and keeps the invariant *)

Section one_step.
Context (s : sys) (L : queue → list nat) (m : nat) (t : nat) (x : task).
Context (Hi : inv s L m) (Ho : others_out t s) (Hx : tasks s !! t = Some x).
#[local] Set Default Proof Using "Hi Ho Hx".

Definition goes : Prop := ∃ s' L' m',
  run1 s t = Ret s' ∧ inv s' L' m' ∧ others_still t s s' ∧ (critical (t_pc x) = true → m' = m - 1)%nat.

Lemma run1_at : run1 s t = match t_pc x with
  | RCheck count => Ret (goto t x (if data_size (s_pipe s) =? 0 then ROpen count else RTake count) s)
  | ROpen count => Ret (goto t x (if write_open (s_pipe s) =? 0 then Done 0 else Link (WReader count)) s)
  | RAgain count => Ret (goto t x (if (data_size (s_pipe s) =? 0) && negb (write_open (s_pipe s) =? 0) && t_signal x
                                   then Done (-1) else RCheck count) s)
  | RTake count =>
      '(bytes, p) ← pipe_take count (s_pipe s);
      Ret (put_pipe p (goto t x (Head QPoll (Z.of_nat (length bytes))) s))
  | PScan => Ret (goto t x (if pipe_poll_read POLLIN (s_pipe s) =? 0 then Link WPoller else Done 1) s)
  | (Link _ | Push _ | SetState _ | Spin _ | Signal _ | Find _ _ | Cut _ _) as c => sleep_on s t x c
  | WWrite bytes =>
      '(n, p) ← pipe_write bytes (Z.of_nat (length bytes)) (s_pipe s);
      Ret (put_pipe p (goto t x (if n <=? 0 then Done n else Head QRead n) s))
  | WClose =>
      let p := s_pipe s in
      let w := if 0 <? write_open p then write_open p - 1 else write_open p in
      Ret (put_pipe (Pipe (buffer p) (read_pos p) (write_pos p) (data_size p) (read_open p) w)
             (goto t x (if (0 <? write_open p) && (w =? 0) then Head QRead 1 else Head QPoll 1) s))
  | (Head _ _ | Walk _ _ _ | Next _ _ _ | Clear _ _) as c => wakeup s t x c
  | Done _ => Ret s
  end.
Proof using Hx. unfold run1, get_task. rewrite Hx. cbn [or_fault]. by rewrite bind_ret. Qed.

(** Going on to [c], with another state or entry. *)
Lemma keep_put m' st n c :
  (∀ q, wakes q (t_pc x) → wakes q c) →
  (∀ q, t ∈ L q → queued q (t_pc x) → n = t_next x ∧ queued q c) →
  (st = t_state x ∨ st = TASK_RUNNING ∨ st = TASK_INTERRUPTIBLE) →
  let s' := put_task t (Task st (t_signal x) n c) s in
  task_inv s' L m' t (Task st (t_signal x) n c) → inv s' L m' ∧ others_still t s s'.
Proof.
  intros Hw Hq Hst s' Ht. pose proof Hi as [? ? ? ? ? ? ? ?]. eapply (keep s L m s' m' t x); try done. by left.
Qed.

Lemma keep_goto m' c :
  (∀ q, wakes q (t_pc x) → wakes q c) → (∀ q, queued q (t_pc x) → queued q c) →
  task_inv (goto t x c s) L m' t (Task (t_state x) (t_signal x) (t_next x) c) →
  inv (goto t x c s) L m' ∧ others_still t s (goto t x c s).
Proof. intros Hw Hq Ht. apply keep_put; [done| |by left|done]. intros q _ Hx'. split; [done|by apply Hq]. Qed.

Lemma goes_by s' L' m' : run1 s t = Ret s' → inv s' L' m' ∧ others_still t s s' → (critical (t_pc x) = true → m' = m - 1)%nat → goes.
Proof. intros E [H1 H2] H3. by exists s', L', m'. Qed.

Lemma here : task_inv s L m t x.
Proof. by apply Hi. Qed.

Lemma size_zero : data_size (s_pipe s) = 0 ∨ 0 < data_size (s_pipe s).
Proof. destruct (iv_pipe _ _ _ Hi). lia. Qed.

Lemma step_check c : t_pc x = RCheck c → goes.
Proof.
  intros Ec. pose proof here as Ht. unfold task_inv in Ht. rewrite Ec in Ht.
  eapply (goes_by _ L 4); [by rewrite run1_at, Ec| |by rewrite Ec]. apply keep_goto; [by rewrite Ec..|].
  destruct (Z.eqb_spec (data_size (s_pipe s)) 0); [|done]. simpl. split_and!; [apply Ht..|done|lia].
Qed.

Lemma step_open c : t_pc x = ROpen c → goes.
Proof.
  intros Ec. pose proof here as Ht. unfold task_inv in Ht. rewrite Ec in Ht.
  eapply (goes_by _ L (m - 1)); [by rewrite run1_at, Ec| |done]. apply keep_goto; [by rewrite Ec..|].
  destruct (Z.eqb_spec (write_open (s_pipe s)) 0); [done|]. cbn. split; [apply Ht|]. split; [by split; [apply Ht|]|lia].
Qed.

Lemma step_again c : t_pc x = RAgain c → goes.
Proof.
  intros Ec. pose proof here as Ht. unfold task_inv in Ht. rewrite Ec in Ht.
  eapply (goes_by _ L m); [by rewrite run1_at, Ec| |by rewrite Ec]. apply keep_goto; [by rewrite Ec..|]. by case_match.
Qed.

(** A step that also changes the pipe. *)
Lemma keep_pipe m' p c : (∀ q, ¬ queued q (t_pc x)) → (∀ q, ¬ wakes q (t_pc x)) →
  pipe_inv p → read_open p = read_open (s_pipe s) → 0 ≤ write_open p →
  (idle (s_pipe s) → idle p ∨ ∀ q, wakes q c) →
  let s' := put_pipe p (goto t x c s) in
  task_inv s' L m' t (Task (t_state x) (t_signal x) (t_next x) c) → inv s' L m' ∧ others_still t s s'.
Proof.
  intros Hq Hw Hp Hr Hwo Hid s' Ht. eapply (keep s L m s' m' t x); try done.
  - intros q Hq'. by destruct (Hw q).
  - intros q _ Hq'. by destruct (Hq q).
  - by left.
Qed.

Lemma step_take c : t_pc x = RTake c → goes.
Proof.
  intros Ec. pose proof here as Ht. unfold task_inv in Ht. rewrite Ec in Ht.
  destruct (pipe_take_spec c (s_pipe s) (iv_pipe _ _ _ Hi) Ht) as (p' & Ep & Hp' & Hcont & Er & Ew).
  eapply (goes_by _ L m); [by rewrite run1_at, Ec, Ep, bind_ret| |by rewrite Ec].
  apply keep_pipe; rewrite ?Ec, ?Ew; try done; [by intros q []..|apply Hi|].
  intros [Hd Hwo]. left. split; [|by rewrite Ew].
  pose proof (contents_length _ (iv_pipe _ _ _ Hi)) as Hl. pose proof (contents_length _ Hp') as Hl'.
  rewrite Hcont, length_drop in Hl'. lia.
Qed.

Lemma step_scan : t_pc x = PScan → goes.
Proof.
  intros Ec. eapply (goes_by _ L 4); [by rewrite run1_at, Ec| |by rewrite Ec]. apply keep_goto; [by rewrite Ec..|].
  destruct (Z.eqb_spec (pipe_poll_read POLLIN (s_pipe s)) 0) as [E|]; [|done]. cbn. split; [done|]. split; [|lia].
  revert E. unfold pipe_poll_read. change (negb (Z.land POLLIN POLLIN =? 0)) with true. cbn [andb].
  destruct size_zero as [Hd|Hd].
  - destruct (Z.eqb_spec (write_open (s_pipe s)) 0); [|by split]. rewrite Hd. done.
  - rewrite (proj2 (Z.ltb_lt _ _) Hd). by destruct (write_open _ =? 0).
Qed.

Lemma step_write bytes : t_pc x = WWrite bytes → goes.
Proof.
  intros Ec. pose proof here as Ht. unfold task_inv in Ht. rewrite Ec in Ht.
  destruct (pipe_write_spec bytes (Z.of_nat (length bytes)) (s_pipe s) (iv_pipe _ _ _ Hi)) as (p' & Ep & Hp' & Hcont & Er & Ew);
    [lia|done|apply Hi|].
  eapply (goes_by _ L m); [by rewrite run1_at, Ec, Ep, bind_ret| |by rewrite Ec].
  apply keep_pipe; rewrite ?Ec, ?Ew; try done; [by intros q []..|apply Hi| |by case_match].
  intros [Hd Hwo]. destruct (Z.leb_spec (Z.min (Z.of_nat (length bytes)) (PIPE_BUFFER_SIZE - data_size (s_pipe s))) 0) as [Hn|Hn].
  - left. split; [|by rewrite Ew]. pose proof (contents_length _ (iv_pipe _ _ _ Hi)) as Hl. pose proof (contents_length _ Hp') as Hl'.
    rewrite Hcont, length_app, length_take in Hl'. lia.
  - right. intros q. by right.
Qed.

Lemma step_close : t_pc x = WClose → goes.
Proof.
  intros Ec. pose proof (iv_writers _ _ _ Hi) as Hwo. pose proof (iv_pipe _ _ _ Hi) as [? ? ? ?].
  eapply (goes_by _ L m); [by rewrite run1_at, Ec| |by rewrite Ec].
  apply keep_pipe; rewrite ?Ec; try done; [by intros q []..| | |unfold task_inv; cbn [t_pc]; by destruct (_ && _)].
  - cbn. destruct (Z.ltb_spec 0 (write_open (s_pipe s))); lia.
  - intros [Hd Hne]. cbn. destruct (Z.ltb_spec 0 (write_open (s_pipe s))); [|lia]. cbn [andb].
    destruct (Z.eqb_spec (write_open (s_pipe s) - 1) 0); [right; intros q; by right|left; by split].
Qed.

Lemma in_queue q : t ∈ L q → queued q (t_pc x).
Proof. intros Hin. destruct (iv_queued _ _ _ Hi q t Hin) as (x' & Hx' & Hq). by simplify_eq. Qed.

Lemma step_link k : t_pc x = Link k → goes.
Proof.
  intros Ec. pose proof here as Ht. unfold task_inv in Ht. rewrite Ec in Ht. destruct Ht as (Hk & Hid & Hm).
  eapply (goes_by _ L (m - 1)); [by rewrite run1_at, Ec| |done]. apply keep_put; rewrite ?Ec; [by intros q []|done|by left|].
  cbn. split; [done|]. split; [done|]. split; [by destruct k|lia].
Qed.

Definition with_queue (q : queue) (l : list nat) (q' : queue) : list nat :=
  match q, q' with QRead, QRead | QPoll, QPoll => l | _, _ => L q' end.

Lemma with_queue_eq q l : with_queue q l q = l.
Proof using. by destruct q. Qed.
Lemma with_queue_ne q q' l : q' ≠ q → with_queue q l q' = L q'.
Proof using. by destruct q, q'. Qed.

Lemma wq_set q h s0 : wq q (set_wq q h s0) = h.
Proof using. by destruct q. Qed.
Lemma wq_set_ne q q' h s0 : q' ≠ q → wq q' (set_wq q h s0) = wq q' s0.
Proof using. by destruct q, q'. Qed.

(** A step that changes the queue [q] to [l] and task [t] to [y]. *)
Lemma keep_queue m' s' q l y :
  tasks s' !! t = Some y → others_still t s s' → s_pipe s' = s_pipe s →
  (∀ q', wakes q' (t_pc x) → wakes q' (t_pc y) ∨ with_queue q l q' = []) →
  (∀ q', q' ≠ q → wq q' s' = wq q' s) → (∀ u, u ≠ t → u ∉ L q → next_of s' u = next_of s u) →
  (∀ q', q' ≠ q → t ∉ L q') →
  entries s' (wq q s') l → NoDup l →
  (∀ u, u ≠ t → u ∈ l → u ∈ L q) → (t ∈ l → queued q (t_pc y)) →
  (∀ u, u ≠ t → u ∈ L q → u ∈ l ∨ awake s' u) →
  (t_state y = t_state x ∨ t_state y = TASK_RUNNING ∨ t_state y = TASK_INTERRUPTIBLE) →
  task_inv s' (with_queue q l) m' t y → inv s' (with_queue q l) m' ∧ others_still t s s'.
Proof.
  intros Hy Hst Ep Hw Hq Hn Ht Hc Hnd Hl Htq Hlq Hys Hti. split; [|done].
  assert (∀ q' u, q' ≠ q → u ∈ L q' → u ∉ L q) as Hdisj.
  { intros q' u Hne H1 H2. destruct (iv_queued _ _ _ Hi _ _ H1) as (z & Hz & Hq1).
    destruct (iv_queued _ _ _ Hi _ _ H2) as (z' & Hz' & Hq2). simplify_eq. destruct (t_pc z); simpl in *; congruence. }
  eapply (frame s L m s' _ m' t x y); rewrite ?Ep; try done; [apply Hi..|by left| | | | |]; intros q';
    (destruct (decide (q' = q)) as [->|Hne]; [rewrite ?with_queue_eq; try done|rewrite ?with_queue_ne by done]).
  - rewrite Hq by done. eapply entries_frame; [|apply Hi]. intros u Hu. apply Hn; [intros ->; by eapply Ht|by eapply Hdisj].
  - apply Hi.
  - done.
  - intros Hin. by destruct (Ht q').
  - intros u _ Hin. by left.
Qed.

Lemma step_push k : t_pc x = Push k → goes.
Proof.
  intros Ec. pose proof here as Ht. unfold task_inv in Ht. rewrite Ec in Ht. destruct Ht as (Hk & Hid & Hn & Hm).
  assert (∀ q, t ∉ L q) as Hnot by (intros q Hin; apply in_queue in Hin; by rewrite Ec in Hin).
  set (y := Task (t_state x) (t_signal x) (t_next x) (SetState k)).
  set (s' := set_wq (queue_of k) (Some t) (put_task t y s)).
  assert (tasks s' = <[t := y]> (tasks s)) as Et by (unfold s'; by destruct k).
  assert (tasks s' !! t = Some y) as Hy by (rewrite Et; apply list_lookup_insert_eq; by eapply lookup_lt_Some).
  assert (∀ u, u ≠ t → tasks s' !! u = tasks s !! u) as Hu by (intros u Hne; by rewrite Et, list_lookup_insert_ne).
  eapply (goes_by s' _ (m - 1)); [by rewrite run1_at, Ec| |done].
  apply (keep_queue (m - 1) s' (queue_of k) (t :: L (queue_of k)) y); try done.
  - intros u Hne. rewrite Hu by done. destruct (tasks s !! u); constructor. split; [done|by left].
  - unfold s'. by destruct k.
  - by rewrite Ec.
  - intros q Hq. unfold s'. rewrite wq_set_ne by done. done.
  - intros u Hne _. unfold next_of. by rewrite Hu.
  - unfold s'. rewrite wq_set. fold s'. split; [done|]. exists (wq (queue_of k) s). split; [unfold next_of; by rewrite Hy|].
    eapply entries_frame; [|apply Hi]. intros u Hin. unfold next_of. rewrite Hu; [done|]. intros ->. by eapply Hnot.
  - apply NoDup_cons. split; [done|apply Hi].
  - intros u Hne [->|]%elem_of_cons; done.
  - intros u _ Hin. left. by right.
  - by left.
  - cbn. rewrite with_queue_eq. assert (s_pipe s' = s_pipe s) as -> by (unfold s'; by destruct k).
    split; [done|]. split; [done|]. split; [by left|lia].
Qed.

Lemma step_set k : t_pc x = SetState k → goes.
Proof.
  intros Ec. pose proof here as Ht. unfold task_inv in Ht. rewrite Ec in Ht. destruct Ht as (Hk & Hid & Hin & Hm).
  eapply (goes_by _ L (m - 1)); [by rewrite run1_at, Ec| |done]. apply keep_put; rewrite ?Ec; [done|done|by auto|].
  cbn. split; [done|]. intros _. split; [done|by left].
Qed.

Lemma pending_put q y : (∀ q, wakes q (t_pc x) → False) → pending q s → pending q (put_task t y s).
Proof using Hx.
  intros Hw (v & z & Hv & Hz). exists v, z. split; [|done]. cbn. rewrite list_lookup_insert_ne; [done|].
  intros <-. simplify_eq. by eapply Hw.
Qed.

Lemma step_spin k : t_pc x = Spin k → goes.
Proof.
  intros Ec. pose proof here as Ht. unfold task_inv in Ht. rewrite Ec in Ht. destruct Ht as (Hk & Hs).
  eapply (goes_by _ L m); [by rewrite run1_at, Ec| |by rewrite Ec]. apply keep_goto; rewrite ?Ec; [done|by case_match|].
  case_match; [|done]. cbn. split; [done|]. intros Hint. destruct (Hs Hint) as [Hin Hor]. split; [done|].
  destruct Hor; [by left|]. right. apply pending_put; [by rewrite Ec|done].
Qed.

Lemma step_signal k : t_pc x = Signal k → goes.
Proof.
  intros Ec. pose proof here as Ht. unfold task_inv in Ht. rewrite Ec in Ht. destruct Ht as (Hk & Hs).
  destruct (t_signal x) eqn:Es.
  - eapply (goes_by _ L m); [by rewrite run1_at, Ec; cbn; rewrite Es| |by rewrite Ec].
    rewrite <-Es. apply keep_put; rewrite ?Ec; [done|done|by auto|done].
  - eapply (goes_by _ L m); [by rewrite run1_at, Ec; cbn; rewrite Es| |by rewrite Ec].
    apply keep_goto; rewrite ?Ec; [done|done|]. cbn. split; [done|]. intros Hint. destruct (Hs Hint) as [Hin Hor].
    split; [done|]. destruct Hor; [by left|]. right. apply pending_put; [by rewrite Ec|done].
Qed.

Lemma list_split k l1 l2 : L (queue_of k) = l1 ++ l2 → deref (queue_of k) (last l1) s = Ret (list.head l2).
Proof. intros El. apply entries_deref. rewrite <-El. apply Hi. Qed.

Lemma next_in q u : u ∈ L q → ∃ n, next_of s u = Some n.
Proof.
  intros Hin. pose proof (iv_chain _ _ _ Hi q) as Hc. revert Hc. generalize (wq q s).
  induction (L q) as [|v l IH]; [by apply elem_of_nil in Hin|]. intros h [_ (n & Hn & Hc)].
  apply elem_of_cons in Hin as [->|Hin]; [by exists n|]. by eapply IH.
Qed.

(** The search for the entry, which has passed the entries [l1]. *)
Lemma step_find_at m' k l1 l2 : t_pc x = Find k (last l1) → waiter_ok k → L (queue_of k) = l1 ++ l2 → t ∉ l1 →
  (length l2 ≤ m')%nat → (critical (t_pc x) = true → m' = m - 1)%nat → goes.
Proof.
  intros Ec Hk El Hnot Hlen Hm. pose proof (list_split k l1 l2 El) as Hd.
  assert (run1 s t = sleep_on s t x (Find k (last l1))) as Er by by rewrite run1_at, Ec.
  cbn [sleep_on] in Er. rewrite Hd, bind_ret in Er. destruct l2 as [|u l2]; cbn [list.head] in Er.
  - unfold leave, get_task in Er. rewrite Hx in Er. cbn [or_fault] in Er. rewrite bind_ret in Er.
    eapply (goes_by _ L m'); [done| |done]. apply keep_put; rewrite ?Ec; [done| |by left|by destruct k].
    intros q Hin Hq. simpl in Hq. subst q. rewrite El, app_nil_r in Hin. done.
  - destruct (next_in (queue_of k) u) as [n Hn]; [rewrite El; set_solver|].
    rewrite (next_spec _ _ _ Hn), bind_ret in Er. eapply (goes_by _ L m'); [done| |done].
    destruct (Nat.eqb_spec u t) as [->|Hne]; apply keep_goto; rewrite ?Ec; try done; cbn; (split; [done|]).
    + exists l1, l2. cbn in Hlen. split; [done|]. split; [done|lia].
    + exists (l1 ++ [u]), l2. rewrite <-app_assoc. split; [done|]. rewrite last_snoc. split; [done|]. cbn in Hlen.
      split; [set_solver|lia].
Qed.

Lemma step_find k pp : t_pc x = Find k pp → goes.
Proof.
  intros Ec. pose proof here as Ht. unfold task_inv in Ht. rewrite Ec in Ht. destruct pp as [u|].
  - destruct Ht as (Hk & l1 & l2 & El & Hl & Hnot & Hlen). rewrite <-Hl in Ec.
    apply (step_find_at (m - 1) k l1 l2 Ec Hk El Hnot); [lia|done].
  - apply (step_find_at (length (L (queue_of k))) k [] (L (queue_of k)) Ec Ht); [done|set_solver|done|]. by rewrite Ec.
Qed.

(** The states when the entry after [pp] is taken out, and when [sleep_on] has returned. *)
Definition relink (n : option nat) (z : task) : task := Task (t_state z) (t_signal z) (Some n) (t_pc z).
Definition unlinked (k : waiter) (pp : option nat) (n : option nat) : sys :=
  match pp with
  | None => set_wq (queue_of k) n s
  | Some u => match tasks s !! u with Some z => put_task u (relink n z) s | None => s end
  end.
Definition back (k : waiter) : task := Task (t_state x) (t_signal x) None (after_sleep k).
Definition returned (k : waiter) (pp : option nat) (n : option nat) : sys := put_task t (back k) (unlinked k pp n).

Lemma unlinked_lookup k pp n v :
  tasks (unlinked k pp n) !! v = if decide (pp = Some v) then relink n <$> tasks s !! v else tasks s !! v.
Proof using.
  unfold unlinked. destruct pp as [u|]; [|by destruct k]. destruct (tasks s !! u) as [z|] eqn:Hz; cbn.
  - case_decide; simplify_eq; [rewrite Hz; apply list_lookup_insert_eq; by eapply lookup_lt_Some|].
    apply list_lookup_insert_ne. congruence.
  - case_decide; simplify_eq; by rewrite ?Hz.
Qed.

Lemma returned_other k pp n v : v ≠ t → tasks (returned k pp n) !! v = tasks (unlinked k pp n) !! v.
Proof using. intros Hne. cbn. by apply list_lookup_insert_ne. Qed.

Lemma returned_self k pp n : tasks (returned k pp n) !! t = Some (back k).
Proof.
  apply list_lookup_insert_eq. apply lookup_lt_is_Some. rewrite unlinked_lookup, Hx. case_decide; by eexists.
Qed.

Lemma returned_still k pp n : others_still t s (returned k pp n).
Proof using.
  intros v Hv. rewrite returned_other, unlinked_lookup by done.
  case_decide; destruct (tasks s !! v); constructor; (split; [done|by left]).
Qed.

Lemma returned_pipe k pp n : s_pipe (returned k pp n) = s_pipe s.
Proof using. unfold returned, unlinked. destruct pp as [u|]; [by destruct (tasks s !! u)|by destruct k]. Qed.

Lemma returned_wq k pp n q : wq q (returned k pp n) = match pp with None => wq q (set_wq (queue_of k) n s) | Some _ => wq q s end.
Proof using. unfold returned, unlinked. destruct pp as [u|]; [by destruct (tasks s !! u)|done]. Qed.

Lemma returned_next k pp n v : v ≠ t → Some v ≠ pp → next_of (returned k pp n) v = next_of s v.
Proof using. intros Hv Hp. unfold next_of. by rewrite returned_other, unlinked_lookup, decide_False by congruence. Qed.

Lemma returned_next_at k u n : u ≠ t → is_Some (next_of s u) → next_of (returned k (Some u) n) u = Some n.
Proof using.
  intros Hv [n' Hn]. unfold next_of in *. rewrite returned_other, unlinked_lookup, decide_True by done.
  by destruct (tasks s !! u).
Qed.

Lemma cut_run k l1 l2 n : L (queue_of k) = l1 ++ t :: l2 → t ∉ l1 → next_of s t = Some n →
  sleep_on s t x (Cut k (last l1)) = Ret (returned k (last l1) n).
Proof.
  intros El Hnot Hn. cbn [sleep_on]. rewrite (list_split k l1 (t :: l2) El), bind_ret. cbn [list.head].
  rewrite (next_spec _ _ _ Hn), bind_ret. unfold returned, unlinked. destruct (last l1) as [u|] eqn:E; cbn [assign].
  - apply last_Some_elem_of in E. destruct (next_in (queue_of k) u) as [n' Hn']; [rewrite El; set_solver|].
    rewrite (next_spec _ _ _ Hn'), bind_ret. unfold next_of in Hn'. unfold get_task at 1.
    destruct (tasks s !! u) as [z|] eqn:Hz; [|done]. cbn [or_fault]. rewrite !bind_ret. unfold leave, get_task. cbn [put_task tasks].
    rewrite list_lookup_insert_ne, Hx by (intros ->; done). cbn [or_fault]. by rewrite bind_ret.
  - rewrite bind_ret. unfold leave, get_task. destruct k; cbn; rewrite Hx; cbn; done.
Qed.

Lemma step_cut k pp : t_pc x = Cut k pp → goes.
Proof.
  intros Ec. pose proof here as Ht. unfold task_inv in Ht. rewrite Ec in Ht.
  destruct Ht as (Hk & l1 & l2 & El & <- & Hm). pose proof (iv_nodup _ _ _ Hi (queue_of k)) as Hnd. rewrite El in Hnd.
  destruct (next_in (queue_of k) t) as [n Hn]; [rewrite El; set_solver|].
  assert ((t ∉ l1) ∧ (t ∉ l2) ∧ NoDup (l1 ++ l2)) as (Hn1 & Hn2 & Hnd').
  { apply NoDup_app in Hnd as (H1 & H2 & H3). apply NoDup_cons in H3 as [H3 H4]. rewrite NoDup_app. set_solver. }
  assert (∀ u, last l1 = Some u → u ∈ l1) as Hlast by (intros u; apply last_Some_elem_of).
  eapply (goes_by (returned k (last l1) n) _ (m - 1)); [rewrite run1_at, Ec; by eapply cut_run| |done].
  apply (keep_queue (m - 1) _ (queue_of k) (l1 ++ l2) (back k)); try done.
  - apply returned_self.
  - apply returned_still.
  - apply returned_pipe.
  - by rewrite Ec.
  - intros q Hq. rewrite returned_wq. case_match; [done|by apply wq_set_ne].
  - intros u Hne Hnin. apply returned_next; [done|]. intros Hl. destruct Hnin. rewrite El. set_solver.
  - intros q Hne Hin. apply in_queue in Hin. rewrite Ec in Hin. simpl in Hin. congruence.
  - rewrite returned_wq, wq_set. apply (entries_cut s _ (wq (queue_of k) s) t l1 l2 n); [done|rewrite <-El; apply Hi|done|..].
    + intros u Hin. apply returned_next. set_solver.
    + intros u Hl. rewrite Hl. apply returned_next_at; [set_solver|]. apply (next_in (queue_of k)). rewrite El. set_solver.
  - intros u Hne Hin. rewrite El. set_solver.
  - set_solver.
  - intros u Hne Hin. left. rewrite El in Hin. set_solver.
  - by left.
  - by destruct k.
Qed.

Lemma step_head q r : t_pc x = Head q r → goes.
Proof.
  intros Ec. eapply (goes_by _ L (2 * length (L q) + 2)); [by rewrite run1_at, Ec| |by rewrite Ec].
  apply keep_goto; rewrite ?Ec; [done|done|]. exists [], (L q). split; [done|].
  split; [apply (entries_app s _ [] (L q)), Hi|]. split; [constructor|lia].
Qed.

Lemma awake_goto c u : awake s u → awake (goto t x c s) u.
Proof.
  intros (z & Hz & Hr). unfold awake. cbn. destruct (decide (u = t)) as [->|]; [|rewrite list_lookup_insert_ne by done; eauto].
  rewrite list_lookup_insert_eq by by eapply lookup_lt_Some. simplify_eq. eauto.
Qed.

Lemma step_walk_end q r : t_pc x = Walk q r None → goes.
Proof.
  intros Ec. pose proof here as Ht. unfold task_inv in Ht. rewrite Ec in Ht. destruct Ht as (l1 & l2 & El & Hp & Hf & Hm).
  destruct l2 as [|u l2]; [|done]. eapply (goes_by _ L (m - 1)); [by rewrite run1_at, Ec| |done].
  apply keep_goto; rewrite ?Ec; [done|done|]. cbn. rewrite El, app_nil_r. split; [|lia].
  eapply Forall_impl; [done|]. intros u. apply awake_goto.
Qed.

Lemma step_next q r u : t_pc x = Next q r u → goes.
Proof.
  intros Ec. pose proof here as Ht. unfold task_inv in Ht. rewrite Ec in Ht. destruct Ht as (l1 & l2 & El & Hf & Hm).
  pose proof (iv_chain _ _ _ Hi q) as Hc. rewrite El, cons_middle, app_assoc in Hc. apply entries_app in Hc as [Hn _].
  rewrite last_snoc in Hn.
  eapply (goes_by _ L (m - 1)); [rewrite run1_at, Ec; cbn [wakeup]; by rewrite (next_spec _ _ _ Hn), bind_ret| |done].
  apply keep_goto; rewrite ?Ec; [done|done|]. exists (l1 ++ [u]), l2. rewrite <-app_assoc. split; [done|]. split; [done|].
  split; [|lia]. eapply Forall_impl; [done|]. intros v. apply awake_goto.
Qed.

Lemma step_walk q r u : t_pc x = Walk q r (Some u) → goes.
Proof.
  intros Ec. pose proof here as Ht. unfold task_inv in Ht. rewrite Ec in Ht. destruct Ht as (l1 & l2 & El & Hp & Hf & Hm).
  destruct l2 as [|? l2]; [done|]. injection Hp as <-. assert (u ∈ L q) as Hin by (rewrite El; set_solver).
  destruct (next_in q u Hin) as [n Hn]. destruct (iv_queued _ _ _ Hi q u Hin) as (z & Hz & Hqz).
  assert (u ≠ t) as Hne by (intros ->; simplify_eq; by rewrite Ec in Hqz).
  set (z' := Task TASK_RUNNING (t_signal z) (t_next z) (t_pc z)). set (y := Task (t_state x) (t_signal x) (t_next x) (Next q r u)).
  set (s' := put_task t y (put_task u z' s)).
  assert (tasks s' !! t = Some y) as Hy by (apply list_lookup_insert_eq; cbn; rewrite length_insert; by eapply lookup_lt_Some).
  assert (∀ v, v ≠ t → tasks s' !! v = if decide (u = v) then Some z' else tasks s !! v) as Hv.
  { intros v Hvt. cbn. rewrite list_lookup_insert_ne by done. destruct (decide (u = v)) as [<-|]; [|by rewrite list_lookup_insert_ne].
    apply list_lookup_insert_eq. by eapply lookup_lt_Some. }
  assert (∀ v, next_of s' v = next_of s v) as Hnx.
  { intros v. unfold next_of. destruct (decide (v = t)) as [->|]; [by rewrite Hy, Hx|]. rewrite Hv by done.
    destruct (decide (u = v)) as [<-|]; [by rewrite Hz|done]. }
  eapply (goes_by s' L (m - 1)).
  { rewrite run1_at, Ec. cbn [wakeup]. rewrite (next_spec _ _ _ Hn), bind_ret. assert (get_task s u = Ret z) as -> by (unfold get_task; by rewrite Hz).
    rewrite bind_ret. unfold get_task. cbn [put_task tasks]. rewrite list_lookup_insert_ne, Hx by done. cbn [or_fault]. by rewrite bind_ret. }
  2: { done. }
  assert (others_still t s s') as Hst.
  { intros v Hvt. rewrite Hv by done. destruct (decide (u = v)) as [<-|]; [rewrite Hz|destruct (tasks s !! v)]; constructor; split; auto. }
  split; [|done]. pose proof Hi as [? ? ? Hc ? Hq ? ?].
  eapply (frame s L m s' L (m - 1) t x y); try done; rewrite ?Ec; try done.
  - by left.
  - intros q' Hw. by left.
  - intros q'. eapply entries_frame; [|apply Hc]. done.
  - intros q' Ht%in_queue. by rewrite Ec in Ht.
  - intros q' v _ Hin'. by left.
  - by left.
  - exists l1, l2. split; [done|]. split; [|cbn in Hm; lia]. apply Forall_app. split.
    + eapply Forall_impl; [done|]. intros v (w & Hw & Hrun). unfold awake. destruct (decide (v = t)) as [->|].
      { simplify_eq. eauto. }
      rewrite Hv by done. case_decide; eauto.
    + constructor; [|constructor]. exists z'. by rewrite Hv, decide_True.
Qed.

Lemma step_clear q r : t_pc x = Clear q r → goes.
Proof.
  intros Ec. pose proof here as Ht. unfold task_inv in Ht. rewrite Ec in Ht. destruct Ht as (Hf & Hm).
  set (y := Task (t_state x) (t_signal x) (t_next x) (after_wakeup q r)). set (s' := set_wq q None (put_task t y s)).
  assert (tasks s' = <[t := y]> (tasks s)) as Et by by destruct q.
  assert (tasks s' !! t = Some y) as Hy by (rewrite Et; apply list_lookup_insert_eq; by eapply lookup_lt_Some).
  assert (∀ u, u ≠ t → tasks s' !! u = tasks s !! u) as Hu by (intros u Hne; by rewrite Et, list_lookup_insert_ne).
  eapply (goes_by s' _ (m - 1)); [by rewrite run1_at, Ec| |done].
  apply (keep_queue (m - 1) s' q [] y); try done.
  - intros u Hne. rewrite Hu by done. destruct (tasks s !! u); constructor. split; [done|by left].
  - by destruct q.
  - intros q'. rewrite Ec. by destruct q, q'; cbn; auto; intros [|].
  - intros q' Hq. unfold s'. by rewrite wq_set_ne.
  - intros u Hne _. unfold next_of. by rewrite Hu.
  - intros q' _ Hin%in_queue. by rewrite Ec in Hin.
  - unfold s'. by rewrite wq_set.
  - constructor.
  - set_solver.
  - set_solver.
  - intros u Hne Hin. right. rewrite Forall_forall in Hf. destruct (Hf u Hin) as (z & Hz & Hr). exists z. by rewrite Hu.
  - by left.
  - by destruct q.
Qed.

Lemma step_done r : t_pc x = Done r → goes.
Proof.
  intros Ec. eapply (goes_by s L m); [by rewrite run1_at, Ec| |by rewrite Ec]. split; [done|].
  intros u _. destruct (tasks s !! u); constructor. split; [done|by left].
Qed.

Lemma one_step : goes.
Proof.
  destruct (t_pc x) as [| | | | | | | | | | | | | | |? ? [u|]| | |] eqn:Ec;
    eauto using step_check, step_open, step_again, step_take, step_scan, step_link, step_push, step_set, step_spin,
      step_signal, step_find, step_cut, step_write, step_close, step_head, step_walk, step_walk_end, step_next,
      step_clear, step_done.
Qed.
End one_step.

(** ** Runs *)

Lemma inv_start p calls : pipe_inv p → read_open p ≠ 0 → 0 ≤ write_open p → Forall call_ok calls →
  inv (start p calls) (fun _ => []) 0 ∧ all_out (start p calls).
Proof.
  intros Hp Hr Hw Hc.
  assert (∀ u x, tasks (start p calls) !! u = Some x → ∃ c, x = Task TASK_RUNNING false None c ∧ call_ok c) as Hl.
  { intros u x Hx. cbn in Hx. rewrite list_lookup_fmap in Hx. destruct (calls !! u) as [c|] eqn:E; [|done].
    injection Hx as <-. exists c. split; [done|]. by eapply Forall_lookup_1. }
  split; [constructor; try done|].
  - by intros [].
  - constructor.
  - intros q u Hu. by apply elem_of_nil in Hu.
  - intros u x (c & -> & Hc')%Hl. by left.
  - intros u x (c & -> & Hc')%Hl. by destruct c.
  - intros u x (c & -> & Hc')%Hl. by destruct c.
Qed.

(** A signal changes neither the queues nor where a task is. *)
Lemma inv_signal s L m t x : inv s L m → all_out s → tasks s !! t = Some x →
  let s' := put_task t (Task (t_state x) true (t_next x) (t_pc x)) s in inv s' L m ∧ all_out s'.
Proof.
  intros Hi Ho Hx s'. pose proof Hi as [? ? ? ? ? ? ? Ht].
  assert (others_out t s) as Ho' by (intros u z _; apply Ho).
  assert (inv s' L m ∧ others_still t s s') as [Hi' Hst].
  { eapply (keep s L m s' m t x); try done; [by left|by left|].
    specialize (Ht t x Hx). specialize (Ho t x Hx). unfold task_inv in *. cbn.
    destruct (t_pc x) as [| | | | | | | | | |? []| | | | | | | |] eqn:Ec; try done;
      (split; [apply Ht|]); intros Hint; destruct Ht as [_ Ht]; destruct (Ht Hint) as [Hin [|Hor]]; (split; [done|]);
      [by left|right; by apply (pending_put s t x Hx); [rewrite Ec|]|by left|right; by apply (pending_put s t x Hx); [rewrite Ec|]]. }
  split; [done|]. intros u z Hz. destruct (decide (u = t)) as [->|Hne].
  - cbn in Hz. rewrite list_lookup_insert_eq in Hz by by eapply lookup_lt_Some. injection Hz as <-. exact (Ho t x Hx).
  - by apply (still_out t s s' Hst Ho' u).
Qed.

(** The states that are reached: at most one task is in a section. *)
Definition good (s : sys) : Prop := ∃ L m t, inv s L m ∧ others_out t s.

Lemma good_step s s' : good s → cstep s s' → good s'.
Proof.
  intros (L & m & t0 & Hi & _) [t s1 Ho E|t x Ho Hx].
  - destruct (tasks s !! t) as [x|] eqn:Hx; [|by unfold run1, get_task in E; rewrite Hx in E].
    destruct (one_step s L m t x Hi Ho Hx) as (s2 & L' & m' & E' & Hi' & Hst & _).
    rewrite E in E'. injection E' as <-. exists L', m', t. split; [done|by eapply still_out].
  - destruct (inv_signal s L m t x Hi Ho Hx) as [Hi' Ho']. exists L, m, t. split; [done|]. intros u z _. apply Ho'.
Qed.

Lemma good_run calls s : Forall call_ok calls → rtc cstep (start new_pipe calls) s → good s.
Proof.
  intros Hc Hr. assert (good (start new_pipe calls)) as Hg.
  { destruct (inv_start new_pipe calls new_pipe_inv) as [Hi Ho]; [done..|]. exists (fun _ => []), 0%nat, 0%nat.
    split; [done|]. intros u z _. apply Ho. }
  induction Hr; eauto using good_step.
Qed.

Lemma good_others s t x : good s → tasks s !! t = Some x → critical (t_pc x) = true → others_out t s.
Proof.
  intros (L & m & t0 & Hi & Ho) Hx Hc. destruct (decide (t = t0)) as [->|Hne]; [done|]. by rewrite (Ho t x Hne Hx) in Hc.
Qed.

Lemma run_cons s t n s1 : run1 s t = Ret s1 → run s (replicate (S n) t) = run s1 (replicate n t).
Proof. intros E. unfold run. cbn [replicate foldM]. by rewrite E, bind_ret. Qed.

Lemma out_of t s x : others_out t s → tasks s !! t = Some x → critical (t_pc x) = false → all_out s.
Proof. intros Ho Hx Hc u z Hz. destruct (decide (u = t)) as [->|Hne]; [by simplify_eq|by apply (Ho u)]. Qed.

Lemma put_length t x s : length (tasks (put_task t x s)) = length (tasks s).
Proof. apply length_insert. Qed.
Lemma set_wq_tasks q h s : tasks (set_wq q h s) = tasks s.
Proof. by destruct q. Qed.

Lemma assign_length q pp p s s' : assign q pp p s = Ret s' → length (tasks s') = length (tasks s).
Proof.
  destruct pp as [u|]; cbn; [|intros [= <-]; by rewrite set_wq_tasks]. intros E.
  apply bind_ret_inv in E as (? & _ & E). apply bind_ret_inv in E as (? & _ & E). injection E as <-. apply put_length.
Qed.

Lemma run1_length s t s' : run1 s t = Ret s' → length (tasks s') = length (tasks s).
Proof.
  intros E. unfold run1, sleep_on, wakeup, leave, goto in E.
  repeat first [progress (apply bind_ret_inv in E as (? & ? & E))|case_match]; simplify_eq; try done;
    rewrite ?set_wq_tasks; cbn [put_pipe tasks]; rewrite ?put_length; try done; by eapply assign_length.
Qed.

Lemma run1_here s t s' x : run1 s t = Ret s' → tasks s !! t = Some x → ∃ x', tasks s' !! t = Some x'.
Proof. intros E Hx. apply lookup_lt_is_Some. rewrite (run1_length _ _ _ E). by eapply lookup_lt_Some. Qed.

Lemma critical_left s L m t x : inv s L m → tasks s !! t = Some x → critical (t_pc x) = true → (0 < m)%nat.
Proof.
  intros Hi Hx Hc. pose proof (iv_tasks _ _ _ Hi t x Hx) as Ht. unfold task_inv in Ht.
  destruct (t_pc x) as [| | | | | | | | | |? []| | | | | | | |]; try done; naive_solver lia.
Qed.

(** A task leaves its section. *)
Lemma leaves m : ∀ s L t x, inv s L m → others_out t s → tasks s !! t = Some x →
  ∃ n s', run s (replicate n t) = Ret s' ∧ all_out s'.
Proof.
  induction m as [m IH] using lt_wf_ind. intros s L t x Hi Ho Hx.
  destruct (critical (t_pc x)) eqn:Hc; [|exists 0%nat, s; split; [done|by eapply out_of]].
  destruct (one_step s L m t x Hi Ho Hx) as (s1 & L' & m' & E & Hi' & Hst & Hm). specialize (Hm Hc).
  destruct (run1_here _ _ _ _ E Hx) as [x' Hx'].
  pose proof (critical_left s L m t x Hi Hx Hc) as Hpos.
  destruct (IH m' ltac:(lia) s1 L' t x' Hi' (still_out _ _ _ Hst Ho) Hx') as (n & s' & Er & Hout).
  exists (S n), s'. split; [by rewrite (run_cons _ _ _ _ E)|done].
Qed.

(** ** Wakeups *)

Definition sleeping (z : task) (q : queue) : Prop := ∃ k, queue_of k = q ∧ (t_pc z = Spin k ∨ t_pc z = Signal k).

(** After a [wakeup] of the queue [q] by [v], which was not interrupted, the tasks that slept
    on the queue run. *)
Definition woken (v : nat) (q : queue) (s s' : sys) : Prop :=
  ∀ t z, t ≠ v → tasks s !! t = Some z → ∃ z', tasks s' !! t = Some z' ∧ t_pc z' = t_pc z ∧
    (sleeping z q → t_state z' = TASK_RUNNING).

Definition in_wakeup (q : queue) (r : Z) (c : pc) : Prop :=
  match c with Walk q' r' _ | Next q' r' _ | Clear q' r' => q' = q ∧ r' = r | _ => False end.

Lemma in_wakeup_next s s' v x q r : run1 s v = Ret s' → tasks s !! v = Some x → in_wakeup q r (t_pc x) →
  ∃ x', tasks s' !! v = Some x' ∧
    if t_pc x is Clear _ _ then t_pc x' = after_wakeup q r else in_wakeup q r (t_pc x').
Proof.
  intros E Hx Hw. rewrite (run1_at s v x Hx) in E.
  destruct (t_pc x) as [| | | | | | | | | | | | | | |q' r' [u|]|q' r' u|q' r'|]; try done; destruct Hw as [-> ->]; cbn [wakeup] in E.
  - apply bind_ret_inv in E as (n & _ & E). apply bind_ret_inv in E as (z & _ & E). apply bind_ret_inv in E as (y & Hy & E).
    injection E as <-. unfold get_task in Hy. destruct (tasks _ !! v) as [y'|] eqn:E; [|done].
    eexists. split; [apply list_lookup_insert_eq; by eapply lookup_lt_Some|done].
  - injection E as <-. eexists. split; [apply list_lookup_insert_eq; by eapply lookup_lt_Some|done].
  - apply bind_ret_inv in E as (n & _ & E). injection E as <-.
    eexists. split; [apply list_lookup_insert_eq; by eapply lookup_lt_Some|done].
  - injection E as <-. rewrite set_wq_tasks. eexists. split; [apply list_lookup_insert_eq; by eapply lookup_lt_Some|done].
Qed.

Lemma still_woken v q s s1 s2 : others_still v s s1 → woken v q s1 s2 → woken v q s s2.
Proof.
  intros Hst Hw t z Hne Hz. destruct (still_l v s s1 t z Hst Hne Hz) as (z1 & Hz1 & E1 & _).
  destruct (Hw t z1 Hne Hz1) as (z2 & Hz2 & E2 & Hr). exists z2. split; [done|]. split; [congruence|].
  intros (k & Hk & Hs). apply Hr. exists k. by rewrite E1.
Qed.

(** At the end of the walk, everyone who sleeps on the queue has been woken. *)
Lemma walk_woken s L m v x q r s' : inv s L m → tasks s !! v = Some x → t_pc x = Clear q r →
  others_still v s s' → woken v q s s'.
Proof.
  intros Hi Hx Ec Hst t z Hne Hz. destruct (still_l v s s' t z Hst Hne Hz) as (z1 & Hz1 & E1 & Es).
  exists z1. split; [done|]. split; [done|]. intros (k & Hk & Hs). destruct Es as [Es|]; [|done]. rewrite Es.
  destruct (iv_states _ _ _ Hi t z Hz) as [|Hint]; [done|]. exfalso.
  pose proof (iv_tasks _ _ _ Hi t z Hz) as Htz. pose proof (iv_tasks _ _ _ Hi v x Hx) as Htv. unfold task_inv in *.
  rewrite Ec in Htv. destruct Htv as [Hf _]. rewrite Forall_forall in Hf.
  assert (t ∈ L q) as Hin by (rewrite <-Hk; destruct Hs as [Hs|Hs]; rewrite Hs in Htz; by apply Htz).
  destruct (Hf t Hin) as (z0 & Hz0 & Hr0). simplify_eq. by rewrite Hr0 in Hint.
Qed.

(** The rest of a [wakeup]. *)
Lemma wakeup_ends m : ∀ s L v x q r, inv s L m → others_out v s → tasks s !! v = Some x → in_wakeup q r (t_pc x) →
  ∃ n s', run s (replicate n v) = Ret s' ∧ good s' ∧ all_out s' ∧
    (∃ x', tasks s' !! v = Some x' ∧ t_pc x' = after_wakeup q r) ∧ woken v q s s'.
Proof.
  induction m as [m IH] using lt_wf_ind. intros s L v x q r Hi Ho Hx Hw.
  assert (critical (t_pc x) = true) as Hc by by destruct (t_pc x).
  destruct (one_step s L m v x Hi Ho Hx) as (s1 & L' & m' & E & Hi' & Hst & Hm). specialize (Hm Hc).
  destruct (in_wakeup_next s s1 v x q r E Hx Hw) as (x' & Hx' & Hn).
  pose proof (still_out _ _ _ Hst Ho) as Ho'.
  assert (t_pc x = Clear q r ∧ t_pc x' = after_wakeup q r ∨ in_wakeup q r (t_pc x')) as [[Ec En]|Hw'].
  { destruct (t_pc x); try done; try (by right). destruct Hw as [-> ->]. by left. }
  - exists 1%nat, s1. split; [by rewrite (run_cons _ _ _ _ E)|]. split; [by exists L', m', v|].
    split; [eapply out_of; [done..|]; rewrite En; by destruct q|]. split; [eauto|by eapply walk_woken].
  - pose proof (critical_left s L m v x Hi Hx Hc) as Hpos.
    destruct (IH m' ltac:(lia) s1 L' v x' q r Hi' Ho' Hx' Hw') as (n & s' & Er & Hg & Hout & Hxv & Hwk).
    exists (S n), s'. split; [by rewrite (run_cons _ _ _ _ E)|]. split_and!; [done..|by eapply still_woken].
Qed.

(** A [wakeup] from its beginning. *)
Lemma wakeup_runs s v x q r : good s → all_out s → tasks s !! v = Some x → t_pc x = Head q r →
  ∃ n s', run s (replicate n v) = Ret s' ∧ good s' ∧ all_out s' ∧
    (∃ x', tasks s' !! v = Some x' ∧ t_pc x' = after_wakeup q r) ∧ woken v q s s'.
Proof.
  intros (L & m & _ & Hi & _) Hout Hx Ec. assert (others_out v s) as Ho by (intros u z _; apply Hout).
  destruct (one_step s L m v x Hi Ho Hx) as (s1 & L' & m' & E & Hi' & Hst & _).
  assert (∃ x', tasks s1 !! v = Some x' ∧ in_wakeup q r (t_pc x')) as (x' & Hx' & Hw).
  { rewrite (run1_at s v x Hx), Ec in E. injection E as <-. eexists.
    split; [apply list_lookup_insert_eq; by eapply lookup_lt_Some|done]. }
  destruct (wakeup_ends m' s1 L' v x' q r Hi' (still_out _ _ _ Hst Ho) Hx' Hw) as (n & s' & Er & Hg & Ho' & Hxv & Hwk).
  exists (S n), s'. split; [by rewrite (run_cons _ _ _ _ E)|]. split_and!; [done..|by eapply still_woken].
Qed.

Lemma run_app s a b : run s (a ++ b) = (s ← run s a; run s b).
Proof. unfold run. revert s. induction a as [|t a IH]; intros s; [done|]. cbn. destruct (run1 s t); cbn; [apply IH|done..]. Qed.

(** A task that sleeps although there is input has a waker. *)
Lemma sleeper_wakes s t : good s → all_out s → asleep s t → input (s_pipe s) →
  ∃ v x q r n s', tasks s !! v = Some x ∧ t_pc x = Head q r ∧
    run s (replicate n v) = Ret s' ∧ all_out s' ∧ awake s' t.
Proof.
  intros Hg Hout (z & k & Hz & Hpc & Hint) Hin. pose proof Hg as (L & m & t0 & Hi & _).
  assert (pending (queue_of k) s) as (v & x & Hv & Hw).
  { pose proof (iv_tasks _ _ _ Hi t z Hz) as Ht. unfold task_inv in Ht.
    assert (idle (s_pipe s) ∨ pending (queue_of k) s) as [Hid|] by (destruct Hpc as [Hpc|Hpc]; rewrite Hpc in Ht; by apply Ht); [|done].
    destruct Hid, Hin; lia. }
  assert (t ≠ v) as Hne by (intros ->; simplify_eq; destruct Hpc as [Hpc|Hpc]; by rewrite Hpc in Hw).
  assert (sleeping z (queue_of k)) as Hsl by by exists k.
  pose proof (Hout v x Hv) as Hnc. destruct (t_pc x) as [| | | | | | | | | | | | | |q r| | | |] eqn:Ec; try done.
  destruct (wakeup_runs s v x q r Hg Hout Hv Ec) as (n & s1 & Er & Hg1 & Hout1 & (x1 & Hx1 & Ec1) & Hwk).
  destruct (Hwk t z Hne Hz) as (z1 & Hz1 & Epc1 & Hr1).
  destruct (decide (queue_of k = q)) as [Eq|Hnq].
  { exists v, x, q, r, n, s1. split_and!; [done..|]. exists z1. split; [done|]. apply Hr1. by rewrite <-Eq. }
  assert (q = QRead ∧ queue_of k = QPoll) as [-> Eq] by (destruct Hw as [| ->]; [congruence|by destruct (queue_of k)]).
  destruct (wakeup_runs s1 v x1 QPoll r Hg1 Hout1 Hx1 Ec1) as (n' & s2 & Er2 & _ & Hout2 & _ & Hwk2).
  destruct (Hwk2 t z1 Hne Hz1) as (z2 & Hz2 & _ & Hr2).
  exists v, x, QRead, r, (n + n')%nat, s2. split; [done|]. split; [done|]. split; [by rewrite replicate_add, run_app, Er|]. split; [done|]. exists z2. split; [done|].
  apply Hr2. exists k. by rewrite Epc1.
Qed.

(** A schedule in which no section is interrupted. *)
Definition may_run (s : sys) (t : nat) : bool :=
  forallb (fun u => (u =? t)%nat || match tasks s !! u with Some x => negb (critical (t_pc x)) | None => true end)
    (seq 0 (length (tasks s))).
Fixpoint crun (s : sys) (schedule : list nat) : option sys :=
  match schedule with
  | [] => Some s
  | t :: l => if may_run s t then match run1 s t with Ret s' => crun s' l | _ => None end else None
  end.

Lemma may_run_others s t : may_run s t = true → others_out t s.
Proof.
  unfold may_run. rewrite forallb_forall. intros H u x Hne Hx. specialize (H u). rewrite Hx in H.
  assert (In u (seq 0 (length (tasks s)))) as Hin by (apply in_seq; apply lookup_lt_Some in Hx; lia).
  specialize (H Hin). destruct (Nat.eqb_spec u t); [done|]. by destruct (critical (t_pc x)).
Qed.

Lemma crun_steps schedule : ∀ s s', crun s schedule = Some s' → rtc cstep s s'.
Proof.
  induction schedule as [|t l IH]; intros s s' E; cbn in E; [injection E as ->; apply rtc_refl|].
  destruct (may_run s t) eqn:Hm; [|done]. destruct (run1 s t) as [s1| |] eqn:E1; [|done..].
  eapply rtc_l; [eapply cstep_run; [by apply may_run_others|done]|by apply IH].
Qed.

(** C17: No wakeup is lost when the sections are not interrupted, in any interleaving of any
    number of reads, polls, writes and closes with signals.  A section is what a
    task does between finding nothing and sleeping, in the search for its own entry after
    the first look at the queue, and in a [wakeup] after the first look at the queue up to
    the assignment that empties it.  In
    every state that is reached, every statement that may run does so, without following a
    pointer to an entry that is gone; at most one task is in a section, and it leaves it
    after finitely many statements of its own; and when no task is in a section and a task
    sleeps although there is input, another is at the beginning of a [wakeup], and its
    statements make the sleeper run again. *)
Theorem no_wakeup_lost calls s : Forall call_ok calls → rtc cstep (start new_pipe calls) s →
  (∀ t x, tasks s !! t = Some x → others_out t s → ∃ s', run1 s t = Ret s') ∧
  (∀ t x, tasks s !! t = Some x → critical (t_pc x) = true →
     others_out t s ∧ ∃ n s', run s (replicate n t) = Ret s' ∧ all_out s') ∧
  (∀ t, all_out s → asleep s t → input (s_pipe s) →
     ∃ v x q r n s', tasks s !! v = Some x ∧ t_pc x = Head q r ∧
       run s (replicate n v) = Ret s' ∧ all_out s' ∧ awake s' t).
Proof.
  intros Hc Hr. pose proof (good_run calls s Hc Hr) as Hg. split_and!.
  - intros t x Hx Ho. destruct Hg as (L & m & _ & Hi & _).
    destruct (one_step s L m t x Hi Ho Hx) as (s' & _ & _ & E & _). by exists s'.
  - intros t x Hx Hcr. pose proof (good_others s t x Hg Hx Hcr) as Ho. split; [done|].
    destruct Hg as (L & m & _ & Hi & _). by eapply leaves.
  - intros t. by apply sleeper_wakes.
Qed.

(** A reader and a process that polls are asleep, and a byte has been written: both are
    about to be woken. *)
Lemma no_wakeup_lost_witness :
  ∃ s, crun (start new_pipe [RCheck 1; PScan; WWrite [65]]) [0; 0; 0; 0; 0; 1; 1; 1; 1; 2]%nat = Some s ∧
    asleep s 0 ∧ asleep s 1 ∧ input (s_pipe s) ∧
    (∃ v x q r n s', tasks s !! v = Some x ∧ t_pc x = Head q r ∧ run s (replicate n v) = Ret s' ∧ all_out s' ∧ awake s' 0%nat) ∧
    (∃ v x q r n s', tasks s !! v = Some x ∧ t_pc x = Head q r ∧ run s (replicate n v) = Ret s' ∧ all_out s' ∧ awake s' 1%nat).
Proof.
  destruct (crun (start new_pipe [RCheck 1; PScan; WWrite [65]]) [0; 0; 0; 0; 0; 1; 1; 1; 1; 2]%nat) as [s|] eqn:E;
    [|exfalso; revert E; by vm_compute].
  assert (asleep s 0 ∧ asleep s 1 ∧ input (s_pipe s) ∧ all_out s) as (H0 & H1 & Hi & Ho).
  { revert E. vm_compute. intros [= <-]. split_and!;
      [eexists _, (WReader 1); by split_and!; [|left|]|eexists _, WPoller; by split_and!; [|left|]|by left|].
    intros [|[|[|u]]] x Hx; try done; by injection Hx as <-. }
  destruct (no_wakeup_lost [RCheck 1; PScan; WWrite [65]] s) as (_ & _ & H); [by repeat constructor|by eapply crun_steps|].
  exists s. split_and!; [done..|by apply H|by apply H].
Defined.
