(* ===== verification/Ext3.v ===== *)
(** * The file system: blocks, inodes and files of ext3fs.c

    The tables of the file system in memory, the bitmaps, the blocks of a file behind its
    direct, indirect and double indirect entries, reading, writing and flushing.
    Directories are in Ext3Dir.v.

    The device is its sectors.  Whether [kalloc] finds memory is decided by a list of
    answers, one per call.  A buffer on the list of dirty blocks is its contents, because
    nothing else refers to it any more; the block of a directory stays shared with its
    entry, and is found through [dirblocks] when it is written. *)

From S2P Require Import Prelude Ring Bytes.

(** ** Constants *)

Definition BLOCK_SIZE : Z := 4096.
Definition FDC_SECTOR_SIZE : Z := 512.
Definition BLOCK_PER_SECTOR : Z := 8.
Definition INODE_MAX : Z := 256.
Definition INODE_SIZE : Z := 128.
Definition IBLOCK_SIZE : Z := 512.
Definition EXT3_PTRS_PER_BLOCK : Z := BLOCK_SIZE / 4.
Definition EXT3_DIRECT_BLOCKS : Z := 12.
Definition EXT3_IND_BLOCK : Z := EXT3_DIRECT_BLOCKS.
Definition EXT3_DIND_BLOCK : Z := EXT3_DIRECT_BLOCKS + 1.
Definition EXT3_DOUBLE_BLOCKS : Z := EXT3_PTRS_PER_BLOCK * EXT3_PTRS_PER_BLOCK.
Definition BLOCK_ZERO_STAGE : Z := EXT3_DIRECT_BLOCKS - 1.
Definition BLOCK_FIRST_STAGE : Z := BLOCK_ZERO_STAGE + EXT3_PTRS_PER_BLOCK.
Definition BLOCK_SECOND_STAGE : Z := BLOCK_FIRST_STAGE + EXT3_DOUBLE_BLOCKS.
Definition SODEX_ROOT_INO : Z := 2.
Definition SODEX_INIT2_INO : Z := 15.
Definition SODEX_FIRST_INO : Z := SODEX_INIT2_INO + 1.
Definition P_SUPER_BLOCK : Z := 1024.
Definition P_GROUP_DESC : Z := 4096.
Definition P_BLOCK_BITMAP : Z := 8192.
Definition P_INODE_BITMAP : Z := 12288.
Definition P_INODE_BLOCK : Z := 16384.
Definition S_SUPER_BLOCK : Z := 1024.
Definition S_GROUP_DESC : Z := 4096.
Definition S_BLOCK_BITMAP : Z := 4096.
Definition S_INODE_BITMAP : Z := 4096.
Definition S_INODE_BLOCK : Z := 4096 * (INODE_MAX / (BLOCK_SIZE / INODE_SIZE)).
Definition O_APPEND : Z := 0x400.

Definition u16 (x : Z) : Z := x mod 2 ^ 16.

(** ** Data *)

(** The fields the code uses, and the bytes between them. *)
Record ext3_super_block := Super {
  s_head : list Z;
  s_free_blocks_count : Z;
  s_free_inodes_count : Z;
  s_mid : list Z;
  s_first_ino : Z;
  s_tail : list Z }.

(** The first descriptor's counts, and the bytes of the table around them. *)
Record ext3_group_desc := Group {
  bg_head : list Z;
  bg_free_blocks_count : Z;
  bg_free_inodes_count : Z;
  bg_tail : list Z }.

Record ext3_inode := Inode {
  i_mode : Z;
  i_uid : Z;
  i_size : Z;
  i_times : list Z;
  i_gid : Z;
  i_links_count : Z;
  i_blocks : Z;
  i_flags : Z;
  i_osd1 : Z;
  i_block : list Z;
  i_rest : list Z }.

Inductive pblock := Owned (b : list Z) | Shared (d : nat).

Record ext3_dirty := Dirty {
  d_super : bool;
  d_group : bool;
  d_inobmp : bool;
  d_blkbmp : bool;
  d_inodirty : list Z;
  d_blkdirty : list (Z * pblock) }.

Record ext3 := Fs {
  dev : gmap Z (list Z);
  super_block : ext3_super_block;
  group_descs : ext3_group_desc;
  inodes : list ext3_inode;
  inode_bitmap : list Z;
  block_bitmap : list Z;
  rootdirty : ext3_dirty;
  dirblocks : list (list Z);
  k_answers : list bool }.

Definition set_dev (d : gmap Z (list Z)) (s : ext3) : ext3 :=
  Fs d (super_block s) (group_descs s) (inodes s) (inode_bitmap s) (block_bitmap s) (rootdirty s) (dirblocks s) (k_answers s).
Definition set_inodes (l : list ext3_inode) (s : ext3) : ext3 :=
  Fs (dev s) (super_block s) (group_descs s) l (inode_bitmap s) (block_bitmap s) (rootdirty s) (dirblocks s) (k_answers s).
Definition set_dirty (d : ext3_dirty) (s : ext3) : ext3 :=
  Fs (dev s) (super_block s) (group_descs s) (inodes s) (inode_bitmap s) (block_bitmap s) d (dirblocks s) (k_answers s).
Definition set_answers (l : list bool) (s : ext3) : ext3 :=
  Fs (dev s) (super_block s) (group_descs s) (inodes s) (inode_bitmap s) (block_bitmap s) (rootdirty s) (dirblocks s) l.

(** One call of [kalloc]. *)
Definition kalloc (s : ext3) : bool * ext3 :=
  match k_answers s with
  | b :: r => (b, set_answers r s)
  | [] => (true, s)
  end.

(** ** The device *)

Definition sector (d : gmap Z (list Z)) (n : Z) : list Z := default (replicate 512 0) (d !! n).
Definition raw_read (d : gmap Z (list Z)) (lba sects : Z) : list Z := concat (sector d <$> seqZ lba sects).
Definition raw_write (lba sects : Z) (buf : list Z) (d : gmap Z (list Z)) : outcome (gmap Z (list Z)) :=
  foldM (fun d i => b ← load_bytes buf (FDC_SECTOR_SIZE * i) FDC_SECTOR_SIZE; Ret (<[lba + i := b]> d)) (seqZ 0 sects) d.

(** The 32-bit numbers of a buffer. *)
Definition load32 (buf : list Z) (i : Z) : outcome Z := b ← load_bytes buf (4 * i) 4; Ret (le_value b).
Definition store32 (buf : list Z) (i v : Z) : outcome (list Z) := store_bytes buf (4 * i) (le_bytes 4 v).

(** ** Structures as bytes *)

Definition field (l : list Z) (off n : nat) : Z := le_value (take n (drop off l)).
Definition slice (l : list Z) (off n : nat) : list Z := take n (drop off l).

Definition super_bytes (b : ext3_super_block) : list Z :=
  s_head b ++ le_bytes 4 (s_free_blocks_count b) ++ le_bytes 4 (s_free_inodes_count b) ++ s_mid b ++
  le_bytes 4 (s_first_ino b) ++ s_tail b.
Definition super_of (l : list Z) : ext3_super_block :=
  Super (slice l 0 12) (field l 12 4) (field l 16 4) (slice l 20 64) (field l 84 4) (slice l 88 936).

Definition group_bytes (g : ext3_group_desc) : list Z :=
  bg_head g ++ le_bytes 2 (bg_free_blocks_count g) ++ le_bytes 2 (bg_free_inodes_count g) ++ bg_tail g.
Definition group_of (l : list Z) : ext3_group_desc :=
  Group (slice l 0 12) (field l 12 2) (field l 14 2) (slice l 16 4080).

Definition words_bytes (l : list Z) : list Z := concat (le_bytes 4 <$> l).
Definition words_of (l : list Z) (n : nat) : list Z := (fun k => field l (4 * k) 4) <$> seq 0 n.

Definition inode_bytes (i : ext3_inode) : list Z :=
  le_bytes 2 (i_mode i) ++ le_bytes 2 (i_uid i) ++ le_bytes 4 (i_size i) ++ words_bytes (i_times i) ++
  le_bytes 2 (i_gid i) ++ le_bytes 2 (i_links_count i) ++ le_bytes 4 (i_blocks i) ++ le_bytes 4 (i_flags i) ++
  le_bytes 4 (i_osd1 i) ++ words_bytes (i_block i) ++ i_rest i.
Definition inode_of (l : list Z) : ext3_inode :=
  Inode (field l 0 2) (field l 2 2) (field l 4 4) (words_of (slice l 8 16) 4) (field l 24 2) (field l 26 2) (field l 28 4)
    (field l 32 4) (field l 36 4) (words_of (slice l 40 60) 15) (slice l 100 28).
Definition inodes_of (l : list Z) : list ext3_inode := (fun k => inode_of (slice l (128 * k) 128)) <$> seq 0 256.

(** ** Bitmaps *)

(** The first clear bit of [n] bits. *)
Fixpoint find_bit (n : nat) (bitmap : list Z) (bit : Z) : outcome Z :=
  match n with
  | O => Ret (-1)
  | S n =>
      b ← load1 bitmap (bit / 8);
      if Z.land b (Z.shiftl 1 (bit mod 8)) =? 0 then Ret bit else find_bit n bitmap (bit + 1)
  end.

Definition __get_free_bitmap_range (bitmap : list Z) (start_bit end_bit : Z) : outcome Z :=
  let start_bit := if start_bit <? 0 then 0 else start_bit in
  let end_bit := if BLOCK_SIZE * 8 <=? end_bit then BLOCK_SIZE * 8 - 1 else end_bit in
  if end_bit <? start_bit then Ret (-1)
  else find_bit (Z.to_nat (end_bit - start_bit + 1)) bitmap start_bit.
Definition __get_free_bitmap (bitmap : list Z) : outcome Z := __get_free_bitmap_range bitmap 0 (BLOCK_SIZE * 8 - 1).

Definition __set_bitmap (bitmap : list Z) (bit : Z) : outcome (list Z) :=
  b ← load1 bitmap (bit / 8);
  store1 bitmap (bit / 8) (Z.lor b (Z.shiftl 1 (bit mod 8))).
Definition __clear_bitmap (bitmap : list Z) (bit : Z) : outcome (list Z) :=
  b ← load1 bitmap (bit / 8);
  store1 bitmap (bit / 8) (Z.land b (255 - Z.shiftl 1 (bit mod 8))).

(** ** Allocation *)

Definition add_free_blocks (k : Z) (s : ext3) : ext3_super_block * ext3_group_desc :=
  let b := super_block s in let g := group_descs s in
  (Super (s_head b) (u32 (s_free_blocks_count b + k)) (s_free_inodes_count b) (s_mid b) (s_first_ino b) (s_tail b),
   Group (bg_head g) (u16 (bg_free_blocks_count g + k)) (bg_free_inodes_count g) (bg_tail g)).

Definition put_block_bitmap (k : Z) (bitmap : list Z) (s : ext3) : ext3 :=
  let '(b, g) := add_free_blocks k s in
  let d := rootdirty s in
  Fs (dev s) b g (inodes s) (inode_bitmap s) bitmap
    (Dirty true true (d_inobmp d) true (d_inodirty d) (d_blkdirty d)) (dirblocks s) (k_answers s).

(** A full bitmap gives -1, which is then set as a bit all the same. *)
Definition __alloc_block (s : ext3) : outcome (Z * ext3) :=
  newblock ← __get_free_bitmap (block_bitmap s);
  bitmap ← __set_bitmap (block_bitmap s) (u32 newblock);
  Ret (newblock, put_block_bitmap (-1) bitmap s).

Definition put_inode_bitmap (k first : Z) (bitmap : list Z) (s : ext3) : ext3 :=
  let b := super_block s in let g := group_descs s in let d := rootdirty s in
  Fs (dev s) (Super (s_head b) (s_free_blocks_count b) (u32 (s_free_inodes_count b + k)) (s_mid b) first (s_tail b))
    (Group (bg_head g) (bg_free_blocks_count g) (u16 (bg_free_inodes_count g + k)) (bg_tail g))
    (inodes s) bitmap (block_bitmap s)
    (Dirty true true true (d_blkbmp d) (d_inodirty d) (d_blkdirty d)) (dirblocks s) (k_answers s).

Definition __alloc_ino (s : ext3) : outcome (Z * ext3) :=
  let start_bit := SODEX_FIRST_INO - 1 in
  let first := s_first_ino (super_block s) in
  let next_bit := if SODEX_FIRST_INO <? first then i32 first - 1 else start_bit in
  bit_index ← __get_free_bitmap_range (inode_bitmap s) next_bit (INODE_MAX - 1);
  bit_index ← (if (bit_index =? -1) && (start_bit <? next_bit)
               then __get_free_bitmap_range (inode_bitmap s) start_bit (next_bit - 1) else Ret bit_index);
  if bit_index =? -1 then Ret (-1, s) else
  let newino := bit_index + 1 in
  bitmap ← __set_bitmap (inode_bitmap s) (newino - 1);
  Ret (newino, put_inode_bitmap (-1) (if INODE_MAX <? newino + 1 then SODEX_FIRST_INO else newino + 1) bitmap s).

Definition ext3_free_block (block : Z) (s : ext3) : outcome ext3 :=
  if block =? 0 then Ret s else
  b ← load1 (block_bitmap s) (block / 8);
  if Z.land b (Z.shiftl 1 (block mod 8)) =? 0 then Ret s else
  bitmap ← __clear_bitmap (block_bitmap s) block;
  Ret (put_block_bitmap 1 bitmap s).

(** ** Inodes *)

(** [inodes[ino-1]]; NULL for 0. *)
Definition ext3_get_inode (ino : Z) (s : ext3) : outcome ext3_inode :=
  if ino =? 0 then Fault else load1 (inodes s) (ino - 1).
Definition ext3_set_inode (ino : Z) (i : ext3_inode) (s : ext3) : outcome ext3 :=
  l ← store1 (inodes s) (ino - 1) i; Ret (set_inodes l s).

Definition with_block (l : list Z) (i : ext3_inode) : ext3_inode :=
  Inode (i_mode i) (i_uid i) (i_size i) (i_times i) (i_gid i) (i_links_count i) (i_blocks i) (i_flags i) (i_osd1 i) l (i_rest i).
Definition with_size (size blocks : Z) (i : ext3_inode) : ext3_inode :=
  Inode (i_mode i) (i_uid i) size (i_times i) (i_gid i) (i_links_count i) blocks (i_flags i) (i_osd1 i) (i_block i) (i_rest i).
Definition zero_inode : ext3_inode :=
  Inode 0 0 0 (replicate 4 0) 0 0 0 0 0 (replicate 15 0) (replicate 28 0).

(** [inode->i_block[k] = v]. *)
Definition set_block (ino k v : Z) (s : ext3) : outcome ext3 :=
  i ← ext3_get_inode ino s;
  l ← store1 (i_block i) k v;
  ext3_set_inode ino (with_block l i) s.

Definition ext3_mark_inode_dirty (ino : Z) (s : ext3) : ext3 :=
  let '(ok, s) := kalloc s in
  if ok then
    let d := rootdirty s in
    set_dirty (Dirty (d_super d) (d_group d) (d_inobmp d) (d_blkbmp d) (ino :: d_inodirty d) (d_blkdirty d)) s
  else s.
Definition ext3_mark_block_dirty (iblock : Z) (b : pblock) (s : ext3) : ext3 :=
  let '(ok, s) := kalloc s in
  if ok then
    let d := rootdirty s in
    set_dirty (Dirty (d_super d) (d_group d) (d_inobmp d) (d_blkbmp d) (d_inodirty d) ((iblock, b) :: d_blkdirty d)) s
  else s.

(** ** The blocks of a file *)

Definition ext3_load_block_table (iblock : Z) (s : ext3) : option (list Z) * ext3 :=
  if iblock =? 0 then (None, s) else
  let '(ok, s) := kalloc s in
  if ok then (Some (raw_read (dev s) (u32 (iblock * BLOCK_SIZE) / FDC_SECTOR_SIZE) (BLOCK_SIZE / FDC_SECTOR_SIZE)), s)
  else (None, s).

Definition ext3_inode_get_block (i : ext3_inode) (lblock : Z) (s : ext3) : outcome (Z * ext3) :=
  if lblock <? 0 then Ret (0, s) else
  if lblock <=? BLOCK_ZERO_STAGE then b ← load1 (i_block i) lblock; Ret (i32 b, s) else
  if lblock <=? BLOCK_FIRST_STAGE then
    first_stage ← load1 (i_block i) EXT3_IND_BLOCK;
    if first_stage =? 0 then Ret (0, s) else
    let '(table, s) := ext3_load_block_table first_stage s in
    match table with
    | None => Ret (0, s)
    | Some table => b ← load32 table (lblock - BLOCK_ZERO_STAGE - 1); Ret (i32 b, s)
    end
  else if lblock <=? BLOCK_SECOND_STAGE then
    second_stage ← load1 (i_block i) EXT3_DIND_BLOCK;
    let offset := lblock - BLOCK_FIRST_STAGE - 1 in
    if second_stage =? 0 then Ret (0, s) else
    let '(table, s) := ext3_load_block_table second_stage s in
    match table with
    | None => Ret (0, s)
    | Some table =>
        leaf_block ← load32 table (offset / EXT3_PTRS_PER_BLOCK);
        if leaf_block =? 0 then Ret (0, s) else
        let '(leaf, s) := ext3_load_block_table leaf_block s in
        match leaf with
        | None => Ret (0, s)
        | Some leaf => b ← load32 leaf (offset mod EXT3_PTRS_PER_BLOCK); Ret (i32 b, s)
        end
    end
  else Ret (0, s).

(** The table of [i_block[k]], as both stages open it: its block, its contents and whether
    it is new; [None] when there is no memory for it. *)
Definition open_table (ino k : Z) (s : ext3) : outcome (option (Z * list Z * bool) * ext3) :=
  i ← ext3_get_inode ino s;
  table_block ← load1 (i_block i) k;
  if table_block =? 0 then
    let '(ok, s) := kalloc s in
    if negb ok then Ret (None, s) else
    '(nb, s) ← __alloc_block s;
    s ← set_block ino k (u32 nb) s;
    Ret (Some (u32 nb, replicate 4096 0, true), ext3_mark_inode_dirty ino s)
  else
    let '(table, s) := ext3_load_block_table table_block s in
    Ret ((fun t => (table_block, t, false)) <$> table, s).

(** [if (table[e] == 0) table[e] = __alloc_block()]: the entry, the table and whether it
    changed. *)
Definition ensure_entry (table : list Z) (e : Z) (dirty : bool) (s : ext3) : outcome (Z * list Z * bool * ext3) :=
  v ← load32 table e;
  if v =? 0 then
    '(nb, s) ← __alloc_block s;
    table ← store32 table e nb;
    Ret (u32 nb, table, true, s)
  else Ret (v, table, dirty, s).

Definition put_table (iblock : Z) (table : list Z) (dirty : bool) (s : ext3) : ext3 :=
  if dirty then ext3_mark_block_dirty iblock (Owned table) s else s.

(** [None]: the code goes on behind the stage. *)
Definition ensure_first_stage (ino lblock : Z) (s : ext3) : outcome (option Z * ext3) :=
  '(r, s) ← open_table ino EXT3_IND_BLOCK s;
  match r with
  | None => Ret (Some 0, s)
  | Some (table_block, table, dirty) =>
      '(resolved_block, table, dirty, s) ← ensure_entry table (lblock - BLOCK_ZERO_STAGE - 1) dirty s;
      let s := put_table table_block table dirty s in
      Ret (if negb (i32 resolved_block =? 0) then Some (i32 resolved_block) else None, s)
  end.

(** The leaf of an entry of the double indirect table: the table and whether it changed,
    the block of the leaf, its contents and whether it is new. *)
Definition open_leaf (table : list Z) (table_index : Z) (table_dirty : bool) (s : ext3) :
    outcome (option (list Z * bool * Z * list Z * bool) * ext3) :=
  leaf_block ← load32 table table_index;
  if leaf_block =? 0 then
    let '(ok, s) := kalloc s in
    if negb ok then Ret (None, s) else
    '(nb, s) ← __alloc_block s;
    table ← store32 table table_index nb;
    Ret (Some (table, true, u32 nb, replicate 4096 0, true), s)
  else
    let '(leaf, s) := ext3_load_block_table leaf_block s in
    Ret ((fun l => (table, table_dirty, leaf_block, l, false)) <$> leaf, s).

Definition ensure_second_stage (ino lblock : Z) (s : ext3) : outcome (option Z * ext3) :=
  let offset := i32 (lblock - BLOCK_FIRST_STAGE - 1) in
  let table_index := i32 (u32 offset / EXT3_PTRS_PER_BLOCK) in
  let leaf_index := i32 (u32 offset mod EXT3_PTRS_PER_BLOCK) in
  '(r, s) ← open_table ino EXT3_DIND_BLOCK s;
  match r with
  | None => Ret (Some 0, s)
  | Some (table_block, table, table_dirty) =>
      '(r, s) ← open_leaf table table_index table_dirty s;
      match r with
      | None => Ret (Some 0, s)
      | Some (table, table_dirty, leaf_block, leaf, leaf_dirty) =>
          '(resolved_block, leaf, leaf_dirty, s) ← ensure_entry leaf leaf_index leaf_dirty s;
          let s := put_table table_block table table_dirty s in
          let s := put_table leaf_block leaf leaf_dirty s in
          Ret (if negb (i32 resolved_block =? 0) then Some (i32 resolved_block) else None, s)
      end
  end.

Definition ext3_inode_ensure_block (ino lblock : Z) (s : ext3) : outcome (Z * ext3) :=
  if ino =? 0 then Ret (0, s) else
  i ← ext3_get_inode ino s;
  if lblock <=? BLOCK_ZERO_STAGE then
    b ← load1 (i_block i) lblock;
    if b =? 0 then
      '(nb, s) ← __alloc_block s;
      s ← set_block ino lblock (u32 nb) s;
      Ret (nb, ext3_mark_inode_dirty ino s)
    else Ret (i32 b, s)
  else
  '(r, s) ← (if lblock <=? BLOCK_FIRST_STAGE then ensure_first_stage ino lblock s else Ret (None, s));
  match r with
  | Some b => Ret (b, s)
  | None =>
      '(r, s) ← (if lblock <=? BLOCK_SECOND_STAGE then ensure_second_stage ino lblock s else Ret (None, s));
      Ret (default 0 r, s)
  end.

(** ** Releasing *)

Definition free_direct (ino : Z) (s : ext3) (k : Z) : outcome ext3 :=
  i ← ext3_get_inode ino s;
  b ← load1 (i_block i) k;
  if b =? 0 then Ret s else s ← ext3_free_block b s; set_block ino k 0 s.

Definition free_entry (table : list Z) (s : ext3) (i : Z) : outcome ext3 :=
  b ← load32 table i; if b =? 0 then Ret s else ext3_free_block b s.
Definition free_entries (table : list Z) (s : ext3) : outcome ext3 :=
  foldM (free_entry table) (seqZ 0 EXT3_PTRS_PER_BLOCK) s.

(** A leaf of the double indirect table; [None] when there is no memory for it. *)
Definition free_leaf (table : list Z) (r : option ext3 * ext3) (i : Z) : outcome (option ext3 * ext3) :=
  match r with
  | (Some s, _) =>
      b ← load32 table i;
      if b =? 0 then Ret (Some s, s) else
      let '(leaf, s) := ext3_load_block_table b s in
      match leaf with
      | None => Ret (None, s)
      | Some leaf => s ← free_entries leaf s; s ← ext3_free_block b s; Ret (Some s, s)
      end
  | (None, s) => Ret (None, s)
  end.

(** The tables of a file with their blocks; false when there is no memory for one. *)
Definition free_first (ino first_stage : Z) (s : ext3) : outcome (bool * ext3) :=
  if first_stage =? 0 then Ret (true, s) else
  let '(table, s) := ext3_load_block_table first_stage s in
  match table with
  | None => Ret (false, s)
  | Some table =>
      s ← free_entries table s;
      s ← ext3_free_block first_stage s;
      s ← set_block ino EXT3_IND_BLOCK 0 s;
      Ret (true, s)
  end.
Definition free_second (ino second_stage : Z) (s : ext3) : outcome (bool * ext3) :=
  if second_stage =? 0 then Ret (true, s) else
  let '(table, s) := ext3_load_block_table second_stage s in
  match table with
  | None => Ret (false, s)
  | Some table =>
      '(r, s) ← foldM (free_leaf table) (seqZ 0 EXT3_PTRS_PER_BLOCK) (Some s, s);
      match r with
      | None => Ret (false, s)
      | Some s =>
          s ← ext3_free_block second_stage s;
          s ← set_block ino EXT3_DIND_BLOCK 0 s;
          Ret (true, s)
      end
  end.

Definition ext3_release_inode_blocks (ino : Z) (s : ext3) : outcome ext3 :=
  if ino =? 0 then Ret s else
  s ← foldM (free_direct ino) (seqZ 0 EXT3_DIRECT_BLOCKS) s;
  i ← ext3_get_inode ino s;
  first_stage ← load1 (i_block i) EXT3_IND_BLOCK;
  '(ok, s) ← free_first ino first_stage s;
  if negb ok then Ret s else
  second_stage ← load1 (i_block i) EXT3_DIND_BLOCK;
  '(ok, s) ← free_second ino second_stage s;
  if negb ok then Ret s else
  i ← ext3_get_inode ino s;
  s ← ext3_set_inode ino (with_size 0 0 i) s;
  Ret (ext3_mark_inode_dirty ino s).

Definition ext3_release_inode (ino : Z) (s : ext3) : outcome ext3 :=
  if ino =? 0 then Ret s else
  s ← ext3_release_inode_blocks ino s;
  s ← ext3_set_inode ino zero_inode s;
  bitmap ← (if 0 <? ino then __clear_bitmap (inode_bitmap s) (ino - 1) else Ret (inode_bitmap s));
  Ret (ext3_mark_inode_dirty ino (put_inode_bitmap 1 (s_first_ino (super_block s)) bitmap s)).

(** ** Flushing *)

Definition flush_inode (s : ext3) (d : gmap Z (list Z)) (ino : Z) : outcome (gmap Z (list Z)) :=
  let sector_index := (ino - 1) * INODE_SIZE / FDC_SECTOR_SIZE in
  let aligned_inode_index := sector_index * FDC_SECTOR_SIZE / INODE_SIZE in
  l ← load_bytes (inodes s) aligned_inode_index 4;
  raw_write (P_INODE_BLOCK / FDC_SECTOR_SIZE + sector_index) 1 (concat (inode_bytes <$> l)) d.

Definition pblock_bytes (s : ext3) (b : pblock) : outcome (list Z) :=
  match b with
  | Owned l => Ret l
  | Shared d => or_fault (dirblocks s !! d)
  end.

Definition flush_block (s : ext3) (d : gmap Z (list Z)) (e : Z * pblock) : outcome (gmap Z (list Z)) :=
  l ← pblock_bytes s (e.2);
  raw_write (u32 (e.1 * BLOCK_PER_SECTOR)) (BLOCK_SIZE / FDC_SECTOR_SIZE) l d.

Definition write_if (b : bool) (pos size : Z) (l : list Z) (d : gmap Z (list Z)) : outcome (gmap Z (list Z)) :=
  if b then raw_write (pos / FDC_SECTOR_SIZE) (size / FDC_SECTOR_SIZE) l d else Ret d.

Definition ext3_flush (s : ext3) : outcome ext3 :=
  let r := rootdirty s in
  d ← write_if (d_super r) P_SUPER_BLOCK S_SUPER_BLOCK (super_bytes (super_block s)) (dev s);
  d ← write_if (d_group r) P_GROUP_DESC S_GROUP_DESC (group_bytes (group_descs s)) d;
  d ← write_if (d_blkbmp r) P_BLOCK_BITMAP S_BLOCK_BITMAP (block_bitmap s) d;
  d ← write_if (d_inobmp r) P_INODE_BITMAP S_INODE_BITMAP (inode_bitmap s) d;
  d ← foldM (flush_inode s) (d_inodirty r) d;
  d ← foldM (flush_block s) (d_blkdirty r) d;
  Ret (set_dirty (Dirty false false false false [] []) (set_dev d s)).

(** ** Files *)

(** What a read and a write use of an open file: the inode of its entry, its flags and its
    position. *)
Record file := File { f_ino : Z; f_flags : Z; f_pos : Z }.

(** The sectors of a data block, whose number is an [int]. *)
Definition block_lba (real_block : Z) : Z := u32 (Z.quot (i32 (real_block * BLOCK_SIZE)) FDC_SECTOR_SIZE).

Definition chunk_size (pos left : Z) : Z :=
  let chunk := BLOCK_SIZE - pos mod BLOCK_SIZE in if left <? chunk then left else chunk.

Fixpoint read_loop (fuel : nat) (i : ext3_inode) (base : Z) (buf : list Z) (total count : Z) (s : ext3) : outcome (Z * list Z * ext3) :=
  match fuel with
  | O => Hang
  | S fuel =>
      if negb (total <? count) then Ret (total, buf, s) else
      let pos := u32 (base + total) in
      let chunk := chunk_size pos (count - total) in
      '(real_block, s) ← ext3_inode_get_block i (pos / BLOCK_SIZE) s;
      if real_block =? 0 then
        buf ← store_bytes buf total (replicate (Z.to_nat chunk) 0);
        read_loop fuel i base buf (total + chunk) count s
      else
        let '(ok, s) := kalloc s in
        if negb ok then Ret (total, buf, s) else
        b ← load_bytes (raw_read (dev s) (block_lba real_block) (BLOCK_SIZE / FDC_SECTOR_SIZE)) (pos mod BLOCK_SIZE) chunk;
        buf ← store_bytes buf total b;
        read_loop fuel i base buf (total + chunk) count s
  end.

(** A loop over chunks runs once per block it touches, and once more to see the end. *)
Definition chunk_fuel (count : Z) : nat := Z.to_nat (count / BLOCK_SIZE) + 3.

Definition ext3_read (f : file) (buf : option (list Z)) (count : Z) (s : ext3) : outcome (Z * file * option (list Z) * ext3) :=
  match buf with
  | None => Ret (-1, f, buf, s)
  | Some b =>
      i ← ext3_get_inode (f_ino f) s;
      if i_size i <=? f_pos f then Ret (0, f, buf, s) else
      let count := if i_size i - f_pos f <? count then i_size i - f_pos f else count in
      '(total, b, s) ← read_loop (chunk_fuel count) i (f_pos f) b 0 count s;
      Ret (i32 total, File (f_ino f) (f_flags f) (u32 (f_pos f + total)), Some b, s)
  end.

Fixpoint write_loop (fuel : nat) (ino base : Z) (buf : list Z) (total count : Z) (s : ext3) : outcome (Z * ext3) :=
  match fuel with
  | O => Hang
  | S fuel =>
      if negb (total <? count) then Ret (total, s) else
      let pos := u32 (base + total) in
      let chunk := chunk_size pos (count - total) in
      i ← ext3_get_inode ino s;
      '(existed, s) ← ext3_inode_get_block i (pos / BLOCK_SIZE) s;
      '(real_block, s) ← ext3_inode_ensure_block ino (pos / BLOCK_SIZE) s;
      if real_block =? 0 then Ret (total, s) else
      let '(ok, s) := kalloc s in
      if negb ok then Ret (total, s) else
      let blockbuf := if negb (existed =? 0) then raw_read (dev s) (block_lba real_block) (BLOCK_SIZE / FDC_SECTOR_SIZE)
                      else replicate 4096 0 in
      b ← load_bytes buf total chunk;
      blockbuf ← store_bytes blockbuf (pos mod BLOCK_SIZE) b;
      write_loop fuel ino base buf (total + chunk) count (ext3_mark_block_dirty (u32 real_block) (Owned blockbuf) s)
  end.

Definition ext3_write (f : file) (buf : option (list Z)) (count : Z) (s : ext3) : outcome (Z * file * ext3) :=
  match buf with
  | None => Ret (-1, f, s)
  | Some b =>
      i ← ext3_get_inode (f_ino f) s;
      let base_pos := if negb (Z.land (f_flags f) O_APPEND =? 0) then i_size i else f_pos f in
      '(total, s) ← write_loop (chunk_fuel count) (f_ino f) base_pos b 0 count s;
      i ← ext3_get_inode (f_ino f) s;
      let end_pos := u32 (base_pos + total) in
      s ← (if i_size i <? end_pos then
             s ← ext3_set_inode (f_ino f) (with_size end_pos (u32 (end_pos + BLOCK_SIZE - 1) / BLOCK_SIZE) i) s;
             Ret (ext3_mark_inode_dirty (f_ino f) s)
           else Ret s);
      s ← ext3_flush s;
      Ret (i32 total, File (f_ino f) (f_flags f) end_pos, s)
  end.

(** ** Mounting *)

Definition ext3_read_superblock (s : ext3) : ext3 :=
  let '(ok, s) := kalloc s in
  if ok then
    Fs (dev s) (super_of (raw_read (dev s) (P_SUPER_BLOCK / FDC_SECTOR_SIZE) (S_SUPER_BLOCK / FDC_SECTOR_SIZE))) (group_descs s)
      (inodes s) (inode_bitmap s) (block_bitmap s) (rootdirty s) (dirblocks s) (k_answers s)
  else s.
Definition ext3_read_groupdesc (s : ext3) : ext3 :=
  let '(ok, s) := kalloc s in
  if ok then
    Fs (dev s) (super_block s) (group_of (raw_read (dev s) (P_GROUP_DESC / FDC_SECTOR_SIZE) (S_GROUP_DESC / FDC_SECTOR_SIZE)))
      (inodes s) (inode_bitmap s) (block_bitmap s) (rootdirty s) (dirblocks s) (k_answers s)
  else s.
Definition ext3_read_inodes (s : ext3) : ext3 :=
  let '(ok, s) := kalloc s in
  if ok then set_inodes (inodes_of (raw_read (dev s) (P_INODE_BLOCK / FDC_SECTOR_SIZE) (S_INODE_BLOCK / FDC_SECTOR_SIZE))) s
  else s.
Definition ext3_read_inodebitmap (s : ext3) : ext3 :=
  let '(ok, s) := kalloc s in
  if ok then
    Fs (dev s) (super_block s) (group_descs s) (inodes s)
      (raw_read (dev s) (P_INODE_BITMAP / FDC_SECTOR_SIZE) (S_INODE_BITMAP / FDC_SECTOR_SIZE)) (block_bitmap s) (rootdirty s)
      (dirblocks s) (k_answers s)
  else s.
Definition ext3_read_blockbitmap (s : ext3) : ext3 :=
  let '(ok, s) := kalloc s in
  if ok then
    Fs (dev s) (super_block s) (group_descs s) (inodes s) (inode_bitmap s)
      (raw_read (dev s) (P_BLOCK_BITMAP / FDC_SECTOR_SIZE) (S_BLOCK_BITMAP / FDC_SECTOR_SIZE)) (rootdirty s)
      (dirblocks s) (k_answers s)
  else s.
Definition ext3_init_dirty (s : ext3) : ext3 :=
  let '(ok, s) := kalloc s in
  if ok then set_dirty (Dirty false false false false [] []) s else s.

(** [init_ext3fs] up to the reading of the directories. *)
Definition init_tables (s : ext3) : ext3 :=
  ext3_init_dirty (ext3_read_blockbitmap (ext3_read_inodebitmap (ext3_read_inodes
    (ext3_read_groupdesc (ext3_read_superblock s))))).
