(* ===== verification/Ext3Bits.v ===== *)
(** * The file system: bitmaps, sectors and structures

    A bitmap is the set of its bits: the search finds the least clear bit of a range, and
    setting and clearing change one bit and the number of clear bits by one.  Sectors are
    what was last written to them.  The super block, the group descriptors and the inodes
    are read from and written to the device as they lie in memory. *)

From S2P Require Import Prelude Ring Words Bytes Ext3.

(** ** Bits of a bitmap *)

Definition NBITS : Z := 32768.
Definition bit (bm : list Z) (n : Z) : bool := Z.testbit (nth (Z.to_nat (n / 8)) bm 0) (n mod 8).
Definition bitmap_ok (bm : list Z) : Prop := length bm = 4096%nat ∧ Forall is_byte bm.
Definition clear_bits (bm : list Z) : list Z := filter (fun n => bit bm n = false) (seqZ 0 NBITS).
Definition free_count (bm : list Z) : nat := length (clear_bits bm).

Lemma bit_byte bm n : bitmap_ok bm → 0 ≤ n < NBITS → ∃ b, bm !! Z.to_nat (n / 8) = Some b ∧ is_byte b ∧
  load1 bm (n / 8) = Ret b ∧ bit bm n = Z.testbit b (n mod 8).
Proof.
  intros [Hl Hb] Hn. assert (0 ≤ n / 8 < 4096) by (unfold NBITS in Hn; split; [apply Z.div_pos|apply Z.div_lt_upper_bound]; lia).
  destruct (lookup_lt_is_Some_2 bm (Z.to_nat (n / 8))) as [b Hbm]; [lia|]. exists b. split; [done|].
  split; [by eapply Forall_lookup_1|]. split; [by apply load1_Ret; [lia|]|]. unfold bit. by rewrite (nth_lookup_Some _ _ _ _ Hbm).
Qed.

Lemma mod8_range n : 0 ≤ n mod 8 < 8.
Proof. by apply Z.mod_pos_bound. Qed.

Lemma land_bit b k : 0 ≤ k → (Z.land b (Z.shiftl 1 k) =? 0) = negb (Z.testbit b k).
Proof.
  intros Hk. rewrite Z.shiftl_1_l. destruct (Z.testbit b k) eqn:E; simpl.
  - apply Z.eqb_neq. intros H. apply (f_equal (fun z => Z.testbit z k)) in H.
    rewrite Z.land_spec, E, Z.pow2_bits_true, Z.bits_0 in H by lia. done.
  - apply Z.eqb_eq. apply Z.bits_inj'. intros j Hj. rewrite Z.land_spec, Z.bits_0.
    destruct (decide (j = k)) as [->|]; [by rewrite E|]. rewrite Z.pow2_bits_false by lia. apply andb_false_r.
Qed.

Lemma find_bit_spec bm k n : bitmap_ok bm → 0 ≤ n → n + Z.of_nat k ≤ NBITS →
  find_bit k bm n = Ret (default (-1) (head (filter (fun n => bit bm n = false) (seqZ n (Z.of_nat k))))).
Proof.
  intros Hbm. revert n. induction k as [|k IH]; intros n Hn Hk; [done|]. cbn [find_bit]. rewrite seqZ_cons by lia.
  replace (Z.pred (Z.of_nat (S k))) with (Z.of_nat k) by lia.
  destruct (bit_byte bm n Hbm ltac:(lia)) as (b & _ & _ & -> & Hb). rewrite bind_ret, land_bit, <-Hb by apply mod8_range.
  destruct (bit bm n) eqn:E; simpl.
  - rewrite filter_cons_False by congruence. apply IH; lia.
  - by rewrite filter_cons_True by done.
Qed.

(** One bit changed. *)
Definition update_bit (bm : list Z) (n : Z) (v : bool) (bm' : list Z) : Prop :=
  bitmap_ok bm' ∧ ∀ m, 0 ≤ m < NBITS → bit bm' m = if decide (m = n) then v else bit bm m.

Lemma store_bit bm n b b' v : bitmap_ok bm → 0 ≤ n < NBITS → bm !! Z.to_nat (n / 8) = Some b → is_byte b' →
  (∀ k, 0 ≤ k < 8 → Z.testbit b' k = if decide (k = n mod 8) then v else Z.testbit b k) →
  ∃ bm', store1 bm (n / 8) b' = Ret bm' ∧ update_bit bm n v bm'.
Proof.
  intros [Hl Hb] Hn Hbm Hb' Hbits. assert (0 ≤ n / 8 < 4096) by (unfold NBITS in Hn; split; [apply Z.div_pos|apply Z.div_lt_upper_bound]; lia).
  exists (<[Z.to_nat (n / 8) := b']> bm). split; [by apply store1_Ret; lia|]. split.
  - split; [by rewrite length_insert|by apply Forall_insert].
  - intros m Hm. pose proof (mod8_range m). pose proof (Z.div_mod n 8). pose proof (Z.div_mod m 8). unfold bit.
    destruct (decide (m / 8 = n / 8)) as [E|Hne].
    + rewrite E, (nth_lookup_Some (<[_:=_]> bm) _ _ b') by (apply list_lookup_insert_eq; lia). rewrite Hbits by done.
      rewrite (nth_lookup_Some _ _ _ _ Hbm). repeat case_decide; first [done|subst; lia|lia].
    + rewrite decide_False by (intros ->; done). rewrite !nth_lookup, list_lookup_insert_ne; [done|].
      intros E. apply Hne. apply Z2Nat.inj in E; [done|lia|]. apply Z.div_pos; lia.
Qed.

Lemma set_bitmap_spec bm n : bitmap_ok bm → 0 ≤ n < NBITS → ∃ bm', __set_bitmap bm n = Ret bm' ∧ update_bit bm n true bm'.
Proof.
  intros Hbm Hn. destruct (bit_byte bm n Hbm Hn) as (b & Hlk & Hb & E & _). unfold __set_bitmap. rewrite E, bind_ret.
  pose proof (mod8_range n). apply (store_bit bm n b); [done|done|done| |].
  - apply (lor_range 8); [lia|exact Hb|]. rewrite Z.shiftl_1_l. split; [apply Z.pow_nonneg; lia|].
    apply Z.pow_lt_mono_r; lia.
  - intros k Hk. rewrite Z.lor_spec, Z.shiftl_1_l. case_decide as Ek.
    + rewrite <-Ek, Z.pow2_bits_true by lia. apply orb_true_r.
    + rewrite Z.pow2_bits_false by lia. apply orb_false_r.
Qed.

Lemma clear_mask k j : 0 ≤ k < 8 → 0 ≤ j < 8 → Z.testbit (255 - Z.shiftl 1 k) j = negb (Z.eqb j k).
Proof.
  intros Hk Hj. assert (k = 0 ∨ k = 1 ∨ k = 2 ∨ k = 3 ∨ k = 4 ∨ k = 5 ∨ k = 6 ∨ k = 7) as Hk' by lia.
  assert (j = 0 ∨ j = 1 ∨ j = 2 ∨ j = 3 ∨ j = 4 ∨ j = 5 ∨ j = 6 ∨ j = 7) as Hj' by lia.
  destruct Hk' as [->|[->|[->|[->|[->|[->|[->| ->]]]]]]], Hj' as [->|[->|[->|[->|[->|[->|[->| ->]]]]]]]; reflexivity.
Qed.

Lemma clear_bitmap_spec bm n : bitmap_ok bm → 0 ≤ n < NBITS → ∃ bm', __clear_bitmap bm n = Ret bm' ∧ update_bit bm n false bm'.
Proof.
  intros Hbm Hn. destruct (bit_byte bm n Hbm Hn) as (b & Hlk & Hb & E & _). unfold __clear_bitmap. rewrite E, bind_ret.
  pose proof (mod8_range n) as Hm. apply (store_bit bm n b); [done|done|done| |].
  - apply (land_range 8); [lia|exact Hb|]. rewrite Z.shiftl_1_l. pose proof (Z.pow_lt_mono_r 2 (n mod 8) 8).
    pose proof (Z.pow_pos_nonneg 2 (n mod 8)). lia.
  - intros k Hk. rewrite Z.land_spec, clear_mask by lia. case_decide as Ek.
    + rewrite Ek, Z.eqb_refl. apply andb_false_r.
    + destruct (Z.eqb_spec k (n mod 8)); [done|]. apply andb_true_r.
Qed.

(** ** The number of clear bits *)

Lemma clear_bits_elem bm n : n ∈ clear_bits bm ↔ bit bm n = false ∧ 0 ≤ n < NBITS.
Proof. unfold clear_bits. rewrite list_elem_of_filter, elem_of_seqZ. unfold NBITS. naive_solver lia. Qed.

Lemma clear_bits_NoDup bm : NoDup (clear_bits bm).
Proof. apply NoDup_filter, NoDup_seqZ. Qed.

Lemma free_count_set bm n bm' : update_bit bm n true bm' → bit bm n = false → 0 ≤ n < NBITS → free_count bm = S (free_count bm').
Proof.
  intros [_ Hu] Hb Hn. unfold free_count. change (S (length (clear_bits bm'))) with (length (n :: clear_bits bm')).
  apply Permutation_length. apply NoDup_Permutation; [apply clear_bits_NoDup| |].
  - constructor; [|apply clear_bits_NoDup]. rewrite clear_bits_elem. intros [H _]. rewrite Hu, decide_True in H by done. done.
  - intros m. rewrite elem_of_cons, !clear_bits_elem. split.
    + intros [H1 H2]. destruct (decide (m = n)); [by left|right]. by rewrite Hu, decide_False.
    + intros [->|[H1 H2]]; [done|]. split; [|done]. rewrite Hu in H1 by done. by case_decide.
Qed.

(** The search for a free bit finds the least one. *)
Lemma filter_seqZ_head (P : Z → Prop) `{∀ n, Decision (P n)} i k n : head (filter P (seqZ i (Z.of_nat k))) = Some n →
  P n ∧ i ≤ n < i + Z.of_nat k ∧ ∀ m, i ≤ m < n → ¬ P m.
Proof.
  revert i. induction k as [|k IH]; intros i; [done|]. rewrite seqZ_cons by lia.
  replace (Z.pred (Z.of_nat (S k))) with (Z.of_nat k) by lia. rewrite filter_cons. case_decide as Hi.
  - intros [= <-]. split; [done|]. split; [lia|]. intros m. lia.
  - intros E. apply IH in E as (Hn & Hr & Hm). split; [done|]. split; [lia|]. intros m Hm'.
    destruct (decide (m = i)) as [->|]; [done|]. apply Hm. lia.
Qed.

Lemma filter_seqZ_none (P : Z → Prop) `{∀ n, Decision (P n)} i k : head (filter P (seqZ i (Z.of_nat k))) = None →
  ∀ m, i ≤ m < i + Z.of_nat k → ¬ P m.
Proof.
  intros E m Hm HP. assert (m ∈ filter P (seqZ i (Z.of_nat k))) as Hin by (apply list_elem_of_filter; rewrite elem_of_seqZ; done).
  destruct (filter P _); [by apply not_elem_of_nil in Hin|done].
Qed.

(** The result of a search is the least clear bit of the range, and -1 if it has none. *)
Lemma free_range_spec bm a z : bitmap_ok bm → 0 ≤ a → z < NBITS → ∃ n, __get_free_bitmap_range bm a z = Ret n ∧
  ((n = -1 ∧ ∀ m, a ≤ m ≤ z → bit bm m = true) ∨ (a ≤ n ≤ z ∧ bit bm n = false ∧ ∀ m, a ≤ m < n → bit bm m = true)).
Proof.
  intros Hbm Ha Hz. unfold __get_free_bitmap_range, NBITS, BLOCK_SIZE in *.
  destruct (Z.ltb_spec a 0); [lia|]. destruct (Z.leb_spec (4096 * 8) z); [lia|]. destruct (Z.ltb_spec z a).
  { exists (-1). split; [done|]. left. split; [done|]. lia. }
  rewrite find_bit_spec; [|done|lia|unfold NBITS; lia].
  eexists. split; [done|]. destruct (head _) as [n|] eqn:E; simpl.
  - right. apply filter_seqZ_head in E as (Hn & Hr & Hm). split; [lia|]. split; [done|]. intros m Hm'.
    destruct (bit bm m) eqn:Em; [done|]. by destruct (Hm m Hm').
  - left. split; [done|]. intros m Hm. destruct (bit bm m) eqn:Em; [done|]. by destruct (filter_seqZ_none _ _ _ E m ltac:(lia)).
Qed.

Lemma clear_bits_nonempty bm : (0 < free_count bm)%nat → ∃ n, bit bm n = false ∧ 0 ≤ n < NBITS.
Proof.
  unfold free_count. intros Hc. destruct (clear_bits bm) as [|n l] eqn:E; [simpl in Hc; lia|]. exists n.
  apply clear_bits_elem. rewrite E. apply elem_of_cons. by left.
Qed.

Lemma get_free_some bm : bitmap_ok bm → (0 < free_count bm)%nat →
  ∃ n, __get_free_bitmap bm = Ret n ∧ bit bm n = false ∧ 0 ≤ n < NBITS ∧ ∀ m, 0 ≤ m < n → bit bm m = true.
Proof.
  intros Hbm Hc. destruct (free_range_spec bm 0 (NBITS - 1) Hbm ltac:(lia) ltac:(lia)) as (n & E & H).
  destruct (clear_bits_nonempty bm Hc) as (x & Hb & Hx). unfold __get_free_bitmap. change (BLOCK_SIZE * 8 - 1) with (NBITS - 1).
  exists n. split; [exact E|]. clear E. destruct H as [[-> H]|(H1 & H2 & H3)].
  - rewrite H in Hb by lia. done.
  - split; [done|]. split; [lia|done].
Qed.

Lemma clear_bits_empty bm n : free_count bm = 0%nat → 0 ≤ n < NBITS → bit bm n = true.
Proof.
  intros Hc Hn. destruct (bit bm n) eqn:E; [done|exfalso]. assert (n ∈ clear_bits bm) as H by by apply clear_bits_elem.
  revert H Hc. unfold free_count. generalize (clear_bits bm). intros [|x l] H Hl; [by apply not_elem_of_nil in H|discriminate Hl].
Qed.

Lemma get_free_none bm : bitmap_ok bm → free_count bm = 0%nat → __get_free_bitmap bm = Ret (-1).
Proof.
  intros Hbm Hc. destruct (free_range_spec bm 0 (NBITS - 1) Hbm ltac:(lia) ltac:(lia)) as (n & E & H).
  unfold __get_free_bitmap. change (BLOCK_SIZE * 8 - 1) with (NBITS - 1). rewrite E. clear E. f_equal.
  destruct H as [[-> H]|(H1 & H2 & H3)]; [done|]. rewrite (clear_bits_empty bm n Hc) in H2 by lia. done.
Qed.

(** ** Sectors *)

Definition dev_ok (d : gmap Z (list Z)) : Prop := ∀ n l, d !! n = Some l → length l = 512%nat ∧ Forall is_byte l.

Lemma sector_ok d n : dev_ok d → length (sector d n) = 512%nat ∧ Forall is_byte (sector d n).
Proof.
  intros Hd. unfold sector. destruct (d !! n) as [l|] eqn:E; [by apply (Hd n)|]. cbn [default]. split; [apply length_replicate|].
  by apply Forall_replicate.
Qed.

Lemma raw_read_ok d lba k : dev_ok d → length (raw_read d lba (Z.of_nat k)) = (512 * k)%nat ∧ Forall is_byte (raw_read d lba (Z.of_nat k)).
Proof.
  intros Hd. unfold raw_read. revert lba. induction k as [|k IH]; intros lba; [done|].
  rewrite seqZ_cons by lia. replace (Z.pred (Z.of_nat (S k))) with (Z.of_nat k) by lia. cbn [fmap list_fmap concat].
  destruct (sector_ok d lba Hd) as [H1 H2]. destruct (IH (Z.succ lba)) as [H3 H4]. rewrite length_app, H1, H3. split; [lia|].
  by apply Forall_app.
Qed.

(** The sectors that a write changes. *)
Definition written (d : gmap Z (list Z)) (lba k : Z) (l : list Z) (d' : gmap Z (list Z)) : Prop :=
  dev_ok d' ∧ ∀ n, sector d' n = if decide (lba ≤ n < lba + k) then take 512 (drop (512 * Z.to_nat (n - lba)) l) else sector d n.

Lemma raw_write_spec d lba k l : dev_ok d → (512 * k ≤ length l)%nat → Forall is_byte l →
  ∃ d', raw_write lba (Z.of_nat k) l d = Ret d' ∧ written d lba (Z.of_nat k) l d'.
Proof.
  intros Hd Hl Hb. unfold raw_write. apply (foldM_seqZ (fun i d' => written d lba i l d')
    (fun d i => b ← load_bytes l (FDC_SECTOR_SIZE * i) FDC_SECTOR_SIZE; Ret (<[lba + i := b]> d)) 0 (Z.of_nat k) d).
  - lia.
  - split; [done|]. intros n. rewrite decide_False by lia. done.
  - intros i d1 Hi [Hok Hs]. unfold FDC_SECTOR_SIZE. rewrite load_bytes_Ret, bind_ret by lia. change (Z.to_nat 512) with 512%nat.
    eexists. split; [done|]. split.
    + intros n x Hx. apply lookup_insert_Some in Hx as [[_ <-]|[_ Hx]]; [|by apply (Hok n)].
      rewrite length_take, length_drop. split; [lia|by apply Forall_take, Forall_drop].
    + intros n. unfold sector at 1. destruct (decide (n = lba + i)) as [->|Hne].
      * rewrite lookup_insert_eq. cbn [default]. rewrite decide_True by lia. replace (lba + i - lba) with i by lia. replace (Z.to_nat (512 * i)) with (512 * Z.to_nat i)%nat by lia. done.
      * rewrite lookup_insert_ne by done. fold (sector d1 n). rewrite Hs. repeat case_decide; first [done|lia].
Qed.

Lemma raw_read_ext d d' lba k : (∀ n, lba ≤ n < lba + k → sector d' n = sector d n) → raw_read d' lba k = raw_read d lba k.
Proof.
  intros H. unfold raw_read. f_equal. apply list_fmap_ext. intros i n Hn. apply lookup_seqZ in Hn as [-> Hn]. apply H. lia.
Qed.

(** Reading back what was written. *)
Lemma raw_read_written d lba k l d' : written d lba (Z.of_nat k) l d' → length l = (512 * k)%nat → raw_read d' lba (Z.of_nat k) = l.
Proof.
  intros [_ Hs] Hl. unfold raw_read.
  assert (∀ j, (j ≤ k)%nat → concat (sector d' <$> seqZ (lba + Z.of_nat (k - j)) (Z.of_nat j)) = drop (512 * (k - j)) l) as H.
  { induction j as [|j IH]; intros Hj; [cbn; rewrite drop_ge by lia; done|]. rewrite seqZ_cons by lia.
    replace (Z.pred (Z.of_nat (S j))) with (Z.of_nat j) by lia. cbn [fmap list_fmap concat].
    replace (Z.succ (lba + Z.of_nat (k - S j))) with (lba + Z.of_nat (k - j)) by lia. rewrite IH by lia.
    rewrite Hs, decide_True by lia. replace (Z.to_nat (lba + Z.of_nat (k - S j) - lba)) with (k - S j)%nat by lia.
    rewrite <-(take_drop 512 (drop (512 * (k - S j)) l)) at 2. f_equal. rewrite drop_drop. f_equal. lia. }
  specialize (H k ltac:(lia)). replace (k - k)%nat with 0%nat in H by lia. by rewrite Z.add_0_r in H.
Qed.

(** ** Blocks *)

Definition block (d : gmap Z (list Z)) (b : Z) : list Z := raw_read d (8 * b) 8.

Lemma block_ok d b : dev_ok d → length (block d b) = 4096%nat ∧ Forall is_byte (block d b).
Proof. intros Hd. apply (raw_read_ok d (8 * b) 8 Hd). Qed.

(** A write of whole blocks elsewhere, or of other sectors, leaves a block. *)
Lemma block_written d lba k l d' b : written d lba k l d' → 8 * b + 8 ≤ lba ∨ lba + k ≤ 8 * b → block d' b = block d b.
Proof. intros [_ Hs] H. apply raw_read_ext. intros n Hn. rewrite Hs, decide_False by lia. done. Qed.

Lemma block_written_eq d b l d' : written d (8 * b) 8 l d' → length l = 4096%nat → block d' b = l.
Proof. intros H Hl. by apply (raw_read_written d (8 * b) 8 l d'). Qed.

(** ** Pieces of a concatenation *)

Lemma slice_skip a l o n : (length a ≤ o)%nat → slice (a ++ l) o n = slice l (o - length a) n.
Proof. intros H. unfold slice. by rewrite drop_app_ge. Qed.
Lemma slice_here a l n : length a = n → slice (a ++ l) 0 n = a.
Proof. intros H. unfold slice. rewrite drop_0. by apply take_app_length'. Qed.
Lemma slice_all a n : length a = n → slice a 0 n = a.
Proof. intros <-. unfold slice. by rewrite drop_0, take_ge. Qed.
Lemma field_slice l o n : field l o n = le_value (slice l o n).
Proof. done. Qed.

Lemma words_bytes_length l : length (words_bytes l) = (4 * length l)%nat.
Proof. unfold words_bytes. induction l as [|x l IH]; [done|]. cbn [fmap list_fmap concat]. rewrite length_app, IH, le_bytes_length. cbn [length]. lia. Qed.
Lemma words_bytes_range l : Forall is_byte (words_bytes l).
Proof. unfold words_bytes. induction l as [|x l IH]; [done|]. cbn [fmap list_fmap concat]. apply Forall_app. split; [apply le_bytes_range|done]. Qed.

Lemma words_of_bytes l n : length l = n → Forall is_u32 l → words_of (words_bytes l) n = l.
Proof.
  intros <- Hl. unfold words_of. apply list_eq. intros k. rewrite list_lookup_fmap.
  destruct (decide (k < length l)%nat) as [Hk|Hk].
  2: { rewrite (lookup_ge_None_2 l) by lia. by rewrite lookup_ge_None_2 by (rewrite length_seq; lia). }
  rewrite lookup_seq_lt by lia. destruct (lookup_lt_is_Some_2 l k Hk) as [v Hv]. rewrite Hv. cbn [fmap option_fmap option_map]. f_equal.
  rewrite Nat.add_0_l, field_slice. unfold words_bytes. rewrite <-(take_drop_middle l k v Hv), fmap_app, concat_app.
  rewrite slice_skip; fold (words_bytes (take k l)); rewrite words_bytes_length, length_take, Nat.min_l by lia; [|lia].
  rewrite Nat.sub_diag. cbn [fmap list_fmap concat]. rewrite slice_here by apply le_bytes_length. apply le_value_small.
  exact (Forall_lookup_1 _ _ _ _ Hl Hv).
Qed.

(** Finding a piece: skip what comes before it. *)
Ltac piece :=
  rewrite ?field_slice;
  repeat (rewrite slice_skip; rewrite ?le_bytes_length, ?words_bytes_length; [|lia]);
  repeat match goal with
  | |- context [slice (?a ++ _) ?o ?n] => replace o with 0%nat by lia; rewrite (slice_here a _ n) by (rewrite ?le_bytes_length, ?words_bytes_length; lia)
  | |- context [slice ?a ?o ?n] => replace o with 0%nat by lia; rewrite (slice_all a n) by (rewrite ?le_bytes_length, ?words_bytes_length; lia)
  end.

(** ** The super block and the group descriptors *)

Record super_ok (b : ext3_super_block) : Prop := {
  so_head : length (s_head b) = 12%nat ∧ Forall is_byte (s_head b);
  so_blocks : is_u32 (s_free_blocks_count b);
  so_inodes : is_u32 (s_free_inodes_count b);
  so_mid : length (s_mid b) = 64%nat ∧ Forall is_byte (s_mid b);
  so_first : is_u32 (s_first_ino b);
  so_tail : length (s_tail b) = 936%nat ∧ Forall is_byte (s_tail b) }.

Definition is_u16 (v : Z) : Prop := 0 ≤ v < 2 ^ 16.

Record group_ok (g : ext3_group_desc) : Prop := {
  go_head : length (bg_head g) = 12%nat ∧ Forall is_byte (bg_head g);
  go_blocks : is_u16 (bg_free_blocks_count g);
  go_inodes : is_u16 (bg_free_inodes_count g);
  go_tail : length (bg_tail g) = 4080%nat ∧ Forall is_byte (bg_tail g) }.

Lemma super_bytes_ok b : super_ok b → length (super_bytes b) = 1024%nat ∧ Forall is_byte (super_bytes b).
Proof.
  intros [[H1 H2] _ _ [H3 H4] _ [H5 H6]]. unfold super_bytes. split.
  - rewrite !length_app, !le_bytes_length. lia.
  - repeat (apply Forall_app; split); done || apply le_bytes_range.
Qed.
Lemma group_bytes_ok g : group_ok g → length (group_bytes g) = 4096%nat ∧ Forall is_byte (group_bytes g).
Proof.
  intros [[H1 H2] _ _ [H3 H4]]. unfold group_bytes. split.
  - rewrite !length_app, !le_bytes_length. lia.
  - repeat (apply Forall_app; split); done || apply le_bytes_range.
Qed.

Lemma super_of_bytes b : super_ok b → super_of (super_bytes b) = b.
Proof.
  intros [[H1 _] H2 H3 [H4 _] H5 [H6 _]]. destruct b as [hd fb fi md fst tl]. cbn in * |-. unfold super_of, super_bytes.
  cbn [s_head s_free_blocks_count s_free_inodes_count s_mid s_first_ino s_tail].
  f_equal; piece; (done || by apply le_value_small).
Qed.
Lemma group_of_bytes g : group_ok g → group_of (group_bytes g) = g.
Proof.
  intros [[H1 _] H2 H3 [H4 _]]. destruct g as [hd fb fi tl]. cbn in * |-. unfold group_of, group_bytes.
  cbn [bg_head bg_free_blocks_count bg_free_inodes_count bg_tail].
  f_equal; piece; (done || by apply le_value_small).
Qed.

(** ** Inodes *)

(** The fields besides the numbers of the blocks. *)
Record inode_meta (i : ext3_inode) : Prop := {
  im_mode : is_u16 (i_mode i);
  im_uid : is_u16 (i_uid i);
  im_size : is_u32 (i_size i);
  im_times : length (i_times i) = 4%nat ∧ Forall is_u32 (i_times i);
  im_gid : is_u16 (i_gid i);
  im_links : is_u16 (i_links_count i);
  im_blocks : is_u32 (i_blocks i);
  im_flags : is_u32 (i_flags i);
  im_osd1 : is_u32 (i_osd1 i);
  im_rest : length (i_rest i) = 28%nat ∧ Forall is_byte (i_rest i) }.
Definition inode_ok (i : ext3_inode) : Prop := length (i_block i) = 15%nat ∧ Forall is_u32 (i_block i).

Lemma inode_bytes_ok i : inode_meta i → inode_ok i → length (inode_bytes i) = 128%nat ∧ Forall is_byte (inode_bytes i).
Proof.
  intros H [Hl _]. destruct (im_times i H) as [Ht _], (im_rest i H) as [Hr Hb]. unfold inode_bytes. split.
  - rewrite !length_app, !le_bytes_length, !words_bytes_length. lia.
  - repeat (apply Forall_app; split); done || apply le_bytes_range || apply words_bytes_range.
Qed.

Lemma inode_of_bytes i : inode_meta i → inode_ok i → inode_of (inode_bytes i) = i.
Proof.
  intros [H1 H2 H3 [H4 H4'] H5 H6 H7 H8 H9 [H10 _]] [Hl Hl']. destruct i as [mo u sz ti g ln bl fl os bk rs]. cbn in * |-.
  unfold inode_of, inode_bytes. cbn [i_mode i_uid i_size i_times i_gid i_links_count i_blocks i_flags i_osd1 i_block i_rest]. f_equal; piece; (done || (by apply le_value_small) || by apply words_of_bytes).
Qed.
