(* ===== verification/Ext3View.v ===== *)
(** * The file system: which block belongs to whom

    A view is what the file system is once everything is written: the contents of every
    block, the inodes and the bitmap.  A slot is a place that holds the number of a block:
    a direct entry, a table, or an entry of a table.  In a view that is in order every
    number in a slot is marked in the bitmap and no two slots hold the same one. *)

From S2P Require Import Prelude Ring Words Bytes Ext3 Ext3Bits.

(** ** Slots *)

Inductive slot := Direct (k : Z) | IndT | Ind (e : Z) | DindT | Leaf (e : Z) | Dind (e f : Z).

#[global] Instance slot_eq_dec : EqDecision slot.
Proof. solve_decision. Defined.

Definition slot_in (sl : slot) : Prop :=
  match sl with
  | Direct k => 0 ≤ k < 12
  | IndT | DindT => True
  | Ind e | Leaf e => 0 ≤ e < 1024
  | Dind e f => 0 ≤ e < 1024 ∧ 0 ≤ f < 1024
  end.
Definition is_table (sl : slot) : bool := match sl with IndT | DindT | Leaf _ => true | _ => false end.

Definition entry (blk : Z → list Z) (b e : Z) : Z := if b =? 0 then 0 else field (blk b) (4 * Z.to_nat e) 4.
Definition iblk (i : ext3_inode) (k : Z) : Z := nth (Z.to_nat k) (i_block i) 0.
Definition slot_val (blk : Z → list Z) (i : ext3_inode) (sl : slot) : Z :=
  match sl with
  | Direct k => iblk i k
  | IndT => iblk i 12
  | Ind e => entry blk (iblk i 12) e
  | DindT => iblk i 13
  | Leaf e => entry blk (iblk i 13) e
  | Dind e f => entry blk (entry blk (iblk i 13) e) f
  end.

(** The slot of a block of a file. *)
Definition data_slot (lb : Z) : slot :=
  if lb <=? 11 then Direct lb else if lb <=? 1035 then Ind (lb - 12)
  else Dind ((lb - 1036) / 1024) ((lb - 1036) mod 1024).
Definition lb_ok (lb : Z) : Prop := 0 ≤ lb < 2 ^ 20.

Lemma data_slot_in lb : lb_ok lb → slot_in (data_slot lb).
Proof.
  unfold lb_ok. intros H. unfold data_slot. destruct (Z.leb_spec lb 11); [simpl; lia|]. destruct (Z.leb_spec lb 1035); [simpl; lia|].
  split; [|by apply Z.mod_pos_bound]. split; [apply Z.div_pos; lia|]. apply Z.div_lt_upper_bound; lia.
Qed.
Lemma data_slot_data lb : is_table (data_slot lb) = false.
Proof. unfold data_slot. by repeat case_match. Qed.
Lemma data_slot_inj a b : lb_ok a → lb_ok b → data_slot a = data_slot b → a = b.
Proof.
  unfold data_slot. intros Ha Hb. pose proof (Z.div_mod (a - 1036) 1024). pose proof (Z.div_mod (b - 1036) 1024).
  zcases; intros [=]; lia.
Qed.

(** The bytes of a file, by their offset; nothing there is zero. *)
Definition file_byte (blk : Z → list Z) (i : ext3_inode) (p : Z) : Z :=
  let b := slot_val blk i (data_slot (p / 4096)) in
  if b =? 0 then 0 else nth (Z.to_nat (p mod 4096)) (blk b) 0.

(** ** Views *)

Record view := View { v_blk : Z → list Z; v_ino : list ext3_inode; v_bm : list Z }.

Definition slotv (V : view) (m : nat) (sl : slot) : Z :=
  match v_ino V !! m with Some i => slot_val (v_blk V) i sl | None => 0 end.

Definition data_block (b : Z) : Prop := 12 ≤ b < NBITS.

Record view_ok (V : view) : Prop := {
  vo_blk : ∀ b, length (v_blk V b) = 4096%nat ∧ Forall is_byte (v_blk V b);
  vo_ino : length (v_ino V) = 256%nat;
  vo_each : Forall inode_ok (v_ino V);
  vo_bm : bitmap_ok (v_bm V);
  vo_meta : ∀ b, 0 ≤ b < 12 → bit (v_bm V) b = true;
  vo_used : ∀ m sl, slot_in sl → slotv V m sl ≠ 0 → data_block (slotv V m sl) ∧ bit (v_bm V) (slotv V m sl) = true;
  vo_inj : ∀ m sl m' sl', slot_in sl → slot_in sl' → slotv V m sl ≠ 0 → slotv V m sl = slotv V m' sl' → m = m' ∧ sl = sl' }.

(** What a slot of one inode takes: a block that was free.  Blocks that are in use and are
    not tables keep their contents. *)
Record grow (V : view) (n : nat) (sl : slot) (nb : Z) (V' : view) : Prop := {
  g_slot : slot_in sl;
  g_free : bit (v_bm V) nb = false ∧ 0 ≤ nb < NBITS;
  g_zero : slotv V n sl = 0;
  g_blk_ok : ∀ b, length (v_blk V' b) = 4096%nat ∧ Forall is_byte (v_blk V' b);
  g_ino : length (v_ino V') = length (v_ino V);
  g_each : Forall inode_ok (v_ino V');
  g_bm : update_bit (v_bm V) nb true (v_bm V');
  g_new : slotv V' n sl = nb;
  g_old : ∀ m sl', slot_in sl' → (m, sl') ≠ (n, sl) → slotv V' m sl' = slotv V m sl';
  g_blk : ∀ b, bit (v_bm V) b = true → (∀ m sl', is_table sl' → slot_in sl' → slotv V m sl' ≠ b) → v_blk V' b = v_blk V b }.

Lemma free_block V nb : view_ok V → bit (v_bm V) nb = false → 0 ≤ nb < NBITS → data_block nb.
Proof.
  intros HV Hb Hn. unfold data_block. destruct (decide (12 ≤ nb)); [lia|].
  rewrite (vo_meta V HV nb) in Hb by lia. done.
Qed.

(** A free block is in no slot. *)
Lemma free_unused V nb m sl : view_ok V → bit (v_bm V) nb = false → slot_in sl → slotv V m sl = nb → nb = 0.
Proof.
  intros HV Hb Hs E. destruct (decide (nb = 0)); [done|]. subst nb. destruct (vo_used V HV m sl Hs ltac:(done)). congruence.
Qed.

Lemma grow_ok V n sl nb V' : view_ok V → grow V n sl nb V' → view_ok V'.
Proof.
  intros HV G. destruct (g_free _ _ _ _ _ G) as [Hfree Hnb]. pose proof (free_block V nb HV Hfree Hnb) as Hdata.
  assert (nb ≠ 0) as Hnz by (unfold data_block in Hdata; lia). destruct (g_bm _ _ _ _ _ G) as [Hbm Hbits].
  assert (∀ m sl', slot_in sl' → slotv V' m sl' = if decide ((m, sl') = (n, sl)) then nb else slotv V m sl') as Hs.
  { intros m sl' Hin. case_decide as E; [injection E as -> ->; apply (g_new _ _ _ _ _ G)|by apply (g_old _ _ _ _ _ G)]. }
  constructor; [apply G|rewrite (g_ino _ _ _ _ _ G); apply HV|apply G|done| | |].
  - intros b Hb. unfold NBITS in *. rewrite Hbits by lia. case_decide; [done|]. by apply HV.
  - intros m sl' Hin Hne. rewrite Hs in * by done. case_decide.
    + split; [done|]. by rewrite Hbits, decide_True.
    + destruct (vo_used V HV m sl' Hin Hne) as [H1 H2]. split; [done|]. rewrite Hbits by (unfold data_block in H1; lia).
      by case_decide.
  - intros m1 s1 m2 s2 H1 H2 Hne E. rewrite !Hs in E by done. rewrite Hs in Hne by done.
    destruct (decide ((m1, s1) = (n, sl))) as [E1|_], (decide ((m2, s2) = (n, sl))) as [E2|_].
    + by rewrite <-E2 in E1; injection E1.
    + symmetry in E. by apply free_unused in E.
    + by apply free_unused in E.
    + by apply (vo_inj V HV).
Qed.

(** Entries of a table that was rewritten, and of a table of zeros. *)
Lemma field_range l o n : Forall is_byte l → 0 ≤ field l o n < 256 ^ Z.of_nat n.
Proof.
  intros Hl. unfold field. pose proof (le_value_range (take n (drop o l)) (Forall_take _ _ _ (Forall_drop _ _ _ Hl))) as H.
  rewrite length_take in H. split; [lia|]. eapply Z.lt_le_trans; [apply H|]. apply Z.pow_le_mono_r; lia.
Qed.

Lemma field_zeros k o n : field (replicate k 0) o n = 0.
Proof. unfold field. apply le_value_zeros. by apply Forall_take, Forall_drop, Forall_replicate. Qed.

Lemma entry_zeros (blk : Z → list Z) b e k : blk b = replicate k 0 → entry blk b e = 0.
Proof. intros E. unfold entry. destruct (b =? 0); [done|]. rewrite E. apply field_zeros. Qed.

Lemma load32_field l e : length l = 4096%nat → 0 ≤ e < 1024 → load32 l e = Ret (field l (4 * Z.to_nat e) 4).
Proof.
  intros Hl He. unfold load32. rewrite load_bytes_Ret, bind_ret by lia. unfold field. change (Z.to_nat 4) with 4%nat.
  do 3 f_equal. f_equal. lia.
Qed.

Lemma store32_spec l e v : length l = 4096%nat → Forall is_byte l → 0 ≤ e < 1024 → is_u32 v →
  ∃ l', store32 l e v = Ret l' ∧ length l' = 4096%nat ∧ Forall is_byte l' ∧
    ∀ f, 0 ≤ f < 1024 → field l' (4 * Z.to_nat f) 4 = if decide (f = e) then v else field l (4 * Z.to_nat f) 4.
Proof.
  intros Hl Hb He Hv. unfold store32, store_bytes. rewrite le_bytes_length, Hl.
  destruct (_ && _) eqn:E; [|rewrite andb_false_iff, !Z.leb_gt in E; lia]. eexists. split; [done|].
  replace (Z.to_nat (4 * e)) with (4 * Z.to_nat e)%nat by lia. split; [|split].
  - rewrite !length_app, length_take, length_drop, le_bytes_length. lia.
  - repeat (apply Forall_app; split); [by apply Forall_take|apply le_bytes_range|by apply Forall_drop].
  - intros f Hf. unfold field. case_decide as Ef.
    + subst f. rewrite drop_app_length' by (rewrite length_take; lia). rewrite take_app_length' by (by rewrite le_bytes_length).
      by apply le_value_small.
    + f_equal. apply list_eq. intros j. destruct (decide (j < 4)%nat); [|by rewrite !lookup_take_ge by lia].
      rewrite !lookup_take_lt, !lookup_drop by done. destruct (decide (f < e)).
      * rewrite lookup_app_l by (rewrite length_take; lia). by rewrite lookup_take_lt by lia.
      * rewrite lookup_app_r by (rewrite length_take; lia). rewrite length_take, Nat.min_l by lia.
        rewrite lookup_app_r by (rewrite le_bytes_length; lia). rewrite le_bytes_length, lookup_drop. f_equal. lia.
Qed.

Lemma entry_range (blk : Z → list Z) b e : Forall is_byte (blk b) → is_u32 (entry blk b e).
Proof. intros H. unfold entry. destruct (b =? 0); [done|]. exact (field_range _ _ 4 H). Qed.

(** ** Steps *)

Definition put (blk : Z → list Z) (b : Z) (l : list Z) : Z → list Z := fun c => if decide (c = b) then l else blk c.
Lemma put_at blk b l : put blk b l b = l.
Proof. unfold put. by rewrite decide_True. Qed.
Lemma put_off blk b l c : c ≠ b → put blk b l c = blk c.
Proof. intros H. unfold put. by rewrite decide_False. Qed.

Lemma entry_put blk b l c e : entry (put blk b l) c e = if decide (c = b) then (if c =? 0 then 0 else field l (4 * Z.to_nat e) 4) else entry blk c e.
Proof. unfold entry, put. by case_decide. Qed.

(** The numbers of an inode only depend on the contents of its tables. *)
Lemma slot_val_ext blk blk' i sl : slot_in sl →
  (∀ tb, is_table tb → slot_in tb → slot_val blk i tb ≠ 0 → blk' (slot_val blk i tb) = blk (slot_val blk i tb)) →
  slot_val blk' i sl = slot_val blk i sl.
Proof.
  intros Hin H. assert (∀ tb e, is_table tb → slot_in tb → entry blk' (slot_val blk i tb) e = entry blk (slot_val blk i tb) e) as He.
  { intros tb e Ht Hi. unfold entry. destruct (Z.eqb_spec (slot_val blk i tb) 0); [done|]. by rewrite H. }
  destruct sl as [k| |e| |e|e f]; cbn [slot_val]; [done|done|apply (He IndT); done|done|apply (He DindT); done|].
  destruct Hin as [H1 H2]. change (iblk i 13) with (slot_val blk i DindT). rewrite (He DindT e) by done. apply (He (Leaf e)); done.
Qed.

Lemma slotv_lookup V n i sl : v_ino V !! n = Some i → slotv V n sl = slot_val (v_blk V) i sl.
Proof. intros H. unfold slotv. by rewrite H. Qed.

Lemma inode_ok_insert i k v : inode_ok i → is_u32 v → inode_ok (with_block (<[k := v]> (i_block i)) i).
Proof. intros [Hl Hf] Hv. split; cbn; [by rewrite length_insert|by apply Forall_insert]. Qed.

Lemma iblk_insert i k v j : inode_ok i → 0 ≤ k < 15 → 0 ≤ j →
  iblk (with_block (<[Z.to_nat k := v]> (i_block i)) i) j = if decide (j = k) then v else iblk i j.
Proof.
  intros [Hl _] Hk Hj. unfold iblk. cbn [i_block with_block]. rewrite !nth_lookup. case_decide as E.
  - subst j. by rewrite list_lookup_insert_eq by lia.
  - rewrite list_lookup_insert_ne by lia. done.
Qed.

Section steps.
Context (V : view) (HV : view_ok V) (n : nat) (i : ext3_inode) (Hn : v_ino V !! n = Some i).
Context (nb : Z) (Hfree : bit (v_bm V) nb = false) (Hnb : 0 ≤ nb < NBITS) (bm' : list Z) (Hbm : update_bit (v_bm V) nb true bm').
#[local] Set Default Proof Using "HV Hn Hfree Hnb Hbm".

Lemma nb_data : 12 ≤ nb < NBITS.
Proof. apply (free_block V nb HV Hfree Hnb). Qed.
Lemma nb_u32 : is_u32 nb.
Proof. pose proof nb_data. unfold NBITS, is_u32, U32 in *. lia. Qed.
Lemma nb_unused m sl : slot_in sl → slotv V m sl ≠ nb.
Proof. intros Hs E. pose proof nb_data. pose proof (free_unused V nb m sl HV Hfree Hs E). lia. Qed.
Lemma i_ok : inode_ok i.
Proof. exact (Forall_lookup_1 _ _ _ _ (vo_each V HV) Hn). Qed.

(** Slots of other inodes, when only fresh blocks and tables of this inode change. *)
Lemma other_slots blk' inos' m sl : slot_in sl → m ≠ n → inos' !! m = v_ino V !! m →
  (∀ b, bit (v_bm V) b = true → (∀ st, is_table st → slot_in st → slotv V n st ≠ b) → blk' b = v_blk V b) →
  slotv (View blk' inos' bm') m sl = slotv V m sl.
Proof.
  intros Hs Hm E H. unfold slotv. cbn [v_ino v_blk]. rewrite E. destruct (v_ino V !! m) as [j|] eqn:Ej; [|done].
  apply slot_val_ext; [done|]. intros tb Ht Hin Hne. rewrite <-(slotv_lookup V m j tb Ej) in *. apply H.
  - by apply (vo_used V HV).
  - intros st Hst Hsi Ec. destruct (vo_inj V HV m tb n st Hin Hsi Hne (eq_sym Ec)) as [-> _]. done.
Qed.

(** A direct entry takes the block. *)
Lemma grow_direct k : 0 ≤ k < 12 → iblk i k = 0 →
  grow V n (Direct k) nb (View (v_blk V) (<[n := with_block (<[Z.to_nat k := nb]> (i_block i)) i]> (v_ino V)) bm').
Proof.
  intros Hk Hz. pose proof (lookup_lt_Some _ _ _ Hn) as Hlt. pose proof i_ok as Hi. pose proof nb_u32.
  constructor; cbn [v_blk v_ino v_bm]; [done|done|by rewrite (slotv_lookup V n i)|apply HV|apply length_insert|
    apply Forall_insert; [apply HV|by apply inode_ok_insert]|done| | |done].
  - unfold slotv. cbn [v_ino v_blk]. rewrite list_lookup_insert_eq by done. cbn [slot_val].
    rewrite iblk_insert, decide_True by (done || lia). done.
  - intros m sl' Hs Hne. destruct (decide (m = n)) as [->|Hm].
    + unfold slotv. cbn [v_ino v_blk]. rewrite list_lookup_insert_eq, Hn by done.
      destruct sl' as [k'| |e| |e|e f]; cbn [slot_val slot_in] in *; rewrite ?iblk_insert by (done || lia);
        rewrite ?decide_False by lia; try done. rewrite decide_False; [done|congruence].
    + apply other_slots; [done|done|by rewrite list_lookup_insert_ne|done].
Qed.

(** A table takes the block, filled with zeros. *)
Lemma grow_root (sl : slot) k : (sl = IndT ∧ k = 12) ∨ (sl = DindT ∧ k = 13) → iblk i k = 0 →
  grow V n sl nb (View (put (v_blk V) nb (replicate 4096 0))
    (<[n := with_block (<[Z.to_nat k := nb]> (i_block i)) i]> (v_ino V)) bm').
Proof.
  intros Hk Hz. pose proof (lookup_lt_Some _ _ _ Hn) as Hlt. pose proof i_ok as Hi. pose proof nb_u32. pose proof nb_data.
  assert (slot_in sl) as Hin by by destruct Hk as [[-> _]|[-> _]].
  assert (∀ b, bit (v_bm V) b = true → put (v_blk V) nb (replicate 4096 0) b = v_blk V b) as Hblk.
  { intros b Hb. apply put_off. congruence. }
  constructor; cbn [v_blk v_ino v_bm]; [done|done| | |apply length_insert|
    apply Forall_insert; [apply HV|by apply inode_ok_insert]|done| | |by auto].
  - rewrite (slotv_lookup V n i) by done. destruct Hk as [[-> ->]|[-> ->]]; done.
  - intros b. unfold put. case_decide; [|apply HV]. split; [apply length_replicate|by apply Forall_replicate].
  - unfold slotv. cbn [v_ino v_blk]. rewrite list_lookup_insert_eq by done.
    destruct Hk as [[-> ->]|[-> ->]]; cbn [slot_val]; by rewrite iblk_insert, decide_True by (done || lia).
  - intros m sl' Hs Hne. destruct (decide (m = n)) as [->|Hm].
    2: { apply other_slots; [done|done|by rewrite list_lookup_insert_ne|by auto]. }
    unfold slotv. cbn [v_ino v_blk]. rewrite list_lookup_insert_eq, Hn by done.
    set (i' := with_block _ i). set (blk' := put _ _ _).
    assert (∀ c e, c = 0 ∨ c = nb → entry blk' c e = 0) as Hzero.
    { intros c e [-> | ->]; [done|]. apply (entry_zeros _ _ _ 4096). apply put_at. }
    assert (∀ c e, c ≠ nb → entry blk' c e = entry (v_blk V) c e) as Hsame.
    { intros c e Hc. unfold blk'. rewrite entry_put, decide_False by done. done. }
    assert (∀ j, 0 ≤ j → iblk i' j = if decide (j = k) then nb else iblk i j) as Hib.
    { intros j Hj. apply iblk_insert; [done| |done]. destruct Hk as [[_ ->]|[_ ->]]; lia. }
    assert (∀ tb, is_table tb → slot_in tb → slot_val (v_blk V) i tb ≠ nb) as Hun.
    { intros tb _ Ht. rewrite <-(slotv_lookup V n i tb Hn). by apply nb_unused. }
    destruct Hk as [[-> ->]|[-> ->]]; destruct sl' as [k'| |e| |e|e f]; cbn [slot_val slot_in] in *;
      rewrite ?Hib by lia; rewrite ?decide_False by lia; try done.
    + rewrite decide_True, Hz by done. rewrite Hzero by (by right). done.
    + apply Hsame. apply (Hun DindT); done.
    + rewrite (Hsame (iblk i 13)) by (apply (Hun DindT); done). apply Hsame. apply (Hun (Leaf e)); [done|]. apply Hs.
    + apply Hsame. apply (Hun IndT); done.
    + rewrite decide_True, Hz by done. rewrite Hzero by (by right). done.
    + rewrite decide_True, Hz by done. rewrite (Hzero nb) by (by right). done.
Qed.
(** An entry of a table takes the block; [l] is the table with the entry. *)
Definition new_entry (tb e : Z) (l : list Z) : Prop := length l = 4096%nat ∧ Forall is_byte l ∧
  ∀ f, 0 ≤ f < 1024 → field l (4 * Z.to_nat f) 4 = if decide (f = e) then nb else field (v_blk V tb) (4 * Z.to_nat f) 4.

Lemma table_ne st st' : is_table st → slot_in st → slot_in st' → slotv V n st ≠ 0 → st' ≠ st → slotv V n st' ≠ slotv V n st.
Proof. intros _ H1 H2 H0 Hne E. symmetry in E. by destruct (vo_inj V HV n st n st' H1 H2 H0 E) as [_ ->]. Qed.

Lemma entry_new tb e l f : tb ≠ 0 → new_entry tb e l → 0 ≤ f < 1024 →
  (if tb =? 0 then 0 else field l (4 * Z.to_nat f) 4) = if decide (f = e) then nb else entry (v_blk V) tb f.
Proof.
  intros H0 (_ & _ & Hl) Hf. unfold entry. destruct (Z.eqb_spec tb 0); [done|]. by apply Hl.
Qed.

Lemma grow_entry st sl e l : (st = IndT ∧ sl = Ind e) ∨ (∃ f, st = Leaf f ∧ sl = Dind f e) → slot_in st → 0 ≤ e < 1024 →
  slotv V n st ≠ 0 → slotv V n sl = 0 → new_entry (slotv V n st) e l →
  grow V n sl nb (View (put (v_blk V) (slotv V n st) l) (v_ino V) bm').
Proof.
  intros Hk Hst He H0 Hz Hl. pose proof nb_data. set (tb := slotv V n st) in *.
  assert (slot_in sl ∧ is_table st) as [Hsl Htab] by (destruct Hk as [[-> ->]|(f & -> & ->)]; done).
  constructor; cbn [v_blk v_ino v_bm]; [done|done|done| |done|apply HV|done| | |].
  - intros b. unfold put. case_decide; [|apply HV]. split; apply Hl.
  - unfold slotv. cbn [v_ino v_blk]. rewrite Hn. unfold tb in *. rewrite (slotv_lookup V n i) in * by done.
    destruct Hk as [[-> ->]|(f & -> & ->)]; cbn [slot_val] in *.
    + rewrite entry_put, decide_True by done. rewrite (entry_new _ _ _ e H0 Hl), decide_True by done. done.
    + rewrite (entry_put _ _ _ (iblk i 13)), decide_False.
      * rewrite entry_put, decide_True by done. rewrite (entry_new _ _ _ e H0 Hl), decide_True by done. done.
      * pose proof (table_ne (Leaf f) DindT I Hst I) as Hne. rewrite !(slotv_lookup V n i) in Hne by done. by apply Hne.
  - intros m sl' Hs Hne. destruct (decide (m = n)) as [->|Hm].
    2: { apply other_slots; [done|done|done|]. intros b _ Hb. apply put_off. intros ->. by apply (Hb st). }
    unfold slotv. cbn [v_ino v_blk]. rewrite Hn.
    assert (∀ st', slot_in st' → st' ≠ st → slot_val (v_blk V) i st' ≠ tb) as Hd.
    { intros st' H1 H2. rewrite <-(slotv_lookup V n i st' Hn). by apply table_ne. }
    assert (slot_val (v_blk V) i st = tb) as Htb by (symmetry; by apply slotv_lookup).
    assert (∀ st' f, slot_in st' → 0 ≤ f < 1024 → (st', f) ≠ (st, e) →
      entry (put (v_blk V) tb l) (slot_val (v_blk V) i st') f = entry (v_blk V) (slot_val (v_blk V) i st') f) as Hent.
    { intros st' f H1 H2 H3. rewrite entry_put. case_decide as Ec; [|done]. destruct (decide (st' = st)) as [->|]; [|by destruct (Hd st')].
      rewrite Ec, (entry_new _ _ _ f H0 Hl) by done. rewrite decide_False; [done|congruence]. }
    destruct sl' as [k'| |f| |f|f g]; cbn [slot_val slot_in] in *; [done|done| |done| |].
    + apply (Hent IndT f); [done|done|]. destruct Hk as [[-> ->]|(f' & -> & ->)]; congruence.
    + apply (Hent DindT f); [done|done|]. destruct Hk as [[-> ->]|(f' & -> & ->)]; congruence.
    + pose proof (Hent DindT f I) as E1. cbn [slot_val] in E1. rewrite E1; [|lia|destruct Hk as [[-> ->]|(f' & -> & ->)]; congruence].
      apply (Hent (Leaf f) g); [apply Hs|apply Hs|]. destruct Hk as [[-> ->]|(f' & -> & ->)]; congruence.
  - intros b _ Hb. apply put_off. intros ->. by apply (Hb n st).
Qed.

(** An entry of the double indirect table takes the block for a leaf, filled with zeros. *)
Lemma grow_leaf e l : 0 ≤ e < 1024 → slotv V n DindT ≠ 0 → slotv V n (Leaf e) = 0 → new_entry (slotv V n DindT) e l →
  grow V n (Leaf e) nb (View (put (put (v_blk V) nb (replicate 4096 0)) (slotv V n DindT) l) (v_ino V) bm').
Proof.
  intros He H0 Hz Hl. pose proof nb_data. set (tb := slotv V n DindT) in *.
  assert (tb ≠ nb) as Htn by by apply nb_unused.
  assert (∀ b, bit (v_bm V) b = true → b ≠ tb → put (put (v_blk V) nb (replicate 4096 0)) tb l b = v_blk V b) as Hblk.
  { intros b Hb Hne. rewrite put_off, put_off by congruence. done. }
  constructor; cbn [v_blk v_ino v_bm]; [done|done|done| |done|apply HV|done| | |].
  - intros b. unfold put. repeat case_decide; [split; apply Hl| |apply HV]. split; [apply length_replicate|by apply Forall_replicate].
  - unfold slotv. cbn [v_ino v_blk]. rewrite Hn. cbn [slot_val]. change (iblk i 13) with (slot_val (v_blk V) i DindT).
    rewrite <-(slotv_lookup V n i DindT Hn). fold tb. rewrite entry_put, decide_True by done.
    by rewrite (entry_new _ _ _ e H0 Hl), decide_True by done.
  - intros m sl' Hs Hne. destruct (decide (m = n)) as [->|Hm].
    2: { apply other_slots; [done|done|done|]. intros b Hu Hb. apply Hblk; [done|]. intros ->. by apply (Hb DindT). }
    unfold slotv. cbn [v_ino v_blk]. rewrite Hn.
    assert (iblk i 13 = tb) as Htb by (symmetry; by apply (slotv_lookup V n i DindT)).
    assert (∀ c f, c ≠ tb → c ≠ nb → entry (put (put (v_blk V) nb (replicate 4096 0)) tb l) c f = entry (v_blk V) c f) as Hsame.
    { intros c f H1 H2. rewrite entry_put, decide_False by done. by rewrite entry_put, decide_False by done. }
    assert (∀ f, 0 ≤ f < 1024 → entry (put (put (v_blk V) nb (replicate 4096 0)) tb l) tb f =
      if decide (f = e) then nb else entry (v_blk V) tb f) as Hent.
    { intros f Hf. rewrite entry_put, decide_True by done. by rewrite (entry_new _ _ _ f H0 Hl). }
    destruct sl' as [k'| |f| |f|f g]; cbn [slot_val slot_in] in *; [done|done| |done| |]; rewrite ?Htb.
    + assert (iblk i 12 = slotv V n IndT) as -> by (symmetry; by apply (slotv_lookup V n i IndT)).
      apply Hsame; [by apply table_ne|by apply nb_unused].
    + rewrite Hent, decide_False by (done || congruence). done.
    + rewrite Hent by lia. destruct Hs as [Hs1 Hs2]. case_decide as Ef.
      * subst f. rewrite (slotv_lookup V n i) in Hz by done. cbn [slot_val] in Hz. rewrite Htb in Hz. rewrite Hz.
        rewrite entry_put, decide_False by done. by apply (entry_zeros _ _ _ 4096), put_at.
      * assert (entry (v_blk V) tb f = slotv V n (Leaf f)) as El by (rewrite (slotv_lookup V n i) by done; cbn [slot_val]; by rewrite Htb).
        rewrite El. apply Hsame; [by apply table_ne|by apply nb_unused].
  - intros b Hu Hb. apply Hblk; [done|]. intros ->. by apply (Hb n DindT).
Qed.
End steps.
