(* ===== verification/Ext3Ops.v ===== *)
(** * The file system: finding and allocating the blocks of a file

    [ext3_inode_get_block] reads the slot of a block, and [ext3_inode_ensure_block] fills
    it, with the tables on the way, by growing the view. *)

From S2P Require Import Prelude Ring Words Bytes Ext3 Ext3Bits Ext3View.

(** ** The view of a state *)

Fixpoint assoc {A} (b : Z) (l : list (Z * A)) : option A :=
  match l with
  | [] => None
  | (c, x) :: l => if decide (b = c) then Some x else assoc b l
  end.

Lemma assoc_None {A} b (l : list (Z * A)) : b ∉ l.*1 → assoc b l = None.
Proof. induction l as [|[c x] l IH]; [done|]. cbn. rewrite not_elem_of_cons. intros [H1 H2]. rewrite decide_False by done. by apply IH. Qed.
Lemma assoc_Some {A} b (l : list (Z * A)) x : assoc b l = Some x → (b, x) ∈ l.
Proof.
  induction l as [|[c y] l IH]; [done|]. cbn. case_decide; [intros [= ->]; subst; by left|]. intros E. right. by apply IH.
Qed.

(** What a block will hold once the dirty ones are written. *)
Definition vblk (s : ext3) (b : Z) : list Z :=
  match assoc b (d_blkdirty (rootdirty s)) with
  | Some (Owned l) => l
  | Some (Shared d) => default [] (dirblocks s !! d)
  | None => block (dev s) b
  end.
Definition view_of (s : ext3) : view := View (vblk s) (inodes s) (block_bitmap s).
Definition dirty_blocks (s : ext3) : list Z := (d_blkdirty (rootdirty s)).*1.

Lemma vblk_clean s b : b ∉ dirty_blocks s → vblk s b = block (dev s) b.
Proof. intros H. unfold vblk. by rewrite assoc_None. Qed.

(** ** Views that agree everywhere *)

Definition view_eq (V W : view) : Prop := v_ino V = v_ino W ∧ v_bm V = v_bm W ∧ ∀ b, v_blk V b = v_blk W b.

#[global] Instance view_eq_equivalence : Equivalence view_eq.
Proof.
  split.
  - by intros V.
  - intros V W (H1 & H2 & H3). by split_and!.
  - intros V W X (H1 & H2 & H3) (H4 & H5 & H6). split_and!; [congruence..|]. intros b. by rewrite H3.
Qed.

Lemma slot_val_eq blk blk' i sl : (∀ b, blk b = blk' b) → slot_val blk i sl = slot_val blk' i sl.
Proof.
  intros H. assert (∀ b e, entry blk b e = entry blk' b e) as He by (intros b e; unfold entry; by rewrite H).
  destruct sl; cbn [slot_val]; rewrite ?He; done.
Qed.

#[global] Instance slotv_proper : Proper (view_eq ==> eq ==> eq ==> eq) slotv.
Proof.
  intros V W (H1 & H2 & H3) m ? <- sl ? <-. unfold slotv. rewrite H1. destruct (v_ino W !! m); [|done]. by apply slot_val_eq.
Qed.

#[global] Instance view_ok_proper : Proper (view_eq ==> iff) view_ok.
Proof.
  assert (∀ V W, view_eq V W → view_ok V → view_ok W) as H.
  { intros V W E HV. pose proof E as (H1 & H2 & H3). constructor; rewrite <-?H1, <-?H2; try apply HV.
    - intros b. rewrite <-H3. apply HV.
    - intros m sl. rewrite <-E. apply HV.
    - intros m sl m' sl'. rewrite <-E. apply HV. }
  intros V W E. split; apply H; [done|by symmetry].
Qed.

#[global] Instance grow_proper : Proper (view_eq ==> eq ==> eq ==> eq ==> view_eq ==> impl) grow.
Proof.
  intros V V' E' n ? <- sl ? <- nb ? <- W X E G. pose proof E as (H1 & H2 & H3). pose proof E' as (H1' & H2' & H3').
  constructor; rewrite <-?H1, <-?H2, <-?H1', <-?H2'; try apply G.
  - rewrite <-E'. apply G.
  - intros b. rewrite <-H3. apply G.
  - rewrite <-E. apply G.
  - intros m sl'. rewrite <-E, <-E'. apply G.
  - intros b Hb Ht. rewrite <-H3, <-H3'. apply G; [done|]. intros m sl' H4 H5. rewrite E'. by apply Ht.
Qed.

(** ** Growing by several slots *)

Inductive grows (n : nat) : view → list slot → view → Prop :=
| grows_nil V W : view_eq V W → grows n V [] W
| grows_cons V sl nb V1 sls W : grow V n sl nb V1 → grows n V1 sls W → grows n V (sl :: sls) W.

#[global] Instance grows_proper n : Proper (view_eq ==> eq ==> view_eq ==> impl) (grows n).
Proof.
  intros V V' E' sls ? <- W X E G. revert V' E'. induction G as [V W E1|V sl nb V1 sls W G _ IH]; intros V' E'.
  - constructor. by rewrite <-E', E1.
  - apply (grows_cons n _ _ nb V1); [by rewrite <-E'|]. by apply IH.
Qed.

Lemma grows_app n V l1 W l2 X : grows n V l1 W → grows n W l2 X → grows n V (l1 ++ l2) X.
Proof.
  induction 1 as [V W E|V sl nb V1 sls W G _ IH]; intros G2; cbn; [by rewrite E|]. econstructor; [done|]. by apply IH.
Qed.

Record grown (n : nat) (V : view) (sls : list slot) (W : view) : Prop := {
  gr_ok : view_ok W;
  gr_mono : ∀ m sl, slot_in sl → slotv V m sl ≠ 0 → slotv W m sl = slotv V m sl;
  gr_same : ∀ m sl, slot_in sl → m ≠ n ∨ sl ∉ sls → slotv W m sl = slotv V m sl;
  gr_new : ∀ sl, sl ∈ sls → slot_in sl ∧ slotv V n sl = 0 ∧ data_block (slotv W n sl) ∧ bit (v_bm V) (slotv W n sl) = false;
  gr_blk : ∀ b, data_block b → bit (v_bm V) b = true → (∀ m sl, is_table sl → slot_in sl → slotv V m sl ≠ b) → v_blk W b = v_blk V b;
  gr_bits : ∀ b, 0 ≤ b < NBITS → bit (v_bm V) b = true → bit (v_bm W) b = true;
  gr_free : free_count (v_bm V) = (free_count (v_bm W) + length sls)%nat }.

Lemma grown_nil n V W : view_ok V → view_eq V W → grown n V [] W.
Proof.
  intros HV E. pose proof E as (H1 & H2 & H3). constructor.
  - by rewrite <-E.
  - intros. by rewrite <-E.
  - intros. by rewrite <-E.
  - intros sl H. by apply not_elem_of_nil in H.
  - intros. by rewrite <-H3.
  - intros. by rewrite <-H2.
  - rewrite H2. cbn [length]. lia.
Qed.

Lemma grow_nonzero n V sl nb W : view_ok V → grow V n sl nb W → data_block nb.
Proof. intros HV G. destruct (g_free _ _ _ _ _ G). by apply (free_block V). Qed.

Lemma grown_cons n V sl nb V1 sls W : view_ok V → grow V n sl nb V1 → grown n V1 sls W → grown n V (sl :: sls) W.
Proof.
  intros HV G H. pose proof (grow_nonzero n V sl nb V1 HV G) as Hnz. destruct (g_bm _ _ _ _ _ G) as [Hbm Hbits].
  destruct (g_free _ _ _ _ _ G) as [Hfree Hnb].
  assert (slotv W n sl = nb) as Hsl.
  { rewrite (gr_mono _ _ _ _ H); [apply G|apply G|]. rewrite (g_new _ _ _ _ _ G). unfold data_block in Hnz. lia. }
  constructor.
  - apply H.
  - intros m sl' Hin Hne. assert (slotv V1 m sl' = slotv V m sl') as E.
    { apply (g_old _ _ _ _ _ G); [done|]. intros [= -> ->]. by rewrite (g_zero _ _ _ _ _ G) in Hne. }
    rewrite <-E in *. by apply H.
  - intros m sl' Hin Hor. rewrite not_elem_of_cons in Hor. rewrite (gr_same _ _ _ _ H) by naive_solver.
    apply (g_old _ _ _ _ _ G); [done|]. intros [= -> ->]. naive_solver.
  - intros sl' [->|Hin]%elem_of_cons.
    + rewrite Hsl. split; [apply G|]. split; [apply G|done].
    + destruct (gr_new _ _ _ _ H sl' Hin) as (H1 & H2 & H3 & H4). split; [done|].
      assert (sl' ≠ sl) as Hne by (intros ->; rewrite (g_new _ _ _ _ _ G) in H2; unfold data_block in Hnz; lia).
      split; [by rewrite <-(g_old _ _ _ _ _ G) by (done || congruence)|]. split; [done|].
      rewrite Hbits in H4 by (unfold data_block in H3; lia). by case_decide.
  - intros b Hd Hb Ht. assert (b ≠ nb) by congruence. rewrite (gr_blk _ _ _ _ H); [by apply G|done| |].
    + unfold data_block in Hd. by rewrite Hbits, decide_False by lia.
    + intros m sl' H1 H2. destruct (decide ((m, sl') = (n, sl))) as [[= -> ->]|Hne].
      * rewrite (g_new _ _ _ _ _ G). done.
      * rewrite (g_old _ _ _ _ _ G) by done. by apply Ht.
  - intros b Hr Hb. apply (gr_bits _ _ _ _ H); [done|]. rewrite Hbits by done. by case_decide.
  - rewrite (free_count_set (v_bm V) nb (v_bm V1)); [|apply G|done|done]. rewrite (gr_free _ _ _ _ H). cbn [length]. lia.
Qed.

Lemma grows_grown n V sls W : view_ok V → grows n V sls W → grown n V sls W.
Proof.
  intros HV G. induction G as [V W E|V sl nb V1 sls W G _ IH]; [by apply grown_nil|].
  eapply grown_cons; [done|done|]. apply IH. by eapply grow_ok.
Qed.

(** ** Machine numbers of blocks *)

Lemma data_block_u32 b : data_block b → u32 b = b ∧ i32 b = b.
Proof. unfold data_block, NBITS. intros H. split; [apply u32_small; unfold is_u32, U32; lia|apply i32_small; lia]. Qed.

Lemma table_lba b : data_block b → u32 (b * BLOCK_SIZE) / FDC_SECTOR_SIZE = 8 * b.
Proof.
  unfold data_block, NBITS, BLOCK_SIZE, FDC_SECTOR_SIZE. intros H. rewrite u32_small by (unfold is_u32, U32; lia).
  replace (b * 4096) with (8 * b * 512) by lia. by apply Z.div_mul.
Qed.
Lemma data_lba b : data_block b → block_lba b = 8 * b.
Proof.
  unfold data_block, NBITS, block_lba, BLOCK_SIZE, FDC_SECTOR_SIZE. intros H. rewrite i32_small by lia.
  rewrite Z.quot_div_nonneg by lia. replace (b * 4096) with (8 * b * 512) by lia. rewrite Z.div_mul by lia.
  apply u32_small. unfold is_u32, U32. lia.
Qed.

Lemma load_table s b : k_answers s = [] → data_block b → ext3_load_block_table b s = (Some (block (dev s) b), s).
Proof.
  intros Ha Hb. unfold ext3_load_block_table, kalloc. rewrite Ha. destruct (Z.eqb_spec b 0); [unfold data_block in Hb; lia|].
  rewrite table_lba by done. done.
Qed.

Lemma get_inode_Ret s n i : inodes s !! n = Some i → ext3_get_inode (Z.of_nat n + 1) s = Ret i.
Proof.
  intros H. unfold ext3_get_inode. destruct (Z.eqb_spec (Z.of_nat n + 1) 0); [lia|]. apply load1_Ret; [lia|].
  replace (Z.to_nat (Z.of_nat n + 1 - 1)) with n by lia. done.
Qed.
Lemma set_inode_Ret s n i j : inodes s !! n = Some j → ext3_set_inode (Z.of_nat n + 1) i s = Ret (set_inodes (<[n := i]> (inodes s)) s).
Proof.
  intros H. apply lookup_lt_Some in H. unfold ext3_set_inode. rewrite store1_Ret, bind_ret by lia.
  replace (Z.to_nat (Z.of_nat n + 1 - 1)) with n by lia. done.
Qed.

Lemma load_iblk i k : inode_ok i → 0 ≤ k < 15 → load1 (i_block i) k = Ret (iblk i k).
Proof.
  intros [Hl _] Hk. destruct (lookup_lt_is_Some_2 (i_block i) (Z.to_nat k)) as [v Hv]; [lia|].
  rewrite (load1_Ret _ _ v) by (done || lia). unfold iblk. by rewrite (nth_lookup_Some _ _ _ _ Hv).
Qed.

(** The numbers of the stages. *)
Ltac consts :=
  change BLOCK_ZERO_STAGE with 11 in *; change BLOCK_FIRST_STAGE with 1035 in *; change BLOCK_SECOND_STAGE with 1049611 in *;
  change EXT3_PTRS_PER_BLOCK with 1024 in *; change EXT3_IND_BLOCK with 12 in *; change EXT3_DIND_BLOCK with 13 in *;
  change EXT3_DIRECT_BLOCKS with 12 in *.

(** ** Reading a slot *)

(** Reading goes through the device; [dslot] is what it finds there. *)
Definition dslot (s : ext3) (i : ext3_inode) (sl : slot) : Z := slot_val (block (dev s)) i sl.
(** The slots on the way to a block of a file. *)
Definition path (lb : Z) : list slot :=
  if lb <=? 11 then [Direct lb] else if lb <=? 1035 then [IndT; Ind (lb - 12)]
  else [DindT; Leaf ((lb - 1036) / 1024); Dind ((lb - 1036) / 1024) ((lb - 1036) mod 1024)].
Definition dslot_ok (s : ext3) (i : ext3_inode) (lb : Z) : Prop := ∀ sl, sl ∈ path lb → dslot s i sl ≠ 0 → data_block (dslot s i sl).

Lemma path_data lb : data_slot lb ∈ path lb.
Proof. unfold path, data_slot. repeat case_match; set_solver. Qed.
Lemma path_in lb sl : lb_ok lb → sl ∈ path lb → slot_in sl.
Proof.
  intros Hlb. pose proof (data_slot_in lb Hlb) as H. unfold lb_ok in Hlb. unfold path, data_slot in *. zcases; rewrite ?elem_of_cons, elem_of_nil.
  - by intros [->|[]].
  - by intros [->|[->|[]]].
  - intros [->|[->|[->|[]]]]; [done|apply H|done].
Qed.

Lemma i32_slot s i lb : dslot_ok s i lb → i32 (dslot s i (data_slot lb)) = dslot s i (data_slot lb).
Proof.
  intros H. destruct (decide (dslot s i (data_slot lb) = 0)) as [->|Hne]; [done|]. by apply data_block_u32, H; [apply path_data|].
Qed.

Lemma get_block_spec s i lb : k_answers s = [] → dev_ok (dev s) → inode_ok i → dslot_ok s i lb → lb_ok lb →
  ext3_inode_get_block i lb s = Ret (dslot s i (data_slot lb), s).
Proof.
  intros Ha Hd Hi Hok Hlb. pose proof (data_slot_in lb Hlb) as Hin. unfold lb_ok in Hlb. unfold ext3_inode_get_block.
  pose proof (i32_slot s i lb Hok) as Hi32. assert (∀ b, length (block (dev s) b) = 4096%nat) as Hlen by (intros; by apply block_ok).
  consts. unfold dslot_ok, path in Hok. unfold data_slot in *. destruct (Z.ltb_spec lb 0); [lia|]. destruct (Z.leb_spec lb 11).
  { rewrite load_iblk, bind_ret by (done || lia). by rewrite <-Hi32. }
  destruct (Z.leb_spec lb 1035).
  { rewrite load_iblk, bind_ret by (done || lia). unfold dslot in *. cbn [slot_val] in *. unfold entry in *.
    destruct (Z.eqb_spec (iblk i 12) 0); [done|]. rewrite load_table by (done || by apply (Hok IndT); [left|]).
    replace (lb - 11 - 1) with (lb - 12) by lia. rewrite load32_field, bind_ret by (done || lia). by rewrite Hi32. }
  destruct (Z.leb_spec lb 1049611); [|lia].
  rewrite load_iblk, bind_ret by (done || lia). destruct Hin as [Hq Hr].
  replace (lb - 1035 - 1) with (lb - 1036) in * by lia.
  pose proof (Hok (Leaf ((lb - 1036) / 1024)) ltac:(right; left)) as Hleaf.
  unfold dslot in *. cbn [slot_val] in *. unfold entry at 1. unfold entry at 1 in Hi32. unfold entry in Hleaf.
  unfold entry. unfold entry in Hi32.
  destruct (Z.eqb_spec (iblk i 13) 0) as [|H13]; [done|]. rewrite load_table by (done || by apply (Hok DindT); [left|]).
  rewrite load32_field, bind_ret by (done || lia). destruct (Z.eqb_spec (field (block (dev s) (iblk i 13)) (4 * Z.to_nat ((lb - 1036) / 1024)) 4) 0); [done|].
  rewrite load_table by auto. rewrite load32_field, bind_ret by (done || lia). by rewrite Hi32.
Qed.

(** ** What an operation marks *)

(** Everything that changed in memory is marked as dirty. *)
Record stamped (s s' : ext3) : Prop := {
  st_inodirty : ∀ k, k ∈ d_inodirty (rootdirty s) → k ∈ d_inodirty (rootdirty s');
  st_range : ∀ k, k ∈ d_inodirty (rootdirty s') → k ∈ d_inodirty (rootdirty s) ∨ 1 ≤ k ≤ Z.of_nat (length (inodes s));
  st_ino : ∀ m, inodes s' !! m = inodes s !! m ∨ Z.of_nat m + 1 ∈ d_inodirty (rootdirty s');
  st_super : (super_block s' = super_block s ∧ d_super (rootdirty s') = d_super (rootdirty s)) ∨ d_super (rootdirty s') = true;
  st_group : (group_descs s' = group_descs s ∧ d_group (rootdirty s') = d_group (rootdirty s)) ∨ d_group (rootdirty s') = true;
  st_inobmp : (inode_bitmap s' = inode_bitmap s ∧ d_inobmp (rootdirty s') = d_inobmp (rootdirty s)) ∨ d_inobmp (rootdirty s') = true;
  st_blkbmp : (block_bitmap s' = block_bitmap s ∧ d_blkbmp (rootdirty s') = d_blkbmp (rootdirty s)) ∨ d_blkbmp (rootdirty s') = true }.

(** Only memory changed, and what changed is marked. *)
Record moved (s s' : ext3) : Prop := {
  mv_dev : dev s' = dev s;
  mv_dirblocks : dirblocks s' = dirblocks s;
  mv_answers : k_answers s' = k_answers s;
  mv_len : length (inodes s') = length (inodes s);
  mv_inobmp : bitmap_ok (inode_bitmap s) → bitmap_ok (inode_bitmap s');
  mv_super : super_ok (super_block s) → super_ok (super_block s');
  mv_group : group_ok (group_descs s) → group_ok (group_descs s');
  mv_stamped : stamped s s' }.

#[global] Instance moved_preorder : PreOrder moved.
Proof.
  split.
  - intros s. constructor; [done..|]. constructor; auto.
  - intros a b c [H1 H2 H3 H4 H5 H6 H7 [A1 A0 A2 A3 A4 A5 A6]] [K1 K2 K3 K4 K5 K6 K7 [B1 B0 B2 B3 B4 B5 B6]].
    constructor; [congruence..|auto|auto|auto|]. constructor.
    + auto.
    + intros k Hk. destruct (B0 k Hk) as [|]; [auto|right; lia].
    + intros m. destruct (B2 m) as [->|]; [|by right]. destruct (A2 m); [by left|right]. auto.
    + destruct B3 as [[-> ->]|]; auto.
    + destruct B4 as [[-> ->]|]; auto.
    + destruct B5 as [[-> ->]|]; auto.
    + destruct B6 as [[-> ->]|]; auto.
Qed.

Lemma alloc_spec s : bitmap_ok (block_bitmap s) → (0 < free_count (block_bitmap s))%nat →
  ∃ nb s', __alloc_block s = Ret (nb, s') ∧ moved s s' ∧ d_blkdirty (rootdirty s') = d_blkdirty (rootdirty s) ∧
    inodes s' = inodes s ∧ bit (block_bitmap s) nb = false ∧ 0 ≤ nb < NBITS ∧ update_bit (block_bitmap s) nb true (block_bitmap s').
Proof.
  intros Hbm Hf. destruct (get_free_some _ Hbm Hf) as (nb & E & Hb & Hnb & _). unfold __alloc_block. rewrite E, bind_ret. clear E.
  rewrite u32_small by (unfold NBITS, is_u32, U32 in *; lia).
  destruct (set_bitmap_spec _ nb Hbm Hnb) as (bm' & -> & Hu). rewrite bind_ret. exists nb, (put_block_bitmap (-1) bm' s).
  split; [done|]. split; [|exact (conj eq_refl (conj eq_refl (conj Hb (conj Hnb Hu))))]. constructor; [done..| | |].
  - intros []. constructor; cbn; try done. apply u32_range.
  - intros []. constructor; cbn; try done. by apply Z.mod_pos_bound.
  - constructor; cbn; auto.
Qed.

Lemma set_block_Ret s n i k v : inodes s !! n = Some i → inode_ok i → 0 ≤ k < 15 →
  set_block (Z.of_nat n + 1) k v s = Ret (set_inodes (<[n := with_block (<[Z.to_nat k := v]> (i_block i)) i]> (inodes s)) s).
Proof.
  intros Hn [Hl _] Hk. unfold set_block. rewrite (get_inode_Ret s n i Hn), bind_ret, store1_Ret, bind_ret by lia.
  by rewrite (set_inode_Ret s n _ i Hn).
Qed.

Lemma mark_inode_spec s n : k_answers s = [] → ext3_mark_inode_dirty (Z.of_nat n + 1) s =
  set_dirty (Dirty (d_super (rootdirty s)) (d_group (rootdirty s)) (d_inobmp (rootdirty s)) (d_blkbmp (rootdirty s))
    (Z.of_nat n + 1 :: d_inodirty (rootdirty s)) (d_blkdirty (rootdirty s))) s.
Proof. intros Ha. unfold ext3_mark_inode_dirty, kalloc. by rewrite Ha. Qed.

Lemma mark_block_spec s b l : k_answers s = [] → ext3_mark_block_dirty b l s =
  set_dirty (Dirty (d_super (rootdirty s)) (d_group (rootdirty s)) (d_inobmp (rootdirty s)) (d_blkbmp (rootdirty s))
    (d_inodirty (rootdirty s)) ((b, l) :: d_blkdirty (rootdirty s))) s.
Proof. intros Ha. unfold ext3_mark_block_dirty, kalloc. by rewrite Ha. Qed.

(** An inode that is changed and marked. *)
Lemma moved_inode s n i : k_answers s = [] → (n < length (inodes s))%nat →
  moved s (ext3_mark_inode_dirty (Z.of_nat n + 1) (set_inodes (<[n := i]> (inodes s)) s)).
Proof.
  intros Ha Hn. rewrite mark_inode_spec by done. constructor; try done; [cbn; by rewrite length_insert|]. constructor; cbn; auto.
  - intros k Hk. by right.
  - intros k [->|Hk]%elem_of_cons; [right; lia|by left].
  - intros m. destruct (decide (m = n)) as [->|]; [right; by left|left]. by apply list_lookup_insert_ne.
Qed.

Lemma moved_block s b l : k_answers s = [] → moved s (ext3_mark_block_dirty b l s).
Proof. intros Ha. rewrite mark_block_spec by done. constructor; [done..|]. constructor; cbn; auto. Qed.

(** ** Tables that are open *)

(** [V] is the view of [s] once the tables [tabs] are written back. *)
Definition carries (s : ext3) (tabs : list (Z * list Z)) (V : view) : Prop :=
  v_ino V = inodes s ∧ v_bm V = block_bitmap s ∧ ∀ b, v_blk V b = default (vblk s b) (assoc b tabs).

Lemma carries_nil s V : carries s [] V ↔ view_eq (view_of s) V.
Proof. unfold carries, view_eq. cbn. naive_solver. Qed.

Lemma vblk_same s s' b : dev s' = dev s → dirblocks s' = dirblocks s → d_blkdirty (rootdirty s') = d_blkdirty (rootdirty s) →
  vblk s' b = vblk s b.
Proof. intros H1 H2 H3. unfold vblk. by rewrite H1, H2, H3. Qed.

Lemma insert_alter (l : list ext3_inode) n i f : l !! n = Some i → <[n := f i]> l = alter f n l.
Proof.
  intros H. apply list_eq. intros j. destruct (decide (j = n)) as [->|].
  - rewrite list_lookup_insert_eq by (eapply lookup_lt_Some; exact H). by rewrite list_lookup_alter_eq, H.
  - by rewrite list_lookup_insert_ne, list_lookup_alter_ne.
Qed.

Lemma alter_same (l : list ext3_inode) n i : l !! n = Some i → l = alter (with_block (i_block i)) n l.
Proof. intros H. rewrite <-(insert_alter l n i) by done. symmetry. apply list_insert_id. rewrite H. by destruct i. Qed.

(** Which slot a table is, and its entries. *)
Definition root_slot (sl : slot) (k : Z) : Prop := (sl = IndT ∧ k = 12) ∨ (sl = DindT ∧ k = 13).

Definition opened (s : ext3) (s' : ext3) : Prop := moved s s' ∧ d_blkdirty (rootdirty s') = d_blkdirty (rootdirty s).

Lemma open_table_spec s n i sl k V : k_answers s = [] → view_ok V → carries s [] V → inodes s !! n = Some i →
  root_slot sl k → (0 < free_count (block_bitmap s))%nat → (iblk i k ≠ 0 → iblk i k ∉ dirty_blocks s) →
  ∃ tb table dirty s' V' sls, open_table (Z.of_nat n + 1) k s = Ret (Some (tb, table, dirty), s') ∧ opened s s' ∧
    grows n V sls V' ∧ carries s' [(tb, table)] V' ∧ slotv V' n sl = tb ∧ (slotv V n sl ≠ 0 → sls = [] ∧ dirty = false) ∧
    (dirty = false → table = vblk s' tb) ∧ (slotv V n sl = 0 → sls = [sl] ∧ dirty = true) ∧
    ∃ l, inodes s' = alter (with_block l) n (inodes s).
Proof.
  intros Ha HV Hc Hn Hk Hf Hcl. pose proof Hc as (Hi & Hb & Hblk). cbn in Hblk.
  assert (v_ino V !! n = Some i) as HVn by by rewrite Hi. pose proof (Forall_lookup_1 _ _ _ _ (vo_each V HV) HVn) as Hiok.
  assert (0 ≤ k < 15) as Hkr by (destruct Hk as [[_ ->]|[_ ->]]; lia).
  assert (slotv V n sl = iblk i k) as Hsl by (rewrite (slotv_lookup V n i) by done; destruct Hk as [[-> ->]|[-> ->]]; done).
  assert (slot_in sl) as Hin by (destruct Hk as [[-> _]|[-> _]]; done).
  unfold open_table. rewrite (get_inode_Ret s n i Hn), bind_ret, load_iblk, bind_ret by done.
  destruct (Z.eqb_spec (iblk i k) 0) as [Hz|Hnz].
  - assert (kalloc s = (true, s)) as -> by (unfold kalloc; by rewrite Ha). cbn [negb].
    destruct (alloc_spec s) as (nb & s1 & -> & Hm1 & Hd1 & Hi1 & Hfree & Hnb & Hu); [rewrite <-Hb; apply HV|done|].
    rewrite bind_ret. cbv beta iota. rewrite <-Hb in Hfree, Hu.
    rewrite u32_small by (unfold NBITS, is_u32, U32 in *; lia).
    rewrite (set_block_Ret s1 n i) by (done || by rewrite Hi1). rewrite bind_ret.
    pose proof (grow_root V HV n i HVn nb Hfree Hnb _ Hu sl k Hk Hz) as G.
    eexists nb, _, true, _, _, [sl]. split; [done|].
    assert (k_answers s1 = []) as Ha1 by by rewrite (mv_answers _ _ Hm1).
    pose proof (moved_inode s1 n (with_block (<[Z.to_nat k:=nb]> (i_block i)) i) Ha1) as Hm2.
    rewrite Hi1 in Hm2. specialize (Hm2 (lookup_lt_Some _ _ _ Hn)). rewrite Hi1. rewrite mark_inode_spec in * by done.
    split; [split; [by etrans|done]|]. split; [econstructor; [exact G|by constructor]|].
    split; [|split; [apply G|split; [congruence|split; [done|split; [done|]]]]].
    2: { eexists. cbn. by apply (insert_alter _ n i (with_block _)). }
    split; [cbn; by rewrite Hi|]. split; [done|]. intros b. cbn [v_blk assoc]. unfold put. case_decide; [done|].
    cbn [default assoc]. rewrite Hblk. symmetry. apply vblk_same; [apply Hm1|apply Hm1|done].
  - assert (data_block (iblk i k)) as Hdata by (rewrite <-Hsl in *; by apply (vo_used V HV)).
    rewrite load_table by done. cbn [fmap option_fmap option_map]. eexists (iblk i k), _, false, s, V, [].
    split; [done|]. split; [by split|]. split; [by constructor|]. split.
    + split; [done|]. split; [done|]. intros b. rewrite Hblk. cbn [assoc]. case_decide; [|done]. subst b. cbn.
      apply vblk_clean. by apply Hcl.
    + rewrite Hsl. split; [done|]. split; [done|]. split; [intros _; symmetry; apply vblk_clean; by apply Hcl|].
      split; [done|]. eexists. by apply alter_same.
Qed.

(** The slot of an entry of a table of data blocks. *)
Definition entry_slot (st : slot) (e : Z) (sl : slot) : Prop := (st = IndT ∧ sl = Ind e) ∨ (∃ f, st = Leaf f ∧ sl = Dind f e).

Lemma entry_slot_val V n st e sl : entry_slot st e sl → slotv V n sl = entry (v_blk V) (slotv V n st) e.
Proof.
  unfold slotv. destruct (v_ino V !! n) as [i|]; [|by destruct 1 as [[-> ->]|(f & -> & ->)]].
  by intros [[-> ->]|(f & -> & ->)].
Qed.

Lemma leaf_slot_val V n e : slotv V n (Leaf e) = entry (v_blk V) (slotv V n DindT) e.
Proof. unfold slotv. by destruct (v_ino V !! n). Qed.

Lemma carries_table s tb table rest V : carries s ((tb, table) :: rest) V → v_blk V tb = table.
Proof. intros (_ & _ & H). rewrite H. cbn [assoc]. by rewrite decide_True. Qed.

Lemma entry_field (blk : Z → list Z) b e : b ≠ 0 → entry blk b e = field (blk b) (4 * Z.to_nat e) 4.
Proof. intros H. unfold entry. by destruct (Z.eqb_spec b 0). Qed.

(** The table of a slot with one more entry. *)
Lemma carries_store s s' tb table table' rest V : carries s ((tb, table) :: rest) V → opened s s' → inodes s' = inodes s →
  carries s' ((tb, table') :: rest) (View (put (v_blk V) tb table') (v_ino V) (block_bitmap s')).
Proof.
  intros (H1 & H2 & H3) [Hm Hd] Hi. split; [cbn; congruence|]. split; [done|]. intros b. cbn [v_blk assoc]. unfold put.
  case_decide as E; [done|]. rewrite H3. cbn [assoc]. rewrite decide_False by done. f_equal. symmetry.
  apply vblk_same; [apply Hm|apply Hm|done].
Qed.

Lemma ensure_entry_spec s n i st sl e table dirty rest V : k_answers s = [] → view_ok V →
  carries s ((slotv V n st, table) :: rest) V → inodes s !! n = Some i → entry_slot st e sl → slot_in st → 0 ≤ e < 1024 →
  slotv V n st ≠ 0 → (0 < free_count (block_bitmap s))%nat →
  ∃ table' dirty' s' V' sls, ensure_entry table e dirty s = Ret (slotv V' n sl, table', dirty', s') ∧ opened s s' ∧
    grows n V sls V' ∧ carries s' ((slotv V n st, table') :: rest) V' ∧ inodes s' = inodes s ∧
    (slotv V n sl ≠ 0 → sls = [] ∧ dirty' = dirty ∧ table' = table) ∧ (slotv V n sl = 0 → sls = [sl] ∧ dirty' = true).
Proof.
  intros Ha HV Hc Hn Hes Hst He H0 Hf. pose proof (carries_table _ _ _ _ _ Hc) as Ht. pose proof Hc as (Hi & Hb & _).
  assert (v_ino V !! n = Some i) as HVn by by rewrite Hi. destruct (vo_blk V HV (slotv V n st)) as [Htl Htb]. rewrite Ht in Htl, Htb.
  assert (slotv V n sl = field table (4 * Z.to_nat e) 4) as Hv by (rewrite (entry_slot_val V n st e sl), entry_field, Ht by done; done).
  unfold ensure_entry. rewrite load32_field, bind_ret, <-Hv by done. destruct (Z.eqb_spec (slotv V n sl) 0) as [Hz|Hnz].
  - destruct (alloc_spec s) as (nb & s1 & -> & Hm1 & Hd1 & Hi1 & Hfree & Hnb & Hu); [rewrite <-Hb; apply HV|done|].
    rewrite bind_ret. cbv beta iota. rewrite <-Hb in Hfree, Hu.
    destruct (store32_spec table e nb Htl Htb He) as (table' & -> & Hl' & Hb' & Hf'); [unfold is_u32, U32, NBITS in *; lia|].
    rewrite bind_ret. rewrite u32_small by (unfold NBITS, is_u32, U32 in *; lia).
    assert (grow V n sl nb (View (put (v_blk V) (slotv V n st) table') (v_ino V) (block_bitmap s1))) as G.
    { apply (grow_entry V HV n i HVn nb Hfree Hnb _ Hu st sl e table'); try done. split; [done|]. split; [done|].
      intros f Hfr. rewrite Ht. by apply Hf'. }
    exists table', true, s1, (View (put (v_blk V) (slotv V n st) table') (v_ino V) (block_bitmap s1)), [sl].
    rewrite (g_new _ _ _ _ _ G). split; [done|]. split; [by split|]. split; [econstructor; [exact G|by constructor]|].
    split; [|by split_and!]. eapply carries_store; [exact Hc|by split|done].
  - exists table, dirty, s, V, []. split; [done|]. split; [by split|]. split; [by constructor|]. by split_and!.
Qed.

(** Writing a table back. *)
Lemma put_table_spec s tb table dirty rest V : k_answers s = [] → carries s ((tb, table) :: rest) V →
  assoc tb rest = None → (dirty = false → table = vblk s tb) →
  let s' := put_table tb table dirty s in
  carries s' rest V ∧ moved s s' ∧ inodes s' = inodes s ∧ block_bitmap s' = block_bitmap s ∧
  d_blkdirty (rootdirty s') = (if dirty then [(tb, Owned table)] else []) ++ d_blkdirty (rootdirty s).
Proof.
  intros Ha (H1 & H2 & H3) Hr Hcl s'. unfold s', put_table. destruct dirty.
  - split; [|split; [by apply moved_block|by rewrite mark_block_spec]]. rewrite mark_block_spec by done.
    split; [done|]. split; [done|]. intros b. rewrite H3. cbn [assoc]. case_decide as E.
    + subst b. rewrite Hr. cbn. unfold vblk. cbn. by rewrite decide_True.
    + f_equal. unfold vblk. cbn. by rewrite decide_False.
  - split; [|by split_and!]. split; [done|]. split; [done|]. intros b. rewrite H3. cbn [assoc]. case_decide as E; [|done].
    subst b. rewrite Hr. cbn. by apply Hcl.
Qed.
