(* ===== verification/Ext3Ensure.v ===== *)
(** * The file system: allocating the block of a file *)

From S2P Require Import Prelude Ring Words Bytes Ext3 Ext3Bits Ext3View Ext3Ops.

(** Two open tables in the other order. *)
Lemma carries_swap s a x b y V : a ≠ b → carries s [(a, x); (b, y)] V → carries s [(b, y); (a, x)] V.
Proof.
  intros Hab (H1 & H2 & H3). split; [done|]. split; [done|]. intros c. rewrite H3. cbn [assoc]. repeat case_decide; congruence.
Qed.

Lemma open_leaf_spec s n i V table dirty ti : k_answers s = [] → view_ok V → carries s [(slotv V n DindT, table)] V →
  inodes s !! n = Some i → 0 ≤ ti < 1024 → slotv V n DindT ≠ 0 → (0 < free_count (block_bitmap s))%nat →
  (slotv V n (Leaf ti) ≠ 0 → slotv V n (Leaf ti) ∉ dirty_blocks s) →
  ∃ table' dirty' leaf leaf_dirty s' V' sls,
    open_leaf table ti dirty s = Ret (Some (table', dirty', slotv V' n (Leaf ti), leaf, leaf_dirty), s') ∧
    opened s s' ∧ inodes s' = inodes s ∧ grows n V sls V' ∧
    carries s' [(slotv V' n (Leaf ti), leaf); (slotv V n DindT, table')] V' ∧ slotv V' n (Leaf ti) ≠ 0 ∧
    ((sls = [] ∧ slotv V n (Leaf ti) ≠ 0 ∧ dirty' = dirty ∧ table' = table) ∨ (sls = [Leaf ti] ∧ slotv V n (Leaf ti) = 0 ∧ dirty' = true)).
Proof.
  intros Ha HV Hc Hn Hti H0 Hf Hcl. pose proof (carries_table _ _ _ _ _ Hc) as Ht. pose proof Hc as (Hi & Hb & Hblk).
  assert (v_ino V !! n = Some i) as HVn by by rewrite Hi. destruct (vo_blk V HV (slotv V n DindT)) as [Htl Htb]. rewrite Ht in Htl, Htb.
  assert (slotv V n (Leaf ti) = field table (4 * Z.to_nat ti) 4) as Hv by (rewrite leaf_slot_val, entry_field, Ht by done; done).
  unfold open_leaf. rewrite load32_field, bind_ret, <-Hv by done. destruct (Z.eqb_spec (slotv V n (Leaf ti)) 0) as [Hz|Hnz].
  - assert (kalloc s = (true, s)) as -> by (unfold kalloc; by rewrite Ha). cbn [negb].
    destruct (alloc_spec s) as (nb & s1 & -> & Hm1 & Hd1 & Hi1 & Hfree & Hnb & Hu); [rewrite <-Hb; apply HV|done|].
    rewrite bind_ret. cbv beta iota. rewrite <-Hb in Hfree, Hu.
    destruct (store32_spec table ti nb Htl Htb Hti) as (table' & -> & Hl' & Hb' & Hf'); [unfold is_u32, U32, NBITS in *; lia|].
    rewrite bind_ret. rewrite u32_small by (unfold NBITS, is_u32, U32 in *; lia).
    assert (new_entry V nb (slotv V n DindT) ti table') as Hne by (split; [done|]; split; [done|]; intros f Hfr; rewrite Ht; by apply Hf').
    pose proof (grow_leaf V HV n i HVn nb Hfree Hnb _ Hu ti table' Hti H0 Hz Hne) as G. set (V' := View _ _ _) in G.
    pose proof (free_block V nb HV Hfree Hnb) as Hdb. assert (nb ≠ slotv V n DindT) as Hd.
    { intros E. symmetry in E. apply (free_unused V nb n DindT HV Hfree I) in E. unfold data_block in Hdb. lia. }
    exists table', true, (replicate 4096 0), true, s1, V', [Leaf ti]. rewrite (g_new _ _ _ _ _ G).
    split; [done|]. split; [by split|]. split; [done|]. split; [econstructor; [exact G|by constructor]|]. split.
    + split; [cbn; congruence|]. split; [done|]. intros b. unfold V'. cbn [v_blk assoc]. unfold put. clear -Hblk Hd Hm1 Hd1. destruct (decide (b = nb)), (decide (b = slotv V n DindT)); [congruence|done|done|].
      rewrite Hblk. cbn [assoc]. rewrite decide_False by done. symmetry. apply vblk_same; [apply Hm1|apply Hm1|done].
    + split; [unfold data_block in Hdb; lia|]. right. done.
  - destruct (vo_used V HV n (Leaf ti) Hti Hnz) as [Hdb _]. rewrite load_table by done. cbn [fmap option_fmap option_map].
    exists table, dirty, (block (dev s) (slotv V n (Leaf ti))), false, s, V, []. split; [done|]. split; [by split|]. split; [done|].
    split; [by constructor|]. assert (slotv V n DindT ≠ slotv V n (Leaf ti)) as Hd.
    { intros E. by destruct (vo_inj V HV n DindT n (Leaf ti) I Hti H0 E). }
    split; [|by split; [|left]]. split; [done|]. split; [done|]. intros b. cbn [assoc]. rewrite Hblk. cbn [assoc].
    case_decide as E1; case_decide as E2; cbn; try congruence. subst b. apply vblk_clean. by apply Hcl.
Qed.

(** Both tables written back. *)
Lemma put_two s tb table td lf leaf V : k_answers s = [] → lf ≠ tb → carries s [(lf, leaf); (tb, table)] V →
  (td = false → table = vblk s tb) →
  let s' := put_table lf leaf true (put_table tb table td s) in
  carries s' [] V ∧ moved s s' ∧ inodes s' = inodes s ∧
  d_blkdirty (rootdirty s') = map (prod_map id Owned) ((lf, leaf) :: if td then [(tb, table)] else []) ++ d_blkdirty (rootdirty s).
Proof.
  intros Ha Hne C Ht s'. apply carries_swap in C; [|done].
  destruct (put_table_spec s tb table td [(lf, leaf)] V) as (C1 & M1 & I1 & _ & D1); [done|done|cbn; by rewrite decide_False|done|].
  destruct (put_table_spec (put_table tb table td s) lf leaf true [] V) as (C2 & M2 & I2 & _ & D2); [by rewrite (mv_answers _ _ M1)|done..|].
  split; [done|]. split; [by etrans|]. split; [by rewrite <-I1|]. unfold s'. rewrite D2, D1. by destruct td.
Qed.

(** A state between two operations on blocks: the view is in order, and the blocks that
    wait to be written are distinct, in use and whole. *)
Record consistent (s : ext3) : Prop := {
  co_dev : dev_ok (dev s);
  co_view : view_ok (view_of s);
  co_nodup : NoDup (dirty_blocks s);
  co_bytes : ∀ b x, (b, x) ∈ d_blkdirty (rootdirty s) → is_Some (match x with Owned _ => Some tt | Shared d => const tt <$> (dirblocks s !! d) end);
  co_used : ∀ b, b ∈ dirty_blocks s → data_block b ∧ bit (block_bitmap s) b = true }.

(** Every coming call of [kalloc] succeeds.  The code has other paths, on which it gives
    up part of the work and reports nothing. *)
Definition memory_available (s : ext3) : Prop := k_answers s = [].

Record working (s : ext3) : Prop := {
  w_cons : consistent s;
  w_ans : memory_available s }.

Lemma w_dev s : working s → dev_ok (dev s).
Proof. intros [C _]. apply C. Qed.

Lemma w_view s : working s → view_ok (view_of s).
Proof. intros [C _]. apply C. Qed.

Lemma w_nodup s : working s → NoDup (dirty_blocks s).
Proof. intros [C _]. apply C. Qed.

Lemma w_bytes s : working s → ∀ b x, (b, x) ∈ d_blkdirty (rootdirty s) → is_Some (match x with Owned _ => Some tt | Shared d => const tt <$> (dirblocks s !! d) end).
Proof. intros [C _]. apply C. Qed.

Lemma w_used s : working s → ∀ b, b ∈ dirty_blocks s → data_block b ∧ bit (block_bitmap s) b = true.
Proof. intros [C _]. apply C. Qed.

Lemma mk_working s : dev_ok (dev s) → k_answers s = [] → view_ok (view_of s) → NoDup (dirty_blocks s) →
  (∀ b x, (b, x) ∈ d_blkdirty (rootdirty s) → is_Some (match x with Owned _ => Some tt | Shared d => const tt <$> (dirblocks s !! d) end)) →
  (∀ b, b ∈ dirty_blocks s → data_block b ∧ bit (block_bitmap s) b = true) → working s.
Proof. intros. split; [by constructor|done]. Qed.

Lemma working_after s s' n V sls new : working s → moved s s' → grows n (view_of s) sls V → view_eq (view_of s') V →
  d_blkdirty (rootdirty s') = map (prod_map id Owned) new ++ d_blkdirty (rootdirty s) →
  NoDup new.*1 → (∀ b, b ∈ new.*1 → (b ∉ dirty_blocks s) ∧ ∃ sl, slot_in sl ∧ slotv V n sl = b ∧ b ≠ 0) → working s'.
Proof.
  intros W M G E Hd Hnd Hnew. pose proof (grows_grown n _ _ _ (w_view s W) G) as GR.
  assert (dirty_blocks s' = new.*1 ++ dirty_blocks s) as Hdb.
  { unfold dirty_blocks. rewrite Hd, fmap_app, <-list_fmap_compose. done. }
  apply mk_working.
  - rewrite (mv_dev _ _ M). apply W.
  - rewrite (mv_answers _ _ M). apply W.
  - rewrite E. apply GR.
  - rewrite Hdb. apply NoDup_app. split; [done|]. split; [|apply W]. intros b Hb. by apply Hnew.
  - intros b x. rewrite Hd, elem_of_app, (mv_dirblocks _ _ M). intros [Hin|Hin]; [|by apply (w_bytes s W b)].
    apply list_elem_of_fmap in Hin as (y & [= -> ->] & _). by eexists.
  - intros b. rewrite Hdb, elem_of_app. destruct E as (_ & E2 & _). cbn in E2. intros [Hin|Hin].
    + destruct (Hnew b Hin) as (_ & sl & H1 & H2 & H3). rewrite <-H2 in *. rewrite E2. by apply (vo_used V (gr_ok _ _ _ _ GR)).
    + destruct (w_used s W b Hin) as [H1 H2]. split; [done|]. rewrite E2. apply (gr_bits _ _ _ _ GR); [|done].
      unfold data_block in H1. lia.
Qed.

(** What [ext3_inode_ensure_block] did for block [lb] of inode [n]. *)
Record ensured (s : ext3) (n : nat) (lb : Z) (s' : ext3) (sls : list slot) : Prop := {
  en_work : working s';
  en_moved : moved s s';
  en_grows : grows n (view_of s) sls (view_of s');
  en_slots : data_slot lb ∈ sls ∧ ∀ sl, sl ∈ sls → sl = data_slot lb ∨ is_table sl;
  en_few : (length sls ≤ if decide (lb ≤ 11)%Z then 1 else 3)%nat;
  en_dirty : ∀ c, c ∈ dirty_blocks s' → c ∈ dirty_blocks s ∨ (11 < lb ∧ ∃ st, is_table st ∧ slot_in st ∧ slotv (view_of s') n st = c ∧ c ≠ 0);
  en_inode : ∃ l, inodes s' = alter (with_block l) n (inodes s) }.

Definition clean (s : ext3) (n : nat) : Prop :=
  ∀ st, is_table st → slot_in st → slotv (view_of s) n st ≠ 0 → slotv (view_of s) n st ∉ dirty_blocks s.

Section ensure.
Context (s : ext3) (W : working s) (n : nat) (i : ext3_inode) (Hn : inodes s !! n = Some i).
#[local] Set Default Proof Using "W Hn".

Lemma fresh_clean nb : bit (block_bitmap s) nb = false → nb ∉ dirty_blocks s.
Proof. intros Hb Hin. destruct (w_used s W nb Hin). congruence. Qed.

Lemma ino_ok : inode_ok i.
Proof. exact (Forall_lookup_1 _ _ _ _ (vo_each _ (w_view s W)) Hn). Qed.

(** A direct block. *)
Lemma ensure_direct lb : 0 ≤ lb ≤ 11 → slotv (view_of s) n (data_slot lb) = 0 → (0 < free_count (block_bitmap s))%nat →
  ∃ s' sls, ext3_inode_ensure_block (Z.of_nat n + 1) lb s = Ret (slotv (view_of s') n (data_slot lb), s') ∧ ensured s n lb s' sls.
Proof.
  intros Hlb Hz Hf. pose proof ino_ok as Hi. assert (data_slot lb = Direct lb) as Eds by (unfold data_slot; by destruct (Z.leb_spec lb 11); [|lia]).
  rewrite Eds in *. rewrite (slotv_lookup (view_of s) n i) in Hz by done. cbn [slot_val] in Hz.
  unfold ext3_inode_ensure_block. consts. destruct (Z.eqb_spec (Z.of_nat n + 1) 0); [lia|].
  rewrite (get_inode_Ret s n i Hn), bind_ret. destruct (Z.leb_spec lb 11); [|lia].
  rewrite load_iblk, bind_ret, Hz by (done || lia). cbn [Z.eqb].
  destruct (alloc_spec s) as (nb & s1 & -> & Hm1 & Hd1 & Hi1 & Hfree & Hnb & Hu); [apply (w_view s W)|done|].
  rewrite bind_ret. cbv beta iota. rewrite u32_small by (unfold NBITS, is_u32, U32 in *; lia).
  rewrite (set_block_Ret s1 n i) by (done || (by rewrite Hi1) || lia). rewrite bind_ret.
  pose proof (grow_direct (view_of s) (w_view s W) n i Hn nb Hfree Hnb _ Hu lb ltac:(lia) Hz) as G.
  set (V' := View _ _ _) in G. set (s' := ext3_mark_inode_dirty _ _).
  assert (k_answers s1 = []) as Ha1 by (rewrite (mv_answers _ _ Hm1); apply W).
  assert (moved s s') as Hm.
  { etrans; [exact Hm1|]. apply moved_inode; [done|]. rewrite Hi1. by eapply lookup_lt_Some. }
  assert (d_blkdirty (rootdirty s') = d_blkdirty (rootdirty s)) as Hd by (unfold s'; rewrite mark_inode_spec by done; exact Hd1).
  assert (view_eq (view_of s') V') as E.
  { split; [|split].
    - unfold s'. rewrite mark_inode_spec by done. cbn. by rewrite Hi1.
    - unfold s'. by rewrite mark_inode_spec by done.
    - intros b. unfold V'. cbn [v_blk view_of]. apply vblk_same; [apply Hm|apply Hm|done]. }
  exists s', [Direct lb]. rewrite E. rewrite (g_new _ _ _ _ _ G). split; [done|].
  assert (grows n (view_of s) [Direct lb] V') as Gs by (econstructor; [exact G|by constructor]).
  constructor.
  - apply (working_after s s' n V' [Direct lb] []); [done|done|done|done|done|constructor|].
    intros b Hb. by apply not_elem_of_nil in Hb.
  - done.
  - by rewrite E.
  - rewrite Eds. split; [by left|]. intros sl Hin. left. by apply list_elem_of_singleton in Hin.
  - rewrite decide_True by lia. done.
  - intros c Hc. left. unfold dirty_blocks in *. by rewrite <-Hd.
  - eexists. unfold s'. rewrite mark_inode_spec by done. cbn. rewrite Hi1. by apply (insert_alter _ n i (with_block _)).
Qed.
(** The inode in a later state, with other entries. *)
Lemma inode_later s1 V1 sls V : carries s1 V1 V → grows n (view_of s) sls V → ∃ i1, inodes s1 !! n = Some i1.
Proof.
  intros (H1 & _) G. pose proof (grows_grown n _ _ _ (w_view s W) G) as GR. rewrite <-H1.
  apply lookup_lt_is_Some_2. rewrite (vo_ino V (gr_ok _ _ _ _ GR)). rewrite <-(vo_ino _ (w_view s W)). by eapply lookup_lt_Some.
Qed.

(** A table that was opened is not among the dirty blocks. *)
Lemma table_clean sls V sl : clean s n → is_table sl → slot_in sl → grows n (view_of s) sls V → (slotv (view_of s) n sl = 0 → sl ∈ sls) →
  slotv V n sl ∉ dirty_blocks s.
Proof.
  intros Hc Ht Hin G Hnew. pose proof (grows_grown n _ _ _ (w_view s W) G) as GR.
  destruct (decide (slotv (view_of s) n sl = 0)) as [Hz|Hnz].
  - apply fresh_clean. by apply (gr_new _ _ _ _ GR), Hnew.
  - rewrite (gr_mono _ _ _ _ GR) by done. by apply Hc.
Qed.

(** The result, from the steps on the view and the tables that were written back. *)
Lemma ensured_intro s' sls lb new V : moved s s' → grows n (view_of s) sls V → carries s' [] V → 11 < lb →
  d_blkdirty (rootdirty s') = map (prod_map id Owned) new ++ d_blkdirty (rootdirty s) →
  NoDup new.*1 → (∀ b, b ∈ new.*1 → (b ∉ dirty_blocks s) ∧ ∃ st, is_table st ∧ slot_in st ∧ slotv V n st = b ∧ b ≠ 0) →
  data_slot lb ∈ sls → (∀ sl, sl ∈ sls → sl = data_slot lb ∨ is_table sl) → (length sls ≤ 3)%nat →
  (∃ l, inodes s' = alter (with_block l) n (inodes s)) → ensured s n lb s' sls.
Proof.
  intros M G Hc Hlb Hd Hnd Hnew H1 H2 H3 H4. apply carries_nil in Hc. constructor.
  - eapply (working_after s s' n V sls new); [done..|]. intros b Hb. destruct (Hnew b Hb) as (A & st & _ & B). split; [done|by exists st].
  - done.
  - by rewrite Hc.
  - done.
  - rewrite decide_False by lia. done.
  - intros c. unfold dirty_blocks. rewrite Hd, fmap_app, elem_of_app. intros [Hin|Hin]; [right|by left]. split; [done|].
    assert (c ∈ new.*1) as Hin'.
    { change (map (prod_map id Owned) new) with (prod_map id Owned <$> new) in Hin. by rewrite <-list_fmap_compose in Hin. }
    destruct (Hnew c Hin') as (_ & st & A & B & C & D). exists st. rewrite Hc. done.
  - done.
Qed.

(** Opening a table of the inode, which is made if there is none. *)
Record open_root (sl : slot) (table : list Z) (dirty : bool) (s1 : ext3) (V1 : view) (sls1 : list slot) : Prop := {
  or_opened : opened s s1;
  or_grows : grows n (view_of s) sls1 V1;
  or_carries : carries s1 [(slotv V1 n sl, table)] V1;
  or_nonzero : slotv V1 n sl ≠ 0;
  or_slots : (sls1 = [] ∧ slotv (view_of s) n sl ≠ 0) ∨ (sls1 = [sl] ∧ slotv (view_of s) n sl = 0);
  or_clean : slotv V1 n sl ∉ dirty_blocks s;
  or_table : dirty = false → table = vblk s1 (slotv V1 n sl);
  or_dirty : dirty = true → sls1 = [sl];
  or_inode : ∃ l, inodes s1 = alter (with_block l) n (inodes s);
  or_later : is_Some (inodes s1 !! n);
  or_answers : k_answers s1 = [] }.

Lemma open_root_spec sl k : root_slot sl k → clean s n → (0 < free_count (block_bitmap s))%nat →
  ∃ table dirty s1 V1 sls1, open_table (Z.of_nat n + 1) k s = Ret (Some (slotv V1 n sl, table, dirty), s1) ∧
    open_root sl table dirty s1 V1 sls1.
Proof.
  intros Hk Hcl Hf. assert (slot_in sl ∧ is_table sl ∧ slotv (view_of s) n sl = iblk i k) as (Hin & Ht & Hsl).
  { rewrite (slotv_lookup (view_of s) n i) by done. destruct Hk as [[-> ->]|[-> ->]]; done. }
  destruct (open_table_spec s n i sl k (view_of s)) as (tb & table & dirty & s1 & V1 & sls1 & E & O & G1 & C1 & T1 & O1 & B1 & N1 & L1).
  { apply W. } { apply W. } { by apply carries_nil. } { done. } { done. } { lia. } { rewrite <-Hsl. by apply Hcl. }
  subst tb. exists table, dirty, s1, V1, sls1. split; [done|]. pose proof (grows_grown n _ _ _ (w_view s W) G1) as GR1.
  constructor; [done|done|done| | | |done| |done| |].
  - destruct (decide (slotv (view_of s) n sl = 0)) as [Ez|Ez]; [|by rewrite (gr_mono _ _ _ _ GR1)].
    destruct (N1 Ez) as [-> _]. destruct (gr_new _ _ _ _ GR1 sl) as (_ & _ & Hdb & _); [by left|]. unfold data_block in Hdb. lia.
  - destruct (decide (slotv (view_of s) n sl = 0)) as [Ez|Ez]; [right; by destruct (N1 Ez)|left; by destruct (O1 Ez)].
  - apply (table_clean sls1 V1); [done|done|done|done|]. intros Ez. destruct (N1 Ez) as [-> _]. by left.
  - intros ->. destruct (decide (slotv (view_of s) n sl = 0)) as [Ez|Ez]; [by destruct (N1 Ez)|by destruct (O1 Ez)].
  - by eapply (inode_later s1 _ _ V1).
  - destruct O as [M _]. rewrite (mv_answers _ _ M). apply W.
Qed.

(** A block behind the indirect table. *)
Lemma ensure_first lb : 11 < lb ≤ 1035 → slotv (view_of s) n (data_slot lb) = 0 → (3 ≤ free_count (block_bitmap s))%nat → clean s n →
  ∃ s' sls, ensure_first_stage (Z.of_nat n + 1) lb s = Ret (Some (slotv (view_of s') n (data_slot lb)), s') ∧ ensured s n lb s' sls.
Proof.
  intros Hlb Hz Hf Hcl.
  assert (data_slot lb = Ind (lb - 12)) as Eds by (unfold data_slot; destruct (Z.leb_spec lb 11), (Z.leb_spec lb 1035); (done || lia)).
  rewrite Eds in *. unfold ensure_first_stage. consts.
  destruct (open_root_spec IndT 12) as (table & dirty & s1 & V1 & sls1 & -> & OR); [by left|done|lia|].
  rewrite bind_ret. cbv beta iota. replace (lb - 11 - 1) with (lb - 12) by lia.
  destruct OR as [[M1 D1] G1 C1 Hnz Hsls Hdc Htab _ L1 [i1 Hi1] A1]. pose proof (grows_grown n _ _ _ (w_view s W) G1) as GR1.
  assert (slotv V1 n (Ind (lb - 12)) = 0) as Hz1.
  { rewrite (gr_same _ _ _ _ GR1); [done|cbn; lia|]. right. destruct Hsls as [[-> _]|[-> _]]; [apply not_elem_of_nil|by rewrite list_elem_of_singleton]. }
  pose proof (gr_free _ _ _ _ GR1) as F1. cbn [v_bm view_of] in F1. pose proof C1 as (_ & Bm1 & _).
  destruct (ensure_entry_spec s1 n i1 IndT (Ind (lb - 12)) (lb - 12) table dirty [] V1) as
    (table' & dirty' & s2 & V2 & sls2 & -> & [M2 D2] & G2 & C2 & I2 & _ & N2); try done.
  { apply GR1. } { by left. } { lia. } { rewrite <-Bm1. destruct Hsls as [[-> _]|[-> _]]; cbn [length] in F1; lia. }
  rewrite bind_ret. cbv beta iota. destruct (N2 Hz1) as [-> ->]. clear N2.
  pose proof (grows_app _ _ _ _ _ _ G1 G2) as G. pose proof (grows_grown n _ _ _ (w_view s W) G) as GR.
  destruct (put_table_spec s2 (slotv V1 n IndT) table' true [] V2) as (C3 & M3 & I3 & Bm3 & D3); [by rewrite (mv_answers _ _ M2)|done..|].
  set (s3 := put_table _ _ _ _) in *.
  assert (slotv V2 n (Ind (lb - 12)) = slotv (view_of s3) n (Ind (lb - 12))) as Ev by (apply carries_nil in C3; by rewrite C3).
  destruct (gr_new _ _ _ _ GR (Ind (lb - 12))) as (_ & _ & Hdb & _); [apply elem_of_app; right; by left|].
  rewrite (proj2 (data_block_u32 _ Hdb)).
  destruct (Z.eqb_spec (slotv V2 n (Ind (lb - 12))) 0) as [E0|_]; [unfold data_block in Hdb; lia|]. cbn [negb].
  exists s3, (sls1 ++ [Ind (lb - 12)]). rewrite Ev. split; [done|].
  assert (slotv V2 n IndT = slotv V1 n IndT) as ET by (apply (gr_mono _ _ _ _ (grows_grown n _ _ _ (gr_ok _ _ _ _ GR1) G2)); done).
  apply (ensured_intro s3 _ lb [(slotv V1 n IndT, table')] V2); [by do 2 (etrans; [eassumption|])|done|done|lia|by rewrite D3, D2, D1|
    apply NoDup_singleton| | | | |by rewrite I3, I2].
  - intros b Hb. apply list_elem_of_singleton in Hb as ->. split; [done|]. exists IndT. by rewrite ET.
  - rewrite Eds. clear. set_solver.
  - rewrite Eds. destruct Hsls as [[-> _]|[-> _]]; clear; set_solver.
  - destruct Hsls as [[-> _]|[-> _]]; cbn; lia.
Qed.
(** The entry of a leaf, once the tables on the way to it are open. *)
Lemma ensure_leaf_entry lb ti li table dirty s1 V1 sls1 : 1035 < lb → data_slot lb = Dind ti li → 0 ≤ ti < 1024 → 0 ≤ li < 1024 →
  slotv (view_of s) n (Dind ti li) = 0 → (3 ≤ free_count (block_bitmap s))%nat → clean s n →
  open_root DindT table dirty s1 V1 sls1 →
  ∃ table' dirty' lf leaf ld s2 v leaf' s3 sls, open_leaf table ti dirty s1 = Ret (Some (table', dirty', lf, leaf, ld), s2) ∧
    ensure_entry leaf li ld s2 = Ret (v, leaf', true, s3) ∧ data_block v ∧
    let s' := put_table lf leaf' true (put_table (slotv V1 n DindT) table' dirty' s3) in
    v = slotv (view_of s') n (Dind ti li) ∧ ensured s n lb s' sls.
Proof.
  intros Hlb Eds Hti Hli Hz Hf Hcl [[M1 D1] G1 C1 Hnz Hsls Hdc Htab Hdirty L1 [i1 Hi1] A1].
  pose proof (grows_grown n _ _ _ (w_view s W) G1) as GR1. pose proof (gr_ok _ _ _ _ GR1) as HV1.
  assert (dirty_blocks s1 = dirty_blocks s) as Hdb1 by (unfold dirty_blocks; by rewrite D1).
  assert (∀ sl, slot_in sl → sl ≠ DindT → slotv V1 n sl = slotv (view_of s) n sl) as Hsame1.
  { intros sl H1 H2. apply (gr_same _ _ _ _ GR1); [done|]. right. destruct Hsls as [[-> _]|[-> _]]; [apply not_elem_of_nil|by rewrite list_elem_of_singleton]. }
  pose proof (gr_free _ _ _ _ GR1) as F1. cbn [v_bm view_of] in F1. pose proof C1 as (_ & Bm1 & _).
  destruct (open_leaf_spec s1 n i1 V1 table dirty ti) as
    (table' & dirty' & leaf & ld & s2 & V2 & sls2 & E2 & [M2 D2] & I2 & G2 & C2 & Hlnz & Hor); try done.
  { rewrite <-Bm1. destruct Hsls as [[-> _]|[-> _]]; cbn [length] in F1; lia. }
  { rewrite Hsame1, Hdb1 by done. by apply Hcl. }
  pose proof (grows_grown n _ _ _ HV1 G2) as GR2. pose proof (gr_ok _ _ _ _ GR2) as HV2.
  pose proof (gr_free _ _ _ _ GR2) as F2. pose proof C2 as (_ & Bm2 & _).
  assert (slotv V2 n (Dind ti li) = 0) as Hz2.
  { rewrite (gr_same _ _ _ _ GR2), Hsame1; try done. right. destruct Hor as [[-> _]|[-> _]]; [apply not_elem_of_nil|by rewrite list_elem_of_singleton]. }
  destruct (ensure_entry_spec s2 n i1 (Leaf ti) (Dind ti li) li leaf ld [(slotv V1 n DindT, table')] V2) as
    (leaf' & ld' & s3 & V3 & sls3 & E3 & [M3 D3] & G3 & C3 & I3 & _ & N3); try done.
  { by rewrite (mv_answers _ _ M2). } { by rewrite I2. } { right. by exists ti. }
  { rewrite <-Bm2. destruct Hsls as [[-> _]|[-> _]], Hor as [[-> _]|[-> _]]; cbn [length] in *; lia. }
  destruct (N3 Hz2) as [-> ->]. pose proof (grows_grown n _ _ _ HV2 G3) as GR3.
  assert (slotv V2 n DindT = slotv V1 n DindT) as ET by by apply (gr_mono _ _ _ _ GR2).
  assert (slotv V2 n (Leaf ti) ≠ slotv V1 n DindT) as Hlt.
  { rewrite <-ET. intros E. by destruct (vo_inj V2 HV2 n (Leaf ti) n DindT Hti I Hlnz E). }
  destruct (put_two s3 (slotv V1 n DindT) table' dirty' (slotv V2 n (Leaf ti)) leaf' V3) as (C5 & M5 & I5 & D5);
    [by rewrite (mv_answers _ _ M3), (mv_answers _ _ M2)|done|done| |].
  { intros Hd. destruct Hor as [(_ & _ & -> & ->)|(_ & _ & ->)]; [|done]. rewrite Htab by done. symmetry.
    apply vblk_same; [by rewrite (mv_dev _ _ M3), (mv_dev _ _ M2)|by rewrite (mv_dirblocks _ _ M3), (mv_dirblocks _ _ M2)|congruence]. }
  do 10 eexists. split; [exact E2|]. split; [exact E3|]. split; [by apply (gr_new _ _ _ _ GR3); left|]. cbv zeta.
  split; [apply carries_nil in C5; by rewrite C5|].
  assert (grows n (view_of s) (sls1 ++ sls2 ++ [Dind ti li]) V3) as G by (eapply grows_app; [exact G1|]; by eapply grows_app).
  assert (slotv V3 n DindT = slotv V1 n DindT) as ET3 by (rewrite <-ET; by apply (gr_mono _ _ _ _ GR3); [|rewrite ET]).
  assert (slotv V3 n (Leaf ti) = slotv V2 n (Leaf ti)) as EL3 by by apply (gr_mono _ _ _ _ GR3).
  eapply (ensured_intro _ (sls1 ++ sls2 ++ [Dind ti li]) lb _ V3); [by do 3 (etrans; [eassumption|])|done|done|lia|
    rewrite D5, D3, D2, D1; reflexivity| | | | | |by rewrite I5, I3, I2].
  - destruct dirty'; cbn; [|apply NoDup_singleton]. apply NoDup_cons. split; [by rewrite list_elem_of_singleton|apply NoDup_singleton].
  - intros b Hb. assert (b = slotv V2 n (Leaf ti) ∨ b = slotv V1 n DindT) as [-> | ->] by (clear -Hb; destruct dirty'; cbn in Hb; set_solver).
    + split; [|exists (Leaf ti); by rewrite EL3]. rewrite <-EL3. apply (table_clean (sls1 ++ sls2 ++ [Dind ti li]) V3); try done.
      intros E. destruct Hor as [(_ & H & _)|(-> & _)]; [by rewrite Hsame1 in H|clear; set_solver].
    + split; [done|]. exists DindT. by rewrite ET3.
  - rewrite Eds. clear. set_solver.
  - rewrite Eds. destruct Hsls as [[-> _]|[-> _]], Hor as [[-> _]|[-> _]]; clear; set_solver.
  - destruct Hsls as [[-> _]|[-> _]], Hor as [[-> _]|[-> _]]; cbn; lia.
Qed.

(** A block behind the double indirect table. *)
Lemma ensure_second lb : 1035 < lb → lb_ok lb → slotv (view_of s) n (data_slot lb) = 0 → (3 ≤ free_count (block_bitmap s))%nat → clean s n →
  ∃ s' sls, ensure_second_stage (Z.of_nat n + 1) lb s = Ret (Some (slotv (view_of s') n (data_slot lb)), s') ∧ ensured s n lb s' sls.
Proof.
  intros Hlb Hok Hz Hf Hcl. pose proof (data_slot_in lb Hok) as Hin. unfold lb_ok in Hok.
  assert (data_slot lb = Dind ((lb - 1036) / 1024) ((lb - 1036) mod 1024)) as Eds.
  { unfold data_slot. destruct (Z.leb_spec lb 11), (Z.leb_spec lb 1035); (done || lia). }
  rewrite Eds in Hz, Hin |- *. destruct Hin as [Hti Hli]. unfold ensure_second_stage. consts.
  replace (lb - 1035 - 1) with (lb - 1036) by lia. rewrite (i32_small (lb - 1036)) by lia.
  rewrite (u32_small (lb - 1036)) by (unfold is_u32, U32; lia). cbv zeta.
  rewrite (i32_small ((lb - 1036) / 1024)), (i32_small ((lb - 1036) mod 1024)) by lia.
  destruct (open_root_spec DindT 13) as (table & dirty & s1 & V1 & sls1 & -> & OR); [by right|done|lia|].
  rewrite bind_ret. cbv beta iota.
  destruct (ensure_leaf_entry lb _ _ table dirty s1 V1 sls1 Hlb Eds Hti Hli Hz Hf Hcl OR) as
    (table' & dirty' & lf & leaf & ld & s2 & v & leaf' & s3 & sls & -> & E3 & Hdb & Ev & En).
  rewrite bind_ret. cbv beta iota. rewrite E3, bind_ret. cbv beta iota zeta. rewrite (proj2 (data_block_u32 _ Hdb)).
  destruct (Z.eqb_spec v 0) as [E0|_]; [unfold data_block in Hdb; lia|]. cbn [negb]. eexists _, sls. split; [by rewrite <-Ev|done].
Qed.

(** A block that is not there is made, with the tables on the way to it. *)
Lemma ensure_new lb : lb_ok lb → slotv (view_of s) n (data_slot lb) = 0 → (1 ≤ free_count (block_bitmap s))%nat →
  lb ≤ 11 ∨ ((3 ≤ free_count (block_bitmap s))%nat ∧ clean s n) →
  ∃ s' sls, ext3_inode_ensure_block (Z.of_nat n + 1) lb s = Ret (slotv (view_of s') n (data_slot lb), s') ∧ ensured s n lb s' sls.
Proof.
  intros Hok Hz Hf Hor. destruct (decide (lb ≤ 11)) as [Hlb|Hlb]; [apply ensure_direct; [unfold lb_ok in Hok; lia|done|lia]|].
  destruct Hor as [|[Hf3 Hcl]]; [done|]. unfold ext3_inode_ensure_block. consts. destruct (Z.eqb_spec (Z.of_nat n + 1) 0); [lia|].
  rewrite (get_inode_Ret s n i Hn), bind_ret. destruct (Z.leb_spec lb 11); [lia|]. destruct (Z.leb_spec lb 1035).
  - destruct (ensure_first lb) as (s' & sls & -> & En); [lia|done|done|done|]. rewrite bind_ret. by exists s', sls.
  - rewrite bind_ret. cbv beta iota. unfold lb_ok in Hok. destruct (Z.leb_spec lb 1049611); [|lia].
    destruct (ensure_second lb) as (s' & sls & -> & En); [done|done|done|done|done|]. rewrite bind_ret. by exists s', sls.
Qed.

(** A block that the device already has is left alone. *)
Lemma open_mapped k : 0 ≤ k < 15 → data_block (iblk i k) →
  open_table (Z.of_nat n + 1) k s = Ret (Some (iblk i k, block (dev s) (iblk i k), false), s).
Proof.
  intros Hk Hd. unfold open_table. rewrite (get_inode_Ret s n i Hn), bind_ret, load_iblk, bind_ret by (done || apply ino_ok).
  destruct (Z.eqb_spec (iblk i k) 0); [unfold data_block in Hd; lia|]. rewrite load_table by (done || apply W). done.
Qed.

Lemma entry_mapped b e dirty : 0 ≤ e < 1024 → b ≠ 0 → entry (block (dev s)) b e ≠ 0 →
  ensure_entry (block (dev s) b) e dirty s = Ret (entry (block (dev s)) b e, block (dev s) b, dirty, s).
Proof.
  intros He Hb Hnz. rewrite entry_field in * by done. unfold ensure_entry. rewrite load32_field, bind_ret by (done || apply block_ok, W).
  by destruct (Z.eqb_spec (field (block (dev s) b) (4 * Z.to_nat e) 4) 0).
Qed.

Lemma entry_nonzero (blk : Z → list Z) b e : entry blk b e ≠ 0 → b ≠ 0.
Proof using Type. intros H ->. by apply H. Qed.

Lemma ensure_mapped lb : lb_ok lb → dslot_ok s i lb → dslot s i (data_slot lb) ≠ 0 →
  ext3_inode_ensure_block (Z.of_nat n + 1) lb s = Ret (dslot s i (data_slot lb), s).
Proof.
  intros Hok Hd Hnz. pose proof (data_slot_in lb Hok) as Hin. pose proof (i32_slot s i lb Hd) as Hi32. unfold lb_ok in Hok.
  unfold ext3_inode_ensure_block. consts. destruct (Z.eqb_spec (Z.of_nat n + 1) 0); [lia|]. rewrite (get_inode_Ret s n i Hn), bind_ret.
  unfold dslot_ok, path in Hd. unfold data_slot in *. destruct (Z.leb_spec lb 11).
  { rewrite load_iblk, bind_ret by (apply ino_ok || lia). unfold dslot in *. cbn [slot_val] in *.
    destruct (Z.eqb_spec (iblk i lb) 0); [done|]. by rewrite Hi32. }
  destruct (Z.leb_spec lb 1035); unfold dslot in Hi32, Hnz |- *; cbn [slot_val slot_in] in *.
  - pose proof (entry_nonzero _ _ _ Hnz) as H12. unfold ensure_first_stage. consts.
    rewrite open_mapped, bind_ret by (lia || by apply (Hd IndT); [left|]). cbv beta iota. replace (lb - 11 - 1) with (lb - 12) by lia.
    rewrite entry_mapped, bind_ret by done. cbv beta iota. rewrite Hi32. destruct (Z.eqb_spec (entry (block (dev s)) (iblk i 12) (lb - 12)) 0); [done|].
    cbn [negb]. by rewrite bind_ret.
  - rewrite bind_ret. cbv beta iota. destruct (Z.leb_spec lb 1049611); [|lia]. destruct Hin as [Hti Hli].
    pose proof (entry_nonzero _ _ _ Hnz) as Hleaf. pose proof (entry_nonzero _ _ _ Hleaf) as H13. unfold ensure_second_stage. consts.
    replace (lb - 1035 - 1) with (lb - 1036) by lia. rewrite (i32_small (lb - 1036)) by lia.
    rewrite (u32_small (lb - 1036)) by (unfold is_u32, U32; lia). cbv zeta.
    rewrite (i32_small ((lb - 1036) / 1024)), (i32_small ((lb - 1036) mod 1024)) by lia.
    rewrite open_mapped, bind_ret by (lia || by apply (Hd DindT); [left|]). cbv beta iota. unfold open_leaf.
    rewrite load32_field, bind_ret by (done || apply block_ok, W). rewrite <-entry_field by done.
    destruct (Z.eqb_spec (entry (block (dev s)) (iblk i 13) ((lb - 1036) / 1024)) 0); [done|].
    rewrite load_table by (exact (w_ans s W) || by apply (Hd (Leaf ((lb - 1036) / 1024))); [right; left|]). cbn [fmap option_fmap option_map]. rewrite bind_ret. cbv beta iota.
    rewrite entry_mapped, bind_ret by done. cbv beta iota zeta. rewrite Hi32.
    rewrite (proj2 (Z.eqb_neq _ _) Hnz). cbn [negb]. by rewrite bind_ret.
Qed.
End ensure.
