(* ===== verification/Ext3Write.v ===== *)
(** * The file system: writing

    What one chunk of a write does, and the loop of [ext3_write] over the chunks. *)

From S2P Require Import Prelude Ring Words Bytes Ext3 Ext3Bits Ext3View Ext3Ops Ext3Ensure.

(** ** The bytes of the files of a state *)

Definition fbyte (s : ext3) (m : nat) (p : Z) : Z :=
  match inodes s !! m with Some i => file_byte (vblk s) i p | None => 0 end.

Lemma fbyte_slot s m p : fbyte s m p =
  let b := slotv (view_of s) m (data_slot (p / 4096)) in if b =? 0 then 0 else nth (Z.to_nat (p mod 4096)) (vblk s b) 0.
Proof. unfold fbyte, slotv. cbn [v_ino v_blk view_of]. by destruct (inodes s !! m). Qed.

(** The same slot with the same contents is the same byte. *)
Lemma fbyte_same s s' m p : let sl := data_slot (p / 4096) in slotv (view_of s') m sl = slotv (view_of s) m sl →
  (slotv (view_of s) m sl ≠ 0 → vblk s' (slotv (view_of s) m sl) = vblk s (slotv (view_of s) m sl)) → fbyte s' m p = fbyte s m p.
Proof.
  intros sl H1 H2. rewrite !fbyte_slot. fold sl. cbv zeta. rewrite H1. destruct (Z.eqb_spec (slotv (view_of s) m sl) 0); [done|]. by rewrite H2.
Qed.

(** ** Growing keeps the files *)

Lemma data_not_table V m lb m' st : view_ok V → lb_ok lb → slotv V m (data_slot lb) ≠ 0 → is_table st → slot_in st →
  slotv V m' st ≠ slotv V m (data_slot lb).
Proof.
  intros HV Hlb H0 Ht Hs E. symmetry in E. destruct (vo_inj V HV m (data_slot lb) m' st (data_slot_in lb Hlb) Hs H0 E) as [_ <-].
  by rewrite data_slot_data in Ht.
Qed.

Lemma ensured_fbyte s n lb s' sls m p : working s → ensured s n lb s' sls → lb_ok (p / 4096) → (m, p / 4096) ≠ (n, lb) → lb_ok lb →
  fbyte s' m p = fbyte s m p.
Proof.
  intros W En Hp Hne Hlb. pose proof (grows_grown n _ _ _ (w_view s W) (en_grows _ _ _ _ _ En)) as GR. apply fbyte_same.
  - apply (gr_same _ _ _ _ GR); [by apply data_slot_in|]. destruct (decide (m = n)) as [->|]; [right|by left].
    intros Hin. destruct (proj2 (en_slots _ _ _ _ _ En) _ Hin) as [E|E]; [|by rewrite data_slot_data in E].
    apply data_slot_inj in E; [congruence|done..].
  - intros H0. destruct (vo_used _ (w_view s W) m _ (data_slot_in _ Hp) H0) as [Hd Hb].
    apply (gr_blk _ _ _ _ GR); [done|done|]. intros m' st Ht Hs. by apply data_not_table; [apply W|..].
Qed.

(** A new block is not among those that wait to be written: it shows what the device holds. *)
Lemma ensured_stale s n lb s' sls : working s → ensured s n lb s' sls → lb_ok lb → let b := slotv (view_of s') n (data_slot lb) in
  vblk s' b = block (dev s) b.
Proof.
  intros W En Hlb b. pose proof (grows_grown n _ _ _ (w_view s W) (en_grows _ _ _ _ _ En)) as GR.
  destruct (gr_new _ _ _ _ GR _ (proj1 (en_slots _ _ _ _ _ En))) as (_ & _ & Hd & Hfree). fold b in Hd, Hfree.
  rewrite <-(mv_dev _ _ (en_moved _ _ _ _ _ En)). apply vblk_clean. intros Hin.
  destruct (en_dirty _ _ _ _ _ En b Hin) as [H|(_ & st & Ht & Hst & E & _)].
  - destruct (w_used s W b H) as [_ H2]. cbn in Hfree. congruence.
  - destruct (vo_inj _ (w_view s' (en_work _ _ _ _ _ En)) n st n (data_slot lb)) as [_ ->]; [done|by apply data_slot_in| |done|by rewrite data_slot_data in Ht].
    rewrite E. unfold data_block in Hd. lia.
Qed.

(** ** Writing a data block *)

Section put_data.
Context (s : ext3) (W : working s) (n : nat) (lb : Z) (Hlb : lb_ok lb) (data : list Z) (Hlen : length data = 4096%nat) (Hbytes : Forall is_byte data).
#[local] Set Default Proof Using "W Hlb Hlen Hbytes".
Let b := slotv (view_of s) n (data_slot lb).
Context (Hb : b ≠ 0) (Hclean : b ∉ dirty_blocks s).
#[local] Set Default Proof Using "W Hlb Hlen Hbytes Hb Hclean".
Let s' := ext3_mark_block_dirty b (Owned data) s.

Lemma put_vblk c : vblk s' c = put (vblk s) b data c.
Proof. unfold s'. rewrite mark_block_spec by apply W. unfold vblk, put. cbn. by case_decide. Qed.

Lemma put_slot m sl : slot_in sl → slotv (view_of s') m sl = slotv (view_of s) m sl.
Proof.
  intros Hs. unfold slotv. assert (v_ino (view_of s') = v_ino (view_of s)) as -> by (unfold s'; by rewrite mark_block_spec by apply W).
  destruct (v_ino (view_of s) !! m) as [j|] eqn:Ej; [|done]. cbn [view_of v_blk].
  apply slot_val_ext; [done|]. intros tb Ht Hin Hne. rewrite put_vblk. apply put_off.
  change (vblk s) with (v_blk (view_of s)) in *. rewrite <-(slotv_lookup (view_of s) m j tb Ej) in *.
  by apply data_not_table; [apply W|..].
Qed.

Lemma put_working : working s'.
Proof.
  pose proof (w_view s W) as HV. destruct (vo_used _ HV n _ (data_slot_in lb Hlb) Hb) as [Hd Hbit]. fold b in Hd, Hbit.
  assert (rootdirty s' = Dirty (d_super (rootdirty s)) (d_group (rootdirty s)) (d_inobmp (rootdirty s)) (d_blkbmp (rootdirty s))
    (d_inodirty (rootdirty s)) ((b, Owned data) :: d_blkdirty (rootdirty s)) ∧ dev s' = dev s ∧ k_answers s' = [] ∧
    inodes s' = inodes s ∧ block_bitmap s' = block_bitmap s ∧ dirblocks s' = dirblocks s) as (Hr & Hdev & Ha & Hi & Hbm & Hdb).
  { unfold s'. rewrite mark_block_spec by apply W. cbn. by rewrite (w_ans s W). }
  apply mk_working; [rewrite Hdev; apply W|done| | | |].
  - constructor; cbn [v_blk v_ino v_bm view_of]; rewrite ?Hi, ?Hbm; try apply HV.
    + intros c. rewrite put_vblk. unfold put. case_decide; [done|]. apply HV.
    + intros m sl H1 H2. rewrite put_slot in * by done. by apply HV.
    + intros m sl m' sl' H1 H2 H3 H4. rewrite !put_slot in * by done. by apply HV.
  - unfold dirty_blocks. rewrite Hr. cbn. constructor; [done|apply W].
  - intros c x. rewrite Hr, Hdb. cbn. intros [[= -> ->]|Hin]%elem_of_cons; [by eexists|by apply (w_bytes s W c)].
  - intros c. unfold dirty_blocks. rewrite Hr, Hbm. cbn. intros [->|Hin]%elem_of_cons; [done|by apply W].
Qed.

Lemma put_fbyte m p : lb_ok (p / 4096) → fbyte s' m p = if decide ((m, p / 4096) = (n, lb)) then nth (Z.to_nat (p mod 4096)) data 0 else fbyte s m p.
Proof.
  intros Hp. case_decide as E.
  - injection E as -> El. rewrite fbyte_slot, El. cbv zeta. rewrite put_slot by by apply data_slot_in. fold b.
    destruct (Z.eqb_spec b 0); [done|]. by rewrite put_vblk, put_at.
  - apply fbyte_same; [apply put_slot; by apply data_slot_in|]. intros H0. rewrite put_vblk. apply put_off. intros Ec.
    destruct (vo_inj _ (w_view s W) m _ n _ (data_slot_in _ Hp) (data_slot_in _ Hlb) H0 Ec) as [-> Es].
    apply data_slot_inj in Es; [congruence|done..].
Qed.
End put_data.

(** ** What the chunks still to come rely on *)

(** Blocks [cur] to [last] of inode [n] are still to be written: the device shows the slots
    on their way, none of them waits in memory, and past the direct blocks at most block
    [x] has to be allocated. *)
Record ready (s : ext3) (n : nat) (i : ext3_inode) (cur last x : Z) : Prop := {
  rd_path : ∀ lb, cur ≤ lb ≤ last → ∀ sl, sl ∈ path lb → dslot s i sl = slotv (view_of s) n sl;
  rd_clean : ∀ lb, cur ≤ lb ≤ last → slotv (view_of s) n (data_slot lb) ∉ dirty_blocks s;
  rd_one : ∀ lb, cur ≤ lb ≤ last → lb ≤ 11 ∨ lb = x ∨ slotv (view_of s) n (data_slot lb) ≠ 0;
  rd_tabs : cur ≤ x ≤ last → 11 < x → slotv (view_of s) n (data_slot x) = 0 → clean s n;
  rd_free : last - cur + 1 + (if decide (cur ≤ x ≤ last) then 2 else 0) ≤ Z.of_nat (free_count (block_bitmap s)) }.

Definition root (sl : slot) : slot := match sl with Direct k => Direct k | IndT | Ind _ => IndT | _ => DindT end.

Lemma path_root lb sl : sl ∈ path lb → root sl ∈ path lb.
Proof. unfold path. zcases; rewrite !elem_of_cons, ?elem_of_nil; naive_solver. Qed.

(** The way to a block that is there is there. *)
Lemma path_mapped V n lb sl : slotv V n (data_slot lb) ≠ 0 → sl ∈ path lb → slotv V n sl ≠ 0.
Proof.
  unfold slotv. destruct (v_ino V !! n) as [i|]; [|done]. unfold data_slot, path. zcases; rewrite !elem_of_cons, elem_of_nil; cbn [slot_val].
  - by intros ? [->|[]].
  - intros Hs. pose proof (entry_nonzero _ _ _ Hs). by intros [->|[->|[]]].
  - intros Hs. pose proof (entry_nonzero _ _ _ Hs) as Hl. pose proof (entry_nonzero _ _ _ Hl). by intros [->|[->|[->|[]]]].
Qed.

Lemma path_other lb cur : lb ≠ cur → lb_ok lb → lb_ok cur → data_slot cur ∉ path lb.
Proof.
  intros Hne H1 H2 Hin. assert (data_slot cur = data_slot lb) as E; [|apply data_slot_inj in E; [done..|congruence]].
  pose proof (data_slot_data cur) as Ht. unfold path in Hin. unfold data_slot at 2. zcases;
    rewrite !elem_of_cons, elem_of_nil in Hin; repeat destruct Hin as [Hin|Hin]; try done; by rewrite Hin in Ht.
Qed.

Lemma dslot_root s s' i i' n sl : dev s' = dev s → inodes s !! n = Some i → inodes s' !! n = Some i' →
  slotv (view_of s') n (root sl) = slotv (view_of s) n (root sl) → dslot s' i' sl = dslot s i sl.
Proof.
  intros Hd Hi Hi'. rewrite (slotv_lookup (view_of s) n i), (slotv_lookup (view_of s') n i') by done. unfold dslot. rewrite Hd.
  destruct sl; cbn [root slot_val]; by intros ->.
Qed.

Lemma zero_clean t (Wt : working t) : 0 ∉ dirty_blocks t.
Proof. intros Hin. destruct (w_used t Wt 0 Hin) as [Hd _]. unfold data_block in Hd. lia. Qed.

(** A direct block takes no table. *)
Lemma direct_no_table s n lb s' sls st : ensured s n lb s' sls → lb ≤ 11 → is_table st → st ∉ sls.
Proof.
  intros En Hc Ht Hin. pose proof (en_few _ _ _ _ _ En) as Hf. rewrite decide_True in Hf by done. pose proof (proj1 (en_slots _ _ _ _ _ En)) as Hd.
  destruct sls as [|a [|]]; [by apply not_elem_of_nil in Hin| |cbn in Hf; lia]. apply list_elem_of_singleton in Hd, Hin. subst.
  by rewrite data_slot_data in Ht.
Qed.

Section chunk.
Context (s : ext3) (W : working s) (n : nat) (i : ext3_inode) (Hn : inodes s !! n = Some i) (cur last x : Z).
Context (H0 : 0 ≤ cur ≤ last) (Hlast : last < 2 ^ 20) (R : ready s n i cur last x).
#[local] Set Default Proof Using "W Hn H0 Hlast R".
Let b0 := slotv (view_of s) n (data_slot cur).

Lemma cur_ok lb : cur ≤ lb ≤ last → lb_ok lb.
Proof. unfold lb_ok. lia. Qed.

Lemma ready_dslot lb : cur ≤ lb ≤ last → dslot_ok s i lb ∧ dslot s i (data_slot lb) = slotv (view_of s) n (data_slot lb).
Proof.
  intros Hlb. split; [|by apply (rd_path _ _ _ _ _ _ R lb Hlb), path_data]. intros sl Hsl.
  rewrite (rd_path _ _ _ _ _ _ R lb Hlb sl Hsl). apply W. by apply (path_in lb); [apply cur_ok|].
Qed.

(** What [ext3_inode_ensure_block] leaves: nothing new, or block [cur] and its tables. *)
Lemma chunk_ensure : ∃ s1 sls, ext3_inode_ensure_block (Z.of_nat n + 1) cur s = Ret (slotv (view_of s1) n (data_slot cur), s1) ∧
  slotv (view_of s1) n (data_slot cur) ≠ 0 ∧ working s1 ∧ moved s s1 ∧ (b0 ≠ 0 ∧ s1 = s ∧ sls = [] ∨ b0 = 0 ∧ ensured s n cur s1 sls).
Proof.
  destruct (ready_dslot cur ltac:(lia)) as [Hd Ed]. destruct (decide (b0 = 0)) as [Hz|Hnz].
  - destruct (ensure_new s W n i Hn cur) as (s1 & sls & E & En); [apply cur_ok; lia|done| | |].
    + pose proof (rd_free _ _ _ _ _ _ R). case_decide; lia.
    + destruct (rd_one _ _ _ _ _ _ R cur ltac:(lia)) as [|[->|]]; [by left| |done].
      destruct (decide (x ≤ 11)); [by left|right]. split; [|apply (rd_tabs _ _ _ _ _ _ R); [lia|lia|done]].
      pose proof (rd_free _ _ _ _ _ _ R) as Hf. rewrite decide_True in Hf by lia. lia.
    + exists s1, sls. split; [done|]. pose proof (grows_grown n _ _ _ (w_view s W) (en_grows _ _ _ _ _ En)) as GR.
      destruct (gr_new _ _ _ _ GR _ (proj1 (en_slots _ _ _ _ _ En))) as (_ & _ & Hdb & _).
      split; [unfold data_block in Hdb; lia|]. split; [apply En|]. split; [apply En|]. by right.
  - exists s, []. rewrite (ensure_mapped s W n i Hn cur) by (done || (apply cur_ok; lia) || by rewrite Ed).
    rewrite Ed. split; [done|]. split; [done|]. split; [done|]. split; [done|]. by left.
Qed.

Context (s1 : ext3) (sls : list slot) (W1 : working s1) (M : moved s s1) (Hb : slotv (view_of s1) n (data_slot cur) ≠ 0).
Context (Hcase : b0 ≠ 0 ∧ s1 = s ∧ sls = [] ∨ b0 = 0 ∧ ensured s n cur s1 sls).
#[local] Set Default Proof Using "W Hn H0 Hlast R W1 M Hb Hcase".

Lemma chunk_grown : grown n (view_of s) sls (view_of s1).
Proof.
  destruct Hcase as [(_ & -> & ->)|[_ En]]; [by apply grown_nil; [apply W|]|]. apply grows_grown; [apply W|apply En].
Qed.

(** The slots taken are not on the way to later blocks. *)
Lemma chunk_later lb sl : cur < lb ≤ last → sl ∈ path lb → sl ∉ sls.
Proof.
  intros Hlb Hp Hin. destruct Hcase as [(_ & _ & ->)|[Hz En]]; [by apply not_elem_of_nil in Hin|].
  destruct (proj2 (en_slots _ _ _ _ _ En) sl Hin) as [->|Ht].
  { by apply (path_other lb cur) in Hp; [|lia|apply cur_ok; lia..]. }
  destruct (rd_one _ _ _ _ _ _ R cur ltac:(lia)) as [Hc|[Hc|]]; [| |done].
  - by apply (direct_no_table _ _ _ _ _ _ En Hc Ht).
  - destruct (rd_one _ _ _ _ _ _ R lb ltac:(lia)) as [Hl|[Hl|Hm]]; [|lia|].
    + unfold path in Hp. destruct (Z.leb_spec lb 11); [|lia]. apply list_elem_of_singleton in Hp. by rewrite Hp in Ht.
    + destruct (gr_new _ _ _ _ chunk_grown sl Hin) as (_ & Hs & _). by apply (path_mapped _ _ _ _ Hm Hp).
Qed.

Lemma chunk_later_slot lb sl : cur < lb ≤ last → sl ∈ path lb → slotv (view_of s1) n sl = slotv (view_of s) n sl.
Proof.
  intros Hlb Hp. apply (gr_same _ _ _ _ chunk_grown); [by apply (path_in lb); [apply cur_ok; lia|]|]. right. by eapply chunk_later.
Qed.

Lemma chunk_dirty c : c ∈ dirty_blocks s1 → c ∈ dirty_blocks s ∨
  (11 < cur ∧ b0 = 0 ∧ ∃ st, is_table st ∧ slot_in st ∧ slotv (view_of s1) n st = c ∧ c ≠ 0).
Proof.
  destruct Hcase as [(_ & -> & _)|[Hz En]]; [by left|]. intros Hc. destruct (en_dirty _ _ _ _ _ En c Hc) as [|[? ?]]; [by left|by right].
Qed.

Lemma chunk_clean : slotv (view_of s1) n (data_slot cur) ∉ dirty_blocks s1.
Proof.
  intros Hd. destruct Hcase as [(_ & -> & _)|[Hz En]]; [by apply (rd_clean _ _ _ _ _ _ R cur ltac:(lia))|].
  destruct (en_dirty _ _ _ _ _ En _ Hd) as [Hin|(_ & st & H1 & H2 & H3 & _)].
  - destruct (gr_new _ _ _ _ chunk_grown _ (proj1 (en_slots _ _ _ _ _ En))) as (_ & _ & _ & Hf).
    destruct (w_used s W _ Hin). cbn [view_of v_bm] in Hf. congruence.
  - apply (data_not_table _ n cur n st (w_view s1 W1)) in H3; [done|apply cur_ok; lia|done..].
Qed.

(** The inode after the chunk: only its numbers of blocks can differ. *)
Lemma chunk_inode : ∃ l, inodes s1 = alter (with_block l) n (inodes s).
Proof. destruct Hcase as [(_ & -> & _)|[_ En]]; [eexists; by apply alter_same|apply En]. Qed.

Lemma chunk_free : last - (cur + 1) + 1 + (if decide (cur + 1 ≤ x ≤ last) then 2 else 0) ≤ Z.of_nat (free_count (block_bitmap s1)).
Proof.
  pose proof (rd_free _ _ _ _ _ _ R) as Hf. pose proof (gr_free _ _ _ _ chunk_grown) as Hg. cbn [view_of v_bm] in Hg.
  destruct Hcase as [(_ & _ & ->)|[Hz En]]; [cbn [length] in Hg; repeat case_decide; lia|].
  pose proof (en_few _ _ _ _ _ En) as He. destruct (rd_one _ _ _ _ _ _ R cur ltac:(lia)) as [Hc|[Hc|]]; [| |done];
    repeat case_decide; lia.
Qed.

Context (data : list Z) (Hlen : length data = 4096%nat) (Hbytes : Forall is_byte data).
#[local] Set Default Proof Using "W Hn H0 Hlast R W1 M Hb Hcase Hlen Hbytes".
Let s2 := ext3_mark_block_dirty (slotv (view_of s1) n (data_slot cur)) (Owned data) s1.

Lemma chunk_slot m sl : slot_in sl → slotv (view_of s2) m sl = slotv (view_of s1) m sl.
Proof. apply put_slot; try done; [apply cur_ok; lia|]. apply chunk_clean. Qed.

Lemma chunk_dirty2 c : c ∈ dirty_blocks s2 → c = slotv (view_of s1) n (data_slot cur) ∨ c ∈ dirty_blocks s1.
Proof. unfold dirty_blocks, s2. rewrite mark_block_spec by apply W1. cbn. by rewrite elem_of_cons. Qed.

(** A slot that is not [cur]'s and held a clean block before is clean still. *)
Lemma chunk_still_clean sl : slot_in sl → sl ∉ sls → slotv (view_of s) n sl ≠ 0 → slotv (view_of s) n sl ∉ dirty_blocks s →
  sl ≠ data_slot cur → (is_table sl = false ∨ cur ≤ 11 ∨ b0 ≠ 0) → slotv (view_of s2) n sl ∉ dirty_blocks s2.
Proof.
  intros Hs Hns Hnz Hcl Hne Hor Hd. rewrite chunk_slot in Hd by done.
  assert (slotv (view_of s1) n sl = slotv (view_of s) n sl) as E by (apply (gr_same _ _ _ _ chunk_grown); auto).
  apply chunk_dirty2 in Hd as [Hd|Hd].
  - apply Hne. assert (slotv (view_of s1) n sl ≠ 0) as H1 by congruence.
    by destruct (vo_inj _ (w_view s1 W1) n sl n _ Hs (data_slot_in cur ltac:(apply cur_ok; lia)) H1 Hd).
  - apply chunk_dirty in Hd as [Hd|(Hc & Hz & st & H1 & H2 & H3 & H4)]; [by rewrite E in Hd|].
    destruct Hor as [Ht|[|]]; [|lia|done]. symmetry in H3. assert (slotv (view_of s1) n sl ≠ 0) as H5 by congruence.
    destruct (vo_inj _ (w_view s1 W1) n sl n st Hs H2 H5 H3) as [_ ->]. by rewrite Ht in H1.
Qed.

Lemma chunk_working : working s2.
Proof. apply put_working; try done; [apply cur_ok; lia|]. apply chunk_clean. Qed.

Lemma chunk_ready i2 : inodes s2 !! n = Some i2 → ready s2 n i2 (cur + 1) last x.
Proof.
  intros Hi2. assert (dev s2 = dev s) as Hdev by (unfold s2; rewrite mark_block_spec by apply W1; apply M).
  assert (∀ lb sl, cur < lb ≤ last → sl ∈ path lb → slotv (view_of s2) n sl = slotv (view_of s) n sl) as Hlater.
  { intros lb sl Hlb Hp. rewrite chunk_slot by (apply (path_in lb); [apply cur_ok; lia|done]). by apply (chunk_later_slot lb). }
  constructor.
  - intros lb Hlb sl Hp. rewrite (Hlater lb) by (done || lia). rewrite (dslot_root s s2 i i2 n sl Hdev Hn Hi2).
    + apply (rd_path _ _ _ _ _ _ R lb); [lia|done].
    + apply (Hlater lb); [lia|by apply path_root].
  - intros lb Hlb. destruct (decide (slotv (view_of s) n (data_slot lb) = 0)) as [E|E].
    + rewrite (Hlater lb), E by (lia || apply path_data). apply zero_clean, chunk_working.
    + apply chunk_still_clean; [apply data_slot_in, cur_ok; lia| |done| | |left; apply data_slot_data].
      * apply (chunk_later lb); [lia|apply path_data].
      * apply (rd_clean _ _ _ _ _ _ R). lia.
      * intros Ed. apply data_slot_inj in Ed; [lia|apply cur_ok; lia..].
  - intros lb Hlb. rewrite (Hlater lb) by (lia || apply path_data). apply (rd_one _ _ _ _ _ _ R). lia.
  - intros Hx H11. rewrite (Hlater x) by (lia || apply path_data). intros Hz. pose proof (rd_tabs _ _ _ _ _ _ R ltac:(lia) H11 Hz) as Hcl.
    assert (cur ≤ 11 ∨ b0 ≠ 0) as Hc by (destruct (rd_one _ _ _ _ _ _ R cur ltac:(lia)) as [|[]]; [by left|lia|by right]).
    intros st Ht Hs Hnz. assert (st ∉ sls) as Hns.
    { destruct Hcase as [(_ & _ & ->)|[Hbz En]]; [apply not_elem_of_nil|]. destruct Hc as [Hc|]; [|done]. by eapply direct_no_table. }
    assert (slotv (view_of s2) n st = slotv (view_of s) n st) as E.
    { rewrite chunk_slot by done. apply (gr_same _ _ _ _ chunk_grown); auto. }
    rewrite E in Hnz. apply chunk_still_clean; [done|done|done|by apply Hcl| |by right].
    intros ->. by rewrite data_slot_data in Ht.
  - unfold s2. rewrite mark_block_spec by apply W1. apply chunk_free.
Qed.
End chunk.

(** ** Bytes put into a block *)

Lemma store_nth (l d : list Z) o : 0 ≤ o → o + Z.of_nat (length d) ≤ Z.of_nat (length l) → Forall is_byte l → Forall is_byte d →
  ∃ l', store_bytes l o d = Ret l' ∧ length l' = length l ∧ Forall is_byte l' ∧
    ∀ k, 0 ≤ k → nth (Z.to_nat k) l' 0 = if decide (o ≤ k < o + Z.of_nat (length d)) then nth (Z.to_nat (k - o)) d 0 else nth (Z.to_nat k) l 0.
Proof.
  intros Ho Hl Hb Hd. destruct (store_bytes_Ret l o d Ho Hl) as (l' & E & Hlen & Hk). exists l'. split; [done|]. split; [done|]. split.
  - apply Forall_lookup. intros k v Hv. rewrite Hk in Hv. destruct (decide _) in Hv; [by eapply (Forall_lookup_1 _ d)|by eapply (Forall_lookup_1 _ l)].
  - intros k Hk0. rewrite !nth_lookup, Hk. repeat case_decide; try lia. do 2 f_equal. lia.
Qed.

Lemma load_nth (l : list Z) o c : 0 ≤ o → 0 ≤ c → o + c ≤ Z.of_nat (length l) →
  ∃ d, load_bytes l o c = Ret d ∧ Z.of_nat (length d) = c ∧ (Forall is_byte l → Forall is_byte d) ∧
    ∀ k, 0 ≤ k < c → nth (Z.to_nat k) d 0 = nth (Z.to_nat (o + k)) l 0.
Proof.
  intros Ho Hc Hl. rewrite load_bytes_Ret by done. eexists. split; [done|]. split; [rewrite length_take, length_drop; lia|].
  split; [intros Hb; by apply Forall_take, Forall_drop|]. intros k Hk.
  rewrite !nth_lookup, lookup_take_lt, lookup_drop by lia. do 2 f_equal. lia.
Qed.

Lemma chunk_bounds pos left : 0 ≤ pos → 0 < left → let c := chunk_size pos left in
  0 < c ≤ left ∧ pos mod 4096 + c ≤ 4096 ∧ (c = left ∨ pos mod 4096 + c = 4096).
Proof.
  intros Hp Hl. unfold chunk_size. change BLOCK_SIZE with 4096. cbv zeta. pose proof (Z.mod_pos_bound pos 4096).
  destruct (Z.ltb_spec left (4096 - pos mod 4096)); lia.
Qed.

(** The bytes at offsets of one block. *)
Lemma in_block p pos c : 0 ≤ pos → 0 < c → pos mod 4096 + c ≤ 4096 → pos ≤ p < pos + c →
  p / 4096 = pos / 4096 ∧ p mod 4096 = pos mod 4096 + (p - pos).
Proof.
  intros. pose proof (Z.div_mod pos 4096). pose proof (Z.mod_pos_bound pos 4096). pose proof (Z.div_mod p 4096).
  assert (p / 4096 = pos / 4096) by (symmetry; apply (Z.div_unique _ _ _ (pos mod 4096 + (p - pos))); lia). lia.
Qed.

(** ** Writing *)

Section write.
Context (n : nat) (buf : list Z) (base count x : Z) (Hbytes : Forall is_byte buf) (Hbase : 0 ≤ base).
Context (Hcount : 0 ≤ count ≤ Z.of_nat (length buf)) (Hend : base + count < 2 ^ 32).
#[local] Set Default Proof Using "Hbytes Hbase Hcount Hend".
Let last := (base + count - 1) / 4096.

(** Bytes [from] to [to] of the buffer are in the file, and nothing else is different. *)
Record wrote (s : ext3) (from to : Z) (s' : ext3) : Prop := {
  wr_work : working s';
  wr_moved : moved s s';
  wr_inode : ∃ l, inodes s' = alter (with_block l) n (inodes s);
  wr_bytes : ∀ m p, 0 ≤ p < 2 ^ 32 → fbyte s' m p =
    if decide (m = n ∧ base + from ≤ p < base + to) then nth (Z.to_nat (p - base)) buf 0 else fbyte s m p }.

(** The buffer of one block: what was there, with the chunk in it. *)
Lemma chunk_buffer s i total : working s → inodes s !! n = Some i → 0 ≤ total < count → let pos := base + total in
  let b0 := slotv (view_of s) n (data_slot (pos / 4096)) in b0 ∉ dirty_blocks s →
  ∃ d l, load_bytes buf total (chunk_size pos (count - total)) = Ret d ∧
    store_bytes (if negb (b0 =? 0) then block (dev s) b0 else replicate 4096 0) (pos mod 4096) d = Ret l ∧
    length l = 4096%nat ∧ Forall is_byte l ∧
    ∀ p, 0 ≤ p → p / 4096 = pos / 4096 → nth (Z.to_nat (p mod 4096)) l 0 =
      if decide (pos ≤ p < pos + chunk_size pos (count - total)) then nth (Z.to_nat (p - base)) buf 0 else fbyte s n p.
Proof.
  intros Ws Hn Ht pos b0 Hb0. destruct (chunk_bounds pos (count - total)) as (Hc & Hle & _); [lia|lia|].
  set (c := chunk_size pos (count - total)) in *. pose proof (Z.mod_pos_bound pos 4096).
  destruct (load_nth buf total c) as (d & Ed & Hdl & Hdb & Hdk); [lia..|].
  set (l0 := if negb (b0 =? 0) then _ else _). assert (length l0 = 4096%nat ∧ Forall is_byte l0) as [Hl0 Hf0].
  { unfold l0. destruct (negb _); [by apply block_ok, Ws|]. split; [apply length_replicate|by apply Forall_replicate]. }
  destruct (store_nth l0 d (pos mod 4096)) as (l & El & Hll & Hlb & Hlk); [lia|lia|done|by apply Hdb|].
  exists d, l. split; [done|]. split; [done|]. split; [lia|]. split; [done|]. intros p Hp Hpb.
  rewrite Hlk by (by apply Z.mod_pos_bound). rewrite Hdl. pose proof (Z.div_mod p 4096). pose proof (Z.div_mod pos 4096).
  destruct (decide (pos ≤ p < pos + c)).
  - rewrite decide_True by lia. rewrite Hdk by lia. f_equal. lia.
  - rewrite decide_False by lia. rewrite fbyte_slot, Hpb. fold b0. cbv zeta. unfold l0.
    destruct (Z.eqb_spec b0 0); cbn [negb]; [|by rewrite vblk_clean]. rewrite nth_lookup.
    destruct (replicate 4096 0 !! _) as [v|] eqn:E; [|done]. by apply lookup_replicate in E as [-> _].
Qed.

(** One iteration. *)
Lemma write_step fuel s i total : working s → inodes s !! n = Some i → 0 ≤ total < count → let pos := base + total in
  ready s n i (pos / 4096) last x → let c := chunk_size pos (count - total) in
  ∃ s', write_loop (S fuel) (Z.of_nat n + 1) base buf total count s = write_loop fuel (Z.of_nat n + 1) base buf (total + c) count s' ∧
    wrote s total (total + c) s' ∧ ∀ i', inodes s' !! n = Some i' → ready s' n i' (pos / 4096 + 1) last x.
Proof.
  intros Ws Hn Ht pos R c. set (cur := pos / 4096) in *.
  assert (0 ≤ cur ≤ last) as H0 by (split; [apply Z.div_pos; lia|apply Z.div_le_mono; lia]).
  assert (last < 2 ^ 20) as Hlast by (apply Z.div_lt_upper_bound; lia). assert (lb_ok cur) as Hcur by (unfold lb_ok; lia).
  destruct (chunk_ensure s Ws n i Hn cur last x H0 Hlast R) as (s1 & sls & Ee & Hb & W1 & M & Hcase).
  destruct (ready_dslot s Ws n i Hn cur last x H0 Hlast R cur ltac:(lia)) as [Hd Ed].
  pose proof (chunk_clean s Ws n i Hn cur last x H0 Hlast R s1 sls W1 M Hb Hcase) as Hcl.
  destruct (vo_used _ (w_view s1 W1) n _ (data_slot_in cur Hcur) Hb) as [Hdb _].
  destruct (chunk_buffer s i total Ws Hn Ht) as (d & l & El & Es & Hll & Hlb & Hlk); [exact (rd_clean _ _ _ _ _ _ R cur ltac:(lia))|].
  fold pos cur c in El, Es, Hlk. pose proof (Ext3Write.chunk_inode s Ws n i Hn cur last x H0 Hlast R s1 sls W1 M Hb Hcase) as [li Hli].
  set (b := slotv (view_of s1) n (data_slot cur)) in *. set (s2 := ext3_mark_block_dirty b (Owned l) s1).
  exists s2. split; [|split].
  - cbn [write_loop]. destruct (Z.ltb_spec total count); [|lia]. cbn [negb]. change BLOCK_SIZE with 4096.
    rewrite u32_small by (unfold is_u32, U32; lia). fold pos c. fold cur. rewrite (get_inode_Ret s n i Hn), bind_ret.
    rewrite get_block_spec, bind_ret by (done || apply Ws || exact (ino_ok s Ws n i Hn)). cbv beta iota. rewrite Ee, bind_ret. cbv beta iota.
    destruct (Z.eqb_spec b 0); [done|]. unfold kalloc. rewrite (w_ans s1 W1). cbn [negb]. rewrite El, bind_ret, Ed.
    rewrite data_lba by done. destruct (data_block_u32 b Hdb) as [-> _].
    replace (raw_read (dev s1) (8 * b) (4096 / FDC_SECTOR_SIZE)) with (block (dev s) b) by (unfold block; by rewrite (mv_dev _ _ M)).
    replace (if negb (slotv (view_of s) n (data_slot cur) =? 0) then block (dev s) b else replicate 4096 0) with
      (if negb (slotv (view_of s) n (data_slot cur) =? 0) then block (dev s) (slotv (view_of s) n (data_slot cur)) else replicate 4096 0).
    + rewrite Es, bind_ret. done.
    + destruct Hcase as [(Hnz & -> & _)|[-> _]]; done.
  - constructor.
    + apply (chunk_working s Ws n i Hn cur last x H0 Hlast R s1 sls W1 M Hb Hcase l Hll Hlb).
    + etrans; [exact M|]. apply moved_block, W1.
    + exists li. unfold s2. by rewrite mark_block_spec by apply W1.
    + intros m p Hp. unfold s2. assert (lb_ok (p / 4096)) as Hpb by (split; [apply Z.div_pos; lia|apply Z.div_lt_upper_bound; lia]).
      unfold b. rewrite (put_fbyte s1 W1 n cur Hcur l Hll Hlb Hb Hcl m p Hpb). destruct (chunk_bounds pos (count - total)) as (Hc & Hle & _); [lia|lia|].
      case_decide as E.
      * injection E as -> Epb. rewrite Hlk by (done || lia). unfold pos. destruct (decide (base + total ≤ p < base + total + c)).
        -- by rewrite decide_True by lia.
        -- rewrite decide_False by lia. done.
      * replace (fbyte s1 m p) with (fbyte s m p).
        -- rewrite decide_False; [done|]. intros [-> Hr]. apply E. f_equal. apply (in_block p pos c); lia.
        -- destruct Hcase as [(_ & -> & _)|[_ En]]; [done|]. symmetry. by eapply ensured_fbyte.
  - apply (chunk_ready s Ws n i Hn cur last x H0 Hlast R s1 sls W1 M Hb Hcase l Hll Hlb).
Qed.

Lemma wrote_trans s a b c s1 s2 : wrote s a b s1 → wrote s1 b c s2 → a ≤ b ≤ c → wrote s a c s2.
Proof.
  intros [A1 A2 [l1 A3] A4] [B1 B2 [l2 B3] B4] Hab. constructor; [done|by etrans| |].
  - exists l2. rewrite B3, A3. apply list_eq. intros j. destruct (decide (j = n)) as [->|]; [|by rewrite !list_lookup_alter_ne].
    rewrite !list_lookup_alter_eq. by destruct (inodes s !! n).
  - intros m p Hp. rewrite B4, A4 by done. repeat case_decide; (done || lia).
Qed.

Lemma write_loop_spec fuel s i total : working s → inodes s !! n = Some i → 0 ≤ total ≤ count →
  (total < count → ready s n i ((base + total) / 4096) last x) →
  (1 ≤ fuel)%nat → (total < count → (base + total) mod 4096 + (count - total) ≤ 4096 * (Z.of_nat fuel - 1)) →
  ∃ s', write_loop fuel (Z.of_nat n + 1) base buf total count s = Ret (count, s') ∧ wrote s total count s'.
Proof.
  revert s i total. induction fuel as [|fuel IH]; [lia|]. intros s i total Ws Hn Ht R _ Hf.
  destruct (decide (total = count)) as [->|Hne].
  - exists s. cbn [write_loop]. destruct (Z.ltb_spec count count); [lia|]. split; [done|].
    constructor; [done|done|eexists; by apply alter_same|]. intros m p Hp. rewrite decide_False by lia. done.
  - destruct (chunk_bounds (base + total) (count - total)) as (Hc & Hle & Hend'); [lia|lia|].
    specialize (Hf ltac:(lia)). pose proof (Z.mod_pos_bound (base + total) 4096 ltac:(lia)).
    destruct (write_step fuel s i total Ws Hn ltac:(lia) (R ltac:(lia))) as (s1 & -> & Wr & R1).
    set (c := chunk_size (base + total) (count - total)) in *.
    destruct (wr_inode _ _ _ _ Wr) as [l El]. assert (inodes s1 !! n = Some (with_block l i)) as Hn1 by by rewrite El, list_lookup_alter_eq, Hn.
    destruct (IH s1 _ (total + c) (wr_work _ _ _ _ Wr) Hn1) as (s2 & E & Wr2); [lia| |lia| |].
    + intros Hlt. replace ((base + (total + c)) / 4096) with ((base + total) / 4096 + 1); [by apply R1|].
      pose proof (Z.div_mod (base + total) 4096). apply (Z.div_unique _ _ _ 0); lia.
    + intros Hlt. replace ((base + (total + c)) mod 4096) with 0; [lia|].
      pose proof (Z.div_mod (base + total) 4096). apply (Z.mod_unique _ _ ((base + total) / 4096 + 1)); lia.
    + exists s2. split; [done|]. eapply wrote_trans; [done..|lia].
Qed.
End write.
