(* ===== verification/Ext3Sync.v ===== *)
(** * The file system: flushing and mounting

    What is marked as dirty reaches the device in [ext3_flush], and what the device holds
    then is what mounting reads back. *)

From S2P Require Import Prelude Ring Words Bytes Ext3 Ext3Bits Ext3View Ext3Ops Ext3Ensure.

(** ** The tables on the device *)

Definition ino_sector (s : ext3) (k : nat) : list Z := concat (inode_bytes <$> take 4 (drop (4 * k) (inodes s))).

Record tables_ok (s : ext3) : Prop := {
  to_super : super_ok (super_block s);
  to_group : group_ok (group_descs s);
  to_inodes : length (inodes s) = 256%nat ∧ Forall inode_ok (inodes s) ∧ Forall inode_meta (inodes s);
  to_blkbmp : bitmap_ok (block_bitmap s);
  to_inobmp : bitmap_ok (inode_bitmap s) }.

Record stored (d : gmap Z (list Z)) (s : ext3) : Prop := {
  sd_super : raw_read d 2 2 = super_bytes (super_block s);
  sd_group : raw_read d 8 8 = group_bytes (group_descs s);
  sd_blkbmp : raw_read d 16 8 = block_bitmap s;
  sd_inobmp : raw_read d 24 8 = inode_bitmap s;
  sd_inodes : ∀ k, (k < 64)%nat → sector d (32 + Z.of_nat k) = ino_sector s k }.

(** What is not marked is on the device. *)
Record lag (s : ext3) : Prop := {
  lg_super : d_super (rootdirty s) = false → raw_read (dev s) 2 2 = super_bytes (super_block s);
  lg_group : d_group (rootdirty s) = false → raw_read (dev s) 8 8 = group_bytes (group_descs s);
  lg_blkbmp : d_blkbmp (rootdirty s) = false → raw_read (dev s) 16 8 = block_bitmap s;
  lg_inobmp : d_inobmp (rootdirty s) = false → raw_read (dev s) 24 8 = inode_bitmap s;
  lg_inodes : ∀ k, (k < 64)%nat → sector (dev s) (32 + Z.of_nat k) = ino_sector s k ∨
    ∃ m, (4 * k ≤ m < 4 * k + 4)%nat ∧ Z.of_nat m + 1 ∈ d_inodirty (rootdirty s);
  lg_range : ∀ k, k ∈ d_inodirty (rootdirty s) → 1 ≤ k ≤ 256 }.

(** Operations keep it, because they mark what they change. *)
Lemma lag_moved s s' : length (inodes s) = 256%nat → moved s s' → lag s → lag s'.
Proof.
  intros Hl M L. destruct (mv_stamped s s' M) as [S1 S0 S2 S3 S4 S5 S6]. constructor; rewrite ?(mv_dev s s' M).
  - intros E. destruct S3 as [[-> H]|H]; [|congruence]. apply L. congruence.
  - intros E. destruct S4 as [[-> H]|H]; [|congruence]. apply L. congruence.
  - intros E. destruct S6 as [[-> H]|H]; [|congruence]. apply L. congruence.
  - intros E. destruct S5 as [[-> H]|H]; [|congruence]. apply L. congruence.
  - intros k Hk. destruct (lg_inodes s L k Hk) as [E|(m & Hm & Hin)]; [|right; exists m; auto].
    destruct (decide (Exists (fun m => Z.of_nat m + 1 ∈ d_inodirty (rootdirty s')) (seq (4 * k) 4))) as [He|He].
    + right. apply Exists_exists in He as (m & Hm & Hin). apply elem_of_seq in Hm. by exists m.
    + left. rewrite E. unfold ino_sector. do 2 f_equal. apply list_eq. intros j.
      destruct (decide (j < 4)%nat) as [Hj|]; [|by rewrite !lookup_take_ge by lia]. rewrite !lookup_take_lt, !lookup_drop by done.
      destruct (S2 (4 * k + j)%nat) as [|Hin]; [done|]. destruct He. apply Exists_exists. exists (4 * k + j)%nat.
      split; [apply elem_of_seq; lia|done].
  - intros k Hk. destruct (S0 k Hk) as [Hin|]; [by apply L|lia].
Qed.

(** Entries of a list without repetitions, and slices of equal pieces. *)
Lemma assoc_elem {A} b (l : list (Z * A)) x : NoDup l.*1 → (b, x) ∈ l → assoc b l = Some x.
Proof.
  induction l as [|[c y] l IH]; [intros _ H; by apply not_elem_of_nil in H|]. cbn [fmap list_fmap fst assoc]. intros [Hc Hnd]%NoDup_cons.
  intros [[= -> ->]|Hin]%elem_of_cons; [by rewrite decide_True|]. rewrite decide_False; [by apply IH|].
  intros ->. apply Hc. apply list_elem_of_fmap. by exists (c, x).
Qed.

Lemma inode_slice l k i : Forall inode_ok l → Forall inode_meta l → l !! k = Some i →
  slice (concat (inode_bytes <$> l)) (128 * k) 128 = inode_bytes i.
Proof.
  intros Ho Hm. revert k. induction l as [|j l IH]; intros k; [done|]. apply Forall_cons in Ho as [Ho1 Ho], Hm as [Hm1 Hm].
  destruct (inode_bytes_ok j Hm1 Ho1) as [Hl _]. cbn [fmap list_fmap concat]. destruct k as [|k].
  - intros [= ->]. by apply slice_here.
  - cbn [lookup list_lookup]. intros Hk. rewrite slice_skip by lia. rewrite Hl. replace (128 * S k - 128)%nat with (128 * k)%nat by lia. by apply IH.
Qed.

(** ** Writing the tables *)

Lemma write_if_spec b pos size l d lba k : dev_ok d → pos / 512 = lba → size / 512 = Z.of_nat k → length l = (512 * k)%nat → Forall is_byte l →
  ∃ d', write_if b pos size l d = Ret d' ∧ dev_ok d' ∧ (∀ n, ¬ (lba ≤ n < lba + Z.of_nat k) → sector d' n = sector d n) ∧
    ((b = false → raw_read d lba (Z.of_nat k) = l) → raw_read d' lba (Z.of_nat k) = l).
Proof.
  intros Hd Hp Hs Hl Hb. unfold write_if. change FDC_SECTOR_SIZE with 512. rewrite Hp, Hs. destruct b.
  - destruct (raw_write_spec d lba k l Hd) as (d' & E & Hw); [lia|done|]. exists d'. split; [done|]. split; [apply Hw|]. split.
    + intros n Hn. destruct Hw as [_ Hw]. by rewrite Hw, decide_False.
    + intros _. by eapply raw_read_written.
  - exists d. split; [done|]. split; [done|]. split; [done|]. auto.
Qed.

Section flush.
Context (s : ext3) (T : tables_ok s).
#[local] Set Default Proof Using "T".

Lemma ino_sector_ok k : (k < 64)%nat → length (ino_sector s k) = 512%nat ∧ Forall is_byte (ino_sector s k).
Proof.
  intros Hk. destruct (to_inodes s T) as (Hl & Ho & Hm). unfold ino_sector.
  assert (length (take 4 (drop (4 * k) (inodes s))) = 4%nat) as H4 by (rewrite length_take, length_drop; lia).
  pose proof (Forall_take _ 4 _ (Forall_drop _ (4 * k) _ Ho)) as H1. pose proof (Forall_take _ 4 _ (Forall_drop _ (4 * k) _ Hm)) as H2.
  destruct (take 4 _) as [|i1 [|i2 [|i3 [|i4 [|]]]]]; try done. rewrite !Forall_cons in H1, H2.
  destruct H1 as (A1 & A2 & A3 & A4 & _), H2 as (B1 & B2 & B3 & B4 & _).
  destruct (inode_bytes_ok i1 B1 A1), (inode_bytes_ok i2 B2 A2), (inode_bytes_ok i3 B3 A3), (inode_bytes_ok i4 B4 A4).
  cbn [fmap list_fmap concat]. rewrite !length_app. split; [cbn [length]; lia|]. rewrite !Forall_app. done.
Qed.

Lemma flush_inode_spec d m : dev_ok d → (m < 256)%nat → ∃ d', flush_inode s d (Z.of_nat m + 1) = Ret d' ∧ dev_ok d' ∧
  ∀ n, sector d' n = if decide (n = 32 + Z.of_nat (m / 4)) then ino_sector s (m / 4) else sector d n.
Proof.
  intros Hd Hm. assert (m / 4 < 64)%nat as Hk by (apply Nat.Div0.div_lt_upper_bound; lia). unfold flush_inode.
  change INODE_SIZE with 128. change FDC_SECTOR_SIZE with 512. change P_INODE_BLOCK with 16384.
  replace ((Z.of_nat m + 1 - 1) * 128 / 512) with (Z.of_nat (m / 4)).
  2: { replace (Z.of_nat m + 1 - 1) with (Z.of_nat m) by lia. change 512 with (4 * 128). rewrite Z.div_mul_cancel_r by lia. apply (Nat2Z.inj_div m 4). }
  replace (Z.of_nat (m / 4) * 512 / 128) with (4 * Z.of_nat (m / 4)).
  2: { replace (Z.of_nat (m / 4) * 512) with (4 * Z.of_nat (m / 4) * 128) by lia. by rewrite Z.div_mul. }
  rewrite load_bytes_Ret by (destruct (to_inodes s T) as (Hl & _); lia). rewrite bind_ret.
  replace (Z.to_nat (4 * Z.of_nat (m / 4))) with (4 * (m / 4))%nat by lia. change (Z.to_nat 4) with 4%nat.
  destruct (ino_sector_ok _ Hk) as [Hlen Hb]. fold (ino_sector s (m / 4)).
  destruct (raw_write_spec d (32 + Z.of_nat (m / 4)) 1 (ino_sector s (m / 4)) Hd) as (d' & E & Hw); [lia|done|].
  exists d'. split; [done|]. split; [apply Hw|]. intros n. destruct Hw as [_ Hw]. rewrite Hw. repeat case_decide; try lia; [|done].
  subst n. rewrite Z.sub_diag. change (512 * Z.to_nat 0)%nat with 0%nat. rewrite drop_0, take_ge by lia. done.
Qed.

Lemma flush_inodes_spec L d : dev_ok d → (∀ k, k ∈ L → 1 ≤ k ≤ 256) → ∃ d', foldM (flush_inode s) L d = Ret d' ∧ dev_ok d' ∧
  (∀ n, ¬ (32 ≤ n < 96) → sector d' n = sector d n) ∧
  ∀ k, (k < 64)%nat → sector d (32 + Z.of_nat k) = ino_sector s k ∨ (∃ m, (4 * k ≤ m < 4 * k + 4)%nat ∧ Z.of_nat m + 1 ∈ L) →
    sector d' (32 + Z.of_nat k) = ino_sector s k.
Proof.
  revert d. induction L as [|ino L IH]; intros d Hd HL.
  - exists d. split; [done|]. split; [done|]. split; [done|]. intros k Hk [|(m & _ & Hin)]; [done|]. by apply not_elem_of_nil in Hin.
  - pose proof (HL ino ltac:(by left)) as Hr. destruct (flush_inode_spec d (Z.to_nat (ino - 1)) Hd ltac:(lia)) as (d1 & E & Hd1 & H1).
    replace (Z.of_nat (Z.to_nat (ino - 1)) + 1) with ino in E by lia. set (q := (Z.to_nat (ino - 1) / 4)%nat) in *.
    assert (q < 64)%nat by (apply Nat.Div0.div_lt_upper_bound; lia).
    destruct (IH d1 Hd1) as (d' & E' & Hd' & Hout & Hin); [intros k Hk; apply HL; by right|]. exists d'.
    cbn [foldM]. rewrite E, bind_ret. split; [done|]. split; [done|]. split.
    + intros n Hn. rewrite Hout, H1 by done. by rewrite decide_False by lia.
    + intros k Hk Hor. apply Hin; [done|]. rewrite H1. case_decide as Ek; [left; f_equal; lia|].
      destruct Hor as [|(m & Hm & [Em|Hm']%elem_of_cons)]; [by left| |right; by exists m].
      destruct Ek. replace q with k; [done|]. unfold q. replace (Z.to_nat (ino - 1)) with m by lia.
      apply (Nat.div_unique m 4 k (m - 4 * k)); lia.
Qed.

(** ** Writing the blocks *)

Definition contents (x : pblock) : list Z := match x with Owned l => l | Shared d => default [] (dirblocks s !! d) end.

Lemma flush_block_spec d b x : dev_ok d → data_block b → length (contents x) = 4096%nat → Forall is_byte (contents x) →
  ∃ d', flush_block s d (b, x) = Ret d' ∧ written d (8 * b) 8 (contents x) d'.
Proof using Type.
  intros Hd Hb Hl Hf. unfold flush_block. cbn [fst snd].
  assert (pblock_bytes s x = Ret (contents x)) as ->.
  { destruct x as [l|k]; [done|]. cbn in *. by destruct (dirblocks s !! k). }
  rewrite bind_ret. change BLOCK_PER_SECTOR with 8. change (BLOCK_SIZE / FDC_SECTOR_SIZE) with 8.
  unfold data_block, NBITS in Hb. rewrite u32_small by (unfold is_u32, U32; lia). replace (b * 8) with (8 * b) by lia.
  apply (raw_write_spec d (8 * b) 8); [done|lia|done].
Qed.

Lemma flush_blocks_spec L d : dev_ok d → NoDup L.*1 →
  (∀ b x, (b, x) ∈ L → data_block b ∧ length (contents x) = 4096%nat ∧ Forall is_byte (contents x)) →
  ∃ d', foldM (flush_block s) L d = Ret d' ∧ dev_ok d' ∧ (∀ n, n < 96 → sector d' n = sector d n) ∧
    ∀ b, block d' b = match assoc b L with Some x => contents x | None => block d b end.
Proof using Type.
  revert d. induction L as [|[c x] L IH]; intros d Hd Hnd HL; [by exists d|].
  cbn [fmap list_fmap fst] in Hnd. apply NoDup_cons in Hnd as [Hc Hnd]. destruct (HL c x ltac:(by left)) as (Hdc & Hl & Hb).
  destruct (flush_block_spec d c x Hd Hdc Hl Hb) as (d1 & E & Hw).
  destruct (IH d1 (proj1 Hw) Hnd) as (d' & E' & Hd' & Hlow & Hblk); [intros; apply HL; by right|].
  exists d'. cbn [foldM]. rewrite E, bind_ret. split; [done|]. split; [done|]. split.
  - intros n Hn. rewrite Hlow by done. destruct Hw as [_ Hw]. unfold data_block in Hdc. by rewrite Hw, decide_False by lia.
  - intros b. rewrite Hblk. cbn [assoc]. case_decide as Eb.
    + subst b. rewrite assoc_None by done. by apply (block_written_eq d c _ d1 Hw).
    + destruct (assoc b L); [done|]. apply (block_written d (8 * c) 8 _ d1 b Hw). lia.
Qed.

(** ** Flushing *)

Context (W : working s) (L : lag s).
#[local] Set Default Proof Using "T W L".

Lemma contents_ok b x : (b, x) ∈ d_blkdirty (rootdirty s) → data_block b ∧ length (contents x) = 4096%nat ∧ Forall is_byte (contents x).
Proof.
  intros Hin. assert (b ∈ dirty_blocks s) as Hb by (apply list_elem_of_fmap; by exists (b, x)).
  split; [by apply (w_used s W)|]. replace (contents x) with (vblk s b); [apply (vo_blk _ (w_view s W) b)|].
  unfold vblk. rewrite (assoc_elem b _ x (w_nodup s W) Hin). done.
Qed.

Lemma flush_spec : ∃ d, ext3_flush s = Ret (set_dirty (Dirty false false false false [] []) (set_dev d s)) ∧ dev_ok d ∧ stored d s ∧
  ∀ b, data_block b → block d b = vblk s b.
Proof.
  destruct (super_bytes_ok _ (to_super s T)) as [Hs1 Hs2]. destruct (group_bytes_ok _ (to_group s T)) as [Hg1 Hg2].
  destruct (to_blkbmp s T) as [Hb1 Hb2]. destruct (to_inobmp s T) as [Hi1 Hi2]. unfold ext3_flush.
  destruct (write_if_spec (d_super (rootdirty s)) P_SUPER_BLOCK S_SUPER_BLOCK _ (dev s) 2 2 (w_dev s W) eq_refl eq_refl Hs1 Hs2)
    as (d1 & -> & D1 & O1 & R1). rewrite bind_ret.
  destruct (write_if_spec (d_group (rootdirty s)) P_GROUP_DESC S_GROUP_DESC _ d1 8 8 D1 eq_refl eq_refl Hg1 Hg2)
    as (d2 & -> & D2 & O2 & R2). rewrite bind_ret.
  destruct (write_if_spec (d_blkbmp (rootdirty s)) P_BLOCK_BITMAP S_BLOCK_BITMAP _ d2 16 8 D2 eq_refl eq_refl Hb1 Hb2)
    as (d3 & -> & D3 & O3 & R3). rewrite bind_ret.
  destruct (write_if_spec (d_inobmp (rootdirty s)) P_INODE_BITMAP S_INODE_BITMAP _ d3 24 8 D3 eq_refl eq_refl Hi1 Hi2)
    as (d4 & -> & D4 & O4 & R4). rewrite bind_ret. cbn [Z.of_nat Pos.of_succ_nat Pos.succ] in *.
  destruct (flush_inodes_spec (d_inodirty (rootdirty s)) d4 D4 (lg_range s L)) as (d5 & -> & D5 & O5 & R5). rewrite bind_ret.
  destruct (flush_blocks_spec (d_blkdirty (rootdirty s)) d5 D5 (w_nodup s W) contents_ok) as (d6 & -> & D6 & O6 & R6). rewrite bind_ret.
  exists d6. split; [done|]. split; [done|]. split; [constructor|].
  - rewrite (raw_read_ext d1) by (intros n Hn; rewrite O6, O5, O4, O3, O2 by lia; done). exact (R1 (lg_super s L)).
  - rewrite (raw_read_ext d2) by (intros n Hn; rewrite O6, O5, O4, O3 by lia; done). apply R2. intros E.
    rewrite (raw_read_ext (dev s)) by (intros n Hn; rewrite O1 by lia; done). exact (lg_group s L E).
  - rewrite (raw_read_ext d3) by (intros n Hn; rewrite O6, O5, O4 by lia; done). apply R3. intros E.
    rewrite (raw_read_ext (dev s)) by (intros n Hn; rewrite O2, O1 by lia; done). exact (lg_blkbmp s L E).
  - rewrite (raw_read_ext d4) by (intros n Hn; rewrite O6, O5 by lia; done). apply R4. intros E.
    rewrite (raw_read_ext (dev s)) by (intros n Hn; rewrite O3, O2, O1 by lia; done). exact (lg_inobmp s L E).
  - intros k Hk. rewrite O6 by lia. apply R5; [done|]. rewrite O4, O3, O2, O1 by lia. exact (lg_inodes s L k Hk).
  - intros b Hb. rewrite R6. unfold vblk. destruct (assoc b _) as [[]|]; [done..|]. unfold block, data_block in *. apply raw_read_ext.
    intros n Hn. rewrite O5, O4, O3, O2, O1 by lia. done.
Qed.
End flush.

(** ** Mounting *)

Lemma inodes_read d s : tables_ok s → stored d s → inodes_of (raw_read d 32 64) = inodes s.
Proof.
  intros T St. destruct (to_inodes s T) as (Hl & Ho & Hm).
  assert (raw_read d 32 64 = concat (inode_bytes <$> inodes s)) as ->.
  { unfold raw_read. rewrite <-(take_drop 256 (inodes s)). rewrite (drop_ge (inodes s)), app_nil_r by lia.
    assert (∀ k, (k ≤ 64)%nat → concat (sector d <$> seqZ 32 (Z.of_nat k)) = concat (inode_bytes <$> take (4 * k) (inodes s))) as H.
    { induction k as [|k IH]; intros Hk; [done|]. rewrite Nat2Z.inj_succ, <-Z.add_1_r, seqZ_app, fmap_app, concat_app, IH by lia.
      replace (4 * S k)%nat with (4 * k + 4)%nat by lia. rewrite <-(take_take_drop (inodes s) (4 * k) 4), fmap_app, concat_app. f_equal.
      change (seqZ (32 + Z.of_nat k) 1) with [32 + Z.of_nat k]. cbn [fmap list_fmap concat]. rewrite app_nil_r. apply St. lia. }
    exact (H 64%nat ltac:(lia)). }
  unfold inodes_of. apply list_eq. intros k. rewrite list_lookup_fmap. destruct (decide (k < 256)%nat) as [Hk|Hk].
  2: { rewrite (lookup_ge_None_2 (inodes s)) by lia. by rewrite lookup_ge_None_2 by (rewrite length_seq; lia). }
  rewrite lookup_seq_lt by lia. destruct (lookup_lt_is_Some_2 (inodes s) k) as [i Hi]; [lia|]. rewrite Hi. cbn [fmap option_fmap option_map].
  f_equal. rewrite Nat.add_0_l, (inode_slice (inodes s) k i); [|done..].
  apply inode_of_bytes; [exact (Forall_lookup_1 _ _ _ _ Hm Hi)|exact (Forall_lookup_1 _ _ _ _ Ho Hi)].
Qed.

(** Mounting a device that holds the tables reads them back. *)
Lemma mount_spec d s t : tables_ok s → stored d s → dev t = d → k_answers t = [] →
  init_tables t = Fs d (super_block s) (group_descs s) (inodes s) (inode_bitmap s) (block_bitmap s)
    (Dirty false false false false [] []) (dirblocks t) [].
Proof.
  intros T St <- Ha. unfold init_tables, ext3_init_dirty, ext3_read_blockbitmap, ext3_read_inodebitmap, ext3_read_inodes,
    ext3_read_groupdesc, ext3_read_superblock, kalloc. rewrite Ha.
  cbn [k_answers dev super_block group_descs inodes inode_bitmap block_bitmap rootdirty dirblocks set_inodes set_dirty]. rewrite Ha.
  cbn [k_answers dev super_block group_descs inodes inode_bitmap block_bitmap rootdirty dirblocks set_inodes set_dirty].
  pose proof (inodes_read _ s T St) as Ei. pose proof (super_of_bytes _ (to_super s T)) as Es. pose proof (group_of_bytes _ (to_group s T)) as Eg.
  rewrite <-(sd_super _ _ St) in Es. rewrite <-(sd_group _ _ St) in Eg.
  change (P_SUPER_BLOCK / FDC_SECTOR_SIZE) with 2. change (S_SUPER_BLOCK / FDC_SECTOR_SIZE) with 2.
  change (P_GROUP_DESC / FDC_SECTOR_SIZE) with 8. change (S_GROUP_DESC / FDC_SECTOR_SIZE) with 8.
  change (P_BLOCK_BITMAP / FDC_SECTOR_SIZE) with 16. change (S_BLOCK_BITMAP / FDC_SECTOR_SIZE) with 8.
  change (P_INODE_BITMAP / FDC_SECTOR_SIZE) with 24. change (S_INODE_BITMAP / FDC_SECTOR_SIZE) with 8.
  change (P_INODE_BLOCK / FDC_SECTOR_SIZE) with 32. change (S_INODE_BLOCK / FDC_SECTOR_SIZE) with 64.
  rewrite Es, Eg, Ei, (sd_inobmp _ _ St), (sd_blkbmp _ _ St). reflexivity.
Qed.
