(* ===== verification/Ext3Props.v ===== *)
(** * The file system: reading, writing and mounting

    Between two calls the file system is at rest: nothing waits to be written, the device
    holds the tables, every block in use belongs to one slot.  Reading gives the bytes of
    the file; writing changes exactly the bytes it was given and leaves the file system at
    rest; mounting the device again gives the same files. *)

From S2P Require Import Prelude Ring Words Bytes Ext3 Ext3Bits Ext3View Ext3Ops Ext3Ensure Ext3Write Ext3Sync.

(** ** At rest *)

Record at_rest (s : ext3) : Prop := {
  rest_cons : consistent s;
  rest_tables : tables_ok s;
  rest_dirty : rootdirty s = Dirty false false false false [] [];
  rest_stored : stored (dev s) s }.

(** At rest, with memory for the next operation. *)
Record prepared (s : ext3) : Prop := {
  rd_rest : at_rest s;
  rd_mem : memory_available s }.

Lemma ar_work s : prepared s → working s.
Proof. intros [[]]. by constructor. Qed.

Lemma ar_tables s : prepared s → tables_ok s.
Proof. by intros [[]]. Qed.

Lemma ar_dirty s : prepared s → rootdirty s = Dirty false false false false [] [].
Proof. by intros [[]]. Qed.

Lemma ar_stored s : prepared s → stored (dev s) s.
Proof. by intros [[]]. Qed.

Lemma mk_prepared s : working s → tables_ok s → rootdirty s = Dirty false false false false [] [] → stored (dev s) s → prepared s.
Proof. intros [] ???. split; [by constructor|done]. Qed.

Lemma prepared_vblk s b : prepared s → vblk s b = block (dev s) b.
Proof. intros A. apply vblk_clean. unfold dirty_blocks. rewrite (ar_dirty s A). apply not_elem_of_nil. Qed.

Lemma prepared_dslot s n i sl : prepared s → inodes s !! n = Some i → dslot s i sl = slotv (view_of s) n sl.
Proof.
  intros A Hn. rewrite (slotv_lookup (view_of s) n i) by done. apply slot_val_eq. intros b. symmetry. by apply prepared_vblk.
Qed.

Lemma prepared_lag s : prepared s → lag s.
Proof.
  intros [[_ _ Hd [S1 S2 S3 S4 S5]] _]. constructor; rewrite ?Hd; cbn [d_inodirty]; try done; [by left; apply S5|].
  intros k Hk. by apply not_elem_of_nil in Hk.
Qed.

(** The bytes of a file, as a list. *)
Definition file_slice (s : ext3) (n : nat) (pos len : Z) : list Z := fbyte s n <$> seqZ pos len.

Lemma file_slice_length s n pos len : 0 ≤ len → Z.of_nat (length (file_slice s n pos len)) = len.
Proof. intros H. unfold file_slice. rewrite length_fmap, length_seqZ. lia. Qed.
Lemma file_slice_app s n pos a b : 0 ≤ a → 0 ≤ b → file_slice s n pos (a + b) = file_slice s n pos a ++ file_slice s n (pos + a) b.
Proof. intros Ha Hb. unfold file_slice. by rewrite seqZ_app, fmap_app. Qed.
Lemma file_slice_eq s n pos len l : Z.of_nat (length l) = len → (∀ k, 0 ≤ k < len → fbyte s n (pos + k) = nth (Z.to_nat k) l 0) →
  file_slice s n pos len = l.
Proof.
  intros Hl H. apply list_eq. intros k. unfold file_slice. rewrite list_lookup_fmap. destruct (decide (k < length l)%nat) as [Hk|Hk].
  - destruct (lookup_lt_is_Some_2 l k Hk) as [v Hv]. rewrite lookup_seqZ_lt by lia. cbn [fmap option_fmap option_map].
    rewrite H by lia. rewrite Nat2Z.id, (nth_lookup_Some _ _ _ _ Hv). done.
  - rewrite (lookup_ge_None_2 l) by lia. rewrite lookup_ge_None_2; [done|]. rewrite length_seqZ. lia.
Qed.

(** ** Reading *)

Lemma store_app (p r c : list Z) : (length c ≤ length r)%nat →
  store_bytes (p ++ r) (Z.of_nat (length p)) c = Ret (p ++ c ++ drop (length c) r).
Proof.
  intros H. unfold store_bytes. rewrite length_app.
  destruct (_ && _) eqn:E; [|rewrite andb_false_iff, !Z.leb_gt in E; lia]. rewrite Nat2Z.id, take_app_length.
  do 3 f_equal. rewrite drop_app_ge by lia. f_equal. lia.
Qed.

Section read.
Context (s : ext3) (A : prepared s) (n : nat) (i : ext3_inode) (Hn : inodes s !! n = Some i) (base count : Z).
Context (H0 : 0 ≤ base) (Hend : base + count < 2 ^ 32).
#[local] Set Default Proof Using "A Hn H0 Hend".

(** The bytes of one chunk. *)
Lemma read_chunk pos c : let b := slotv (view_of s) n (data_slot (pos / 4096)) in 0 ≤ pos → 0 < c → pos mod 4096 + c ≤ 4096 →
  (b = 0 → replicate (Z.to_nat c) 0 = file_slice s n pos c) ∧
  (b ≠ 0 → load_bytes (block (dev s) b) (pos mod 4096) c = Ret (file_slice s n pos c)).
Proof.
  intros b Hp Hc Hle. pose proof (Z.mod_pos_bound pos 4096 ltac:(lia)).
  assert (∀ k, 0 ≤ k < c → fbyte s n (pos + k) = if b =? 0 then 0 else nth (Z.to_nat (pos mod 4096 + k)) (block (dev s) b) 0) as Hb.
  { intros k Hk. destruct (in_block (pos + k) pos c) as [E1 E2]; [lia..|]. rewrite fbyte_slot, E1, E2. fold b. cbv zeta.
    rewrite prepared_vblk by done. by replace (pos + k - pos) with k by lia. }
  split; intros Eb.
  - symmetry. apply file_slice_eq; [rewrite length_replicate; lia|]. intros k Hk. rewrite Hb, Eb by done. cbn [Z.eqb]. rewrite nth_lookup.
    by rewrite lookup_replicate_2 by lia.
  - destruct (load_nth (block (dev s) b) (pos mod 4096) c) as (d & -> & Hdl & _ & Hdk); [lia|lia| |].
    { destruct (block_ok (dev s) b (w_dev s (ar_work s A))) as [-> _]. lia. }
    f_equal. symmetry. apply file_slice_eq; [done|]. intros k Hk. rewrite Hb, Hdk by done. by destruct (Z.eqb_spec b 0).
Qed.

Lemma read_step fuel (p r : list Z) total : 0 ≤ total < count → Z.of_nat (length p) = total → count - total ≤ Z.of_nat (length r) →
  let c := chunk_size (base + total) (count - total) in
  read_loop (S fuel) i base (p ++ r) total count s =
  read_loop fuel i base ((p ++ file_slice s n (base + total) c) ++ drop (Z.to_nat c) r) (total + c) count s.
Proof.
  intros Ht Hp Hr c. set (pos := base + total) in *. destruct (chunk_bounds pos (count - total)) as (Hc & Hle & _); [lia|lia|].
  fold c in Hc, Hle. destruct (read_chunk pos c) as [Hz Hnz]; [lia..|]. set (lb := pos / 4096) in *.
  assert (lb_ok lb) as Hlb by (split; [apply Z.div_pos; lia|apply Z.div_lt_upper_bound; lia]). pose proof (ar_work s A) as W.
  assert (dslot_ok s i lb) as Hd.
  { intros sl Hsl. rewrite (prepared_dslot s n) by done. apply (vo_used _ (w_view s W)). by apply (path_in lb). }
  pose proof (file_slice_length s n pos c ltac:(lia)) as Hlen. rewrite <-app_assoc.
  cbn [read_loop]. destruct (Z.ltb_spec total count); [|lia]. cbn [negb]. change BLOCK_SIZE with 4096.
  rewrite u32_small by (unfold is_u32, U32; lia). fold pos c lb.
  rewrite get_block_spec, bind_ret by (done || apply W || exact (ino_ok s W n i Hn)). cbv beta iota.
  rewrite (prepared_dslot s n) by done. set (b := slotv (view_of s) n (data_slot lb)) in *.
  assert (store_bytes (p ++ r) total (file_slice s n pos c) = Ret (p ++ file_slice s n pos c ++ drop (Z.to_nat c) r)) as Es.
  { rewrite <-Hp, store_app by lia. do 3 f_equal. f_equal. lia. }
  destruct (Z.eqb_spec b 0) as [Eb|Eb].
  - rewrite (Hz Eb), Es, bind_ret. done.
  - unfold kalloc. rewrite (w_ans s W). cbn [negb]. rewrite data_lba.
    + change (4096 / FDC_SECTOR_SIZE) with 8. fold (block (dev s) b). rewrite (Hnz Eb), bind_ret, Es, bind_ret. done.
    + apply (vo_used _ (w_view s W)); [by apply data_slot_in|done].
Qed.

Lemma read_loop_spec fuel (p r : list Z) total : 0 ≤ total ≤ count → Z.of_nat (length p) = total → count - total ≤ Z.of_nat (length r) →
  (1 ≤ fuel)%nat → (total < count → (base + total) mod 4096 + (count - total) ≤ 4096 * (Z.of_nat fuel - 1)) →
  read_loop fuel i base (p ++ r) total count s =
  Ret (count, (p ++ file_slice s n (base + total) (count - total)) ++ drop (Z.to_nat (count - total)) r, s).
Proof.
  revert p r total. induction fuel as [|fuel IH]; [lia|]. intros p r total Ht Hp Hr _ Hf. destruct (decide (total = count)) as [->|Hne].
  - cbn [read_loop]. destruct (Z.ltb_spec count count); [lia|]. rewrite Z.sub_diag. unfold file_slice. cbn. by rewrite app_nil_r.
  - destruct (chunk_bounds (base + total) (count - total)) as (Hc & Hle & Hend'); [lia|lia|].
    specialize (Hf ltac:(lia)). pose proof (Z.mod_pos_bound (base + total) 4096 ltac:(lia)).
    rewrite read_step by (done || lia). set (c := chunk_size (base + total) (count - total)) in *.
    pose proof (file_slice_length s n (base + total) c ltac:(lia)) as Hlen.
    rewrite IH; [|lia|rewrite length_app; lia|rewrite length_drop; lia|lia|].
    + do 2 f_equal. f_equal. rewrite <-!app_assoc. f_equal. replace (count - total) with (c + (count - (total + c))) by lia.
      rewrite file_slice_app by lia. rewrite <-app_assoc. f_equal. rewrite drop_drop, Z.add_assoc. do 2 f_equal. lia.
    + intros Hlt. replace ((base + (total + c)) mod 4096) with 0; [lia|].
      pose proof (Z.div_mod (base + total) 4096). apply (Z.mod_unique _ _ ((base + total) / 4096 + 1)); lia.
Qed.
End read.

(** ** Flushing puts the file system at rest *)

Lemma flush_rest s : working s → tables_ok s → lag s → ∃ s', ext3_flush s = Ret s' ∧ prepared s' ∧ inodes s' = inodes s ∧
  (∀ m p, 0 ≤ p < 2 ^ 32 → fbyte s' m p = fbyte s m p) ∧ (∀ m sl, slot_in sl → slotv (view_of s') m sl = slotv (view_of s) m sl) ∧
  block_bitmap s' = block_bitmap s ∧ inode_bitmap s' = inode_bitmap s.
Proof.
  intros W T L. destruct (flush_spec s T W L) as (d & E & Hd & St & Hb). set (s' := set_dirty _ _) in E. exists s'. split; [done|].
  pose proof (w_view s W) as HV. assert (∀ b, vblk s' b = block d b) as Hv by done.
  assert (∀ m sl, slot_in sl → slotv (view_of s') m sl = slotv (view_of s) m sl) as Hs.
  { intros m sl Hsl. unfold slotv. cbn [view_of v_ino v_blk]. change (inodes s') with (inodes s).
    destruct (inodes s !! m) as [j|] eqn:Ej; [|done]. apply slot_val_ext; [done|]. intros tb Ht Hin Hne. rewrite Hv. apply Hb.
    change (vblk s) with (v_blk (view_of s)) in *. rewrite <-(slotv_lookup (view_of s) m j tb Ej) in *. by apply (vo_used _ HV). }
  split; [|split; [done|split; [|by split]]].
  - apply mk_prepared; [|destruct T; by constructor|done|destruct St; by constructor]. apply mk_working; [done|apply W| |constructor|..].
    + constructor; cbn [view_of v_ino v_bm]; try apply HV.
      * intros b. apply block_ok. done.
      * intros m sl Hin. rewrite Hs by done. by apply (vo_used _ HV).
      * intros m sl m' sl' H1 H2. rewrite !Hs by done. by apply (vo_inj _ HV).
    + intros b x Hin. by apply not_elem_of_nil in Hin.
    + intros b Hin. by apply not_elem_of_nil in Hin.
  - intros m p Hp. assert (slot_in (data_slot (p / 4096))) as Hin.
    { apply data_slot_in. split; [apply Z.div_pos; lia|apply Z.div_lt_upper_bound; lia]. }
    apply fbyte_same; [by apply Hs|]. intros Hne. rewrite Hv. apply Hb. by apply (vo_used _ HV).
Qed.

(** ** The size of a file *)

Lemma set_size_spec s n i a b : working s → inodes s !! n = Some i →
  let s' := ext3_mark_inode_dirty (Z.of_nat n + 1) (set_inodes (<[n := with_size a b i]> (inodes s)) s) in
  working s' ∧ moved s s' ∧ inodes s' = <[n := with_size a b i]> (inodes s) ∧ ∀ m p, fbyte s' m p = fbyte s m p.
Proof.
  intros W Hn s'. pose proof (w_view s W) as HV. pose proof (lookup_lt_Some _ _ _ Hn) as Hlt.
  assert (moved s s') as M by (apply moved_inode; [apply W|done]).
  assert (inodes s' = <[n := with_size a b i]> (inodes s)) as Hi by (unfold s'; by rewrite mark_inode_spec by apply W).
  assert (block_bitmap s' = block_bitmap s ∧ d_blkdirty (rootdirty s') = d_blkdirty (rootdirty s)) as [Hbm Hdb].
  { unfold s'. by rewrite mark_inode_spec by apply W. }
  assert (∀ c, vblk s' c = vblk s c) as Hv by (intros; apply vblk_same; [apply M|apply M|done]).
  assert (∀ m sl, slotv (view_of s') m sl = slotv (view_of s) m sl) as Hs.
  { intros m sl. unfold slotv. cbn [view_of v_ino v_blk]. rewrite Hi. destruct (decide (m = n)) as [->|].
    - rewrite list_lookup_insert_eq, Hn by done. rewrite (slot_val_eq (vblk s') (vblk s)) by done. by destruct sl.
    - rewrite list_lookup_insert_ne by done. destruct (inodes s !! m); [|done]. by apply slot_val_eq. }
  split; [|split; [done|split; [done|]]].
  - apply mk_working.
    + rewrite (mv_dev _ _ M). apply W.
    + rewrite (mv_answers _ _ M). apply W.
    + constructor; cbn [view_of v_ino v_bm v_blk]; rewrite ?Hbm, ?Hi; try apply HV.
      * intros c. rewrite Hv. apply (vo_blk _ HV).
      * rewrite length_insert. apply (vo_ino _ HV).
      * apply Forall_insert; [apply (vo_each _ HV)|]. exact (Forall_lookup_1 _ _ _ _ (vo_each _ HV) Hn).
      * intros m sl Hin. rewrite Hs. by apply (vo_used _ HV).
      * intros m sl m' sl' H1 H2. rewrite !Hs. by apply (vo_inj _ HV).
    + unfold dirty_blocks. rewrite Hdb. apply W.
    + intros c x. rewrite Hdb, (mv_dirblocks _ _ M). apply W.
    + intros c. unfold dirty_blocks. rewrite Hdb, Hbm. apply W.
  - intros m p. apply fbyte_same; [apply Hs|]. intros _. apply Hv.
Qed.

(** The tables stay in order when only blocks are added and the size is set. *)
Lemma tables_moved s s' : tables_ok s → working s' → moved s s' → Forall inode_meta (inodes s') → tables_ok s'.
Proof.
  intros T W M Hm. pose proof (w_view s' W) as HV. constructor.
  - apply M, T.
  - apply M, T.
  - split; [apply (vo_ino _ HV)|]. split; [apply (vo_each _ HV)|done].
  - apply (vo_bm _ HV).
  - apply M, T.
Qed.

Lemma inode_meta_block l i : inode_meta i → inode_meta (with_block l i).
Proof. by intros []. Qed.
Lemma inode_meta_size a b i : is_u32 a → is_u32 b → inode_meta i → inode_meta (with_size a b i).
Proof. intros Ha Hb []. by constructor. Qed.
Lemma metas_alter l n L : Forall inode_meta L → Forall inode_meta (alter (with_block l) n L).
Proof. intros H. apply Forall_alter; [done|]. intros i _. by apply inode_meta_block. Qed.

(** ** Reads and writes *)

(** A write fits when past the direct blocks it has at most one block to allocate, and
    there is room for its blocks and two tables. *)
Definition fits (s : ext3) (n : nat) (base count : Z) : Prop :=
  ∃ x, (∀ lb, base / 4096 ≤ lb ≤ (base + count - 1) / 4096 → 11 < lb → slotv (view_of s) n (data_slot lb) = 0 → lb = x) ∧
    (base + count - 1) / 4096 - base / 4096 + 3 ≤ Z.of_nat (free_count (block_bitmap s)).

Lemma fits_ready s n i base count : prepared s → inodes s !! n = Some i → 0 ≤ base → 0 < count → fits s n base count →
  ∃ x, ready s n i (base / 4096) ((base + count - 1) / 4096) x.
Proof.
  intros A Hn Hb Hc (x & Hx & Hf). exists x. assert (∀ b, b ∉ dirty_blocks s) as Hd.
  { intros b. unfold dirty_blocks. rewrite (ar_dirty s A). apply not_elem_of_nil. }
  constructor.
  - intros lb _ sl _. by apply prepared_dslot.
  - intros lb _. apply Hd.
  - intros lb Hlb. destruct (decide (lb ≤ 11)); [by left|right].
    destruct (decide (slotv (view_of s) n (data_slot lb) = 0)); [left|by right]. apply Hx; [done|lia|done].
  - intros _ _ _ st _ _ _. apply Hd.
  - case_decide; lia.
Qed.

Definition append (f : file) : bool := negb (Z.land (f_flags f) O_APPEND =? 0).

Lemma ext3_read_spec (s : ext3) (n : nat) (i : ext3_inode) (f : file) (buf : list Z) (count : Z) :
  prepared s → inodes s !! n = Some i → f_ino f = Z.of_nat n + 1 → is_u32 (f_pos f) → 0 ≤ count < 2 ^ 31 →
  let total := Z.max 0 (Z.min count (i_size i - f_pos f)) in total ≤ Z.of_nat (length buf) →
  ext3_read f (Some buf) count s =
  Ret (total, File (f_ino f) (f_flags f) (f_pos f + total), Some (file_slice s n (f_pos f) total ++ drop (Z.to_nat total) buf), s).
Proof.
  intros A Hn Hf Hp Hc total Hl. unfold ext3_read. rewrite Hf, (get_inode_Ret s n i Hn), bind_ret. destruct f as [ino fl pos]. cbn in *. subst ino.
  destruct (to_inodes s (ar_tables s A)) as (_ & _ & Hm). pose proof (im_size i (Forall_lookup_1 _ _ _ _ Hm Hn)) as Hsz.
  unfold is_u32, U32 in *. destruct (Z.leb_spec (i_size i) pos).
  { replace total with 0 by lia. by rewrite Z.add_0_r. }
  assert ((if i_size i - pos <? count then i_size i - pos else count) = total) as -> by (destruct (Z.ltb_spec (i_size i - pos) count); lia).
  pose proof (read_loop_spec s A n i Hn pos total ltac:(lia) ltac:(lia) (chunk_fuel total) [] buf 0) as E. cbn [app] in E.
  rewrite E; clear E; [|lia|done|lia|unfold chunk_fuel; lia|].
  - rewrite bind_ret. cbv beta iota. rewrite Z.add_0_r, Z.sub_0_r, i32_small, u32_small by (unfold is_u32, U32; lia). done.
  - intros Ht. unfold chunk_fuel. change BLOCK_SIZE with 4096. pose proof (Z.mod_pos_bound (pos + 0) 4096). pose proof (Z.div_mod total 4096).
    pose proof (Z.mod_pos_bound total 4096). lia.
Qed.

(** The new size, when the file became longer. *)
Lemma write_size s s1 n i l base count : working s1 → moved s s1 → Forall inode_meta (inodes s) → inodes s !! n = Some i →
  inodes s1 = alter (with_block l) n (inodes s) → 0 ≤ base + count < 2 ^ 32 →
  ∃ s2, (if i_size i <? base + count then
      s' ← ext3_set_inode (Z.of_nat n + 1) (with_size (base + count) (u32 (base + count + BLOCK_SIZE - 1) / BLOCK_SIZE) (with_block l i)) s1;
      Ret (ext3_mark_inode_dirty (Z.of_nat n + 1) s')
    else Ret s1) = Ret s2 ∧ working s2 ∧ moved s s2 ∧ Forall inode_meta (inodes s2) ∧ (∀ m p, fbyte s2 m p = fbyte s1 m p) ∧
    ∀ m, i_size <$> inodes s2 !! m = if decide (m = n) then Some (Z.max (i_size i) (base + count)) else i_size <$> inodes s !! m.
Proof.
  intros W1 M1 Hm Hn El Hr. assert (inodes s1 !! n = Some (with_block l i)) as Hn1 by by rewrite El, list_lookup_alter_eq, Hn.
  pose proof (metas_alter l n _ Hm) as Hm1. rewrite <-El in Hm1. destruct (Z.ltb_spec (i_size i) (base + count)).
  - rewrite (set_inode_Ret s1 n _ _ Hn1), bind_ret. eexists. split; [done|].
    destruct (set_size_spec s1 n _ (base + count) (u32 (base + count + BLOCK_SIZE - 1) / BLOCK_SIZE) W1 Hn1) as (W2 & M2 & Hi2 & Hb2).
    split; [done|]. split; [by etrans|]. split; [|split; [done|]].
    + rewrite Hi2. apply Forall_insert; [done|]. apply inode_meta_size; [done| |exact (Forall_lookup_1 _ _ _ _ Hm1 Hn1)].
      change BLOCK_SIZE with 4096. pose proof (u32_range (base + count + 4096 - 1)) as Hu. unfold is_u32, U32 in *.
      split; [apply Z.div_pos; lia|]. apply Z.div_lt_upper_bound; lia.
    + intros m. rewrite Hi2. case_decide as Em; [subst m; rewrite list_lookup_insert_eq by (by eapply lookup_lt_Some); cbn; f_equal; lia|].
      by rewrite list_lookup_insert_ne, El, list_lookup_alter_ne.
  - exists s1. split_and!; try done. intros m. rewrite El. case_decide as Em; [|by rewrite list_lookup_alter_ne].
    subst m. rewrite list_lookup_alter_eq, Hn. cbn. f_equal. lia.
Qed.

Lemma ext3_write_spec (s : ext3) (n : nat) (i : ext3_inode) (f : file) (buf : list Z) (count : Z) :
  prepared s → inodes s !! n = Some i → f_ino f = Z.of_nat n + 1 → is_u32 (f_pos f) → Forall is_byte buf →
  0 ≤ count ≤ Z.of_nat (length buf) → count < 2 ^ 31 →
  let base := if append f then i_size i else f_pos f in base + count < 2 ^ 32 → fits s n base count →
  ∃ s', ext3_write f (Some buf) count s = Ret (count, File (f_ino f) (f_flags f) (base + count), s') ∧ prepared s' ∧
    file_slice s' n base count = take (Z.to_nat count) buf ∧
    (∀ m p, 0 ≤ p < 2 ^ 32 → ¬ (m = n ∧ base ≤ p < base + count) → fbyte s' m p = fbyte s m p) ∧
    ∀ m, i_size <$> inodes s' !! m = if decide (m = n) then Some (Z.max (i_size i) (base + count)) else i_size <$> inodes s !! m.
Proof.
  intros A Hn Hf Hp Hbytes Hcount Hc31 base Hend Hfits. pose proof (ar_work s A) as W. pose proof (ar_tables s A) as T.
  destruct (to_inodes s T) as (Hlen & _ & Hm). pose proof (im_size i (Forall_lookup_1 _ _ _ _ Hm Hn)) as Hsz.
  assert (0 ≤ base) as Hb0 by (unfold base, is_u32 in *; destruct (append f); lia).
  unfold ext3_write. rewrite Hf, (get_inode_Ret s n i Hn), bind_ret. fold (append f). fold base.
  assert (∃ x, count = 0 ∨ ready s n i (base / 4096) ((base + count - 1) / 4096) x) as [x Hx].
  { destruct (decide (count = 0)); [exists 0; by left|]. destruct (fits_ready s n i base count A Hn Hb0 ltac:(lia) Hfits) as [x Hx]. exists x. by right. }
  destruct (write_loop_spec n buf base count x Hbytes Hb0 Hcount Hend (chunk_fuel count) s i 0 W Hn) as (s1 & -> & Wr).
  { lia. } { intros Hlt. rewrite Z.add_0_r. destruct Hx; [lia|done]. } { unfold chunk_fuel. lia. }
  { intros Ht. unfold chunk_fuel. change BLOCK_SIZE with 4096. pose proof (Z.mod_pos_bound (base + 0) 4096). pose proof (Z.div_mod count 4096).
    pose proof (Z.mod_pos_bound count 4096). lia. }
  rewrite bind_ret. cbv beta iota. destruct (wr_inode _ _ _ _ _ _ _ Wr) as [l El].
  assert (inodes s1 !! n = Some (with_block l i)) as Hn1 by by rewrite El, list_lookup_alter_eq, Hn.
  rewrite (get_inode_Ret s1 n _ Hn1), bind_ret, u32_small by (unfold is_u32, U32; lia). cbn [i_size with_block].
  assert (∃ s2, (if i_size i <? base + count then _ else Ret s1) = Ret s2 ∧ working s2 ∧ moved s s2 ∧ Forall inode_meta (inodes s2) ∧
    (∀ m p, fbyte s2 m p = fbyte s1 m p) ∧
    ∀ m, i_size <$> inodes s2 !! m = if decide (m = n) then Some (Z.max (i_size i) (base + count)) else i_size <$> inodes s !! m)
    as (s2 & -> & W2 & M2 & Hm2 & Hb2 & Hi2).
  { apply (write_size s s1 n i l base count); [apply Wr|apply Wr|done|done|done|lia]. }
  rewrite bind_ret. destruct (flush_rest s2 W2) as (s3 & -> & A3 & Hi3 & Hb3 & _).
  { by apply (tables_moved s). } { apply (lag_moved s); [done|done|by apply prepared_lag]. }
  rewrite bind_ret, i32_small by lia. exists s3. split; [done|]. split; [done|]. split; [|split].
  - apply file_slice_eq; [rewrite length_take; lia|]. intros k Hk. rewrite Hb3, Hb2, (wr_bytes _ _ _ _ _ _ _ Wr) by lia.
    rewrite decide_True by lia. replace (base + k - base) with k by lia. by rewrite !nth_lookup, lookup_take_lt by lia.
  - intros m p Hpr Hne. rewrite Hb3, Hb2, (wr_bytes _ _ _ _ _ _ _ Wr), decide_False by (lia || (intros [??]; apply Hne; lia)). done.
  - intros m. rewrite Hi3. apply Hi2.
Qed.

(** ** Mounting *)

(** Mounting the device of a file system at rest gives the same files. *)
Lemma remount_spec s t : prepared s → dev t = dev s → k_answers t = [] → let s' := init_tables t in
  prepared s' ∧ inodes s' = inodes s ∧ (∀ m p, fbyte s' m p = fbyte s m p) ∧ block_bitmap s' = block_bitmap s.
Proof.
  intros A Hd Ha s'. pose proof (ar_work s A) as W.
  assert (s' = Fs (dev s) (super_block s) (group_descs s) (inodes s) (inode_bitmap s) (block_bitmap s)
    (Dirty false false false false [] []) (dirblocks t) []) as E by (apply (mount_spec (dev s) s t); [apply A|apply A|done|done]).
  assert (∀ b, vblk s' b = vblk s b) as Hv by (intros b; rewrite (prepared_vblk s) by done; by rewrite E).
  assert (view_eq (view_of s) (view_of s')) as Ev by (split; [by rewrite E|split; [by rewrite E|intros b; symmetry; apply Hv]]).
  split; [|split; [by rewrite E|split; [|by rewrite E]]].
  - apply mk_prepared; [apply mk_working|..].
    + rewrite E. apply W.
    + by rewrite E.
    + rewrite <-Ev. apply W.
    + rewrite E. constructor.
    + intros b x. rewrite E. intros Hin. by apply not_elem_of_nil in Hin.
    + intros b. rewrite E. intros Hin. by apply not_elem_of_nil in Hin.
    + rewrite E. destruct (ar_tables s A). by constructor.
    + by rewrite E.
    + rewrite E. destruct (ar_stored s A). by constructor.
  - intros m p. apply fbyte_same; [by rewrite <-Ev|]. intros _. apply Hv.
Qed.

(** ** A full disk *)

Lemma alloc_full s : bitmap_ok (block_bitmap s) → free_count (block_bitmap s) = 0%nat → __alloc_block s = Fault.
Proof.
  intros Hbm Hf. unfold __alloc_block. rewrite (get_free_none _ Hbm Hf), bind_ret. unfold __set_bitmap, load1.
  assert (u32 (-1) / 8 = 536870911) as -> by reflexivity. destruct (Z.leb_spec 0 536870911); [|lia].
  destruct Hbm as [Hl _]. by rewrite lookup_ge_None_2 by lia.
Qed.
