(* ===== verification/Ext3Release.v ===== *)
(** * The file system: releasing the blocks of a file *)

From S2P Require Import Prelude Ring Words Bytes Ext3 Ext3Bits Ext3View Ext3Ops Ext3Ensure Ext3Write Ext3Sync Ext3Props.

(** ** Freed blocks *)

(** The bits of the blocks of [P] are cleared; the inodes aside, only the bitmap and the
    counts that go with it changed. *)
Record freed (s : ext3) (P : Z → Prop) (s' : ext3) : Prop := {
  fr_moved : moved s (set_inodes (inodes s) s');
  fr_dirty : d_blkdirty (rootdirty s') = d_blkdirty (rootdirty s);
  fr_inobmp : inode_bitmap s' = inode_bitmap s;
  fr_bm : bitmap_ok (block_bitmap s');
  fr_bits : ∀ b, 0 ≤ b < NBITS → bit (block_bitmap s') b = true ↔ bit (block_bitmap s) b = true ∧ ¬ P b }.

Lemma set_inodes_same s : set_inodes (inodes s) s = s.
Proof. by destruct s. Qed.

Lemma moved_set_inodes X a b : length X = length (inodes a) → moved a (set_inodes (inodes a) b) → moved (set_inodes X a) (set_inodes X b).
Proof.
  intros HX [H1 H2 H3 H4 H5 H6 H7 [S1 S0 S2 S3 S4 S5 S6]]. constructor; try done. constructor; try done.
  - intros k Hk. destruct (S0 k Hk) as [|]; [by left|right]. cbn [inodes set_inodes]. by rewrite HX.
  - by left.
Qed.

Lemma freed_none s : bitmap_ok (block_bitmap s) → freed s (fun _ => False) s.
Proof. intros H. constructor; [by rewrite set_inodes_same|done|done|done|]. naive_solver. Qed.

Lemma freed_trans s P s1 Q s2 : length (inodes s1) = length (inodes s) → freed s P s1 → freed s1 Q s2 → freed s (fun b => P b ∨ Q b) s2.
Proof.
  intros Hl [A1 A2 A0 A3 A4] [B1 B2 B0 B3 B4]. constructor.
  - etrans; [exact A1|]. apply moved_set_inodes; [done|]. exact B1.
  - congruence.
  - congruence.
  - done.
  - intros b Hb. rewrite B4, A4 by done. naive_solver.
Qed.

Lemma freed_iff s P Q s' : (∀ b, 0 ≤ b < NBITS → P b ↔ Q b) → freed s P s' → freed s Q s'.
Proof. intros H [A1 A2 A0 A3 A4]. constructor; [done..|]. intros b Hb. rewrite A4 by done. by rewrite H. Qed.

Lemma freed_inodes s P s' X : freed s P s' → freed s P (set_inodes X s').
Proof. intros [A1 A2 A0 A3 A4]. by constructor. Qed.

Lemma free_block_spec s b : bitmap_ok (block_bitmap s) → data_block b →
  ∃ s', ext3_free_block b s = Ret s' ∧ freed s (fun c => c = b) s' ∧ inodes s' = inodes s.
Proof.
  intros Hbm Hb. assert (0 ≤ b < NBITS) as Hr by (unfold data_block in Hb; lia). unfold ext3_free_block.
  destruct (Z.eqb_spec b 0); [unfold data_block in Hb; lia|]. destruct (bit_byte _ b Hbm Hr) as (v & _ & _ & -> & Hv).
  rewrite bind_ret, land_bit, <-Hv by apply mod8_range. destruct (bit (block_bitmap s) b) eqn:E; cbn [negb].
  - destruct (clear_bitmap_spec _ b Hbm Hr) as (bm' & -> & Hok & Hu). rewrite bind_ret. eexists. split; [done|]. split; [|done].
    constructor; [|done|done|done|].
    + constructor; try done; cbn.
      * intros []. constructor; cbn; try done. apply u32_range.
      * intros []. constructor; cbn; try done. by apply Z.mod_pos_bound.
      * constructor; cbn; auto.
    + intros c Hc. cbn. rewrite Hu by done. case_decide; naive_solver.
  - exists s. split; [done|]. split; [|done]. constructor; [by rewrite set_inodes_same|done|done|done|]. intros c Hc.
    split; [|naive_solver]. intros H. split; [done|]. intros ->. congruence.
Qed.

Section release.
Context (s : ext3) (A : prepared s) (n : nat) (i : ext3_inode) (Hn : inodes s !! n = Some i).
#[local] Set Default Proof Using "A Hn".

(** The blocks of [P] are freed and the entries [zs] of the inode are zero. *)
Definition stage (P : Z → Prop) (zs : list Z) (t : ext3) : Prop :=
  freed s P t ∧ ∃ l, let i' := with_block l i in inodes t = <[n := i']> (inodes s) ∧ inode_ok i' ∧
    ∀ j, 0 ≤ j → iblk i' j = if decide (j ∈ zs) then 0 else iblk i j.

Lemma stage_start : stage (fun _ => False) [] s.
Proof.
  pose proof (ar_work s A) as W. split; [apply freed_none, (to_blkbmp s (ar_tables s A))|]. exists (i_block i). cbv zeta.
  replace (with_block (i_block i) i) with i by by destruct i. split; [by rewrite list_insert_id|]. split; [exact (ino_ok s W n i Hn)|done].
Qed.

Lemma stage_iff P Q zs t : (∀ b, 0 ≤ b < NBITS → P b ↔ Q b) → stage P zs t → stage Q zs t.
Proof. intros H [F R]. split; [by apply (freed_iff s P)|done]. Qed.

Lemma stage_dev P zs t : stage P zs t → dev t = dev s ∧ k_answers t = [] ∧ length (inodes t) = length (inodes s).
Proof.
  intros [F (l & E & _)]. split; [apply (mv_dev _ _ (fr_moved _ _ _ F))|]. split; [|by rewrite E, length_insert].
  change (k_answers t) with (k_answers (set_inodes (inodes s) t)). rewrite (mv_answers _ _ (fr_moved _ _ _ F)). apply A.
Qed.

(** A step that only frees. *)
Lemma stage_freed P zs t Q t' : stage P zs t → freed t Q t' → inodes t' = inodes t → stage (fun b => P b ∨ Q b) zs t'.
Proof.
  intros S F E. pose proof (stage_dev P zs t S) as (_ & _ & Hl). destruct S as [F0 R]. split; [by apply (freed_trans s P t)|]. by rewrite E.
Qed.

Lemma stage_free P zs t b : stage P zs t → data_block b → ∃ t', ext3_free_block b t = Ret t' ∧ stage (fun c => P c ∨ c = b) zs t'.
Proof.
  intros S Hb. destruct (free_block_spec t b) as (t' & E & F & Hi); [apply S|done|]. exists t'. split; [done|]. by eapply stage_freed.
Qed.

Lemma stage_zero P zs t k : stage P zs t → 0 ≤ k < 15 → ∃ t', set_block (Z.of_nat n + 1) k 0 t = Ret t' ∧ stage P (k :: zs) t'.
Proof.
  intros [F (l & E & Hok & Hz)] Hk. pose proof (lookup_lt_Some _ _ _ Hn) as Hlt.
  assert (inodes t !! n = Some (with_block l i)) as Ht by (rewrite E; by apply list_lookup_insert_eq).
  rewrite (set_block_Ret t n _ k 0 Ht Hok Hk). eexists. split; [done|]. split; [by apply freed_inodes|].
  exists (<[Z.to_nat k := 0]> l). cbv zeta. pose proof (inode_ok_insert _ (Z.to_nat k) 0 Hok ltac:(done)) as Hok'.
  split; [cbn; by rewrite E, list_insert_insert_eq|]. split; [exact Hok'|]. intros j Hj.
  pose proof (iblk_insert _ k 0 j Hok Hk Hj) as Ei. cbn [i_block with_block] in Ei.
  change (with_block (<[Z.to_nat k:=0]> l) (with_block l i)) with (with_block (<[Z.to_nat k:=0]> l) i) in Ei. rewrite Ei.
  destruct (decide (j = k)) as [->|Hne]; [by rewrite decide_True by left|]. rewrite Hz by done.
  destruct (decide (j ∈ zs)) as [H|H]; [by rewrite decide_True by by right|]. rewrite decide_False; [done|].
  by rewrite not_elem_of_cons.
Qed.

Lemma stage_block P zs t k : stage P zs t → 0 ≤ k < 15 → k ∉ zs →
  ∃ i', ext3_get_inode (Z.of_nat n + 1) t = Ret i' ∧ ∀ j, 0 ≤ j < 15 → j ∉ zs → load1 (i_block i') j = Ret (iblk i j).
Proof.
  intros [F (l & E & Hok & Hz)] Hk Hnz. pose proof (lookup_lt_Some _ _ _ Hn) as Hlt. exists (with_block l i).
  split; [apply get_inode_Ret; rewrite E; by apply list_lookup_insert_eq|]. intros j Hj Hjz.
  rewrite load_iblk by done. by rewrite Hz, decide_False by (done || lia).
Qed.

(** ** The direct blocks *)

Lemma slot_data sl : slot_in sl → dslot s i sl ≠ 0 → data_block (dslot s i sl).
Proof. intros Hs. rewrite (prepared_dslot s n) by done. by apply (vo_used _ (w_view s (ar_work s A))). Qed.

Definition released (Q : slot → Prop) (b : Z) : Prop := b ≠ 0 ∧ ∃ sl, Q sl ∧ slot_in sl ∧ dslot s i sl = b.

Definition direct (k : Z) (sl : slot) : Prop := match sl with Direct j => j < k | _ => False end.

Lemma stage_skip P zs t k : stage P zs t → iblk i k = 0 → stage P (k :: zs) t.
Proof.
  intros [F (l & E & Hok & Hz)] Hk. split; [done|]. exists l. split; [done|]. split; [done|]. intros j Hj. rewrite Hz by done.
  destruct (decide (j = k)) as [->|Hne]; [rewrite (decide_True (P := k ∈ k :: zs)) by left; by case_decide|].
  destruct (decide (j ∈ zs)) as [H|H]; [by rewrite decide_True by by right|]. rewrite decide_False; [done|].
  by rewrite not_elem_of_cons.
Qed.

(** One more slot. *)
Lemma released_more (Q Q' : slot → Prop) sl0 b : slot_in sl0 → dslot s i sl0 ≠ 0 → (∀ sl, slot_in sl → Q' sl ↔ Q sl ∨ sl = sl0) →
  (released Q b ∨ b = dslot s i sl0) ↔ released Q' b.
Proof.
  intros Hin Hne HQ. split.
  - intros [(H1 & sl & H2 & H3 & H4)| ->]; (split; [done|]); [exists sl|exists sl0]; (split; [apply HQ; naive_solver|done]).
  - intros (H1 & sl & H2 & H3 & H4). apply HQ in H2 as [|]; [left|subst sl; by right|done]. split; [done|]. by exists sl.
Qed.

Lemma released_zero (Q Q' : slot → Prop) sl0 b : dslot s i sl0 = 0 → (∀ sl, slot_in sl → Q' sl ↔ Q sl ∨ sl = sl0) → released Q b ↔ released Q' b.
Proof.
  intros Hz HQ. split; intros (H1 & sl & H2 & H3 & H4); (split; [done|]); exists sl; (split; [|done]).
  - apply HQ; auto.
  - apply HQ in H2 as [|]; [done|congruence|done].
Qed.

Lemma release_direct : ∃ t, foldM (free_direct (Z.of_nat n + 1)) (seqZ 0 EXT3_DIRECT_BLOCKS) s = Ret t ∧
  ∃ zs, stage (released (direct 12)) zs t ∧ ∀ j, j ∈ zs ↔ 0 ≤ j < 12.
Proof.
  apply (foldM_seqZ (fun k t => ∃ zs, stage (released (direct k)) zs t ∧ ∀ j, j ∈ zs ↔ 0 ≤ j < k) _ 0 EXT3_DIRECT_BLOCKS s); [done| |].
  - exists []. split; [|intros j; rewrite elem_of_nil; lia]. eapply stage_iff; [|apply stage_start]. intros b _. split; [done|].
    intros (_ & sl & H & Hs & _). destruct sl; cbn in *; (done || lia).
  - change EXT3_DIRECT_BLOCKS with 12. intros k t Hk (zs & S & Hzs).
    assert (∀ sl, slot_in sl → direct (k + 1) sl ↔ direct k sl ∨ sl = Direct k) as HQ.
    { intros [j| | | | |] _; cbn; try (split; [done|by intros [|]]). split.
      - intros H. destruct (decide (j = k)) as [->|]; [by right|left; lia].
      - intros [|[= ->]]; lia. }
    assert (∀ j, j ∈ k :: zs ↔ 0 ≤ j < k + 1) as Hzs' by (intros j; rewrite elem_of_cons, Hzs; lia).
    destruct (stage_block _ zs t k S) as (i' & E & Hl); [lia|rewrite Hzs; lia|]. unfold free_direct.
    rewrite E, bind_ret, Hl, bind_ret by (lia || (rewrite Hzs; lia)). destruct (Z.eqb_spec (iblk i k) 0) as [Hz|Hnz].
    + exists t. split; [done|]. exists (k :: zs). split; [|done]. apply stage_skip; [|done].
      eapply stage_iff; [|exact S]. intros b _. by apply (released_zero _ _ (Direct k)).
    + assert (slot_in (Direct k)) as Hin by (cbn; lia). destruct (stage_free _ zs t (iblk i k) S) as (t1 & -> & S1).
      { by apply (slot_data (Direct k)). }
      rewrite bind_ret. destruct (stage_zero _ zs t1 k S1 ltac:(lia)) as (t2 & -> & S2). exists t2. split; [done|].
      exists (k :: zs). split; [|done]. eapply stage_iff; [|exact S2]. intros b _. by apply (released_more _ _ (Direct k)).
Qed.

(** ** The blocks of a table *)

Lemma released_or (Q R Q' : slot → Prop) b : (∀ sl, slot_in sl → Q' sl ↔ Q sl ∨ R sl) → (released Q b ∨ released R b) ↔ released Q' b.
Proof.
  intros HQ. split.
  - intros [(H1 & sl & H2 & H3 & H4)|(H1 & sl & H2 & H3 & H4)]; (split; [done|]); exists sl; (split; [apply HQ; auto|done]).
  - intros (H1 & sl & H2 & H3 & H4). apply HQ in H2 as [|]; [left|right|done]; (split; [done|]); by exists sl.
Qed.

(** [mk e] is the slot of entry [e] of a table. *)
Lemma release_entries P zs t table (mk : Z → slot) : stage P zs t → length table = 4096%nat →
  (∀ e, 0 ≤ e < 1024 → slot_in (mk e) ∧ dslot s i (mk e) = field table (4 * Z.to_nat e) 4) →
  ∃ t', free_entries table t = Ret t' ∧ stage (fun b => P b ∨ released (fun sl => ∃ e, 0 ≤ e < 1024 ∧ sl = mk e) b) zs t'.
Proof.
  intros S Hl Hmk. apply (foldM_seqZ (fun k t => stage (fun b => P b ∨ released (fun sl => ∃ e, 0 ≤ e < k ∧ sl = mk e) b) zs t)
    (free_entry table) 0 EXT3_PTRS_PER_BLOCK t); [done| |].
  - eapply stage_iff; [|exact S]. intros b _. split; [by left|]. intros [|(_ & sl & (e & He & _) & _)]; [done|lia].
  - change EXT3_PTRS_PER_BLOCK with 1024. intros k t1 Hk S1. destruct (Hmk k ltac:(lia)) as [Hin Hv]. unfold free_entry.
    rewrite load32_field, bind_ret, <-Hv by (done || lia).
    assert (∀ sl, slot_in sl → (∃ e, 0 ≤ e < k + 1 ∧ sl = mk e) ↔ (∃ e, 0 ≤ e < k ∧ sl = mk e) ∨ sl = mk k) as HQ.
    { intros sl _. split.
      - intros (e & He & ->). destruct (decide (e = k)) as [->|]; [by right|left]. exists e. split; [lia|done].
      - intros [(e & He & ->)| ->]; [exists e|exists k]; (split; [lia|done]). }
    destruct (Z.eqb_spec (dslot s i (mk k)) 0) as [Hz|Hnz].
    + exists t1. split; [done|]. eapply stage_iff; [|exact S1]. intros b _.
      pose proof (released_zero _ (fun sl => ∃ e, 0 ≤ e < k + 1 ∧ sl = mk e) (mk k) b Hz HQ). cbn in *. tauto.
    + destruct (stage_free _ zs t1 _ S1 (slot_data _ Hin Hnz)) as (t2 & -> & S2). exists t2. split; [done|].
      eapply stage_iff; [|exact S2]. intros b _. pose proof (released_more _ (fun sl => ∃ e, 0 ≤ e < k + 1 ∧ sl = mk e) (mk k) b Hin Hnz HQ). cbn in *. tauto.
Qed.

Definition first (sl : slot) : Prop := match sl with Direct _ | IndT | Ind _ => True | _ => False end.
Definition second (k : Z) (sl : slot) : Prop := match sl with Direct _ | IndT | Ind _ => True | DindT => False | Leaf e | Dind e _ => e < k end.

Lemma release_first zs t : stage (released (direct 12)) zs t → ∃ t', free_first (Z.of_nat n + 1) (iblk i 12) t = Ret (true, t') ∧
  stage (released first) (12 :: zs) t'.
Proof.
  intros S. unfold free_first. destruct (Z.eqb_spec (iblk i 12) 0) as [Hz|Hnz].
  - exists t. split; [done|]. apply stage_skip; [|done]. eapply stage_iff; [|exact S]. intros b _.
    split; intros (H1 & sl & H2 & H3 & H4); (split; [done|]); exists sl; (split; [|done]); destruct sl; cbn [direct first second slot_in] in *; try (done || lia).
    + unfold dslot in H4. cbn [slot_val] in H4. congruence.
    + unfold dslot in H4. cbn [slot_val] in H4. unfold entry in H4. rewrite Hz in H4. cbn [Z.eqb] in H4. congruence.
  - pose proof (slot_data IndT I Hnz) as Hd. unfold dslot in Hd. cbn [slot_val] in Hd. destruct (stage_dev _ _ _ S) as (Hdev & Ha & _).
    rewrite load_table, Hdev by done. change EXT3_IND_BLOCK with 12.
    destruct (release_entries _ zs t (block (dev s) (iblk i 12)) Ind S) as (t1 & -> & S1); [apply block_ok, A| |].
    { intros e He. split; [done|]. unfold dslot. cbn [slot_val]. by apply entry_field. }
    rewrite bind_ret. destruct (stage_free _ zs t1 _ S1 Hd) as (t2 & -> & S2). rewrite bind_ret.
    destruct (stage_zero _ zs t2 12 S2 ltac:(lia)) as (t3 & -> & S3). rewrite bind_ret. exists t3. split; [done|].
    eapply stage_iff; [|exact S3]. intros b _. cbn beta.
    rewrite (released_or _ _ (fun sl => direct 12 sl ∨ ∃ e, 0 ≤ e < 1024 ∧ sl = Ind e)) by done.
    apply (released_more _ first IndT b I Hnz). intros sl Hin. destruct sl; cbn [direct first second slot_in] in *; naive_solver lia.
Qed.

Lemma release_leaf zs t k : stage (released (second k)) zs t → 0 ≤ k < 1024 → iblk i 13 ≠ 0 →
  ∃ t', free_leaf (block (dev s) (iblk i 13)) (Some t, t) k = Ret (Some t', t') ∧ stage (released (second (k + 1))) zs t'.
Proof.
  intros S Hk Hnz. unfold free_leaf. rewrite load32_field, bind_ret by (done || apply block_ok, A).
  rewrite <-(entry_field _ _ _ Hnz). change (entry (block (dev s)) (iblk i 13) k) with (dslot s i (Leaf k)).
  assert (∀ e, dslot s i (Dind k e) = entry (block (dev s)) (dslot s i (Leaf k)) e) as Hdd by done.
  destruct (Z.eqb_spec (dslot s i (Leaf k)) 0) as [Hz|Hl].
  - exists t. split; [done|]. eapply stage_iff; [|exact S]. intros b _.
    split; intros (H1 & sl & H2 & H3 & H4); (split; [done|]); exists sl; (split; [|done]); destruct sl as [| | | |e|e f]; cbn [direct first second slot_in] in *; try (done || lia);
      (destruct (decide (e = k)) as [->|]; [|lia]); [congruence|]. rewrite Hdd, Hz in H4. unfold entry in H4. cbn [Z.eqb] in H4. congruence.
  - pose proof (slot_data (Leaf k) Hk Hl) as Hd. destruct (stage_dev _ _ _ S) as (Hdev & Ha & _).
    rewrite load_table, Hdev by done.
    destruct (release_entries _ zs t (block (dev s) (dslot s i (Leaf k))) (Dind k) S) as (t1 & -> & S1); [apply block_ok, A| |].
    { intros e He. split; [done|]. rewrite Hdd. by apply entry_field. }
    rewrite bind_ret. destruct (stage_free _ zs t1 _ S1 Hd) as (t2 & -> & S2). rewrite bind_ret. exists t2. split; [done|].
    eapply stage_iff; [|exact S2]. intros b _. cbn beta.
    rewrite (released_or _ _ (fun sl => second k sl ∨ ∃ e, 0 ≤ e < 1024 ∧ sl = Dind k e)) by done.
    apply (released_more _ (second (k + 1)) (Leaf k) b Hk Hl). intros sl Hin. destruct sl as [| | | |e|e f]; cbn [direct first second slot_in] in *; try naive_solver.
    + split; [intros H; destruct (decide (e = k)) as [->|]; [by right|left; left; lia]|]. intros [[|(? & _ & ?)]|[= ->]]; (done || lia).
    + split; [intros H; destruct (decide (e = k)) as [->|]; left; [right; exists f; naive_solver|left; lia]|].
      intros [[|(? & _ & [= -> ->])]|]; (done || lia).
Qed.

Lemma release_second zs t : stage (released first) zs t → ∃ t', free_second (Z.of_nat n + 1) (iblk i 13) t = Ret (true, t') ∧
  stage (released (fun _ => True)) (13 :: zs) t'.
Proof.
  intros S. unfold free_second. destruct (Z.eqb_spec (iblk i 13) 0) as [Hz|Hnz].
  - assert (∀ e, dslot s i (Leaf e) = 0) as Hleaf by (intros e; unfold dslot; cbn [slot_val]; by rewrite Hz).
    exists t. split; [done|]. apply stage_skip; [|done]. eapply stage_iff; [|exact S]. intros b _.
    split; intros (H1 & sl & H2 & H3 & H4); (split; [done|]); exists sl; (split; [|done]); [done|]. destruct sl as [| | | |e|e f]; cbn; try done.
    + unfold dslot in H4. cbn [slot_val] in H4. congruence.
    + rewrite Hleaf in H4. congruence.
    + change (dslot s i (Dind e f)) with (entry (block (dev s)) (dslot s i (Leaf e)) f) in H4. rewrite Hleaf in H4. unfold entry in H4. cbn [Z.eqb] in H4. congruence.
  - pose proof (slot_data DindT I Hnz) as Hd. unfold dslot in Hd. cbn [slot_val] in Hd. destruct (stage_dev _ _ _ S) as (Hdev & Ha & _).
    rewrite load_table, Hdev by done.
    destruct (foldM_seqZ (fun k r => ∃ t', r = (Some t', t') ∧ stage (released (second k)) zs t') (free_leaf (block (dev s) (iblk i 13)))
      0 EXT3_PTRS_PER_BLOCK (Some t, t)) as (r & -> & t1 & -> & S1); [done| | |].
    + exists t. split; [done|]. eapply stage_iff; [|exact S]. intros b _.
      split; intros (H1 & sl & H2 & H3 & H4); (split; [done|]); exists sl; (split; [|done]); destruct sl; cbn [direct first second slot_in] in *; (done || lia).
    + change EXT3_PTRS_PER_BLOCK with 1024. intros k r Hk (t' & -> & S'). destruct (release_leaf zs t' k S' ltac:(lia) Hnz) as (t2 & -> & S2).
      eexists. split; [done|]. by exists t2.
    + rewrite bind_ret. cbv beta iota. destruct (stage_free _ zs t1 _ S1 Hd) as (t2 & -> & S2). rewrite bind_ret.
      change EXT3_DIND_BLOCK with 13. destruct (stage_zero _ zs t2 13 S2 ltac:(lia)) as (t3 & -> & S3). rewrite bind_ret. exists t3. split; [done|].
      eapply stage_iff; [|exact S3]. intros b _. apply (released_more _ _ DindT b I Hnz). change (0 + EXT3_PTRS_PER_BLOCK) with 1024.
      intros sl Hin. destruct sl; cbn [direct first second slot_in] in *; naive_solver lia.
Qed.

(** ** A file without blocks *)

Definition owned (b : Z) : Prop := b ≠ 0 ∧ ∃ sl, slot_in sl ∧ slotv (view_of s) n sl = b.

Record emptied (i' : ext3_inode) (s' : ext3) : Prop := {
  em_moved : moved s s';
  em_dirty : d_blkdirty (rootdirty s') = [];
  em_inodes : inodes s' = <[n := i']> (inodes s);
  em_bm : bitmap_ok (block_bitmap s');
  em_bits : ∀ b, 0 ≤ b < NBITS → bit (block_bitmap s') b = true ↔ bit (block_bitmap s) b = true ∧ ¬ owned b }.

Context (i' : ext3_inode) (Hi' : inode_ok i') (Hzero : ∀ j, 0 ≤ j < 14 → iblk i' j = 0).
#[local] Set Default Proof Using "A Hn Hi' Hzero".

Lemma emptied_slots s' m sl : emptied i' s' → slot_in sl → slotv (view_of s') m sl = if decide (m = n) then 0 else slotv (view_of s) m sl.
Proof.
  intros [M Hd Hin _ _] Hs. assert (∀ b, vblk s' b = vblk s b) as Hv.
  { intros b. apply vblk_same; [apply M|apply M|]. by rewrite Hd, (ar_dirty s A). }
  pose proof (lookup_lt_Some _ _ _ Hn) as Hlt. unfold slotv. cbn [view_of v_ino v_blk]. rewrite Hin. case_decide as E.
  - subst m. rewrite list_lookup_insert_eq by done. destruct sl as [j| | | | |]; cbn [slot_val slot_in] in *; rewrite !Hzero by lia; done.
  - rewrite list_lookup_insert_ne by done. destruct (inodes s !! m); [|done]. by apply slot_val_eq.
Qed.

Lemma emptied_working s' : emptied i' s' → working s'.
Proof.
  intros E. pose proof E as [M Hd Hin Hbm Hbits]. pose proof (ar_work s A) as W. pose proof (w_view s W) as HV.
  assert (∀ b, vblk s' b = vblk s b) as Hv.
  { intros b. apply vblk_same; [apply M|apply M|]. by rewrite Hd, (ar_dirty s A). }
  apply mk_working.
  - rewrite (mv_dev _ _ M). apply W.
  - rewrite (mv_answers _ _ M). apply W.
  - constructor; cbn [view_of v_ino v_bm v_blk].
    + intros b. rewrite Hv. apply (vo_blk _ HV).
    + rewrite Hin, length_insert. apply (vo_ino _ HV).
    + rewrite Hin. apply Forall_insert; [apply (vo_each _ HV)|done].
    + done.
    + intros b Hb. apply Hbits; [unfold NBITS; lia|]. split; [by apply (vo_meta _ HV)|]. intros (Hne & sl & Hs & Hsl).
      rewrite <-Hsl in Hne. destruct (vo_used _ HV n sl Hs Hne) as [Hdb _]. unfold data_block in Hdb. lia.
    + intros m sl Hs. rewrite (emptied_slots s' m sl E Hs). case_decide as Em; [done|]. intros Hne.
      destruct (vo_used _ HV m sl Hs Hne) as [H1 H2]. split; [done|]. apply Hbits; [unfold data_block in H1; lia|]. split; [done|].
      intros (_ & sl' & Hs' & Hsl'). symmetry in Hsl'. by destruct (vo_inj _ HV m sl n sl' Hs Hs' Hne Hsl').
    + intros m sl m' sl' H1 H2. rewrite (emptied_slots s' m sl E H1), (emptied_slots s' m' sl' E H2). intros Ha Hb.
      destruct (decide (m = n)); [done|]. destruct (decide (m' = n)); [by rewrite Hb in Ha|by apply (vo_inj _ HV)].
  - unfold dirty_blocks. rewrite Hd. constructor.
  - intros b x. rewrite Hd. intros H. by apply not_elem_of_nil in H.
  - intros b. unfold dirty_blocks. rewrite Hd. intros H. by apply not_elem_of_nil in H.
Qed.

Lemma emptied_fbyte s' m p : emptied i' s' → 0 ≤ p < 2 ^ 32 → fbyte s' m p = if decide (m = n) then 0 else fbyte s m p.
Proof.
  intros E Hp. pose proof E as [M Hd _ _ _]. assert (slot_in (data_slot (p / 4096))) as Hs.
  { apply data_slot_in. split; [apply Z.div_pos; lia|apply Z.div_lt_upper_bound; lia]. }
  pose proof (emptied_slots s' m _ E Hs) as Hsl. case_decide as Em.
  - rewrite fbyte_slot, Hsl. done.
  - apply fbyte_same; [done|]. intros _. apply vblk_same; [apply M|apply M|]. by rewrite Hd, (ar_dirty s A).
Qed.
End release.

(** ** Releasing *)

Lemma release_blocks_spec s n i : prepared s → inodes s !! n = Some i → ∃ s' i', ext3_release_inode_blocks (Z.of_nat n + 1) s = Ret s' ∧
  emptied s n i' s' ∧ inode_ok i' ∧ (∀ j, 0 ≤ j < 14 → iblk i' j = 0) ∧ i_size i' = 0 ∧ inode_meta i' ∧ inode_bitmap s' = inode_bitmap s.
Proof.
  intros A Hn. pose proof (lookup_lt_Some _ _ _ Hn) as Hlt. unfold ext3_release_inode_blocks. destruct (Z.eqb_spec (Z.of_nat n + 1) 0); [lia|].
  destruct (release_direct s A n i Hn) as (t1 & -> & zs & S1 & Hzs). rewrite bind_ret. consts.
  destruct (stage_block s A n i Hn _ zs t1 12 S1) as (i1 & -> & Hl); [lia|rewrite Hzs; lia|].
  rewrite bind_ret, (Hl 12), bind_ret by (lia || (rewrite Hzs; lia)).
  destruct (release_first s A n i Hn zs t1 S1) as (t2 & -> & S2). rewrite bind_ret. cbv beta iota. cbn [negb].
  rewrite (Hl 13), bind_ret by (lia || (rewrite Hzs; lia)).
  destruct (release_second s A n i Hn _ t2 S2) as (t3 & -> & F & l & Hi & Hok & Hz). rewrite bind_ret. cbv beta iota. cbn [negb].
  assert (inodes t3 !! n = Some (with_block l i)) as Hn3 by (rewrite Hi; by apply list_lookup_insert_eq).
  rewrite (get_inode_Ret t3 n _ Hn3), bind_ret, (set_inode_Ret t3 n _ _ Hn3), bind_ret.
  set (i' := with_size 0 0 (with_block l i)). eexists _, i'. split; [done|].
  rewrite Hi, list_insert_insert_eq. pose proof (fr_moved _ _ _ F) as M.
  assert (k_answers t3 = []) as Ha by (exact (eq_trans (mv_answers _ _ M) (w_ans s (ar_work s A)))).
  split; [|split; [exact Hok|split; [|split; [done|split; [|rewrite mark_inode_spec by done; apply (fr_inobmp _ _ _ F)]]]]].
  - pose proof (moved_inode (set_inodes (inodes s) t3) n i' Ha Hlt) as M2. cbn [inodes set_inodes] in M2.
    change (set_inodes (<[n:=i']> (inodes s)) (set_inodes (inodes s) t3)) with (set_inodes (<[n:=i']> (inodes s)) t3) in M2.
    constructor; [by etrans|rewrite mark_inode_spec by done; cbn; rewrite (fr_dirty _ _ _ F), (ar_dirty s A); done|by rewrite mark_inode_spec|
      rewrite mark_inode_spec by done; apply (fr_bm _ _ _ F)|].
    rewrite mark_inode_spec by done. intros b Hb. cbn [block_bitmap set_dirty set_inodes].
    rewrite (fr_bits _ _ _ F b Hb). unfold released, owned. setoid_rewrite (prepared_dslot s n i) ; [|done|done]. naive_solver.
  - intros j Hj. change (iblk i' j) with (iblk (with_block l i) j). rewrite Hz by lia. rewrite decide_True; [done|].
    rewrite !elem_of_cons, Hzs. lia.
  - apply inode_meta_size; [done|done|]. apply inode_meta_block. destruct (to_inodes s (ar_tables s A)) as (_ & _ & Hm).
    exact (Forall_lookup_1 _ _ _ _ Hm Hn).
Qed.

(** Clearing the bit of an inode. *)
Lemma moved_inobmp s k first bm : (super_ok (super_block s) → is_u32 first) → bitmap_ok bm → moved s (put_inode_bitmap k first bm s).
Proof.
  intros Hf Hbm. constructor; try done; cbn.
  - intros H. pose proof (Hf H). destruct H. constructor; cbn; try done. apply u32_range.
  - intros []. constructor; cbn; try done. by apply Z.mod_pos_bound.
  - constructor; cbn; auto.
Qed.

Lemma zero_inode_ok : inode_ok zero_inode ∧ (∀ j, 0 ≤ j < 14 → iblk zero_inode j = 0) ∧ inode_meta zero_inode.
Proof.
  split; [split; [done|by apply Forall_replicate]|]. split.
  - intros j _. unfold iblk. rewrite nth_lookup. destruct (i_block zero_inode !! _) as [v|] eqn:E; [|done]. by apply lookup_replicate in E as [-> _].
  - constructor; try done; (split; [done|]); by apply Forall_replicate.
Qed.

Lemma release_inode_spec s n i : prepared s → inodes s !! n = Some i → ∃ s', ext3_release_inode (Z.of_nat n + 1) s = Ret s' ∧
  emptied s n zero_inode s' ∧ update_bit (inode_bitmap s) (Z.of_nat n) false (inode_bitmap s').
Proof.
  intros A Hn. pose proof (lookup_lt_Some _ _ _ Hn) as Hlt. unfold ext3_release_inode. destruct (Z.eqb_spec (Z.of_nat n + 1) 0); [lia|].
  destruct (release_blocks_spec s n i A Hn) as (s1 & i1 & -> & E & _ & _ & _ & _ & Hib). rewrite bind_ret. pose proof E as [M Hd Hi Hbm Hbits].
  assert (inodes s1 !! n = Some i1) as Hn1 by (rewrite Hi; by apply list_lookup_insert_eq).
  rewrite (set_inode_Ret s1 n _ _ Hn1), bind_ret. destruct (Z.ltb_spec 0 (Z.of_nat n + 1)); [|lia].
  change (inode_bitmap (set_inodes (<[n:=zero_inode]> (inodes s1)) s1)) with (inode_bitmap s1). rewrite Hib.
  replace (Z.of_nat n + 1 - 1) with (Z.of_nat n) by lia. destruct (to_inodes s (ar_tables s A)) as (Hlen & _).
  destruct (clear_bitmap_spec (inode_bitmap s) (Z.of_nat n) (to_inobmp s (ar_tables s A)) ltac:(unfold NBITS; lia)) as (bm & -> & Hu). rewrite bind_ret.
  set (f := s_first_ino _). set (t := put_inode_bitmap 1 f bm s1). exists (ext3_mark_inode_dirty (Z.of_nat n + 1) (set_inodes (<[n:=zero_inode]> (inodes t)) t)).
  split; [done|]. assert (k_answers t = []) as Ha by (exact (eq_trans (mv_answers _ _ M) (w_ans s (ar_work s A)))).
  split; [|rewrite mark_inode_spec by done; exact Hu].
  constructor.
  - etrans; [exact M|]. etrans; [apply (moved_inobmp s1 1 f bm); [by intros []|apply Hu]|]. apply moved_inode; [done|].
    change (inodes t) with (inodes s1). by rewrite Hi, length_insert.
  - by rewrite mark_inode_spec.
  - rewrite mark_inode_spec by done. cbn. by rewrite Hi, list_insert_insert_eq.
  - by rewrite mark_inode_spec.
  - rewrite mark_inode_spec by done. exact Hbits.
Qed.

(** An inode that is gone, once it is flushed. *)
Lemma release_flush_spec s n i : prepared s → inodes s !! n = Some i → ∃ s1 s', ext3_release_inode (Z.of_nat n + 1) s = Ret s1 ∧
  ext3_flush s1 = Ret s' ∧ prepared s' ∧ inodes s' = <[n := zero_inode]> (inodes s) ∧
  update_bit (inode_bitmap s) (Z.of_nat n) false (inode_bitmap s') ∧
  (∀ b, 0 ≤ b < NBITS → bit (block_bitmap s') b = true ↔ bit (block_bitmap s) b = true ∧ ¬ owned s n b) ∧
  ∀ m p, 0 ≤ p < 2 ^ 32 → m ≠ n → fbyte s' m p = fbyte s m p.
Proof.
  intros A Hn. destruct (release_inode_spec s n i A Hn) as (s1 & E1 & Em & Hu). destruct zero_inode_ok as (Hz1 & Hz2 & Hz3).
  pose proof (emptied_working s A n i Hn zero_inode Hz1 Hz2 s1 Em) as W1. destruct (to_inodes s (ar_tables s A)) as (Hlen & _ & Hm).
  destruct (flush_rest s1 W1) as (s' & E2 & A' & Hi & Hb & _ & Hbm & Him).
  { apply (tables_moved s); [apply A|done|apply Em|]. rewrite (em_inodes _ _ _ _ Em). by apply Forall_insert. }
  { apply (lag_moved s); [done|apply Em|by apply prepared_lag]. }
  exists s1, s'. split; [done|]. split; [done|]. split; [done|]. split; [by rewrite Hi, (em_inodes _ _ _ _ Em)|].
  split; [by rewrite Him|]. split; [by rewrite Hbm; apply Em|]. intros m p Hp Hne.
  rewrite Hb, (emptied_fbyte s A n i Hn zero_inode Hz1 Hz2 s1 m p Em), decide_False by done. done.
Qed.
