(* ===== verification/Ext3Correct.v ===== *)
(** * The file system: what files promise

    A formatted disk, and the theorems on reading, writing and releasing files, for a file
    system at rest and calls that find memory for their buffers. *)

From S2P Require Import Prelude Ring Words Bytes Ext3 Ext3Bits Ext3View Ext3Ops Ext3Ensure Ext3Write Ext3Sync Ext3Props Ext3Release.

(** ** A formatted disk *)

(** Empty tables; the first twelve blocks, which hold them, are in use. *)
Definition bitmap0 : list Z := 255 :: 15 :: replicate 4094 0.
Definition disk0 : gmap Z (list Z) := {[16 := 255 :: 15 :: replicate 510 0]}.
Definition super0 : ext3_super_block := Super (replicate 12 0) 0 0 (replicate 64 0) 0 (replicate 936 0).
Definition group0 : ext3_group_desc := Group (replicate 12 0) 0 0 (replicate 4080 0).
Definition fs0 : ext3 :=
  Fs disk0 super0 group0 (replicate 256 zero_inode) (replicate 4096 0) bitmap0 (Dirty false false false false [] []) [] [].

(** The same disk with every block in use. *)
Definition full_fs : ext3 :=
  Fs disk0 super0 group0 (replicate 256 zero_inode) (replicate 4096 0) (replicate 4096 255) (Dirty false false false false [] []) [] [].

Lemma zero_slot blk sl : slot_val blk zero_inode sl = 0.
Proof.
  assert (∀ k, iblk zero_inode k = 0) as H.
  { intros k. unfold iblk. rewrite nth_lookup. destruct (i_block zero_inode !! _) as [v|] eqn:E; [|done]. by apply lookup_replicate in E as [-> _]. }
  destruct sl; cbn [slot_val]; rewrite !H; done.
Qed.

Lemma slot0 m sl : slotv (view_of fs0) m sl = 0.
Proof.
  unfold slotv. cbn [view_of v_ino fs0 inodes]. destruct (replicate 256 zero_inode !! m) as [i|] eqn:E; [|done].
  apply lookup_replicate in E as [-> _]. apply zero_slot.
Qed.

Lemma disk0_ok : dev_ok disk0.
Proof.
  intros k l H. unfold disk0 in H. apply lookup_singleton_Some in H as [_ <-]. split; [done|]. constructor; [done|]. constructor; [done|]. by apply Forall_replicate.
Qed.

Lemma bitmap0_ok : bitmap_ok bitmap0.
Proof. split; [done|]. constructor; [done|]. constructor; [done|]. by apply Forall_replicate. Qed.

Lemma bitmap0_bit b : 16 ≤ b → bit bitmap0 b = false.
Proof.
  intros Hb. unfold bit, bitmap0. assert (2 ≤ b / 8) by (apply Z.div_le_lower_bound; lia).
  replace (Z.to_nat (b / 8)) with (S (S (Z.to_nat (b / 8 - 2)))) by lia. cbn [nth]. rewrite nth_lookup.
  destruct (replicate 4094 0 !! _) as [v|] eqn:E; cbn [default]; [apply lookup_replicate in E as [-> _]|]; apply Z.testbit_0_l.
Qed.

(** The blocks past the first sixteen are free. *)
Lemma bitmap0_free (k : nat) : (k ≤ 1000)%nat → (k ≤ free_count bitmap0)%nat.
Proof.
  intros Hk. unfold free_count. rewrite <-(Nat2Z.id k), <-(length_seqZ 16 (Z.of_nat k)). apply submseteq_length, NoDup_submseteq; [apply NoDup_seqZ|].
  intros b Hb%elem_of_seqZ. apply clear_bits_elem. unfold NBITS. split; [apply bitmap0_bit; lia|lia].
Qed.

Lemma working0 : working fs0.
Proof.
  apply mk_working; [apply disk0_ok|done| |constructor|..].
  - constructor; cbn [view_of v_blk v_ino v_bm fs0 inodes block_bitmap].
    + intros b. apply (block_ok disk0 b disk0_ok).
    + apply length_replicate.
    + apply Forall_replicate. split; [done|]. by apply Forall_replicate.
    + apply bitmap0_ok.
    + intros b Hb. assert (b ∈ seqZ 0 12) as Hin by (apply elem_of_seqZ; lia). revert b Hin Hb.
      apply (Forall_forall (fun b => 0 ≤ b < 12 → bit bitmap0 b = true)). repeat constructor.
    + intros m sl _ H. by rewrite slot0 in H.
    + intros m sl m' sl' _ _ H. by rewrite slot0 in H.
  - intros b x Hin. by apply not_elem_of_nil in Hin.
  - intros b Hin. by apply not_elem_of_nil in Hin.
Qed.

Lemma inode_meta0 : inode_meta zero_inode.
Proof. constructor; try done; (split; [done|]); by apply Forall_replicate. Qed.

Lemma tables0 : tables_ok fs0.
Proof.
  constructor; [constructor|constructor|..]; try done; try (split; [apply length_replicate|by apply Forall_replicate]).
  - split; [apply length_replicate|]. split; apply Forall_replicate; [|apply inode_meta0]. split; [done|]. by apply Forall_replicate.
  - apply bitmap0_ok.
Qed.

Lemma sector0 k : k ≠ 16 → sector disk0 k = replicate 512 0.
Proof. intros H. unfold sector, disk0. by rewrite lookup_singleton_ne. Qed.

Lemma stored0 : stored disk0 fs0.
Proof.
  constructor.
  - reflexivity.
  - reflexivity.
  - reflexivity.
  - reflexivity.
  - intros k Hk. rewrite sector0 by lia. unfold ino_sector. cbn [inodes fs0]. rewrite drop_replicate, take_replicate, Nat.min_l by lia. reflexivity.
Qed.

Lemma rest0 : at_rest fs0.
Proof. constructor; [apply working0|apply tables0|done|apply stored0]. Qed.

Lemma memory0 : memory_available fs0.
Proof. done. Qed.

(** Anything within the direct blocks fits. *)
Lemma fits0 (n : nat) base count : 0 ≤ base → (base + count - 1) / 4096 ≤ 11 → fits fs0 n base count.
Proof.
  intros Hb Hc. exists (-1). split; [intros lb; lia|]. cbn [fs0 block_bitmap]. pose proof (bitmap0_free 14 ltac:(lia)).
  pose proof (Z.div_pos base 4096). lia.
Qed.

(** The disk with three bytes in a file. *)
Lemma written0 : ∃ s i, ext3_write (File 16 0 0) (Some [5; 6; 7]) 3 fs0 = Ret (3, File 16 0 3, s) ∧ at_rest s ∧ memory_available s ∧
  inodes s !! 15%nat = Some i ∧ i_size i = 3 ∧ file_slice s 15 0 3 = [5; 6; 7].
Proof.
  destruct (ext3_write_spec fs0 15 zero_inode (File 16 0 0) [5; 6; 7] 3 (Build_prepared fs0 rest0 memory0)) as (s & E & [A M] & Hs & _ & Hz);
    [done|done|done|by repeat constructor|done|done|done|by apply (fits0 15 0 3)|]. specialize (Hz 15%nat). rewrite decide_True in Hz by reflexivity.
  destruct (inodes s !! 15%nat) as [i|] eqn:Ei; [|discriminate Hz]. injection Hz as Hz.
  exact (ex_intro _ s (ex_intro _ i (conj E (conj A (conj M (conj Ei (conj Hz Hs))))))).
Qed.

(** C8: On a file system at rest, with memory for the block and table buffers, a read at a
    position returns as many bytes as were asked for and are left before the end of the file,
    puts exactly the bytes of the file into the buffer and nothing past them, moves the
    position, and changes nothing on the file system. *)
Theorem read_correct (s : ext3) (n : nat) (i : ext3_inode) (f : file) (buf : list Z) (count : Z) :
  at_rest s → memory_available s → inodes s !! n = Some i → f_ino f = Z.of_nat n + 1 → is_u32 (f_pos f) → 0 ≤ count < 2 ^ 31 →
  let total := Z.max 0 (Z.min count (i_size i - f_pos f)) in total ≤ Z.of_nat (length buf) →
  ext3_read f (Some buf) count s =
  Ret (total, File (f_ino f) (f_flags f) (f_pos f + total), Some (file_slice s n (f_pos f) total ++ drop (Z.to_nat total) buf), s).
Proof. intros A M. by apply ext3_read_spec. Qed.

Lemma read_correct_witness : ∃ s, ext3_write (File 16 0 0) (Some [5; 6; 7]) 3 fs0 = Ret (3, File 16 0 3, s) ∧
  ext3_read (File 16 0 0) (Some [0; 0; 0; 9]) 100 s = Ret (3, File 16 0 3, Some [5; 6; 7; 9], s).
Proof.
  destruct written0 as (s & i & E & A & M & Hn & Hz & Hs). exists s. split; [exact E|]. clear E.
  rewrite (read_correct s 15 i (File 16 0 0) [0; 0; 0; 9] 100 A M Hn); [|reflexivity|done|done|cbn [f_pos]; rewrite Hz; vm_compute; discriminate].
  cbn [f_pos f_ino f_flags]. rewrite Hz. change (Z.max 0 (Z.min 100 (3 - 0))) with 3. rewrite Hs. reflexivity.
Defined.

(** C5: A write on a file system at rest, with memory for its buffers, that has room for its
    blocks and two tables and at most one new block behind the tables, returns the number of
    bytes it was given.  After it the bytes at its position, or at the end of the file under
    O_APPEND, are those of the buffer; every other byte of every file is what it was; the size
    covers the new bytes; and the file system is at rest again: no block is shared, the
    bitmap covers every block in use, and the device holds the tables. *)
Theorem write_correct (s : ext3) (n : nat) (i : ext3_inode) (f : file) (buf : list Z) (count : Z) :
  at_rest s → memory_available s → inodes s !! n = Some i → f_ino f = Z.of_nat n + 1 → is_u32 (f_pos f) → Forall is_byte buf →
  0 ≤ count ≤ Z.of_nat (length buf) → count < 2 ^ 31 →
  let base := if append f then i_size i else f_pos f in base + count < 2 ^ 32 → fits s n base count →
  ∃ s', ext3_write f (Some buf) count s = Ret (count, File (f_ino f) (f_flags f) (base + count), s') ∧ at_rest s' ∧
    file_slice s' n base count = take (Z.to_nat count) buf ∧
    (∀ m p, 0 ≤ p < 2 ^ 32 → ¬ (m = n ∧ base ≤ p < base + count) → fbyte s' m p = fbyte s m p) ∧
    ∀ m, i_size <$> inodes s' !! m = if decide (m = n) then Some (Z.max (i_size i) (base + count)) else i_size <$> inodes s !! m.
Proof.
  intros A M H1 H2 H3 H4 H5 H6 base H7 H8.
  destruct (ext3_write_spec s n i f buf count (Build_prepared s A M) H1 H2 H3 H4 H5 H6 H7 H8) as (s' & E & [A' _] & H).
  exact (ex_intro _ s' (conj E (conj A' H))).
Qed.

Lemma write_correct_witness : ∃ s', ext3_write (File 16 0 4095) (Some [5; 6]) 2 fs0 = Ret (2, File 16 0 4097, s') ∧
  file_slice s' 15 4095 2 = [5; 6].
Proof.
  destruct (write_correct fs0 15 zero_inode (File 16 0 4095) [5; 6] 2 rest0 memory0) as (s' & E & _ & Hs & _);
    [done|done|done|by repeat constructor|done|done|done|by apply (fits0 15 4095 2)|exact (ex_intro _ s' (conj E Hs))].
Defined.

(** C4: What was written survives.  A write as in C5 returns all its bytes, and the device it
    leaves, mounted again from any memory contents with memory for the lists and buffers,
    gives back the bytes that were written. *)
Theorem write_survives_remount (s : ext3) (n : nat) (i : ext3_inode) (f : file) (data buf : list Z) :
  at_rest s → memory_available s → inodes s !! n = Some i → f_ino f = Z.of_nat n + 1 → append f = false → 0 ≤ f_pos f → Forall is_byte data →
  let count := Z.of_nat (length data) in count < 2 ^ 31 → f_pos f + count < 2 ^ 32 → fits s n (f_pos f) count → length buf = length data →
  ∃ s' f', ext3_write f (Some data) count s = Ret (count, f', s') ∧
    ∀ t, dev t = dev s' → memory_available t → ext3_read f (Some buf) count (init_tables t) = Ret (count, f', Some data, init_tables t).
Proof.
  intros A M Hn Hf Ha Hp Hb count Hc Hend Hfit Hl. pose proof (Build_prepared s A M) as R.
  destruct (ext3_write_spec s n i f data count R) as (s' & Ew & A' & Hs & _ & Hsz); try done; try (unfold count; lia);
    rewrite ?Ha; try done; [unfold is_u32, U32; lia|]. rewrite Ha in *. exists s', (File (f_ino f) (f_flags f) (f_pos f + count)). split; [done|].
  intros t Hd Ht. destruct (remount_spec s' t A' Hd Ht) as (A2 & Hi2 & Hb2 & _).
  pose proof (Hsz n) as Hszn. rewrite decide_True in Hszn by done. destruct (inodes s' !! n) as [i'|] eqn:Hn'; [|done].
  cbn in Hszn. injection Hszn as Hsize. rewrite <-Hi2 in Hn'.
  rewrite (ext3_read_spec (init_tables t) n i' f buf count) by (done || (unfold is_u32, U32; lia) || lia).
  replace (Z.max 0 (Z.min count (i_size i' - f_pos f))) with count by lia. rewrite drop_ge, app_nil_r by lia.
  do 4 f_equal. unfold file_slice in *. rewrite (list_fmap_ext _ (fbyte s' n)) by (intros; apply Hb2). rewrite Hs. apply take_ge. lia.
Qed.

Lemma write_survives_remount_witness : ∃ s' f', ext3_write (File 16 0 4094) (Some [5; 6; 7]) 3 fs0 = Ret (3, f', s') ∧
  let t := init_tables (set_dev (dev s') full_fs) in ext3_read (File 16 0 4094) (Some [0; 0; 0]) 3 t = Ret (3, f', Some [5; 6; 7], t).
Proof.
  destruct (write_survives_remount fs0 15 zero_inode (File 16 0 4094) [5; 6; 7] [0; 0; 0] rest0 memory0) as (s' & f' & E & H);
    [done|done|done|done|by repeat constructor|done|done|by apply (fits0 15 4094 3)|done|].
  exact (ex_intro _ s' (ex_intro _ f' (conj E (H (set_dev (dev s') full_fs) eq_refl eq_refl)))).
Defined.

(** C6: On a file system at rest with memory and three free blocks, a block of a file that is
    not there yet takes a free block, and tables that were free: the file has it at that
    place, the bitmap shows it, no two places of any files share a block, and every byte
    outside of the new block is unchanged.  The new block, a hole before, shows what the
    device holds there until it is written. *)
Theorem allocation_exclusive (s : ext3) (n : nat) (i : ext3_inode) (lb : Z) :
  at_rest s → memory_available s → inodes s !! n = Some i → lb_ok lb → slotv (view_of s) n (data_slot lb) = 0 →
  (3 ≤ free_count (block_bitmap s))%nat →
  ∃ b s', ext3_inode_ensure_block (Z.of_nat n + 1) lb s = Ret (b, s') ∧ slotv (view_of s') n (data_slot lb) = b ∧ data_block b ∧
    bit (block_bitmap s) b = false ∧ bit (block_bitmap s') b = true ∧
    (∀ m sl m' sl', slot_in sl → slot_in sl' → slotv (view_of s') m sl ≠ 0 → slotv (view_of s') m sl = slotv (view_of s') m' sl' → m = m' ∧ sl = sl') ∧
    (∀ m p, lb_ok (p / 4096) → (m, p / 4096) ≠ (n, lb) → fbyte s' m p = fbyte s m p) ∧
    ∀ p, p / 4096 = lb → fbyte s n p = 0 ∧ fbyte s' n p = nth (Z.to_nat (p mod 4096)) (block (dev s) b) 0.
Proof.
  intros A M Hn Hlb Hz Hf. pose proof (ar_work s (Build_prepared s A M)) as W.
  destruct (ensure_new s W n i Hn lb Hlb Hz) as (s' & sls & E & En); [lia|right; split; [done|]|].
  { intros st _ _ _. unfold dirty_blocks. rewrite (rest_dirty s A). apply not_elem_of_nil. }
  pose proof (grows_grown n _ _ _ (w_view s W) (en_grows _ _ _ _ _ En)) as GR. pose proof (w_view s' (en_work _ _ _ _ _ En)) as HV.
  destruct (gr_new _ _ _ _ GR _ (proj1 (en_slots _ _ _ _ _ En))) as (_ & _ & Hd & Hfree). assert (slotv (view_of s') n (data_slot lb) ≠ 0) as Hnz.
  { unfold data_block in Hd. lia. }
  eexists _, s'. split; [exact E|]. split; [done|]. split; [done|]. split; [done|].
  split; [apply (vo_used _ HV); [by apply data_slot_in|done]|]. split; [apply (vo_inj _ HV)|].
  split; [intros m p Hp Hne; by eapply ensured_fbyte|].
  intros p Hp. rewrite !fbyte_slot, Hp, Hz. split; [done|]. cbn zeta. rewrite (proj2 (Z.eqb_neq _ _) Hnz). f_equal. by eapply ensured_stale.
Qed.

Lemma allocation_exclusive_witness : ∃ b s', ext3_inode_ensure_block 16 2000 fs0 = Ret (b, s') ∧ bit bitmap0 b = false.
Proof.
  destruct (allocation_exclusive fs0 15 zero_inode 2000 rest0 memory0) as (b & s' & E & _ & _ & H & _); 
    [done|done|apply slot0|exact (bitmap0_free 3 ltac:(lia))|exact (ex_intro _ b (ex_intro _ s' (conj E H)))].
Defined.

(** C7: On a file system at rest, with memory for the tables, removing an inode and flushing
    frees exactly the blocks the file had, its tables included, and its inode; every other
    file keeps every byte; and the file system is at rest again. *)
Theorem release_correct (s : ext3) (n : nat) (i : ext3_inode) :
  at_rest s → memory_available s → inodes s !! n = Some i →
  ∃ s1 s', ext3_release_inode (Z.of_nat n + 1) s = Ret s1 ∧ ext3_flush s1 = Ret s' ∧ at_rest s' ∧
    inodes s' = <[n := zero_inode]> (inodes s) ∧ update_bit (inode_bitmap s) (Z.of_nat n) false (inode_bitmap s') ∧
    (∀ b, 0 ≤ b < NBITS → bit (block_bitmap s') b = true ↔
      bit (block_bitmap s) b = true ∧ ¬ (b ≠ 0 ∧ ∃ sl, slot_in sl ∧ slotv (view_of s) n sl = b)) ∧
    ∀ m p, 0 ≤ p < 2 ^ 32 → m ≠ n → fbyte s' m p = fbyte s m p.
Proof.
  intros A M Hn. destruct (release_flush_spec s n i (Build_prepared s A M) Hn) as (s1 & s' & E1 & E2 & [A' _] & H).
  exact (ex_intro _ s1 (ex_intro _ s' (conj E1 (conj E2 (conj A' H))))).
Qed.

Lemma release_correct_witness : ∃ s s1 s' b, ext3_write (File 16 0 0) (Some [5; 6; 7]) 3 fs0 = Ret (3, File 16 0 3, s) ∧
  ext3_release_inode 16 s = Ret s1 ∧ ext3_flush s1 = Ret s' ∧
  slotv (view_of s) 15 (data_slot 0) = b ∧ bit (block_bitmap s) b = true ∧ bit (block_bitmap s') b = false.
Proof.
  destruct written0 as (s & i & E & A & M & Hn & Hz & Hs).
  destruct (release_correct s 15 i A M Hn) as (s1 & s' & E1 & E2 & _ & _ & _ & Hb & _).
  assert (slotv (view_of s) 15 (data_slot 0) ≠ 0) as Hnz.
  { intros H0. pose proof (fbyte_slot s 15 0) as Hf. change (0 / 4096) with 0 in Hf. rewrite H0 in Hf.
    apply (f_equal head) in Hs. change (Some (fbyte s 15 0) = Some 5) in Hs. rewrite Hf in Hs. discriminate Hs. }
  destruct (vo_used _ (co_view s (rest_cons s A)) 15%nat (data_slot 0) (data_slot_in 0 ltac:(done)) Hnz) as [Hd Hu].
  exists s, s1, s', (slotv (view_of s) 15 (data_slot 0)). split; [exact E|]. split; [exact E1|]. split; [exact E2|]. split; [reflexivity|].
  split; [exact Hu|]. apply not_true_iff_false. intros H. rewrite Hb in H by (unfold data_block in Hd; lia). destruct H as [_ H]. apply H.
  split; [exact Hnz|]. exists (data_slot 0). split; [apply data_slot_in; split; vm_compute; congruence|reflexivity].
Defined.


Lemma full_bits (b : Z) : 0 ≤ b < NBITS → bit (replicate 4096 255) b = true.
Proof.
  unfold NBITS. intros Hb. unfold bit. assert (0 ≤ b / 8 < 4096) by (split; [apply Z.div_pos; lia|apply Z.div_lt_upper_bound; lia]).
  rewrite nth_lookup, lookup_replicate_2 by lia. cbn [default]. change 255 with (Z.ones 8). apply Z.ones_spec_low. by apply Z.mod_pos_bound.
Qed.

Lemma full_count : free_count (replicate 4096 255) = 0%nat.
Proof.
  destruct (Nat.lt_trichotomy 0 (free_count (replicate 4096 255))) as [H|[H|H]]; [exfalso|by symmetry|lia]. destruct (clear_bits_nonempty _ H) as (b & Hb & Hr).
  by rewrite full_bits in Hb.
Qed.

