(* ===== verification/Utf8.v ===== *)
(** * UTF-8: model of usr/lib/libc/utf8.c

    The incremental decoder, the decoder of one character, the encoder and the two
    functions that move over characters.  The theorems show that the encoder and
    the decoder are inverse to each other on exactly the valid code points. *)

From S2P Require Import Prelude Ring.

(** ** Model *)

Definition UTF8_REPLACEMENT_CHAR : Z := 0xfffd.

Record utf8_decoder := Decoder {
  codepoint : Z;
  min_codepoint : Z;
  expected : Z;
  seen : Z
}.

Definition utf8_is_valid_codepoint (cp : Z) : bool :=
  if 0x10ffff <? cp then false
  else if (0xd800 <=? cp) && (cp <=? 0xdfff) then false
  else true.

Definition utf8_is_continuation (byte : Z) : bool := Z.land byte 0xc0 =? 0x80.

Definition utf8_decoder_init : utf8_decoder := Decoder 0 0 0 0.
Definition utf8_decoder_reset (d : utf8_decoder) : utf8_decoder := utf8_decoder_init.

(** The result, what is stored in the output parameter, and the decoder after. *)
Definition utf8_decode_byte (d : utf8_decoder) (byte : Z) : Z * option Z * utf8_decoder :=
  if expected d =? 0 then
    if byte <? 0x80 then (1, Some byte, d)
    else if Z.land byte 0xe0 =? 0xc0 then (0, None, Decoder (Z.land byte 0x1f) 0x80 2 1)
    else if Z.land byte 0xf0 =? 0xe0 then (0, None, Decoder (Z.land byte 0x0f) 0x800 3 1)
    else if Z.land byte 0xf8 =? 0xf0 then (0, None, Decoder (Z.land byte 0x07) 0x10000 4 1)
    else (-1, None, d)
  else if negb (utf8_is_continuation byte) then (-1, None, utf8_decoder_reset d)
  else
    let cp := Z.lor (u32 (Z.shiftl (codepoint d) 6)) (Z.land byte 0x3f) in
    let d := Decoder cp (min_codepoint d) (expected d) ((seen d + 1) mod 256) in
    if seen d <? expected d then (0, None, d)
    else if (cp <? min_codepoint d) || negb (utf8_is_valid_codepoint cp)
    then (-1, Some cp, utf8_decoder_reset d)
    else (1, Some cp, utf8_decoder_reset d).

(** The loop of [utf8_decode_one] over the positions [i] that are left, for the
    bytes from [off] on. *)
Fixpoint decode_one_loop (data : list Z) (off : Z) (d : utf8_decoder) (todo : list nat) :
    outcome (Z * option (Z * Z)) :=
  match todo with
  | [] => Ret (-1, Some (UTF8_REPLACEMENT_CHAR, 1))
  | i :: todo =>
      byte ← load1 data (off + Z.of_nat i);
      match utf8_decode_byte d byte with
      | (result, out, d) =>
          if 0 <? result then cp ← or_fault out; Ret (1, Some (cp, Z.of_nat i + 1))
          else if result <? 0 then Ret (-1, Some (UTF8_REPLACEMENT_CHAR, 1))
          else decode_one_loop data off d todo
      end
  end.

(** The result, and the code point and length stored when the arguments are good. *)
Definition utf8_decode_one (data : list Z) (off len : Z) : outcome (Z * option (Z * Z)) :=
  if len <=? 0 then Ret (-1, None)
  else decode_one_loop data off utf8_decoder_init (seq 0 (Z.to_nat (Z.min len 4))).

(** The bytes stored; the result is their number. *)
Definition utf8_encode (cp : Z) : list Z :=
  let cp := if utf8_is_valid_codepoint cp then cp else UTF8_REPLACEMENT_CHAR in
  if cp <? 0x80 then [cp]
  else if cp <? 0x800 then
    [Z.lor 0xc0 (Z.shiftr cp 6); Z.lor 0x80 (Z.land cp 0x3f)]
  else if cp <? 0x10000 then
    [Z.lor 0xe0 (Z.shiftr cp 12); Z.lor 0x80 (Z.land (Z.shiftr cp 6) 0x3f); Z.lor 0x80 (Z.land cp 0x3f)]
  else
    [Z.lor 0xf0 (Z.shiftr cp 18); Z.lor 0x80 (Z.land (Z.shiftr cp 12) 0x3f);
     Z.lor 0x80 (Z.land (Z.shiftr cp 6) 0x3f); Z.lor 0x80 (Z.land cp 0x3f)].

Definition utf8_next_char_end (data : list Z) (len index : Z) : outcome Z :=
  let index := if index <? 0 then 0 else index in
  if len <=? index then Ret len
  else
    '(_, out) ← utf8_decode_one data index (len - index);
    '(_, consumed) ← or_fault out;
    Ret (index + consumed).

Fixpoint prev_char_loop (data : list Z) (i : nat) : outcome Z :=
  match i with
  | O => Ret 0
  | S j =>
      b ← load1 data (Z.of_nat i);
      if utf8_is_continuation b then prev_char_loop data j else Ret (Z.of_nat i)
  end.

Definition utf8_prev_char_start (data : list Z) (len index : Z) : outcome Z :=
  if index <=? 0 then Ret 0
  else
    let index := if len <? index then len else index in
    prev_char_loop data (Z.to_nat (index - 1)).

(** ** Bytes *)

Definition bytes : list Z := Z.of_nat <$> seq 0 256.

Lemma byte_check (P : Z → bool) b : is_byte b → forallb P bytes = true → P b = true.
Proof.
  intros Hb HP. rewrite forallb_forall in HP. apply HP. apply list_elem_of_In.
  apply list_elem_of_fmap. exists (Z.to_nat b). unfold is_byte in Hb. split; [lia|]. apply elem_of_seq. lia.
Qed.

(** What the masks of the decoder say of a byte. *)
Lemma byte_masks b :
  is_byte b →
  (Z.land b 0xe0 =? 0xc0) = (0xc0 <=? b) && (b <? 0xe0) ∧
  (Z.land b 0xf0 =? 0xe0) = (0xe0 <=? b) && (b <? 0xf0) ∧
  (Z.land b 0xf8 =? 0xf0) = (0xf0 <=? b) && (b <? 0xf8) ∧
  utf8_is_continuation b = (0x80 <=? b) && (b <? 0xc0).
Proof.
  intros Hb. unfold utf8_is_continuation.
  pose proof (byte_check (fun b =>
    eqb (Z.land b 0xe0 =? 0xc0) ((0xc0 <=? b) && (b <? 0xe0)) && eqb (Z.land b 0xf0 =? 0xe0) ((0xe0 <=? b) && (b <? 0xf0)) &&
    eqb (Z.land b 0xf8 =? 0xf0) ((0xf0 <=? b) && (b <? 0xf8)) && eqb (Z.land b 0xc0 =? 0x80) ((0x80 <=? b) && (b <? 0xc0)))
    b Hb eq_refl) as H.
  apply andb_true_iff in H as [[[H1%eqb_prop H2%eqb_prop]%andb_true_iff H3%eqb_prop]%andb_true_iff H4%eqb_prop].
  done.
Qed.

Lemma low_bits b k : 0 ≤ k → Z.land b (Z.ones k) = b mod 2 ^ k.
Proof. intros. by apply Z.land_ones. Qed.

(** ** The decoder in arithmetic *)

Lemma decode_lead b :
  is_byte b →
  utf8_decode_byte utf8_decoder_init b =
    if b <? 0x80 then (1, Some b, utf8_decoder_init)
    else if b <? 0xc0 then (-1, None, utf8_decoder_init)
    else if b <? 0xe0 then (0, None, Decoder (b - 0xc0) 0x80 2 1)
    else if b <? 0xf0 then (0, None, Decoder (b - 0xe0) 0x800 3 1)
    else if b <? 0xf8 then (0, None, Decoder (b - 0xf0) 0x10000 4 1)
    else (-1, None, utf8_decoder_init).
Proof.
  intros Hb. destruct (byte_masks b Hb) as (H2 & H3 & H4 & _). unfold utf8_decode_byte. rewrite H2, H3, H4.
  change 0x1f with (Z.ones 5). change 0x0f with (Z.ones 4). change 0x07 with (Z.ones 3).
  rewrite !low_bits by lia. unfold is_byte in Hb. cbn [expected utf8_decoder_init]. change (0 =? 0) with true. cbv iota.
  destruct (Z.ltb_spec b 0x80); [done|]. destruct (Z.ltb_spec b 0xc0), (Z.leb_spec 0xc0 b); try lia.
  - destruct (Z.leb_spec 0xe0 b); [lia|]. destruct (Z.leb_spec 0xf0 b); [lia|done].
  - destruct (Z.ltb_spec b 0xe0); simpl andb; cbv iota.
    { do 3 f_equal. rewrite <-(Zmod_unique b (2 ^ 5) 6 (b - 0xc0)); lia. }
    destruct (Z.leb_spec 0xe0 b); [|lia]. destruct (Z.ltb_spec b 0xf0); simpl andb; cbv iota.
    { do 3 f_equal. rewrite <-(Zmod_unique b (2 ^ 4) 14 (b - 0xe0)); lia. }
    destruct (Z.leb_spec 0xf0 b); [|lia]. destruct (Z.ltb_spec b 0xf8); simpl andb; cbv iota; [|done].
    do 3 f_equal. rewrite <-(Zmod_unique b (2 ^ 3) 30 (b - 0xf0)); lia.
Qed.

Lemma decode_cont cp m e s b :
  is_byte b → 0 ≤ cp < 2 ^ 26 → e ≠ 0 → 0 ≤ s < 255 →
  utf8_decode_byte (Decoder cp m e s) b =
    if (0x80 <=? b) && (b <? 0xc0) then
      let c := cp * 64 + (b - 0x80) in
      if s + 1 <? e then (0, None, Decoder c m e (s + 1))
      else if (c <? m) || negb (utf8_is_valid_codepoint c) then (-1, Some c, utf8_decoder_init)
      else (1, Some c, utf8_decoder_init)
    else (-1, None, utf8_decoder_init).
Proof.
  intros Hb Hcp He Hs. destruct (byte_masks b Hb) as (_ & _ & _ & Hc). unfold utf8_decode_byte. cbn [expected].
  destruct (Z.eqb_spec e 0); [done|]. rewrite Hc. destruct ((0x80 <=? b) && (b <? 0xc0)) eqn:E; [|done].
  cbn [negb codepoint min_codepoint seen]. cbv zeta. rewrite (Z.mod_small (s + 1)) by lia.
  assert (Z.lor (u32 (Z.shiftl cp 6)) (Z.land b 0x3f) = cp * 64 + (b - 0x80)) as ->; [|done].
  change 0x3f with (Z.ones 6). rewrite low_bits, Z.shiftl_mul_pow2 by lia.
  rewrite u32_small by (unfold is_u32, U32; lia). rewrite <-(Zmod_unique b (2 ^ 6) 2 (b - 0x80)) by lia.
  rewrite lor_join by lia. lia.
Qed.

(** The loop of [utf8_decode_one] on the bytes it looks at. *)
Fixpoint decode_seq (d : utf8_decoder) (i : Z) (bs : list Z) : Z * option (Z * Z) :=
  match bs with
  | [] => (-1, Some (UTF8_REPLACEMENT_CHAR, 1))
  | b :: bs =>
      match utf8_decode_byte d b with
      | (result, out, d) =>
          if 0 <? result then (1, Some (default 0 out, i + 1))
          else if result <? 0 then (-1, Some (UTF8_REPLACEMENT_CHAR, 1))
          else decode_seq d (i + 1) bs
      end
  end.

(** A result above zero comes with a code point. *)
Lemma decode_byte_out d b r out d' : utf8_decode_byte d b = (r, out, d') → 0 < r → is_Some out.
Proof. unfold utf8_decode_byte. intros E Hr. repeat case_match; simplify_eq; lia || done. Qed.

Lemma decode_one_loop_seq data off d i n :
  0 ≤ off → off + Z.of_nat (i + n) ≤ Z.of_nat (length data) →
  decode_one_loop data off d (seq i n) = Ret (decode_seq d (Z.of_nat i) (take n (drop (Z.to_nat off + i) data))).
Proof.
  intros Hoff. revert d i. induction n as [|n IH]; intros d i Hl; [by rewrite firstn_O|].
  destruct (lookup_lt_is_Some_2 data (Z.to_nat off + i)) as [b Hb]; [lia|].
  cbn [seq decode_one_loop]. rewrite (load1_Ret data _ b), bind_ret by (lia || (rewrite <-Hb; f_equal; lia)).
  rewrite (drop_S _ b) by done. cbn [firstn decode_seq].
  destruct (utf8_decode_byte d b) as [[r out] d'] eqn:E. destruct (Z.ltb_spec 0 r).
  - destruct (decode_byte_out d b r out d' E) as [cp ->]; done.
  - destruct (r <? 0); [done|]. rewrite IH by lia. do 2 f_equal; [lia|]. do 2 f_equal. lia.
Qed.

Lemma decode_one_seq data off len :
  0 ≤ off → 0 < len → off + len ≤ Z.of_nat (length data) →
  utf8_decode_one data off len
    = Ret (decode_seq utf8_decoder_init 0 (take (Z.to_nat (Z.min len 4)) (drop (Z.to_nat off) data))).
Proof.
  intros Hoff Hlen Hl. unfold utf8_decode_one. destruct (Z.leb_spec len 0); [lia|].
  rewrite decode_one_loop_seq by lia. by rewrite Nat.add_0_r.
Qed.

(** ** The encoder in arithmetic *)

Definition enc (cp : Z) : list Z :=
  if cp <? 0x80 then [cp]
  else if cp <? 0x800 then [0xc0 + cp / 64; 0x80 + cp mod 64]
  else if cp <? 0x10000 then [0xe0 + cp / 4096; 0x80 + cp / 64 mod 64; 0x80 + cp mod 64]
  else [0xf0 + cp / 262144; 0x80 + cp / 4096 mod 64; 0x80 + cp / 64 mod 64; 0x80 + cp mod 64].

Lemma valid_range cp : 0 ≤ cp → utf8_is_valid_codepoint cp = true → 0 ≤ cp < 0x110000.
Proof. unfold utf8_is_valid_codepoint. intros ?. zcases; simpl; intros; try done; lia. Qed.

Lemma cont_byte x : Z.lor 0x80 (Z.land x 0x3f) = 0x80 + x mod 64.
Proof.
  change 0x3f with (Z.ones 6). rewrite low_bits by lia. change 0x80 with (2 * 2 ^ 6) at 1.
  pose proof (Z.mod_pos_bound x (2 ^ 6)). by rewrite lor_join by lia.
Qed.

Lemma utf8_encode_enc cp : 0 ≤ cp → utf8_is_valid_codepoint cp = true → utf8_encode cp = enc cp.
Proof.
  intros Hcp Hv. pose proof (valid_range cp Hcp Hv). unfold utf8_encode, enc. rewrite Hv. cbv zeta.
  rewrite !cont_byte, !Z.shiftr_div_pow2 by lia.
  change (2 ^ 6) with 64. change (2 ^ 12) with 4096. change (2 ^ 18) with 262144.
  destruct (Z.ltb_spec cp 0x80); [done|]. destruct (Z.ltb_spec cp 0x800).
  { f_equal. change 0xc0 with (3 * 2 ^ 6) at 1. pose proof (Z.div_mod cp 64). pose proof (Z.mod_pos_bound cp 64).
    rewrite lor_join; lia. }
  destruct (Z.ltb_spec cp 0x10000).
  { f_equal. change 0xe0 with (14 * 2 ^ 4) at 1. pose proof (Z.div_mod cp 4096). pose proof (Z.mod_pos_bound cp 4096).
    rewrite lor_join; lia. }
  f_equal. change 0xf0 with (30 * 2 ^ 3) at 1. pose proof (Z.div_mod cp 262144). pose proof (Z.mod_pos_bound cp 262144).
  rewrite lor_join; lia.
Qed.

Ltac div_facts cp :=
  pose proof (Z.div_mod cp 64); pose proof (Z.mod_pos_bound cp 64);
  pose proof (Z.div_mod (cp / 64) 64); pose proof (Z.mod_pos_bound (cp / 64) 64);
  pose proof (Z.div_mod (cp / 4096) 64); pose proof (Z.mod_pos_bound (cp / 4096) 64);
  assert (cp / 64 / 64 = cp / 4096) by (rewrite Z.div_div by lia; done);
  assert (cp / 4096 / 64 = cp / 262144) by (rewrite Z.div_div by lia; done).

(** The shape of an encoding: a lead byte and continuation bytes. *)
Lemma enc_shape cp :
  0 ≤ cp < 0x110000 → ∃ b bs, enc cp = b :: bs ∧ is_byte b ∧ ¬ (0x80 ≤ b < 0xc0) ∧
    Forall (fun b => 0x80 ≤ b < 0xc0) bs ∧ (length bs ≤ 3)%nat.
Proof.
  intros Hcp. div_facts cp. unfold enc, is_byte.
  destruct (Z.ltb_spec cp 0x80); [eexists _, _; split_and!; [done|lia|lia|lia|by constructor|simpl; lia]|].
  destruct (Z.ltb_spec cp 0x800); [|destruct (Z.ltb_spec cp 0x10000)];
    (eexists _, _; split_and!; [done|lia|lia|lia|repeat (constructor; [lia|]); by constructor|simpl; lia]).
Qed.

(** The first byte of a character. *)
Lemma decode_seq_lead b bs :
  is_byte b →
  decode_seq utf8_decoder_init 0 (b :: bs) =
    if b <? 0x80 then (1, Some (b, 1))
    else if b <? 0xc0 then (-1, Some (UTF8_REPLACEMENT_CHAR, 1))
    else if b <? 0xe0 then decode_seq (Decoder (b - 0xc0) 0x80 2 1) 1 bs
    else if b <? 0xf0 then decode_seq (Decoder (b - 0xe0) 0x800 3 1) 1 bs
    else if b <? 0xf8 then decode_seq (Decoder (b - 0xf0) 0x10000 4 1) 1 bs
    else (-1, Some (UTF8_REPLACEMENT_CHAR, 1)).
Proof. intros Hb. cbn [decode_seq]. rewrite decode_lead by done. by zcases. Qed.

(** One more byte of a character. *)
Lemma decode_seq_cont cp m e s i b bs :
  is_byte b → 0 ≤ cp < 2 ^ 26 → e ≠ 0 → 0 ≤ s < 255 →
  decode_seq (Decoder cp m e s) i (b :: bs) =
    if (0x80 <=? b) && (b <? 0xc0) then
      let c := cp * 64 + (b - 0x80) in
      if s + 1 <? e then decode_seq (Decoder c m e (s + 1)) (i + 1) bs
      else if (c <? m) || negb (utf8_is_valid_codepoint c) then (-1, Some (UTF8_REPLACEMENT_CHAR, 1))
      else (1, Some (c, i + 1))
    else (-1, Some (UTF8_REPLACEMENT_CHAR, 1)).
Proof.
  intros. cbn [decode_seq]. rewrite decode_cont by done. destruct (_ && _); [|done]. cbv zeta.
  destruct (s + 1 <? e); [done|]. by destruct (_ || _).
Qed.

(** The last byte of the code point [c]. *)
Lemma decode_seq_last cp m e s i b bs c :
  0x80 ≤ b < 0xc0 → 0 ≤ cp < 2 ^ 26 → e = s + 1 → 0 < s < 255 →
  c = cp * 64 + (b - 0x80) → m ≤ c → utf8_is_valid_codepoint c = true →
  decode_seq (Decoder cp m e s) i (b :: bs) = (1, Some (c, i + 1)).
Proof.
  intros Hb Hcp -> Hs -> Hm Hv. rewrite decode_seq_cont by (unfold is_byte; lia).
  destruct (_ && _) eqn:E; [|lia]. cbv zeta. destruct (Z.ltb_spec (s + 1) (s + 1)); [lia|].
  rewrite Hv. by destruct (Z.ltb_spec (cp * 64 + (b - 0x80)) m); [lia|].
Qed.

Lemma decode_seq_more cp m e s i b bs :
  0x80 ≤ b < 0xc0 → 0 ≤ cp < 2 ^ 26 → s + 1 < e → 0 < s < 255 →
  decode_seq (Decoder cp m e s) i (b :: bs) = decode_seq (Decoder (cp * 64 + (b - 0x80)) m e (s + 1)) (i + 1) bs.
Proof.
  intros Hb Hcp He Hs. rewrite decode_seq_cont by (unfold is_byte; lia).
  destruct (_ && _) eqn:E; [|lia]. cbv zeta. by destruct (Z.ltb_spec (s + 1) e); [|lia].
Qed.

Lemma decode_seq_enc cp rest :
  0 ≤ cp → utf8_is_valid_codepoint cp = true →
  decode_seq utf8_decoder_init 0 (enc cp ++ rest) = (1, Some (cp, Z.of_nat (length (enc cp)))).
Proof.
  intros Hcp Hv. pose proof (valid_range cp Hcp Hv). div_facts cp. unfold enc.
  destruct (Z.ltb_spec cp 0x80) as [?|?]; [|destruct (Z.ltb_spec cp 0x800) as [?|?]; [|destruct (Z.ltb_spec cp 0x10000) as [?|?]]];
    cbn [app]; rewrite decode_seq_lead by (unfold is_byte; lia); zcases; try lia; try done.
  - by rewrite (decode_seq_last _ _ _ _ _ _ _ cp) by (done || lia).
  - rewrite decode_seq_more by lia. by rewrite (decode_seq_last _ _ _ _ _ _ _ cp) by (done || lia).
  - rewrite !decode_seq_more by lia. by rewrite (decode_seq_last _ _ _ _ _ _ _ cp) by (done || lia).
Qed.

(** What a successful decoding has seen: the last continuation byte, and the
    continuation bytes before it. *)
Lemma decode_seq_last_inv cp m e s i bs c n :
  decode_seq (Decoder cp m e s) i bs = (1, Some (c, n)) →
  Forall is_byte bs → 0 ≤ cp < 2 ^ 26 → e = s + 1 → 0 < s < 255 →
  ∃ b bs', bs = b :: bs' ∧ 0x80 ≤ b < 0xc0 ∧ c = cp * 64 + (b - 0x80) ∧ m ≤ c ∧ utf8_is_valid_codepoint c = true ∧ n = i + 1.
Proof.
  intros Hd Hbs Hcp -> Hs. destruct bs as [|b bs]; [done|]. apply Forall_cons in Hbs as [Hb _].
  rewrite decode_seq_cont in Hd by (done || lia). destruct ((0x80 <=? b) && (b <? 0xc0)) eqn:E; [|done]. cbv zeta in Hd.
  destruct (Z.ltb_spec (s + 1) (s + 1)); [lia|].
  destruct (utf8_is_valid_codepoint (cp * 64 + (b - 0x80))) eqn:Hv; [|by rewrite orb_true_r in Hd].
  destruct (Z.ltb_spec (cp * 64 + (b - 0x80)) m); [done|]. injection Hd as <- <-.
  exists b, bs. split_and!; [done|lia|lia|done|done|done|done].
Qed.

Lemma decode_seq_more_inv cp m e s i bs c n :
  decode_seq (Decoder cp m e s) i bs = (1, Some (c, n)) →
  Forall is_byte bs → 0 ≤ cp < 2 ^ 26 → s + 1 < e → 0 < s < 255 →
  ∃ b bs', bs = b :: bs' ∧ 0x80 ≤ b < 0xc0 ∧ Forall is_byte bs' ∧
    decode_seq (Decoder (cp * 64 + (b - 0x80)) m e (s + 1)) (i + 1) bs' = (1, Some (c, n)).
Proof.
  intros Hd Hbs Hcp He Hs. destruct bs as [|b bs]; [done|]. apply Forall_cons in Hbs as [Hb Hbs].
  rewrite decode_seq_cont in Hd by (done || lia). destruct ((0x80 <=? b) && (b <? 0xc0)) eqn:E; [|done]. cbv zeta in Hd.
  destruct (Z.ltb_spec (s + 1) e); [|lia]. exists b, bs. split_and!; [done|lia|lia|done|done].
Qed.

(** The parts of a number in base 64. *)
Lemma base64_split q r : 0 ≤ r < 64 → (q * 64 + r) / 64 = q ∧ (q * 64 + r) mod 64 = r.
Proof. intros Hr. split; [symmetry; apply (Z.div_unique_pos _ _ _ r)|symmetry; apply (Z.mod_unique_pos _ _ q)]; lia. Qed.

Lemma decode_seq_inv bs cp n :
  Forall is_byte bs → decode_seq utf8_decoder_init 0 bs = (1, Some (cp, n)) →
  0 ≤ cp ∧ utf8_is_valid_codepoint cp = true ∧ n = Z.of_nat (length (enc cp)) ∧ ∃ rest, bs = enc cp ++ rest.
Proof.
  intros Hbs Hd. destruct bs as [|b0 bs]; [done|]. apply Forall_cons in Hbs as [Hb0 Hbs].
  rewrite decode_seq_lead in Hd by done. unfold is_byte in Hb0. unfold enc.
  destruct (Z.ltb_spec b0 0x80).
  { injection Hd as <- <-.
    destruct (Z.ltb_spec b0 0x80); [|lia]. split_and!; [lia| |done|by exists bs].
    unfold utf8_is_valid_codepoint. zcases; simpl; try lia; done. }
  destruct (Z.ltb_spec b0 0xc0); [done|].
  destruct (Z.ltb_spec b0 0xe0); [|destruct (Z.ltb_spec b0 0xf0); [|destruct (Z.ltb_spec b0 0xf8); [|done]]].
  - apply decode_seq_last_inv in Hd as (b1 & bs' & -> & Hb1 & Hc & Hm & Hv & ->); [|done|lia..].
    destruct (base64_split (b0 - 0xc0) (b1 - 0x80)) as [E1 E2]; [lia|]. rewrite <-Hc in E1, E2.
    zcases; try lia. split_and!; [lia|done|done|]. exists bs'. rewrite E1, E2. simpl. do 2 f_equal; [|f_equal]; lia.
  - apply decode_seq_more_inv in Hd as (b1 & bs1 & -> & Hb1 & Hbs1 & Hd); [|done|lia..].
    apply decode_seq_last_inv in Hd as (b2 & bs' & -> & Hb2 & Hc & Hm & Hv & ->); [|done|lia..].
    destruct (base64_split ((b0 - 0xe0) * 64 + (b1 - 0x80)) (b2 - 0x80)) as [E1 E2]; [lia|]. rewrite <-Hc in E1, E2.
    destruct (base64_split (b0 - 0xe0) (b1 - 0x80)) as [E3 E4]; [lia|]. rewrite <-E1 in E3, E4. rewrite Z.div_div in E3 by lia.
    change (64 * 64) with 4096 in E3.
    zcases; try lia. split_and!; [lia|done|done|]. exists bs'. rewrite E2, E3, E4. simpl. repeat f_equal; lia.
  - apply decode_seq_more_inv in Hd as (b1 & bs1 & -> & Hb1 & Hbs1 & Hd); [|done|lia..].
    apply decode_seq_more_inv in Hd as (b2 & bs2 & -> & Hb2 & Hbs2 & Hd); [|done|lia..].
    apply decode_seq_last_inv in Hd as (b3 & bs' & -> & Hb3 & Hc & Hm & Hv & ->); [|done|lia..].
    destruct (base64_split (((b0 - 0xf0) * 64 + (b1 - 0x80)) * 64 + (b2 - 0x80)) (b3 - 0x80)) as [E1 E2]; [lia|]. rewrite <-Hc in E1, E2.
    destruct (base64_split ((b0 - 0xf0) * 64 + (b1 - 0x80)) (b2 - 0x80)) as [E3 E4]; [lia|]. rewrite <-E1 in E3, E4. rewrite Z.div_div in E3 by lia.
    change (64 * 64) with 4096 in E3.
    destruct (base64_split (b0 - 0xf0) (b1 - 0x80)) as [E5 E6]; [lia|]. rewrite <-E3 in E5, E6. rewrite Z.div_div in E5 by lia.
    change (4096 * 64) with 262144 in E5.
    zcases; try lia. split_and!; [lia|done|done|]. exists bs'. rewrite E2, E4, E5, E6. simpl. repeat f_equal; lia.
Qed.

(** ** Theorems *)

(** C21: decoding what the encoder wrote gives back the code point and its length,
    wherever the bytes stand and whatever follows them. *)
Theorem utf8_decode_encode cp pre rest :
  0 ≤ cp → utf8_is_valid_codepoint cp = true →
  utf8_decode_one (pre ++ utf8_encode cp ++ rest) (Z.of_nat (length pre)) (Z.of_nat (length (utf8_encode cp ++ rest)))
    = Ret (1, Some (cp, Z.of_nat (length (utf8_encode cp)))).
Proof.
  intros Hcp Hv. rewrite utf8_encode_enc by done.
  destruct (enc_shape cp (valid_range cp Hcp Hv)) as (b & bs & E & _ & _ & _ & Hl).
  assert (length (enc cp) = S (length bs)) as El by by rewrite E.
  rewrite decode_one_seq by (rewrite ?length_app; lia). rewrite Nat2Z.id, drop_app_length.
  rewrite take_app_ge by (rewrite length_app; lia). by rewrite decode_seq_enc.
Qed.

Lemma utf8_decode_encode_witness :
  utf8_is_valid_codepoint 0x3042 = true ∧
  utf8_decode_one ([0x41] ++ utf8_encode 0x3042 ++ [0x42]) 1 4 = Ret (1, Some (0x3042, 3)).
Proof. split; [reflexivity|]. exact (utf8_decode_encode 0x3042 [0x41] [0x42] ltac:(lia) eq_refl). Defined.

(** Whatever the decoder accepts is a valid code point, and the bytes it
    consumed are its encoding: overlong forms, surrogates and values above
    U+10FFFF are never accepted. *)
Theorem utf8_encode_decode data off len cp n :
  Forall is_byte data → 0 ≤ off → 0 < len → off + len ≤ Z.of_nat (length data) →
  utf8_decode_one data off len = Ret (1, Some (cp, n)) →
  utf8_is_valid_codepoint cp = true ∧ 0 < n ≤ len ∧
  take (Z.to_nat n) (drop (Z.to_nat off) data) = utf8_encode cp.
Proof.
  intros Hd Ho Hl Hb Hrun. rewrite decode_one_seq in Hrun by done. injection Hrun as Hrun.
  apply decode_seq_inv in Hrun as (Hcp & Hv & -> & rest & E); [|by apply Forall_take, Forall_drop].
  rewrite utf8_encode_enc by done. split; [done|].
  assert (take (length (enc cp)) (drop (Z.to_nat off) data) = enc cp) as Et.
  { assert (length (enc cp) ≤ Z.to_nat (Z.min len 4))%nat.
    { apply (f_equal length) in E. rewrite length_app, length_take in E. lia. }
    rewrite <-(take_app_length (enc cp) rest) at 2. rewrite <-E, take_take. f_equal. lia. }
  assert (0 < length (enc cp) ≤ Z.to_nat len)%nat as [? ?]; [|rewrite Nat2Z.id; split; [lia|done]].
  destruct (enc_shape cp (valid_range cp Hcp Hv)) as (b & bs & E' & _).
  apply (f_equal length) in E. rewrite length_app, length_take in E. rewrite E' in *. simpl in *. lia.
Qed.

Lemma utf8_encode_decode_witness :
  utf8_decode_one [0xc3; 0xa9; 0x21] 0 3 = Ret (1, Some (0xe9, 2)) ∧ take 2 [0xc3; 0xa9; 0x21] = utf8_encode 0xe9.
Proof.
  split; [reflexivity|].
  refine (proj2 (proj2 (utf8_encode_decode [0xc3; 0xa9; 0x21] 0 3 0xe9 2 _ ltac:(lia) ltac:(lia) _ eq_refl))).
  - repeat constructor; vm_compute; congruence.
  - vm_compute. congruence.
Defined.

Lemma prev_char_loop_skip data i n :
  (∀ j, (i < j ≤ i + n)%nat → ∃ b, data !! j = Some b ∧ utf8_is_continuation b = true) →
  (i ≠ 0%nat → ∃ b, data !! i = Some b ∧ utf8_is_continuation b = false) →
  prev_char_loop data (i + n) = Ret (Z.of_nat i).
Proof.
  intros Hc Hi. induction n as [|n IH].
  - rewrite Nat.add_0_r. destruct i as [|i]; [done|]. destruct Hi as (b & Hb & Hn); [done|].
    cbn [prev_char_loop]. by rewrite (load1_Ret data _ b), bind_ret, Hn by (rewrite ?Nat2Z.id; done || lia).
  - rewrite Nat.add_succ_r. destruct (Hc (S (i + n))) as (b & Hb & Hn); [lia|].
    cbn [prev_char_loop]. rewrite (load1_Ret data _ b), bind_ret, Hn by (rewrite ?Nat2Z.id; done || lia).
    apply IH. intros j Hj. apply Hc. lia.
Qed.

(** In a text that has an encoded character at a position, moving forward from
    there ends just behind the character, and moving back returns. *)
Theorem utf8_next_prev cp pre rest :
  0 ≤ cp → utf8_is_valid_codepoint cp = true →
  let data := pre ++ utf8_encode cp ++ rest in
  let len := Z.of_nat (length data) in
  let start := Z.of_nat (length pre) in
  let stop := start + Z.of_nat (length (utf8_encode cp)) in
  utf8_next_char_end data len start = Ret stop ∧ utf8_prev_char_start data len stop = Ret start.
Proof.
  intros Hcp Hv. cbv zeta. rewrite utf8_encode_enc by done. pose proof (valid_range cp Hcp Hv) as Hr.
  destruct (enc_shape cp Hr) as (b & bs & E & Hb & Hnc & Hbs & Hl).
  assert (length (enc cp) = S (length bs)) as El by by rewrite E. split.
  - unfold utf8_next_char_end. cbv zeta. rewrite !length_app. destruct (Z.ltb_spec (Z.of_nat (length pre)) 0); [lia|].
    destruct (Z.leb_spec (Z.of_nat (length pre + (length (enc cp) + length rest))) (Z.of_nat (length pre))); [lia|].
    rewrite decode_one_seq by (rewrite ?length_app; lia). rewrite Nat2Z.id, drop_app_length.
    rewrite take_app_ge by lia. by rewrite decode_seq_enc.
  - unfold utf8_prev_char_start. cbv zeta. rewrite !length_app.
    destruct (Z.leb_spec (Z.of_nat (length pre) + Z.of_nat (length (enc cp))) 0); [lia|].
    destruct (Z.ltb_spec (Z.of_nat (length pre + (length (enc cp) + length rest))) (Z.of_nat (length pre) + Z.of_nat (length (enc cp)))); [lia|].
    replace (Z.to_nat (Z.of_nat (length pre) + Z.of_nat (length (enc cp)) - 1)) with (length pre + length bs)%nat by lia.
    apply prev_char_loop_skip.
    + intros j Hj. destruct (lookup_lt_is_Some_2 bs (j - length pre - 1)) as [x Hx]; [lia|]. exists x. split.
      * rewrite lookup_app_r, E by lia. simpl. replace (j - length pre)%nat with (S (j - length pre - 1)) by lia. simpl.
        rewrite lookup_app_l by lia. done.
      * apply (Forall_lookup_1 _ _ _ _ Hbs) in Hx.
        rewrite (proj2 (proj2 (proj2 (byte_masks x ltac:(unfold is_byte; lia))))). lia.
    + intros _. exists b. split; [rewrite lookup_app_r, E, Nat.sub_diag by lia; done|].
      rewrite (proj2 (proj2 (proj2 (byte_masks b Hb)))). lia.
Qed.

Lemma utf8_next_prev_witness :
  utf8_next_char_end ([0x41] ++ utf8_encode 0x1f600 ++ [0x42]) 6 1 = Ret 5 ∧
  utf8_prev_char_start ([0x41] ++ utf8_encode 0x1f600 ++ [0x42]) 6 5 = Ret 1.
Proof. exact (utf8_next_prev 0x1f600 [0x41] [0x42] ltac:(lia) eq_refl). Defined.
