(* ===== verification/Wcwidth.v ===== *)
(** * Display widths: model of usr/lib/libc/wcwidth.c

    The width of a code point is found by binary search in two tables of
    intervals.  The theorem shows that the search terminates inside the table and
    decides membership. *)

From S2P Require Import Prelude Ring.

(** ** Model *)

(** An interval: its first and its last code point. *)
Definition width_interval : Type := Z * Z.

Definition zero_width_table : list width_interval :=
  [(0x0300, 0x036f); (0x0483, 0x0489); (0x0591, 0x05bd); (0x05bf, 0x05bf); (0x05c1, 0x05c2);
   (0x05c4, 0x05c5); (0x05c7, 0x05c7); (0x0610, 0x061a); (0x064b, 0x065f); (0x0670, 0x0670);
   (0x06d6, 0x06dc); (0x06df, 0x06e4); (0x06e7, 0x06e8); (0x06ea, 0x06ed); (0x0711, 0x0711);
   (0x0730, 0x074a); (0x07a6, 0x07b0); (0x07eb, 0x07f3); (0x07fd, 0x07fd); (0x0816, 0x0819);
   (0x081b, 0x0823); (0x0825, 0x0827); (0x0829, 0x082d); (0x0859, 0x085b); (0x0898, 0x089f);
   (0x08ca, 0x0903); (0x093a, 0x093c); (0x093e, 0x094f); (0x0951, 0x0957); (0x0962, 0x0963);
   (0x0981, 0x0983); (0x09bc, 0x09bc); (0x09be, 0x09c4); (0x09c7, 0x09c8); (0x09cb, 0x09cd);
   (0x09d7, 0x09d7); (0x09e2, 0x09e3); (0x0a01, 0x0a03); (0x0a3c, 0x0a3c); (0x0a3e, 0x0a42);
   (0x0a47, 0x0a48); (0x0a4b, 0x0a4d); (0x0a51, 0x0a51); (0x0a70, 0x0a71); (0x0a75, 0x0a75);
   (0x0a81, 0x0a83); (0x0abc, 0x0abc); (0x0abe, 0x0ac5); (0x0ac7, 0x0ac9); (0x0acb, 0x0acd);
   (0x0ae2, 0x0ae3); (0x0afa, 0x0aff); (0x0b01, 0x0b03); (0x0b3c, 0x0b3c); (0x0b3e, 0x0b44);
   (0x0b47, 0x0b48); (0x0b4b, 0x0b4d); (0x0b55, 0x0b57); (0x0b62, 0x0b63); (0x0b82, 0x0b82);
   (0x0bbe, 0x0bc2); (0x0bc6, 0x0bc8); (0x0bca, 0x0bcd); (0x0bd7, 0x0bd7); (0x0c00, 0x0c04);
   (0x0c3c, 0x0c3c); (0x0c3e, 0x0c44); (0x0c46, 0x0c48); (0x0c4a, 0x0c4d); (0x0c55, 0x0c56);
   (0x0c62, 0x0c63); (0x0c81, 0x0c83); (0x0cbc, 0x0cbc); (0x0cbe, 0x0cc4); (0x0cc6, 0x0cc8);
   (0x0cca, 0x0ccd); (0x0cd5, 0x0cd6); (0x0ce2, 0x0ce3); (0x0cf3, 0x0cf3); (0x0d00, 0x0d03);
   (0x0d3b, 0x0d3c); (0x0d3e, 0x0d44); (0x0d46, 0x0d48); (0x0d4a, 0x0d4d); (0x0d57, 0x0d57);
   (0x0d62, 0x0d63); (0x0d81, 0x0d83); (0x0dca, 0x0dca); (0x0dcf, 0x0dd4); (0x0dd6, 0x0dd6);
   (0x0dd8, 0x0ddf); (0x0df2, 0x0df3); (0x0e31, 0x0e31); (0x0e34, 0x0e3a); (0x0e47, 0x0e4e);
   (0x0eb1, 0x0eb1); (0x0eb4, 0x0ebc); (0x0ec8, 0x0ece); (0x0f18, 0x0f19); (0x0f35, 0x0f35);
   (0x0f37, 0x0f37); (0x0f39, 0x0f39); (0x0f3e, 0x0f3f); (0x0f71, 0x0f84); (0x0f86, 0x0f87);
   (0x0f8d, 0x0f97); (0x0f99, 0x0fbc); (0x0fc6, 0x0fc6); (0x102b, 0x103e); (0x1056, 0x1059);
   (0x105e, 0x1060); (0x1062, 0x1064); (0x1067, 0x106d); (0x1071, 0x1074); (0x1082, 0x108d);
   (0x108f, 0x108f); (0x109a, 0x109d); (0x135d, 0x135f); (0x1712, 0x1715); (0x1732, 0x1734);
   (0x1752, 0x1753); (0x1772, 0x1773); (0x17b4, 0x17d3); (0x17dd, 0x17dd); (0x180b, 0x180f);
   (0x1885, 0x1886); (0x18a9, 0x18a9); (0x1920, 0x192b); (0x1930, 0x193b); (0x1a17, 0x1a1b);
   (0x1a55, 0x1a5e); (0x1a60, 0x1a7c); (0x1a7f, 0x1a7f); (0x1ab0, 0x1ace); (0x1b00, 0x1b04);
   (0x1b34, 0x1b44); (0x1b6b, 0x1b73); (0x1b80, 0x1b82); (0x1ba1, 0x1bad); (0x1be6, 0x1bf3);
   (0x1c24, 0x1c37); (0x1cd0, 0x1cd2); (0x1cd4, 0x1ce8); (0x1ced, 0x1ced); (0x1cf2, 0x1cf4);
   (0x1cf7, 0x1cf9); (0x1dc0, 0x1dff); (0x200b, 0x200f); (0x202a, 0x202e); (0x2060, 0x2064);
   (0x2066, 0x206f); (0xfe00, 0xfe0f); (0xfe20, 0xfe2f); (0xfff9, 0xfffb); (0x1f3fb, 0x1f3ff);
   (0xe0100, 0xe01ef)].

Definition wide_table : list width_interval :=
  [(0x1100, 0x115f); (0x231a, 0x231b); (0x2329, 0x232a); (0x23e9, 0x23ec); (0x23f0, 0x23f0);
   (0x23f3, 0x23f3); (0x25fd, 0x25fe); (0x2614, 0x2615); (0x2648, 0x2653); (0x267f, 0x267f);
   (0x2693, 0x2693); (0x26a1, 0x26a1); (0x26aa, 0x26ab); (0x26bd, 0x26be); (0x26c4, 0x26c5);
   (0x26ce, 0x26ce); (0x26d4, 0x26d4); (0x26ea, 0x26ea); (0x26f2, 0x26f3); (0x26f5, 0x26f5);
   (0x26fa, 0x26fa); (0x26fd, 0x26fd); (0x2705, 0x2705); (0x270a, 0x270b); (0x2728, 0x2728);
   (0x274c, 0x274c); (0x274e, 0x274e); (0x2753, 0x2755); (0x2757, 0x2757); (0x2795, 0x2797);
   (0x27b0, 0x27b0); (0x27bf, 0x27bf); (0x2b1b, 0x2b1c); (0x2b50, 0x2b50); (0x2b55, 0x2b55);
   (0x2e80, 0x2ffb); (0x3000, 0x303e); (0x3041, 0x3096); (0x3099, 0x30ff); (0x3105, 0x312f);
   (0x3131, 0x318e); (0x3190, 0x31e5); (0x31ef, 0x321e); (0x3220, 0x3247); (0x3250, 0x4dbf);
   (0x4e00, 0xa48c); (0xa490, 0xa4c6); (0xa960, 0xa97c); (0xac00, 0xd7a3); (0xf900, 0xfaff);
   (0xfe10, 0xfe19); (0xfe30, 0xfe6b); (0xff01, 0xff60); (0xffe0, 0xffe6); (0x1f300, 0x1f64f);
   (0x1f900, 0x1f9ff); (0x20000, 0x2fffd); (0x30000, 0x3fffd)].

(** The loop of [width_interval_contains]; the interval searched shrinks with
    every round. *)
Fixpoint contains_loop (fuel : nat) (table : list width_interval) (left right codepoint : Z) : outcome bool :=
  match fuel with
  | O => Hang
  | S fuel =>
      if left <=? right then
        let mid := left + Z.quot (right - left) 2 in
        '(first, last) ← load1 table mid;
        if codepoint <? first then contains_loop fuel table left (mid - 1) codepoint
        else if last <? codepoint then contains_loop fuel table (mid + 1) right codepoint
        else Ret true
      else Ret false
  end.

Definition width_interval_contains (table : list width_interval) (count codepoint : Z) : outcome bool :=
  contains_loop (S (Z.to_nat count)) table 0 (count - 1) codepoint.

Definition unicode_wcwidth (codepoint : Z) : outcome Z :=
  if codepoint =? 0 then Ret 0
  else if (codepoint <? 0x20) || ((0x7f <=? codepoint) && (codepoint <? 0xa0)) then Ret (-1)
  else
    zero ← width_interval_contains zero_width_table (Z.of_nat (length zero_width_table)) codepoint;
    if zero : bool then Ret 0
    else
      wide ← width_interval_contains wide_table (Z.of_nat (length wide_table)) codepoint;
      if wide : bool then Ret 2 else Ret 1.

(** ** Correctness of the search *)

Definition covers (codepoint : Z) (i : width_interval) : bool := (i.1 <=? codepoint) && (codepoint <=? i.2).

(** The intervals are not empty and increase. *)
Definition ordered (table : list width_interval) : Prop :=
  ∀ i j x y, table !! i = Some x → table !! j = Some y → x.1 ≤ x.2 ∧ ((i < j)%nat → x.2 < y.1).

(** The same as a test. *)
Fixpoint orderedb (table : list width_interval) : bool :=
  match table with
  | [] => true
  | x :: table =>
      (x.1 <=? x.2) && match table with [] => true | y :: _ => x.2 <? y.1 end && orderedb table
  end.

Lemma orderedb_head x table j y : orderedb (x :: table) = true → table !! j = Some y → x.2 < y.1.
Proof.
  revert x j. induction table as [|z table IH]; intros x j Ho Hj; [done|].
  cbn [orderedb] in Ho. apply andb_true_iff in Ho as [[Hx Hz]%andb_true_iff Ho].
  destruct j as [|j]; simpl in Hj; [simplify_eq; lia|].
  pose proof (IH z j Ho Hj). cbn [orderedb] in Ho. lia.
Qed.

Lemma orderedb_ordered table : orderedb table = true → ordered table.
Proof.
  induction table as [|x table IH]; intros Ho i j a b Hi Hj; [done|].
  assert (orderedb table = true) as Ho' by (cbn [orderedb] in Ho; by apply andb_true_iff in Ho as [_ ?]).
  destruct i as [|i], j as [|j]; simpl in Hi, Hj; simplify_eq.
  - cbn [orderedb] in Ho. split; [lia|lia].
  - pose proof (orderedb_head a table j b Ho Hj). cbn [orderedb] in Ho. split; [lia|done].
  - split; [|lia]. by destruct (IH Ho' i i a a).
  - destruct (IH Ho' i j a b) as [? ?]; [done..|]. split; [done|]. intros ?. auto with lia.
Qed.

Lemma contains_loop_spec table codepoint fuel left right :
  ordered table → 0 ≤ left ≤ right + 1 → right < Z.of_nat (length table) → right - left + 1 < Z.of_nat fuel →
  (∀ i x, table !! i = Some x → covers codepoint x = true → left ≤ Z.of_nat i ≤ right) →
  contains_loop fuel table left right codepoint = Ret (existsb (covers codepoint) table).
Proof.
  intros Ho. revert left right. induction fuel as [|fuel IH]; intros left right Hl Hr Hf Hin.
  - lia.
  - cbn [contains_loop]. destruct (Z.leb_spec left right) as [Hle|Hgt].
    2:{ f_equal. symmetry. apply not_true_iff_false. intros (x & Hx & Hc)%existsb_exists.
        apply list_elem_of_In, list_elem_of_lookup in Hx as [i Hi]. specialize (Hin i x Hi Hc). lia. }
    cbv zeta. rewrite Z.quot_div_nonneg by lia. set (mid := left + (right - left) / 2).
    assert (left ≤ mid ≤ right) as Hmid by (unfold mid; Z.to_euclidean_division_equations; lia).
    destruct (lookup_lt_is_Some_2 table (Z.to_nat mid)) as [[first last] Hm]; [lia|].
    rewrite (load1_Ret table mid (first, last)), bind_ret by (done || lia).
    destruct (Z.ltb_spec codepoint first); [|destruct (Z.ltb_spec last codepoint)].
    + apply IH; [lia..|]. intros i x Hi Hc. pose proof (Hin i x Hi Hc). split; [lia|].
      destruct (decide (Z.of_nat i < mid)); [lia|]. exfalso. unfold covers in Hc.
      destruct (decide (Z.of_nat i = mid)) as [Ei|]; [assert (i = Z.to_nat mid) as -> by lia; simplify_eq; simpl in Hc; lia|].
      destruct (Ho _ _ _ _ Hm Hi) as [? Hlt]. specialize (Hlt ltac:(lia)). simpl in *. lia.
    + apply IH; [lia..|]. intros i x Hi Hc. pose proof (Hin i x Hi Hc). split; [|lia].
      destruct (decide (mid < Z.of_nat i)); [lia|]. exfalso. unfold covers in Hc.
      destruct (decide (Z.of_nat i = mid)) as [Ei|]; [assert (i = Z.to_nat mid) as -> by lia; simplify_eq; simpl in Hc; lia|].
      destruct (Ho _ _ _ _ Hi Hm) as [? Hlt]. specialize (Hlt ltac:(lia)). simpl in *. lia.
    + f_equal. symmetry. apply existsb_exists. exists (first, last). split; [|unfold covers; simpl; lia].
      apply list_elem_of_In, list_elem_of_lookup. eauto.
Qed.

Lemma table_search table codepoint :
  orderedb table = true →
  width_interval_contains table (Z.of_nat (length table)) codepoint = Ret (existsb (covers codepoint) table).
Proof.
  intros Ho%orderedb_ordered. apply contains_loop_spec; [done|lia..|]. intros i x Hi%lookup_lt_Some _. lia.
Qed.

(** On every table whose intervals are increasing, [width_interval_contains]
    terminates, reads inside the table only, and decides whether the code point is
    in one of the intervals. *)
Theorem width_interval_contains_correct table codepoint :
  ordered table →
  width_interval_contains table (Z.of_nat (length table)) codepoint = Ret (existsb (covers codepoint) table).
Proof.
  intros Ho. apply contains_loop_spec; [done|lia..|]. intros i x Hi _. apply lookup_lt_Some in Hi. lia.
Qed.

Lemma width_interval_contains_correct_witness :
  ordered wide_table ∧ width_interval_contains wide_table (Z.of_nat (length wide_table)) 0x3042 = Ret true.
Proof.
  assert (ordered wide_table) as Ho by (apply orderedb_ordered; reflexivity). split; [exact Ho|].
  exact (width_interval_contains_correct wide_table 0x3042 Ho).
Defined.

Definition width_of (codepoint : Z) : Z :=
  if decide (codepoint = 0) then 0
  else if decide (codepoint < 0x20 ∨ 0x7f ≤ codepoint < 0xa0) then -1
  else if existsb (covers codepoint) zero_width_table then 0
  else if existsb (covers codepoint) wide_table then 2 else 1.

Lemma wcwidth_value codepoint : unicode_wcwidth codepoint = Ret (width_of codepoint).
Proof.
  unfold unicode_wcwidth, width_of. case_decide; destruct (Z.eqb_spec codepoint 0); try done; try lia.
  case_decide; destruct (_ || _) eqn:E; try lia; [done|].
  rewrite (table_search zero_width_table), bind_ret by reflexivity. set (z := existsb (covers codepoint) zero_width_table).
  destruct z; [reflexivity|].
  rewrite (table_search wide_table), bind_ret by reflexivity. set (w := existsb (covers codepoint) wide_table). by destruct w.
Qed.

(** The width of every code point: 0 for NUL and for the combining characters
    of the first table, -1 for control characters, 2 for the wide characters of the
    second table, 1 for all others. *)
Theorem unicode_wcwidth_correct codepoint :
  unicode_wcwidth codepoint = Ret
    (if decide (codepoint = 0) then 0
     else if decide (codepoint < 0x20 ∨ 0x7f ≤ codepoint < 0xa0) then -1
     else if existsb (covers codepoint) zero_width_table then 0
     else if existsb (covers codepoint) wide_table then 2 else 1).
Proof. exact (wcwidth_value codepoint). Qed.
