(* ===== verification/Surface.v ===== *)
(** * The screen of a terminal: model of usr/lib/libc/terminal_surface.c

    A surface has a primary and an alternate buffer of cells, damage marks, a
    cursor, a scroll region and a ring of lines that scrolled off the top.  Reads
    and writes of the arrays are checked: one outside is a fault. *)

From S2P Require Import Prelude Ring.

(** ** Data *)

Definition TERM_COLOR_BLACK : Z := 0.
Definition TERM_COLOR_LIGHT_GRAY : Z := 7.
Definition TERM_ATTR_BOLD : Z := 0x01.
Definition TERM_ATTR_REVERSE : Z := 0x02.
Definition TERM_ATTR_CONTINUATION : Z := 0x04.
Definition TERM_TAB_WIDTH : Z := 8.
Definition TERM_SCROLLBACK_ROWS : Z := 512.
Definition TERM_SCROLLBACK_MAX_COLS : Z := 320.

Record term_cell := Cell { ch : Z; fg : Z; bg : Z; attr : Z; width : Z }.

#[export] Instance term_cell_eq_dec : EqDecision term_cell.
Proof. solve_decision. Defined.

(** [sizeof(struct term_cell)]. *)
Definition SIZEOF_CELL : Z := 8.

(** An array of cells with its array of damage marks; the code allocates and frees
    them together. *)
Record buffer := Buffer { b_cells : list term_cell; b_dirty : list Z }.

(** What [cells] and [dirty] of the surface point to: nothing, one of the two
    buffers, or memory that has been freed. *)
Inductive screen : Type := NoScreen | Primary | Alternate | Freed.

(** A position with its pending wrap: the cursor, the saved cursor, and the two of
    the primary screen while the alternate one is active. *)
Record cursor := Cursor { col : Z; row : Z; pending : bool }.

Record scrollback := Scrollback {
  sb_cells : option (list term_cell);
  sb_row_cols : list Z;
  sb_head : Z;
  sb_len : Z
}.

(** [answers] is what the coming calls of [malloc] answer; they succeed when it is
    used up. *)
Record terminal_surface := Surface {
  cols : Z;
  rows : Z;
  cur : cursor;
  saved : cursor;
  shown : screen;
  primary : option buffer;
  alternate : option buffer;
  dirty_count : Z;
  scroll_count : Z;
  alternate_active : bool;
  primary_cur : cursor;
  primary_saved : cursor;
  scroll_top : Z;
  scroll_bottom : Z;
  back : scrollback;
  answers : list bool
}.

Definition cursor_col (s : terminal_surface) : Z := col (cur s).
Definition cursor_row (s : terminal_surface) : Z := row (cur s).
Definition wrap_pending (s : terminal_surface) : bool := pending (cur s).

(** Assignments to the fields. *)
Definition set_cur (c : cursor) (s : terminal_surface) : terminal_surface :=
  Surface (cols s) (rows s) c (saved s) (shown s) (primary s) (alternate s) (dirty_count s) (scroll_count s)
    (alternate_active s) (primary_cur s) (primary_saved s) (scroll_top s) (scroll_bottom s) (back s) (answers s).
Definition set_saved (c : cursor) (s : terminal_surface) : terminal_surface :=
  Surface (cols s) (rows s) (cur s) c (shown s) (primary s) (alternate s) (dirty_count s) (scroll_count s)
    (alternate_active s) (primary_cur s) (primary_saved s) (scroll_top s) (scroll_bottom s) (back s) (answers s).
Definition set_size (c r : Z) (s : terminal_surface) : terminal_surface :=
  Surface c r (cur s) (saved s) (shown s) (primary s) (alternate s) (dirty_count s) (scroll_count s)
    (alternate_active s) (primary_cur s) (primary_saved s) (scroll_top s) (scroll_bottom s) (back s) (answers s).
Definition set_shown (x : screen) (act : bool) (s : terminal_surface) : terminal_surface :=
  Surface (cols s) (rows s) (cur s) (saved s) x (primary s) (alternate s) (dirty_count s) (scroll_count s)
    act (primary_cur s) (primary_saved s) (scroll_top s) (scroll_bottom s) (back s) (answers s).
Definition set_primary (b : option buffer) (s : terminal_surface) : terminal_surface :=
  Surface (cols s) (rows s) (cur s) (saved s) (shown s) b (alternate s) (dirty_count s) (scroll_count s)
    (alternate_active s) (primary_cur s) (primary_saved s) (scroll_top s) (scroll_bottom s) (back s) (answers s).
Definition set_alternate (b : option buffer) (s : terminal_surface) : terminal_surface :=
  Surface (cols s) (rows s) (cur s) (saved s) (shown s) (primary s) b (dirty_count s) (scroll_count s)
    (alternate_active s) (primary_cur s) (primary_saved s) (scroll_top s) (scroll_bottom s) (back s) (answers s).
Definition set_counts (dirty scroll : Z) (s : terminal_surface) : terminal_surface :=
  Surface (cols s) (rows s) (cur s) (saved s) (shown s) (primary s) (alternate s) dirty scroll
    (alternate_active s) (primary_cur s) (primary_saved s) (scroll_top s) (scroll_bottom s) (back s) (answers s).
Definition set_primary_curs (c sv : cursor) (s : terminal_surface) : terminal_surface :=
  Surface (cols s) (rows s) (cur s) (saved s) (shown s) (primary s) (alternate s) (dirty_count s) (scroll_count s)
    (alternate_active s) c sv (scroll_top s) (scroll_bottom s) (back s) (answers s).
Definition set_region (top bottom : Z) (s : terminal_surface) : terminal_surface :=
  Surface (cols s) (rows s) (cur s) (saved s) (shown s) (primary s) (alternate s) (dirty_count s) (scroll_count s)
    (alternate_active s) (primary_cur s) (primary_saved s) top bottom (back s) (answers s).
Definition set_back (b : scrollback) (s : terminal_surface) : terminal_surface :=
  Surface (cols s) (rows s) (cur s) (saved s) (shown s) (primary s) (alternate s) (dirty_count s) (scroll_count s)
    (alternate_active s) (primary_cur s) (primary_saved s) (scroll_top s) (scroll_bottom s) b (answers s).
Definition set_answers (a : list bool) (s : terminal_surface) : terminal_surface :=
  Surface (cols s) (rows s) (cur s) (saved s) (shown s) (primary s) (alternate s) (dirty_count s) (scroll_count s)
    (alternate_active s) (primary_cur s) (primary_saved s) (scroll_top s) (scroll_bottom s) (back s) a.

Definition no_cursor : cursor := Cursor 0 0 false.
Definition zero_row_cols : list Z := replicate (Z.to_nat TERM_SCROLLBACK_ROWS) 0.

(** [memset(surface, 0, ...)]. *)
Definition zero_surface (ans : list bool) : terminal_surface :=
  Surface 0 0 no_cursor no_cursor NoScreen None None 0 0 false no_cursor no_cursor 0 0
    (Scrollback None zero_row_cols 0 0) ans.

(** [for (i = lo; i < hi; i++)]. *)
Definition for_range {S} (lo hi : Z) (body : S → Z → outcome S) (s : S) : outcome S :=
  foldM body (seqZ lo (hi - lo)) s.

(** ** Helpers of the file *)

Definition terminal_surface_clamp (value lo hi : Z) : Z :=
  if value <? lo then lo else if hi <? value then hi else value.

Definition terminal_surface_index (s : terminal_surface) (c r : Z) : Z := i32 (i32 (r * cols s) + c).

Definition default_blank : term_cell := Cell 0x20 TERM_COLOR_LIGHT_GRAY TERM_COLOR_BLACK 0 1.

Definition terminal_surface_blank_cell (fill : option term_cell) : term_cell :=
  match fill with
  | Some f => Cell 0x20 (fg f) (bg f) (Z.land (attr f) 0xfb) 1
  | None => default_blank
  end.

(** The arrays behind [surface->cells] and [surface->dirty]; [None] is NULL. *)
Definition shown_buffer (s : terminal_surface) : outcome (option buffer) :=
  match shown s with
  | NoScreen => Ret None
  | Primary => b ← or_fault (primary s); Ret (Some b)
  | Alternate => b ← or_fault (alternate s); Ret (Some b)
  | Freed => Fault
  end.

Definition set_shown_buffer (b : buffer) (s : terminal_surface) : terminal_surface :=
  match shown s with
  | Primary => set_primary (Some b) s
  | Alternate => set_alternate (Some b) s
  | _ => s
  end.

(** [surface->cells[index]] and its assignment. *)
Definition read_cell (s : terminal_surface) (index : Z) : outcome term_cell :=
  o ← shown_buffer s; b ← or_fault o; load1 (b_cells b) index.

Definition write_cell (index : Z) (c : term_cell) (s : terminal_surface) : outcome terminal_surface :=
  o ← shown_buffer s; b ← or_fault o;
  cells ← store1 (b_cells b) index c;
  Ret (set_shown_buffer (Buffer cells (b_dirty b)) s).

(** [surface->dirty[index]] and its assignment. *)
Definition read_dirty (s : terminal_surface) (index : Z) : outcome Z :=
  o ← shown_buffer s; b ← or_fault o; load1 (b_dirty b) index.

Definition write_dirty (index d : Z) (s : terminal_surface) : outcome terminal_surface :=
  o ← shown_buffer s; b ← or_fault o;
  dirty ← store1 (b_dirty b) index d;
  Ret (set_shown_buffer (Buffer (b_cells b) dirty) s).

Definition terminal_surface_mark_dirty (index : Z) (s : terminal_surface) : outcome terminal_surface :=
  o ← shown_buffer s;
  match o with
  | None => Ret s
  | Some _ =>
      d ← read_dirty s index;
      if d =? 0 then
        s ← write_dirty index 1 s;
        Ret (set_counts (dirty_count s + 1) (scroll_count s) s)
      else Ret s
  end.

Definition terminal_surface_fill_buffer (b : buffer) (c r : Z) (fill : option term_cell) (mark_dirty : bool) :
    outcome buffer :=
  if (c <=? 0) || (r <=? 0) then Ret b
  else
    let blank := terminal_surface_blank_cell fill in
    for_range 0 r (fun b row =>
      for_range 0 c (fun b col =>
        let index := i32 (i32 (row * c) + col) in
        cells ← store1 (b_cells b) index blank;
        dirty ← store1 (b_dirty b) index (if mark_dirty then 1 else 0);
        Ret (Buffer cells dirty)) b) b.

Section allocation.
(** What fresh memory holds. *)
Context (garbage : term_cell) (garbage_dirty : Z).

Definition malloc (s : terminal_surface) : bool * terminal_surface :=
  match answers s with
  | [] => (true, s)
  | a :: l => (a, set_answers l s)
  end.

(** [malloc(sizeof(struct term_cell) * total)] as an array of cells: the size in
    bytes is a 32-bit number. *)
Definition fresh_cells (total : Z) : list term_cell :=
  replicate (Z.to_nat (u32 (SIZEOF_CELL * u32 total) / SIZEOF_CELL)) garbage.
Definition fresh_buffer (total : Z) : buffer :=
  Buffer (fresh_cells total) (replicate (Z.to_nat (u32 total)) garbage_dirty).

(** The new buffer, or [None] and nothing is changed. *)
Definition terminal_surface_resize_buffer (old : option buffer) (old_cols old_rows new_cols new_rows : Z)
    (fill : option term_cell) (s : terminal_surface) : outcome (option buffer * terminal_surface) :=
  if (new_cols <=? 0) || (new_rows <=? 0) then Ret (None, s)
  else
    let total := i32 (new_cols * new_rows) in
    let '(ok_cells, s) := malloc s in
    let '(ok_dirty, s) := malloc s in
    if negb ok_cells || negb ok_dirty then Ret (None, s)
    else
      next ← terminal_surface_fill_buffer (fresh_buffer total) new_cols new_rows fill true;
      next ←
        match old with
        | Some old =>
            if (0 <? old_cols) && (0 <? old_rows) then
              let copy_cols := if old_cols <? new_cols then old_cols else new_cols in
              let copy_rows := if old_rows <? new_rows then old_rows else new_rows in
              for_range 0 copy_rows (fun next row =>
                for_range 0 copy_cols (fun next col =>
                  c ← load1 (b_cells old) (i32 (i32 (row * old_cols) + col));
                  cells ← store1 (b_cells next) (i32 (i32 (row * new_cols) + col)) c;
                  Ret (Buffer cells (b_dirty next))) next) next
            else Ret next
        | None => Ret next
        end;
      Ret (Some next, s).

Definition terminal_surface_clear_scrollback (s : terminal_surface) : terminal_surface :=
  set_back (Scrollback (sb_cells (back s)) zero_row_cols 0 0) s.

Definition terminal_surface_init_scrollback (s : terminal_surface) : Z * terminal_surface :=
  let '(ok, s) :=
    match sb_cells (back s) with
    | Some _ => (true, s)
    | None =>
        let '(ok, s) := malloc s in
        if ok : bool then
          let sb := back s in
          (true, set_back (Scrollback (Some (fresh_cells (TERM_SCROLLBACK_ROWS * TERM_SCROLLBACK_MAX_COLS)))
                             (sb_row_cols sb) (sb_head sb) (sb_len sb)) s)
        else (false, s)
    end in
  if ok : bool then (0, terminal_surface_clear_scrollback s) else (-1, s).

Definition terminal_surface_scrollback_row_index (s : terminal_surface) (r : Z) : Z :=
  if (r <? 0) || (sb_len (back s) <=? r) then -1
  else Z.rem (sb_head (back s) + r) TERM_SCROLLBACK_ROWS.

Definition terminal_surface_capture_scrollback_row (s : terminal_surface) (r : Z) : outcome terminal_surface :=
  o ← shown_buffer s;
  match o, sb_cells (back s) with
  | Some b, Some cells =>
      if (r <? 0) || (rows s <=? r) then Ret s
      else
        let sb := back s in
        let '(dst_row, head, len) :=
          if sb_len sb <? TERM_SCROLLBACK_ROWS
          then (Z.rem (sb_head sb + sb_len sb) TERM_SCROLLBACK_ROWS, sb_head sb, sb_len sb + 1)
          else (sb_head sb, Z.rem (sb_head sb + 1) TERM_SCROLLBACK_ROWS, sb_len sb) in
        let copy_cols := cols s in
        let copy_cols := if TERM_SCROLLBACK_MAX_COLS <? copy_cols then TERM_SCROLLBACK_MAX_COLS else copy_cols in
        let copy_cols := if copy_cols <? 0 then 0 else copy_cols in
        let dst_base := dst_row * TERM_SCROLLBACK_MAX_COLS in
        let src_base := i32 (r * cols s) in
        cells ← (if 0 <? copy_cols
                 then line ← load_bytes (b_cells b) src_base copy_cols; store_bytes cells dst_base line
                 else Ret cells);
        cells ← (if copy_cols <? TERM_SCROLLBACK_MAX_COLS
                 then for_range copy_cols TERM_SCROLLBACK_MAX_COLS
                        (fun cells c => store1 cells (dst_base + c) (terminal_surface_blank_cell None)) cells
                 else Ret cells);
        row_cols ← store1 (sb_row_cols sb) dst_row (copy_cols mod 2 ^ 16);
        Ret (set_back (Scrollback (Some cells) row_cols head len) s)
  | _, _ => Ret s
  end.

Definition terminal_surface_blank_out (c r : Z) (fill : option term_cell) (s : terminal_surface) :
    outcome terminal_surface :=
  o ← shown_buffer s;
  match o with
  | None => Ret s
  | Some _ =>
      if (c <? 0) || (r <? 0) || (cols s <=? c) || (rows s <=? r) then Ret s
      else
        let blank := terminal_surface_blank_cell fill in
        let index := terminal_surface_index s c r in
        x ← read_cell s index;
        if decide (x = blank) then Ret s
        else s ← write_cell index blank s; terminal_surface_mark_dirty index s
  end.

(** ** Clearing and damage *)

Definition terminal_surface_clear (fill : option term_cell) (s : terminal_surface) : outcome terminal_surface :=
  o ← shown_buffer s;
  match o with
  | None => Ret s
  | Some b =>
      let blank := terminal_surface_blank_cell fill in
      b ← terminal_surface_fill_buffer b (cols s) (rows s) (Some blank) true;
      Ret (set_counts (i32 (cols s * rows s)) (scroll_count s) (set_shown_buffer b s))
  end.

Definition terminal_surface_reset (fill : option term_cell) (s : terminal_surface) : outcome terminal_surface :=
  let s := set_saved no_cursor (set_cur no_cursor s) in
  let s := set_region 0 (rows s - 1) (set_counts (dirty_count s) 0 s) in
  terminal_surface_clear fill (terminal_surface_clear_scrollback s).

Definition terminal_surface_clear_region (left top right bottom : Z) (fill : option term_cell)
    (s : terminal_surface) : outcome terminal_surface :=
  o ← shown_buffer s;
  match o with
  | None => Ret s
  | Some _ =>
      let left := terminal_surface_clamp left 0 (cols s - 1) in
      let right := terminal_surface_clamp right 0 (cols s - 1) in
      let top := terminal_surface_clamp top 0 (rows s - 1) in
      let bottom := terminal_surface_clamp bottom 0 (rows s - 1) in
      if (right <? left) || (bottom <? top) then Ret s
      else
        let blank := terminal_surface_blank_cell fill in
        for_range top (bottom + 1) (fun s row =>
          for_range left (right + 1) (fun s col =>
            let index := terminal_surface_index s col row in
            s ← write_cell index blank s;
            terminal_surface_mark_dirty index s) s) s
  end.

Definition terminal_surface_mark_all_dirty (s : terminal_surface) : outcome terminal_surface :=
  o ← shown_buffer s;
  match o with
  | None => Ret s
  | Some _ =>
      let total := i32 (cols s * rows s) in
      s ← for_range 0 total (fun s i => write_dirty i 1 s) s;
      Ret (set_counts total (scroll_count s) s)
  end.

Definition terminal_surface_clear_damage (s : terminal_surface) : outcome terminal_surface :=
  o ← shown_buffer s;
  match o with
  | None => Ret s
  | Some _ =>
      let total := i32 (cols s * rows s) in
      s ← for_range 0 total (fun s i => write_dirty i 0 s) s;
      Ret (set_counts 0 (scroll_count s) s)
  end.

Definition terminal_surface_has_damage (s : terminal_surface) : bool := 0 <? dirty_count s.

Definition terminal_surface_is_dirty (s : terminal_surface) (c r : Z) : outcome bool :=
  o ← shown_buffer s;
  match o with
  | None => Ret false
  | Some _ =>
      if (c <? 0) || (r <? 0) || (cols s <=? c) || (rows s <=? r) then Ret false
      else d ← read_dirty s (terminal_surface_index s c r); Ret (negb (d =? 0))
  end.

Definition terminal_surface_cell (s : terminal_surface) (c r : Z) : outcome (option term_cell) :=
  o ← shown_buffer s;
  match o with
  | None => Ret None
  | Some _ =>
      if (c <? 0) || (r <? 0) || (cols s <=? c) || (rows s <=? r) then Ret None
      else x ← read_cell s (terminal_surface_index s c r); Ret (Some x)
  end.

(** ** The cursor *)

Definition terminal_surface_set_cursor (c r : Z) (s : terminal_surface) : terminal_surface :=
  if (cols s <=? 0) || (rows s <=? 0) then s
  else set_cur (Cursor (terminal_surface_clamp c 0 (cols s - 1)) (terminal_surface_clamp r 0 (rows s - 1)) false) s.

Definition terminal_surface_move_cursor (dcol drow : Z) (s : terminal_surface) : terminal_surface :=
  terminal_surface_set_cursor (i32 (cursor_col s + dcol)) (i32 (cursor_row s + drow)) s.

Definition terminal_surface_save_cursor (s : terminal_surface) : terminal_surface := set_saved (cur s) s.
Definition terminal_surface_restore_cursor (s : terminal_surface) : terminal_surface := set_cur (saved s) s.

Definition terminal_surface_set_scroll_region (top bottom : Z) (s : terminal_surface) : terminal_surface :=
  let top := if top <? 0 then 0 else top in
  let bottom := if rows s <=? bottom then rows s - 1 else bottom in
  if bottom <=? top then s
  else set_cur no_cursor (set_region top bottom s).

(** ** The alternate screen *)

(** The rest of [terminal_surface_enter_alternate], with both buffers allocated. *)
Definition enter_alternate (b : buffer) (fill : option term_cell) (s : terminal_surface) : outcome terminal_surface :=
  let s := set_primary_curs (cur s) (saved s) s in
  let blank := terminal_surface_blank_cell fill in
  b ← terminal_surface_fill_buffer b (cols s) (rows s) (Some blank) true;
  let s := set_shown Alternate true (set_alternate (Some b) s) in
  Ret (set_counts (i32 (cols s * rows s)) 0 (set_saved no_cursor (set_cur no_cursor s))).

Definition terminal_surface_enter_alternate (fill : option term_cell) (s : terminal_surface) : outcome terminal_surface :=
  if (cols s <=? 0) || (rows s <=? 0) then Ret s
  else if alternate_active s then terminal_surface_reset fill s
  else
    match alternate s with
    | Some b => enter_alternate b fill s
    | None =>
        let '(ok_cells, s) := malloc s in
        let '(ok_dirty, s) := malloc s in
        if negb ok_cells || negb ok_dirty then Ret (set_alternate None s)
        else enter_alternate (fresh_buffer (i32 (cols s * rows s))) fill s
    end.

Definition terminal_surface_leave_alternate (s : terminal_surface) : outcome terminal_surface :=
  if negb (alternate_active s) then Ret s
  else
    let shows := match primary s with Some _ => Primary | None => NoScreen end in
    let s := set_shown shows false s in
    terminal_surface_mark_all_dirty (set_saved (primary_saved s) (set_cur (primary_cur s) s)).

Definition terminal_surface_is_alternate (s : terminal_surface) : bool := alternate_active s.

(** ** Scrolling *)

Definition terminal_surface_scroll_up (lines : Z) (fill : option term_cell) (s : terminal_surface) :
    outcome terminal_surface :=
  o ← shown_buffer s;
  match o with
  | None => Ret s
  | Some _ =>
      if lines <=? 0 then Ret s
      else
        let s := set_cur (Cursor (cursor_col s) (cursor_row s) false) s in
        let region_top := if scroll_top s <? 0 then 0 else scroll_top s in
        let region_bottom := if rows s <=? scroll_bottom s then rows s - 1 else scroll_bottom s in
        let region_size := region_bottom - region_top + 1 in
        s ← (if negb (alternate_active s) && (region_top =? 0) && (region_bottom =? rows s - 1) then
               let capture_lines := if region_size <? lines then region_size else lines in
               for_range region_top (region_top + capture_lines) terminal_surface_capture_scrollback_row s
             else Ret s);
        if region_size <=? lines then
          let s := set_counts (dirty_count s) (i32 (scroll_count s + lines)) s in
          terminal_surface_clear_region 0 region_top (cols s - 1) region_bottom fill s
        else
          let blank := terminal_surface_blank_cell fill in
          s ← for_range region_top (region_bottom - lines + 1) (fun s row =>
                for_range 0 (cols s) (fun s col =>
                  let dst := terminal_surface_index s col row in
                  let src := terminal_surface_index s col (row + lines) in
                  x ← read_cell s src; s ← write_cell dst x s;
                  d ← read_dirty s src; write_dirty dst d s) s) s;
          s ← for_range (region_bottom - lines + 1) (region_bottom + 1) (fun s row =>
                for_range 0 (cols s) (fun s col =>
                  let index := terminal_surface_index s col row in
                  s ← write_cell index blank s; write_dirty index 1 s) s) s;
          count ← for_range 0 (rows s) (fun n row =>
                    for_range 0 (cols s) (fun n col =>
                      d ← read_dirty s (terminal_surface_index s col row);
                      Ret (if d =? 0 then n else n + 1)) n) 0;
          Ret (set_counts count (i32 (scroll_count s + lines)) s)
  end.

(** The common end of a new line and a pending wrap. *)
Definition next_line (fill : option term_cell) (s : terminal_surface) : outcome terminal_surface :=
  let s := set_cur (Cursor 0 (cursor_row s) false) s in
  if scroll_bottom s <=? cursor_row s then
    s ← terminal_surface_scroll_up 1 fill s;
    Ret (set_cur (Cursor (cursor_col s) (scroll_bottom s) (wrap_pending s)) s)
  else Ret (set_cur (Cursor (cursor_col s) (i32 (cursor_row s + 1)) (wrap_pending s)) s).

Definition terminal_surface_wrap_for_output (fill : option term_cell) (s : terminal_surface) : outcome terminal_surface :=
  if negb (wrap_pending s) then Ret s else next_line fill s.

Definition terminal_surface_newline (fill : option term_cell) (s : terminal_surface) : outcome terminal_surface :=
  next_line fill s.

Definition terminal_surface_carriage_return (s : terminal_surface) : terminal_surface :=
  set_cur (Cursor 0 (cursor_row s) false) s.

Definition terminal_surface_backspace (s : terminal_surface) : terminal_surface :=
  if wrap_pending s then set_cur (Cursor (cursor_col s) (cursor_row s) false) s
  else if 0 <? cursor_col s then set_cur (Cursor (cursor_col s - 1) (cursor_row s) (wrap_pending s)) s
  else s.

(** ** Writing *)

(** The cell that [terminal_surface_put_cell] stores. *)
Definition stored_cell (cell : option term_cell) : term_cell :=
  let next := default (terminal_surface_blank_cell cell) cell in
  let cont := negb (Z.land (attr next) TERM_ATTR_CONTINUATION =? 0) in
  let next :=
    if cont then Cell 0 (fg next) (bg next) (attr next) 0
    else if width next =? 0 then Cell (ch next) (fg next) (bg next) (attr next) 1
    else next in
  if (ch next =? 0) && negb cont then Cell 0x20 (fg next) (bg next) (attr next) (width next) else next.

Definition terminal_surface_put_cell (c r : Z) (cell : option term_cell) (s : terminal_surface) :
    outcome terminal_surface :=
  o ← shown_buffer s;
  match o with
  | None => Ret s
  | Some _ =>
      if (c <? 0) || (r <? 0) || (cols s <=? c) || (rows s <=? r) then Ret s
      else
        let next := stored_cell cell in
        let index := terminal_surface_index s c r in
        old ← read_cell s index;
        s ← (if negb (Z.land (attr old) TERM_ATTR_CONTINUATION =? 0) && (0 <? c)
             then terminal_surface_blank_out (c - 1) r (Some next) s
             else if (1 <? width old) && (c + 1 <? cols s)
             then terminal_surface_blank_out (c + 1) r (Some next) s
             else Ret s);
        old ← read_cell s index;
        if decide (old = next) then Ret s
        else s ← write_cell index next s; terminal_surface_mark_dirty index s
  end.

Definition terminal_surface_write_codepoint (codepoint w : Z) (style : option term_cell) (s : terminal_surface) :
    outcome terminal_surface :=
  if (cols s <=? 0) || (rows s <=? 0) then Ret s
  else if w <=? 0 then Ret s
  else
    let w := if 2 <? w then 1 else w in
    let w := if (w =? 2) && (cols s <? 2) then 1 else w in
    s ← terminal_surface_wrap_for_output style s;
    s ← (if (w =? 2) && (cols s - 1 <=? cursor_col s) then terminal_surface_newline style s else Ret s);
    let blank := terminal_surface_blank_cell style in
    let cell := Cell (if codepoint =? 0 then 0x20 else codepoint) (fg blank) (bg blank) (attr blank) w in
    s ← terminal_surface_put_cell (cursor_col s) (cursor_row s) (Some cell) s;
    s ← (if w =? 2 then
           let continuation := Cell 0 (fg blank) (bg blank) (Z.lor (attr blank) TERM_ATTR_CONTINUATION) 0 in
           terminal_surface_put_cell (cursor_col s + 1) (cursor_row s) (Some continuation) s
         else Ret s);
    if cols s - w <=? cursor_col s
    then Ret (set_cur (Cursor (cols s - 1) (cursor_row s) true) s)
    else Ret (set_cur (Cursor (cursor_col s + w) (cursor_row s) false) s).

Definition terminal_surface_write_char (c : Z) (style : option term_cell) (s : terminal_surface) :
    outcome terminal_surface :=
  terminal_surface_write_codepoint (c mod 256) 1 style s.

(** The loop of [terminal_surface_tab] for at most [fuel] rounds. *)
Fixpoint tab_loop (fuel : nat) (next_stop : Z) (style : option term_cell) (s : terminal_surface) :
    outcome terminal_surface :=
  match fuel with
  | O => Hang
  | S fuel =>
      if cursor_col s <? next_stop then
        s ← terminal_surface_write_codepoint 0x20 1 style s;
        if cursor_col s =? 0 then Ret s else tab_loop fuel next_stop style s
      else Ret s
  end.

(** A loop that has not ended after one round per column of the stop never ends:
    see [tab_loop_diverges] in [SurfaceProps]. *)
Definition terminal_surface_tab (style : option term_cell) (s : terminal_surface) : outcome terminal_surface :=
  s ← terminal_surface_wrap_for_output style s;
  let next_stop := (Z.quot (cursor_col s) TERM_TAB_WIDTH + 1) * TERM_TAB_WIDTH in
  tab_loop (Z.to_nat TERM_TAB_WIDTH + 1) next_stop style s.

(** ** Creating, freeing and resizing *)

(** [free] of every buffer and [memset] of the surface. *)
Definition terminal_surface_free (s : terminal_surface) : terminal_surface := zero_surface (answers s).

Definition terminal_surface_init (c r : Z) (s : terminal_surface) : outcome (Z * terminal_surface) :=
  if (c <=? 0) || (r <=? 0) then Ret (-1, s)
  else
    let s := zero_surface (answers s) in
    let '(ok_cells, s) := malloc s in
    let '(ok_dirty, s) := malloc s in
    if negb ok_cells || negb ok_dirty then Ret (-1, terminal_surface_free s)
    else
      let s := set_primary (Some (fresh_buffer (i32 (c * r)))) s in
      match terminal_surface_init_scrollback s with
      | (res, s) =>
          if res <? 0 then Ret (-1, terminal_surface_free s)
          else
            let s := set_shown Primary false (set_size c r s) in
            s ← terminal_surface_reset (Some (terminal_surface_blank_cell None)) s;
            Ret (0, s)
      end.

(** A cursor kept inside the new size. *)
Definition clamp_cursor (c r : Z) (p : cursor) : cursor :=
  let x := terminal_surface_clamp (col p) 0 (c - 1) in
  Cursor x (terminal_surface_clamp (row p) 0 (r - 1)) (if negb (x =? c - 1) then false else pending p).

Definition terminal_surface_resize (c r : Z) (fill : option term_cell) (s : terminal_surface) :
    outcome (Z * terminal_surface) :=
  if (c <=? 0) || (r <=? 0) then Ret (-1, s)
  else
    '(next, s) ← terminal_surface_resize_buffer (primary s) (cols s) (rows s) c r fill s;
    match next with
    | None => Ret (-1, s)
    | Some p =>
        let s := set_primary (Some p) s in
        '(ok, s) ←
          match alternate s with
          | Some a =>
              '(next, s) ← terminal_surface_resize_buffer (Some a) (cols s) (rows s) c r fill s;
              match next with
              | Some a => Ret (true, set_alternate (Some a) s)
              | None => Ret (false, s)
              end
          | None => Ret (true, s)
          end;
        if negb (ok : bool) then
          (* [cells] still has the address of the primary buffer that was freed *)
          Ret (-1, match shown s with Primary => set_shown Freed (alternate_active s) s | _ => s end)
        else
          let s := terminal_surface_clear_scrollback s in
          let s := set_size c r s in
          let s := if alternate_active s
                   then set_shown (match alternate s with Some _ => Alternate | None => NoScreen end) true s
                   else set_shown Primary false s in
          let s := set_saved (clamp_cursor c r (saved s)) (set_cur (clamp_cursor c r (cur s)) s) in
          let s := set_primary_curs (clamp_cursor c r (primary_cur s)) (clamp_cursor c r (primary_saved s)) s in
          Ret (0, set_counts (i32 (c * r)) (scroll_count s) s)
    end.

(** ** Reading the scrollback *)

Definition terminal_surface_scrollback_rows (s : terminal_surface) : Z := sb_len (back s).

Definition terminal_surface_scrollback_cell (s : terminal_surface) (r c : Z) : outcome term_cell :=
  match sb_cells (back s) with
  | None => Ret default_blank
  | Some cells =>
      if (c <? 0) || (TERM_SCROLLBACK_MAX_COLS <=? c) then Ret default_blank
      else
        let physical_row := terminal_surface_scrollback_row_index s r in
        if physical_row <? 0 then Ret default_blank
        else
          row_cols ← load1 (sb_row_cols (back s)) physical_row;
          if row_cols <=? c then Ret default_blank
          else load1 cells (physical_row * TERM_SCROLLBACK_MAX_COLS + c)
  end.
End allocation.
