(* ===== verification/SurfaceInv.v ===== *)
(** * The screen of a terminal: invariant and specifications of the operations

    A safe surface has buffers of its size, a scrollback of its fixed size and an
    exact count of damaged cells.  Every operation is described on safe surfaces
    by the buffer it leaves. *)

From S2P Require Import Prelude Ring Surface.

(** ** Loops *)

Lemma for_range_empty {S} lo hi (body : S → Z → outcome S) s : hi ≤ lo → for_range lo hi body s = Ret s.
Proof. intros H. unfold for_range. by rewrite seqZ_nil by lia. Qed.

Lemma for_range_step {S} lo hi (body : S → Z → outcome S) s :
  lo < hi → for_range lo hi body s = (s' ← body s lo; for_range (lo + 1) hi body s').
Proof.
  intros H. unfold for_range. rewrite seqZ_cons by lia.
  replace (Z.pred (hi - lo)) with (hi - (lo + 1)) by lia. by rewrite <-Z.add_1_r.
Qed.

(** An invariant of a loop holds at its end, and the loop ends. *)
Lemma for_range_inv {S} (P : Z → S → Prop) lo hi (body : S → Z → outcome S) s :
  lo ≤ hi → P lo s →
  (∀ i s, lo ≤ i < hi → P i s → ∃ s', body s i = Ret s' ∧ P (i + 1) s') →
  ∃ s', for_range lo hi body s = Ret s' ∧ P hi s'.
Proof.
  intros Hle Hs Hstep. remember (Z.to_nat (hi - lo)) as n eqn:En. revert lo s Hle Hs Hstep En.
  induction n as [|n IH]; intros lo s Hle Hs Hstep En.
  - assert (lo = hi) as -> by lia. exists s. by rewrite for_range_empty.
  - rewrite for_range_step by lia. destruct (Hstep lo s) as (s1 & -> & Hs1); [lia|done|]. rewrite bind_ret.
    apply IH; [lia|done| |lia]. intros i s2 Hi. apply Hstep. lia.
Qed.

(** Two nested loops over a rectangle. *)
Lemma for_rect_inv {S} (P : Z → Z → S → Prop) top bottom left right (width : S → Z) (body : S → Z → Z → outcome S) s :
  top ≤ bottom → left ≤ right → P top left s →
  (∀ r s, top ≤ r < bottom → P r left s → width s = right) →
  (∀ r s, top ≤ r < bottom → P r right s → P (r + 1) left s) →
  (∀ r c s, top ≤ r < bottom → left ≤ c < right → P r c s → ∃ s', body s r c = Ret s' ∧ P r (c + 1) s') →
  ∃ s', for_range top bottom (fun s r => for_range left (width s) (fun s c => body s r c) s) s = Ret s' ∧ P bottom left s'.
Proof.
  intros Hr Hc Hs Hw Hend Hstep. apply (for_range_inv (fun r s => P r left s)); [done|done|].
  intros r s1 Hr1 Hs1. rewrite (Hw r) by done.
  destruct (for_range_inv (fun c s => P r c s) left right (fun s c => body s r c) s1) as (s2 & Hrun & Hs2); [done|done| |].
  - intros c s2 Hc2 Hs2. by apply Hstep.
  - exists s2. split; [done|]. by apply Hend.
Qed.

(** Two nested loops over whole rows, numbered through. *)
Lemma for_rows_inv {S} (P : Z → S → Prop) w top bottom (width : S → Z) (body : S → Z → Z → outcome S) s :
  0 ≤ w → top ≤ bottom → P (top * w) s →
  (∀ i s, P i s → width s = w) →
  (∀ r c s, top ≤ r < bottom → 0 ≤ c < w → P (r * w + c) s → ∃ s', body s r c = Ret s' ∧ P (r * w + c + 1) s') →
  ∃ s', for_range top bottom (fun s r => for_range 0 (width s) (fun s c => body s r c) s) s = Ret s' ∧ P (bottom * w) s'.
Proof.
  intros Hw Hr Hs Hwd Hstep.
  destruct (for_rect_inv (fun r c s => P (r * w + c) s) top bottom 0 w width body s) as (s' & Hrun & Hs');
    [done|done|by rewrite Z.add_0_r|by eauto| | |].
  - intros r s1 _ H1. by replace ((r + 1) * w + 0) with (r * w + w) by lia.
  - intros r c s1 Hr1 Hc1 H1. rewrite Z.add_assoc. auto.
  - exists s'. rewrite Z.add_0_r in Hs'. done.
Qed.

(** ** The invariant *)

Definition count_dirty (l : list Z) : Z := Z.of_nat (length (List.filter (fun d => negb (d =? 0)) l)).

Definition buf_ok (n : nat) (b : buffer) : Prop :=
  length (b_cells b) = n ∧ length (b_dirty b) = n.

Definition grid (s : terminal_surface) : nat := Z.to_nat (cols s * rows s).

Definition size_ok (c r : Z) : Prop := 0 < c ∧ 0 < r ∧ SIZEOF_CELL * (c * r) < U32.

Definition back_ok (sb : scrollback) : Prop :=
  (∃ l, sb_cells sb = Some l ∧ length l = Z.to_nat (TERM_SCROLLBACK_ROWS * TERM_SCROLLBACK_MAX_COLS)) ∧
  length (sb_row_cols sb) = Z.to_nat TERM_SCROLLBACK_ROWS ∧
  Forall (fun n => 0 ≤ n ≤ TERM_SCROLLBACK_MAX_COLS) (sb_row_cols sb) ∧
  0 ≤ sb_head sb < TERM_SCROLLBACK_ROWS ∧ 0 ≤ sb_len sb ≤ TERM_SCROLLBACK_ROWS.

(** Everything but the count of damaged cells. *)
Record shape (s : terminal_surface) : Prop := {
  sh_size : size_ok (cols s) (rows s);
  sh_primary : ∃ b, primary s = Some b ∧ buf_ok (grid s) b;
  sh_alternate : ∀ b, alternate s = Some b → buf_ok (grid s) b;
  sh_shown : shown s = (if alternate_active s then Alternate else Primary);
  sh_active : alternate_active s = true → is_Some (alternate s);
  sh_back : back_ok (back s)
}.

(** The shown buffer. *)
Definition view (s : terminal_surface) : buffer :=
  default (Buffer [] []) (if alternate_active s then alternate s else primary s).

Definition safe (s : terminal_surface) : Prop := shape s ∧ dirty_count s = count_dirty (b_dirty (view s)).

(** A surface that shows another buffer, with its count. *)
Definition draw (b : buffer) (s : terminal_surface) : terminal_surface :=
  set_counts (count_dirty (b_dirty b)) (scroll_count s) (set_shown_buffer b s).

Lemma size_ok_i32 c r i : size_ok c r → 0 ≤ i ≤ c * r → i32 i = i.
Proof. unfold size_ok, SIZEOF_CELL, U32. intros (? & ? & ?) ?. apply i32_small. lia. Qed.

(** A position of the grid and its index. *)
Lemma index_range w h c r : 0 ≤ c < w → 0 ≤ r < h → 0 ≤ r * w + c < w * h.
Proof. nia. Qed.

Lemma index_inj w c r c' r' : 0 ≤ c < w → 0 ≤ c' < w → r * w + c = r' * w + c' → c = c' ∧ r = r'.
Proof. intros. assert (r = r') by nia. subst. split; [lia|done]. Qed.

Section shape.
Context {s : terminal_surface} (Hs : shape s).

Lemma index_ok c r : 0 ≤ c < cols s → 0 ≤ r < rows s → terminal_surface_index s c r = r * cols s + c.
Proof using Hs.
  intros Hc Hr. destruct (sh_size s Hs) as (? & ? & ?). pose proof (index_range _ _ _ _ Hc Hr).
  unfold terminal_surface_index. rewrite !(size_ok_i32 (cols s) (rows s)) by (done || nia || (rewrite (size_ok_i32 (cols s) (rows s)) by (done || nia); nia)).
  done.
Qed.

Lemma view_ok : buf_ok (grid s) (view s).
Proof using Hs.
  unfold view. destruct (alternate_active s) eqn:E.
  - destruct (sh_active s Hs E) as [b Hb]. rewrite Hb. by apply (sh_alternate s Hs).
  - destruct (sh_primary s Hs) as (b & -> & ?). done.
Qed.

Lemma shown_view : shown_buffer s = Ret (Some (view s)).
Proof using Hs.
  unfold shown_buffer, view. rewrite (sh_shown s Hs). destruct (alternate_active s) eqn:E.
  - destruct (sh_active s Hs E) as [b ->]. done.
  - by destruct (sh_primary s Hs) as (b & -> & ?).
Qed.

Lemma view_set b : view (set_shown_buffer b s) = b.
Proof using Hs. unfold view, set_shown_buffer. rewrite (sh_shown s Hs). by destruct (alternate_active s) eqn:E; simpl; rewrite E. Qed.

Lemma shape_set b : buf_ok (grid s) b → shape (set_shown_buffer b s).
Proof using Hs.
  intros Hb. destruct Hs as [Hsz Hp Ha Hsh Hac Hbk]. unfold set_shown_buffer. rewrite Hsh.
  destruct (alternate_active s) eqn:E.
  - constructor; simpl; [done|done|by intros ? [= <-]|by rewrite E|by eexists|done].
  - constructor; simpl; [done|by eexists|done|by rewrite E|congruence|done].
Qed.
End shape.

(** ** Drawing *)

(** Changing the counts, or what surrounds the shown buffer, keeps the shape. *)
Lemma shape_counts d n s : shape s → shape (set_counts d n s).
Proof. intros []. by constructor. Qed.
Lemma shape_cur c s : shape s → shape (set_cur c s).
Proof. intros []. by constructor. Qed.
Lemma shape_saved c s : shape s → shape (set_saved c s).
Proof. intros []. by constructor. Qed.
Lemma shape_region t b s : shape s → shape (set_region t b s).
Proof. intros []. by constructor. Qed.
Lemma shape_primary_curs c sv s : shape s → shape (set_primary_curs c sv s).
Proof. intros []. by constructor. Qed.
Lemma shape_answers a s : shape s → shape (set_answers a s).
Proof. intros []. by constructor. Qed.
Lemma shape_back sb s : shape s → back_ok sb → shape (set_back sb s).
Proof. intros [] ?. by constructor. Qed.

Create HintDb surface.
#[export] Hint Resolve shape_counts shape_cur shape_saved shape_region shape_primary_curs shape_answers
  shape_back shape_set view_ok : surface.

Lemma draw_fields b s :
  cols (draw b s) = cols s ∧ rows (draw b s) = rows s ∧ cur (draw b s) = cur s ∧ saved (draw b s) = saved s ∧
  shown (draw b s) = shown s ∧ scroll_count (draw b s) = scroll_count s ∧
  alternate_active (draw b s) = alternate_active s ∧ primary_cur (draw b s) = primary_cur s ∧
  primary_saved (draw b s) = primary_saved s ∧ scroll_top (draw b s) = scroll_top s ∧
  scroll_bottom (draw b s) = scroll_bottom s ∧ back (draw b s) = back s ∧ answers (draw b s) = answers s.
Proof. unfold draw, set_shown_buffer. by destruct (shown s) eqn:E; simpl; rewrite ?E. Qed.

Lemma draw_cols b s : cols (draw b s) = cols s.
Proof. apply draw_fields. Qed.
Lemma draw_rows b s : rows (draw b s) = rows s.
Proof. apply draw_fields. Qed.
Lemma draw_cur b s : cur (draw b s) = cur s.
Proof. apply draw_fields. Qed.
Lemma draw_grid b s : grid (draw b s) = grid s.
Proof. unfold grid. by rewrite draw_cols, draw_rows. Qed.

Lemma draw_draw b b' s : draw b (draw b' s) = draw b s.
Proof. unfold draw, set_shown_buffer. by destruct (shown s) eqn:E; simpl; rewrite ?E. Qed.

Lemma draw_set_cur b c s : draw b (set_cur c s) = set_cur c (draw b s).
Proof. unfold draw, set_shown_buffer. simpl. by destruct (shown s). Qed.

Lemma draw_shape b s : shape s → buf_ok (grid s) b → shape (draw b s).
Proof. intros. unfold draw. by apply shape_counts, shape_set. Qed.

Lemma draw_view b s : shape s → view (draw b s) = b.
Proof. intros Hs. rewrite <-(view_set Hs b) at 2. done. Qed.

Lemma draw_safe b s : shape s → buf_ok (grid s) b → safe (draw b s).
Proof. intros. split; [by apply draw_shape|]. by rewrite draw_view. Qed.

Lemma set_view s : shape s → set_shown_buffer (view s) s = s.
Proof.
  intros [Hsz Hp Ha Hsh Hac Hbk]. unfold set_shown_buffer. rewrite Hsh. unfold view.
  destruct s as [? ? ? ? sh p a ? ? act]; simpl in *. destruct act; simpl in *; subst.
  - by destruct (Hac eq_refl) as [b ->].
  - by destruct Hp as (b & -> & _).
Qed.

Lemma draw_self s : safe s → draw (view s) s = s.
Proof. intros [Hs Hd]. unfold draw. rewrite <-Hd, set_view by done. by destruct s. Qed.

(** A cell and its damage mark. *)
Definition mark (d : Z) : Z := if d =? 0 then 1 else d.
Definition paint (i : Z) (c : term_cell) (b : buffer) : buffer :=
  Buffer (<[Z.to_nat i := c]> (b_cells b)) (alter mark (Z.to_nat i) (b_dirty b)).

Lemma paint_ok n i c b : buf_ok n b → buf_ok n (paint i c b).
Proof. intros [? ?]. split; simpl; [by rewrite length_insert|by rewrite length_alter]. Qed.

Lemma count_dirty_cons d l : count_dirty (d :: l) = count_dirty l + (if d =? 0 then 0 else 1).
Proof. unfold count_dirty. simpl. destruct (d =? 0); simpl; lia. Qed.

Lemma count_dirty_mark l (i : nat) d : l !! i = Some d → count_dirty (alter mark i l) = count_dirty l + (if d =? 0 then 1 else 0).
Proof.
  revert i. induction l as [|x l IH]; intros [|i] Hi; simplify_eq/=.
  - change (alter mark 0%nat (d :: l)) with (mark d :: l). rewrite !count_dirty_cons. unfold mark.
    destruct (d =? 0) eqn:E; [change (1 =? 0) with false|rewrite E]; cbv iota; lia.
  - change (alter mark (S i) (x :: l)) with (x :: alter mark i l). rewrite !count_dirty_cons, (IH i) by done. lia.
Qed.

Lemma mark_nonzero d (l : list Z) (i : nat) : l !! i = Some d → d ≠ 0 → alter mark i l = l.
Proof.
  intros Hi Hd. apply list_eq. intros j. destruct (decide (j = i)) as [->|Hne].
  - rewrite list_lookup_alter_eq, Hi. simpl. unfold mark. by destruct (Z.eqb_spec d 0).
  - by rewrite list_lookup_alter_ne.
Qed.

Section access.
Context {s : terminal_surface} (Hs : shape s).

Lemma read_cell_Ret i : 0 ≤ i < Z.of_nat (grid s) → ∃ x, read_cell s i = Ret x ∧ b_cells (view s) !! Z.to_nat i = Some x.
Proof using Hs.
  intros Hi. destruct (view_ok Hs) as [Hc _]. destruct (lookup_lt_is_Some_2 (b_cells (view s)) (Z.to_nat i)) as [x Hx]; [lia|].
  exists x. unfold read_cell. rewrite shown_view, bind_ret by done. simpl. split; [|done]. apply load1_Ret; [lia|done].
Qed.

Lemma write_cell_Ret i c :
  0 ≤ i < Z.of_nat (grid s) →
  write_cell i c s = Ret (set_shown_buffer (Buffer (<[Z.to_nat i := c]> (b_cells (view s))) (b_dirty (view s))) s).
Proof using Hs.
  intros Hi. destruct (view_ok Hs) as [Hc _]. unfold write_cell. rewrite shown_view, bind_ret by done. simpl.
  by rewrite store1_Ret by lia.
Qed.

Lemma read_dirty_Ret i : 0 ≤ i < Z.of_nat (grid s) → ∃ d, read_dirty s i = Ret d ∧ b_dirty (view s) !! Z.to_nat i = Some d.
Proof using Hs.
  intros Hi. destruct (view_ok Hs) as [_ Hd]. destruct (lookup_lt_is_Some_2 (b_dirty (view s)) (Z.to_nat i)) as [x Hx]; [lia|].
  exists x. unfold read_dirty. rewrite shown_view, bind_ret by done. simpl. split; [|done]. apply load1_Ret; [lia|done].
Qed.

Lemma write_dirty_Ret i d :
  0 ≤ i < Z.of_nat (grid s) →
  write_dirty i d s = Ret (set_shown_buffer (Buffer (b_cells (view s)) (<[Z.to_nat i := d]> (b_dirty (view s)))) s).
Proof using Hs.
  intros Hi. destruct (view_ok Hs) as [_ Hd]. unfold write_dirty. rewrite shown_view, bind_ret by done. simpl.
  by rewrite store1_Ret by lia.
Qed.
End access.

(** A cell is stored and marked. *)
Lemma paint_run s i c :
  safe s → 0 ≤ i < Z.of_nat (grid s) →
  (s1 ← write_cell i c s; terminal_surface_mark_dirty i s1) = Ret (draw (paint i c (view s)) s).
Proof.
  intros [Hs Hd] Hi. rewrite write_cell_Ret by done. rewrite bind_ret.
  set (b1 := Buffer _ _). assert (buf_ok (grid s) b1) as Hb1.
  { destruct (view_ok Hs). split; simpl; [by rewrite length_insert|done]. }
  pose proof (shape_set Hs b1 Hb1) as Hs1. set (s1 := set_shown_buffer b1 s) in *.
  assert (view s1 = b1) as Hv1 by by apply view_set.
  assert (grid s1 = grid s ∧ dirty_count s1 = dirty_count s ∧ scroll_count s1 = scroll_count s) as (Hg & Hdc & Hsc).
  { unfold s1, grid, set_shown_buffer. by destruct (shown s). }
  unfold terminal_surface_mark_dirty. rewrite (shown_view Hs1), bind_ret.
  destruct (read_dirty_Ret Hs1 i) as (d & -> & Hd1); [by rewrite Hg|]. rewrite bind_ret. rewrite Hv1 in Hd1. simpl in Hd1.
  assert (∀ b, set_shown_buffer b s1 = set_shown_buffer b s) as Hss.
  { intros b. unfold s1, set_shown_buffer. by destruct (shown s) eqn:E; simpl; rewrite ?E. }
  unfold draw, paint. cbn [b_dirty]. rewrite (count_dirty_mark _ _ d) by done.
  destruct (Z.eqb_spec d 0) as [->|Hne].
  - rewrite (write_dirty_Ret Hs1), bind_ret by by rewrite Hg. f_equal. rewrite Hv1, Hss. simpl.
    assert (∀ b, scroll_count (set_shown_buffer b s) = scroll_count s ∧ dirty_count (set_shown_buffer b s) = dirty_count s) as Hf.
    { intros b. unfold set_shown_buffer. by destruct (shown s). }
    rewrite (proj1 (Hf _)), (proj2 (Hf _)), Hd. f_equal. f_equal. f_equal.
    apply list_eq. intros j. destruct (decide (j = Z.to_nat i)) as [->|Hj].
    + rewrite list_lookup_alter_eq, Hd1. simpl. rewrite list_lookup_insert_eq; [done|]. by eapply lookup_lt_Some.
    + by rewrite list_lookup_alter_ne, list_lookup_insert_ne.
  - rewrite (mark_nonzero d) by done. rewrite Z.add_0_r, <-Hd, <-Hdc, <-Hsc. f_equal.
    unfold set_counts, s1, b1, set_shown_buffer. rewrite (sh_shown s Hs). by destruct (alternate_active s).
Qed.

(** ** What an operation on the shown screen leaves alone *)

(** The buffer that is not shown. *)
Definition hidden (s : terminal_surface) : option buffer := if alternate_active s then primary s else alternate s.

Record env_eq (s s' : terminal_surface) : Prop := {
  eq_cols : cols s' = cols s;
  eq_rows : rows s' = rows s;
  eq_saved : saved s' = saved s;
  eq_active : alternate_active s' = alternate_active s;
  eq_hidden : hidden s' = hidden s;
  eq_primary_cur : primary_cur s' = primary_cur s;
  eq_primary_saved : primary_saved s' = primary_saved s;
  eq_top : scroll_top s' = scroll_top s;
  eq_bottom : scroll_bottom s' = scroll_bottom s;
  eq_answers : answers s' = answers s
}.

#[export] Instance env_eq_preorder : PreOrder env_eq.
Proof. split; [by constructor|]. intros s1 s2 s3 [] []. constructor; congruence. Qed.

Lemma env_grid s s' : env_eq s s' → grid s' = grid s.
Proof. intros []. unfold grid. congruence. Qed.

Lemma env_draw b s : shape s → env_eq s (draw b s).
Proof.
  intros Hs. constructor; try apply draw_fields. unfold hidden, draw, set_shown_buffer. rewrite (sh_shown s Hs).
  destruct (alternate_active s) eqn:E; simpl; by rewrite E.
Qed.
Lemma env_cur c s : env_eq s (set_cur c s).
Proof. by constructor. Qed.
Lemma env_counts d n s : env_eq s (set_counts d n s).
Proof. by constructor. Qed.
Lemma env_back sb s : env_eq s (set_back sb s).
Proof. by constructor. Qed.
#[export] Hint Resolve env_draw env_cur env_counts env_back : surface.

Lemma safe_cur c s : safe s → safe (set_cur c s).
Proof. intros [? ?]. split; [by apply shape_cur|done]. Qed.
Lemma safe_saved c s : safe s → safe (set_saved c s).
Proof. intros [? ?]. split; [by apply shape_saved|done]. Qed.
Lemma safe_region t b s : safe s → safe (set_region t b s).
Proof. intros [? ?]. split; [by apply shape_region|done]. Qed.
Lemma safe_back sb s : safe s → back_ok sb → safe (set_back sb s).
Proof. intros [? ?] ?. split; [by apply shape_back|done]. Qed.
Lemma safe_answers a s : safe s → safe (set_answers a s).
Proof. intros [? ?]. split; [by apply shape_answers|done]. Qed.
Lemma safe_scroll_count n s : safe s → safe (set_counts (dirty_count s) n s).
Proof. intros [? ?]. split; [by apply shape_counts|done]. Qed.
Lemma safe_shape s : safe s → shape s.
Proof. by intros []. Qed.
#[export] Hint Resolve safe_cur safe_saved safe_region safe_back safe_answers safe_scroll_count safe_shape draw_safe : surface.

(** A position inside the grid. *)
Definition on_screen (s : terminal_surface) (c r : Z) : Prop := 0 ≤ c < cols s ∧ 0 ≤ r < rows s.

Lemma on_screen_index s c r : shape s → on_screen s c r → 0 ≤ r * cols s + c < Z.of_nat (grid s).
Proof. intros _ [Hc Hr]. pose proof (index_range _ _ _ _ Hc Hr). unfold grid. lia. Qed.

Lemma outside_spec s c r :
  (c <? 0) || (r <? 0) || (cols s <=? c) || (rows s <=? r) = false ↔ on_screen s c r.
Proof. unfold on_screen. lia. Qed.

(** ** Single cells *)

Lemma blank_out_spec s c r fill :
  safe s → ∃ b, terminal_surface_blank_out c r fill s = Ret (draw b s) ∧ buf_ok (grid s) b ∧
    (on_screen s c r → b_cells b = <[Z.to_nat (r * cols s + c) := terminal_surface_blank_cell fill]> (b_cells (view s))) ∧
    (¬ on_screen s c r → b = view s).
Proof.
  intros Hsafe. pose proof (safe_shape s Hsafe) as Hs. unfold terminal_surface_blank_out.
  rewrite shown_view, bind_ret by done. pose proof (view_ok Hs) as Hok.
  destruct ((c <? 0) || (r <? 0) || (cols s <=? c) || (rows s <=? r)) eqn:E.
  { exists (view s). rewrite draw_self by done. split_and!; [done|done| |done].
    intros Ho. apply outside_spec in Ho. congruence. }
  apply outside_spec in E. cbv zeta. rewrite index_ok by (done || apply E).
  pose proof (on_screen_index s c r Hs E) as Hi. destruct (read_cell_Ret Hs _ Hi) as (x & -> & Hx). rewrite bind_ret.
  case_decide as Hb.
  - exists (view s). rewrite draw_self by done. split_and!; [done|done| |done]. intros _. subst x. by rewrite list_insert_id.
  - rewrite (paint_run s) by done. eexists. split_and!; [done|by apply paint_ok|done|done].
Qed.

(** The cells after [terminal_surface_put_cell]: the other half of a wide
    character that is hit becomes blank. *)
Definition put_cells (s : terminal_surface) (c r : Z) (next : term_cell) : list term_cell :=
  let cells := b_cells (view s) in
  let i := r * cols s + c in
  let blank := terminal_surface_blank_cell (Some next) in
  let cells :=
    match cells !! Z.to_nat i with
    | Some old =>
        if negb (Z.land (attr old) TERM_ATTR_CONTINUATION =? 0) && (0 <? c) then <[Z.to_nat (i - 1) := blank]> cells
        else if (1 <? width old) && (c + 1 <? cols s) then <[Z.to_nat (i + 1) := blank]> cells
        else cells
    | None => cells
    end in
  <[Z.to_nat i := next]> cells.

Lemma put_cell_spec s c r cell :
  safe s → ∃ b, terminal_surface_put_cell c r cell s = Ret (draw b s) ∧ buf_ok (grid s) b ∧
    (on_screen s c r → b_cells b = put_cells s c r (stored_cell cell)) ∧ (¬ on_screen s c r → b = view s).
Proof.
  intros Hsafe. pose proof (safe_shape s Hsafe) as Hs. unfold terminal_surface_put_cell.
  rewrite shown_view, bind_ret by done. pose proof (view_ok Hs) as Hok.
  destruct ((c <? 0) || (r <? 0) || (cols s <=? c) || (rows s <=? r)) eqn:E.
  { exists (view s). rewrite draw_self by done. split_and!; [done|done| |done].
    intros Ho. apply outside_spec in Ho. congruence. }
  apply outside_spec in E. cbv zeta. rewrite index_ok by (done || apply E).
  pose proof (on_screen_index s c r Hs E) as Hi. destruct (read_cell_Ret Hs _ Hi) as (old & -> & Hx). rewrite bind_ret.
  unfold put_cells. rewrite Hx. set (next := stored_cell cell). set (i := r * cols s + c) in *.
  set (m := if _ && _ then _ else _). set (cells := if _ && (0 <? c) then _ else _).
  assert (∃ b1, m = Ret (draw b1 s) ∧ buf_ok (grid s) b1 ∧ b_cells b1 = cells) as (b1 & -> & Hb1 & Hc1).
  { unfold m, cells, i. destruct (negb (Z.land (attr old) TERM_ATTR_CONTINUATION =? 0) && (0 <? c)) eqn:E1.
    - destruct (blank_out_spec s (c - 1) r (Some next) Hsafe) as (b1 & -> & Hb1 & Hin & _). exists b1. split_and!; [done|apply Hb1..|].
      rewrite Hin by (unfold on_screen in *; lia). do 2 f_equal. lia.
    - destruct ((1 <? width old) && (c + 1 <? cols s)) eqn:E2.
      + destruct (blank_out_spec s (c + 1) r (Some next) Hsafe) as (b1 & -> & Hb1 & Hin & _). exists b1. split_and!; [done|apply Hb1..|].
        rewrite Hin by (unfold on_screen in *; lia). do 2 f_equal. lia.
      + exists (view s). by rewrite draw_self. }
  rewrite bind_ret. pose proof (draw_safe b1 s Hs Hb1) as Hsafe1. pose proof (safe_shape _ Hsafe1) as Hs1.
  destruct (read_cell_Ret Hs1 i) as (x & -> & Hx1); [by rewrite draw_grid|]. rewrite draw_view in Hx1 by done. rewrite bind_ret.
  case_decide as Hn.
  - exists b1. split_and!; [done|apply Hb1..| |done]. intros _. rewrite <-Hc1. subst x. by rewrite list_insert_id.
  - rewrite (paint_run (draw b1 s)) by (rewrite ?draw_grid; done). rewrite draw_draw, draw_view by done.
    eexists. split_and!; [done|by apply paint_ok| |done]. intros _. simpl. by rewrite Hc1.
Qed.

(** ** Rectangles *)

(** The cell of a buffer at a column and a row. *)
Definition at_pos (s : terminal_surface) (b : buffer) (c r : Z) : option term_cell :=
  b_cells b !! Z.to_nat (r * cols s + c).

Lemma clamp_range v lo hi : lo ≤ hi → lo ≤ terminal_surface_clamp v lo hi ≤ hi.
Proof. unfold terminal_surface_clamp. intros. zcases; lia. Qed.

Lemma clamp_id v lo hi : lo ≤ v ≤ hi → terminal_surface_clamp v lo hi = v.
Proof. unfold terminal_surface_clamp. intros. zcases; lia. Qed.

(** The cells [done] of a painting are [blank], the others are those of [b0]. *)
Definition painted (s : terminal_surface) (blank : term_cell) (b0 b : buffer) (fin : Z → Z → bool) : Prop :=
  buf_ok (grid s) b ∧
  ∀ c r, on_screen s c r → at_pos s b c r = if fin c r then Some blank else at_pos s b0 c r.

Lemma painted_step s blank b0 b fin fin' c r :
  shape s → painted s blank b0 b fin → on_screen s c r →
  (∀ c' r', on_screen s c' r' → fin' c' r' = fin c' r' || (c' =? c) && (r' =? r)) →
  painted s blank b0 (paint (r * cols s + c) blank b) fin'.
Proof.
  intros Hs [Hb Hp] Ho Hf. split; [by apply paint_ok|]. intros c' r' Ho'. rewrite Hf by done.
  pose proof (on_screen_index s c r Hs Ho). pose proof (on_screen_index s c' r' Hs Ho'). unfold at_pos, paint in *. simpl.
  destruct ((c' =? c) && (r' =? r)) eqn:E.
  - assert (c' = c) as -> by lia. assert (r' = r) as -> by lia. rewrite orb_true_r.
    apply list_lookup_insert_eq. destruct Hb as [-> _]. lia.
  - rewrite orb_false_r, list_lookup_insert_ne by (intros Ei; destruct (index_inj (cols s) c r c' r'); [apply Ho|apply Ho'|lia|lia]).
    by apply Hp.
Qed.

Lemma clear_region_spec s left top right bottom fill :
  safe s →
  let l := terminal_surface_clamp left 0 (cols s - 1) in
  let r := terminal_surface_clamp right 0 (cols s - 1) in
  let t := terminal_surface_clamp top 0 (rows s - 1) in
  let bt := terminal_surface_clamp bottom 0 (rows s - 1) in
  ∃ b, terminal_surface_clear_region left top right bottom fill s = Ret (draw b s) ∧
    painted s (terminal_surface_blank_cell fill) (view s) b
      (fun c y => (l <=? c) && (c <=? r) && (t <=? y) && (y <=? bt)).
Proof.
  intros Hsafe. pose proof (safe_shape s Hsafe) as Hs. destruct (sh_size s Hs) as (Hc & Hr & _). cbv zeta.
  unfold terminal_surface_clear_region. rewrite shown_view, bind_ret by done. cbv zeta.
  pose proof (clamp_range left 0 (cols s - 1)). pose proof (clamp_range right 0 (cols s - 1)).
  pose proof (clamp_range top 0 (rows s - 1)). pose proof (clamp_range bottom 0 (rows s - 1)).
  set (l := terminal_surface_clamp left 0 (cols s - 1)) in *. set (r := terminal_surface_clamp right 0 (cols s - 1)) in *.
  set (t := terminal_surface_clamp top 0 (rows s - 1)) in *. set (bt := terminal_surface_clamp bottom 0 (rows s - 1)) in *.
  set (blank := terminal_surface_blank_cell fill).
  destruct ((r <? l) || (bt <? t)) eqn:E.
  { exists (view s). rewrite draw_self by done. split; [done|]. split; [by apply view_ok|].
    intros c y _. by destruct (_ && _ && _ && _) eqn:E2; [lia|]. }
  destruct (for_rect_inv (fun y c st => ∃ b, st = draw b s ∧
      painted s blank (view s) b (fun c' y' => (l <=? c') && (c' <=? r) && (t <=? y') && ((y' <? y) || (y' =? y) && (c' <? c))))
      t (bt + 1) l (r + 1) (fun _ => r + 1)
      (fun st y c => st1 ← write_cell (terminal_surface_index st c y) blank st;
                     terminal_surface_mark_dirty (terminal_surface_index st c y) st1) s) as (s' & Hrun & b & -> & Hp & Hpt).
  - lia.
  - lia.
  - exists (view s). rewrite draw_self by done. split; [done|]. split; [by apply view_ok|].
    intros c y _. by destruct (_ && _ && _ && _) eqn:E2; [lia|].
  - done.
  - intros y st Hy (b & -> & Hb & Hbp). exists b. split; [done|]. split; [done|].
    intros c' y' Ho. rewrite Hbp by done. do 1 (match goal with |- context [if ?a then _ else _] => destruct a eqn:E1 end);
      match goal with |- context [if ?a then _ else _] => destruct a eqn:E2 end; done || lia.
  - intros y c st Hy Hcc (b & -> & Hb). pose proof (draw_safe b s Hs (proj1 Hb)) as Hsafe1.
    assert (on_screen s c y) as Ho by (unfold on_screen; lia).
    rewrite (index_ok (safe_shape _ Hsafe1)) by (rewrite ?draw_cols, ?draw_rows; apply Ho). rewrite draw_cols.
    rewrite (paint_run (draw b s)) by (rewrite ?draw_grid; auto using on_screen_index).
    rewrite draw_draw, draw_view by done. eexists. split; [done|]. eexists. split; [done|].
    eapply painted_step; [done|exact Hb|done|]. intros c' y' Ho'. unfold on_screen in *. lia.
  - cbv beta in Hrun. exists b. split; [exact Hrun|]. split; [done|]. intros c' y' Ho. rewrite Hpt by done.
    match goal with |- (if ?a then _ else _) = _ => destruct a eqn:E1 end;
      match goal with |- context [if ?a then _ else _] => destruct a eqn:E2 end; done || lia.
Qed.

(** ** Whole buffers *)

Definition filled (n : nat) (c : term_cell) : buffer := Buffer (replicate n c) (replicate n 1).

Lemma filled_ok n c : buf_ok n (filled n c).
Proof. split; apply length_replicate. Qed.

Lemma count_dirty_replicate n d : count_dirty (replicate n d) = if d =? 0 then 0 else Z.of_nat n.
Proof.
  induction n as [|n IH]; [by destruct (d =? 0)|]. cbn [replicate]. rewrite count_dirty_cons, IH.
  destruct (d =? 0); lia.
Qed.

Lemma list_replicate_eq {A} (l : list A) n x : length l = n → (∀ j, (j < n)%nat → l !! j = Some x) → l = replicate n x.
Proof.
  intros Hl Hx. apply list_eq. intros j. destruct (decide (j < n)%nat).
  - rewrite Hx by done. symmetry. by apply lookup_replicate_2.
  - rewrite lookup_ge_None_2 by lia. symmetry. apply lookup_ge_None_2. rewrite length_replicate. lia.
Qed.

(** An assignment to the next place of a list whose first places are [x]. *)
Lemma insert_prefix {A} (l : list A) i x :
  0 ≤ i < Z.of_nat (length l) → (∀ j, (Z.of_nat j < i) → l !! j = Some x) →
  ∀ j, Z.of_nat j < i + 1 → <[Z.to_nat i := x]> l !! j = Some x.
Proof.
  intros Hi Hl j Hj. destruct (decide (j = Z.to_nat i)) as [->|Hne].
  - apply list_lookup_insert_eq. lia.
  - rewrite list_lookup_insert_ne by done. apply Hl. lia.
Qed.

Lemma fill_buffer_spec c r b fill m :
  size_ok c r → buf_ok (Z.to_nat (c * r)) b →
  terminal_surface_fill_buffer b c r fill m =
    Ret (Buffer (replicate (Z.to_nat (c * r)) (terminal_surface_blank_cell fill))
                (replicate (Z.to_nat (c * r)) (if m then 1 else 0))).
Proof.
  intros Hsz [Hlc Hld]. pose proof Hsz as (Hc & Hr & _). unfold terminal_surface_fill_buffer.
  destruct ((c <=? 0) || (r <=? 0)) eqn:E; [lia|]. cbv zeta.
  set (blank := terminal_surface_blank_cell fill). set (v := if m then 1 else 0).
  destruct (for_rows_inv (fun i b => buf_ok (Z.to_nat (c * r)) b ∧
      (∀ j, Z.of_nat j < i → b_cells b !! j = Some blank) ∧ (∀ j, Z.of_nat j < i → b_dirty b !! j = Some v))
      c 0 r (fun _ => c) (fun b row col =>
        cells ← store1 (b_cells b) (i32 (i32 (row * c) + col)) blank;
        dirty ← store1 (b_dirty b) (i32 (i32 (row * c) + col)) v;
        Ret (Buffer cells dirty)) b) as (b' & Hrun & [Hlc' Hld'] & Hbc & Hbd).
  - lia.
  - lia.
  - split; [done|]. split; intros; lia.
  - done.
  - intros y x b1 Hy Hx ([Hl1 Hl2] & H1 & H2). pose proof (index_range _ _ _ _ Hx Hy).
    rewrite (size_ok_i32 c r (y * c)) by (done || nia). rewrite (size_ok_i32 c r) by (done || nia).
    rewrite (store1_Ret (b_cells b1)), bind_ret by lia. rewrite (store1_Ret (b_dirty b1)), bind_ret by lia. eexists. split; [done|].
    split; [split; simpl; by rewrite length_insert|]. split; apply insert_prefix; done || lia.
  - cbv beta in Hrun. rewrite Hrun. f_equal. destruct b' as [cs ds]. simpl in *. f_equal; apply list_replicate_eq; try done.
    + intros j Hj. apply Hbc. lia.
    + intros j Hj. apply Hbd. lia.
Qed.

Lemma blank_idem fill : terminal_surface_blank_cell (Some (terminal_surface_blank_cell fill)) = terminal_surface_blank_cell fill.
Proof. destruct fill as [f|]; [|done]. unfold terminal_surface_blank_cell. simpl. by rewrite <-Z.land_assoc. Qed.

Lemma set_shown_scroll b s : scroll_count (set_shown_buffer b s) = scroll_count s.
Proof. unfold set_shown_buffer. by destruct (shown s). Qed.

Lemma clear_spec s fill :
  shape s → terminal_surface_clear fill s = Ret (draw (filled (grid s) (terminal_surface_blank_cell fill)) s).
Proof.
  intros Hs. unfold terminal_surface_clear. rewrite shown_view, bind_ret by done. cbv zeta.
  destruct (sh_size s Hs) as (Hc & Hr & Hm).
  rewrite fill_buffer_spec by (apply (sh_size s Hs) || exact (view_ok Hs)). rewrite bind_ret, blank_idem. f_equal.
  unfold draw, filled, grid. cbn [b_dirty]. rewrite count_dirty_replicate. change (1 =? 0) with false. cbv iota.
  rewrite (size_ok_i32 (cols s) (rows s)) by (apply (sh_size s Hs) || nia). rewrite Z2Nat.id by nia.
  done.
Qed.

Lemma write_all_dirty s v :
  shape s →
  for_range 0 (Z.of_nat (grid s)) (fun s i => write_dirty i v s) s
    = Ret (set_shown_buffer (Buffer (b_cells (view s)) (replicate (grid s) v)) s).
Proof.
  intros Hs. destruct (view_ok Hs) as [Hlc Hld].
  destruct (for_range_inv (fun i st => ∃ d, st = set_shown_buffer (Buffer (b_cells (view s)) d) s ∧ length d = grid s ∧
      ∀ j, Z.of_nat j < i → d !! j = Some v) 0 (Z.of_nat (grid s)) (fun s i => write_dirty i v s) s)
    as (s' & -> & d & -> & Hl & Hd).
  - lia.
  - exists (b_dirty (view s)). split_and!; [|done|intros; lia].
    replace (Buffer _ _) with (view s) by by destruct (view s). by rewrite set_view.
  - intros i st Hi (d & -> & Hl & Hd). assert (buf_ok (grid s) (Buffer (b_cells (view s)) d)) as Hb by done.
    pose proof (shape_set Hs _ Hb) as Hs1.
    assert (∀ b, grid (set_shown_buffer b s) = grid s) as Hg by (intros b; unfold grid, set_shown_buffer; by destruct (shown s)).
    rewrite (write_dirty_Ret Hs1) by by rewrite Hg. rewrite view_set by done. simpl. eexists. split; [done|].
    exists (<[Z.to_nat i := v]> d). split_and!; [|by rewrite length_insert|apply insert_prefix; [lia|done]].
    unfold set_shown_buffer. by destruct (shown s) eqn:E; simpl; rewrite ?E.
  - do 3 f_equal. apply list_replicate_eq; [done|]. intros j Hj. apply Hd. lia.
Qed.

Lemma grid_i32 s : shape s → i32 (cols s * rows s) = Z.of_nat (grid s).
Proof.
  intros Hs. destruct (sh_size s Hs) as (? & ? & ?). rewrite (size_ok_i32 (cols s) (rows s)) by (apply (sh_size s Hs) || nia).
  unfold grid. rewrite Z2Nat.id by nia. done.
Qed.

Lemma mark_all_dirty_spec s :
  shape s → terminal_surface_mark_all_dirty s = Ret (draw (Buffer (b_cells (view s)) (replicate (grid s) 1)) s).
Proof.
  intros Hs. unfold terminal_surface_mark_all_dirty. rewrite shown_view, bind_ret by done. cbv zeta.
  rewrite grid_i32, write_all_dirty, bind_ret by done. unfold draw. cbn [b_dirty].
  by rewrite count_dirty_replicate, set_shown_scroll.
Qed.

Lemma clear_damage_spec s :
  shape s → terminal_surface_clear_damage s = Ret (draw (Buffer (b_cells (view s)) (replicate (grid s) 0)) s).
Proof.
  intros Hs. unfold terminal_surface_clear_damage. rewrite shown_view, bind_ret by done. cbv zeta.
  rewrite grid_i32, write_all_dirty, bind_ret by done. unfold draw. cbn [b_dirty].
  by rewrite count_dirty_replicate, set_shown_scroll.
Qed.
