(* ===== verification/SurfaceScroll.v ===== *)
(** * The screen of a terminal: scrolling and the lines kept

    [terminal_surface_capture_scrollback_row] keeps the newest 512 lines that
    scrolled off the top, and [terminal_surface_scroll_up] moves the lines of the
    scroll region. *)

From S2P Require Import Prelude Ring Surface SurfaceInv.

(** ** The lines kept *)

(** The line in row [p] of the ring. *)
Definition sb_row (sb : scrollback) (p : Z) : list term_cell :=
  take (Z.to_nat (default 0 (sb_row_cols sb !! Z.to_nat p)))
    (drop (Z.to_nat (p * TERM_SCROLLBACK_MAX_COLS)) (default [] (sb_cells sb))).

(** All lines, the oldest first. *)
Definition history (sb : scrollback) : list (list term_cell) :=
  (fun k => sb_row sb ((sb_head sb + k) mod TERM_SCROLLBACK_ROWS)) <$> seqZ 0 (sb_len sb).

(** The part of a line of the screen that is kept. *)
Definition line (s : terminal_surface) (r : Z) : list term_cell :=
  take (Z.to_nat (Z.min (cols s) TERM_SCROLLBACK_MAX_COLS)) (drop (Z.to_nat (r * cols s)) (b_cells (view s))).

(** The last [n] elements. *)
Definition keep {A} (n : nat) (l : list A) : list A := drop (length l - n) l.

Lemma history_length sb : length (history sb) = Z.to_nat (sb_len sb).
Proof. unfold history. by rewrite length_fmap, length_seqZ. Qed.

Lemma history_lookup sb k :
  0 ≤ k < sb_len sb → history sb !! Z.to_nat k = Some (sb_row sb ((sb_head sb + k) mod TERM_SCROLLBACK_ROWS)).
Proof.
  intros Hk. unfold history. rewrite list_lookup_fmap, lookup_seqZ_lt by lia. simpl. do 3 f_equal. lia.
Qed.

(** Two places of a ring of [n] rows. *)
Lemma ring_ne n h i j : 0 ≤ i < n → 0 ≤ j < n → i ≠ j → (h + i) mod n ≠ (h + j) mod n.
Proof.
  intros Hi Hj Hne E. apply Hne. pose proof (Z.div_mod (h + i) n ltac:(lia)) as Ei.
  pose proof (Z.div_mod (h + j) n ltac:(lia)) as Ej. rewrite E in Ei.
  assert ((h + i) / n = (h + j) / n) by nia. nia.
Qed.

Lemma line_length s r : shape s → 0 ≤ r < rows s → length (line s r) = Z.to_nat (Z.min (cols s) TERM_SCROLLBACK_MAX_COLS).
Proof.
  intros Hs Hr. destruct (view_ok Hs) as [Hl _]. destruct (sh_size s Hs) as (? & ? & ?). unfold grid in Hl.
  unfold line. rewrite length_take, length_drop, Hl. nia.
Qed.

Lemma rem_ring h : 0 ≤ h → Z.rem h TERM_SCROLLBACK_ROWS = h mod TERM_SCROLLBACK_ROWS.
Proof. intros. apply Z.rem_mod_nonneg; [done|]. unfold TERM_SCROLLBACK_ROWS. lia. Qed.

(** Storing a line in row [q] of the ring, padded to the length of the row. *)
Definition ring_store (cells : list term_cell) (q : Z) (l : list term_cell) : outcome (list term_cell) :=
  let copy_cols := Z.of_nat (length l) in
  let dst_base := q * TERM_SCROLLBACK_MAX_COLS in
  cells ← store_bytes cells dst_base l;
  if copy_cols <? TERM_SCROLLBACK_MAX_COLS
  then for_range copy_cols TERM_SCROLLBACK_MAX_COLS
         (fun cells c => store1 cells (dst_base + c) (terminal_surface_blank_cell None)) cells
  else Ret cells.

Lemma ring_store_spec cells q l :
  length cells = Z.to_nat (TERM_SCROLLBACK_ROWS * TERM_SCROLLBACK_MAX_COLS) → 0 ≤ q < TERM_SCROLLBACK_ROWS →
  Z.of_nat (length l) ≤ TERM_SCROLLBACK_MAX_COLS →
  ∃ cells', ring_store cells q l = Ret cells' ∧ length cells' = length cells ∧
    (∀ j, (Z.of_nat j < q * TERM_SCROLLBACK_MAX_COLS ∨ (q + 1) * TERM_SCROLLBACK_MAX_COLS ≤ Z.of_nat j) → cells' !! j = cells !! j) ∧
    (∀ j, (j < length l)%nat → cells' !! (Z.to_nat (q * TERM_SCROLLBACK_MAX_COLS) + j)%nat = l !! j).
Proof.
  unfold TERM_SCROLLBACK_ROWS, TERM_SCROLLBACK_MAX_COLS. intros Hl Hq Hll. unfold ring_store, TERM_SCROLLBACK_MAX_COLS. cbv zeta.
  destruct (store_bytes_Ret cells (q * 320) l) as (c1 & -> & Hl1 & Hc1); [lia..|]. rewrite bind_ret.
  assert (∃ c2, (if Z.of_nat (length l) <? 320 then for_range (Z.of_nat (length l)) 320
      (fun cells c => store1 cells (q * 320 + c) (terminal_surface_blank_cell None)) c1 else Ret c1) = Ret c2 ∧
      length c2 = length cells ∧ ∀ j, (Z.of_nat j < q * 320 + Z.of_nat (length l) ∨ (q + 1) * 320 ≤ Z.of_nat j) → c2 !! j = c1 !! j)
    as (c2 & -> & Hl2 & Hc2).
  { destruct (Z.ltb_spec (Z.of_nat (length l)) 320); [|by exists c1].
    destruct (for_range_inv (fun _ c => length c = length cells ∧
      ∀ j, (Z.of_nat j < q * 320 + Z.of_nat (length l) ∨ (q + 1) * 320 ≤ Z.of_nat j) → c !! j = c1 !! j)
      (Z.of_nat (length l)) 320 (fun cells c => store1 cells (q * 320 + c) (terminal_surface_blank_cell None)) c1)
      as (c2 & Hrun & Hp); [lia|done| |by exists c2].
    intros i c Hi [Hlc Hc]. rewrite store1_Ret by lia. eexists. split; [done|]. rewrite length_insert. split; [done|].
    intros j Hj. rewrite list_lookup_insert_ne by lia. by apply Hc. }
  exists c2. split_and!; [done|done| |].
  - intros j Hj. rewrite Hc2 by lia. rewrite Hc1. case_decide; [lia|done].
  - intros j Hj. rewrite Hc2 by lia. rewrite Hc1. case_decide; [|lia]. f_equal. lia.
Qed.

(** The rows after a line has been stored in row [q]. *)
Lemma sb_row_store cells cells' rc head len head' len' q l n :
  length cells = Z.to_nat (TERM_SCROLLBACK_ROWS * TERM_SCROLLBACK_MAX_COLS) →
  length rc = Z.to_nat TERM_SCROLLBACK_ROWS → Forall (fun n => 0 ≤ n ≤ TERM_SCROLLBACK_MAX_COLS) rc →
  0 ≤ q < TERM_SCROLLBACK_ROWS → n = Z.of_nat (length l) → length cells' = length cells →
  n ≤ TERM_SCROLLBACK_MAX_COLS →
  (∀ j, (Z.of_nat j < q * TERM_SCROLLBACK_MAX_COLS ∨ (q + 1) * TERM_SCROLLBACK_MAX_COLS ≤ Z.of_nat j) → cells' !! j = cells !! j) →
  (∀ j, (j < length l)%nat → cells' !! (Z.to_nat (q * TERM_SCROLLBACK_MAX_COLS) + j)%nat = l !! j) →
  ∀ p, 0 ≤ p < TERM_SCROLLBACK_ROWS →
  sb_row (Scrollback (Some cells') (<[Z.to_nat q := n]> rc) head' len') p =
    if decide (p = q) then l else sb_row (Scrollback (Some cells) rc head len) p.
Proof.
  unfold TERM_SCROLLBACK_ROWS, TERM_SCROLLBACK_MAX_COLS. intros Hlc Hlr Hrc Hq -> Hl' Hll Hout Hin p Hp. unfold sb_row, TERM_SCROLLBACK_MAX_COLS.
  cbn [sb_row_cols sb_cells default]. case_decide as Epq.
  - subst p. rewrite list_lookup_insert_eq by lia. simpl. rewrite Nat2Z.id. apply list_eq. intros j.
    destruct (decide (j < length l)%nat).
    + rewrite lookup_take_lt, lookup_drop by done. by apply Hin.
    + rewrite lookup_take_ge by lia. symmetry. apply lookup_ge_None_2. lia.
  - rewrite list_lookup_insert_ne by lia. destruct (lookup_lt_is_Some_2 rc (Z.to_nat p)) as [m Hm]; [lia|]. rewrite Hm. simpl.
    apply (Forall_lookup_1 _ _ _ _ Hrc) in Hm. apply list_eq. intros j. destruct (decide (j < Z.to_nat m)%nat).
    + rewrite !lookup_take_lt, !lookup_drop by done. apply Hout. lia.
    + by rewrite !lookup_take_ge by lia.
Qed.

(** The ring after a line has been added: the new head, length and row. *)
Definition push_row (sb : scrollback) (l : list term_cell) : outcome scrollback :=
  cells ← or_fault (sb_cells sb);
  let '(q, head, len) :=
    if sb_len sb <? TERM_SCROLLBACK_ROWS
    then (Z.rem (sb_head sb + sb_len sb) TERM_SCROLLBACK_ROWS, sb_head sb, sb_len sb + 1)
    else (sb_head sb, Z.rem (sb_head sb + 1) TERM_SCROLLBACK_ROWS, sb_len sb) in
  cells ← ring_store cells q l;
  row_cols ← store1 (sb_row_cols sb) q (Z.of_nat (length l));
  Ret (Scrollback (Some cells) row_cols head len).

Lemma push_row_spec sb l :
  back_ok sb → Z.of_nat (length l) ≤ TERM_SCROLLBACK_MAX_COLS →
  ∃ sb', push_row sb l = Ret sb' ∧ back_ok sb' ∧
    history sb' = keep (Z.to_nat TERM_SCROLLBACK_ROWS) (history sb ++ [l]).
Proof.
  intros ((cells & Hcs & Hlc) & Hlr & Hrc & Hh & Hn) Hl. unfold push_row. rewrite Hcs. cbn [or_fault]. rewrite bind_ret.
  set (full := negb (sb_len sb <? TERM_SCROLLBACK_ROWS)).
  set (q := if full then sb_head sb else (sb_head sb + sb_len sb) mod TERM_SCROLLBACK_ROWS).
  set (head := if full then (sb_head sb + 1) mod TERM_SCROLLBACK_ROWS else sb_head sb).
  set (len := if full then sb_len sb else sb_len sb + 1).
  assert ((if sb_len sb <? TERM_SCROLLBACK_ROWS
    then (Z.rem (sb_head sb + sb_len sb) TERM_SCROLLBACK_ROWS, sb_head sb, sb_len sb + 1)
    else (sb_head sb, Z.rem (sb_head sb + 1) TERM_SCROLLBACK_ROWS, sb_len sb)) = (q, head, len)) as ->.
  { unfold q, head, len, full. rewrite !rem_ring by lia. by destruct (sb_len sb <? TERM_SCROLLBACK_ROWS). }
  assert (0 ≤ q < TERM_SCROLLBACK_ROWS) as Hq.
  { unfold q. destruct full; [done|]. apply Z.mod_pos_bound. unfold TERM_SCROLLBACK_ROWS. lia. }
  destruct (ring_store_spec cells q l Hlc Hq Hl) as (cells' & -> & Hlc' & Hout & Hin). rewrite bind_ret.
  rewrite store1_Ret, bind_ret by (rewrite Hlr; unfold TERM_SCROLLBACK_ROWS in *; lia). eexists. split; [done|].
  pose proof (fun h n => sb_row_store cells cells' (sb_row_cols sb) (sb_head sb) (sb_len sb) h n q l _ Hlc Hlr Hrc Hq eq_refl Hlc' Hl Hout Hin) as Hrow.
  assert (sb = Scrollback (Some cells) (sb_row_cols sb) (sb_head sb) (sb_len sb)) as Esb by (destruct sb; simpl in *; congruence).
  rewrite <-Esb in Hrow. assert (full = false → sb_len sb < TERM_SCROLLBACK_ROWS) as Hf0 by (unfold full; lia).
  assert (full = true → sb_len sb = TERM_SCROLLBACK_ROWS) as Hf1 by (unfold full; lia). split.
  - unfold back_ok. cbn [sb_cells sb_row_cols sb_head sb_len]. split_and!.
    + eexists. split; [done|]. congruence.
    + by rewrite length_insert.
    + apply Forall_insert; [done|lia].
    + unfold head. destruct full; [apply Z.mod_pos_bound; unfold TERM_SCROLLBACK_ROWS; lia|lia].
    + unfold head. destruct full; [apply Z.mod_pos_bound; unfold TERM_SCROLLBACK_ROWS; lia|lia].
    + unfold len. destruct full; lia.
    + unfold len. destruct full; [lia|]. specialize (Hf0 eq_refl). lia.
  - apply list_eq. intros k. unfold keep. rewrite lookup_drop, length_app, history_length. simpl length.
    destruct (decide (k < Z.to_nat len)%nat) as [Hk|Hk].
    2:{ rewrite lookup_ge_None_2 by (rewrite history_length; simpl; lia). symmetry. apply lookup_ge_None_2.
        rewrite length_app, history_length. simpl. unfold len in Hk. destruct full; lia. }
    rewrite <-(Nat2Z.id k) at 1. rewrite history_lookup by (simpl; lia). cbn [sb_head]. rewrite Hrow by (apply Z.mod_pos_bound; done).
    unfold q, head, len in *. unfold TERM_SCROLLBACK_ROWS in *. destruct full.
    + specialize (Hf1 eq_refl). rewrite Zplus_mod_idemp_l. replace (sb_head sb + 1 + Z.of_nat k) with (sb_head sb + (Z.of_nat k + 1)) by lia.
      destruct (decide (Z.of_nat k + 1 = 512)) as [Ek|Ek].
      * rewrite Ek. rewrite <-Z.add_mod_idemp_r by lia. change (512 mod 512) with 0. rewrite Z.add_0_r, Z.mod_small, decide_True by lia.
        rewrite lookup_app_r by (rewrite history_length; lia). rewrite history_length. by replace (_ - _)%nat with 0%nat by lia.
      * rewrite decide_False; [|intros E; apply (ring_ne 512 (sb_head sb) (Z.of_nat k + 1) 0); [lia..|]; by rewrite E, Z.add_0_r, Z.mod_small].
        rewrite lookup_app_l by (rewrite history_length; lia).
        replace (Z.to_nat (sb_len sb) + 1 - Z.to_nat 512 + k)%nat with (Z.to_nat (Z.of_nat k + 1)) by lia.
        by rewrite history_lookup by lia.
    + specialize (Hf0 eq_refl). destruct (decide (Z.of_nat k = sb_len sb)) as [Ek|Ek].
      * rewrite Ek, decide_True by done. rewrite lookup_app_r by (rewrite history_length; lia). rewrite history_length.
        by replace (_ - _)%nat with 0%nat by lia.
      * rewrite decide_False by (apply ring_ne; lia). rewrite lookup_app_l by (rewrite history_length; lia).
        replace (Z.to_nat (sb_len sb) + 1 - Z.to_nat 512 + k)%nat with (Z.to_nat (Z.of_nat k)) by lia.
        by rewrite history_lookup by lia.
Qed.

Lemma capture_push s r :
  shape s → 0 ≤ r < rows s →
  terminal_surface_capture_scrollback_row s r = (sb ← push_row (back s) (line s r); Ret (set_back sb s)).
Proof.
  intros Hs Hr. destruct (sh_back s Hs) as ((cells & Hcs & Hlc) & Hlr & _ & _ & _). destruct (sh_size s Hs) as (Hc & _ & _).
  pose proof (line_length s r Hs Hr) as Hll. destruct (view_ok Hs) as [Hlv _].
  unfold terminal_surface_capture_scrollback_row, push_row. rewrite shown_view, bind_ret, Hcs by done. cbn [or_fault].
  destruct ((r <? 0) || (rows s <=? r)) eqn:E; [lia|]. rewrite bind_ret. cbv zeta.
  destruct (if sb_len (back s) <? TERM_SCROLLBACK_ROWS then _ else _) as [[q head] len].
  assert ((if TERM_SCROLLBACK_MAX_COLS <? cols s then TERM_SCROLLBACK_MAX_COLS else cols s) = Z.of_nat (length (line s r))) as ->.
  { rewrite Hll. unfold TERM_SCROLLBACK_MAX_COLS. zcases; lia. }
  destruct (Z.ltb_spec (Z.of_nat (length (line s r))) 0); [lia|].
  destruct (Z.ltb_spec 0 (Z.of_nat (length (line s r)))); [|unfold TERM_SCROLLBACK_MAX_COLS in *; lia].
  rewrite (size_ok_i32 (cols s) (rows s)) by (apply (sh_size s Hs) || nia).
  rewrite load_bytes_Ret by (unfold grid in *; nia). rewrite bind_ret, Nat2Z.id.
  assert (take (length (line s r)) (drop (Z.to_nat (r * cols s)) (b_cells (view s))) = line s r) as ->
    by (rewrite Hll; done).
  rewrite (Z.mod_small (Z.of_nat (length (line s r)))) by (unfold TERM_SCROLLBACK_MAX_COLS in *; lia).
  unfold ring_store. cbv zeta. destruct (store_bytes cells _ (line s r)) as [c1| |]; [|done..]. rewrite !bind_ret.
  destruct (if _ <? _ then _ else _) as [c2| |]; [|done..]. rewrite !bind_ret.
  by destruct (store1 (sb_row_cols (back s)) q _).
Qed.

Lemma capture_spec s r :
  shape s → 0 ≤ r < rows s → ∃ sb, terminal_surface_capture_scrollback_row s r = Ret (set_back sb s) ∧ back_ok sb ∧
    history sb = keep (Z.to_nat TERM_SCROLLBACK_ROWS) (history (back s) ++ [line s r]).
Proof.
  intros Hs Hr. rewrite capture_push by done.
  destruct (push_row_spec (back s) (line s r)) as (sb & -> & Hok & Hh); [apply (sh_back s Hs)| |by exists sb].
  rewrite line_length by done. unfold TERM_SCROLLBACK_MAX_COLS. lia.
Qed.

(** ** Several lines *)

Lemma keep_keep {A} n (l m : list A) : keep n (keep n l ++ m) = keep n (l ++ m).
Proof.
  unfold keep. rewrite <-drop_app_le by lia. rewrite drop_drop, length_drop, !length_app. f_equal. lia.
Qed.

Lemma keep_all {A} n (l : list A) : (length l ≤ n)%nat → keep n l = l.
Proof. intros. unfold keep. by replace (length l - n)%nat with 0%nat by lia. Qed.

Lemma capture_lines s k :
  shape s → 0 ≤ k ≤ rows s →
  ∃ sb, for_range 0 (0 + k) terminal_surface_capture_scrollback_row s = Ret (set_back sb s) ∧ back_ok sb ∧
    history sb = keep (Z.to_nat TERM_SCROLLBACK_ROWS) (history (back s) ++ (line s <$> seqZ 0 k)).
Proof.
  intros Hs Hk. destruct (for_range_inv (fun i st => ∃ sb, st = set_back sb s ∧ back_ok sb ∧
      history sb = keep (Z.to_nat TERM_SCROLLBACK_ROWS) (history (back s) ++ (line s <$> seqZ 0 i)))
      0 (0 + k) terminal_surface_capture_scrollback_row s) as (s' & Hrun & sb & -> & Hok & Hh).
  - lia.
  - exists (back s). split_and!; [by destruct s|apply (sh_back s Hs)|]. simpl. rewrite app_nil_r, keep_all; [done|].
    rewrite history_length. destruct (sh_back s Hs) as (_ & _ & _ & _ & ?). lia.
  - intros i st Hi (sb & -> & Hok & Hh). pose proof (shape_back sb s Hs Hok) as Hs1.
    destruct (capture_spec (set_back sb s) i Hs1) as (sb' & -> & Hok' & Hh'); [simpl; lia|]. eexists. split; [done|].
    exists sb'. split_and!; [done|done|]. rewrite Hh'. cbn [back set_back]. rewrite Hh, keep_keep, <-app_assoc. do 2 f_equal.
    rewrite (seqZ_app 0 i 1) by lia. by rewrite fmap_app.
  - rewrite Z.add_0_l in *. eauto.
Qed.

(** ** The shown buffer in the loops of [terminal_surface_scroll_up] *)

Section moving.
Context {s : terminal_surface} (Hs : shape s).

Lemma set_set b b' : set_shown_buffer b (set_shown_buffer b' s) = set_shown_buffer b s.
Proof. unfold set_shown_buffer. by destruct (shown s) eqn:E; simpl; rewrite ?E. Qed.
Lemma set_cols b : cols (set_shown_buffer b s) = cols s.
Proof. unfold set_shown_buffer. by destruct (shown s). Qed.
Lemma set_rows b : rows (set_shown_buffer b s) = rows s.
Proof. unfold set_shown_buffer. by destruct (shown s). Qed.
Lemma set_grid b : grid (set_shown_buffer b s) = grid s.
Proof. unfold grid. by rewrite set_cols, set_rows. Qed.

Lemma poke_run b i x d :
  buf_ok (grid s) b → 0 ≤ i < Z.of_nat (grid s) →
  (st ← write_cell i x (set_shown_buffer b s); write_dirty i d st)
    = Ret (set_shown_buffer (Buffer (<[Z.to_nat i := x]> (b_cells b)) (<[Z.to_nat i := d]> (b_dirty b))) s).
Proof using Hs.
  intros Hb Hi. pose proof (shape_set Hs b Hb) as H1. rewrite (write_cell_Ret H1) by by rewrite set_grid.
  rewrite bind_ret, view_set, set_set by done. set (b1 := Buffer _ _).
  assert (buf_ok (grid s) b1) as Hb1 by (destruct Hb; split; simpl; rewrite ?length_insert; done).
  rewrite (write_dirty_Ret (shape_set Hs b1 Hb1)) by by rewrite set_grid. by rewrite view_set, set_set by done.
Qed.

(** The lines of the region move up by [lines]. *)
Lemma move_loop t e k :
  0 ≤ t ≤ e → e + k ≤ rows s → 0 < k →
  ∃ b, for_range t e (fun st row =>
      for_range 0 (cols st) (fun st col =>
        x ← read_cell st (terminal_surface_index st col (row + k));
        st1 ← write_cell (terminal_surface_index st col row) x st;
        d ← read_dirty st1 (terminal_surface_index st col (row + k));
        write_dirty (terminal_surface_index st col row) d st1) st) s = Ret (set_shown_buffer b s) ∧ buf_ok (grid s) b ∧
    ∀ j, b_cells b !! j = if decide (t * cols s ≤ Z.of_nat j < e * cols s) then b_cells (view s) !! (j + Z.to_nat (k * cols s))%nat
                          else b_cells (view s) !! j.
Proof using Hs.
  intros Ht He Hk. destruct (sh_size s Hs) as (Hc & Hr & _).
  destruct (for_rows_inv (fun i st => ∃ b, st = set_shown_buffer b s ∧ buf_ok (grid s) b ∧
      ∀ j, b_cells b !! j = if decide (t * cols s ≤ Z.of_nat j < i) then b_cells (view s) !! (j + Z.to_nat (k * cols s))%nat
                            else b_cells (view s) !! j) (cols s) t e cols (fun st row col =>
        x ← read_cell st (terminal_surface_index st col (row + k));
        st1 ← write_cell (terminal_surface_index st col row) x st;
        d ← read_dirty st1 (terminal_surface_index st col (row + k));
        write_dirty (terminal_surface_index st col row) d st1) s) as (s' & Hrun & b & -> & Hb & Hp).
  - lia.
  - lia.
  - exists (view s). split_and!; [by rewrite set_view|by apply (view_ok Hs)..|]. intros j. case_decide; [lia|done].
  - intros i st (b & -> & _). apply set_cols.
  - intros r c st Hri Hci (b & -> & Hb & Hp). pose proof (shape_set Hs b Hb) as H1.
    rewrite !(index_ok H1) by (rewrite ?set_cols, ?set_rows; lia). rewrite set_cols.
    pose proof (index_range (cols s) (rows s) c r ltac:(lia) ltac:(lia)).
    pose proof (index_range (cols s) (rows s) c (r + k) ltac:(lia) ltac:(lia)).
    assert (∀ i, 0 ≤ i < cols s * rows s → 0 ≤ i < Z.of_nat (grid s)) as Hg by (unfold grid; lia).
    destruct (read_cell_Ret H1 ((r + k) * cols s + c)) as (x & -> & Hx); [rewrite set_grid; by apply Hg|]. rewrite bind_ret.
    rewrite view_set in Hx by done. rewrite (write_cell_Ret H1), bind_ret by (rewrite set_grid; by apply Hg).
    rewrite view_set, set_set by done. set (b1 := Buffer _ _).
    assert (buf_ok (grid s) b1) as Hb1 by (destruct Hb; split; simpl; rewrite ?length_insert; done).
    pose proof (shape_set Hs b1 Hb1) as H2.
    destruct (read_dirty_Ret H2 ((r + k) * cols s + c)) as (d & -> & _); [rewrite set_grid; by apply Hg|]. rewrite bind_ret.
    rewrite (write_dirty_Ret H2) by (rewrite set_grid; by apply Hg). rewrite view_set, set_set by done. eexists. split; [done|].
    eexists. split; [done|]. split; [destruct Hb1; split; simpl in *; rewrite ?length_insert in *; done|].
    intros j. cbn [b_cells b1]. destruct (decide (j = Z.to_nat (r * cols s + c))) as [->|Hne].
    + rewrite list_lookup_insert_eq by (destruct Hb as [-> _]; specialize (Hg (r * cols s + c)); lia).
      rewrite decide_True by nia. rewrite <-Hx, Hp, decide_False by nia. f_equal. nia.
    + rewrite list_lookup_insert_ne by done. rewrite Hp. repeat case_decide; try done; lia.
  - exists b. split; [exact Hrun|]. split; [done|]. exact Hp.
Qed.

(** The last lines of the region become blank. *)
Lemma blank_loop blank t e :
  0 ≤ t ≤ e → e ≤ rows s →
  ∃ b, for_range t e (fun st row =>
      for_range 0 (cols st) (fun st col =>
        st1 ← write_cell (terminal_surface_index st col row) blank st;
        write_dirty (terminal_surface_index st col row) 1 st1) st) s = Ret (set_shown_buffer b s) ∧ buf_ok (grid s) b ∧
    ∀ j, b_cells b !! j = if decide (t * cols s ≤ Z.of_nat j < e * cols s) then Some blank else b_cells (view s) !! j.
Proof using Hs.
  intros Ht He. destruct (sh_size s Hs) as (Hc & Hr & _).
  destruct (for_rows_inv (fun i st => ∃ b, st = set_shown_buffer b s ∧ buf_ok (grid s) b ∧
      ∀ j, b_cells b !! j = if decide (t * cols s ≤ Z.of_nat j < i) then Some blank else b_cells (view s) !! j)
      (cols s) t e cols (fun st row col =>
        st1 ← write_cell (terminal_surface_index st col row) blank st;
        write_dirty (terminal_surface_index st col row) 1 st1) s) as (s' & Hrun & b & -> & Hb & Hp).
  - lia.
  - lia.
  - exists (view s). split_and!; [by rewrite set_view|by apply (view_ok Hs)..|]. intros j. case_decide; [lia|done].
  - intros i st (b & -> & _). apply set_cols.
  - intros r c st Hri Hci (b & -> & Hb & Hp). pose proof (shape_set Hs b Hb) as H1.
    rewrite !(index_ok H1) by (rewrite ?set_cols, ?set_rows; lia). rewrite set_cols.
    pose proof (index_range (cols s) (rows s) c r ltac:(lia) ltac:(lia)).
    rewrite poke_run by (done || unfold grid; lia). eexists. split; [done|]. eexists. split; [done|].
    split; [destruct Hb; split; simpl; rewrite ?length_insert; done|].
    intros j. cbn [b_cells]. destruct (decide (j = Z.to_nat (r * cols s + c))) as [->|Hne].
    + rewrite list_lookup_insert_eq by (destruct Hb as [-> _]; unfold grid; lia). by rewrite decide_True by nia.
    + rewrite list_lookup_insert_ne by done. rewrite Hp. repeat case_decide; try done; lia.
  - exists b. split; [exact Hrun|]. split; [done|]. exact Hp.
Qed.

Lemma count_dirty_app l1 l2 : count_dirty (l1 ++ l2) = count_dirty l1 + count_dirty l2.
Proof. unfold count_dirty. rewrite List.filter_app, length_app. lia. Qed.

(** The damaged cells are counted again. *)
Lemma count_loop :
  for_range 0 (rows s) (fun n row =>
    for_range 0 (cols s) (fun n col =>
      d ← read_dirty s (terminal_surface_index s col row); Ret (if d =? 0 then n else n + 1)) n) 0
  = Ret (count_dirty (b_dirty (view s))).
Proof using Hs.
  destruct (sh_size s Hs) as (Hc & Hr & _). destruct (view_ok Hs) as [_ Hld].
  destruct (for_rows_inv (fun i n => n = count_dirty (take (Z.to_nat i) (b_dirty (view s)))) (cols s) 0 (rows s) (fun _ => cols s)
    (fun n row col => d ← read_dirty s (terminal_surface_index s col row); Ret (if d =? 0 then n else n + 1)) 0) as (n & Hrun & ->).
  - lia.
  - lia.
  - done.
  - done.
  - intros r c n Hri Hci ->. rewrite (index_ok Hs) by lia. pose proof (index_range (cols s) (rows s) c r Hci Hri).
    destruct (read_dirty_Ret Hs (r * cols s + c)) as (d & -> & Hd); [unfold grid; lia|]. rewrite bind_ret. eexists. split; [done|].
    replace (Z.to_nat (r * cols s + c + 1)) with (S (Z.to_nat (r * cols s + c))) by lia.
    rewrite (take_S_r _ _ d) by done. rewrite count_dirty_app, count_dirty_cons. change (count_dirty []) with 0.
    destruct (d =? 0); lia.
  - cbv beta in Hrun. rewrite Hrun. f_equal. rewrite take_ge; [done|]. rewrite Hld. unfold grid. lia.
Qed.
End moving.

(** ** [terminal_surface_scroll_up] *)

Definition region_ok (s : terminal_surface) : Prop := 0 ≤ scroll_top s ≤ scroll_bottom s ∧ scroll_bottom s < rows s.

(** The cell at a position after scrolling by [lines]. *)
Definition scrolled (s : terminal_surface) (lines : Z) (blank : term_cell) (c r : Z) : option term_cell :=
  if decide (scroll_top s ≤ r ≤ scroll_bottom s) then
    if decide (r + lines ≤ scroll_bottom s) then at_pos s (view s) c (r + lines) else Some blank
  else at_pos s (view s) c r.

(** The whole primary screen scrolls. *)
Definition whole_screen (s : terminal_surface) : Prop :=
  alternate_active s = false ∧ scroll_top s = 0 ∧ scroll_bottom s = rows s - 1.

#[export] Instance whole_screen_dec s : Decision (whole_screen s).
Proof. unfold whole_screen. apply _. Defined.

Lemma capture_stage s t bt lines :
  shape s → 0 < lines → 0 ≤ t →
  let capture := negb (alternate_active s) && (t =? 0) && (bt =? rows s - 1) in
  ∃ sb, (if capture then
           for_range t (t + (if bt - t + 1 <? lines then bt - t + 1 else lines)) terminal_surface_capture_scrollback_row s
         else Ret s) = Ret (set_back sb s) ∧ back_ok sb ∧
    history sb = if capture then keep (Z.to_nat TERM_SCROLLBACK_ROWS) (history (back s) ++ (line s <$> seqZ 0 (Z.min lines (rows s))))
                 else history (back s).
Proof.
  intros Hs Hl Ht. cbv zeta. destruct (negb (alternate_active s) && (t =? 0) && (bt =? rows s - 1)) eqn:E.
  - destruct (sh_size s Hs) as (_ & ? & _). assert (t = 0) as -> by lia. assert (bt = rows s - 1) as -> by lia.
    destruct (capture_lines s (Z.min lines (rows s)) Hs) as (sb & Hrun & ? & ?); [lia|]. exists sb. split; [|done].
    rewrite <-Hrun. f_equal. f_equal. zcases; lia.
  - exists (back s). split; [by destruct s|]. split; [apply (sh_back s Hs)|done].
Qed.

(** The loops on the cells; [t] and [bt] bound the region. *)
Lemma shift_stage s t bt lines fill :
  safe s → 0 ≤ t → bt < rows s → 0 < lines < bt - t + 1 →
  ∃ b, (st ← for_range t (bt - lines + 1) (fun st row =>
          for_range 0 (cols st) (fun st col =>
            x ← read_cell st (terminal_surface_index st col (row + lines));
            st1 ← write_cell (terminal_surface_index st col row) x st;
            d ← read_dirty st1 (terminal_surface_index st col (row + lines));
            write_dirty (terminal_surface_index st col row) d st1) st) s;
        st ← for_range (bt - lines + 1) (bt + 1) (fun st row =>
          for_range 0 (cols st) (fun st col =>
            st1 ← write_cell (terminal_surface_index st col row) (terminal_surface_blank_cell fill) st;
            write_dirty (terminal_surface_index st col row) 1 st1) st) st;
        count ← for_range 0 (rows st) (fun n row =>
          for_range 0 (cols st) (fun n col =>
            d ← read_dirty st (terminal_surface_index st col row);
            Ret (if d =? 0 then n else n + 1)) n) 0;
        Ret (set_counts count (i32 (scroll_count st + lines)) st))
      = Ret (set_counts (count_dirty (b_dirty b)) (i32 (scroll_count s + lines)) (set_shown_buffer b s)) ∧ buf_ok (grid s) b ∧
    ∀ c r, on_screen s c r → at_pos s b c r =
      if decide (t ≤ r ≤ bt) then
        if decide (r + lines ≤ bt) then at_pos s (view s) c (r + lines) else Some (terminal_surface_blank_cell fill)
      else at_pos s (view s) c r.
Proof.
  intros [Hs _] Ht Hbt Hl. destruct (move_loop Hs t (bt - lines + 1) lines) as (b1 & -> & Hb1 & Hp1); [lia..|]. rewrite bind_ret.
  pose proof (shape_set Hs b1 Hb1) as Hs1.
  destruct (blank_loop Hs1 (terminal_surface_blank_cell fill) (bt - lines + 1) (bt + 1)) as (b & -> & Hb & Hp);
    [lia|rewrite set_rows; lia|]. rewrite bind_ret, set_set. rewrite set_grid in Hb. rewrite set_cols, view_set in Hp by done.
  pose proof (shape_set Hs b Hb) as Hs2. rewrite (count_loop Hs2), bind_ret, set_shown_scroll, view_set by done.
  exists b. split_and!; [done|apply Hb..|]. intros c r Ho. pose proof (on_screen_index s c r Hs Ho) as Hi. destruct Ho as [Hc Hr].
  unfold at_pos. rewrite Hp, Hp1. repeat case_decide; try done; try (exfalso; nia).
  f_equal. nia.
Qed.

Lemma scroll_up_spec s lines fill :
  safe s → 0 < lines →
  ∃ s', terminal_surface_scroll_up lines fill s = Ret s' ∧ safe s' ∧ env_eq s s' ∧
    cur s' = Cursor (cursor_col s) (cursor_row s) false ∧
    (region_ok s →
      (∀ c r, on_screen s c r → at_pos s (view s') c r = scrolled s lines (terminal_surface_blank_cell fill) c r) ∧
      history (back s') = if decide (whole_screen s)
        then keep (Z.to_nat TERM_SCROLLBACK_ROWS) (history (back s) ++ (line s <$> seqZ 0 (Z.min lines (rows s))))
        else history (back s)).
Proof.
  intros Hsafe Hl. pose proof (safe_shape s Hsafe) as Hs. destruct (sh_size s Hs) as (Hc & Hr & _).
  unfold terminal_surface_scroll_up. rewrite shown_view, bind_ret by done. destruct (Z.leb_spec lines 0); [lia|].
  set (s0 := set_cur _ s). pose proof (safe_cur (Cursor (cursor_col s) (cursor_row s) false) s Hsafe) as Hsafe0. fold s0 in Hsafe0.
  cbv zeta. change (scroll_top s0) with (scroll_top s). change (scroll_bottom s0) with (scroll_bottom s). change (rows s0) with (rows s).
  set (t := if scroll_top s <? 0 then 0 else scroll_top s). set (bt := if rows s <=? scroll_bottom s then rows s - 1 else scroll_bottom s).
  assert (0 ≤ t ∧ bt < rows s) as [Ht Hbt] by (unfold t, bt; zcases; lia).
  destruct (capture_stage s0 t bt lines (safe_shape _ Hsafe0) Hl Ht) as (sb & Hcap & Hok & Hh).
  change (rows s0) with (rows s) in Hcap. rewrite Hcap, bind_ret. change (rows s0) with (rows s) in Hh. change (back s0) with (back s) in Hh.
  pose proof (safe_back sb s0 Hsafe0 Hok) as Hsafe1. set (s1 := set_back sb s0) in *.
  assert (env_eq s s1) as Henv by by constructor.
  assert (region_ok s → t = scroll_top s ∧ bt = scroll_bottom s) as Hreg by (unfold region_ok, t, bt; zcases; lia).
  assert (∀ s', back s' = sb → region_ok s → history (back s') = if decide (whole_screen s)
        then keep (Z.to_nat TERM_SCROLLBACK_ROWS) (history (back s) ++ (line s <$> seqZ 0 (Z.min lines (rows s))))
        else history (back s)) as Hhist.
  { intros s' -> [-> ->]%Hreg. rewrite Hh. change (alternate_active s0) with (alternate_active s).
    case_decide as Hw; unfold whole_screen in Hw; destruct (alternate_active s), (Z.eqb_spec (scroll_top s) 0),
      (Z.eqb_spec (scroll_bottom s) (rows s - 1)); simpl; naive_solver. }
  destruct (Z.leb_spec (bt - t + 1) lines).
  - pose proof (safe_scroll_count (i32 (scroll_count s1 + lines)) s1 Hsafe1) as Hsafe2. set (s2 := set_counts _ _ s1) in *.
    destruct (clear_region_spec s2 0 t (cols s2 - 1) bt fill Hsafe2) as (b & -> & Hb & Hp).
    eexists. split; [done|]. pose proof (safe_shape _ Hsafe2) as Hs2. split; [by apply draw_safe|].
    split; [etrans; [exact Henv|]; etrans; [apply env_counts|by apply env_draw]|]. split; [by rewrite draw_cur|].
    intros Hrg. split; [|apply Hhist; [|done]; by destruct (draw_fields b s2) as (_ & _ & _ & _ & _ & _ & _ & _ & _ & _ & _ & -> & _)].
    rewrite draw_view by done. intros c r [Ho1 Ho2]. unfold at_pos in *. change (cols s2) with (cols s) in *.
    change (rows s2) with (rows s) in *. change (view s2) with (view s) in *.
    rewrite Hp by (split; assumption). unfold scrolled, at_pos. destruct (Hreg Hrg) as [Et Eb]. rewrite Et, Eb in *. unfold region_ok in Hrg.
    rewrite !clamp_id by lia. repeat case_decide; destruct (_ && _ && _ && _) eqn:E; try done; lia.
  - destruct (shift_stage s1 t bt lines fill Hsafe1 Ht Hbt) as (b & Hrun & Hb & Hp); [lia|].
    rewrite Hrun. eexists. split; [done|]. pose proof (safe_shape _ Hsafe1) as Hs1.
    assert (∀ n, view (set_counts (count_dirty (b_dirty b)) n (set_shown_buffer b s1)) = b) as Hv
      by (intros n; rewrite <-(view_set Hs1 b) at 3; done).
    split; [split; [by apply shape_counts, shape_set|by rewrite Hv]|].
    split; [etrans; [exact Henv|]; etrans; [by apply (env_draw b)|]; by constructor|].
    split; [unfold set_shown_buffer; by destruct (shown s1)|].
    intros Hrg. split; [|apply Hhist; [unfold set_shown_buffer; by destruct (shown s1)|done]].
    intros c r Ho. rewrite Hv. destruct (Hreg Hrg) as [Et Eb]. rewrite Et, Eb in *. exact (Hp c r Ho).
Qed.
