(* ===== verification/SurfaceOps.v ===== *)
(** * The screen of a terminal: the operations that use the cursor

    Specifications of writing, tabs, the alternate screen, creation and resizing
    on safe surfaces. *)

From S2P Require Import Prelude Ring Surface SurfaceInv SurfaceScroll.

(** ** New lines *)

(** The row after a line feed. *)
Definition next_row (s : terminal_surface) : Z :=
  if scroll_bottom s <=? cursor_row s then scroll_bottom s else i32 (cursor_row s + 1).

Lemma next_line_spec s fill :
  safe s → ∃ s', next_line fill s = Ret s' ∧ safe s' ∧ env_eq s s' ∧ cur s' = Cursor 0 (next_row s) false ∧
    (region_ok s → (∀ c r, on_screen s c r → at_pos s (view s') c r =
        if decide (scroll_bottom s ≤ cursor_row s) then scrolled s 1 (terminal_surface_blank_cell fill) c r
        else at_pos s (view s) c r) ∧
      history (back s') = if decide (whole_screen s ∧ scroll_bottom s ≤ cursor_row s)
        then keep (Z.to_nat TERM_SCROLLBACK_ROWS) (history (back s) ++ [line s 0]) else history (back s)).
Proof.
  intros Hsafe. unfold next_line, next_row. cbv zeta. set (s0 := set_cur _ s).
  assert (safe s0) as Hsafe0 by by apply safe_cur. change (scroll_bottom s0) with (scroll_bottom s).
  change (cursor_row s0) with (cursor_row s). destruct (sh_size s (safe_shape s Hsafe)) as (_ & Hr & _).
  destruct (Z.leb_spec (scroll_bottom s) (cursor_row s)).
  - destruct (scroll_up_spec s0 1 fill Hsafe0) as (s1 & -> & Hs1 & He1 & Hc1 & Hp1); [lia|]. rewrite bind_ret.
    eexists. split; [done|]. split; [by apply safe_cur|].
    split; [etrans; [|apply env_cur]; etrans; [apply env_cur|exact He1]|].
    split; [unfold cursor_col, wrap_pending; rewrite Hc1, (eq_bottom _ _ He1); done|].
    intros Hreg. destruct (Hp1 Hreg) as [Hcells Hhist]. split.
    + intros c r Ho. rewrite decide_True by done. by apply Hcells.
    + change (back (set_cur (Cursor (cursor_col s1) (scroll_bottom s1) (wrap_pending s1)) s1)) with (back s1). rewrite Hhist.
      change (rows s0) with (rows s). rewrite Z.min_l by lia. change (seqZ 0 1) with [0].
      destruct (decide (whole_screen s0)) as [Hw|Hw], (decide (whole_screen s ∧ scroll_bottom s ≤ cursor_row s)) as [Hw'|Hw'];
        [done|destruct Hw'; by split|destruct Hw; apply Hw'|done].
  - eexists. split; [done|]. split; [by apply safe_cur|]. split; [by constructor|]. split; [done|]. intros Hreg. split.
    + intros c r Ho. by rewrite decide_False by lia.
    + by rewrite decide_False by (intros [_ ?]; lia).
Qed.

Lemma wrap_spec s fill :
  safe s → ∃ s', terminal_surface_wrap_for_output fill s = Ret s' ∧ safe s' ∧ env_eq s s' ∧
    cur s' = (if wrap_pending s then Cursor 0 (next_row s) false else cur s) ∧ (wrap_pending s = false → s' = s).
Proof.
  intros Hsafe. unfold terminal_surface_wrap_for_output. destruct (wrap_pending s); cbn [negb].
  - destruct (next_line_spec s fill Hsafe) as (s' & ? & ? & ? & ? & _). by exists s'.
  - by exists s.
Qed.

(** ** Writing *)

(** The cursor behind a character of [w] columns. *)
Definition advance (s : terminal_surface) (w : Z) : cursor :=
  if cols s - w <=? cursor_col s then Cursor (cols s - 1) (cursor_row s) true
  else Cursor (cursor_col s + w) (cursor_row s) false.

(** The width a character is written with. *)
Definition cell_width (s : terminal_surface) (w : Z) : Z :=
  let w := if 2 <? w then 1 else w in if (w =? 2) && (cols s <? 2) then 1 else w.

Definition glyph (codepoint w : Z) (style : option term_cell) : term_cell :=
  let blank := terminal_surface_blank_cell style in
  Cell (if codepoint =? 0 then 0x20 else codepoint) (fg blank) (bg blank) (attr blank) w.

(** A narrow character when no wrap is pending. *)
Lemma write_narrow s codepoint style :
  safe s → wrap_pending s = false →
  ∃ b, terminal_surface_write_codepoint codepoint 1 style s = Ret (set_cur (advance s 1) (draw b s)) ∧ buf_ok (grid s) b ∧
    (on_screen s (cursor_col s) (cursor_row s) →
     b_cells b = put_cells s (cursor_col s) (cursor_row s) (stored_cell (Some (glyph codepoint 1 style)))).
Proof.
  intros Hsafe Hw. destruct (sh_size s (safe_shape s Hsafe)) as (Hc & Hr & _). unfold terminal_surface_write_codepoint.
  destruct ((cols s <=? 0) || (rows s <=? 0)) eqn:E; [lia|]. change (1 <=? 0) with false. cbv iota zeta.
  change (2 <? 1) with false. cbv iota. change (1 =? 2) with false. cbn [andb]. cbv iota.
  destruct (wrap_spec s style Hsafe) as (s1 & -> & _ & _ & _ & Heq). rewrite (Heq Hw), bind_ret.
  change (1 =? 2) with false. cbn [andb]. cbv iota. rewrite bind_ret.
  destruct (put_cell_spec s (cursor_col s) (cursor_row s) (Some (glyph codepoint 1 style)) Hsafe) as (b & Hrun & Hb & Hp & _).
  unfold glyph in Hrun at 1. cbv zeta in Hrun. rewrite Hrun, !bind_ret. exists b.
  unfold advance, cursor_col, cursor_row. rewrite draw_cols, draw_cur. split; [by destruct (cols s - 1 <=? col (cur s))|]. by split.
Qed.

(** The screen after the wraps that come before a character. *)
Lemma before_write s w style :
  safe s → ∃ s', (s1 ← terminal_surface_wrap_for_output style s;
                  (if (w =? 2) && (cols s1 - 1 <=? cursor_col s1) then terminal_surface_newline style s1 else Ret s1)) = Ret s' ∧
    safe s' ∧ env_eq s s' ∧
    (region_ok s → on_screen s (cursor_col s) (cursor_row s) → on_screen s' (cursor_col s') (cursor_row s')).
Proof.
  intros Hsafe. destruct (wrap_spec s style Hsafe) as (s1 & -> & Hs1 & He1 & Hc1 & _). rewrite bind_ret.
  destruct (sh_size s (safe_shape s Hsafe)) as (Hc & Hr & Hm).
  assert (region_ok s → on_screen s (cursor_col s) (cursor_row s) → on_screen s1 (cursor_col s1) (cursor_row s1)) as Ho1.
  { intros Hreg Ho. unfold on_screen, cursor_col, cursor_row in *. rewrite (eq_cols _ _ He1), (eq_rows _ _ He1), Hc1.
    destruct (wrap_pending s); [|done]. cbn [col row]. unfold next_row, region_ok in *. fold (cursor_row s) in *.
    destruct (Z.leb_spec (scroll_bottom s) (cursor_row s)); [lia|]. rewrite i32_small; [lia|].
    unfold size_ok, SIZEOF_CELL, U32 in Hm. nia. }
  destruct ((w =? 2) && (cols s1 - 1 <=? cursor_col s1)); [|by exists s1].
  destruct (next_line_spec s1 style Hs1) as (s2 & Hrun & Hs2 & He2 & Hc2 & _). exists s2. split; [exact Hrun|].
  split; [done|]. split; [by etrans|]. intros Hreg Ho. specialize (Ho1 Hreg Ho).
  unfold on_screen, cursor_col, cursor_row in *. rewrite (eq_cols _ _ He2), (eq_rows _ _ He2), Hc2. cbn [col row].
  rewrite (eq_cols _ _ He1), (eq_rows _ _ He1) in *. unfold next_row, region_ok in *. rewrite (eq_bottom _ _ He1).
  fold (cursor_row s1) in *. destruct (Z.leb_spec (scroll_bottom s) (cursor_row s1)); [lia|]. rewrite i32_small; [lia|].
  unfold size_ok, SIZEOF_CELL, U32 in Hm. nia.
Qed.

Lemma write_codepoint_spec s codepoint w style :
  safe s → ∃ s', terminal_surface_write_codepoint codepoint w style s = Ret s' ∧ safe s' ∧ env_eq s s' ∧
    (region_ok s → on_screen s (cursor_col s) (cursor_row s) → on_screen s' (cursor_col s') (cursor_row s')).
Proof.
  intros Hsafe. destruct (sh_size s (safe_shape s Hsafe)) as (Hc & Hr & _). unfold terminal_surface_write_codepoint.
  destruct ((cols s <=? 0) || (rows s <=? 0)) eqn:E; [lia|]. destruct (Z.leb_spec w 0); [by exists s|]. cbv zeta.
  fold (cell_width s w). assert (0 < cell_width s w ≤ 2 ∧ (cell_width s w = 2 → 2 ≤ cols s)) as [Hw Hw2]
    by (unfold cell_width; destruct (Z.ltb_spec 2 w); destruct (_ && _) eqn:E2; lia).
  set (w' := cell_width s w) in *. destruct (before_write s w' style Hsafe) as (s1 & Hrun & Hs1 & He1 & Ho1).
  destruct (terminal_surface_wrap_for_output style s) as [s0| |]; [|done..]. rewrite bind_ret in Hrun |- *.
  rewrite Hrun, bind_ret.
  match goal with |- context [terminal_surface_put_cell _ _ (Some ?g) s1] => set (g1 := g) end.
  destruct (put_cell_spec s1 (cursor_col s1) (cursor_row s1) (Some g1) Hs1) as (b & -> & Hb & _ & _). rewrite bind_ret.
  pose proof (draw_safe b s1 (safe_shape _ Hs1) Hb) as Hs2.
  assert (∃ b2, (if w' =? 2 then terminal_surface_put_cell (cursor_col (draw b s1) + 1) (cursor_row (draw b s1))
      (Some (Cell 0 (fg (terminal_surface_blank_cell style)) (bg (terminal_surface_blank_cell style))
         (Z.lor (attr (terminal_surface_blank_cell style)) TERM_ATTR_CONTINUATION) 0)) (draw b s1) else Ret (draw b s1)) = Ret (draw b2 s1) ∧
      buf_ok (grid s1) b2) as (b2 & -> & Hb2).
  { destruct (w' =? 2); [|by exists b].
    destruct (put_cell_spec (draw b s1) (cursor_col (draw b s1) + 1) (cursor_row (draw b s1)) (Some (Cell 0 (fg (terminal_surface_blank_cell style)) (bg (terminal_surface_blank_cell style))
         (Z.lor (attr (terminal_surface_blank_cell style)) TERM_ATTR_CONTINUATION) 0)) Hs2) as (b2 & -> & Hb2 & _ & _).
    exists b2. rewrite draw_draw. rewrite draw_grid in Hb2. done. }
  rewrite bind_ret. pose proof (draw_safe b2 s1 (safe_shape _ Hs1) Hb2) as Hs3.
  assert (∀ c, env_eq s (set_cur c (draw b2 s1))) as Hee.
  { intros c. etrans; [exact He1|]. etrans; [by apply (env_draw b2), safe_shape|apply env_cur]. }
  unfold cursor_col, cursor_row. rewrite draw_cols, draw_cur. fold (cursor_col s1) (cursor_row s1).
  destruct (Z.leb_spec (cols s1 - w') (cursor_col s1)); (eexists; split; [done|]; split; [by apply safe_cur|]; split; [done|];
    intros Hreg Ho; specialize (Ho1 Hreg Ho); unfold on_screen, cursor_col, cursor_row in *; cbn [set_cur cols rows cur col row];
    rewrite draw_cols, draw_rows; pose proof (eq_cols _ _ He1); lia).
Qed.

(** ** Tabs *)

Lemma write_after_wrap s codepoint style :
  safe s → terminal_surface_write_codepoint codepoint 1 style s
    = (s1 ← terminal_surface_wrap_for_output style s; terminal_surface_write_codepoint codepoint 1 style s1).
Proof.
  intros Hsafe. destruct (sh_size s (safe_shape s Hsafe)) as (Hc & Hr & _).
  destruct (wrap_spec s style Hsafe) as (s1 & E1 & Hs1 & He1 & Hc1 & _).
  assert (wrap_pending s1 = false) as Hp1 by (unfold wrap_pending in *; rewrite Hc1; by destruct (pending (cur s)) eqn:E).
  destruct (wrap_spec s1 style Hs1) as (s2 & E2 & _ & _ & _ & Heq). rewrite (Heq Hp1) in E2. rewrite E1, bind_ret.
  unfold terminal_surface_write_codepoint. rewrite (eq_cols _ _ He1), (eq_rows _ _ He1).
  destruct ((cols s <=? 0) || (rows s <=? 0)) eqn:E; [lia|]. by rewrite E1, E2, !bind_ret.
Qed.

(** One round of the loop of [terminal_surface_tab]. *)
Lemma write_one s codepoint style :
  safe s → 0 ≤ cursor_col s < cols s →
  ∃ s', terminal_surface_write_codepoint codepoint 1 style s = Ret s' ∧ safe s' ∧ env_eq s s' ∧
    cursor_col s' = Z.min ((if wrap_pending s then 0 else cursor_col s) + 1) (cols s - 1) ∧
    (wrap_pending s = false → cursor_row s' = cursor_row s ∧ wrap_pending s' = (cols s - 1 <=? cursor_col s)).
Proof.
  intros Hsafe Hcol. rewrite write_after_wrap by done. destruct (wrap_spec s style Hsafe) as (s1 & -> & Hs1 & He1 & Hc1 & Heq).
  rewrite bind_ret.
  assert (wrap_pending s1 = false) as Hp1 by (unfold wrap_pending in *; rewrite Hc1; by destruct (pending (cur s)) eqn:E).
  destruct (write_narrow s1 codepoint style Hs1 Hp1) as (b & -> & Hb & _). eexists. split; [done|].
  pose proof (draw_safe b s1 (safe_shape _ Hs1) Hb). split; [by apply safe_cur|].
  split; [etrans; [exact He1|]; etrans; [by apply (env_draw b), safe_shape|apply env_cur]|].
  assert (cursor_col s1 = if wrap_pending s then 0 else cursor_col s) as Hcc by (unfold cursor_col; rewrite Hc1; by destruct (wrap_pending s)).
  split.
  - rewrite <-Hcc. unfold cursor_col, advance. cbn [cur set_cur]. rewrite <-(eq_cols _ _ He1) in *. fold (cursor_col s1) in *.
    destruct (Z.leb_spec (cols s1 - 1) (cursor_col s1)); cbn [col]; [|lia]. rewrite Hcc in *. destruct (wrap_pending s); lia.
  - intros Hw. rewrite (Heq Hw). unfold cursor_row, wrap_pending, advance. cbn [cur set_cur]. by destruct (cols s - 1 <=? cursor_col s).
Qed.

(** A stop inside the line is reached. *)
Lemma tab_loop_reaches fuel next_stop style s :
  safe s → wrap_pending s = false → 0 ≤ cursor_col s ≤ next_stop → next_stop < cols s →
  next_stop - cursor_col s < Z.of_nat fuel →
  ∃ s', tab_loop fuel next_stop style s = Ret s' ∧ safe s' ∧ env_eq s s' ∧ cur s' = Cursor next_stop (cursor_row s) false.
Proof.
  revert s. induction fuel as [|fuel IH]; intros s Hsafe Hw Hcol Hstop Hfuel; [lia|]. cbn [tab_loop].
  destruct (Z.ltb_spec (cursor_col s) next_stop) as [Hlt|Hge].
  - destruct (write_one s 0x20 style Hsafe) as (s1 & -> & Hs1 & He1 & Hc1 & Hr1); [lia|]. rewrite bind_ret.
    rewrite Hw in Hc1. destruct (Hr1 Hw) as [Hrow Hpend]. pose proof (eq_cols _ _ He1) as Ecols.
    destruct (Z.eqb_spec (cursor_col s1) 0); [lia|].
    destruct (IH s1) as (s' & -> & Hs' & He' & Hc'); [done|rewrite Hpend; lia|lia|lia|lia|].
    exists s'. split_and!; [done|apply Hs'..|by etrans|]. by rewrite Hc', Hrow.
  - exists s. split_and!; [done|apply Hsafe..|done|]. unfold cursor_col, cursor_row, wrap_pending in *. destruct (cur s). simpl in *. f_equal; [lia|done].
Qed.

(** A stop behind the line is never reached: every round leaves the cursor in a
    column between the first and the stop. *)
Lemma tab_loop_diverges fuel next_stop style s :
  safe s → 0 ≤ cursor_col s < cols s → 2 ≤ cols s → cols s ≤ next_stop → tab_loop fuel next_stop style s = Hang.
Proof.
  revert s. induction fuel as [|fuel IH]; intros s Hsafe Hcol Hc Hstop; [done|]. cbn [tab_loop].
  destruct (Z.ltb_spec (cursor_col s) next_stop); [|lia].
  destruct (write_one s 0x20 style Hsafe Hcol) as (s1 & -> & Hs1 & He1 & Hc1 & _). rewrite bind_ret.
  pose proof (eq_cols _ _ He1). assert (1 ≤ cursor_col s1 < cols s1) by (destruct (wrap_pending s); lia).
  destruct (Z.eqb_spec (cursor_col s1) 0); [lia|]. apply IH; [done|lia..].
Qed.

(** Whatever it does, it leaves a safe surface. *)
Lemma tab_loop_safe fuel next_stop style s :
  safe s →
  match tab_loop fuel next_stop style s with
  | Ret s' => safe s' ∧ env_eq s s' ∧
      (region_ok s → on_screen s (cursor_col s) (cursor_row s) → on_screen s' (cursor_col s') (cursor_row s'))
  | Hang => True
  | Fault => False
  end.
Proof.
  revert s. induction fuel as [|fuel IH]; intros s Hsafe; [done|]. cbn [tab_loop].
  destruct (cursor_col s <? next_stop); [|done].
  destruct (write_codepoint_spec s 0x20 1 style Hsafe) as (s1 & -> & Hs1 & He1 & Ho1). rewrite bind_ret.
  destruct (cursor_col s1 =? 0); [done|]. specialize (IH s1 Hs1). destruct (tab_loop fuel next_stop style s1); [|done..].
  destruct IH as (? & ? & Ho2). split_and!; [done|by etrans|]. intros Hreg Ho. apply Ho2; [|by apply Ho1].
  unfold region_ok in *. by rewrite (eq_top _ _ He1), (eq_bottom _ _ He1), (eq_rows _ _ He1).
Qed.

(** ** Reset, the alternate screen *)

Lemma clear_scrollback_ok sb : back_ok sb → back_ok (Scrollback (sb_cells sb) zero_row_cols 0 0).
Proof.
  intros (Hc & _). split_and!; [done|done| |done..]. simpl. apply Forall_replicate. unfold TERM_SCROLLBACK_MAX_COLS. lia.
Qed.

Definition wiped (s : terminal_surface) : terminal_surface :=
  terminal_surface_clear_scrollback (set_region 0 (rows s - 1) (set_counts (dirty_count s) 0 (set_saved no_cursor (set_cur no_cursor s)))).

Lemma reset_spec s fill :
  shape s → terminal_surface_reset fill s = Ret (draw (filled (grid s) (terminal_surface_blank_cell fill)) (wiped s)) ∧ shape (wiped s).
Proof.
  intros Hs. assert (shape (wiped s)) as Hw.
  { unfold wiped, terminal_surface_clear_scrollback. apply shape_back; [|by apply clear_scrollback_ok, (sh_back s Hs)].
    by apply shape_region, shape_counts, shape_saved, shape_cur. }
  split; [|done]. exact (clear_spec (wiped s) fill Hw).
Qed.

Section allocation.
Context (garbage : term_cell) (garbage_dirty : Z).

Lemma fresh_buffer_ok c r : size_ok c r → buf_ok (Z.to_nat (c * r)) (fresh_buffer garbage garbage_dirty (i32 (c * r))).
Proof.
  intros Hsz. pose proof Hsz as (Hc & Hr & Hm). rewrite (size_ok_i32 c r) by (done || nia).
  unfold SIZEOF_CELL, U32 in Hm. unfold fresh_buffer, fresh_cells, buf_ok, SIZEOF_CELL. cbn [b_cells b_dirty].
  rewrite !length_replicate, (u32_small (c * r)) by (unfold is_u32, U32; nia). split; [|done].
  rewrite u32_small by (unfold is_u32, U32; nia). rewrite Z.mul_comm, Z.div_mul by lia. done.
Qed.

(** The surface after the switch to the alternate screen. *)
Record entered (s s' : terminal_surface) (fill : option term_cell) : Prop := {
  en_safe : safe s';
  en_active : alternate_active s' = true;
  en_primary : primary s' = primary s;
  en_size : cols s' = cols s ∧ rows s' = rows s;
  en_cur : cur s' = no_cursor ∧ saved s' = no_cursor;
  en_kept : primary_cur s' = cur s ∧ primary_saved s' = saved s;
  en_region : scroll_top s' = scroll_top s ∧ scroll_bottom s' = scroll_bottom s;
  en_view : b_cells (view s') = replicate (grid s) (terminal_surface_blank_cell fill);
  en_answers : answers s' = answers s
}.

Lemma enter_spec s b fill :
  shape s → buf_ok (grid s) b → ∃ s', enter_alternate b fill s = Ret s' ∧ entered s s' fill.
Proof.
  intros Hs Hb. pose proof (sh_size s Hs) as Hsz. unfold enter_alternate. cbv zeta. cbn [cols rows set_primary_curs].
  rewrite fill_buffer_spec, bind_ret, blank_idem by (done || exact Hb). eexists. split; [done|]. destruct Hsz as (Hc & Hr & Hm).
  constructor; try done. split.
  - constructor; try done; simpl; [apply (sh_primary s Hs)| |apply (sh_back s Hs)].
    intros b' [= <-]. apply filled_ok.
  - change (i32 (cols s * rows s) = count_dirty (replicate (grid s) 1)). rewrite count_dirty_replicate. by apply grid_i32.
Qed.

(** What holds after [terminal_surface_enter_alternate] in all cases: the switch,
    a reset when the alternate screen is shown, nothing without memory. *)
Record switched (s s' : terminal_surface) (fill : option term_cell) : Prop := {
  sw_safe : safe s';
  sw_size : cols s' = cols s ∧ rows s' = rows s;
  sw_cur : cur s' = no_cursor ∧ saved s' = no_cursor ∨ cur s' = cur s ∧ saved s' = saved s;
  sw_kept : primary_cur s' = cur s ∧ primary_saved s' = saved s ∨
            primary_cur s' = primary_cur s ∧ primary_saved s' = primary_saved s;
  sw_region : scroll_top s' = scroll_top s ∧ scroll_bottom s' = scroll_bottom s ∨
              scroll_top s' = 0 ∧ scroll_bottom s' = rows s - 1;
  sw_answers : answers s = [] → answers s' = [];
  sw_entered : alternate_active s = false → answers s = [] → entered s s' fill
}.

Lemma switch_after_malloc s s1 b fill :
  env_eq s (set_answers (answers s) s1) → cur s1 = cur s → primary s1 = primary s → shape s1 → buf_ok (grid s) b →
  (answers s = [] → answers s1 = []) → alternate_active s = false →
  ∃ s', enter_alternate b fill s1 = Ret s' ∧ switched s s' fill.
Proof.
  intros He Hcur Hp Hs1 Hb Hans Ha. assert (grid s1 = grid s) as Hg by exact (env_grid _ _ He).
  destruct (enter_spec s1 b fill Hs1) as (s' & -> & En); [by rewrite Hg|].
  destruct He as [Hco Hro Hsa Hac _ Hpc Hps Ht Hbt _]. simpl in *.
  destruct En as [? ? ? [] [] [] [] Hv ?]. exists s'. split; [done|]. rewrite Hg in Hv.
  constructor; [done|split; congruence|auto|left; split; congruence|left; split; congruence|intros E; specialize (Hans E); congruence|].
  intros _ E. constructor; [done|done|congruence|split; congruence|done|split; congruence|split; congruence|done|].
  rewrite E. specialize (Hans E). congruence.
Qed.

Lemma switch_no_memory s l : safe s → alternate s = None → (answers s = [] → False) →
  switched s (set_alternate None (set_answers l s)) None.
Proof.
  intros [Hs Hd] Ha Hne. assert (alternate_active s = false) as Hf.
  { destruct (alternate_active s) eqn:E; [|done]. destruct (sh_active s Hs E). congruence. }
  constructor; try done; [|by auto..]. split.
  - destruct Hs. constructor; try done. simpl. congruence.
  - simpl. rewrite Hd. unfold view. simpl. by rewrite Hf.
Qed.

Lemma enter_alternate_spec s fill :
  safe s → ∃ s', terminal_surface_enter_alternate garbage garbage_dirty fill s = Ret s' ∧
    (switched s s' fill ∨ switched s s' None).
Proof.
  intros Hsafe. pose proof (safe_shape s Hsafe) as Hs. pose proof (sh_size s Hs) as Hsz.
  unfold terminal_surface_enter_alternate. destruct ((cols s <=? 0) || (rows s <=? 0)) eqn:E; [destruct Hsz; lia|].
  destruct (alternate_active s) eqn:Ea.
  { destruct (reset_spec s fill Hs) as [-> Hw]. eexists. split; [done|]. left.
    assert (safe (draw (filled (grid s) (terminal_surface_blank_cell fill)) (wiped s))) by by apply draw_safe; [|apply filled_ok].
    destruct (draw_fields (filled (grid s) (terminal_surface_blank_cell fill)) (wiped s))
      as (? & ? & ? & ? & _ & _ & _ & ? & ? & ? & ? & _ & Hans).
    constructor; [done|done|by left|by right|by right|intros E0; rewrite Hans; exact E0|congruence]. }
  destruct (alternate s) as [b|] eqn:Eb.
  { destruct (switch_after_malloc s s b fill) as (s' & -> & Hsw); eauto; [by constructor|by apply (sh_alternate s Hs)]. }
  unfold malloc at 1. pose proof (fresh_buffer_ok _ _ Hsz) as Hfb.
  destruct (answers s) as [|a1 l] eqn:Eans.
  { unfold malloc. rewrite Eans. cbn [negb orb].
    destruct (switch_after_malloc s s (fresh_buffer garbage garbage_dirty (i32 (cols s * rows s))) fill) as (s' & -> & Hsw); eauto. by constructor. }
  unfold malloc. cbn [answers set_answers]. destruct l as [|a2 l]; [destruct (negb a1 || negb true)|destruct (negb a1 || negb a2)].
  1: eexists; split; [done|]; right; by apply (switch_no_memory s []); [..|congruence].
  2: eexists; split; [done|]; right; by apply (switch_no_memory s l); [..|congruence].
  - destruct (switch_after_malloc s (set_answers [] s) (fresh_buffer garbage garbage_dirty (i32 (cols s * rows s))) fill) as (s' & Hrun & Hsw);
      [by constructor|done|done|by apply shape_answers|done|congruence|done|]. exists s'. split; [exact Hrun|by left].
  - destruct (switch_after_malloc s (set_answers l s) (fresh_buffer garbage garbage_dirty (i32 (cols s * rows s))) fill) as (s' & Hrun & Hsw);
      [by constructor|done|done|by apply shape_answers|done|congruence|done|]. exists s'. split; [exact Hrun|by left].
Qed.
End allocation.

(** The surface after the return to the primary screen. *)
Record left_alternate (s s' : terminal_surface) : Prop := {
  le_active : alternate_active s' = false;
  le_cur : cur s' = primary_cur s ∧ saved s' = primary_saved s;
  le_cells : Some (b_cells (view s')) = b_cells <$> primary s
}.

Lemma leave_spec s :
  safe s → ∃ s', terminal_surface_leave_alternate s = Ret s' ∧ safe s' ∧ cols s' = cols s ∧ rows s' = rows s ∧
    scroll_top s' = scroll_top s ∧ scroll_bottom s' = scroll_bottom s ∧ answers s' = answers s ∧
    primary_cur s' = primary_cur s ∧ primary_saved s' = primary_saved s ∧
    (alternate_active s = false → s' = s) ∧ (alternate_active s = true → left_alternate s s').
Proof.
  intros Hsafe. pose proof (safe_shape s Hsafe) as Hs. unfold terminal_surface_leave_alternate.
  destruct (alternate_active s) eqn:Ea; cbn [negb]; [|exists s; split_and!; congruence].
  destruct (sh_primary s Hs) as (b & Hb & Hok). rewrite Hb. cbv zeta. set (s1 := set_saved _ _).
  assert (shape s1) as Hs1 by (destruct Hs; by constructor). rewrite mark_all_dirty_spec by done. eexists. split; [done|].
  set (b' := Buffer _ _). assert (buf_ok (grid s1) b') as Hb'.
  { destruct (view_ok Hs1). split; [done|apply length_replicate]. }
  split; [by apply draw_safe|]. destruct (draw_fields b' s1) as (-> & -> & E3 & E4 & _ & _ & E7 & -> & -> & -> & -> & _ & ->).
  split_and!; try done. intros _. constructor; [by rewrite E7|by rewrite E3, E4|].
  rewrite draw_view by done. unfold b'. cbn [b_cells]. unfold s1, view. simpl. by rewrite Hb.
Qed.

Section sizes.
Context (garbage : term_cell) (garbage_dirty : Z).

(** The common corner is copied. *)
Lemma resize_buffer_spec s old oc orr nc nr fill :
  answers s = [] → size_ok oc orr → size_ok nc nr → buf_ok (Z.to_nat (oc * orr)) old →
  ∃ b, terminal_surface_resize_buffer garbage garbage_dirty (Some old) oc orr nc nr fill s = Ret (Some b, s) ∧
    buf_ok (Z.to_nat (nc * nr)) b ∧ b_dirty b = replicate (Z.to_nat (nc * nr)) 1 ∧
    ∀ x y, 0 ≤ x < nc → 0 ≤ y < nr → b_cells b !! Z.to_nat (y * nc + x) =
      if decide (x < oc ∧ y < orr) then b_cells old !! Z.to_nat (y * oc + x) else Some (terminal_surface_blank_cell fill).
Proof.
  intros Ha Ho Hn [Hlo _]. pose proof Ho as (Hoc & Hor & _). pose proof Hn as (Hnc & Hnr & _).
  unfold terminal_surface_resize_buffer. destruct ((nc <=? 0) || (nr <=? 0)) eqn:E; [lia|]. cbv zeta.
  unfold malloc. rewrite Ha. rewrite Ha. cbn [negb orb]. rewrite fill_buffer_spec, bind_ret by (done || by apply fresh_buffer_ok).
  destruct ((0 <? oc) && (0 <? orr)) eqn:E2; [|lia].
  set (cc := if oc <? nc then oc else nc). set (cr := if orr <? nr then orr else nr).
  assert (cc = Z.min oc nc ∧ cr = Z.min orr nr) as [Ecc Ecr] by (unfold cc, cr; zcases; lia).
  set (b0 := Buffer _ _). set (blank := terminal_surface_blank_cell fill) in *.
  destruct (for_rect_inv (fun y x b => length (b_cells b) = Z.to_nat (nc * nr) ∧ b_dirty b = b_dirty b0 ∧
      ∀ x' y', 0 ≤ x' < nc → 0 ≤ y' < nr → b_cells b !! Z.to_nat (y' * nc + x') =
        if decide (x' < cc ∧ (y' < y ∨ y' = y ∧ x' < x)) then b_cells old !! Z.to_nat (y' * oc + x') else Some blank)
      0 cr 0 cc (fun _ => cc) (fun next row col =>
        c ← load1 (b_cells old) (i32 (i32 (row * oc) + col));
        cells ← store1 (b_cells next) (i32 (i32 (row * nc) + col)) c; Ret (Buffer cells (b_dirty next))) b0)
    as (b & Hrun & Hl & Hd & Hp).
  - lia.
  - lia.
  - split_and!; [apply length_replicate|done|]. intros x' y' Hx Hy. rewrite decide_False by lia.
    apply lookup_replicate_2. pose proof (index_range nc nr x' y' Hx Hy). lia.
  - done.
  - intros y b Hy (Hl & Hd & Hp). split_and!; [done|done|]. intros x' y' Hx' Hy'. rewrite Hp by done.
    repeat case_decide; try done; lia.
  - intros y x b Hy Hx (Hl & Hd & Hp).
    pose proof (index_range oc orr x y ltac:(lia) ltac:(lia)). pose proof (index_range nc nr x y ltac:(lia) ltac:(lia)).
    rewrite (size_ok_i32 oc orr (y * oc)), (size_ok_i32 oc orr (y * oc + x)) by (done || nia).
    rewrite (size_ok_i32 nc nr (y * nc)), (size_ok_i32 nc nr (y * nc + x)) by (done || nia).
    destruct (lookup_lt_is_Some_2 (b_cells old) (Z.to_nat (y * oc + x))) as [c Hc]; [lia|].
    rewrite (load1_Ret _ _ c), bind_ret by (done || lia). rewrite store1_Ret, bind_ret by lia. eexists. split; [done|].
    cbn [b_cells b_dirty]. rewrite length_insert. split_and!; [done|done|]. intros x' y' Hx' Hy'.
    pose proof (index_range _ _ _ _ Hx' Hy').
    destruct (decide (x' = x ∧ y' = y)) as [[-> ->]|Hne].
    + rewrite list_lookup_insert_eq by lia. rewrite decide_True by lia. done.
    + rewrite list_lookup_insert_ne by (intros Ei; apply Hne; apply (index_inj nc x' y' x y); lia). rewrite Hp by done.
      repeat case_decide; try done; exfalso; lia.
  - cbv beta in Hrun. rewrite Hrun, bind_ret. exists b. split; [done|]. split; [split; [done|rewrite Hd; apply length_replicate]|].
    split; [done|]. intros x y Hx Hy. rewrite Hp by done. repeat case_decide; try done; exfalso; lia.
Qed.

Lemma clamp_cursor_inside c r p : 0 < c → 0 < r → 0 ≤ col (clamp_cursor c r p) < c ∧ 0 ≤ row (clamp_cursor c r p) < r.
Proof.
  intros. unfold clamp_cursor. cbn [col row]. pose proof (clamp_range (col p) 0 (c - 1)).
  pose proof (clamp_range (row p) 0 (r - 1)). lia.
Qed.

(** The surface after a change of size. *)
Record resized (s s' : terminal_surface) (c r : Z) (fill : option term_cell) : Prop := {
  rs_safe : safe s';
  rs_size : cols s' = c ∧ rows s' = r;
  rs_cur : cur s' = clamp_cursor c r (cur s);
  rs_saved : saved s' = clamp_cursor c r (saved s);
  rs_primary_cur : primary_cur s' = clamp_cursor c r (primary_cur s);
  rs_primary_saved : primary_saved s' = clamp_cursor c r (primary_saved s);
  rs_region : scroll_top s' = scroll_top s ∧ scroll_bottom s' = scroll_bottom s;
  rs_answers : answers s' = answers s;
  rs_cells : ∀ x y, 0 ≤ x < c → 0 ≤ y < r → at_pos s' (view s') x y =
    if decide (x < cols s ∧ y < rows s) then at_pos s (view s) x y else Some (terminal_surface_blank_cell fill)
}.

Lemma resize_spec s c r fill :
  safe s → size_ok c r → answers s = [] →
  ∃ s', terminal_surface_resize garbage garbage_dirty c r fill s = Ret (0, s') ∧ resized s s' c r fill.
Proof.
  intros Hsafe Hsz Ha. pose proof (safe_shape s Hsafe) as Hs. pose proof Hsz as (Hc & Hr & Hm).
  unfold terminal_surface_resize. destruct ((c <=? 0) || (r <=? 0)) eqn:E; [lia|].
  destruct (sh_primary s Hs) as (p & Hp & Hpok). rewrite Hp.
  destruct (resize_buffer_spec s p (cols s) (rows s) c r fill Ha (sh_size s Hs) Hsz Hpok) as (p' & -> & Hp'ok & Hp'd & Hp'c).
  rewrite bind_ret. cbv zeta. cbn [alternate set_primary cols rows].
  assert (i32 (c * r) = count_dirty (replicate (Z.to_nat (c * r)) 1)) as Hcount.
  { rewrite count_dirty_replicate. change (1 =? 0) with false. cbv iota. rewrite (size_ok_i32 c r) by (done || nia). lia. }
  destruct (alternate s) as [a|] eqn:Ealt.
  - destruct (resize_buffer_spec (set_primary (Some p') s) a (cols s) (rows s) c r fill Ha (sh_size s Hs) Hsz)
      as (a' & -> & Ha'ok & Ha'd & Ha'c); [by apply (sh_alternate s Hs)|]. rewrite !bind_ret. cbn [negb]. eexists. split; [done|].
    pose proof (clear_scrollback_ok (back s) (sh_back s Hs)) as Hbk.
    destruct s as [? ? ? ? sh pr al ? ? act]. simpl in *. subst pr al.
    destruct act; (constructor; try done; split; [constructor; try done; try (by intros ? [= <-]); by eexists|
      unfold view; simpl; rewrite ?Ha'd, ?Hp'd; exact Hcount]).
  - rewrite bind_ret. cbn [negb]. eexists. split; [done|].
    assert (alternate_active s = false) as Hf.
    { destruct (alternate_active s) eqn:E0; [|done]. destruct (sh_active s Hs E0). congruence. }
    pose proof (clear_scrollback_ok (back s) (sh_back s Hs)) as Hbk.
    destruct s as [? ? ? ? sh pr al ? ? act]. simpl in *. subst pr al act.
    constructor; try done. split; [constructor; try done; by eexists|unfold view; simpl; rewrite Hp'd; exact Hcount].
Qed.

Lemma init_spec c r s0 :
  size_ok c r → answers s0 = [] →
  ∃ s, terminal_surface_init garbage garbage_dirty c r s0 = Ret (0, s) ∧ safe s ∧ cols s = c ∧ rows s = r ∧
    cur s = no_cursor ∧ saved s = no_cursor ∧ primary_cur s = no_cursor ∧ primary_saved s = no_cursor ∧
    scroll_top s = 0 ∧ scroll_bottom s = r - 1 ∧ alternate_active s = false ∧ answers s = [] ∧ history (back s) = [] ∧
    b_cells (view s) = replicate (Z.to_nat (c * r)) default_blank.
Proof.
  intros Hsz Ha. pose proof Hsz as (Hc & Hr & Hm). unfold terminal_surface_init.
  destruct ((c <=? 0) || (r <=? 0)) eqn:E; [lia|]. rewrite Ha. cbv zeta. cbn [malloc zero_surface answers negb orb].
  unfold terminal_surface_init_scrollback. cbn [sb_cells back set_primary zero_surface malloc answers].
  change (0 <? 0) with false. cbv iota.
  set (s1 := set_shown Primary false _). assert (shape s1) as Hs1.
  { constructor; try done; simpl.
    - eexists. split; [done|]. by apply fresh_buffer_ok.
    - split_and!; [|done| |done..]; simpl.
      + eexists. split; [done|]. unfold fresh_cells. rewrite length_replicate. reflexivity.
      + apply Forall_replicate. unfold TERM_SCROLLBACK_MAX_COLS. lia. }
  destruct (reset_spec s1 (Some (terminal_surface_blank_cell None)) Hs1) as [-> Hw]. rewrite bind_ret. eexists. split; [done|].
  set (b := filled _ _). split; [apply draw_safe; [done|apply filled_ok]|].
  destruct (draw_fields b (wiped s1)) as (-> & -> & -> & -> & _ & _ & -> & -> & -> & -> & -> & -> & ->).
  split_and!; done.
Qed.
End sizes.
