(* ===== verification/SurfaceProps.v ===== *)
(** * The screen of a terminal: theorems

    No sequence of operations touches memory outside the buffers, the cursor stays
    on the screen, scrolling keeps the lines in order, the alternate screen gives
    back the primary one, and a tab near the right edge does not end. *)

From S2P Require Import Prelude Ring Surface SurfaceInv SurfaceScroll SurfaceOps.

(** ** Operations *)

Inductive surface_op : Type :=
  | OpWrite (codepoint w : Z) (style : option term_cell)
  | OpPut (c r : Z) (cell : option term_cell)
  | OpNewline (fill : option term_cell)
  | OpCarriageReturn
  | OpBackspace
  | OpTab (style : option term_cell)
  | OpSetCursor (c r : Z)
  | OpMoveCursor (dcol drow : Z)
  | OpSaveCursor
  | OpRestoreCursor
  | OpSetScrollRegion (top bottom : Z)
  | OpScrollUp (lines : Z) (fill : option term_cell)
  | OpClear (fill : option term_cell)
  | OpClearRegion (x0 y0 x1 y1 : Z) (fill : option term_cell)
  | OpClearDamage
  | OpMarkAllDirty
  | OpReset (fill : option term_cell)
  | OpEnterAlternate (fill : option term_cell)
  | OpLeaveAlternate
  | OpResize (c r : Z) (fill : option term_cell).

Section props.
Context (garbage : term_cell) (garbage_dirty : Z).

Definition run_op (s : terminal_surface) (op : surface_op) : outcome terminal_surface :=
  match op with
  | OpWrite codepoint w style => terminal_surface_write_codepoint codepoint w style s
  | OpPut c r cell => terminal_surface_put_cell c r cell s
  | OpNewline fill => terminal_surface_newline fill s
  | OpCarriageReturn => Ret (terminal_surface_carriage_return s)
  | OpBackspace => Ret (terminal_surface_backspace s)
  | OpTab style => terminal_surface_tab style s
  | OpSetCursor c r => Ret (terminal_surface_set_cursor c r s)
  | OpMoveCursor dcol drow => Ret (terminal_surface_move_cursor dcol drow s)
  | OpSaveCursor => Ret (terminal_surface_save_cursor s)
  | OpRestoreCursor => Ret (terminal_surface_restore_cursor s)
  | OpSetScrollRegion top bottom => Ret (terminal_surface_set_scroll_region top bottom s)
  | OpScrollUp lines fill => terminal_surface_scroll_up lines fill s
  | OpClear fill => terminal_surface_clear fill s
  | OpClearRegion x0 y0 x1 y1 fill => terminal_surface_clear_region x0 y0 x1 y1 fill s
  | OpClearDamage => terminal_surface_clear_damage s
  | OpMarkAllDirty => terminal_surface_mark_all_dirty s
  | OpReset fill => terminal_surface_reset fill s
  | OpEnterAlternate fill => terminal_surface_enter_alternate garbage garbage_dirty fill s
  | OpLeaveAlternate => terminal_surface_leave_alternate s
  | OpResize c r fill => '(_, s) ← terminal_surface_resize garbage garbage_dirty c r fill s; Ret s
  end.

(** A size that fits the address space. *)
Definition op_ok (op : surface_op) : Prop :=
  match op with OpResize c r _ => size_ok c r | _ => True end.

(** A size that keeps the scroll region on the screen. *)
Definition keeps_region (s : terminal_surface) (op : surface_op) : Prop :=
  match op with OpResize c r _ => size_ok c r ∧ scroll_bottom s < r | _ => True end.

Definition is_tab (op : surface_op) : Prop := match op with OpTab _ => True | _ => False end.

(** Every cursor is on the screen and the scroll region is a part of it. *)
Definition cursor_in (s : terminal_surface) (p : cursor) : Prop := 0 ≤ col p < cols s ∧ 0 ≤ row p < rows s.

Record inside (s : terminal_surface) : Prop := {
  in_cur : cursor_in s (cur s);
  in_saved : cursor_in s (saved s);
  in_primary_cur : cursor_in s (primary_cur s);
  in_primary_saved : cursor_in s (primary_saved s);
  in_region : region_ok s
}.

(** What an operation leaves: a safe surface that still has its memory, and on
    which everything is inside when it was before. *)
Definition good (s : terminal_surface) (keeps : Prop) (s' : terminal_surface) : Prop :=
  safe s' ∧ (answers s = [] → answers s' = []) ∧ (keeps → inside s → inside s').

Lemma good_env s s' keeps :
  safe s' → env_eq s s' → (region_ok s → cursor_in s (cur s) → cursor_in s' (cur s')) → good s keeps s'.
Proof.
  intros Hs He Hc. split; [done|]. split; [by rewrite (eq_answers _ _ He)|]. intros _ [? ? ? ? ?].
  destruct He as [E1 E2 E3 _ _ E4 E5 E6 E7 _]. constructor.
  - by apply Hc.
  - unfold cursor_in. rewrite E3, E1, E2. done.
  - unfold cursor_in. rewrite E4, E1, E2. done.
  - unfold cursor_in. rewrite E5, E1, E2. done.
  - unfold region_ok. rewrite E6, E7, E2. done.
Qed.

Lemma good_same_cur s s' keeps : safe s' → env_eq s s' → cur s' = cur s → good s keeps s'.
Proof. intros ? He Hc. apply good_env; [done..|]. unfold cursor_in. by rewrite Hc, (eq_cols _ _ He), (eq_rows _ _ He). Qed.

Lemma good_cur s c keeps : safe s → (cursor_in s (cur s) → cursor_in s c) → good s keeps (set_cur c s).
Proof. intros Hs Hc. apply good_env; [by apply safe_cur|apply env_cur|]. intros _ ?. by apply Hc. Qed.

Lemma good_draw s b keeps : safe s → buf_ok (grid s) b → good s keeps (draw b s).
Proof.
  intros Hs Hb. pose proof (safe_shape s Hs). apply good_same_cur; [by apply draw_safe|by apply env_draw|apply draw_cur].
Qed.

Lemma reset_good s fill keeps : safe s → ∃ s', terminal_surface_reset fill s = Ret s' ∧ good s keeps s'.
Proof.
  intros Hs. destruct (reset_spec s fill (safe_shape s Hs)) as [-> Hw]. destruct (sh_size s (safe_shape s Hs)) as (Hc & Hr & _).
  eexists. split; [done|]. set (b := filled _ _). split; [apply draw_safe; [done|apply filled_ok]|].
  destruct (draw_fields b (wiped s)) as (E1 & E2 & E3 & E4 & _ & _ & _ & E5 & E6 & E7 & E8 & _ & E9).
  split; [by rewrite E9|]. intros _ []. constructor; unfold cursor_in, region_ok in *;
    rewrite ?E1, ?E2, ?E3, ?E4, ?E5, ?E6, ?E7, ?E8; simpl; done || lia.
Qed.

Lemma switched_good s s' fill keeps : safe s → switched s s' fill → good s keeps s'.
Proof.
  intros Hs [Hs' [E1 E2] Hcur Hkept Hreg Hans _]. destruct (sh_size s (safe_shape s Hs)) as (Hc & Hr & _).
  split; [done|]. split; [done|]. intros _ []. unfold cursor_in, region_ok in *.
  destruct Hcur as [[Ec Es]|[Ec Es]], Hkept as [[Ep Eq]|[Ep Eq]], Hreg as [[Et Eb]|[Et Eb]];
    (constructor; unfold cursor_in, region_ok; rewrite ?E1, ?E2, ?Ec, ?Es, ?Ep, ?Eq, ?Et, ?Eb; simpl; done || lia).
Qed.

Lemma leave_good s keeps : safe s → ∃ s', terminal_surface_leave_alternate s = Ret s' ∧ good s keeps s'.
Proof.
  intros Hs. destruct (leave_spec s Hs) as (s' & -> & Hs' & E1 & E2 & E3 & E4 & E5 & E6 & E7 & Hno & Hyes).
  exists s'. split; [done|]. split; [done|]. split; [congruence|]. intros _ Hin. destruct (alternate_active s).
  - destruct (Hyes eq_refl) as [_ [Ec Es] _]. destruct Hin.
    constructor; unfold cursor_in, region_ok in *; rewrite ?E1, ?E2, ?Ec, ?Es, ?E3, ?E4, ?E6, ?E7; done.
  - by rewrite (Hno eq_refl).
Qed.

Lemma resize_good s c r fill :
  safe s → size_ok c r → answers s = [] →
  ∃ s', terminal_surface_resize garbage garbage_dirty c r fill s = Ret (0, s') ∧ good s (size_ok c r ∧ scroll_bottom s < r) s'.
Proof.
  intros Hs Hsz Ha. destruct (resize_spec garbage garbage_dirty s c r fill Hs Hsz Ha) as (s' & -> & Hrs). exists s'. split; [done|].
  destruct Hrs as [Hs' [Ec Er] E1 E2 E3 E4 [E5 E6] E7 _]. destruct Hsz as (Hc & Hr & _). split; [done|]. split; [congruence|].
  intros [_ Hreg] [_ _ _ _ Hin]. unfold region_ok in Hin.
  constructor; unfold cursor_in, region_ok; rewrite ?Ec, ?Er, ?E1, ?E2, ?E3, ?E4, ?E5, ?E6; try apply clamp_cursor_inside; try done; lia.
Qed.

Lemma set_cursor_good s c r keeps : safe s → good s keeps (terminal_surface_set_cursor c r s).
Proof.
  intros Hs. unfold terminal_surface_set_cursor. destruct (sh_size s (safe_shape s Hs)) as (Hc & Hr & _).
  destruct (_ || _) eqn:E; [lia|]. apply good_cur; [done|]. intros _. unfold cursor_in. cbn [col row].
  pose proof (clamp_range c 0 (cols s - 1)). pose proof (clamp_range r 0 (rows s - 1)). lia.
Qed.

Lemma set_region_good s top bottom keeps : safe s → good s keeps (terminal_surface_set_scroll_region top bottom s).
Proof.
  intros Hs. unfold terminal_surface_set_scroll_region. cbv zeta. destruct (sh_size s (safe_shape s Hs)) as (Hc & Hr & _).
  set (t := if top <? 0 then 0 else top). set (b := if rows s <=? bottom then rows s - 1 else bottom).
  assert (0 ≤ t ∧ b < rows s) as [Ht Hb] by (unfold t, b; zcases; lia). clearbody t b.
  destruct (Z.leb_spec b t); [by apply good_same_cur|].
  split; [by apply safe_cur, safe_region|]. split; [done|]. intros _ [].
  constructor; unfold cursor_in, region_ok in *; simpl; done || lia.
Qed.

Lemma next_line_good s fill keeps : safe s → ∃ s', next_line fill s = Ret s' ∧ good s keeps s'.
Proof.
  intros Hs. destruct (next_line_spec s fill Hs) as (s' & -> & Hs' & He & Hc & _). exists s'. split; [done|].
  apply good_env; [done..|]. destruct (sh_size s (safe_shape s Hs)) as (Hcs & Hrs & Hm). unfold SIZEOF_CELL, U32 in Hm.
  unfold cursor_in, region_ok. rewrite Hc, (eq_cols _ _ He), (eq_rows _ _ He). cbn [col row]. intros Hreg Hin. unfold next_row, cursor_row.
  destruct (Z.leb_spec (scroll_bottom s) (row (cur s))); [lia|]. rewrite i32_small; nia.
Qed.

(** The outcome of an operation. *)
Definition good_run (s : terminal_surface) (keeps tab : Prop) (m : outcome terminal_surface) : Prop :=
  match m with Ret s' => good s keeps s' | Hang => tab | Fault => False end.

Lemma tab_good s style keeps : safe s → good_run s keeps True (terminal_surface_tab style s).
Proof.
  intros Hs. unfold terminal_surface_tab. destruct (before_write s 1 style Hs) as (s1 & Hrun & Hs1 & He1 & Ho1).
  destruct (terminal_surface_wrap_for_output style s) as [s0| |]; [|done..]. rewrite bind_ret in Hrun |- *.
  change (1 =? 2) with false in Hrun. cbn [andb] in Hrun. injection Hrun as <-. cbv zeta.
  set (n := (_ + 1) * _). pose proof (tab_loop_safe (Z.to_nat TERM_TAB_WIDTH + 1) n style s0 Hs1) as Ht.
  unfold good_run. destruct (tab_loop _ n style s0) as [s2| |]; [|done..]. destruct Ht as (Hs2 & He2 & Ho2).
  apply good_env; [done|by etrans|]. intros Hreg Hin. apply Ho2; [|by apply Ho1].
  unfold region_ok in *. by rewrite (eq_top _ _ He1), (eq_bottom _ _ He1), (eq_rows _ _ He1).
Qed.

Lemma run_op_good s op :
  safe s → op_ok op → answers s = [] → good_run s (keeps_region s op) (is_tab op) (run_op s op).
Proof.
  intros Hs Hop Ha. pose proof (safe_shape s Hs) as Hsh. destruct op; cbn [run_op keeps_region is_tab op_ok] in *.
  - destruct (write_codepoint_spec s codepoint w style Hs) as (s' & -> & ? & ? & ?). by apply good_env.
  - destruct (put_cell_spec s c r cell Hs) as (b & -> & ? & _). by apply good_draw.
  - unfold terminal_surface_newline. by destruct (next_line_good s fill True Hs) as (s' & -> & ?).
  - apply good_cur; [done|]. unfold cursor_in. simpl. unfold cursor_row. lia.
  - unfold terminal_surface_backspace. destruct (wrap_pending s); [|destruct (Z.ltb_spec 0 (cursor_col s))].
    + by apply good_cur.
    + apply good_cur; [done|]. unfold cursor_in, cursor_col, cursor_row in *. simpl. lia.
    + by apply good_same_cur.
  - by apply tab_good.
  - by apply set_cursor_good.
  - by apply set_cursor_good.
  - split; [by apply safe_saved|]. split; [done|]. intros _ []. by constructor.
  - split; [by apply safe_cur|]. split; [done|]. intros _ []. by constructor.
  - by apply set_region_good.
  - destruct (decide (0 < lines)).
    + destruct (scroll_up_spec s lines fill Hs) as (s' & -> & Hs' & He & Hc & _); [done|]. apply good_env; [done..|].
      unfold cursor_in. rewrite Hc, (eq_cols _ _ He), (eq_rows _ _ He). done.
    + unfold terminal_surface_scroll_up. rewrite (shown_view Hsh), bind_ret. destruct (Z.leb_spec lines 0); [|lia]. by apply good_same_cur.
  - rewrite clear_spec by done. apply good_draw; [done|apply filled_ok].
  - destruct (clear_region_spec s x0 y0 x1 y1 fill Hs) as (b & -> & ? & _). by apply good_draw.
  - rewrite clear_damage_spec by done. destruct (view_ok Hsh). apply good_draw; [done|]. split; [done|apply length_replicate].
  - rewrite mark_all_dirty_spec by done. destruct (view_ok Hsh). apply good_draw; [done|]. split; [done|apply length_replicate].
  - by destruct (reset_good s fill True Hs) as (s' & -> & ?).
  - destruct (enter_alternate_spec garbage garbage_dirty s fill Hs) as (s' & -> & [?|?]); by eapply switched_good.
  - by destruct (leave_good s True Hs) as (s' & -> & ?).
  - by destruct (resize_good s c r fill Hs Hop Ha) as (s' & -> & ?).
Qed.

Lemma run_ops_good ops s :
  safe s → answers s = [] → Forall op_ok ops →
  match foldM run_op ops s with Ret s' => safe s' ∧ answers s' = [] | Hang => Exists is_tab ops | Fault => False end.
Proof.
  revert s. induction ops as [|op ops IH]; intros s Hs Ha Hops; [done|]. apply Forall_cons in Hops as [Hop Hops].
  cbn [foldM]. pose proof (run_op_good s op Hs Hop Ha) as Hrun. unfold good_run in Hrun.
  destruct (run_op s op) as [s1| |]; [|by left|done]. destruct Hrun as (Hs1 & Ha1 & _). rewrite bind_ret.
  specialize (IH s1 Hs1 (Ha1 Ha) Hops). destruct (foldM run_op ops s1); [done|by right|done].
Qed.

(** ** The alternate screen *)

(** What the primary screen left behind while the alternate one is shown. *)
Definition held (s s' : terminal_surface) : Prop :=
  alternate_active s' = true ∧ primary s' = primary s ∧ primary_cur s' = primary_cur s ∧ primary_saved s' = primary_saved s.

(** Operations inside a program that uses the alternate screen. *)
Definition op_inner (op : surface_op) : Prop :=
  match op with OpLeaveAlternate | OpResize _ _ _ => False | _ => True end.

Lemma held_env s s' : alternate_active s = true → env_eq s s' → held s s'.
Proof.
  intros Ha [_ _ _ E1 E2 E3 E4 _ _ _]. unfold hidden in E2. rewrite E1, Ha in E2. by split_and!; congruence.
Qed.

Lemma held_draw s s0 b : shape s → alternate_active s = true → held s0 s → held s0 (draw b s).
Proof.
  intros Hs Ha (_ & H1 & H2 & H3). destruct (held_env s (draw b s) Ha (env_draw b s Hs)) as (? & ? & ? & ?).
  split_and!; congruence.
Qed.

Lemma held_run_op s op s' :
  safe s → alternate_active s = true → op_inner op → run_op s op = Ret s' → held s s'.
Proof.
  intros Hs Ha Hop Hrun. pose proof (safe_shape s Hs) as Hsh. assert (held s s) as Hself by done.
  assert (∀ c, held s (set_cur c s)) as Hset by done.
  destruct op; cbn [run_op op_inner] in *; try done.
  - destruct (write_codepoint_spec s codepoint w style Hs) as (s1 & E & _ & He & _). rewrite E in Hrun. injection Hrun as <-. by apply held_env.
  - destruct (put_cell_spec s c r cell Hs) as (b & E & _). rewrite E in Hrun. injection Hrun as <-. by apply held_draw.
  - destruct (next_line_spec s fill Hs) as (s1 & E & _ & He & _). unfold terminal_surface_newline in Hrun. rewrite E in Hrun.
    injection Hrun as <-. by apply held_env.
  - by injection Hrun as <-.
  - injection Hrun as <-. unfold terminal_surface_backspace. destruct (wrap_pending s); [done|]. by destruct (0 <? cursor_col s).
  - unfold terminal_surface_tab in Hrun. destruct (wrap_spec s style Hs) as (s1 & E & Hs1 & He1 & _). rewrite E, bind_ret in Hrun.
    cbv zeta in Hrun. set (n := (_ + 1) * _) in Hrun. pose proof (tab_loop_safe (Z.to_nat TERM_TAB_WIDTH + 1) n style s1 Hs1) as Ht.
    rewrite Hrun in Ht. destruct Ht as (_ & He2 & _).
    apply held_env; [done|]. by etrans.
  - injection Hrun as <-. unfold terminal_surface_set_cursor. by destruct (_ || _).
  - injection Hrun as <-. unfold terminal_surface_move_cursor, terminal_surface_set_cursor. by destruct (_ || _).
  - by injection Hrun as <-.
  - by injection Hrun as <-.
  - injection Hrun as <-. unfold terminal_surface_set_scroll_region. by destruct (_ <=? _).
  - destruct (decide (0 < lines)).
    + destruct (scroll_up_spec s lines fill Hs) as (s1 & E & _ & He & _); [done|]. rewrite E in Hrun. injection Hrun as <-. by apply held_env.
    + unfold terminal_surface_scroll_up in Hrun. rewrite (shown_view Hsh), bind_ret in Hrun.
      destruct (Z.leb_spec lines 0); [|lia]. by injection Hrun as <-.
  - rewrite clear_spec in Hrun by done. injection Hrun as <-. by apply held_draw.
  - destruct (clear_region_spec s x0 y0 x1 y1 fill Hs) as (b & E & _). rewrite E in Hrun. injection Hrun as <-. by apply held_draw.
  - rewrite clear_damage_spec in Hrun by done. injection Hrun as <-. by apply held_draw.
  - rewrite mark_all_dirty_spec in Hrun by done. injection Hrun as <-. by apply held_draw.
  - destruct (reset_spec s fill Hsh) as [E Hw]. rewrite E in Hrun. injection Hrun as <-. by apply held_draw.
  - unfold terminal_surface_enter_alternate in Hrun. destruct (_ || _); [by injection Hrun as <-|]. rewrite Ha in Hrun.
    destruct (reset_spec s fill Hsh) as [E Hw]. rewrite E in Hrun. injection Hrun as <-. by apply held_draw.
Qed.

Lemma held_run_ops ops s s' :
  safe s → answers s = [] → alternate_active s = true → Forall op_inner ops → foldM run_op ops s = Ret s' → safe s' ∧ held s s'.
Proof.
  revert s. induction ops as [|op ops IH]; intros s Hs Ha Hact Hops Hrun; [by simplify_eq/=|].
  apply Forall_cons in Hops as [Hop Hops]. cbn [foldM] in Hrun. destruct (run_op s op) as [s1| |] eqn:E; [|done..].
  rewrite bind_ret in Hrun. pose proof (held_run_op s op s1 Hs Hact Hop E) as (H1 & H2 & H3 & H4).
  pose proof (run_op_good s op Hs ltac:(by destruct op) Ha) as Hg. rewrite E in Hg. destruct Hg as (Hs1 & Ha1 & _).
  destruct (IH s1 Hs1 (Ha1 Ha) H1 Hops Hrun) as [Hs' (K1 & K2 & K3 & K4)]. split; [done|]. split_and!; congruence.
Qed.
End props.

(** ** Theorems *)

Section theorems.
Context (garbage : term_cell) (garbage_dirty : Z).

(** C24: whatever fresh memory holds, a new surface can be created, and no sequence
    of operations on it, resizing included, reads or writes outside a buffer: every
    operation returns a surface whose buffers fit its size and whose count of
    damaged cells is exact.  The only operation that may not return is a tab. *)
Theorem surface_memory_safe c r s0 ops :
  size_ok c r → answers s0 = [] → Forall op_ok ops →
  ∃ s, terminal_surface_init garbage garbage_dirty c r s0 = Ret (0, s) ∧
    match foldM (run_op garbage garbage_dirty) ops s with
    | Ret s' => safe s'
    | Hang => Exists is_tab ops
    | Fault => False
    end.
Proof.
  intros Hsz Ha Hops. destruct (init_spec garbage garbage_dirty c r s0 Hsz Ha) as (s & Hrun & Hs & _ & _ & _ & _ & _ & _ & _ & _ & _ & Ha' & _).
  exists s. split; [done|]. pose proof (run_ops_good garbage garbage_dirty ops s Hs Ha' Hops) as Hg.
  destruct (foldM _ ops s); [apply Hg|done|done].
Qed.

(** Every operation keeps the cursor, the saved cursors and the scroll region
    on the screen; a resize does when the new height still contains the scroll
    region. *)
Theorem surface_cursor_inside s op s' :
  safe s → inside s → answers s = [] → keeps_region s op → run_op garbage garbage_dirty s op = Ret s' →
  safe s' ∧ inside s'.
Proof.
  intros Hs Hin Ha Hk Hrun. assert (op_ok op) as Hop by (destruct op; try done; by destruct Hk).
  pose proof (run_op_good garbage garbage_dirty s op Hs Hop Ha) as Hg. rewrite Hrun in Hg. destruct Hg as (? & _ & Hi).
  split; [done|]. by apply Hi.
Qed.

(** A line feed on the last line of the scroll region moves the lines of the
    region up by one, leaves the lines outside it, blanks the last one, and, when
    the region is the whole primary screen, appends the line that leaves the top
    to the lines kept, of which the newest 512 stay. *)
Theorem newline_scrolls s fill :
  safe s → region_ok s → cursor_row s = scroll_bottom s →
  ∃ s', terminal_surface_newline fill s = Ret s' ∧ safe s' ∧ cur s' = Cursor 0 (scroll_bottom s) false ∧
    (∀ c r, on_screen s c r → at_pos s (view s') c r = scrolled s 1 (terminal_surface_blank_cell fill) c r) ∧
    history (back s') = if decide (whole_screen s)
      then keep (Z.to_nat TERM_SCROLLBACK_ROWS) (history (back s) ++ [line s 0]) else history (back s).
Proof.
  intros Hs Hreg Hrow. destruct (next_line_spec s fill Hs) as (s' & Hrun & Hs' & _ & Hc & Hp). destruct (Hp Hreg) as [Hcells Hhist].
  exists s'. split; [done|]. split; [done|]. split; [rewrite Hc; unfold next_row; destruct (Z.leb_spec (scroll_bottom s) (cursor_row s)); [done|lia]|].
  split.
  - intros x y Ho. rewrite Hcells by done. by rewrite decide_True by lia.
  - rewrite Hhist. destruct (decide (whole_screen s)); [by rewrite decide_True by (split; [done|lia])|by rewrite decide_False by tauto].
Qed.

(** A program that switches to the alternate screen, draws there with any
    operations and switches back leaves the primary screen, the cursor and the
    saved cursor as they were. *)
Theorem alternate_roundtrip s fill ops s1 s2 :
  safe s → alternate_active s = false → answers s = [] → Forall op_inner ops →
  terminal_surface_enter_alternate garbage garbage_dirty fill s = Ret s1 →
  foldM (run_op garbage garbage_dirty) ops s1 = Ret s2 →
  ∃ s3, terminal_surface_leave_alternate s2 = Ret s3 ∧ alternate_active s3 = false ∧
    b_cells (view s3) = b_cells (view s) ∧ cur s3 = cur s ∧ saved s3 = saved s.
Proof.
  intros Hs Ha Hans Hops Henter Hrun.
  destruct (enter_alternate_spec garbage garbage_dirty s fill Hs) as (s1' & E1 & Hsw). rewrite Henter in E1. injection E1 as <-.
  assert (∃ f, entered s s1 f) as (f & [Hs1 Hact Hprim _ _ [Hpc Hps] _ _ Han1]).
  { destruct Hsw as [[? ? ? ? ? ? He]|[? ? ? ? ? ? He]]; eexists; exact (He Ha Hans). }
  destruct (held_run_ops garbage garbage_dirty ops s1 s2 Hs1 ltac:(congruence) Hact Hops Hrun) as [Hs2 (Ha2 & Hp2 & Hc2 & Hv2)].
  destruct (leave_spec s2 Hs2) as (s3 & E3 & Hs3 & _ & _ & _ & _ & _ & _ & _ & _ & Hl). exists s3. split; [done|].
  destruct (Hl Ha2) as [H1 [H2 H3] H4]. split_and!; [done| |congruence|congruence].
  rewrite Hp2, Hprim in H4. destruct (sh_primary s (safe_shape s Hs)) as (b & Hb & _). rewrite Hb in H4. simpl in H4.
  unfold view at 2. rewrite Ha, Hb. simpl. congruence.
Qed.

(** A tab moves the cursor to the next multiple of eight when that column is
    on the line; when it is not, on a screen of at least two columns, the loop of
    [terminal_surface_tab] never ends, however many rounds it is given. *)
Theorem tab_stops_or_hangs s style :
  safe s → wrap_pending s = false → 0 ≤ cursor_col s < cols s → 2 ≤ cols s →
  let next_stop := (cursor_col s / TERM_TAB_WIDTH + 1) * TERM_TAB_WIDTH in
  if decide (next_stop < cols s)
  then ∃ s', terminal_surface_tab style s = Ret s' ∧ safe s' ∧ cur s' = Cursor next_stop (cursor_row s) false
  else terminal_surface_tab style s = Hang ∧ ∀ fuel, tab_loop fuel next_stop style s = Hang.
Proof.
  intros Hs Hw Hc H2. cbv zeta. unfold terminal_surface_tab. destruct (wrap_spec s style Hs) as (s1 & -> & _ & _ & _ & Heq).
  rewrite (Heq Hw), bind_ret. cbv zeta. rewrite Z.quot_div_nonneg by (unfold TERM_TAB_WIDTH; lia).
  set (n := (cursor_col s / TERM_TAB_WIDTH + 1) * TERM_TAB_WIDTH).
  assert (cursor_col s < n ≤ cursor_col s + 8) as Hn.
  { unfold n, TERM_TAB_WIDTH. pose proof (Z.div_mod (cursor_col s) 8). pose proof (Z.mod_pos_bound (cursor_col s) 8). lia. }
  case_decide as Hd.
  - destruct (tab_loop_reaches (Z.to_nat TERM_TAB_WIDTH + 1) n style s Hs Hw) as (s' & -> & Hs' & _ & Hc'); [lia|lia|unfold TERM_TAB_WIDTH; lia|].
    by exists s'.
  - split; [|intros fuel]; apply tab_loop_diverges; done || lia.
Qed.
End theorems.

(** ** Runs *)

(** A new surface. *)
Definition new_surface (c r : Z) : terminal_surface :=
  match terminal_surface_init default_blank 0 c r (zero_surface []) with Ret (_, s) => s | _ => zero_surface [] end.

Lemma new_surface_good c r :
  size_ok c r → safe (new_surface c r) ∧ inside (new_surface c r) ∧ cols (new_surface c r) = c ∧ rows (new_surface c r) = r ∧
    cur (new_surface c r) = no_cursor ∧ alternate_active (new_surface c r) = false ∧ answers (new_surface c r) = [] ∧
    scroll_bottom (new_surface c r) = r - 1.
Proof.
  intros Hsz. unfold new_surface.
  destruct (init_spec default_blank 0 c r (zero_surface []) Hsz eq_refl)
    as (s & -> & Hs & Ec & Er & E1 & E2 & E3 & E4 & E5 & E6 & E7 & E8 & _).
  destruct Hsz as (Hc & Hr & _). split_and!; try done.
  constructor; unfold cursor_in, region_ok; rewrite ?E1, ?E2, ?E3, ?E4, ?E5, ?E6, ?Ec, ?Er; simpl; lia.
Qed.

#[local] Opaque new_surface.

Lemma surface_memory_safe_witness :
  ∃ s, terminal_surface_init default_blank 0 80 25 (zero_surface []) = Ret (0, s) ∧
    match foldM (run_op default_blank 0) [OpWrite 0x41 1 None; OpResize 20 5 None; OpNewline None] s with
    | Ret s' => safe s' | Hang => Exists is_tab [OpWrite 0x41 1 None; OpResize 20 5 None; OpNewline None] | Fault => False end.
Proof.
  apply (surface_memory_safe default_blank 0 80 25 (zero_surface []) [OpWrite 0x41 1 None; OpResize 20 5 None; OpNewline None]).
  - vm_compute. split_and!; congruence.
  - reflexivity.
  - repeat constructor; vm_compute; congruence.
Defined.

Lemma surface_cursor_inside_witness :
  safe (terminal_surface_set_cursor 100 3 (new_surface 80 25)) ∧ inside (terminal_surface_set_cursor 100 3 (new_surface 80 25)).
Proof.
  destruct (new_surface_good 80 25) as (Hs & Hin & _ & _ & _ & _ & Ha & _); [vm_compute; split_and!; congruence|].
  apply (surface_cursor_inside default_blank 0 (new_surface 80 25) (OpSetCursor 100 3)); [exact Hs|exact Hin|exact Ha|exact I|reflexivity].
Defined.

Lemma newline_scrolls_witness :
  ∃ s', terminal_surface_newline None (new_surface 80 1) = Ret s' ∧ cur s' = Cursor 0 0 false.
Proof.
  destruct (new_surface_good 80 1) as (Hs & Hin & _ & _ & Hc & _ & _ & Hb); [vm_compute; split_and!; congruence|].
  destruct (newline_scrolls (new_surface 80 1) None Hs (in_region _ Hin)) as (s' & Hrun & _ & Hcur & _).
  - unfold cursor_row. rewrite Hc, Hb. reflexivity.
  - exists s'. split; [exact Hrun|]. rewrite Hcur, Hb. reflexivity.
Defined.

Lemma alternate_roundtrip_witness :
  ∃ s1 s3, terminal_surface_enter_alternate default_blank 0 None (new_surface 80 25) = Ret s1 ∧
    terminal_surface_leave_alternate s1 = Ret s3 ∧ b_cells (view s3) = b_cells (view (new_surface 80 25)).
Proof.
  destruct (new_surface_good 80 25) as (Hs & _ & _ & _ & _ & Ha & Hans & _); [vm_compute; split_and!; congruence|].
  destruct (enter_alternate_spec default_blank 0 (new_surface 80 25) None Hs) as (s1 & E & _).
  destruct (alternate_roundtrip default_blank 0 (new_surface 80 25) None [] s1 s1 Hs Ha Hans (Forall_nil_2 _) E eq_refl) as (s3 & Hl & _ & Hv & _).
  exists s1, s3. split; [exact E|]. split; [exact Hl|exact Hv].
Defined.

Lemma tab_stops_or_hangs_witness :
  ∃ s, safe s ∧ cols s = 80 ∧ terminal_surface_tab None (set_cur (Cursor 72 0 false) s) = Hang.
Proof.
  destruct (new_surface_good 80 25) as (Hs & _ & Hc & _); [vm_compute; split_and!; congruence|].
  exists (new_surface 80 25). split; [exact Hs|]. split; [exact Hc|]. revert Hs Hc. generalize (new_surface 80 25). intros s Hs Hc.
  pose proof (tab_stops_or_hangs (set_cur (Cursor 72 0 false) s) None (safe_cur _ _ Hs) eq_refl) as H.
  change (cols (set_cur (Cursor 72 0 false) s)) with (cols s) in H. rewrite Hc in H.
  change (cursor_col (set_cur (Cursor 72 0 false) s)) with 72 in H.
  specialize (H ltac:(lia) ltac:(lia)). cbv zeta in H. rewrite decide_False in H by (vm_compute; congruence). exact (proj1 H).
Defined.

(** The surface that a few operations leave. *)
Definition after (s : terminal_surface) (ops : list surface_op) : outcome terminal_surface :=
  foldM (run_op default_blank 0) ops s.

(** After a resize that cuts the scroll region, a line feed puts the cursor below
    the screen and the next character is lost. *)
Example resize_loses_output :
  match after (new_surface 4 6) [OpSetCursor 0 5; OpResize 4 3 None; OpNewline None; OpNewline None; OpNewline None; OpWrite 0x41 1 None] with
  | Ret s => rows s = 3 ∧ cursor_row s = 5 ∧ forallb (fun c => ch c =? 0x20) (b_cells (view s)) = true
  | _ => False
  end.
Proof. vm_compute. split_and!; reflexivity. Qed.

(** A wide character written where the first half of another was erased loses its
    own first half: its continuation blanks it. *)
Example wide_character_lost :
  match after (new_surface 4 1) [OpWrite 0x3042 2 None; OpSetCursor 0 0; OpClearRegion 0 0 0 0 None; OpWrite 0x3044 2 None] with
  | Ret s => ch <$> take 2 (b_cells (view s)) = [0x20; 0] ∧ Z.land (attr (nth 1 (b_cells (view s)) default_blank)) TERM_ATTR_CONTINUATION = 4
  | _ => False
  end.
Proof. vm_compute. split; reflexivity. Qed.

(** When there is no memory for the resized alternate buffer, the surface still
    refers to the primary buffer that has been freed. *)
Example resize_failure_dangles :
  match after (new_surface 4 2) [OpEnterAlternate None; OpLeaveAlternate] with
  | Ret s =>
      match terminal_surface_resize default_blank 0 8 4 None (set_answers [true; true; false; true] s) with
      | Ret (res, s) => res = -1 ∧ shown s = Freed ∧ terminal_surface_clear None s = Fault
      | _ => False
      end
  | _ => False
  end.
Proof. vm_compute. split_and!; reflexivity. Qed.
