(* ===== verification/VtParser.v ===== *)
(** * Escape sequences: model of usr/lib/libc/vt_parser.c

    The parser of a terminal: bytes are UTF-8 text, control characters or escape
    sequences, and become operations on the surface.  Numbers of a sequence are
    32-bit integers that wrap. *)

From S2P Require Import Prelude Ring Utf8 Wcwidth Surface.

(** ** Data *)

Definition VT_PARSER_MAX_PARAMS : Z := 8.

Inductive vt_state : Type := VT_STATE_GROUND | VT_STATE_ESCAPE | VT_STATE_CSI.

Record vt_parser := Parser {
  surface : terminal_surface;
  pen : term_cell;
  default_pen : term_cell;
  state : vt_state;
  params : list Z;
  param_count : Z;
  param_active : bool;
  private_mode : bool;
  decoder : utf8_decoder
}.

Definition set_surface (s : terminal_surface) (p : vt_parser) : vt_parser :=
  Parser s (pen p) (default_pen p) (state p) (params p) (param_count p) (param_active p) (private_mode p) (decoder p).
Definition set_pen (c : term_cell) (p : vt_parser) : vt_parser :=
  Parser (surface p) c (default_pen p) (state p) (params p) (param_count p) (param_active p) (private_mode p) (decoder p).
Definition set_state (st : vt_state) (p : vt_parser) : vt_parser :=
  Parser (surface p) (pen p) (default_pen p) st (params p) (param_count p) (param_active p) (private_mode p) (decoder p).
Definition set_params (l : list Z) (n : Z) (act : bool) (p : vt_parser) : vt_parser :=
  Parser (surface p) (pen p) (default_pen p) (state p) l n act (private_mode p) (decoder p).
Definition set_private (b : bool) (p : vt_parser) : vt_parser :=
  Parser (surface p) (pen p) (default_pen p) (state p) (params p) (param_count p) (param_active p) b (decoder p).
Definition set_decoder (d : utf8_decoder) (p : vt_parser) : vt_parser :=
  Parser (surface p) (pen p) (default_pen p) (state p) (params p) (param_count p) (param_active p) (private_mode p) d.

(** ** Parameters and colours *)

Definition no_params : list Z := replicate (Z.to_nat VT_PARSER_MAX_PARAMS) (-1).

Definition vt_parser_reset_params (p : vt_parser) : vt_parser :=
  set_private false (set_params no_params 0 false p).

Definition vt_parser_param (p : vt_parser) (index fallback : Z) : outcome Z :=
  if (index <? 0) || (param_count p <=? index) then Ret fallback
  else x ← load1 (params p) index; Ret (if x <? 0 then fallback else x).

Definition vt_parser_blank (p : vt_parser) : term_cell :=
  Cell 0x20 (fg (pen p)) (bg (pen p)) (attr (pen p)) (width (pen p)).

Definition vga_table : list Z := [0; 4; 2; 6; 1; 5; 3; 7].

Definition vt_parser_ansi_to_vga (color : Z) : Z :=
  if (color <? 0) || (7 <? color) then TERM_COLOR_LIGHT_GRAY else default 0 (vga_table !! Z.to_nat color).

Definition with_fg (x : Z) (c : term_cell) : term_cell := Cell (ch c) x (bg c) (attr c) (width c).
Definition with_bg (x : Z) (c : term_cell) : term_cell := Cell (ch c) (fg c) x (attr c) (width c).
Definition with_attr (x : Z) (c : term_cell) : term_cell := Cell (ch c) (fg c) (bg c) x (width c).

(** The effect of one code of a select-graphic-rendition sequence on the pen. *)
Definition apply_code (dflt : term_cell) (code : Z) (c : term_cell) : term_cell :=
  if code =? 0 then dflt
  else if code =? 1 then with_attr (Z.lor (attr c) TERM_ATTR_BOLD) c
  else if code =? 22 then with_attr (Z.land (attr c) 0xfe) c
  else if code =? 7 then with_attr (Z.lor (attr c) TERM_ATTR_REVERSE) c
  else if code =? 27 then with_attr (Z.land (attr c) 0xfd) c
  else if (30 <=? code) && (code <=? 37) then with_fg (vt_parser_ansi_to_vga (code - 30)) c
  else if code =? 39 then with_fg (fg dflt) c
  else if (40 <=? code) && (code <=? 47) then with_bg (vt_parser_ansi_to_vga (code - 40)) c
  else if code =? 49 then with_bg (bg dflt) c
  else if (90 <=? code) && (code <=? 97) then with_fg ((vt_parser_ansi_to_vga (code - 90) + 8) mod 256) c
  else if (100 <=? code) && (code <=? 107) then with_bg ((vt_parser_ansi_to_vga (code - 100) + 8) mod 256) c
  else c.

Definition vt_parser_apply_sgr (p : vt_parser) : outcome vt_parser :=
  if param_count p =? 0 then Ret (set_pen (default_pen p) p)
  else for_range 0 (param_count p) (fun p i =>
         code ← vt_parser_param p i 0; Ret (set_pen (apply_code (default_pen p) code (pen p)) p)) p.

(** ** Sequences *)

(** An operation on the surface of the parser. *)
Definition on_surface (f : terminal_surface → outcome terminal_surface) (p : vt_parser) : outcome vt_parser :=
  s ← f (surface p); Ret (set_surface s p).

Definition vt_parser_erase_display (mode : Z) (p : vt_parser) : outcome vt_parser :=
  let blank := Some (vt_parser_blank p) in
  on_surface (fun s =>
    if mode =? 0 then
      s ← terminal_surface_clear_region (cursor_col s) (cursor_row s) (cols s - 1) (cursor_row s) blank s;
      if cursor_row s + 1 <? rows s
      then terminal_surface_clear_region 0 (cursor_row s + 1) (cols s - 1) (rows s - 1) blank s
      else Ret s
    else if mode =? 1 then
      s ← (if 0 <? cursor_row s
           then terminal_surface_clear_region 0 0 (cols s - 1) (cursor_row s - 1) blank s else Ret s);
      terminal_surface_clear_region 0 (cursor_row s) (cursor_col s) (cursor_row s) blank s
    else if mode =? 2 then terminal_surface_clear blank s
    else Ret s) p.

Definition vt_parser_erase_line (mode : Z) (p : vt_parser) : outcome vt_parser :=
  let blank := Some (vt_parser_blank p) in
  on_surface (fun s =>
    if mode =? 0 then terminal_surface_clear_region (cursor_col s) (cursor_row s) (cols s - 1) (cursor_row s) blank s
    else if mode =? 1 then terminal_surface_clear_region 0 (cursor_row s) (cursor_col s) (cursor_row s) blank s
    else if mode =? 2 then terminal_surface_clear_region 0 (cursor_row s) (cols s - 1) (cursor_row s) blank s
    else Ret s) p.

Section allocation.
Context (garbage : term_cell) (garbage_dirty : Z).

(** The loop of [vt_parser_dispatch_private_csi] from parameter [i] on: the first
    parameter that names the alternate screen switches it. *)
Fixpoint private_loop (todo : list Z) (enter : bool) (blank : term_cell) (p : vt_parser) : outcome vt_parser :=
  match todo with
  | [] => Ret p
  | i :: todo =>
      code ← vt_parser_param p i (-1);
      if negb (code =? 47) && negb (code =? 1047) && negb (code =? 1049) then private_loop todo enter blank p
      else if enter then on_surface (terminal_surface_enter_alternate garbage garbage_dirty (Some blank)) p
      else on_surface terminal_surface_leave_alternate p
  end.

Definition vt_parser_dispatch_private_csi (final : Z) (p : vt_parser) : outcome vt_parser :=
  if negb (final =? 0x68) && negb (final =? 0x6c) then Ret p
  else private_loop (seqZ 0 (param_count p)) (final =? 0x68) (vt_parser_blank p) p.

(** The last parameter of a sequence is counted. *)
Definition close_params (p : vt_parser) : outcome vt_parser :=
  if param_active p || (0 <? param_count p) then
    if (param_count p <? VT_PARSER_MAX_PARAMS) && negb (param_active p) then
      l ← store1 (params p) (param_count p) (-1);
      Ret (set_params l (param_count p + 1) (param_active p) p)
    else if param_active p && (param_count p <? VT_PARSER_MAX_PARAMS)
    then Ret (set_params (params p) (param_count p + 1) (param_active p) p)
    else Ret p
  else Ret p.

Definition pure_op (f : terminal_surface → terminal_surface) : terminal_surface → outcome terminal_surface :=
  fun s => Ret (f s).

Definition vt_parser_dispatch_csi (final : Z) (p : vt_parser) : outcome vt_parser :=
  p ← close_params p;
  if private_mode p then vt_parser_dispatch_private_csi final p
  else if final =? 0x41 then
    n ← vt_parser_param p 0 1; on_surface (pure_op (terminal_surface_move_cursor 0 (i32 (- n)))) p
  else if final =? 0x42 then
    n ← vt_parser_param p 0 1; on_surface (pure_op (terminal_surface_move_cursor 0 n)) p
  else if final =? 0x43 then
    n ← vt_parser_param p 0 1; on_surface (pure_op (terminal_surface_move_cursor n 0)) p
  else if final =? 0x44 then
    n ← vt_parser_param p 0 1; on_surface (pure_op (terminal_surface_move_cursor (i32 (- n)) 0)) p
  else if (final =? 0x48) || (final =? 0x66) then
    row ← vt_parser_param p 0 1;
    col ← vt_parser_param p 1 1;
    on_surface (pure_op (terminal_surface_set_cursor (col - 1) (row - 1))) p
  else if final =? 0x4a then
    mode ← vt_parser_param p 0 0; vt_parser_erase_display mode p
  else if final =? 0x4b then
    mode ← vt_parser_param p 0 0; vt_parser_erase_line mode p
  else if final =? 0x6d then vt_parser_apply_sgr p
  else if final =? 0x73 then on_surface (pure_op terminal_surface_save_cursor) p
  else if final =? 0x72 then
    top ← vt_parser_param p 0 1;
    bottom ← vt_parser_param p 1 (rows (surface p));
    on_surface (pure_op (terminal_surface_set_scroll_region (top - 1) (bottom - 1))) p
  else if final =? 0x75 then on_surface (pure_op terminal_surface_restore_cursor) p
  else Ret p.

(** ** Text *)

Definition vt_parser_emit_codepoint (cp : Z) (p : vt_parser) : outcome vt_parser :=
  if cp =? 0 then Ret p
  else
    w ← unicode_wcwidth cp;
    if w <? 0 then Ret p
    else if w =? 0 then Ret p
    else on_surface (terminal_surface_write_codepoint cp w (Some (pen p))) p.

Definition vt_parser_flush_partial_utf8 (p : vt_parser) : outcome vt_parser :=
  if expected (decoder p) =? 0 then Ret p
  else vt_parser_emit_codepoint UTF8_REPLACEMENT_CHAR (set_decoder (utf8_decoder_reset (decoder p)) p).

Definition vt_parser_feed_ground (byte : Z) (p : vt_parser) : outcome vt_parser :=
  if byte =? 0x0d then
    p ← vt_parser_flush_partial_utf8 p; on_surface (pure_op terminal_surface_carriage_return) p
  else if byte =? 0x0a then
    p ← vt_parser_flush_partial_utf8 p; on_surface (terminal_surface_newline (Some (pen p))) p
  else if byte =? 0x08 then
    p ← vt_parser_flush_partial_utf8 p; on_surface (pure_op terminal_surface_backspace) p
  else if byte =? 0x09 then
    p ← vt_parser_flush_partial_utf8 p; on_surface (terminal_surface_tab (Some (pen p))) p
  else if (byte <? 0x20) || (byte =? 0x7f) then Ret p
  else
    match utf8_decode_byte (decoder p) byte with
    | (decoded, out, d) =>
        let p := set_decoder d p in
        if 0 <? decoded then cp ← or_fault out; vt_parser_emit_codepoint cp p
        else if decoded <? 0 then
          p ← vt_parser_emit_codepoint UTF8_REPLACEMENT_CHAR p;
          if (0x20 <=? byte) && (byte <? 0x80) then vt_parser_emit_codepoint byte p else Ret p
        else Ret p
    end.

(** ** The state machine *)

Definition vt_parser_reset (p : vt_parser) : vt_parser :=
  vt_parser_reset_params (set_decoder (utf8_decoder_reset (decoder p)) (set_pen (default_pen p) (set_state VT_STATE_GROUND p))).

(** The fields that [vt_parser_init] does not set before the reset are set there. *)
Definition vt_parser_init (s : terminal_surface) : vt_parser :=
  vt_parser_reset (Parser s default_blank default_blank VT_STATE_GROUND no_params 0 false false utf8_decoder_init).

(** One byte in a sequence that started with ESC [. *)
Definition feed_csi (byte : Z) (p : vt_parser) : outcome vt_parser :=
  if (0x30 <=? byte) && (byte <=? 0x39) then
    if negb (param_active p) && (VT_PARSER_MAX_PARAMS <=? param_count p) then Ret (set_state VT_STATE_GROUND p)
    else
      l ← (if negb (param_active p) then store1 (params p) (param_count p) 0 else Ret (params p));
      x ← load1 l (param_count p);
      l ← store1 l (param_count p) (i32 (i32 (x * 10) + (byte - 0x30)));
      Ret (set_params l (param_count p) true p)
  else if byte =? 0x3b then
    if param_count p <? VT_PARSER_MAX_PARAMS then
      l ← (if negb (param_active p) then store1 (params p) (param_count p) (-1) else Ret (params p));
      Ret (set_params l (param_count p + 1) false p)
    else Ret (set_state VT_STATE_GROUND p)
  else if (byte =? 0x3f) && (param_count p =? 0) && negb (param_active p) && negb (private_mode p)
  then Ret (set_private true p)
  else if (0x40 <=? byte) && (byte <=? 0x7e) then
    p ← vt_parser_dispatch_csi byte p;
    Ret (vt_parser_reset_params (set_state VT_STATE_GROUND p))
  else Ret (set_state VT_STATE_GROUND p).

Definition feed_byte (p : vt_parser) (byte : Z) : outcome vt_parser :=
  match state p with
  | VT_STATE_GROUND =>
      if byte =? 0x1b then p ← vt_parser_flush_partial_utf8 p; Ret (set_state VT_STATE_ESCAPE p)
      else vt_parser_feed_ground byte p
  | VT_STATE_ESCAPE =>
      if byte =? 0x5b then Ret (vt_parser_reset_params (set_state VT_STATE_CSI p))
      else if byte =? 0x37 then
        p ← on_surface (pure_op terminal_surface_save_cursor) p; Ret (set_state VT_STATE_GROUND p)
      else if byte =? 0x38 then
        p ← on_surface (pure_op terminal_surface_restore_cursor) p; Ret (set_state VT_STATE_GROUND p)
      else Ret (set_state VT_STATE_GROUND p)
  | VT_STATE_CSI => feed_csi byte p
  end.

Definition vt_parser_feed (data : list Z) (p : vt_parser) : outcome vt_parser := foldM feed_byte data p.
End allocation.
