(* ===== verification/VtProps.v ===== *)
(** * Escape sequences: theorems

    No input makes the parser leave its parameters or the buffers of the surface,
    a cursor position sent as an escape sequence is the position the cursor gets,
    and UTF-8 text appears on the line as it was sent. *)

From S2P Require Import Prelude Ring Utf8 Wcwidth Surface SurfaceInv SurfaceScroll SurfaceOps SurfaceProps VtParser.

(** ** The invariant *)

(** The parser is inside its array of parameters. *)
Definition parser_ok (p : vt_parser) : Prop :=
  length (params p) = Z.to_nat VT_PARSER_MAX_PARAMS ∧ 0 ≤ param_count p ≤ VT_PARSER_MAX_PARAMS ∧
  (param_active p = true → param_count p < VT_PARSER_MAX_PARAMS).

(** A surface that is safe, has its memory, and under a condition has its cursors and its
    scroll region on the screen. *)
Definition surface_if (In : Prop) (s : terminal_surface) : Prop := safe s ∧ (In → inside s) ∧ answers s = [].

(** What holds of the parser, also inside the dispatch of a sequence. *)
Definition base_if (In : Prop) (p : vt_parser) : Prop := 
  surface_if In (surface p) ∧ length (params p) = Z.to_nat VT_PARSER_MAX_PARAMS ∧ 0 ≤ param_count p ≤ VT_PARSER_MAX_PARAMS.
Definition ok_if (In : Prop) (p : vt_parser) : Prop :=
  base_if In p ∧ (param_active p = true → param_count p < VT_PARSER_MAX_PARAMS).

(** A run ends in a good state, or hangs in a tab. *)
Definition keeps (P : vt_parser → Prop) (tab : Prop) (m : outcome vt_parser) : Prop :=
  match m with Ret p => P p | Hang => tab | Fault => False end.

Lemma keeps_bind (P Q : vt_parser → Prop) tab m f :
  keeps P tab m → (∀ p, P p → keeps Q tab (f p)) → keeps Q tab (m ≫= f).
Proof. destruct m; simpl; auto. Qed.

Lemma keeps_weaken (P Q : vt_parser → Prop) (tab tab' : Prop) m :
  keeps P tab m → (∀ p, P p → Q p) → (tab → tab') → keeps Q tab' m.
Proof. destruct m; simpl; auto. Qed.

(** What an operation on the surface leaves of the parser. *)
Definition same_input (p p' : vt_parser) : Prop :=
  pen p' = pen p ∧ default_pen p' = default_pen p ∧ state p' = state p ∧ params p' = params p ∧
  param_count p' = param_count p ∧ param_active p' = param_active p ∧ private_mode p' = private_mode p ∧ decoder p' = decoder p.

(** Operations other than a change of size. *)
Definition fixed_size (op : surface_op) : Prop := match op with OpResize _ _ _ => False | _ => True end.

Section keeping.
Context (garbage : term_cell) (garbage_dirty : Z) (In : Prop).
#[local] Set Default Proof Using "garbage garbage_dirty".

Lemma good_surface_op s op :
  surface_if In s → fixed_size op →
  match run_op garbage garbage_dirty s op with Ret s' => surface_if In s' | Hang => is_tab op | Fault => False end.
Proof.
  intros (Hs & Hi & Ha) Hop. pose proof (run_op_good garbage garbage_dirty s op Hs) as Hg.
  assert (op_ok op ∧ keeps_region s op) as [H1 H2] by by destruct op.
  specialize (Hg H1 Ha). unfold good_run in Hg. destruct (run_op garbage garbage_dirty s op); [|done..].
  destruct Hg as (? & Ha' & Hi'). split_and!; auto.
Qed.

(** Operations of the surface, one after the other. *)
Definition does (f : terminal_surface → outcome terminal_surface) : Prop :=
  ∀ s, surface_if In s → match f s with Ret s' => surface_if In s' | _ => False end.

Lemma does_op op : fixed_size op → (is_tab op → False) → does (fun s => run_op garbage garbage_dirty s op).
Proof. intros H1 H2 s Hs. pose proof (good_surface_op s op Hs H1). by destruct (run_op garbage garbage_dirty s op). Qed.

Lemma does_bind f g : does f → (∀ s, surface_if In s → does (g s)) → does (fun s => s' ← f s; g s s').
Proof. intros Hf Hg s Hs. specialize (Hf s Hs). destruct (f s) as [s'| |]; [|done..]. simpl. by apply Hg. Qed.

Lemma does_clear_region l t r b fill : does (terminal_surface_clear_region l t r b fill).
Proof. by apply (does_op (OpClearRegion l t r b fill)). Qed.

Lemma on_surface_keeps (P : vt_parser → Prop) f p :
  does f → (base_if In) p → (∀ s, surface_if In s → P (set_surface s p)) → keeps P False (on_surface f p).
Proof.
  intros Hf Hp HP. unfold on_surface. specialize (Hf (surface p) (proj1 Hp)). destruct (f (surface p)) as [s'| |]; [|done..].
  simpl. auto.
Qed.

Lemma base_surface s p : surface_if In s → (base_if In) p → (base_if In) (set_surface s p).
Proof. intros Hs (_ & ? & ?). by split. Qed.

Lemma on_surface_base f p : does f → (base_if In) p → keeps (base_if In) False (on_surface f p).
Proof. intros Hf Hp. apply on_surface_keeps; [done|done|]. intros s Hs. by apply base_surface. Qed.

Lemma does_pure f : (∀ s, surface_if In s → surface_if In (f s)) → does (pure_op f).
Proof. intros Hf s Hs. by apply Hf. Qed.

Lemma pure_op_of op f s :
  (∀ s, run_op garbage garbage_dirty s op = Ret (f s)) → fixed_size op → surface_if In s → surface_if In (f s).
Proof. intros Hf Hop Hs. pose proof (good_surface_op s op Hs Hop) as H. by rewrite Hf in H. Qed.

Lemma does_set_cursor c r : does (pure_op (terminal_surface_set_cursor c r)).
Proof. apply does_pure. intros s. by apply (pure_op_of (OpSetCursor c r)). Qed.
Lemma does_move_cursor c r : does (pure_op (terminal_surface_move_cursor c r)).
Proof. apply does_pure. intros s. by apply (pure_op_of (OpMoveCursor c r)). Qed.
Lemma does_save_cursor : does (pure_op terminal_surface_save_cursor).
Proof. apply does_pure. intros s. by apply (pure_op_of OpSaveCursor). Qed.
Lemma does_restore_cursor : does (pure_op terminal_surface_restore_cursor).
Proof. apply does_pure. intros s. by apply (pure_op_of OpRestoreCursor). Qed.
Lemma does_set_region t b : does (pure_op (terminal_surface_set_scroll_region t b)).
Proof. apply does_pure. intros s. by apply (pure_op_of (OpSetScrollRegion t b)). Qed.
Lemma does_carriage_return : does (pure_op terminal_surface_carriage_return).
Proof. apply does_pure. intros s. by apply (pure_op_of OpCarriageReturn). Qed.
Lemma does_backspace : does (pure_op terminal_surface_backspace).
Proof. apply does_pure. intros s. by apply (pure_op_of OpBackspace). Qed.
Lemma does_newline fill : does (terminal_surface_newline fill).
Proof. by apply (does_op (OpNewline fill)). Qed.
Lemma does_write cp w style : does (terminal_surface_write_codepoint cp w style).
Proof. by apply (does_op (OpWrite cp w style)). Qed.
Lemma does_clear fill : does (terminal_surface_clear fill).
Proof. by apply (does_op (OpClear fill)). Qed.
Lemma does_enter fill : does (terminal_surface_enter_alternate garbage garbage_dirty fill).
Proof. by apply (does_op (OpEnterAlternate fill)). Qed.
Lemma does_leave : does terminal_surface_leave_alternate.
Proof. by apply (does_op OpLeaveAlternate). Qed.

Create HintDb vt.
Hint Resolve does_set_cursor does_move_cursor does_save_cursor does_restore_cursor does_set_region does_carriage_return
  does_backspace does_newline does_write does_clear does_enter does_leave does_clear_region on_surface_base : vt.

(** ** The parts of the parser *)

Lemma param_Ret p i fallback : (base_if In) p → ∃ x, vt_parser_param p i fallback = Ret x ∧ (0 ≤ x ∨ x = fallback).
Proof.
  intros (_ & Hl & Hc). unfold vt_parser_param, VT_PARSER_MAX_PARAMS in *. destruct (_ || _) eqn:E; [eauto|].
  destruct (lookup_lt_is_Some_2 (params p) (Z.to_nat i)) as [x Hx]; [lia|]. rewrite (load1_Ret _ _ x), bind_ret by (done || lia).
  eexists. split; [done|]. destruct (Z.ltb_spec x 0); auto.
Qed.

Lemma erase_display_keeps mode p : (base_if In) p → keeps (base_if In) False (vt_parser_erase_display mode p).
Proof.
  intros Hp. apply on_surface_base; [|done]. intros s Hs. destruct (mode =? 0); [|destruct (mode =? 1); [|destruct (mode =? 2)]].
  - apply (does_bind _ (fun _ s => if cursor_row s + 1 <? rows s then _ else _)); [auto with vt| |done].
    intros _ _ s1 Hs1. destruct (_ <? _); [by apply does_clear_region|done].
  - apply (does_bind (fun s => if 0 <? cursor_row s then _ else _) (fun _ s => _)); [|intros ? ? s1 Hs1; by apply does_clear_region|done].
    intros s1 Hs1. destruct (0 <? _); [by apply does_clear_region|done].
  - by apply does_clear.
  - done.
Qed.

Lemma erase_line_keeps mode p : (base_if In) p → keeps (base_if In) False (vt_parser_erase_line mode p).
Proof.
  intros Hp. apply on_surface_base; [|done]. intros s Hs.
  destruct (mode =? 0); [|destruct (mode =? 1); [|destruct (mode =? 2)]]; done || by apply does_clear_region.
Qed.

Lemma apply_sgr_keeps p : (base_if In) p → keeps (base_if In) False (vt_parser_apply_sgr p).
Proof.
  intros Hp. unfold vt_parser_apply_sgr. destruct (param_count p =? 0); [done|].
  destruct (for_range_inv (fun _ q => (base_if In) q) 0 (param_count p) (fun q i =>
    code ← vt_parser_param q i 0; Ret (set_pen (apply_code (default_pen q) code (pen q)) q)) p) as (q & -> & Hq); [by destruct Hp as (_ & _ & ?); lia|done| |done].
  intros i q _ Hq. destruct (param_Ret q i 0 Hq) as (x & -> & _). rewrite bind_ret. eexists. split; [done|]. done.
Qed.

Lemma private_keeps final p : (base_if In) p → keeps (base_if In) False (vt_parser_dispatch_private_csi garbage garbage_dirty final p).
Proof.
  intros Hp. unfold vt_parser_dispatch_private_csi. destruct (_ && _); [done|]. generalize (seqZ 0 (param_count p)).
  generalize (final =? 0x68). generalize (vt_parser_blank p). intros blank enter todo. induction todo as [|i todo IH]; [done|].
  cbn [private_loop]. destruct (param_Ret p i (-1) Hp) as (x & -> & _). rewrite bind_ret.
  destruct (_ && _); [done|]. destruct enter; auto with vt.
Qed.

Lemma close_params_keeps p : (base_if In) p → ∃ p', close_params p = Ret p' ∧ (base_if In) p' ∧ surface p' = surface p.
Proof.
  intros Hp. pose proof Hp as (Hs & Hl & Hc). unfold close_params, VT_PARSER_MAX_PARAMS in *.
  destruct (_ || _); [|by exists p]. destruct ((param_count p <? 8) && negb (param_active p)) eqn:E1.
  - rewrite store1_Ret, bind_ret by (rewrite Hl; lia). eexists. split; [done|]. split; [|done].
    split; [done|]. simpl. rewrite length_insert. split; [done|unfold VT_PARSER_MAX_PARAMS; lia].
  - destruct (param_active p && (param_count p <? 8)) eqn:E2; [|by exists p]. eexists. split; [done|]. split; [|done].
    split; [done|]. simpl. split; [done|unfold VT_PARSER_MAX_PARAMS; lia].
Qed.

Lemma dispatch_keeps final p : (base_if In) p → keeps (base_if In) False (vt_parser_dispatch_csi garbage garbage_dirty final p).
Proof.
  intros Hp0. unfold vt_parser_dispatch_csi. destruct (close_params_keeps p Hp0) as (p1 & -> & Hp & _). rewrite bind_ret.
  destruct (private_mode p1); [by apply private_keeps|].
  repeat match goal with
  | |- keeps _ _ (if ?b then _ else _) => destruct b
  | |- keeps _ _ (vt_parser_param ?p ?i ?f ≫= _) =>
      let x := fresh "x" in destruct (param_Ret p i f Hp) as (x & -> & _); rewrite bind_ret
  end; auto using erase_display_keeps, erase_line_keeps, apply_sgr_keeps with vt.
Qed.

Lemma ok_surface s p : surface_if In s → (ok_if In) p → (ok_if In) (set_surface s p).
Proof. intros Hs [? ?]. split; [by apply base_surface|done]. Qed.

Lemma on_surface_ok f p : does f → (ok_if In) p → keeps (ok_if In) False (on_surface f p).
Proof. intros Hf Hp. apply on_surface_keeps; [done|apply Hp|]. intros s Hs. by apply ok_surface. Qed.
Hint Resolve on_surface_ok : vt.

Lemma emit_keeps cp p : (ok_if In) p → keeps (ok_if In) False (vt_parser_emit_codepoint cp p).
Proof.
  intros Hp. unfold vt_parser_emit_codepoint. destruct (cp =? 0); [done|]. rewrite wcwidth_value, bind_ret.
  destruct (_ <? 0); [done|]. destruct (_ =? 0); [done|]. auto with vt.
Qed.

Lemma flush_keeps p : (ok_if In) p → keeps (ok_if In) False (vt_parser_flush_partial_utf8 p).
Proof. intros Hp. unfold vt_parser_flush_partial_utf8. destruct (_ =? 0); [done|]. by apply emit_keeps. Qed.

Lemma tab_keeps style p : (ok_if In) p → keeps (ok_if In) True (on_surface (terminal_surface_tab style) p).
Proof.
  intros Hp. unfold on_surface. pose proof (good_surface_op (surface p) (OpTab style) (proj1 (proj1 Hp)) I) as H.
  cbn [run_op] in H. destruct (terminal_surface_tab style (surface p)) as [s| |]; [|done..]. by apply ok_surface.
Qed.

Lemma ground_keeps byte p : (ok_if In) p → keeps (ok_if In) (byte = 0x09) (vt_parser_feed_ground byte p).
Proof.
  intros Hp. unfold vt_parser_feed_ground.
  assert (∀ f, (∀ q, (ok_if In) q → keeps (ok_if In) (byte = 0x09) (f q)) →
    keeps (ok_if In) (byte = 0x09) (vt_parser_flush_partial_utf8 p ≫= f)) as Hfl.
  { intros f Hf. apply (keeps_bind (ok_if In)); [|done]. eapply keeps_weaken; [by apply flush_keeps|done|done]. }
  assert (∀ f q, does f → (ok_if In) q → keeps (ok_if In) (byte = 0x09) (on_surface f q)) as Hon.
  { intros f q Hf Hq. eapply keeps_weaken; [by apply on_surface_ok|done|done]. }
  assert (∀ cp q, (ok_if In) q → keeps (ok_if In) (byte = 0x09) (vt_parser_emit_codepoint cp q)) as Hem.
  { intros cp q Hq. eapply keeps_weaken; [by apply emit_keeps|done|done]. }
  destruct (byte =? 0x0d); [apply Hfl; auto with vt|]. destruct (byte =? 0x0a); [apply Hfl; auto with vt|].
  destruct (byte =? 0x08); [apply Hfl; auto with vt|].
  destruct (Z.eqb_spec byte 0x09) as [->|Hne].
  { apply Hfl. intros q Hq. eapply keeps_weaken; [by apply tab_keeps|done|done]. }
  destruct (_ || _); [done|]. destruct (utf8_decode_byte (decoder p) byte) as [[r out] d] eqn:E. cbv zeta.
  assert ((ok_if In) (set_decoder d p)) as Hd by done.
  destruct (Z.ltb_spec 0 r); [destruct (decode_byte_out _ _ _ _ _ E) as [cp ->]; [done|]; by apply Hem|].
  destruct (r <? 0); [|done]. apply (keeps_bind (ok_if In)); [by apply Hem|]. intros q Hq. destruct (_ && _); [by apply Hem|done].
Qed.

Lemma reset_params_ok st p : (base_if In) p → (ok_if In) (vt_parser_reset_params (set_state st p)).
Proof. intros (Hs & _ & _). split; [|done]. by split. Qed.

Lemma csi_keeps byte p : (ok_if In) p → keeps (ok_if In) False (feed_csi garbage garbage_dirty byte p).
Proof.
  intros [Hp Hact]. pose proof Hp as (Hs & Hl & Hc). unfold feed_csi, VT_PARSER_MAX_PARAMS in *.
  destruct ((0x30 <=? byte) && (byte <=? 0x39)).
  - destruct (negb (param_active p) && (8 <=? param_count p)) eqn:E; [done|].
    assert (param_count p < 8) as Hlt by (destruct (param_active p); [by apply Hact|lia]).
    assert (∃ l, (if negb (param_active p) then store1 (params p) (param_count p) 0 else Ret (params p)) = Ret l ∧ length l = 8%nat) as (l & -> & Hll).
    { destruct (negb (param_active p)); [|by exists (params p)]. rewrite store1_Ret by (rewrite Hl; lia). eexists. split; [done|]. by rewrite length_insert. }
    rewrite bind_ret. destruct (lookup_lt_is_Some_2 l (Z.to_nat (param_count p))) as [x Hx]; [lia|].
    rewrite (load1_Ret _ _ x), bind_ret by (done || lia). rewrite store1_Ret, bind_ret by lia.
    split; [split; [done|]|]; simpl; rewrite ?length_insert; done.
  - destruct (byte =? 0x3b).
    + destruct (Z.ltb_spec (param_count p) 8); [|done].
      assert (∃ l, (if negb (param_active p) then store1 (params p) (param_count p) (-1) else Ret (params p)) = Ret l ∧ length l = 8%nat) as (l & -> & Hll).
      { destruct (negb (param_active p)); [|by exists (params p)]. rewrite store1_Ret by (rewrite Hl; lia). eexists. split; [done|]. by rewrite length_insert. }
      rewrite bind_ret. split; [split; [done|]|done]. simpl. split; [done|unfold VT_PARSER_MAX_PARAMS; lia].
    + destruct (_ && _ && _ && _); [done|]. destruct (_ && _); [|done].
      apply (keeps_bind (base_if In)); [by apply dispatch_keeps|]. intros q Hq. by apply reset_params_ok.
Qed.

Lemma feed_byte_keeps p byte : (ok_if In) p → keeps (ok_if In) (byte = 0x09) (feed_byte garbage garbage_dirty p byte).
Proof.
  intros Hp. unfold feed_byte. destruct (state p).
  - destruct (byte =? 0x1b); [|by apply ground_keeps]. apply (keeps_bind (ok_if In)); [|done].
    eapply keeps_weaken; [by apply flush_keeps|done|done].
  - destruct (byte =? 0x5b); [by apply reset_params_ok, Hp|].
    destruct (byte =? 0x37); [|destruct (byte =? 0x38); [|done]]; (apply (keeps_bind (ok_if In)); [|done]);
      (eapply keeps_weaken; [apply on_surface_ok; auto with vt|done|done]).
  - eapply keeps_weaken; [by apply csi_keeps|done|done].
Qed.

Lemma feed_keeps data p : (ok_if In) p → keeps (ok_if In) (0x09 ∈ data) (vt_parser_feed garbage garbage_dirty data p).
Proof.
  unfold vt_parser_feed. revert p. induction data as [|b data IH]; intros p Hp; [done|]. cbn [foldM].
  apply (keeps_bind (ok_if In)).
  - eapply keeps_weaken; [by apply feed_byte_keeps|done|]. intros ->. by left.
  - intros q Hq. eapply keeps_weaken; [by apply IH|done|]. by right.
Qed.

Lemma init_ok s : surface_if In s → (ok_if In) (vt_parser_init s).
Proof. intros Hs. split; [|done]. by split. Qed.

End keeping.

(** The surface has its cursors and its scroll region on the screen. *)
Definition vt_ok (p : vt_parser) : Prop := ok_if True p.

Section props.
Context (garbage : term_cell) (garbage_dirty : Z).
#[local] Set Default Proof Using "garbage garbage_dirty".

(** ** Decimal numbers in a sequence *)

(** The decimal digits of a number below [10 ^ fuel]. *)
Fixpoint dec (fuel : nat) (n : Z) : list Z :=
  match fuel with
  | O => []
  | S fuel => if n <? 10 then [0x30 + n] else dec fuel (n / 10) ++ [0x30 + n mod 10]
  end.

(** Ten digits are enough for a 32-bit integer. *)
Definition decimal (n : Z) : list Z := dec 10 n.

Lemma feed_digit p v d :
  vt_ok p → state p = VT_STATE_CSI → 0 ≤ d < 10 → param_active p = true →
  params p !! Z.to_nat (param_count p) = Some v → 0 ≤ v * 10 + d < 2 ^ 31 →
  feed_byte garbage garbage_dirty p (0x30 + d) = Ret (set_params (<[Z.to_nat (param_count p) := v * 10 + d]> (params p)) (param_count p) true p).
Proof.
  intros [(_ & Hl & Hc) Hact] Hst Hd Ha Hv Hr. unfold feed_byte. rewrite Hst. unfold feed_csi. rewrite Ha. cbn [negb andb].
  destruct ((0x30 <=? 0x30 + d) && (0x30 + d <=? 0x39)) eqn:E; [|lia]. rewrite bind_ret.
  rewrite (load1_Ret _ _ v), bind_ret by (done || lia).
  rewrite store1_Ret, bind_ret by (apply lookup_lt_Some in Hv; lia). do 4 f_equal.
  rewrite (i32_small (v * 10)) by lia. replace (0x30 + d - 0x30) with d by lia. apply i32_small. lia.
Qed.

Lemma feed_first_digit p d :
  vt_ok p → state p = VT_STATE_CSI → 0 ≤ d < 10 → param_active p = false → param_count p < VT_PARSER_MAX_PARAMS →
  feed_byte garbage garbage_dirty p (0x30 + d) = Ret (set_params (<[Z.to_nat (param_count p) := d]> (params p)) (param_count p) true p).
Proof.
  intros [(_ & Hl & Hc) _] Hst Hd Ha Hlt. unfold feed_byte. rewrite Hst. unfold feed_csi. rewrite Ha. cbn [negb andb].
  destruct ((0x30 <=? 0x30 + d) && (0x30 + d <=? 0x39)) eqn:E; [|lia]. unfold VT_PARSER_MAX_PARAMS in *.
  destruct (Z.leb_spec 8 (param_count p)); [lia|]. rewrite (store1_Ret (params p)), bind_ret by lia.
  rewrite (load1_Ret _ _ 0), bind_ret by (lia || (apply list_lookup_insert_eq; lia)).
  rewrite store1_Ret, bind_ret by (rewrite length_insert; lia). rewrite list_insert_insert_eq. do 4 f_equal.
  rewrite (i32_small (0 * 10)) by lia. rewrite i32_small; lia.
Qed.

Lemma feed_decimal fuel n p :
  vt_ok p → state p = VT_STATE_CSI → param_active p = false → param_count p < VT_PARSER_MAX_PARAMS →
  0 ≤ n < 2 ^ 31 → n < 10 ^ Z.of_nat fuel → (0 < fuel)%nat →
  vt_parser_feed garbage garbage_dirty (dec fuel n) p = Ret (set_params (<[Z.to_nat (param_count p) := n]> (params p)) (param_count p) true p).
Proof.
  intros Hp Hst Ha Hlt. revert n. induction fuel as [|fuel IH]; intros n Hn Hf Hpos; [lia|]. cbn [dec].
  destruct (Z.ltb_spec n 10).
  - unfold vt_parser_feed. cbn [foldM]. by rewrite feed_first_digit by (done || lia).
  - rewrite Nat2Z.inj_succ, Z.pow_succ_r in Hf by lia. pose proof (Z.div_mod n 10). pose proof (Z.mod_pos_bound n 10).
    destruct fuel as [|fuel]; [change (10 ^ Z.of_nat 0) with 1 in Hf; lia|].
    unfold vt_parser_feed in *. rewrite foldM_app, IH by lia. rewrite bind_ret. cbn [foldM].
    pose proof Hp as [(_ & Hl & Hc) _]. unfold VT_PARSER_MAX_PARAMS in *.
    rewrite (feed_digit _ (n / 10)).
    + rewrite bind_ret. cbn [param_count set_params params]. rewrite list_insert_insert_eq. by replace (n / 10 * 10 + n mod 10) with n by lia.
    + pose proof Hp as [(? & _ & _) _]. split; [split; [done|]|]; simpl; rewrite ?length_insert; unfold VT_PARSER_MAX_PARAMS; lia.
    + done.
    + lia.
    + done.
    + simpl. apply list_lookup_insert_eq. lia.
    + lia.
Qed.

(** ESC [ row ; col H *)
Definition cup (r c : Z) : list Z := [0x1b; 0x5b] ++ decimal r ++ [0x3b] ++ decimal c ++ [0x48].

Definition idle (p : vt_parser) : Prop := state p = VT_STATE_GROUND ∧ decoder p = utf8_decoder_init.

Lemma feed_esc p : idle p → feed_byte garbage garbage_dirty p 0x1b = Ret (set_state VT_STATE_ESCAPE p).
Proof. intros [Hst Hdec]. unfold feed_byte. rewrite Hst. simpl. unfold vt_parser_flush_partial_utf8. by rewrite Hdec. Qed.

Lemma feed_bracket p :
  state p = VT_STATE_ESCAPE → feed_byte garbage garbage_dirty p 0x5b = Ret (vt_parser_reset_params (set_state VT_STATE_CSI p)).
Proof. intros Hst. unfold feed_byte. by rewrite Hst. Qed.

Lemma feed_semicolon p :
  state p = VT_STATE_CSI → param_active p = true → param_count p < VT_PARSER_MAX_PARAMS →
  feed_byte garbage garbage_dirty p 0x3b = Ret (set_params (params p) (param_count p + 1) false p).
Proof.
  intros Hst Ha Hc. unfold feed_byte. rewrite Hst. unfold feed_csi. simpl. rewrite Ha.
  by destruct (Z.ltb_spec (param_count p) VT_PARSER_MAX_PARAMS); [|lia].
Qed.

Lemma feed_H p r c :
  state p = VT_STATE_CSI → param_active p = true → param_count p = 1 → private_mode p = false →
  params p !! 0%nat = Some r → params p !! 1%nat = Some c → 0 ≤ r → 0 ≤ c →
  feed_byte garbage garbage_dirty p 0x48 = Ret (vt_parser_reset_params (set_state VT_STATE_GROUND
    (set_surface (terminal_surface_set_cursor (c - 1) (r - 1) (surface p)) p))).
Proof.
  intros Hst Ha Hc Hpr H0 H1 Hr0 Hc0. unfold feed_byte. rewrite Hst. unfold feed_csi. simpl.
  unfold vt_parser_dispatch_csi, close_params. rewrite Ha, Hc. simpl. rewrite Hpr. unfold vt_parser_param. simpl.
  rewrite (load1_Ret _ 0 r), bind_ret by done. rewrite (load1_Ret _ 1 c), !bind_ret by done.
  destruct (Z.ltb_spec r 0); [lia|]. destruct (Z.ltb_spec c 0); [lia|]. done.
Qed.

Lemma foldM_cons {S A} (f : S → A → outcome S) x l s : foldM f (x :: l) s = (f s x ≫= foldM f l).
Proof. done. Qed.

Lemma feed_cup p r c :
  vt_ok p → idle p → 0 ≤ r < 2 ^ 31 → 0 ≤ c < 2 ^ 31 →
  vt_parser_feed garbage garbage_dirty (cup r c) p =
    Ret (vt_parser_reset_params (set_surface (terminal_surface_set_cursor (c - 1) (r - 1) (surface p)) p)).
Proof.
  intros Hp Hidle Hr Hc. unfold cup, vt_parser_feed. cbn [app]. rewrite foldM_cons, feed_esc, bind_ret by done.
  rewrite foldM_cons, feed_bracket, bind_ret by done. set (p1 := vt_parser_reset_params _).
  assert (vt_ok p1) as Hp1 by by apply reset_params_ok, Hp. rewrite foldM_app.
  pose proof (feed_decimal 10 r p1 Hp1 eq_refl eq_refl ltac:(done) Hr ltac:(lia) ltac:(lia)) as E1. unfold vt_parser_feed in E1.
  change (decimal r) with (dec 10 r). rewrite E1, bind_ret. clear E1. rewrite foldM_cons, feed_semicolon, bind_ret by done.
  cbn [params set_params]. set (l1 := <[_ := r]> _). set (p2 := set_params l1 _ false _).
  assert (length l1 = 8%nat) as Hl1 by (unfold l1; rewrite length_insert; apply Hp1).
  assert (l1 !! 0%nat = Some r) as H0 by (unfold l1; apply list_lookup_insert_eq; pose proof Hp1 as [(_ & E & _) _]; rewrite E; by apply Nat.ltb_lt).
  assert (vt_ok p2) as Hp2 by (pose proof Hp1 as [(Hs1 & _ & _) _]; split; [|done]; by split).
  rewrite foldM_app. pose proof (feed_decimal 10 c p2 Hp2 eq_refl eq_refl ltac:(done) Hc ltac:(lia) ltac:(lia)) as E2. unfold vt_parser_feed in E2.
  change (decimal c) with (dec 10 c). rewrite E2, bind_ret. rewrite foldM_cons. rewrite (feed_H _ r c); [|done|done|done|done|done| |lia|lia].
  - rewrite bind_ret. cbn [foldM]. destruct Hidle as [Hst _]. unfold vt_parser_reset_params, set_private, set_params, set_state, set_surface.
    simpl. by rewrite <-Hst.
  - done.
Qed.

(** ** UTF-8 text *)

Lemma feed_text_byte p b :
  state p = VT_STATE_GROUND → 0x20 ≤ b → b ≠ 0x7f →
  feed_byte garbage garbage_dirty p b =
    match utf8_decode_byte (decoder p) b with
    | (decoded, out, d) =>
        if 0 <? decoded then cp ← or_fault out; vt_parser_emit_codepoint cp (set_decoder d p)
        else if decoded <? 0 then
          p ← vt_parser_emit_codepoint UTF8_REPLACEMENT_CHAR (set_decoder d p);
          if (0x20 <=? b) && (b <? 0x80) then vt_parser_emit_codepoint b p else Ret p
        else Ret (set_decoder d p)
    end.
Proof.
  intros Hst Hb Hn. unfold feed_byte, vt_parser_feed_ground. rewrite Hst.
  destruct (Z.eqb_spec b 0x1b); [lia|]. destruct (Z.eqb_spec b 0x0d); [lia|]. destruct (Z.eqb_spec b 0x0a); [lia|].
  destruct (Z.eqb_spec b 0x08); [lia|]. destruct (Z.eqb_spec b 0x09); [lia|].
  destruct ((b <? 0x20) || (b =? 0x7f)) eqn:E; [lia|]. done.
Qed.

(** A byte in the middle of a character only changes the decoder. *)
Lemma feed_partial p b d :
  state p = VT_STATE_GROUND → 0x80 ≤ b → utf8_decode_byte (decoder p) b = (0, None, d) →
  feed_byte garbage garbage_dirty p b = Ret (set_decoder d p).
Proof. intros Hst Hb Hd. rewrite feed_text_byte by (done || lia). by rewrite Hd. Qed.

Lemma feed_complete p b cp :
  state p = VT_STATE_GROUND → 0x20 ≤ b → b ≠ 0x7f → utf8_decode_byte (decoder p) b = (1, Some cp, utf8_decoder_init) →
  feed_byte garbage garbage_dirty p b = vt_parser_emit_codepoint cp (set_decoder utf8_decoder_init p).
Proof. intros Hst Hb Hn Hd. rewrite feed_text_byte by done. by rewrite Hd. Qed.

Lemma set_decoder_idle p : idle p → set_decoder utf8_decoder_init p = p.
Proof. intros [_ Hd]. destruct p. simpl in *. by subst. Qed.

Lemma set_decoder_set p d d' : set_decoder d (set_decoder d' p) = set_decoder d p.
Proof. done. Qed.

(** The bytes of a code point are the code point. *)
Lemma feed_encoded p cp :
  idle p → 0x20 ≤ cp → cp ≠ 0x7f → utf8_is_valid_codepoint cp = true →
  vt_parser_feed garbage garbage_dirty (utf8_encode cp) p = vt_parser_emit_codepoint cp p.
Proof.
  intros Hidle Hcp Hn Hv. pose proof Hidle as [Hst Hd]. rewrite utf8_encode_enc by (done || lia).
  pose proof (valid_range cp ltac:(lia) Hv). div_facts cp. unfold enc, vt_parser_feed.
  assert (∀ m : outcome vt_parser, (m ≫= foldM (feed_byte garbage garbage_dirty) []) = m) as Hend by by intros [].
  destruct (Z.ltb_spec cp 0x80); [|destruct (Z.ltb_spec cp 0x800); [|destruct (Z.ltb_spec cp 0x10000)]]; rewrite foldM_cons.
  - rewrite Hend, (feed_complete p cp cp), set_decoder_idle; try done. rewrite Hd, decode_lead by (unfold is_byte; lia).
    destruct (Z.ltb_spec cp 0x80); [done|lia].
  - rewrite (feed_partial p _ (Decoder (cp / 64) 0x80 2 1)), bind_ret; [|done|lia|].
    2:{ rewrite Hd, decode_lead by (unfold is_byte; lia). zcases; try lia. do 3 f_equal. lia. }
    rewrite foldM_cons, Hend, (feed_complete _ _ cp), set_decoder_set, set_decoder_idle; [done|done|done|lia|lia|].
    cbn [decoder set_decoder]. rewrite decode_cont by (unfold is_byte; lia). destruct (_ && _) eqn:E; [|lia]. cbv zeta.
    replace (cp / 64 * 64 + (0x80 + cp mod 64 - 0x80)) with cp by lia. zcases; try lia. by rewrite Hv.
  - rewrite (feed_partial p _ (Decoder (cp / 4096) 0x800 3 1)), bind_ret; [|done|lia|].
    2:{ rewrite Hd, decode_lead by (unfold is_byte; lia). zcases; try lia. do 3 f_equal. lia. }
    rewrite foldM_cons, (feed_partial _ _ (Decoder (cp / 64) 0x800 3 2)), bind_ret; [|done|lia|].
    2:{ cbn [decoder set_decoder]. rewrite decode_cont by (unfold is_byte; lia). destruct (_ && _) eqn:E; [|lia]. cbv zeta. simpl. do 3 f_equal. lia. }
    rewrite foldM_cons, Hend, (feed_complete _ _ cp), !set_decoder_set, set_decoder_idle; [done|done|done|lia|lia|].
    cbn [decoder set_decoder]. rewrite decode_cont by (unfold is_byte; lia). destruct (_ && _) eqn:E; [|lia]. cbv zeta.
    replace (cp / 64 * 64 + (0x80 + cp mod 64 - 0x80)) with cp by lia. zcases; try lia. by rewrite Hv.
  - rewrite (feed_partial p _ (Decoder (cp / 262144) 0x10000 4 1)), bind_ret; [|done|lia|].
    2:{ rewrite Hd, decode_lead by (unfold is_byte; lia). zcases; try lia. do 3 f_equal. lia. }
    rewrite foldM_cons, (feed_partial _ _ (Decoder (cp / 4096) 0x10000 4 2)), bind_ret; [|done|lia|].
    2:{ cbn [decoder set_decoder]. rewrite decode_cont by (unfold is_byte; lia). destruct (_ && _) eqn:E; [|lia]. cbv zeta. simpl. do 3 f_equal. lia. }
    rewrite foldM_cons, (feed_partial _ _ (Decoder (cp / 64) 0x10000 4 3)), bind_ret; [|done|lia|].
    2:{ cbn [decoder set_decoder]. rewrite decode_cont by (unfold is_byte; lia). destruct (_ && _) eqn:E; [|lia]. cbv zeta. simpl. do 3 f_equal. lia. }
    rewrite foldM_cons, Hend, (feed_complete _ _ cp), !set_decoder_set, set_decoder_idle; [done|done|done|lia|lia|].
    cbn [decoder set_decoder]. rewrite decode_cont by (unfold is_byte; lia). destruct (_ && _) eqn:E; [|lia]. cbv zeta.
    replace (cp / 64 * 64 + (0x80 + cp mod 64 - 0x80)) with cp by lia. zcases; try lia. by rewrite Hv.
Qed.

(** The cell of a character of one column, drawn with the pen. *)
Definition drawn (p : vt_parser) (cp : Z) : term_cell :=
  Cell cp (fg (pen p)) (bg (pen p)) (Z.land (attr (pen p)) 0xfb) 1.

(** Not a half of a wide character. *)
Definition narrow (x : term_cell) : Prop := Z.land (attr x) TERM_ATTR_CONTINUATION = 0 ∧ width x ≤ 1.

Lemma drawn_attr a : Z.land (Z.land a 0xfb) TERM_ATTR_CONTINUATION = 0.
Proof. by rewrite <-Z.land_assoc, (Z.land_0_r a : Z.land a (Z.land 0xfb TERM_ATTR_CONTINUATION) = 0). Qed.

Lemma drawn_narrow p cp : narrow (drawn p cp).
Proof. split; [apply drawn_attr|done]. Qed.

Lemma stored_drawn p cp : cp ≠ 0 → stored_cell (Some (glyph cp 1 (Some (pen p)))) = drawn p cp.
Proof.
  intros Hcp. unfold stored_cell, glyph, drawn, terminal_surface_blank_cell. cbn [from_option id fg bg attr width ch].
  unfold id. cbn [fg bg attr width ch]. rewrite drawn_attr. destruct (Z.eqb_spec cp 0); [done|].
  cbn [Z.eqb negb ch width fg bg attr]. cbn [Z.eqb negb ch width fg bg attr]. destruct (Z.eqb_spec cp 0); done.
Qed.

(** The cursor after [n] characters of one column. *)
Definition cursor_after (s : terminal_surface) (n : Z) : cursor :=
  if decide (n = 0) then cur s
  else if decide (cursor_col s + n < cols s) then Cursor (cursor_col s + n) (cursor_row s) false
  else Cursor (cols s - 1) (cursor_row s) true.

(** One printable character of one column. *)
Lemma emit_narrow p cp old :
  vt_ok p → wrap_pending (surface p) = false → 0 < cp → unicode_wcwidth cp = Ret 1 →
  at_pos (surface p) (view (surface p)) (cursor_col (surface p)) (cursor_row (surface p)) = Some old → narrow old →
  ∃ b, vt_parser_emit_codepoint cp p = Ret (set_surface (set_cur (cursor_after (surface p) 1) (draw b (surface p))) p) ∧
    buf_ok (grid (surface p)) b ∧
    b_cells b = <[Z.to_nat (cursor_row (surface p) * cols (surface p) + cursor_col (surface p)) := drawn p cp]> (b_cells (view (surface p))).
Proof.
  intros [[(Hsafe & Hin & _) _] _] Hw Hcp Hwidth Hold [Hn1 Hn2]. unfold vt_parser_emit_codepoint.
  destruct (Z.eqb_spec cp 0); [lia|]. rewrite Hwidth, bind_ret. change (1 <? 0) with false. change (1 =? 0) with false. cbv iota.
  destruct (write_narrow (surface p) cp (Some (pen p)) Hsafe Hw) as (b & Hrun & Hb & Hcells).
  exists b. unfold on_surface. rewrite Hrun, bind_ret. split; [|split; [done|]].
  - unfold advance, cursor_after. rewrite decide_False by done. case_decide; destruct (Z.leb_spec (cols (surface p) - 1) (cursor_col (surface p))); done || lia.
  - rewrite Hcells by apply (in_cur _ (Hin I)). unfold put_cells. cbv zeta. unfold at_pos in Hold. rewrite Hold, Hn1.
    change (negb (0 =? 0)) with false. cbn [andb]. cbv iota. destruct (Z.ltb_spec 1 (width old)); [lia|]. cbn [andb]. cbv iota.
    by rewrite stored_drawn by lia.
Qed.

Definition plain (cp : Z) : Prop := 0x20 ≤ cp ∧ utf8_is_valid_codepoint cp = true ∧ unicode_wcwidth cp = Ret 1.

Lemma plain_not_delete cp : plain cp → cp ≠ 0x7f.
Proof. intros (_ & _ & Hw) ->. rewrite wcwidth_value in Hw. vm_compute in Hw. congruence. Qed.

(** The invariants of the surface after a cell has been drawn. *)
Lemma drawn_ok p b c :
  vt_ok p → buf_ok (grid (surface p)) b → cursor_in (surface p) c → vt_ok (set_surface (set_cur c (draw b (surface p))) p).
Proof.
  intros Hok Hb Hc. pose proof Hok as [[(Hsafe & Hin & Ha) _] _]. apply (ok_surface garbage garbage_dirty True); [|done].
  pose proof (draw_safe b _ (safe_shape _ Hsafe) Hb) as Hs'.
  destruct (good_draw (surface p) b True Hsafe Hb) as (_ & Ha' & Hi').
  destruct (good_cur (draw b (surface p)) c True Hs') as (H1 & H2 & H3).
  { intros _. unfold cursor_in in *. by rewrite draw_cols, draw_rows. }
  split; [done|]. split; [intros _; apply H3, Hi'; auto|]. by apply H2, Ha'.
Qed.

(** The bytes of one character of one column. *)
Lemma feed_plain p cp :
  vt_ok p → idle p → wrap_pending (surface p) = false → plain cp →
  (∀ old, at_pos (surface p) (view (surface p)) (cursor_col (surface p)) (cursor_row (surface p)) = Some old → narrow old) →
  ∃ p1, vt_parser_feed garbage garbage_dirty (utf8_encode cp) p = Ret p1 ∧ vt_ok p1 ∧ idle p1 ∧ pen p1 = pen p ∧
    cols (surface p1) = cols (surface p) ∧ rows (surface p1) = rows (surface p) ∧
    cur (surface p1) = cursor_after (surface p) 1 ∧
    ∀ c r, on_screen (surface p) c r → at_pos (surface p) (view (surface p1)) c r =
      if decide (c = cursor_col (surface p) ∧ r = cursor_row (surface p)) then Some (drawn p cp)
      else at_pos (surface p) (view (surface p)) c r.
Proof.
  intros Hok Hidle Hw Hp Hnarrow. pose proof Hok as [[(Hsafe & Hin & _) _] _]. pose proof (safe_shape _ Hsafe) as Hs.
  set (s := surface p) in *. set (c0 := cursor_col s) in *. set (r0 := cursor_row s) in *.
  assert (on_screen s c0 r0) as Ho by apply (in_cur _ (Hin I)).
  pose proof (on_screen_index s c0 r0 Hs Ho) as Hi. destruct (view_ok Hs) as [Hlen _].
  destruct (lookup_lt_is_Some_2 (b_cells (view s)) (Z.to_nat (r0 * cols s + c0))) as [old Hold]; [lia|].
  destruct (emit_narrow p cp old Hok Hw ltac:(destruct Hp; lia) ltac:(apply Hp) Hold (Hnarrow old Hold)) as (b & Hrun & Hb & Hcells).
  rewrite feed_encoded by (done || apply Hp || by apply plain_not_delete).
  eexists. split; [exact Hrun|]. fold s c0 r0 in Hb, Hcells |- *. split.
  { apply drawn_ok; [done..|]. unfold cursor_after, cursor_in. unfold on_screen in Ho. fold s c0 r0.
    rewrite decide_False by done. case_decide; simpl; lia. }
  split_and!; try (done || apply Hidle || apply (draw_cols b s) || apply (draw_rows b s)).
  intros c r Hcr. change (view (surface (set_surface (set_cur (cursor_after s 1) (draw b s)) p))) with (view (draw b s)).
  rewrite draw_view by done. unfold at_pos. rewrite Hcells. case_decide as Hd.
  - destruct Hd as [-> ->]. apply list_lookup_insert_eq. lia.
  - apply list_lookup_insert_ne. intros E. pose proof (on_screen_index s c r Hs Hcr). destruct Ho, Hcr.
    destruct (index_inj (cols s) c r c0 r0) as [-> ->]; [lia..|]; naive_solver.
Qed.

(** The cursor after the first of several characters. *)
Lemma cursor_after_next s s1 n :
  cols s1 = cols s → cur s1 = cursor_after s 1 → 0 < n → cursor_col s + 1 + n ≤ cols s →
  cursor_col s1 = cursor_col s + 1 ∧ cursor_row s1 = cursor_row s ∧ wrap_pending s1 = false ∧ cursor_after s1 n = cursor_after s (1 + n).
Proof.
  intros Hc Hcur Hn Hfit. unfold cursor_after in Hcur. rewrite decide_False, decide_True in Hcur by lia.
  assert (cursor_col s1 = cursor_col s + 1) as Ecol by (unfold cursor_col at 1; by rewrite Hcur).
  assert (cursor_row s1 = cursor_row s) as Erow by (unfold cursor_row at 1; by rewrite Hcur).
  split_and!; [done..|by unfold wrap_pending; rewrite Hcur|].
  unfold cursor_after. rewrite !(decide_False (P := _ = 0)) by lia. rewrite Ecol, Erow, Hc, Z.add_assoc. done.
Qed.

Lemma encoded_text text p :
  vt_ok p → idle p → (text ≠ [] → wrap_pending (surface p) = false) → Forall plain text →
  cursor_col (surface p) + Z.of_nat (length text) ≤ cols (surface p) →
  (∀ c old, cursor_col (surface p) ≤ c < cursor_col (surface p) + Z.of_nat (length text) →
     at_pos (surface p) (view (surface p)) c (cursor_row (surface p)) = Some old → narrow old) →
  ∃ p', vt_parser_feed garbage garbage_dirty (concat (utf8_encode <$> text)) p = Ret p' ∧ vt_ok p' ∧ idle p' ∧ pen p' = pen p ∧
    cur (surface p') = cursor_after (surface p) (Z.of_nat (length text)) ∧
    ∀ c r, on_screen (surface p) c r → at_pos (surface p) (view (surface p')) c r =
      if decide (r = cursor_row (surface p) ∧ cursor_col (surface p) ≤ c < cursor_col (surface p) + Z.of_nat (length text))
      then drawn p <$> text !! Z.to_nat (c - cursor_col (surface p))
      else at_pos (surface p) (view (surface p)) c r.
Proof.
  revert p. induction text as [|cp text IH]; intros p Hok Hidle Hw Hplain Hfit Hnarrow.
  { exists p. split_and!; try (done || apply Hok || apply Hidle).
    intros c r _. rewrite decide_False; [done|simpl; lia]. }
  apply Forall_cons in Hplain as [Hp Hplain]. specialize (Hw ltac:(done)). simpl length in *.
  destruct (feed_plain p cp Hok Hidle Hw Hp) as (p1 & Hrun & Hok1 & Hidle1 & Hpen1 & Hc1 & Hr1 & Hcur1 & Hat1).
  { intros old. apply Hnarrow. lia. }
  simpl fmap. simpl concat. unfold vt_parser_feed in *. rewrite foldM_app, Hrun, bind_ret.
  destruct (decide (text = [])) as [->|Hne].
  { exists p1. split_and!; try (done || apply Hok1 || apply Hidle1). intros c r Hcr. rewrite Hat1 by done. simpl.
    case_decide as Hd.
    - destruct Hd as [-> ->]. rewrite decide_True by lia. by replace (Z.to_nat (_ - _)) with 0%nat by lia.
    - by rewrite decide_False by lia. }
  assert (0 < Z.of_nat (length text)) as Hl by (destruct text; simpl; [done|lia]).
  destruct (cursor_after_next _ _ (Z.of_nat (length text)) Hc1 Hcur1 Hl) as (Ecol & Erow & Ew & Eafter); [lia|].
  assert (∀ b c r, at_pos (surface p1) b c r = at_pos (surface p) b c r) as Hpos by (intros; unfold at_pos; by rewrite Hc1).
  destruct (IH p1) as (p2 & Hrun2 & Hok2 & Hidle2 & Hpen2 & Hcur2 & Hat2); [done..|rewrite Ecol, Hc1; lia| |].
  { intros c old Hc. rewrite Hpos. destruct (decide (on_screen (surface p) c (cursor_row (surface p1)))) as [Hos|Hos].
    - rewrite Hat1 by done. rewrite decide_False by lia. rewrite Erow. apply Hnarrow. lia.
    - destruct Hos. pose proof Hok1 as [[(_ & HI1 & _) _] _]. destruct (HI1 I) as [[? ?] _ _ _ _]. fold (cursor_row (surface p1)) (cursor_col (surface p1)) in *.
      split; [|rewrite <-Hr1; done]. lia. }
  exists p2. split_and!; try (done || apply Hok2 || apply Hidle2); [congruence|rewrite Hcur2, Eafter; f_equal; lia|].
  intros c r Hcr. rewrite <-Hpos, Hat2 by (unfold on_screen in *; by rewrite Hc1, Hr1).
  rewrite Hpos, Hat1, Ecol, Erow by done.
  assert (drawn p1 = drawn p) as -> by (unfold drawn; by rewrite Hpen1).
  destruct (decide (r = _ ∧ _)) as [Hd|Hd].
  - rewrite decide_True by lia. by replace (Z.to_nat (c - cursor_col (surface p))) with (S (Z.to_nat (c - (cursor_col (surface p) + 1)))) by lia.
  - case_decide as Hd2.
    + destruct Hd2 as [-> ->]. rewrite decide_True by lia. by replace (Z.to_nat (_ - _)) with 0%nat by lia.
    + by rewrite decide_False by lia.
Qed.

(** ** Theorems *)

(** C22: on a surface in order, with memory for the second screen, whatever bytes the parser
    gets in whatever state it is, it stays inside its array of parameters and inside the
    buffers of the surface, and the surface is in order afterwards; when the cursors and
    the scroll region were on the screen they still are.  It does not end only when the
    bytes have a tab. *)
Theorem vt_feed_safe p data :
  parser_ok p → safe (surface p) → answers (surface p) = [] →
  match vt_parser_feed garbage garbage_dirty data p with
  | Ret p' => parser_ok p' ∧ safe (surface p') ∧ answers (surface p') = [] ∧ (inside (surface p) → inside (surface p'))
  | Hang => 0x09 ∈ data
  | Fault => False
  end.
Proof.
  intros (H1 & H2 & H3) Hs Ha.
  assert (ok_if (inside (surface p)) p) as Hok by by split_and!.
  pose proof (feed_keeps garbage garbage_dirty (inside (surface p)) data p Hok) as H. unfold keeps in H.
  destruct (vt_parser_feed _ _ _ _) as [p'| |]; [|done..]. destruct H as [[(? & ? & ?) [? ?]] ?]. by split_and!.
Qed.

(** The escape sequence ESC [ row ; column H, with the numbers in decimal, puts
    the cursor at this position and leaves the cells, the pen and the state of the
    parser as they were. *)
Theorem vt_cursor_position p r c :
  vt_ok p → idle p → 1 ≤ c ≤ cols (surface p) → 1 ≤ r ≤ rows (surface p) →
  ∃ p', vt_parser_feed garbage garbage_dirty (cup r c) p = Ret p' ∧ vt_ok p' ∧ idle p' ∧ pen p' = pen p ∧
    cur (surface p') = Cursor (c - 1) (r - 1) false ∧ view (surface p') = view (surface p).
Proof.
  intros Hok Hidle Hc Hr. pose proof Hok as [[(Hsafe & _) _] _].
  destruct (sh_size _ (safe_shape _ Hsafe)) as (? & ? & Hm). unfold SIZEOF_CELL, U32 in Hm.
  pose proof (feed_keeps garbage garbage_dirty True (cup r c) p Hok) as Hk. rewrite (feed_cup p r c) in * by (done || nia). eexists. split; [done|].
  split; [exact Hk|]. split; [destruct Hidle; split; done|]. split; [done|].
  change (surface (vt_parser_reset_params (set_surface ?s p))) with s.
  unfold terminal_surface_set_cursor. destruct ((cols (surface p) <=? 0) || (rows (surface p) <=? 0)) eqn:E; [lia|].
  split; [|done]. cbn [set_cur cur]. by rewrite !clamp_id by lia.
Qed.

(** C23: with the cursor and the scroll region on the screen, an idle parser and no pending
    wrap, UTF-8 text of characters of one column that fits on the rest of the line,
    over cells that are not halves of wide characters, appears there character by
    character in the colours of the pen.  All other cells keep their contents, the
    cursor is behind the text, or on the last column with a pending wrap. *)
Theorem vt_text_written p text :
  vt_ok p → idle p → wrap_pending (surface p) = false → Forall plain text →
  cursor_col (surface p) + Z.of_nat (length text) ≤ cols (surface p) →
  (∀ c old, cursor_col (surface p) ≤ c < cursor_col (surface p) + Z.of_nat (length text) →
     at_pos (surface p) (view (surface p)) c (cursor_row (surface p)) = Some old → narrow old) →
  ∃ p', vt_parser_feed garbage garbage_dirty (concat (utf8_encode <$> text)) p = Ret p' ∧ vt_ok p' ∧ idle p' ∧ pen p' = pen p ∧
    cur (surface p') = cursor_after (surface p) (Z.of_nat (length text)) ∧
    ∀ c r, on_screen (surface p) c r → at_pos (surface p) (view (surface p')) c r =
      if decide (r = cursor_row (surface p) ∧ cursor_col (surface p) ≤ c < cursor_col (surface p) + Z.of_nat (length text))
      then drawn p <$> text !! Z.to_nat (c - cursor_col (surface p))
      else at_pos (surface p) (view (surface p)) c r.
Proof. intros Hok Hidle Hw Hp Hfit Hnarrow. by apply encoded_text. Qed.
End props.

(** ** Runs *)

#[local] Opaque new_surface.

Lemma vt_feed_safe_witness :
  match vt_parser_feed default_blank 0 [0x1b; 0x5b; 0x33; 0x31; 0x6d; 0x41; 0xe3; 0x42] (vt_parser_init (new_surface 80 25)) with
  | Ret p => safe (surface p) ∧ inside (surface p)
  | Hang | Fault => False
  end.
Proof.
  destruct (new_surface_good 80 25) as (Hs & Hin & _ & _ & _ & _ & Ha & _); [vm_compute; split_and!; congruence|].
  revert Hs Hin Ha. generalize (new_surface 80 25). intros s Hs Hin Ha.
  assert (parser_ok (vt_parser_init s)) as Hp by (split; [reflexivity|]; split; [by vm_compute|discriminate]).
  pose proof (vt_feed_safe default_blank 0 (vt_parser_init s) [0x1b; 0x5b; 0x33; 0x31; 0x6d; 0x41; 0xe3; 0x42] Hp Hs Ha) as H.
  destruct (vt_parser_feed _ _ _ _) as [p| |]; [|by rewrite !elem_of_cons, elem_of_nil in H; lia|exact H].
  destruct H as (_ & H1 & _ & H2). split; [exact H1|exact (H2 Hin)].
Defined.

Lemma vt_cursor_position_witness :
  ∃ p', vt_parser_feed default_blank 0 [0x1b; 0x5b; 0x31; 0x32; 0x3b; 0x38; 0x30; 0x48] (vt_parser_init (new_surface 80 25)) = Ret p' ∧
    cur (surface p') = Cursor 79 11 false.
Proof.
  destruct (new_surface_good 80 25) as (Hs & Hin & Hc & Hr & _ & _ & Ha & _); [vm_compute; split_and!; congruence|].
  revert Hs Hin Hc Hr Ha. generalize (new_surface 80 25). intros s Hs Hin Hc Hr Ha.
  destruct (vt_cursor_position default_blank 0 (vt_parser_init s) 12 80) as (p' & Hrun & _ & _ & _ & Hcur & _).
  - apply (init_ok default_blank 0 True). split; [exact Hs|]. split; [intros _; exact Hin|exact Ha].
  - split; reflexivity.
  - change (surface (vt_parser_init s)) with s. lia.
  - change (surface (vt_parser_init s)) with s. lia.
  - exists p'. split; [exact Hrun|exact Hcur].
Defined.

(** A blank screen of 4 columns and 2 rows. *)
Lemma small_surface_narrow : Forall narrow (b_cells (view (new_surface 4 2))).
Proof.
  assert (forallb (fun x => (Z.land (attr x) TERM_ATTR_CONTINUATION =? 0) && (width x <=? 1)) (b_cells (view (new_surface 4 2))) = true) as H
    by (vm_compute; reflexivity).
  apply Forall_forall. intros x Hx. rewrite forallb_forall in H. specialize (H x (proj1 (list_elem_of_In _ _) Hx)). split; lia.
Qed.

Lemma vt_text_written_witness :
  ∃ p', vt_parser_feed default_blank 0 [0x41; 0xc3; 0xa9] (vt_parser_init (new_surface 4 2)) = Ret p' ∧
    cur (surface p') = Cursor 2 0 false ∧
    b_cells (view (surface p')) !! 1%nat = Some (drawn (vt_parser_init (new_surface 4 2)) 0xe9).
Proof.
  destruct (new_surface_good 4 2) as (Hs & Hin & Hc & Hr & Hcur & _ & Ha & _); [vm_compute; split_and!; congruence|].
  pose proof small_surface_narrow as Hn.
  revert Hs Hin Hc Hr Hcur Ha Hn. generalize (new_surface 4 2). intros s Hs Hin Hc Hr Hcur Ha Hn.
  assert (cursor_col s = 0 ∧ cursor_row s = 0) as [E1 E2] by (unfold cursor_col, cursor_row; rewrite Hcur; split; reflexivity).
  destruct (vt_text_written default_blank 0 (vt_parser_init s) [0x41; 0xe9]) as (p' & Hrun & _ & _ & _ & Hcur' & Hat).
  - apply (init_ok default_blank 0 True). split; [exact Hs|]. split; [intros _; exact Hin|exact Ha].
  - split; reflexivity.
  - change (surface (vt_parser_init s)) with s. unfold wrap_pending. rewrite Hcur. reflexivity.
  - repeat constructor; vm_compute; congruence.
  - change (surface (vt_parser_init s)) with s. rewrite E1, Hc. vm_compute. congruence.
  - intros c old _ Hold. exact (Forall_lookup_1 _ _ _ _ Hn Hold).
  - exists p'. split; [exact Hrun|]. change (surface (vt_parser_init s)) with s in *. split.
    + rewrite Hcur'. unfold cursor_after. rewrite E1, E2, Hc. reflexivity.
    + specialize (Hat 1 0). unfold at_pos, on_screen in Hat. rewrite Hc, Hr, E1, E2 in Hat. apply Hat. lia.
Defined.
