(* ===== verification/KString.v ===== *)
(** * Strings in the kernel: model of src/lib/string.c

    A pointer into an array is the array and an offset; reading or writing outside
    the array faults.  Bytes are numbers from 0 to 255.  The loops over a string
    run over the rest of the array, so they need no fuel. *)

From Stdlib Require Import String Ascii.
From S2P Require Import Prelude Ring.

(** ** Model *)

(** [for] loops over an increasing and a decreasing index. *)
Definition memmove (mem : list Z) (dst src n : Z) : outcome (list Z) :=
  if (dst =? src) || (n =? 0) then Ret mem
  else if dst <? src then
    foldM (fun mem i => b ← load1 mem (src + i); store1 mem (dst + i) b) (seqZ 0 n) mem
  else
    foldM (fun mem i => b ← load1 mem (src + i - 1); store1 mem (dst + i - 1) b) (reverse (seqZ 1 n)) mem.

(** The part of an array behind a pointer. *)
Definition behind (mem : list Z) (off : Z) : outcome (list Z) :=
  if (0 <=? off) && (off <=? Z.of_nat (length mem)) then Ret (drop (Z.to_nat off) mem) else Fault.

Fixpoint strlen_loop (s : list Z) (len : Z) : outcome Z :=
  match s with
  | [] => Fault
  | c :: s => if c =? 0 then Ret len else strlen_loop s (u32 (len + 1))
  end.
Definition strlen (mem : list Z) (off : Z) : outcome Z := s ← behind mem off; strlen_loop s 0.

Fixpoint strcmp_loop (s1 s2 : list Z) : outcome Z :=
  match s1, s2 with
  | c1 :: s1, c2 :: s2 => if negb (c1 =? 0) && (c1 =? c2) then strcmp_loop s1 s2 else Ret (c1 - c2)
  | _, _ => Fault
  end.
Definition strcmp (m1 : list Z) (o1 : Z) (m2 : list Z) (o2 : Z) : outcome Z :=
  s1 ← behind m1 o1; s2 ← behind m2 o2; strcmp_loop s1 s2.

(** [n] counts down from its first value. *)
Fixpoint strncmp_loop (s1 s2 : list Z) (n : nat) {struct n} : outcome Z :=
  match n with
  | O => Ret 0
  | S n =>
      match s1, s2 with
      | c1 :: s1, c2 :: s2 => if negb (c1 =? 0) && (c1 =? c2) then strncmp_loop s1 s2 n else Ret (c1 - c2)
      | _, _ => Fault
      end
  end.
Definition strncmp (m1 : list Z) (o1 : Z) (m2 : list Z) (o2 n : Z) : outcome Z :=
  s1 ← behind m1 o1; s2 ← behind m2 o2; strncmp_loop s1 s2 (Z.to_nat n).

Fixpoint strcpy_loop (dest : list Z) (o : Z) (s : list Z) : outcome (list Z) :=
  match s with
  | [] => Fault
  | c :: s => dest ← store1 dest o c; if c =? 0 then Ret dest else strcpy_loop dest (o + 1) s
  end.
Definition strcpy (dest : list Z) (o : Z) (mem : list Z) (off : Z) : outcome (list Z) :=
  s ← behind mem off; strcpy_loop dest o s.

(** The first loop of [strncpy]: the array, the position in it and what is left of
    the count. *)
Fixpoint strncpy_loop (dest : list Z) (o : Z) (s : list Z) (n : nat) {struct n} : outcome (list Z * Z * nat) :=
  match n with
  | O => Ret (dest, o, O)
  | S n' =>
      match s with
      | [] => Fault
      | c :: s =>
          dest ← store1 dest o c;
          if c =? 0 then Ret (dest, o + 1, n) else strncpy_loop dest (o + 1) s n'
      end
  end.
Definition strncpy (dest : list Z) (o : Z) (mem : list Z) (off n : Z) : outcome (list Z) :=
  s ← behind mem off;
  '(dest, o, n) ← strncpy_loop dest o s (Z.to_nat n);
  foldM (fun dest i => store1 dest i 0) (seqZ o (Z.of_nat n)) dest.

(** The offset of the character, or [None] for NULL; [c] is converted to [char]. *)
Definition char_of (c : Z) : Z := c mod 256.

Fixpoint strchr_loop (s : list Z) (off c : Z) : outcome (option Z) :=
  match s with
  | [] => Fault
  | x :: s =>
      if x =? 0 then Ret (if c =? 0 then Some off else None)
      else if x =? char_of c then Ret (Some off) else strchr_loop s (off + 1) c
  end.
Definition strchr (mem : list Z) (off c : Z) : outcome (option Z) := s ← behind mem off; strchr_loop s off c.

Fixpoint strrchr_loop (s : list Z) (off c : Z) (last : option Z) : outcome (option Z) :=
  match s with
  | [] => Fault
  | x :: s =>
      if x =? 0 then Ret (if c =? 0 then Some off else last)
      else strrchr_loop s (off + 1) c (if x =? char_of c then Some off else last)
  end.
Definition strrchr (mem : list Z) (off c : Z) : outcome (option Z) := s ← behind mem off; strrchr_loop s off c None.

Fixpoint memcmp_loop (s1 s2 : list Z) (n : nat) {struct n} : outcome Z :=
  match n with
  | O => Ret 0
  | S n =>
      match s1, s2 with
      | c1 :: s1, c2 :: s2 => if negb (c1 =? c2) then Ret (c1 - c2) else memcmp_loop s1 s2 n
      | _, _ => Fault
      end
  end.
Definition memcmp (m1 : list Z) (o1 : Z) (m2 : list Z) (o2 n : Z) : outcome Z :=
  s1 ← behind m1 o1; s2 ← behind m2 o2; memcmp_loop s1 s2 (Z.to_nat n).

(** ** Strings in memory *)

(** The bytes of a literal, and the array with its NUL. *)
Definition chars (s : string) : list Z := (fun a => Z.of_N (N_of_ascii a)) <$> list_ascii_of_string s.
Definition c_string (s : string) : list Z := chars s ++ [0].

(** The bytes of a C string, without the NUL that ends it. *)
Definition text (s : list Z) : Prop := Forall (fun c => 0 < c < 256) s.

Record string_at (mem : list Z) (off : Z) (s : list Z) : Prop := {
  at_text : text s;
  at_off : 0 ≤ off;
  at_mem : ∃ rest, drop (Z.to_nat off) mem = s ++ 0 :: rest
}.

Lemma string_behind mem off s : string_at mem off s → ∃ rest, behind mem off = Ret (s ++ 0 :: rest).
Proof.
  intros [_ Hoff [rest E]]. exists rest. unfold behind. pose proof (f_equal length E) as Hl.
  rewrite length_drop, length_app in Hl. simpl in Hl. destruct (_ && _) eqn:Eb; [by rewrite E|lia].
Qed.

(** A literal. *)
Lemma literal_at s : text s → string_at (s ++ [0]) 0 s.
Proof. intros Hs. split; [done|done|by exists []]. Qed.

Lemma strlen_loop_spec s rest len :
  text s → 0 ≤ len → len + Z.of_nat (length s) < U32 → strlen_loop (s ++ 0 :: rest) len = Ret (len + Z.of_nat (length s)).
Proof.
  intros Hs. revert len. induction Hs as [|c s Hc Hs IH]; intros len Hlen Hw; simpl in *.
  - f_equal. lia.
  - destruct (Z.eqb_spec c 0); [lia|]. rewrite u32_small by (unfold is_u32; lia). rewrite IH by lia. f_equal. lia.
Qed.

Lemma strlen_spec mem off s :
  string_at mem off s → Z.of_nat (length s) < U32 → strlen mem off = Ret (Z.of_nat (length s)).
Proof.
  intros H Hw. unfold strlen. destruct (string_behind _ _ _ H) as [rest ->]. rewrite bind_ret.
  rewrite strlen_loop_spec; [done|apply H|lia..].
Qed.

(** ** Comparison *)

(** The order of strings by their first different bytes. *)
Fixpoint text_compare (s1 s2 : list Z) : comparison :=
  match s1, s2 with
  | [], [] => Eq
  | [], _ :: _ => Lt
  | _ :: _, [] => Gt
  | c1 :: s1, c2 :: s2 => match c1 ?= c2 with Eq => text_compare s1 s2 | r => r end
  end.

Lemma text_compare_eq s1 s2 : text_compare s1 s2 = Eq ↔ s1 = s2.
Proof.
  revert s2. induction s1 as [|c1 s1 IH]; intros [|c2 s2]; simpl; try done.
  destruct (Z.compare_spec c1 c2) as [->|?|?]; [rewrite IH; naive_solver|split; [done|]; intros [= -> _]; lia..].
Qed.

Lemma strcmp_loop_spec s1 s2 rest1 rest2 :
  text s1 → text s2 → ∃ r, strcmp_loop (s1 ++ 0 :: rest1) (s2 ++ 0 :: rest2) = Ret r ∧ (r ?= 0) = text_compare s1 s2.
Proof.
  intros H1. revert s2. induction H1 as [|c1 s1 Hc1 H1 IH]; intros s2 H2.
  - destruct H2 as [|c2 s2 Hc2 H2]; simpl; (eexists; split; [done|]); [done|]. by apply Z.compare_lt_iff; lia.
  - destruct H2 as [|c2 s2 Hc2 H2]; simpl.
    + destruct (Z.eqb_spec c1 0); [lia|]. simpl. eexists; split; [done|]. by apply Z.compare_gt_iff; lia.
    + destruct (Z.eqb_spec c1 0); [lia|]. destruct (Z.eqb_spec c1 c2) as [->|]; simpl.
      * rewrite Z.compare_refl. by apply IH.
      * eexists; split; [done|]. destruct (Z.compare_spec c1 c2); [lia|by apply Z.compare_lt_iff; lia|by apply Z.compare_gt_iff; lia].
Qed.

Lemma strcmp_spec m1 o1 s1 m2 o2 s2 :
  string_at m1 o1 s1 → string_at m2 o2 s2 → ∃ r, strcmp m1 o1 m2 o2 = Ret r ∧ (r ?= 0) = text_compare s1 s2.
Proof.
  intros H1 H2. unfold strcmp. destruct (string_behind _ _ _ H1) as [? ->], (string_behind _ _ _ H2) as [? ->].
  rewrite !bind_ret. apply strcmp_loop_spec; [apply H1|apply H2].
Qed.

(** ** Copying *)

(** A test of a range that holds. *)
Lemma if_range {A} (lo a b : Z) (x : outcome A) y : lo ≤ a → b ≤ y → ∀ z, x = z → (if (lo <=? a) && (b <=? y) then x else Fault) = z.
Proof. intros. destruct (Z.leb_spec lo a), (Z.leb_spec b y); done || lia. Qed.

(** The memory after [k] bytes have been moved, from the front or from the back. *)
Definition moved (mem : list Z) (dst src lo hi : Z) (mem' : list Z) : Prop :=
  length mem' = length mem ∧
  ∀ p : nat, mem' !! p = if decide (dst + lo ≤ Z.of_nat p < dst + hi) then mem !! Z.to_nat (Z.of_nat p - dst + src) else mem !! p.

Lemma move_one mem dst src lo hi mem' i :
  moved mem dst src lo hi mem' → 0 ≤ lo ≤ hi → 0 ≤ dst → 0 ≤ src → 0 ≤ i →
  dst + i < Z.of_nat (length mem) → src + i < Z.of_nat (length mem) →
  ¬ (dst + lo ≤ src + i < dst + hi) → (i = lo - 1 ∨ i = hi) →
  ∃ mem2, (b ← load1 mem' (src + i); store1 mem' (dst + i) b) = Ret mem2 ∧
    moved mem dst src (Z.min lo i) (Z.max hi (i + 1)) mem2.
Proof.
  intros [Hlen Hm] Hlh Hd Hs Hi Hdl Hsl Hout Hnext.
  destruct (lookup_lt_is_Some_2 mem (Z.to_nat (src + i))) as [b Hb]; [lia|].
  assert (mem' !! Z.to_nat (src + i) = Some b) as Hb'. { rewrite Hm, decide_False by lia. done. }
  rewrite (load1_Ret _ _ b), bind_ret, store1_Ret by (done || lia).
  eexists. split; [done|]. split; [by rewrite length_insert|]. intros p.
  destruct (decide (p = Z.to_nat (dst + i))) as [->|Hne].
  - rewrite list_lookup_insert_eq by lia. rewrite decide_True by lia. rewrite <-Hb. f_equal. lia.
  - rewrite list_lookup_insert_ne by done. rewrite Hm.
    destruct (decide (dst + lo ≤ Z.of_nat p < dst + hi)); [rewrite decide_True by lia; done|rewrite decide_False by lia; done].
Qed.

Lemma move_up mem dst src k :
  0 ≤ dst → dst < src → src + Z.of_nat k ≤ Z.of_nat (length mem) →
  ∃ mem', foldM (fun mem i => b ← load1 mem (src + i); store1 mem (dst + i) b) (seqZ 0 (Z.of_nat k)) mem = Ret mem' ∧
    moved mem dst src 0 (Z.of_nat k) mem'.
Proof.
  intros Hd Hlt. induction k as [|k IH]; intros Hk.
  - exists mem. split; [done|]. split; [done|]. intros p. by rewrite decide_False by lia.
  - destruct IH as (m1 & E1 & Hm1); [lia|]. rewrite seqZ_S, foldM_app, E1, bind_ret.
    destruct (move_one mem dst src 0 (Z.of_nat k) m1 (Z.of_nat k) Hm1) as (m2 & E2 & Hm2); [lia..|].
    exists m2. cbn [foldM]. rewrite Z.add_0_l, E2. split; [done|].
    rewrite Z.min_l, Z.max_r in Hm2 by lia. by rewrite Nat2Z.inj_succ.
Qed.

Lemma move_down mem dst src n k :
  0 ≤ src → src < dst → dst + n ≤ Z.of_nat (length mem) → Z.of_nat k ≤ n →
  ∃ mem', foldM (fun mem i => b ← load1 mem (src + i - 1); store1 mem (dst + i - 1) b) (reverse (seqZ (n - Z.of_nat k + 1) (Z.of_nat k))) mem = Ret mem' ∧
    moved mem dst src (n - Z.of_nat k) n mem'.
Proof.
  intros Hs Hlt Hn. induction k as [|k IH]; intros Hk.
  - exists mem. split; [done|]. split; [done|]. intros p. by rewrite decide_False by lia.
  - destruct IH as (m1 & E1 & Hm1); [lia|].
    rewrite (seqZ_cons (n - _ + 1)) by lia. rewrite reverse_cons, foldM_app.
    replace (Z.succ (n - Z.of_nat (S k) + 1)) with (n - Z.of_nat k + 1) by lia.
    replace (Z.pred (Z.of_nat (S k))) with (Z.of_nat k) by lia. rewrite E1, bind_ret.
    destruct (move_one mem dst src (n - Z.of_nat k) n m1 (n - Z.of_nat (S k)) Hm1) as (m2 & E2 & Hm2); [lia..|].
    exists m2. cbn [foldM]. rewrite !Z.add_assoc, !Z.add_simpl_r, E2. split; [done|].
    rewrite Z.min_r, Z.max_l in Hm2 by lia. done.
Qed.

Lemma moved_bytes mem dst src n mem' :
  0 ≤ dst → 0 ≤ src → 0 ≤ n → dst + n ≤ Z.of_nat (length mem) → src + n ≤ Z.of_nat (length mem) → moved mem dst src 0 n mem' →
  (bytes ← load_bytes mem src n; store_bytes mem dst bytes) = Ret mem'.
Proof.
  intros Hd Hs Hn Hdl Hsl [Hlen Hm]. rewrite load_bytes_Ret, bind_ret by lia.
  set (bytes := take _ _). assert (length bytes = Z.to_nat n) as Hb by (unfold bytes; rewrite length_take, length_drop; lia).
  destruct (store_bytes_Ret mem dst bytes) as (m2 & -> & Hl2 & Hm2); [lia..|]. f_equal. apply list_eq. intros p.
  rewrite Hm2, Hm. case_decide.
  - rewrite decide_True by lia. unfold bytes. rewrite lookup_take_lt, lookup_drop by lia. f_equal. lia.
  - by rewrite decide_False by lia.
Qed.

(** [memmove] copies the bytes as they were before the call, also when the two
    ranges overlap, in either direction, and touches no other byte. *)
Theorem memmove_correct mem dst src n :
  0 ≤ dst → 0 ≤ src → 0 ≤ n → dst + n ≤ Z.of_nat (length mem) → src + n ≤ Z.of_nat (length mem) →
  memmove mem dst src n = Ret (take (Z.to_nat dst) mem ++ take (Z.to_nat n) (drop (Z.to_nat src) mem) ++ drop (Z.to_nat (dst + n)) mem).
Proof.
  intros Hd Hs Hn Hdl Hsl. trans (bytes ← load_bytes mem src n; store_bytes mem dst bytes).
  - symmetry. unfold memmove.
    assert (moved mem dst src 0 n mem → (bytes ← load_bytes mem src n; store_bytes mem dst bytes) = Ret mem) as Hsame
      by by apply moved_bytes.
    destruct (Z.eqb_spec dst src) as [->|]; [|destruct (Z.eqb_spec n 0) as [->|]]; cbn [orb].
    + apply Hsame. split; [done|]. intros p. case_decide; [f_equal; lia|done].
    + apply Hsame. split; [done|]. intros p. by rewrite decide_False by lia.
    + destruct (Z.ltb_spec dst src).
      * destruct (move_up mem dst src (Z.to_nat n)) as (m & E & Hm); [lia..|]. rewrite Z2Nat.id in * by done. rewrite E. by apply moved_bytes.
      * destruct (move_down mem dst src n (Z.to_nat n)) as (m & E & Hm); [lia..|]. rewrite Z2Nat.id in * by done.
        rewrite Z.sub_diag in *. change (0 + 1) with 1 in E. rewrite E. by apply moved_bytes.
  - rewrite load_bytes_Ret, bind_ret by lia. unfold store_bytes. rewrite length_take, length_drop.
    rewrite Nat.min_l by lia. apply if_range; [lia|lia|]. do 4 f_equal. lia.
Qed.

Lemma memmove_correct_witness :
  memmove [1; 2; 3; 4; 5; 6] 2 0 4 = Ret [1; 2; 1; 2; 3; 4] ∧ memmove [1; 2; 3; 4; 5; 6] 0 2 4 = Ret [3; 4; 5; 6; 5; 6].
Proof. split; [apply (memmove_correct [1; 2; 3; 4; 5; 6] 2 0 4)|apply (memmove_correct [1; 2; 3; 4; 5; 6] 0 2 4)]; vm_compute; congruence. Defined.

(** ** Bounded copying *)

Lemma store_bytes_nil {A} (dest : list A) o : 0 ≤ o ≤ Z.of_nat (length dest) → store_bytes dest o [] = Ret dest.
Proof.
  intros Ho. unfold store_bytes. apply if_range; [lia|cbn [length]; lia|]. simpl. by rewrite Nat.add_0_r, take_drop.
Qed.

Lemma store_bytes_cases {A} (dest : list A) o s :
  (0 ≤ o ∧ o + Z.of_nat (length s) ≤ Z.of_nat (length dest) ∧
    store_bytes dest o s = Ret (take (Z.to_nat o) dest ++ s ++ drop (Z.to_nat o + length s) dest)) ∨
  (¬ (0 ≤ o ∧ o + Z.of_nat (length s) ≤ Z.of_nat (length dest)) ∧ store_bytes dest o s = Fault).
Proof. unfold store_bytes. destruct (Z.leb_spec 0 o), (Z.leb_spec (o + Z.of_nat (length s)) (Z.of_nat (length dest))); cbn [andb]; [by left|right; split; [lia|done]..]. Qed.

Lemma store1_cases {A} (dest : list A) o c :
  (0 ≤ o < Z.of_nat (length dest) ∧ store1 dest o c = Ret (<[Z.to_nat o := c]> dest)) ∨
  (¬ (0 ≤ o < Z.of_nat (length dest)) ∧ store1 dest o c = Fault).
Proof. unfold store1. destruct (Z.leb_spec 0 o), (Z.ltb_spec o (Z.of_nat (length dest))); cbn [andb]; [by left|right; split; [lia|done]..]. Qed.

(** Writing byte by byte. *)
Lemma store_bytes_cons {A} (dest : list A) o c s :
  0 ≤ o → store_bytes dest o (c :: s) = (d ← store1 dest o c; store_bytes d (o + 1) s).
Proof.
  intros Ho. destruct (store1_cases dest o c) as [[Hlt ->]|[Hge ->]].
  - rewrite bind_ret. destruct (store_bytes_cases dest o (c :: s)) as [(_ & H1 & ->)|[H1 ->]];
      (destruct (store_bytes_cases (<[Z.to_nat o:=c]> dest) (o + 1) s) as [(_ & H2 & ->)|[H2 ->]];
      rewrite length_insert in H2; cbn [length] in H1; [|try done; lia]); [|lia].
    f_equal. replace (Z.to_nat (o + 1)) with (S (Z.to_nat o)) by lia.
    rewrite (take_S_r _ _ c) by (apply list_lookup_insert_eq; lia). rewrite take_insert_ge, drop_insert_lt by lia.
    rewrite <-app_assoc. cbn [app length]. do 4 f_equal. lia.
  - destruct (store_bytes_cases dest o (c :: s)) as [(_ & H1 & ->)|[H1 ->]]; [cbn [length] in H1; lia|done].
Qed.

Lemma store_bytes_app {A} (dest : list A) o a b :
  0 ≤ o ≤ Z.of_nat (length dest) → store_bytes dest o (a ++ b) = (d ← store_bytes dest o a; store_bytes d (o + Z.of_nat (length a)) b).
Proof.
  revert dest o. induction a as [|c a IH]; intros dest o Ho.
  - rewrite store_bytes_nil, bind_ret by done. simpl. by rewrite Z.add_0_r.
  - simpl. rewrite !store_bytes_cons by lia. destruct (store1_cases dest o c) as [[? ->]|[_ ->]]; [|done]. rewrite !bind_ret.
    rewrite IH by (rewrite length_insert; lia). destruct (store_bytes _ _ a); [|done..]. rewrite !bind_ret. f_equal. lia.
Qed.

Lemma store_bytes_length {A} (dest : list A) o s d : store_bytes dest o s = Ret d → length d = length dest ∧ o + Z.of_nat (length s) ≤ Z.of_nat (length dest).
Proof.
  destruct (store_bytes_cases dest o s) as [(? & ? & ->)|[_ ->]]; [|done]. intros [= <-]. rewrite !length_app, length_take, length_drop. lia.
Qed.

Lemma fill_spec k dest o :
  0 ≤ o ≤ Z.of_nat (length dest) → foldM (fun dest i => store1 dest i 0) (seqZ o (Z.of_nat k)) dest = store_bytes dest o (replicate k 0).
Proof.
  revert dest o. induction k as [|k IH]; intros dest o Ho.
  - cbn [replicate]. by rewrite store_bytes_nil.
  - rewrite seqZ_cons by lia. cbn [foldM replicate]. rewrite store_bytes_cons by lia. destruct (store1_cases dest o 0) as [[? ->]|[_ ->]]; [|done]. rewrite !bind_ret. replace (Z.pred (Z.of_nat (S k))) with (Z.of_nat k) by lia.
    rewrite IH by (rewrite length_insert; lia). done.
Qed.

Lemma strncpy_loop_spec s rest dest o n :
  text s → 0 ≤ o ≤ Z.of_nat (length dest) →
  strncpy_loop dest o (s ++ 0 :: rest) n =
    if decide (length s < n)%nat
    then d ← store_bytes dest o (s ++ [0]); Ret (d, o + Z.of_nat (length s) + 1, (n - length s)%nat)
    else d ← store_bytes dest o (take n s); Ret (d, o + Z.of_nat n, O).
Proof.
  intros Hs. revert dest o n. induction Hs as [|c s Hc Hs IH]; intros dest o [|n] Ho; cbn [strncpy_loop app].
  - rewrite decide_False by (simpl; lia). simpl. rewrite store_bytes_nil, bind_ret by done. by rewrite Z.add_0_r.
  - rewrite decide_True by (simpl; lia). rewrite store_bytes_cons by lia. destruct (store1_cases dest o 0) as [[? ->]|[_ ->]]; [|done].
    rewrite !bind_ret, store_bytes_nil, bind_ret by (rewrite length_insert; lia). simpl. do 3 f_equal. lia.
  - rewrite decide_False by (simpl; lia). simpl. rewrite store_bytes_nil, bind_ret by done. by rewrite Z.add_0_r.
  - simpl. rewrite !store_bytes_cons by lia. destruct (store1_cases dest o c) as [[? ->]|[_ ->]]; [|by case_decide]. rewrite !bind_ret.
    destruct (Z.eqb_spec c 0); [lia|]. rewrite IH by (rewrite length_insert; lia).
    destruct (decide (length s < n)%nat); [rewrite decide_True by lia|rewrite decide_False by lia].
    + destruct (store_bytes _ _ _); [|done..]. rewrite !bind_ret. do 3 f_equal. lia.
    + destruct (store_bytes _ _ _); [|done..]. rewrite !bind_ret. do 3 f_equal. lia.
Qed.

(** The bytes [strncpy] writes: the first [n] characters of a string that is at
    least so long, and for a shorter one the string followed by as many NULs as make
    [n + 1] bytes, one more than the room it has been given. *)
Theorem strncpy_writes mem off s dest o n :
  string_at mem off s → 0 ≤ n → 0 ≤ o ≤ Z.of_nat (length dest) →
  strncpy dest o mem off n =
    store_bytes dest o (if decide (Z.of_nat (length s) < n) then s ++ replicate (Z.to_nat n + 1 - length s) 0 else take (Z.to_nat n) s).
Proof.
  intros Hs Hn Ho. unfold strncpy. destruct (string_behind _ _ _ Hs) as [rest ->]. rewrite bind_ret.
  rewrite strncpy_loop_spec by (done || apply Hs). destruct (decide (length s < Z.to_nat n)%nat).
  - rewrite decide_True by lia. replace (Z.to_nat n + 1 - length s)%nat with (S (Z.to_nat n - length s)) by lia.
    cbn [replicate]. rewrite (cons_middle 0 s (replicate _ 0)), (app_assoc s [0]), (store_bytes_app dest o (s ++ [0])) by done.
    destruct (store_bytes dest o (s ++ [0])) as [d| |] eqn:E; [|done..]. rewrite !bind_ret.
    apply store_bytes_length in E as [El E]. rewrite length_app in *. simpl in *. rewrite fill_spec by lia. f_equal. lia.
  - rewrite decide_False by lia. destruct (store_bytes dest o _) as [d| |] eqn:E; [|done..]. rewrite !bind_ret. done.
Qed.

Lemma strncpy_writes_witness :
  strncpy [9; 9; 9; 9] 0 [0x61; 0x62; 0] 0 4 = Fault ∧ strncpy [9; 9; 9; 9; 9] 0 [0x61; 0x62; 0] 0 4 = Ret [0x61; 0x62; 0; 0; 0].
Proof.
  assert (string_at [0x61; 0x62; 0] 0 [0x61; 0x62]) as H by (apply (literal_at [0x61; 0x62]); repeat constructor; lia).
  split; [apply (strncpy_writes _ _ [0x61; 0x62] [9; 9; 9; 9] 0 4 H)|apply (strncpy_writes _ _ [0x61; 0x62] [9; 9; 9; 9; 9] 0 4 H)];
    vm_compute; try split; congruence.
Defined.
