(* ===== verification/Ssh.v ===== *)
(** * SSH messages: model of src/lib/ssh_packet_core.c, ssh_channel_core.c and ssh_auth_core.c

    The writer and the reader of the fields of a message, unencrypted packets, and
    the messages of the authentication and connection protocols.  A pointer into a
    message is an offset into the array that holds it; [None] is NULL.  The
    functions get pointers to objects, so the tests for NULL objects are left out. *)

From Stdlib Require Import String.
From S2P Require Import Prelude Ring KString.

(** ** Numbers *)

(** [(u_int8_t)v]. *)
Definition u8 (v : Z) : Z := v mod 256.
Definition u16 (v : Z) : Z := v mod 2 ^ 16.

Definition ssh_write_u32_be (value : Z) : list Z :=
  [u8 (Z.shiftr value 24); u8 (Z.shiftr value 16); u8 (Z.shiftr value 8); u8 value].

Definition ssh_read_u32_be (buf : list Z) (off : Z) : outcome Z :=
  b0 ← load1 buf off;
  b1 ← load1 buf (off + 1);
  b2 ← load1 buf (off + 2);
  b3 ← load1 buf (off + 3);
  Ret (Z.lor (Z.lor (Z.lor (u32 (Z.shiftl b0 24)) (u32 (Z.shiftl b1 16))) (u32 (Z.shiftl b2 8))) b3).

(** ** Writing *)

Record ssh_writer := Writer { w_buf : list Z; w_cap : Z; w_len : Z; w_error : bool }.

Definition ssh_writer_init (buf : list Z) (cap : Z) : ssh_writer := Writer buf cap 0 false.

(** [data] is the memory behind the pointer, [None] for NULL. *)
Definition ssh_writer_put_data (data : option (list Z)) (len : Z) (w : ssh_writer) : outcome ssh_writer :=
  if w_error w || (len <? 0) then Ret w
  else if w_cap w <? i32 (w_len w + len) then Ret (Writer (w_buf w) (w_cap w) (w_len w) true)
  else
    buf ← match data with
          | Some d =>
              if 0 <? len then bytes ← load_bytes d 0 len; store_bytes (w_buf w) (w_len w) bytes else Ret (w_buf w)
          | None => Ret (w_buf w)
          end;
    Ret (Writer buf (w_cap w) (i32 (w_len w + len)) (w_error w)).

Definition ssh_writer_put_byte (value : Z) (w : ssh_writer) : outcome ssh_writer :=
  ssh_writer_put_data (Some [value]) 1 w.

Definition ssh_writer_put_bool (value : bool) (w : ssh_writer) : outcome ssh_writer :=
  ssh_writer_put_byte (if value then 1 else 0) w.

Definition ssh_writer_put_u32 (value : Z) (w : ssh_writer) : outcome ssh_writer :=
  ssh_writer_put_data (Some (ssh_write_u32_be value)) 4 w.

Definition ssh_writer_put_string (data : option (list Z)) (len : Z) (w : ssh_writer) : outcome ssh_writer :=
  if len <? 0 then Ret (Writer (w_buf w) (w_cap w) (w_len w) true)
  else w ← ssh_writer_put_u32 (u32 len) w; ssh_writer_put_data data len w.

Definition ssh_writer_put_cstring (text : list Z) (w : ssh_writer) : outcome ssh_writer :=
  len ← strlen text 0; ssh_writer_put_string (Some text) (i32 len) w.

(** The zeros that [ssh_writer_put_mpint] skips; [todo] is [len - start]. *)
Fixpoint mpint_start (todo : nat) (data : list Z) (start : Z) : outcome Z :=
  match todo with
  | O => Ret start
  | S todo => b ← load1 data start; if b =? 0 then mpint_start todo data (start + 1) else Ret start
  end.

Definition ssh_writer_put_mpint (data : list Z) (len : Z) (w : ssh_writer) : outcome ssh_writer :=
  start ← mpint_start (Z.to_nat len) data 0;
  if start =? len then ssh_writer_put_u32 0 w
  else
    let out_len := i32 (len - start) in
    first ← load1 data start;
    w ← (if negb (Z.land first 0x80 =? 0)
         then w ← ssh_writer_put_u32 (u32 (i32 (out_len + 1))) w; ssh_writer_put_byte 0 w
         else ssh_writer_put_u32 (u32 out_len) w);
    ssh_writer_put_data (Some (drop (Z.to_nat start) data)) out_len w.

(** ** Reading *)

(** [buf] of the source is the offset [r_base] into the array [r_mem]. *)
Record ssh_reader := Reader { r_mem : list Z; r_base : Z; r_len : Z; r_pos : Z; r_error : bool }.

Definition ssh_reader_init (mem : list Z) (base len : Z) : ssh_reader := Reader mem base len 0 false.

Definition fail_reader (r : ssh_reader) : ssh_reader := Reader (r_mem r) (r_base r) (r_len r) (r_pos r) true.
Definition move_reader (pos : Z) (r : ssh_reader) : ssh_reader := Reader (r_mem r) (r_base r) (r_len r) pos (r_error r).

Definition ssh_reader_get_byte (r : ssh_reader) : outcome (Z * ssh_reader) :=
  if r_error r || (r_len r <? i32 (r_pos r + 1)) then Ret (0, fail_reader r)
  else b ← load1 (r_mem r) (r_base r + r_pos r); Ret (b, move_reader (i32 (r_pos r + 1)) r).

Definition ssh_reader_get_bool (r : ssh_reader) : outcome (bool * ssh_reader) :=
  '(b, r) ← ssh_reader_get_byte r; Ret (negb (b =? 0), r).

Definition ssh_reader_get_u32 (r : ssh_reader) : outcome (Z * ssh_reader) :=
  if r_error r || (r_len r <? i32 (r_pos r + 4)) then Ret (0, fail_reader r)
  else v ← ssh_read_u32_be (r_mem r) (r_base r + r_pos r); Ret (v, move_reader (i32 (r_pos r + 4)) r).

(** The pointer and the length the caller passes are set only on success. *)
Definition ssh_reader_get_string (data : option Z) (len : Z) (r : ssh_reader) : outcome (option Z * Z * ssh_reader) :=
  '(size, r) ← ssh_reader_get_u32 r;
  if r_error r then Ret (data, len, r)
  else if r_len r <? i32 (r_pos r + i32 size) then Ret (data, len, fail_reader r)
  else Ret (Some (r_base r + r_pos r), i32 size, move_reader (i32 (r_pos r + i32 size)) r).

(** ** Names *)

Fixpoint bytes_equal_loop (todo : nat) (mem : list Z) (off : Z) (rhs : list Z) (i : Z) : outcome bool :=
  match todo with
  | O => Ret true
  | S todo =>
      a ← load1 mem (off + i);
      b ← load1 rhs i;
      if negb (a =? u8 b) then Ret false else bytes_equal_loop todo mem off rhs (i + 1)
  end.

(** [rhs] is a C string. *)
Definition ssh_bytes_equal (mem : list Z) (off lhs_len : Z) (rhs : list Z) : outcome bool :=
  rhs_len ← strlen rhs 0;
  if negb (lhs_len =? i32 rhs_len) then Ret false else bytes_equal_loop (Z.to_nat lhs_len) mem off rhs 0.

(** The end of the name that starts at [stop - todo]. *)
Fixpoint name_end (todo : nat) (mem : list Z) (off stop : Z) : outcome Z :=
  match todo with
  | O => Ret stop
  | S todo => b ← load1 mem (off + stop); if b =? 0x2c then Ret stop else name_end todo mem off (stop + 1)
  end.

Fixpoint namelist_loop (fuel : nat) (mem : list Z) (off len : Z) (name : list Z) (start : Z) : outcome bool :=
  match fuel with
  | O => Hang
  | S fuel =>
      if start <=? len then
        stop ← name_end (Z.to_nat (len - start)) mem off start;
        found ← (if start <? stop then ssh_bytes_equal mem (off + start) (stop - start) name else Ret false);
        if found : bool then Ret true
        else if len <=? stop then Ret false
        else namelist_loop fuel mem off len name (stop + 1)
      else Ret false
  end.

Definition ssh_namelist_has (mem : list Z) (off len : Z) (name : list Z) : outcome bool :=
  namelist_loop (S (S (Z.to_nat len))) mem off len name 0.

(** ** Packets *)

Definition ssh_move_bytes (mem : list Z) (dest src len : Z) : outcome (list Z) :=
  if (dest =? src) || (len <=? 0) then Ret mem
  else if dest <? src then
    foldM (fun mem i => b ← load1 mem (src + i); store1 mem (dest + i) b) (seqZ 0 len) mem
  else
    foldM (fun mem i => b ← load1 mem (src + i); store1 mem (dest + i) b) (reverse (seqZ 0 len)) mem.

(** The objects behind the pointers of [ssh_try_decode_plain_packet_buffer]. *)
Record packet_state := Packets {
  rx_buf : list Z;
  rx_len : Z;
  rx_seq : Z;
  payload : list Z;
  payload_len : Z
}.

Definition ssh_try_decode_plain_packet_buffer (packet_plain_max : Z) (s : packet_state) : outcome (Z * packet_state) :=
  if rx_len s <? 4 then Ret (0, s)
  else
    packet_length ← ssh_read_u32_be (rx_buf s) 0;
    let total_len := i32 (i32 packet_length + 4) in
    if (packet_length <? 5) || (rx_len s <? total_len) then Ret (0, s)
    else if packet_plain_max <? total_len then Ret (-1, s)
    else
      padding_len ← load1 (rx_buf s) 4;
      let n := i32 (i32 packet_length - padding_len - 1) in
      if (padding_len <? 4) || (n <? 0) then Ret (-1, s)
      else
        bytes ← load_bytes (rx_buf s) 5 n;
        out ← store_bytes (payload s) 0 bytes;
        buf ← ssh_move_bytes (rx_buf s) 0 total_len (i32 (rx_len s - total_len));
        Ret (1, Packets buf (i32 (rx_len s - total_len)) (u32 (rx_seq s + 1)) out n).

(** ** The connection protocol *)

Definition SSH_CHANNEL_TYPE_MAX : Z := 16.
Inductive request_kind : Type :=
  | SSH_CHANNEL_REQUEST_UNKNOWN | SSH_CHANNEL_REQUEST_PTY | SSH_CHANNEL_REQUEST_WINDOW_CHANGE | SSH_CHANNEL_REQUEST_SHELL.

Record ssh_channel_open_request := OpenRequest { o_type : list Z; peer_id : Z; peer_window : Z; peer_max_packet : Z }.
Record ssh_channel_request := Request { kind : request_kind; recipient : Z; want_reply : bool; q_cols : Z; q_rows : Z }.
Record ssh_channel_data_request := DataRequest { d_recipient : Z; d_data : option Z; d_data_len : Z }.
Record ssh_channel_close_plan := ClosePlan { send_exit_status : bool; send_eof : bool; send_close : bool }.

(** A message into a [char] array: the result and the array. *)
Definition ssh_channel_copy_type (dest : list Z) (cap : Z) (mem : list Z) (src : option Z) (len : Z) : outcome (Z * list Z) :=
  match src with
  | None => Ret (-1, dest)
  | Some src =>
      if (cap <=? 0) || (len <? 0) || (cap <=? len) then Ret (-1, dest)
      else
        dest ← foldM (fun dest i => b ← load1 mem (src + i); store1 dest i b) (seqZ 0 len) dest;
        dest ← store1 dest len 0;
        Ret (0, dest)
  end.

Definition ssh_channel_parse_open (mem : list Z) (len : Z) (out : ssh_channel_open_request) : outcome (Z * ssh_channel_open_request) :=
  if len <=? 1 then Ret (-1, out)
  else
    let zeros := replicate (Z.to_nat SSH_CHANNEL_TYPE_MAX) 0 in
    let r := ssh_reader_init mem 1 (i32 (len - 1)) in
    '(type, type_len, r) ← ssh_reader_get_string None 0 r;
    '(id, r) ← ssh_reader_get_u32 r;
    '(win, r) ← ssh_reader_get_u32 r;
    '(maxp, r) ← ssh_reader_get_u32 r;
    if r_error r then Ret (-1, OpenRequest zeros id win maxp)
    else
      '(res, type) ← ssh_channel_copy_type zeros SSH_CHANNEL_TYPE_MAX mem type type_len;
      Ret (res, OpenRequest type id win maxp).

(** The columns and rows of a terminal, and two numbers that are not used. *)
Definition get_size (r : ssh_reader) : outcome (Z * Z * ssh_reader) :=
  '(c, r) ← ssh_reader_get_u32 r;
  '(rws, r) ← ssh_reader_get_u32 r;
  '(_, r) ← ssh_reader_get_u32 r;
  '(_, r) ← ssh_reader_get_u32 r;
  Ret (u16 c, u16 rws, r).

Definition ssh_channel_parse_request (mem : list Z) (len : Z) (out : ssh_channel_request) : outcome (Z * ssh_channel_request) :=
  if len <=? 1 then Ret (-1, out)
  else
    let r := ssh_reader_init mem 1 (i32 (len - 1)) in
    '(to, r) ← ssh_reader_get_u32 r;
    '(request, request_len, r) ← ssh_reader_get_string None 0 r;
    '(reply, r) ← ssh_reader_get_bool r;
    let unknown := Request SSH_CHANNEL_REQUEST_UNKNOWN to reply 0 0 in
    if r_error r then Ret (-1, unknown)
    else
      request ← or_fault request;
      is_pty ← ssh_bytes_equal mem request request_len (c_string "pty-req");
      '(out, r) ←
        (if is_pty : bool then
           '(_, _, r) ← ssh_reader_get_string None 0 r;
           '(c, rws, r) ← get_size r;
           '(_, _, r) ← ssh_reader_get_string None 0 r;
           Ret (Request SSH_CHANNEL_REQUEST_PTY to reply c rws, r)
         else
           is_change ← ssh_bytes_equal mem request request_len (c_string "window-change");
           if is_change : bool then
             '(c, rws, r) ← get_size r;
             Ret (Request SSH_CHANNEL_REQUEST_WINDOW_CHANGE to reply c rws, r)
           else
             is_shell ← ssh_bytes_equal mem request request_len (c_string "shell");
             Ret (if is_shell : bool then Request SSH_CHANNEL_REQUEST_SHELL to reply 0 0 else unknown, r));
      Ret (if r_error r then -1 else 0, out).

Definition ssh_channel_parse_data (mem : list Z) (len : Z) (out : ssh_channel_data_request) : outcome (Z * ssh_channel_data_request) :=
  if len <=? 1 then Ret (-1, out)
  else
    let r := ssh_reader_init mem 1 (i32 (len - 1)) in
    '(to, r) ← ssh_reader_get_u32 r;
    '(data, data_len, r) ← ssh_reader_get_string None 0 r;
    if r_error r then Ret (-1, DataRequest to None 0) else Ret (0, DataRequest to data data_len).

Definition ssh_channel_plan_shutdown (exit_status_sent eof_sent close_sent : bool) : ssh_channel_close_plan :=
  ClosePlan (negb exit_status_sent) (negb eof_sent) (negb close_sent).

(** ** The authentication protocol *)

Definition SSH_AUTH_TEXT_MAX : Z := 32.

Record ssh_auth_request := AuthRequest {
  a_username : list Z;
  a_service : list Z;
  a_method : list Z;
  a_password : option Z;
  a_password_len : Z;
  a_change : bool
}.
Record ssh_auth_identity := Identity { i_set : bool; i_username : list Z; i_service : list Z }.

Definition zero_text : list Z := replicate (Z.to_nat SSH_AUTH_TEXT_MAX) 0.

Definition ssh_auth_copy_text (dest : list Z) (cap : Z) (mem : list Z) (src : option Z) (len : Z) : outcome (Z * list Z) :=
  match src with
  | None => Ret (-1, dest)
  | Some src =>
      if (cap <=? 0) || (len <? 0) then Ret (-1, dest)
      else if cap <=? len then Ret (-1, dest)
      else
        dest ← foldM (fun dest i => b ← load1 mem (src + i); store1 dest i b) (seqZ 0 len) dest;
        dest ← store1 dest len 0;
        Ret (0, dest)
  end.

Definition ssh_auth_identity_reset : ssh_auth_identity := Identity false zero_text zero_text.

Definition ssh_auth_parse_service_request (mem : list Z) (len : Z) (service_name : list Z) (service_cap : Z) : outcome (Z * list Z) :=
  if len <=? 1 then Ret (-1, service_name)
  else
    let r := ssh_reader_init mem 1 (i32 (len - 1)) in
    '(name, name_len, r) ← ssh_reader_get_string None 0 r;
    if r_error r then Ret (-1, service_name) else ssh_auth_copy_text service_name service_cap mem name name_len.

Definition ssh_auth_parse_request (mem : list Z) (len : Z) (out : ssh_auth_request) : outcome (Z * ssh_auth_request) :=
  if len <=? 1 then Ret (-1, out)
  else
    let r := ssh_reader_init mem 1 (i32 (len - 1)) in
    '(username, username_len, r) ← ssh_reader_get_string None 0 r;
    '(service, service_len, r) ← ssh_reader_get_string None 0 r;
    '(meth, method_len, r) ← ssh_reader_get_string None 0 r;
    if r_error r then Ret (-1, AuthRequest zero_text zero_text zero_text None 0 false)
    else
      '(res, u) ← ssh_auth_copy_text zero_text SSH_AUTH_TEXT_MAX mem username username_len;
      if res <? 0 then Ret (-1, AuthRequest u zero_text zero_text None 0 false)
      else
        '(res, s) ← ssh_auth_copy_text zero_text SSH_AUTH_TEXT_MAX mem service service_len;
        if res <? 0 then Ret (-1, AuthRequest u s zero_text None 0 false)
        else
          '(res, m) ← ssh_auth_copy_text zero_text SSH_AUTH_TEXT_MAX mem meth method_len;
          if res <? 0 then Ret (-1, AuthRequest u s m None 0 false)
          else
            cmp ← strcmp m 0 (c_string "password") 0;
            if negb (cmp =? 0) then Ret (0, AuthRequest u s m None 0 false)
            else
              '(change, r) ← ssh_reader_get_bool r;
              '(password, password_len, r) ← ssh_reader_get_string None 0 r;
              if r_error r then Ret (-1, AuthRequest u s m None 0 change)
              else Ret (0, AuthRequest u s m password password_len change).

Definition ssh_auth_identity_capture (request : ssh_auth_request) (identity : ssh_auth_identity) : outcome (Z * ssh_auth_identity) :=
  if i_set identity then Ret (0, identity)
  else
    n ← strlen (a_username request) 0;
    '(res, u) ← ssh_auth_copy_text (i_username identity) SSH_AUTH_TEXT_MAX (a_username request) (Some 0) (i32 n);
    if res <? 0 then Ret (-1, Identity (i_set identity) u (i_service identity))
    else
      n ← strlen (a_service request) 0;
      '(res, s) ← ssh_auth_copy_text (i_service identity) SSH_AUTH_TEXT_MAX (a_service request) (Some 0) (i32 n);
      if res <? 0 then Ret (-1, Identity (i_set identity) u s) else Ret (0, Identity true u s).

Definition ssh_auth_identity_matches (identity : ssh_auth_identity) (request : ssh_auth_request) : outcome bool :=
  if negb (i_set identity) then Ret true
  else
    c1 ← strcmp (i_username identity) 0 (a_username request) 0;
    if negb (c1 =? 0) then Ret false
    else c2 ← strcmp (i_service identity) 0 (a_service request) 0; Ret (c2 =? 0).

(** [mem] is the message the password of the request points into; the other
    arguments are C strings. *)
Definition ssh_auth_password_request_matches (mem : list Z) (request : ssh_auth_request)
    (username service expected_password : list Z) : outcome bool :=
  if a_change request then Ret false
  else
    c ← strcmp (a_method request) 0 (c_string "password") 0;
    if negb (c =? 0) then Ret false
    else
      c ← strcmp (a_username request) 0 username 0;
      if negb (c =? 0) then Ret false
      else
        c ← strcmp (a_service request) 0 service 0;
        if negb (c =? 0) then Ret false
        else
          n ← strlen expected_password 0;
          if negb (a_password_len request =? i32 n) then Ret false
          else if a_password_len request <=? 0 then Ret true
          else
            off ← or_fault (a_password request);
            bytes_equal_loop (Z.to_nat (a_password_len request)) mem off expected_password 0.
