(* ===== verification/SshProps.v ===== *)
(** * SSH messages: theorems

    Fields that are written can be read back, a packet is taken out of the receive
    buffer whole, a password is accepted exactly when it is the right one, and a
    length with its highest bit set makes the parsers read outside the message. *)

From Stdlib Require Import String Ascii.
From S2P Require Import Prelude Ring KString Ssh.

(** ** Numbers *)

Lemma be_value b0 b1 b2 b3 :
  is_byte b0 → is_byte b1 → is_byte b2 → is_byte b3 →
  Z.lor (Z.lor (Z.lor (u32 (Z.shiftl b0 24)) (u32 (Z.shiftl b1 16))) (u32 (Z.shiftl b2 8))) b3
    = b0 * 2 ^ 24 + b1 * 2 ^ 16 + b2 * 2 ^ 8 + b3.
Proof.
  unfold is_byte. intros. rewrite !Z.shiftl_mul_pow2 by lia.
  rewrite !u32_small by (unfold is_u32, U32; lia).
  rewrite lor_join by lia. replace (b0 * 2 ^ 24 + b1 * 2 ^ 16) with ((b0 * 2 ^ 8 + b1) * 2 ^ 16) by lia.
  rewrite lor_join by lia. replace ((b0 * 2 ^ 8 + b1) * 2 ^ 16 + b2 * 2 ^ 8) with ((b0 * 2 ^ 16 + b1 * 2 ^ 8 + b2) * 2 ^ 8) by lia.
  rewrite lor_join by lia. lia.
Qed.

Lemma write_u32_bytes v : Forall is_byte (ssh_write_u32_be v).
Proof. unfold ssh_write_u32_be, u8, is_byte. repeat constructor; apply Z.mod_pos_bound; lia. Qed.

(** Reading at an offset where bytes are. *)
Lemma load1_at {A} (buf : list A) off l rest i x :
  0 ≤ off → drop (Z.to_nat off) buf = l ++ rest → l !! i = Some x → load1 buf (off + Z.of_nat i) = Ret x.
Proof.
  intros Ho E Hi. apply load1_Ret; [lia|]. replace (Z.to_nat (off + Z.of_nat i)) with (Z.to_nat off + i)%nat by lia.
  rewrite <-lookup_drop, E. by apply lookup_app_l_Some.
Qed.

Lemma read_u32_be_at buf off b0 b1 b2 b3 rest :
  0 ≤ off → drop (Z.to_nat off) buf = [b0; b1; b2; b3] ++ rest → Forall is_byte [b0; b1; b2; b3] →
  ssh_read_u32_be buf off = Ret (b0 * 2 ^ 24 + b1 * 2 ^ 16 + b2 * 2 ^ 8 + b3).
Proof.
  intros Ho E Hb. unfold ssh_read_u32_be. rewrite !Forall_cons in Hb. destruct Hb as (? & ? & ? & ? & _).
  pose proof (load1_at buf off _ _ 0 b0 Ho E eq_refl) as L0. change (Z.of_nat 0) with 0 in L0. rewrite Z.add_0_r in L0.
  pose proof (load1_at buf off _ _ 1 b1 Ho E eq_refl : load1 buf (off + 1) = _) as L1.
  pose proof (load1_at buf off _ _ 2 b2 Ho E eq_refl : load1 buf (off + 2) = _) as L2.
  pose proof (load1_at buf off _ _ 3 b3 Ho E eq_refl : load1 buf (off + 3) = _) as L3.
  rewrite L0, bind_ret, L1, bind_ret, L2, bind_ret, L3, bind_ret.
  f_equal. by apply be_value.
Qed.

Lemma read_u32_be_write buf off v rest :
  0 ≤ off → is_u32 v → drop (Z.to_nat off) buf = ssh_write_u32_be v ++ rest → ssh_read_u32_be buf off = Ret v.
Proof.
  intros Ho Hv E. unfold ssh_write_u32_be in E. rewrite (read_u32_be_at buf off _ _ _ _ rest Ho E (write_u32_bytes v)). f_equal.
  unfold u8. rewrite !Z.shiftr_div_pow2 by lia. unfold is_u32, U32 in Hv. Z.to_euclidean_division_equations. lia.
Qed.

(** ** Writing *)

Record writer_ok (w : ssh_writer) : Prop := {
  wr_len : 0 ≤ w_len w ≤ w_cap w;
  wr_cap : w_cap w ≤ Z.of_nat (length (w_buf w));
  wr_int : w_cap w < 2 ^ 31
}.

(** What has been written. *)
Definition written (w : ssh_writer) : list Z := take (Z.to_nat (w_len w)) (w_buf w).

Definition append (bytes : list Z) (w : ssh_writer) : ssh_writer :=
  if w_error w then w
  else if decide (w_len w + Z.of_nat (length bytes) ≤ w_cap w) then
    Writer (written w ++ bytes ++ drop (Z.to_nat (w_len w) + length bytes) (w_buf w)) (w_cap w) (w_len w + Z.of_nat (length bytes)) false
  else Writer (w_buf w) (w_cap w) (w_len w) true.

Lemma put_data_append bytes w :
  writer_ok w → w_len w + Z.of_nat (length bytes) < 2 ^ 31 →
  ssh_writer_put_data (Some bytes) (Z.of_nat (length bytes)) w = Ret (append bytes w).
Proof.
  intros [Hl Hc Hi] Hb. unfold ssh_writer_put_data, append. destruct (w_error w); [done|].
  destruct (Z.ltb_spec (Z.of_nat (length bytes)) 0); [lia|]. cbn [orb]. rewrite i32_small by lia.
  destruct (Z.ltb_spec (w_cap w) (w_len w + Z.of_nat (length bytes))).
  - by rewrite decide_False by lia.
  - rewrite decide_True by lia. destruct (Z.ltb_spec 0 (Z.of_nat (length bytes))).
    + rewrite load_bytes_Ret, bind_ret by lia. rewrite Nat2Z.id. change (drop (Z.to_nat 0) bytes) with bytes. rewrite firstn_all.
      destruct (store_bytes_cases (w_buf w) (w_len w) bytes) as [(_ & _ & ->)|[? _]]; [|lia]. done.
    + destruct bytes; [|simpl in *; lia]. rewrite bind_ret. simpl. rewrite Nat.add_0_r. unfold written. by rewrite take_drop.
Qed.

Lemma append_ok bytes w : writer_ok w → writer_ok (append bytes w).
Proof.
  intros [Hl Hc Hi]. unfold append. destruct (w_error w); [by split|]. case_decide; [|by split].
  split; cbn [w_len w_cap w_buf]; [lia| |done]. unfold written. rewrite !length_app, length_take, length_drop. lia.
Qed.

(** Room for some bytes. *)
Definition fits (bytes : list Z) (w : ssh_writer) : Prop := w_error w = false ∧ w_len w + Z.of_nat (length bytes) ≤ w_cap w.

Lemma append_fits bytes w :
  writer_ok w → fits bytes w →
  written (append bytes w) = written w ++ bytes ∧ w_len (append bytes w) = w_len w + Z.of_nat (length bytes) ∧
  w_cap (append bytes w) = w_cap w ∧ w_error (append bytes w) = false.
Proof.
  intros [Hl Hc Hi] [He Hf]. unfold append. rewrite He, decide_True by done. split_and!; try done.
  unfold written at 1. cbn [w_len w_buf]. rewrite app_assoc. apply take_app_length'.
  rewrite length_app. unfold written. rewrite length_take. lia.
Qed.

Lemma append_append a b w : writer_ok w → fits (a ++ b) w → append b (append a w) = append (a ++ b) w.
Proof.
  intros Hok [He Hf]. rewrite length_app in Hf. destruct (append_fits a w Hok) as (Ew & El & Ec & Ee); [split; [done|lia]|].
  unfold append at 1. rewrite Ee, El, Ec, Ew, decide_True by lia. unfold append. rewrite He.
  rewrite !decide_True by (rewrite ?length_app; lia). cbn [w_buf]. rewrite length_app. destruct Hok as [Hl Hc _].
  f_equal; [|lia]. rewrite <-!app_assoc. f_equal. f_equal. f_equal. unfold written. rewrite !drop_app_ge.
  - rewrite drop_drop. f_equal. rewrite length_take. lia.
  - rewrite length_take. lia.
  - rewrite length_take. lia.
Qed.

(** ** Fields *)

Inductive field : Type :=
  | FByte (b : Z)
  | FBool (b : bool)
  | FU32 (v : Z)
  | FString (s : list Z).

Definition field_ok (f : field) : Prop :=
  match f with
  | FByte b => is_byte b
  | FBool _ => True
  | FU32 v => is_u32 v
  | FString s => Forall is_byte s
  end.

Definition encode (f : field) : list Z :=
  match f with
  | FByte b => [b]
  | FBool b => [if b then 1 else 0]
  | FU32 v => ssh_write_u32_be v
  | FString s => ssh_write_u32_be (Z.of_nat (length s)) ++ s
  end.

Definition put_field (w : ssh_writer) (f : field) : outcome ssh_writer :=
  match f with
  | FByte b => ssh_writer_put_byte b w
  | FBool b => ssh_writer_put_bool b w
  | FU32 v => ssh_writer_put_u32 v w
  | FString s => ssh_writer_put_string (Some s) (Z.of_nat (length s)) w
  end.

(** A field of the kind of [f]. *)
Definition get_field (f : field) (r : ssh_reader) : outcome (field * ssh_reader) :=
  match f with
  | FByte _ => '(b, r) ← ssh_reader_get_byte r; Ret (FByte b, r)
  | FBool _ => '(b, r) ← ssh_reader_get_bool r; Ret (FBool b, r)
  | FU32 _ => '(v, r) ← ssh_reader_get_u32 r; Ret (FU32 v, r)
  | FString _ =>
      '(data, len, r) ← ssh_reader_get_string None 0 r;
      off ← or_fault data;
      s ← load_bytes (r_mem r) off len;
      Ret (FString s, r)
  end.

Fixpoint get_fields (fs : list field) (r : ssh_reader) : outcome (list field * ssh_reader) :=
  match fs with
  | [] => Ret ([], r)
  | f :: fs => '(f, r) ← get_field f r; '(fs, r) ← get_fields fs r; Ret (f :: fs, r)
  end.

Lemma put_data_fits bytes w :
  writer_ok w → fits bytes w → ssh_writer_put_data (Some bytes) (Z.of_nat (length bytes)) w = Ret (append bytes w).
Proof.
  intros Hok [He Hf]. apply put_data_append; [done|]. destruct Hok. lia.
Qed.

Lemma put_field_fits f w : writer_ok w → fits (encode f) w → put_field w f = Ret (append (encode f) w).
Proof.
  intros Hok Hf. destruct f as [b|b|v|s]; cbn [put_field encode] in *.
  - by apply (put_data_fits [b]).
  - by apply (put_data_fits [if b then 1 else 0]).
  - by apply (put_data_fits (ssh_write_u32_be v)).
  - destruct Hf as [He Hf]. rewrite length_app in Hf. destruct (Hok) as [Hl Hc Hi]. change (length (ssh_write_u32_be _)) with 4%nat in Hf.
    unfold ssh_writer_put_string, ssh_writer_put_u32. destruct (Z.ltb_spec (Z.of_nat (length s)) 0); [lia|].
    rewrite u32_small by (unfold is_u32, U32; lia). set (n := ssh_write_u32_be _).
    assert (fits n w) as Hn by (split; [done|change (length n) with 4%nat; lia]).
    rewrite (put_data_fits n w Hok Hn : ssh_writer_put_data (Some n) 4 w = _), bind_ret.
    destruct (append_fits n w Hok Hn) as (_ & El & Ec & Ee). change (length n) with 4%nat in El.
    rewrite put_data_fits; [|by apply append_ok|split; [done|lia]]. f_equal. apply append_append; [done|].
    split; [done|]. rewrite length_app. change (length n) with 4%nat. lia.
Qed.

Lemma put_fields_fits fs w :
  writer_ok w → fits (concat (encode <$> fs)) w → foldM put_field fs w = Ret (append (concat (encode <$> fs)) w).
Proof.
  revert w. induction fs as [|f fs IH]; intros w Hok Hf.
  - cbn [foldM]. f_equal. unfold append. destruct Hf as [He Hf]. rewrite He, decide_True by done. destruct w. simpl in *. subst.
    unfold written. simpl. by rewrite Nat.add_0_r, Z.add_0_r, take_drop.
  - rewrite fmap_cons in *. cbn [concat foldM] in *. pose proof Hf as [He Hl]. rewrite length_app in Hl. assert (fits (encode f) w) as Hff by (split; [done|lia]).
    rewrite put_field_fits, bind_ret by done. destruct (append_fits _ w Hok Hff) as (_ & El & Ec & Ee).
    rewrite IH; [|by apply append_ok|split; [done|lia]]. f_equal. by apply append_append.
Qed.

(** ** Reading *)

Record reader_ok (r : ssh_reader) : Prop := {
  rd_pos : 0 ≤ r_pos r ≤ r_len r;
  rd_mem : 0 ≤ r_base r ∧ r_base r + r_len r ≤ Z.of_nat (length (r_mem r));
  rd_int : r_len r < 2 ^ 31;
  rd_error : r_error r = false
}.

(** What has not been read. *)
Definition unread (r : ssh_reader) : list Z := take (Z.to_nat (r_len r - r_pos r)) (drop (Z.to_nat (r_base r + r_pos r)) (r_mem r)).

(** The bytes at the position. *)
Lemma unread_mem r l rest :
  reader_ok r → unread r = l ++ rest →
  ∃ rest', drop (Z.to_nat (r_base r + r_pos r)) (r_mem r) = l ++ rest' ∧ Z.of_nat (length l) ≤ r_len r - r_pos r ∧
    reader_ok (move_reader (r_pos r + Z.of_nat (length l)) r) ∧ unread (move_reader (r_pos r + Z.of_nat (length l)) r) = rest.
Proof.
  intros [Hp [Hb Hm] Hi He] Hu. unfold unread in Hu. pose proof (f_equal length Hu) as Hlen.
  rewrite length_take, length_drop, length_app in Hlen. assert (Z.of_nat (length l) ≤ r_len r - r_pos r) as Hl by lia.
  exists (drop (length l) (drop (Z.to_nat (r_base r + r_pos r)) (r_mem r))). split_and!; [|done| |].
  - rewrite <-(take_drop (length l) (drop (Z.to_nat (r_base r + r_pos r)) (r_mem r))) at 1. f_equal.
    apply (f_equal (take (length l))) in Hu. rewrite take_take, Nat.min_l, take_app_length in Hu by lia. done.
  - split; cbn [move_reader r_pos r_len r_base r_mem r_error]; [lia|done|done|done].
  - unfold unread. cbn [move_reader r_pos r_len r_base r_mem]. apply (f_equal (drop (length l))) in Hu.
    rewrite drop_app_length in Hu. rewrite <-Hu, skipn_firstn_comm, drop_drop. f_equal; [|f_equal]; lia.
Qed.

Lemma get_byte_spec r b rest :
  reader_ok r → unread r = [b] ++ rest → ssh_reader_get_byte r = Ret (b, move_reader (r_pos r + 1) r).
Proof.
  intros Hok Hu. destruct (unread_mem r [b] rest Hok Hu) as (rest' & Hm & Hl & _). destruct Hok as [Hp [Hb _] Hi He].
  unfold ssh_reader_get_byte. simpl length in Hl. rewrite He, i32_small by lia. destruct (Z.ltb_spec (r_len r) (r_pos r + 1)); [lia|]. cbn [orb].
  pose proof (load1_at (r_mem r) (r_base r + r_pos r) _ _ 0 b ltac:(lia) Hm eq_refl) as Hld. rewrite Z.add_0_r in Hld. by rewrite Hld.
Qed.

Lemma get_u32_spec r v rest :
  reader_ok r → is_u32 v → unread r = ssh_write_u32_be v ++ rest → ssh_reader_get_u32 r = Ret (v, move_reader (r_pos r + 4) r).
Proof.
  intros Hok Hv Hu. destruct (unread_mem r _ rest Hok Hu) as (rest' & Hm & Hl & _). destruct Hok as [Hp [Hb _] Hi He].
  unfold ssh_reader_get_u32. change (length (ssh_write_u32_be v)) with 4%nat in Hl. rewrite He, i32_small by lia.
  destruct (Z.ltb_spec (r_len r) (r_pos r + 4)); [lia|]. cbn [orb]. by rewrite (read_u32_be_write _ _ v rest') by (done || lia).
Qed.

Lemma get_string_spec r s rest data len :
  reader_ok r → unread r = encode (FString s) ++ rest →
  ssh_reader_get_string data len r =
    Ret (Some (r_base r + r_pos r + 4), Z.of_nat (length s), move_reader (r_pos r + Z.of_nat (length (encode (FString s)))) r) ∧
  ∃ rest', drop (Z.to_nat (r_base r + r_pos r + 4)) (r_mem r) = s ++ rest'.
Proof.
  intros Hok Hu. destruct (unread_mem r _ rest Hok Hu) as (rest' & Hm & Hl & _). cbn [encode] in *.
  rewrite length_app in *. change (length (ssh_write_u32_be _)) with 4%nat in *. pose proof Hok as [Hp [Hb _] Hi He].
  rewrite <-app_assoc in Hu, Hm. unfold ssh_reader_get_string.
  assert (is_u32 (Z.of_nat (length s))) as Hsz by (unfold is_u32, U32; lia).
  rewrite (get_u32_spec r (Z.of_nat (length s)) (s ++ rest) Hok Hsz Hu), bind_ret.
  cbn [move_reader r_error r_len r_pos r_base]. rewrite He. rewrite (i32_small (Z.of_nat (length s))) by lia. rewrite i32_small by lia.
  destruct (Z.ltb_spec (r_len r) (r_pos r + 4 + Z.of_nat (length s))); [lia|]. split.
  - replace (r_pos r + Z.of_nat (4 + length s)) with (r_pos r + 4 + Z.of_nat (length s)) by lia. by rewrite Z.add_assoc.
  - exists rest'. apply (f_equal (drop 4)) in Hm. rewrite drop_drop in Hm.
    replace (Z.to_nat (r_base r + r_pos r + 4)) with (Z.to_nat (r_base r + r_pos r) + 4)%nat by lia. by rewrite Hm.
Qed.

Lemma get_field_spec f r rest :
  reader_ok r → field_ok f → unread r = encode f ++ rest →
  get_field f r = Ret (f, move_reader (r_pos r + Z.of_nat (length (encode f))) r).
Proof.
  intros Hok Hf Hu. destruct f as [b|b|v|s]; unfold get_field.
  - rewrite (get_byte_spec r b rest) by done. done.
  - unfold ssh_reader_get_bool. rewrite (get_byte_spec r (if b then 1 else 0) rest) by done. by destruct b.
  - rewrite (get_u32_spec r v rest) by done. done.
  - destruct (get_string_spec r s rest None 0 Hok Hu) as [-> [rest' Hm]]. rewrite bind_ret. cbn [or_fault]. rewrite bind_ret.
    cbn [move_reader r_mem]. pose proof (f_equal length Hm) as Hl. rewrite length_drop, length_app in Hl.
    pose proof Hok as [Hp [Hb Hbm] Hi He].
    destruct (unread_mem r _ rest Hok Hu) as (_ & _ & Hle & _). cbn [encode] in Hle. rewrite length_app in Hle.
    change (length (ssh_write_u32_be _)) with 4%nat in Hle.
    rewrite load_bytes_Ret, bind_ret by lia. by rewrite Hm, Nat2Z.id, take_app_length.
Qed.

Lemma get_fields_spec fs r rest :
  reader_ok r → Forall field_ok fs → unread r = concat (encode <$> fs) ++ rest →
  get_fields fs r = Ret (fs, move_reader (r_pos r + Z.of_nat (length (concat (encode <$> fs)))) r).
Proof.
  intros Hok Hf. revert r Hok. induction Hf as [|f fs Hf Hfs IH]; intros r Hok Hu.
  - cbn [get_fields]. rewrite Z.add_0_r. by destruct r.
  - rewrite fmap_cons in *. cbn [concat get_fields] in *. rewrite <-app_assoc in Hu.
    rewrite (get_field_spec f r _ Hok Hf Hu), bind_ret. destruct (unread_mem r _ _ Hok Hu) as (_ & _ & _ & Hok' & Hu').
    rewrite (IH _ Hok' Hu'), bind_ret. do 2 f_equal. unfold move_reader. cbn. f_equal. rewrite length_app. lia.
Qed.

(** Fields written one after the other into a buffer that is large enough are
    read back as they were written, and exactly the bytes written are used. *)
Theorem ssh_fields_roundtrip fs buf :
  Forall field_ok fs → Z.of_nat (length (concat (encode <$> fs))) ≤ Z.of_nat (length buf) → Z.of_nat (length buf) < 2 ^ 31 →
  ∃ w r, foldM put_field fs (ssh_writer_init buf (Z.of_nat (length buf))) = Ret w ∧ w_error w = false ∧
    get_fields fs (ssh_reader_init (w_buf w) 0 (w_len w)) = Ret (fs, r) ∧ r_error r = false ∧ r_pos r = w_len w.
Proof.
  intros Hf Hl Hi. set (w0 := ssh_writer_init _ _). set (bytes := concat _) in *.
  assert (writer_ok w0) as Hok by (split; simpl; lia). assert (fits bytes w0) as Hfit by (split; simpl; [done|lia]).
  destruct (append_fits bytes w0 Hok Hfit) as (Ew & El & Ec & Ee). pose proof (append_ok bytes w0 Hok) as [Hl' Hc' Hi'].
  exists (append bytes w0), (move_reader (w_len (append bytes w0)) (ssh_reader_init (w_buf (append bytes w0)) 0 (w_len (append bytes w0)))).
  split; [by apply put_fields_fits|]. split; [done|]. split; [|done].
  rewrite (get_fields_spec fs _ []); [|split; simpl; lia || done|done|].
  - fold bytes. rewrite El. done.
  - unfold unread. cbn [ssh_reader_init r_len r_pos r_base r_mem]. rewrite Z.sub_0_r. change (Z.to_nat (0 + 0)) with 0%nat. rewrite drop_0.
    rewrite app_nil_r. etrans; [exact Ew|]. done.
Qed.

Lemma ssh_fields_roundtrip_witness :
  ∃ w, foldM put_field [FByte 50; FString [0x61; 0x62]; FBool true; FU32 0x01020304] (ssh_writer_init (replicate 16 0) 16) = Ret w ∧
    w_error w = false.
Proof.
  destruct (ssh_fields_roundtrip [FByte 50; FString [0x61; 0x62]; FBool true; FU32 0x01020304] (replicate 16 0)) as (w & r & Hw & He & _).
  - repeat constructor; vm_compute; congruence.
  - vm_compute. congruence.
  - vm_compute. congruence.
  - exists w. split; [exact Hw|exact He].
Defined.

(** ** Lengths that are negative numbers *)

Lemma i32_wrap x : 2 ^ 31 ≤ x < 2 ^ 32 → i32 x = x - 2 ^ 32.
Proof. intros Hx. unfold i32, U32. rewrite <-(Z.mod_unique (x + 2 ^ 31) (2 ^ 32) 1 (x - 2 ^ 31)) by lia. lia. Qed.

Lemma load1_negative {A} (buf : list A) i : i < 0 → load1 buf i = Fault.
Proof. intros. unfold load1. destruct (Z.leb_spec 0 i); [lia|done]. Qed.

(** The string is accepted and the position moves backwards. *)
Lemma get_string_negative r size rest :
  reader_ok r → 2 ^ 31 ≤ size < 2 ^ 32 → unread r = ssh_write_u32_be size ++ rest →
  ∃ p, ssh_reader_get_string None 0 r = Ret (p, size - 2 ^ 32, move_reader (r_pos r + 4 + size - 2 ^ 32) r).
Proof.
  intros Hok Hs Hu. unfold ssh_reader_get_string.
  assert (is_u32 size) as Hsz by (unfold is_u32, U32; lia). rewrite (get_u32_spec r size rest Hok Hsz Hu), bind_ret.
  destruct (unread_mem r _ rest Hok Hu) as (_ & _ & Hl & _). change (length (ssh_write_u32_be size)) with 4%nat in Hl.
  destruct Hok as [Hp _ Hi He]. cbn [move_reader r_error r_len r_pos r_base]. rewrite He, (i32_wrap size) by done. rewrite i32_small by lia.
  destruct (Z.ltb_spec (r_len r) (r_pos r + 4 + (size - 2 ^ 32))); [lia|].
  eexists. replace (r_pos r + 4 + (size - 2 ^ 32)) with (r_pos r + 4 + size - 2 ^ 32) by lia. done.
Qed.

Lemma get_string_before r data len :
  r_error r = false → r_base r + r_pos r < 0 → - 2 ^ 31 ≤ r_pos r + 4 ≤ r_len r → r_len r < 2 ^ 31 → ssh_reader_get_string data len r = Fault.
Proof.
  intros He Hp Hl Hi. unfold ssh_reader_get_string, ssh_reader_get_u32. rewrite He, i32_small by lia. cbn [orb].
  destruct (Z.ltb_spec (r_len r) (r_pos r + 4)); [lia|]. unfold ssh_read_u32_be. by rewrite (load1_negative _ (r_base r + r_pos r)) by lia.
Qed.

(** C26: an authentication request whose first length has its highest bit set is not
    rejected: the length is taken as a negative number, the reader goes back in
    front of the message and reads there. *)
Theorem ssh_negative_length_faults t size rest out :
  2 ^ 31 ≤ size < 2 ^ 32 - 5 → Forall is_byte rest → Z.of_nat (length rest) < 2 ^ 30 →
  ssh_auth_parse_request (t :: ssh_write_u32_be size ++ rest) (Z.of_nat (length rest) + 5) out = Fault.
Proof.
  intros Hs Hb Hl. set (mem := t :: _). assert (length mem = (5 + length rest)%nat) as Hlen by done.
  unfold ssh_auth_parse_request. destruct (Z.leb_spec (Z.of_nat (length rest) + 5) 1); [lia|]. rewrite i32_small by lia.
  set (r := ssh_reader_init _ _ _). assert (reader_ok r) as Hok by (split; simpl; lia || done).
  destruct (get_string_negative r size rest Hok) as (p & ->); [lia| |].
  { unfold unread, r. cbn [ssh_reader_init r_len r_pos r_base r_mem]. rewrite Z.sub_0_r. change (Z.to_nat (1 + 0)) with 1%nat.
    apply take_ge. unfold mem. simpl. lia. }
  rewrite bind_ret, get_string_before by (done || unfold r; cbn; lia). done.
Qed.

Lemma ssh_negative_length_faults_witness :
  ssh_auth_parse_request [50; 0xff; 0xff; 0xff; 0; 1; 2; 3; 4; 5] 10 (AuthRequest zero_text zero_text zero_text None 0 false) = Fault.
Proof.
  apply (ssh_negative_length_faults 50 0xffffff00 [1; 2; 3; 4; 5]).
  - lia.
  - repeat constructor; vm_compute; congruence.
  - vm_compute. congruence.
Defined.

(** ** Packets *)

Lemma move_bytes_front mem src n :
  0 < src → 0 ≤ n → src + n ≤ Z.of_nat (length mem) →
  ∃ mem', ssh_move_bytes mem 0 src n = Ret mem' ∧ length mem' = length mem ∧ take (Z.to_nat n) mem' = take (Z.to_nat n) (drop (Z.to_nat src) mem).
Proof.
  intros Hs Hn Hl. unfold ssh_move_bytes. destruct (Z.eqb_spec 0 src); [lia|]. cbn [orb].
  destruct (Z.leb_spec n 0); [exists mem; by assert (n = 0) as -> by lia|]. destruct (Z.ltb_spec 0 src); [|lia].
  destruct (move_up mem 0 src (Z.to_nat n)) as (m & E & Hlen & Hm); [lia..|]. rewrite Z2Nat.id in * by lia.
  exists m. split; [done|]. split; [done|]. apply list_eq. intros i. destruct (decide (i < Z.to_nat n)%nat).
  - rewrite !lookup_take_lt, lookup_drop, Hm, decide_True by lia. f_equal. lia.
  - by rewrite !lookup_take_ge by lia.
Qed.

(** A packet with its padding. *)
Definition packet (body padding : list Z) : list Z :=
  ssh_write_u32_be (1 + Z.of_nat (length body) + Z.of_nat (length padding)) ++ [Z.of_nat (length padding)] ++ body ++ padding.

Lemma packet_length body padding : length (packet body padding) = (5 + length body + length padding)%nat.
Proof. unfold packet. rewrite !length_app. simpl. lia. Qed.

(** C27: a packet at the front of the receive buffer is left there until it is
    complete; then its payload is delivered without the padding, the bytes received
    behind it move to the front of the buffer, and the sequence number is
    incremented. *)
Theorem ssh_packet_decoded body padding rest junk limit s :
  (4 ≤ length padding < 256)%nat → rx_buf s = packet body padding ++ rest ++ junk → Z.of_nat (length (rx_buf s)) < 2 ^ 31 →
  Z.of_nat (length (packet body padding)) ≤ limit → (length body ≤ length (payload s))%nat → 0 ≤ rx_len s →
  (rx_len s < Z.of_nat (length (packet body padding)) → ssh_try_decode_plain_packet_buffer limit s = Ret (0, s)) ∧
  (rx_len s = Z.of_nat (length (packet body padding) + length rest) →
   ∃ s', ssh_try_decode_plain_packet_buffer limit s = Ret (1, s') ∧
     take (length body) (payload s') = body ∧ payload_len s' = Z.of_nat (length body) ∧
     take (length rest) (rx_buf s') = rest ∧ rx_len s' = Z.of_nat (length rest) ∧ rx_seq s' = u32 (rx_seq s + 1)).
Proof.
  intros Hpad Hbuf Hi Hmax Hroom Hlen. set (n := 1 + Z.of_nat (length body) + Z.of_nat (length padding)).
  pose proof (f_equal length Hbuf) as Htot. rewrite !length_app in Htot. rewrite packet_length in *.
  assert (ssh_read_u32_be (rx_buf s) 0 = Ret n) as Hn.
  { apply (read_u32_be_write _ _ n ([Z.of_nat (length padding)] ++ body ++ padding ++ rest ++ junk));
      [lia|unfold is_u32, U32, n; lia|]. rewrite Hbuf. unfold packet. by rewrite <-!app_assoc. }
  unfold ssh_try_decode_plain_packet_buffer. destruct (Z.ltb_spec (rx_len s) 4); [split; [done|lia]|].
  rewrite Hn, bind_ret. cbv zeta. rewrite (i32_small n) by (unfold n; lia). rewrite (i32_small (n + 4)) by (unfold n; lia).
  destruct (Z.ltb_spec n 5); [unfold n in *; lia|]. cbn [orb].
  destruct (Z.ltb_spec (rx_len s) (n + 4)); [split; [done|unfold n in *; lia]|]. split; [unfold n in *; lia|]. intros Hrx.
  destruct (Z.ltb_spec limit (n + 4)); [unfold n in *; lia|].
  rewrite (load1_Ret _ 4 (Z.of_nat (length padding))), bind_ret by (done || by rewrite Hbuf).
  rewrite (i32_small (n - _ - 1)) by (unfold n; lia). replace (n - Z.of_nat (length padding) - 1) with (Z.of_nat (length body)) by (unfold n; lia).
  destruct (Z.ltb_spec (Z.of_nat (length padding)) 4); [lia|]. destruct (Z.ltb_spec (Z.of_nat (length body)) 0); [lia|]. cbn [orb].
  assert (drop 5 (rx_buf s) = body ++ padding ++ rest ++ junk) as H5.
  { rewrite Hbuf. unfold packet. rewrite <-!app_assoc. done. }
  assert (drop (Z.to_nat (n + 4)) (rx_buf s) = rest ++ junk) as Hrest.
  { rewrite Hbuf. rewrite drop_app_length'; [done|]. rewrite packet_length. unfold n. lia. }
  rewrite load_bytes_Ret, bind_ret by lia. change (Z.to_nat 5) with 5%nat. rewrite H5, Nat2Z.id, take_app_length.
  destruct (store_bytes_cases (payload s) 0 body) as [(_ & _ & ->)|[? _]]; [|lia]. rewrite bind_ret.
  rewrite i32_small by (unfold n in *; lia). replace (rx_len s - (n + 4)) with (Z.of_nat (length rest)) by (unfold n in *; lia).
  destruct (move_bytes_front (rx_buf s) (n + 4) (Z.of_nat (length rest))) as (m & -> & _ & Hm); [unfold n in *; lia..|].
  rewrite bind_ret. eexists. split; [done|]. cbn [payload payload_len rx_buf rx_len rx_seq]. split_and!; try done.
  - change (Z.to_nat 0) with 0%nat. rewrite take_0. cbn [app]. apply (take_app_length body).
  - rewrite Nat2Z.id in Hm. rewrite Hm, Hrest. apply take_app_length.
Qed.

Lemma ssh_packet_decoded_witness :
  ∃ s', ssh_try_decode_plain_packet_buffer 2048
      (Packets ([0; 0; 0; 8; 4; 1; 2; 3; 0; 0; 0; 0] ++ [0; 0; 0; 9; 77] ++ [0]) 17 0xffffffff [9; 9; 9; 9] 0) = Ret (1, s') ∧
    take 3 (payload s') = [1; 2; 3] ∧ take 5 (rx_buf s') = [0; 0; 0; 9; 77] ∧ rx_seq s' = 0.
Proof.
  destruct (ssh_packet_decoded [1; 2; 3] [0; 0; 0; 0] [0; 0; 0; 9; 77] [0] 2048
    (Packets ([0; 0; 0; 8; 4; 1; 2; 3; 0; 0; 0; 0] ++ [0; 0; 0; 9; 77] ++ [0]) 17 0xffffffff [9; 9; 9; 9] 0)) as [_ H];
    [vm_compute; lia|reflexivity|vm_compute; congruence|vm_compute; congruence|vm_compute; lia|vm_compute; congruence|].
  destruct (H eq_refl) as (s' & Hrun & Hp & _ & Hr & _ & Hq). exists s'. split; [exact Hrun|]. split; [exact Hp|]. split; [exact Hr|exact Hq].
Defined.

(** A length whose sum with its own size does not fit an [int] passes the tests for
    the received and the largest length, and more is copied than there is. *)
Example ssh_packet_overflow s :
  length (rx_buf s) = 2048%nat → rx_len s = 64 → take 5 (rx_buf s) = [0x7f; 0xff; 0xff; 0xff; 4] →
  ssh_try_decode_plain_packet_buffer 2048 s = Fault.
Proof.
  intros Hl Hr Ht. unfold ssh_try_decode_plain_packet_buffer. rewrite Hr. change (64 <? 4) with false. cbv iota.
  assert (drop (Z.to_nat 0) (rx_buf s) = [0x7f; 0xff; 0xff; 0xff] ++ 4 :: drop 5 (rx_buf s)) as Hd.
  { rewrite <-(take_drop 5 (rx_buf s)) at 1. by rewrite Ht. }
  rewrite (read_u32_be_at (rx_buf s) 0 _ _ _ _ _ ltac:(done) Hd), bind_ret by (repeat constructor; vm_compute; congruence).
  change (0x7f * 2 ^ 24 + 0xff * 2 ^ 16 + 0xff * 2 ^ 8 + 0xff) with 0x7fffffff. cbv zeta.
  rewrite (i32_small 0x7fffffff) by lia. rewrite (i32_wrap (0x7fffffff + 4)) by lia.
  destruct (Z.ltb_spec 0x7fffffff 5); [lia|]. destruct (Z.ltb_spec 64 (0x7fffffff + 4 - 2 ^ 32)); [lia|]. cbn [orb].
  destruct (Z.ltb_spec 2048 (0x7fffffff + 4 - 2 ^ 32)); [lia|].
  rewrite (load1_Ret _ 4 4), bind_ret; [|done|by rewrite <-(take_drop 5 (rx_buf s)), Ht].
  rewrite (i32_small (0x7fffffff - 4 - 1)) by lia. change (4 <? 4) with false. cbn [orb].
  destruct (Z.ltb_spec (0x7fffffff - 4 - 1) 0); [lia|]. unfold load_bytes.
  destruct (Z.leb_spec (5 + (0x7fffffff - 4 - 1)) (Z.of_nat (length (rx_buf s)))); [lia|]. by rewrite andb_false_r.
Qed.

(** ** Authentication *)

Lemma copy_loop (mem : list Z) src k (dest : list Z) i :
  0 ≤ src → 0 ≤ i ≤ Z.of_nat (length dest) → src + i + Z.of_nat k ≤ Z.of_nat (length mem) →
  foldM (fun dest i => b ← load1 mem (src + i); store1 dest i b) (seqZ i (Z.of_nat k)) dest
    = store_bytes dest i (take k (drop (Z.to_nat (src + i)) mem)).
Proof.
  revert dest i. induction k as [|k IH]; intros dest i Hs Hi Hm.
  - rewrite take_0. by rewrite store_bytes_nil.
  - rewrite seqZ_cons by lia. cbn [foldM]. destruct (lookup_lt_is_Some_2 mem (Z.to_nat (src + i))) as [b Hb]; [lia|].
    rewrite (load1_Ret _ _ b), bind_ret by (done || lia). rewrite (drop_S _ b) by done. rewrite firstn_cons, store_bytes_cons by lia.
    destruct (store1_cases dest i b) as [[Hlt ->]|[_ ->]]; [|done]. rewrite !bind_ret.
    replace (Z.pred (Z.of_nat (S k))) with (Z.of_nat k) by lia. change (Z.succ i) with (i + 1).
    rewrite IH by (rewrite ?length_insert; lia). do 3 f_equal. lia.
Qed.

(** A text in an array of zeros. *)
Definition padded (s : list Z) : list Z := s ++ replicate (Z.to_nat SSH_AUTH_TEXT_MAX - length s) 0.

(** What a function on C strings sees of some bytes: those before the first NUL. *)
Fixpoint before_nul (l : list Z) : list Z :=
  match l with
  | [] => []
  | c :: l => if c =? 0 then [] else c :: before_nul l
  end.

Lemma before_nul_text l : Forall is_byte l → text (before_nul l).
Proof.
  induction 1 as [|c l Hc _ IH]; simpl; [constructor|]. destruct (Z.eqb_spec c 0); constructor; [|done]. unfold is_byte in Hc. lia.
Qed.

Lemma before_nul_split l : l = before_nul l ∨ ∃ rest, l = before_nul l ++ 0 :: rest.
Proof.
  induction l as [|c l IH]; simpl; [by left|]. destruct (Z.eqb_spec c 0) as [->|]; [right; by exists l|].
  destruct IH as [IH|[rest IH]]; [left; congruence|right; exists rest; simpl; congruence].
Qed.

Lemma padded_bytes s : Forall is_byte s → (length s < 32)%nat → string_at (padded s) 0 (before_nul s).
Proof.
  intros Hs Hl. split; [by apply before_nul_text|done|]. change (Z.to_nat 0) with 0%nat. rewrite drop_0. unfold padded, SSH_AUTH_TEXT_MAX.
  change (Z.to_nat 32) with 32%nat. destruct (before_nul_split s) as [E|[rest E]].
  - rewrite <-E. exists (replicate (31 - length s) 0). f_equal. by replace (32 - length s)%nat with (S (31 - length s)) by lia.
  - exists (rest ++ replicate (32 - length s) 0). transitivity ((before_nul s ++ 0 :: rest) ++ replicate (32 - length s) 0); [by rewrite <-E|by rewrite <-app_assoc].
Qed.

Lemma padded_string s : text s → (length s < 32)%nat → string_at (padded s) 0 s.
Proof.
  intros Hs Hl. split; [done|done|]. change (Z.to_nat 0) with 0%nat. rewrite drop_0. unfold padded, SSH_AUTH_TEXT_MAX.
  exists (replicate (31 - length s) 0). f_equal. change (Z.to_nat 32) with 32%nat.
  by replace (32 - length s)%nat with (S (31 - length s)) by lia.
Qed.

Lemma copy_text_spec mem off s rest :
  0 ≤ off → drop (Z.to_nat off) mem = s ++ rest → (length s < 32)%nat →
  ssh_auth_copy_text zero_text SSH_AUTH_TEXT_MAX mem (Some off) (Z.of_nat (length s)) = Ret (0, padded s).
Proof.
  intros Ho Hm Hl. unfold ssh_auth_copy_text, SSH_AUTH_TEXT_MAX. change (32 <=? 0) with false.
  destruct (Z.ltb_spec (Z.of_nat (length s)) 0); [lia|]. cbn [orb]. destruct (Z.leb_spec 32 (Z.of_nat (length s))); [lia|].
  pose proof (f_equal length Hm) as Hlen. rewrite length_drop, length_app in Hlen.
  destruct (decide (s = [])) as [->|Hne]; [done|]. assert (0 < length s)%nat by (destruct s; simpl; done || lia).
  rewrite copy_loop by (done || unfold zero_text, SSH_AUTH_TEXT_MAX; rewrite ?length_replicate; lia).
  rewrite Z.add_0_r, Hm, take_app_length. destruct (store_bytes_cases zero_text 0 s) as [(_ & Hfit & ->)|[Hno _]].
  2:{ destruct Hno. unfold zero_text, SSH_AUTH_TEXT_MAX. rewrite length_replicate. lia. }
  rewrite bind_ret. change (take (Z.to_nat 0) zero_text) with (@nil Z). cbn [app]. unfold zero_text, SSH_AUTH_TEXT_MAX.
  change (Z.to_nat 0 + length s)%nat with (length s). rewrite drop_replicate. change (Z.to_nat 32) with 32%nat.
  rewrite store1_Ret, bind_ret by (rewrite length_app, length_replicate; lia). do 2 f_equal. unfold padded, SSH_AUTH_TEXT_MAX.
  apply list_insert_id. rewrite Nat2Z.id, lookup_app_r, Nat.sub_diag by lia. change (Z.to_nat 32) with 32%nat.
  by apply lookup_replicate_2; lia.
Qed.

Lemma copy_text_refuses mem off len : 32 ≤ len → ssh_auth_copy_text zero_text SSH_AUTH_TEXT_MAX mem (Some off) len = Ret (-1, zero_text).
Proof.
  intros Hl. unfold ssh_auth_copy_text, SSH_AUTH_TEXT_MAX. change (32 <=? 0) with false.
  destruct (Z.ltb_spec len 0); [lia|]. cbn [orb]. destruct (Z.leb_spec 32 len); [done|lia].
Qed.

Lemma strcmp_eqb m1 o1 s1 m2 o2 s2 :
  string_at m1 o1 s1 → string_at m2 o2 s2 → ∃ r, strcmp m1 o1 m2 o2 = Ret r ∧ (r =? 0) = bool_decide (s1 = s2).
Proof.
  intros H1 H2. destruct (strcmp_spec _ _ _ _ _ _ H1 H2) as (r & -> & Hr). exists r. split; [done|].
  destruct (bool_decide_reflect (s1 = s2)) as [E|E].
  - apply text_compare_eq in E. rewrite E in Hr. apply Z.eqb_eq. by apply Z.compare_eq.
  - apply Z.eqb_neq. intros ->. apply E, text_compare_eq. by rewrite <-Hr.
Qed.

Lemma bytes_equal_loop_spec a b mem off ra rb k :
  0 ≤ off → 0 ≤ k → length a = length b → Forall is_byte b →
  drop (Z.to_nat (off + k)) mem = a ++ ra → ∀ rhs, drop (Z.to_nat k) rhs = b ++ rb →
  bytes_equal_loop (length a) mem off rhs k = Ret (bool_decide (a = b)).
Proof.
  intros Ho Hk Hlen Hb Hm rhs Hr. revert b k Hk Hlen Hb Hm Hr. induction a as [|x a IH]; intros [|y b] k Hk Hlen Hb Hm Hr; try done.
  simpl length. cbn [bytes_equal_loop].
  pose proof (load1_at mem (off + k) (x :: a) ra 0 x ltac:(lia) Hm eq_refl) as L1. rewrite Z.add_0_r in L1.
  pose proof (load1_at rhs k (y :: b) rb 0 y Hk Hr eq_refl) as L2. rewrite Z.add_0_r in L2.
  rewrite L1, bind_ret, L2, bind_ret. apply Forall_cons in Hb as [Hy Hb]. unfold u8, is_byte in *. rewrite Z.mod_small by lia.
  destruct (Z.eqb_spec x y) as [->|Hne]; cbn [negb].
  - apply (f_equal (drop 1)) in Hm, Hr. rewrite drop_drop in Hm, Hr. rewrite (IH b (k + 1)); [|lia|by injection Hlen|done| |].
    + f_equal. apply bool_decide_ext. naive_solver.
    + replace (Z.to_nat (off + (k + 1))) with (Z.to_nat (off + k) + 1)%nat by lia. by rewrite Hm.
    + replace (Z.to_nat (k + 1)) with (Z.to_nat k + 1)%nat by lia. by rewrite Hr.
  - f_equal. symmetry. apply bool_decide_eq_false. naive_solver.
Qed.

(** A step over a string, with what the next steps need. *)
Lemma string_step r s rest data len :
  reader_ok r → unread r = encode (FString s) ++ rest →
  ∃ off r', ssh_reader_get_string data len r = Ret (Some off, Z.of_nat (length s), r') ∧ r_mem r' = r_mem r ∧ 0 ≤ off ∧
    reader_ok r' ∧ unread r' = rest ∧ ∃ rest', drop (Z.to_nat off) (r_mem r) = s ++ rest'.
Proof.
  intros Hok Hu. destruct (get_string_spec r s rest data len Hok Hu) as [-> Hm].
  destruct (unread_mem r _ _ Hok Hu) as (_ & _ & _ & Hok' & Hu'). destruct Hok as [? [? _] _ _].
  eexists _, _. split; [done|]. split; [done|]. split; [lia|]. done.
Qed.

Lemma bool_step r b rest :
  reader_ok r → unread r = encode (FBool b) ++ rest →
  ∃ r', ssh_reader_get_bool r = Ret (b, r') ∧ r_mem r' = r_mem r ∧ reader_ok r' ∧ unread r' = rest.
Proof.
  intros Hok Hu. unfold ssh_reader_get_bool. rewrite (get_byte_spec r (if b then 1 else 0) rest) by done.
  destruct (unread_mem r [if b then 1 else 0] rest Hok Hu) as (_ & _ & _ & Hok' & Hu'). eexists. rewrite bind_ret.
  split; [by destruct b|]. done.
Qed.

(** The message of a password request. *)
Definition password_request (user service password : list Z) (change : bool) : list Z :=
  50 :: concat (encode <$> [FString user; FString service; FString (chars "password"); FBool change; FString password]).

Section request.
Context (user service password : list Z) (change : bool) (out : ssh_auth_request).
Context (Hlen : Z.of_nat (length user + length service + length password) < 2 ^ 30).
#[local] Set Default Proof Using "Hlen".
#[local] Abbreviation mem := (password_request user service password change).

(** The reader of a request, before its first field. *)
Lemma request_reader : (Z.of_nat (length mem) <=? 1) = false ∧ i32 (Z.of_nat (length mem) - 1) = Z.of_nat (length mem) - 1 ∧
  let r := ssh_reader_init mem 1 (Z.of_nat (length mem) - 1) in
  reader_ok r ∧ unread r = encode (FString user) ++ encode (FString service) ++ encode (FString (chars "password")) ++
    encode (FBool change) ++ encode (FString password) ++ [].
Proof.
  assert (Z.of_nat (length mem) = Z.of_nat (length user + length service + length password + 26)) as Hl.
  { unfold password_request. cbn [fmap list_fmap concat]. cbn [length]. rewrite !length_app. simpl. lia. }
  split; [lia|]. split; [apply i32_small; lia|]. cbv zeta. split.
  - split; cbn [ssh_reader_init r_pos r_len r_base r_mem r_error]; lia || done.
  - unfold unread. cbn [ssh_reader_init r_len r_pos r_base r_mem]. rewrite Z.sub_0_r. change (Z.to_nat (1 + 0)) with 1%nat.
    rewrite take_ge; [done|]. rewrite length_drop. lia.
Qed.

Lemma parse_password_request : (length user < 32)%nat → (length service < 32)%nat →
  ∃ off rest, ssh_auth_parse_request mem (Z.of_nat (length mem)) out
      = Ret (0, AuthRequest (padded user) (padded service) (padded (chars "password")) (Some off) (Z.of_nat (length password)) change) ∧
    0 ≤ off ∧ drop (Z.to_nat off) mem = password ++ rest.
Proof.
  intros Hlu Hls. destruct request_reader as (Hl1 & Hl2 & Hok0 & Hu0). unfold ssh_auth_parse_request. rewrite Hl1, Hl2. set (r0 := ssh_reader_init _ _ _) in *. cbv zeta.
  destruct (string_step r0 _ _ None 0 Hok0 Hu0) as (o1 & r1 & -> & M1 & Ho1 & Hok1 & Hu1 & [t1 D1]). rewrite bind_ret.
  destruct (string_step r1 _ _ None 0 Hok1 Hu1) as (o2 & r2 & -> & M2 & Ho2 & Hok2 & Hu2 & [t2 D2]). rewrite bind_ret.
  destruct (string_step r2 _ _ None 0 Hok2 Hu2) as (o3 & r3 & -> & M3 & Ho3 & Hok3 & Hu3 & [t3 D3]). rewrite bind_ret.
  change (r_mem r0) with mem in *. rewrite M2, M1 in D3. rewrite M1 in D2. rewrite (rd_error _ Hok3).
  rewrite (copy_text_spec mem o1 user t1), bind_ret by done. change (0 <? 0) with false. cbv iota.
  rewrite (copy_text_spec mem o2 service t2), bind_ret by done. change (0 <? 0) with false. cbv iota.
  rewrite (copy_text_spec mem o3 (chars "password") t3), bind_ret by (done || vm_compute; lia). change (0 <? 0) with false. cbv iota.
  assert (text (chars "password")) as Htp by (vm_compute; repeat constructor).
  destruct (strcmp_eqb (padded (chars "password")) 0 (chars "password") (c_string "password") 0 (chars "password")) as (r & -> & Hr).
  { apply padded_string; [done|vm_compute; lia]. }
  { by apply literal_at. }
  rewrite bind_ret, Hr, bool_decide_eq_true_2 by done. cbn [negb].
  destruct (bool_step r3 change _ Hok3 Hu3) as (r4 & -> & M4 & Hok4 & Hu4). rewrite bind_ret.
  destruct (string_step r4 _ _ None 0 Hok4 Hu4) as (o5 & r5 & -> & M5 & Ho5 & Hok5 & Hu5 & [t5 D5]). rewrite bind_ret, (rd_error _ Hok5).
  exists o5, t5. split; [done|]. split; [done|]. by rewrite <-M1, <-M2, <-M3, <-M4.
Qed.

Lemma refuse_password_request : ¬ ((length user < 32)%nat ∧ (length service < 32)%nat) →
  ∃ request, ssh_auth_parse_request mem (Z.of_nat (length mem)) out = Ret (-1, request).
Proof.
  intros Hl. destruct request_reader as (Hl1 & Hl2 & Hok0 & Hu0). unfold ssh_auth_parse_request. rewrite Hl1, Hl2. set (r0 := ssh_reader_init _ _ _) in *. cbv zeta.
  destruct (string_step r0 _ _ None 0 Hok0 Hu0) as (o1 & r1 & -> & M1 & Ho1 & Hok1 & Hu1 & [t1 D1]). rewrite bind_ret.
  destruct (string_step r1 _ _ None 0 Hok1 Hu1) as (o2 & r2 & -> & M2 & Ho2 & Hok2 & Hu2 & _). rewrite bind_ret.
  destruct (string_step r2 _ _ None 0 Hok2 Hu2) as (o3 & r3 & -> & _ & _ & Hok3 & _). rewrite bind_ret, (rd_error _ Hok3).
  change (r_mem r0) with mem in D1. destruct (decide (length user < 32)%nat).
  - rewrite (copy_text_spec mem o1 user t1), bind_ret by done. change (0 <? 0) with false. cbv iota.
    rewrite (copy_text_refuses mem o2) by lia. by eexists.
  - rewrite (copy_text_refuses mem o1) by lia. by eexists.
Qed.
End request.

(** C25: a password request sent by a client is parsed when the user and the service have
    less than 32 bytes, and is refused otherwise.  A request that is parsed is accepted
    exactly when it does not ask for a change of the password, the user and the service
    up to their first NUL are those expected, and the password is. *)
Theorem ssh_login_correct user service password change u0 s0 p0 out :
  Forall is_byte user → Forall is_byte service → Forall is_byte password → text u0 → text s0 → text p0 →
  Z.of_nat (length user + length service + length password) < 2 ^ 30 → Z.of_nat (length p0) < 2 ^ 30 →
  let mem := password_request user service password change in
  ∃ res request, ssh_auth_parse_request mem (Z.of_nat (length mem)) out = Ret (res, request) ∧
    res = (if decide ((length user < 32)%nat ∧ (length service < 32)%nat) then 0 else -1) ∧
    (res = 0 → ssh_auth_password_request_matches mem request (u0 ++ [0]) (s0 ++ [0]) (p0 ++ [0])
      = Ret (bool_decide (change = false ∧ before_nul user = u0 ∧ before_nul service = s0 ∧ password = p0))).
Proof.
  intros Hu Hs Hp Hu0 Hs0 Hp0 Hlen Hlp0 mem. case_decide as Hshort.
  2:{ destruct (refuse_password_request user service password change out Hlen Hshort) as [request E]. exists (-1), request. by split; [exact E|]. }
  destruct Hshort as [Hlu Hls].
  destruct (parse_password_request user service password change out Hlen Hlu Hls) as (off & rest & Hparse & Hoff & Hmem).
  eexists 0, _. split; [exact Hparse|]. split; [done|]. intros _. unfold ssh_auth_password_request_matches.
  cbn [a_change a_method a_username a_service a_password a_password_len].
  destruct change; [f_equal; symmetry; apply bool_decide_eq_false; naive_solver|].
  assert (text (chars "password")) as Htp by (vm_compute; repeat constructor).
  destruct (strcmp_eqb (padded (chars "password")) 0 (chars "password") (c_string "password") 0 (chars "password")) as (r & -> & Hr).
  { apply padded_string; [done|vm_compute; lia]. }
  { by apply literal_at. }
  rewrite bind_ret, Hr, bool_decide_eq_true_2 by done. cbn [negb].
  destruct (strcmp_eqb _ _ _ _ _ _ (padded_bytes user Hu Hlu) (literal_at u0 Hu0)) as (r1 & -> & Hr1). rewrite bind_ret, Hr1.
  destruct (bool_decide_reflect (before_nul user = u0)) as [Eu|]; cbn [negb]; [|f_equal; symmetry; apply bool_decide_eq_false; naive_solver].
  destruct (strcmp_eqb _ _ _ _ _ _ (padded_bytes service Hs Hls) (literal_at s0 Hs0)) as (r2 & -> & Hr2). rewrite bind_ret, Hr2.
  destruct (bool_decide_reflect (before_nul service = s0)) as [Es|]; cbn [negb]; [|f_equal; symmetry; apply bool_decide_eq_false; naive_solver].
  rewrite (strlen_spec _ _ _ (literal_at p0 Hp0)), bind_ret by (unfold U32; lia). rewrite i32_small by lia.
  destruct (Z.eqb_spec (Z.of_nat (length password)) (Z.of_nat (length p0))) as [Hl|Hl]; cbn [negb].
  2:{ f_equal. symmetry. apply bool_decide_eq_false. intros (_ & _ & _ & ->). done. }
  destruct (Z.leb_spec (Z.of_nat (length password)) 0).
  { assert (password = []) as -> by (apply nil_length_inv; lia). assert (p0 = []) as -> by (apply nil_length_inv; simpl in *; lia). f_equal. symmetry. by apply bool_decide_eq_true. }
  cbn [or_fault]. rewrite bind_ret, Nat2Z.id.
  rewrite (bytes_equal_loop_spec password p0 mem off rest [0] 0); try (done || lia).
  - f_equal. apply bool_decide_ext. naive_solver.
  - eapply Forall_impl; [exact Hp0|]. simpl. unfold is_byte. lia.
  - by rewrite Z.add_0_r.
Qed.

Lemma ssh_login_correct_witness :
  ∃ request, ssh_auth_parse_request (password_request (chars "root") (chars "ssh-connection") (chars "secret") false) 50
      (AuthRequest zero_text zero_text zero_text None 0 false) = Ret (0, request) ∧
    ssh_auth_password_request_matches (password_request (chars "root") (chars "ssh-connection") (chars "secret") false)
      request (chars "root" ++ [0]) (chars "ssh-connection" ++ [0]) (chars "secret" ++ [0]) = Ret true.
Proof.
  destruct (ssh_login_correct (chars "root") (chars "ssh-connection") (chars "secret") false (chars "root") (chars "ssh-connection") (chars "secret")
    (AuthRequest zero_text zero_text zero_text None 0 false)) as (res & request & Hparse & Hres & Hmatch);
    try (vm_compute; repeat constructor; congruence); try (vm_compute; lia).
  exists request. rewrite decide_True in Hres by (vm_compute; lia). rewrite Hres in Hparse. split; [exact Hparse|]. exact (Hmatch Hres).
Defined.

(** A user with a NUL in its name passes for the part before it. *)
Example ssh_user_with_nul :
  let mem := password_request (chars "root" ++ [0; 120]) (chars "ssh-connection") (chars "secret") false in
  match ssh_auth_parse_request mem (Z.of_nat (length mem)) (AuthRequest zero_text zero_text zero_text None 0 false) with
  | Ret (res, request) => res = 0 ∧ ssh_auth_password_request_matches mem request (chars "root" ++ [0]) (chars "ssh-connection" ++ [0]) (chars "secret" ++ [0]) = Ret true
  | _ => False
  end.
Proof. vm_compute. split; reflexivity. Qed.

(** ** Multiple precision integers *)

(** The number whose digits to the base 256 are the bytes. *)
Definition be_num (l : list Z) : Z := foldl (fun n b => n * 256 + b) 0 l.

Lemma be_num_zeros k l : be_num (replicate k 0 ++ l) = be_num l.
Proof. unfold be_num. rewrite foldl_app. f_equal. induction k as [|k IH]; [done|]. simpl. exact IH. Qed.

(** The number without leading zeros. *)
Lemma leading_zeros l : ∃ k d, l = replicate k 0 ++ d ∧ (d = [] ∨ ∃ b d', d = b :: d' ∧ b ≠ 0).
Proof.
  induction l as [|b l (k & d & -> & Hd)]; [by exists 0%nat, []; split; [|left]|].
  destruct (decide (b = 0)) as [->|]; [by exists (S k), d|]. exists 0%nat, (b :: replicate k 0 ++ d). split; [done|]. right. by eexists _, _.
Qed.

Lemma mpint_start_spec k d data start :
  0 ≤ start → drop (Z.to_nat start) data = replicate k 0 ++ d → (d = [] ∨ ∃ b d', d = b :: d' ∧ b ≠ 0) →
  mpint_start (k + length d) data start = Ret (start + Z.of_nat k).
Proof.
  revert start. induction k as [|k IH]; intros start Hs Hd Hc.
  - rewrite Z.add_0_r. destruct Hc as [->|(b & d' & -> & Hb)]; [done|]. cbn [Nat.add length mpint_start].
    pose proof (load1_at data start _ [] 0 b Hs (eq_trans Hd (eq_sym (app_nil_r _))) eq_refl) as L. rewrite Z.add_0_r in L.
    rewrite L, bind_ret. by destruct (Z.eqb_spec b 0).
  - cbn [Nat.add mpint_start]. pose proof (load1_at data start _ [] 0 0 Hs (eq_trans Hd (eq_sym (app_nil_r _))) eq_refl) as L.
    rewrite Z.add_0_r in L. rewrite L, bind_ret. change (0 =? 0) with true. cbv iota.
    rewrite IH; [f_equal; lia|lia| |done]. apply (f_equal (drop 1)) in Hd. rewrite drop_drop in Hd.
    by replace (Z.to_nat (start + 1)) with (Z.to_nat start + 1)%nat by lia.
Qed.

Lemma high_bit b : is_byte b → (Z.land b 0x80 =? 0) = (b <? 128).
Proof.
  intros Hb. assert (∀ i, i ∈ seqZ 0 256 → (Z.land i 0x80 =? 0) = (i <? 128)) as H.
  { apply Forall_forall. vm_compute. repeat constructor. }
  apply H, elem_of_seqZ. unfold is_byte in Hb. lia.
Qed.

(** What [ssh_writer_put_mpint] puts in the string. *)
Definition mpint_bytes (d : list Z) : list Z :=
  match d with [] => [] | b :: _ => if b <? 128 then d else 0 :: d end.

Lemma put_mpint_append k d w :
  writer_ok w → Forall is_byte d → (d = [] ∨ ∃ b d', d = b :: d' ∧ b ≠ 0) → Z.of_nat (k + length d) < 2 ^ 30 →
  fits (encode (FString (mpint_bytes d))) w →
  ssh_writer_put_mpint (replicate k 0 ++ d) (Z.of_nat (length (replicate k 0 ++ d))) w = Ret (append (encode (FString (mpint_bytes d))) w).
Proof.
  intros Hok Hb Hd Hl Hf. unfold ssh_writer_put_mpint. rewrite length_app, length_replicate, Nat2Z.id.
  rewrite (mpint_start_spec k d) by (done || by rewrite drop_0). rewrite bind_ret, Z.add_0_l.
  destruct Hd as [->|(b & d' & -> & Hne)].
  - cbn [length]. rewrite Nat.add_0_r, Z.eqb_refl. by apply (put_data_fits (ssh_write_u32_be 0)).
  - apply Forall_cons in Hb as [Hb _]. destruct (Z.eqb_spec (Z.of_nat k) (Z.of_nat (k + length (b :: d')))); [cbn [length] in *; lia|].
    rewrite (i32_small (_ - _)) by lia. replace (Z.of_nat (k + length (b :: d')) - Z.of_nat k) with (Z.of_nat (length (b :: d'))) by lia.
    rewrite (load1_Ret _ _ b), bind_ret; [|lia|by rewrite Nat2Z.id, lookup_app_r, length_replicate, Nat.sub_diag by (rewrite length_replicate; lia)].
    rewrite Nat2Z.id, drop_app_length' by by rewrite length_replicate.
    rewrite high_bit by done. cbn [mpint_bytes] in *. destruct (b <? 128); cbn [negb].
    + rewrite <-(put_field_fits _ _ Hok Hf). cbn [put_field]. unfold ssh_writer_put_string.
      destruct (Z.ltb_spec (Z.of_nat (length (b :: d'))) 0); [lia|]. done.
    + pose proof Hf as [He Hfl]. cbn [encode] in *. rewrite length_app in Hfl. set (hdr := ssh_write_u32_be _) in *.
      change (length hdr) with 4%nat in Hfl. change (length (0 :: b :: d')) with (S (length (b :: d'))) in Hfl.
      assert (fits hdr w) as Hn by (split; [done|change (length hdr) with 4%nat; lia]).
      destruct (append_fits hdr w Hok Hn) as (_ & El & Ec & Ee). change (length hdr) with 4%nat in El.
      assert (fits [0] (append hdr w)) as H0 by (split; [done|simpl length; lia]).
      destruct (append_fits [0] _ (append_ok hdr w Hok) H0) as (_ & El0 & Ec0 & Ee0). cbn [length] in El0.
      rewrite i32_small, u32_small by (unfold is_u32, U32; lia). rewrite Z.add_1_r, <-Nat2Z.inj_succ. change (S (length (b :: d'))) with (length (0 :: b :: d')) at 1.
      rewrite (put_data_fits hdr w Hok Hn : ssh_writer_put_u32 _ w = _), bind_ret.
      rewrite (put_data_fits [0] _ (append_ok hdr w Hok) H0 : ssh_writer_put_byte 0 _ = _), bind_ret.
      rewrite put_data_fits; [|by apply append_ok, append_ok|split; [done|lia]].
      rewrite (append_append hdr [0]), append_append; [done|done| |done|];
        (split; [done|rewrite !length_app; change (length hdr) with 4%nat; simpl length in *; lia]).
Qed.

(** The bytes of a number are written as a string that has the same value, has
    no leading zero that is not needed, and does not look negative. *)
Theorem ssh_mpint_value data w :
  writer_ok w → Forall is_byte data → Z.of_nat (length data) < 2 ^ 30 → w_error w = false →
  w_len w + 5 + Z.of_nat (length data) ≤ w_cap w →
  ∃ s w', ssh_writer_put_mpint data (Z.of_nat (length data)) w = Ret w' ∧ w_error w' = false ∧
    written w' = written w ++ encode (FString s) ∧ be_num s = be_num data ∧
    match s with [] => True | b :: s' => b < 128 ∧ (b = 0 → ∃ c s'', s' = c :: s'' ∧ 128 ≤ c) end.
Proof.
  intros Hok Hb Hl He Hfit. destruct (leading_zeros data) as (k & d & -> & Hd). rewrite length_app, length_replicate in Hl, Hfit.
  apply Forall_app in Hb as [_ Hb]. assert (fits (encode (FString (mpint_bytes d))) w) as Hf.
  { split; [done|]. cbn [encode]. rewrite length_app. change (length (ssh_write_u32_be _)) with 4%nat.
    assert (length (mpint_bytes d) ≤ S (length d))%nat by (destruct d as [|b d]; simpl; [lia|]; destruct (b <? 128); simpl; lia). lia. }
  destruct (append_fits _ w Hok Hf) as (Ew & _ & _ & Ee).
  exists (mpint_bytes d), (append (encode (FString (mpint_bytes d))) w). split; [by apply put_mpint_append|]. split_and!; [done|done| |].
  - rewrite be_num_zeros. destruct d as [|b d]; [done|]. cbn [mpint_bytes]. by destruct (b <? 128).
  - destruct Hd as [->|(b & d' & -> & Hne)]; [done|]. cbn [mpint_bytes]. destruct (Z.ltb_spec b 128); [lia|]. split; [lia|]. intros _. by exists b, d'.
Qed.

Lemma ssh_mpint_value_witness :
  ∃ s w', ssh_writer_put_mpint [0; 0; 0x80; 1] 4 (ssh_writer_init (replicate 16 7) 16) = Ret w' ∧ w_error w' = false ∧ be_num s = 0x8001.
Proof.
  destruct (ssh_mpint_value [0; 0; 0x80; 1] (ssh_writer_init (replicate 16 7) 16)) as (s & w' & Hrun & He & _ & Hv & _).
  - split; vm_compute; try split; congruence.
  - repeat constructor; vm_compute; congruence.
  - vm_compute. congruence.
  - reflexivity.
  - vm_compute. congruence.
  - exists s, w'. split; [exact Hrun|]. split; [exact He|exact Hv].
Defined.

(** ** Lists of names *)

(** The parts of a list between its commas. *)
Fixpoint names (l : list Z) : list (list Z) :=
  match l with
  | [] => [[]]
  | c :: l => if c =? 0x2c then [] :: names l else match names l with [] => [[c]] | n :: ns => (c :: n) :: ns end
  end.

(** The first name and the list behind its comma. *)
Lemma names_first l :
  (names l = [l] ∧ Forall (fun c => c ≠ 0x2c) l) ∨
  ∃ n l', l = n ++ 0x2c :: l' ∧ Forall (fun c => c ≠ 0x2c) n ∧ names l = n :: names l'.
Proof.
  induction l as [|c l IH]; [by left|]. cbn [names]. destruct (Z.eqb_spec c 0x2c) as [->|Hc].
  - right. by exists [], l.
  - destruct IH as [[-> Hl]|(n & l' & -> & Hn & ->)]; [left|right].
    + split; [done|by constructor].
    + exists (c :: n), l'. split; [done|]. split; [by constructor|done].
Qed.

Lemma name_end_spec n tl mem off start :
  0 ≤ off → 0 ≤ start → Forall (fun c => c ≠ 0x2c) n → (tl = [] ∨ ∃ tl', tl = 0x2c :: tl') →
  (∃ rest, drop (Z.to_nat (off + start)) mem = n ++ tl ++ rest) →
  name_end (length n + length tl) mem off start = Ret (start + Z.of_nat (length n)).
Proof.
  intros Ho Hs Hn Htl. revert start Hs. induction Hn as [|c n Hc Hn IH]; intros start Hs [rest Hm].
  - rewrite Z.add_0_r. destruct Htl as [->|[tl' ->]]; [done|]. cbn [length Nat.add name_end].
    pose proof (load1_at mem (off + start) (0x2c :: tl') rest 0 0x2c ltac:(lia) Hm eq_refl) as L. rewrite Z.add_0_r in L.
    by rewrite L, bind_ret.
  - cbn [length Nat.add name_end].
    pose proof (load1_at mem (off + start) (c :: n) (tl ++ rest) 0 c ltac:(lia) Hm eq_refl) as L. rewrite Z.add_0_r in L.
    rewrite L, bind_ret. destruct (Z.eqb_spec c 0x2c); [done|]. rewrite IH; [f_equal; lia|lia|]. exists rest.
    apply (f_equal (drop 1)) in Hm. rewrite drop_drop in Hm. by replace (Z.to_nat (off + (start + 1))) with (Z.to_nat (off + start) + 1)%nat by lia.
Qed.

Lemma bytes_equal_spec mem off a rest b :
  0 ≤ off → drop (Z.to_nat off) mem = a ++ rest → text b → Z.of_nat (length b) < 2 ^ 31 →
  ssh_bytes_equal mem off (Z.of_nat (length a)) (b ++ [0]) = Ret (bool_decide (a = b)).
Proof.
  intros Ho Hm Hb Hl. unfold ssh_bytes_equal. rewrite (strlen_spec _ _ b (literal_at b Hb)), bind_ret by (unfold U32; lia).
  rewrite i32_small by lia. destruct (Z.eqb_spec (Z.of_nat (length a)) (Z.of_nat (length b))) as [E|E]; cbn [negb].
  - rewrite Nat2Z.id. apply (bytes_equal_loop_spec a b mem off rest [0] 0); try (done || lia); [|by rewrite Z.add_0_r].
    eapply Forall_impl; [exact Hb|]. simpl. unfold is_byte. lia.
  - f_equal. symmetry. apply bool_decide_eq_false. by intros ->.
Qed.

Lemma namelist_loop_spec fuel mem off len name l start :
  0 ≤ off → 0 ≤ start → start + Z.of_nat (length l) = len → (length l < fuel)%nat → text name → Z.of_nat (length name) < 2 ^ 31 → name ≠ [] →
  (∃ rest, drop (Z.to_nat (off + start)) mem = l ++ rest) →
  namelist_loop fuel mem off len (name ++ [0]) start = Ret (bool_decide (name ∈ names l)).
Proof.
  intros Ho Hs Hlen Hf Ht Hn Hne. revert l start Hs Hlen Hf. induction fuel as [|fuel IH]; intros l start Hs Hlen Hf [rest Hm]; [lia|].
  cbn [namelist_loop]. destruct (Z.leb_spec start len); [|lia].
  assert (∀ n tl, l = n ++ tl → ((if start <? start + Z.of_nat (length n) then ssh_bytes_equal mem (off + start)
      (start + Z.of_nat (length n) - start) (name ++ [0]) else Ret false) = Ret (bool_decide (name = n)))) as Hcmp.
  { intros n tl ->. destruct (Z.ltb_spec start (start + Z.of_nat (length n))).
    - replace (start + Z.of_nat (length n) - start) with (Z.of_nat (length n)) by lia. rewrite <-app_assoc in Hm.
      rewrite (bytes_equal_spec mem (off + start) n (tl ++ rest) name) by (done || lia). f_equal. by apply bool_decide_ext.
    - assert (n = []) as -> by (apply nil_length_inv; lia). by rewrite bool_decide_eq_false_2. }
  destruct (names_first l) as [[Hnm Hno]|(n & l' & -> & Hno & Hnm)].
  - replace (Z.to_nat (len - start)) with (length l + length (@nil Z))%nat by (simpl; lia).
    rewrite (name_end_spec l [] mem off start), bind_ret by (done || naive_solver).
    rewrite (Hcmp l []), bind_ret by by rewrite app_nil_r. rewrite Hnm.
    destruct (Z.leb_spec len (start + Z.of_nat (length l))); [|lia].
    destruct (bool_decide_reflect (name = l)) as [->|]; f_equal; symmetry.
    + apply bool_decide_eq_true. by left.
    + apply bool_decide_eq_false. by rewrite list_elem_of_singleton.
  - rewrite length_app in *. cbn [length] in *. replace (Z.to_nat (len - start)) with (length n + length (0x2c%Z :: l'))%nat by (simpl; lia).
    rewrite <-app_assoc in Hm. rewrite (name_end_spec n (0x2c :: l') mem off start), bind_ret by (done || naive_solver).
    rewrite (Hcmp n (0x2c :: l')), bind_ret by done. rewrite Hnm.
    destruct (Z.leb_spec len (start + Z.of_nat (length n))); [lia|].
    destruct (bool_decide_reflect (name = n)) as [->|]; [f_equal; symmetry; apply bool_decide_eq_true; by left|].
    rewrite (IH l'); [|lia|lia|lia|].
    + f_equal. apply bool_decide_ext. rewrite elem_of_cons. naive_solver.
    + exists rest. apply (f_equal (drop (S (length n)))) in Hm. rewrite drop_drop in Hm.
      replace (Z.to_nat (off + (start + Z.of_nat (length n) + 1))) with (Z.to_nat (off + start) + S (length n))%nat by lia. rewrite Hm.
      change (n ++ (0x2c :: l') ++ rest) with (n ++ [0x2c] ++ l' ++ rest). rewrite app_assoc. apply drop_app_length'.
      rewrite length_app. simpl. lia.
Qed.

(** [ssh_namelist_has] finds a name exactly when it is one of those between the
    commas of the list. *)
Lemma ssh_namelist_has_correct mem off l rest name :
  0 ≤ off → drop (Z.to_nat off) mem = l ++ rest → text name → Z.of_nat (length name) < 2 ^ 31 → name ≠ [] →
  ssh_namelist_has mem off (Z.of_nat (length l)) (name ++ [0]) = Ret (bool_decide (name ∈ names l)).
Proof.
  intros Ho Hm Ht Hl Hne. apply namelist_loop_spec; try (done || lia). exists rest. by rewrite Z.add_0_r.
Qed.
