(* ===== verification/Sha256.v ===== *)
(** * SHA-256

    The hash of src/lib/sha256.c over contexts with checked arrays, and the function
    FIPS 180-4 defines: words by their bits, constants from the roots of the primes,
    padding of the message and a fold over its blocks. *)

From S2P Require Import Prelude Ring Words.

(** ** The code *)

Definition ROTRIGHT (a b : Z) : Z := Z.lor (Z.shiftr a b) (u32 (Z.shiftl a (32 - b))).
Definition CH (x y z : Z) : Z := Z.lxor (Z.land x y) (Z.land (not32 x) z).
Definition MAJ (x y z : Z) : Z := Z.lxor (Z.lxor (Z.land x y) (Z.land x z)) (Z.land y z).
Definition EP0 (x : Z) : Z := Z.lxor (Z.lxor (ROTRIGHT x 2) (ROTRIGHT x 13)) (ROTRIGHT x 22).
Definition EP1 (x : Z) : Z := Z.lxor (Z.lxor (ROTRIGHT x 6) (ROTRIGHT x 11)) (ROTRIGHT x 25).
Definition SIG0 (x : Z) : Z := Z.lxor (Z.lxor (ROTRIGHT x 7) (ROTRIGHT x 18)) (Z.shiftr x 3).
Definition SIG1 (x : Z) : Z := Z.lxor (Z.lxor (ROTRIGHT x 17) (ROTRIGHT x 19)) (Z.shiftr x 10).

Definition k : list Z := [
  0x428A2F98;0x71374491;0xB5C0FBCF;0xE9B5DBA5;0x3956C25B;0x59F111F1;0x923F82A4;0xAB1C5ED5;
  0xD807AA98;0x12835B01;0x243185BE;0x550C7DC3;0x72BE5D74;0x80DEB1FE;0x9BDC06A7;0xC19BF174;
  0xE49B69C1;0xEFBE4786;0x0FC19DC6;0x240CA1CC;0x2DE92C6F;0x4A7484AA;0x5CB0A9DC;0x76F988DA;
  0x983E5152;0xA831C66D;0xB00327C8;0xBF597FC7;0xC6E00BF3;0xD5A79147;0x06CA6351;0x14292967;
  0x27B70A85;0x2E1B2138;0x4D2C6DFC;0x53380D13;0x650A7354;0x766A0ABB;0x81C2C92E;0x92722C85;
  0xA2BFE8A1;0xA81A664B;0xC24B8B70;0xC76C51A3;0xD192E819;0xD6990624;0xF40E3585;0x106AA070;
  0x19A4C116;0x1E376C08;0x2748774C;0x34B0BCB5;0x391C0CB3;0x4ED8AA4A;0x5B9CCA4F;0x682E6FF3;
  0x748F82EE;0x78A5636F;0x84C87814;0x8CC70208;0x90BEFFFA;0xA4506CEB;0xBEF9A3F7;0xC67178F2].

(** [SHA256_CTX]; [bitlen] has 64 bits. *)
Record SHA256_CTX := Ctx {
  data : list Z;
  datalen : Z;
  bitlen : Z;
  state : list Z }.

(** The variables [a] to [h] of the compression. *)
Record working := Working { va : Z; vb : Z; vc : Z; vd : Z; ve : Z; vf : Z; vg : Z; vh : Z }.

(** [m[i]] of the first loop; the shifts are on [int]. *)
Definition load_word (d : list Z) (j : Z) : outcome Z :=
  b0 ← load1 d j;
  b1 ← load1 d (j + 1);
  b2 ← load1 d (j + 2);
  b3 ← load1 d (j + 3);
  Ret (u32 (Z.lor (Z.lor (Z.lor (i32 (Z.shiftl b0 24)) (Z.shiftl b1 16)) (Z.shiftl b2 8)) b3)).

(** The array [m] is the part of it that has been written. *)
Definition load_step (d : list Z) (s : list Z * Z) (i : Z) : outcome (list Z * Z) :=
  let '(m, j) := s in w ← load_word d j; Ret (m ++ [w], j + 4).

Definition expand_step (m : list Z) (i : Z) : outcome (list Z) :=
  m2 ← load1 m (i - 2);
  m7 ← load1 m (i - 7);
  m15 ← load1 m (i - 15);
  m16 ← load1 m (i - 16);
  Ret (m ++ [u32 (SIG1 m2 + m7 + SIG0 m15 + m16)]).

Definition round (m : list Z) (w : working) (i : Z) : outcome working :=
  ki ← load1 k i;
  mi ← load1 m i;
  let t1 := u32 (vh w + EP1 (ve w) + CH (ve w) (vf w) (vg w) + ki + mi) in
  let t2 := u32 (EP0 (va w) + MAJ (va w) (vb w) (vc w)) in
  Ret (Working (u32 (t1 + t2)) (va w) (vb w) (vc w) (u32 (vd w + t1)) (ve w) (vf w) (vg w)).

Definition add_state (s : list Z) (i v : Z) : outcome (list Z) :=
  o ← load1 s i; store1 s i (u32 (o + v)).

Definition sha256_transform (ctx : SHA256_CTX) (d : list Z) : outcome SHA256_CTX :=
  '(m, _) ← foldM (load_step d) (seqZ 0 16) ([], 0);
  m ← foldM expand_step (seqZ 16 48) m;
  let s := state ctx in
  a ← load1 s 0; b ← load1 s 1; c ← load1 s 2; d' ← load1 s 3;
  e ← load1 s 4; f ← load1 s 5; g ← load1 s 6; h ← load1 s 7;
  w ← foldM (round m) (seqZ 0 64) (Working a b c d' e f g h);
  s ← add_state s 0 (va w);
  s ← add_state s 1 (vb w);
  s ← add_state s 2 (vc w);
  s ← add_state s 3 (vd w);
  s ← add_state s 4 (ve w);
  s ← add_state s 5 (vf w);
  s ← add_state s 6 (vg w);
  s ← add_state s 7 (vh w);
  Ret (Ctx (data ctx) (datalen ctx) (bitlen ctx) s).

(** [sha256_init] leaves [data] as it is. *)
Definition sha256_init (ctx : SHA256_CTX) : SHA256_CTX :=
  Ctx (data ctx) 0 0
    [0x6a09e667;0xbb67ae85;0x3c6ef372;0xa54ff53a;0x510e527f;0x9b05688c;0x1f83d9ab;0x5be0cd19].

Definition u64 (x : Z) : Z := x mod 2 ^ 64.

Definition update_step (src : list Z) (ctx : SHA256_CTX) (i : Z) : outcome SHA256_CTX :=
  b ← load1 src i;
  d ← store1 (data ctx) (datalen ctx) b;
  let ctx := Ctx d (u32 (datalen ctx + 1)) (bitlen ctx) (state ctx) in
  if datalen ctx =? 64 then
    ctx ← sha256_transform ctx (data ctx);
    Ret (Ctx (data ctx) 0 (u64 (bitlen ctx + 512)) (state ctx))
  else Ret ctx.

Definition sha256_update (ctx : SHA256_CTX) (src : list Z) (len : Z) : outcome SHA256_CTX :=
  foldM (update_step src) (seqZ 0 len) ctx.

(** The loops that write zeros from [i] up to [n]. *)
Definition zero_fill (d : list Z) (i n : Z) : outcome (list Z) :=
  foldM (fun d i => store1 d i 0) (seqZ i (n - i)) d.

(** The eight stores of the length, from the last byte to the first. *)
Definition store_length (d : list Z) (n : Z) : outcome (list Z) :=
  foldM (fun d i => store1 d (63 - i) (Z.shiftr n (8 * i) mod 256)) (seqZ 0 8) d.

(** The bytes of the state; [n] is the word and [i] the byte of it. *)
Definition store_digest (s : list Z) (hash : list Z) : outcome (list Z) :=
  foldM (fun hash i =>
    foldM (fun hash n =>
      w ← load1 s n;
      store1 hash (i + 4 * n) (Z.land (Z.shiftr w (24 - i * 8)) 0xff)) (seqZ 0 8) hash)
    (seqZ 0 4) hash.

Definition sha256_final (ctx : SHA256_CTX) (hash : list Z) : outcome (SHA256_CTX * list Z) :=
  let i := datalen ctx in
  ctx ←
    (if datalen ctx <? 56 then
       d ← store1 (data ctx) i 0x80;
       d ← zero_fill d (i + 1) 56;
       Ret (Ctx d (datalen ctx) (bitlen ctx) (state ctx))
     else
       d ← store1 (data ctx) i 0x80;
       d ← zero_fill d (i + 1) 64;
       ctx ← sha256_transform (Ctx d (datalen ctx) (bitlen ctx) (state ctx)) d;
       d ← store_bytes (data ctx) 0 (replicate 56 0);
       Ret (Ctx d (datalen ctx) (bitlen ctx) (state ctx)));
  let bits := u64 (bitlen ctx + u32 (datalen ctx * 8)) in
  d ← store_length (data ctx) bits;
  ctx ← sha256_transform (Ctx d (datalen ctx) bits (state ctx)) d;
  hash ← store_digest (state ctx) hash;
  Ret (ctx, hash).

(** ** FIPS 180-4 *)

Definition ROTR (n x : Z) : Z := word (fun i => Z.testbit x ((i + n) mod 32)).
Definition SHR (n x : Z) : Z := word (fun i => Z.testbit x (i + n)).
Definition XOR3 (x y z : Z) : Z :=
  word (fun i => xorb (xorb (Z.testbit x i) (Z.testbit y i)) (Z.testbit z i)).
(** [x] chooses between [y] and [z]; the majority of [x], [y] and [z]. *)
Definition Ch (x y z : Z) : Z :=
  word (fun i => if Z.testbit x i then Z.testbit y i else Z.testbit z i).
Definition Maj (x y z : Z) : Z :=
  word (fun i => 2 <=? Z.b2z (Z.testbit x i) + Z.b2z (Z.testbit y i) + Z.b2z (Z.testbit z i)).
Definition Sigma0 (x : Z) : Z := XOR3 (ROTR 2 x) (ROTR 13 x) (ROTR 22 x).
Definition Sigma1 (x : Z) : Z := XOR3 (ROTR 6 x) (ROTR 11 x) (ROTR 25 x).
Definition sigma0 (x : Z) : Z := XOR3 (ROTR 7 x) (ROTR 18 x) (SHR 3 x).
Definition sigma1 (x : Z) : Z := XOR3 (ROTR 17 x) (ROTR 19 x) (SHR 10 x).

(** The first 32 bits of the fractional part of the [e]-th root of [p]: the largest [r]
    with [r ^ e ≤ p * 2 ^ (32 * e)], found bit by bit, without its integer part. *)
Fixpoint root_loop (e x : Z) (bit : nat) (r : Z) : Z :=
  let r' := r + 2 ^ Z.of_nat bit in
  let r := if r' ^ e <=? x then r' else r in
  match bit with
  | O => r
  | S bit => root_loop e x bit r
  end.
Definition fraction_of_root (e p : Z) : Z := root_loop e (p * 2 ^ (32 * e)) 36 0 mod 2 ^ 32.

(** The primes below [n]. *)
Definition is_prime (n : Z) : bool :=
  (2 <=? n) && forallb (fun d => negb (n mod d =? 0)) (seqZ 2 (Z.sqrt n - 1)).
Definition primes (n : Z) : list Z := filter is_prime (seqZ 0 n).
Definition K : list Z := fraction_of_root 3 <$> primes 312.
Definition H0 : list Z := fraction_of_root 2 <$> primes 20.

(** The schedule, as a window of sixteen words that moves over it. *)
Definition next_word (w : list Z) : Z :=
  u32 (sigma1 (w !!! 14%nat) + w !!! 9%nat + sigma0 (w !!! 1%nat) + w !!! 0%nat).
Fixpoint schedule (n : nat) (w : list Z) : list Z :=
  match n, w with
  | S n, x :: r => x :: schedule n (r ++ [next_word w])
  | _, _ => w
  end.

Definition Round (w : working) (kw : Z * Z) : working :=
  let t1 := u32 (vh w + Sigma1 (ve w) + Ch (ve w) (vf w) (vg w) + kw.1 + kw.2) in
  let t2 := u32 (Sigma0 (va w) + Maj (va w) (vb w) (vc w)) in
  Working (u32 (t1 + t2)) (va w) (vb w) (vc w) (u32 (vd w + t1)) (ve w) (vf w) (vg w).

Definition working_of (h : list Z) : working :=
  Working (h !!! 0%nat) (h !!! 1%nat) (h !!! 2%nat) (h !!! 3%nat)
          (h !!! 4%nat) (h !!! 5%nat) (h !!! 6%nat) (h !!! 7%nat).
Definition words_of (w : working) : list Z := [va w; vb w; vc w; vd w; ve w; vf w; vg w; vh w].

Definition compress (h block : list Z) : list Z :=
  let W := schedule 48 (be_value <$> split_every 4 block) in
  zip_with (fun x y => u32 (x + y)) h (words_of (foldl Round (working_of h) (zip K W))).

(** [0x80], the least number of zeros that leaves eight bytes of the block, the length. *)
Definition pad (msg : list Z) : list Z :=
  msg ++ [0x80] ++ replicate (Z.to_nat ((55 - Z.of_nat (length msg)) mod 64)) 0 ++
  be_bytes 8 (8 * Z.of_nat (length msg)).

Definition sha256 (msg : list Z) : list Z :=
  concat (be_bytes 4 <$> foldl compress H0 (split_every 64 (pad msg))).
