(* ===== verification/Sha256Props.v ===== *)
(** * The hash computes SHA-256

    The functions and constants of the code are those of the standard, one call of
    [sha256_transform] compresses one block, the bytes given to [sha256_update] in
    pieces are absorbed as one message, and [sha256_final] returns its hash. *)

From S2P Require Import Prelude Ring Words Sha256.

(** ** Functions on words *)

Lemma u32_bits x i : 0 ≤ i → Z.testbit (u32 x) i = (i <? 32) && Z.testbit x i.
Proof.
  intros Hi. unfold u32, U32. zcases; simpl; [by apply Z.mod_pow2_bits_low|by apply Z.mod_pow2_bits_high].
Qed.

Lemma shiftr_range x n : is_u32 x → 0 ≤ n → is_u32 (Z.shiftr x n).
Proof.
  intros Hx Hn. unfold is_u32 in *. rewrite Z.shiftr_div_pow2 by done.
  pose proof (Z.pow_pos_nonneg 2 n). split; [apply Z.div_pos; lia|].
  apply Z.div_lt_upper_bound; [lia|]. nia.
Qed.

Lemma ROTRIGHT_ROTR x n : is_u32 x → 0 < n < 32 → ROTRIGHT x n = ROTR n x.
Proof.
  intros Hx Hn. unfold ROTRIGHT. apply word_eq.
  - apply (lor_range 32); [done|apply shiftr_range; [done|lia]|apply u32_range].
  - intros i Hi. rewrite Z.lor_spec, Z.shiftr_spec, u32_bits, Z.shiftl_spec by lia.
    replace (i <? 32) with true by lia. destruct (decide (i + n < 32)).
    + rewrite (Z.mod_small (i + n)) by lia. rewrite (Z.testbit_neg_r x (i - _)) by lia. apply orb_false_r.
    + rewrite (high_bits x 32 (i + n)) by (done || lia). simpl. f_equal.
      rewrite <-(Z.mod_add (i + n) (-1) 32), Z.mod_small by lia. lia.
Qed.

Lemma shiftr_SHR x n : is_u32 x → 0 ≤ n → Z.shiftr x n = SHR n x.
Proof. intros Hx Hn. apply word_eq; [by apply shiftr_range|]. intros i Hi. apply Z.shiftr_spec. lia. Qed.

Lemma lxor_XOR3 x y z : is_u32 x → is_u32 y → is_u32 z → Z.lxor (Z.lxor x y) z = XOR3 x y z.
Proof.
  intros Hx Hy Hz. apply word_eq; [repeat apply (lxor_range 32); done|].
  intros i Hi. by rewrite !Z.lxor_spec.
Qed.

Lemma not32_bits x i : is_u32 x → 0 ≤ i < 32 → Z.testbit (not32 x) i = negb (Z.testbit x i).
Proof.
  intros Hx Hi. replace (not32 x) with (u32 (Z.lnot x)).
  - rewrite u32_bits by lia. replace (i <? 32) with true by lia. apply Z.lnot_spec. lia.
  - unfold not32, u32, Z.lnot, is_u32 in *. rewrite <-(Z.mod_add (Z.pred (- x)) 1 U32) by done.
    rewrite Z.mod_small; lia.
Qed.

Lemma not32_range x : is_u32 x → is_u32 (not32 x).
Proof. unfold is_u32, not32. lia. Qed.

Lemma CH_Ch x y z : is_u32 x → is_u32 y → is_u32 z → CH x y z = Ch x y z.
Proof.
  intros Hx Hy Hz. unfold CH. apply word_eq.
  - apply (lxor_range 32); [done| |]; apply (land_range 32); try done. by apply not32_range.
  - intros i Hi. rewrite Z.lxor_spec, !Z.land_spec, not32_bits by done.
    by destruct (Z.testbit x i), (Z.testbit y i), (Z.testbit z i).
Qed.

Lemma MAJ_Maj x y z : is_u32 x → is_u32 y → is_u32 z → MAJ x y z = Maj x y z.
Proof.
  intros Hx Hy Hz. unfold MAJ. apply word_eq.
  - apply (lxor_range 32); [done|apply (lxor_range 32); [done| |]|]; by apply (land_range 32).
  - intros i Hi. rewrite !Z.lxor_spec, !Z.land_spec.
    by destruct (Z.testbit x i), (Z.testbit y i), (Z.testbit z i).
Qed.

Lemma sigmas x : is_u32 x →
  EP0 x = Sigma0 x ∧ EP1 x = Sigma1 x ∧ SIG0 x = sigma0 x ∧ SIG1 x = sigma1 x.
Proof.
  intros Hx. unfold EP0, EP1, SIG0, SIG1. rewrite !ROTRIGHT_ROTR, !shiftr_SHR by (done || lia).
  rewrite !lxor_XOR3 by apply word_range. done.
Qed.

Lemma constants : k = K ∧ state (sha256_init (Ctx [] 0 0 [])) = H0.
Proof. split; vm_compute; reflexivity. Qed.

(** ** One block *)

Lemma u32_lor x y : u32 (Z.lor x y) = Z.lor (u32 x) (u32 y).
Proof.
  apply Z.bits_inj'. intros i Hi. rewrite Z.lor_spec, !u32_bits, Z.lor_spec by done. by destruct (i <? 32).
Qed.

Lemma load_word_value d j b0 b1 b2 b3 : 0 ≤ j → Forall is_byte [b0; b1; b2; b3] →
  take 4 (drop (Z.to_nat j) d) = [b0; b1; b2; b3] → load_word d j = Ret (be_value [b0; b1; b2; b3]).
Proof.
  intros Hj Hb E. rewrite !Forall_cons in Hb. destruct Hb as (H0 & H1 & H2 & H3 & _). unfold is_byte in *.
  assert (∀ i b, [b0; b1; b2; b3] !! i = Some b → load1 d (j + Z.of_nat i) = Ret b) as L.
  { intros i b Ei. apply load1_Ret; [lia|]. replace (Z.to_nat (j + Z.of_nat i)) with (Z.to_nat j + i)%nat by lia.
    rewrite <-Ei, <-E, <-lookup_drop. symmetry. apply lookup_take_lt. apply lookup_lt_Some in Ei. simpl in Ei. lia. }
  pose proof (L 0%nat b0 eq_refl) as L0. rewrite Z.add_0_r in L0. pose proof (L 1%nat b1 eq_refl) as L1.
  pose proof (L 2%nat b2 eq_refl) as L2. pose proof (L 3%nat b3 eq_refl) as L3. cbv [Z.of_nat Pos.of_succ_nat Pos.succ] in L1, L2, L3.
  unfold load_word. rewrite L0, L1, L2, L3.
  rewrite !bind_ret. f_equal. rewrite !u32_lor.
  assert (u32 (i32 (Z.shiftl b0 24)) = Z.shiftl b0 24) as ->.
  { rewrite Z.shiftl_mul_pow2 by done. unfold u32, i32, U32. rewrite Zminus_mod_idemp_l.
    rewrite Z.add_simpl_r. apply Z.mod_small. lia. }
  rewrite !Z.shiftl_mul_pow2 by done. rewrite !u32_small by (unfold is_u32, U32; lia).
  rewrite <-!Z.lor_assoc, (lor_join b2 b3 8), (lor_join b1 _ 16), (lor_join b0 _ 24) by lia. cbn. lia.
Qed.

Lemma load_loop bs : length bs = 16%nat → Forall (fun b => length b = 4%nat) bs → Forall is_byte (concat bs) →
  foldM (load_step (concat bs)) (seqZ 0 16) ([], 0) = Ret (be_value <$> bs, 64).
Proof.
  intros Hn Hbs Hb.
  destruct (foldM_seqZ (fun j s => s = (be_value <$> take (Z.to_nat j) bs, 4 * j)) (load_step (concat bs)) 0 16 ([], 0))
    as (s & E & Hs); [done|done| |by rewrite E, Hs, take_ge by lia].
  intros j s Hj ->. destruct (lookup_lt_is_Some_2 bs (Z.to_nat j)) as [b Ej]; [lia|].
  assert (length b = 4%nat) as Hl by by eapply (Forall_lookup_1 (fun b => length b = 4%nat)).
  assert (take 4 (drop (Z.to_nat (4 * j)) (concat bs)) = b) as Et.
  { apply list_eq. intros i. destruct (decide (i < 4)%nat).
    - destruct (lookup_lt_is_Some_2 b i) as [x Ei]; [lia|]. rewrite lookup_take_lt, lookup_drop, Ei by done.
      rewrite <-(lookup_concat 4 bs (Z.to_nat j) b i x) by done. f_equal. lia.
    - rewrite lookup_take_ge by lia. symmetry. apply lookup_ge_None. lia. }
  assert (Forall is_byte b) as Hbb by (rewrite <-Et; by apply Forall_take, Forall_drop).
  destruct b as [|b0 [|b1 [|b2 [|b3 [|??]]]]]; simplify_eq Hl. unfold load_step.
  rewrite (load_word_value _ _ b0 b1 b2 b3) by (lia || done). eexists. split; [done|].
  replace (Z.to_nat (j + 1)) with (S (Z.to_nat j)) by lia. erewrite take_S_r, fmap_app by done. f_equal. lia.
Qed.

Lemma be_value_u32 b : length b = 4%nat → Forall is_byte b → is_u32 (be_value b).
Proof.
  intros Hl Hb. destruct b as [|b0 [|b1 [|b2 [|b3 [|??]]]]]; simplify_eq Hl.
  rewrite !Forall_cons in Hb. unfold is_byte, is_u32, U32 in *. cbn. lia.
Qed.

Lemma schedule_length n w : (0 < length w)%nat → length (schedule n w) = (n + length w)%nat.
Proof.
  revert w. induction n as [|n IH]; intros w Hw; [done|]. destruct w as [|x r]; simpl in *; [lia|].
  rewrite IH by (rewrite length_app; simpl; lia). rewrite length_app. simpl. lia.
Qed.

Lemma expand_step_word m w : length w = 16%nat → Forall is_u32 w →
  expand_step (m ++ w) (Z.of_nat (length m) + 16) = Ret ((m ++ w) ++ [next_word w]).
Proof.
  intros Hl Hw. assert (∀ i, 0 < i ≤ 16 → load1 (m ++ w) (Z.of_nat (length m) + 16 - i) = Ret (w !!! Z.to_nat (16 - i))) as L.
  { intros i Hi. apply load1_Ret; [lia|]. rewrite lookup_app_r by lia.
    replace (Z.to_nat _ - _)%nat with (Z.to_nat (16 - i)) by lia. apply list_lookup_lookup_total_lt. lia. }
  unfold expand_step. rewrite !L by lia. rewrite !bind_ret.
  assert (∀ i, (i < 16)%nat → is_u32 (w !!! i)) as Hu.
  { intros i Hi. eapply Forall_lookup_1; [done|]. apply list_lookup_lookup_total_lt. lia. }
  destruct (sigmas (w !!! 14%nat)) as (_ & _ & _ & E1); [apply Hu; lia|].
  destruct (sigmas (w !!! 1%nat)) as (_ & _ & E2 & _); [apply Hu; lia|].
  unfold next_word. by rewrite <-E1, <-E2.
Qed.

Lemma expand_loop M : length M = 16%nat → Forall is_u32 M →
  foldM expand_step (seqZ 16 48) M = Ret (schedule 48 M) ∧ Forall is_u32 (schedule 48 M).
Proof.
  intros Hl HM.
  destruct (foldM_seqZ (fun j m => ∃ p w, m = p ++ w ∧ length w = 16%nat ∧ Z.of_nat (length p) = j - 16 ∧
    Forall is_u32 m ∧ p ++ schedule (Z.to_nat (64 - j)) w = schedule 48 M) expand_step 16 48 M)
    as (s & E & p & w & -> & Hw & Hp & Hu & Es); [done|by exists [], M|..].
  - intros j m Hj (p & w & -> & Hw & Hp & Hu & Es). replace j with (Z.of_nat (length p) + 16) in * by lia.
    eexists. split; [apply expand_step_word; [done|by apply Forall_app in Hu as [_ ?]]|].
    destruct w as [|x r]; [done|]. exists (p ++ [x]), (r ++ [next_word (x :: r)]). simpl in Hw.
    rewrite !length_app. cbn [length]. split_and!; [by rewrite <-!app_assoc|lia|lia| |].
    + apply Forall_app. split; [done|]. apply Forall_singleton. apply u32_range.
    + rewrite <-Es. replace (Z.to_nat (64 - (Z.of_nat (length p) + 16)))
        with (S (Z.to_nat (64 - (Z.of_nat (length p) + 16 + 1)))) by lia. by rewrite <-app_assoc.
  - change (schedule (Z.to_nat (64 - (16 + 48))) w) with w in Es. by rewrite <-Es.
Qed.

Definition words_u32 (w : working) : Prop := Forall is_u32 (words_of w).

Lemma round_Round m w i ki mi : 0 ≤ i → words_u32 w → k !! Z.to_nat i = Some ki → m !! Z.to_nat i = Some mi →
  round m w i = Ret (Round w (ki, mi)) ∧ words_u32 (Round w (ki, mi)).
Proof.
  intros Hi Hw Ek Em. unfold words_u32, words_of in Hw. rewrite !Forall_cons in Hw.
  destruct Hw as (Ha & Hb & Hc & Hd & He & Hf & Hg & Hh & _). split.
  - unfold round. rewrite (load1_Ret k i ki), (load1_Ret m i mi) by done. rewrite !bind_ret. unfold Round.
    rewrite CH_Ch, MAJ_Maj by done. destruct (sigmas (va w)) as (-> & _); [done|].
    destruct (sigmas (ve w)) as (_ & -> & _); [done|]. done.
  - unfold words_u32, words_of, Round. simpl. repeat (apply Forall_cons; split; [first [done|apply u32_range]|]). constructor.
Qed.

Lemma round_loop m w : length m = 64%nat → words_u32 w →
  foldM (round m) (seqZ 0 64) w = Ret (foldl Round w (zip K m)) ∧ words_u32 (foldl Round w (zip K m)).
Proof.
  intros Hm Hw. rewrite <-(proj1 constants).
  destruct (foldM_seqZ (fun j w' => words_u32 w' ∧
    foldl Round w' (zip (drop (Z.to_nat j) k) (drop (Z.to_nat j) m)) = foldl Round w (zip k m)) (round m) 0 64 w)
    as (s & E & Hs & Es); [done|by split|..].
  - intros j w' Hj (Hw' & Ej). destruct (lookup_lt_is_Some_2 m (Z.to_nat j)) as [mi Em]; [lia|].
    destruct (lookup_lt_is_Some_2 k (Z.to_nat j)) as [ki Ek]; [change (length k) with 64%nat; lia|].
    destruct (round_Round m w' j ki mi) as [E1 E2]; [lia|done..|]. eexists. split; [done|]. split; [done|].
    rewrite <-Ej. rewrite (drop_S k ki (Z.to_nat j)), (drop_S m mi (Z.to_nat j)) by done.
    by replace (Z.to_nat (j + 1)) with (S (Z.to_nat j)) by lia.
  - rewrite drop_ge in Es by (change (length k) with 64%nat; lia). by rewrite <-Es.
Qed.

(** [sha256_transform] compresses a block into the state. *)
Lemma transform_compress ctx block : length (state ctx) = 8%nat → Forall is_u32 (state ctx) →
  length block = 64%nat → Forall is_byte block →
  sha256_transform ctx block = Ret (Ctx (data ctx) (datalen ctx) (bitlen ctx) (compress (state ctx) block)) ∧
  length (compress (state ctx) block) = 8%nat ∧ Forall is_u32 (compress (state ctx) block).
Proof.
  intros Hs Hsu Hl Hb. destruct (concat_of_length 4 16 block) as (bs & Hn & Hbs & ->); [lia|].
  assert (Forall is_u32 (be_value <$> bs)) as HM.
  { apply Forall_fmap. pose proof (proj1 (Forall_concat _ _) Hb) as Hbb. apply Forall_forall. intros b Hin.
    rewrite Forall_forall in Hbs, Hbb. by apply be_value_u32; [apply Hbs|apply Hbb]. }
  destruct (expand_loop (be_value <$> bs)) as [EW HW]; [by rewrite length_fmap|done|].
  assert (length (schedule 48 (be_value <$> bs)) = 64%nat) as Hlen.
  { rewrite schedule_length; rewrite length_fmap; lia. }
  unfold sha256_transform, compress. rewrite load_loop by done. rewrite bind_ret. rewrite EW, split_every_concat by (done || lia).
  rewrite bind_ret. set (W := schedule 48 _) in *. clearbody W. clear EW. destruct ctx as [dt dl bl st].
  cbn [state data datalen bitlen] in *.
  destruct st as [|a [|b [|c [|d [|e [|f [|g [|h [|??]]]]]]]]]; simplify_eq Hs.
  destruct (round_loop W (working_of [a; b; c; d; e; f; g; h])) as [Er Hr]; [done|exact Hsu|].
  unfold working_of in *. set (rounds := foldM (round W) (seqZ 0 64)) in *. clearbody rounds.
  lazy beta iota zeta delta -[u32 Z.add zip_with foldl zip Round K is_u32] in Er |- *. rewrite Er.
  set (w := foldl _ _ _). clearbody w. lazy beta iota zeta delta -[u32 Z.add is_u32].
  split; [done|]. split; [done|].
  repeat (apply Forall_cons; split; [apply u32_range|]). constructor.
Qed.

(** ** Messages *)

(** The context holds the blocks [bs] in its state and [tail] in its buffer. *)
Record absorbed (ctx : SHA256_CTX) (bs : list (list Z)) (tail : list Z) : Prop := {
  ab_length : length (data ctx) = 64%nat;
  ab_datalen : datalen ctx = Z.of_nat (length tail);
  ab_room : (length tail < 64)%nat;
  ab_data : take (length tail) (data ctx) = tail;
  ab_bytes : Forall is_byte tail;
  ab_bitlen : bitlen ctx = u64 (512 * Z.of_nat (length bs));
  ab_state : state ctx = foldl compress H0 bs;
  ab_words : length (state ctx) = 8%nat;
  ab_u32 : Forall is_u32 (state ctx);
  ab_blocks : Forall (fun b => length b = 64%nat) bs }.

Definition holds (ctx : SHA256_CTX) (msg : list Z) : Prop :=
  ∃ bs tail, msg = concat bs ++ tail ∧ absorbed ctx bs tail.

Lemma init_holds ctx : length (data ctx) = 64%nat → holds (sha256_init ctx) [].
Proof.
  intros Hl. exists [], []. split; [done|]. constructor; [done|done|simpl; lia|done|constructor|done| |done| |constructor].
  - exact (proj2 constants).
  - repeat (apply Forall_cons; split; [done|]). constructor.
Qed.

Lemma u64_add x y : u64 (u64 x + y) = u64 (x + y).
Proof. unfold u64. by rewrite Zplus_mod_idemp_l. Qed.

Lemma update_step_holds src ctx i b msg : holds ctx msg → load1 src i = Ret b → is_byte b →
  ∃ ctx', update_step src ctx i = Ret ctx' ∧ holds ctx' (msg ++ [b]).
Proof.
  intros (bs & tail & -> & H) Eb Hb. unfold update_step. rewrite Eb, bind_ret. destruct H as [Hl Hd Hr Ht Hbt Hbl Hs Hw Hu Hbs].
  destruct (store1_take (data ctx) tail (datalen ctx) b) as (d & -> & Hl' & Ht'); [done..|lia|]. rewrite bind_ret.
  cbn [datalen]. rewrite u32_small by (unfold is_u32, U32; lia). rewrite length_app in Ht'. cbn [length] in Ht'.
  assert (Forall is_byte (tail ++ [b])) as Hbb by (apply Forall_app; split; [done|by apply Forall_singleton]).
  destruct (Z.eqb_spec (datalen ctx + 1) 64).
  - rewrite take_ge in Ht' by lia. cbn [data]. subst d. destruct (transform_compress
      (Ctx (tail ++ [b]) (datalen ctx + 1) (bitlen ctx) (state ctx)) (tail ++ [b])) as (-> & Hc & Hcu); [done..| |done|].
    { rewrite length_app. simpl. lia. }
    cbn [state data datalen bitlen] in *. rewrite bind_ret. eexists. split; [done|].
    exists (bs ++ [tail ++ [b]]), []. rewrite concat_app, app_nil_r, <-app_assoc. simpl. rewrite app_nil_r.
    split; [done|]. constructor; simpl; try done; try lia.
    + rewrite Hbl, u64_add, length_app. simpl. f_equal. lia.
    + by rewrite foldl_app, Hs.
    + apply Forall_app. split; [done|]. apply Forall_singleton. rewrite length_app. simpl. lia.
  - eexists. split; [done|]. exists bs, (tail ++ [b]). split; [by rewrite <-app_assoc|].
    constructor; simpl; try done; rewrite ?length_app; simpl; try lia. done.
Qed.

Lemma update_holds ctx src len msg : holds ctx msg → Forall is_byte src → 0 ≤ len ≤ Z.of_nat (length src) →
  ∃ ctx', sha256_update ctx src len = Ret ctx' ∧ holds ctx' (msg ++ take (Z.to_nat len) src).
Proof.
  intros H Hb Hl.
  destruct (foldM_seqZ (fun j ctx => holds ctx (msg ++ take (Z.to_nat j) src)) (update_step src) 0 len ctx)
    as (ctx' & E & H'); [lia|by rewrite app_nil_r| |by exists ctx'].
  intros j s Hj Hs. destruct (lookup_lt_is_Some_2 src (Z.to_nat j)) as [b Eb]; [lia|].
  destruct (update_step_holds src s j b _ Hs) as (s' & E & H'); [apply load1_Ret; [lia|done]|by eapply Forall_lookup_1|].
  exists s'. split; [done|]. replace (Z.to_nat (j + 1)) with (S (Z.to_nat j)) by lia.
  by rewrite (take_S_r _ _ b), app_assoc.
Qed.

(** ** Padding *)

Lemma zero_fill_spec d p n : take (length p) d = p → Z.of_nat (length p) ≤ n ≤ Z.of_nat (length d) →
  ∃ d', zero_fill d (Z.of_nat (length p)) n = Ret d' ∧ length d' = length d ∧
    take (Z.to_nat n) d' = p ++ replicate (Z.to_nat n - length p) 0.
Proof.
  intros Hp Hn. set (lp := Z.of_nat (length p)) in *. unfold zero_fill.
  destruct (foldM_seqZ (fun j d' => length d' = length d ∧
    take (Z.to_nat j) d' = p ++ replicate (Z.to_nat (j - lp)) 0) (fun d i => store1 d i 0) lp (n - lp) d)
    as (d' & E & Hl & Hd); [lia| |..].
  - rewrite Z.sub_diag, app_nil_r. split; [done|]. by subst lp; rewrite Nat2Z.id.
  - intros j s Hj (Hl & Hs). assert (length (p ++ replicate (Z.to_nat (j - lp)) 0) = Z.to_nat j) as Hlen.
    { rewrite length_app, length_replicate. lia. }
    destruct (store1_take s (p ++ replicate (Z.to_nat (j - lp)) 0) j 0) as (d' & E & Hl' & Ht); [by rewrite Hlen, Z2Nat.id by lia|by rewrite Hlen|lia|].
    exists d'. split; [done|]. split; [by rewrite Hl'|]. rewrite length_app, Hlen in Ht. cbn [length] in Ht.
    replace (Z.to_nat (j + 1)) with (Z.to_nat j + 1)%nat by lia. rewrite Ht, <-app_assoc. f_equal.
    replace (Z.to_nat (j + 1 - lp)) with (Z.to_nat (j - lp) + 1)%nat by lia. by rewrite replicate_add.
  - exists d'. split; [done|]. split; [done|]. replace (lp + (n - lp)) with n in Hd by lia. rewrite Hd. do 2 f_equal. lia.
Qed.

Lemma store_length_spec d p n : length d = 64%nat → take 56 d = p →
  store_length d n = Ret (p ++ be_bytes 8 n).
Proof.
  intros Hl Hp. unfold store_length.
  destruct (foldM_seqZ (fun j d => length d = 64%nat ∧ take 56 d = p ∧ drop (Z.to_nat (64 - j)) d = drop (Z.to_nat (8 - j)) (be_bytes 8 n))
    (fun d i => store1 d (63 - i) (Z.shiftr n (8 * i) mod 256)) 0 8 d) as (d' & E & Hl' & Ht & Hd); [lia|..].
  - split_and!; [done..|]. rewrite !drop_ge; [done|rewrite be_bytes_length; lia|lia].
  - intros j s Hj (Hs & Ht & Hd). destruct (store1_drop s (drop (Z.to_nat (63 - j) + 1) s) (63 - j) (Z.shiftr n (8 * j) mod 256))
      as (d' & E & Hl' & Hdr & Htk); [lia|done|]. exists d'. split; [done|]. split_and!; [lia| |].
    + rewrite <-Ht. replace 56%nat with (56 `min` Z.to_nat (63 - j))%nat at 1 2 by lia. by rewrite <-!take_take, Htk.
    + replace (64 - (j + 1)) with (63 - j) by lia. rewrite Hdr.
      replace (Z.to_nat (63 - j) + 1)%nat with (Z.to_nat (64 - j)) by lia. rewrite Hd.
      rewrite (drop_S (be_bytes 8 n) (Z.shiftr n (8 * j) mod 256) (Z.to_nat (8 - (j + 1)))).
      * do 2 f_equal. lia.
      * rewrite be_bytes_lookup by lia. do 4 f_equal. lia.
  - rewrite E. f_equal. change (Z.to_nat (8 - (0 + 8))) with 0%nat in Hd. change (Z.to_nat (64 - (0 + 8))) with 56%nat in Hd.
    rewrite drop_0 in Hd. by rewrite <-(take_drop 56 d'), Ht, Hd.
Qed.

(** ** The digest *)

Lemma store_digest_word s hash i n w : s !! Z.to_nat n = Some w → 0 ≤ i < 4 → 0 ≤ n < 8 → (32 ≤ length hash)%nat →
  (w' ← load1 s n; store1 hash (i + 4 * n) (Z.land (Z.shiftr w' (24 - i * 8)) 0xff)) =
    Ret (<[Z.to_nat (i + 4 * n) := be_bytes 4 w !!! Z.to_nat i]> hash).
Proof.
  intros Es Hi Hn Hl. rewrite (load1_Ret s n w) by (done || lia). rewrite bind_ret, store1_Ret by lia. do 2 f_equal.
  change 0xff with (2 ^ 8 - 1). rewrite land_mask by done.
  symmetry. apply list_lookup_total_correct. rewrite be_bytes_lookup by lia. do 4 f_equal. lia.
Qed.

(** [hash] with the bytes of [s] chosen by [P] in place. *)
Definition digest_part (s hash : list Z) (P : nat → bool) (hash' : list Z) : Prop :=
  length hash' = length hash ∧
  ∀ p, hash' !! p = if P p then concat (be_bytes 4 <$> s) !! p else hash !! p.

Lemma digest_part_step s hash P hash' i n w : length s = 8%nat → (32 ≤ length hash)%nat →
  s !! Z.to_nat n = Some w → 0 ≤ i < 4 → 0 ≤ n < 8 → digest_part s hash P hash' →
  digest_part s hash (fun p => P p || bool_decide (p = Z.to_nat (i + 4 * n)))
    (<[Z.to_nat (i + 4 * n) := be_bytes 4 w !!! Z.to_nat i]> hash').
Proof.
  intros Hs Hh Es Hi Hn [Hl HP]. split; [by rewrite length_insert|]. intros p. case_bool_decide as Hp.
  - subst p. rewrite list_lookup_insert_eq by lia. rewrite orb_true_r. symmetry.
    replace (Z.to_nat (i + 4 * n)) with (4 * Z.to_nat n + Z.to_nat i)%nat by lia.
    apply lookup_concat with (b := be_bytes 4 w).
    + apply Forall_fmap, Forall_forall. intros x _. apply be_bytes_length.
    + by rewrite list_lookup_fmap, Es.
    + apply list_lookup_lookup_total_lt. rewrite be_bytes_length. lia.
  - rewrite list_lookup_insert_ne by done. rewrite orb_false_r. apply HP.
Qed.

Lemma digest_part_ext s hash P Q hash' : (∀ p, P p = Q p) → digest_part s hash P hash' → digest_part s hash Q hash'.
Proof. intros HPQ [Hl HP]. split; [done|]. intros p. by rewrite HP, HPQ. Qed.

Definition digest_done (i n : Z) (p : nat) : bool :=
  (Z.of_nat p <? 32) &&
  ((Z.of_nat p mod 4 <? i) || (Z.of_nat p mod 4 =? i) && (Z.of_nat p / 4 <? n)).

Lemma digest_done_step i n p : 0 ≤ i < 4 → 0 ≤ n < 8 →
  digest_done i n p || bool_decide (p = Z.to_nat (i + 4 * n)) = digest_done i (n + 1) p.
Proof.
  intros Hi Hn. unfold digest_done. pose proof (Z.div_mod (Z.of_nat p) 4). pose proof (Z.mod_pos_bound (Z.of_nat p) 4).
  case_bool_decide; lia.
Qed.

Lemma digest_done_row i p : 0 ≤ i < 4 → digest_done i 8 p = digest_done (i + 1) 0 p.
Proof.
  intros Hi. unfold digest_done. pose proof (Z.div_mod (Z.of_nat p) 4). pose proof (Z.mod_pos_bound (Z.of_nat p) 4). lia.
Qed.

Lemma store_digest_spec s hash : length s = 8%nat → (32 ≤ length hash)%nat →
  store_digest s hash = Ret (concat (be_bytes 4 <$> s) ++ drop 32 hash).
Proof.
  intros Hs Hh. unfold store_digest.
  destruct (foldM_seqZ (fun i => digest_part s hash (digest_done i 0)) (fun hash i =>
    foldM (fun hash n => w ← load1 s n; store1 hash (i + 4 * n) (Z.land (Z.shiftr w (24 - i * 8)) 0xff)) (seqZ 0 8) hash)
    0 4 hash) as (h' & E & Hl & HP); [done|..].
  - split; [done|]. intros p. unfold digest_done. pose proof (Z.mod_pos_bound (Z.of_nat p) 4).
    pose proof (Z.div_pos (Z.of_nat p) 4). destruct (_ && _) eqn:Ep; [lia|done].
  - intros i h Hi HP.
    destruct (foldM_seqZ (fun n => digest_part s hash (digest_done i n)) (fun hash n =>
      w ← load1 s n; store1 hash (i + 4 * n) (Z.land (Z.shiftr w (24 - i * 8)) 0xff)) 0 8 h) as (h' & E & HP'); [done..| |].
    + intros n h' Hn HP'. destruct (lookup_lt_is_Some_2 s (Z.to_nat n)) as [w Ew]; [lia|].
      eexists. split; [eapply store_digest_word; [done|lia|lia|by rewrite (proj1 HP')]|].
      eapply digest_part_ext; [intros p; apply digest_done_step; lia|]. apply digest_part_step; done || lia.
    + exists h'. split; [done|]. eapply digest_part_ext; [|done]. intros p. by apply digest_done_row.
  - rewrite E. f_equal. assert (length (concat (be_bytes 4 <$> s)) = 32%nat) as Hc.
    { do 8 (destruct s as [|? s]; [done|]). by destruct s. }
    apply list_eq. intros p. rewrite HP. unfold digest_done. pose proof (Z.mod_pos_bound (Z.of_nat p) 4).
    destruct (decide (p < 32)%nat).
    + rewrite lookup_app_l by lia. destruct (_ && _) eqn:Ep; [done|lia].
    + rewrite lookup_app_r by lia. rewrite Hc, lookup_drop. destruct (_ && _) eqn:Ep; [lia|f_equal; lia].
Qed.

(** ** The whole *)

Lemma pad_blocks bs tail : Forall (fun b => length b = 64%nat) bs → (length tail < 64)%nat →
  let n := be_bytes 8 (8 * Z.of_nat (length (concat bs ++ tail))) in
  split_every 64 (pad (concat bs ++ tail)) = bs ++
    (if decide (length tail < 56)%nat then [(tail ++ [0x80] ++ replicate (55 - length tail) 0) ++ n]
     else [tail ++ [0x80] ++ replicate (63 - length tail) 0; replicate 56 0 ++ n]).
Proof.
  intros Hbs Ht n. set (rest := if decide _ then _ else _).
  assert (Forall (fun b => length b = 64%nat) (bs ++ rest)) as Hall.
  { apply Forall_app. split; [done|]. subst rest n. case_decide; repeat (apply Forall_cons; split); try constructor;
    rewrite ?length_app, ?length_replicate, ?be_bytes_length; simpl; rewrite ?length_replicate; lia. }
  rewrite <-(split_every_concat 64 (bs ++ rest)) by (done || lia). f_equal. rewrite concat_app. unfold pad.
  fold n. rewrite <-app_assoc. f_equal.
  rewrite length_app, (concat_length 64) by done. replace ((55 - Z.of_nat (64 * length bs + length tail)) mod 64) with ((55 - Z.of_nat (length tail)) mod 64).
  2:{ rewrite <-(Z.mod_add (55 - Z.of_nat (64 * length bs + length tail)) (Z.of_nat (length bs)) 64) by done. f_equal. lia. }
  subst rest. case_decide; cbn [concat]; rewrite app_nil_r, <-!app_assoc; do 2 f_equal.
  - rewrite Z.mod_small by lia. do 2 f_equal. lia.
  - rewrite app_assoc, <-replicate_add. do 2 f_equal. rewrite <-(Z.mod_add _ 1 64), Z.mod_small by lia. lia.
Qed.

(** The last block: the length behind the 56 bytes [p]. *)
Lemma final_block ctx p n hash : length (data ctx) = 64%nat → take 56 (data ctx) = p → Forall is_byte p →
  length (state ctx) = 8%nat → Forall is_u32 (state ctx) → (32 ≤ length hash)%nat →
  ∃ ctx', (d ← store_length (data ctx) n;
    ctx' ← sha256_transform (Ctx d (datalen ctx) n (state ctx)) d;
    hash' ← store_digest (state ctx') hash;
    Ret (ctx', hash')) =
  Ret (ctx', concat (be_bytes 4 <$> compress (state ctx) (p ++ be_bytes 8 n)) ++ drop 32 hash).
Proof.
  intros Hl Hp Hb Hs Hu Hh. rewrite (store_length_spec _ p) by done. rewrite bind_ret.
  assert (length p = 56%nat) as Hlp by (rewrite <-Hp, length_take; lia).
  destruct (transform_compress (Ctx (p ++ be_bytes 8 n) (datalen ctx) n (state ctx)) (p ++ be_bytes 8 n))
    as (-> & Hc & _); [done..| | |].
  - rewrite length_app, be_bytes_length. lia.
  - apply Forall_app. split; [done|apply be_bytes_range].
  - cbn [state] in *. rewrite bind_ret. cbn [state]. rewrite store_digest_spec by done. by eexists.
Qed.

Lemma padding_bytes tail n : Forall is_byte tail → Forall is_byte (tail ++ [0x80] ++ replicate n 0).
Proof.
  intros Ht. repeat (apply Forall_app; split); [done|by apply Forall_singleton|]. by apply Forall_replicate.
Qed.

Lemma final_spec ctx msg hash : holds ctx msg → (32 ≤ length hash)%nat →
  ∃ ctx', sha256_final ctx hash = Ret (ctx', sha256 msg ++ drop 32 hash).
Proof.
  intros (bs & tail & -> & [Hl Hd Hr Ht Hb Hbl Hs Hw Hu Hbs]) Hh.
  set (n := u64 (bitlen ctx + u32 (datalen ctx * 8))).
  assert (be_bytes 8 (8 * Z.of_nat (length (concat bs ++ tail))) = be_bytes 8 n) as En.
  { subst n. rewrite Hbl, u64_add, Hd, u32_small by (unfold is_u32, U32; lia).
    rewrite <-(be_bytes_mod 8 (8 * _)). change (2 ^ (8 * Z.of_nat 8)) with (2 ^ 64). unfold u64. f_equal. f_equal.
    rewrite length_app. rewrite (concat_length 64) by done. lia. }
  unfold sha256. rewrite pad_blocks, En by done. unfold sha256_final.
  destruct (store1_take (data ctx) tail (datalen ctx) 0x80) as (d & E1 & Hl1 & Ht1); [done..|lia|].
  rewrite E1, Hd. replace (Z.of_nat (length tail) + 1) with (Z.of_nat (length (tail ++ [0x80]))) by (rewrite length_app; simpl; lia).
  assert (length (tail ++ [0x80]) = S (length tail)) as Hlt by (rewrite length_app; simpl; lia).
  destruct (Z.ltb_spec (Z.of_nat (length tail)) 56); rewrite !bind_ret.
  - destruct (zero_fill_spec d (tail ++ [0x80]) 56) as (d2 & E2 & Hl2 & Ht2); [done|lia|]. rewrite E2, !bind_ret.
    rewrite decide_True by lia. cbn [data datalen bitlen state].
    rewrite Hlt in Ht2. replace (Z.to_nat 56 - S (length tail))%nat with (55 - length tail)%nat in Ht2 by lia.
    rewrite <-app_assoc in Ht2. rewrite foldl_app, <-Hs. cbn [foldl]. rewrite <-Hd. fold n.
    apply (final_block (Ctx d2 (datalen ctx) (bitlen ctx) (state ctx))); try done; cbn [data]; [lia|].
    by apply padding_bytes.
  - destruct (zero_fill_spec d (tail ++ [0x80]) 64) as (d2 & E2 & Hl2 & Ht2); [done|lia|]. rewrite E2, !bind_ret.
    rewrite decide_False by lia. rewrite take_ge in Ht2 by lia.
    rewrite Hlt in Ht2. replace (Z.to_nat 64 - S (length tail))%nat with (63 - length tail)%nat in Ht2 by lia.
    rewrite <-app_assoc in Ht2. destruct (transform_compress (Ctx d2 (Z.of_nat (length tail)) (bitlen ctx) (state ctx)) d2)
      as (-> & Hc & Hcu); [done..|lia|rewrite Ht2; by apply padding_bytes|]. rewrite !bind_ret.
    cbn [data datalen bitlen state] in *.
    assert (Forall is_byte (replicate 56 0) ∧ length (replicate 56 0) = 56%nat) as [Hz Hlz] by (split; [by apply Forall_replicate|done]).
    set (z := replicate 56 0) in *. clearbody z. unfold store_bytes at 1. rewrite Hlz, Hl2, Hl1, Hl.
    change ((0 <=? 0) && (0 + Z.of_nat 56 <=? Z.of_nat 64)) with true. cbv iota. rewrite !bind_ret.
    cbn [data datalen bitlen state]. rewrite foldl_app, <-Hs. cbn [foldl]. rewrite <-Hd, <-Ht2. fold n.
    apply (final_block (Ctx _ (datalen ctx) (bitlen ctx) _)); cbn [data state]; try done.
    + rewrite length_app, length_drop, Hlz. lia.
    + by apply take_app_length'.
Qed.

(** C28: A message hashed in any number of pieces gives the hash of FIPS 180-4 of the
    whole message, with no access outside an array: [sha256_init], [sha256_update] for
    each piece and [sha256_final] write exactly the 32 bytes of the digest. *)
Theorem sha256_correct ctx pieces hash :
  length (data ctx) = 64%nat → Forall (Forall is_byte) pieces → (32 ≤ length hash)%nat →
  ∃ ctx', (ctx ← foldM (fun ctx p => sha256_update ctx p (Z.of_nat (length p))) pieces (sha256_init ctx);
           sha256_final ctx hash) = Ret (ctx', sha256 (concat pieces) ++ drop 32 hash).
Proof.
  intros Hl Hp Hh.
  assert (∀ msg c, holds c msg → ∃ c', foldM (fun ctx p => sha256_update ctx p (Z.of_nat (length p))) pieces c = Ret c' ∧
    holds c' (msg ++ concat pieces)) as Hupd.
  { clear -Hp. induction Hp as [|p ps Hb _ IH]; intros msg c H; [exists c; by rewrite app_nil_r|].
    destruct (update_holds c p (Z.of_nat (length p)) msg) as (c1 & E & H1); [done..|lia|]. cbn [foldM].
    rewrite E, bind_ret. rewrite Nat2Z.id, firstn_all in H1. destruct (IH _ _ H1) as (c2 & E2 & H2).
    exists c2. split; [done|]. cbn [concat]. by rewrite app_assoc. }
  destruct (Hupd [] (sha256_init ctx)) as (c & -> & Hc); [by apply init_holds|]. rewrite bind_ret.
  by apply final_spec.
Qed.

Lemma sha256_correct_witness :
  ∃ ctx', (ctx ← foldM (fun ctx p => sha256_update ctx p (Z.of_nat (length p))) [[0x61]; [0x62; 0x63]]
             (sha256_init (Ctx (replicate 64 7) 3 5 []));
           sha256_final ctx (replicate 33 1)) = Ret (ctx', sha256 [0x61; 0x62; 0x63] ++ [1]).
Proof.
  apply (sha256_correct (Ctx (replicate 64 7) 3 5 []) [[0x61]; [0x62; 0x63]] (replicate 33 1)).
  - reflexivity.
  - apply (bool_decide_unpack _). vm_compute. exact I.
  - vm_compute. lia.
Defined.

(** The hash of [abc], the example of the standard. *)
Example sha256_abc : be_value (sha256 [0x61; 0x62; 0x63]) =
  0xba7816bf8f01cfea414140de5dae2223b00361a396177a9cb410ff61f20015ad.
Proof. vm_compute. reflexivity. Qed.
