(* ===== verification/Aes.v ===== *)
(** * AES-128

    The cipher of src/lib/aes.c with its ECB, CBC and CTR modes over checked arrays,
    and the cipher of FIPS 197: bytes as polynomials over GF(2), the S-box by inverses
    and an affine map, the columns by a matrix, the key by rounds.  A [state_t] is
    the sixteen bytes of a block, cell [[i][j]] at [4 * i + j]. *)

From S2P Require Import Prelude Ring Words.

(** ** The code *)

Definition Nb : Z := 4.
Definition Nk : Z := 4.
Definition Nr : Z := 10.
Definition AES_BLOCKLEN : Z := 16.
Definition AES_keyExpSize : Z := 176.

Definition u8 (x : Z) : Z := x mod 256.

Definition sbox : list Z := [
  0x63;0x7c;0x77;0x7b;0xf2;0x6b;0x6f;0xc5;0x30;0x01;0x67;0x2b;0xfe;0xd7;0xab;0x76;
  0xca;0x82;0xc9;0x7d;0xfa;0x59;0x47;0xf0;0xad;0xd4;0xa2;0xaf;0x9c;0xa4;0x72;0xc0;
  0xb7;0xfd;0x93;0x26;0x36;0x3f;0xf7;0xcc;0x34;0xa5;0xe5;0xf1;0x71;0xd8;0x31;0x15;
  0x04;0xc7;0x23;0xc3;0x18;0x96;0x05;0x9a;0x07;0x12;0x80;0xe2;0xeb;0x27;0xb2;0x75;
  0x09;0x83;0x2c;0x1a;0x1b;0x6e;0x5a;0xa0;0x52;0x3b;0xd6;0xb3;0x29;0xe3;0x2f;0x84;
  0x53;0xd1;0x00;0xed;0x20;0xfc;0xb1;0x5b;0x6a;0xcb;0xbe;0x39;0x4a;0x4c;0x58;0xcf;
  0xd0;0xef;0xaa;0xfb;0x43;0x4d;0x33;0x85;0x45;0xf9;0x02;0x7f;0x50;0x3c;0x9f;0xa8;
  0x51;0xa3;0x40;0x8f;0x92;0x9d;0x38;0xf5;0xbc;0xb6;0xda;0x21;0x10;0xff;0xf3;0xd2;
  0xcd;0x0c;0x13;0xec;0x5f;0x97;0x44;0x17;0xc4;0xa7;0x7e;0x3d;0x64;0x5d;0x19;0x73;
  0x60;0x81;0x4f;0xdc;0x22;0x2a;0x90;0x88;0x46;0xee;0xb8;0x14;0xde;0x5e;0x0b;0xdb;
  0xe0;0x32;0x3a;0x0a;0x49;0x06;0x24;0x5c;0xc2;0xd3;0xac;0x62;0x91;0x95;0xe4;0x79;
  0xe7;0xc8;0x37;0x6d;0x8d;0xd5;0x4e;0xa9;0x6c;0x56;0xf4;0xea;0x65;0x7a;0xae;0x08;
  0xba;0x78;0x25;0x2e;0x1c;0xa6;0xb4;0xc6;0xe8;0xdd;0x74;0x1f;0x4b;0xbd;0x8b;0x8a;
  0x70;0x3e;0xb5;0x66;0x48;0x03;0xf6;0x0e;0x61;0x35;0x57;0xb9;0x86;0xc1;0x1d;0x9e;
  0xe1;0xf8;0x98;0x11;0x69;0xd9;0x8e;0x94;0x9b;0x1e;0x87;0xe9;0xce;0x55;0x28;0xdf;
  0x8c;0xa1;0x89;0x0d;0xbf;0xe6;0x42;0x68;0x41;0x99;0x2d;0x0f;0xb0;0x54;0xbb;0x16].

Definition rsbox : list Z := [
  0x52;0x09;0x6a;0xd5;0x30;0x36;0xa5;0x38;0xbf;0x40;0xa3;0x9e;0x81;0xf3;0xd7;0xfb;
  0x7c;0xe3;0x39;0x82;0x9b;0x2f;0xff;0x87;0x34;0x8e;0x43;0x44;0xc4;0xde;0xe9;0xcb;
  0x54;0x7b;0x94;0x32;0xa6;0xc2;0x23;0x3d;0xee;0x4c;0x95;0x0b;0x42;0xfa;0xc3;0x4e;
  0x08;0x2e;0xa1;0x66;0x28;0xd9;0x24;0xb2;0x76;0x5b;0xa2;0x49;0x6d;0x8b;0xd1;0x25;
  0x72;0xf8;0xf6;0x64;0x86;0x68;0x98;0x16;0xd4;0xa4;0x5c;0xcc;0x5d;0x65;0xb6;0x92;
  0x6c;0x70;0x48;0x50;0xfd;0xed;0xb9;0xda;0x5e;0x15;0x46;0x57;0xa7;0x8d;0x9d;0x84;
  0x90;0xd8;0xab;0x00;0x8c;0xbc;0xd3;0x0a;0xf7;0xe4;0x58;0x05;0xb8;0xb3;0x45;0x06;
  0xd0;0x2c;0x1e;0x8f;0xca;0x3f;0x0f;0x02;0xc1;0xaf;0xbd;0x03;0x01;0x13;0x8a;0x6b;
  0x3a;0x91;0x11;0x41;0x4f;0x67;0xdc;0xea;0x97;0xf2;0xcf;0xce;0xf0;0xb4;0xe6;0x73;
  0x96;0xac;0x74;0x22;0xe7;0xad;0x35;0x85;0xe2;0xf9;0x37;0xe8;0x1c;0x75;0xdf;0x6e;
  0x47;0xf1;0x1a;0x71;0x1d;0x29;0xc5;0x89;0x6f;0xb7;0x62;0x0e;0xaa;0x18;0xbe;0x1b;
  0xfc;0x56;0x3e;0x4b;0xc6;0xd2;0x79;0x20;0x9a;0xdb;0xc0;0xfe;0x78;0xcd;0x5a;0xf4;
  0x1f;0xdd;0xa8;0x33;0x88;0x07;0xc7;0x31;0xb1;0x12;0x10;0x59;0x27;0x80;0xec;0x5f;
  0x60;0x51;0x7f;0xa9;0x19;0xb5;0x4a;0x0d;0x2d;0xe5;0x7a;0x9f;0x93;0xc9;0x9c;0xef;
  0xa0;0xe0;0x3b;0x4d;0xae;0x2a;0xf5;0xb0;0xc8;0xeb;0xbb;0x3c;0x83;0x53;0x99;0x61;
  0x17;0x2b;0x04;0x7e;0xba;0x77;0xd6;0x26;0xe1;0x69;0x14;0x63;0x55;0x21;0x0c;0x7d].

Definition Rcon : list Z := [0x8d;0x01;0x02;0x04;0x08;0x10;0x20;0x40;0x80;0x1b;0x36].

Record AES_ctx := Ctx { RoundKey : list Z; Iv : list Z }.

Definition getSBoxValue (num : Z) : outcome Z := load1 sbox num.
Definition getSBoxInvert (num : Z) : outcome Z := load1 rsbox num.

(** One word of the key copied; one word derived from the words before it. *)
Definition copy_word (Key rk : list Z) (i : Z) : outcome (list Z) :=
  b ← load1 Key (i * 4 + 0); rk ← store1 rk (i * 4 + 0) b;
  b ← load1 Key (i * 4 + 1); rk ← store1 rk (i * 4 + 1) b;
  b ← load1 Key (i * 4 + 2); rk ← store1 rk (i * 4 + 2) b;
  b ← load1 Key (i * 4 + 3); store1 rk (i * 4 + 3) b.

Definition derive_word (rk : list Z) (i : Z) : outcome (list Z) :=
  let k := (i - 1) * 4 in
  t0 ← load1 rk (k + 0);
  t1 ← load1 rk (k + 1);
  t2 ← load1 rk (k + 2);
  t3 ← load1 rk (k + 3);
  '(t0, t1, t2, t3) ←
    (if i mod Nk =? 0 then
       s0 ← getSBoxValue t1;
       s1 ← getSBoxValue t2;
       s2 ← getSBoxValue t3;
       s3 ← getSBoxValue t0;
       r ← load1 Rcon (i / Nk);
       Ret (Z.lxor s0 r, s1, s2, s3)
     else Ret (t0, t1, t2, t3));
  let j := i * 4 in
  let k := (i - Nk) * 4 in
  b ← load1 rk (k + 0); rk ← store1 rk (j + 0) (Z.lxor b t0);
  b ← load1 rk (k + 1); rk ← store1 rk (j + 1) (Z.lxor b t1);
  b ← load1 rk (k + 2); rk ← store1 rk (j + 2) (Z.lxor b t2);
  b ← load1 rk (k + 3); store1 rk (j + 3) (Z.lxor b t3).

Definition KeyExpansion (rk Key : list Z) : outcome (list Z) :=
  rk ← foldM (copy_word Key) (seqZ 0 Nk) rk;
  foldM derive_word (seqZ Nk (Nb * (Nr + 1) - Nk)) rk.

Definition AES_init_ctx (ctx : AES_ctx) (key : list Z) : outcome AES_ctx :=
  rk ← KeyExpansion (RoundKey ctx) key; Ret (Ctx rk (Iv ctx)).

Definition AES_ctx_set_iv (ctx : AES_ctx) (iv : list Z) : outcome AES_ctx :=
  b ← load_bytes iv 0 AES_BLOCKLEN; v ← store_bytes (Iv ctx) 0 b; Ret (Ctx (RoundKey ctx) v).

Definition AES_init_ctx_iv (ctx : AES_ctx) (key iv : list Z) : outcome AES_ctx :=
  rk ← KeyExpansion (RoundKey ctx) key;
  b ← load_bytes iv 0 AES_BLOCKLEN; v ← store_bytes (Iv ctx) 0 b; Ret (Ctx rk v).

(** The cell [[i][j]] and an assignment to it. *)
Definition get (s : list Z) (i j : Z) : outcome Z := load1 s (4 * i + j).
Definition set (s : list Z) (i j v : Z) : outcome (list Z) := store1 s (4 * i + j) v.

(** The two loops over the cells; [i] is the outer variable. *)
Definition for_cells (body : list Z → Z → Z → outcome (list Z)) (s : list Z) : outcome (list Z) :=
  foldM (fun s i => foldM (fun s j => body s i j) (seqZ 0 4) s) (seqZ 0 4) s.

Definition AddRoundKey (round : Z) (state rk : list Z) : outcome (list Z) :=
  for_cells (fun s i j =>
    b ← get s i j; k ← load1 rk (round * Nb * 4 + i * Nb + j); set s i j (Z.lxor b k)) state.

Definition SubBytes (state : list Z) : outcome (list Z) :=
  for_cells (fun s i j => b ← get s j i; v ← getSBoxValue b; set s j i v) state.

Definition ShiftRows (s : list Z) : outcome (list Z) :=
  temp ← get s 0 1;
  b ← get s 1 1; s ← set s 0 1 b;
  b ← get s 2 1; s ← set s 1 1 b;
  b ← get s 3 1; s ← set s 2 1 b;
  s ← set s 3 1 temp;
  temp ← get s 0 2;
  b ← get s 2 2; s ← set s 0 2 b;
  s ← set s 2 2 temp;
  temp ← get s 1 2;
  b ← get s 3 2; s ← set s 1 2 b;
  s ← set s 3 2 temp;
  temp ← get s 0 3;
  b ← get s 3 3; s ← set s 0 3 b;
  b ← get s 2 3; s ← set s 3 3 b;
  b ← get s 1 3; s ← set s 2 3 b;
  set s 1 3 temp.

Definition xtime (x : Z) : Z :=
  u8 (Z.lxor (Z.shiftl x 1) (Z.land (Z.shiftr x 7) 1 * 0x1b)).

(** The cell [[i][n]] with [Tm ^ Tmp] added, [Tm] from the cell and [next]. *)
Definition mix_cell (s : list Z) (i n next Tmp : Z) : outcome (list Z) :=
  b ← get s i n;
  let Tm := xtime (Z.lxor b next) in
  set s i n (Z.lxor b (Z.lxor Tm Tmp)).

Definition mix_column (s : list Z) (i : Z) : outcome (list Z) :=
  t ← get s i 0;
  b1 ← get s i 1;
  b2 ← get s i 2;
  b3 ← get s i 3;
  let Tmp := Z.lxor (Z.lxor (Z.lxor t b1) b2) b3 in
  n ← get s i 1; s ← mix_cell s i 0 n Tmp;
  n ← get s i 2; s ← mix_cell s i 1 n Tmp;
  n ← get s i 3; s ← mix_cell s i 2 n Tmp;
  mix_cell s i 3 t Tmp.

Definition MixColumns (state : list Z) : outcome (list Z) := foldM mix_column (seqZ 0 4) state.

Definition Multiply (x y : Z) : Z :=
  let bit n := Z.land (Z.shiftr y n) 1 in
  Z.lxor (Z.lxor (Z.lxor (Z.lxor (Z.land y 1 * x)
    (bit 1 * xtime x))
    (bit 2 * xtime (xtime x)))
    (bit 3 * xtime (xtime (xtime x))))
    (bit 4 * xtime (xtime (xtime (xtime x)))).

Definition inv_mix_column (s : list Z) (i : Z) : outcome (list Z) :=
  a ← get s i 0;
  b ← get s i 1;
  c ← get s i 2;
  d ← get s i 3;
  let row x y z w := u8 (Z.lxor (Z.lxor (Z.lxor (Multiply a x) (Multiply b y)) (Multiply c z)) (Multiply d w)) in
  s ← set s i 0 (row 0x0e 0x0b 0x0d 0x09);
  s ← set s i 1 (row 0x09 0x0e 0x0b 0x0d);
  s ← set s i 2 (row 0x0d 0x09 0x0e 0x0b);
  set s i 3 (row 0x0b 0x0d 0x09 0x0e).

Definition InvMixColumns (state : list Z) : outcome (list Z) := foldM inv_mix_column (seqZ 0 4) state.

Definition InvSubBytes (state : list Z) : outcome (list Z) :=
  for_cells (fun s i j => b ← get s j i; v ← getSBoxInvert b; set s j i v) state.

Definition InvShiftRows (s : list Z) : outcome (list Z) :=
  temp ← get s 3 1;
  b ← get s 2 1; s ← set s 3 1 b;
  b ← get s 1 1; s ← set s 2 1 b;
  b ← get s 0 1; s ← set s 1 1 b;
  s ← set s 0 1 temp;
  temp ← get s 0 2;
  b ← get s 2 2; s ← set s 0 2 b;
  s ← set s 2 2 temp;
  temp ← get s 1 2;
  b ← get s 3 2; s ← set s 1 2 b;
  s ← set s 3 2 temp;
  temp ← get s 0 3;
  b ← get s 1 3; s ← set s 0 3 b;
  b ← get s 2 3; s ← set s 1 3 b;
  b ← get s 3 3; s ← set s 2 3 b;
  set s 3 3 temp.

(** The loop of [Cipher] leaves in the middle of the round [Nr]. *)
Fixpoint cipher_loop (fuel : nat) (round : Z) (state rk : list Z) : outcome (list Z) :=
  match fuel with
  | O => Hang
  | S fuel =>
      s ← SubBytes state;
      s ← ShiftRows s;
      if round =? Nr then Ret s
      else
        s ← MixColumns s;
        s ← AddRoundKey round s rk;
        cipher_loop fuel (u8 (round + 1)) s rk
  end.

Definition Cipher (state rk : list Z) : outcome (list Z) :=
  s ← AddRoundKey 0 state rk;
  s ← cipher_loop (Z.to_nat Nr) 1 s rk;
  AddRoundKey Nr s rk.

Fixpoint inv_cipher_loop (fuel : nat) (round : Z) (state rk : list Z) : outcome (list Z) :=
  match fuel with
  | O => Hang
  | S fuel =>
      s ← InvShiftRows state;
      s ← InvSubBytes s;
      s ← AddRoundKey round s rk;
      if round =? 0 then Ret s
      else
        s ← InvMixColumns s;
        inv_cipher_loop fuel (u8 (round - 1)) s rk
  end.

Definition InvCipher (state rk : list Z) : outcome (list Z) :=
  s ← AddRoundKey Nr state rk;
  inv_cipher_loop (Z.to_nat Nr) (Nr - 1) s rk.

(** A function on a [state_t] applied to the block at [off] of a buffer. *)
Definition at_block (f : list Z → outcome (list Z)) (buf : list Z) (off : Z) : outcome (list Z) :=
  s ← load_bytes buf off AES_BLOCKLEN; s ← f s; store_bytes buf off s.

Definition AES_ECB_encrypt (ctx : AES_ctx) (buf : list Z) : outcome (list Z) :=
  at_block (fun s => Cipher s (RoundKey ctx)) buf 0.

Definition AES_ECB_decrypt (ctx : AES_ctx) (buf : list Z) : outcome (list Z) :=
  at_block (fun s => InvCipher s (RoundKey ctx)) buf 0.

(** [Iv] as the code passes it: the array of the context, or a block of the buffer. *)
Definition iv_byte (ctx : AES_ctx) (buf : list Z) (iv : option Z) (i : Z) : outcome Z :=
  match iv with
  | None => load1 (Iv ctx) i
  | Some off => load1 buf (off + i)
  end.

Definition XorWithIv (ctx : AES_ctx) (buf : list Z) (off : Z) (iv : option Z) : outcome (list Z) :=
  foldM (fun buf i =>
    b ← load1 buf (off + i); v ← iv_byte ctx buf iv i; store1 buf (off + i) (Z.lxor b v))
    (seqZ 0 AES_BLOCKLEN) buf.

(** The number of times [for (i = 0; i < length; i += AES_BLOCKLEN)] runs, for a length
    the sum does not wrap for. *)
Definition block_count (length : Z) : Z := (length + AES_BLOCKLEN - 1) / AES_BLOCKLEN.

Definition cbc_encrypt_step (ctx : AES_ctx) (s : list Z * option Z) (n : Z) : outcome (list Z * option Z) :=
  let '(buf, iv) := s in
  let off := n * AES_BLOCKLEN in
  buf ← XorWithIv ctx buf off iv;
  buf ← at_block (fun s => Cipher s (RoundKey ctx)) buf off;
  Ret (buf, Some off).

Definition AES_CBC_encrypt_buffer (ctx : AES_ctx) (buf : list Z) (length : Z) : outcome (AES_ctx * list Z) :=
  '(buf, iv) ← foldM (cbc_encrypt_step ctx) (seqZ 0 (block_count length)) (buf, None);
  v ← match iv with
      | None => load_bytes (Iv ctx) 0 AES_BLOCKLEN
      | Some off => load_bytes buf off AES_BLOCKLEN
      end;
  v ← store_bytes (Iv ctx) 0 v;
  Ret (Ctx (RoundKey ctx) v, buf).

Definition cbc_decrypt_step (s : AES_ctx * list Z) (n : Z) : outcome (AES_ctx * list Z) :=
  let '(ctx, buf) := s in
  let off := n * AES_BLOCKLEN in
  storeNextIv ← load_bytes buf off AES_BLOCKLEN;
  buf ← at_block (fun s => InvCipher s (RoundKey ctx)) buf off;
  buf ← XorWithIv ctx buf off None;
  v ← store_bytes (Iv ctx) 0 storeNextIv;
  Ret (Ctx (RoundKey ctx) v, buf).

Definition AES_CBC_decrypt_buffer (ctx : AES_ctx) (buf : list Z) (length : Z) : outcome (AES_ctx * list Z) :=
  foldM cbc_decrypt_step (seqZ 0 (block_count length)) (ctx, buf).

(** [bi] counts down from the last byte while there is a carry; [n] is [bi + 1]. *)
Fixpoint iv_increment (n : nat) (iv : list Z) : outcome (list Z) :=
  match n with
  | O => Ret iv
  | S bi =>
      v ← load1 iv (Z.of_nat bi);
      if v =? 255 then iv ← store1 iv (Z.of_nat bi) 0; iv_increment bi iv
      else store1 iv (Z.of_nat bi) (u8 (v + 1))
  end.

(** The variables of the loop: the context, [buf], [buffer] (empty before it is first
    written) and [bi]. *)
Definition ctr_step (s : AES_ctx * list Z * list Z * Z) (i : Z) : outcome (AES_ctx * list Z * list Z * Z) :=
  let '(ctx, buf, buffer, bi) := s in
  '(ctx, buffer, bi) ←
    (if bi =? AES_BLOCKLEN then
       b ← load_bytes (Iv ctx) 0 AES_BLOCKLEN;
       b ← Cipher b (RoundKey ctx);
       v ← iv_increment (Z.to_nat AES_BLOCKLEN) (Iv ctx);
       Ret (Ctx (RoundKey ctx) v, b, 0)
     else Ret (ctx, buffer, bi));
  x ← load1 buf i;
  y ← load1 buffer bi;
  buf ← store1 buf i (Z.lxor x y);
  Ret (ctx, buf, buffer, bi + 1).

Definition AES_CTR_xcrypt_buffer (ctx : AES_ctx) (buf : list Z) (length : Z) : outcome (AES_ctx * list Z) :=
  '(ctx, buf, _, _) ← foldM ctr_step (seqZ 0 length) (ctx, buf, [], AES_BLOCKLEN);
  Ret (ctx, buf).

(** ** FIPS 197 *)

(** The product of polynomials over GF(2), its remainder by [x^8 + x^4 + x^3 + x + 1],
    and powers. *)
Definition poly_mul (x y : Z) : Z :=
  foldr (fun i v => if Z.testbit y i then Z.lxor (Z.shiftl x i) v else v) 0 (seqZ 0 8).
Definition poly_mod (x : Z) : Z :=
  foldr (fun i v => if Z.testbit v (8 + i) then Z.lxor v (Z.shiftl 0x11b i) else v) x (seqZ 0 7).
Definition gf_mul (x y : Z) : Z := poly_mod (poly_mul x y).
Fixpoint gf_pow (x : Z) (n : positive) : Z :=
  match n with
  | xH => x
  | xO n => gf_pow (gf_mul x x) n
  | xI n => gf_mul x (gf_pow (gf_mul x x) n)
  end.
Definition gf_inv (x : Z) : Z := gf_pow x 254.

Definition affine (x : Z) : Z :=
  bits_from 8 0 (fun i => foldr xorb (Z.testbit 0x63 i)
    ((fun n => Z.testbit x ((i + n) mod 8)) <$> [0; 4; 5; 6; 7])).
Definition S_box (x : Z) : Z := affine (gf_inv x).

(** Blocks: the bytes of a column are next to each other. *)
Definition sub_bytes (s : list Z) : list Z := S_box <$> s.
Definition shift_rows (s : list Z) : list Z :=
  (fun n => s !!! (4 * ((n / 4 + n mod 4) mod 4) + n mod 4)%nat) <$> seq 0 16.
Definition xor_bytes (s t : list Z) : list Z := zip_with Z.lxor s t.
Definition mix (coef : list Z) (s : list Z) : list Z :=
  (fun n => let c := (n / 4)%nat in let r := (n mod 4)%nat in
     foldr (fun k v => Z.lxor (gf_mul (s !!! (4 * c + k)%nat) (coef !!! ((k + 4 - r) mod 4)%nat)) v) 0 (seq 0 4))
  <$> seq 0 16.
Definition mix_columns : list Z → list Z := mix [2; 3; 1; 1].

(** The key of the next round from the key of this one. *)
Definition next_key (rcon : Z) (key : list Z) : list Z :=
  let w n := take 4 (drop (4 * n) key) in
  let g := xor_bytes (sub_bytes (rotate 1 (w 3%nat))) [rcon; 0; 0; 0] in
  let w0 := xor_bytes (w 0%nat) g in
  let w1 := xor_bytes (w 1%nat) w0 in
  let w2 := xor_bytes (w 2%nat) w1 in
  let w3 := xor_bytes (w 3%nat) w2 in
  w0 ++ w1 ++ w2 ++ w3.
Fixpoint round_keys (n : nat) (rcon : Z) (key : list Z) : list (list Z) :=
  match n with
  | O => [key]
  | S n => key :: round_keys n (gf_mul rcon 2) (next_key rcon key)
  end.

(** The first key, rounds, and a last round without the columns. *)
Fixpoint rounds (s : list Z) (keys : list (list Z)) : list Z :=
  match keys with
  | [] => s
  | [k] => xor_bytes (shift_rows (sub_bytes s)) k
  | k :: keys => rounds (xor_bytes (mix_columns (shift_rows (sub_bytes s))) k) keys
  end.
Definition aes_with (keys : list (list Z)) (block : list Z) : list Z :=
  match keys with
  | [] => block
  | k :: keys => rounds (xor_bytes block k) keys
  end.
Definition aes (key block : list Z) : list Z := aes_with (round_keys 10 1 key) block.
