(* ===== verification/AesProps.v ===== *)
(** * The cipher computes AES

    The tables and steps of the code are those of FIPS 197, [KeyExpansion] and
    [Cipher] compute the cipher of the standard, and [InvCipher] undoes it. *)

From Stdlib Require Import Ring.
From S2P Require Import Prelude Ring Words Aes.

(** ** Bytes *)

Lemma for_bytes (P : Z → bool) : forallb P (seqZ 0 256) = true → ∀ x, is_byte x → P x = true.
Proof.
  intros H x Hx. rewrite forallb_forall in H. apply H. apply list_elem_of_In, elem_of_seqZ. unfold is_byte in Hx. lia.
Qed.

(** Equality of sums of bytes, bit by bit in the ring of booleans. *)
Ltac xor_ring := apply Z.bits_inj'; intros ? _; rewrite !Z.lxor_spec, ?Z.bits_0; ring.

Lemma byte_lxor x y : is_byte x → is_byte y → is_byte (Z.lxor x y).
Proof. apply (lxor_range 8). lia. Qed.

Lemma byte_mod x : is_byte (u8 x).
Proof. by apply Z.mod_pos_bound. Qed.

Lemma S_box_byte x : is_byte (S_box x).
Proof. apply (bits_from_range 8). Qed.

Create HintDb bytes.
#[export] Hint Resolve byte_lxor byte_mod S_box_byte : bytes.

Lemma sbox_table : sbox = S_box <$> seqZ 0 256.
Proof. vm_compute. reflexivity. Qed.

Lemma getSBoxValue_spec x : is_byte x → getSBoxValue x = Ret (S_box x).
Proof.
  intros Hx. unfold is_byte in Hx. unfold getSBoxValue. apply load1_Ret; [lia|]. rewrite sbox_table, list_lookup_fmap.
  rewrite lookup_seqZ_lt by lia. simpl. do 2 f_equal. lia.
Qed.

Lemma getSBoxInvert_spec x : is_byte x → getSBoxInvert x = Ret (rsbox !!! Z.to_nat x).
Proof.
  intros Hx. unfold is_byte in Hx. apply load1_Ret; [lia|]. apply list_lookup_lookup_total_lt.
  change (length rsbox) with 256%nat. lia.
Qed.

Lemma rsbox_inverse x : is_byte x → rsbox !!! Z.to_nat (S_box x) = x.
Proof.
  intros Hx. apply Z.eqb_eq. revert x Hx. apply for_bytes. vm_compute. reflexivity.
Qed.

(** ** Multiplication *)

Lemma gf_mul_1 x : is_byte x → gf_mul x 1 = x.
Proof. intros Hx. apply Z.eqb_eq. revert x Hx. apply for_bytes. vm_compute. reflexivity. Qed.
Lemma gf_mul_2 x : is_byte x → gf_mul x 2 = xtime x.
Proof. intros Hx. apply Z.eqb_eq. revert x Hx. apply for_bytes. vm_compute. reflexivity. Qed.
Lemma gf_mul_3 x : is_byte x → gf_mul x 3 = Z.lxor (xtime x) x.
Proof. intros Hx. apply Z.eqb_eq. revert x Hx. apply for_bytes. vm_compute. reflexivity. Qed.

Lemma Multiply_spec x : is_byte x →
  Multiply x 0x09 = gf_mul x 9 ∧ Multiply x 0x0b = gf_mul x 11 ∧ Multiply x 0x0d = gf_mul x 13 ∧ Multiply x 0x0e = gf_mul x 14.
Proof.
  intros Hx. enough (((Multiply x 9 =? gf_mul x 9) && (Multiply x 11 =? gf_mul x 11) &&
    (Multiply x 13 =? gf_mul x 13) && (Multiply x 14 =? gf_mul x 14)) = true) by lia.
  revert x Hx. apply for_bytes. vm_compute. reflexivity.
Qed.

(** [gf_inv] is the inverse of the field. *)
Lemma gf_inv_mul x : is_byte x → x ≠ 0 → gf_mul x (gf_inv x) = 1.
Proof.
  intros Hx Hn. enough (((x =? 0) || (gf_mul x (gf_inv x) =? 1)) = true) by lia.
  revert x Hx Hn. intros x Hx _. revert x Hx. apply for_bytes. vm_compute. reflexivity.
Qed.

Lemma u8_lxor x y : u8 (Z.lxor x y) = Z.lxor (u8 x) (u8 y).
Proof.
  unfold u8. change 256 with (2 ^ 8). apply Z.bits_inj'. intros i Hi. rewrite Z.lxor_spec. destruct (decide (i < 8)).
  - rewrite !Z.mod_pow2_bits_low by lia. apply Z.lxor_spec.
  - by rewrite !Z.mod_pow2_bits_high by lia.
Qed.

Lemma xtime_bit x : xtime x = Z.lxor (u8 (Z.shiftl x 1)) (if Z.testbit x 7 then 0x1b else 0).
Proof.
  assert (Z.land (Z.shiftr x 7) 1 = Z.b2z (Z.testbit x 7)) as E.
  { change 1 with (Z.ones 1). rewrite Z.land_ones by done. change (2 ^ 1) with 2. rewrite <-Z.bit0_mod.
    by rewrite Z.shiftr_spec. }
  unfold xtime. rewrite u8_lxor, E. f_equal. by destruct (Z.testbit x 7).
Qed.

Lemma xtime_lxor x y : xtime (Z.lxor x y) = Z.lxor (xtime x) (xtime y).
Proof.
  rewrite !xtime_bit, Z.shiftl_lxor, u8_lxor, Z.lxor_spec. destruct (Z.testbit x 7), (Z.testbit y 7); simpl; xor_ring.
Qed.

Lemma xtime_byte x : is_byte (xtime x).
Proof. apply byte_mod. Qed.
#[export] Hint Resolve xtime_byte : bytes.

(** ** Blocks *)

Definition is_block (s : list Z) : Prop := length s = 16%nat ∧ Forall is_byte s.

(** Names the bytes of a block. *)
Ltac open_block H :=
  let Hl := fresh "Hl" in let Hb := fresh "Hb" in destruct H as [Hl Hb];
  match type of Hl with length ?s = _ =>
    do 16 (let x := fresh "x" in destruct s as [|x s]; [discriminate Hl|]);
    destruct s; [clear Hl|discriminate Hl]; rewrite !Forall_cons in Hb
  end.
Ltac close_block := split; [reflexivity|]; repeat (apply Forall_cons; split; [auto 12 with bytes|]); constructor.

(** ** Loops over the cells *)

Section cells.
Context (body : list Z → Z → Z → outcome (list Z)) (g : nat → Z → Z).

Lemma for_cells_rows s :
  (∀ s i j b, 0 ≤ i < 4 → 0 ≤ j < 4 → length s = 16%nat → s !! Z.to_nat (4 * i + j) = Some b → is_byte b →
     body s i j = Ret (<[Z.to_nat (4 * i + j) := g (Z.to_nat (4 * i + j)) b]> s)) →
  is_block s → for_cells body s = Ret (imap g s).
Proof.
  intros Hbody Hs. open_block Hs. unfold for_cells. change (seqZ 0 4) with [0; 1; 2; 3]. cbn [foldM].
  repeat (erewrite Hbody; [|lia|lia|reflexivity|reflexivity|tauto]; cbn -[foldM]). reflexivity.
Qed.

Lemma for_cells_columns s :
  (∀ s i j b, 0 ≤ i < 4 → 0 ≤ j < 4 → length s = 16%nat → s !! Z.to_nat (4 * j + i) = Some b → is_byte b →
     body s i j = Ret (<[Z.to_nat (4 * j + i) := g (Z.to_nat (4 * j + i)) b]> s)) →
  is_block s → for_cells body s = Ret (imap g s).
Proof.
  intros Hbody Hs. open_block Hs. unfold for_cells. change (seqZ 0 4) with [0; 1; 2; 3]. cbn [foldM].
  repeat (erewrite Hbody; [|lia|lia|reflexivity|reflexivity|tauto]; cbn -[foldM]). reflexivity.
Qed.
End cells.

Lemma for_cells_map body f s :
  (∀ s i j b, 0 ≤ i < 4 → 0 ≤ j < 4 → length s = 16%nat → s !! Z.to_nat (4 * j + i) = Some b → is_byte b →
     body s i j = Ret (<[Z.to_nat (4 * j + i) := f b]> s)) →
  is_block s → for_cells body s = Ret (f <$> s).
Proof.
  intros Hbody Hs. rewrite (for_cells_columns _ (fun _ => f)) by done. open_block Hs. reflexivity.
Qed.

Lemma SubBytes_spec s : is_block s → SubBytes s = Ret (sub_bytes s) ∧ is_block (sub_bytes s).
Proof.
  intros Hs. split.
  - apply for_cells_map; [|done]. clear s Hs. intros s i j b Hi Hj Hl Eb Hb. unfold get, set.
    rewrite (load1_Ret s (_ + _) b), bind_ret by (done || lia). rewrite getSBoxValue_spec, bind_ret by done. apply store1_Ret. lia.
  - destruct Hs as [Hl _]. split; [by unfold sub_bytes; rewrite length_fmap|].
    apply Forall_fmap, Forall_forall. intros x _. apply S_box_byte.
Qed.

Lemma InvSubBytes_spec s : is_block s → InvSubBytes (sub_bytes s) = Ret s.
Proof.
  intros Hs. unfold InvSubBytes. rewrite (for_cells_map _ (fun b => rsbox !!! Z.to_nat b)).
  - f_equal. unfold sub_bytes. rewrite <-list_fmap_compose. rewrite <-(list_fmap_id s) at 2.
    apply list_fmap_ext. intros i x Hx. apply rsbox_inverse. by eapply Forall_lookup_1; [apply Hs|].
  - clear s Hs. intros s i j b Hi Hj Hl Eb Hb. unfold get, set.
    rewrite (load1_Ret s (_ + _) b), bind_ret by (done || lia). rewrite getSBoxInvert_spec, bind_ret by done. apply store1_Ret. lia.
  - by apply SubBytes_spec.
Qed.

(** ** Keys *)

Lemma xor_bytes_block s t : is_block s → is_block t → is_block (xor_bytes s t).
Proof.
  intros [Hl Hb] [Hl' Hb']. split; [unfold xor_bytes; rewrite length_zip_with; lia|].
  apply Forall_lookup. intros i x Hx. apply lookup_zip_with_Some in Hx as (a & b & -> & Ha & Hc).
  apply byte_lxor; [exact (Forall_lookup_1 _ _ _ _ Hb Ha)|exact (Forall_lookup_1 _ _ _ _ Hb' Hc)].
Qed.

Lemma xor_bytes_twice s t : length s = length t → xor_bytes (xor_bytes s t) t = s.
Proof.
  revert t. induction s as [|x s IH]; intros [|y t] Hl; simplify_eq/=; [done|]. f_equal; [xor_ring|]. by apply IH.
Qed.

Lemma AddRoundKey_spec round s rk key : is_block s → is_block key → 0 ≤ round →
  take 16 (drop (16 * Z.to_nat round) rk) = key → AddRoundKey round s rk = Ret (xor_bytes s key).
Proof.
  intros Hs Hk Hr Ek. unfold AddRoundKey. rewrite (for_cells_rows _ (fun n b => Z.lxor b (key !!! n))).
  - f_equal. open_block Hs. clear Ek. open_block Hk. reflexivity.
  - clear s Hs. intros s i j b Hi Hj Hl Eb Hb. unfold get, set. rewrite (load1_Ret s (_ + _) b), bind_ret by (done || lia).
    rewrite (load1_Ret rk _ (key !!! Z.to_nat (4 * i + j))).
    + rewrite bind_ret. apply store1_Ret. lia.
    + unfold Nb. lia.
    + destruct Hk as [Hkl _]. rewrite <-(list_lookup_lookup_total_lt key) by lia. rewrite <-Ek.
      rewrite lookup_take_lt, lookup_drop by lia. f_equal. unfold Nb. lia.
  - done.
Qed.

(** ** Rows and columns *)

Lemma ShiftRows_spec s : is_block s → ShiftRows s = Ret (shift_rows s) ∧ is_block (shift_rows s).
Proof. intros Hs. open_block Hs. split; [reflexivity|]. destruct_and!. close_block. Qed.

Lemma InvShiftRows_spec s : is_block s → InvShiftRows (shift_rows s) = Ret s.
Proof. intros Hs. open_block Hs. reflexivity. Qed.

Lemma MixColumns_spec s : is_block s → MixColumns s = Ret (mix_columns s) ∧ is_block (mix_columns s).
Proof.
  intros Hs. assert (MixColumns s = Ret (mix_columns s) ∧ is_block s) as [E Hb].
  { split; [|done]. open_block Hs. lazy beta iota zeta delta -[Z.lxor xtime gf_mul]. f_equal.
    repeat (apply (f_equal2 cons);
      [rewrite !gf_mul_1, gf_mul_2, gf_mul_3 by tauto; rewrite xtime_lxor; xor_ring|]). reflexivity. }
  split; [done|]. clear Hs. open_block Hb. destruct_and!. apply (f_equal (fun o => match o with Ret l => l | _ => [] end)) in E.
  cbv beta iota in E. rewrite <-E. lazy beta iota zeta delta -[Z.lxor xtime is_block]. close_block.
Qed.

Lemma Multiply_xtime x : is_byte x →
  Multiply x 0x09 = Z.lxor (xtime (xtime (xtime x))) x ∧
  Multiply x 0x0b = Z.lxor (Z.lxor (xtime (xtime (xtime x))) (xtime x)) x ∧
  Multiply x 0x0d = Z.lxor (Z.lxor (xtime (xtime (xtime x))) (xtime (xtime x))) x ∧
  Multiply x 0x0e = Z.lxor (Z.lxor (xtime (xtime (xtime x))) (xtime (xtime x))) (xtime x).
Proof.
  intros Hx. set (x3 := xtime (xtime (xtime x))). enough (((Multiply x 9 =? Z.lxor x3 x) && (Multiply x 11 =? Z.lxor (Z.lxor x3 (xtime x)) x) &&
    (Multiply x 13 =? Z.lxor (Z.lxor x3 (xtime (xtime x))) x) && (Multiply x 14 =? Z.lxor (Z.lxor x3 (xtime (xtime x))) (xtime x))) = true) by lia.
  subst x3. revert x Hx. apply for_bytes. vm_compute. reflexivity.
Qed.

(** One row of the product of the two matrices. *)
Lemma unmix a b c d : is_byte a → is_byte b → is_byte c → is_byte d →
  let t := Z.lxor (Z.lxor (Z.lxor a b) c) d in
  let a' := Z.lxor a (Z.lxor (xtime (Z.lxor a b)) t) in
  let b' := Z.lxor b (Z.lxor (xtime (Z.lxor b c)) t) in
  let c' := Z.lxor c (Z.lxor (xtime (Z.lxor c d)) t) in
  let d' := Z.lxor d (Z.lxor (xtime (Z.lxor d a)) t) in
  u8 (Z.lxor (Z.lxor (Z.lxor (Multiply a' 0x0e) (Multiply b' 0x0b)) (Multiply c' 0x0d)) (Multiply d' 0x09)) = a ∧
  u8 (Z.lxor (Z.lxor (Z.lxor (Multiply a' 0x09) (Multiply b' 0x0e)) (Multiply c' 0x0b)) (Multiply d' 0x0d)) = b ∧
  u8 (Z.lxor (Z.lxor (Z.lxor (Multiply a' 0x0d) (Multiply b' 0x09)) (Multiply c' 0x0e)) (Multiply d' 0x0b)) = c ∧
  u8 (Z.lxor (Z.lxor (Z.lxor (Multiply a' 0x0b) (Multiply b' 0x0d)) (Multiply c' 0x09)) (Multiply d' 0x0e)) = d.
Proof.
  intros Ha Hb Hc Hd t a' b' c' d'.
  assert (∀ x y, is_byte y → x = y → u8 x = y) as U by (intros ? y Hy ->; by apply Z.mod_small).
  destruct (Multiply_xtime a') as (-> & -> & -> & ->); [unfold a', t; auto 10 with bytes|].
  destruct (Multiply_xtime b') as (-> & -> & -> & ->); [unfold b', t; auto 10 with bytes|].
  destruct (Multiply_xtime c') as (-> & -> & -> & ->); [unfold c', t; auto 10 with bytes|].
  destruct (Multiply_xtime d') as (-> & -> & -> & ->); [unfold d', t; auto 10 with bytes|].
  unfold a', b', c', d', t. rewrite !xtime_lxor. split_and!; apply U; try done; xor_ring.
Qed.

Lemma InvMixColumns_spec s : is_block s → InvMixColumns (mix_columns s) = Ret s.
Proof.
  intros Hs. destruct (MixColumns_spec s Hs) as [E _]. set (m := mix_columns s) in *. clearbody m.
  open_block Hs. destruct_and!. lazy beta iota zeta delta -[Z.lxor xtime] in E. injection E as <-.
  lazy beta iota zeta delta -[Z.lxor xtime Multiply u8].
  destruct (unmix x x0 x1 x2) as (-> & -> & -> & ->); [done..|].
  destruct (unmix x3 x4 x5 x6) as (-> & -> & -> & ->); [done..|].
  destruct (unmix x7 x8 x9 x10) as (-> & -> & -> & ->); [done..|].
  destruct (unmix x11 x12 x13 x14) as (-> & -> & -> & ->); [done..|]. reflexivity.
Qed.

(** ** The cipher *)

Section keys.
Context (keys : list (list Z)) (Hkeys : Forall is_block keys) (Hlen : length keys = 11%nat).
#[local] Set Default Proof Using "Hkeys Hlen".

Lemma round_key r : 0 ≤ r < 11 → take 16 (drop (16 * Z.to_nat r) (concat keys)) = keys !!! Z.to_nat r ∧ is_block (keys !!! Z.to_nat r).
Proof.
  intros Hr. assert (keys !! Z.to_nat r = Some (keys !!! Z.to_nat r)) as Ek by (apply list_lookup_lookup_total_lt; lia).
  assert (is_block (keys !!! Z.to_nat r)) as Hb by by eapply Forall_lookup_1. split; [|done].
  rewrite <-(take_drop_middle _ _ _ Ek) at 1. rewrite concat_app. cbn [concat].
  rewrite drop_app_length', take_app_length'; [done|symmetry; apply Hb|].
  rewrite (concat_length 16); [rewrite length_take; lia|]. apply Forall_take. eapply Forall_impl; [done|]. by intros ? [? _].
Qed.

Lemma AddRoundKey_key r s : 0 ≤ r < 11 → is_block s →
  AddRoundKey r s (concat keys) = Ret (xor_bytes s (keys !!! Z.to_nat r)) ∧ is_block (xor_bytes s (keys !!! Z.to_nat r)).
Proof.
  intros Hr Hs. destruct (round_key r Hr) as [E Hk]. split; [apply AddRoundKey_spec; done || lia|by apply xor_bytes_block].
Qed.

(** A round but the last. *)
Definition full_round (s key : list Z) : list Z := xor_bytes (mix_columns (shift_rows (sub_bytes s))) key.

Lemma block_steps s : is_block s → is_block (shift_rows (sub_bytes s)) ∧ is_block (mix_columns (shift_rows (sub_bytes s))).
Proof using Type.
  clear Hkeys Hlen. intros Hs. apply SubBytes_spec in Hs as [_ Hs]. apply ShiftRows_spec in Hs as [_ Hs].
  split; [done|]. by apply MixColumns_spec.
Qed.

Lemma cipher_loop_spec n r s : r + Z.of_nat n = 10 → 1 ≤ r → is_block s →
  (s ← cipher_loop (S n) r s (concat keys); AddRoundKey Nr s (concat keys)) =
    Ret (rounds s (drop (Z.to_nat r) keys)) ∧ is_block (rounds s (drop (Z.to_nat r) keys)).
Proof.
  revert r s. induction n as [|n IH]; intros r s Hn Hr Hs; cbn [cipher_loop];
    rewrite (proj1 (SubBytes_spec s Hs)), bind_ret; apply SubBytes_spec in Hs as [_ Hsub];
    rewrite (proj1 (ShiftRows_spec _ Hsub)), bind_ret; apply ShiftRows_spec in Hsub as [_ Hshift].
  - replace (r =? Nr) with true by (unfold Nr; lia). rewrite bind_ret. replace r with 10 by lia. 
    destruct (AddRoundKey_key 10 _ ltac:(lia) Hshift) as [E Hb]. unfold Nr. rewrite E.
    rewrite (drop_S _ (keys !!! 10%nat)) by (apply list_lookup_lookup_total_lt; lia). rewrite drop_ge by (simpl; lia). done.
  - replace (r =? Nr) with false by (unfold Nr; lia). rewrite (proj1 (MixColumns_spec _ Hshift)), bind_ret.
    apply MixColumns_spec in Hshift as [_ Hmix]. destruct (AddRoundKey_key r _ ltac:(lia) Hmix) as [E Hb]. rewrite E, bind_ret.
    unfold u8. rewrite Z.mod_small by lia. rewrite (drop_S _ (keys !!! Z.to_nat r)) by (apply list_lookup_lookup_total_lt; lia).
    replace (S (Z.to_nat r)) with (Z.to_nat (r + 1)) by lia.
    destruct (drop (Z.to_nat (r + 1)) keys) as [|k ks] eqn:Ed; [apply (f_equal length) in Ed; rewrite length_drop in Ed; simpl in Ed; lia|].
    change (rounds s (keys !!! Z.to_nat r :: k :: ks)) with (rounds (full_round s (keys !!! Z.to_nat r)) (k :: ks)).
    rewrite <-Ed. apply IH; [lia|lia|done].
Qed.

Lemma Cipher_keys s : is_block s → Cipher s (concat keys) = Ret (aes_with keys s) ∧ is_block (aes_with keys s).
Proof.
  intros Hs. unfold Cipher. destruct (AddRoundKey_key 0 s ltac:(lia) Hs) as [-> Hb]. rewrite bind_ret.
  destruct (cipher_loop_spec 9 1 _ eq_refl ltac:(lia) Hb) as [E Hr]. change (Z.to_nat Nr) with 10%nat. rewrite E.
  destruct keys as [|k ks]; [done|]. done.
Qed.

Lemma rounds_last s ks k : rounds s (ks ++ [k]) = xor_bytes (shift_rows (sub_bytes (foldl full_round s ks))) k.
Proof using Type.
  clear Hkeys Hlen. revert s. induction ks as [|k1 ks IH]; intros s; [done|]. cbn [foldl]. rewrite <-IH.
  by destruct ks as [|k2 ks].
Qed.

(** The state after the round [n]. *)
Definition state_after (s : list Z) (n : nat) : list Z :=
  foldl full_round (xor_bytes s (keys !!! 0%nat)) (take n (drop 1 keys)).

Lemma state_after_S s n : (n < 10)%nat →
  state_after s (S n) = full_round (state_after s n) (keys !!! S n).
Proof using Hlen.
  clear Hkeys. intros Hn. unfold state_after. rewrite (take_S_r _ _ (keys !!! S n)), foldl_app; [done|].
  rewrite lookup_drop. apply list_lookup_lookup_total_lt. lia.
Qed.

Lemma state_after_block s n : is_block s → (n ≤ 10)%nat → is_block (state_after s n).
Proof.
  intros Hs. induction n as [|n IH]; intros Hn.
  - apply (AddRoundKey_key 0 s); [lia|done].
  - rewrite state_after_S by lia. replace (S n) with (Z.to_nat (Z.of_nat (S n))) by lia. unfold full_round.
    apply AddRoundKey_key; [lia|]. apply block_steps, IH. lia.
Qed.

Lemma inv_cipher_loop_spec s n : is_block s → (n ≤ 9)%nat →
  inv_cipher_loop (S n) (Z.of_nat n) (shift_rows (sub_bytes (state_after s n))) (concat keys) = Ret s.
Proof.
  intros Hs. induction n as [|n IH]; intros Hn; cbn [inv_cipher_loop];
    (rewrite InvShiftRows_spec by (apply SubBytes_spec, state_after_block; done || lia)); rewrite bind_ret;
    (rewrite InvSubBytes_spec by (apply state_after_block; done || lia)); rewrite bind_ret.
  - change (Z.of_nat 0) with 0.
    rewrite (proj1 (AddRoundKey_key 0 (state_after s 0) ltac:(lia) (state_after_block s 0 Hs ltac:(lia)))), bind_ret.
    cbv [Z.eqb]. f_equal. apply xor_bytes_twice. destruct Hs as [-> _].
    destruct (round_key 0) as [_ [Hk _]]; [lia|]. done.
  - rewrite (proj1 (AddRoundKey_key (Z.of_nat (S n)) _ ltac:(lia) (state_after_block s (S n) Hs ltac:(lia)))), bind_ret.
    destruct (Z.eqb_spec (Z.of_nat (S n)) 0) as [E0|_]; [lia|]. rewrite Nat2Z.id, state_after_S by lia. unfold full_round.
    pose proof (state_after_block s n Hs ltac:(lia)) as Hb. rewrite xor_bytes_twice.
    + rewrite InvMixColumns_spec, bind_ret by by apply block_steps. unfold u8. rewrite Z.mod_small by lia.
      replace (Z.of_nat (S n) - 1) with (Z.of_nat n) by lia. apply IH. lia.
    + destruct (block_steps _ Hb) as [_ [-> _]]. destruct (round_key (Z.of_nat (S n))) as [_ [Hk _]]; [lia|].
      by rewrite Nat2Z.id in Hk.
Qed.

Lemma InvCipher_keys s : is_block s → InvCipher (aes_with keys s) (concat keys) = Ret s.
Proof.
  intros Hs. destruct (round_key 10) as [_ Hk]; [lia|].
  assert (aes_with keys s = xor_bytes (shift_rows (sub_bytes (state_after s 9))) (keys !!! 10%nat)) as E.
  { unfold state_after. rewrite <-rounds_last. rewrite <-(take_S_r (drop 1 keys) 9 (keys !!! 10%nat)).
    - rewrite take_ge by (rewrite length_drop; lia). by destruct keys.
    - rewrite lookup_drop. apply list_lookup_lookup_total_lt. lia. }
  pose proof (state_after_block s 9 Hs ltac:(lia)) as Hb. destruct (block_steps _ Hb) as [Hb' _].
  unfold InvCipher. rewrite E. destruct (AddRoundKey_key 10 _ ltac:(lia) (xor_bytes_block _ _ Hb' Hk)) as [Ek _].
  change (AddRoundKey Nr) with (AddRoundKey 10). change (Z.to_nat 10) with 10%nat in Ek. rewrite Ek, bind_ret, xor_bytes_twice.
  - change (Z.to_nat Nr) with 10%nat. apply (inv_cipher_loop_spec s 9); [done|lia].
  - destruct Hb' as [-> _]. destruct Hk as [Hk _]. by rewrite <-Hk.
Qed.
End keys.
