(* ===== verification/AesKeys.v ===== *)
(** * The keys of the rounds

    [KeyExpansion] writes the keys of FIPS 197, so that [AES_ECB_encrypt] computes the
    cipher of the standard and [AES_ECB_decrypt] undoes it. *)

From S2P Require Import Prelude Ring Words Aes AesProps.

(** ** Words of the key *)

Definition is_word (w : list Z) : Prop := length w = 4%nat ∧ Forall is_byte w.

(** Word [i] from the words before it. *)
Definition key_word (ws : list (list Z)) (i : Z) : list Z :=
  let t := ws !!! Z.to_nat (i - 1) in
  xor_bytes (ws !!! Z.to_nat (i - 4))
    (if i mod 4 =? 0 then xor_bytes (sub_bytes (rotate 1 t)) [Rcon !!! Z.to_nat (i / 4); 0; 0; 0] else t).

Definition add_word (ws : list (list Z)) (i : Z) : list (list Z) := ws ++ [key_word ws i].

(** The four bytes of a word among words. *)
Lemma word_bytes ws j w : Forall is_word ws → ws !! j = Some w →
  ∃ w0 w1 w2 w3, w = [w0; w1; w2; w3] ∧ is_byte w0 ∧ is_byte w1 ∧ is_byte w2 ∧ is_byte w3 ∧
    ∀ d, take (length (concat ws)) d = concat ws →
      load1 d (Z.of_nat j * 4 + 0) = Ret w0 ∧ load1 d (Z.of_nat j * 4 + 1) = Ret w1 ∧
      load1 d (Z.of_nat j * 4 + 2) = Ret w2 ∧ load1 d (Z.of_nat j * 4 + 3) = Ret w3.
Proof.
  intros Hws Hj. assert (is_word w) as [Hl Hb] by by eapply Forall_lookup_1.
  assert (∀ d i v, take (length (concat ws)) d = concat ws → w !! i = Some v → load1 d (Z.of_nat j * 4 + Z.of_nat i) = Ret v) as L.
  { intros d i v Hd Hv. apply (load1_prefix d (concat ws)); [done|lia|].
    replace (Z.to_nat _) with (4 * j + i)%nat by lia. apply lookup_concat with (b := w); [|done..].
    eapply Forall_impl; [done|]. by intros ? [? _]. }
  destruct w as [|w0 [|w1 [|w2 [|w3 [|??]]]]]; simplify_eq Hl. rewrite !Forall_cons in Hb. exists w0, w1, w2, w3.
  split; [done|]. destruct Hb as (? & ? & ? & ? & _). do 4 (split; [done|]). intros d Hd.
  split_and!; [apply (L d 0%nat)|apply (L d 1%nat)|apply (L d 2%nat)|apply (L d 3%nat)]; done.
Qed.

(** What a loop over the words has written. *)
Definition written (rk : list Z) (ws : list (list Z)) : Prop :=
  length rk = 176%nat ∧ Forall is_word ws ∧ take (length (concat ws)) rk = concat ws.

Lemma words_length ws : Forall is_word ws → length (concat ws) = (4 * length ws)%nat.
Proof. intros H. apply concat_length. eapply Forall_impl; [done|]. by intros ? [? _]. Qed.

(** Four stores behind what is written. *)
Lemma store_word rk p b0 b1 b2 b3 (f0 f1 f2 f3 : list Z → outcome Z) (g0 g1 g2 g3 : Z → Z) :
  take (length p) rk = p → (length p + 4 ≤ length rk)%nat →
  (∀ d, take (length p) d = p → f0 d = Ret b0 ∧ f1 d = Ret b1 ∧ f2 d = Ret b2 ∧ f3 d = Ret b3) →
  let j := Z.of_nat (length p) in
  let w := [g0 b0; g1 b1; g2 b2; g3 b3] in
  ∃ rk', (b ← f0 rk; rk ← store1 rk (j + 0) (g0 b);
          b ← f1 rk; rk ← store1 rk (j + 1) (g1 b);
          b ← f2 rk; rk ← store1 rk (j + 2) (g2 b);
          b ← f3 rk; store1 rk (j + 3) (g3 b)) = Ret rk' ∧ length rk' = length rk ∧
    take (length (p ++ w)) rk' = p ++ w.
Proof.
  intros Hp Hl Hf j w. assert (∀ d q, take (length (p ++ q)) d = p ++ q → take (length p) d = p) as Hq.
  { intros d q E. apply (f_equal (take (length p))) in E. rewrite take_take, take_app_length in E.
    rewrite length_app, Nat.min_l in E by lia. done. }
  destruct (Hf rk Hp) as (-> & _). rewrite bind_ret. rewrite Z.add_0_r.
  destruct (store1_take rk p j (g0 b0)) as (r0 & -> & L0 & T0); [done|done|lia|]. rewrite bind_ret.
  destruct (Hf r0 (Hq _ _ T0)) as (_ & -> & _). rewrite bind_ret.
  destruct (store1_take r0 (p ++ [g0 b0]) (j + 1) (g1 b1)) as (r1 & -> & L1 & T1); [rewrite length_app; simpl; lia|done|lia|].
  rewrite bind_ret. rewrite <-app_assoc in T1. destruct (Hf r1 (Hq _ _ T1)) as (_ & _ & -> & _). rewrite bind_ret.
  destruct (store1_take r1 (p ++ [g0 b0; g1 b1]) (j + 2) (g2 b2)) as (r2 & -> & L2 & T2); [rewrite length_app; simpl; lia|done|lia|].
  rewrite bind_ret. rewrite <-app_assoc in T2. destruct (Hf r2 (Hq _ _ T2)) as (_ & _ & _ & ->). rewrite bind_ret.
  destruct (store1_take r2 (p ++ [g0 b0; g1 b1; g2 b2]) (j + 3) (g3 b3)) as (r3 & -> & L3 & T3); [rewrite length_app; simpl; lia|done|lia|].
  rewrite <-app_assoc in T3. exists r3. split_and!; [done|congruence|done].
Qed.

Lemma copy_word_spec key d ws rk : Forall is_word key → length key = 4%nat → take (length (concat key)) d = concat key → written rk ws → ws = take (length ws) key → (length ws < 4)%nat →
  ∃ rk', copy_word d rk (Z.of_nat (length ws)) = Ret rk' ∧ written rk' (ws ++ [key !!! length ws]).
Proof.
  intros Hkey Hkl Hkd (Hl & Hws & Hd) Hp Hn.
  assert (key !! length ws = Some (key !!! length ws)) as Ek by (apply list_lookup_lookup_total_lt; lia).
  destruct (word_bytes key _ _ Hkey Ek) as (w0 & w1 & w2 & w3 & Ew & H0 & H1 & H2 & H3 & L).
  pose proof (words_length ws Hws) as Hlen. rewrite Ew in *.
  destruct (L d Hkd) as (L0 & L1 & L2 & L3).
  destruct (store_word rk (concat ws) w0 w1 w2 w3 (fun _ => load1 d (Z.of_nat (length ws) * 4 + 0))
    (fun _ => load1 d (Z.of_nat (length ws) * 4 + 1)) (fun _ => load1 d (Z.of_nat (length ws) * 4 + 2))
    (fun _ => load1 d (Z.of_nat (length ws) * 4 + 3)) id id id id) as (rk' & E & Hl' & Ht); [done|lia|done|].
  exists rk'. split.
  - rewrite <-E. unfold copy_word. replace (Z.of_nat (length (concat ws))) with (Z.of_nat (length ws) * 4) by lia. done.
  - split_and!; [by rewrite Hl'| |].
    + apply Forall_app. split; [done|]. apply Forall_singleton. split; [done|]. by rewrite !Forall_cons.
    + rewrite concat_app. cbn [concat]. by rewrite app_nil_r.
Qed.

Lemma Rcon_byte i : 0 ≤ i ≤ 10 → load1 Rcon i = Ret (Rcon !!! Z.to_nat i) ∧ is_byte (Rcon !!! Z.to_nat i).
Proof.
  intros Hi. assert (Rcon !! Z.to_nat i = Some (Rcon !!! Z.to_nat i)) as E.
  { apply list_lookup_lookup_total_lt. change (length Rcon) with 11%nat. lia. }
  split; [apply load1_Ret; [lia|done]|]. eapply (Forall_lookup_1 is_byte Rcon); [|done].
  apply (bool_decide_unpack _). vm_compute. exact I.
Qed.

(** What the code adds to the word four words back. *)
Lemma derived_bytes i t0 t1 t2 t3 : 4 ≤ i < 44 → is_byte t0 → is_byte t1 → is_byte t2 → is_byte t3 →
  ∃ u0 u1 u2 u3, is_byte u0 ∧ is_byte u1 ∧ is_byte u2 ∧ is_byte u3 ∧
    (if i mod 4 =? 0 then xor_bytes (sub_bytes (rotate 1 [t0; t1; t2; t3])) [Rcon !!! Z.to_nat (i / 4); 0; 0; 0] else [t0; t1; t2; t3])
      = [u0; u1; u2; u3] ∧
    (if i mod Nk =? 0 then
       s0 ← getSBoxValue t1; s1 ← getSBoxValue t2; s2 ← getSBoxValue t3; s3 ← getSBoxValue t0;
       r ← load1 Rcon (i / Nk); Ret (Z.lxor s0 r, s1, s2, s3)
     else Ret (t0, t1, t2, t3)) = Ret (u0, u1, u2, u3).
Proof.
  intros Hi H0 H1 H2 H3. unfold Nk. destruct (i mod 4 =? 0); [|by exists t0, t1, t2, t3].
  rewrite !getSBoxValue_spec by done. destruct (Rcon_byte (i / 4)) as [-> Hr].
  { split; [apply Z.div_pos; lia|]. apply Z.lt_succ_r, Z.div_lt_upper_bound; lia. }
  rewrite !bind_ret. eexists _, _, _, _. split_and!; [by apply byte_lxor; [apply S_box_byte|]|apply S_box_byte..| |reflexivity].
  set (r := Rcon !!! _) in *. clearbody r. change (xor_bytes (sub_bytes (rotate 1 [t0; t1; t2; t3])) [r; 0; 0; 0])
    with [Z.lxor (S_box t1) r; Z.lxor (S_box t2) 0; Z.lxor (S_box t3) 0; Z.lxor (S_box t0) 0].
  rewrite !Z.lxor_0_r. reflexivity.
Qed.

Lemma derive_word_spec rk ws : written rk ws → (4 ≤ length ws < 44)%nat →
  ∃ rk', derive_word rk (Z.of_nat (length ws)) = Ret rk' ∧ written rk' (add_word ws (Z.of_nat (length ws))).
Proof.
  intros (Hl & Hws & Hd) Hn. set (i := Z.of_nat (length ws)) in *. pose proof (words_length ws Hws) as Hlen.
  assert (ws !! Z.to_nat (i - 1) = Some (ws !!! Z.to_nat (i - 1))) as Et by (apply list_lookup_lookup_total_lt; lia).
  assert (ws !! Z.to_nat (i - 4) = Some (ws !!! Z.to_nat (i - 4))) as Eb by (apply list_lookup_lookup_total_lt; lia).
  destruct (word_bytes ws _ _ Hws Et) as (t0 & t1 & t2 & t3 & Ewt & T0 & T1 & T2 & T3 & Lt).
  destruct (word_bytes ws _ _ Hws Eb) as (b0 & b1 & b2 & b3 & Ewb & B0 & B1 & B2 & B3 & Lb).
  unfold derive_word. rewrite !Z2Nat.id in Lt, Lb by lia.
  destruct (Lt rk Hd) as (-> & -> & -> & ->). rewrite !bind_ret.
  destruct (derived_bytes i t0 t1 t2 t3) as (u0 & u1 & u2 & u3 & U0 & U1 & U2 & U3 & Eu & ->); [lia|done..|]. rewrite bind_ret.
  destruct (store_word rk (concat ws) b0 b1 b2 b3
    (fun rk => load1 rk ((i - 4) * 4 + 0)) (fun rk => load1 rk ((i - 4) * 4 + 1))
    (fun rk => load1 rk ((i - 4) * 4 + 2)) (fun rk => load1 rk ((i - 4) * 4 + 3))
    (fun b => Z.lxor b u0) (fun b => Z.lxor b u1) (fun b => Z.lxor b u2) (fun b => Z.lxor b u3))
    as (rk' & E & Hl' & Ht'); [done|lia|done|].
  exists rk'. split.
  - rewrite <-E. by replace (Z.of_nat (length (concat ws))) with (i * 4) by lia.
  - unfold add_word, key_word. rewrite Ewt, Ewb, Eu. cbn [xor_bytes zip_with]. split_and!; [by rewrite Hl'| |].
    + apply Forall_app. split; [done|]. apply Forall_singleton. split; [done|]. rewrite !Forall_cons. auto 10 with bytes.
    + rewrite concat_app. cbn [concat]. by rewrite app_nil_r.
Qed.

(** ** Rounds of four words *)

Lemma add_word_length ws i : length (add_word ws i) = S (length ws).
Proof. unfold add_word. rewrite length_app. simpl. lia. Qed.

Lemma next_key_words rcon w0 w1 w2 w3 : is_word w0 → is_word w1 → is_word w2 → is_word w3 →
  let v0 := xor_bytes w0 (xor_bytes (sub_bytes (rotate 1 w3)) [rcon; 0; 0; 0]) in
  let v1 := xor_bytes w1 v0 in
  let v2 := xor_bytes w2 v1 in
  let v3 := xor_bytes w3 v2 in
  next_key rcon (concat [w0; w1; w2; w3]) = concat [v0; v1; v2; v3].
Proof.
  intros [H0 _] [H1 _] [H2 _] [H3 _].
  do 4 (destruct w0 as [|? w0]; [done|]). destruct w0; [|done].
  do 4 (destruct w1 as [|? w1]; [done|]). destruct w1; [|done].
  do 4 (destruct w2 as [|? w2]; [done|]). destruct w2; [|done].
  do 4 (destruct w3 as [|? w3]; [done|]). destruct w3; [|done]. done.
Qed.

Lemma lookup_four (p : list (list Z)) w0 w1 w2 w3 r n : Z.of_nat (length p) = n →
  let l := p ++ w0 :: w1 :: w2 :: w3 :: r in
  l !!! Z.to_nat n = w0 ∧ l !!! Z.to_nat (n + 1) = w1 ∧ l !!! Z.to_nat (n + 2) = w2 ∧ l !!! Z.to_nat (n + 3) = w3.
Proof.
  intros Hn l. assert (∀ i, (p ++ w0 :: w1 :: w2 :: w3 :: r) !!! (length p + i)%nat = (w0 :: w1 :: w2 :: w3 :: r) !!! i) as L.
  { intros i. rewrite lookup_total_app_r by lia. f_equal. lia. }
  split_and!; (etransitivity; [|first [apply (L 0%nat)|apply (L 1%nat)|apply (L 2%nat)|apply (L 3%nat)]]); unfold l; f_equal; lia.
Qed.

Lemma add_four p w0 w1 w2 w3 q : Z.of_nat (length p) = 4 * (q - 1) → 1 ≤ q →
  let v0 := xor_bytes w0 (xor_bytes (sub_bytes (rotate 1 w3)) [Rcon !!! Z.to_nat q; 0; 0; 0]) in
  let v1 := xor_bytes w1 v0 in
  let v2 := xor_bytes w2 v1 in
  let v3 := xor_bytes w3 v2 in
  foldl add_word (p ++ [w0; w1; w2; w3]) (seqZ (4 * q) 4) = (p ++ [w0; w1; w2; w3]) ++ [v0; v1; v2; v3].
Proof.
  intros Hp Hq v0 v1 v2 v3. set (n := 4 * (q - 1)) in *. replace (4 * q) with (n + 4) by lia.
  change (seqZ (n + 4) 4) with [0 + (n + 4); 1 + (n + 4); 2 + (n + 4); 3 + (n + 4)].
  assert (∀ r, add_word (p ++ w0 :: w1 :: w2 :: w3 :: r) (n + 4) = (p ++ w0 :: w1 :: w2 :: w3 :: r) ++ [v0]) as E0.
  { intros r. unfold add_word, key_word. destruct (lookup_four p w0 w1 w2 w3 r n Hp) as (L0 & _ & _ & L3).
    replace (n + 4 - 1) with (n + 3) by lia. replace (n + 4 - 4) with n by lia. rewrite L0, L3.
    replace (n + 4) with (q * 4) by lia. by rewrite Z.mod_mul, Z.div_mul. }
  assert (∀ x y r i, Z.of_nat (length p) + 4 < i < Z.of_nat (length p) + 8 → 
    (p ++ w0 :: w1 :: w2 :: w3 :: r) !!! Z.to_nat (i - 4) = x → (p ++ w0 :: w1 :: w2 :: w3 :: r) !!! Z.to_nat (i - 1) = y →
    add_word (p ++ w0 :: w1 :: w2 :: w3 :: r) i = (p ++ w0 :: w1 :: w2 :: w3 :: r) ++ [xor_bytes x y]) as E.
  { intros x y r i Hi <- <-. unfold add_word, key_word. destruct (Z.eqb_spec (i mod 4) 0) as [E|]; [|done].
    exfalso. apply Z.mod_divide in E as [z Hz]; [|done]. lia. }
  cbn [foldl]. rewrite Z.add_0_l, E0, <-app_assoc. cbn [app].
  rewrite (E w1 v0 [v0]), <-app_assoc; [|lia|by replace (1 + (n + 4) - 4) with (n + 1) by lia; apply lookup_four|].
  2:{ change (p ++ w0 :: w1 :: w2 :: w3 :: [v0]) with (p ++ [w0] ++ w1 :: w2 :: w3 :: v0 :: []). rewrite app_assoc.
      replace (1 + (n + 4) - 1) with (n + 1 + 3) by lia. apply lookup_four. rewrite length_app. simpl. lia. }
  cbn [app]. rewrite (E w2 v1 [v0; v1]), <-app_assoc; [|lia|by replace (2 + (n + 4) - 4) with (n + 2) by lia; apply lookup_four|].
  2:{ change (p ++ w0 :: w1 :: w2 :: w3 :: [v0; v1]) with (p ++ [w0; w1] ++ w2 :: w3 :: v0 :: v1 :: []). rewrite app_assoc.
      replace (2 + (n + 4) - 1) with (n + 2 + 3) by lia. apply lookup_four. rewrite length_app. simpl. lia. }
  cbn [app]. rewrite (E w3 v2 [v0; v1; v2]), <-app_assoc; [|lia|by replace (3 + (n + 4) - 4) with (n + 3) by lia; apply lookup_four|].
  2:{ change (p ++ w0 :: w1 :: w2 :: w3 :: [v0; v1; v2]) with (p ++ [w0; w1; w2] ++ w3 :: v0 :: v1 :: v2 :: []). rewrite app_assoc.
      replace (3 + (n + 4) - 1) with (n + 3 + 3) by lia. apply lookup_four. rewrite length_app. simpl. lia. }
  by rewrite <-app_assoc.
Qed.

Lemma xor_word v w : is_word v → is_word w → is_word (xor_bytes v w).
Proof.
  intros [Hl Hb] [Hl' Hb']. split; [unfold xor_bytes; rewrite length_zip_with; lia|].
  apply Forall_lookup. intros i x Hx. apply lookup_zip_with_Some in Hx as (a & b & -> & Ha & Hc).
  apply byte_lxor; [exact (Forall_lookup_1 _ _ _ _ Hb Ha)|exact (Forall_lookup_1 _ _ _ _ Hb' Hc)].
Qed.

Lemma Rcon_next q : 1 ≤ q < 10 → Rcon !!! Z.to_nat (q + 1) = gf_mul (Rcon !!! Z.to_nat q) 2.
Proof.
  intros Hq. apply Z.eqb_eq. assert (∀ l, forallb (fun q => Rcon !!! Z.to_nat (q + 1) =? gf_mul (Rcon !!! Z.to_nat q) 2) l = true → q ∈ l →
    (Rcon !!! Z.to_nat (q + 1) =? gf_mul (Rcon !!! Z.to_nat q) 2) = true) as H.
  { intros l Hl Hin. rewrite forallb_forall in Hl. apply Hl. by apply list_elem_of_In. }
  apply (H (seqZ 1 9)); [vm_compute; reflexivity|]. apply elem_of_seqZ. lia.
Qed.

Lemma add_rounds n p w0 w1 w2 w3 q : Z.of_nat (length p) = 4 * (q - 1) → 1 ≤ q → q + Z.of_nat n ≤ 11 →
  is_word w0 → is_word w1 → is_word w2 → is_word w3 →
  concat (foldl add_word (p ++ [w0; w1; w2; w3]) (seqZ (4 * q) (4 * Z.of_nat n))) =
  concat p ++ concat (round_keys n (Rcon !!! Z.to_nat q) (concat [w0; w1; w2; w3])).
Proof.
  revert p w0 w1 w2 w3 q. induction n as [|n IH]; intros p w0 w1 w2 w3 q Hp Hq Hn H0 H1 H2 H3.
  - change (seqZ _ _) with (@nil Z). cbn [foldl round_keys]. rewrite concat_app. f_equal. cbn [concat]. by rewrite !app_nil_r.
  - replace (4 * Z.of_nat (S n)) with (4 + 4 * Z.of_nat n) by lia. rewrite seqZ_app, foldl_app by lia.
    rewrite add_four by done. set (v0 := xor_bytes w0 _). set (v1 := xor_bytes w1 v0). set (v2 := xor_bytes w2 v1). set (v3 := xor_bytes w3 v2).
    destruct (Rcon_byte q) as [_ Hr]; [lia|].
    assert (is_word (xor_bytes (sub_bytes (rotate 1 w3)) [Rcon !!! Z.to_nat q; 0; 0; 0])) as Hg.
    { destruct w3 as [|? [|? [|? [|? [|??]]]]]; destruct H3 as [Hl _]; simplify_eq Hl. clear Hl.
      apply xor_word; split; [done| |done|rewrite !Forall_cons; done]. apply Forall_fmap, Forall_forall. intros x _. apply S_box_byte. }
    assert (is_word v0) as V0 by by apply xor_word. assert (is_word v1) as V1 by by apply xor_word.
    assert (is_word v2) as V2 by by apply xor_word. assert (is_word v3) as V3 by by apply xor_word.
    replace (4 * q + 4) with (4 * (q + 1)) by lia. rewrite IH; [|rewrite length_app; simpl; lia|lia|lia|done..].
    cbn [round_keys concat]. rewrite concat_app. cbn [concat]. rewrite !app_nil_r, <-!app_assoc. do 5 f_equal.
    pose proof (next_key_words (Rcon !!! Z.to_nat q) w0 w1 w2 w3 H0 H1 H2 H3) as En. cbn [concat] in En. rewrite !app_nil_r in En.
    destruct n as [|n].
    + cbn [round_keys concat]. by rewrite En.
    + rewrite En, Rcon_next by lia. done.
Qed.

Lemma key_words key : is_block key →
  ∃ w0 w1 w2 w3, key = concat [w0; w1; w2; w3] ∧ is_word w0 ∧ is_word w1 ∧ is_word w2 ∧ is_word w3.
Proof.
  intros Hk. open_block Hk. exists [x; x0; x1; x2], [x3; x4; x5; x6], [x7; x8; x9; x10], [x11; x12; x13; x14].
  unfold is_word. rewrite !Forall_cons. destruct_and!. split_and!; done.
Qed.

Lemma KeyExpansion_prefix rk key more : length rk = 176%nat → is_block key →
  KeyExpansion rk (key ++ more) = Ret (concat (round_keys 10 1 key)).
Proof.
  intros Hl Hk. destruct (key_words key Hk) as (w0 & w1 & w2 & w3 & -> & H0 & H1 & H2 & H3).
  set (ws := [w0; w1; w2; w3]). assert (Forall is_word ws) as Hws by (unfold ws; rewrite !Forall_cons; done).
  unfold KeyExpansion.
  destruct (foldM_seqZ (fun i rk => written rk (take (Z.to_nat i) ws)) (copy_word (concat ws ++ more)) 0 4 rk) as (rk1 & E1 & Hw); [done|..].
  - split_and!; done.
  - intros i r Hi Hr. assert (length (take (Z.to_nat i) ws) = Z.to_nat i) as Hli by (rewrite length_take; simpl; lia).
    destruct (copy_word_spec ws (concat ws ++ more) (take (Z.to_nat i) ws) r) as (r' & E & Hr');
      [done|done|apply take_app_length|done|by rewrite Hli|lia|].
    rewrite Hli, Z2Nat.id in E by lia. exists r'. split; [done|]. rewrite Hli in Hr'.
    replace (Z.to_nat (i + 1)) with (S (Z.to_nat i)) by lia. erewrite take_S_r; [done|].
    apply list_lookup_lookup_total_lt. simpl. lia.
  - change Nk with 4. rewrite E1, bind_ret. change (take _ ws) with ws in Hw.
    destruct (foldM_seqZ (fun i rk => written rk (foldl add_word ws (seqZ 4 (i - 4))) ∧ Z.of_nat (length (foldl add_word ws (seqZ 4 (i - 4)))) = i)
      derive_word 4 40 rk1) as (rk2 & E2 & (Hl2 & Hw2 & Ht2) & Hlen); [done|done| |].
    + intros i r Hi [Hr Hlen]. destruct (derive_word_spec r _ Hr) as (r' & E & Hr'); [lia|]. rewrite Hlen in E, Hr'. exists r'. split; [done|].
      replace (i + 1 - 4) with ((i - 4) + 1) by lia. rewrite seqZ_app, foldl_app by lia.
      change (seqZ (4 + (i - 4)) 1) with [0 + (4 + (i - 4))]. replace (0 + (4 + (i - 4))) with i by lia. cbn [foldl].
      rewrite add_word_length. split; [done|lia].
    + change (Nb * (Nr + 1) - 4) with 40. rewrite E2. f_equal.
      assert (concat (foldl add_word ws (seqZ 4 40)) = concat (round_keys 10 1 (concat ws))) as Ec.
      { apply (add_rounds 10 [] w0 w1 w2 w3 1); done || lia. }
      change (4 + 40 - 4) with 40 in *. rewrite <-Ec, <-Ht2. rewrite take_ge; [done|]. rewrite (words_length _ Hw2). lia.
Qed.

Lemma KeyExpansion_spec rk key : length rk = 176%nat → is_block key →
  KeyExpansion rk key = Ret (concat (round_keys 10 1 key)).
Proof. intros Hl Hk. rewrite <-(app_nil_r key) at 1. by apply KeyExpansion_prefix. Qed.

(** ** Blocks *)

Lemma next_key_block rcon key : is_byte rcon → is_block key → is_block (next_key rcon key).
Proof.
  intros Hr Hk. destruct (key_words key Hk) as (w0 & w1 & w2 & w3 & -> & H0 & H1 & H2 & H3). rewrite next_key_words by done.
  assert (is_word (xor_bytes (sub_bytes (rotate 1 w3)) [rcon; 0; 0; 0])) as Hg.
  { destruct w3 as [|? [|? [|? [|? [|??]]]]]; destruct H3 as [Hl _]; simplify_eq Hl. clear Hl.
    apply xor_word; split; [done| |done|rewrite !Forall_cons; done]. apply Forall_fmap, Forall_forall. intros x _. apply S_box_byte. }
  set (g := xor_bytes _ [_; _; _; _]) in *. clearbody g.
  assert (Forall is_word [xor_bytes w0 g; xor_bytes w1 (xor_bytes w0 g); xor_bytes w2 (xor_bytes w1 (xor_bytes w0 g));
    xor_bytes w3 (xor_bytes w2 (xor_bytes w1 (xor_bytes w0 g)))]) as Hv.
  { rewrite !Forall_cons. split_and!; [..|constructor]; repeat apply xor_word; done. }
  split; [by rewrite words_length|]. apply Forall_concat. eapply Forall_impl; [done|]. by intros ? [_ ?].
Qed.

Lemma round_keys_blocks n rcon key : is_byte rcon → is_block key →
  Forall is_block (round_keys n rcon key) ∧ length (round_keys n rcon key) = S n.
Proof.
  revert rcon key. induction n as [|n IH]; intros rcon key Hr Hk; cbn [round_keys].
  - split; [by apply Forall_singleton|done].
  - destruct (IH (gf_mul rcon 2) (next_key rcon key)) as [Hf Hl].
    + rewrite gf_mul_2 by done. apply xtime_byte.
    + by apply next_key_block.
    + split; [by constructor|]. simpl. by rewrite Hl.
Qed.

Lemma Cipher_spec key s : is_block key → is_block s →
  Cipher s (concat (round_keys 10 1 key)) = Ret (aes key s) ∧ is_block (aes key s) ∧
  InvCipher (aes key s) (concat (round_keys 10 1 key)) = Ret s.
Proof.
  intros Hk Hs. destruct (round_keys_blocks 10 1 key) as [Hb Hl]; [done..|].
  destruct (Cipher_keys _ Hb Hl s Hs) as [E He]. split_and!; [done|done|by apply InvCipher_keys].
Qed.

Lemma at_block_spec f p s q t n : length s = 16%nat → length t = 16%nat → Z.of_nat (length p) = n → f s = Ret t →
  at_block f (p ++ s ++ q) n = Ret (p ++ t ++ q).
Proof.
  intros Hs Ht Hn Hf. unfold at_block, AES_BLOCKLEN. rewrite load_bytes_Ret by (rewrite ?length_app; lia).
  replace (Z.to_nat n) with (length p) by lia. rewrite drop_app_length. change (Z.to_nat 16) with 16%nat.
  rewrite <-Hs at 1. rewrite take_app_length, bind_ret, Hf, bind_ret. unfold store_bytes.
  destruct (_ && _) eqn:E; [|rewrite !length_app, andb_false_iff, !Z.leb_gt in E; lia]. replace (Z.to_nat n) with (length p) by lia.
  rewrite take_app_length, Ht, <-Hs. do 3 f_equal. rewrite app_assoc. apply drop_app_length'. by rewrite length_app.
Qed.

Lemma ecb_encrypt_spec ctx key s q : length (RoundKey ctx) = 176%nat → is_block key → is_block s →
  ∃ ctx', AES_init_ctx ctx key = Ret ctx' ∧ AES_ECB_encrypt ctx' (s ++ q) = Ret (aes key s ++ q) ∧
    AES_ECB_decrypt ctx' (aes key s ++ q) = Ret (s ++ q).
Proof.
  intros Hl Hk Hs. unfold AES_init_ctx. rewrite KeyExpansion_spec by done. rewrite bind_ret. eexists. split; [done|].
  destruct (Cipher_spec key s Hk Hs) as (E & Hb & D). unfold AES_ECB_encrypt, AES_ECB_decrypt. cbn [RoundKey].
  split.
  - pose proof (at_block_spec (fun s => Cipher s (concat (round_keys 10 1 key))) [] s q (aes key s) 0
      (proj1 Hs) (proj1 Hb) eq_refl E) as P. rewrite !app_nil_l in P. exact P.
  - pose proof (at_block_spec (fun s => InvCipher s (concat (round_keys 10 1 key))) [] (aes key s) q s 0
      (proj1 Hb) (proj1 Hs) eq_refl D) as P. rewrite !app_nil_l in P. exact P.
Qed.

(** C29: A context set up with a key encrypts the first block of a buffer to the
    AES-128 of FIPS 197 and leaves what follows it. *)
Theorem aes_encrypt_correct ctx key block rest :
  length (RoundKey ctx) = 176%nat → is_block key → is_block block →
  (ctx ← AES_init_ctx ctx key; AES_ECB_encrypt ctx (block ++ rest)) = Ret (aes key block ++ rest).
Proof.
  intros Hl Hk Hs. by destruct (ecb_encrypt_spec ctx key block rest Hl Hk Hs) as (ctx' & -> & E & _).
Qed.

Lemma aes_encrypt_correct_witness :
  (ctx ← AES_init_ctx (Ctx (replicate 176 7) []) (seqZ 0 16); AES_ECB_encrypt ctx (seqZ 16 16 ++ [1])) =
  Ret (aes (seqZ 0 16) (seqZ 16 16) ++ [1]).
Proof.
  apply (aes_encrypt_correct (Ctx (replicate 176 7) []) (seqZ 0 16) (seqZ 16 16) [1]).
  - reflexivity.
  - split; [reflexivity|]. apply (bool_decide_unpack _). vm_compute. exact I.
  - split; [reflexivity|]. apply (bool_decide_unpack _). vm_compute. exact I.
Defined.

(** The example of FIPS 197, appendix B. *)
Example aes_example :
  be_value (aes (be_bytes 16 0x2b7e151628aed2a6abf7158809cf4f3c) (be_bytes 16 0x3243f6a8885a308d313198a2e0370734)) =
  0x3925841d02dc09fbdc118597196a0b32.
Proof. vm_compute. reflexivity. Qed.

(** Decryption undoes encryption: for every key and block, [AES_ECB_decrypt] gives
    back the buffer [AES_ECB_encrypt] was called on. *)
Theorem aes_decrypt_roundtrip ctx key block rest :
  length (RoundKey ctx) = 176%nat → is_block key → is_block block →
  (ctx ← AES_init_ctx ctx key; b ← AES_ECB_encrypt ctx (block ++ rest); AES_ECB_decrypt ctx b) = Ret (block ++ rest).
Proof.
  intros Hl Hk Hs. destruct (ecb_encrypt_spec ctx key block rest Hl Hk Hs) as (ctx' & -> & E & D).
  by rewrite bind_ret, E, bind_ret.
Qed.

Lemma aes_decrypt_roundtrip_witness :
  (ctx ← AES_init_ctx (Ctx (replicate 176 7) []) (seqZ 0 16); b ← AES_ECB_encrypt ctx (seqZ 16 16 ++ [1]); AES_ECB_decrypt ctx b) =
  Ret (seqZ 16 16 ++ [1]).
Proof.
  apply (aes_decrypt_roundtrip (Ctx (replicate 176 7) []) (seqZ 0 16) (seqZ 16 16) [1]).
  - reflexivity.
  - split; [reflexivity|]. apply (bool_decide_unpack _). vm_compute. exact I.
  - split; [reflexivity|]. apply (bool_decide_unpack _). vm_compute. exact I.
Defined.
