(* ===== verification/AesModes.v ===== *)
(** * Modes of the cipher

    [AES_CTR_xcrypt_buffer] adds the stream of encrypted counters, so that it undoes
    itself; [AES_CBC_decrypt_buffer] undoes [AES_CBC_encrypt_buffer]. *)

From S2P Require Import Prelude Ring Words Aes AesProps AesKeys.

(** The cipher is only used through what is known about it. *)
#[local] Opaque aes round_keys Cipher InvCipher.

(** ** The counter *)

Lemma be_bytes_snoc n v : be_bytes (S n) v = be_bytes n (v / 256) ++ [v mod 256].
Proof. done. Qed.

Lemma iv_increment_spec n v rest : 0 ≤ v →
  iv_increment n (be_bytes n v ++ rest) = Ret (be_bytes n (v + 1) ++ rest).
Proof.
  revert v rest. induction n as [|n IH]; intros v rest Hv; [done|]. cbn [iv_increment]. rewrite !be_bytes_snoc, <-!app_assoc.
  assert (Z.of_nat n = Z.of_nat (length (be_bytes n (v / 256)))) as En by by rewrite be_bytes_length.
  rewrite (load1_Ret _ _ (v mod 256)); [|lia|rewrite Nat2Z.id, lookup_app_r by (rewrite be_bytes_length; lia);
    rewrite be_bytes_length, Nat.sub_diag; done]. rewrite bind_ret.
  assert (∀ x, store1 (be_bytes n (v / 256) ++ [v mod 256] ++ rest) (Z.of_nat n) x = Ret (be_bytes n (v / 256) ++ x :: rest)) as Hst.
  { intros x. rewrite store1_Ret by (rewrite length_app, be_bytes_length; simpl; lia). f_equal.
    rewrite Nat2Z.id, insert_app_r_alt by (rewrite be_bytes_length; lia). by rewrite be_bytes_length, Nat.sub_diag. }
  pose proof (Z.div_mod v 256). pose proof (Z.mod_pos_bound v 256).
  destruct (Z.eqb_spec (v mod 256) 255); rewrite Hst.
  - rewrite bind_ret, IH by (apply Z.div_pos; lia). f_equal.
    rewrite (Z.div_unique_pos (v + 1) 256 (v / 256 + 1) 0), (Z.mod_unique_pos (v + 1) 256 (v / 256 + 1) 0) by lia. done.
  - f_equal. unfold u8. rewrite (Z.mod_small (v mod 256 + 1)) by lia.
    rewrite (Z.div_unique_pos (v + 1) 256 (v / 256) (v mod 256 + 1)), (Z.mod_unique_pos (v + 1) 256 (v / 256) (v mod 256 + 1)) by lia. done.
Qed.

Lemma be_bytes_value n l : length l = n → Forall is_byte l → be_bytes n (be_value l) = l ∧ 0 ≤ be_value l.
Proof.
  revert l. induction n as [|n IH]; intros l Hl Hb; [by destruct l|].
  destruct l as [|x l _] using rev_ind; [done|]. rewrite length_app in Hl. simpl in Hl.
  apply Forall_app in Hb as [Hb Hx]. rewrite Forall_singleton in Hx. destruct (IH l) as [E Hp]; [lia|done|].
  unfold be_value in *. rewrite foldl_app, be_bytes_snoc. cbn [foldl]. set (v := foldl _ 0 l) in *. unfold is_byte in Hx.
  rewrite <-(Z.div_unique_pos (256 * v + x) 256 v x), <-(Z.mod_unique_pos (256 * v + x) 256 v x) by lia.
  rewrite E. split; [done|lia].
Qed.

(** ** Counter mode *)

(** The stream: the counters from [v] on, encrypted. *)
Definition ctr_block (key : list Z) (v : Z) : list Z := aes key (be_bytes 16 v).
Definition ctr_stream (key : list Z) (v : Z) (n : nat) : list Z :=
  take n (concat ((fun i => ctr_block key (v + i)) <$> seqZ 0 (Z.of_nat n))).

Lemma be_bytes_block v : is_block (be_bytes 16 v).
Proof. split; [apply be_bytes_length|apply be_bytes_range]. Qed.

Section ctr.
Context (key : list Z) (Hkey : is_block key) (v : Z) (Hv : 0 ≤ v) (buf0 : list Z).
#[local] Set Default Proof Using "Hkey Hv".

Lemma ctr_block_block n : is_block (ctr_block key n).
Proof using Hkey. apply Cipher_spec; [done|apply be_bytes_block]. Qed.
Lemma ctr_block_eq n : ctr_block key n = aes key (be_bytes 16 n).
Proof using Type. reflexivity. Qed.
#[local] Opaque ctr_block be_bytes.

(** Byte [i] of the stream. *)
Definition stream_byte (i : Z) : Z := ctr_block key (v + i / 16) !!! Z.to_nat (i mod 16).

Lemma ctr_stream_lookup n i : (i < n)%nat → ctr_stream key v n !! i = Some (stream_byte (Z.of_nat i)).
Proof using Hkey.
  clear Hv. intros Hi. unfold ctr_stream. rewrite lookup_take_lt by done.
  pose proof (Z.div_mod (Z.of_nat i) 16). pose proof (Z.mod_pos_bound (Z.of_nat i) 16).
  assert (0 ≤ Z.of_nat i / 16 ≤ Z.of_nat i) as Hd by (split; [apply Z.div_pos; lia|apply Z.div_le_upper_bound; lia]).
  replace i with (16 * Z.to_nat (Z.of_nat i / 16) + Z.to_nat (Z.of_nat i mod 16))%nat at 1 by lia.
  apply lookup_concat with (b := ctr_block key (v + Z.of_nat i / 16)).
  - apply Forall_fmap, Forall_forall. intros x _. exact (proj1 (ctr_block_block (v + x))).
  - rewrite list_lookup_fmap, lookup_seqZ_lt by lia. cbn [fmap option_fmap option_map].
    by rewrite Z.add_0_l, Z2Nat.id by lia.
  - apply list_lookup_lookup_total_lt. destruct (ctr_block_block (v + Z.of_nat i / 16)) as [-> _]. lia.
Qed.

(** The loop after [i] bytes: [q] blocks of the stream have been made. *)
Definition ctr_inv (i : Z) (s : AES_ctx * list Z * list Z * Z) : Prop :=
  let '(ctx, buf, buffer, bi) := s in
  let q := (i + 15) / 16 in
  ctx = Ctx (concat (round_keys 10 1 key)) (be_bytes 16 (v + q)) ∧
  length buf = length buf0 ∧
  (∀ n b, buf0 !! n = Some b → buf !! n = Some (if Z.of_nat n <? i then Z.lxor b (stream_byte (Z.of_nat n)) else b)) ∧
  bi = i - 16 * (q - 1) ∧ (0 < i → buffer = ctr_block key (v + (q - 1))).

Lemma ctr_step_inv i s : 0 ≤ i < Z.of_nat (length buf0) → ctr_inv i s → ∃ s', ctr_step s i = Ret s' ∧ ctr_inv (i + 1) s'.
Proof.
  destruct s as [[[ctx buf] buffer] bi]. intros Hi (-> & Hl & Hbuf & Hbi & Hb).
  pose proof (Z.div_mod (i + 15) 16). pose proof (Z.mod_pos_bound (i + 15) 16). set (q := (i + 15) / 16) in *.
  assert (0 ≤ q) as Hq0 by (apply Z.div_pos; lia).
  set (ctx' := Ctx (concat (round_keys 10 1 key)) (be_bytes 16 (v + (i / 16 + 1)))).
  assert ((if bi =? AES_BLOCKLEN then
       b ← load_bytes (be_bytes 16 (v + q)) 0 AES_BLOCKLEN; b ← Cipher b (concat (round_keys 10 1 key));
       v0 ← iv_increment (Z.to_nat AES_BLOCKLEN) (be_bytes 16 (v + q)); Ret (Ctx (concat (round_keys 10 1 key)) v0, b, 0)
     else Ret (Ctx (concat (round_keys 10 1 key)) (be_bytes 16 (v + q)), buffer, bi)) =
    Ret (ctx', ctr_block key (v + i / 16), i mod 16)) as E.
  { unfold AES_BLOCKLEN. pose proof (Z.div_mod i 16). pose proof (Z.mod_pos_bound i 16). destruct (Z.eqb_spec bi 16).
    - assert (i / 16 = q ∧ i mod 16 = 0) as [Ed Em] by lia. rewrite load_bytes_Ret by (rewrite ?be_bytes_length; lia).
      rewrite take_ge by (rewrite length_drop, be_bytes_length; lia). change (drop (Z.to_nat 0) ?l) with l. rewrite bind_ret.
      destruct (Cipher_spec key (be_bytes 16 (v + q)) Hkey (be_bytes_block _)) as (-> & _). rewrite bind_ret.
      change (Z.to_nat 16) with 16%nat. pose proof (iv_increment_spec 16 (v + q) [] ltac:(lia)) as Ei. rewrite !app_nil_r in Ei.
      rewrite Ei, bind_ret, Em. subst ctx'. rewrite Ed, Z.add_assoc, ctr_block_eq. reflexivity.
    - assert (i / 16 = q - 1) as Ed by lia. subst ctx'. rewrite Hb by lia. rewrite Ed.
      replace (q - 1 + 1) with q by lia. by replace (i mod 16) with bi by lia. }
  unfold ctr_step. cbn [Iv RoundKey]. rewrite E, bind_ret.
  destruct (lookup_lt_is_Some_2 buf0 (Z.to_nat i)) as [x Ex]; [lia|].
  pose proof (Hbuf _ _ Ex) as Ex'. rewrite Z2Nat.id, Z.ltb_irrefl in Ex' by lia.
  rewrite (load1_Ret buf i x), bind_ret by (done || lia). pose proof (Z.mod_pos_bound i 16).
  rewrite (load1_Ret _ (i mod 16) (stream_byte i)); [|lia|].
  2:{ apply list_lookup_lookup_total_lt. destruct (ctr_block_block (v + i / 16)) as [-> _]. lia. }
  rewrite bind_ret, store1_Ret by lia. rewrite bind_ret. eexists. split; [done|].
  assert ((i + 1 + 15) / 16 = i / 16 + 1) as Eq.
  { replace (i + 1 + 15) with (i + 1 * 16) by lia. by rewrite Z.div_add. }
  unfold ctr_inv. rewrite Eq. split_and!; [done|by rewrite length_insert| | |].
  - intros n b En. destruct (decide (n = Z.to_nat i)) as [->|].
    + rewrite list_lookup_insert_eq by lia. rewrite Z2Nat.id by lia. replace (i <? i + 1) with true by lia. by simplify_eq.
    + rewrite list_lookup_insert_ne by done. rewrite (Hbuf _ _ En). do 2 f_equal.
      destruct (Z.ltb_spec (Z.of_nat n) i), (Z.ltb_spec (Z.of_nat n) (i + 1)); done || lia.
  - pose proof (Z.div_mod i 16). lia.
  - intros _. by replace (v + (i / 16 + 1 - 1)) with (v + i / 16) by lia.
Qed.

Lemma xcrypt_spec len : 0 ≤ len ≤ Z.of_nat (length buf0) →
  AES_CTR_xcrypt_buffer (Ctx (concat (round_keys 10 1 key)) (be_bytes 16 v)) buf0 len =
  Ret (Ctx (concat (round_keys 10 1 key)) (be_bytes 16 (v + (len + 15) / 16)),
       xor_bytes (take (Z.to_nat len) buf0) (ctr_stream key v (Z.to_nat len)) ++ drop (Z.to_nat len) buf0).
Proof.
  intros Hlen. unfold AES_CTR_xcrypt_buffer.
  destruct (foldM_seqZ ctr_inv ctr_step 0 len (Ctx (concat (round_keys 10 1 key)) (be_bytes 16 v), buf0, [], AES_BLOCKLEN))
    as ([[[ctx buf] buffer] bi] & E & Hc & Hl & Hbuf & _ & _); [lia| |intros j s Hj; apply ctr_step_inv; lia|].
  { unfold ctr_inv. change ((0 + 15) / 16) with 0. rewrite Z.add_0_r. split_and!; [done|done| |done|lia].
    intros n b Hn. by destruct (Z.ltb_spec (Z.of_nat n) 0); [lia|]. }
  rewrite E, bind_ret. rewrite Z.add_0_l in Hc, Hbuf. rewrite Hc. do 2 f_equal. apply list_eq. intros n.
  assert (length (xor_bytes (take (Z.to_nat len) buf0) (ctr_stream key v (Z.to_nat len))) = Z.to_nat len) as Hx.
  { unfold xor_bytes. rewrite length_zip_with, length_take. enough (length (ctr_stream key v (Z.to_nat len)) = Z.to_nat len) by lia.
    unfold ctr_stream. rewrite length_take, (concat_length 16), length_fmap, length_seqZ; [lia|].
    apply Forall_fmap, Forall_forall. intros x _. exact (proj1 (ctr_block_block (v + x))). }
  destruct (decide (n < length buf0)%nat) as [Hn|Hn].
  2:{ rewrite !(proj2 (lookup_ge_None _ _)); [done|rewrite length_app, length_drop; lia|lia]. }
  destruct (lookup_lt_is_Some_2 buf0 n Hn) as [b Eb]. rewrite (Hbuf _ _ Eb). destruct (Z.ltb_spec (Z.of_nat n) len).
  - rewrite lookup_app_l by lia. symmetry. apply lookup_zip_with_Some. eexists _, _. split; [done|].
    rewrite lookup_take_lt by lia. split; [done|]. apply ctr_stream_lookup. lia.
  - rewrite lookup_app_r by lia. rewrite Hx, lookup_drop, <-Eb. f_equal. lia.
Qed.
End ctr.

Lemma ctr_stream_length key v n : is_block key → length (ctr_stream key v n) = n.
Proof.
  intros Hk. unfold ctr_stream. rewrite length_take, (concat_length 16), length_fmap, length_seqZ; [lia|].
  apply Forall_fmap, Forall_forall. intros x _. exact (proj1 (ctr_block_block key Hk (v + x))).
Qed.

Lemma init_iv_spec ctx key more iv : length (RoundKey ctx) = 176%nat → length (Iv ctx) = 16%nat → is_block key → is_block iv →
  AES_init_ctx_iv ctx (key ++ more) iv = Ret (Ctx (concat (round_keys 10 1 key)) (be_bytes 16 (be_value iv))).
Proof.
  intros Hl Hi Hk [Hv Hb]. unfold AES_init_ctx_iv. rewrite KeyExpansion_prefix by done. rewrite bind_ret.
  rewrite load_bytes_Ret by (unfold AES_BLOCKLEN; lia). change (drop (Z.to_nat 0) iv) with iv. rewrite take_ge by (rewrite Hv; done).
  rewrite bind_ret. unfold store_bytes. rewrite Hv, Hi. change ((0 <=? 0) && (0 + Z.of_nat 16 <=? Z.of_nat 16)) with true. cbv iota.
  rewrite bind_ret, drop_ge by (rewrite Hi; done). change (take (Z.to_nat 0) (Iv ctx)) with (@nil Z). rewrite app_nil_l, app_nil_r.
  by rewrite (proj1 (be_bytes_value 16 iv Hv Hb)).
Qed.

(** C30: Counter mode is the exclusive or with the stream of encrypted counters from the
    initial vector on, over any length; bytes behind the length stay, and the vector
    is left at the next counter, modulo [2 ^ 128]. *)
Theorem ctr_correct ctx key iv buf len :
  length (RoundKey ctx) = 176%nat → length (Iv ctx) = 16%nat → is_block key → is_block iv →
  0 ≤ len ≤ Z.of_nat (length buf) →
  ∃ ctx', (ctx ← AES_init_ctx_iv ctx key iv; AES_CTR_xcrypt_buffer ctx buf len) =
    Ret (ctx', xor_bytes (take (Z.to_nat len) buf) (ctr_stream key (be_value iv) (Z.to_nat len)) ++ drop (Z.to_nat len) buf) ∧
    Iv ctx' = be_bytes 16 (be_value iv + (len + 15) / 16).
Proof.
  intros Hl Hi Hk Hv Hlen. pose proof (init_iv_spec ctx key [] iv Hl Hi Hk Hv) as E. rewrite app_nil_r in E.
  rewrite E, bind_ret. destruct Hv as [Hvl Hvb].
  rewrite xcrypt_spec by (done || apply (be_bytes_value 16 iv Hvl Hvb)). by eexists.
Qed.

Lemma ctr_correct_witness :
  ∃ ctx', (ctx ← AES_init_ctx_iv (Ctx (replicate 176 7) (replicate 16 7)) (seqZ 0 16) (replicate 16 255);
           AES_CTR_xcrypt_buffer ctx (seqZ 40 20) 18) =
    Ret (ctx', xor_bytes (seqZ 40 18) (ctr_stream (seqZ 0 16) (be_value (replicate 16 255)) 18) ++ [58; 59]) ∧
    Iv ctx' = be_bytes 16 (be_value (replicate 16 255) + (18 + 15) / 16).
Proof.
  apply (ctr_correct (Ctx (replicate 176 7) (replicate 16 7)) (seqZ 0 16) (replicate 16 255) (seqZ 40 20) 18).
  - reflexivity.
  - reflexivity.
  - split; [reflexivity|]. apply (bool_decide_unpack _). vm_compute. exact I.
  - split; [reflexivity|]. apply (bool_decide_unpack _). vm_compute. exact I.
  - vm_compute. split; discriminate.
Defined.

(** The same call decrypts what it encrypted. *)
Lemma ctr_undoes key v buf : is_block key → 0 ≤ v →
  let ctx := Ctx (concat (round_keys 10 1 key)) (be_bytes 16 v) in
  ('(_, b) ← AES_CTR_xcrypt_buffer ctx buf (Z.of_nat (length buf)); '(_, b) ← AES_CTR_xcrypt_buffer ctx b (Z.of_nat (length b)); Ret b) = Ret buf.
Proof.
  intros Hk Hv ctx. subst ctx. rewrite xcrypt_spec by (done || lia). rewrite bind_ret, Nat2Z.id, firstn_all, drop_ge, app_nil_r by lia.
  assert (length (xor_bytes buf (ctr_stream key v (length buf))) = length buf) as Hl.
  { unfold xor_bytes. rewrite length_zip_with, ctr_stream_length by done. lia. }
  rewrite Hl. rewrite xcrypt_spec by (done || lia). rewrite bind_ret, Nat2Z.id, take_ge, drop_ge, app_nil_r by lia.
  f_equal. apply xor_bytes_twice. by rewrite ctr_stream_length.
Qed.

(** ** Block chaining *)

Fixpoint chain (cipher : list Z → list Z) (iv : list Z) (bs : list (list Z)) : list (list Z) :=
  match bs with
  | [] => []
  | b :: bs => let c := cipher (xor_bytes b iv) in c :: chain cipher c bs
  end.
Definition cbc (key : list Z) : list Z → list (list Z) → list (list Z) := chain (aes key).

Lemma cbc_cons key iv b bs : cbc key iv (b :: bs) = aes key (xor_bytes b iv) :: cbc key (aes key (xor_bytes b iv)) bs.
Proof. reflexivity. Qed.
#[local] Opaque cbc.

Lemma XorWithIv_spec ctx p s q off ivp iv : length s = 16%nat → length iv = 16%nat → Z.of_nat (length p) = off →
  (∀ s' i, length s' = 16%nat → 0 ≤ i < 16 → iv_byte ctx (p ++ s' ++ q) ivp i = Ret (iv !!! Z.to_nat i)) →
  XorWithIv ctx (p ++ s ++ q) off ivp = Ret (p ++ xor_bytes s iv ++ q).
Proof.
  intros Hs Hv Hoff Hiv. unfold XorWithIv. set (done_to i := zip_with Z.lxor (take (Z.to_nat i) s) (take (Z.to_nat i) iv) ++ drop (Z.to_nat i) s).
  assert (∀ i, length (done_to i) = 16%nat) as Hd.
  { intros i. unfold done_to. rewrite length_app, length_zip_with, length_drop, !length_take. lia. }
  destruct (foldM_seqZ (fun i buf => buf = p ++ done_to i ++ q) (fun buf i =>
    b ← load1 buf (off + i); v ← iv_byte ctx buf ivp i; store1 buf (off + i) (Z.lxor b v)) 0 16 (p ++ s ++ q)) as (b & E & ->); [done|done| |].
  - intros i buf Hi ->. destruct (lookup_lt_is_Some_2 s (Z.to_nat i)) as [x Ex]; [lia|].
    assert (iv !! Z.to_nat i = Some (iv !!! Z.to_nat i)) as Ev by (apply list_lookup_lookup_total_lt; lia).
    rewrite (load1_Ret _ (off + i) x).
    + rewrite bind_ret, Hiv by (done || apply Hd || lia). rewrite bind_ret, store1_Ret by (rewrite !length_app, Hd; lia).
      eexists. split; [done|]. replace (Z.to_nat (off + i)) with (length p + Z.to_nat i)%nat by lia.
      rewrite insert_app_r. f_equal. rewrite insert_app_l by (rewrite Hd; lia). f_equal.
      unfold done_to. replace (Z.to_nat (i + 1)) with (S (Z.to_nat i)) by lia. set (n := Z.to_nat i) in *.
      rewrite (drop_S s x n) by done. rewrite (take_S_r s n x), (take_S_r iv n (iv !!! n)) by done.
      rewrite zip_with_app, <-app_assoc by (rewrite !length_take; lia).
      assert (length (zip_with Z.lxor (take n s) (take n iv)) = n) as Hz by (rewrite length_zip_with, !length_take; lia).
      rewrite insert_app_r_alt by lia. by rewrite Hz, Nat.sub_diag.
    + lia.
    + replace (Z.to_nat (off + i)) with (length p + Z.to_nat i)%nat by lia. rewrite lookup_app_r by lia.
      replace (length p + Z.to_nat i - length p)%nat with (Z.to_nat i) by lia. rewrite lookup_app_l by (rewrite Hd; lia).
      unfold done_to. rewrite lookup_app_r by (rewrite length_zip_with, !length_take; lia).
      rewrite length_zip_with, !length_take, lookup_drop, <-Ex. f_equal. lia.
  - change AES_BLOCKLEN with 16. rewrite E. f_equal. f_equal. unfold done_to. change (Z.to_nat (0 + 16)) with 16%nat.
    rewrite drop_ge, app_nil_r, !take_ge by lia. done.
Qed.

Section cbc.
Context (key : list Z) (Hkey : is_block key).
#[local] Set Default Proof Using "Hkey".
#[local] Abbreviation rk := (concat (round_keys 10 1 key)).

Lemma cbc_blocks iv bs : is_block iv → Forall is_block bs → Forall is_block (cbc key iv bs) ∧ length (cbc key iv bs) = length bs.
Proof.
  intros Hv Hbs. revert iv Hv. induction Hbs as [|b bs Hb _ IH]; intros iv Hv; [by split|]. rewrite cbc_cons.
  destruct (Cipher_spec key (xor_bytes b iv) Hkey (xor_bytes_block _ _ Hb Hv)) as (_ & Hc & _).
  destruct (IH _ Hc) as [Hf Hl]. split; [by constructor|]. simpl. by rewrite Hl.
Qed.

(** The vector of a step, wherever the code keeps it. *)
Definition holds_iv (ctx : AES_ctx) (p : list Z) (ivp : option Z) (iv : list Z) : Prop :=
  match ivp with
  | None => Iv ctx = iv
  | Some o => 0 ≤ o ∧ take 16 (drop (Z.to_nat o) p) = iv
  end.

Lemma iv_byte_spec ctx p ivp iv q i : length iv = 16%nat → holds_iv ctx p ivp iv → 0 ≤ i < 16 →
  iv_byte ctx (p ++ q) ivp i = Ret (iv !!! Z.to_nat i).
Proof using Type.
  clear Hkey. intros Hl Hiv Hi. assert (iv !! Z.to_nat i = Some (iv !!! Z.to_nat i)) as E by (apply list_lookup_lookup_total_lt; lia).
  destruct ivp as [o|]; simpl in *.
  - destruct Hiv as [Ho Ht]. apply load1_Ret; [lia|]. rewrite <-Ht, lookup_take_lt, lookup_drop in E by lia.
    rewrite Ht in E. apply lookup_app_l_Some. rewrite <-E. f_equal. lia.
  - rewrite Hiv. apply load1_Ret; [lia|done].
Qed.

Lemma cbc_encrypt_loop ctx bs : ∀ p q n ivp iv, RoundKey ctx = rk → Forall is_block bs → is_block iv →
  Z.of_nat (length p) = 16 * n → holds_iv ctx p ivp iv →
  ∃ ivp', foldM (cbc_encrypt_step ctx) (seqZ n (Z.of_nat (length bs))) (p ++ concat bs ++ q, ivp) = Ret (p ++ concat (cbc key iv bs) ++ q, ivp') ∧
    holds_iv ctx (p ++ concat (cbc key iv bs)) ivp' (default iv (last (cbc key iv bs))).
Proof.
  induction bs as [|b bs IH]; intros p q n ivp iv Hrk Hbs Hv Hp Hiv.
  - exists ivp. split; [done|]. simpl. by rewrite app_nil_r.
  - rewrite Forall_cons in Hbs. destruct Hbs as [Hb Hbs]. rewrite seqZ_cons by (simpl; lia). cbn [foldM].
    unfold cbc_encrypt_step at 2. unfold AES_BLOCKLEN. cbn [concat]. rewrite <-app_assoc.
    rewrite (XorWithIv_spec ctx p b (concat bs ++ q) (n * 16) ivp iv); [|apply Hb|apply Hv|lia|].
    2:{ intros s' i Hs' Hi. apply iv_byte_spec; [apply Hv|done|done]. }
    rewrite bind_ret, Hrk. destruct (Cipher_spec key (xor_bytes b iv) Hkey (xor_bytes_block _ _ Hb Hv)) as (Ec & Hc & _).
    rewrite (at_block_spec (fun s => Cipher s rk) p _ _ (aes key (xor_bytes b iv)) (n * 16)
      (proj1 (xor_bytes_block _ _ Hb Hv)) (proj1 Hc) ltac:(lia) Ec). rewrite !bind_ret, cbc_cons.
    set (c := aes key (xor_bytes b iv)) in *. clearbody c. rewrite app_assoc.
    destruct (IH (p ++ c) q (Z.succ n) (Some (n * 16)) c) as (ivp' & E & H'); [done|done|done|rewrite length_app, (proj1 Hc); lia| |].
    { split; [lia|]. replace (Z.to_nat (n * 16)) with (length p) by lia. rewrite drop_app_length. apply take_ge. by rewrite (proj1 Hc). }
    exists ivp'. replace (Z.pred (Z.of_nat (length (b :: bs)))) with (Z.of_nat (length bs)) by (simpl; lia). rewrite E.
    cbn [concat]. rewrite <-!app_assoc in *. split; [done|]. rewrite last_cons. by destruct (last (cbc key c bs)).
Qed.

Lemma cbc_decrypt_loop bs : ∀ p q n iv, Forall is_block bs → is_block iv → Z.of_nat (length p) = 16 * n →
  foldM cbc_decrypt_step (seqZ n (Z.of_nat (length bs))) (Ctx rk iv, p ++ concat (cbc key iv bs) ++ q) =
  Ret (Ctx rk (default iv (last (cbc key iv bs))), p ++ concat bs ++ q).
Proof.
  induction bs as [|b bs IH]; intros p q n iv Hbs Hv Hp; [done|].
  rewrite Forall_cons in Hbs. destruct Hbs as [Hb Hbs]. rewrite seqZ_cons by (simpl; lia). cbn [foldM].
  unfold cbc_decrypt_step at 2. unfold AES_BLOCKLEN. rewrite cbc_cons. cbn [concat RoundKey]. rewrite <-!app_assoc.
  destruct (Cipher_spec key (xor_bytes b iv) Hkey (xor_bytes_block _ _ Hb Hv)) as (_ & Hc & D).
  set (c := aes key (xor_bytes b iv)) in *. clearbody c. pose proof (proj1 Hc) as Hcl.
  rewrite load_bytes_Ret by (rewrite ?length_app; lia). replace (Z.to_nat (n * 16)) with (length p) by lia.
  rewrite drop_app_length. change (Z.to_nat 16) with 16%nat. rewrite <-Hcl at 1. rewrite take_app_length, bind_ret.
  rewrite (at_block_spec (fun s => InvCipher s rk) p c _ (xor_bytes b iv) (n * 16) Hcl (proj1 (xor_bytes_block _ _ Hb Hv)) ltac:(lia) D).
  rewrite bind_ret. rewrite (XorWithIv_spec (Ctx rk iv) p (xor_bytes b iv) _ (n * 16) None iv);
    [|apply (xor_bytes_block _ _ Hb Hv)|apply Hv|lia|].
  2:{ intros s' i Hs' Hi. by apply iv_byte_spec; [apply Hv| |]. }
  rewrite bind_ret, xor_bytes_twice by (rewrite (proj1 Hb), (proj1 Hv); done). unfold store_bytes. cbn [Iv]. rewrite Hcl, (proj1 Hv).
  change ((0 <=? 0) && (0 + Z.of_nat 16 <=? Z.of_nat 16)) with true. cbv iota. rewrite !bind_ret.
  rewrite (drop_ge iv) by (rewrite (proj1 Hv); done). change (take (Z.to_nat 0) iv) with (@nil Z). rewrite app_nil_l, app_nil_r.
  replace (Z.pred (Z.of_nat (length (b :: bs)))) with (Z.of_nat (length bs)) by (simpl; lia). rewrite app_assoc.
  rewrite IH by (done || (rewrite length_app, (proj1 Hb); lia)). rewrite <-app_assoc. rewrite last_cons.
  by destruct (last (cbc key c bs)).
Qed.
End cbc.

Lemma block_count_blocks n : block_count (16 * Z.of_nat n) = Z.of_nat n.
Proof.
  unfold block_count, AES_BLOCKLEN. replace (16 * Z.of_nat n + 16 - 1) with (15 + Z.of_nat n * 16) by lia.
  by rewrite Z.div_add.
Qed.

Lemma cbc_encrypt_spec key iv bs rest : is_block key → is_block iv → Forall is_block bs →
  AES_CBC_encrypt_buffer (Ctx (concat (round_keys 10 1 key)) iv) (concat bs ++ rest) (16 * Z.of_nat (length bs)) =
  Ret (Ctx (concat (round_keys 10 1 key)) (default iv (last (cbc key iv bs))), concat (cbc key iv bs) ++ rest).
Proof.
  intros Hk Hv Hbs. unfold AES_CBC_encrypt_buffer. rewrite block_count_blocks. set (ctx := Ctx _ iv).
  destruct (cbc_encrypt_loop key Hk ctx bs [] rest 0 None iv) as (ivp & E & Hiv); [done..|]. rewrite !app_nil_l in E, Hiv.
  rewrite E, bind_ret. cbv beta iota. rewrite ?app_nil_l. destruct (cbc_blocks key Hk iv bs Hv Hbs) as [Hf _].
  set (cs := cbc key iv bs) in *. assert (is_block (default iv (last cs))) as Hd.
  { destruct (last cs) eqn:El; [|done]. apply last_Some in El as [cs' ->]. by apply Forall_app in Hf as [_ Hf]; rewrite Forall_singleton in Hf. }
  assert (match ivp with None => load_bytes (Iv ctx) 0 AES_BLOCKLEN | Some off => load_bytes (concat cs ++ rest) off AES_BLOCKLEN end
    = Ret (default iv (last cs))) as ->.
  { set (d := default iv (last cs)) in *. clearbody d. destruct Hd as [Hd _]. destruct ivp as [o|]; simpl in Hiv.
    - destruct Hiv as [Ho Ht]. assert (Z.to_nat o + 16 ≤ length (concat cs))%nat as Hb.
      { apply (f_equal length) in Ht. rewrite length_take, length_drop, Hd in Ht. lia. }
      rewrite load_bytes_Ret by (unfold AES_BLOCKLEN; rewrite ?length_app; lia). rewrite drop_app_le, take_app_le by (rewrite ?length_drop; unfold AES_BLOCKLEN; lia).
      by rewrite <-Ht.
    - subst ctx. cbn [Iv]. rewrite Hiv. rewrite load_bytes_Ret by (unfold AES_BLOCKLEN; lia). change (drop (Z.to_nat 0) d) with d.
      by rewrite take_ge by (rewrite Hd; done). }
  rewrite bind_ret. set (d := default iv (last cs)) in *. clearbody d. unfold store_bytes. subst ctx. cbn [Iv RoundKey].
  rewrite (proj1 Hd), (proj1 Hv). change ((0 <=? 0) && (0 + Z.of_nat 16 <=? Z.of_nat 16)) with true. cbv iota. rewrite bind_ret.
  rewrite drop_ge by (rewrite (proj1 Hv); done). change (take (Z.to_nat 0) iv) with (@nil Z). by rewrite app_nil_l, app_nil_r.
Qed.

(** Chaining undone: for every key, vector and sequence of blocks, decrypting with
    the key and the vector of the encryption gives the buffer back, and both sides are
    left with the same vector for the next call. *)
Theorem cbc_roundtrip key iv bs rest : is_block key → is_block iv → Forall is_block bs →
  let ctx := Ctx (concat (round_keys 10 1 key)) iv in
  let len := 16 * Z.of_nat (length bs) in
  ∃ ctx', (AES_CBC_encrypt_buffer ctx (concat bs ++ rest) len) = Ret (ctx', concat (cbc key iv bs) ++ rest) ∧
    AES_CBC_decrypt_buffer ctx (concat (cbc key iv bs) ++ rest) len = Ret (ctx', concat bs ++ rest).
Proof.
  intros Hk Hv Hbs ctx len. eexists. split; [by apply cbc_encrypt_spec|]. unfold AES_CBC_decrypt_buffer, len.
  rewrite block_count_blocks. apply (cbc_decrypt_loop key Hk bs [] rest 0 iv); done.
Qed.

Lemma cbc_roundtrip_witness :
  let ctx := Ctx (concat (round_keys 10 1 (seqZ 0 16))) (seqZ 7 16) in
  ∃ ctx', (AES_CBC_encrypt_buffer ctx (concat [seqZ 1 16; seqZ 2 16] ++ [5]) 32) =
      Ret (ctx', concat (cbc (seqZ 0 16) (seqZ 7 16) [seqZ 1 16; seqZ 2 16]) ++ [5]) ∧
    AES_CBC_decrypt_buffer ctx (concat (cbc (seqZ 0 16) (seqZ 7 16) [seqZ 1 16; seqZ 2 16]) ++ [5]) 32 =
      Ret (ctx', concat [seqZ 1 16; seqZ 2 16] ++ [5]).
Proof.
  apply (cbc_roundtrip (seqZ 0 16) (seqZ 7 16) [seqZ 1 16; seqZ 2 16] [5]).
  - split; [reflexivity|]. apply (bool_decide_unpack _). vm_compute. exact I.
  - split; [reflexivity|]. apply (bool_decide_unpack _). vm_compute. exact I.
  - repeat (apply Forall_cons; split; [split; [reflexivity|apply (bool_decide_unpack _); vm_compute; exact I]|]). constructor.
Defined.
