(* ===== verification/SshCrypto.v ===== *)
(** * Cryptography of the SSH server: model of src/lib/ssh_crypto.c

    Hexadecimal keys, SHA-256 and HMAC over the hash of Sha256.v, and the generator of
    random bytes over the cipher of Aes.v.  The calls into TweetNaCl are in SshKeys.v.  A
    pointer that may be NULL is an option. *)

From S2P Require Import Prelude Ring KString Words Sha256 Sha256Props Aes AesProps AesKeys AesModes.

Definition SSH_CRYPTO_SEED_BYTES : Z := 32.
Definition SSH_CRYPTO_SHA256_BYTES : Z := 32.
Definition SSH_RANDOM_BLOCK_BYTES : Z := 32.
Definition SSH_SHA256_BLOCK_BYTES : Z := 64.

(** ** Hexadecimal keys *)

Definition ssh_crypto_hex_value (c : Z) : Z :=
  if (0x30 <=? c) && (c <=? 0x39) then c - 0x30
  else if (0x61 <=? c) && (c <=? 0x66) then c - 0x61 + 10
  else if (0x41 <=? c) && (c <=? 0x46) then c - 0x41 + 10
  else -1.

Fixpoint is_all_zero_loop (l : list Z) (n : nat) : outcome Z :=
  match n with
  | O => Ret 1
  | S n =>
      match l with
      | [] => Fault
      | b :: l => if b =? 0 then is_all_zero_loop l n else Ret 0
      end
  end.

Definition ssh_crypto_is_all_zero (d : option (list Z)) (len : Z) : outcome Z :=
  match d with
  | None => Ret 1
  | Some d => is_all_zero_loop d (Z.to_nat len)
  end.

(** The body of the loop over [out] and whether the code still runs: after the return of
    -1 the steps that are left do nothing. *)
Definition hex_step (hex : list Z) (s : list Z * bool) (i : Z) : outcome (list Z * bool) :=
  let '(out, ok) := s in
  if negb ok then Ret s else
  h ← load1 hex (i * 2);
  l ← load1 hex (i * 2 + 1);
  let hi := ssh_crypto_hex_value h in
  let lo := ssh_crypto_hex_value l in
  if (hi <? 0) || (lo <? 0) then Ret (out, false)
  else out ← store1 out i (Aes.u8 (Z.lor (Z.shiftl hi 4) lo)); Ret (out, true).

Definition ssh_crypto_hex_to_bytes (hex out : option (list Z)) (out_len : Z) : outcome (Z * option (list Z)) :=
  match hex, out with
  | Some hex, Some o =>
      if out_len <=? 0 then Ret (-1, out) else
      n ← strlen hex 0;
      if negb (i32 n =? i32 (out_len * 2)) then Ret (-1, out) else
      '(o, ok) ← foldM (hex_step hex) (seqZ 0 out_len) (o, true);
      Ret (if ok : bool then 0 else -1, Some o)
  | _, _ => Ret (-1, out)
  end.

(** ** Hashes *)

(** The context is on the stack: [ctx] is what the stack holds. *)
Definition ssh_crypto_sha256 (ctx : SHA256_CTX) (out d : list Z) (len : Z) : outcome (list Z) :=
  ctx ← sha256_update (sha256_init ctx) d len;
  '(_, out) ← sha256_final ctx out;
  Ret out.

(** [key] and [data] are NULL or the bytes behind the pointer. *)
Definition copy_from (src : option (list Z)) (n : Z) : outcome (list Z) :=
  match src with Some s => load_bytes s 0 n | None => Fault end.

(** [ctx] and [inner_hash] are what the stack holds; [inner_input] has a length that is
    computed at run time, and all of it is written before it is read. *)
Definition ssh_crypto_hmac_sha256 (ctx : SHA256_CTX) (inner_hash out : list Z)
    (key : option (list Z)) (key_len : Z) (d : option (list Z)) (data_len : Z) : outcome (list Z) :=
  let inner_input := replicate (Z.to_nat (u32 (SSH_SHA256_BLOCK_BYTES + data_len))) 0 in
  let key_block := replicate 64 0 in
  key_block ←
    (if SSH_SHA256_BLOCK_BYTES <? key_len then
       match key with Some k => ssh_crypto_sha256 ctx key_block k key_len | None => Fault end
     else if 0 <? key_len then b ← copy_from key key_len; store_bytes key_block 0 b
     else Ret key_block);
  let inner_pad := (fun b => Aes.u8 (Z.lxor b 0x36)) <$> key_block in
  let outer_pad := (fun b => Aes.u8 (Z.lxor b 0x5c)) <$> key_block in
  inner_input ← store_bytes inner_input 0 inner_pad;
  inner_input ←
    (if 0 <? data_len then b ← copy_from d data_len; store_bytes inner_input SSH_SHA256_BLOCK_BYTES b
     else Ret inner_input);
  inner_hash ← ssh_crypto_sha256 ctx inner_hash inner_input (Z.of_nat (length inner_input));
  let outer_input := outer_pad ++ inner_hash in
  ssh_crypto_sha256 ctx out outer_input (SSH_SHA256_BLOCK_BYTES + SSH_CRYPTO_SHA256_BYTES).

(** ** Random bytes *)

Record ssh_random_state := Random {
  seed : list Z;
  counter : Z;
  seeded : bool;
  literal_pending : bool;
  literal_seed : list Z }.

Definition ssh_crypto_aes128_ctr_init (ctx : AES_ctx) (key iv : list Z) : outcome AES_ctx := AES_init_ctx_iv ctx key iv.
Definition ssh_crypto_aes128_ctr_xcrypt (ctx : AES_ctx) (buf : list Z) (len : Z) : outcome (AES_ctx * list Z) :=
  AES_CTR_xcrypt_buffer ctx buf len.

Definition xor_at (l : list Z) (i v : Z) : outcome (list Z) :=
  b ← load1 l i; store1 l i (Z.lxor b (Aes.u8 v)).

(** [ctx] is what the stack holds. *)
Definition ssh_crypto_random_block (ctx : AES_ctx) (r : ssh_random_state) : outcome (ssh_random_state * list Z) :=
  let out := replicate 32 0 in
  iv ← load_bytes (seed r) 16 16;
  iv ← xor_at iv 12 (Z.shiftr (counter r) 24);
  iv ← xor_at iv 13 (Z.shiftr (counter r) 16);
  iv ← xor_at iv 14 (Z.shiftr (counter r) 8);
  iv ← xor_at iv 15 (counter r);
  ctx ← ssh_crypto_aes128_ctr_init ctx (seed r) iv;
  '(_, out) ← ssh_crypto_aes128_ctr_xcrypt ctx out SSH_RANDOM_BLOCK_BYTES;
  Ret (Random (seed r) (u32 (counter r + 1)) (seeded r) (literal_pending r) (literal_seed r), out).

Definition ssh_crypto_random_seed_literal (r : ssh_random_state) (s : list Z) : outcome ssh_random_state :=
  b ← load_bytes s 0 SSH_CRYPTO_SEED_BYTES;
  sd ← store_bytes (seed r) 0 b;
  lit ← store_bytes (literal_seed r) 0 b;
  Ret (Random sd 0 true true lit).

Definition ssh_crypto_random_seed (r : ssh_random_state) (s : list Z) : outcome ssh_random_state :=
  b ← load_bytes s 0 SSH_CRYPTO_SEED_BYTES;
  sd ← store_bytes (seed r) 0 b;
  Ret (Random sd 0 true false (literal_seed r)).

Fixpoint random_loop (fuel : nat) (ctx : AES_ctx) (r : ssh_random_state) (buf : list Z) (written len : Z) : outcome (ssh_random_state * list Z) :=
  match fuel with
  | O => Hang
  | S fuel =>
      if written <? len then
        let copy_len := len - written in
        '(r, block) ← ssh_crypto_random_block ctx r;
        let copy_len := if SSH_RANDOM_BLOCK_BYTES <? copy_len then SSH_RANDOM_BLOCK_BYTES else copy_len in
        b ← load_bytes block 0 copy_len;
        buf ← store_bytes buf written b;
        random_loop fuel ctx r buf (written + copy_len) len
      else Ret (r, buf)
  end.

Definition randombytes (ctx : AES_ctx) (r : ssh_random_state) (buf : option (list Z)) (len : Z) : outcome (ssh_random_state * option (list Z)) :=
  match buf with
  | None => Ret (r, None)
  | Some buf =>
      if negb (seeded r) then buf ← store_bytes buf 0 (replicate (Z.to_nat len) 0); Ret (r, Some buf)
      else
        '(r, buf, written) ←
          (if literal_pending r then
             let copy_len := if SSH_CRYPTO_SEED_BYTES <? len then SSH_CRYPTO_SEED_BYTES else len in
             b ← load_bytes (literal_seed r) 0 copy_len;
             buf ← store_bytes buf 0 b;
             Ret (Random (seed r) (counter r) (seeded r) false (literal_seed r), buf, copy_len)
           else Ret (r, buf, 0));
        '(r, buf) ← random_loop (S (Z.to_nat len)) ctx r buf written len;
        Ret (r, Some buf)
  end.

Definition ssh_crypto_random_fill (ctx : AES_ctx) (r : ssh_random_state) (out : option (list Z)) (len : Z) :
    outcome (ssh_random_state * option (list Z)) := randombytes ctx r out len.
