(* ===== verification/SshCryptoProps.v ===== *)
(** * Properties of the SSH server's cryptography

    HMAC as RFC 2104 defines it, hexadecimal keys, and the bytes of the random
    generator, with the overlap between its blocks. *)

From Stdlib Require Import String.
From S2P Require Import Prelude Ring KString Words Sha256 Sha256Props Aes AesProps AesKeys AesModes SshCrypto.

#[local] Opaque sha256 sha256_update sha256_final aes round_keys ctr_block be_bytes.

(** ** Hashes *)

Lemma sha256_call ctx out msg rest n : length (data ctx) = 64%nat → (32 ≤ length out)%nat → Forall is_byte msg →
  Z.of_nat (length msg) = n → Forall is_byte rest →
  ssh_crypto_sha256 ctx out (msg ++ rest) n = Ret (sha256 msg ++ drop 32 out).
Proof.
  intros Hl Ho Hm Hn Hr. unfold ssh_crypto_sha256.
  destruct (update_holds (sha256_init ctx) (msg ++ rest) n []) as (c & -> & Hc);
    [by apply init_holds|by apply Forall_app|rewrite length_app; lia|].
  rewrite bind_ret. replace (Z.to_nat n) with (length msg) in Hc by lia. rewrite take_app_length, app_nil_l in Hc.
  by destruct (final_spec c msg out Hc Ho) as (c' & ->).
Qed.

Lemma sha256_bytes msg : length (sha256 msg) = 32%nat ∧ Forall is_byte (sha256 msg).
Proof.
  assert (∀ bs h, length h = 8%nat → length (foldl compress h bs) = 8%nat) as L.
  { induction bs as [|b bs IH]; intros h Hh; [done|]. cbn [foldl]. apply IH. unfold compress. rewrite length_zip_with, Hh. done. }
  Transparent sha256. unfold sha256. Opaque sha256. split.
  - rewrite (concat_length 4), length_fmap, L; [done|by rewrite <-(proj2 constants)|].
    apply Forall_fmap, Forall_forall. intros x _. apply be_bytes_length.
  - apply Forall_concat, Forall_fmap, Forall_forall. intros x _. apply be_bytes_range.
Qed.

(** RFC 2104 with SHA-256, whose blocks have 64 bytes. *)
Definition hmac_key (key : list Z) : list Z :=
  let k := if 64 <? Z.of_nat (length key) then sha256 key else key in
  k ++ replicate (64 - length k) 0.
Definition hmac (key msg : list Z) : list Z :=
  sha256 ((Z.lxor 0x5c <$> hmac_key key) ++ sha256 ((Z.lxor 0x36 <$> hmac_key key) ++ msg)).

Lemma hmac_key_bytes key : Forall is_byte key → length (hmac_key key) = 64%nat ∧ Forall is_byte (hmac_key key).
Proof.
  intros Hk. destruct (sha256_bytes key) as [Hl Hb]. unfold hmac_key. split.
  - rewrite length_app, length_replicate. destruct (Z.ltb_spec 64 (Z.of_nat (length key))); lia.
  - apply Forall_app. split; [by destruct (_ <? _)|]. by apply Forall_replicate.
Qed.

Lemma pad_bytes v k : is_byte v → Forall is_byte k →
  (fun b => Aes.u8 (Z.lxor b v)) <$> k = Z.lxor v <$> k ∧ Forall is_byte (Z.lxor v <$> k).
Proof.
  intros Hv Hk. split.
  - apply list_fmap_ext. intros i b Hb. rewrite Z.lxor_comm. apply Z.mod_small.
    apply byte_lxor; [done|]. exact (Forall_lookup_1 _ _ _ _ Hk Hb).
  - apply Forall_fmap. eapply Forall_impl; [done|]. intros b Hb. by apply byte_lxor.
Qed.

Lemma store_front {A} (d s : list A) : (length s ≤ length d)%nat → store_bytes d 0 s = Ret (s ++ drop (length s) d).
Proof.
  intros Hl. unfold store_bytes. destruct (Z.leb_spec (0 + Z.of_nat (length s)) (Z.of_nat (length d))); [|lia]. done.
Qed.

(** The block the code makes of the key. *)
Lemma hmac_key_block ctx key more : length (data ctx) = 64%nat → Forall is_byte key → Forall is_byte more →
  (if SSH_SHA256_BLOCK_BYTES <? Z.of_nat (length key) then ssh_crypto_sha256 ctx (replicate 64 0) (key ++ more) (Z.of_nat (length key))
   else if 0 <? Z.of_nat (length key) then b ← copy_from (Some (key ++ more)) (Z.of_nat (length key)); store_bytes (replicate 64 0) 0 b
   else Ret (replicate 64 0)) = Ret (hmac_key key).
Proof.
  intros Hl Hk Hm. unfold SSH_SHA256_BLOCK_BYTES, hmac_key. destruct (sha256_bytes key) as [Hlk _].
  destruct (Z.ltb_spec 64 (Z.of_nat (length key))).
  - rewrite sha256_call by (done || rewrite ?length_replicate; lia). by rewrite drop_replicate, Hlk.
  - destruct (Z.ltb_spec 0 (Z.of_nat (length key))).
    + unfold copy_from. rewrite load_bytes_Ret by (rewrite ?length_app; lia). rewrite Nat2Z.id. change (drop (Z.to_nat 0) ?l) with l.
      rewrite take_app_length, bind_ret, store_front by (rewrite length_replicate; lia). by rewrite drop_replicate.
    + destruct key; [done|simpl in *; lia].
Qed.

(** C31: [ssh_crypto_hmac_sha256] computes HMAC-SHA-256: for keys of every length, longer
    than a block or empty included, and every message that fits in memory with a block. *)
Theorem hmac_correct ctx inner_hash out key more msg more' :
  length (data ctx) = 64%nat → length inner_hash = 32%nat → (32 ≤ length out)%nat →
  Forall is_byte (key ++ more) → Forall is_byte (msg ++ more') → Z.of_nat (length msg) + 64 < U32 →
  ssh_crypto_hmac_sha256 ctx inner_hash out (Some (key ++ more)) (Z.of_nat (length key)) (Some (msg ++ more')) (Z.of_nat (length msg)) =
  Ret (hmac key msg ++ drop 32 out).
Proof.
  intros Hl Hih Ho [Hk Hmore]%Forall_app [Hm Hm']%Forall_app Hlen. unfold ssh_crypto_hmac_sha256.
  rewrite hmac_key_block, bind_ret by done. destruct (hmac_key_bytes key Hk) as [Hkl Hkb].
  destruct (pad_bytes 0x36 _ ltac:(done) Hkb) as [-> Hi]. destruct (pad_bytes 0x5c _ ltac:(done) Hkb) as [-> Hob].
  set (ip := Z.lxor 0x36 <$> hmac_key key) in *. set (op := Z.lxor 0x5c <$> hmac_key key) in *.
  assert (length ip = 64%nat) as Hil by by unfold ip; rewrite length_fmap.
  assert (length op = 64%nat) as Hol by by unfold op; rewrite length_fmap.
  unfold SSH_SHA256_BLOCK_BYTES. rewrite u32_small by (unfold is_u32; lia).
  rewrite store_front by (rewrite length_replicate; lia). rewrite bind_ret, drop_replicate.
  assert ((if 0 <? Z.of_nat (length msg) then b ← copy_from (Some (msg ++ more')) (Z.of_nat (length msg));
      store_bytes (ip ++ replicate (Z.to_nat (64 + Z.of_nat (length msg)) - length ip) 0) 64 b
    else Ret (ip ++ replicate (Z.to_nat (64 + Z.of_nat (length msg)) - length ip) 0)) = Ret (ip ++ msg)) as ->.
  { destruct (Z.ltb_spec 0 (Z.of_nat (length msg))).
    - unfold copy_from. rewrite load_bytes_Ret by (rewrite ?length_app; lia). rewrite Nat2Z.id. change (drop (Z.to_nat 0) ?l) with l.
      rewrite take_app_length, bind_ret. unfold store_bytes. rewrite length_app, length_replicate.
      destruct (Z.leb_spec (64 + Z.of_nat (length msg)) (Z.of_nat (length ip + (Z.to_nat (64 + Z.of_nat (length msg)) - length ip)))); [|lia].
      cbn [andb Z.leb]. change (0 <=? 64) with true. cbv iota. replace (Z.to_nat 64) with (length ip) by lia.
      rewrite take_app_length, drop_ge by (rewrite length_app, length_replicate; lia). by rewrite app_nil_r.
    - destruct msg; [|simpl in *; lia]. f_equal. f_equal. rewrite Hil. done. }
  rewrite bind_ret. pose proof (sha256_call ctx inner_hash (ip ++ msg) [] (Z.of_nat (length (ip ++ msg))) Hl ltac:(lia)
    ltac:(by apply Forall_app) eq_refl (Forall_nil_2 _)) as E. rewrite app_nil_r in E. rewrite E, bind_ret. clear E.
  destruct (sha256_bytes (ip ++ msg)) as [Hsl Hsb]. rewrite (drop_ge inner_hash), app_nil_r by lia.
  pose proof (sha256_call ctx out (op ++ sha256 (ip ++ msg)) [] (64 + 32) Hl Ho ltac:(by apply Forall_app)
    ltac:(rewrite length_app; lia) (Forall_nil_2 _)) as E. rewrite app_nil_r in E. exact E.
Qed.

Lemma hmac_correct_witness :
  ssh_crypto_hmac_sha256 (Sha256.Ctx (replicate 64 9) 1 2 []) (replicate 32 8) (replicate 33 1) (Some ([1; 2] ++ [3])) 2 (Some ([] ++ [4])) 0 =
  Ret (hmac [1; 2] [] ++ [1]).
Proof.
  apply (hmac_correct (Sha256.Ctx (replicate 64 9) 1 2 []) (replicate 32 8) (replicate 33 1) [1; 2] [3] [] [4]).
  - reflexivity.
  - reflexivity.
  - vm_compute. lia.
  - apply (bool_decide_unpack _). vm_compute. exact I.
  - apply (bool_decide_unpack _). vm_compute. exact I.
  - reflexivity.
Defined.

(** The second test case of RFC 4231. *)
Example hmac_example :
  be_value (hmac (chars "Jefe"%string) (chars "what do ya want for nothing?"%string)) =
  0x5bdcc146bf60754e6a042426089575c75a003f089d2739839dec58b964ec3843.
Proof. vm_compute. reflexivity. Qed.

(** ** Random bytes *)

Lemma be_bytes_lxor n x y : be_bytes n (Z.lxor x y) = xor_bytes (be_bytes n x) (be_bytes n y).
Proof.
  apply list_eq. intros i. destruct (decide (i < n)%nat).
  - rewrite be_bytes_lookup by done. symmetry. apply lookup_zip_with_Some. eexists _, _. rewrite !be_bytes_lookup by done.
    split; [|done]. rewrite Z.shiftr_lxor. apply u8_lxor.
  - rewrite !(proj2 (lookup_ge_None _ _)); [done| |rewrite be_bytes_length; lia].
    unfold xor_bytes. rewrite length_zip_with, !be_bytes_length. lia.
Qed.

Definition is_seed (s : list Z) : Prop := length s = 32%nat ∧ Forall is_byte s.

(** The key and the first counter of a seed, and the block the generator makes for a
    value of its own counter. *)
Definition seed_key (s : list Z) : list Z := take 16 s.
Definition seed_iv (s : list Z) : Z := be_value (drop 16 s).
Definition random_block (s : list Z) (c : Z) : list Z :=
  ctr_block (seed_key s) (Z.lxor (seed_iv s) c) ++ ctr_block (seed_key s) (Z.lxor (seed_iv s) c + 1).

Lemma seed_parts s : is_seed s → is_block (seed_key s) ∧ is_block (drop 16 s) ∧ 0 ≤ seed_iv s ∧ be_bytes 16 (seed_iv s) = drop 16 s.
Proof.
  intros [Hl Hb]. assert (is_block (drop 16 s)) as [Hd Hdb] by (split; [rewrite length_drop; lia|by apply Forall_drop]).
  destruct (be_bytes_value 16 (drop 16 s) Hd Hdb) as [E Hp].
  split_and!; [split; [unfold seed_key; rewrite length_take; lia|by apply Forall_take]|done|done|done].
Qed.

Lemma xor_at_spec (p q : list Z) x i v : Z.of_nat (length p) = i →
  xor_at (p ++ x :: q) i v = Ret (p ++ Z.lxor x (Aes.u8 v) :: q).
Proof.
  intros Hi. unfold xor_at. rewrite (load1_Ret _ i x); [|lia|].
  - rewrite bind_ret, store1_Ret by (rewrite length_app; simpl; lia). f_equal.
    rewrite insert_app_r_alt by lia. by replace (Z.to_nat i - length p)%nat with 0%nat by lia.
  - rewrite lookup_app_r by lia. by replace (Z.to_nat i - length p)%nat with 0%nat by lia.
Qed.

(** The four exclusive ors add the counter of the generator to the vector. *)
Lemma random_iv s c : is_seed s → is_u32 c →
  (iv ← load_bytes s 16 16; iv ← xor_at iv 12 (Z.shiftr c 24); iv ← xor_at iv 13 (Z.shiftr c 16);
   iv ← xor_at iv 14 (Z.shiftr c 8); xor_at iv 15 c) = Ret (be_bytes 16 (Z.lxor (seed_iv s) c)).
Proof.
  intros Hs Hc. destruct (seed_parts s Hs) as (_ & Hd & _ & Ev). destruct Hs as [Hl Hb].
  rewrite load_bytes_Ret by lia. rewrite take_ge by (rewrite length_drop; lia). change (Z.to_nat 16) with 16%nat.
  rewrite be_bytes_lxor, Ev. set (d := drop 16 s) in *. clearbody d. rewrite bind_ret.
  assert (be_bytes 16 c = replicate 12 0 ++ be_bytes 4 c) as ->.
  { apply list_eq. intros i. destruct (decide (i < 16)%nat).
    - rewrite be_bytes_lookup by done. destruct (decide (i < 12)%nat).
      + rewrite lookup_app_l, lookup_replicate_2 by (rewrite ?length_replicate; lia). f_equal.
        rewrite Z.shiftr_div_pow2 by lia. rewrite Z.div_small; [done|]. unfold is_u32, U32 in Hc. split; [lia|].
        apply Z.lt_le_trans with (2 ^ 32); [lia|apply Z.pow_le_mono_r; lia].
      + rewrite lookup_app_r by (rewrite length_replicate; lia). rewrite length_replicate, be_bytes_lookup by lia.
        do 4 f_equal. lia.
    - rewrite !(proj2 (lookup_ge_None _ _)); [done|rewrite length_app, length_replicate, be_bytes_length; lia|rewrite be_bytes_length; lia]. }
  Transparent be_bytes. cbn [be_bytes]. Opaque be_bytes. rewrite !Z.div_div by lia. open_block Hd. destruct_and!.
  set (y11 := Z.lxor x11 (Aes.u8 (Z.shiftr c 24))). set (y12 := Z.lxor x12 (Aes.u8 (Z.shiftr c 16))). set (y13 := Z.lxor x13 (Aes.u8 (Z.shiftr c 8))).
  rewrite (xor_at_spec [x; x0; x1; x2; x3; x4; x5; x6; x7; x8; x9; x10] [x12; x13; x14] x11 12) by done. rewrite bind_ret. cbn [app].
  rewrite (xor_at_spec [x; x0; x1; x2; x3; x4; x5; x6; x7; x8; x9; x10; y11] [x13; x14] x12 13) by done. rewrite bind_ret. cbn [app].
  rewrite (xor_at_spec [x; x0; x1; x2; x3; x4; x5; x6; x7; x8; x9; x10; y11; y12] [x14] x13 14) by done. rewrite bind_ret. cbn [app].
  rewrite (xor_at_spec [x; x0; x1; x2; x3; x4; x5; x6; x7; x8; x9; x10; y11; y12; y13] [] x14 15) by done.
  unfold y11, y12, y13. rewrite !Z.shiftr_div_pow2 by lia. cbn -[Z.lxor Z.div Z.modulo Z.pow]. rewrite !Z.lxor_0_r. reflexivity.
Qed.

Lemma ctr_stream_two key v : is_block key → ctr_stream key v 32 = ctr_block key v ++ ctr_block key (v + 1).
Proof.
  intros Hk. unfold ctr_stream. change (seqZ 0 (Z.of_nat 32)) with ([0; 1] ++ seqZ 2 30). rewrite fmap_app, concat_app.
  cbn [fmap list_fmap concat]. rewrite Z.add_0_r, app_nil_r.
  destruct (ctr_block_block key Hk v) as [H1 _]. destruct (ctr_block_block key Hk (v + 1)) as [H2 _].
  apply take_app_length'. rewrite length_app. lia.
Qed.

Lemma random_block_length s c : is_seed s → length (random_block s c) = 32%nat.
Proof.
  intros Hs. destruct (seed_parts s Hs) as (Hk & _). unfold random_block. rewrite length_app.
  destruct (ctr_block_block _ Hk (Z.lxor (seed_iv s) c)) as [-> _]. by destruct (ctr_block_block _ Hk (Z.lxor (seed_iv s) c + 1)) as [-> _].
Qed.

Lemma xor_zeros s : xor_bytes (replicate (length s) 0) s = s.
Proof.
  induction s as [|x s IH]; [done|]. change (x :: xor_bytes (replicate (length s) 0) s = x :: s). by rewrite IH.
Qed.

(** The stack of a call holds a context of the right size. *)
Definition is_ctx (ctx : AES_ctx) : Prop := length (RoundKey ctx) = 176%nat ∧ length (Iv ctx) = 16%nat.

Lemma random_block_spec ctx r : is_ctx ctx → is_seed (seed r) → is_u32 (counter r) →
  ssh_crypto_random_block ctx r =
  Ret (Random (seed r) (u32 (counter r + 1)) (seeded r) (literal_pending r) (literal_seed r), random_block (seed r) (counter r)).
Proof.
  intros [Hrk Hiv] Hs Hc. destruct (seed_parts _ Hs) as (Hk & _ & Hv & _). pose proof (random_iv _ _ Hs Hc) as E.
  apply bind_ret_inv in E as (iv & E1 & E). apply bind_ret_inv in E as (iv1 & E2 & E). apply bind_ret_inv in E as (iv2 & E3 & E).
  apply bind_ret_inv in E as (iv3 & E4 & E). unfold ssh_crypto_random_block. rewrite E1, bind_ret, E2, bind_ret, E3, bind_ret, E4, bind_ret, E, bind_ret.
  unfold ssh_crypto_aes128_ctr_init, ssh_crypto_aes128_ctr_xcrypt. set (v := Z.lxor (seed_iv (seed r)) (counter r)) in *.
  assert (0 ≤ v) as Hv0 by (apply Z.lxor_nonneg; unfold is_u32 in Hc; lia).
  pose proof (init_iv_spec ctx (seed_key (seed r)) (drop 16 (seed r)) (be_bytes 16 v) Hrk Hiv Hk (be_bytes_block v)) as Ei.
  unfold seed_key in Ei at 1. rewrite take_drop in Ei. rewrite Ei, bind_ret.
  destruct (be_bytes_value 16 (be_bytes 16 v)) as [Eb _]; [apply be_bytes_length|apply be_bytes_range|]. rewrite Eb.
  rewrite (xcrypt_spec _ Hk v Hv0) by done. rewrite bind_ret. cbv beta iota. change (Z.to_nat SSH_RANDOM_BLOCK_BYTES) with 32%nat.
  rewrite take_ge, drop_ge, app_nil_r by (rewrite length_replicate; lia). rewrite ctr_stream_two by done.
  fold (random_block (seed r) (counter r)). pose proof (random_block_length (seed r) (counter r) Hs) as Hl.
  unfold random_block in Hl. fold v in Hl. rewrite <-Hl, xor_zeros. reflexivity.
Qed.

(** [n] blocks from the counter [c] on. *)
Fixpoint random_stream (n : nat) (s : list Z) (c : Z) : list Z :=
  match n with
  | O => []
  | S n => random_block s c ++ random_stream n s (u32 (c + 1))
  end.

(** How many blocks are made does not matter when they are enough. *)
Lemma random_stream_enough s : is_seed s → ∀ a b c k, (k ≤ 32 * a)%nat → (k ≤ 32 * b)%nat →
  take k (random_stream a s c) = take k (random_stream b s c).
Proof.
  intros Hs. induction a as [|a IH]; intros b c k Ha Hb; [by replace k with 0%nat by lia|].
  destruct b as [|b]; [by replace k with 0%nat by lia|]. cbn [random_stream]. rewrite !take_app. f_equal.
  rewrite random_block_length by done. apply IH; lia.
Qed.

Lemma random_loop_spec fuel ctx r p q len : is_ctx ctx → is_seed (seed r) → is_u32 (counter r) →
  Z.of_nat (length p) ≤ len ≤ Z.of_nat (length p + length q) → (Z.to_nat len - length p < fuel)%nat →
  ∃ c, random_loop fuel ctx r (p ++ q) (Z.of_nat (length p)) len =
    Ret (Random (seed r) c (seeded r) (literal_pending r) (literal_seed r),
         p ++ take (Z.to_nat len - length p) (random_stream (Z.to_nat len - length p) (seed r) (counter r)) ++ drop (Z.to_nat len - length p) q) ∧
    is_u32 c.
Proof.
  intros Hctx. revert r p q. induction fuel as [|fuel IH]; intros r p q Hs Hc Hl Hf; [lia|]. cbn [random_loop].
  destruct (Z.ltb_spec (Z.of_nat (length p)) len).
  2:{ exists (counter r). replace (Z.to_nat len - length p)%nat with 0%nat by lia. rewrite drop_0. split; [by destruct r|done]. }
  rewrite random_block_spec by done. rewrite bind_ret. cbv beta iota. pose proof (random_block_length (seed r) (counter r) Hs) as Hb.
  set (b := random_block (seed r) (counter r)) in *.
  set (n := if SSH_RANDOM_BLOCK_BYTES <? len - Z.of_nat (length p) then SSH_RANDOM_BLOCK_BYTES else len - Z.of_nat (length p)).
  assert (n = 32 ∧ 32 ≤ len - Z.of_nat (length p) ∨ n = len - Z.of_nat (length p) ∧ n ≤ 32) as Hn.
  { subst n. unfold SSH_RANDOM_BLOCK_BYTES. destruct (Z.ltb_spec 32 (len - Z.of_nat (length p))); lia. }
  rewrite load_bytes_Ret by lia. change (drop (Z.to_nat 0) b) with b. rewrite bind_ret.
  assert (length (take (Z.to_nat n) b) = Z.to_nat n) as Ht by (rewrite length_take; lia).
  assert (store_bytes (p ++ q) (Z.of_nat (length p)) (take (Z.to_nat n) b) = Ret ((p ++ take (Z.to_nat n) b) ++ drop (Z.to_nat n) q)) as ->.
  { unfold store_bytes. rewrite Ht, length_app. destruct (Z.leb_spec 0 (Z.of_nat (length p))); [|lia].
    destruct (Z.leb_spec (Z.of_nat (length p) + Z.of_nat (Z.to_nat n)) (Z.of_nat (length p + length q))); [|lia]. cbn [andb].
    rewrite Nat2Z.id, take_app_length, <-app_assoc. do 3 f_equal. by rewrite drop_app_add. }
  rewrite bind_ret. destruct (IH (Random (seed r) (u32 (counter r + 1)) (seeded r) (literal_pending r) (literal_seed r)) (p ++ take (Z.to_nat n) b)
    (drop (Z.to_nat n) q)) as (c & E & Hc'); [done|apply u32_range|rewrite length_app, length_drop, Ht; lia|rewrite length_app, Ht; lia|].
  exists c. split; [|done]. rewrite length_app, Ht in E. replace (Z.of_nat (length p) + n) with (Z.of_nat (length p + Z.to_nat n)) by lia.
  rewrite E. cbn [seed counter seeded literal_pending literal_seed]. do 2 f_equal. rewrite <-app_assoc. f_equal.
  replace (Z.to_nat len - length p)%nat with (Z.to_nat n + (Z.to_nat len - (length p + Z.to_nat n)))%nat by lia.
  set (m := (Z.to_nat len - (length p + Z.to_nat n))%nat) in *. rewrite drop_drop, app_assoc. f_equal.
  destruct (Z.to_nat n) as [|n'] eqn:En; [lia|]. cbn [Nat.add random_stream]. fold b. rewrite take_app, Hb.
  destruct Hn as [[Hn Hn']|[Hn Hn']].
  - replace (S (n' + m) - 32)%nat with m by lia. rewrite (take_ge b (S n')), (take_ge b (S (n' + m))) by lia. f_equal.
    apply random_stream_enough; [done|lia..].
  - assert (m = 0%nat) as -> by lia. rewrite Nat.add_0_r, !take_0. by replace (S n' - 32)%nat with 0%nat by lia.
Qed.

Lemma random_seed_spec r s more : length (seed r) = 32%nat → is_seed s →
  ssh_crypto_random_seed r (s ++ more) = Ret (Random s 0 true false (literal_seed r)).
Proof.
  intros Hr [Hl Hb]. unfold ssh_crypto_random_seed, SSH_CRYPTO_SEED_BYTES. rewrite load_bytes_Ret by (rewrite ?length_app; lia).
  change (drop (Z.to_nat 0) ?l) with l. replace (Z.to_nat 32) with (length s) by lia. rewrite take_app_length, bind_ret.
  rewrite store_front by lia. by rewrite drop_ge, app_nil_r by lia.
Qed.

Lemma random_fill_spec ctx r s out len :
  is_ctx ctx → length (seed r) = 32%nat → is_seed s → 0 ≤ len ≤ Z.of_nat (length out) →
  ∃ r', (r ← ssh_crypto_random_seed r s; ssh_crypto_random_fill ctx r (Some out) len) =
    Ret (r', Some (take (Z.to_nat len) (random_stream (Z.to_nat len) s 0) ++ drop (Z.to_nat len) out)).
Proof.
  intros Hctx Hr Hs Hl. pose proof (random_seed_spec r s [] Hr Hs) as E. rewrite app_nil_r in E. rewrite E, bind_ret.
  unfold ssh_crypto_random_fill, randombytes. cbn [seeded literal_pending negb]. rewrite bind_ret. cbv beta iota.
  destruct (random_loop_spec (S (Z.to_nat len)) ctx (Random s 0 true false (literal_seed r)) [] out len) as (c & El & _);
    [done|done|done|simpl; lia|simpl; lia|]. change (Z.of_nat (length [])) with 0 in El. rewrite app_nil_l in El. rewrite El, bind_ret.
  cbv beta iota. cbn [length]. rewrite Nat.sub_0_r, app_nil_l. by eexists.
Qed.

(** The bytes [ssh_crypto_random_fill] writes after [ssh_crypto_random_seed], for any
    length: the blocks of counter mode for the counters [0], [1], ... mixed into the
    seed, cut to the length. *)
Theorem random_fill_correct ctx r s out len :
  is_ctx ctx → length (seed r) = 32%nat → is_seed s → 0 ≤ len ≤ Z.of_nat (length out) →
  ∃ r', (r ← ssh_crypto_random_seed r s; ssh_crypto_random_fill ctx r (Some out) len) =
    Ret (r', Some (take (Z.to_nat len) (random_stream (Z.to_nat len) s 0) ++ drop (Z.to_nat len) out)).
Proof. apply random_fill_spec. Qed.

Lemma random_fill_correct_witness :
  ∃ r', (r ← ssh_crypto_random_seed (Random (replicate 32 0) 5 false true []) (seqZ 0 32);
         ssh_crypto_random_fill (Aes.Ctx (replicate 176 7) (replicate 16 7)) r (Some (replicate 40 1)) 33) =
    Ret (r', Some (take 33 (random_stream 33 (seqZ 0 32) 0) ++ replicate 7 1)).
Proof.
  apply (random_fill_correct (Aes.Ctx (replicate 176 7) (replicate 16 7)) (Random (replicate 32 0) 5 false true []) (seqZ 0 32) (replicate 40 1) 33).
  - split; reflexivity.
  - reflexivity.
  - split; [reflexivity|]. apply (bool_decide_unpack _). vm_compute. exact I.
  - vm_compute. split; discriminate.
Defined.

(** ** Blocks that overlap *)

Lemma lxor_one_even v : Z.even v = true → Z.lxor v 1 = v + 1.
Proof.
  intros Hv. apply Z.even_spec in Hv as [w ->]. symmetry. apply Z.add_nocarry_lxor.
  change 1 with (Z.ones 1). rewrite Z.land_ones, Z.mul_comm by done. by apply Z.mod_mul.
Qed.

Lemma lxor_one_odd v : Z.even v = false → Z.lxor v 1 = v - 1.
Proof.
  intros Hv. assert (Z.even (v - 1) = true) as He by (rewrite Z.sub_1_r, Z.even_pred, <-Z.negb_even; by rewrite Hv).
  apply lxor_one_even in He. replace (v - 1 + 1) with v in He by lia. rewrite <-He at 1.
  by rewrite Z.lxor_assoc, Z.lxor_nilpotent, Z.lxor_0_r.
Qed.

(** The generator repeats itself: whatever the seed, the second half of the first
    block of 32 bytes is the first half of the second block, or the other way round, so
    64 random bytes always hold sixteen of them twice. *)
Theorem random_blocks_overlap ctx r s out :
  is_ctx ctx → length (seed r) = 32%nat → is_seed s → length out = 64%nat →
  ∃ r' b, (r ← ssh_crypto_random_seed r s; ssh_crypto_random_fill ctx r (Some out) 64) = Ret (r', Some b) ∧ length b = 64%nat ∧
    (take 16 (drop 16 b) = take 16 (drop 32 b) ∨ take 16 b = drop 48 b).
Proof.
  intros Hctx Hr Hs Ho. destruct (random_fill_spec ctx r s out 64 Hctx Hr Hs) as (r' & ->); [lia|].
  eexists _, _. split; [done|]. change (Z.to_nat 64) with 64%nat. rewrite drop_ge, app_nil_r by lia.
  rewrite (random_stream_enough s Hs 64 2 0 64) by lia. cbn [random_stream]. change (u32 (0 + 1)) with 1.
  destruct (seed_parts s Hs) as (Hk & _). unfold random_block. rewrite Z.lxor_0_r, app_nil_r.
  assert (∀ v, length (ctr_block (seed_key s) v) = 16%nat) as Hb by (intros v; exact (proj1 (ctr_block_block _ Hk v))).
  set (v := seed_iv s). rewrite take_ge by (rewrite !length_app, !Hb; lia). split; [rewrite !length_app, !Hb; lia|].
  rewrite <-!app_assoc. destruct (Z.even v) eqn:Ev.
  - left. rewrite lxor_one_even by done. rewrite (drop_app_length' _ _ 16) by by rewrite Hb.
    rewrite (take_app_length' _ _ 16) by by rewrite Hb. rewrite app_assoc, (drop_app_length' (_ ++ _) _ 32) by by rewrite length_app, !Hb.
    by rewrite (take_app_length' _ _ 16) by by rewrite Hb.
  - right. rewrite lxor_one_odd by done. rewrite (take_app_length' _ _ 16) by by rewrite Hb.
    rewrite !app_assoc, (drop_app_length' (_ ++ _) _ 48) by by rewrite !length_app, !Hb. by replace (v - 1 + 1) with v by lia.
Qed.

Lemma random_blocks_overlap_witness :
  ∃ r' b, (r ← ssh_crypto_random_seed (Random (replicate 32 0) 5 false true []) (seqZ 0 32);
           ssh_crypto_random_fill (Aes.Ctx (replicate 176 7) (replicate 16 7)) r (Some (replicate 64 1)) 64) = Ret (r', Some b) ∧
    length b = 64%nat ∧ (take 16 (drop 16 b) = take 16 (drop 32 b) ∨ take 16 b = drop 48 b).
Proof.
  apply (random_blocks_overlap (Aes.Ctx (replicate 176 7) (replicate 16 7)) (Random (replicate 32 0) 5 false true []) (seqZ 0 32) (replicate 64 1)).
  - split; reflexivity.
  - reflexivity.
  - split; [reflexivity|]. apply (bool_decide_unpack _). vm_compute. exact I.
  - reflexivity.
Defined.

(** ** Hexadecimal keys *)

Definition hex_digit (v : Z) : Z := if v <? 10 then 0x30 + v else 0x61 + (v - 10).
Definition hex_of (bs : list Z) : list Z := bs ≫= (fun b => [hex_digit (b / 16); hex_digit (b mod 16)]).

Lemma hex_digit_value v : 0 ≤ v < 16 → ssh_crypto_hex_value (hex_digit v) = v ∧ 0 < hex_digit v < 256.
Proof.
  intros Hv. unfold hex_digit, ssh_crypto_hex_value. destruct (Z.ltb_spec v 10).
  - destruct (Z.leb_spec 0x30 (0x30 + v)), (Z.leb_spec (0x30 + v) 0x39); simpl; lia.
  - destruct (Z.leb_spec 0x30 (0x61 + (v - 10))), (Z.leb_spec (0x61 + (v - 10)) 0x39), (Z.leb_spec 0x61 (0x61 + (v - 10))),
      (Z.leb_spec (0x61 + (v - 10)) 0x66); simpl; lia.
Qed.

Lemma hex_of_length bs : length (hex_of bs) = (2 * length bs)%nat.
Proof. unfold hex_of. induction bs as [|b bs IH]; [done|]. rewrite bind_cons, length_app, IH. simpl. lia. Qed.

Lemma hex_of_text bs : Forall is_byte bs → text (hex_of bs).
Proof.
  induction 1 as [|b bs Hb _ IH]; [constructor|]. unfold hex_of. rewrite bind_cons. unfold is_byte in Hb.
  pose proof (Z.div_mod b 16). pose proof (Z.mod_pos_bound b 16).
  repeat (apply Forall_cons; split; [apply hex_digit_value; lia|]). exact IH.
Qed.

Lemma hex_of_lookup bs i b rest : bs !! i = Some b →
  (hex_of bs ++ rest) !! (2 * i)%nat = Some (hex_digit (b / 16)) ∧ (hex_of bs ++ rest) !! (2 * i + 1)%nat = Some (hex_digit (b mod 16)).
Proof.
  revert i. induction bs as [|c bs IH]; intros i Hi; [done|]. unfold hex_of. rewrite bind_cons, <-app_assoc.
  destruct i as [|i]; simplify_eq/=; [done|]. replace (i + S (i + 0))%nat with (S (2 * i)) by lia.
  replace (S (2 * i) + 1)%nat with (S (2 * i + 1)) by lia. by apply IH.
Qed.

(** Keys in hexadecimal: the digits of any bytes, as a string of twice their number,
    are read back as these bytes, and nothing else of the buffer is written. *)
Theorem hex_roundtrip bs out rest : Forall is_byte bs → (0 < length bs ≤ length out)%nat → Z.of_nat (length bs) < 2 ^ 30 →
  ssh_crypto_hex_to_bytes (Some (hex_of bs ++ 0 :: rest)) (Some out) (Z.of_nat (length bs)) =
  Ret (0, Some (bs ++ drop (length bs) out)).
Proof.
  intros Hb Hl Hs. unfold ssh_crypto_hex_to_bytes. destruct (Z.leb_spec (Z.of_nat (length bs)) 0); [lia|].
  rewrite (strlen_spec _ 0 (hex_of bs)); [|split; [by apply hex_of_text|done|by exists rest]|rewrite hex_of_length; unfold U32; lia].
  rewrite bind_ret, hex_of_length. rewrite (i32_small (Z.of_nat (2 * length bs))), (i32_small (Z.of_nat (length bs) * 2)) by lia.
  destruct (Z.eqb_spec (Z.of_nat (2 * length bs)) (Z.of_nat (length bs) * 2)); [|lia]. cbn [negb].
  destruct (foldM_seqZ (fun i s => s.2 = true ∧ length s.1 = length out ∧ s.1 = take (Z.to_nat i) bs ++ drop (Z.to_nat i) out)
    (hex_step (hex_of bs ++ 0 :: rest)) 0 (Z.of_nat (length bs)) (out, true)) as ([o ok] & E & Hok & _ & Ho); [lia|done| |].
  - intros i [o ok] Hi (Hok & Hlo & Ho). cbn [fst snd] in *. subst ok. destruct (lookup_lt_is_Some_2 bs (Z.to_nat i)) as [b Eb]; [lia|].
    destruct (hex_of_lookup bs _ b (0 :: rest) Eb) as [Eh El]. unfold hex_step. cbn [negb].
    rewrite (load1_Ret _ (i * 2) (hex_digit (b / 16))); [|lia|by replace (Z.to_nat (i * 2)) with (2 * Z.to_nat i)%nat by lia].
    rewrite (load1_Ret _ (i * 2 + 1) (hex_digit (b mod 16))); [|lia|by replace (Z.to_nat (i * 2 + 1)) with (2 * Z.to_nat i + 1)%nat by lia].
    assert (is_byte b) as Hbb by exact (Forall_lookup_1 _ _ _ _ Hb Eb). unfold is_byte in Hbb.
    pose proof (Z.div_mod b 16). pose proof (Z.mod_pos_bound b 16). rewrite !bind_ret. 
    destruct (hex_digit_value (b / 16)) as [-> _]; [lia|]. destruct (hex_digit_value (b mod 16)) as [-> _]; [lia|].
    destruct (Z.ltb_spec (b / 16) 0); [lia|]. destruct (Z.ltb_spec (b mod 16) 0); [lia|]. cbn [orb].
    rewrite Z.shiftl_mul_pow2, (lor_join _ _ 4) by lia. rewrite store1_Ret by lia. rewrite bind_ret. eexists. split; [done|]. cbn [fst snd].
    split; [done|]. rewrite length_insert. split; [done|]. replace (b / 16 * 2 ^ 4 + b mod 16) with b by lia.
    unfold Aes.u8. rewrite Z.mod_small by lia. subst o. replace (Z.to_nat (i + 1)) with (S (Z.to_nat i)) by lia.
    rewrite (take_S_r _ _ b) by done. destruct (lookup_lt_is_Some_2 out (Z.to_nat i)) as [x Ex]; [lia|].
    rewrite (drop_S out x (Z.to_nat i)) by done. rewrite insert_app_r_alt by (rewrite length_take; lia).
    rewrite length_take, Nat.min_l, Nat.sub_diag by lia. by rewrite <-app_assoc.
  - rewrite E, bind_ret. cbv beta iota. cbn [fst snd] in *. rewrite Hok, Ho, Z.add_0_l, Nat2Z.id, firstn_all. reflexivity.
Qed.

Lemma hex_roundtrip_witness :
  ssh_crypto_hex_to_bytes (Some (hex_of [0xa7; 0x09] ++ 0 :: [5])) (Some [1; 2; 3]) 2 = Ret (0, Some ([0xa7; 0x09] ++ [3])).
Proof.
  apply (hex_roundtrip [0xa7; 0x09] [1; 2; 3] [5]).
  - apply (bool_decide_unpack _). vm_compute. exact I.
  - vm_compute. lia.
  - reflexivity.
Defined.
