(* ===== verification/Field25519.v ===== *)
(** * Arithmetic modulo 2^255 - 19: model of the field operations of src/lib/tweetnacl.c

    A number is sixteen limbs of type [i64], the low one first.  Signed arithmetic that
    leaves 64 bits faults.  An operation reads an operand no later than it writes the
    result at the same place, so operands and result may be one array; here the result
    is returned. *)

From S2P Require Import Prelude Ring Words.

(** ** The code *)

(** The result of a signed operation. *)
Definition i64 (x : Z) : outcome Z := if (- 2 ^ 63 <=? x) && (x <? 2 ^ 63) then Ret x else Fault.

Definition gf := list Z.

Definition gf0 : gf := replicate 16 0.
Definition gf1 : gf := 1 :: replicate 15 0.
Definition c_121665 : gf := 0xDB41 :: 1 :: replicate 14 0.

Definition car_step (o : gf) (i : Z) : outcome gf :=
  v ← load1 o i;
  v ← i64 (v + 2 ^ 16);
  o ← store1 o i v;
  let c := Z.shiftr v 16 in
  d ← i64 (c - 1);
  e ← i64 (37 * d);
  e ← i64 (d + e * (if i =? 15 then 1 else 0));
  let n := (i + 1) * (if i <? 15 then 1 else 0) in
  w ← load1 o n;
  w ← i64 (w + e);
  o ← store1 o n w;
  v ← load1 o i;
  f ← i64 (c * 2 ^ 16);
  v ← i64 (v - f);
  store1 o i v.
Definition car25519 (o : gf) : outcome gf := foldM car_step (seqZ 0 16) o.

(** The mask is [~(b - 1)]. *)
Definition sel_step (c : Z) (s : gf * gf) (i : Z) : outcome (gf * gf) :=
  let '(p, q) := s in
  pi ← load1 p i;
  qi ← load1 q i;
  let t := Z.land c (Z.lxor pi qi) in
  p ← store1 p i (Z.lxor pi t);
  q ← store1 q i (Z.lxor qi t);
  Ret (p, q).
Definition sel25519 (p q : gf) (b : Z) : outcome (gf * gf) := foldM (sel_step (Z.lnot (b - 1))) (seqZ 0 16) (p, q).

(** [m] is [t - p], limb by limb. *)
Definition sub_step (t m : gf) (i : Z) : outcome gf :=
  ti ← load1 t i;
  prev ← load1 m (i - 1);
  v ← i64 (ti - 0xffff - Z.land (Z.shiftr prev 16) 1);
  m ← store1 m i v;
  store1 m (i - 1) (Z.land prev 0xffff).
Definition pack_step (s : gf * gf) (j : Z) : outcome (gf * gf) :=
  let '(m, t) := s in
  t0 ← load1 t 0;
  v ← i64 (t0 - 0xffed);
  m ← store1 m 0 v;
  m ← foldM (sub_step t) (seqZ 1 14) m;
  t15 ← load1 t 15;
  m14 ← load1 m 14;
  v ← i64 (t15 - 0x7fff - Z.land (Z.shiftr m14 16) 1);
  m ← store1 m 15 v;
  let b := Z.land (Z.shiftr v 16) 1 in
  m ← store1 m 14 (Z.land m14 0xffff);
  '(t, m) ← sel25519 t m (1 - b);
  Ret (m, t).
Definition pack_byte (t : gf) (o : list Z) (i : Z) : outcome (list Z) :=
  ti ← load1 t i;
  o ← store1 o (2 * i) (Z.land ti 0xff mod 256);
  store1 o (2 * i + 1) (Z.shiftr ti 8 mod 256).
(** [m0] is what the workspace holds, [o] the buffer of the result. *)
Definition pack25519 (m0 : gf) (o : list Z) (n : gf) : outcome (list Z) :=
  t ← car25519 n;
  t ← car25519 t;
  t ← car25519 t;
  '(_, t) ← foldM pack_step (seqZ 0 2) (m0, t);
  foldM (pack_byte t) (seqZ 0 16) o.

Definition unpack_limb (n : list Z) (o : gf) (i : Z) : outcome gf :=
  lo ← load1 n (2 * i);
  hi ← load1 n (2 * i + 1);
  store1 o i (lo + Z.shiftl hi 8).
Definition unpack25519 (n : list Z) : outcome gf :=
  o ← foldM (unpack_limb n) (seqZ 0 16) gf0;
  o15 ← load1 o 15;
  store1 o 15 (Z.land o15 0x7fff).

Definition limbwise (op : Z → Z → Z) (a b : gf) (o : gf) (i : Z) : outcome gf :=
  x ← load1 a i;
  y ← load1 b i;
  v ← i64 (op x y);
  store1 o i v.
Definition A (a b : gf) : outcome gf := foldM (limbwise Z.add a b) (seqZ 0 16) a.
Definition Z_ (a b : gf) : outcome gf := foldM (limbwise Z.sub a b) (seqZ 0 16) a.

Definition mul_step (a b : gf) (i : Z) (t : list Z) (j : Z) : outcome (list Z) :=
  x ← load1 a i;
  y ← load1 b j;
  m ← i64 (x * y);
  v ← load1 t (i + j);
  v ← i64 (v + m);
  store1 t (i + j) v.
Definition mul_row (a b : gf) (t : list Z) (i : Z) : outcome (list Z) := foldM (mul_step a b i) (seqZ 0 16) t.
Definition fold_step (t : list Z) (i : Z) : outcome (list Z) :=
  hi ← load1 t (i + 16);
  m ← i64 (38 * hi);
  v ← load1 t i;
  v ← i64 (v + m);
  store1 t i v.
Definition M (a b : gf) : outcome gf :=
  t ← foldM (mul_row a b) (seqZ 0 16) (replicate 31 0);
  t ← foldM fold_step (seqZ 0 15) t;
  o ← load_bytes t 0 16;
  o ← car25519 o;
  car25519 o.
Definition S_ (a : gf) : outcome gf := M a a.

(** The powers: [a] counts down to 0, and the multiplication is skipped at [skip]. *)
Definition pow_step (skip : Z → bool) (i : gf) (c : gf) (a : Z) : outcome gf :=
  c ← S_ c;
  if skip a then Ret c else M c i.
Definition inv25519 (i : gf) : outcome gf := foldM (pow_step (fun a => (a =? 2) || (a =? 4)) i) (rev (seqZ 0 254)) i.
Definition pow2523 (i : gf) : outcome gf := foldM (pow_step (fun a => a =? 1) i) (rev (seqZ 0 251)) i.
