(* ===== verification/Field25519Props.v ===== *)
(** * Arithmetic modulo 2^255 - 19: theorems

    The limbs of every operation stand for the sum, difference, product, power or least
    residue of what its operands stand for, and no intermediate result leaves 64 bits. *)

From S2P Require Import Prelude Ring Words Field25519.

Definition P25519 : Z := 2 ^ 255 - 19.
Definition B16 : Z := 2 ^ 16.

(** The number that limbs stand for, and the limbs of a number. *)
Fixpoint val (l : list Z) : Z := match l with [] => 0 | x :: l => x + B16 * val l end.
Fixpoint limbs (n : nat) (v : Z) : list Z :=
  match n with O => [] | S n => v mod B16 :: limbs n (v / B16) end.
Definition add_head (l : list Z) (c : Z) : list Z := match l with [] => [] | x :: l => x + c :: l end.
Definition eqm (x y : Z) : Prop := x mod P25519 = y mod P25519.

Definition bounded (b : Z) (l : list Z) : Prop := Forall (fun x => Z.abs x ≤ b) l.

#[global] Instance eqm_equiv : Equivalence eqm.
Proof. unfold eqm. split; [intros ?; done|intros ???; done|intros ? ? ? ? ?; congruence]. Qed.
#[global] Instance eqm_add : Proper (eqm ==> eqm ==> eqm) Z.add.
Proof. intros a b H c d H'. unfold eqm in *. rewrite Z.add_mod, H, H', <-Z.add_mod by done. done. Qed.
#[global] Instance eqm_sub : Proper (eqm ==> eqm ==> eqm) Z.sub.
Proof. intros a b H c d H'. unfold eqm in *. by rewrite Zminus_mod, H, H', <-Zminus_mod. Qed.
#[global] Instance eqm_mul : Proper (eqm ==> eqm ==> eqm) Z.mul.
Proof. intros a b H c d H'. unfold eqm in *. rewrite Z.mul_mod, H, H', <-Z.mul_mod by done. done. Qed.

Lemma eqm_mod x : eqm (x mod P25519) x.
Proof. unfold eqm. by apply Z.mod_mod. Qed.

(** 2^256 is 38. *)
Lemma eqm_fold q r : eqm (2 ^ 256 * q + r) (38 * q + r).
Proof.
  unfold eqm. replace (2 ^ 256 * q + r) with (38 * q + r + (2 * q) * P25519) by (unfold P25519; lia).
  by rewrite Z.mod_add.
Qed.

(** ** Limbs *)

Definition B16_pow (n : nat) : Z := 2 ^ (16 * Z.of_nat n).
Lemma B16_pow_S n : B16_pow (S n) = B16 * B16_pow n.
Proof. unfold B16_pow, B16. rewrite <-Z.pow_add_r by lia. f_equal. lia. Qed.
Lemma B16_pow_pos n : 0 < B16_pow n.
Proof. unfold B16_pow. apply Z.pow_pos_nonneg; lia. Qed.

Lemma val_app l k : val (l ++ k) = val l + B16_pow (length l) * val k.
Proof. induction l as [|x l IH]; cbn [app val length]; [change (B16_pow 0) with 1; lia|]. rewrite IH, B16_pow_S. lia. Qed.

Lemma limbs_length n v : length (limbs n v) = n.
Proof. revert v. induction n as [|n IH]; intros v; simpl; [done|]. by rewrite IH. Qed.

Lemma val_limbs n v : val (limbs n v) = v mod B16_pow n.
Proof.
  revert v. induction n as [|n IH]; intros v; cbn [limbs val]; [by rewrite Z.mod_1_r|].
  rewrite IH, B16_pow_S. pose proof (B16_pow_pos n). rewrite Z.rem_mul_r by (unfold B16; lia). lia.
Qed.

Lemma limbs_snoc n v : limbs (S n) v = limbs n v ++ [(v / B16_pow n) mod B16].
Proof.
  revert v. induction n as [|n IH]; intros v; [cbn; by rewrite Z.div_1_r|].
  change (limbs (S (S n)) v) with (v mod B16 :: limbs (S n) (v / B16)). rewrite IH. cbn [limbs app]. do 4 f_equal.
  pose proof (B16_pow_pos n). rewrite Z.div_div, B16_pow_S by (unfold B16; lia). f_equal. 
Qed.

Lemma limbs_shift n v k : limbs n (v + B16_pow n * k) = limbs n v.
Proof.
  revert v k. induction n as [|n IH]; intros v k; [done|]. cbn [limbs]. rewrite B16_pow_S.
  replace (v + B16 * B16_pow n * k) with (v + (B16_pow n * k) * B16) by lia.
  rewrite Z.mod_add, Z.div_add by done. by rewrite IH.
Qed.

Lemma limbs_range n v : Forall (fun x => 0 ≤ x < B16) (limbs n v).
Proof.
  revert v. induction n as [|n IH]; intros v; simpl; constructor; [by apply Z.mod_pos_bound|apply IH].
Qed.

Lemma val_bound b l : 0 ≤ b → bounded b l → Z.abs (val l) ≤ b * (B16_pow (length l) - 1).
Proof.
  intros Hb. induction 1 as [|x l Hx _ IH]; [change (B16_pow (length [])) with 1; simpl; lia|].
  cbn [val length]. rewrite B16_pow_S. change B16 with 65536. lia.
Qed.

Lemma val_range l : Forall (fun x => 0 ≤ x < B16) l → 0 ≤ val l < B16_pow (length l).
Proof.
  induction 1 as [|x l Hx _ IH]; [done|]. cbn [val length]. rewrite B16_pow_S.
  change B16 with 65536 in *. lia.
Qed.

Lemma limbs_val l : Forall (fun x => 0 ≤ x < B16) l → limbs (length l) (val l) = l.
Proof.
  induction 1 as [|x l Hx _ IH]; [done|]. cbn [val length limbs].
  rewrite (Z.mul_comm B16), Z.mod_add, Z.div_add by done. rewrite Z.mod_small, Z.div_small by done. by rewrite Z.add_0_l, IH.
Qed.

(** ** Access in the middle of an array *)

Lemma load1_mid {T} (l r : list T) x i : Z.of_nat (length l) = i → load1 (l ++ x :: r) i = Ret x.
Proof.
  intros <-. apply load1_Ret; [lia|]. rewrite Nat2Z.id, lookup_app_r by lia. by rewrite Nat.sub_diag.
Qed.
Lemma store1_mid {T} (l r : list T) x y i : Z.of_nat (length l) = i → store1 (l ++ x :: r) i y = Ret (l ++ y :: r).
Proof.
  intros <-. rewrite store1_Ret by (rewrite length_app; simpl; lia). rewrite Nat2Z.id, insert_app_r_alt by lia.
  by rewrite Nat.sub_diag.
Qed.

Lemma load1_head {T} (r : list T) x : load1 (x :: r) 0 = Ret x.
Proof. done. Qed.
Lemma store1_head {T} (r : list T) x y : store1 (x :: r) 0 y = Ret (y :: r).
Proof. by rewrite store1_Ret by (simpl; lia). Qed.
Lemma load1_next {T} (l r : list T) x y i : Z.of_nat (length l) = i → load1 (l ++ x :: y :: r) (i + 1) = Ret y.
Proof.
  intros Hi. change (l ++ x :: y :: r) with (l ++ [x] ++ y :: r). rewrite app_assoc.
  apply load1_mid. rewrite length_app. simpl. lia.
Qed.
Lemma store1_next {T} (l r : list T) x y z i :
  Z.of_nat (length l) = i → store1 (l ++ x :: y :: r) (i + 1) z = Ret (l ++ x :: z :: r).
Proof.
  intros Hi. change (l ++ x :: y :: r) with (l ++ [x] ++ y :: r). rewrite app_assoc, store1_mid.
  - by rewrite <-app_assoc.
  - rewrite length_app. simpl. lia.
Qed.

Lemma i64_Ret x : - 2 ^ 63 ≤ x < 2 ^ 63 → i64 x = Ret x.
Proof. intros. unfold i64. destruct (_ && _) eqn:E; [done|lia]. Qed.

(** The first operation of a sequence. *)
Lemma i64_bind {T} x (k : Z → outcome T) : - 2 ^ 63 ≤ x < 2 ^ 63 → (i64 x ≫= k) = k x.
Proof. intros. by rewrite i64_Ret. Qed.
Ltac i64_step := rewrite i64_bind by lia; cbv beta.

(** ** Carries *)

(** A limb [v] that gives its carry to the limb [w]. *)
Lemma shift_carry v : Z.shiftr (v + 2 ^ 16) 16 = v / B16 + 1.
Proof. rewrite Z.shiftr_div_pow2 by lia. change (2 ^ 16) with B16. replace (v + B16) with (v + 1 * B16) by lia. by rewrite Z.div_add. Qed.

Section car.
Context (o : list Z) (Hlen : length o = 16%nat) (Hb : bounded (2 ^ 61) o).
#[local] Set Default Proof Using "Hlen Hb".

Definition carry (i : nat) : Z := val (take i o) / B16_pow i.

(** The array before the step [i]: the limbs below are done, and the carry is in. *)
Definition car_state (i : nat) : list Z := limbs i (val (take i o)) ++ add_head (drop i o) (carry i).

Lemma carry_bound i : (i ≤ 16)%nat → Z.abs (carry i) ≤ 2 ^ 61.
Proof.
  intros Hi. assert (length (take i o) = i) as Hl by (rewrite length_take; lia).
  pose proof (val_bound (2 ^ 61) (take i o)) as Hv. rewrite Hl in Hv. pose proof (B16_pow_pos i).
  assert (Z.abs (val (take i o)) ≤ 2 ^ 61 * (B16_pow i - 1)) as Hv' by (apply Hv; [lia|by apply Forall_take]).
  unfold carry. apply Z.abs_le. split.
  - apply Z.div_le_lower_bound; lia.
  - apply Z.div_le_upper_bound; lia.
Qed.

Lemma carry_S i x : o !! i = Some x → carry (S i) = (x + carry i) / B16.
Proof.
  intros Hx. unfold carry. assert (i < length o)%nat by by eapply lookup_lt_Some.
  rewrite (take_S_r _ _ _ Hx), val_app, length_take, Nat.min_l by lia. cbn [val].
  pose proof (B16_pow_pos i). rewrite B16_pow_S, (Z.mul_comm B16 (B16_pow i)), <-Z.div_div by (unfold B16; lia). f_equal.
  replace (x + B16 * 0) with x by lia. rewrite (Z.mul_comm _ x), Z.div_add by lia. lia.
Qed.

Lemma low_limbs i x : o !! i = Some x →
  limbs (S i) (val (take (S i) o)) = limbs i (val (take i o)) ++ [(x + carry i) mod B16].
Proof.
  intros Hx. assert (i < length o)%nat by by eapply lookup_lt_Some. rewrite limbs_snoc. 
  rewrite (take_S_r _ _ _ Hx), val_app, length_take, Nat.min_l by lia. cbn [val].
  rewrite limbs_shift. do 3 f_equal. pose proof (B16_pow_pos i). unfold carry.
  replace (x + B16 * 0) with x by lia. rewrite (Z.mul_comm _ x), Z.div_add by lia. lia.
Qed.

Lemma car_step_spec i : (i < 15)%nat → car_step (car_state i) (Z.of_nat i) = Ret (car_state (S i)).
Proof.
  intros Hi. destruct (lookup_lt_is_Some_2 o i) as [x Hx]; [lia|].
  destruct (lookup_lt_is_Some_2 o (S i)) as [y Hy]; [lia|].
  assert (Z.abs x ≤ 2 ^ 61) as Hxb by exact (Forall_lookup_1 _ _ _ _ Hb Hx).
  assert (Z.abs y ≤ 2 ^ 61) as Hyb by exact (Forall_lookup_1 _ _ _ _ Hb Hy).
  pose proof (carry_bound i ltac:(lia)) as Hc. unfold car_state.
  rewrite (drop_S _ _ _ Hx), (drop_S _ _ _ Hy). cbn [add_head].
  rewrite (low_limbs i x Hx), (carry_S i x Hx), <-app_assoc. set (v := x + carry i). set (l := limbs i (val (take i o))).
  assert (Z.of_nat (length l) = Z.of_nat i) as Hl by (unfold l; by rewrite limbs_length).
  assert (- 2 ^ 46 ≤ v / B16 ≤ 2 ^ 46) as Hq.
  { unfold B16. split; [apply Z.div_le_lower_bound; lia|apply Z.div_le_upper_bound; lia]. }
  pose proof (Z.div_mod v B16) as Hdm. pose proof (Z.mod_pos_bound v B16) as Hm. change B16 with 65536 in *.
  unfold car_step. rewrite load1_mid, bind_ret by done. i64_step. rewrite store1_mid, bind_ret by done.
  cbv zeta. rewrite shift_carry. change B16 with 65536. replace (v / 65536 + 1 - 1) with (v / 65536) by lia.
  i64_step. i64_step. destruct (Z.eqb_spec (Z.of_nat i) 15); [lia|]. i64_step.
  destruct (Z.ltb_spec (Z.of_nat i) 15); [|lia]. rewrite Z.mul_1_r.
  rewrite load1_next, bind_ret by done. i64_step. rewrite store1_next, bind_ret by done.
  rewrite load1_mid, bind_ret by done. i64_step. i64_step. rewrite store1_mid by done. cbn [app].
  do 2 f_equal. f_equal; [lia|f_equal; lia].
Qed.

(** The last limb gives its carry, 38 times, to the first. *)
Lemma car_last : car_step (car_state 15) 15 = Ret (add_head (limbs 16 (val o)) (38 * (val o / 2 ^ 256))).
Proof.
  destruct (lookup_lt_is_Some_2 o 15) as [x Hx]; [lia|].
  assert (Z.abs x ≤ 2 ^ 61) as Hxb by exact (Forall_lookup_1 _ _ _ _ Hb Hx).
  pose proof (carry_bound 15 ltac:(lia)) as Hc.
  assert (val o / 2 ^ 256 = (x + carry 15) / B16) as ->.
  { rewrite <-(carry_S 15 x Hx). unfold carry. by rewrite take_ge by lia. }
  replace (limbs 16 (val o)) with (limbs 16 (val (take 16 o))) by (by rewrite take_ge by lia).
  rewrite (low_limbs 15 x Hx). unfold car_state.
  rewrite (drop_S _ _ _ Hx), (drop_ge o 16) by lia. cbn [add_head]. set (v := x + carry 15).
  assert (∃ l0 l, limbs 15 (val (take 15 o)) = l0 :: l ∧ 0 ≤ l0 < B16 ∧ Z.of_nat (length (l0 :: l)) = 15) as (l0 & l & -> & H0 & Hl).
  { pose proof (limbs_range 15 (val (take 15 o))) as Hr. pose proof (limbs_length 15 (val (take 15 o))) as Hl.
    destruct (limbs 15 _) as [|l0 l]; [done|]. exists l0, l. rewrite Hl. inversion Hr. done. }
  assert (- 2 ^ 46 ≤ v / B16 ≤ 2 ^ 46) as Hq.
  { unfold B16. split; [apply Z.div_le_lower_bound; lia|apply Z.div_le_upper_bound; lia]. }
  pose proof (Z.div_mod v B16) as Hdm. pose proof (Z.mod_pos_bound v B16) as Hm. change B16 with 65536 in *.
  unfold car_step. rewrite load1_mid, bind_ret by done. i64_step. rewrite store1_mid, bind_ret by done.
  cbv zeta. rewrite shift_carry. change B16 with 65536. replace (v / 65536 + 1 - 1) with (v / 65536) by lia.
  i64_step. i64_step. change (15 =? 15) with true. change (15 <? 15) with false. cbv iota. i64_step.
  rewrite Z.mul_0_r. cbn [app].
  rewrite load1_head, bind_ret. i64_step. rewrite store1_head, bind_ret.
  set (w := l0 + _). change (w :: l ++ [v + 2 ^ 16]) with ((w :: l) ++ [v + 2 ^ 16]).
  rewrite (load1_mid (w :: l)), bind_ret by done. i64_step. i64_step. rewrite (store1_mid (w :: l)) by done. cbn [app add_head].
  unfold w. do 2 f_equal; [lia|]. do 2 f_equal. lia.
Qed.

Lemma car_spec : car25519 o = Ret (add_head (limbs 16 (val o)) (38 * (val o / 2 ^ 256))).
Proof.
  unfold car25519. change (seqZ 0 16) with (seqZ 0 15 ++ [15]). rewrite foldM_app.
  destruct (foldM_seqZ (S := gf) (fun i s => s = car_state (Z.to_nat i)) car_step 0 15 o) as (s & -> & ->); [lia| | |].
  - unfold car_state, carry. simpl. destruct o; [done|]. simpl. by rewrite Z.add_0_r.
  - intros j s Hj ->. eexists. split; [|done]. rewrite <-(Z2Nat.id j) at 2 by lia. rewrite car_step_spec by lia.
    by replace (Z.to_nat (j + 1)) with (S (Z.to_nat j)) by lia.
  - rewrite bind_ret. cbn [foldM]. change (Z.to_nat (0 + 15)) with 15%nat. by rewrite car_last.
Qed.

Lemma top_carry : Z.abs (val o / 2 ^ 256) ≤ 2 ^ 46.
Proof.
  destruct (lookup_lt_is_Some_2 o 15) as [x Hx]; [lia|].
  assert (Z.abs x ≤ 2 ^ 61) as Hxb by exact (Forall_lookup_1 _ _ _ _ Hb Hx).
  pose proof (carry_bound 15 ltac:(lia)) as Hc.
  replace (val o / 2 ^ 256) with ((x + carry 15) / B16).
  - unfold B16. apply Z.abs_le. split; [apply Z.div_le_lower_bound; lia|apply Z.div_le_upper_bound; lia].
  - rewrite <-(carry_S 15 x Hx). unfold carry. by rewrite take_ge by lia.
Qed.
End car.

Lemma add_head_length l c : length (add_head l c) = length l.
Proof. by destruct l. Qed.

Lemma val_add_head l c : l ≠ [] → val (add_head l c) = val l + c.
Proof. destruct l; [done|]. intros _. cbn [add_head val]. lia. Qed.

Lemma add_head_bounded l c b : Forall (fun x => 0 ≤ x < B16) l → B16 + Z.abs c ≤ b → bounded b (add_head l c).
Proof.
  intros Hl Hb. destruct Hl as [|x l Hx Hl]; [constructor|]. constructor; [lia|].
  eapply Forall_impl; [exact Hl|]. intros y Hy. simpl in *. lia.
Qed.

(** A number whose limbs have been carried: it is below 2^256, and only the lowest
    limb may be a little outside its range. *)
Record reduced (l : list Z) : Prop := {
  rd_length : length l = 16%nat;
  rd_bounded : bounded (2 ^ 17) l;
  rd_value : 0 ≤ val l < 2 ^ 256 }.

Lemma car_value V : eqm (V mod 2 ^ 256 + 38 * (V / 2 ^ 256)) V.
Proof.
  rewrite (Z.div_mod V (2 ^ 256)) at 3 by lia. rewrite eqm_fold. by rewrite Z.add_comm.
Qed.

(** Two passes are enough. *)
Lemma car_twice o : length o = 16%nat → bounded (2 ^ 61) o →
  ∃ o1 o2, car25519 o = Ret o1 ∧ car25519 o1 = Ret o2 ∧ reduced o2 ∧ eqm (val o2) (val o).
Proof.
  intros Hl Hb. pose proof (top_carry o Hl Hb) as Hq. set (V := val o) in *. set (q := V / 2 ^ 256) in *.
  set (o1 := add_head (limbs 16 V) (38 * q)).
  assert (val o1 = V mod 2 ^ 256 + 38 * q) as Hv1 by (unfold o1; by rewrite val_add_head, val_limbs).
  assert (bounded (2 ^ 61) o1) as Hb1 by (apply add_head_bounded; [apply limbs_range|unfold B16; lia]).
  assert (length o1 = 16%nat) as Hl1 by done.
  pose proof (Z.mod_pos_bound V (2 ^ 256)) as Hm. 
  set (q1 := val o1 / 2 ^ 256). assert (-1 ≤ q1 ≤ 1) as Hq1.
  { unfold q1. split; [apply Z.div_le_lower_bound; lia|apply Z.lt_succ_r, Z.div_lt_upper_bound; lia]. }
  exists o1, (add_head (limbs 16 (val o1)) (38 * q1)). split; [by apply car_spec|]. split; [by apply car_spec|].
  assert (val (add_head (limbs 16 (val o1)) (38 * q1)) = val o1 mod 2 ^ 256 + 38 * q1) as Hv2
    by by rewrite val_add_head, val_limbs.
  split; [constructor|].
  - done.
  - apply add_head_bounded; [apply limbs_range|unfold B16; lia].
  - rewrite Hv2. pose proof (Z.div_mod (val o1) (2 ^ 256)). pose proof (Z.mod_pos_bound (val o1) (2 ^ 256)).
    fold q1 in H. lia.
  - rewrite Hv2. unfold q1. rewrite car_value, Hv1. unfold q. apply car_value.
Qed.

(** A third pass brings every limb into its range. *)
Lemma car_reduced o : reduced o → car25519 o = Ret (limbs 16 (val o)).
Proof.
  intros [Hl Hb Hv]. rewrite car_spec; [|done|eapply Forall_impl; [exact Hb|simpl; lia]].
  rewrite (Z.div_small (val o)) by done. cbn [limbs add_head]. by rewrite Z.mul_0_r, Z.add_0_r.
Qed.

(** ** Sums and differences *)

Lemma limbwise_spec op a b c : length a = 16%nat → length b = 16%nat →
  (∀ x y, Z.abs x ≤ c → Z.abs y ≤ c → - 2 ^ 63 ≤ op x y < 2 ^ 63) → bounded c a → bounded c b →
  foldM (limbwise op a b) (seqZ 0 16) a = Ret (zip_with op a b).
Proof.
  intros Ha Hb Hop Hca Hcb.
  destruct (foldM_seqZ (S := gf) (fun i s => s = zip_with op (take (Z.to_nat i) a) (take (Z.to_nat i) b) ++ drop (Z.to_nat i) a)
    (limbwise op a b) 0 16 a) as (s & -> & ->); [lia| | |].
  - change (Z.to_nat 0) with 0%nat. by rewrite drop_0.
  - intros i s Hi ->. destruct (lookup_lt_is_Some_2 a (Z.to_nat i)) as [x Hx]; [lia|].
    destruct (lookup_lt_is_Some_2 b (Z.to_nat i)) as [y Hy]; [lia|]. eexists. split; [|done]. unfold limbwise.
    rewrite (load1_Ret a i x), bind_ret by (done || lia). rewrite (load1_Ret b i y), bind_ret by (done || lia).
    rewrite i64_bind by (apply Hop; [exact (Forall_lookup_1 _ _ _ _ Hca Hx)|exact (Forall_lookup_1 _ _ _ _ Hcb Hy)]).
    rewrite (drop_S _ _ _ Hx), store1_mid by (rewrite length_zip_with, !length_take; lia).
    replace (Z.to_nat (i + 1)) with (S (Z.to_nat i)) by lia.
    rewrite (take_S_r _ _ _ Hx), (take_S_r _ _ _ Hy), zip_with_app by (rewrite !length_take; lia).
    by rewrite <-app_assoc.
  - change (Z.to_nat (0 + 16)) with 16%nat. by rewrite !take_ge, drop_ge, app_nil_r by lia.
Qed.

Lemma val_zip op k a b : (∀ x y u v, op x y + B16 * op u v = op (x + B16 * u) (y + B16 * v)) → op 0 0 = 0 →
  length a = length b → k = op (val a) (val b) → val (zip_with op a b) = k.
Proof.
  intros Hop H0 Hl ->. revert b Hl. induction a as [|x a IH]; intros [|y b] Hl; try done.
  cbn [zip_with val]. by rewrite IH by (simpl in Hl; lia).
Qed.

Lemma bounded_zip op c d a b : (∀ x y, Z.abs x ≤ c → Z.abs y ≤ c → Z.abs (op x y) ≤ d) →
  bounded c a → bounded c b → bounded d (zip_with op a b).
Proof.
  intros Hop Ha. revert b. induction Ha as [|x a Hx Ha IH]; intros [|y b] Hb; simpl; try constructor.
  - apply Forall_cons in Hb as [Hy Hb]. by apply Hop.
  - apply Forall_cons in Hb as [Hy Hb]. by apply IH.
Qed.

(** Operands and results of the additions between two products. *)
Record limbs16 (c : Z) (l : list Z) : Prop := { lb_length : length l = 16%nat; lb_bounded : bounded c l }.

Lemma limbs16_weaken c d l : limbs16 c l → c ≤ d → limbs16 d l.
Proof. intros [Hl Hb] Hd. split; [done|]. eapply Forall_impl; [exact Hb|]. simpl. lia. Qed.

Lemma reduced_limbs l : reduced l → limbs16 (2 ^ 17) l.
Proof. by intros []. Qed.

Lemma A_spec c a b : c ≤ 2 ^ 60 → limbs16 c a → limbs16 c b →
  ∃ o, A a b = Ret o ∧ limbs16 (2 * c) o ∧ val o = val a + val b.
Proof.
  intros Hc [Ha Hba] [Hb Hbb]. exists (zip_with Z.add a b). unfold A.
  rewrite (limbwise_spec Z.add a b c) by (done || lia). split; [done|]. split; [split|].
  - rewrite length_zip_with. lia.
  - eapply bounded_zip; [|done..]. simpl. lia.
  - apply (val_zip Z.add); lia.
Qed.

Lemma Z_spec c a b : c ≤ 2 ^ 60 → limbs16 c a → limbs16 c b →
  ∃ o, Z_ a b = Ret o ∧ limbs16 (2 * c) o ∧ val o = val a - val b.
Proof.
  intros Hc [Ha Hba] [Hb Hbb]. exists (zip_with Z.sub a b). unfold Z_.
  rewrite (limbwise_spec Z.sub a b c) by (done || lia). split; [done|]. split; [split|].
  - rewrite length_zip_with. lia.
  - eapply bounded_zip; [|done..]. simpl. lia.
  - apply (val_zip Z.sub); lia.
Qed.

(** ** Products *)

Lemma val_insert t k x y : t !! k = Some x → val (<[k := y]> t) = val t + B16_pow k * (y - x).
Proof.
  revert k. induction t as [|z t IH]; intros [|k] Hk; simplify_eq/=.
  - change (B16_pow 0) with 1. lia.
  - rewrite (IH k Hk), B16_pow_S. lia.
Qed.

Lemma B16_pow_add i j : B16_pow (i + j) = B16_pow i * B16_pow j.
Proof. unfold B16_pow. rewrite <-Z.pow_add_r by lia. f_equal. lia. Qed.

Lemma val_take_S l i x : l !! i = Some x → val (take (S i) l) = val (take i l) + B16_pow i * x.
Proof.
  intros Hx. assert (i < length l)%nat by by eapply lookup_lt_Some.
  rewrite (take_S_r _ _ _ Hx), val_app, length_take, Nat.min_l by lia. cbn [val]. lia.
Qed.

Section mul.
Context (a b : list Z) (Ha : limbs16 (2 ^ 24) a) (Hb : limbs16 (2 ^ 24) b).
#[local] Set Default Proof Using "Ha Hb".

(** Every place of [t] has had at most one product from each row so far. *)
Definition sums (i j : nat) (t : list Z) : Prop :=
  length t = 31%nat ∧
  ∀ k x, t !! k = Some x → Z.abs x ≤ (if decide (i ≤ k < i + j)%nat then Z.of_nat i + 1 else Z.of_nat i) * 2 ^ 48.

Lemma mul_row_spec i t x : (i < 16)%nat → a !! i = Some x → sums i 0 t →
  ∃ t', mul_row a b t (Z.of_nat i) = Ret t' ∧ sums (S i) 0 t' ∧ val t' = val t + B16_pow i * x * val b.
Proof.
  intros Hi Hx [Hl Ht]. unfold mul_row. destruct Ha as [Hla Hba], Hb as [Hlb Hbb].
  destruct (foldM_seqZ (fun j s => sums i (Z.to_nat j) s ∧ val s = val t + B16_pow i * x * val (take (Z.to_nat j) b))
    (mul_step a b (Z.of_nat i)) 0 16 t) as (t' & -> & [Hl' Ht'] & Hv); [lia| | |].
  - split; [done|]. simpl. lia.
  - intros j s Hj [[Hls Hs] Hv]. destruct (lookup_lt_is_Some_2 b (Z.to_nat j)) as [y Hy]; [lia|].
    destruct (lookup_lt_is_Some_2 s (i + Z.to_nat j)) as [z Hz]; [lia|].
    assert (Z.abs x ≤ 2 ^ 24) as Hxb by exact (Forall_lookup_1 _ _ _ _ Hba Hx).
    assert (Z.abs y ≤ 2 ^ 24) as Hyb by exact (Forall_lookup_1 _ _ _ _ Hbb Hy).
    pose proof (Hs _ _ Hz) as Hzb. rewrite decide_False in Hzb by lia.
    assert (Z.abs (x * y) ≤ 2 ^ 48) as Hxy by (rewrite Z.abs_mul; nia).
    unfold mul_step. rewrite (load1_Ret a _ x), bind_ret by (rewrite ?Nat2Z.id; done || lia).
    rewrite (load1_Ret b j y), bind_ret by (done || lia). i64_step.
    replace (Z.of_nat i + j) with (Z.of_nat (i + Z.to_nat j)) by lia.
    rewrite (load1_Ret s _ z), bind_ret by (rewrite ?Nat2Z.id; done || lia). i64_step.
    rewrite store1_Ret by lia. rewrite Nat2Z.id. eexists. split; [done|].
    replace (Z.to_nat (j + 1)) with (S (Z.to_nat j)) by lia. split; [split|].
    + by rewrite length_insert.
    + intros k w Hk. destruct (decide (k = i + Z.to_nat j)%nat) as [->|Hne].
      * rewrite list_lookup_insert_eq in Hk by lia. injection Hk as <-. rewrite decide_True by lia. lia.
      * rewrite list_lookup_insert_ne in Hk by done. specialize (Hs k w Hk). repeat case_decide; lia.
    + rewrite (val_insert _ _ z _ Hz), Hv, (val_take_S _ _ _ Hy), B16_pow_add. lia.
  - exists t'. split; [done|]. split; [split; [done|]|].
    + intros k w Hk. specialize (Ht' k w Hk). repeat case_decide; lia.
    + rewrite Hv. change (Z.to_nat (0 + 16)) with 16%nat. by rewrite take_ge by lia.
Qed.

Lemma mul_spec : ∃ t, foldM (mul_row a b) (seqZ 0 16) (replicate 31 0) = Ret t ∧ sums 16 0 t ∧ val t = val a * val b.
Proof.
  destruct Ha as [Hla Hba].
  destruct (foldM_seqZ (fun i t => sums (Z.to_nat i) 0 t ∧ val t = val (take (Z.to_nat i) a) * val b)
    (mul_row a b) 0 16 (replicate 31 0)) as (t & E & Hs & Hv); [lia| | |].
  - split; [|done]. split; [done|]. intros k x Hk. apply lookup_replicate in Hk as [-> _]. change (Z.to_nat 0) with 0%nat. case_decide; lia.
  - intros i t Hi [Hs Hv]. destruct (lookup_lt_is_Some_2 a (Z.to_nat i)) as [x Hx]; [lia|].
    destruct (mul_row_spec (Z.to_nat i) t x ltac:(lia) Hx Hs) as (t' & E & Hs' & Hv').
    rewrite Z2Nat.id in E by lia. exists t'. split; [done|].
    replace (Z.to_nat (i + 1)) with (S (Z.to_nat i)) by lia. split; [done|].
    rewrite Hv', Hv, (val_take_S _ _ _ Hx). lia.
  - exists t. split; [done|]. split; [done|]. change (Z.to_nat (0 + 16)) with 16%nat in Hv. by rewrite take_ge in Hv by lia.
Qed.

(** The upper limbs, 38 times, onto the lower ones. *)
Lemma fold_spec t : sums 16 0 t →
  ∃ t', foldM fold_step (seqZ 0 15) t = Ret t' ∧ length t' = 31%nat ∧ bounded (39 * 2 ^ 52) (take 16 t') ∧
    eqm (val (take 16 t')) (val t).
Proof.
  intros [Hl Ht].
  assert (∀ k x, t !! k = Some x → Z.abs x ≤ 2 ^ 52) as Htb by (intros k x Hk; specialize (Ht k x Hk); case_decide; lia).
  destruct (foldM_seqZ (fun i s => length s = 31%nat ∧ drop 16 s = drop 16 t ∧
      val (take 16 s) = val (take 16 t) + 38 * val (take (Z.to_nat i) (drop 16 t)) ∧
      ∀ k x, s !! k = Some x → Z.abs x ≤ (if decide (k < Z.to_nat i)%nat then 39 else 1) * 2 ^ 52)
    fold_step 0 15 t) as (t' & -> & Hl' & Hd & Hv & Hb'); [lia| | |].
  - split_and!; [done..|simpl; lia|]. intros k x Hk. specialize (Htb k x Hk). case_decide; lia.
  - intros i s Hi (Hls & Hd & Hv & Hs).
    destruct (lookup_lt_is_Some_2 t (16 + Z.to_nat i)) as [h Hh]; [lia|].
    assert (s !! (16 + Z.to_nat i)%nat = Some h) as Hh' by (rewrite <-lookup_drop, Hd, lookup_drop; done).
    destruct (lookup_lt_is_Some_2 s (Z.to_nat i)) as [z Hz]; [lia|].
    pose proof (Htb _ _ Hh) as Hhb. pose proof (Hs _ _ Hz) as Hzb. rewrite decide_False in Hzb by lia.
    unfold fold_step. rewrite (load1_Ret s (i + 16) h), bind_ret; [|lia|by replace (Z.to_nat (i + 16)) with (16 + Z.to_nat i)%nat by lia].
    i64_step. rewrite (load1_Ret s i z), bind_ret by (done || lia). i64_step. rewrite store1_Ret by lia.
    eexists. split; [done|]. replace (Z.to_nat (i + 1)) with (S (Z.to_nat i)) by lia. split_and!.
    + by rewrite length_insert.
    + by rewrite drop_insert_lt by lia.
    + rewrite take_insert_lt by lia. rewrite (val_insert _ _ z) by (rewrite lookup_take_lt by lia; done).
      rewrite Hv, (val_take_S (drop 16 t) (Z.to_nat i) h) by (by rewrite lookup_drop). lia.
    + intros k w Hk. destruct (decide (k = Z.to_nat i)) as [->|Hne].
      * rewrite list_lookup_insert_eq in Hk by lia. injection Hk as <-. rewrite decide_True by lia. lia.
      * rewrite list_lookup_insert_ne in Hk by done. specialize (Hs k w Hk). repeat case_decide; lia.
  - exists t'. split_and!; [done..| |].
    + apply Forall_take, Forall_lookup. intros k x Hk. specialize (Hb' k x Hk). simpl. case_decide; lia.
    + rewrite Hv, (take_ge (drop 16 t)) by (rewrite length_drop; simpl; lia).
      rewrite <-(take_drop 16 t) at 3. rewrite val_app, length_take, Nat.min_l by lia.
      change (B16_pow 16) with (2 ^ 256). rewrite (Z.add_comm _ (2 ^ 256 * _)), eqm_fold. by rewrite Z.add_comm.
Qed.

Lemma M_product : ∃ o, M a b = Ret o ∧ reduced o ∧ eqm (val o) (val a * val b).
Proof.
  destruct mul_spec as (t & Et & Hs & Hv). destruct (fold_spec t Hs) as (t' & Ef & Hl & Hbt & Hv').
  unfold M. rewrite Et, bind_ret, Ef, bind_ret, load_bytes_Ret, bind_ret by lia.
  change (Z.to_nat 0) with 0%nat. rewrite drop_0. change (Z.to_nat 16) with 16%nat.
  destruct (car_twice (take 16 t')) as (o1 & o2 & -> & E2 & Hr & He).
  - rewrite length_take. lia.
  - eapply Forall_impl; [exact Hbt|]. simpl. lia.
  - rewrite bind_ret. exists o2. split; [done|]. split; [done|]. by rewrite He, Hv', Hv.
Qed.
End mul.

(** ** Powers *)

(** The exponent that the steps [l] reach from [e]. *)
Definition exponent (skip : Z → bool) (l : list Z) (e : Z) : Z :=
  foldl (fun e a => if skip a then 2 * e else 2 * e + 1) e l.

Lemma reduced_limbs24 l : reduced l → limbs16 (2 ^ 24) l.
Proof. intros H%reduced_limbs. eapply limbs16_weaken; [done|lia]. Qed.

Lemma pow_spec skip i l : limbs16 (2 ^ 24) i → ∀ c e, reduced c → 0 ≤ e → eqm (val c) (val i ^ e) →
  ∃ c', foldM (pow_step skip i) l c = Ret c' ∧ reduced c' ∧ eqm (val c') (val i ^ exponent skip l e).
Proof.
  intros Hi. induction l as [|a l IH]; intros c e Hc He Hv; [by exists c|]. cbn [foldM]. unfold pow_step, S_.
  pose proof (reduced_limbs24 c Hc) as Hc'.
  destruct (M_product c c Hc' Hc') as (c1 & -> & Hc1 & Hv1). rewrite bind_ret.
  assert (eqm (val c1) (val i ^ (2 * e))) as Hv1'.
  { rewrite Hv1, Hv, <-Z.pow_add_r by lia. by replace (e + e) with (2 * e) by lia. }
  cbn [exponent foldl]. destruct (skip a); [rewrite bind_ret; apply IH; [done|lia|done]|].
  destruct (M_product c1 i (reduced_limbs24 c1 Hc1) Hi) as (c2 & -> & Hc2 & Hv2). rewrite bind_ret.
  apply IH; [done|lia|]. rewrite Hv2, Hv1', Z.pow_add_r, Z.pow_1_r by lia. done.
Qed.

(** The first step also serves a number that is not reduced. *)
Lemma pow_all skip i a l : limbs16 (2 ^ 24) i →
  ∃ c, foldM (pow_step skip i) (a :: l) i = Ret c ∧ reduced c ∧ eqm (val c) (val i ^ exponent skip (a :: l) 1).
Proof.
  intros Hi. cbn [foldM]. change (pow_step skip i i a) with (c ← M i i; if skip a then Ret c else M c i).
  destruct (M_product i i Hi Hi) as (c1 & -> & Hc1 & Hv1). rewrite bind_ret.
  assert (eqm (val c1) (val i ^ 2)) as Hv1' by (rewrite Hv1; by replace (val i ^ 2) with (val i * val i) by lia).
  unfold exponent. cbn [foldl]. destruct (skip a); [rewrite bind_ret; by apply pow_spec|].
  destruct (M_product c1 i (reduced_limbs24 c1 Hc1) Hi) as (c2 & -> & Hc2 & Hv2). rewrite bind_ret.
  apply pow_spec; [done..|]. rewrite Hv2, Hv1'. change (2 * 1 + 1) with (2 + 1). by rewrite Z.pow_add_r, Z.pow_1_r.
Qed.

Lemma inv_spec i : limbs16 (2 ^ 24) i →
  ∃ o, inv25519 i = Ret o ∧ reduced o ∧ eqm (val o) (val i ^ (P25519 - 2)).
Proof.
  intros Hi. unfold inv25519. set (skip := fun a => (a =? 2) || (a =? 4)).
  replace (P25519 - 2) with (exponent skip (rev (seqZ 0 254)) 1) by (vm_compute; reflexivity).
  change (rev (seqZ 0 254)) with (253 :: rev (seqZ 0 253)). by apply pow_all.
Qed.

Lemma pow2523_spec i : limbs16 (2 ^ 24) i →
  ∃ o, pow2523 i = Ret o ∧ reduced o ∧ eqm (val o) (val i ^ (2 ^ 252 - 3)).
Proof.
  intros Hi. unfold pow2523. set (skip := fun a => a =? 1).
  replace (2 ^ 252 - 3) with (exponent skip (rev (seqZ 0 251)) 1) by (vm_compute; reflexivity).
  change (rev (seqZ 0 251)) with (250 :: rev (seqZ 0 250)). by apply pow_all.
Qed.
