(* ===== verification/Field25519Pack.v ===== *)
(** * Arithmetic modulo 2^255 - 19: selection, unpacking and packing *)

From S2P Require Import Prelude Ring Words Bytes Field25519 Field25519Props.


(** ** Selection *)

Lemma sel_spec (p q : gf) b : length p = 16%nat → length q = 16%nat → b = 0 ∨ b = 1 →
  sel25519 p q b = Ret (if b =? 1 then (q, p) else (p, q)).
Proof.
  intros Hp Hq Hb. unfold sel25519.
  assert (Z.lnot (b - 1) = if b =? 1 then -1 else 0) as -> by by destruct Hb as [->| ->].
  destruct (foldM_seqZ (S := gf * gf) (fun i s => s = if b =? 1
      then (take (Z.to_nat i) q ++ drop (Z.to_nat i) p, take (Z.to_nat i) p ++ drop (Z.to_nat i) q) else (p, q))
    (sel_step (if b =? 1 then -1 else 0)) 0 16 (p, q)) as (s & -> & ->); [lia| | |].
  - change (Z.to_nat 0) with 0%nat. rewrite !take_0, !drop_0. by destruct (b =? 1).
  - intros i s Hi ->. destruct (lookup_lt_is_Some_2 p (Z.to_nat i)) as [x Hx]; [lia|].
    destruct (lookup_lt_is_Some_2 q (Z.to_nat i)) as [y Hy]; [lia|]. eexists. split; [|done].
    replace (Z.to_nat (i + 1)) with (S (Z.to_nat i)) by lia. unfold sel_step. destruct (b =? 1).
    + rewrite (drop_S p _ _ Hx), (drop_S q _ _ Hy), !load1_mid, !bind_ret by (rewrite length_take; lia).
      rewrite Z.land_m1_l, !store1_mid, !bind_ret by (rewrite length_take; lia).
      rewrite <-Z.lxor_assoc, Z.lxor_nilpotent, Z.lxor_0_l, (Z.lxor_comm x y), <-Z.lxor_assoc, Z.lxor_nilpotent, Z.lxor_0_l.
      rewrite (take_S_r p _ _ Hx), (take_S_r q _ _ Hy), <-!app_assoc. done.
    + rewrite (load1_Ret p i x), bind_ret, (load1_Ret q i y), bind_ret by (done || lia). cbv zeta.
      rewrite Z.land_0_l, !Z.lxor_0_r, !store1_Ret, !bind_ret by lia.
      by rewrite !list_insert_id by done.
  - change (Z.to_nat (0 + 16)) with 16%nat. rewrite !take_ge, !drop_ge, !app_nil_r by lia. done.
Qed.

(** ** Unpacking *)

Lemma le_value_take n (l : list Z) : (n + n ≤ length l)%nat →
  ∀ x y, l !! (n + n)%nat = Some x → l !! (n + n + 1)%nat = Some y →
  le_value (take (n + n + 2) l) = le_value (take (n + n) l) + B16_pow n * (x + 256 * y).
Proof.
  intros Hn x y Hx Hy. replace (n + n + 2)%nat with (S (S (n + n))) by lia.
  rewrite (take_S_r _ _ y) by (by replace (S (n + n)) with (n + n + 1)%nat by lia). rewrite (take_S_r _ _ x) by done.
  rewrite !le_value_app, !length_app, length_take, Nat.min_l by lia. simpl (length [x]). cbn [le_value].
  assert (256 ^ Z.of_nat (n + n) = B16_pow n) as Hpow.
  { unfold B16_pow. change 256 with (2 ^ 8). rewrite <-Z.pow_mul_r by lia. f_equal. lia. }
  rewrite (Nat2Z.inj_add (n + n) 1), Z.pow_add_r, Hpow by lia. change (256 ^ Z.of_nat 1) with 256. lia.
Qed.

Lemma unpack_spec n : length n = 32%nat → Forall is_byte n →
  ∃ o, unpack25519 n = Ret o ∧ limbs16 (2 ^ 17) o ∧ val o = le_value n mod 2 ^ 255.
Proof.
  intros Hl Hn. unfold unpack25519.
  destruct (foldM_seqZ (S := gf) (fun i s => ∃ p, s = p ++ drop (Z.to_nat i) gf0 ∧ length p = Z.to_nat i ∧
      Forall (fun x => 0 ≤ x < B16) p ∧ val p = le_value (take (Z.to_nat i + Z.to_nat i) n))
    (unpack_limb n) 0 16 gf0) as (s & -> & p & -> & Hp & Hr & Hv); [lia| | |].
  - by exists [].
  - intros i s Hi (p & -> & Hp & Hr & Hv).
    destruct (lookup_lt_is_Some_2 n (Z.to_nat i + Z.to_nat i)) as [x Hx]; [lia|].
    destruct (lookup_lt_is_Some_2 n (Z.to_nat i + Z.to_nat i + 1)) as [y Hy]; [lia|].
    pose proof (Forall_lookup_1 _ _ _ _ Hn Hx) as Hxb. pose proof (Forall_lookup_1 _ _ _ _ Hn Hy) as Hyb. unfold is_byte in *.
    assert (gf0 !! Z.to_nat i = Some 0) as H0 by (apply lookup_replicate_2; lia).
    unfold unpack_limb. rewrite (load1_Ret n (2 * i) x), bind_ret;
      [|lia|by replace (Z.to_nat (2 * i)) with (Z.to_nat i + Z.to_nat i)%nat by lia].
    rewrite (load1_Ret n (2 * i + 1) y), bind_ret;
      [|lia|by replace (Z.to_nat (2 * i + 1)) with (Z.to_nat i + Z.to_nat i + 1)%nat by lia].
    rewrite (drop_S _ _ _ H0), store1_mid by lia. eexists. split; [done|].
    replace (Z.to_nat (i + 1)) with (S (Z.to_nat i)) by lia. exists (p ++ [x + Z.shiftl y 8]).
    rewrite Z.shiftl_mul_pow2 by lia. split_and!; [by rewrite <-app_assoc|rewrite length_app; simpl; lia| |].
    + apply Forall_app. split; [done|]. apply Forall_singleton. unfold B16. lia.
    + rewrite val_app, Hp, Hv. cbn [val]. replace (S (Z.to_nat i) + S (Z.to_nat i))%nat with (Z.to_nat i + Z.to_nat i + 2)%nat by lia.
      rewrite (le_value_take (Z.to_nat i) n ltac:(lia) _ _ Hx Hy). lia.
  - change (Z.to_nat (0 + 16)) with 16%nat in *. rewrite bind_ret, drop_ge, app_nil_r by done.
    rewrite take_ge in Hv by lia. destruct (lookup_lt_is_Some_2 p 15) as [h Hh]; [lia|].
    rewrite (load1_Ret p 15 h), bind_ret by done. rewrite store1_Ret by lia. change (Z.to_nat 15) with 15%nat.
    assert (0 ≤ h < B16) as Hhb by exact (Forall_lookup_1 _ _ _ _ Hr Hh). unfold B16 in Hhb.
    assert (Z.land h 0x7fff = h mod 2 ^ 15) as Hland by (by rewrite <-Z.land_ones by lia).
    pose proof (Z.mod_pos_bound h (2 ^ 15)) as Hm.
    eexists. split; [done|]. split; [split|].
    + by rewrite length_insert.
    + rewrite Hland. apply Forall_insert; [|simpl; lia].
      eapply Forall_impl; [exact Hr|]. unfold B16. simpl. lia.
    + rewrite (val_insert _ _ h) by done. rewrite Hland, <-Hv.
      rewrite <-(take_drop_middle p 15 h Hh) at 1 2. rewrite (drop_ge p 16) by lia. rewrite !val_app, length_take, Nat.min_l by lia.
      pose proof (val_range (take 15 p) (Forall_take _ _ _ Hr)) as Hlow. rewrite length_take, Nat.min_l in Hlow by lia.
      change (B16_pow 15) with (2 ^ 240) in *. cbn [val]. pose proof (Z.div_mod h (2 ^ 15)).
      apply (Z.mod_unique _ _ (h / 2 ^ 15)); lia.
Qed.

(** ** Packing *)

Definition plimbs : list Z := 0xffed :: replicate 14 0xffff ++ [0x7fff].

Lemma limbs_lookup n v i : (i < n)%nat → ∃ x, limbs n v !! i = Some x ∧ 0 ≤ x < B16.
Proof.
  intros Hi. destruct (lookup_lt_is_Some_2 (limbs n v) i) as [x Hx]; [by rewrite limbs_length|].
  exists x. split; [done|]. exact (Forall_lookup_1 _ _ _ _ (limbs_range n v) Hx).
Qed.

Lemma plimbs_middle i : (i < 14)%nat → plimbs !! S i = Some 0xffff.
Proof.
  intros Hi. change (plimbs !! S i) with ((replicate 14 0xffff ++ [0x7fff]) !! i).
  rewrite lookup_app_l by (rewrite length_replicate; lia). by apply lookup_replicate_2.
Qed.

Section subtract.
Context (T : Z) (HT : 0 ≤ T < 2 ^ 256).
#[local] Set Default Proof Using "HT".

(** The differences of the limbs; their carries are the borrows. *)
Definition diff : list Z := zip_with Z.sub (limbs 16 T) plimbs.

Lemma diff_val : val diff = T - P25519.
Proof.
  unfold diff. apply (val_zip Z.sub); [intros; lia|done|by rewrite limbs_length|].
  by rewrite val_limbs, Z.mod_small by done.
Qed.

Lemma diff_lookup i : (i < 16)%nat → ∃ x t p, diff !! i = Some x ∧ limbs 16 T !! i = Some t ∧ plimbs !! i = Some p ∧
  x = t - p ∧ Z.abs x < B16.
Proof using Type.
  intros Hi. destruct (limbs_lookup 16 T i Hi) as (t & Ht & Hr).
  assert (∃ p, plimbs !! i = Some p ∧ 0 ≤ p < B16) as (p & Hp & Hpr).
  { destruct (lookup_lt_is_Some_2 plimbs i) as [p Hp]; [done|]. exists p. split; [done|].
    assert (Forall (fun x => 0 ≤ x < B16) plimbs) as HF by (repeat constructor; done).
    exact (Forall_lookup_1 _ _ _ _ HF Hp). }
  exists (t - p), t, p. split_and!; [|done..|lia]. unfold diff. by rewrite lookup_zip_with, Ht; simpl; rewrite Hp.
Qed.

Lemma diff_ok : length diff = 16%nat ∧ bounded (2 ^ 61) diff.
Proof using Type.
  split; [done|]. apply Forall_lookup. intros i x Hx. assert (i < 16)%nat by by apply lookup_lt_Some in Hx.
  destruct (diff_lookup i) as (y & t & p & Hy & _ & _ & _ & Hb); [done|]. rewrite Hy in Hx. injection Hx as <-. unfold B16 in Hb. simpl. lia.
Qed.

Lemma borrow_range i : (i ≤ 16)%nat → carry diff i = -1 ∨ carry diff i = 0.
Proof using Type.
  induction i as [|i IH]; intros Hi; [by right|]. destruct (diff_lookup i) as (x & t & p & Hx & _ & _ & _ & Hb); [lia|].
  rewrite (carry_S diff (proj1 diff_ok) (proj2 diff_ok) i x Hx). unfold B16 in *.
  assert (-1 ≤ (x + carry diff i) / 2 ^ 16 < 1); [|lia]. destruct IH as [-> | ->]; [lia| |];
    (split; [apply Z.div_le_lower_bound; lia|apply Z.div_lt_upper_bound; lia]).
Qed.

(** A borrow as the code computes it. *)
Lemma borrow_bit i x : (i < 16)%nat → diff !! i = Some x →
  Z.land (Z.shiftr (x + carry diff i) 16) 1 = - carry diff (S i).
Proof using Type.
  intros Hi Hx. rewrite Z.shiftr_div_pow2 by lia. change (2 ^ 16) with B16.
  rewrite <-(carry_S diff (proj1 diff_ok) (proj2 diff_ok) i x Hx).
  destruct (borrow_range (S i)) as [-> | ->]; [lia|done|done].
Qed.

(** [m] after the limb [i] has been subtracted and the limbs below have been cut. *)
Definition subtracted (i : nat) (m : list Z) : Prop :=
  ∃ x r, diff !! i = Some x ∧ m = limbs i (val (take i diff)) ++ (x + carry diff i) :: r ∧ length r = (15 - i)%nat.

Lemma mask16 v : Z.land v 0xffff = v mod B16.
Proof using Type. change 0xffff with (Z.ones 16). by rewrite Z.land_ones. Qed.

Lemma sub_step_spec m i : (i < 14)%nat → subtracted i m →
  ∃ m', sub_step (limbs 16 T) m (Z.of_nat (S i)) = Ret m' ∧ subtracted (S i) m'.
Proof using Type.
  intros Hi (x & r & Hx & -> & Hr). destruct r as [|y r]; [simpl in Hr; lia|].
  destruct (diff_lookup (S i)) as (z & t & p & Hz & Ht & Hp & Ez & Hzb); [lia|]. unfold B16 in Hzb.
  rewrite plimbs_middle in Hp by done. injection Hp as <-.
  assert (Z.of_nat (length (limbs i (val (take i diff)))) = Z.of_nat i) as Hl by by rewrite limbs_length.
  unfold sub_step. rewrite (load1_Ret (limbs 16 T) _ t), bind_ret by (rewrite ?Nat2Z.id; done || lia).
  replace (Z.of_nat (S i) - 1) with (Z.of_nat i) by lia. rewrite load1_mid, bind_ret by done.
  rewrite (borrow_bit i x) by (done || lia). pose proof (borrow_range (S i) ltac:(lia)) as Hbr.
  i64_step. replace (Z.of_nat (S i)) with (Z.of_nat i + 1) by lia. rewrite store1_next, bind_ret, store1_mid by done.
  eexists. split; [done|]. exists z, r. split; [done|]. split; [|simpl in Hr; lia].
  rewrite (low_limbs diff (proj1 diff_ok) (proj2 diff_ok) i x Hx), <-app_assoc, mask16. cbn [app]. do 3 f_equal. lia.
Qed.

(** The last borrow tells whether [T] is smaller than [P25519]. *)
Lemma last_borrow : carry diff 16 = if T <? P25519 then -1 else 0.
Proof.
  unfold carry. rewrite take_ge, diff_val by done. change (B16_pow 16) with (2 ^ 256). unfold P25519.
  destruct (Z.ltb_spec T (2 ^ 255 - 19)); [|apply Z.div_small; lia].
  symmetry. apply (Z.div_unique _ _ _ (T - (2 ^ 255 - 19) + 2 ^ 256)); lia.
Qed.

Lemma select_smaller z : diff !! 15%nat = Some z →
  ∃ m', ('(t, m) ← sel25519 (limbs 16 T) (limbs 15 (val (take 15 diff)) ++ [z + carry diff 15]) (1 - - carry diff 16);
         Ret (m, t)) = Ret (m', limbs 16 (if T <? P25519 then T else T - P25519)) ∧ length m' = 16%nat.
Proof.
  intros Hz. pose proof (carry_S diff (proj1 diff_ok) (proj2 diff_ok) 15 z Hz) as Hc. rewrite last_borrow in *.
  rewrite sel_spec; [|by rewrite limbs_length|by rewrite length_app, limbs_length|by destruct (T <? P25519); auto].
  rewrite bind_ret. destruct (T <? P25519).
  { change (1 - - -1 =? 1) with false. cbv iota. eexists. split; [done|]. by rewrite length_app, limbs_length. }
  change (1 - - 0 =? 1) with true. cbv iota. eexists. split; [|by rewrite limbs_length]. do 2 f_equal.
  rewrite <-diff_val. replace (val diff) with (val (take 16 diff)) by by rewrite take_ge.
  rewrite (low_limbs diff (proj1 diff_ok) (proj2 diff_ok) 15 z Hz). do 2 f_equal.
  pose proof (Z.div_mod (z + carry diff 15) B16 ltac:(done)) as Hdm. rewrite <-Hc in Hdm. lia.
Qed.

(** One conditional subtraction of [P25519]. *)
Lemma pack_step_spec m j : length m = 16%nat →
  ∃ m' : gf, pack_step (@pair gf gf m (limbs 16 T)) j = Ret (@pair gf gf m' (limbs 16 (if T <? P25519 then T else T - P25519))) ∧
    length m' = 16%nat.
Proof.
  intros Hm. unfold pack_step. destruct m as [|m0 m]; [done|].
  destruct (diff_lookup 0) as (x0 & t0 & p0 & Hx0 & Ht0 & Hp0 & E0 & Hb0); [lia|]. injection Hp0 as <-. unfold B16 in Hb0.
  rewrite (load1_Ret (limbs 16 T) 0 t0), bind_ret by done. i64_step. rewrite store1_head, bind_ret.
  destruct (foldM_seqZ (S := gf) (fun i s => subtracted (Z.to_nat (i - 1)) s) (sub_step (limbs 16 T)) 1 14 (t0 - 0xffed :: m))
    as (m' & -> & x & r & Hx & -> & Hr); [lia| | |].
  - exists x0, m. split; [done|]. split; [|simpl in *; lia]. simpl. f_equal. rewrite E0. by rewrite Z.add_0_r.
  - intros i s Hi Hs. destruct (sub_step_spec s (Z.to_nat (i - 1))) as (s' & E & Hs'); [lia|done|].
    replace (Z.of_nat (S (Z.to_nat (i - 1)))) with i in E by lia. exists s'. split; [done|].
    by replace (Z.to_nat (i + 1 - 1)) with (S (Z.to_nat (i - 1))) by lia.
  - change (Z.to_nat (1 + 14 - 1)) with 14%nat in *. destruct r as [|y [|]]; [done| |done]. clear Hx0 Ht0 E0 Hb0 x0 t0 Hm.
    destruct (diff_lookup 15) as (z & t & p & Hz & Ht & Hp & Ez & Hb); [lia|]. injection Hp as <-. unfold B16 in Hb.
    assert (Z.of_nat (length (limbs 14 (val (take 14 diff)))) = 14) as Hl by by rewrite limbs_length.
    rewrite bind_ret, (load1_Ret (limbs 16 T) 15 t), bind_ret, load1_mid, bind_ret by done.
    rewrite (borrow_bit 14 x) by (done || lia). pose proof (borrow_range 15 ltac:(lia)) as Hbr.
    i64_step. change 15 with (14 + 1) at 1. rewrite store1_next, bind_ret, store1_mid, bind_ret, mask16 by done.
    replace (t - 32767 - - carry diff 15) with (z + carry diff 15) by lia. rewrite (borrow_bit 15 z) by (done || lia).
    change (limbs 14 (val (take 14 diff)) ++ [(x + carry diff 14) mod B16; z + carry diff 15])
      with (limbs 14 (val (take 14 diff)) ++ [(x + carry diff 14) mod B16] ++ [z + carry diff 15]).
    rewrite app_assoc, <-(low_limbs diff (proj1 diff_ok) (proj2 diff_ok) 14 x Hx). by apply select_smaller.
Qed.
End subtract.

Lemma limbs_nth n v i : (i < n)%nat → limbs n v !! i = Some ((v / B16_pow i) mod B16).
Proof.
  revert v i. induction n as [|n IH]; intros v i Hi; [lia|]. destruct i as [|i]; cbn [limbs lookup list_lookup].
  - change (B16_pow 0) with 1. by rewrite Z.div_1_r.
  - change (limbs n (v / B16) !! i = Some ((v / B16_pow (S i)) mod B16)). rewrite IH by lia.
    pose proof (B16_pow_pos i). rewrite Z.div_div by (unfold B16; lia). by rewrite B16_pow_S.
Qed.

Lemma pack_bytes V o : length o = 32%nat → foldM (pack_byte (limbs 16 V)) (seqZ 0 16) o = Ret (le_bytes 32 V).
Proof.
  intros Hl. destruct (foldM_seqZ (fun i s => s = le_bytes (Z.to_nat (2 * i)) V ++ drop (Z.to_nat (2 * i)) o)
    (pack_byte (limbs 16 V)) 0 16 o) as (s & -> & ->); [lia|done| |].
  - intros i s Hi ->. eexists. split; [|done]. unfold pack_byte.
    rewrite (load1_Ret _ i _) by (try apply limbs_nth; lia). rewrite bind_ret.
    destruct (lookup_lt_is_Some_2 o (Z.to_nat (2 * i))) as [x Hx]; [lia|].
    destruct (lookup_lt_is_Some_2 o (S (Z.to_nat (2 * i)))) as [y Hy]; [lia|].
    rewrite (drop_S _ _ _ Hx), (drop_S _ _ _ Hy).
    assert (Z.of_nat (length (le_bytes (Z.to_nat (2 * i)) V)) = 2 * i) as Hlb by (rewrite le_bytes_length; lia).
    rewrite store1_mid, bind_ret, store1_next by done. replace (Z.to_nat (2 * (i + 1))) with (Z.to_nat (2 * i) + 2)%nat by lia.
    rewrite le_bytes_app, <-app_assoc. cbn [le_bytes app]. replace (Z.to_nat (2 * i) + 2)%nat with (S (S (Z.to_nat (2 * i)))) by lia.
    assert (256 ^ Z.of_nat (Z.to_nat (2 * i)) = B16_pow (Z.to_nat i)) as ->.
    { unfold B16_pow. change 256 with (2 ^ 8). rewrite <-Z.pow_mul_r by lia. f_equal. lia. }
    set (w := V / B16_pow (Z.to_nat i)). change (Z.land (w mod B16) 0xff) with (Z.land (w mod B16) (Z.ones 8)).
    rewrite Z.land_ones, Z.shiftr_div_pow2 by lia. change (2 ^ 8) with 256. unfold B16.
    change (2 ^ 16) with 65536. clearbody w. clear.
    do 3 f_equal; [|f_equal]; Z.div_mod_to_equations; lia.
  - change (Z.to_nat (2 * (0 + 16))) with 32%nat. by rewrite drop_ge, app_nil_r by lia.
Qed.

Lemma mod_two_steps T : 0 ≤ T < 2 ^ 256 →
  let T1 := if T <? P25519 then T else T - P25519 in
  0 ≤ T1 < 2 ^ 256 ∧ (if T1 <? P25519 then T1 else T1 - P25519) = T mod P25519.
Proof.
  intros HT. cbv zeta. unfold P25519 in *. split; [destruct (_ <? _) eqn:E; lia|].
  destruct (Z.ltb_spec T (2 ^ 255 - 19)).
  - destruct (Z.ltb_spec T (2 ^ 255 - 19)); [|lia]. by rewrite Z.mod_small by lia.
  - destruct (Z.ltb_spec (T - (2 ^ 255 - 19)) (2 ^ 255 - 19)).
    + apply (Z.mod_unique _ _ 1); lia.
    + apply (Z.mod_unique _ _ 2); lia.
Qed.

Lemma pack_spec m0 o n : length m0 = 16%nat → length o = 32%nat → limbs16 (2 ^ 61) n →
  pack25519 m0 o n = Ret (le_bytes 32 (val n mod P25519)).
Proof.
  intros Hm Ho [Hl Hb]. destruct (car_twice n Hl Hb) as (o1 & o2 & E1 & E2 & Hr & He).
  unfold pack25519. rewrite E1, bind_ret, E2, bind_ret, (car_reduced o2 Hr), bind_ret.
  destruct (mod_two_steps (val o2) (rd_value _ Hr)) as [H1 Hmod]. set (T := val o2) in *.
  destruct (pack_step_spec T (rd_value _ Hr) m0 0 Hm) as (m1 & Es1 & Hm1).
  destruct (pack_step_spec _ H1 m1 1 Hm1) as (m2 & Es2 & Hm2).
  change (seqZ 0 2) with [0; 1]. cbn [foldM]. rewrite Es1, bind_ret, Es2, !bind_ret. rewrite Hmod, pack_bytes by done.
  unfold T, eqm in *. by rewrite He.
Qed.
