(* ===== verification/X25519.v ===== *)
(** * Key agreement on Curve25519: [crypto_scalarmult] of src/lib/tweetnacl.c

    The Montgomery ladder on limbs computes the function X25519 of RFC 7748.  The
    arrays of the static workspace are overwritten before they are read; what they hold
    before, where it matters at all, is an argument. *)

From Stdlib Require Import Zpow_facts.
From S2P Require Import Prelude Ring Words Bytes Field25519 Field25519Props Field25519Pack.

(** ** The code *)

(** The arithmetic of a step. *)
Definition ladder_body (x a b c d : gf) : outcome (gf * gf * gf * gf) :=
  e ← A a c;
  a ← Z_ a c;
  c ← A b d;
  b ← Z_ b d;
  d ← S_ e;
  f ← S_ a;
  a ← M c a;
  c ← M b e;
  e ← A a c;
  a ← Z_ a c;
  b ← S_ a;
  c ← Z_ d f;
  a ← M c c_121665;
  a ← A a d;
  c ← M c a;
  a ← M d f;
  d ← M b x;
  b ← S_ e;
  Ret (a, b, c, d).

Definition ladder_step (z : list Z) (x : gf) (s : gf * gf * gf * gf) (i : Z) : outcome (gf * gf * gf * gf) :=
  let '(a, b, c, d) := s in
  zi ← load1 z (Z.shiftr i 3);
  let r := Z.land (Z.shiftr zi (Z.land i 7)) 1 in
  '(a, b) ← sel25519 a b r;
  '(c, d) ← sel25519 c d r;
  '(a, b, c, d) ← ladder_body x a b c d;
  '(a, b) ← sel25519 a b r;
  '(c, d) ← sel25519 c d r;
  Ret (a, b, c, d).

(** The copy of the scalar with its fixed bits set. *)
Definition clamp_scalar (n : list Z) : outcome (list Z) :=
  low ← load_bytes n 0 31;
  n31 ← load1 n 31;
  let z := low ++ [Z.lor (Z.land n31 127) 64] in
  z0 ← load1 z 0;
  store1 z 0 (Z.land z0 248).

(** [m0] is what the workspace of [pack25519] holds, [q] the buffer of the result. *)
Definition crypto_scalarmult (m0 : gf) (q n p : list Z) : outcome (Z * list Z) :=
  z ← clamp_scalar n;
  x ← unpack25519 p;
  '(a, _, c, _) ← foldM (ladder_step z x) (rev (seqZ 0 255)) (gf1, x, gf0, gf1);
  x32 ← inv25519 c;
  x16 ← M a x32;
  q ← pack25519 m0 q x16;
  Ret (0, q).

Definition nine : list Z := 9 :: replicate 31 0.
Definition crypto_scalarmult_base (m0 : gf) (q n : list Z) : outcome (Z * list Z) := crypto_scalarmult m0 q n nine.

(** ** RFC 7748 *)

Definition decode_scalar (k : list Z) : Z :=
  match k with
  | k0 :: r => le_value (Z.land k0 248 :: take 30 r ++ [Z.lor (Z.land (nth 30 r 0) 127) 64])
  | [] => 0
  end.
Definition decode_u (u : list Z) : Z := le_value u mod 2 ^ 255.
Definition a24 : Z := 121665.

Definition cswap (swap : Z) (p : Z * Z) : Z * Z := if swap =? 1 then (p.2, p.1) else p.

(** The state is [x2], [x3], [z2], [z3] and the pending swap. *)
Definition rfc_step (k x1 : Z) (s : Z * Z * Z * Z * Z) (t : Z) : Z * Z * Z * Z * Z :=
  let '(x2, x3, z2, z3, swap) := s in
  let kt := Z.land (Z.shiftr k t) 1 in
  let swap := Z.lxor swap kt in
  let '(x2, x3) := cswap swap (x2, x3) in
  let '(z2, z3) := cswap swap (z2, z3) in
  let A := (x2 + z2) mod P25519 in
  let AA := A ^ 2 mod P25519 in
  let B := (x2 - z2) mod P25519 in
  let BB := B ^ 2 mod P25519 in
  let E := (AA - BB) mod P25519 in
  let C := (x3 + z3) mod P25519 in
  let D := (x3 - z3) mod P25519 in
  let DA := (D * A) mod P25519 in
  let CB := (C * B) mod P25519 in
  let x3 := (DA + CB) ^ 2 mod P25519 in
  let z3 := (x1 * (DA - CB) ^ 2) mod P25519 in
  let x2 := (AA * BB) mod P25519 in
  let z2 := (E * (AA + a24 * E)) mod P25519 in
  (x2, x3, z2, z3, kt).

Definition x25519 (k u : list Z) : list Z :=
  let x1 := decode_u u in
  let '(x2, x3, z2, z3, swap) := foldl (rfc_step (decode_scalar k) x1) (1, x1, 0, 1, 0) (rev (seqZ 0 255)) in
  let '(x2, _) := cswap swap (x2, x3) in
  let '(z2, _) := cswap swap (z2, z3) in
  le_bytes 32 ((x2 * Zpow_mod z2 (P25519 - 2) P25519) mod P25519).

(** ** Numbers modulo [P25519] as limbs *)

Record rep (l : gf) (v : Z) : Prop := { rep_limbs : limbs16 (2 ^ 17) l; rep_val : eqm (val l) v }.
Record rep2 (l : gf) (v : Z) : Prop := { rep2_limbs : limbs16 (2 ^ 18) l; rep2_val : eqm (val l) v }.

Lemma rep_rep2 l v : rep l v → rep2 l v.
Proof. intros [H1 H2]. split; [|done]. eapply limbs16_weaken; [done|lia]. Qed.

Lemma rep_A a b v w : rep a v → rep b w → ∃ o, A a b = Ret o ∧ rep2 o (v + w).
Proof.
  intros [Ha Hva] [Hb Hvb]. destruct (A_spec (2 ^ 17) a b) as (o & E & Ho & Hv); [lia|done..|].
  exists o. split; [done|]. split; [done|]. by rewrite Hv, Hva, Hvb.
Qed.
Lemma rep_Z a b v w : rep a v → rep b w → ∃ o, Z_ a b = Ret o ∧ rep2 o (v - w).
Proof.
  intros [Ha Hva] [Hb Hvb]. destruct (Z_spec (2 ^ 17) a b) as (o & E & Ho & Hv); [lia|done..|].
  exists o. split; [done|]. split; [done|]. by rewrite Hv, Hva, Hvb.
Qed.
Lemma rep_M a b v w : rep2 a v → rep2 b w → ∃ o, M a b = Ret o ∧ rep o (v * w).
Proof.
  intros [Ha Hva] [Hb Hvb]. destruct (M_product a b) as (o & E & Ho & Hv);
    [eapply limbs16_weaken; [done|lia]..|].
  exists o. split; [done|]. split; [by apply reduced_limbs|]. by rewrite Hv, Hva, Hvb.
Qed.
Lemma rep_S a v : rep2 a v → ∃ o, S_ a = Ret o ∧ rep o (v ^ 2).
Proof. intros Ha. destruct (rep_M a a v v Ha Ha) as (o & E & Ho). exists o. split; [done|]. by rewrite Z.pow_2_r. Qed.

Lemma rep_eqm l v w : rep l v → eqm v w → rep l w.
Proof. intros [Hl Hv] E. split; [done|]. by rewrite Hv. Qed.

Definition is_bit (b : Z) : Prop := b = 0 ∨ b = 1.

Lemma bit_is_bit x : is_bit (Z.land x 1).
Proof.
  change 1 with (Z.ones 1). rewrite Z.land_ones by lia. pose proof (Z.mod_pos_bound x (2 ^ 1)) as H. unfold is_bit. lia.
Qed.

Lemma rep_sel a b v w r : is_bit r → rep a v → rep b w →
  ∃ a' b', sel25519 a b r = Ret (a', b') ∧ rep a' (cswap r (v, w)).1 ∧ rep b' (cswap r (v, w)).2.
Proof.
  intros Hr Ha Hb. rewrite sel_spec; [|apply Ha|apply Hb|done]. unfold cswap.
  destruct (r =? 1); eexists _, _; (split; [done|]); done.
Qed.

Lemma rep_121665 : rep2 c_121665 a24.
Proof. split; [split; [done|]|done]. repeat constructor; done. Qed.

(** The arithmetic of one step, without reductions. *)
Definition step_x2 (x2 z2 : Z) : Z := (x2 + z2) ^ 2 * (x2 - z2) ^ 2.
Definition step_z2 (x2 z2 : Z) : Z :=
  ((x2 + z2) ^ 2 - (x2 - z2) ^ 2) * ((x2 + z2) ^ 2 + a24 * ((x2 + z2) ^ 2 - (x2 - z2) ^ 2)).
Definition step_x3 (x2 z2 x3 z3 : Z) : Z := ((x3 - z3) * (x2 + z2) + (x3 + z3) * (x2 - z2)) ^ 2.
Definition step_z3 (x1 x2 z2 x3 z3 : Z) : Z := x1 * ((x3 - z3) * (x2 + z2) - (x3 + z3) * (x2 - z2)) ^ 2.

Ltac gf_op L o H := let E := fresh in
  destruct L as (o & E & H); rewrite E, bind_ret; clear E.

Lemma ladder_arith x x1 a b c d x2 x3 z2 z3 : rep x x1 → rep a x2 → rep b x3 → rep c z2 → rep d z3 →
  ∃ a' b' c' d',
    ladder_body x a b c d = Ret (a', b', c', d') ∧
    rep a' (step_x2 x2 z2) ∧ rep b' (step_x3 x2 z2 x3 z3) ∧ rep c' (step_z2 x2 z2) ∧ rep d' (step_z3 x1 x2 z2 x3 z3).
Proof.
  intros Hx Ha Hb Hc Hd. unfold ladder_body.
  gf_op (rep_A _ _ _ _ Ha Hc) e He. gf_op (rep_Z _ _ _ _ Ha Hc) a1 Ha1.
  gf_op (rep_A _ _ _ _ Hb Hd) c1 Hc1. gf_op (rep_Z _ _ _ _ Hb Hd) b1 Hb1.
  gf_op (rep_S _ _ He) d1 Hd1. gf_op (rep_S _ _ Ha1) f Hf.
  gf_op (rep_M _ _ _ _ Hc1 Ha1) a2 Ha2. gf_op (rep_M _ _ _ _ Hb1 He) c2 Hc2.
  gf_op (rep_A _ _ _ _ Ha2 Hc2) e1 He1. gf_op (rep_Z _ _ _ _ Ha2 Hc2) a3 Ha3.
  gf_op (rep_S _ _ Ha3) b2 Hb2. gf_op (rep_Z _ _ _ _ Hd1 Hf) c3 Hc3.
  gf_op (rep_M _ _ _ _ Hc3 rep_121665) a4 Ha4. gf_op (rep_A _ _ _ _ Ha4 Hd1) a5 Ha5.
  gf_op (rep_M _ _ _ _ Hc3 Ha5) c4 Hc4. gf_op (rep_M _ _ _ _ (rep_rep2 _ _ Hd1) (rep_rep2 _ _ Hf)) a6 Ha6.
  gf_op (rep_M _ _ _ _ (rep_rep2 _ _ Hb2) (rep_rep2 _ _ Hx)) d2 Hd2. gf_op (rep_S _ _ He1) b3 Hb3.
  eexists _, _, _, _. split; [done|]. unfold step_x2, step_x3, step_z2, step_z3. split_and!.
  - done.
  - eapply rep_eqm; [exact Hb3|]. by rewrite Z.add_comm.
  - eapply rep_eqm; [exact Hc4|]. by rewrite (Z.mul_comm _ a24), (Z.add_comm (a24 * _)).
  - eapply rep_eqm; [exact Hd2|]. rewrite (Z.mul_comm _ x1).
    match goal with |- eqm (x1 * ?u ^ 2) (x1 * ?v ^ 2) => replace (u ^ 2) with (v ^ 2) by lia end. done.
Qed.

(** The same in RFC 7748. *)
#[global] Instance eqm_pow : Proper (eqm ==> eq ==> eqm) Z.pow.
Proof.
  intros x y H n ? <-. destruct (decide (0 ≤ n)) as [Hn|Hn]; [|by rewrite !Z.pow_neg_r by lia].
  revert n Hn. apply natlike_ind; [done|]. intros n Hn IH. rewrite !Z.pow_succ_r by done. by apply eqm_mul.
Qed.

Lemma rfc_values k x1 x2 x3 z2 z3 swap t :
  let kt := Z.land (Z.shiftr k t) 1 in
  let s := Z.lxor swap kt in
  let x := cswap s (x2, x3) in
  let z := cswap s (z2, z3) in
  ∃ x2' x3' z2' z3', rfc_step k x1 (x2, x3, z2, z3, swap) t = (x2', x3', z2', z3', kt) ∧
    eqm (step_x2 x.1 z.1) x2' ∧ eqm (step_x3 x.1 z.1 x.2 z.2) x3' ∧ eqm (step_z2 x.1 z.1) z2' ∧
    eqm (step_z3 x1 x.1 z.1 x.2 z.2) z3'.
Proof.
  intros kt s x z. unfold rfc_step. fold kt. fold s. fold x. fold z. destruct x as [u2 u3], z as [w2 w3]. cbn [fst snd].
  eexists _, _, _, _. split; [reflexivity|]. unfold step_x2, step_x3, step_z2, step_z3.
  split_and!; symmetry; rewrite eqm_mod.
  all: by rewrite !eqm_mod.
Qed.

(** ** The scalar *)

(** A bit of a number and the bit of its byte. *)
Lemma scalar_bit z i b : Forall is_byte z → z !! Z.to_nat (Z.shiftr i 3) = Some b → 0 ≤ i →
  Z.land (Z.shiftr b (Z.land i 7)) 1 = Z.land (Z.shiftr (le_value z) i) 1.
Proof.
  intros Hz Hb Hi. set (q := Z.shiftr i 3) in *. set (r := Z.land i 7).
  assert (0 ≤ q ∧ 0 ≤ r < 8 ∧ i = 8 * q + r) as (Hq & Hr & Ei).
  { unfold q, r. change 7 with (Z.ones 3). rewrite Z.land_ones, Z.shiftr_div_pow2 by lia.
    pose proof (Z.div_mod i (2 ^ 3)). pose proof (Z.mod_pos_bound i (2 ^ 3)). lia. }
  assert (Z.to_nat q < length z)%nat by by eapply lookup_lt_Some.
  rewrite Ei, <-Z.shiftr_shiftr, (Z.shiftr_div_pow2 (le_value z)) by lia.
  replace (2 ^ (8 * q)) with (256 ^ Z.of_nat (Z.to_nat q)) by (rewrite Z2Nat.id, Z.pow_mul_r by lia; done).
  rewrite le_value_drop by (done || lia). rewrite (drop_S _ _ _ Hb). cbn [le_value].
  change 1 with (Z.ones 1). rewrite !Z.land_ones, !Z.shiftr_div_pow2 by lia.
  set (h := le_value _). replace 256 with (2 ^ (8 - r - 1) * 2 * 2 ^ r)
    by (change 2 with (2 ^ 1) at 2; rewrite <-!Z.pow_add_r by lia; by replace (8 - r - 1 + 1 + r) with 8 by lia).
  replace (b + 2 ^ (8 - r - 1) * 2 * 2 ^ r * h) with (b + (2 ^ (8 - r - 1) * h * 2) * 2 ^ r) by lia.
  rewrite Z.div_add by (apply Z.pow_nonzero; lia). change (2 ^ 1) with 2. by rewrite Z.mod_add.
Qed.

Lemma clamp_spec n : length n = 32%nat → Forall is_byte n →
  ∃ z, clamp_scalar n = Ret z ∧ length z = 32%nat ∧ Forall is_byte z ∧ le_value z = decode_scalar n.
Proof.
  intros Hl Hn. destruct n as [|n0 r]; [done|]. simpl in Hl.
  destruct (lookup_lt_is_Some_2 r 30) as [h Hh]; [lia|].
  assert (∀ x m, is_byte x → 0 ≤ m < 256 → is_byte (Z.land x m)) as Hand.
  { intros x m Hx Hm. apply (land_range 8); unfold is_byte in *; lia. }
  apply Forall_cons in Hn as [Hn0 Hr]. pose proof (Forall_lookup_1 _ _ _ _ Hr Hh) as Hhb.
  unfold clamp_scalar. rewrite load_bytes_Ret, bind_ret by (simpl; lia). change (Z.to_nat 31) with 31%nat.
  change (Z.to_nat 0) with 0%nat. rewrite drop_0. cbn [take]. rewrite (load1_Ret (n0 :: r) 31 h), bind_ret by done.
  cbv zeta. cbn [app]. rewrite load1_head, bind_ret, store1_head. eexists. split; [done|]. split_and!.
  - cbn [length]. rewrite length_app, length_take. cbn [length]. lia.
  - constructor; [apply Hand; [done|lia]|]. apply Forall_app. split; [by apply Forall_take|]. apply Forall_singleton.
    apply (lor_range 8); [lia| |lia]. apply Hand; [done|lia].
  - unfold decode_scalar. by rewrite (nth_lookup_Some _ _ 0 h Hh).
Qed.

(** ** The ladder *)

Lemma cswap_twice s k p : is_bit s → is_bit k → cswap k (cswap s p) = cswap (Z.lxor s k) p.
Proof. destruct p. intros [-> | ->] [-> | ->]; done. Qed.

(** The limbs hold the numbers of RFC 7748 with the pending swap done. *)
Definition ladder_rep (s : gf * gf * gf * gf) (v : Z * Z * Z * Z * Z) : Prop :=
  let '(a, b, c, d) := s in
  let '(x2, x3, z2, z3, swap) := v in
  is_bit swap ∧ rep a (cswap swap (x2, x3)).1 ∧ rep b (cswap swap (x2, x3)).2 ∧
  rep c (cswap swap (z2, z3)).1 ∧ rep d (cswap swap (z2, z3)).2.

Lemma ladder_step_spec z x x1 s v i : Forall is_byte z → length z = 32%nat → rep x x1 → 0 ≤ i < 255 → ladder_rep s v →
  ∃ s', ladder_step z x s i = Ret s' ∧ ladder_rep s' (rfc_step (le_value z) x1 v i).
Proof.
  intros Hz Hl Hx Hi Hs. destruct s as [[[a b] c] d], v as [[[[x2 x3] z2] z3] swap]. destruct Hs as (Hsw & Ha & Hb & Hc & Hd).
  assert (Z.shiftr i 3 = i / 8) as E8 by by rewrite Z.shiftr_div_pow2 by lia.
  assert (0 ≤ i / 8 < 32) as H8 by (split; [apply Z.div_pos; lia|apply Z.div_lt_upper_bound; lia]).
  destruct (lookup_lt_is_Some_2 z (Z.to_nat (Z.shiftr i 3))) as [zi Hzi]; [lia|].
  unfold ladder_step. rewrite (load1_Ret z _ zi), bind_ret by (done || lia). cbv zeta.
  rewrite (scalar_bit z i zi) by (done || lia). set (kt := Z.land (Z.shiftr (le_value z) i) 1).
  assert (is_bit kt) as Hkt by apply bit_is_bit.
  destruct (rep_sel _ _ _ _ kt Hkt Ha Hb) as (a1 & b1 & -> & Ha1 & Hb1). rewrite bind_ret. cbv beta iota.
  destruct (rep_sel _ _ _ _ kt Hkt Hc Hd) as (c1 & d1 & -> & Hc1 & Hd1). rewrite bind_ret. cbv beta iota.
  rewrite <-surjective_pairing, cswap_twice in Ha1, Hb1, Hc1, Hd1 by done.
  destruct (rfc_values (le_value z) x1 x2 x3 z2 z3 swap i) as (x2' & x3' & z2' & z3' & -> & E1 & E2 & E3 & E4).
  fold kt in E1, E2, E3, E4 |- *.
  destruct (ladder_arith _ _ _ _ _ _ _ _ _ _ Hx Ha1 Hb1 Hc1 Hd1) as (a2 & b2 & c2 & d2 & -> & Ha2 & Hb2 & Hc2 & Hd2).
  rewrite bind_ret. cbv beta iota.
  pose proof (rep_eqm _ _ _ Ha2 E1) as Ha3. pose proof (rep_eqm _ _ _ Hb2 E2) as Hb3.
  pose proof (rep_eqm _ _ _ Hc2 E3) as Hc3. pose proof (rep_eqm _ _ _ Hd2 E4) as Hd3.
  destruct (rep_sel _ _ _ _ kt Hkt Ha3 Hb3) as (a4 & b4 & -> & Ha4 & Hb4). rewrite bind_ret. cbv beta iota.
  destruct (rep_sel _ _ _ _ kt Hkt Hc3 Hd3) as (c4 & d4 & -> & Hc4 & Hd4). rewrite bind_ret. cbv beta iota.
  eexists. split; [done|]. by split_and!.
Qed.

Lemma ladder_spec z x x1 l : Forall is_byte z → length z = 32%nat → rep x x1 → Forall (fun i => 0 ≤ i < 255) l →
  ∀ s v, ladder_rep s v →
  ∃ s', foldM (ladder_step z x) l s = Ret s' ∧ ladder_rep s' (foldl (rfc_step (le_value z) x1) v l).
Proof.
  intros Hz Hl Hx. induction 1 as [|i l Hi _ IH]; intros s v Hs; [by exists s|].
  destruct (ladder_step_spec z x x1 s v i Hz Hl Hx Hi Hs) as (s1 & E & H1). cbn [foldM foldl]. rewrite E, bind_ret. by apply IH.
Qed.

Lemma scalarmult_spec m0 q n p : length m0 = 16%nat → length q = 32%nat → length n = 32%nat → Forall is_byte n →
  length p = 32%nat → Forall is_byte p → crypto_scalarmult m0 q n p = Ret (0, x25519 n p).
Proof.
  intros Hm Hq Hn Hnb Hp Hpb. unfold crypto_scalarmult.
  destruct (clamp_spec n Hn Hnb) as (z & -> & Hzl & Hzb & Hz). rewrite bind_ret.
  destruct (unpack_spec p Hp Hpb) as (x & -> & Hxl & Hxv). rewrite bind_ret.
  assert (rep x (decode_u p)) as Hx by (split; [done|by rewrite Hxv]).
  assert (rep gf0 0 ∧ rep gf1 1) as [H0 H1] by (split; (split; [split; [done|repeat constructor; done]|done])).
  assert (Forall (fun i => 0 ≤ i < 255) (rev (seqZ 0 255))) as Hseq.
  { apply Forall_rev, Forall_forall. intros i Hi%elem_of_seqZ. lia. }
  destruct (ladder_spec z x (decode_u p) _ Hzb Hzl Hx Hseq (gf1, x, gf0, gf1) (1, decode_u p, 0, 1, 0)) as (s & -> & Hs).
  { split_and!; [by left|done..]. }
  rewrite bind_ret, Hz in *. unfold x25519. destruct s as [[[a b] c] d].
  destruct (foldl _ _ _) as [[[[x2 x3] z2] z3] swap]. destruct Hs as (_ & Ha & _ & Hc & _).
  cbv beta iota. destruct (cswap swap (x2, x3)) as [x2' ?], (cswap swap (z2, z3)) as [z2' ?]. cbn [fst] in Ha, Hc.
  destruct (inv_spec c) as (c' & -> & Hc' & Hv); [eapply limbs16_weaken; [apply Hc|lia]|]. rewrite bind_ret.
  destruct (rep_M a c' x2' (Zpow_mod z2' (P25519 - 2) P25519)) as (o & -> & Ho).
  { by apply rep_rep2. }
  { apply rep_rep2. split; [by apply reduced_limbs|]. rewrite Hv, (rep_val _ _ Hc), Zpow_mod_correct by done. by rewrite eqm_mod. }
  rewrite bind_ret, pack_spec; [|done|done|eapply limbs16_weaken; [apply Ho|lia]].
  rewrite bind_ret. do 3 f_equal. apply (rep_val _ _ Ho).
Qed.

(** [crypto_scalarmult] is the function X25519 of RFC 7748.  For every scalar and
    every point the ladder on 16-bit limbs returns, without any 64-bit overflow, exactly
    the 32 bytes that the RFC computes with integers modulo 2^255 - 19: the fixed bits of
    the scalar and the top bit of the point are treated as it says, and the result is
    fully reduced. *)
Theorem x25519_correct m0 q n p :
  length m0 = 16%nat → length q = 32%nat → length n = 32%nat → Forall is_byte n → length p = 32%nat → Forall is_byte p →
  crypto_scalarmult m0 q n p = Ret (0, x25519 n p).
Proof. apply scalarmult_spec. Qed.

Lemma x25519_correct_witness : crypto_scalarmult gf0 (replicate 32 0) (replicate 32 7) nine = Ret (0, x25519 (replicate 32 7) nine).
Proof. apply x25519_correct; try reflexivity; repeat constructor; done. Defined.
