(* ===== verification/Sha512.v ===== *)
(** * SHA-512

    [crypto_hashblocks] and [crypto_hash] of src/lib/tweetnacl.c over checked arrays, and
    the function FIPS 180-4 defines. *)

From S2P Require Import Prelude Ring Words.

(** ** The code *)

Definition u64 (x : Z) : Z := x mod 2 ^ 64.
Definition not64 (x : Z) : Z := 2 ^ 64 - 1 - x.

Definition dl64 (x : list Z) (off : Z) : outcome Z :=
  foldM (fun u i => b ← load1 x (off + i); Ret (Z.lor (u64 (Z.shiftl u 8)) b)) (seqZ 0 8) 0.

(** [i] counts down. *)
Definition ts64_step (off : Z) (s : list Z * Z) (i : Z) : outcome (list Z * Z) :=
  let '(x, u) := s in
  x ← store1 x (off + i) (u mod 256);
  Ret (x, Z.shiftr u 8).
Definition ts64 (x : list Z) (off u : Z) : outcome (list Z) :=
  '(x, _) ← foldM (ts64_step off) (rev (seqZ 0 8)) (x, u);
  Ret x.

Definition R (x c : Z) : Z := Z.lor (Z.shiftr x c) (u64 (Z.shiftl x (64 - c))).
Definition Ch (x y z : Z) : Z := Z.lxor (Z.land x y) (Z.land (not64 x) z).
Definition Maj (x y z : Z) : Z := Z.lxor (Z.lxor (Z.land x y) (Z.land x z)) (Z.land y z).
Definition Sigma0 (x : Z) : Z := Z.lxor (Z.lxor (R x 28) (R x 34)) (R x 39).
Definition Sigma1 (x : Z) : Z := Z.lxor (Z.lxor (R x 14) (R x 18)) (R x 41).
Definition sigma0 (x : Z) : Z := Z.lxor (Z.lxor (R x 1) (R x 8)) (Z.shiftr x 7).
Definition sigma1 (x : Z) : Z := Z.lxor (Z.lxor (R x 19) (R x 61)) (Z.shiftr x 6).

Definition K : list Z := [
  0x428a2f98d728ae22;0x7137449123ef65cd;0xb5c0fbcfec4d3b2f;0xe9b5dba58189dbbc;
  0x3956c25bf348b538;0x59f111f1b605d019;0x923f82a4af194f9b;0xab1c5ed5da6d8118;
  0xd807aa98a3030242;0x12835b0145706fbe;0x243185be4ee4b28c;0x550c7dc3d5ffb4e2;
  0x72be5d74f27b896f;0x80deb1fe3b1696b1;0x9bdc06a725c71235;0xc19bf174cf692694;
  0xe49b69c19ef14ad2;0xefbe4786384f25e3;0x0fc19dc68b8cd5b5;0x240ca1cc77ac9c65;
  0x2de92c6f592b0275;0x4a7484aa6ea6e483;0x5cb0a9dcbd41fbd4;0x76f988da831153b5;
  0x983e5152ee66dfab;0xa831c66d2db43210;0xb00327c898fb213f;0xbf597fc7beef0ee4;
  0xc6e00bf33da88fc2;0xd5a79147930aa725;0x06ca6351e003826f;0x142929670a0e6e70;
  0x27b70a8546d22ffc;0x2e1b21385c26c926;0x4d2c6dfc5ac42aed;0x53380d139d95b3df;
  0x650a73548baf63de;0x766a0abb3c77b2a8;0x81c2c92e47edaee6;0x92722c851482353b;
  0xa2bfe8a14cf10364;0xa81a664bbc423001;0xc24b8b70d0f89791;0xc76c51a30654be30;
  0xd192e819d6ef5218;0xd69906245565a910;0xf40e35855771202a;0x106aa07032bbd1b8;
  0x19a4c116b8d2d0c8;0x1e376c085141ab53;0x2748774cdf8eeb99;0x34b0bcb5e19b48a8;
  0x391c0cb3c5c95a63;0x4ed8aa4ae3418acb;0x5b9cca4f7763e373;0x682e6ff3d6b2b8a3;
  0x748f82ee5defb2fc;0x78a5636f43172f60;0x84c87814a1f0ab72;0x8cc702081a6439ec;
  0x90befffa23631e28;0xa4506cebde82bde9;0xbef9a3f7b2c67915;0xc67178f2e372532b;
  0xca273eceea26619c;0xd186b8c721c0c207;0xeada7dd6cde0eb1e;0xf57d4f7fee6ed178;
  0x06f067aa72176fba;0x0a637dc5a2c898a6;0x113f9804bef90dae;0x1b710b35131c471b;
  0x28db77f523047d84;0x32caab7b40c72493;0x3c9ebe0a15c9bebc;0x431d67c49c100d4c;
  0x4cc5d4becb3e42b6;0x597f299cfc657e2a;0x5fcb6fab3ad6faec;0x6c44198c4a475817].

Definition schedule_step (w : list Z) (j : Z) : outcome (list Z) :=
  w0 ← load1 w j;
  w9 ← load1 w ((j + 9) mod 16);
  w1 ← load1 w ((j + 1) mod 16);
  w14 ← load1 w ((j + 14) mod 16);
  store1 w j (u64 (w0 + (w9 + sigma0 w1 + sigma1 w14))).

Definition shift_step (b a : list Z) (j : Z) : outcome (list Z) :=
  bj ← load1 b j;
  store1 a ((j + 1) mod 8) bj.

Definition round_step (s : list Z * list Z) (i : Z) : outcome (list Z * list Z) :=
  let '(a, w) := s in
  let b := a in
  a0 ← load1 a 0; a1 ← load1 a 1; a2 ← load1 a 2; a4 ← load1 a 4;
  a5 ← load1 a 5; a6 ← load1 a 6; a7 ← load1 a 7;
  ki ← load1 K i;
  wi ← load1 w (i mod 16);
  let t := u64 (a7 + Sigma1 a4 + Ch a4 a5 a6 + ki + wi) in
  b ← store1 b 7 (u64 (t + Sigma0 a0 + Maj a0 a1 a2));
  b3 ← load1 b 3;
  b ← store1 b 3 (u64 (b3 + t));
  a ← foldM (shift_step b) (seqZ 0 8) a;
  w ← (if i mod 16 =? 15 then foldM schedule_step (seqZ 0 16) w else Ret w);
  Ret (a, w).

(** The sixteen words, or the eight, at [off]; the array is the part that is written. *)
Definition load_words (m : list Z) (off n : Z) : outcome (list Z) :=
  foldM (fun w i => v ← dl64 m (off + 8 * i); Ret (w ++ [v])) (seqZ 0 n) [].

Definition add_step (s : list Z * list Z) (i : Z) : outcome (list Z * list Z) :=
  let '(a, z) := s in
  ai ← load1 a i;
  zi ← load1 z i;
  let v := u64 (ai + zi) in
  a ← store1 a i v;
  z ← store1 z i v;
  Ret (a, z).

(** One block of 128 bytes at [m + 128 * k]. *)
Definition hash_block (m : list Z) (s : list Z * list Z) (k : Z) : outcome (list Z * list Z) :=
  let '(a, z) := s in
  w ← load_words m (128 * k) 16;
  '(a, _) ← foldM round_step (seqZ 0 80) (a, w);
  foldM add_step (seqZ 0 8) (a, z).

(** The loop runs as often as 128 goes into [n]; what it leaves of [n] is returned. *)
Definition crypto_hashblocks (x m : list Z) (n : Z) : outcome (Z * list Z) :=
  a ← load_words x 0 8;
  '(_, z) ← foldM (hash_block m) (seqZ 0 (n / 128)) (a, a);
  x ← foldM (fun x i => zi ← load1 z i; ts64 x (8 * i) zi) (seqZ 0 8) x;
  Ret (n mod 128, x).

Definition iv : list Z := [
  0x6a;0x09;0xe6;0x67;0xf3;0xbc;0xc9;0x08;0xbb;0x67;0xae;0x85;0x84;0xca;0xa7;0x3b;
  0x3c;0x6e;0xf3;0x72;0xfe;0x94;0xf8;0x2b;0xa5;0x4f;0xf5;0x3a;0x5f;0x1d;0x36;0xf1;
  0x51;0x0e;0x52;0x7f;0xad;0xe6;0x82;0xd1;0x9b;0x05;0x68;0x8c;0x2b;0x3e;0x6c;0x1f;
  0x1f;0x83;0xd9;0xab;0xfb;0x41;0xbd;0x6b;0x5b;0xe0;0xcd;0x19;0x13;0x7e;0x21;0x79].

(** [h] and [x] are workspaces that are filled before they are read; [out] has 64 bytes. *)
Definition crypto_hash (m : list Z) (n : Z) : outcome (list Z) :=
  '(_, h) ← crypto_hashblocks iv m n;
  let b := n in
  let n := Z.land n 127 in
  tail ← load_bytes m (b - n) n;
  x ← store_bytes (replicate 256 0) 0 tail;
  x ← store1 x n 128;
  let n := 256 - 128 * (if n <? 112 then 1 else 0) in
  x ← store1 x (n - 9) (Z.shiftr b 61 mod 256);
  x ← ts64 x (n - 8) (u64 (Z.shiftl b 3));
  '(_, h) ← crypto_hashblocks h x n;
  Ret h.
