(* ===== verification/Sha512Props.v ===== *)
(** * The hash computes SHA-512

    FIPS 180-4 over words by their bits, and the proof that [crypto_hash] computes it. *)

From S2P Require Import Prelude Ring Words Sha512.

(** ** FIPS 180-4 *)

Module Fips.
Definition word64 (f : Z → bool) : Z := bits_from 64 0 f.
Definition ROTR (n x : Z) : Z := word64 (fun i => Z.testbit x ((i + n) mod 64)).
Definition SHR (n x : Z) : Z := word64 (fun i => Z.testbit x (i + n)).
Definition XOR3 (x y z : Z) : Z :=
  word64 (fun i => xorb (xorb (Z.testbit x i) (Z.testbit y i)) (Z.testbit z i)).
Definition Ch (x y z : Z) : Z := word64 (fun i => if Z.testbit x i then Z.testbit y i else Z.testbit z i).
Definition Maj (x y z : Z) : Z :=
  word64 (fun i => 2 <=? Z.b2z (Z.testbit x i) + Z.b2z (Z.testbit y i) + Z.b2z (Z.testbit z i)).
Definition Sigma0 (x : Z) : Z := XOR3 (ROTR 28 x) (ROTR 34 x) (ROTR 39 x).
Definition Sigma1 (x : Z) : Z := XOR3 (ROTR 14 x) (ROTR 18 x) (ROTR 41 x).
Definition sigma0 (x : Z) : Z := XOR3 (ROTR 1 x) (ROTR 8 x) (SHR 7 x).
Definition sigma1 (x : Z) : Z := XOR3 (ROTR 19 x) (ROTR 61 x) (SHR 6 x).

(** [k] is the first 64 bits of the fractional part of the [e]-th root of [p]. *)
Definition root_fraction (e p k : Z) : bool :=
  existsb (fun q => let r := q * 2 ^ 64 + k in (r ^ e <=? p * 2 ^ (64 * e)) && (p * 2 ^ (64 * e) <? (r + 1) ^ e)) (seqZ 0 21) &&
  (0 <=? k) && (k <? 2 ^ 64).
Definition is_prime (n : Z) : bool :=
  (2 <=? n) && forallb (fun d => negb (n mod d =? 0)) (seqZ 2 (Z.sqrt n - 1)).
Definition primes (n : Z) : list Z := filter is_prime (seqZ 0 n).

(** The constants_512: the fractions of the cube roots of the first 80 primes and of the
    square roots of the first 8. *)
Definition constants_for (e n : Z) (l : list Z) : bool :=
  (length (primes n) =? length l)%nat && forallb (fun pk => root_fraction e pk.1 pk.2) (zip (primes n) l).

(** The schedule, as a window of sixteen words that moves over it. *)
Definition next_word (w : list Z) : Z :=
  u64 (sigma1 (w !!! 14%nat) + w !!! 9%nat + sigma0 (w !!! 1%nat) + w !!! 0%nat).
Definition slide (w : list Z) : list Z := drop 1 w ++ [next_word w].
Fixpoint window_at (t : nat) (w : list Z) : list Z := match t with O => w | S t => window_at t (slide w) end.
Definition W (w : list Z) (t : nat) : Z := window_at t w !!! 0%nat.

(** The eight variables, [a] first. *)
Definition Round (k wt : Z) (v : list Z) : list Z :=
  match v with
  | [a; b; c; d; e; f; g; h] =>
      let T1 := u64 (h + Sigma1 e + Ch e f g + k + wt) in
      let T2 := u64 (Sigma0 a + Maj a b c) in
      [u64 (T1 + T2); a; b; c; u64 (d + T1); e; f; g]
  | _ => v
  end.

Definition rounds (Kt w h : list Z) (n : nat) : list Z := foldl (fun v t => Round (Kt !!! t) (W w t) v) h (seq 0 n).

Definition compress (Kt : list Z) (h block : list Z) : list Z :=
  zip_with (fun x y => u64 (x + y)) (rounds Kt (be_value <$> split_every 8 block) h 80) h.

(** [0x80], the least number of zeros that leaves sixteen bytes of the block, the length. *)
Definition pad (msg : list Z) : list Z :=
  msg ++ [0x80] ++ replicate (Z.to_nat ((111 - Z.of_nat (length msg)) mod 128)) 0 ++
  be_bytes 16 (8 * Z.of_nat (length msg)).

Definition sha512 (Kt H0 msg : list Z) : list Z :=
  concat (be_bytes 8 <$> foldl (compress Kt) H0 (split_every 128 (pad msg))).
End Fips.

Definition H0 : list Z := be_value <$> split_every 8 iv.

Lemma constants_512 : Fips.constants_for 3 410 K = true ∧ Fips.constants_for 2 20 H0 = true.
Proof. split; vm_compute; reflexivity. Qed.

(** ** Functions on words *)

Definition is_u64 (x : Z) : Prop := 0 ≤ x < 2 ^ 64.

Lemma u64_range x : is_u64 (u64 x).
Proof. unfold is_u64, u64. by apply Z.mod_pos_bound. Qed.

Lemma u64_bits x i : 0 ≤ i → Z.testbit (u64 x) i = (i <? 64) && Z.testbit x i.
Proof.
  intros Hi. unfold u64. destruct (Z.ltb_spec i 64); [by apply Z.mod_pow2_bits_low|by apply Z.mod_pow2_bits_high].
Qed.

Lemma word64_range f : is_u64 (Fips.word64 f).
Proof. apply bits_from_range. Qed.

Lemma word64_eq x f : is_u64 x → (∀ i, 0 ≤ i < 64 → Z.testbit x i = f i) → x = Fips.word64 f.
Proof.
  intros Hx Hb. apply (bits_equal _ _ 64); [lia|done|apply word64_range|]. intros i Hi. rewrite Hb by done.
  symmetry. apply (testbit_bits_from 64 0). lia.
Qed.

Lemma shiftr_range_512 x n : is_u64 x → 0 ≤ n → is_u64 (Z.shiftr x n).
Proof.
  intros Hx Hn. unfold is_u64 in *. rewrite Z.shiftr_div_pow2 by done.
  pose proof (Z.pow_pos_nonneg 2 n). split; [apply Z.div_pos; lia|].
  apply Z.div_lt_upper_bound; [lia|]. nia.
Qed.

Lemma R_ROTR x n : is_u64 x → 0 < n < 64 → R x n = Fips.ROTR n x.
Proof.
  intros Hx Hn. unfold R. apply word64_eq.
  - apply (lor_range 64); [done|apply shiftr_range_512; [done|lia]|apply u64_range].
  - intros i Hi. rewrite Z.lor_spec, Z.shiftr_spec, u64_bits, Z.shiftl_spec by lia.
    replace (i <? 64) with true by lia. destruct (decide (i + n < 64)).
    + rewrite (Z.mod_small (i + n)) by lia. rewrite (Z.testbit_neg_r x (i - _)) by lia. apply orb_false_r.
    + rewrite (high_bits x 64 (i + n)) by (done || lia). simpl. f_equal.
      rewrite <-(Z.mod_add (i + n) (-1) 64), Z.mod_small by lia. lia.
Qed.

Lemma shiftr_SHR_512 x n : is_u64 x → 0 ≤ n → Z.shiftr x n = Fips.SHR n x.
Proof. intros Hx Hn. apply word64_eq; [by apply shiftr_range_512|]. intros i Hi. apply Z.shiftr_spec. lia. Qed.

Lemma lxor_XOR3_512 x y z : is_u64 x → is_u64 y → is_u64 z → Z.lxor (Z.lxor x y) z = Fips.XOR3 x y z.
Proof.
  intros Hx Hy Hz. apply word64_eq; [repeat apply (lxor_range 64); done|]. intros i Hi. by rewrite !Z.lxor_spec.
Qed.

Lemma not64_bits x i : is_u64 x → 0 ≤ i < 64 → Z.testbit (not64 x) i = negb (Z.testbit x i).
Proof.
  intros Hx Hi. replace (not64 x) with (u64 (Z.lnot x)).
  - rewrite u64_bits by lia. replace (i <? 64) with true by lia. apply Z.lnot_spec. lia.
  - unfold not64, u64, Z.lnot, is_u64 in *. rewrite <-(Z.mod_add (Z.pred (- x)) 1 (2 ^ 64)) by done.
    rewrite Z.mod_small; lia.
Qed.

Lemma Ch_Ch x y z : is_u64 x → is_u64 y → is_u64 z → Ch x y z = Fips.Ch x y z.
Proof.
  intros Hx Hy Hz. unfold Ch. apply word64_eq.
  - apply (lxor_range 64); [done| |]; apply (land_range 64); try done. unfold not64, is_u64 in *. lia.
  - intros i Hi. rewrite Z.lxor_spec, !Z.land_spec, not64_bits by done.
    by destruct (Z.testbit x i), (Z.testbit y i), (Z.testbit z i).
Qed.

Lemma Maj_Maj x y z : is_u64 x → is_u64 y → is_u64 z → Maj x y z = Fips.Maj x y z.
Proof.
  intros Hx Hy Hz. unfold Maj. apply word64_eq.
  - apply (lxor_range 64); [done|apply (lxor_range 64); [done| |]|]; by apply (land_range 64).
  - intros i Hi. rewrite !Z.lxor_spec, !Z.land_spec.
    by destruct (Z.testbit x i), (Z.testbit y i), (Z.testbit z i).
Qed.

Lemma sigmas_512 x : is_u64 x →
  Sigma0 x = Fips.Sigma0 x ∧ Sigma1 x = Fips.Sigma1 x ∧ sigma0 x = Fips.sigma0 x ∧ sigma1 x = Fips.sigma1 x.
Proof.
  intros Hx. unfold Sigma0, Sigma1, sigma0, sigma1. rewrite !R_ROTR, !shiftr_SHR_512 by (done || lia).
  rewrite !lxor_XOR3_512 by apply word64_range. split_and!; reflexivity.
Qed.
