(* ===== verification/Sha512Blocks.v ===== *)
(** * The hash computes SHA-512: words in memory, rounds, blocks and messages *)

From S2P Require Import Prelude Ring Words Sha512 Sha512Props.

(** ** Words in memory *)

Lemma be_value_snoc l b : be_value (l ++ [b]) = 256 * be_value l + b.
Proof. unfold be_value. by rewrite foldl_app. Qed.

Lemma be_value_range l : Forall is_byte l → 0 ≤ be_value l < 256 ^ Z.of_nat (length l).
Proof.
  induction l as [|b l IH] using rev_ind; intros Hl; [done|]. apply Forall_app in Hl as [Hl Hb].
  rewrite Forall_singleton in Hb. unfold is_byte in Hb. specialize (IH Hl).
  rewrite be_value_snoc, length_app. cbn [length]. rewrite Nat2Z.inj_add, Z.pow_add_r by lia. change (256 ^ Z.of_nat 1) with 256. lia.
Qed.

Lemma be_value_u64 l : length l = 8%nat → Forall is_byte l → is_u64 (be_value l).
Proof. intros Hl Hb. pose proof (be_value_range l Hb) as H. by rewrite Hl in H. Qed.

Lemma dl64_spec x off bs : 0 ≤ off → take 8 (drop (Z.to_nat off) x) = bs → length bs = 8%nat → Forall is_byte bs →
  dl64 x off = Ret (be_value bs).
Proof.
  intros Ho E Hl Hb. unfold dl64.
  destruct (foldM_seqZ (fun i u => u = be_value (take (Z.to_nat i) bs))
    (fun u i => b ← load1 x (off + i); Ret (Z.lor (u64 (Z.shiftl u 8)) b)) 0 8 0) as (u & -> & ->); [lia|done| |].
  - intros i u Hi ->. destruct (lookup_lt_is_Some_2 bs (Z.to_nat i)) as [b Eb]; [lia|].
    assert (load1 x (off + i) = Ret b) as ->.
    { apply load1_Ret; [lia|]. rewrite <-E, lookup_take_lt, lookup_drop in Eb by lia.
      by replace (Z.to_nat (off + i)) with (Z.to_nat off + Z.to_nat i)%nat by lia. }
    rewrite bind_ret. eexists. split; [done|]. replace (Z.to_nat (i + 1)) with (S (Z.to_nat i)) by lia.
    rewrite (take_S_r _ _ _ Eb), be_value_snoc.
    pose proof (be_value_range (take (Z.to_nat i) bs) (Forall_take _ _ _ Hb)) as Hr.
    rewrite length_take, Nat.min_l, Z2Nat.id in Hr by lia.
    assert (256 ^ i ≤ 256 ^ 7) by (apply Z.pow_le_mono_r; lia).
    assert (is_byte b) as Hbb by exact (Forall_lookup_1 _ _ _ _ Hb Eb). unfold is_byte in Hbb.
    unfold u64. rewrite Z.shiftl_mul_pow2, Z.mod_small by lia. rewrite (lor_join _ b 8) by lia. lia.
  - change (Z.to_nat (0 + 8)) with 8%nat. by rewrite take_ge by lia.
Qed.

Lemma ts64_loop off p : Z.of_nat (length p) = off → ∀ n seg r u, length seg = n →
  foldM (ts64_step off) (rev (seqZ 0 (Z.of_nat n))) (p ++ seg ++ r, u) =
    Ret (p ++ be_bytes n u ++ r, Z.shiftr u (8 * Z.of_nat n)).
Proof.
  intros Hp. induction n as [|n IH]; intros seg r u Hs.
  - destruct seg; [|done]. simpl. by rewrite Z.shiftr_0_r.
  - destruct seg as [|y seg' _] using rev_ind; [done|]. rewrite length_app in Hs. simpl in Hs.
    replace (seqZ 0 (Z.of_nat (S n))) with (seqZ 0 (Z.of_nat n) ++ [Z.of_nat n])
      by (rewrite Nat2Z.inj_succ, <-Z.add_1_r, seqZ_app by lia; done).
    rewrite rev_app_distr. cbn [rev app foldM ts64_step]. rewrite <-app_assoc. cbn [app]. rewrite app_assoc.
    rewrite store1_Ret by (rewrite !length_app; simpl; lia). replace (Z.to_nat (off + Z.of_nat n)) with (length (p ++ seg'))
      by (rewrite length_app; lia).
    rewrite insert_app_r_alt, Nat.sub_diag by lia. cbn [insert list_insert]. rewrite !bind_ret, <-app_assoc.
    rewrite IH by lia. rewrite Z.shiftr_shiftr, Z.shiftr_div_pow2 by lia. change (2 ^ 8) with 256. cbn [be_bytes].
    rewrite <-app_assoc. do 2 f_equal. f_equal. lia.
Qed.

Lemma ts64_spec x off u : 0 ≤ off → off + 8 ≤ Z.of_nat (length x) →
  ts64 x off u = Ret (take (Z.to_nat off) x ++ be_bytes 8 u ++ drop (Z.to_nat off + 8) x).
Proof.
  intros Ho Hl. unfold ts64. rewrite <-(take_drop (Z.to_nat off) x) at 1. rewrite <-(take_drop 8 (drop (Z.to_nat off) x)) at 1.
  rewrite (ts64_loop off (take (Z.to_nat off) x)) with (n := 8%nat) by (rewrite length_take, ?length_drop; lia).
  by rewrite bind_ret, drop_drop.
Qed.

(** The words of [bs], which lie at [off]. *)
Lemma load_words_spec m off bs : 0 ≤ off → Forall (fun b => length b = 8%nat) bs → Forall is_byte (concat bs) →
  take (length (concat bs)) (drop (Z.to_nat off) m) = concat bs →
  load_words m off (Z.of_nat (length bs)) = Ret (be_value <$> bs).
Proof.
  intros Ho Hbs Hb E. unfold load_words.
  destruct (foldM_seqZ (fun i w => w = be_value <$> take (Z.to_nat i) bs)
    (fun w i => v ← dl64 m (off + 8 * i); Ret (w ++ [v])) 0 (Z.of_nat (length bs)) []) as (w & -> & ->); [lia|done| |].
  - intros i w Hi ->. destruct (lookup_lt_is_Some_2 bs (Z.to_nat i)) as [b Eb]; [lia|].
    assert (length b = 8%nat) as Hl by exact (Forall_lookup_1 _ _ _ _ Hbs Eb).
    rewrite (dl64_spec m _ b); [|lia| |done|].
    + rewrite bind_ret. eexists. split; [done|]. replace (Z.to_nat (i + 1)) with (S (Z.to_nat i)) by lia.
      by rewrite (take_S_r _ _ _ Eb), fmap_app.
    + apply list_eq. intros j. destruct (decide (j < 8)%nat).
      * destruct (lookup_lt_is_Some_2 b j) as [x Ej]; [lia|]. rewrite lookup_take_lt, lookup_drop, Ej by done.
        pose proof (lookup_concat 8 bs (Z.to_nat i) b j x Hbs Eb Ej) as Hx. pose proof (lookup_lt_Some _ _ _ Hx).
        rewrite <-E, lookup_take_lt, lookup_drop in Hx by done. rewrite <-Hx. f_equal. lia.
      * rewrite lookup_take_ge by lia. symmetry. apply lookup_ge_None. lia.
    + apply Forall_concat in Hb. exact (Forall_lookup_1 _ _ _ _ Hb Eb).
  - rewrite Z.add_0_l, Nat2Z.id. by rewrite take_ge.
Qed.

(** ** The schedule *)

Lemma slide_length w : length w = 16%nat → length (Fips.slide w) = 16%nat.
Proof. intros Hl. unfold Fips.slide. rewrite length_app, length_drop. simpl. lia. Qed.
Lemma window_length_512 t : ∀ w, length w = 16%nat → length (Fips.window_at t w) = 16%nat.
Proof. induction t as [|t IH]; intros w Hw; [done|]. cbn [Fips.window_at]. by apply IH, slide_length. Qed.
Lemma slide_u64 w : Forall is_u64 w → Forall is_u64 (Fips.slide w).
Proof. intros Hw. apply Forall_app. split; [by apply Forall_drop|]. apply Forall_singleton, u64_range. Qed.
Lemma window_u64 t : ∀ w, Forall is_u64 w → Forall is_u64 (Fips.window_at t w).
Proof. induction t as [|t IH]; intros w Hw; [done|]. cbn [Fips.window_at]. by apply IH, slide_u64. Qed.
Lemma window_add s t w : Fips.window_at (s + t) w = Fips.window_at t (Fips.window_at s w).
Proof. revert w. induction s as [|s IH]; intros w; [done|]. apply IH. Qed.

Lemma window_lookup_512 w t : length w = 16%nat → (t < 16)%nat → Fips.window_at t w !! 0%nat = w !! t.
Proof.
  revert w. induction t as [|t IH]; intros w Hl Ht; [done|]. cbn [Fips.window_at]. rewrite IH by (try apply slide_length; done || lia).
  unfold Fips.slide. rewrite lookup_app_l by (rewrite length_drop; lia). by rewrite lookup_drop.
Qed.

(** The update in place, [j] words of which are done: the window is the rest of the old
    words and then the new ones. *)
Lemma schedule_step_spec x j : length x = 16%nat → Forall is_u64 x → (j < 16)%nat →
  schedule_step x (Z.of_nat j) = Ret (<[j := Fips.next_word (drop j x ++ take j x)]> x).
Proof.
  intros Hl Hu Hj. set (w := drop j x ++ take j x).
  assert (length w = 16%nat) as Hw by (unfold w; rewrite length_app, length_drop, length_take; lia).
  assert (∀ k : nat, (k < 16)%nat → load1 x ((Z.of_nat j + Z.of_nat k) mod 16) = Ret (w !!! k)) as L.
  { intros k Hk. pose proof (Z.mod_pos_bound (Z.of_nat j + Z.of_nat k) 16). apply load1_Ret; [lia|].
    assert (w !! k = Some (w !!! k)) as <- by (apply list_lookup_lookup_total_lt; lia). unfold w.
    destruct (decide (j + k < 16)%nat).
    - rewrite Z.mod_small, lookup_app_l, lookup_drop by (rewrite ?length_drop; lia). f_equal. lia.
    - rewrite lookup_app_r, length_drop, lookup_take_lt by (rewrite ?length_drop; lia). f_equal.
      rewrite <-(Z.mod_add _ (-1) 16), Z.mod_small by lia. lia. }
  assert (∀ k, (k < 16)%nat → is_u64 (w !!! k)) as Hwu.
  { intros k Hk. assert (Forall is_u64 w) as HF by (apply Forall_app; split; [by apply Forall_drop|by apply Forall_take]).
    refine (Forall_lookup_1 _ _ _ _ HF _). apply list_lookup_lookup_total_lt. lia. }
  pose proof (L 0%nat ltac:(lia)) as L0. rewrite Z.add_0_r, Z.mod_small in L0 by lia.
  pose proof (L 9%nat ltac:(lia)) as L9. pose proof (L 1%nat ltac:(lia)) as L1. pose proof (L 14%nat ltac:(lia)) as L14.
  change (Z.of_nat 9) with 9 in L9. change (Z.of_nat 1) with 1 in L1. change (Z.of_nat 14) with 14 in L14.
  unfold schedule_step. rewrite L0, bind_ret, L9, bind_ret, L1, bind_ret, L14, bind_ret, store1_Ret, Nat2Z.id by lia.
  destruct (sigmas_512 (w !!! 14%nat)) as (_ & _ & _ & ->); [apply Hwu; lia|].
  destruct (sigmas_512 (w !!! 1%nat)) as (_ & _ & -> & _); [apply Hwu; lia|].
  unfold Fips.next_word. do 3 f_equal. lia.
Qed.

Lemma schedule_loop x : length x = 16%nat → Forall is_u64 x →
  foldM schedule_step (seqZ 0 16) x = Ret (Fips.window_at 16 x).
Proof.
  intros Hl Hu.
  destruct (foldM_seqZ (fun j y => length y = 16%nat ∧ Forall is_u64 y ∧
      drop (Z.to_nat j) y ++ take (Z.to_nat j) y = Fips.window_at (Z.to_nat j) x) schedule_step 0 16 x)
    as (y & -> & Hly & _ & Hy); [lia| | |].
  - change (Z.to_nat 0) with 0%nat. by rewrite drop_0, take_0, app_nil_r.
  - intros j y Hj (Hly & Huy & Hy). pose proof (schedule_step_spec y (Z.to_nat j) Hly Huy ltac:(lia)) as E.
    rewrite Z2Nat.id in E by lia. eexists. split; [exact E|]. rewrite length_insert. split_and!; [done|apply Forall_insert; [done|apply u64_range]|].
    replace (Z.to_nat (j + 1)) with (Z.to_nat j + 1)%nat by lia. rewrite window_add, <-Hy. cbn [Fips.window_at].
    set (w := drop (Z.to_nat j) y ++ take (Z.to_nat j) y).
    destruct (lookup_lt_is_Some_2 y (Z.to_nat j)) as [v Ev]; [lia|].
    assert (drop 1 w = drop (S (Z.to_nat j)) y ++ take (Z.to_nat j) y) as Hd by (unfold w; by rewrite (drop_S _ _ _ Ev)).
    unfold Fips.slide. rewrite Hd. rewrite drop_insert_lt by lia. replace (Z.to_nat j + 1)%nat with (S (Z.to_nat j)) by lia.
    rewrite (take_S_r _ _ (Fips.next_word w)) by (apply list_lookup_insert_eq; lia). rewrite take_insert_ge by lia.
    by rewrite app_assoc.
  - change (Z.to_nat (0 + 16)) with 16%nat in *. by rewrite drop_ge, take_ge in Hy by lia; rewrite <-Hy.
Qed.

(** ** Rounds *)

Lemma u64_add_r x y : u64 (x + u64 y) = u64 (x + y).
Proof. unfold u64. by rewrite Zplus_mod_idemp_r. Qed.

Lemma shift_round {T} a0 a1 a2 a3 a4 a5 a6 a7 x t (k : list Z → outcome T) :
  (b ← store1 [a0; a1; a2; a3; a4; a5; a6; a7] 7 x;
   b3 ← load1 b 3;
   b ← store1 b 3 (u64 (b3 + t));
   a ← foldM (shift_step b) (seqZ 0 8) [a0; a1; a2; a3; a4; a5; a6; a7];
   k a) = k [x; a0; a1; a2; u64 (a3 + t); a4; a5; a6].
Proof. reflexivity. Qed.

Lemma round_values a w i ki wi : length a = 8%nat → Forall is_u64 a → 0 ≤ i →
  load1 K i = Ret ki → load1 w (i mod 16) = Ret wi →
  round_step (a, w) i =
    (w ← (if i mod 16 =? 15 then foldM schedule_step (seqZ 0 16) w else Ret w); Ret (Fips.Round ki wi a, w)) ∧
  length (Fips.Round ki wi a) = 8%nat ∧ Forall is_u64 (Fips.Round ki wi a).
Proof.
  intros Hl Hu Hi Hk Hw. destruct a as [|a0 [|a1 [|a2 [|a3 [|a4 [|a5 [|a6 [|a7 [|??]]]]]]]]]; simplify_eq Hl.
  rewrite !Forall_cons in Hu. destruct Hu as (H0 & H1 & H2 & H3 & H4 & H5 & H6 & H7 & _).
  split; [|split; [done|]].
  - unfold round_step. rewrite Hk, Hw. set (next := if i mod 16 =? 15 then _ else _). clearbody next.
    set (l := [a0; a1; a2; a3; a4; a5; a6; a7]).
    change (load1 l 0) with (Ret a0). change (load1 l 1) with (Ret a1). change (load1 l 2) with (Ret a2).
    change (load1 l 4) with (Ret a4). change (load1 l 5) with (Ret a5). change (load1 l 6) with (Ret a6).
    change (load1 l 7) with (Ret a7). rewrite !bind_ret. cbv zeta. unfold l. rewrite shift_round.
    destruct (sigmas_512 a0 H0) as (E0 & _). destruct (sigmas_512 a4 H4) as (_ & E1 & _).
    rewrite E0, E1, (Ch_Ch a4 a5 a6), (Maj_Maj a0 a1 a2) by done. unfold Fips.Round. cbv zeta.
    set (t := u64 (a7 + _ + _ + _ + _)). rewrite u64_add_r, Z.add_assoc. done.
  - unfold Fips.Round. repeat (apply Forall_cons; split; [first [done|apply u64_range]|]). constructor.
Qed.

Lemma rounds_S w h n : Fips.rounds K w h (S n) = Fips.Round (K !!! n) (Fips.W w n) (Fips.rounds K w h n).
Proof. unfold Fips.rounds. by rewrite seq_S, foldl_app. Qed.

Lemma round_loop_512 w h : length w = 16%nat → Forall is_u64 w → length h = 8%nat → Forall is_u64 h →
  ∃ w', foldM round_step (seqZ 0 80) (h, w) = Ret (Fips.rounds K w h 80, w') ∧
    length (Fips.rounds K w h 80) = 8%nat ∧ Forall is_u64 (Fips.rounds K w h 80).
Proof.
  intros Hlw Huw Hlh Huh.
  destruct (foldM_seqZ (fun i s => s = (Fips.rounds K w h (Z.to_nat i), Fips.window_at (16 * Z.to_nat (i / 16)) w) ∧
      length (Fips.rounds K w h (Z.to_nat i)) = 8%nat ∧ Forall is_u64 (Fips.rounds K w h (Z.to_nat i))) round_step 0 80 (h, w))
    as (s & -> & -> & Hl & Hu); [lia|done| |by eexists].
  intros i s Hi (-> & Hl & Hu). set (x := Fips.window_at (16 * Z.to_nat (i / 16)) w).
  assert (length x = 16%nat) as Hlx by by apply window_length_512. assert (Forall is_u64 x) as Hux by by apply window_u64.
  pose proof (Z.mod_pos_bound i 16) as Hm. pose proof (Z.div_mod i 16) as Hdm. pose proof (Z.div_pos i 16) as Hdp.
  destruct (lookup_lt_is_Some_2 K (Z.to_nat i)) as [ki Ek]; [change (length K) with 80%nat; lia|].
  destruct (lookup_lt_is_Some_2 x (Z.to_nat (i mod 16))) as [wi Ew]; [lia|].
  assert (Fips.W w (Z.to_nat i) = wi) as HW.
  { unfold Fips.W. replace (Z.to_nat i) with (16 * Z.to_nat (i / 16) + Z.to_nat (i mod 16))%nat by lia.
    rewrite window_add. fold x. apply list_lookup_total_correct. by rewrite window_lookup_512 by (done || lia). }
  destruct (round_values (Fips.rounds K w h (Z.to_nat i)) x i ki wi) as (-> & Hl' & Hu'); [done|done|lia|apply load1_Ret; [lia|done]|apply load1_Ret; [lia|done]|].
  assert (Fips.rounds K w h (Z.to_nat (i + 1)) = Fips.Round ki wi (Fips.rounds K w h (Z.to_nat i))) as Er.
  { replace (Z.to_nat (i + 1)) with (S (Z.to_nat i)) by lia. rewrite rounds_S, HW. by rewrite (list_lookup_total_correct _ _ _ Ek). }
  rewrite Er. destruct (Z.eqb_spec (i mod 16) 15) as [E15|E15].
  - rewrite schedule_loop, bind_ret by done. eexists. split; [done|]. split; [|done]. f_equal. unfold x. rewrite <-window_add.
    f_equal. rewrite <-(Z.div_unique (i + 1) 16 (i / 16 + 1) 0) by lia. lia.
  - rewrite bind_ret. eexists. split; [done|]. split; [|done]. do 2 f_equal.
    rewrite <-(Z.div_unique (i + 1) 16 (i / 16) (i mod 16 + 1)) by lia. done.
Qed.

(** ** Blocks *)

Lemma add_loop a z : length a = 8%nat → length z = 8%nat →
  let v := zip_with (fun x y => u64 (x + y)) a z in foldM add_step (seqZ 0 8) (a, z) = Ret (v, v).
Proof.
  intros Ha Hz v. destruct a as [|a0 [|a1 [|a2 [|a3 [|a4 [|a5 [|a6 [|a7 [|??]]]]]]]]]; simplify_eq Ha.
  destruct z as [|z0 [|z1 [|z2 [|z3 [|z4 [|z5 [|z6 [|z7 [|??]]]]]]]]]; simplify_eq Hz.
  unfold v. lazy beta iota zeta delta -[u64 Z.add]. done.
Qed.

Lemma hash_block_spec m k h block : 0 ≤ k → take 128 (drop (Z.to_nat (128 * k)) m) = block → length block = 128%nat →
  Forall is_byte block → length h = 8%nat → Forall is_u64 h →
  let h' := Fips.compress K h block in
  hash_block m (h, h) k = Ret (h', h') ∧ length h' = 8%nat ∧ Forall is_u64 h'.
Proof.
  intros Hk E Hl Hb Hlh Huh. destruct (concat_of_length 8 16 block) as (bs & Hn & Hbs & Ebs); [lia|].
  unfold hash_block, Fips.compress. rewrite Ebs, split_every_concat by (done || lia). rewrite Ebs in Hb, E.
  assert (Forall is_u64 (be_value <$> bs)) as HM.
  { apply Forall_fmap. pose proof (proj1 (Forall_concat _ _) Hb) as Hbb. apply Forall_forall. intros b Hin.
    rewrite Forall_forall in Hbs, Hbb. by apply be_value_u64; [apply Hbs|apply Hbb]. }
  assert (load_words m (128 * k) 16 = Ret (be_value <$> bs)) as ->.
  { change 16 with (Z.of_nat 16). rewrite <-Hn. apply load_words_spec; [lia|done|done|].
    rewrite (concat_length 8), Hn by done. exact E. }
  rewrite bind_ret. destruct (round_loop_512 (be_value <$> bs) h) as (w' & -> & Hlr & Hur); [by rewrite length_fmap|done..|].
  rewrite bind_ret. cbv beta iota. rewrite add_loop by done. split; [done|].
  rewrite length_zip_with, Hlr, Hlh. split; [done|]. apply Forall_lookup. intros i x Hx.
  apply lookup_zip_with_Some in Hx as (? & ? & -> & _). apply u64_range.
Qed.

Lemma be_value_be_bytes n v : be_value (be_bytes n v) = v mod 256 ^ Z.of_nat n.
Proof.
  revert v. induction n as [|n IH]; intros v; cbn [be_bytes]; [by rewrite Z.mod_1_r|].
  rewrite be_value_snoc, IH, Nat2Z.inj_succ, Z.pow_succ_r by lia.
  assert (0 < 256 ^ Z.of_nat n) by (apply Z.pow_pos_nonneg; lia). rewrite Z.rem_mul_r by lia. lia.
Qed.

(** Eight words as bytes. *)
Definition bytes_of (h : list Z) : list Z := concat (be_bytes 8 <$> h).

Lemma word_lengths h : Forall (fun b => length b = 8%nat) (be_bytes 8 <$> h).
Proof. apply Forall_fmap, Forall_forall. intros x _. apply be_bytes_length. Qed.

Lemma bytes_of_length h : length (bytes_of h) = (8 * length h)%nat.
Proof. unfold bytes_of. rewrite (concat_length 8) by apply word_lengths. by rewrite length_fmap. Qed.

Lemma bytes_of_bytes h : Forall is_byte (bytes_of h).
Proof. apply Forall_concat, Forall_fmap, Forall_forall. intros x _. apply be_bytes_range. Qed.

Lemma bytes_of_snoc l v : bytes_of (l ++ [v]) = bytes_of l ++ be_bytes 8 v.
Proof. unfold bytes_of. rewrite fmap_app, concat_app. cbn [fmap list_fmap concat]. by rewrite app_nil_r. Qed.

Lemma load_state h : length h = 8%nat → Forall is_u64 h → load_words (bytes_of h) 0 8 = Ret h.
Proof.
  intros Hl Hu. change 8 with (Z.of_nat 8). replace 8%nat with (length (be_bytes 8 <$> h)) by (by rewrite length_fmap).
  rewrite load_words_spec; [|done|apply word_lengths|apply bytes_of_bytes|].
  - f_equal. rewrite <-list_fmap_compose. transitivity (id <$> h); [|apply list_fmap_id].
    apply list_fmap_ext. intros i x Hx. unfold compose. rewrite be_value_be_bytes. apply Z.mod_small.
    exact (Forall_lookup_1 _ _ _ _ Hu Hx).
  - change (Z.to_nat 0) with 0%nat. rewrite drop_0. by rewrite take_ge.
Qed.

Lemma store_state z x : length z = 8%nat → length x = 64%nat →
  foldM (fun x i => zi ← load1 z i; ts64 x (8 * i) zi) (seqZ 0 8) x = Ret (bytes_of z).
Proof.
  intros Hz Hx.
  destruct (foldM_seqZ (fun i y => y = bytes_of (take (Z.to_nat i) z) ++ drop (8 * Z.to_nat i) x)
    (fun x i => zi ← load1 z i; ts64 x (8 * i) zi) 0 8 x) as (y & -> & ->); [lia|by rewrite drop_0| |].
  - intros i y Hi ->. destruct (lookup_lt_is_Some_2 z (Z.to_nat i)) as [v Ev]; [lia|]. rewrite (load1_Ret z i v), bind_ret by (done || lia).
    assert (length (bytes_of (take (Z.to_nat i) z)) = (8 * Z.to_nat i)%nat) as Hb by (rewrite bytes_of_length, length_take; lia).
    rewrite ts64_spec by (rewrite ?length_app, ?length_drop; lia). eexists. split; [done|].
    replace (Z.to_nat (8 * i)) with (8 * Z.to_nat i)%nat by lia. rewrite take_app_length' by done.
    replace (Z.to_nat (i + 1)) with (S (Z.to_nat i)) by lia. rewrite (take_S_r _ _ _ Ev).
    rewrite bytes_of_snoc, <-app_assoc. do 2 f_equal. rewrite <-drop_drop, drop_app_length' by done. rewrite drop_drop. f_equal. lia.
  - change (Z.to_nat (0 + 8)) with 8%nat. rewrite drop_ge, app_nil_r by lia. by rewrite take_ge by lia.
Qed.

#[local] Opaque Fips.compress.

(** [crypto_hashblocks] compresses the whole blocks of the message into the state. *)
Lemma hashblocks_spec h m n bs : length h = 8%nat → Forall is_u64 h → 0 ≤ n →
  Z.of_nat (length bs) = n / 128 → Forall (fun b => length b = 128%nat) bs → Forall is_byte (concat bs) →
  take (length (concat bs)) m = concat bs →
  crypto_hashblocks (bytes_of h) m n = Ret (n mod 128, bytes_of (foldl (Fips.compress K) h bs)) ∧
  length (foldl (Fips.compress K) h bs) = 8%nat ∧ Forall is_u64 (foldl (Fips.compress K) h bs).
Proof.
  intros Hl Hu Hn Hq Hbs Hb E. unfold crypto_hashblocks. rewrite load_state, bind_ret by done. rewrite <-Hq.
  destruct (foldM_seqZ (fun k s => let v := foldl (Fips.compress K) h (take (Z.to_nat k) bs) in
      s = (v, v) ∧ length v = 8%nat ∧ Forall is_u64 v) (hash_block m) 0 (Z.of_nat (length bs)) (h, h))
    as (s & -> & -> & Hlv & Huv); [lia|done| |].
  - intros k s Hk (-> & Hlv & Huv). destruct (lookup_lt_is_Some_2 bs (Z.to_nat k)) as [b Eb]; [lia|].
    assert (length b = 128%nat) as Hlb by exact (Forall_lookup_1 _ _ _ _ Hbs Eb).
    assert (Forall is_byte b) as Hbb by (apply Forall_concat in Hb; exact (Forall_lookup_1 _ _ _ _ Hb Eb)).
    destruct (hash_block_spec m k (foldl (Fips.compress K) h (take (Z.to_nat k) bs)) b) as (E1 & Hl1 & Hu1); [lia| |done..|].
    { apply list_eq. intros j. destruct (decide (j < 128)%nat).
      - destruct (lookup_lt_is_Some_2 b j) as [x Ej]; [lia|]. rewrite lookup_take_lt, lookup_drop, Ej by done.
        pose proof (lookup_concat 128 bs (Z.to_nat k) b j x Hbs Eb Ej) as Hx. pose proof (lookup_lt_Some _ _ _ Hx).
        rewrite <-E, lookup_take_lt in Hx by done. rewrite <-Hx. f_equal. lia.
      - rewrite lookup_take_ge by lia. symmetry. apply lookup_ge_None. lia. }
    eexists. split; [exact E1|]. cbv zeta. replace (Z.to_nat (k + 1)) with (S (Z.to_nat k)) by lia.
    rewrite (take_S_r _ _ _ Eb), foldl_app. cbn [foldl]. split; [reflexivity|]. split; [exact Hl1|exact Hu1].
  - rewrite Z.add_0_l, Nat2Z.id, take_ge in * by done. rewrite bind_ret. cbv beta iota.
    rewrite store_state by (try rewrite bytes_of_length; lia). by rewrite bind_ret.
Qed.

(** ** Messages *)

Lemma length_field n : 0 ≤ n < 2 ^ 64 → be_bytes 16 (8 * n) = replicate 7 0 ++ [Z.shiftr n 61 mod 256] ++ be_bytes 8 (u64 (Z.shiftl n 3)).
Proof.
  intros Hn. apply list_eq. intros i. destruct (decide (i < 16)%nat).
  2:{ rewrite !lookup_ge_None_2; [done|rewrite !length_app, length_replicate, be_bytes_length; simpl; lia|rewrite be_bytes_length; lia]. }
  rewrite be_bytes_lookup, Z.shiftr_div_pow2 by lia. destruct (decide (i < 7)%nat).
  - rewrite lookup_app_l by (rewrite length_replicate; lia). rewrite lookup_replicate_2 by done. f_equal.
    rewrite Z.div_small; [done|]. split; [lia|]. apply (Z.lt_le_trans _ (2 ^ 67)); [lia|]. apply Z.pow_le_mono_r; lia.
  - rewrite lookup_app_r by (rewrite length_replicate; lia). rewrite length_replicate. destruct (decide (i = 7)%nat) as [->|].
    + cbn [app lookup list_lookup Nat.sub]. rewrite Z.shiftr_div_pow2 by lia. do 2 f_equal.
      change (8 * Z.of_nat 8) with (3 + 61). rewrite Z.pow_add_r, <-Z.div_div by lia.
      change (2 ^ 3) with 8. rewrite Z.mul_comm, Z.div_mul by done. done.
    + rewrite lookup_app_r by (simpl; lia). cbn [length]. rewrite be_bytes_lookup by lia. f_equal.
      rewrite Z.shiftl_mul_pow2, Z.shiftr_div_pow2 by lia. change (2 ^ 3) with 8. replace (16 - 1 - i)%nat with (8 - 1 - (i - 7 - 1))%nat by lia.
      set (k := (8 - 1 - (i - 7 - 1))%nat). assert (k ≤ 7)%nat as Hk by lia. clearbody k. rewrite (Z.mul_comm n 8). set (v := 8 * n). clearbody v.
      unfold u64. apply Z.bits_inj'. intros j Hj. change 256 with (2 ^ 8). destruct (decide (j < 8)).
      * rewrite !Z.mod_pow2_bits_low, !Z.div_pow2_bits, Z.mod_pow2_bits_low by lia. done.
      * by rewrite !Z.mod_pow2_bits_high by lia.
Qed.

Lemma message_blocks (m : list Z) : ∃ bs tail, m = concat bs ++ tail ∧ Forall (fun b => length b = 128%nat) bs ∧
  Z.of_nat (length bs) = Z.of_nat (length m) / 128 ∧ Z.of_nat (length tail) = Z.of_nat (length m) mod 128.
Proof.
  set (q := Z.of_nat (length m) / 128). pose proof (Z.div_mod (Z.of_nat (length m)) 128) as Hdm. pose proof (Z.mod_pos_bound (Z.of_nat (length m)) 128).
  assert (0 ≤ q) by (apply Z.div_pos; lia). fold q in Hdm.
  destruct (concat_of_length 128 (Z.to_nat q) (take (128 * Z.to_nat q) m)) as (bs & Hn & Hbs & Ec); [rewrite length_take; lia|].
  exists bs, (drop (128 * Z.to_nat q) m). rewrite <-Ec, take_drop, length_drop. split_and!; [done|done|lia|lia].
Qed.

(** The blocks behind the whole blocks of the message. *)
Definition last_blocks (tail : list Z) (n : Z) : list Z :=
  tail ++ [0x80] ++ replicate (if decide (length tail < 112)%nat then 111 - length tail else 239 - length tail) 0 ++ be_bytes 16 (8 * n).

Lemma pad_last bs tail : Forall (fun b => length b = 128%nat) bs → (length tail < 128)%nat →
  Fips.pad (concat bs ++ tail) = concat bs ++ last_blocks tail (Z.of_nat (length (concat bs ++ tail))).
Proof.
  intros Hbs Ht. unfold Fips.pad, last_blocks. rewrite <-app_assoc. do 4 f_equal. f_equal.
  rewrite length_app, (concat_length 128) by done.
  rewrite <-(Z.mod_add _ (Z.of_nat (length bs)) 128) by done. case_decide.
  - rewrite Z.mod_small by lia. lia.
  - rewrite <-(Z.mod_add _ 1 128), Z.mod_small by lia. lia.
Qed.

Lemma last_blocks_length tail n : (length tail < 128)%nat →
  length (last_blocks tail n) = if decide (length tail < 112)%nat then 128%nat else 256%nat.
Proof.
  intros Ht. unfold last_blocks. rewrite !length_app, length_replicate, be_bytes_length. cbn [length]. case_decide; lia.
Qed.

Lemma last_blocks_bytes tail n : Forall is_byte tail → Forall is_byte (last_blocks tail n).
Proof.
  intros Ht. unfold last_blocks. apply Forall_app. split; [done|]. apply Forall_app. split; [by apply Forall_singleton|].
  apply Forall_app. split; [by apply Forall_replicate|apply be_bytes_range].
Qed.

(** The buffer that [crypto_hash] builds. *)
Lemma last_buffer tail n : 0 ≤ n < 2 ^ 64 → (length tail < 128)%nat →
  let len := 256 - 128 * (if Z.of_nat (length tail) <? 112 then 1 else 0) in
  ∃ x, (x ← store_bytes (replicate 256 0) 0 tail;
        x ← store1 x (Z.of_nat (length tail)) 128;
        x ← store1 x (len - 9) (Z.shiftr n 61 mod 256);
        ts64 x (len - 8) (u64 (Z.shiftl n 3))) = Ret x ∧
    Z.of_nat (length (last_blocks tail n)) = len ∧ take (length (last_blocks tail n)) x = last_blocks tail n.
Proof.
  intros Hn Ht len. set (lt := length tail) in *.
  set (k := if decide (lt < 112)%nat then (111 - lt)%nat else (239 - lt)%nat).
  set (r := if decide (lt < 112)%nat then 128%nat else 0%nat).
  assert (Z.of_nat (lt + 1 + k) = len - 16 ∧ (lt + 1 + k + 16 + r)%nat = 256%nat) as [Hlen Hr].
  { unfold k, r, len. case_decide; destruct (Z.ltb_spec (Z.of_nat lt) 112); lia. }
  assert (store_bytes (replicate 256 0) 0 tail = Ret (tail ++ 0 :: replicate k 0 ++ replicate 16 0 ++ replicate r 0)) as ->.
  { unfold store_bytes. rewrite length_replicate. fold lt. destruct (_ && _) eqn:E; [|rewrite andb_false_iff, !Z.leb_gt in E; lia]. f_equal. change (Z.to_nat 0) with 0%nat.
    rewrite take_0. cbn [app]. f_equal. rewrite drop_replicate. change (0 :: replicate k 0 ++ replicate 16 0 ++ replicate r 0)
      with (replicate 1 0 ++ replicate k 0 ++ replicate 16 0 ++ replicate r 0). rewrite <-!replicate_add. f_equal. fold lt. lia. }
  rewrite bind_ret.
  assert (∀ (l r : list Z) x y i, Z.of_nat (length l) = i → store1 (l ++ x :: r) i y = Ret (l ++ y :: r)) as Hst.
  { intros l r0 x y i <-. rewrite store1_Ret by (rewrite length_app; simpl; lia). rewrite Nat2Z.id, insert_app_r_alt, Nat.sub_diag by lia. done. }
  rewrite Hst, bind_ret by done.
  change (replicate 16 0 ++ replicate r 0) with (replicate 7 0 ++ 0 :: replicate 8 0 ++ replicate r 0).
  rewrite (app_comm_cons (replicate k 0)), (app_assoc tail), (app_assoc _ (replicate 7 0)).
  rewrite Hst, bind_ret by (rewrite !length_app; cbn [length]; rewrite !length_replicate; fold lt; lia).
  rewrite ts64_spec; [|lia|rewrite !length_app; cbn [length]; rewrite !length_app, !length_replicate; fold lt; lia].
  set (p := (tail ++ 128 :: replicate k 0) ++ replicate 7 0).
  assert (length (p ++ [Z.shiftr n 61 mod 256]) = Z.to_nat (len - 8)) as Hp
    by (unfold p; rewrite !length_app; cbn [length]; rewrite !length_replicate; fold lt; lia).
  eexists. split; [done|].
  assert (last_blocks tail n = p ++ [Z.shiftr n 61 mod 256] ++ be_bytes 8 (u64 (Z.shiftl n 3))) as Elast.
  { unfold last_blocks, p. fold lt k. rewrite length_field by done. by rewrite <-!app_assoc. }
  split; [rewrite last_blocks_length by done; unfold len; fold lt; case_decide; destruct (Z.ltb_spec (Z.of_nat lt) 112); lia|].
  change (p ++ Z.shiftr n 61 mod 256 :: replicate 8 0 ++ replicate r 0)
    with (p ++ [Z.shiftr n 61 mod 256] ++ replicate 8 0 ++ replicate r 0).
  set (q := Z.shiftr n 61 mod 256) in *. rewrite (app_assoc p [q]).
  rewrite (take_app_length' (p ++ [q]) (replicate 8 0 ++ replicate r 0) (Z.to_nat (len - 8))) by done.
  rewrite (app_assoc (p ++ [q])). replace ((p ++ [q]) ++ be_bytes 8 (u64 (Z.shiftl n 3))) with (last_blocks tail n)
    by (by rewrite Elast, (app_assoc p [q])).
  by apply take_app_length'.
Qed.

Lemma iv_bytes : iv = bytes_of H0 ∧ length H0 = 8%nat ∧ Forall is_u64 H0.
Proof.
  split_and!; [vm_compute; reflexivity|done|]. apply Forall_forall. intros x Hx.
  assert (forallb (fun x => (0 <=? x) && (x <? 2 ^ 64)) H0 = true) as Hall by (vm_compute; reflexivity).
  rewrite forallb_forall in Hall. apply list_elem_of_In, Hall in Hx. unfold is_u64. lia.
Qed.

Lemma hash_spec m n : 0 ≤ n < 2 ^ 64 → n ≤ Z.of_nat (length m) → Forall is_byte m →
  crypto_hash m n = Ret (Fips.sha512 K H0 (take (Z.to_nat n) m)).
Proof.
  intros Hn Hl Hb. set (msg := take (Z.to_nat n) m). assert (Z.of_nat (length msg) = n) as Hmsg by (unfold msg; rewrite length_take; lia).
  destruct (message_blocks msg) as (bs & tail & E & Hbs & Hq & Ht). rewrite Hmsg in Hq, Ht.
  pose proof (Z.mod_pos_bound n 128) as Hm.
  assert (Forall is_byte (concat bs) ∧ Forall is_byte tail) as [Hbb Hbt].
  { apply Forall_app. rewrite <-E. by apply Forall_take. }
  assert (m = concat bs ++ tail ++ drop (Z.to_nat n) m) as Em by (rewrite app_assoc, <-E; unfold msg; by rewrite take_drop).
  destruct iv_bytes as (Eiv & Hl0 & Hu0). unfold crypto_hash. rewrite Eiv.
  destruct (hashblocks_spec H0 m n bs) as (-> & Hl1 & Hu1); [done|done|lia|done|done|done| |].
  { rewrite Em. by apply take_app_length'. }
  rewrite bind_ret. cbv beta iota zeta. change 127 with (Z.ones 7). rewrite Z.land_ones by lia. change (2 ^ 7) with 128. rewrite <-Ht.
  assert (Z.of_nat (length (concat bs)) = n - Z.of_nat (length tail)) as Hc by (rewrite <-Hmsg, E, length_app; lia).
  assert (load_bytes m (n - Z.of_nat (length tail)) (Z.of_nat (length tail)) = Ret tail) as ->.
  { rewrite load_bytes_Ret by lia. rewrite <-Hc, !Nat2Z.id, Em, drop_app_length' by done. by rewrite take_app_length'. }
  rewrite bind_ret. destruct (last_buffer tail n) as (x & Ex & Hlx & Hx); [lia|lia|].
  set (len := 256 - 128 * _) in *. set (h1 := foldl _ _ bs) in *.
  assert (∀ k : list Z → outcome (list Z), (x ← store_bytes (replicate 256 0) 0 tail; x ← store1 x (Z.of_nat (length tail)) 128;
    x ← store1 x (len - 9) (Z.shiftr n 61 mod 256); x ← ts64 x (len - 8) (u64 (Z.shiftl n 3)); k x) = k x) as Hk.
  { intros k. destruct (store_bytes _ _ tail) as [x1| |]; [|done..]. rewrite bind_ret in Ex |- *.
    destruct (store1 x1 _ _) as [x2| |]; [|done..]. rewrite bind_ret in Ex |- *.
    destruct (store1 x2 _ _) as [x3| |]; [|done..]. rewrite bind_ret in Ex |- *. by rewrite Ex. }
  rewrite Hk. destruct (concat_of_length 128 (Z.to_nat (len / 128)) (last_blocks tail n)) as (ls & Hn2 & Hls & Els).
  { rewrite last_blocks_length in Hlx |- * by lia. rewrite <-Hlx. case_decide; done. }
  destruct (hashblocks_spec h1 x len ls) as (-> & _ & _); [done|done|lia| |done| | |].
  - rewrite Hn2, Z2Nat.id; [done|]. apply Z.div_pos; lia.
  - rewrite <-Els. by apply last_blocks_bytes.
  - by rewrite <-Els.
  - rewrite bind_ret. cbv beta iota. unfold Fips.sha512. rewrite E, (pad_last bs tail Hbs ltac:(lia)), <-E, Hmsg, Els, <-concat_app.
    rewrite (split_every_concat 128 (bs ++ ls)); [|lia|apply Forall_app; split; [exact Hbs|exact Hls]].
    rewrite foldl_app. reflexivity.
Qed.

(** C34: [crypto_hash] is SHA-512.  The hash of every message is the one FIPS 180-4
    defines, on the message padded with its length in bits; and the tables of the code
    are the standard's constants_512, the first 64 bits of the fractions of the cube roots of
    the first 80 primes and of the square roots of the first 8. *)
Theorem sha512_correct m n :
  0 ≤ n < 2 ^ 64 → n ≤ Z.of_nat (length m) → Forall is_byte m →
  crypto_hash m n = Ret (Fips.sha512 K H0 (take (Z.to_nat n) m)) ∧
  Fips.constants_for 3 410 K = true ∧ Fips.constants_for 2 20 H0 = true.
Proof. intros Hn Hl Hb. split; [by apply hash_spec|apply constants_512]. Qed.

Lemma sha512_correct_witness :
  crypto_hash [97; 98; 99] 3 = Ret (Fips.sha512 K H0 [97; 98; 99]).
Proof.
  destruct (sha512_correct [97; 98; 99] 3) as (H & _); [done|done|repeat constructor; done|exact H].
Defined.
