(* ===== verification/Ed25519.v ===== *)
(** * Signatures: the Ed25519 part of src/lib/tweetnacl.c

    Points in extended coordinates as four numbers of [Field25519], the reduction of a
    scalar modulo the order of the base point, and signing.  The static workspaces are
    overwritten before they are read, except where an argument gives their contents. *)

From S2P Require Import Prelude Ring Words Aes SshCrypto Field25519 Sha512.

(** ** Points *)

Definition D2 : gf := [0xf159; 0x26b2; 0x9b94; 0xebd6; 0xb156; 0x8283; 0x149a; 0x00e0;
  0xd130; 0xeef3; 0x80f2; 0x198e; 0xfce7; 0x56df; 0xd9dc; 0x2406].
Definition X : gf := [0xd51a; 0x8f25; 0x2d60; 0xc956; 0xa7b2; 0x9525; 0xc760; 0x692c;
  0xdc5c; 0xfdd6; 0xe231; 0xc0a4; 0x53fe; 0xcd6e; 0x36d3; 0x2169].
Definition Y : gf := 0x6658 :: replicate 15 0x6666.

(** [gf p[4]]. *)
Record point := Point { p0 : gf; p1 : gf; p2 : gf; p3 : gf }.

Definition add (p q : point) : outcome point :=
  a ← Z_ (p1 p) (p0 p);
  t ← Z_ (p1 q) (p0 q);
  a ← M a t;
  b ← A (p0 p) (p1 p);
  t ← A (p0 q) (p1 q);
  b ← M b t;
  c ← M (p3 p) (p3 q);
  c ← M c D2;
  d ← M (p2 p) (p2 q);
  d ← A d d;
  e ← Z_ b a;
  f ← Z_ d c;
  g ← A d c;
  h ← A b a;
  r0 ← M e f;
  r1 ← M h g;
  r2 ← M g f;
  r3 ← M e h;
  Ret (Point r0 r1 r2 r3).

Definition cswap (p q : point) (b : Z) : outcome (point * point) :=
  '(a0, b0) ← sel25519 (p0 p) (p0 q) b;
  '(a1, b1) ← sel25519 (p1 p) (p1 q) b;
  '(a2, b2) ← sel25519 (p2 p) (p2 q) b;
  '(a3, b3) ← sel25519 (p3 p) (p3 q) b;
  Ret (Point a0 a1 a2 a3, Point b0 b1 b2 b3).

Definition par25519 (m0 : gf) (a : gf) : outcome Z :=
  d ← pack25519 m0 (replicate 32 0) a;
  d0 ← load1 d 0;
  Ret (Z.land d0 1).

Definition pack (m0 : gf) (r : list Z) (p : point) : outcome (list Z) :=
  zi ← inv25519 (p2 p);
  tx ← M (p0 p) zi;
  ty ← M (p1 p) zi;
  r ← pack25519 m0 r ty;
  b ← par25519 m0 tx;
  r31 ← load1 r 31;
  store1 r 31 (Z.lxor r31 (Z.shiftl b 7) mod 256).

Definition scalarmult_step (s : list Z) (pq : point * point) (i : Z) : outcome (point * point) :=
  let '(p, q) := pq in
  si ← load1 s (i / 8);
  let b := Z.land (Z.shiftr si (Z.land i 7)) 1 in
  '(p, q) ← cswap p q b;
  q ← add q p;
  p ← add p p;
  cswap p q b.
Definition scalarmult (q : point) (s : list Z) : outcome (point * point) :=
  foldM (scalarmult_step s) (rev (seqZ 0 256)) (Point gf0 gf1 gf1 gf0, q).

Definition scalarbase (s : list Z) : outcome point :=
  q3 ← M X Y;
  '(p, _) ← scalarmult (Point X Y gf1 q3) s;
  Ret p.

(** ** Scalars *)

Definition L : list Z := [0xed; 0xd3; 0xf5; 0x5c; 0x1a; 0x63; 0x12; 0x58; 0xd6; 0x9c; 0xf7; 0xa2; 0xde; 0xf9; 0xde; 0x14;
  0; 0; 0; 0; 0; 0; 0; 0; 0; 0; 0; 0; 0; 0; 0; 0x10].

(** [L] is unsigned, so an expression with it is computed modulo 2^64 and converted
    to [i64] when it is stored. *)
Definition to_i64 (x : Z) : Z := (x + 2 ^ 63) mod 2 ^ 64 - 2 ^ 63.

Definition modL_inner (i : Z) (s : list Z * Z) (j : Z) : outcome (list Z * Z) :=
  let '(x, carry) := s in
  xi ← load1 x i;
  m ← i64 (16 * xi);
  l ← load1 L (j - (i - 32));
  xj ← load1 x j;
  let xj := to_i64 (xj + (carry - m * l)) in
  h ← i64 (xj + 128);
  let carry := Z.shiftr h 8 in
  c ← i64 (carry * 2 ^ 8);
  xj ← i64 (xj - c);
  x ← store1 x j xj;
  Ret (x, carry).

(** [j] is [i - 12] after the inner loop. *)
Definition modL_outer (x : list Z) (i : Z) : outcome (list Z) :=
  '(x, carry) ← foldM (modL_inner i) (seqZ (i - 32) 20) (x, 0);
  xj ← load1 x (i - 12);
  xj ← i64 (xj + carry);
  x ← store1 x (i - 12) xj;
  store1 x i 0.

Definition modL_top (s : list Z * Z) (j : Z) : outcome (list Z * Z) :=
  let '(x, carry) := s in
  x31 ← load1 x 31;
  l ← load1 L j;
  xj ← load1 x j;
  let xj := to_i64 (xj + (carry - Z.shiftr x31 4 * l)) in
  x ← store1 x j (Z.land xj 255);
  Ret (x, Z.shiftr xj 8).

Definition modL_sub (carry : Z) (x : list Z) (j : Z) : outcome (list Z) :=
  l ← load1 L j;
  xj ← load1 x j;
  store1 x j (to_i64 (xj - carry * l)).

Definition modL_out (s : list Z * list Z) (i : Z) : outcome (list Z * list Z) :=
  let '(r, x) := s in
  xi ← load1 x i;
  xn ← load1 x (i + 1);
  xn ← i64 (xn + Z.shiftr xi 8);
  x ← store1 x (i + 1) xn;
  r ← store1 r i (Z.land xi 255);
  Ret (r, x).

(** [r] has room for 32 bytes. *)
Definition modL (r x : list Z) : outcome (list Z) :=
  x ← foldM modL_outer (rev (seqZ 32 32)) x;
  '(x, carry) ← foldM modL_top (seqZ 0 32) (x, 0);
  x ← foldM (modL_sub carry) (seqZ 0 32) x;
  '(r, _) ← foldM modL_out (seqZ 0 32) (r, x);
  Ret r.

(** [r] has 64 bytes, which are the number and then, with zeros behind, the result. *)
Definition reduce (r : list Z) : outcome (list Z) :=
  x ← load_bytes r 0 64;
  r ← store_bytes r 0 (replicate 64 0);
  modL r x.

(** ** Signing *)

(** The fixed bits of the secret scalar. *)
Definition clamp_digest (d : list Z) : outcome (list Z) :=
  d0 ← load1 d 0;
  d ← store1 d 0 (Z.land d0 248);
  d31 ← load1 d 31;
  d ← store1 d 31 (Z.land d31 127);
  d31 ← load1 d 31;
  store1 d 31 (Z.lor d31 64).

(** [pk] and [sk] are the buffers of the caller, of 32 and 64 bytes. *)
Definition crypto_sign_keypair (ctx : AES_ctx) (rs : ssh_random_state) (m0 : gf) (pk sk : list Z) :
    outcome (Z * ssh_random_state * list Z * list Z) :=
  '(rs, sk) ← randombytes ctx rs (Some sk) 32;
  sk ← match sk with Some sk => Ret sk | None => Fault end;
  d ← crypto_hash sk 32;
  d ← clamp_digest d;
  p ← scalarbase d;
  pk ← pack m0 pk p;
  b ← load_bytes pk 0 32;
  sk ← store_bytes sk 32 b;
  Ret (0, rs, pk, sk).

Definition mac_step (h d : list Z) (i : Z) (x : list Z) (j : Z) : outcome (list Z) :=
  hi ← load1 h i;
  dj ← load1 d j;
  v ← load1 x (i + j);
  store1 x (i + j) (to_i64 (v + hi * dj)).

(** [sm] is the buffer for signature and message, of at least [n + 64] bytes; [modL] gets
    the part of it from 32 on.  The result has the length of the signed message, which the
    code stores through a pointer, and the buffer. *)
Definition crypto_sign (m0 : gf) (sm m : list Z) (n : Z) (sk : list Z) : outcome (Z * Z * list Z) :=
  d ← crypto_hash sk 32;
  d ← clamp_digest d;
  msg ← load_bytes m 0 n;
  sm ← store_bytes sm 64 msg;
  prefix ← load_bytes d 32 32;
  sm ← store_bytes sm 32 prefix;
  r ← crypto_hash (drop 32 sm) (n + 32);
  r ← reduce r;
  p ← scalarbase r;
  head ← load_bytes sm 0 32;
  head ← pack m0 head p;
  sm ← store_bytes sm 0 head;
  pk ← load_bytes sk 32 32;
  sm ← store_bytes sm 32 pk;
  h ← crypto_hash sm (n + 64);
  h ← reduce h;
  r32 ← load_bytes r 0 32;
  let x := r32 ++ replicate 32 0 in
  x ← foldM (fun x i => foldM (mac_step h d i) (seqZ 0 32) x) (seqZ 0 32) x;
  tail ← modL (drop 32 sm) x;
  sm ← store_bytes sm 32 tail;
  Ret (0, u64 (n + 64), sm).
