(* ===== verification/Ed25519ModL.v ===== *)
(** * Scalars modulo the order of the base point

    [modL] returns the least residue.  Its loops are followed by a bound for every
    limb, which is computed from the bounds before; that no step overflows is an
    evaluation of these bounds. *)

From S2P Require Import Prelude Ring Words Bytes Field25519 Field25519Props Field25519Pack Sha512 Ed25519.

Definition Lval : Z := 2 ^ 252 + 27742317777372353535851937790883648493.

Lemma L_value : le_value L = Lval ∧ le_value (take 20 L) = Lval - 16 * 256 ^ 31.
Proof. split; vm_compute; reflexivity. Qed.

(** ** Bounds *)

(** Every limb of [x] is at most its bound in [B]. *)
Definition below (B x : list Z) : Prop := Forall2 (fun b v => Z.abs v ≤ b) B x.

Definition bound_inner (i : nat) (s : list Z * Z) (j : nat) : option (list Z * Z) :=
  let '(B, c) := s in
  let m := B !!! j + c + 16 * B !!! i * (L !!! (j - (i - 32))%nat) in
  if m + 16 * B !!! i + 128 <? 2 ^ 62 then Some (<[j := 128]> B, (m + 128) / 256 + 1) else None.
Definition foldO {S T} (f : S → T → option S) (l : list T) (s : S) : option S :=
  foldl (fun s x => s ≫= fun s => f s x) (Some s) l.
Definition bound_outer (B : list Z) (i : nat) : option (list Z) :=
  match foldO (bound_inner i) (seq (i - 32) 20) (B, 0) with
  | Some (B, c) => if B !!! (i - 12)%nat + c <? 2 ^ 62
                   then Some (<[i := 0]> (<[(i - 12)%nat := B !!! (i - 12)%nat + c]> B)) else None
  | None => None
  end.

Lemma foldO_None {S T} (f : S → T → option S) l : foldl (fun s x => s ≫= fun s => f s x) None l = None.
Proof. induction l as [|x l IH]; [done|]. exact IH. Qed.

Lemma foldO_cons {S T} (f : S → T → option S) x l s s' :
  foldO f (x :: l) s = Some s' → ∃ s1, f s x = Some s1 ∧ foldO f l s1 = Some s'.
Proof.
  unfold foldO. cbn [foldl]. change (Some s ≫= fun s => f s x) with (f s x).
  destruct (f s x) as [s1|]; [by eauto|]. by rewrite foldO_None.
Qed.

Lemma below_lookup B x k v : below B x → x !! k = Some v → Z.abs v ≤ B !!! k.
Proof.
  intros Hb Hv. destruct (Forall2_lookup_r _ _ _ _ _ Hb Hv) as (b & Eb & H). by rewrite (list_lookup_total_correct _ _ _ Eb).
Qed.
Lemma below_insert B x k b v : below B x → Z.abs v ≤ b → below (<[k := b]> B) (<[k := v]> x).
Proof. intros. by apply Forall2_insert. Qed.
Lemma below_length B x : below B x → length B = length x.
Proof. apply Forall2_length. Qed.

(** ** The loop from the top *)

Lemma to_i64_small x : - 2 ^ 63 ≤ x < 2 ^ 63 → to_i64 x = x.
Proof. intros Hx. unfold to_i64. rewrite Z.mod_small by lia. lia. Qed.

Lemma carry_split v : let c := Z.shiftr (v + 128) 8 in - 128 ≤ v - c * 2 ^ 8 ≤ 127.
Proof.
  cbv zeta. rewrite Z.shiftr_div_pow2 by lia. pose proof (Z.div_mod (v + 128) (2 ^ 8)). pose proof (Z.mod_pos_bound (v + 128) (2 ^ 8)). lia.
Qed.

Lemma modL_inner_spec i j B c B' c' x carry xi :
  below B x → length x = 64%nat → (i < 64)%nat → (32 ≤ i)%nat → (i - 32 ≤ j < i - 12)%nat →
  x !! i = Some xi → Z.abs carry ≤ c → bound_inner i (B, c) j = Some (B', c') →
  ∃ x' carry', modL_inner (Z.of_nat i) (x, carry) (Z.of_nat j) = Ret (x', carry') ∧ below B' x' ∧ Z.abs carry' ≤ c' ∧
    length x' = 64%nat ∧ x' !! i = Some xi ∧
    le_value x' + carry' * 256 ^ (Z.of_nat j + 1) =
      le_value x + carry * 256 ^ Z.of_nat j - 16 * xi * (L !!! (j - (i - 32))%nat) * 256 ^ Z.of_nat j.
Proof.
  intros Hb Hl Hi Hi2 Hj Hxi Hc Hbound. unfold bound_inner in Hbound. set (k := (j - (i - 32))%nat) in *.
  set (m := B !!! j + c + 16 * B !!! i * (L !!! k)) in *. destruct (Z.ltb_spec (m + 16 * B !!! i + 128) (2 ^ 62)) as [Hm|]; [|done].
  injection Hbound as <- <-. destruct (lookup_lt_is_Some_2 x j) as [xj Hxj]; [lia|].
  destruct (lookup_lt_is_Some_2 L k) as [l Hlk]; [change (length L) with 32%nat; lia|].
  assert (m = B !!! j + c + 16 * B !!! i * l) as Em by (unfold m; by rewrite (list_lookup_total_correct _ _ _ Hlk)).
  rewrite (list_lookup_total_correct _ _ _ Hlk). clearbody m.
  assert (0 ≤ l < 256) as Hlr.
  { assert (Forall (fun l => 0 ≤ l < 256) L) as HF by (repeat constructor; done). exact (Forall_lookup_1 _ _ _ _ HF Hlk). }
  pose proof (below_lookup _ _ _ _ Hb Hxi) as Hbi. pose proof (below_lookup _ _ _ _ Hb Hxj) as Hbj.
  assert (Z.abs (16 * xi * l) ≤ 16 * B !!! i * l) as Hprod by (rewrite !Z.abs_mul; nia).
  set (v := xj + (carry - 16 * xi * l)). assert (Z.abs v ≤ m) as Hv by (unfold v; lia).
  unfold modL_inner. rewrite (load1_Ret x (Z.of_nat i) xi), bind_ret by (rewrite ?Nat2Z.id; done || lia). i64_step.
  rewrite (load1_Ret L _ l), bind_ret; [|lia|by replace (Z.to_nat (Z.of_nat j - (Z.of_nat i - 32))) with k by lia].
  rewrite (load1_Ret x (Z.of_nat j) xj), bind_ret by (rewrite ?Nat2Z.id; done || lia). fold v. cbv zeta. rewrite to_i64_small by lia.
  i64_step. pose proof (carry_split v) as Hs. cbv zeta in Hs. set (cr := Z.shiftr (v + 128) 8) in *.
  assert (Z.abs cr ≤ (m + 128) / 256 + 1) as Hcr.
  { unfold cr. rewrite Z.shiftr_div_pow2 by lia. change (2 ^ 8) with 256. apply Z.abs_le.
    split; [apply Z.div_le_lower_bound; pose proof (Z.mul_succ_div_gt (m + 128) 256); lia|].
    transitivity ((m + 128) / 256); [apply Z.div_le_mono; lia|lia]. }
  i64_step. i64_step. rewrite store1_Ret, Nat2Z.id, bind_ret by lia.
  eexists _, _. split; [done|]. rewrite length_insert. split_and!; [apply below_insert; [done|lia]|done|done| |].
  - rewrite list_lookup_insert_ne by lia. done.
  - rewrite (le_insert _ _ xj) by done. rewrite Z.pow_add_r by lia. change (256 ^ 1) with 256. change (2 ^ 8) with 256. unfold v. lia.
Qed.

Lemma modL_inner_loop i B B' c' x xi : below B x → length x = 64%nat → (32 ≤ i < 64)%nat → x !! i = Some xi →
  foldO (bound_inner i) (seq (i - 32) 20) (B, 0) = Some (B', c') →
  ∃ x' carry, foldM (modL_inner (Z.of_nat i)) (seqZ (Z.of_nat i - 32) 20) (x, 0) = Ret (x', carry) ∧ below B' x' ∧
    Z.abs carry ≤ c' ∧ length x' = 64%nat ∧ x' !! i = Some xi ∧
    le_value x' + carry * 256 ^ (Z.of_nat i - 12) = le_value x - 16 * xi * 256 ^ (Z.of_nat i - 32) * le_value (take 20 L).
Proof.
  intros Hb Hl Hi Hxi Hbound.
  assert (∀ n j B c x carry, (j + n = i - 12)%nat → (i - 32 ≤ j)%nat → below B x → length x = 64%nat → x !! i = Some xi →
    Z.abs carry ≤ c → foldO (bound_inner i) (seq j n) (B, c) = Some (B', c') →
    ∃ x' carry', foldM (modL_inner (Z.of_nat i)) (seqZ (Z.of_nat j) (Z.of_nat n)) (x, carry) = Ret (x', carry') ∧ below B' x' ∧
      Z.abs carry' ≤ c' ∧ length x' = 64%nat ∧ x' !! i = Some xi ∧
      le_value x' + carry' * 256 ^ (Z.of_nat i - 12) = le_value x + carry * 256 ^ Z.of_nat j
        - 16 * xi * 256 ^ (Z.of_nat i - 32) * (le_value (take 20 L) - le_value (take (j - (i - 32)) L))) as Hloop.
  { clear Hb Hl Hxi Hbound x B. induction n as [|n IH]; intros j B c x carry Hjn Hj Hb Hl Hxi' Hc Hbound.
    - injection Hbound as <- <-. exists x, carry. split; [done|]. split_and!; [done..|].
      replace (j - (i - 32))%nat with 20%nat by lia. replace (Z.of_nat j) with (Z.of_nat i - 12) by lia. lia.
    - change (seq j (S n)) with (j :: seq (S j) n) in Hbound.
      apply foldO_cons in Hbound as ([B1 c1] & Hone & Hrest).
      destruct (modL_inner_spec i j B c B1 c1 x carry xi) as (x1 & carry1 & E1 & Hb1 & Hc1 & Hl1 & Hx1 & Hv1); [done|done|lia|lia|lia|done|done|done|].
      rewrite seqZ_cons by lia. cbn [foldM]. rewrite E1, bind_ret.
      replace (Z.succ (Z.of_nat j)) with (Z.of_nat (S j)) by lia. replace (Z.pred (Z.of_nat (S n))) with (Z.of_nat n) by lia.
      destruct (IH (S j) B1 c1 x1 carry1) as (x2 & carry2 & E2 & Hb2 & Hc2 & Hl2 & Hx2 & Hv2); [lia|lia|done..|].
      exists x2, carry2. split_and!; [done..|]. rewrite Hv2.
      replace (Z.of_nat (S j)) with (Z.of_nat j + 1) by lia. rewrite Hv1.
      set (k := (j - (i - 32))%nat) in *. replace (S j - (i - 32))%nat with (S k) by lia.
      destruct (lookup_lt_is_Some_2 L k) as [l Hlk]; [change (length L) with 32%nat; lia|].
      rewrite (list_lookup_total_correct _ _ _ Hlk), (take_S_r _ _ _ Hlk), le_value_app, length_take, Nat.min_l by (change (length L) with 32%nat; lia).
      cbn [le_value]. replace (Z.of_nat j) with (Z.of_nat i - 32 + Z.of_nat k) by lia. rewrite Z.pow_add_r by lia. lia. }
  destruct (Hloop 20%nat (i - 32)%nat B 0 x 0) as (x' & carry & E & H1 & H2 & H3 & H4 & Hv); [lia|lia|done..|].
  replace (Z.of_nat (i - 32)) with (Z.of_nat i - 32) in E by lia. exists x', carry. split_and!; [done..|].
  rewrite Hv, Nat.sub_diag, take_0. change (le_value []) with 0. lia.
Qed.

Lemma modL_outer_spec i B B' x : below B x → length x = 64%nat → (32 ≤ i < 64)%nat → bound_outer B i = Some B' →
  ∃ x' q, modL_outer x (Z.of_nat i) = Ret x' ∧ below B' x' ∧ length x' = 64%nat ∧ le_value x' = le_value x - q * Lval.
Proof.
  intros Hb Hl Hi Hbound. unfold bound_outer in Hbound.
  destruct (foldO _ _ _) as [[B1 c]|] eqn:Eb; [|done]. destruct (Z.ltb_spec (B1 !!! (i - 12)%nat + c) (2 ^ 62)) as [Hlt|]; [|done].
  injection Hbound as <-. destruct (lookup_lt_is_Some_2 x i) as [xi Hxi]; [lia|].
  destruct (modL_inner_loop i B B1 c x xi Hb Hl Hi Hxi Eb) as (x1 & carry & E1 & Hb1 & Hc & Hl1 & Hx1 & Hv).
  destruct (lookup_lt_is_Some_2 x1 (i - 12)) as [y Hy]; [lia|]. pose proof (below_lookup _ _ _ _ Hb1 Hy) as Hyb.
  unfold modL_outer. rewrite E1, bind_ret. cbv beta iota. replace (Z.of_nat i - 12) with (Z.of_nat (i - 12)) in * by lia.
  rewrite (load1_Ret x1 (Z.of_nat (i - 12)) y), bind_ret by (rewrite ?Nat2Z.id; done || lia). i64_step.
  rewrite store1_Ret, bind_ret, store1_Ret by (rewrite ?length_insert; lia). rewrite !Nat2Z.id.
  eexists _, (16 * xi * 256 ^ (Z.of_nat i - 32)). split; [done|]. rewrite !length_insert.
  split; [apply below_insert; [apply below_insert; [done|lia]|lia]|]. split; [done|].
  rewrite (le_insert _ _ xi) by (by rewrite list_lookup_insert_ne by lia). rewrite (le_insert _ _ y) by done.
  pose proof (proj2 L_value) as HL. rewrite HL in Hv.
  replace (256 ^ Z.of_nat i) with (256 ^ (Z.of_nat i - 32) * 256 ^ 32) by (rewrite <-Z.pow_add_r by lia; f_equal; lia).
  change (256 ^ 32) with (256 * 256 ^ 31). lia.
Qed.

(** Limbs up to a million million, as reductions and signatures have far fewer. *)
Definition LIMB : Z := 2 ^ 40.
Definition done_bounds : list Z := replicate 20 128 ++ replicate 12 130 ++ replicate 32 0.

Lemma bounds_run : foldO bound_outer (rev (seq 32 32)) (replicate 64 LIMB) = Some done_bounds.
Proof. vm_compute. reflexivity. Qed.

Lemma modL_outer_loop x : bounded LIMB x → length x = 64%nat →
  ∃ x' q, foldM modL_outer (rev (seqZ 32 32)) x = Ret x' ∧ below done_bounds x' ∧ length x' = 64%nat ∧
    le_value x' = le_value x - q * Lval.
Proof.
  intros Hx Hl. assert (below (replicate 64 LIMB) x) as Hb.
  { rewrite <-Hl. clear Hl. induction Hx as [|v x Hv _ IH]; simpl; constructor; done. }
  assert (rev (seqZ 32 32) = Z.of_nat <$> rev (seq 32 32)) as -> by reflexivity.
  assert (Forall (fun i => 32 ≤ i < 64)%nat (rev (seq 32 32))) as Hr.
  { apply Forall_rev, Forall_forall. intros i Hi%elem_of_seq. lia. }
  pose proof bounds_run as Hbound. revert Hbound. clear Hx. revert x Hl Hb. generalize (replicate 64 LIMB) as B.
  induction Hr as [|i l Hi _ IH]; intros B x Hl Hb Hbound.
  - injection Hbound as <-. exists x, 0. split; [done|]. split_and!; [done..|lia].
  - apply foldO_cons in Hbound as (B1 & Hone & Hrest).
    destruct (modL_outer_spec i B B1 x Hb Hl Hi Hone) as (x1 & q1 & E1 & Hb1 & Hl1 & Hv1).
    destruct (IH B1 x1 Hl1 Hb1 Hrest) as (x2 & q2 & E2 & Hb2 & Hl2 & Hv2).
    cbn [fmap list_fmap foldM]. rewrite E1, bind_ret. exists x2, (q1 + q2). split; [done|]. split_and!; [done..|]. rewrite Hv2, Hv1. lia.
Qed.

(** ** The last multiples *)

(** One more digit: the carry out of [n] digits of [w] joins the limb [d]. *)
Lemma next_digit n w d :
  (w + 256 ^ Z.of_nat n * d) / 256 ^ Z.of_nat n = d + w / 256 ^ Z.of_nat n ∧
  le_bytes (S n) (w + 256 ^ Z.of_nat n * d) = le_bytes n w ++ [(d + w / 256 ^ Z.of_nat n) mod 256] ∧
  (w + 256 ^ Z.of_nat n * d) / 256 ^ Z.of_nat (S n) = (d + w / 256 ^ Z.of_nat n) / 256.
Proof.
  pose proof (pow256_pos n). assert ((w + 256 ^ Z.of_nat n * d) / 256 ^ Z.of_nat n = d + w / 256 ^ Z.of_nat n) as E.
  { rewrite Z.mul_comm, Z.div_add by lia. lia. }
  split_and!; [done| |].
  - by rewrite le_bytes_snoc, le_bytes_shift, E.
  - rewrite Nat2Z.inj_succ, Z.pow_succ_r, (Z.mul_comm 256), <-Z.div_div by lia. by rewrite E.
Qed.

Lemma land_255 v : Z.land v 255 = v mod 256.
Proof. change 255 with (Z.ones 8). by rewrite Z.land_ones. Qed.

Lemma L_lookup j : (j < 32)%nat → ∃ l, L !! j = Some l ∧ 0 ≤ l < 256.
Proof.
  intros Hj. destruct (lookup_lt_is_Some_2 L j) as [l Hlj]; [done|]. exists l. split; [done|].
  assert (Forall (fun l => 0 ≤ l < 256) L) as HF by (repeat constructor; done). exact (Forall_lookup_1 _ _ _ _ HF Hlj).
Qed.

Lemma le_value_bound b l : 0 ≤ b → bounded b l → 255 * Z.abs (le_value l) ≤ b * (256 ^ Z.of_nat (length l) - 1).
Proof.
  intros Hb. induction 1 as [|v l Hv _ IH]; [simpl; lia|]. cbn [le_value length]. rewrite Nat2Z.inj_succ, Z.pow_succ_r by lia. lia.
Qed.

Section top.
Context (x : list Z) (Hx : below done_bounds x) (Hl : length x = 64%nat) (x31 : Z) (H31 : x !! 31%nat = Some x31).
#[local] Set Default Proof Using "Hx Hl H31".

Definition quot : Z := Z.shiftr x31 4.
Definition part (j : nat) : Z := le_value (take j x) - quot * le_value (take j L).

Lemma small_limb j v : (j < 32)%nat → x !! j = Some v → Z.abs v ≤ 130.
Proof.
  intros Hj Hv. pose proof (below_lookup _ _ _ _ Hx Hv) as Hb.
  assert (∀ k, (k < 32)%nat → done_bounds !!! k ≤ 130) as Hd; [|specialize (Hd j Hj); lia].
  intros k Hk. assert (Forall (fun b => b ≤ 130) (take 32 done_bounds)) as HF by (repeat constructor; done).
  destruct (lookup_lt_is_Some_2 (take 32 done_bounds) k) as [b Eb]; [done|]. pose proof (Forall_lookup_1 _ _ _ _ HF Eb) as Hle.
  rewrite lookup_take_lt in Eb by done. by rewrite (list_lookup_total_correct _ _ _ Eb).
Qed.

Lemma quot_small : -9 ≤ quot ≤ 8.
Proof.
  pose proof (small_limb 31 x31 ltac:(lia) H31). unfold quot. rewrite Z.shiftr_div_pow2 by lia. change (2 ^ 4) with 16.
  split; [apply Z.div_le_lower_bound; lia|]. apply Z.lt_succ_r, Z.div_lt_upper_bound; lia.
Qed.

Lemma part_S j v l : x !! j = Some v → L !! j = Some l → part (S j) = part j + 256 ^ Z.of_nat j * (v - quot * l).
Proof. intros Hv Hlj. unfold part. rewrite (le_take_S _ _ _ Hv), (le_take_S _ _ _ Hlj). lia. Qed.

Lemma modL_top_loop : ∃ carry, foldM modL_top (seqZ 0 32) (x, 0) = Ret (le_bytes 32 (part 32) ++ drop 32 x, carry) ∧
  carry = part 32 / 2 ^ 256.
Proof.
  destruct (foldM_seqZ (fun j s => s = (le_bytes (Z.to_nat j) (part (Z.to_nat j)) ++ drop (Z.to_nat j) x,
      part (Z.to_nat j) / 256 ^ j) ∧ Z.abs (part (Z.to_nat j) / 256 ^ j) ≤ 20) modL_top 0 32 (x, 0)) as (s & -> & -> & _); [lia| | |].
  - change (Z.to_nat 0) with 0%nat. rewrite drop_0. assert (part 0 = 0) as -> by (unfold part; rewrite !take_0; simpl; lia). done.
  - intros j s Hj (-> & Hc). destruct (lookup_lt_is_Some_2 x (Z.to_nat j)) as [v Hv]; [lia|].
    destruct (L_lookup (Z.to_nat j)) as (l & Hlj & Hlr); [lia|].
    set (n := Z.to_nat j) in *. replace (256 ^ j) with (256 ^ Z.of_nat n) in * by (f_equal; lia). set (c := part n / _) in *.
    pose proof (small_limb n v ltac:(lia) Hv) as Hvb. pose proof quot_small as Hq.
    assert (Z.abs (quot * l) ≤ 9 * 255) as Hql by (rewrite Z.abs_mul; nia).
    unfold modL_top. assert (load1 (le_bytes n (part n) ++ drop n x) 31 = Ret x31) as ->.
    { apply load1_Ret; [lia|]. rewrite lookup_app_r by (rewrite le_bytes_length; lia). rewrite le_bytes_length, lookup_drop, <-H31.
      f_equal. lia. }
    rewrite bind_ret, (load1_Ret L j l), bind_ret by (done || lia). fold quot.
    rewrite (drop_S _ _ _ Hv). assert (Z.of_nat (length (le_bytes n (part n))) = j) as Hln by (rewrite le_bytes_length; lia).
    rewrite load1_mid, bind_ret by done. cbv zeta. rewrite to_i64_small by lia. rewrite store1_mid, bind_ret by done.
    eexists. split; [done|]. replace (Z.to_nat (j + 1)) with (S n) by lia. replace (256 ^ (j + 1)) with (256 ^ Z.of_nat (S n)) by (f_equal; lia).
    rewrite (part_S n v l Hv Hlj). destruct (next_digit n (part n) (v - quot * l)) as (_ & -> & ->). fold c.
    rewrite land_255, Z.shiftr_div_pow2, <-app_assoc by lia. change (2 ^ 8) with 256. cbn [app].
    replace (v + (c - quot * l)) with (v - quot * l + c) by lia. split; [done|]. apply Z.abs_le.
    split; [apply Z.div_le_lower_bound; lia|apply Z.div_le_upper_bound; lia].
  - exists (part 32 / 2 ^ 256). split; [|done]. change (Z.to_nat (0 + 32)) with 32%nat. done.
Qed.

Lemma whole_value : part 32 = le_value x - quot * Lval.
Proof.
  unfold part. rewrite (take_ge L) by done. rewrite (proj1 L_value). f_equal. rewrite <-(take_drop 32 x) at 2. rewrite le_value_app.
  rewrite (le_value_zeros (drop 32 x)); [lia|]. apply Forall_lookup. intros k v Hv. rewrite lookup_drop in Hv.
  pose proof (below_lookup _ _ _ _ Hx Hv) as Hb. assert (k < 32)%nat by (apply lookup_lt_Some in Hv; lia).
  assert (done_bounds !!! (32 + k)%nat = 0) as E0; [|lia]. apply list_lookup_total_correct.
  change (done_bounds !! (32 + k)%nat) with (replicate 32 0 !! k). by apply lookup_replicate_2.
Qed.

Lemma whole_range : - Lval < part 32 < 2 ^ 252.
Proof.
  unfold part. rewrite (take_ge L) by done. rewrite (proj1 L_value), (le_take_S x 31 x31 H31).
  pose proof (le_value_bound 130 (take 31 x) ltac:(lia)) as Hb. rewrite length_take, Nat.min_l in Hb by lia.
  assert (bounded 130 (take 31 x)) as Hb'.
  { apply Forall_lookup. intros k v Hv. apply lookup_take_Some in Hv as [Hv Hk]. apply (small_limb k); [lia|done]. }
  specialize (Hb Hb'). pose proof quot_small as Hq. unfold quot in *. rewrite Z.shiftr_div_pow2 in * by lia.
  pose proof (Z.div_mod x31 (2 ^ 4)). pose proof (Z.mod_pos_bound x31 (2 ^ 4)). unfold Lval.
  set (low := le_value (take 31 x)) in *. set (q := x31 / 2 ^ 4) in *. clearbody low q. clear -Hb Hq H H0.
  change (Z.of_nat 31) with 31 in *. lia.
Qed.
End top.

(** ** The digits *)

Lemma modL_sub_loop carry b x : length b = 32%nat → Forall is_byte b → length x = 32%nat → Z.abs carry ≤ 1 →
  foldM (modL_sub carry) (seqZ 0 32) (b ++ x) = Ret (zip_with (fun v l => v - carry * l) b L ++ x).
Proof.
  intros Hb Hbb Hx Hc.
  destruct (foldM_seqZ (fun j s => s = (zip_with (fun v l => v - carry * l) (take (Z.to_nat j) b) (take (Z.to_nat j) L) ++ drop (Z.to_nat j) b) ++ x)
    (modL_sub carry) 0 32 (b ++ x)) as (s & -> & ->); [lia| | |].
  - change (Z.to_nat 0) with 0%nat. by rewrite drop_0.
  - intros j s Hj ->. destruct (lookup_lt_is_Some_2 b (Z.to_nat j)) as [v Hv]; [lia|].
    destruct (L_lookup (Z.to_nat j)) as (l & Hlj & Hlr); [lia|].
    assert (is_byte v) as Hvb by exact (Forall_lookup_1 _ _ _ _ Hbb Hv). unfold is_byte in Hvb.
    assert (Z.abs (carry * l) ≤ 255) as Hcl by (rewrite Z.abs_mul; nia).
    assert (Z.of_nat (length (zip_with (fun v l => v - carry * l) (take (Z.to_nat j) b) (take (Z.to_nat j) L))) = j) as Hz.
    { rewrite length_zip_with, !length_take. change (length L) with 32%nat. lia. }
    unfold modL_sub. rewrite (load1_Ret L j l), bind_ret by (done || lia). rewrite (drop_S _ _ _ Hv), <-!app_assoc. cbn [app].
    rewrite load1_mid, bind_ret, to_i64_small, store1_mid by (done || lia). eexists. split; [done|].
    replace (Z.to_nat (j + 1)) with (S (Z.to_nat j)) by lia.
    rewrite (take_S_r _ _ _ Hv), (take_S_r _ _ _ Hlj), zip_with_app by (rewrite !length_take; change (length L) with 32%nat; lia).
    by rewrite <-!app_assoc.
  - change (Z.to_nat (0 + 32)) with 32%nat. by rewrite !take_ge, drop_ge, app_nil_r by (done || lia).
Qed.

Lemma le_zip_sub k b l : length b = length l → le_value (zip_with (fun v l => v - k * l) b l) = le_value b - k * le_value l.
Proof.
  revert l. induction b as [|v b IH]; intros [|w l] Hl; try done; [simpl; lia|]. cbn [zip_with le_value]. rewrite IH by (simpl in Hl; lia). lia.
Qed.

Lemma modL_out_loop r y : length y = 64%nat → bounded 510 y → (32 ≤ length r)%nat →
  ∃ x, foldM modL_out (seqZ 0 32) (r, y) = Ret (le_bytes 32 (le_value (take 32 y)) ++ drop 32 r, x).
Proof.
  intros Hl Hb Hr. set (w := fun j : nat => le_value (take j y)).
  destruct (foldM_seqZ (fun j s => ∃ x, s = (le_bytes (Z.to_nat j) (w (Z.to_nat j)) ++ drop (Z.to_nat j) r, x) ∧ length x = 64%nat ∧
      (∃ v, y !! Z.to_nat j = Some v ∧ x !! Z.to_nat j = Some (v + w (Z.to_nat j) / 256 ^ j)) ∧
      drop (S (Z.to_nat j)) x = drop (S (Z.to_nat j)) y ∧ Z.abs (w (Z.to_nat j) / 256 ^ j) ≤ 4) modL_out 0 32 (r, y))
    as (s & -> & x & -> & _); [lia| | |].
  - exists y. change (Z.to_nat 0) with 0%nat. rewrite drop_0. split_and!; [done|done| |done|done].
    destruct (lookup_lt_is_Some_2 y 0) as [v Hv]; [lia|]. exists v. split; [done|]. rewrite Hv. f_equal. assert (w 0%nat / 256 ^ 0 = 0) as -> by done. lia.
  - intros j s Hj (x & -> & Hlx & (v & Hv & Hxv) & Hd & Hc). set (n := Z.to_nat j) in *.
    replace (256 ^ j) with (256 ^ Z.of_nat n) in * by (f_equal; lia). set (c := w n / _) in *.
    destruct (lookup_lt_is_Some_2 y (S n)) as [u Hu]; [lia|].
    assert (x !! S n = Some u) as Hxu.
    { rewrite <-(Nat.add_0_r (S n)), <-lookup_drop, Hd, lookup_drop, Nat.add_0_r. done. }
    assert (Z.abs v ≤ 510) as Hvb by exact (Forall_lookup_1 _ _ _ _ Hb Hv). assert (Z.abs u ≤ 510) as Hub by exact (Forall_lookup_1 _ _ _ _ Hb Hu).
    assert (-3 ≤ (v + c) / 256 ≤ 3) as Hdc.
    { split; [apply Z.div_le_lower_bound; lia|apply Z.lt_succ_r, Z.div_lt_upper_bound; lia]. }
    destruct (lookup_lt_is_Some_2 r n) as [r0 Hr0]; [lia|].
    unfold modL_out. rewrite (load1_Ret x j (v + c)), bind_ret by (done || lia).
    rewrite (load1_Ret x (j + 1) u), bind_ret; [|lia|by replace (Z.to_nat (j + 1)) with (S n) by lia].
    rewrite Z.shiftr_div_pow2 by lia. change (2 ^ 8) with 256. i64_step. rewrite (store1_Ret x (j + 1)), bind_ret by lia.
    replace (Z.to_nat (j + 1)) with (S n) by lia.
    rewrite (drop_S _ _ _ Hr0), store1_mid, bind_ret by (rewrite le_bytes_length; lia).
    assert (w (S n) = w n + 256 ^ Z.of_nat n * v) as Hw by (unfold w; by apply le_take_S).
    destruct (next_digit n (w n) v) as (_ & E1 & E2). rewrite <-Hw in E1, E2. fold c in E1, E2.
    eexists. split; [done|]. exists (<[S n := u + (v + c) / 256]> x). replace (256 ^ (j + 1)) with (256 ^ Z.of_nat (S n)) by (f_equal; lia).
    rewrite E1, E2, length_insert, land_255. split_and!.
    + by rewrite <-app_assoc.
    + done.
    + exists u. split; [done|]. apply list_lookup_insert_eq. lia.
    + rewrite drop_insert_lt by lia. replace (S (S n)) with (S n + 1)%nat by lia. by rewrite <-!drop_drop, Hd.
    + lia.
  - exists x. change (Z.to_nat (0 + 32)) with 32%nat. done.
Qed.

(** [modL] writes the least residue, in 32 bytes. *)
Lemma modL_spec r x : length x = 64%nat → bounded LIMB x → (32 ≤ length r)%nat →
  modL r x = Ret (le_bytes 32 (le_value x mod Lval) ++ drop 32 r).
Proof.
  intros Hl Hb Hr. destruct (modL_outer_loop x Hb Hl) as (x1 & q1 & E1 & Hb1 & Hl1 & Hv1).
  destruct (lookup_lt_is_Some_2 x1 31) as [x31 H31]; [lia|].
  destruct (modL_top_loop x1 Hb1 Hl1 x31 H31) as (carry & E2 & Hc).
  pose proof (whole_value x1 Hb1 Hl1 x31 H31) as HW. pose proof (whole_range x1 Hb1 Hl1 x31 H31) as Hrange.
  set (W := part x1 x31 32) in *. clearbody W.
  assert (carry = if W <? 0 then -1 else 0) as Hcarry.
  { rewrite Hc. unfold Lval in Hrange. destruct (Z.ltb_spec W 0); [|apply Z.div_small; lia].
    symmetry. apply (Z.div_unique _ _ _ (W + 2 ^ 256)); lia. }
  unfold modL. rewrite E1, bind_ret, E2, bind_ret. cbv beta iota.
  rewrite modL_sub_loop; [|apply le_bytes_length|apply le_bytes_range|rewrite length_drop; lia|rewrite Hcarry; destruct (W <? 0); lia].
  rewrite bind_ret. set (y := zip_with _ _ _).
  assert (length y = 32%nat) as Hly by (unfold y; by rewrite length_zip_with, le_bytes_length).
  assert (Z.abs carry ≤ 1) as Hc1 by (rewrite Hcarry; destruct (W <? 0); lia).
  assert (bounded 510 (y ++ drop 32 x1)) as Hby.
  { apply Forall_app. split.
    - apply Forall_lookup. intros k v Hv. unfold y in Hv. apply lookup_zip_with_Some in Hv as (b & l & -> & Hbk & Hlk).
      destruct (L_lookup k) as (l' & Hl' & Hlr); [by apply lookup_lt_Some in Hlk|]. assert (l' = l) as -> by congruence.
      pose proof (Forall_lookup_1 _ _ _ _ (le_bytes_range 32 W) Hbk) as Hbb. unfold is_byte in Hbb.
      assert (Z.abs (carry * l) ≤ 255) by (rewrite Z.abs_mul; nia). simpl. lia.
    - apply Forall_drop, Forall_lookup. intros k v Hv. pose proof (below_lookup _ _ _ _ Hb1 Hv) as Hk.
      assert (Forall (fun b => b ≤ 510) done_bounds) as HF by (repeat constructor; done).
      assert (k < length done_bounds)%nat as Hkl by (rewrite (below_length _ _ Hb1); by eapply lookup_lt_Some).
      destruct (lookup_lt_is_Some_2 _ _ Hkl) as [b Eb]. rewrite (list_lookup_total_correct _ _ _ Eb) in Hk.
      pose proof (Forall_lookup_1 _ _ _ _ HF Eb). simpl in *. lia. }
  destruct (modL_out_loop r (y ++ drop 32 x1)) as (x' & ->); [rewrite length_app, Hly, length_drop; lia|done|done|].
  rewrite bind_ret. cbv beta iota. rewrite take_app_length' by done. do 2 f_equal.
  unfold y. rewrite le_zip_sub, (proj1 L_value) by (by rewrite le_bytes_length).
  rewrite le_value_le_bytes. change (256 ^ Z.of_nat 32) with (2 ^ 256). rewrite Hcarry.
  assert (le_value x mod Lval = if W <? 0 then W + Lval else W) as ->.
  { replace (le_value x) with (W + (quot x31 + q1) * Lval) by lia. rewrite Z.mod_add by done.
    unfold Lval in *. destruct (Z.ltb_spec W 0); [symmetry; apply (Z.mod_unique _ _ (-1)); lia|apply Z.mod_small; lia]. }
  unfold Lval in Hrange. destruct (Z.ltb_spec W 0).
  - rewrite <-(Z.mod_add W 1 (2 ^ 256)), Z.mod_small by lia.
    replace (W + 1 * 2 ^ 256 - -1 * Lval) with (W + Lval + 256 ^ Z.of_nat 32 * 1) by (change (256 ^ Z.of_nat 32) with (2 ^ 256); lia).
    apply le_bytes_shift.
  - rewrite Z.mod_small by lia. f_equal. lia.
Qed.
