(* ===== verification/Ed25519Props.v ===== *)
(** * Signatures: theorems

    The arithmetic of points is that of RFC 8032, and a signature is the one the RFC
    prescribes, with multiples of the base point computed by the ladder. *)

From Stdlib Require Import Zpow_facts.
From S2P Require Import Prelude Ring Words Bytes Field25519 Field25519Props Field25519Pack X25519 Aes SshCrypto Sha512 Sha512Props Sha512Blocks.
From S2P Require Import Ed25519 Ed25519ModL.

(** ** RFC 8032 *)

Definition d_const : Z := 37095705934669439343138083508754565189542113879843219016388785533085940283555.

(** Extended coordinates. *)
Record ext := Ext { eX : Z; eY : Z; eZ : Z; eT : Z }.

Definition ed_add (P Q : ext) : ext :=
  let A := ((eY P - eX P) * (eY Q - eX Q)) mod P25519 in
  let B := ((eY P + eX P) * (eY Q + eX Q)) mod P25519 in
  let C := (eT P * 2 * d_const * eT Q) mod P25519 in
  let D := (eZ P * 2 * eZ Q) mod P25519 in
  let E := B - A in
  let F := D - C in
  let G := D + C in
  let H := B + A in
  Ext ((E * F) mod P25519) ((G * H) mod P25519) ((F * G) mod P25519) ((E * H) mod P25519).

Definition Bx : Z := 15112221349535400772501151409588531511454012693041857206046113283949847762202.
Definition By : Z := 46316835694926478169428394003475163141307993866256225615783033603165251855960.
Definition base : ext := Ext Bx By 1 ((Bx * By) mod P25519).
Definition neutral : ext := Ext 0 1 1 0.

(** The constants are those of the curve: [d] is -121665/121666, the base point has
    [y] = 4/5 and an even [x], and lies on the curve. *)
Definition constants_ok : bool :=
  ((d_const * 121666 + 121665) mod P25519 =? 0) && ((5 * By - 4) mod P25519 =? 0) && Z.even Bx &&
  ((By ^ 2 - Bx ^ 2 - 1 - d_const * Bx ^ 2 * By ^ 2) mod P25519 =? 0).

(** Multiples by the ladder: the two points differ by [Q] before every bit. *)
Definition ed_swap (b : Z) (PQ : ext * ext) : ext * ext := if b =? 1 then (PQ.2, PQ.1) else PQ.
Definition ed_step (s : Z) (PQ : ext * ext) (i : Z) : ext * ext :=
  let b := Z.land (Z.shiftr s i) 1 in
  let '(P, Q) := ed_swap b PQ in
  ed_swap b (ed_add P P, ed_add Q P).
Definition ed_mul (s : Z) (Q : ext) : ext := (foldl (ed_step s) (neutral, Q) (rev (seqZ 0 256))).1.

(** The [y] coordinate with the lowest bit of [x] on top. *)
Definition ed_encode (P : ext) : list Z :=
  let zi := Zpow_mod (eZ P) (P25519 - 2) P25519 in
  let x := (eX P * zi) mod P25519 in
  let y := (eY P * zi) mod P25519 in
  le_bytes 32 (y + 2 ^ 255 * (x mod 2)).

Definition sha512 (msg : list Z) : list Z := Fips.sha512 K H0 msg.

(** The secret scalar and the prefix from the hash of the secret key. *)
Definition secret_scalar (sk : list Z) : Z := decode_scalar (take 32 (sha512 (take 32 sk))).
Definition secret_prefix (sk : list Z) : list Z := drop 32 (sha512 (take 32 sk)).

Definition ed_public (sk : list Z) : list Z := ed_encode (ed_mul (secret_scalar sk) base).
Definition ed_sign (sk msg : list Z) : list Z :=
  let r := le_value (sha512 (secret_prefix sk ++ msg)) mod Lval in
  let R := ed_encode (ed_mul r base) in
  let k := le_value (sha512 (R ++ take 32 (drop 32 sk) ++ msg)) mod Lval in
  R ++ le_bytes 32 ((r + k * secret_scalar sk) mod Lval).

Lemma curve_constants : constants_ok = true.
Proof. vm_compute. reflexivity. Qed.

(** ** Points as limbs *)

Record repb (c : Z) (l : gf) (v : Z) : Prop := { rb_limbs : limbs16 c l; rb_val : eqm (val l) v }.

Lemma repb_weaken c c' l v : repb c l v → c ≤ c' → repb c' l v.
Proof. intros [H1 H2] Hc. split; [|done]. by eapply limbs16_weaken. Qed.
Lemma repb_eqm c l v w : repb c l v → eqm v w → repb c l w.
Proof. intros [Hl Hv] E. split; [done|]. by rewrite Hv. Qed.
Lemma repb_A c a b v w : c ≤ 2 ^ 60 → repb c a v → repb c b w → ∃ o, A a b = Ret o ∧ repb (2 * c) o (v + w).
Proof.
  intros Hc [Ha Hva] [Hb Hvb]. destruct (A_spec c a b) as (o & E & Ho & Hv); [done..|].
  exists o. split; [done|]. split; [done|]. by rewrite Hv, Hva, Hvb.
Qed.
Lemma repb_Z c a b v w : c ≤ 2 ^ 60 → repb c a v → repb c b w → ∃ o, Z_ a b = Ret o ∧ repb (2 * c) o (v - w).
Proof.
  intros Hc [Ha Hva] [Hb Hvb]. destruct (Z_spec c a b) as (o & E & Ho & Hv); [done..|].
  exists o. split; [done|]. split; [done|]. by rewrite Hv, Hva, Hvb.
Qed.
Lemma repb_M c a b v w : c ≤ 2 ^ 24 → repb c a v → repb c b w → ∃ o, M a b = Ret o ∧ repb (2 ^ 17) o (v * w).
Proof.
  intros Hc [Ha Hva] [Hb Hvb]. destruct (M_product a b) as (o & E & Ho & Hv);
    [eapply limbs16_weaken; [done|lia]..|].
  exists o. split; [done|]. split; [by apply reduced_limbs|]. by rewrite Hv, Hva, Hvb.
Qed.

Record rep_point (p : point) (P : ext) : Prop := {
  rp_X : repb (2 ^ 17) (p0 p) (eX P);
  rp_Y : repb (2 ^ 17) (p1 p) (eY P);
  rp_Z : repb (2 ^ 17) (p2 p) (eZ P);
  rp_T : repb (2 ^ 17) (p3 p) (eT P) }.

Lemma D2_rep : repb (2 ^ 17) D2 (2 * d_const).
Proof. split; [split; [done|repeat constructor; done]|vm_compute; reflexivity]. Qed.

Lemma base_reps : repb (2 ^ 17) X Bx ∧ repb (2 ^ 17) Y By ∧ repb (2 ^ 17) gf1 1 ∧ repb (2 ^ 17) gf0 0.
Proof. split_and!; (split; [split; [done|repeat constructor; done]|vm_compute; reflexivity]). Qed.

Lemma add_spec p q P Q : rep_point p P → rep_point q Q → ∃ r, add p q = Ret r ∧ rep_point r (ed_add P Q).
Proof.
  intros [HX HY HZ HT] [HX' HY' HZ' HT']. unfold add.
  gf_op (repb_Z (2 ^ 17) _ _ _ _ ltac:(lia) HY HX) a1 Ha1. gf_op (repb_Z (2 ^ 17) _ _ _ _ ltac:(lia) HY' HX') t1 Ht1.
  gf_op (repb_M (2 * 2 ^ 17) _ _ _ _ ltac:(lia) Ha1 Ht1) a Ha.
  gf_op (repb_A (2 ^ 17) _ _ _ _ ltac:(lia) HX HY) b1 Hb1. gf_op (repb_A (2 ^ 17) _ _ _ _ ltac:(lia) HX' HY') t2 Ht2.
  gf_op (repb_M (2 * 2 ^ 17) _ _ _ _ ltac:(lia) Hb1 Ht2) b Hb.
  gf_op (repb_M (2 ^ 17) _ _ _ _ ltac:(lia) HT HT') c1 Hc1. gf_op (repb_M (2 ^ 17) _ _ _ _ ltac:(lia) Hc1 D2_rep) c Hc.
  gf_op (repb_M (2 ^ 17) _ _ _ _ ltac:(lia) HZ HZ') d1 Hd1. gf_op (repb_A (2 ^ 17) _ _ _ _ ltac:(lia) Hd1 Hd1) d Hd.
  pose proof (repb_weaken _ (2 * 2 ^ 17) _ _ Hc ltac:(lia)) as Hc'.
  gf_op (repb_Z (2 ^ 17) _ _ _ _ ltac:(lia) Hb Ha) e He. gf_op (repb_Z (2 * 2 ^ 17) _ _ _ _ ltac:(lia) Hd Hc') f Hf.
  gf_op (repb_A (2 * 2 ^ 17) _ _ _ _ ltac:(lia) Hd Hc') g Hg. gf_op (repb_A (2 ^ 17) _ _ _ _ ltac:(lia) Hb Ha) h Hh.
  pose proof (repb_weaken _ (2 * (2 * 2 ^ 17)) _ _ He ltac:(lia)) as He'.
  pose proof (repb_weaken _ (2 * (2 * 2 ^ 17)) _ _ Hh ltac:(lia)) as Hh'.
  gf_op (repb_M (2 * (2 * 2 ^ 17)) _ _ _ _ ltac:(lia) He' Hf) r0 Hr0. gf_op (repb_M (2 * (2 * 2 ^ 17)) _ _ _ _ ltac:(lia) Hh' Hg) r1 Hr1.
  gf_op (repb_M (2 * (2 * 2 ^ 17)) _ _ _ _ ltac:(lia) Hg Hf) r2 Hr2. gf_op (repb_M (2 * (2 * 2 ^ 17)) _ _ _ _ ltac:(lia) He' Hh') r3 Hr3.
  eexists. split; [done|]. unfold ed_add. cbv zeta.
  split; cbn [p0 p1 p2 p3 eX eY eZ eT]; (eapply repb_eqm; [eassumption|]); rewrite !eqm_mod;
    unfold eqm; f_equal; ring.
Qed.

Lemma repb_sel a b v w r : is_bit r → repb (2 ^ 17) a v → repb (2 ^ 17) b w →
  sel25519 a b r = Ret (if r =? 1 then (b, a) else (a, b)).
Proof. intros Hr Ha Hb. apply sel_spec; [apply Ha|apply Hb|done]. Qed.

Lemma cswap_spec p q P Q b : is_bit b → rep_point p P → rep_point q Q →
  ∃ p' q', Ed25519.cswap p q b = Ret (p', q') ∧ rep_point p' (ed_swap b (P, Q)).1 ∧ rep_point q' (ed_swap b (P, Q)).2.
Proof.
  intros Hb Hp Hq. pose proof Hp as [HX HY HZ HT]. pose proof Hq as [HX' HY' HZ' HT'].
  unfold Ed25519.cswap. rewrite (repb_sel _ _ _ _ _ Hb HX HX'), (repb_sel _ _ _ _ _ Hb HY HY'), (repb_sel _ _ _ _ _ Hb HZ HZ'), (repb_sel _ _ _ _ _ Hb HT HT').
  unfold ed_swap. destruct Hb as [-> | ->]; cbn; eexists _, _; (split; [reflexivity|]); done.
Qed.

(** ** Multiples *)

Lemma ed_step_spec s p q P Q i : Forall is_byte s → (32 ≤ length s)%nat → 0 ≤ i < 256 → rep_point p P → rep_point q Q →
  ∃ p' q', scalarmult_step s (p, q) i = Ret (p', q') ∧
    rep_point p' (ed_step (le_value (take 32 s)) (P, Q) i).1 ∧ rep_point q' (ed_step (le_value (take 32 s)) (P, Q) i).2.
Proof.
  intros Hs Hl Hi Hp Hq. assert (Z.shiftr i 3 = i / 8) as E8 by by rewrite Z.shiftr_div_pow2 by lia.
  assert (0 ≤ i / 8 < 32) as H8 by (split; [apply Z.div_pos; lia|apply Z.div_lt_upper_bound; lia]).
  destruct (lookup_lt_is_Some_2 s (Z.to_nat (i / 8))) as [si Hsi]; [lia|].
  unfold scalarmult_step, ed_step. rewrite (load1_Ret s (i / 8) si), bind_ret by (done || lia). cbv zeta.
  rewrite (scalar_bit (take 32 s) i si); [|by apply Forall_take|rewrite E8, lookup_take_lt by lia; done|lia]. set (b := Z.land _ 1).
  assert (is_bit b) as Hb by apply bit_is_bit. clearbody b.
  destruct (cswap_spec p q P Q b Hb Hp Hq) as (p1 & q1 & -> & Hp1 & Hq1). rewrite bind_ret. cbv beta iota.
  destruct (ed_swap b (P, Q)) as [P1 Q1]. cbn [fst snd] in Hp1, Hq1.
  destruct (add_spec q1 p1 Q1 P1 Hq1 Hp1) as (q2 & -> & Hq2). rewrite bind_ret.
  destruct (add_spec p1 p1 P1 P1 Hp1 Hp1) as (p2 & -> & Hp2). rewrite bind_ret.
  by apply cswap_spec.
Qed.

Lemma scalarmult_points s q Q : Forall is_byte s → (32 ≤ length s)%nat → rep_point q Q →
  ∃ p q', scalarmult q s = Ret (p, q') ∧ rep_point p (ed_mul (le_value (take 32 s)) Q).
Proof.
  intros Hs Hl Hq. unfold scalarmult, ed_mul.
  assert (Forall (fun i => 0 ≤ i < 256) (rev (seqZ 0 256))) as Hr by (apply Forall_rev, Forall_forall; intros i Hi%elem_of_seqZ; lia).
  destruct base_reps as (_ & _ & H1 & H0).
  assert (rep_point (Point gf0 gf1 gf1 gf0) neutral) as Hn by done. revert Hn. generalize (Point gf0 gf1 gf1 gf0) as p.
  generalize neutral as P. revert q Q Hq. induction Hr as [|i l Hi _ IH]; intros q Q Hq P p Hp; [by exists p, q|].
  destruct (ed_step_spec s p q P Q i Hs Hl Hi Hp Hq) as (p1 & q1 & E & Hp1 & Hq1). cbn [foldM foldl]. rewrite E, bind_ret.
  rewrite (surjective_pairing (ed_step (le_value (take 32 s)) (P, Q) i)). by apply IH.
Qed.

Lemma scalarbase_spec s : Forall is_byte s → (32 ≤ length s)%nat →
  ∃ p, scalarbase s = Ret p ∧ rep_point p (ed_mul (le_value (take 32 s)) base).
Proof.
  intros Hs Hl. unfold scalarbase. destruct base_reps as (HX & HY & H1 & _).
  gf_op (repb_M (2 ^ 17) _ _ _ _ ltac:(lia) HX HY) q3 Hq3.
  destruct (scalarmult_points s (Point X Y gf1 q3) base Hs Hl) as (p & q' & -> & Hp).
  { split; [done|done|done|]. eapply repb_eqm; [exact Hq3|]. unfold base. cbn [eT]. by rewrite eqm_mod. }
  rewrite bind_ret. by exists p.
Qed.

(** ** Encoding *)

Lemma par_spec m0 a v : length m0 = 16%nat → repb (2 ^ 24) a v → par25519 m0 a = Ret (v mod P25519 mod 2).
Proof.
  intros Hm [Ha Hv]. unfold par25519. rewrite pack_spec; [|done|done|eapply limbs16_weaken; [done|lia]].
  unfold eqm in Hv. rewrite Hv, bind_ret. cbn [le_bytes]. rewrite load1_head, bind_ret. f_equal.
  change 1 with (Z.ones 1) at 1. rewrite Z.land_ones by lia. change (2 ^ 1) with 2. set (w := v mod P25519). clearbody w.
  Z.div_mod_to_equations. lia.
Qed.

Lemma top_bit y b : 0 ≤ y < 2 ^ 255 → is_bit b →
  (r31 ← load1 (le_bytes 32 y) 31; store1 (le_bytes 32 y) 31 (Z.lxor r31 (Z.shiftl b 7) mod 256)) = Ret (le_bytes 32 (y + 2 ^ 255 * b)).
Proof.
  intros Hy Hb. replace (y + 2 ^ 255 * b) with (y + 256 ^ Z.of_nat 31 * (128 * b)) by (change (256 ^ Z.of_nat 31) with (2 ^ 248); lia).
  destruct (next_digit 31 y (128 * b)) as (_ & -> & _). rewrite (le_bytes_snoc 31 y).
  assert (0 ≤ y / 256 ^ Z.of_nat 31 < 128) as Ht.
  { change (256 ^ Z.of_nat 31) with (2 ^ 248). split; [apply Z.div_pos; lia|apply Z.div_lt_upper_bound; lia]. }
  set (t := y / 256 ^ Z.of_nat 31) in *. clearbody t.
  assert (Z.of_nat (length (le_bytes 31 y)) = 31) as Hl by by rewrite le_bytes_length.
  rewrite load1_mid, bind_ret, store1_mid by done. do 3 f_equal. rewrite (Z.mod_small t) by lia.
  destruct Hb as [-> | ->]; [rewrite Z.shiftl_0_l, Z.lxor_0_r; f_equal; lia|]. f_equal.
  change (Z.shiftl 1 7) with (2 ^ 7). rewrite <-Z.add_nocarry_lxor; [lia|]. apply Z.bits_inj'. intros i Hi.
  rewrite Z.land_spec, Z.bits_0, Z.pow2_bits_eqb by lia. destruct (Z.eqb_spec 7 i) as [<-|]; [|apply andb_false_r].
  by rewrite (high_bits t 7) by lia.
Qed.

Lemma pack_point m0 r p P : length m0 = 16%nat → length r = 32%nat → rep_point p P → pack m0 r p = Ret (ed_encode P).
Proof.
  intros Hm Hr [HX HY HZ HT]. unfold pack, ed_encode. cbv zeta.
  destruct (inv_spec (p2 p)) as (zi & -> & Hzi & Hv); [eapply limbs16_weaken; [apply HZ|lia]|]. rewrite bind_ret.
  set (w := Zpow_mod (eZ P) (P25519 - 2) P25519).
  assert (repb (2 ^ 17) zi w) as Hw.
  { split; [by apply reduced_limbs|]. unfold w. rewrite Hv, (rb_val _ _ _ HZ), Zpow_mod_correct by done. by rewrite eqm_mod. }
  clearbody w. clear Hv. gf_op (repb_M (2 ^ 17) _ _ _ _ ltac:(lia) HX Hw) tx Htx. gf_op (repb_M (2 ^ 17) _ _ _ _ ltac:(lia) HY Hw) ty Hty.
  rewrite pack_spec; [|done|done|eapply limbs16_weaken; [apply Hty|lia]]. rewrite bind_ret.
  rewrite (par_spec m0 tx (eX P * w)), bind_ret; [|done|eapply repb_weaken; [exact Htx|lia]].
  assert (val ty mod P25519 = (eY P * w) mod P25519) as -> by apply Hty.
  assert (0 ≤ (eY P * w) mod P25519 < P25519) as Hy by by apply Z.mod_pos_bound.
  rewrite (top_bit ((eY P * w) mod P25519) ((eX P * w) mod P25519 mod 2)); [reflexivity|unfold P25519 in *; lia|].
  set (x := (eX P * w) mod P25519). clearbody x. pose proof (Z.mod_pos_bound x 2). unfold is_bit. lia.
Qed.

(** ** Keys *)

Lemma sha512_bytes msg : Forall is_byte (sha512 msg).
Proof. apply bytes_of_bytes. Qed.

Lemma Round_length k w v : length (Fips.Round k w v) = length v.
Proof. by destruct v as [|? [|? [|? [|? [|? [|? [|? [|? [|??]]]]]]]]]. Qed.

Lemma compress_length h b : length (Fips.compress K h b) = length h.
Proof.
  unfold Fips.compress, Fips.rounds. rewrite length_zip_with.
  assert (∀ l h, length (foldl (fun v t => Fips.Round (K !!! t) (Fips.W (be_value <$> split_every 8 b) t) v) h l) = length h) as ->.
  { induction l as [|t l IH]; intros h'; [done|]. cbn [foldl]. by rewrite IH, Round_length. }
  lia.
Qed.

Lemma sha512_length msg : length (sha512 msg) = 64%nat.
Proof.
  unfold sha512, Fips.sha512. fold (bytes_of (foldl (Fips.compress K) H0 (split_every 128 (Fips.pad msg)))). rewrite bytes_of_length.
  assert (∀ l h, length (foldl (Fips.compress K) h l) = length h) as ->; [|done].
  induction l as [|b l IH]; intros h; [done|]. cbn [foldl]. by rewrite IH, compress_length.
Qed.

Lemma land_byte v m : is_byte v → 0 ≤ m < 256 → is_byte (Z.land v m).
Proof. intros Hv Hm. apply (land_range 8); unfold is_byte in *; lia. Qed.

Lemma split_32 (l b : list Z) h : length l = 31%nat → take 32 (l ++ h :: b) = l ++ [h] ∧ drop 32 (l ++ h :: b) = b.
Proof.
  intros Hl. change (l ++ h :: b) with (l ++ [h] ++ b). rewrite app_assoc.
  split; [apply take_app_length'|apply drop_app_length']; rewrite length_app; simpl; lia.
Qed.

Lemma clamp_digest_spec d : length d = 64%nat → Forall is_byte d →
  ∃ d', clamp_digest d = Ret d' ∧ length d' = 64%nat ∧ Forall is_byte d' ∧ drop 32 d' = drop 32 d ∧
    le_value (take 32 d') = decode_scalar (take 32 d).
Proof.
  intros Hl Hd. destruct d as [|d0 r]; [done|].
  assert (∃ a h b, r = a ++ h :: b ∧ length a = 30%nat) as (a & h & b & -> & Ha).
  { destruct (lookup_lt_is_Some_2 r 30) as [h Hh]; [simpl in Hl; lia|]. exists (take 30 r), h, (drop 31 r).
    rewrite (take_drop_middle r 30 h Hh), length_take. split; [done|]. simpl in Hl. lia. }
  apply Forall_cons in Hd as [Hd0 Hr]. apply Forall_app in Hr as [Hfa Hfb]. apply Forall_cons in Hfb as [Hhb Hfb].
  assert (∀ x, Z.of_nat (length (x :: a)) = 31) as Hla by (intros x; simpl; lia).
  unfold clamp_digest. rewrite load1_head, bind_ret, store1_head, bind_ret.
  change (Z.land d0 248 :: a ++ h :: b) with ((Z.land d0 248 :: a) ++ h :: b).
  rewrite load1_mid, bind_ret, store1_mid, bind_ret, load1_mid, bind_ret, store1_mid by done.
  eexists. split; [done|]. change (d0 :: a ++ h :: b) with ((d0 :: a) ++ h :: b) in *.
  destruct (split_32 (Z.land d0 248 :: a) b (Z.lor (Z.land h 127) 64)) as [-> ->]; [simpl; lia|].
  destruct (split_32 (d0 :: a) b h) as [-> ->]; [simpl; lia|]. split_and!.
  - rewrite <-Hl, !length_app. done.
  - apply Forall_app. split; (constructor; [|done]); [apply land_byte; [done|lia]|].
    apply (lor_range 8); [lia|apply land_byte; [done|lia]|lia].
  - done.
  - unfold decode_scalar. cbn [app]. rewrite take_app_length', app_nth2 by lia. by rewrite Ha.
Qed.

Lemma reduce_spec r : length r = 64%nat → Forall is_byte r →
  reduce r = Ret (le_bytes 32 (le_value r mod Lval) ++ replicate 32 0).
Proof.
  intros Hl Hb. unfold reduce. rewrite load_bytes_Ret, bind_ret by lia. change (Z.to_nat 0) with 0%nat. rewrite drop_0, take_ge by lia.
  assert (store_bytes r 0 (replicate 64 0) = Ret (replicate 64 0)) as ->.
  { unfold store_bytes. rewrite Hl. cbn [Z.to_nat]. rewrite drop_ge by (rewrite Hl; done). done. }
  rewrite bind_ret, modL_spec; [reflexivity|done| |rewrite length_replicate; lia]. eapply Forall_impl; [exact Hb|]. unfold is_byte, LIMB. simpl. lia.
Qed.

Lemma le_bytes_value v : 0 ≤ v < Lval → le_value (le_bytes 32 v) = v.
Proof. intros Hv. rewrite le_value_le_bytes. apply Z.mod_small. change (256 ^ Z.of_nat 32) with (2 ^ 256). unfold Lval in Hv. lia. Qed.

Lemma ed_encode_bytes P : length (ed_encode P) = 32%nat ∧ Forall is_byte (ed_encode P).
Proof. split; [apply le_bytes_length|apply le_bytes_range]. Qed.

#[local] Opaque Fips.sha512 ed_mul ed_encode.

Lemma hash_sha512 m n k : 0 ≤ n < 2 ^ 64 → n ≤ Z.of_nat (length m) → Forall is_byte m → k = Z.to_nat n →
  crypto_hash m n = Ret (sha512 (take k m)).
Proof. intros Hn Hl Hb ->. by apply hash_spec. Qed.

(** The secret scalar, and its multiple of the base point. *)
Lemma secret_point sk : (32 ≤ length sk)%nat → Forall is_byte sk → ∃ d0 d p,
  crypto_hash sk 32 = Ret d0 ∧ clamp_digest d0 = Ret d ∧ length d = 64%nat ∧ Forall is_byte d ∧
  drop 32 d = secret_prefix sk ∧ le_value (take 32 d) = secret_scalar sk ∧
  scalarbase d = Ret p ∧ rep_point p (ed_mul (secret_scalar sk) base).
Proof.
  intros Hl Hb. destruct (clamp_digest_spec (sha512 (take 32 sk)) (sha512_length _) (sha512_bytes _)) as (d & E & Hld & Hd & Hp & Hs).
  destruct (scalarbase_spec d Hd) as (p & Ep & Hrp); [lia|]. exists (sha512 (take 32 sk)), d, p.
  split; [apply hash_sha512; [lia|lia|exact Hb|reflexivity]|]. split; [exact E|]. split; [exact Hld|]. split; [exact Hd|].
  split; [exact Hp|]. split; [exact Hs|]. split; [exact Ep|]. rewrite Hs in Hrp. exact Hrp.
Qed.

Lemma store_mid {T} (a b b' c : list T) off : Z.of_nat (length a) = off → length b = length b' →
  store_bytes (a ++ b ++ c) off b' = Ret (a ++ b' ++ c).
Proof.
  intros <- Hb. unfold store_bytes. rewrite !length_app.
  destruct (_ && _) eqn:E; [|rewrite andb_false_iff, !Z.leb_gt in E; lia]. f_equal.
  rewrite Nat2Z.id, take_app_length. do 2 f_equal. rewrite app_assoc, drop_app_length'; [done|]. rewrite length_app. lia.
Qed.
Lemma load_mid {T} (a b c : list T) off n : Z.of_nat (length a) = off → Z.of_nat (length b) = n →
  load_bytes (a ++ b ++ c) off n = Ret b.
Proof.
  intros <- <-. rewrite load_bytes_Ret by (rewrite ?length_app; lia). rewrite !Nat2Z.id, drop_app_length, take_app_length. done.
Qed.

(** A term by a name with an equation, so that it is not evaluated. *)
Ltac name_it t x E := assert (∃ x, t = x) as [x E] by eauto; rewrite E in *.

(** The key pair of the 32 bytes that the generator hands out. *)
Lemma keypair_spec ctx rs rs' m0 pk sk random : length m0 = 16%nat → length pk = 32%nat → length sk = 64%nat →
  length random = 32%nat → Forall is_byte random → randombytes ctx rs (Some sk) 32 = Ret (rs', Some (random ++ drop 32 sk)) →
  Forall is_byte sk → crypto_sign_keypair ctx rs m0 pk sk = Ret (0, rs', ed_public random, random ++ ed_public random).
Proof.
  intros Hm Hpk Hsk Hr Hb Erand Hsb. unfold crypto_sign_keypair. rewrite Erand, bind_ret. clear Erand. cbv beta iota. rewrite bind_ret.
  destruct (secret_point (random ++ drop 32 sk)) as (d0 & d & p & E0 & Ed & _ & _ & _ & _ & Ep & Hp).
  { rewrite length_app. lia. }
  { apply Forall_app. split; [exact Hb|by apply Forall_drop]. }
  rewrite E0, bind_ret, Ed, bind_ret, Ep, bind_ret. clear E0 Ed Ep.
  rewrite (pack_point m0 pk p _ Hm Hpk Hp), bind_ret. clear Hp p.
  assert (ed_encode (ed_mul (secret_scalar (random ++ drop 32 sk)) base) = ed_public random) as ->.
  { unfold ed_public, secret_scalar. rewrite take_app_length' by lia. rewrite (take_ge random) by lia. reflexivity. }
  destruct (ed_encode_bytes (ed_mul (secret_scalar random) base)) as [He _]. fold (ed_public random) in He.
  name_it (ed_public random) e Ee. clear Ee. rewrite load_bytes_Ret by lia. change (Z.to_nat 0) with 0%nat. change (Z.to_nat 32) with 32%nat.
  rewrite drop_0, take_ge, bind_ret by lia.
  pose proof (store_mid random (drop 32 sk) e [] 32 ltac:(lia) ltac:(rewrite length_drop; lia)) as Es. rewrite !app_nil_r in Es.
  rewrite Es, bind_ret. reflexivity.
Qed.


(** ** Signatures *)

Section mac.
Context (h d r : list Z) (Hh : Forall is_byte h) (Hd : Forall is_byte d) (Hr : Forall is_byte r).
Context (Hlh : (32 ≤ length h)%nat) (Hld : (32 ≤ length d)%nat) (Hlr : length r = 32%nat).
#[local] Set Default Proof Using "Hh Hd Hr Hlh Hld Hlr".

(** Every place has had at most one product from each row. *)
Definition mac_bound (i j : nat) (x : list Z) : Prop :=
  length x = 64%nat ∧
  ∀ k v, x !! k = Some v → 0 ≤ v ≤ 256 + (if decide (i ≤ k < i + j)%nat then Z.of_nat i + 1 else Z.of_nat i) * 65536.

Lemma mac_row i x hi : (i < 32)%nat → h !! i = Some hi → mac_bound i 0 x →
  ∃ x', foldM (mac_step h d (Z.of_nat i)) (seqZ 0 32) x = Ret x' ∧ mac_bound (S i) 0 x' ∧
    le_value x' = le_value x + 256 ^ Z.of_nat i * hi * le_value (take 32 d).
Proof.
  intros Hi Hhi [Hl Hx]. assert (is_byte hi) as Hhb by exact (Forall_lookup_1 _ _ _ _ Hh Hhi). unfold is_byte in Hhb.
  destruct (foldM_seqZ (fun j s => mac_bound i (Z.to_nat j) s ∧
      le_value s = le_value x + 256 ^ Z.of_nat i * hi * le_value (take (Z.to_nat j) d)) (mac_step h d (Z.of_nat i)) 0 32 x)
    as (x' & -> & [Hl' Hx'] & Hv); [lia| | |].
  - split; [done|]. rewrite take_0. simpl (le_value []). lia.
  - intros j s Hj [[Hls Hs] Hv]. destruct (lookup_lt_is_Some_2 d (Z.to_nat j)) as [dj Hdj]; [lia|].
    destruct (lookup_lt_is_Some_2 s (i + Z.to_nat j)) as [z Hz]; [lia|].
    assert (is_byte dj) as Hdb by exact (Forall_lookup_1 _ _ _ _ Hd Hdj). unfold is_byte in Hdb.
    pose proof (Hs _ _ Hz) as Hzb. rewrite decide_False in Hzb by lia.
    assert (0 ≤ hi * dj ≤ 65025) as Hp by nia.
    unfold mac_step. rewrite (load1_Ret h _ hi), bind_ret by (rewrite ?Nat2Z.id; done || lia).
    rewrite (load1_Ret d j dj), bind_ret by (done || lia).
    replace (Z.of_nat i + j) with (Z.of_nat (i + Z.to_nat j)) by lia.
    rewrite (load1_Ret s _ z), bind_ret by (rewrite ?Nat2Z.id; done || lia). rewrite to_i64_small by lia.
    rewrite store1_Ret by lia. rewrite Nat2Z.id. eexists. split; [done|].
    replace (Z.to_nat (j + 1)) with (S (Z.to_nat j)) by lia. split; [split|].
    + by rewrite length_insert.
    + intros k w Hk. destruct (decide (k = i + Z.to_nat j)%nat) as [->|Hne].
      * rewrite list_lookup_insert_eq in Hk by lia. injection Hk as <-. rewrite decide_True by lia. lia.
      * rewrite list_lookup_insert_ne in Hk by done. specialize (Hs k w Hk). repeat case_decide; lia.
    + rewrite (le_insert _ _ z _ Hz), Hv, (le_take_S _ _ _ Hdj), Nat2Z.inj_add, Z.pow_add_r by lia. lia.
  - exists x'. split; [done|]. split; [split; [done|]|].
    + intros k w Hk. specialize (Hx' k w Hk). repeat case_decide; lia.
    + rewrite Hv. by change (Z.to_nat (0 + 32)) with 32%nat.
Qed.

Lemma mac_spec : ∃ x, foldM (fun x i => foldM (mac_step h d i) (seqZ 0 32) x) (seqZ 0 32) (r ++ replicate 32 0) = Ret x ∧
  length x = 64%nat ∧ bounded LIMB x ∧ le_value x = le_value r + le_value (take 32 h) * le_value (take 32 d).
Proof.
  destruct (foldM_seqZ (fun i x => mac_bound (Z.to_nat i) 0 x ∧
      le_value x = le_value r + le_value (take (Z.to_nat i) h) * le_value (take 32 d))
    (fun x i => foldM (mac_step h d i) (seqZ 0 32) x) 0 32 (r ++ replicate 32 0)) as (x & E & [Hl Hx] & Hv); [lia| | |].
  - split; [split; [rewrite length_app, length_replicate; lia|]|].
    + intros k v Hk. change (Z.to_nat 0) with 0%nat. rewrite decide_False by lia. apply lookup_app_Some in Hk as [Hk|[_ Hk]].
      * pose proof (Forall_lookup_1 _ _ _ _ Hr Hk) as Hb. unfold is_byte in Hb. lia.
      * apply lookup_replicate in Hk as [-> _]. lia.
    + rewrite le_value_app, (le_value_zeros (replicate 32 0)) by (by apply Forall_replicate). rewrite take_0. simpl (le_value []). lia.
  - intros i x Hi [Hb Hv]. destruct (lookup_lt_is_Some_2 h (Z.to_nat i)) as [hi Hhi]; [lia|].
    destruct (mac_row (Z.to_nat i) x hi ltac:(lia) Hhi Hb) as (x' & E & Hb' & Hv'). rewrite Z2Nat.id in E by lia.
    exists x'. split; [done|]. replace (Z.to_nat (i + 1)) with (S (Z.to_nat i)) by lia. split; [done|].
    rewrite Hv', Hv, (le_take_S _ _ _ Hhi). lia.
  - exists x. split; [done|]. split; [done|]. split; [|by change (Z.to_nat (0 + 32)) with 32%nat in Hv].
    apply Forall_lookup. intros k v Hk. specialize (Hx k v Hk). change (Z.to_nat (0 + 32)) with 32%nat in Hx. unfold LIMB.
    simpl. case_decide; lia.
Qed.
End mac.

(** The second half of a signature, with [R] in its place. *)
Lemma sign_rest a pre msg rest n sk d r scal R : length a = 32%nat → length pre = 32%nat → length R = 32%nat → Forall is_byte R →
  Z.of_nat (length msg) = n → 0 ≤ n < 2 ^ 63 → Forall is_byte msg → Forall is_byte rest → length sk = 64%nat →
  Forall is_byte sk → length d = 64%nat → Forall is_byte d → le_value (take 32 d) = scal → 0 ≤ r < Lval →
  (sm ← store_bytes (a ++ pre ++ msg ++ rest) 0 R;
   pk ← load_bytes sk 32 32;
   sm ← store_bytes sm 32 pk;
   h ← crypto_hash sm (n + 64);
   h ← reduce h;
   r32 ← load_bytes (le_bytes 32 r ++ replicate 32 0) 0 32;
   x ← foldM (fun x i => foldM (mac_step h d i) (seqZ 0 32) x) (seqZ 0 32) (r32 ++ replicate 32 0);
   tail ← modL (drop 32 sm) x;
   sm ← store_bytes sm 32 tail;
   Ret (0, u64 (n + 64), sm)) =
  Ret (0, n + 64, (R ++ le_bytes 32 ((r + le_value (sha512 (R ++ take 32 (drop 32 sk) ++ msg)) mod Lval * scal) mod Lval)) ++ msg ++ rest).
Proof.
  intros Ha Hlp HlR HRb Hmsg Hn Hmb Hrb Hsk Hsb Hld Hdb Hsc Hr.
  pose proof (store_mid [] a R (pre ++ msg ++ rest) 0 eq_refl ltac:(lia)) as Es. cbn [app] in Es. rewrite Es, bind_ret. clear Es.
  set (A := take 32 (drop 32 sk)). assert (length A = 32%nat) as HA by (unfold A; rewrite length_take, length_drop; lia).
  assert (Forall is_byte A) as HAb by (unfold A; by apply Forall_take, Forall_drop).
  assert (load_bytes sk 32 32 = Ret A) as -> by (rewrite load_bytes_Ret by lia; reflexivity). clearbody A.
  rewrite bind_ret, store_mid, bind_ret by lia.
  rewrite (hash_sha512 (R ++ A ++ msg ++ rest) (n + 64) (length (R ++ A ++ msg))), bind_ret;
    [|lia|rewrite !length_app; lia|by repeat (apply Forall_app; split)|rewrite !length_app; lia].
  pose proof (take_app_length (R ++ A ++ msg) rest) as Et. rewrite <-!app_assoc in Et. rewrite Et. clear Et. pose proof (sha512_length (R ++ A ++ msg)) as Hl1. pose proof (sha512_bytes (R ++ A ++ msg)) as Hb1.
  name_it (sha512 (R ++ A ++ msg)) h1 Eh1. clear Eh1. rewrite reduce_spec, bind_ret by assumption.
  assert (0 ≤ le_value h1 mod Lval < Lval) as Hk by by apply Z.mod_pos_bound. name_it (le_value h1 mod Lval) k Ek. clear Ek Hl1 Hb1 h1.
  pose proof (load_mid [] (le_bytes 32 r) (replicate 32 0) 0 32 eq_refl ltac:(by rewrite le_bytes_length)) as El.
  cbn [app] in El. rewrite El, bind_ret. clear El.
  assert (Forall is_byte (le_bytes 32 k ++ replicate 32 0)) as Hhb.
  { apply Forall_app. split; [apply le_bytes_range|by apply Forall_replicate]. }
  destruct (mac_spec (le_bytes 32 k ++ replicate 32 0) d (le_bytes 32 r) Hhb Hdb (le_bytes_range _ _)) as (x & -> & Hlx & Hbx & Hvx);
    [rewrite length_app, le_bytes_length; lia|lia|apply le_bytes_length|].
  rewrite take_app_length', !le_bytes_value, Hsc in Hvx by (done || by rewrite le_bytes_length).
  rewrite bind_ret, drop_app_length' by lia.
  rewrite modL_spec, bind_ret, Hvx by (done || rewrite !length_app; lia). rewrite drop_app_length' by lia.
  set (s := (r + k * scal) mod Lval).
  pose proof (store_mid R (A ++ msg ++ rest) (le_bytes 32 s ++ msg ++ rest) [] 32 ltac:(lia) ltac:(rewrite !length_app, le_bytes_length; lia)) as Es.
  rewrite !app_nil_r in Es. rewrite Es, bind_ret, app_assoc. unfold u64. rewrite Z.mod_small by lia. reflexivity.
Qed.

(** A buffer as the places of the two halves of a signature, of the message, and the rest. *)
Lemma split_buffer (sm : list Z) k : (64 + k ≤ length sm)%nat →
  ∃ a b c, sm = a ++ b ++ c ++ drop (64 + k) sm ∧ length a = 32%nat ∧ length b = 32%nat ∧ length c = k.
Proof.
  intros H. exists (take 32 sm), (take 32 (drop 32 sm)), (take k (drop 64 sm)). rewrite !length_take, !length_drop.
  split; [|lia]. rewrite <-(drop_drop sm k 64), take_drop.
  replace (drop 64 sm) with (drop 32 (drop 32 sm)) by (by rewrite drop_drop). by rewrite !take_drop.
Qed.

Lemma sign_spec m0 sm m n sk msg : length m0 = 16%nat → n + 64 ≤ Z.of_nat (length sm) → Forall is_byte sm → 0 ≤ n < 2 ^ 63 →
  load_bytes m 0 n = Ret msg → Z.of_nat (length msg) = n → Forall is_byte msg → length sk = 64%nat → Forall is_byte sk →
  crypto_sign m0 sm m n sk = Ret (0, n + 64, ed_sign sk msg ++ msg ++ drop (64 + length msg) sm).
Proof.
  intros Hm Hsm Hsmb Hn Hload Hmsg Hmb Hsk Hsb. unfold ed_sign. cbv zeta.
  destruct (secret_point sk ltac:(lia) Hsb) as (d0 & d & _ & E0 & Ed & Hld & Hdb & Hpre & Hsc & _ & _).
  destruct (split_buffer sm (length msg) ltac:(lia)) as (a & b & c & Esm & Ha & Hb & Hc).
  assert (Forall is_byte (drop (64 + length msg) sm)) as Hrb by by apply Forall_drop.
  name_it (drop (64 + length msg) sm) rest Erest. clear Erest Hsmb. subst sm. rewrite !length_app in Hsm.
  unfold crypto_sign. rewrite E0, bind_ret, Ed, bind_ret, Hload, bind_ret. clear E0 Ed Hload.
  assert (store_bytes (a ++ b ++ c ++ rest) 64 msg = Ret (a ++ b ++ msg ++ rest)) as ->.
  { pose proof (store_mid (a ++ b) c msg rest 64 ltac:(rewrite length_app; lia) Hc) as E. by rewrite <-!app_assoc in E. }
  name_it (secret_prefix sk) pre Epre. name_it (secret_scalar sk) scal Esc. clear Epre Esc.
  rewrite bind_ret. assert (load_bytes d 32 32 = Ret pre) as ->.
  { rewrite <-Hpre, load_bytes_Ret by lia. change (Z.to_nat 32) with 32%nat. by rewrite take_ge by (rewrite length_drop; lia). }
  assert (length pre = 32%nat) as Hlp by (rewrite <-Hpre, length_drop; lia).
  assert (Forall is_byte pre) as Hpb by (rewrite <-Hpre; by apply Forall_drop).
  rewrite bind_ret, store_mid, bind_ret by lia. rewrite drop_app_length' by lia.
  rewrite (hash_sha512 (pre ++ msg ++ rest) (n + 32) (length (pre ++ msg))), bind_ret;
    [|lia|rewrite !length_app; lia|by repeat (apply Forall_app; split)|rewrite length_app; lia].
  pose proof (take_app_length (pre ++ msg) rest) as Et. rewrite <-!app_assoc in Et. rewrite Et. clear Et. pose proof (sha512_length (pre ++ msg)) as Hl1. pose proof (sha512_bytes (pre ++ msg)) as Hb1.
  name_it (sha512 (pre ++ msg)) h1 Eh1. clear Eh1. rewrite reduce_spec, bind_ret by assumption.
  assert (0 ≤ le_value h1 mod Lval < Lval) as Hr by by apply Z.mod_pos_bound. name_it (le_value h1 mod Lval) r Er. clear Er Hl1 Hb1 h1.
  destruct (scalarbase_spec (le_bytes 32 r ++ replicate 32 0)) as (p & -> & Hp).
  { apply Forall_app. split; [apply le_bytes_range|by apply Forall_replicate]. }
  { rewrite length_app, le_bytes_length. lia. }
  rewrite take_app_length', le_bytes_value in Hp by (by rewrite ?le_bytes_length). rewrite bind_ret.
  pose proof (load_mid [] a (pre ++ msg ++ rest) 0 32 eq_refl ltac:(lia)) as El. cbn [app] in El. rewrite El, bind_ret. clear El.
  rewrite (pack_point m0 a p _ Hm Ha Hp), bind_ret. destruct (ed_encode_bytes (ed_mul r base)) as [HlR HRb].
  name_it (ed_encode (ed_mul r base)) enc ER. clear ER Hp. by apply sign_rest.
Qed.

(** Signatures are those of RFC 8032.  For every secret key and every message
    [crypto_sign] returns the message behind 64 bytes: the encoding of the multiple of the
    base point by the hash of prefix and message, and the least residue, modulo the order
    of the base point, of that hash plus the hash of the first part, the public key and the
    message times the secret scalar.  Hashes are SHA-512, scalars are clamped, points are
    added by the formulas of the RFC modulo 2^255 - 19, and no intermediate result of the
    field or of the reduction modulo the order leaves 64 bits. *)
Theorem ed25519_sign_correct m0 sm m n sk :
  length m0 = 16%nat → Z.of_nat (length sm) = n + 64 → Forall is_byte sm → 0 ≤ n < 2 ^ 63 → n ≤ Z.of_nat (length m) →
  Forall is_byte m → length sk = 64%nat → Forall is_byte sk →
  crypto_sign m0 sm m n sk = Ret (0, n + 64, ed_sign sk (take (Z.to_nat n) m) ++ take (Z.to_nat n) m).
Proof.
  intros Hm Hsm Hsmb Hn Hl Hmb Hsk Hsb.
  rewrite (sign_spec m0 sm m n sk (take (Z.to_nat n) m)); [|exact Hm|lia|exact Hsmb|exact Hn| | |by apply Forall_take|exact Hsk|exact Hsb].
  - rewrite (drop_ge sm), app_nil_r by (rewrite length_take; lia). reflexivity.
  - rewrite load_bytes_Ret by lia. change (Z.to_nat 0) with 0%nat. by rewrite drop_0.
  - rewrite length_take. lia.
Qed.

Lemma ed25519_sign_correct_witness :
  crypto_sign gf0 (replicate 65 0) [97] 1 (replicate 64 5) = Ret (0, 65, ed_sign (replicate 64 5) [97] ++ [97]).
Proof.
  apply (ed25519_sign_correct gf0 (replicate 65 0) [97] 1 (replicate 64 5)).
  - reflexivity.
  - reflexivity.
  - apply Forall_replicate. unfold is_byte. lia.
  - lia.
  - simpl. lia.
  - repeat constructor; done.
  - reflexivity.
  - apply Forall_replicate. unfold is_byte. lia.
Defined.
