(* ===== verification/SshKeys.v ===== *)
(** * Host keys and key exchange: the callers of TweetNaCl in src/lib/ssh_crypto.c

    The key pair of a seed, which the generator of random bytes hands to
    [crypto_sign_keypair]; signatures of bounded messages through one static buffer; the
    public value and the shared secret of the key exchange. *)

From S2P Require Import Prelude Ring Words Bytes Aes SshCrypto Field25519 Field25519Pack X25519 Sha512 Sha512Props Sha512Blocks.
From S2P Require Import Ed25519 Ed25519Props.

Definition SSH_ED25519_SIGN_INPUT_MAX : Z := 512.
Definition SSH_CRYPTO_ED25519_SIGNATURE_BYTES : Z := 64.
Definition SSH_CRYPTO_CURVE25519_BYTES : Z := 32.

(** The state of the generator is saved before and put back after. *)
Definition ssh_crypto_ed25519_seed_keypair (ctx : AES_ctx) (m0 : gf) (rs : ssh_random_state) (public_key secret_key sd : list Z) :
    outcome (Z * ssh_random_state * list Z * list Z) :=
  let saved_state := rs in
  rs ← ssh_crypto_random_seed_literal rs sd;
  '(result, rs, public_key, secret_key) ← crypto_sign_keypair ctx rs m0 public_key secret_key;
  Ret (result, saved_state, public_key, secret_key).

(** [sm] is the static buffer [ssh_ed25519_signed_message]. *)
Definition ssh_crypto_ed25519_sign (m0 : gf) (sm signature secret_key message : list Z) (message_len : Z) :
    outcome (Z * list Z * list Z) :=
  if SSH_ED25519_SIGN_INPUT_MAX <? message_len then Ret (-1, sm, signature) else
  '(rc, signed_len, sm) ← crypto_sign m0 sm message message_len secret_key;
  if negb (rc =? 0) then Ret (-1, sm, signature) else
  if signed_len <? SSH_CRYPTO_ED25519_SIGNATURE_BYTES then Ret (-1, sm, signature) else
  b ← load_bytes sm 0 SSH_CRYPTO_ED25519_SIGNATURE_BYTES;
  signature ← store_bytes signature 0 b;
  Ret (0, sm, signature).

Definition ssh_crypto_curve25519_public_key (m0 : gf) (public_key secret_key : list Z) : outcome (Z * list Z) :=
  crypto_scalarmult_base m0 public_key secret_key.

Definition ssh_crypto_curve25519_shared (m0 : gf) (shared_secret secret_key public_key : list Z) : outcome (Z * list Z) :=
  '(rc, shared_secret) ← crypto_scalarmult m0 shared_secret secret_key public_key;
  if negb (rc =? 0) then Ret (-1, shared_secret) else
  z ← ssh_crypto_is_all_zero (Some shared_secret) SSH_CRYPTO_CURVE25519_BYTES;
  if negb (z =? 0) then Ret (-1, shared_secret) else Ret (0, shared_secret).

(** ** The key pair of a seed *)

(** The generator hands out a literal seed as it is, once. *)
Lemma literal_bytes ctx rs s out : length (seed rs) = 32%nat → length (literal_seed rs) = 32%nat → length s = 32%nat →
  (32 ≤ length out)%nat →
  ∃ rs1 rs2, ssh_crypto_random_seed_literal rs s = Ret rs1 ∧
    randombytes ctx rs1 (Some out) 32 = Ret (rs2, Some (s ++ drop 32 out)).
Proof.
  intros Hs Hl Hn Ho. exists (Random s 0 true true s), (Random s 0 true false s).
  assert (∀ l : list Z, length l = 32%nat → store_bytes l 0 s = Ret s) as Hst.
  { intros l H. pose proof (store_mid [] l s [] 0 eq_refl ltac:(lia)) as E. by rewrite !app_nil_r in E. }
  assert (load_bytes s 0 32 = Ret s) as Hld.
  { pose proof (load_mid [] s [] 0 32 eq_refl ltac:(lia)) as E. by rewrite app_nil_r in E. }
  split.
  - unfold ssh_crypto_random_seed_literal, SSH_CRYPTO_SEED_BYTES. by rewrite Hld, bind_ret, (Hst (seed rs)), bind_ret, (Hst (literal_seed rs)), bind_ret by done.
  - unfold randombytes, SSH_CRYPTO_SEED_BYTES. cbn [seeded literal_pending literal_seed negb]. change (32 <? 32) with false. cbv iota zeta.
    rewrite Hld, bind_ret. rewrite <-(take_drop 32 out) at 1.
    pose proof (store_mid [] (take 32 out) s (drop 32 out) 0 eq_refl ltac:(rewrite length_take; lia)) as E. cbn [app] in E.
    rewrite E, !bind_ret. reflexivity.
Qed.

Lemma seed_keypair_spec ctx m0 rs pk sk s : length m0 = 16%nat → length (seed rs) = 32%nat → length (literal_seed rs) = 32%nat →
  length pk = 32%nat → length sk = 64%nat → Forall is_byte sk → length s = 32%nat → Forall is_byte s →
  ssh_crypto_ed25519_seed_keypair ctx m0 rs pk sk s = Ret (0, rs, ed_public s, s ++ ed_public s).
Proof.
  intros Hm Hs Hl Hpk Hsk Hsb Hn Hb. destruct (literal_bytes ctx rs s sk Hs Hl Hn ltac:(lia)) as (rs1 & rs2 & E1 & E2).
  unfold ssh_crypto_ed25519_seed_keypair. rewrite E1, bind_ret. clear E1.
  rewrite (keypair_spec ctx rs1 rs2 m0 pk sk s Hm Hpk Hsk Hn Hb E2 Hsb), bind_ret. reflexivity.
Qed.

(** ** Signatures *)

Lemma ed_sign_length sk msg : length (ed_sign sk msg) = 64%nat.
Proof.
  unfold ed_sign. cbv zeta. rewrite length_app, le_bytes_length.
  match goal with |- context [ed_encode ?p] => destruct (ed_encode_bytes p) as [-> _] end. reflexivity.
Qed.

Lemma ssh_sign_spec m0 sm sg sk msg n : length m0 = 16%nat → length sm = 576%nat → Forall is_byte sm → length sg = 64%nat →
  length sk = 64%nat → Forall is_byte sk → Forall is_byte msg → 0 ≤ n ≤ 512 → n ≤ Z.of_nat (length msg) →
  ssh_crypto_ed25519_sign m0 sm sg sk msg n = Ret (0, ed_sign sk (take (Z.to_nat n) msg) ++ take (Z.to_nat n) msg ++ drop (64 + Z.to_nat n) sm,
    ed_sign sk (take (Z.to_nat n) msg)).
Proof.
  intros Hm Hsm Hsmb Hsg Hsk Hsb Hmb Hn Hl. unfold ssh_crypto_ed25519_sign, SSH_ED25519_SIGN_INPUT_MAX.
  destruct (Z.ltb_spec 512 n); [lia|].
  assert (length (take (Z.to_nat n) msg) = Z.to_nat n) as Hlt by (rewrite length_take; lia).
  rewrite (sign_spec m0 sm msg n sk (take (Z.to_nat n) msg)), bind_ret; [|exact Hm|lia|exact Hsmb|lia| |lia|by apply Forall_take|exact Hsk|exact Hsb].
  2: { rewrite load_bytes_Ret by lia. change (Z.to_nat 0) with 0%nat. by rewrite drop_0. }
  cbv beta iota. change (negb (0 =? 0)) with false. cbv iota. unfold SSH_CRYPTO_ED25519_SIGNATURE_BYTES. destruct (Z.ltb_spec (n + 64) 64); [lia|].
  rewrite Hlt. pose proof (ed_sign_length sk (take (Z.to_nat n) msg)) as Hle.
  name_it (ed_sign sk (take (Z.to_nat n) msg)) e Ee. clear Ee.
  pose proof (load_mid [] e (take (Z.to_nat n) msg ++ drop (64 + Z.to_nat n) sm) 0 64 eq_refl ltac:(lia)) as El. cbn [app] in El.
  rewrite El, bind_ret. pose proof (store_mid [] sg e [] 0 eq_refl ltac:(lia)) as Es. rewrite !app_nil_r in Es. cbn [app] in Es. rewrite Es, bind_ret. reflexivity.
Qed.

(** C32: The host key: the key pair made from a seed signs, and the signature of a message of at
    most 512 bytes is the one RFC 8032 gives for that seed, whatever the static buffers and
    the generator hold; the generator is left as it was. *)
Theorem host_key_signs ctx m0 rs pk sk s sm sg msg n :
  length m0 = 16%nat → length (seed rs) = 32%nat → length (literal_seed rs) = 32%nat → length pk = 32%nat →
  length sk = 64%nat → Forall is_byte sk → length s = 32%nat → Forall is_byte s →
  length sm = 576%nat → Forall is_byte sm → length sg = 64%nat → Forall is_byte msg → 0 ≤ n ≤ 512 → n ≤ Z.of_nat (length msg) →
  ('(_, rs, pk, sk) ← ssh_crypto_ed25519_seed_keypair ctx m0 rs pk sk s;
   '(rc, _, sg) ← ssh_crypto_ed25519_sign m0 sm sg sk msg n;
   Ret (rs, pk, rc, sg)) = Ret (rs, ed_public s, 0, ed_sign (s ++ ed_public s) (take (Z.to_nat n) msg)).
Proof.
  intros Hm Hs Hl Hpk Hsk Hsb Hn Hb Hsm Hsmb Hsg Hmb H0 H1.
  rewrite seed_keypair_spec, bind_ret by assumption. cbv beta iota.
  destruct (ed_encode_bytes (ed_mul (secret_scalar s) base)) as [He Hbe]. fold (ed_public s) in He, Hbe.
  rewrite ssh_sign_spec, bind_ret; try assumption; [reflexivity|rewrite length_app; lia|by apply Forall_app].
Qed.

Lemma host_key_signs_witness :
  let sk := replicate 64 0 in
  let rs := Random (replicate 32 0) 0 false false (replicate 32 0) in
  ('(_, rs, pk, sk) ← ssh_crypto_ed25519_seed_keypair (Ctx [] []) gf0 rs (replicate 32 0) sk (replicate 32 5);
   '(rc, _, sg) ← ssh_crypto_ed25519_sign gf0 (replicate 576 0) (replicate 64 0) sk [97; 98] 2;
   Ret (rs, pk, rc, sg)) = Ret (rs, ed_public (replicate 32 5), 0, ed_sign (replicate 32 5 ++ ed_public (replicate 32 5)) [97; 98]).
Proof.
  apply (host_key_signs _ gf0 (Random (replicate 32 0) 0 false false (replicate 32 0)) (replicate 32 0) (replicate 64 0)
    (replicate 32 5) (replicate 576 0) (replicate 64 0) [97; 98] 2); try reflexivity; try (apply Forall_replicate; unfold is_byte; lia); try (simpl; lia).
  repeat constructor; done.
Defined.

Lemma long_message_refused m0 sm sg sk msg n : 512 < n → ssh_crypto_ed25519_sign m0 sm sg sk msg n = Ret (-1, sm, sg).
Proof. intros H. unfold ssh_crypto_ed25519_sign, SSH_ED25519_SIGN_INPUT_MAX. destruct (Z.ltb_spec 512 n); [done|lia]. Qed.

(** ** The key exchange *)

Lemma all_zero_loop l n : n = length l → is_all_zero_loop l n = Ret (if forallb (Z.eqb 0) l then 1 else 0).
Proof.
  intros ->. induction l as [|x l IH]; [done|]. cbn [length is_all_zero_loop forallb]. rewrite (Z.eqb_sym 0 x).
  by destruct (x =? 0); [rewrite IH|].
Qed.

Lemma x25519_length n p : length (x25519 n p) = 32%nat.
Proof. unfold x25519. cbv zeta. destruct (foldl _ _ _) as [[[[x2 x3] z2] z3] swap]. destruct (X25519.cswap swap (x2, x3)), (X25519.cswap swap (z2, z3)). apply le_bytes_length. Qed.

(** C33: The key exchange of RFC 8731.  The public value is X25519 of the secret and the base
    point, the shared secret is X25519 of the secret and the value of the peer, and the
    call fails exactly when every byte of it is zero. *)
Theorem key_exchange_correct m0 q sk p : length m0 = 16%nat → length q = 32%nat → length sk = 32%nat → Forall is_byte sk →
  length p = 32%nat → Forall is_byte p →
  ssh_crypto_curve25519_public_key m0 q sk = Ret (0, x25519 sk nine) ∧
  ssh_crypto_curve25519_shared m0 q sk p = Ret (if decide (x25519 sk p = replicate 32 0) then -1 else 0, x25519 sk p).
Proof.
  intros Hm Hq Hsk Hsb Hp Hpb. split.
  - unfold ssh_crypto_curve25519_public_key, crypto_scalarmult_base. apply scalarmult_spec; try assumption; [done|].
    unfold nine. constructor; [unfold is_byte; lia|]. by apply Forall_replicate.
  - unfold ssh_crypto_curve25519_shared. rewrite scalarmult_spec, bind_ret by assumption. cbv beta iota.
    pose proof (x25519_length sk p) as Hl. name_it (x25519 sk p) v Ev. clear Ev. change (negb (0 =? 0)) with false. cbv iota.
    unfold ssh_crypto_is_all_zero, SSH_CRYPTO_CURVE25519_BYTES. rewrite all_zero_loop, bind_ret by lia.
    destruct (forallb (Z.eqb 0) v) eqn:E.
    + rewrite decide_True; [done|]. symmetry. apply replicate_as_elem_of. split; [lia|].
      intros x Hx. rewrite forallb_forall in E. apply list_elem_of_In, E in Hx. lia.
    + rewrite decide_False; [done|]. intros ->. done.
Qed.

Lemma key_exchange_correct_witness :
  ssh_crypto_curve25519_shared gf0 (replicate 32 0) (replicate 32 7) nine =
  Ret (if decide (x25519 (replicate 32 7) nine = replicate 32 0) then -1 else 0, x25519 (replicate 32 7) nine).
Proof. apply (key_exchange_correct gf0 (replicate 32 0) (replicate 32 7) nine); try reflexivity; repeat constructor; done. Defined.
