(* ===== verification/UString.v ===== *)
(** * Strings in programs: model of src/usr/lib/libc/string.c and stdlib.c

    As for the kernel, a pointer is an array and an offset.  [char] is signed: a
    byte of 128 or more is a negative number when it is compared or subtracted.
    Allocation of environment variables is not part of these files; [getenv] is not
    modelled. *)

From S2P Require Import Prelude Ring KString.

(** ** Model *)

(** A byte as a [char]. *)
Definition schar (b : Z) : Z := if b <? 128 then b else b - 256.

Definition memmove : list Z → Z → Z → Z → outcome (list Z) := KString.memmove.

Fixpoint memcmp_loop (s1 s2 : list Z) (n : nat) {struct n} : outcome Z :=
  match n with
  | O => Ret 0
  | S n =>
      match s1, s2 with
      | c1 :: s1, c2 :: s2 => if negb (c1 =? c2) then Ret (c1 - c2) else memcmp_loop s1 s2 n
      | _, _ => Fault
      end
  end.
Definition memcmp (m1 : list Z) (o1 : Z) (m2 : list Z) (o2 n : Z) : outcome Z :=
  s1 ← behind m1 o1; s2 ← behind m2 o2; memcmp_loop s1 s2 (Z.to_nat n).

(** The difference of the pointers is the number of steps. *)
Fixpoint strlen_loop (s : list Z) (steps : Z) : outcome Z :=
  match s with
  | [] => Fault
  | c :: s => if c =? 0 then Ret (u32 steps) else strlen_loop s (steps + 1)
  end.
Definition strlen (mem : list Z) (off : Z) : outcome Z := s ← behind mem off; strlen_loop s 0.

(** [c] is compared as an [int] in the loop and as a [char] behind it. *)
Fixpoint strchr_loop (s : list Z) (off c : Z) : outcome (option Z) :=
  match s with
  | [] => Fault
  | x :: s =>
      if negb (x =? 0) && negb (schar x =? c) then strchr_loop s (off + 1) c
      else Ret (if x =? char_of c then Some off else None)
  end.
Definition strchr (mem : list Z) (off c : Z) : outcome (option Z) := s ← behind mem off; strchr_loop s off c.

Fixpoint strrchr_loop (s : list Z) (off c : Z) (p : option Z) : outcome (option Z) :=
  match s with
  | [] => Fault
  | x :: s => if x =? 0 then Ret p else strrchr_loop s (off + 1) c (if x =? char_of c then Some off else p)
  end.
Definition strrchr (mem : list Z) (off c : Z) : outcome (option Z) := s ← behind mem off; strrchr_loop s off c None.

(** The result for the first pair of characters that ends the loop. *)
Definition char_difference (c1 c2 : Z) : Z :=
  if negb (c1 =? 0) && (c2 =? 0) then 1 else if (c1 =? 0) && negb (c2 =? 0) then -1 else schar c1 - schar c2.

Fixpoint strcmp_loop (s1 s2 : list Z) : outcome Z :=
  match s1, s2 with
  | c1 :: s1, c2 :: s2 =>
      if negb (c1 =? 0) && negb (c2 =? 0) && (c1 =? c2) then strcmp_loop s1 s2 else Ret (char_difference c1 c2)
  | _, _ => Fault
  end.
Definition strcmp (m1 : list Z) (o1 : Z) (m2 : list Z) (o2 : Z) : outcome Z :=
  s1 ← behind m1 o1; s2 ← behind m2 o2; strcmp_loop s1 s2.

Fixpoint strncmp_loop (s1 s2 : list Z) (n : nat) {struct n} : outcome Z :=
  match n with
  | O => Ret 0
  | S n =>
      match s1, s2 with
      | c1 :: s1, c2 :: s2 =>
          if negb (c1 =? 0) && negb (c2 =? 0) && (c1 =? c2) then strncmp_loop s1 s2 n else Ret (char_difference c1 c2)
      | _, _ => Fault
      end
  end.
Definition strncmp (m1 : list Z) (o1 : Z) (m2 : list Z) (o2 n : Z) : outcome Z :=
  s1 ← behind m1 o1; s2 ← behind m2 o2; strncmp_loop s1 s2 (Z.to_nat n).

Fixpoint strcpy_loop (dest : list Z) (o : Z) (s : list Z) : outcome (list Z) :=
  match s with
  | [] => Fault
  | c :: s => if c =? 0 then store1 dest o 0 else dest ← store1 dest o c; strcpy_loop dest (o + 1) s
  end.
Definition strcpy (dest : list Z) (o : Z) (mem : list Z) (off : Z) : outcome (list Z) :=
  s ← behind mem off; strcpy_loop dest o s.

Fixpoint strncpy_loop (dest : list Z) (o : Z) (s : list Z) (n : nat) {struct n} : outcome (list Z) :=
  match n with
  | O => Ret dest
  | S n' =>
      match s with
      | [] => Fault
      | c :: s =>
          if c =? 0 then foldM (fun dest i => store1 dest i 0) (seqZ o (Z.of_nat n)) dest
          else dest ← store1 dest o c; strncpy_loop dest (o + 1) s n'
      end
  end.
Definition strncpy (dest : list Z) (o : Z) (mem : list Z) (off n : Z) : outcome (list Z) :=
  s ← behind mem off; strncpy_loop dest o s (Z.to_nat n).

Fixpoint strstr_loop (h : list Z) (off : Z) (needle : list Z) (first : Z) (nlen : nat) : outcome (option Z) :=
  match h with
  | [] => Fault
  | c :: h' =>
      if c =? 0 then Ret None
      else if c =? first then
        r ← strncmp_loop h needle nlen;
        if r =? 0 then Ret (Some off) else strstr_loop h' (off + 1) needle first nlen
      else strstr_loop h' (off + 1) needle first nlen
  end.
Definition strstr (mem : list Z) (off : Z) (nmem : list Z) (noff : Z) : outcome (option Z) :=
  needle ← behind nmem noff;
  first ← load1 nmem noff;
  if first =? 0 then Ret (Some off)
  else nlen ← strlen nmem noff; h ← behind mem off; strstr_loop h off needle first (Z.to_nat nlen).

Definition to_lower (c : Z) : Z := if (0x41 <=? c) && (c <=? 0x5a) then c + 32 else c.

Fixpoint strncasecmp_loop (s1 s2 : list Z) (n : nat) {struct n} : outcome Z :=
  match n with
  | O => Ret 0
  | S n =>
      match s1, s2 with
      | c1 :: s1, c2 :: s2 =>
          if negb (to_lower c1 =? to_lower c2) then Ret (to_lower c1 - to_lower c2)
          else if to_lower c1 =? 0 then Ret 0 else strncasecmp_loop s1 s2 n
      | _, _ => Fault
      end
  end.
Definition strncasecmp (m1 : list Z) (o1 : Z) (m2 : list Z) (o2 n : Z) : outcome Z :=
  s1 ← behind m1 o1; s2 ← behind m2 o2; strncasecmp_loop s1 s2 (Z.to_nat n).

(** The offset of the NUL that ends the string. *)
Fixpoint end_loop (s : list Z) (off : Z) : outcome Z :=
  match s with [] => Fault | c :: s => if c =? 0 then Ret off else end_loop s (off + 1) end.

Definition strcat (dest : list Z) (o : Z) (mem : list Z) (off : Z) : outcome (list Z) :=
  d ← behind dest o; p ← end_loop d o; s ← behind mem off; strcpy_loop dest p s.

Fixpoint strncat_loop (dest : list Z) (p : Z) (s : list Z) (n : nat) {struct n} : outcome (list Z) :=
  match n with
  | O => store1 dest p 0
  | S n =>
      match s with
      | [] => Fault
      | c :: s => if c =? 0 then store1 dest p 0 else dest ← store1 dest p c; strncat_loop dest (p + 1) s n
      end
  end.
Definition strncat (dest : list Z) (o : Z) (mem : list Z) (off n : Z) : outcome (list Z) :=
  d ← behind dest o; p ← end_loop d o; s ← behind mem off; strncat_loop dest p s (Z.to_nat n).

(** ** Numbers *)

(** [strtol] skips these. *)
Definition is_blank (c : Z) : bool := (c =? 0x20) || (c =? 0x09) || (c =? 0x0a) || (c =? 0x0d).

Fixpoint skip_blanks (s : list Z) (off : Z) : outcome (list Z * Z) :=
  match s with
  | [] => Fault
  | c :: s' => if is_blank c then skip_blanks s' (off + 1) else Ret (s, off)
  end.

Definition digit_of (c : Z) : option Z :=
  if (0x30 <=? c) && (c <=? 0x39) then Some (c - 0x30)
  else if (0x61 <=? c) && (c <=? 0x66) then Some (c - 0x61 + 10)
  else if (0x41 <=? c) && (c <=? 0x46) then Some (c - 0x41 + 10)
  else None.

(** [result] is a 32-bit [long]. *)
Fixpoint strtol_loop (s : list Z) (off base result : Z) : outcome (Z * Z) :=
  match s with
  | [] => Fault
  | c :: s =>
      match (if c =? 0 then None else digit_of c) with
      | Some digit => if base <=? digit then Ret (result, off) else strtol_loop s (off + 1) base (i32 (result * base + digit))
      | None => Ret (result, off)
      end
  end.

(** The base and the digits; [p[1]] is read only behind a zero. *)
Definition strtol_base (s : list Z) (off base : Z) : outcome (list Z * Z * Z) :=
  c ← load1 s 0;
  if base =? 0 then
    if c =? 0x30 then
      x ← load1 s 1;
      Ret (if (x =? 0x78) || (x =? 0x58) then (drop 2 s, off + 2, 16) else (drop 1 s, off + 1, 8))
    else Ret (s, off, 10)
  else if (base =? 16) && (c =? 0x30) then
    x ← load1 s 1;
    Ret (if (x =? 0x78) || (x =? 0x58) then (drop 2 s, off + 2, base) else (s, off, base))
  else Ret (s, off, base).

(** The number and the offset [*endptr] is set to. *)
Definition strtol (mem : list Z) (nptr base : Z) : outcome (Z * Z) :=
  s ← behind mem nptr;
  '(s, off) ← skip_blanks s nptr;
  c ← load1 s 0;
  let negative := c =? 0x2d in
  let '(s, off) := if negative || (c =? 0x2b) then (drop 1 s, off + 1) else (s, off) in
  '(s, off, base) ← strtol_base s off base;
  '(result, off) ← strtol_loop s off base 0;
  Ret (if negative then i32 (- result) else result, off).

Definition stdlib_is_space (c : Z) : bool :=
  (c =? 0x20) || (c =? 0x09) || (c =? 0x0a) || (c =? 0x0d) || (c =? 0x0c) || (c =? 0x0b).

Definition stdlib_is_digit (c : Z) : bool := (0x30 <=? c) && (c <=? 0x39).

Fixpoint atoi_spaces (s : list Z) : outcome (list Z) :=
  match s with [] => Fault | c :: s' => if stdlib_is_space c then atoi_spaces s' else Ret s end.

Fixpoint atoi_loop (s : list Z) (value : Z) : outcome Z :=
  match s with
  | [] => Fault
  | c :: s => if stdlib_is_digit c then atoi_loop s (i32 (value * 10 + (c - 0x30))) else Ret value
  end.

(** [nptr] is [None] for NULL. *)
Definition atoi (nptr : option (list Z)) : outcome Z :=
  match nptr with
  | None => Ret 0
  | Some s =>
      s ← atoi_spaces s;
      c ← load1 s 0;
      value ← atoi_loop (if (c =? 0x2d) || (c =? 0x2b) then drop 1 s else s) 0;
      Ret (i32 (value * (if c =? 0x2d then -1 else 1)))
  end.

Fixpoint number_loop (s : list Z) : outcome bool :=
  match s with
  | [] => Fault
  | c :: s => if c =? 0 then Ret true else if stdlib_is_digit c then number_loop s else Ret false
  end.
Definition is_number (nptr : option (list Z)) : outcome bool :=
  match nptr with
  | None => Ret false
  | Some s => c ← load1 s 0; if c =? 0 then Ret false else number_loop s
  end.

(** ** Specifications *)

Lemma strlen_loop_steps s rest k : text s → strlen_loop (s ++ 0 :: rest) k = Ret (u32 (k + Z.of_nat (length s))).
Proof.
  intros Hs. revert k. induction Hs as [|c s Hc Hs IH]; intros k; cbn [app strlen_loop length].
  - do 2 f_equal. lia.
  - destruct (Z.eqb_spec c 0); [lia|]. rewrite IH. do 2 f_equal. lia.
Qed.

Lemma strlen_value mem off s :
  string_at mem off s → Z.of_nat (length s) < U32 → strlen mem off = Ret (Z.of_nat (length s)).
Proof.
  intros Hs Hl. unfold strlen. destruct (string_behind _ _ _ Hs) as [rest ->]. rewrite bind_ret.
  rewrite strlen_loop_steps by apply Hs. f_equal. apply u32_small. unfold is_u32. lia.
Qed.

Lemma char_difference_zero c1 c2 : 0 ≤ c1 < 256 → 0 ≤ c2 < 256 → char_difference c1 c2 = 0 ↔ c1 = c2.
Proof. intros H1 H2. unfold char_difference, schar. zcases; cbn [andb negb]; lia. Qed.

Lemma strcmp_loop_zero s1 s2 rest1 rest2 :
  text s1 → text s2 → ∃ r, strcmp_loop (s1 ++ 0 :: rest1) (s2 ++ 0 :: rest2) = Ret r ∧ (r = 0 ↔ s1 = s2).
Proof.
  intros H1. revert s2. induction H1 as [|c1 s1 Hc1 H1 IH]; intros s2 H2; destruct H2 as [|c2 s2 Hc2 H2]; cbn [app strcmp_loop].
  - exists 0. by split.
  - change (negb (0 =? 0)) with false. cbn [andb]. eexists. split; [done|]. rewrite char_difference_zero by lia.
    split; [lia|]. intros ?. congruence.
  - destruct (Z.eqb_spec c1 0); [lia|]. cbn [negb andb]. change (negb (0 =? 0)) with false. cbn [andb].
    eexists. split; [done|]. rewrite char_difference_zero by lia. split; [lia|]. intros ?. congruence.
  - destruct (Z.eqb_spec c1 0), (Z.eqb_spec c2 0); try lia. cbn [negb andb]. destruct (Z.eqb_spec c1 c2) as [->|Hne].
    + destruct (IH s2 H2) as (r & -> & Hr). exists r. split; [done|]. rewrite Hr. naive_solver.
    + eexists. split; [done|]. rewrite char_difference_zero by lia. naive_solver.
Qed.

Lemma strcmp_zero m1 o1 s1 m2 o2 s2 :
  string_at m1 o1 s1 → string_at m2 o2 s2 → ∃ r, strcmp m1 o1 m2 o2 = Ret r ∧ (r = 0 ↔ s1 = s2).
Proof.
  intros H1 H2. unfold strcmp. destruct (string_behind _ _ _ H1) as [? ->], (string_behind _ _ _ H2) as [? ->].
  rewrite !bind_ret. apply strcmp_loop_zero; [apply H1|apply H2].
Qed.

(** The first characters agree exactly when one string starts with the other. *)
Lemma strncmp_loop_prefix s1 s2 rest1 rest2 :
  text s1 → text s2 → ∃ r, strncmp_loop (s1 ++ 0 :: rest1) (s2 ++ rest2) (length s2) = Ret r ∧ (r = 0 ↔ s2 `prefix_of` s1).
Proof.
  intros H1 H2. revert s1 H1. induction H2 as [|c2 s2 Hc2 H2 IH]; intros s1 H1; cbn [app strncmp_loop length].
  - exists 0. split; [done|]. split; [intros _; apply prefix_nil|done].
  - destruct H1 as [|c1 s1 Hc1 H1]; cbn [app].
    + change (negb (0 =? 0)) with false. cbn [andb]. eexists. split; [done|]. rewrite char_difference_zero by lia.
      split; [lia|]. intros ?%prefix_nil_not. done.
    + destruct (Z.eqb_spec c1 0), (Z.eqb_spec c2 0); try lia. cbn [negb andb]. destruct (Z.eqb_spec c1 c2) as [->|Hne].
      * destruct (IH s1 H1) as (r & -> & Hr). exists r. split; [done|]. rewrite Hr. split; [by apply prefix_cons|by intros ?%prefix_cons_inv_2].
      * eexists. split; [done|]. rewrite char_difference_zero by lia. split; [lia|]. intros ?%prefix_cons_inv_1. congruence.
Qed.

Lemma strncmp_prefix m1 o1 s1 m2 o2 s2 :
  string_at m1 o1 s1 → string_at m2 o2 s2 →
  ∃ r, strncmp m1 o1 m2 o2 (Z.of_nat (length s2)) = Ret r ∧ (r = 0 ↔ s2 `prefix_of` s1).
Proof.
  intros H1 H2. unfold strncmp. destruct (string_behind _ _ _ H1) as [? ->], (string_behind _ _ _ H2) as [? ->].
  rewrite !bind_ret, Nat2Z.id. apply strncmp_loop_prefix; [apply H1|apply H2].
Qed.

(** [strncpy] of the library writes exactly [n] bytes, unlike that of the kernel. *)
Lemma strncpy_exact mem off s dest o n :
  string_at mem off s → 0 ≤ n → 0 ≤ o ≤ Z.of_nat (length dest) →
  strncpy dest o mem off n = store_bytes dest o (take (Z.to_nat n) (s ++ replicate (Z.to_nat n) 0)).
Proof.
  intros Hs Hn Ho. unfold strncpy. destruct (string_behind _ _ _ Hs) as [rest ->]. rewrite bind_ret.
  pose proof (at_text _ _ _ Hs) as Ht. clear Hs Hn. generalize (Z.to_nat n). clear n. intros n. revert dest o n Ho.
  induction Ht as [|c s Hc Ht IH]; intros dest o [|n] Ho; cbn [app strncpy_loop].
  - rewrite take_0. by rewrite store_bytes_nil.
  - change (0 =? 0) with true. cbv iota. rewrite fill_spec by done. by rewrite take_ge by (rewrite length_replicate; lia).
  - rewrite take_0. by rewrite store_bytes_nil.
  - rewrite firstn_cons, store_bytes_cons by lia. destruct (Z.eqb_spec c 0); [lia|].
    destruct (store1_cases dest o c) as [[Hlt ->]|[_ ->]]; [|done]. rewrite !bind_ret. rewrite IH by (rewrite length_insert; lia).
    f_equal. replace (replicate (S n) 0) with (replicate n 0 ++ [0]) by (by rewrite <-replicate_S_end).
    rewrite app_assoc. rewrite (take_app_le (s ++ replicate n 0)); [done|]. rewrite length_app, length_replicate. lia.
Qed.

Lemma memcmp_loop_zero n s1 s2 :
  (n ≤ length s1)%nat → (n ≤ length s2)%nat → ∃ r, memcmp_loop s1 s2 n = Ret r ∧ (r = 0 ↔ take n s1 = take n s2).
Proof.
  revert s1 s2. induction n as [|n IH]; intros s1 s2 H1 H2; cbn [memcmp_loop].
  - exists 0. by split.
  - destruct s1 as [|c1 s1], s2 as [|c2 s2]; try (simpl in *; lia). destruct (Z.eqb_spec c1 c2) as [->|Hne]; cbn [negb].
    + destruct (IH s1 s2) as (r & -> & Hr); [simpl in *; lia..|]. exists r. split; [done|]. rewrite !firstn_cons, Hr. split; congruence.
    + eexists. split; [done|]. rewrite !firstn_cons. split; [lia|congruence].
Qed.
