(* ===== verification/Json.v ===== *)
(** * JSON: model of src/usr/lib/libagent/json.c

    The tokenizer, the functions that look into the tokens, and the writer.  The
    input, the tokens and the output are arrays with checked accesses.  Positions
    stay below the length of the input, an [int], so their increments do not
    overflow; numbers and sizes that can are kept at 32 bits.  The pointers that are
    tested for NULL are pointers to objects here. *)

From Stdlib Require Import String.
From S2P Require Import Prelude Ring KString UString.

(** ** Tokens *)

Definition JSON_OK : Z := 0.
Definition JSON_ERR_NOMEM : Z := -1.
Definition JSON_ERR_INVALID : Z := -2.
Definition JSON_ERR_PARTIAL : Z := -3.

Inductive json_type : Type :=
  | JSON_NONE | JSON_OBJECT | JSON_ARRAY | JSON_STRING | JSON_NUMBER | JSON_BOOL | JSON_NULL.
#[export] Instance json_type_eq_dec : EqDecision json_type.
Proof. solve_decision. Defined.

Record json_token := Token { t_type : json_type; t_start : Z; t_end : Z; t_size : Z; t_parent : Z }.
#[export] Instance json_token_eq_dec : EqDecision json_token.
Proof. solve_decision. Defined.

Record json_parser := JParser { j_pos : Z; toknext : Z; toksuper : Z; j_error : Z }.

Definition at_pos (pos : Z) (p : json_parser) : json_parser := JParser pos (toknext p) (toksuper p) (j_error p).
Definition with_super (super : Z) (p : json_parser) : json_parser := JParser (j_pos p) (toknext p) super (j_error p).
Definition with_end (e : Z) (t : json_token) : json_token := Token (t_type t) (t_start t) e (t_size t) (t_parent t).
Definition with_size (n : Z) (t : json_token) : json_token := Token (t_type t) (t_start t) (t_end t) n (t_parent t).

Definition json_init : json_parser := JParser 0 0 (-1) 0.

Definition fresh_token : json_token := Token JSON_NONE (-1) (-1) 0 (-1).

(** The index of the new token, or [None] for NULL. *)
Definition alloc_token (num_tokens : Z) (p : json_parser) (toks : list json_token) :
    outcome (option Z * json_parser * list json_token) :=
  if num_tokens <=? toknext p then Ret (None, p, toks)
  else
    toks ← store1 toks (toknext p) fresh_token;
    Ret (Some (toknext p), JParser (j_pos p) (toknext p + 1) (toksuper p) (j_error p), toks).

(** What [tokens[toksuper].size++] does behind its test. *)
Definition count_child (p : json_parser) (toks : list json_token) : outcome (list json_token) :=
  if 0 <=? toksuper p then
    t ← load1 toks (toksuper p);
    store1 toks (toksuper p) (with_size (i32 (t_size t + 1)) t)
  else Ret toks.

(** ** The tokenizer *)

Definition is_hex (c : Z) : bool :=
  ((0x30 <=? c) && (c <=? 0x39)) || ((0x61 <=? c) && (c <=? 0x66)) || ((0x41 <=? c) && (c <=? 0x46)).

(** Double quote, backslash, slash, b, f, n, r and t. *)
Definition is_escape (c : Z) : bool :=
  (c =? 0x22) || (c =? 0x5c) || (c =? 0x2f) || (c =? 0x62) || (c =? 0x66) || (c =? 0x6e) || (c =? 0x72) || (c =? 0x74).

(** The four digits behind [\u]; the result is an error or [JSON_OK]. *)
Fixpoint hex_loop (n : nat) (js : list Z) (len : Z) (p : json_parser) : outcome (Z * json_parser) :=
  match n with
  | O => Ret (JSON_OK, p)
  | S n =>
      let p := at_pos (j_pos p + 1) p in
      if len <=? j_pos p then Ret (JSON_ERR_PARTIAL, p)
      else
        c ← load1 js (j_pos p);
        if is_hex c then hex_loop n js len p else Ret (JSON_ERR_INVALID, p)
  end.

Section tokenizer.
Context (js : list Z) (len num_tokens : Z).

(** A token that ends before the current position. *)
Definition close_token (ty : json_type) (start : Z) (p : json_parser) (toks : list json_token) :
    outcome (Z * json_parser * list json_token) :=
  '(tok, p, toks) ← alloc_token num_tokens p toks;
  match tok with
  | None => Ret (JSON_ERR_NOMEM, p, toks)
  | Some i => toks ← store1 toks i (Token ty start (j_pos p) 0 (toksuper p)); Ret (JSON_OK, p, toks)
  end.

Fixpoint string_loop (fuel : nat) (start : Z) (p : json_parser) (toks : list json_token) :
    outcome (Z * json_parser * list json_token) :=
  match fuel with
  | O => Hang
  | S fuel =>
      if j_pos p <? len then
        c ← load1 js (j_pos p);
        if c =? 0x5c then
          let p := at_pos (j_pos p + 1) p in
          if len <=? j_pos p then Ret (JSON_ERR_PARTIAL, p, toks)
          else
            c ← load1 js (j_pos p);
            if is_escape c then string_loop fuel start (at_pos (j_pos p + 1) p) toks
            else if c =? 0x75 then
              '(r, p) ← hex_loop 4 js len p;
              if r <? 0 then Ret (r, p, toks) else string_loop fuel start (at_pos (j_pos p + 1) p) toks
            else Ret (JSON_ERR_INVALID, p, toks)
        else if c =? 0x22 then close_token JSON_STRING (start + 1) p toks
        else string_loop fuel start (at_pos (j_pos p + 1) p) toks
      else Ret (JSON_ERR_PARTIAL, p, toks)
  end.

Definition loop_fuel (p : json_parser) : nat := S (Z.to_nat (len - j_pos p)).

Definition parse_string (p : json_parser) (toks : list json_token) : outcome (Z * json_parser * list json_token) :=
  let start := j_pos p in
  let p := at_pos (j_pos p + 1) p in
  string_loop (loop_fuel p) start p toks.

Definition primitive_type (c : Z) : option json_type :=
  if (c =? 0x74) || (c =? 0x66) then Some JSON_BOOL
  else if c =? 0x6e then Some JSON_NULL
  else if (c =? 0x2d) || ((0x30 <=? c) && (c <=? 0x39)) then Some JSON_NUMBER
  else None.

(** Tab, line ends, blank, comma, closing brackets and colon. *)
Definition ends_primitive (c : Z) : bool :=
  (c =? 0x09) || (c =? 0x0d) || (c =? 0x0a) || (c =? 0x20) || (c =? 0x2c) || (c =? 0x5d) || (c =? 0x7d) || (c =? 0x3a).

(** [false] for a character that is not allowed. *)
Fixpoint primitive_loop (fuel : nat) (p : json_parser) : outcome (bool * json_parser) :=
  match fuel with
  | O => Hang
  | S fuel =>
      if j_pos p <? len then
        c ← load1 js (j_pos p);
        if ends_primitive c then Ret (true, p)
        else if (schar c <? 32) || (127 <=? schar c) then Ret (false, p)
        else primitive_loop fuel (at_pos (j_pos p + 1) p)
      else Ret (true, p)
  end.

Definition parse_primitive (p : json_parser) (toks : list json_token) : outcome (Z * json_parser * list json_token) :=
  let start := j_pos p in
  c ← load1 js start;
  match primitive_type c with
  | None => Ret (JSON_ERR_INVALID, p, toks)
  | Some ty =>
      '(ok, p) ← primitive_loop (loop_fuel p) p;
      if negb ok then Ret (JSON_ERR_INVALID, p, toks)
      else
        '(r, p, toks) ← close_token ty start p toks;
        if r <? 0 then Ret (r, p, toks) else Ret (JSON_OK, at_pos (j_pos p - 1) p, toks)
  end.

(** The last of the first [n] tokens that is open and of a type in [ok]. *)
Fixpoint find_open (ok : json_type → bool) (n : nat) (toks : list json_token) : outcome (option Z) :=
  match n with
  | O => Ret None
  | S n =>
      t ← load1 toks (Z.of_nat n);
      if ok (t_type t) && (t_end t =? -1) then Ret (Some (Z.of_nat n)) else find_open ok n toks
  end.

Definition is_container (ty : json_type) : bool := bool_decide (ty = JSON_OBJECT) || bool_decide (ty = JSON_ARRAY).

(** One round of the loop: an error, or the state before [pos++]. *)
Definition parse_char (p : json_parser) (toks : list json_token) : outcome (Z * json_parser * list json_token) :=
  c ← load1 js (j_pos p);
  if (c =? 0x7b) || (c =? 0x5b) then
    '(tok, p', toks) ← alloc_token num_tokens p toks;
    match tok with
    | None => Ret (JSON_ERR_NOMEM, p', toks)
    | Some i =>
        toks ← count_child p' toks;
        toks ← store1 toks i (Token (if c =? 0x7b then JSON_OBJECT else JSON_ARRAY) (j_pos p') (-1) 0 (toksuper p'));
        Ret (JSON_OK, with_super (toknext p' - 1) p', toks)
    end
  else if (c =? 0x7d) || (c =? 0x5d) then
    let ty := if c =? 0x7d then JSON_OBJECT else JSON_ARRAY in
    o ← find_open (fun t => bool_decide (t = ty)) (Z.to_nat (toknext p)) toks;
    match o with
    | None => Ret (JSON_ERR_INVALID, p, toks)
    | Some i =>
        t ← load1 toks i;
        toks ← store1 toks i (with_end (j_pos p + 1) t);
        Ret (JSON_OK, with_super (t_parent t) p, toks)
    end
  else if c =? 0x22 then
    '(r, p, toks) ← parse_string p toks;
    if r <? 0 then Ret (r, p, toks) else toks ← count_child p toks; Ret (JSON_OK, p, toks)
  else if (c =? 0x09) || (c =? 0x0d) || (c =? 0x0a) || (c =? 0x20) then Ret (JSON_OK, p, toks)
  else if c =? 0x3a then Ret (JSON_OK, with_super (toknext p - 1) p, toks)
  else if c =? 0x2c then
    o ← find_open is_container (Z.to_nat (toknext p)) toks;
    match o with
    | None => Ret (JSON_OK, p, toks)
    | Some i => Ret (JSON_OK, with_super i p, toks)
    end
  else
    '(r, p, toks) ← parse_primitive p toks;
    if r <? 0 then Ret (r, p, toks) else toks ← count_child p toks; Ret (JSON_OK, p, toks).

Fixpoint parse_loop (fuel : nat) (p : json_parser) (toks : list json_token) : outcome (Z * json_parser * list json_token) :=
  match fuel with
  | O => Hang
  | S fuel =>
      if j_pos p <? len then
        '(r, p, toks) ← parse_char p toks;
        if r <? 0 then Ret (r, p, toks) else parse_loop fuel (at_pos (j_pos p + 1) p) toks
      else Ret (JSON_OK, p, toks)
  end.

(** Whether one of the tokens from [i] on is a container that is open. *)
Fixpoint unclosed (n : nat) (i : Z) (toks : list json_token) : outcome bool :=
  match n with
  | O => Ret false
  | S n => t ← load1 toks i; if is_container (t_type t) && (t_end t =? -1) then Ret true else unclosed n (i + 1) toks
  end.

Definition json_parse (p : json_parser) (toks : list json_token) : outcome (Z * json_parser * list json_token) :=
  if num_tokens <=? 0 then Ret (JSON_ERR_NOMEM, p, toks)
  else
    '(r, p, toks) ← parse_loop (loop_fuel p) p toks;
    if r <? 0 then Ret (r, p, toks)
    else
      bad ← unclosed (Z.to_nat (toknext p)) 0 toks;
      Ret (if bad : bool then JSON_ERR_PARTIAL else toknext p, p, toks).
End tokenizer.

(** ** Looking into the tokens *)

Definition json_token_eq (js : list Z) (tok : json_token) (s : list Z) : outcome bool :=
  let toklen := i32 (t_end tok - t_start tok) in
  slen ← strlen s 0;
  if negb (toklen =? i32 slen) then Ret false
  else r ← memcmp js (t_start tok) s 0 (u32 (i32 slen)); Ret (r =? 0).

Fixpoint repeatM {A} (n : nat) (f : A → outcome A) (a : A) : outcome A :=
  match n with O => Ret a | S n => a ← f a; repeatM n f a end.

(** Every call is for a higher index, so [token_count - idx] bounds the depth. *)
Fixpoint skip_token (fuel : nat) (toks : list json_token) (token_count idx : Z) : outcome Z :=
  match fuel with
  | O => Hang
  | S fuel =>
      if (idx <? 0) || (token_count <=? idx) then Ret token_count
      else
        t ← load1 toks idx;
        match t_type t with
        | JSON_OBJECT =>
            repeatM (Z.to_nat (t_size t))
              (fun cur => cur ← skip_token fuel toks token_count cur; skip_token fuel toks token_count cur) (idx + 1)
        | JSON_ARRAY => repeatM (Z.to_nat (t_size t)) (skip_token fuel toks token_count) (idx + 1)
        | _ => Ret (idx + 1)
        end
  end.

Definition skip_fuel (token_count idx : Z) : nat := S (Z.to_nat (token_count - idx)).

Fixpoint find_key_loop (pairs : nat) (js : list Z) (toks : list json_token) (token_count : Z) (key : list Z) (cur : Z) : outcome Z :=
  match pairs with
  | O => Ret (-1)
  | S pairs =>
      if token_count <=? cur then Ret (-1)
      else
        t ← load1 toks cur;
        eq ← (if decide (t_type t = JSON_STRING) then json_token_eq js t key else Ret false);
        if eq : bool then Ret (cur + 1)
        else
          cur ← skip_token (skip_fuel token_count cur) toks token_count cur;
          cur ← skip_token (skip_fuel token_count cur) toks token_count cur;
          find_key_loop pairs js toks token_count key cur
  end.

Definition json_find_key (js : list Z) (toks : list json_token) (token_count obj_token : Z) (key : list Z) : outcome Z :=
  if (obj_token <? 0) || (token_count <=? obj_token) then Ret (-1)
  else
    t ← load1 toks obj_token;
    if decide (t_type t ≠ JSON_OBJECT) then Ret (-1)
    else find_key_loop (Z.to_nat (t_size t)) js toks token_count key (obj_token + 1).

Fixpoint array_loop (n : nat) (toks : list json_token) (token_count cur : Z) : outcome Z :=
  match n with
  | O => Ret cur
  | S n =>
      cur ← skip_token (skip_fuel token_count cur) toks token_count cur;
      if token_count <=? cur then Ret (-1) else array_loop n toks token_count cur
  end.

Definition json_array_get (toks : list json_token) (token_count array_token index : Z) : outcome Z :=
  if (array_token <? 0) || (token_count <=? array_token) then Ret (-1)
  else
    t ← load1 toks array_token;
    if decide (t_type t ≠ JSON_ARRAY) then Ret (-1)
    else if (index <? 0) || (t_size t <=? index) then Ret (-1)
    else array_loop (Z.to_nat index) toks token_count (array_token + 1).

Definition json_hex_value (c : Z) : Z :=
  if (0x30 <=? c) && (c <=? 0x39) then c - 0x30
  else if (0x61 <=? c) && (c <=? 0x66) then c - 0x61 + 10
  else if (0x41 <=? c) && (c <=? 0x46) then c - 0x41 + 10
  else -1.

(** [None] for the result -1. *)
Fixpoint hex4_loop (n : nat) (js : list Z) (off value : Z) : outcome (option Z) :=
  match n with
  | O => Ret (Some value)
  | S n =>
      c ← load1 js off;
      let digit := json_hex_value c in
      if digit <? 0 then Ret None else hex4_loop n js (off + 1) (Z.lor (u32 (Z.shiftl value 4)) digit)
  end.
Definition json_parse_hex4 (js : list Z) (off : Z) : outcome (option Z) := hex4_loop 4 js off 0.

(** The bytes of a code point, a question mark for one that is not valid. *)
Definition utf8_of (codepoint : Z) : list Z :=
  let codepoint := if (0x10ffff <? codepoint) || ((0xd800 <=? codepoint) && (codepoint <=? 0xdfff)) then 0x3f else codepoint in
  if codepoint <=? 0x7f then [codepoint]
  else if codepoint <=? 0x7ff then
    [Z.lor 0xc0 (Z.shiftr codepoint 6); Z.lor 0x80 (Z.land codepoint 0x3f)]
  else if codepoint <=? 0xffff then
    [Z.lor 0xe0 (Z.shiftr codepoint 12); Z.lor 0x80 (Z.land (Z.shiftr codepoint 6) 0x3f); Z.lor 0x80 (Z.land codepoint 0x3f)]
  else
    [Z.lor 0xf0 (Z.shiftr codepoint 18); Z.lor 0x80 (Z.land (Z.shiftr codepoint 12) 0x3f);
     Z.lor 0x80 (Z.land (Z.shiftr codepoint 6) 0x3f); Z.lor 0x80 (Z.land codepoint 0x3f)].

(** [None] when there is no room. *)
Definition json_append_utf8 (out : list Z) (out_cap pos codepoint : Z) : outcome (option (list Z * Z)) :=
  let bytes := utf8_of codepoint in
  let n := Z.of_nat (length bytes) in
  if out_cap <=? pos + n then Ret None
  else out ← store_bytes out pos bytes; Ret (Some (out, pos + n)).

(** The character a simple escape stands for, itself for any other. *)
Definition unescape (c : Z) : Z :=
  if c =? 0x62 then 0x08 else if c =? 0x66 then 0x0c else if c =? 0x6e then 0x0a
  else if c =? 0x72 then 0x0d else if c =? 0x74 then 0x09 else c.

Section accessors.
Context (js : list Z).

(** A low surrogate behind the escape at [i]: the code point and the new index. *)
Definition join_surrogates (base toklen i codepoint : Z) : outcome (Z * Z) :=
  if negb ((0xd800 <=? codepoint) && (codepoint <=? 0xdbff)) then Ret (codepoint, i)
  else if negb (i + 6 <? toklen) then Ret (codepoint, i)
  else
    b ← load1 js (base + i + 1);
    if negb (b =? 0x5c) then Ret (codepoint, i)
    else
      u ← load1 js (base + i + 2);
      if negb (u =? 0x75) then Ret (codepoint, i)
      else
        low ← json_parse_hex4 js (base + i + 3);
        Ret (match low with
             | Some low =>
                 if (0xdc00 <=? low) && (low <=? 0xdfff)
                 then (u32 (0x10000 + Z.lor (u32 (Z.shiftl (codepoint - 0xd800) 10)) (low - 0xdc00)), i + 6)
                 else (codepoint, i)
             | None => (codepoint, i)
             end).

(** The escape whose character is at [i]: the output, its length, and the index,
    or [None] when there is no room. *)
Definition read_escape (base toklen : Z) (out : list Z) (out_cap i j : Z) : outcome (option (list Z * Z * Z)) :=
  c ← load1 js (base + i);
  if negb (c =? 0x75) then out ← store1 out j (unescape c); Ret (Some (out, j + 1, i))
  else
    cp ← (if toklen <=? i + 4 then Ret None else json_parse_hex4 js (base + i + 1));
    match cp with
    | None => out ← store1 out j 0x3f; Ret (Some (out, j + 1, i))
    | Some cp =>
        '(cp, i) ← join_surrogates base toklen (i + 4) cp;
        r ← json_append_utf8 out out_cap j cp;
        Ret (match r with None => None | Some (out, j) => Some (out, j, i) end)
    end.

Fixpoint token_str_loop (fuel : nat) (base toklen : Z) (out : list Z) (out_cap i j : Z) : outcome (list Z * Z) :=
  match fuel with
  | O => Hang
  | S fuel =>
      if (i <? toklen) && (j <? out_cap - 1) then
        c ← load1 js (base + i);
        if (c =? 0x5c) && (i + 1 <? toklen) then
          r ← read_escape base toklen out out_cap (i + 1) j;
          match r with
          | None => Ret (out, j)
          | Some (out, j, i) => token_str_loop fuel base toklen out out_cap (i + 1) j
          end
        else out ← store1 out j c; token_str_loop fuel base toklen out out_cap (i + 1) (j + 1)
      else Ret (out, j)
  end.

(** The length, or -1, and the output. *)
Definition json_token_str (tok : json_token) (out : list Z) (out_cap : Z) : outcome (Z * list Z) :=
  if bool_decide (t_type tok ≠ JSON_STRING) || (out_cap <=? 0) then Ret (-1, out)
  else
    let toklen := i32 (t_end tok - t_start tok) in
    '(out, j) ← token_str_loop (S (Z.to_nat toklen)) (t_start tok) toklen out out_cap 0 0;
    out ← store1 out j 0;
    Ret (j, out).

Fixpoint token_int_loop (n : nat) (i val : Z) : outcome Z :=
  match n with
  | O => Ret val
  | S n =>
      c ← load1 js i;
      if (schar c <? 0x30) || (0x39 <? schar c) then Ret val else token_int_loop n (i + 1) (i32 (val * 10 + (c - 0x30)))
  end.

(** The number, or [None] for the result -1. *)
Definition json_token_int (tok : json_token) : outcome (option Z) :=
  if decide (t_type tok ≠ JSON_NUMBER) then Ret None
  else
    c ← load1 js (t_start tok);
    let neg := c =? 0x2d in
    let i := if neg then t_start tok + 1 else t_start tok in
    val ← token_int_loop (Z.to_nat (t_end tok - i)) i 0;
    Ret (Some (if neg then i32 (- val) else val)).

Definition json_token_bool (tok : json_token) : outcome (option bool) :=
  if decide (t_type tok ≠ JSON_BOOL) then Ret None
  else c ← load1 js (t_start tok); Ret (Some (c =? 0x74)).
End accessors.

(** ** The writer *)

Record json_writer := JWriter { jw_buf : list Z; jw_cap : Z; jw_len : Z; jw_err : bool; need_comma : bool; depth : Z }.

Definition with_comma (b : bool) (w : json_writer) : json_writer := JWriter (jw_buf w) (jw_cap w) (jw_len w) (jw_err w) b (depth w).
Definition with_depth (d : Z) (w : json_writer) : json_writer := JWriter (jw_buf w) (jw_cap w) (jw_len w) (jw_err w) (need_comma w) d.

Definition jw_init (buf : list Z) (cap : Z) : json_writer := JWriter buf cap 0 false false 0.

Definition jw_putc (c : Z) (w : json_writer) : outcome json_writer :=
  if jw_len w <? jw_cap w - 1 then
    buf ← store1 (jw_buf w) (jw_len w) c;
    Ret (JWriter buf (jw_cap w) (jw_len w + 1) (jw_err w) (need_comma w) (depth w))
  else Ret (JWriter (jw_buf w) (jw_cap w) (jw_len w) true (need_comma w) (depth w)).

(** The C string at the front of an array. *)
Fixpoint jw_puts (s : list Z) (w : json_writer) : outcome json_writer :=
  match s with
  | [] => Fault
  | c :: s => if c =? 0 then Ret w else w ← jw_putc c w; jw_puts s w
  end.

Definition jw_maybe_comma (w : json_writer) : outcome json_writer :=
  w ← (if need_comma w then jw_putc 0x2c w else Ret w);
  Ret (with_comma false w).

Definition jw_put_replacement_escape (w : json_writer) : outcome json_writer :=
  jw_puts [0x5c; 0x75; 0x66; 0x66; 0x66; 0x64; 0] w.

(** The bytes behind the first: [None] when one is not a continuation. *)
Fixpoint decode_rest (n : nat) (s : list Z) (i cp : Z) : outcome (option Z) :=
  match n with
  | O => Ret (Some cp)
  | S n =>
      b ← load1 s i;
      if negb (Z.land b 0xc0 =? 0x80) then Ret None
      else decode_rest n s (i + 1) (Z.lor (u32 (Z.shiftl cp 6)) (Z.land b 0x3f))
  end.

(** The first byte: its bits and the length of the sequence. *)
Definition decode_first (b : Z) : option (Z * Z) :=
  if (0xc2 <=? b) && (b <=? 0xdf) then Some (Z.land b 0x1f, 2)
  else if (0xe0 <=? b) && (b <=? 0xef) then Some (Z.land b 0x0f, 3)
  else if (0xf0 <=? b) && (b <=? 0xf4) then Some (Z.land b 0x07, 4)
  else None.

(** [s] is the memory from the first byte on; the code point, or [None] for -1, and
    the number of bytes consumed. *)
Definition jw_decode_utf8 (s : list Z) (len : Z) : outcome (option Z * Z) :=
  b ← load1 s 0;
  if b <? 0x80 then Ret (Some b, 1)
  else
    match decode_first b with
    | None => Ret (None, 1)
    | Some (cp, need) =>
        if len <? need then Ret (None, 1)
        else
          r ← decode_rest (Z.to_nat (need - 1)) s 1 cp;
          Ret (match r with
               | None => (None, 1)
               | Some cp =>
                   if ((need =? 2) && (cp <? 0x80)) || ((need =? 3) && (cp <? 0x800)) || ((need =? 4) && (cp <? 0x10000))
                      || (0x10ffff <? cp) || ((0xd800 <=? cp) && (cp <=? 0xdfff))
                   then (None, need) else (Some cp, need)
               end)
    end.

Definition hex_digits : list Z := c_string "0123456789abcdef".

(** The letter of the escape of a character, if it has one. *)
Definition escape_letter (c : Z) : option Z :=
  if c =? 0x22 then Some 0x22 else if c =? 0x5c then Some 0x5c else if c =? 0x08 then Some 0x62
  else if c =? 0x0c then Some 0x66 else if c =? 0x0a then Some 0x6e else if c =? 0x0d then Some 0x72
  else if c =? 0x09 then Some 0x74 else None.

(** The character at the front of [s], of which [len] bytes are left: the writer
    and the number of bytes consumed. *)
Definition write_char (s : list Z) (len : Z) (w : json_writer) : outcome (json_writer * Z) :=
  c ← load1 s 0;
  match escape_letter c with
  | Some e => w ← jw_putc 0x5c w; w ← jw_putc e w; Ret (w, 1)
  | None =>
      if c <? 0x20 then
        h4 ← load1 hex_digits (Z.land (Z.shiftr c 4) 0xf);
        h5 ← load1 hex_digits (Z.land c 0xf);
        w ← jw_puts [0x5c; 0x75; 0x30; 0x30; h4; h5; 0] w;
        Ret (w, 1)
      else if c <? 0x80 then w ← jw_putc c w; Ret (w, 1)
      else
        '(cp, consumed) ← jw_decode_utf8 s len;
        match cp with
        | None => w ← jw_put_replacement_escape w; Ret (w, consumed)
        | Some _ => w ← foldM (fun w j => b ← load1 s j; jw_putc b w) (seqZ 0 consumed) w; Ret (w, consumed)
        end
  end.

Fixpoint escaped_loop (fuel : nat) (s : list Z) (len i : Z) (w : json_writer) : outcome json_writer :=
  match fuel with
  | O => Hang
  | S fuel =>
      if i <? len then
        t ← behind s i;
        '(w, consumed) ← write_char t (len - i) w;
        escaped_loop fuel s len (i + consumed) w
      else Ret w
  end.

Definition jw_write_escaped (s : list Z) (len : Z) (w : json_writer) : outcome json_writer :=
  w ← jw_putc 0x22 w;
  w ← escaped_loop (S (Z.to_nat len)) s len 0 w;
  jw_putc 0x22 w.

(** An opening or a closing bracket. *)
Definition jw_open (c : Z) (w : json_writer) : outcome json_writer :=
  w ← jw_maybe_comma w; w ← jw_putc c w; Ret (with_depth (depth w + 1) (with_comma false w)).
Definition jw_close (c : Z) (w : json_writer) : outcome json_writer :=
  w ← jw_putc c w; Ret (with_depth (depth w - 1) (with_comma true w)).

Definition jw_object_start : json_writer → outcome json_writer := jw_open 0x7b.
Definition jw_object_end : json_writer → outcome json_writer := jw_close 0x7d.
Definition jw_array_start : json_writer → outcome json_writer := jw_open 0x5b.
Definition jw_array_end : json_writer → outcome json_writer := jw_close 0x5d.

Definition jw_key (key : list Z) (w : json_writer) : outcome json_writer :=
  w ← jw_maybe_comma w;
  n ← strlen key 0;
  w ← jw_write_escaped key (i32 n) w;
  w ← jw_putc 0x3a w;
  Ret (with_comma false w).

Definition jw_string_n (value : list Z) (len : Z) (w : json_writer) : outcome json_writer :=
  w ← jw_maybe_comma w;
  w ← jw_write_escaped value len w;
  Ret (with_comma true w).

Definition jw_string (value : list Z) (w : json_writer) : outcome json_writer :=
  w ← jw_maybe_comma w;
  n ← strlen value 0;
  w ← jw_write_escaped value (i32 n) w;
  Ret (with_comma true w).

(** Ten digits are enough for 32 bits. *)
Definition jw_int (value : Z) (w : json_writer) : outcome json_writer :=
  w ← jw_maybe_comma w;
  let neg := value <? 0 in
  let uval := if neg then u32 (u32 (- (value + 1)) + 1) else u32 value in
  let tmp := if uval =? 0 then [0x30] else digit_loop 10 uval in
  w ← (if neg then jw_putc 0x2d w else Ret w);
  w ← foldM (fun w c => jw_putc c w) (reverse tmp) w;
  Ret (with_comma true w).

Definition jw_bool (value : bool) (w : json_writer) : outcome json_writer :=
  w ← jw_maybe_comma w;
  w ← jw_puts (if value then c_string "true" else c_string "false") w;
  Ret (with_comma true w).

Definition jw_null (w : json_writer) : outcome json_writer :=
  w ← jw_maybe_comma w; w ← jw_puts (c_string "null") w; Ret (with_comma true w).

Definition jw_raw (raw : list Z) (len : Z) (w : json_writer) : outcome json_writer :=
  w ← jw_maybe_comma w;
  w ← foldM (fun w i => b ← load1 raw i; jw_putc b w) (seqZ 0 len) w;
  Ret (with_comma true w).

(** The length, or -1, and the buffer. *)
Definition jw_finish (w : json_writer) : outcome (Z * list Z) :=
  if jw_err w then Ret (-1, jw_buf w)
  else if jw_len w <? jw_cap w then buf ← store1 (jw_buf w) (jw_len w) 0; Ret (jw_len w, buf)
  else buf ← store1 (jw_buf w) (jw_cap w - 1) 0; Ret (-1, buf).
