(* ===== verification/JsonWrite.v ===== *)
(** * JSON: what the writer writes

    Documents, their text, and the proof that the calls for a document write this
    text into a buffer that has room for it. *)

From Stdlib Require Import String.
From S2P Require Import Prelude Ring KString UString Utf8 Json.

(** ** Documents *)

#[local] Set Warnings "-register-all".

(** Strings are lists of code points. *)
Inductive json : Type :=
  | JString (s : list Z)
  | JInt (n : Z)
  | JBool (b : bool)
  | JNull
  | JArray (l : list json)
  | JObject (l : list (list Z * json)).

Section json_ind.
Context (P : json → Prop).
Context (Pstring : ∀ s, P (JString s)) (Pint : ∀ n, P (JInt n)) (Pbool : ∀ b, P (JBool b)) (Pnull : P JNull).
Context (Parray : ∀ l, Forall P l → P (JArray l)) (Pobject : ∀ l, Forall (fun kv => P kv.2) l → P (JObject l)).

Fixpoint json_induction (v : json) : P v :=
  match v with
  | JString s => Pstring s
  | JInt n => Pint n
  | JBool b => Pbool b
  | JNull => Pnull
  | JArray l =>
      Parray l ((fix go l : Forall P l :=
        match l with [] => Forall_nil_2 _ | v :: l => Forall_cons_2 _ v l (json_induction v) (go l) end) l)
  | JObject l =>
      Pobject l ((fix go l : Forall (fun kv => P kv.2) l :=
        match l with [] => Forall_nil_2 _ | kv :: l => Forall_cons_2 (fun kv => P kv.2) kv l (json_induction kv.2) (go l) end) l)
  end.
End json_ind.

(** ** Their text *)

(** The bytes of a string. *)
Definition utf8_text (s : list Z) : list Z := concat (enc <$> s).

Definition hex_digit (d : Z) : Z := if d <? 10 then 0x30 + d else 0x61 + (d - 10).

Definition escape (cp : Z) : list Z :=
  match escape_letter cp with
  | Some e => [0x5c; e]
  | None => if cp <? 0x20 then [0x5c; 0x75; 0x30; 0x30; hex_digit (cp / 16); hex_digit (cp mod 16)] else enc cp
  end.

Definition quoted (s : list Z) : list Z := [0x22] ++ concat (escape <$> s) ++ [0x22].

(** The decimal digits of a number of at most ten digits, the last first. *)
Definition int_text (n : Z) : list Z :=
  (if n <? 0 then [0x2d] else []) ++ (if n =? 0 then [0x30] else reverse (digit_loop 10 (Z.abs n))).

Fixpoint commas (l : list (list Z)) : list Z :=
  match l with [] => [] | [x] => x | x :: l => x ++ [0x2c] ++ commas l end.

Fixpoint render (v : json) : list Z :=
  match v with
  | JString s => quoted s
  | JInt n => int_text n
  | JBool b => if b then chars "true" else chars "false"
  | JNull => chars "null"
  | JArray l => [0x5b] ++ commas (map render l) ++ [0x5d]
  | JObject l => [0x7b] ++ commas (map (fun kv => quoted kv.1 ++ [0x3a] ++ render kv.2) l) ++ [0x7d]
  end.

(** The calls that write a document. *)
Fixpoint write_json (v : json) (w : json_writer) : outcome json_writer :=
  match v with
  | JString s => jw_string_n (utf8_text s) (Z.of_nat (length (utf8_text s))) w
  | JInt n => jw_int n w
  | JBool b => jw_bool b w
  | JNull => jw_null w
  | JArray l =>
      w ← jw_array_start w;
      w ← (fix go l w := match l with [] => Ret w | v :: l => w ← write_json v w; go l w end) l w;
      jw_array_end w
  | JObject l =>
      w ← jw_object_start w;
      w ← (fix go l w :=
             match l with
             | [] => Ret w
             | (k, v) :: l => w ← jw_key (utf8_text k ++ [0]) w; w ← write_json v w; go l w
             end) l w;
      jw_object_end w
  end.

(** Code points are valid, keys are C strings, numbers are [int]s. *)
Definition char_ok (cp : Z) : Prop := 0 ≤ cp ∧ utf8_is_valid_codepoint cp = true.
Definition key_ok (k : list Z) : Prop := Forall (fun cp => char_ok cp ∧ cp ≠ 0) k.

Fixpoint json_ok (v : json) : Prop :=
  match v with
  | JString s => Forall char_ok s
  | JInt n => - 2 ^ 31 ≤ n < 2 ^ 31
  | JBool _ | JNull => True
  | JArray l => foldr (fun v P => json_ok v ∧ P) True l
  | JObject l => foldr (fun kv P => (key_ok kv.1 ∧ json_ok kv.2) ∧ P) True l
  end.

(** ** The writer *)

Definition jw_written (w : json_writer) : list Z := take (Z.to_nat (jw_len w)) (jw_buf w).

Record room (n : Z) (w : json_writer) : Prop := {
  rm_err : jw_err w = false;
  rm_len : 0 ≤ jw_len w;
  rm_cap : jw_len w + n ≤ jw_cap w - 1;
  rm_buf : jw_cap w ≤ Z.of_nat (length (jw_buf w));
  rm_int : jw_cap w < 2 ^ 31
}.

Record emitted (w : json_writer) (bytes : list Z) (w' : json_writer) : Prop := {
  em_written : jw_written w' = jw_written w ++ bytes;
  em_len : jw_len w' = jw_len w + Z.of_nat (length bytes);
  em_cap : jw_cap w' = jw_cap w;
  em_err : jw_err w' = jw_err w;
  em_buf : length (jw_buf w') = length (jw_buf w)
}.

Lemma emitted_nil w : emitted w [] w.
Proof. split; try done; [by rewrite app_nil_r|simpl; lia]. Qed.

Lemma emitted_app w a w1 b w2 : emitted w a w1 → emitted w1 b w2 → emitted w (a ++ b) w2.
Proof.
  intros [A1 A2 A3 A4 A5] [B1 B2 B3 B4 B5].
  split; [by rewrite B1, A1, app_assoc|rewrite B2, A2, length_app; lia|congruence..].
Qed.

Lemma room_after n w a w1 : emitted w a w1 → room (Z.of_nat (length a) + n) w → room n w1.
Proof. intros [A1 A2 A3 A4 A5] [R1 R2 R3 R4 R5]. split; [congruence|lia..]. Qed.

Lemma room_le m n w : room n w → m ≤ n → room m w.
Proof. intros [] ?. split; [done|done|lia|done|done]. Qed.

(** A call that appends bytes and leaves the flag for the comma alone. *)
Definition emits (f : json_writer → outcome json_writer) (bytes : list Z) : Prop :=
  ∀ w, room (Z.of_nat (length bytes)) w → ∃ w', f w = Ret w' ∧ emitted w bytes w' ∧ need_comma w' = need_comma w.

Lemma emits_ret : emits Ret [].
Proof. intros w _. exists w. split; [done|]. split; [apply emitted_nil|done]. Qed.

Lemma emits_bind f a g b : emits f a → emits g b → emits (fun w => w ← f w; g w) (a ++ b).
Proof.
  intros Hf Hg w Hr. rewrite length_app in Hr. destruct (Hf w) as (w1 & -> & E1 & C1); [eapply room_le; [done|lia]|].
  destruct (Hg w1) as (w2 & E & E2 & C2); [eapply room_after; [done|by rewrite <-Nat2Z.inj_add]|].
  exists w2. split; [done|]. split; [by eapply emitted_app|congruence].
Qed.

Lemma emits_putc c : emits (jw_putc c) [c].
Proof.
  intros w [R1 R2 R3 R4 R5]. simpl length in R3. unfold jw_putc. destruct (Z.ltb_spec (jw_len w) (jw_cap w - 1)); [|lia].
  rewrite store1_Ret, bind_ret by lia. eexists. split; [done|]. split; [|done]. split; cbn; try done; [|by rewrite length_insert].
  unfold jw_written. cbn [jw_len jw_buf]. replace (Z.to_nat (jw_len w + 1)) with (S (Z.to_nat (jw_len w))) by lia.
  rewrite (take_S_r _ _ c) by (apply list_lookup_insert_eq; lia). by rewrite take_insert_ge by lia.
Qed.

Lemma emits_puts s rest : Forall (fun c => c ≠ 0) s → emits (jw_puts (s ++ 0 :: rest)) s.
Proof.
  intros Hs. induction Hs as [|c s Hc Hs IH]; [intros w Hr; exists w; split; [done|]; split; [apply emitted_nil|done]|].
  intros w Hr. cbn [app jw_puts]. destruct (Z.eqb_spec c 0); [done|]. exact (emits_bind _ [c] _ s (emits_putc c) IH w Hr).
Qed.

Lemma emits_putcs l : emits (foldM (fun w c => jw_putc c w) l) l.
Proof.
  induction l as [|c l IH]; [apply emits_ret|]. intros w Hr. cbn [foldM]. exact (emits_bind _ [c] _ l (emits_putc c) IH w Hr).
Qed.

(** ** Strings *)

Lemma enc_bytes cp : char_ok cp → Forall is_byte (enc cp).
Proof.
  intros [Hp Hv]. destruct (enc_shape cp (valid_range cp Hp Hv)) as (b & bs & -> & Hb & _ & Hbs & _).
  constructor; [done|]. eapply Forall_impl; [exact Hbs|]. unfold is_byte. simpl. lia.
Qed.

Lemma enc_length cp : 0 ≤ cp < 0x110000 → (1 ≤ length (enc cp) ≤ 4)%nat.
Proof. intros H. destruct (enc_shape cp H) as (b & bs & -> & _ & _ & _ & Hl). simpl. lia. Qed.

Lemma load_0 (a : Z) l : load1 (a :: l) 0 = Ret a.
Proof. done. Qed.
Lemma load_1 (a b : Z) l : load1 (a :: b :: l) 1 = Ret b.
Proof. done. Qed.
Lemma load_2 (a b c : Z) l : load1 (a :: b :: c :: l) (1 + 1) = Ret c.
Proof. done. Qed.
Lemma load_3 (a b c d : Z) l : load1 (a :: b :: c :: d :: l) (1 + 1 + 1) = Ret d.
Proof. done. Qed.

Lemma decode_rest_step n s i cp b :
  load1 s i = Ret b → 0x80 ≤ b < 0xc0 → 0 ≤ cp < 2 ^ 26 →
  decode_rest (S n) s i cp = decode_rest n s (i + 1) (cp * 64 + (b - 0x80)).
Proof.
  intros Hl Hb Hcp. cbn [decode_rest]. rewrite Hl, bind_ret.
  destruct (byte_masks b ltac:(unfold is_byte; lia)) as (_ & _ & _ & Hc). unfold utf8_is_continuation in Hc. rewrite Hc.
  destruct (Z.leb_spec 0x80 b), (Z.ltb_spec b 0xc0); try lia. cbn [andb negb]. f_equal.
  change 0x3f with (Z.ones 6). rewrite low_bits, Z.shiftl_mul_pow2 by lia. rewrite u32_small by (unfold is_u32, U32; lia).
  rewrite <-(Zmod_unique b (2 ^ 6) 2 (b - 0x80)) by lia. rewrite lor_join by lia. lia.
Qed.

Lemma decode_first_spec b :
  is_byte b → decode_first b =
    if (0xc2 <=? b) && (b <=? 0xdf) then Some (b - 0xc0, 2) else if (0xe0 <=? b) && (b <=? 0xef) then Some (b - 0xe0, 3)
    else if (0xf0 <=? b) && (b <=? 0xf4) then Some (b - 0xf0, 4) else None.
Proof.
  intros Hb. unfold decode_first, is_byte in *. change 0x1f with (Z.ones 5). change 0x0f with (Z.ones 4). change 0x07 with (Z.ones 3).
  rewrite !low_bits by lia.
  destruct ((0xc2 <=? b) && (b <=? 0xdf)) eqn:E1; [do 2 f_equal; rewrite <-(Zmod_unique b (2 ^ 5) 6 (b - 0xc0)); lia|].
  destruct ((0xe0 <=? b) && (b <=? 0xef)) eqn:E2; [do 2 f_equal; rewrite <-(Zmod_unique b (2 ^ 4) 14 (b - 0xe0)); lia|].
  destruct ((0xf0 <=? b) && (b <=? 0xf4)) eqn:E3; [do 2 f_equal; rewrite <-(Zmod_unique b (2 ^ 3) 30 (b - 0xf0)); lia|done].
Qed.

Lemma valid_not_surrogate cp : char_ok cp → (0x10ffff <? cp) || ((0xd800 <=? cp) && (cp <=? 0xdfff)) = false.
Proof. intros [_ Hv]. revert Hv. unfold utf8_is_valid_codepoint. zcases; simpl; intros; done || lia. Qed.

Lemma jw_decode_enc cp rest len :
  char_ok cp → Z.of_nat (length (enc cp)) ≤ len → jw_decode_utf8 (enc cp ++ rest) len = Ret (Some cp, Z.of_nat (length (enc cp))).
Proof.
  intros Hok Hl. pose proof (valid_not_surrogate cp Hok) as Hs. destruct Hok as [Hp Hv]. pose proof (valid_range cp Hp Hv). div_facts cp.
  unfold jw_decode_utf8. unfold enc in *.
  destruct (Z.ltb_spec cp 0x80); [|destruct (Z.ltb_spec cp 0x800); [|destruct (Z.ltb_spec cp 0x10000)]];
    (cbn [app]; rewrite load_0, bind_ret; cbn [length] in *).
  - destruct (Z.ltb_spec cp 0x80); [done|lia].
  - destruct (Z.ltb_spec (0xc0 + cp / 64) 0x80); [lia|]. rewrite decode_first_spec by (unfold is_byte; lia).
    destruct ((0xc2 <=? 0xc0 + cp / 64) && (0xc0 + cp / 64 <=? 0xdf)) eqn:E; [|lia]. destruct (Z.ltb_spec len 2); [lia|].
    change (Z.to_nat (2 - 1)) with 1%nat. rewrite (decode_rest_step _ _ _ _ _ (load_1 _ _ _)) by lia.
    cbn [decode_rest]. rewrite bind_ret. replace ((0xc0 + cp / 64 - 0xc0) * 64 + (0x80 + cp mod 64 - 0x80)) with cp by lia.
    rewrite <-!orb_assoc, Hs. destruct (Z.ltb_spec cp 0x80); [lia|]. done.
  - destruct (Z.ltb_spec (0xe0 + cp / 4096) 0x80); [lia|]. rewrite decode_first_spec by (unfold is_byte; lia).
    destruct ((0xc2 <=? 0xe0 + cp / 4096) && (0xe0 + cp / 4096 <=? 0xdf)) eqn:E; [lia|].
    destruct ((0xe0 <=? 0xe0 + cp / 4096) && (0xe0 + cp / 4096 <=? 0xef)) eqn:E2; [|lia]. destruct (Z.ltb_spec len 3); [lia|].
    change (Z.to_nat (3 - 1)) with 2%nat. rewrite (decode_rest_step _ _ _ _ _ (load_1 _ _ _)) by lia.
    rewrite (decode_rest_step _ _ _ _ _ (load_2 _ _ _ _)) by lia. cbn [decode_rest]. rewrite bind_ret.
    replace (((0xe0 + cp / 4096 - 0xe0) * 64 + (0x80 + cp / 64 mod 64 - 0x80)) * 64 + (0x80 + cp mod 64 - 0x80)) with cp by lia.
    rewrite <-!orb_assoc, Hs. destruct (Z.ltb_spec cp 0x800); [lia|]. done.
  - destruct (Z.ltb_spec (0xf0 + cp / 262144) 0x80); [lia|]. rewrite decode_first_spec by (unfold is_byte; lia).
    destruct ((0xc2 <=? 0xf0 + cp / 262144) && (0xf0 + cp / 262144 <=? 0xdf)) eqn:E; [lia|].
    destruct ((0xe0 <=? 0xf0 + cp / 262144) && (0xf0 + cp / 262144 <=? 0xef)) eqn:E2; [lia|].
    destruct ((0xf0 <=? 0xf0 + cp / 262144) && (0xf0 + cp / 262144 <=? 0xf4)) eqn:E3; [|lia]. destruct (Z.ltb_spec len 4); [lia|].
    change (Z.to_nat (4 - 1)) with 3%nat. rewrite (decode_rest_step _ _ _ _ _ (load_1 _ _ _)) by lia.
    rewrite (decode_rest_step _ _ _ _ _ (load_2 _ _ _ _)) by lia.
    rewrite (decode_rest_step _ _ _ _ _ (load_3 _ _ _ _ _)) by lia. cbn [decode_rest]. rewrite bind_ret.
    replace ((((0xf0 + cp / 262144 - 0xf0) * 64 + (0x80 + cp / 4096 mod 64 - 0x80)) * 64 + (0x80 + cp / 64 mod 64 - 0x80)) * 64 + (0x80 + cp mod 64 - 0x80)) with cp by lia.
    rewrite <-!orb_assoc, Hs. destruct (Z.ltb_spec cp 0x10000); [lia|]. done.
Qed.

Lemma control_hex c :
  0 ≤ c < 0x20 → load1 hex_digits (Z.land (Z.shiftr c 4) 0xf) = Ret (hex_digit (c / 16)) ∧
    load1 hex_digits (Z.land c 0xf) = Ret (hex_digit (c mod 16)) ∧ hex_digit (c / 16) ≠ 0 ∧ hex_digit (c mod 16) ≠ 0.
Proof.
  intros Hc. assert (Forall (fun c => load1 hex_digits (Z.land (Z.shiftr c 4) 0xf) = Ret (hex_digit (c / 16)) ∧
    load1 hex_digits (Z.land c 0xf) = Ret (hex_digit (c mod 16)) ∧ hex_digit (c / 16) ≠ 0 ∧ hex_digit (c mod 16) ≠ 0) (seqZ 0 32)) as H.
  { vm_compute. repeat constructor; discriminate. }
  rewrite Forall_forall in H. apply H, elem_of_seqZ. lia.
Qed.

Lemma emits_copy l s rest i :
  drop (Z.to_nat i) s = l ++ rest → 0 ≤ i → emits (foldM (fun w j => b ← load1 s j; jw_putc b w) (seqZ i (Z.of_nat (length l)))) l.
Proof.
  revert i. induction l as [|b l IH]; intros i Hs Hi; [apply emits_ret|]. cbn [length].
  rewrite seqZ_cons by lia. replace (Z.pred (Z.of_nat (S (length l)))) with (Z.of_nat (length l)) by lia.
  assert (load1 s i = Ret b) as Hb. { apply load1_Ret; [done|]. rewrite <-(Nat.add_0_r (Z.to_nat i)), <-lookup_drop, Hs. done. }
  intros w Hr. cbn [foldM]. rewrite Hb, bind_ret. refine (emits_bind _ [b] _ l (emits_putc b) _ w Hr).
  apply IH; [|lia]. apply (f_equal (drop 1)) in Hs. rewrite drop_drop in Hs. by replace (Z.to_nat (Z.succ i)) with (Z.to_nat i + 1)%nat by lia.
Qed.

Lemma escape_letter_high b : 0x80 ≤ b → escape_letter b = None.
Proof. intros Hb. unfold escape_letter. zcases; done || lia. Qed.

(** One character of a string. *)
Lemma write_char_spec cp rest len :
  char_ok cp → Z.of_nat (length (enc cp)) ≤ len → ∀ w, room (Z.of_nat (length (escape cp))) w →
  ∃ w', write_char (enc cp ++ rest) len w = Ret (w', Z.of_nat (length (enc cp))) ∧ emitted w (escape cp) w' ∧ need_comma w' = need_comma w.
Proof.
  intros Hok Hl w Hr. unfold write_char. destruct (Z.ltb_spec cp 0x80) as [Hlow|Hhigh].
  - assert (enc cp = [cp]) as E by (unfold enc; destruct (Z.ltb_spec cp 0x80); [done|lia]). rewrite E in *. cbn [app length].
    rewrite load_0, bind_ret. unfold escape in *. destruct (escape_letter cp) as [e|] eqn:Ee.
    + destruct (emits_bind _ _ _ _ (emits_putc 0x5c) (emits_putc e) w Hr) as (w' & Hw & E' & C').
      apply bind_ret_inv in Hw as (w1 & -> & Hw). rewrite bind_ret, Hw. by exists w'.
    + destruct Hok as [Hp _]. destruct (Z.ltb_spec cp 0x20).
      * destruct (control_hex cp) as (-> & -> & H4 & H5); [lia|]. rewrite !bind_ret.
        destruct (emits_puts [0x5c; 0x75; 0x30; 0x30; hex_digit (cp / 16); hex_digit (cp mod 16)] []
          ltac:(repeat (constructor; [done|]); constructor) w Hr) as (w' & Hw & E' & C'). cbn [app] in Hw. rewrite Hw. by exists w'.
      * destruct (Z.ltb_spec cp 0x80); [|lia]. rewrite E in *. destruct (emits_putc cp w Hr) as (w' & -> & E' & C'). by exists w'.
  - destruct Hok as [Hp Hv]. destruct (enc_shape cp (valid_range cp Hp Hv)) as (b & bs & E & Hb & Hnc & _ & _).
    assert (0xc0 ≤ b) as Hb'.
    { unfold is_byte in Hb. unfold enc in E. destruct (Z.ltb_spec cp 0x80); [lia|]. div_facts cp.
      destruct (Z.ltb_spec cp 0x800); [|destruct (Z.ltb_spec cp 0x10000)]; injection E as <- _; lia. }
    assert (load1 (enc cp ++ rest) 0 = Ret b) as -> by by rewrite E. rewrite bind_ret, escape_letter_high by lia.
    destruct (Z.ltb_spec b 0x20); [lia|]. destruct (Z.ltb_spec b 0x80); [lia|].
    rewrite jw_decode_enc, bind_ret by done. unfold escape in *. rewrite escape_letter_high in * by lia.
    destruct (Z.ltb_spec cp 0x20); [lia|].
    destruct (emits_copy (enc cp) (enc cp ++ rest) rest 0 eq_refl ltac:(lia) w Hr) as (w' & -> & E' & C'). by exists w'.
Qed.

Lemma escaped_loop_spec s pre fuel rest :
  Forall char_ok s → (length s < fuel)%nat →
  emits (escaped_loop fuel (pre ++ utf8_text s ++ rest) (Z.of_nat (length pre + length (utf8_text s))) (Z.of_nat (length pre))) (concat (escape <$> s)).
Proof.
  intros Hs. revert pre fuel. induction Hs as [|cp s Hcp Hs IH]; intros pre [|fuel] Hf w Hr; try (simpl in Hf; lia).
  - cbn [escaped_loop]. unfold utf8_text. simpl length. rewrite Nat.add_0_r, Z.ltb_irrefl. exists w. split; [done|]. split; [apply emitted_nil|done].
  - assert (utf8_text (cp :: s) = enc cp ++ utf8_text s) as Eu by done. rewrite fmap_cons in *. cbn [concat] in *.
    assert (1 ≤ length (enc cp))%nat as Hl1 by (destruct Hcp; apply enc_length, valid_range; done).
    cbn [escaped_loop]. rewrite Eu, length_app in *. destruct (Z.ltb_spec (Z.of_nat (length pre)) (Z.of_nat (length pre + (length (enc cp) + length (utf8_text s))))); [|lia].
    assert (behind (pre ++ (enc cp ++ utf8_text s) ++ rest) (Z.of_nat (length pre)) = Ret (enc cp ++ utf8_text s ++ rest)) as ->.
    { unfold behind. rewrite Nat2Z.id, <-app_assoc, drop_app_length, length_app.
      destruct (Z.leb_spec (Z.of_nat (length pre)) (Z.of_nat (length pre + length (enc cp ++ utf8_text s ++ rest)))); [|lia].
      destruct (Z.leb_spec 0 (Z.of_nat (length pre))); [done|lia]. }
    rewrite bind_ret.
    destruct (write_char_spec cp (utf8_text s ++ rest) (Z.of_nat (length pre + (length (enc cp) + length (utf8_text s))) - Z.of_nat (length pre)) Hcp
      ltac:(lia) w) as (w1 & -> & E1 & C1); [eapply room_le; [done|lia]|].
    rewrite bind_ret. destruct (IH (pre ++ enc cp) fuel ltac:(simpl in Hf; lia) w1) as (w2 & Hw2 & E2 & C2).
    { eapply room_after; [done|]. by rewrite <-Nat2Z.inj_add. }
    rewrite <-!app_assoc, !length_app in Hw2. exists w2. rewrite <-Nat2Z.inj_add, <-app_assoc, <-Hw2. split; [by rewrite Nat.add_assoc|].
    split; [by eapply emitted_app|congruence].
Qed.

Lemma utf8_text_length s : Forall char_ok s → (length s ≤ length (utf8_text s))%nat.
Proof.
  induction 1 as [|cp s [Hp Hv] _ IH]; [done|]. change (utf8_text (cp :: s)) with (enc cp ++ utf8_text s). rewrite length_app.
  pose proof (enc_length cp (valid_range cp Hp Hv)). simpl. lia.
Qed.

Lemma emits_escaped s rest :
  Forall char_ok s → emits (jw_write_escaped (utf8_text s ++ rest) (Z.of_nat (length (utf8_text s)))) (quoted s).
Proof.
  intros Hs. unfold jw_write_escaped, quoted. apply (emits_bind _ [0x22] _ _ (emits_putc 0x22)).
  apply (emits_bind _ (concat (escape <$> s)) _ [0x22]); [|apply emits_putc].
  apply (escaped_loop_spec s [] _ rest Hs). pose proof (utf8_text_length s Hs). lia.
Qed.

(** ** Documents *)

Definition comma (w : json_writer) : list Z := if need_comma w then [0x2c] else [].

(** A call that appends a value behind the comma it needs. *)
Definition emits_item (f : json_writer → outcome json_writer) (bytes : list Z) (after : bool) : Prop :=
  ∀ w, room (Z.of_nat (length (comma w ++ bytes))) w →
    ∃ w', f w = Ret w' ∧ emitted w (comma w ++ bytes) w' ∧ need_comma w' = after.

Lemma emitted_comma w bytes w' b : emitted w bytes w' → emitted w bytes (with_comma b w').
Proof. intros []. by split. Qed.

Lemma emits_item_body f bytes after body :
  emits f bytes → (∀ w, body w = (w ← f w; Ret (with_comma after w))) → emits_item (fun w => w ← jw_maybe_comma w; body w) bytes after.
Proof.
  intros Hf Hbody w Hr. unfold jw_maybe_comma. rewrite length_app in Hr.
  assert (∃ w1, (w1 ← (if need_comma w then jw_putc 0x2c w else Ret w); Ret (with_comma false w1)) = Ret w1 ∧ emitted w (comma w) w1) as (w1 & -> & E1).
  { unfold comma in *. destruct (need_comma w).
    - destruct (emits_putc 0x2c w) as (w1 & -> & E & _); [eapply room_le; [done|simpl; lia]|]. eexists. split; [done|]. by apply emitted_comma.
    - eexists. split; [done|]. apply emitted_comma, emitted_nil. }
  rewrite bind_ret, Hbody. destruct (Hf w1) as (w2 & -> & E2 & _); [eapply room_after; [done|by rewrite <-Nat2Z.inj_add]|].
  rewrite bind_ret. eexists. split; [done|]. split; [|done]. apply emitted_comma. by eapply emitted_app.
Qed.

Lemma emits_item_intro f bytes after :
  emits f bytes → emits_item (fun w => w ← jw_maybe_comma w; w ← f w; Ret (with_comma after w)) bytes after.
Proof. intros Hf. by apply (emits_item_body f). Qed.

Lemma emits_item_bind f a b g bytes2 after :
  emits_item f a b → (∀ w, need_comma w = b → room (Z.of_nat (length bytes2)) w →
    ∃ w', g w = Ret w' ∧ emitted w bytes2 w' ∧ need_comma w' = after) →
  emits_item (fun w => w ← f w; g w) (a ++ bytes2) after.
Proof.
  intros Hf Hg w Hr. rewrite app_assoc, length_app in Hr. destruct (Hf w) as (w1 & -> & E1 & C1); [eapply room_le; [done|lia]|].
  rewrite bind_ret. destruct (Hg w1 C1) as (w2 & -> & E2 & C2); [eapply room_after; [done|by rewrite <-Nat2Z.inj_add]|].
  exists w2. split; [done|]. split; [|done]. rewrite app_assoc. by eapply emitted_app.
Qed.

Lemma emits_open c : emits_item (jw_open c) [c] false.
Proof.
  intros w Hr. destruct (emits_item_intro _ _ false (emits_putc c) w Hr) as (w' & Hw & E & C). unfold jw_open.
  destruct (jw_maybe_comma w) as [w1| |]; [|done..]. rewrite bind_ret in *. destruct (jw_putc c w1) as [w2| |]; [|done..].
  rewrite bind_ret in *. injection Hw as <-. eexists. split; [done|]. split; [|done]. by destruct E.
Qed.

Lemma close_spec c w :
  room 1 w → ∃ w', jw_close c w = Ret w' ∧ emitted w [c] w' ∧ need_comma w' = true.
Proof.
  intros Hr. unfold jw_close. destruct (emits_putc c w Hr) as (w' & -> & E & _). rewrite bind_ret. eexists. split; [done|]. split; [|done]. by destruct E.
Qed.

(** The numbers. *)
Lemma emits_int n : - 2 ^ 31 ≤ n < 2 ^ 31 → emits_item (jw_int n) (int_text n) true.
Proof.
  intros Hn w Hr. unfold jw_int.
  assert ((if n <? 0 then u32 (u32 (- (n + 1)) + 1) else u32 n) = Z.abs n) as Habs.
  { destruct (Z.ltb_spec n 0).
    - rewrite (u32_small (- (n + 1))) by (unfold is_u32, U32; lia). rewrite u32_small by (unfold is_u32, U32; lia). lia.
    - rewrite u32_small by (unfold is_u32, U32; lia). lia. }
  cbv zeta. rewrite Habs.
  refine (emits_item_body (fun w => w ← (if n <? 0 then jw_putc 0x2d w else Ret w);
     foldM (fun w c => jw_putc c w) (reverse (if Z.abs n =? 0 then [0x30] else digit_loop 10 (Z.abs n))) w) (int_text n) true _ _ _ w Hr).
  2:{ intros w1. by destruct (if n <? 0 then jw_putc 0x2d w1 else Ret w1). }
  apply emits_bind; [destruct (n <? 0); [apply emits_putc|apply emits_ret]|].
  destruct (Z.eqb_spec (Z.abs n) 0), (Z.eqb_spec n 0); try lia; apply emits_putcs.
Qed.

Lemma escape_length cp : char_ok cp → (length (enc cp) ≤ length (escape cp))%nat.
Proof.
  intros [Hp Hv]. unfold escape. destruct (escape_letter cp) as [e|] eqn:E.
  - assert (cp < 0x80) by (destruct (Z.ltb_spec cp 0x80); [done|]; by rewrite escape_letter_high in E).
    unfold enc. destruct (Z.ltb_spec cp 0x80); [simpl; lia|lia].
  - destruct (Z.ltb_spec cp 0x20); [|done]. unfold enc. destruct (Z.ltb_spec cp 0x80); [simpl; lia|lia].
Qed.

Lemma quoted_length s : Forall char_ok s → (length (utf8_text s) < length (quoted s))%nat.
Proof.
  intros Hs. unfold quoted. rewrite !length_app. simpl length.
  assert (length (utf8_text s) ≤ length (concat (escape <$> s)))%nat; [|lia].
  induction Hs as [|cp s Hcp _ IH]; [done|]. change (utf8_text (cp :: s)) with (enc cp ++ utf8_text s). rewrite fmap_cons. cbn [concat].
  rewrite !length_app. pose proof (escape_length cp Hcp). lia.
Qed.

Lemma enc_text cp : char_ok cp → cp ≠ 0 → text (enc cp).
Proof.
  intros [Hp Hv] Hne. pose proof (valid_range cp Hp Hv). div_facts cp. unfold text, enc.
  destruct (Z.ltb_spec cp 0x80); [constructor; [lia|constructor]|].
  destruct (Z.ltb_spec cp 0x800); [|destruct (Z.ltb_spec cp 0x10000)]; repeat (constructor; [lia|]); constructor.
Qed.

Lemma key_text k : key_ok k → text (utf8_text k).
Proof. induction 1 as [|cp k [Hcp Hne] _ IH]; [constructor|]. apply Forall_app. split; [by apply enc_text|exact IH]. Qed.

Lemma key_chars k : key_ok k → Forall char_ok k.
Proof. intros Hk. eapply Forall_impl; [exact Hk|]. by intros ? []. Qed.

Lemma emits_key k : key_ok k → emits_item (jw_key (utf8_text k ++ [0])) (quoted k ++ [0x3a]) false.
Proof.
  intros Hk w Hr. unfold jw_key. pose proof (quoted_length k (key_chars k Hk)) as Hq.
  assert (Z.of_nat (length (utf8_text k)) < 2 ^ 31) as Hl by (destruct Hr; rewrite !length_app in *; lia).
  refine (emits_item_body (fun w => w ← jw_write_escaped (utf8_text k ++ [0]) (Z.of_nat (length (utf8_text k))) w; jw_putc 0x3a w) _ false _ _ _ w Hr).
  - apply emits_bind; [by apply emits_escaped, key_chars|apply emits_putc].
  - intros w1. rewrite (strlen_value _ _ (utf8_text k)), bind_ret by (apply literal_at, key_text, Hk || unfold U32; lia).
    rewrite i32_small by lia. by destruct (jw_write_escaped _ _ w1).
Qed.

(** Items with the comma the first needs. *)
Fixpoint items_text (c : bool) (l : list (list Z)) : list Z :=
  match l with [] => [] | x :: l => (if c then [0x2c] else []) ++ x ++ items_text true l end.

Lemma items_commas l : items_text false l = commas l.
Proof.
  destruct l as [|x l]; [done|]. cbn [items_text app]. revert x. induction l as [|y l IH]; intros x; [apply app_nil_r|].
  change (commas (x :: y :: l)) with (x ++ [0x2c] ++ commas (y :: l)). rewrite <-IH. done.
Qed.

Section items.
Context {A : Type} (write : A → json_writer → outcome json_writer) (text_of : A → list Z).

Lemma emits_items (go : list A → json_writer → outcome json_writer) l :
  (∀ w, go [] w = Ret w) → (∀ a l w, go (a :: l) w = (w ← write a w; go l w)) → Forall (fun a => emits_item (write a) (text_of a) true) l →
  ∀ w, room (Z.of_nat (length (items_text (need_comma w) (map text_of l)))) w →
    ∃ w', go l w = Ret w' ∧ emitted w (items_text (need_comma w) (map text_of l)) w'.
Proof using Type.
  intros Hnil Hcons Hl. induction Hl as [|a l Ha Hl IH]; intros w Hr.
  - exists w. split; [apply Hnil|apply emitted_nil].
  - cbn [map items_text] in *. fold (comma w) in *. rewrite app_assoc, length_app in Hr. rewrite Hcons.
    destruct (Ha w) as (w1 & -> & E1 & C1); [eapply room_le; [done|lia]|]. rewrite bind_ret.
    assert (room (Z.of_nat (length (items_text true (map text_of l)))) w1) as Hr1 by (eapply room_after; [done|by rewrite <-Nat2Z.inj_add]).
    rewrite <-C1 in Hr1. destruct (IH w1 Hr1) as (w2 & -> & E2). rewrite C1 in E2. exists w2. split; [done|].
    rewrite app_assoc. by eapply emitted_app.
Qed.

(** A bracket, the items and the closing bracket. *)
Lemma emits_brackets (go : list A → json_writer → outcome json_writer) o c l :
  (∀ w, go [] w = Ret w) → (∀ a l w, go (a :: l) w = (w ← write a w; go l w)) → Forall (fun a => emits_item (write a) (text_of a) true) l →
  emits_item (fun w => w ← jw_open o w; w ← go l w; jw_close c w) ([o] ++ commas (map text_of l) ++ [c]) true.
Proof using Type.
  intros Hnil Hcons Hl. apply (emits_item_bind _ [o] false); [apply emits_open|]. intros w Hc Hr. rewrite length_app in Hr. simpl (length [c]) in Hr.
  destruct (emits_items go l Hnil Hcons Hl w) as (w1 & -> & E1).
  { rewrite Hc, items_commas. eapply room_le; [done|lia]. }
  rewrite bind_ret. rewrite Hc, items_commas in E1. destruct (close_spec c w1) as (w2 & -> & E2 & C2); [eapply room_after; [done|by rewrite Nat2Z.inj_add in Hr]|].
  exists w2. split; [done|]. split; [|done]. by eapply emitted_app.
Qed.
End items.

Lemma array_ok l : json_ok (JArray l) ↔ Forall json_ok l.
Proof. induction l as [|v l IH]; [split; [constructor|done]|]. cbn [json_ok foldr] in *. rewrite Forall_cons, <-IH. done. Qed.

Lemma object_ok l : json_ok (JObject l) ↔ Forall (fun kv => key_ok kv.1 ∧ json_ok kv.2) l.
Proof. induction l as [|v l IH]; [split; [constructor|done]|]. cbn [json_ok foldr] in *. rewrite Forall_cons, <-IH. done. Qed.

Lemma write_json_spec v : json_ok v → emits_item (write_json v) (render v) true.
Proof.
  induction v as [s|n|b| |l IH|l IH] using json_induction; intros Hok.
  - apply emits_item_intro. rewrite <-(app_nil_r (utf8_text s)) at 1. by apply emits_escaped.
  - by apply emits_int.
  - apply emits_item_intro. destruct b; apply (emits_puts _ []); vm_compute; repeat constructor; discriminate.
  - apply emits_item_intro. apply (emits_puts _ []); vm_compute; repeat constructor; discriminate.
  - apply array_ok in Hok. refine (emits_brackets write_json render _ 0x5b 0x5d l _ _ _); [done|done|].
    rewrite Forall_forall in *. intros v Hv. by apply IH, Hok.
  - apply object_ok in Hok.
    refine (emits_brackets (fun kv w => w ← jw_key (utf8_text kv.1 ++ [0]) w; write_json kv.2 w)
      (fun kv => quoted kv.1 ++ [0x3a] ++ render kv.2) _ 0x7b 0x7d l _ _ _); [done| |].
    + intros [k v] l' w. cbn [fst snd]. by destruct (jw_key (utf8_text k ++ [0]) w).
    + rewrite Forall_forall in *. intros [k v] Hkv. destruct (Hok _ Hkv) as [Hk Hv]. cbn [fst snd] in *. rewrite app_assoc.
      apply (emits_item_bind _ (quoted k ++ [0x3a]) false); [by apply emits_key|]. intros w Hc Hr.
      destruct (IH _ Hkv Hv w) as (w' & Hw & E & C); unfold comma in *; rewrite Hc in *; cbn [app] in *; [done|]. by exists w'.
Qed.

(** A document written into an empty buffer. *)
Lemma write_document v buf cap :
  json_ok v → Z.of_nat (length (render v)) < cap → cap ≤ Z.of_nat (length buf) → cap < 2 ^ 31 →
  ∃ w buf', write_json v (jw_init buf cap) = Ret w ∧ jw_finish w = Ret (Z.of_nat (length (render v)), buf') ∧
    length buf' = length buf ∧ take (length (render v)) buf' = render v.
Proof.
  intros Hok Hl Hc Hi. destruct (write_json_spec v Hok (jw_init buf cap)) as (w & -> & [E1 E2 E3 E4 E5] & _); [split; simpl; lia || done|].
  unfold jw_written, comma in *. cbn [jw_init jw_len jw_buf jw_cap jw_err need_comma app] in *. rewrite take_0 in E1. cbn [app] in E1.
  eexists w, _. split; [done|]. unfold jw_finish. rewrite E4, E3. destruct (Z.ltb_spec (jw_len w) cap); [|lia].
  rewrite store1_Ret, bind_ret by lia. rewrite E2, Z.add_0_l in *. split; [done|]. rewrite length_insert. split; [done|].
  rewrite take_insert_ge by lia. by rewrite Nat2Z.id in E1.
Qed.
