(* ===== verification/JsonParse.v ===== *)
(** * JSON: what the tokenizer makes of a document

    The tokens of a document and the proof that [json_parse] of its text yields
    exactly these. *)

From Stdlib Require Import String.
From S2P Require Import Prelude Ring KString UString Utf8 Json JsonWrite.

(** ** The tokens of a document *)

Section items.
Context {A : Type} (text_of : A → list Z) (ntok_of : A → nat) (toks_of : A → Z → Z → Z → list json_token).

(** The tokens of items with commas between them: the position of the first, the
    index of its first token, and the index of the container. *)
Definition items_tokens : list A → Z → Z → Z → list json_token :=
  fix go l pos n a :=
    match l with
    | [] => []
    | x :: l => toks_of x pos n a ++ go l (pos + Z.of_nat (length (text_of x)) + 1) (n + Z.of_nat (ntok_of x)) a
    end.
End items.

Fixpoint ntok (v : json) : nat :=
  match v with
  | JArray l => S (sum_list (map ntok l))
  | JObject l => S (sum_list (map (fun kv => S (ntok kv.2)) l))
  | _ => 1
  end.

(** The token of a key, which has one child. *)
Definition key_token (k : list Z) (size pos a : Z) : json_token :=
  Token JSON_STRING (pos + 1) (pos + Z.of_nat (length (quoted k)) - 1) size a.

Definition pair_text (kv : list Z * json) : list Z := quoted kv.1 ++ [0x3a] ++ render kv.2.

(** The start of the text, the index of the first token and of the parent. *)
Fixpoint tokens_of (v : json) (pos n s : Z) : list json_token :=
  let len := Z.of_nat (length (render v)) in
  match v with
  | JString _ => [Token JSON_STRING (pos + 1) (pos + len - 1) 0 s]
  | JInt _ => [Token JSON_NUMBER pos (pos + len) 0 s]
  | JBool _ => [Token JSON_BOOL pos (pos + len) 0 s]
  | JNull => [Token JSON_NULL pos (pos + len) 0 s]
  | JArray l =>
      Token JSON_ARRAY pos (pos + len) (Z.of_nat (length l)) s :: items_tokens render ntok tokens_of l (pos + 1) (n + 1) n
  | JObject l =>
      Token JSON_OBJECT pos (pos + len) (Z.of_nat (length l)) s ::
        items_tokens pair_text (fun kv => S (ntok kv.2))
          (fun kv pos n a => key_token kv.1 1 pos a :: tokens_of kv.2 (pos + Z.of_nat (length (quoted kv.1)) + 1) (n + 1) n)
          l (pos + 1) (n + 1) n
  end.

Definition pair_tokens (kv : list Z * json) (pos n a : Z) : list json_token :=
  key_token kv.1 1 pos a :: tokens_of kv.2 (pos + Z.of_nat (length (quoted kv.1)) + 1) (n + 1) n.

Definition closed (t : json_token) : Prop := t_end t ≠ -1.

Lemma items_tokens_closed {A} (text_of : A → list Z) ntok_of toks_of l :
  Forall (fun x => ∀ pos n a, 0 ≤ pos → length (toks_of x pos n a) = ntok_of x ∧ Forall closed (toks_of x pos n a)) l → ∀ pos n a, 0 ≤ pos →
  length (items_tokens text_of ntok_of toks_of l pos n a) = sum_list (map ntok_of l) ∧
  Forall closed (items_tokens text_of ntok_of toks_of l pos n a).
Proof.
  induction 1 as [|x l Hx _ IH]; intros pos n a Hpos; [done|]. cbn [items_tokens map sum_list].
  destruct (Hx pos n a Hpos) as [Hl Hc]. destruct (IH (pos + Z.of_nat (length (text_of x)) + 1) (n + Z.of_nat (ntok_of x)) a) as [Hl' Hc']; [lia|].
  rewrite length_app, Hl, Hl'. split; [done|]. by apply Forall_app.
Qed.

Lemma pair_tokens_closed k v : (∀ pos n s, 0 ≤ pos → length (tokens_of v pos n s) = ntok v ∧ Forall closed (tokens_of v pos n s)) →
  ∀ pos n a, 0 ≤ pos → length (pair_tokens (k, v) pos n a) = S (ntok v) ∧ Forall closed (pair_tokens (k, v) pos n a).
Proof.
  intros Hv p m a Hp. unfold pair_tokens. cbn [fst snd] in *.
  destruct (Hv (p + Z.of_nat (length (quoted k)) + 1) (m + 1) m) as [Hl Hc]; [lia|]. split; [cbn [length]; by rewrite Hl|].
  constructor; [|done]. unfold closed, key_token, quoted. rewrite !length_app. cbn [t_end]. simpl length. lia.
Qed.

Lemma tokens_of_closed v : ∀ pos n s, 0 ≤ pos → length (tokens_of v pos n s) = ntok v ∧ Forall closed (tokens_of v pos n s).
Proof.
  induction v as [s|m|b| |l IH|l IH] using json_induction; intros pos n sup Hpos; cbn [tokens_of ntok].
  1-4: split; [done|]; constructor; [|constructor]; unfold closed; cbn [t_end render]; try lia.
  - unfold quoted. rewrite !length_app. simpl length. lia.
  - destruct (items_tokens_closed render ntok tokens_of l IH (pos + 1) (n + 1) n) as [Hl Hc]; [lia|].
    split; [cbn [length]; by rewrite Hl|]. constructor; [unfold closed; cbn [t_end]; lia|done].
  - destruct (items_tokens_closed pair_text (fun kv => S (ntok kv.2)) pair_tokens l) with (pos := pos + 1) (n := n + 1) (a := n) as [Hl Hc]; [|lia|].
    { eapply Forall_impl; [exact IH|]. intros [k v] Hv p m a Hp. by apply pair_tokens_closed. }
    split; [cbn [length]; by f_equal|]. constructor; [unfold closed; cbn [t_end]; lia|exact Hc].
Qed.

(** ** The state of the tokenizer *)

(** The tokens in use and the others. *)
Lemma store_here {A} (pre : list A) x post v : store1 (pre ++ x :: post) (Z.of_nat (length pre)) v = Ret (pre ++ v :: post).
Proof.
  rewrite store1_Ret by (rewrite length_app; simpl; lia). by rewrite Nat2Z.id, insert_app_r_alt, Nat.sub_diag by lia.
Qed.

Lemma lookup_here {A} (pre : list A) x post : (pre ++ x :: post) !! Z.to_nat (Z.of_nat (length pre)) = Some x.
Proof. rewrite Nat2Z.id. apply list_lookup_middle. done. Qed.

Lemma alloc_here num p pre x post :
  toknext p = Z.of_nat (length pre) → toknext p < num →
  alloc_token num p (pre ++ x :: post) =
    Ret (Some (toknext p), JParser (j_pos p) (toknext p + 1) (toksuper p) (j_error p), pre ++ fresh_token :: post).
Proof.
  intros Hn Hlt. unfold alloc_token. destruct (Z.leb_spec num (toknext p)); [lia|]. by rewrite Hn, store_here, bind_ret.
Qed.

Lemma close_here num ty start p pre x post :
  toknext p = Z.of_nat (length pre) → toknext p < num →
  close_token num ty start p (pre ++ x :: post) =
    Ret (JSON_OK, JParser (j_pos p) (toknext p + 1) (toksuper p) (j_error p), pre ++ Token ty start (j_pos p) 0 (toksuper p) :: post).
Proof.
  intros Hn Hlt. unfold close_token. rewrite alloc_here, bind_ret by done. by rewrite Hn, store_here, bind_ret.
Qed.

(** One more child for the token [s]. *)
Definition bump (s : Z) (toks : list json_token) : list json_token :=
  if 0 <=? s then alter (fun t => with_size (i32 (t_size t + 1)) t) (Z.to_nat s) toks else toks.

Lemma bump_length s toks : length (bump s toks) = length toks.
Proof. unfold bump. destruct (0 <=? s); [|done]. apply length_alter. Qed.

Lemma bump_app s pre post : s < Z.of_nat (length pre) → bump s (pre ++ post) = bump s pre ++ post.
Proof. intros Hs. unfold bump. destruct (Z.leb_spec 0 s); [|done]. apply alter_app_l. lia. Qed.

Lemma count_child_bump p toks : toksuper p < Z.of_nat (length toks) → count_child p toks = Ret (bump (toksuper p) toks).
Proof.
  intros Hs. unfold count_child, bump. destruct (Z.leb_spec 0 (toksuper p)); [|done].
  destruct (lookup_lt_is_Some_2 toks (Z.to_nat (toksuper p))) as [t Ht]; [lia|].
  rewrite (load1_Ret _ _ t), bind_ret, store1_Ret by (done || lia). f_equal.
  apply list_eq. intros i. destruct (decide (i = Z.to_nat (toksuper p))) as [->|Hne].
  - rewrite list_lookup_insert_eq by lia. by rewrite list_lookup_alter_eq, Ht.
  - by rewrite list_lookup_insert_ne, list_lookup_alter_ne.
Qed.

(** The text between the quotes of a string. *)
Inductive body : list Z → Prop :=
  | body_nil : body []
  | body_plain c s : c ≠ 0x22 → c ≠ 0x5c → body s → body (c :: s)
  | body_escape c s : is_escape c = true → body s → body (0x5c :: c :: s)
  | body_hex a b c d s :
      is_hex a = true → is_hex b = true → is_hex c = true → is_hex d = true → body s → body (0x5c :: 0x75 :: a :: b :: c :: d :: s).

Lemma body_app a b : body a → body b → body (a ++ b).
Proof. induction 1; intros Hb; cbn [app]; [done|apply body_plain|apply body_escape|apply body_hex]; auto. Qed.

Lemma hex_digit_hex d : 0 ≤ d < 16 → is_hex (hex_digit d) = true.
Proof.
  intros Hd. assert (In d (Z.of_nat <$> seq 0 16)) as Hin.
  { apply list_elem_of_In, list_elem_of_fmap. exists (Z.to_nat d). split; [lia|]. apply elem_of_seq. lia. }
  simpl in Hin. repeat destruct Hin as [<-|Hin]; done.
Qed.

Lemma escape_letter_escape cp e : escape_letter cp = Some e → is_escape e = true.
Proof. unfold escape_letter. zcases; intros; simplify_eq; done. Qed.

Lemma plain_body s : Forall (fun c => c ≠ 0x22 ∧ c ≠ 0x5c) s → body s.
Proof. induction 1 as [|c s [] _ IH]; [constructor|by apply body_plain]. Qed.

Lemma escape_body cp : char_ok cp → body (escape cp).
Proof.
  intros Hok. unfold escape. destruct (escape_letter cp) as [e|] eqn:E.
  - apply body_escape; [by eapply escape_letter_escape|constructor].
  - destruct Hok as [Hp Hv]. destruct (Z.ltb_spec cp 0x20).
    + pose proof (Z.div_mod cp 16). pose proof (Z.mod_pos_bound cp 16).
      apply body_hex; [done|done|apply hex_digit_hex; lia..|constructor].
    + apply plain_body. destruct (Z.ltb_spec cp 0x80).
      * assert (enc cp = [cp]) as -> by (unfold enc; destruct (Z.ltb_spec cp 0x80); [done|lia]).
        constructor; [|constructor]. unfold escape_letter in E. split; intros ->; done.
      * pose proof (valid_range cp Hp Hv). div_facts cp. unfold enc. destruct (Z.ltb_spec cp 0x80); [lia|].
        destruct (Z.ltb_spec cp 0x800); [|destruct (Z.ltb_spec cp 0x10000)]; repeat (constructor; [lia|]); constructor.
Qed.

Lemma escapes_body s : Forall char_ok s → body (concat (escape <$> s)).
Proof. induction 1 as [|cp s Hcp _ IH]; [constructor|]. rewrite fmap_cons. cbn [concat]. apply body_app; [by apply escape_body|done]. Qed.

Lemma quoted_length_eq s : Z.of_nat (length (quoted s)) = 2 + Z.of_nat (length (concat (escape <$> s))).
Proof. unfold quoted. rewrite !length_app. simpl length. lia. Qed.

(** The container at index [|pre|] is the last open token. *)
Lemma find_open_here ok pre t fin post :
  ok (t_type t) = true → t_end t = -1 → Forall closed fin →
  find_open ok (length pre + 1 + length fin) (pre ++ t :: fin ++ post) = Ret (Some (Z.of_nat (length pre))).
Proof.
  intros Hok Hend Hfin. revert post. induction fin as [|x fin IH] using rev_ind; intros post.
  - replace (length pre + 1 + length (@nil json_token))%nat with (S (length pre)) by (simpl; lia). cbn [find_open].
    rewrite (load1_Ret _ _ t), bind_ret, Hok, Hend by (apply lookup_here || lia). done.
  - apply Forall_app in Hfin as [Hfin Hx]. rewrite Forall_singleton in Hx.
    replace (length pre + 1 + length (fin ++ [x]))%nat with (S (length pre + 1 + length fin)) by (rewrite length_app; simpl; lia). cbn [find_open].
    rewrite <-app_assoc. cbn [app]. rewrite (load1_Ret _ _ x), bind_ret.
    + destruct (Z.eqb_spec (t_end x) (-1)) as [Ex|]; [by apply Hx in Ex|]. rewrite andb_false_r. by apply IH.
    + lia.
    + rewrite Nat2Z.id. change (t :: fin ++ x :: post) with ((t :: fin) ++ x :: post).
      rewrite (app_assoc pre). apply list_lookup_middle. rewrite length_app. simpl. lia.
Qed.

Lemma bump_here pre ty p0 e k up fin :
  0 ≤ k → k + 1 < 2 ^ 31 →
  bump (Z.of_nat (length pre)) (pre ++ Token ty p0 e k up :: fin) = pre ++ Token ty p0 e (k + 1) up :: fin.
Proof.
  intros Hk Hk1. unfold bump. destruct (Z.leb_spec 0 (Z.of_nat (length pre))); [|lia].
  rewrite Nat2Z.id, alter_app_r_alt, Nat.sub_diag by lia. unfold with_size. cbn. rewrite i32_small by lia. done.
Qed.

Lemma commas_cons x y l : commas (x :: y :: l) = x ++ 0x2c :: commas (y :: l).
Proof. done. Qed.

Lemma commas_length l : (length l ≤ S (length (commas l)))%nat.
Proof.
  induction l as [|x [|y l] IH]; [simpl; lia..|]. rewrite commas_cons, length_app. cbn [length] in *. lia.
Qed.

Section tokenizer.
Context (js : list Z) (len num : Z) (Hlen : len ≤ Z.of_nat (length js)) (Hint : len < 2 ^ 31).
#[local] Set Default Proof Using "Hlen Hint".

(** The input from a position on. *)
Definition input (pos : Z) (s : list Z) : Prop :=
  0 ≤ pos ∧ pos + Z.of_nat (length s) = len ∧ take (length s) (drop (Z.to_nat pos) js) = s.

Lemma input_app pos a b : input pos (a ++ b) → input (pos + Z.of_nat (length a)) b.
Proof.
  intros (Hp & Hl & Hs). rewrite length_app in *. split; [lia|]. split; [lia|]. apply (f_equal (drop (length a))) in Hs.
  rewrite drop_app_length, skipn_firstn_comm, drop_drop in Hs. rewrite <-Hs at 2. f_equal; [lia|]. f_equal. lia.
Qed.

Lemma input_cons pos c s : input pos (c :: s) → load1 js pos = Ret c ∧ pos < len ∧ input (pos + 1) s.
Proof.
  intros H. pose proof (input_app pos [c] s H) as Hi. destruct H as (Hp & Hl & Hs). split; [|split; [simpl in *; lia|exact Hi]].
  apply load1_Ret; [done|]. apply (f_equal (fun l => l !! 0%nat)) in Hs. rewrite lookup_take_lt, lookup_drop, Nat.add_0_r in Hs by (simpl; lia). done.
Qed.

(** ** Runs of the loop *)

Definition reach (p : json_parser) (toks : list json_token) (p' : json_parser) (toks' : list json_token) : Prop :=
  ∃ k, Z.of_nat k ≤ j_pos p' - j_pos p ∧
    ∀ f, parse_loop js len num (k + f) p toks = parse_loop js len num f p' toks'.

Lemma reach_refl p toks : reach p toks p toks.
Proof. exists 0%nat. split; [lia|done]. Qed.

Lemma reach_trans p1 t1 p2 t2 p3 t3 : reach p1 t1 p2 t2 → reach p2 t2 p3 t3 → reach p1 t1 p3 t3.
Proof.
  intros (k1 & H1 & E1) (k2 & H2 & E2). exists (k1 + k2)%nat. split; [lia|]. intros f. by rewrite <-Nat.add_assoc, E1, E2.
Qed.

Lemma reach_char p toks p' toks' c s :
  input (j_pos p) (c :: s) → parse_char js len num p toks = Ret (JSON_OK, p', toks') → j_pos p ≤ j_pos p' →
  reach p toks (at_pos (j_pos p' + 1) p') toks'.
Proof.
  intros Hi Hc Hp. exists 1%nat. cbn [at_pos j_pos]. split; [lia|]. intros f. cbn [Nat.add parse_loop].
  apply input_cons in Hi as (_ & Hlt & _). destruct (Z.ltb_spec (j_pos p) len); [|lia]. by rewrite Hc, bind_ret.
Qed.

(** ** Strings *)

Lemma hex_step n p c s :
  input (j_pos p + 1) (c :: s) → is_hex c = true → hex_loop (S n) js len p = hex_loop n js len (at_pos (j_pos p + 1) p).
Proof.
  intros Hi Hc. apply input_cons in Hi as (Hl & Hlt & _). cbn [hex_loop]. cbn [at_pos j_pos].
  destruct (Z.leb_spec len (j_pos p + 1)); [lia|]. by rewrite Hl, bind_ret, Hc.
Qed.

Lemma hex_four p a b c d s :
  input (j_pos p + 1) (a :: b :: c :: d :: s) → is_hex a = true → is_hex b = true → is_hex c = true → is_hex d = true →
  hex_loop 4 js len p = Ret (JSON_OK, at_pos (j_pos p + 4) p).
Proof.
  intros H1 Ha Hb Hc Hd. pose proof (input_cons _ _ _ H1) as (_ & _ & H2). pose proof (input_cons _ _ _ H2) as (_ & _ & H3).
  pose proof (input_cons _ _ _ H3) as (_ & _ & H4).
  etrans; [exact (hex_step 3 p a _ H1 Ha)|]. etrans; [exact (hex_step 2 (at_pos (j_pos p + 1) p) b _ H2 Hb)|].
  etrans; [exact (hex_step 1 (at_pos (j_pos p + 1 + 1) p) c _ H3 Hc)|]. etrans; [exact (hex_step 0 (at_pos (j_pos p + 1 + 1 + 1) p) d _ H4 Hd)|].
  cbn [hex_loop]. do 2 f_equal. unfold at_pos. cbn. f_equal. lia.
Qed.

Lemma string_loop_body b : body b → ∀ fuel start p toks rest,
  input (j_pos p) (b ++ 0x22 :: rest) → (length b < fuel)%nat →
  string_loop js len num fuel start p toks = close_token num JSON_STRING (start + 1) (at_pos (j_pos p + Z.of_nat (length b)) p) toks.
Proof.
  induction 1 as [|c s Hq Hb _ IH|c s He _ IH|a b c d s Ha Hb Hc Hd _ IH]; intros [|fuel] start p toks rest Hi Hf; try (simpl in Hf; lia);
    cbn [app string_loop] in *; pose proof (input_cons _ _ _ Hi) as (Hl & Hlt & Hi1); (destruct (Z.ltb_spec (j_pos p) len); [|lia]); rewrite Hl, bind_ret.
  - change (0x22 =? 0x5c) with false. change (0x22 =? 0x22) with true. cbv iota. rewrite Z.add_0_r. by destruct p.
  - destruct (Z.eqb_spec c 0x5c); [done|]. destruct (Z.eqb_spec c 0x22); [done|].
    rewrite (IH fuel start (at_pos (j_pos p + 1) p) toks rest Hi1) by (simpl in Hf; lia). unfold at_pos. cbn [j_pos length toknext toksuper j_error].
    by replace (j_pos p + 1 + Z.of_nat (length s)) with (j_pos p + Z.of_nat (S (length s))) by lia.
  - change (0x5c =? 0x5c) with true. cbv iota. cbv zeta. cbn [at_pos j_pos toknext toksuper j_error]. pose proof (input_cons _ _ _ Hi1) as (Hl2 & Hlt2 & Hi2).
    destruct (Z.leb_spec len (j_pos p + 1)); [lia|]. rewrite Hl2, bind_ret, He.
    rewrite (IH fuel start (at_pos (j_pos p + 1 + 1) (at_pos (j_pos p + 1) p)) toks rest Hi2) by (simpl in Hf; lia).
    unfold at_pos. cbn [j_pos length toknext toksuper j_error].
    by replace (j_pos p + 1 + 1 + Z.of_nat (length s)) with (j_pos p + Z.of_nat (S (S (length s)))) by lia.
  - change (0x5c =? 0x5c) with true. cbv iota. cbv zeta. cbn [at_pos j_pos toknext toksuper j_error]. pose proof (input_cons _ _ _ Hi1) as (Hl2 & Hlt2 & Hi2).
    destruct (Z.leb_spec len (j_pos p + 1)); [lia|]. rewrite Hl2, bind_ret.
    change (is_escape 0x75) with false. change (0x75 =? 0x75) with true. cbv iota.
    pose proof (input_cons _ _ _ Hi2) as (_ & _ & Hi3). pose proof (input_cons _ _ _ Hi3) as (_ & _ & Hi4).
    pose proof (input_cons _ _ _ Hi4) as (_ & _ & Hi5). pose proof (input_cons _ _ _ Hi5) as (_ & _ & Hi6).
    rewrite (hex_four (at_pos (j_pos p + 1) p) _ _ _ _ _ Hi2 Ha Hb Hc Hd), bind_ret. change (JSON_OK <? 0) with false. cbv iota.
    replace (j_pos p + 1 + 1 + 1 + 1 + 1 + 1) with (j_pos p + 1 + 4 + 1) in Hi6 by lia.
    rewrite (IH fuel start (at_pos _ _) toks rest Hi6) by (simpl in Hf; lia).
    unfold at_pos. cbn [j_pos length toknext toksuper j_error].
    by replace (j_pos p + 1 + 4 + 1 + Z.of_nat (length s)) with (j_pos p + Z.of_nat (S (S (S (S (S (S (length s)))))))) by lia.
Qed.

Lemma reach_string s pos n sup e pre x post rest :
  Forall char_ok s → input pos (quoted s ++ rest) → n = Z.of_nat (length pre) → n < num → sup < n →
  reach (JParser pos n sup e) (pre ++ x :: post)
    (JParser (pos + Z.of_nat (length (quoted s))) (n + 1) sup e) (bump sup pre ++ key_token s 0 pos sup :: post).
Proof.
  intros Hs Hi Hn Hlt Hsup. pose proof (quoted_length_eq s) as Hq. unfold quoted in Hi. rewrite <-!app_assoc in Hi. cbn [app] in Hi.
  pose proof (input_cons _ _ _ Hi) as (Hl & Hlt' & Hi1).
  replace (pos + Z.of_nat (length (quoted s))) with (pos + Z.of_nat (length (quoted s)) - 1 + 1) by lia.
  apply (reach_char (JParser pos n sup e) _ (JParser (pos + Z.of_nat (length (quoted s)) - 1) (n + 1) sup e) _ 0x22 _ Hi); [|cbn [j_pos]; lia].
  unfold parse_char. cbn [j_pos]. rewrite Hl, bind_ret. cbn [Z.eqb Pos.eqb orb]. unfold parse_string. cbn [j_pos].
  rewrite (string_loop_body _ (escapes_body s Hs) _ _ (at_pos (pos + 1) (JParser pos n sup e)) _ rest Hi1).
  2: { unfold loop_fuel. cbn [at_pos j_pos]. destruct Hi1 as (_ & Hi1 & _). rewrite length_app in Hi1. simpl in Hi1. lia. }
  rewrite (close_here num JSON_STRING (pos + 1) _ pre x post), bind_ret by done. cbn [Z.ltb JSON_OK Z.compare]. cbn [at_pos j_pos toknext toksuper j_error].
  rewrite count_child_bump, bind_ret by (cbn [toksuper]; rewrite length_app; simpl; lia). cbn [toksuper].
  rewrite bump_app by lia. unfold key_token.
  by replace (pos + 1 + Z.of_nat (length (concat (escape <$> s)))) with (pos + Z.of_nat (length (quoted s)) - 1) by lia.
Qed.

(** ** Primitives *)

Definition inner (c : Z) : Prop := ends_primitive c = false ∧ 32 ≤ c < 127.

(** What may follow a primitive. *)
Definition delim (s : list Z) : Prop := match s with [] => True | c :: _ => ends_primitive c = true end.

Lemma primitive_loop_inner s : Forall inner s → ∀ fuel p rest,
  input (j_pos p) (s ++ rest) → delim rest → (length s < fuel)%nat →
  primitive_loop js len fuel p = Ret (true, at_pos (j_pos p + Z.of_nat (length s)) p).
Proof.
  induction 1 as [|c s [He Hr] _ IH]; intros [|fuel] p rest Hi Hd Hf; try (simpl in Hf; lia); cbn [app primitive_loop] in *.
  - rewrite Z.add_0_r. destruct rest as [|c rest].
    + destruct Hi as (_ & Hi & _). simpl in Hi. destruct (Z.ltb_spec (j_pos p) len); [lia|]. by destruct p.
    + apply input_cons in Hi as (Hl & Hlt & _). destruct (Z.ltb_spec (j_pos p) len); [|lia]. rewrite Hl, bind_ret, Hd. by destruct p.
  - apply input_cons in Hi as (Hl & Hlt & Hi). destruct (Z.ltb_spec (j_pos p) len); [|lia]. rewrite Hl, bind_ret, He.
    unfold schar. destruct (Z.ltb_spec c 128); [|lia]. destruct (Z.ltb_spec c 32); [lia|]. destruct (Z.leb_spec 127 c); [lia|]. cbn [orb].
    rewrite (IH fuel (at_pos (j_pos p + 1) p) rest Hi Hd) by (simpl in Hf; lia). unfold at_pos. cbn [j_pos toknext toksuper j_error length].
    by replace (j_pos p + 1 + Z.of_nat (length s)) with (j_pos p + Z.of_nat (S (length s))) by lia.
Qed.

Lemma primitive_first c ty : primitive_type c = Some ty → c = 0x74 ∨ c = 0x66 ∨ c = 0x6e ∨ c = 0x2d ∨ 0x30 ≤ c ≤ 0x39.
Proof using Type. clear Hlen Hint. unfold primitive_type. zcases; intros; try done; lia. Qed.

Lemma digit_inner d : 0x30 ≤ d ≤ 0x39 → inner d ∧ primitive_type d = Some JSON_NUMBER.
Proof using Type. clear Hlen Hint. intros Hd. unfold inner, ends_primitive, primitive_type. repeat split; zcases; try done; lia. Qed.

Lemma int_text_shape n : ∃ c s, int_text n = c :: s ∧ primitive_type c = Some JSON_NUMBER ∧ Forall inner (int_text n).
Proof using Type.
  clear Hlen Hint.
  set (ds := if n =? 0 then [0x30] else reverse (digit_loop 10 (Z.abs n))).
  assert (Forall (fun d => 0x30 ≤ d ≤ 0x39) ds ∧ ds ≠ []) as [Hds Hne].
  { unfold ds. destruct (Z.eqb_spec n 0); [by repeat constructor|]. split.
    - apply Forall_reverse, digit_loop_digits.
    - cbn [digit_loop]. destruct (Z.ltb_spec 0 (Z.abs n)); [|lia]. rewrite reverse_cons. intros H0. by apply app_nil in H0 as [_ ?]. }
  assert (Forall inner ds) as Hin by (eapply Forall_impl; [exact Hds|]; intros d Hd; by apply digit_inner).
  unfold int_text. fold ds. destruct (n <? 0).
  - exists 0x2d, ds. split; [done|]. split; [done|]. by constructor.
  - destruct ds as [|c s]; [done|]. exists c, s. split; [done|]. split; [|done]. apply digit_inner. by apply Forall_cons in Hds as [? _].
Qed.

Lemma reach_primitive c s ty pos n sup e pre x post rest :
  primitive_type c = Some ty → Forall inner (c :: s) → input pos ((c :: s) ++ rest) → delim rest → n = Z.of_nat (length pre) → n < num → sup < n →
  reach (JParser pos n sup e) (pre ++ x :: post)
    (JParser (pos + Z.of_nat (length (c :: s))) (n + 1) sup e)
    (bump sup pre ++ Token ty pos (pos + Z.of_nat (length (c :: s))) 0 sup :: post).
Proof.
  intros Hty Hin Hi Hd Hn Hlt Hsup. pose proof (input_cons _ _ _ Hi) as (Hl & Hlt' & Hi1).
  set (k := Z.of_nat (length (c :: s))) in *. assert (1 ≤ k) by (unfold k; simpl; lia).
  replace (pos + k) with (pos + k - 1 + 1) at 1 by lia.
  apply (reach_char (JParser pos n sup e) _ (JParser (pos + k - 1) (n + 1) sup e) _ c _ Hi); [|cbn [j_pos]; lia].
  unfold parse_char. cbn [j_pos]. rewrite Hl, bind_ret.
  assert (((c =? 0x7b) || (c =? 0x5b) = false) ∧ ((c =? 0x7d) || (c =? 0x5d) = false) ∧ (c =? 0x22) = false ∧
    ((c =? 0x09) || (c =? 0x0d) || (c =? 0x0a) || (c =? 0x20) = false) ∧ (c =? 0x3a) = false ∧ (c =? 0x2c) = false) as (-> & -> & -> & -> & -> & ->).
  { pose proof (primitive_first c ty Hty) as Hc. clear -Hc. destruct_and?. repeat split; zcases; try done; lia. }
  unfold parse_primitive. cbn [j_pos]. rewrite Hl, bind_ret, Hty.
  rewrite (primitive_loop_inner _ Hin _ (JParser pos n sup e) rest Hi Hd), bind_ret.
  2: { unfold loop_fuel. cbn [j_pos]. destruct Hi as (_ & Hi & _). rewrite length_app in Hi. lia. }
  cbn [negb]. rewrite (close_here num ty pos _ pre x post), bind_ret by done. cbn [JSON_OK Z.ltb Z.compare at_pos j_pos toknext toksuper j_error]. rewrite bind_ret.
  cbn [Z.ltb Z.compare]. rewrite count_child_bump, bind_ret by (cbn [toksuper]; rewrite length_app; simpl; lia). cbn [toksuper].
  rewrite (bump_app sup pre) by lia. unfold at_pos. cbn [j_pos toknext toksuper j_error]. fold k. reflexivity.
Qed.

(** ** Brackets, colons and commas *)

Definition opening (ty : json_type) : Z := if decide (ty = JSON_OBJECT) then 0x7b else 0x5b.
Definition closing (ty : json_type) : Z := if decide (ty = JSON_OBJECT) then 0x7d else 0x5d.

Lemma reach_open ty pos n sup e pre x post rest :
  ty = JSON_OBJECT ∨ ty = JSON_ARRAY → input pos (opening ty :: rest) → n = Z.of_nat (length pre) → n < num → sup < n →
  reach (JParser pos n sup e) (pre ++ x :: post) (JParser (pos + 1) (n + 1) n e) (bump sup pre ++ Token ty pos (-1) 0 sup :: post).
Proof.
  intros Hty Hi Hn Hlt Hsup. pose proof (input_cons _ _ _ Hi) as (Hl & Hlt' & Hi1).
  apply (reach_char (JParser pos n sup e) _ (JParser pos (n + 1) n e) _ _ _ Hi); [|cbn [j_pos]; lia].
  unfold parse_char. cbn [j_pos]. rewrite Hl, bind_ret.
  assert ((opening ty =? 0x7b) || (opening ty =? 0x5b) = true) as -> by (by destruct Hty as [-> | ->]).
  rewrite alloc_here, bind_ret by done. cbn [j_pos toknext toksuper j_error].
  rewrite count_child_bump, bind_ret by (cbn [toksuper]; rewrite length_app; simpl; lia). cbn [toksuper]. rewrite bump_app by lia.
  rewrite Hn, <-(bump_length sup pre), store_here, bind_ret. unfold with_super. cbn [j_pos toknext toksuper j_error].
  assert ((if opening ty =? 0x7b then JSON_OBJECT else JSON_ARRAY) = ty) as -> by (by destruct Hty as [-> | ->]).
  by replace (Z.of_nat (length (bump sup pre)) + 1 - 1) with (Z.of_nat (length (bump sup pre))) by lia.
Qed.

Lemma reach_colon pos n sup e toks rest :
  input pos (0x3a :: rest) → reach (JParser pos n sup e) toks (JParser (pos + 1) n (n - 1) e) toks.
Proof.
  intros Hi. pose proof (input_cons _ _ _ Hi) as (Hl & Hlt & _).
  apply (reach_char (JParser pos n sup e) _ (JParser pos n (n - 1) e) _ _ _ Hi); [|cbn [j_pos]; lia].
  unfold parse_char. cbn [j_pos]. by rewrite Hl, bind_ret.
Qed.

Lemma reach_comma ty p0 k up pos n sup e pre fin post rest :
  ty = JSON_OBJECT ∨ ty = JSON_ARRAY → input pos (0x2c :: rest) → n = Z.of_nat (length pre + 1 + length fin) → Forall closed fin →
  reach (JParser pos n sup e) (pre ++ Token ty p0 (-1) k up :: fin ++ post)
    (JParser (pos + 1) n (Z.of_nat (length pre)) e) (pre ++ Token ty p0 (-1) k up :: fin ++ post).
Proof.
  intros Hty Hi Hn Hfin. pose proof (input_cons _ _ _ Hi) as (Hl & Hlt & _).
  apply (reach_char (JParser pos n sup e) _ (JParser pos n (Z.of_nat (length pre)) e) _ _ _ Hi); [|cbn [j_pos]; lia].
  unfold parse_char. cbn [j_pos]. rewrite Hl, bind_ret. cbn [Z.eqb Pos.eqb orb toknext]. rewrite Hn, Nat2Z.id.
  rewrite find_open_here, bind_ret; [done| |done|done]. by destruct Hty as [-> | ->].
Qed.

Lemma reach_close ty p0 k up pos n sup e pre fin post rest :
  ty = JSON_OBJECT ∨ ty = JSON_ARRAY → input pos (closing ty :: rest) → n = Z.of_nat (length pre + 1 + length fin) → Forall closed fin →
  reach (JParser pos n sup e) (pre ++ Token ty p0 (-1) k up :: fin ++ post)
    (JParser (pos + 1) n up e) (pre ++ Token ty p0 (pos + 1) k up :: fin ++ post).
Proof.
  intros Hty Hi Hn Hfin. pose proof (input_cons _ _ _ Hi) as (Hl & Hlt & _).
  apply (reach_char (JParser pos n sup e) _ (JParser pos n up e) _ _ _ Hi); [|cbn [j_pos]; lia].
  unfold parse_char. cbn [j_pos]. rewrite Hl, bind_ret.
  assert (((closing ty =? 0x7b) || (closing ty =? 0x5b) = false) ∧ ((closing ty =? 0x7d) || (closing ty =? 0x5d) = true) ∧
    (if closing ty =? 0x7d then JSON_OBJECT else JSON_ARRAY) = ty) as (-> & -> & ->) by (by destruct Hty as [-> | ->]).
  cbn [toknext]. rewrite Hn, Nat2Z.id. rewrite find_open_here, bind_ret; [|by apply bool_decide_eq_true_2|done|done].
  rewrite (load1_Ret _ _ (Token ty p0 (-1) k up)), bind_ret by (apply lookup_here || lia).
  by rewrite store_here, bind_ret.
Qed.

(** ** Items *)

Section items.
Context {A : Type} (text_of : A → list Z) (ntok_of : A → nat) (toks_of : A → Z → Z → Z → list json_token).

(** An item of the container [a] is read, and its tokens are closed. *)
Definition item_parses (x : A) : Prop :=
  ∀ pos n a e pre post rest, input pos (text_of x ++ rest) → delim rest → n = Z.of_nat (length pre) →
  n + Z.of_nat (ntok_of x) ≤ num → (ntok_of x ≤ length post)%nat → 0 ≤ a < n →
  ∃ sup, reach (JParser pos n a e) (pre ++ post)
    (JParser (pos + Z.of_nat (length (text_of x))) (n + Z.of_nat (ntok_of x)) sup e)
    (bump a pre ++ toks_of x pos n a ++ drop (ntok_of x) post).

Definition item_closed (x : A) : Prop :=
  ∀ pos n a, 0 ≤ pos → length (toks_of x pos n a) = ntok_of x ∧ Forall closed (toks_of x pos n a).

Lemma reach_item x ty p0 k up pos m e pre fin post rest :
  item_parses x → input pos (text_of x ++ rest) → delim rest → m = Z.of_nat (length pre + 1 + length fin) →
  m + Z.of_nat (ntok_of x) ≤ num → (ntok_of x ≤ length post)%nat → 0 ≤ k → k + 1 < 2 ^ 31 →
  ∃ sup, reach (JParser pos m (Z.of_nat (length pre)) e) (pre ++ Token ty p0 (-1) k up :: fin ++ post)
    (JParser (pos + Z.of_nat (length (text_of x))) (m + Z.of_nat (ntok_of x)) sup e)
    (pre ++ Token ty p0 (-1) (k + 1) up :: (fin ++ toks_of x pos m (Z.of_nat (length pre))) ++ drop (ntok_of x) post).
Proof.
  intros Hx Hi Hd Hm Hnum Hpost Hk Hk1.
  destruct (Hx pos m (Z.of_nat (length pre)) e (pre ++ Token ty p0 (-1) k up :: fin) post rest) as [sup Hr]; try done.
  - rewrite length_app. simpl. lia.
  - lia.
  - exists sup. rewrite bump_here, <-!app_assoc in Hr by lia. rewrite <-!app_assoc. exact Hr.
Qed.

Lemma reach_items ty p0 up e pre rest l : ty = JSON_OBJECT ∨ ty = JSON_ARRAY →
  l ≠ [] → Forall item_parses l → Forall item_closed l → ∀ k pos m fin post,
  input pos (commas (map text_of l) ++ closing ty :: rest) → m = Z.of_nat (length pre + 1 + length fin) → Forall closed fin →
  m + Z.of_nat (sum_list (map ntok_of l)) ≤ num → (sum_list (map ntok_of l) ≤ length post)%nat → 0 ≤ k → k + Z.of_nat (length l) < 2 ^ 31 →
  ∃ sup, reach (JParser pos m (Z.of_nat (length pre)) e) (pre ++ Token ty p0 (-1) k up :: fin ++ post)
    (JParser (pos + Z.of_nat (length (commas (map text_of l)))) (m + Z.of_nat (sum_list (map ntok_of l))) sup e)
    (pre ++ Token ty p0 (-1) (k + Z.of_nat (length l)) up ::
       (fin ++ items_tokens text_of ntok_of toks_of l pos m (Z.of_nat (length pre))) ++ drop (sum_list (map ntok_of l)) post).
Proof.
  intros Hty. induction l as [|x [|y l] IH]; intros Hne Hp Hc k pos m fin post Hi Hm Hfin Hnum Hpost Hk Hl; [done| |].
  - apply Forall_cons in Hp as [Hx _]. cbn [map commas sum_list items_tokens foldr fmap list_fmap length] in *. rewrite Nat.add_0_r in *. rewrite app_nil_r.
    apply (reach_item x ty p0 k up pos m e pre fin post (closing ty :: rest)); try done.
    by destruct Hty as [-> | ->].
  - apply Forall_cons in Hp as [Hx Hp]. apply Forall_cons in Hc as [Hcx Hc].
    cbn [map] in Hi. rewrite commas_cons, <-app_assoc in Hi. cbn [app] in Hi.
    destruct (Hcx pos m (Z.of_nat (length pre))) as [Hlen_x Hclosed]; [by destruct Hi|].
    change (sum_list (map ntok_of (x :: y :: l))) with (ntok_of x + sum_list (map ntok_of (y :: l)))%nat in *.
    set (total := sum_list (map ntok_of (y :: l))) in *.
    destruct (reach_item x ty p0 k up pos m e pre fin post _ Hx Hi) as [s1 R1]; [done|done|lia|lia|lia|cbn [length] in Hl; lia|].
    pose proof (input_app _ _ _ Hi) as Hi1. pose proof (input_cons _ _ _ Hi1) as (_ & _ & Hi2).
    assert (Forall closed (fin ++ toks_of x pos m (Z.of_nat (length pre)))) as Hfin' by (by apply Forall_app).
    pose proof (reach_comma ty p0 (k + 1) up _ (m + Z.of_nat (ntok_of x)) s1 e pre (fin ++ toks_of x pos m (Z.of_nat (length pre)))
      (drop (ntok_of x) post) _ Hty Hi1) as R2.
    destruct (IH ltac:(done) Hp Hc (k + 1) _ (m + Z.of_nat (ntok_of x)) (fin ++ toks_of x pos m (Z.of_nat (length pre)))
      (drop (ntok_of x) post) Hi2) as [s2 R3].
    { rewrite length_app, Hlen_x. lia. }
    { exact Hfin'. }
    { lia. }
    { rewrite length_drop. lia. }
    { lia. }
    { cbn [length] in *. lia. }
    exists s2. eapply reach_trans; [exact R1|]. eapply reach_trans; [apply R2; [rewrite length_app, Hlen_x; lia|exact Hfin']|].
    fold total in R3. cbn [items_tokens] in R3. rewrite drop_drop, <-!app_assoc in R3. cbn [items_tokens]. rewrite <-!app_assoc.
    cbn [map]. rewrite commas_cons, length_app. cbn [length] in R3 |- *.
    replace (pos + Z.of_nat (length (text_of x) + S (length (commas (text_of y :: map text_of l))))) with
      (pos + Z.of_nat (length (text_of x)) + 1 + Z.of_nat (length (commas (text_of y :: map text_of l)))) by lia.
    replace (m + Z.of_nat (ntok_of x + total)) with (m + Z.of_nat (ntok_of x) + Z.of_nat total) by lia.
    replace (k + Z.of_nat (S (S (length l)))) with (k + 1 + Z.of_nat (S (length l))) by lia.
    exact R3.
Qed.
End items.

Lemma reach_container {A} text_of ntok_of toks_of (l : list A) ty pos n sup e pre post rest :
  ty = JSON_OBJECT ∨ ty = JSON_ARRAY → Forall (item_parses text_of ntok_of toks_of) l → Forall (item_closed ntok_of toks_of) l →
  let text := opening ty :: commas (map text_of l) ++ [closing ty] in
  let total := sum_list (map ntok_of l) in
  input pos (text ++ rest) → n = Z.of_nat (length pre) → n + Z.of_nat (S total) ≤ num → (S total ≤ length post)%nat → sup < n →
  reach (JParser pos n sup e) (pre ++ post) (JParser (pos + Z.of_nat (length text)) (n + Z.of_nat (S total)) sup e)
    (bump sup pre ++ (Token ty pos (pos + Z.of_nat (length text)) (Z.of_nat (length l)) sup ::
       items_tokens text_of ntok_of toks_of l (pos + 1) (n + 1) n) ++ drop (S total) post).
Proof.
  intros Hty Hp Hc text total Hi Hn Hnum Hpost Hsup. destruct post as [|x post]; [simpl in Hpost; lia|]. cbn [drop].
  unfold text in Hi. cbn [app] in Hi. rewrite <-app_assoc in Hi. cbn [app] in Hi. pose proof (input_cons _ _ _ Hi) as (_ & _ & Hi1).
  eapply reach_trans; [apply (reach_open ty pos n sup e pre x post _ Hty Hi); (lia || done)|].
  pose proof (commas_length (map text_of l)) as Hcl. rewrite length_map in Hcl.
  assert (Z.of_nat (length l) < 2 ^ 31) as Hsz.
  { destruct Hi as (? & Hi & _). cbn [length] in Hi. rewrite length_app in Hi. cbn [length] in Hi. lia. }
  set (pre' := bump sup pre). assert (n = Z.of_nat (length pre')) as Hn' by (unfold pre'; by rewrite bump_length).
  set (toks := items_tokens text_of ntok_of toks_of l (pos + 1) (n + 1) n).
  assert (length toks = total ∧ Forall closed toks) as [Htl Htc].
  { apply items_tokens_closed; [exact Hc|]. destruct Hi; lia. }
  assert (∃ s', reach (JParser (pos + 1) (n + 1) n e) (pre' ++ Token ty pos (-1) 0 sup :: post)
    (JParser (pos + 1 + Z.of_nat (length (commas (map text_of l)))) (n + 1 + Z.of_nat total) s' e)
    (pre' ++ Token ty pos (-1) (Z.of_nat (length l)) sup :: toks ++ drop total post)) as [s' R].
  { destruct (decide (l = [])) as [->|Hne].
    - exists n. unfold toks, total. cbn. rewrite !Z.add_0_r, drop_0. apply reach_refl.
    - destruct (reach_items text_of ntok_of toks_of ty pos sup e pre' rest l Hty Hne Hp Hc 0 (pos + 1) (n + 1) [] post Hi1) as [s' R];
        [simpl; lia|constructor|lia|simpl in Hpost; lia|lia|lia|].
      exists s'. rewrite <-Hn' in R. exact R. }
  eapply reach_trans; [exact R|]. apply input_app in Hi1.
  pose proof (reach_close ty pos (Z.of_nat (length l)) sup _ (n + 1 + Z.of_nat total) s' e pre' toks (drop total post) _ Hty Hi1) as RC.
  unfold text. cbn [length]. rewrite length_app. cbn [length app].
  replace (pos + Z.of_nat (S (length (commas (map text_of l)) + 1))) with (pos + 1 + Z.of_nat (length (commas (map text_of l))) + 1) by lia.
  replace (n + Z.of_nat (S total)) with (n + 1 + Z.of_nat total) by lia. apply RC; [lia|done].
Qed.

(** ** Documents *)

Definition parses (v : json) : Prop :=
  ∀ pos n sup e pre post rest, input pos (render v ++ rest) → delim rest → n = Z.of_nat (length pre) →
  n + Z.of_nat (ntok v) ≤ num → (ntok v ≤ length post)%nat → sup < n →
  reach (JParser pos n sup e) (pre ++ post) (JParser (pos + Z.of_nat (length (render v))) (n + Z.of_nat (ntok v)) sup e)
    (bump sup pre ++ tokens_of v pos n sup ++ drop (ntok v) post).

Lemma pair_parses k v : Forall char_ok k → parses v → item_parses pair_text (fun kv => S (ntok kv.2)) pair_tokens (k, v).
Proof.
  intros Hk Hv pos n a e pre post rest Hi Hd Hn Hnum Hpost Ha. cbn [fst snd] in *. exists n.
  unfold pair_text in *. cbn [fst snd] in *. rewrite <-!app_assoc in Hi. destruct post as [|x post]; [simpl in Hpost; lia|].
  eapply reach_trans; [apply (reach_string k pos n a e pre x post _ Hk Hi); lia|]. apply input_app in Hi. cbn [app] in Hi.
  eapply reach_trans; [apply (reach_colon _ _ _ _ _ _ Hi)|]. apply input_cons in Hi as (_ & _ & Hi).
  set (key := key_token k 0 pos a). change (key :: post) with ([key] ++ post). rewrite app_assoc.
  replace (n + 1 - 1) with n by lia.
  pose proof (Hv _ (n + 1) n e (bump a pre ++ [key]) post rest Hi Hd) as R.
  rewrite <-(bump_length a pre) in Hn. unfold pair_tokens. cbn [fst snd drop].
  assert (bump n (bump a pre ++ [key]) = bump a pre ++ [key_token k 1 pos a]) as Hb.
  { rewrite Hn. unfold key, key_token. by rewrite bump_here by lia. }
  rewrite Hb, <-!app_assoc in R. rewrite !length_app. cbn [length app] in *.
  replace (pos + Z.of_nat (length (quoted k) + (1 + length (render v)))) with (pos + Z.of_nat (length (quoted k)) + 1 + Z.of_nat (length (render v))) by lia.
  replace (n + Z.of_nat (S (ntok v))) with (n + 1 + Z.of_nat (ntok v)) by lia. rewrite <-app_assoc. cbn [app].
  apply R; [rewrite length_app; simpl; lia|lia|lia|lia].
Qed.

Lemma value_parses v : parses v → item_parses render ntok tokens_of v.
Proof. intros Hv pos n a e pre post rest Hi Hd Hn Hnum Hpost Ha. exists a. eapply Hv; eauto. lia. Qed.

Lemma primitive_parses v c s ty :
  render v = c :: s → ntok v = 1%nat → primitive_type c = Some ty → Forall inner (render v) →
  (∀ pos n sup, tokens_of v pos n sup = [Token ty pos (pos + Z.of_nat (length (render v))) 0 sup]) → parses v.
Proof.
  intros Hr Hn1 Hty Hin Ht pos n sup e pre post rest Hi Hd Hn Hnum Hpost Hsup. rewrite Ht. rewrite Hn1, Hr in *.
  destruct post as [|x post]; [simpl in Hpost; lia|]. cbn [app drop]. by apply (reach_primitive c s ty pos n sup e pre x post rest); try lia.
Qed.

Lemma all_parse v : json_ok v → parses v.
Proof.
  induction v as [s|m|b| |l IH|l IH] using json_induction; intros Hok.
  - intros pos n sup e pre [|x post] rest Hi Hd Hn Hnum Hpost Hsup; cbn [ntok] in *; [simpl in Hpost; lia|].
    cbn [tokens_of app drop render]. by apply (reach_string s pos n sup e pre x post rest); try lia.
  - destruct (int_text_shape m) as (c & s & Hr & Hty & Hin). by apply (primitive_parses _ c s JSON_NUMBER).
  - destruct b; eapply primitive_parses; try done; repeat constructor; done.
  - eapply primitive_parses; try done; repeat constructor; done.
  - apply array_ok in Hok. intros pos n sup e pre post rest Hi Hd Hn Hnum Hpost Hsup.
    apply (reach_container render ntok tokens_of l JSON_ARRAY pos n sup e pre post rest); auto.
    + rewrite Forall_forall in IH, Hok |- *. intros v Hv. by apply value_parses, IH, Hok.
    + apply Forall_true. intros v p k a Hp. by apply tokens_of_closed.
  - apply object_ok in Hok. intros pos n sup e pre post rest Hi Hd Hn Hnum Hpost Hsup.
    apply (reach_container pair_text (fun kv => S (ntok kv.2)) pair_tokens l JSON_OBJECT pos n sup e pre post rest); auto.
    + rewrite Forall_forall in IH, Hok |- *. intros [k v] Hv. destruct (Hok _ Hv) as [Hk Hokv].
      apply pair_parses; [by apply key_chars|]. by apply (IH _ Hv).
    + apply Forall_true. intros [k v] p m a Hp. apply pair_tokens_closed; [|done]. apply tokens_of_closed.
Qed.
End tokenizer.

Lemma unclosed_closed fin : Forall closed fin → ∀ pre post, unclosed (length fin) (Z.of_nat (length pre)) (pre ++ fin ++ post) = Ret false.
Proof.
  induction 1 as [|t fin Ht _ IH]; intros pre post; [done|]. cbn [length unclosed app].
  rewrite (load1_Ret _ _ t), bind_ret by (apply lookup_here || lia).
  destruct (Z.eqb_spec (t_end t) (-1)) as [Ex|]; [by apply Ht in Ex|]. rewrite andb_false_r.
  specialize (IH (pre ++ [t]) post). rewrite <-app_assoc, length_app in IH. cbn [app length] in IH.
  by replace (Z.of_nat (length pre) + 1) with (Z.of_nat (length pre + 1)) by lia.
Qed.

(** The whole tokenizer on the text of a document. *)
Lemma json_parse_text v js num toks :
  json_ok v → let len := Z.of_nat (length (render v)) in
  len < 2 ^ 31 → take (length (render v)) js = render v → Z.of_nat (ntok v) ≤ num → num ≤ Z.of_nat (length toks) →
  json_parse js len num json_init toks =
    Ret (Z.of_nat (ntok v), JParser len (Z.of_nat (ntok v)) (-1) 0, tokens_of v 0 0 (-1) ++ drop (ntok v) toks).
Proof.
  intros Hok len Hint Hjs Hnum Htoks. assert (len ≤ Z.of_nat (length js)) as Hlen.
  { apply (f_equal length) in Hjs. rewrite length_take in Hjs. unfold len. lia. }
  assert (1 ≤ Z.of_nat (ntok v)) as Hn1 by (destruct v; cbn [ntok]; lia).
  destruct (all_parse js len num Hlen Hint v Hok 0 0 (-1) 0 [] toks []) as (k & Hk & Hrun); [| |done|lia|lia|lia|].
  { rewrite app_nil_r. split; [done|]. split; [lia|]. by rewrite drop_0. }
  { done. }
  cbn [app j_pos] in *. rewrite !Z.add_0_l in *. fold len in Hrun, Hk. unfold json_parse. destruct (Z.leb_spec num 0); [lia|].
  assert (loop_fuel len json_init = (k + S (Z.to_nat len - k))%nat) as -> by (unfold loop_fuel; cbn; lia).
  change (parse_loop js len num (k + S (Z.to_nat len - k)) json_init toks) with (parse_loop js len num (k + S (Z.to_nat len - k)) (JParser 0 0 (-1) 0) toks).
  rewrite Hrun. cbn [parse_loop j_pos]. destruct (Z.ltb_spec len len); [lia|]. rewrite bind_ret. cbn [JSON_OK Z.ltb Z.compare toknext].
  destruct (tokens_of_closed v 0 0 (-1)) as [Hl Hc]; [done|].
  pose proof (unclosed_closed _ Hc [] (drop (ntok v) toks)) as Hu. rewrite Hl in Hu. change (Z.of_nat (length (@nil json_token))) with 0 in Hu. cbn [app] in Hu.
  unfold bump. cbn [Z.leb Z.compare app]. by rewrite Nat2Z.id, Hu, bind_ret.
Qed.
