(* ===== verification/JsonRead.v ===== *)
(** * JSON: reading the tokens of a document

    [json_token_str], [json_token_int], [skip_token] and [json_find_key] on the
    tokens and the text of a document. *)

From Stdlib Require Import String.
From S2P Require Import Prelude Ring KString UString Utf8 Json JsonWrite JsonParse.

(** ** Strings *)

Lemma unescape_letter cp e : escape_letter cp = Some e → unescape e = cp ∧ e ≠ 0x75 ∧ enc cp = [cp].
Proof.
  unfold escape_letter. intros H. repeat match type of H with context [?a =? ?b] => destruct (Z.eqb_spec a b) as [->|] end; simplify_eq; done.
Qed.

Lemma hex_of_control cp : 0 ≤ cp < 0x20 →
  Z.lor (u32 (Z.shiftl (Z.lor (u32 (Z.shiftl 0 4)) (json_hex_value (hex_digit (cp / 16)))) 4)) (json_hex_value (hex_digit (cp mod 16))) = cp ∧
  0 ≤ json_hex_value (hex_digit (cp / 16)) ∧ 0 ≤ json_hex_value (hex_digit (cp mod 16)).
Proof.
  intros Hd. assert (In cp (Z.of_nat <$> seq 0 32)) as Hin.
  { apply list_elem_of_In, list_elem_of_fmap. exists (Z.to_nat cp). split; [lia|]. apply elem_of_seq. lia. }
  simpl in Hin. repeat destruct Hin as [<-|Hin]; try done; by vm_compute.
Qed.

Lemma escape_plain cp : char_ok cp → escape_letter cp = None → 0x20 ≤ cp → Forall (fun c => c ≠ 0x5c) (enc cp).
Proof.
  intros [Hp Hv] E Hc. pose proof (valid_range cp Hp Hv). div_facts cp. unfold enc. destruct (Z.ltb_spec cp 0x80).
  - constructor; [|constructor]. intros ->. done.
  - destruct (Z.ltb_spec cp 0x800); [|destruct (Z.ltb_spec cp 0x10000)]; repeat (constructor; [lia|]); constructor.
Qed.

Lemma utf8_of_control cp : cp < 0x20 → utf8_of cp = [cp].
Proof.
  intros Hc. unfold utf8_of. destruct (Z.ltb_spec 0x10ffff cp); [lia|]. destruct (Z.leb_spec 0xd800 cp); [lia|]. cbn [orb andb].
  destruct (Z.leb_spec cp 0x7f); [done|lia].
Qed.

Section reading.
Context (js : list Z) (len : Z) (Hlen : len ≤ Z.of_nat (length js)) (Hint : len < 2 ^ 31).
#[local] Set Default Proof Using "Hlen Hint".

#[local] Abbreviation input := (input js len).

(** The text of the token goes from [base] to the end of the input. *)
Lemma str_plain base toklen out cap i j c rest f :
  len = base + toklen → input (base + i) (c :: rest) → c ≠ 0x5c → 0 ≤ j < cap - 1 → cap ≤ Z.of_nat (length out) →
  ∃ out', store1 out j c = Ret out' ∧
    token_str_loop js (S f) base toklen out cap i j = token_str_loop js f base toklen out' cap (i + 1) (j + 1).
Proof.
  intros Hl Hi Hc Hj Hcap. pose proof (input_cons _ _ Hlen Hint _ _ _ Hi) as (Hload & Hlt & _).
  eexists. split; [apply store1_Ret; lia|]. cbn [token_str_loop].
  destruct (Z.ltb_spec i toklen); [|lia]. destruct (Z.ltb_spec j (cap - 1)); [|lia]. cbn [andb].
  rewrite Hload, bind_ret. destruct (Z.eqb_spec c 0x5c); [done|]. cbn [andb]. by rewrite store1_Ret, bind_ret by lia.
Qed.

Lemma str_plains s base toklen cap rest : len = base + toklen → Forall (fun c => c ≠ 0x5c) s → ∀ out i j f,
  input (base + i) (s ++ rest) → 0 ≤ j → j + Z.of_nat (length s) ≤ cap - 1 → cap ≤ Z.of_nat (length out) →
  ∃ out', store_bytes out j s = Ret out' ∧
    token_str_loop js (length s + f) base toklen out cap i j =
      token_str_loop js f base toklen out' cap (i + Z.of_nat (length s)) (j + Z.of_nat (length s)).
Proof.
  intros Hl. induction 1 as [|c s Hc _ IH]; intros out i j f Hi Hj Hroom Hcap.
  - exists out. split; [apply store_bytes_nil; simpl in *; lia|]. cbn [length Nat.add]. by rewrite !Z.add_0_r.
  - cbn [app length] in *. destruct (str_plain base toklen out cap i j c (s ++ rest) (length s + f) Hl Hi Hc) as (out1 & H1 & E1); [lia|done|].
    pose proof (input_cons _ _ Hlen Hint _ _ _ Hi) as (_ & _ & Hi1). rewrite <-Z.add_assoc in Hi1.
    rewrite store1_Ret in H1 by lia. injection H1 as H1.
    destruct (IH out1 (i + 1) (j + 1) f Hi1) as (out2 & H2 & E2); [lia|lia|rewrite <-H1, length_insert; done|].
    exists out2. split.
    + rewrite store_bytes_cons by lia. by rewrite store1_Ret, bind_ret, H1 by lia.
    + cbn [Nat.add]. rewrite E1, E2. f_equal; lia.
Qed.

Lemma str_escape base toklen out cap i j c rest f :
  len = base + toklen → input (base + i) (0x5c :: c :: rest) → 0 ≤ j < cap - 1 → cap ≤ Z.of_nat (length out) →
  token_str_loop js (S f) base toklen out cap i j =
    (r ← read_escape js base toklen out cap (i + 1) j;
     match r with
     | None => Ret (out, j)
     | Some (out, j, i) => token_str_loop js f base toklen out cap (i + 1) j
     end).
Proof.
  intros Hl Hi Hj Hcap. pose proof (input_cons _ _ Hlen Hint _ _ _ Hi) as (Hload & Hlt & Hi1). pose proof (input_cons _ _ Hlen Hint _ _ _ Hi1) as (_ & Hlt1 & _).
  cbn [token_str_loop]. destruct (Z.ltb_spec i toklen); [|lia]. destruct (Z.ltb_spec j (cap - 1)); [|lia]. cbn [andb].
  rewrite Hload, bind_ret. destruct (Z.ltb_spec (i + 1) toklen); [|lia]. done.
Qed.

Lemma hex4_control off cp rest :
  0 ≤ cp < 0x20 → input off (0x30 :: 0x30 :: hex_digit (cp / 16) :: hex_digit (cp mod 16) :: rest) → json_parse_hex4 js off = Ret (Some cp).
Proof.
  intros Hcp H0. pose proof (input_cons _ _ Hlen Hint _ _ _ H0) as (L0 & _ & H1). pose proof (input_cons _ _ Hlen Hint _ _ _ H1) as (L1 & _ & H2).
  pose proof (input_cons _ _ Hlen Hint _ _ _ H2) as (L2 & _ & H3). pose proof (input_cons _ _ Hlen Hint _ _ _ H3) as (L3 & _ & _).
  destruct (hex_of_control cp Hcp) as (Hv & Ha & Hb). unfold json_parse_hex4. cbn [hex4_loop].
  rewrite L0, bind_ret. change (json_hex_value 0x30) with 0. cbn [Z.ltb Z.compare]. rewrite L1, bind_ret.
  change (json_hex_value 0x30) with 0. cbn [Z.ltb Z.compare]. rewrite L2, bind_ret.
  destruct (Z.ltb_spec (json_hex_value (hex_digit (cp / 16))) 0); [lia|]. rewrite L3, bind_ret.
  destruct (Z.ltb_spec (json_hex_value (hex_digit (cp mod 16))) 0); [lia|]. do 2 f_equal. exact Hv.
Qed.

(** The text of one character. *)
Lemma str_char cp base toklen out cap i j rest :
  char_ok cp → len = base + toklen → input (base + i) (escape cp ++ rest) → 0 ≤ j → j + Z.of_nat (length (enc cp)) ≤ cap - 1 →
  cap ≤ Z.of_nat (length out) →
  ∃ k out', (k ≤ length (escape cp))%nat ∧ store_bytes out j (enc cp) = Ret out' ∧ ∀ f,
    token_str_loop js (k + f) base toklen out cap i j =
      token_str_loop js f base toklen out' cap (i + Z.of_nat (length (escape cp))) (j + Z.of_nat (length (enc cp))).
Proof.
  intros Hok Hl Hi Hj Hroom Hcap. pose proof (escape_plain cp Hok) as Hplain.  unfold escape in *. destruct (escape_letter cp) as [e|] eqn:E.
  - destruct (unescape_letter _ _ E) as (Hu & H75 & Henc). rewrite Henc in *. cbn [app length] in *. exists 1%nat.
    eexists. split; [lia|]. split; [rewrite store_bytes_cons, store1_Ret, bind_ret, store_bytes_nil by (rewrite ?length_insert; lia); done|].
    intros f. cbn [Nat.add]. rewrite (str_escape base toklen out cap i j e rest f Hl Hi) by lia.
    pose proof (input_cons _ _ Hlen Hint _ _ _ Hi) as (_ & _ & Hi1). pose proof (input_cons _ _ Hlen Hint _ _ _ Hi1) as (L1 & _ & _).
    unfold read_escape. rewrite (Z.add_assoc base i 1), L1, bind_ret. destruct (Z.eqb_spec e 0x75); [done|]. cbn [negb].
    rewrite store1_Ret, bind_ret, bind_ret, Hu by lia. f_equal; lia.
  - destruct (Z.ltb_spec cp 0x20) as [Hc|Hc].
    + destruct Hok as [Hp _]. assert (enc cp = [cp]) as Henc by (unfold enc; destruct (Z.ltb_spec cp 0x80); [done|lia]).
      rewrite Henc in *. cbn [app length] in *. exists 1%nat.
      eexists. split; [lia|]. split; [rewrite store_bytes_cons, store1_Ret, bind_ret, store_bytes_nil by (rewrite ?length_insert; lia); done|].
      intros f. cbn [Nat.add]. rewrite (str_escape base toklen out cap i j _ _ f Hl Hi) by lia.
      pose proof (input_cons _ _ Hlen Hint _ _ _ Hi) as (_ & _ & Hi1). pose proof (input_cons _ _ Hlen Hint _ _ _ Hi1) as (L1 & _ & Hi2).
      unfold read_escape. rewrite (Z.add_assoc base i 1), L1, bind_ret. cbn [Z.eqb Pos.eqb negb].
      destruct Hi as (_ & Hi & _). cbn [length] in Hi. destruct (Z.leb_spec toklen (i + 1 + 4)); [lia|].
      rewrite (hex4_control _ cp rest (conj Hp Hc) Hi2), bind_ret. unfold join_surrogates.
      destruct (Z.leb_spec 0xd800 cp); [lia|]. cbn [andb negb]. rewrite bind_ret. unfold json_append_utf8.
      assert (utf8_of cp = [cp]) as -> by (by apply utf8_of_control). cbn [length].
      destruct (Z.leb_spec cap (j + Z.of_nat 1)); [lia|].
      rewrite store_bytes_cons, store1_Ret, bind_ret, store_bytes_nil, !bind_ret by (rewrite ?length_insert; lia). f_equal; lia.
    + destruct (str_plains (enc cp) base toklen cap rest Hl (Hplain eq_refl Hc) out i j 0 Hi Hj Hroom Hcap) as (out' & Hs & _).
      exists (length (enc cp)), out'. split; [done|]. split; [done|]. intros f.
      destruct (str_plains (enc cp) base toklen cap rest Hl (Hplain eq_refl Hc) out i j f Hi Hj Hroom Hcap) as (out2 & Hs2 & R). rewrite Hs in Hs2. injection Hs2 as <-. exact R.
Qed.

Lemma str_chars s base toklen cap : Forall char_ok s → len = base + toklen → ∀ out i j f,
  input (base + i) (concat (escape <$> s)) → 0 ≤ j → j + Z.of_nat (length (utf8_text s)) ≤ cap - 1 → cap ≤ Z.of_nat (length out) →
  (length (concat (escape <$> s)) < f)%nat →
  ∃ out', store_bytes out j (utf8_text s) = Ret out' ∧
    token_str_loop js f base toklen out cap i j = Ret (out', j + Z.of_nat (length (utf8_text s))).
Proof.
  intros Hs Hl. induction Hs as [|cp s Hcp _ IH]; intros out i j f Hi Hj Hroom Hcap Hf.
  - unfold utf8_text in *. cbn in *. exists out. split; [apply store_bytes_nil; lia|]. destruct Hi as (_ & Hi & _). simpl in Hi.
    destruct f as [|f]; [lia|]. cbn [token_str_loop]. destruct (Z.ltb_spec i toklen); [lia|]. cbn [andb]. by rewrite Z.add_0_r.
  - unfold utf8_text in *. rewrite !fmap_cons in *. cbn [concat] in *. rewrite !length_app in *.
    destruct (str_char cp base toklen out cap i j (concat (escape <$> s)) Hcp Hl Hi Hj) as (k & out1 & Hk & H1 & R); [lia|done|].
    destruct (store_bytes_length _ _ _ _ H1) as [Hlen1 _]. apply (input_app _ _ Hlen Hint) in Hi. rewrite <-Z.add_assoc in Hi.
    destruct (IH out1 _ (j + Z.of_nat (length (enc cp))) (f - k)%nat Hi) as (out2 & H2 & R2); [lia|lia|lia|lia|].
    exists out2. split; [by rewrite store_bytes_app, H1, bind_ret by lia|].
    replace f with (k + (f - k))%nat by lia. rewrite R, R2. do 2 f_equal. lia.
Qed.

Lemma token_str_text s size pos a out cap :
  Forall char_ok s → 0 ≤ pos → pos + Z.of_nat (length (quoted s)) = len + 1 → input (pos + 1) (concat (escape <$> s)) →
  Z.of_nat (length (utf8_text s)) < cap → cap ≤ Z.of_nat (length out) →
  ∃ out', store_bytes out 0 (utf8_text s ++ [0]) = Ret out' ∧
    json_token_str js (key_token s size pos a) out cap = Ret (Z.of_nat (length (utf8_text s)), out').
Proof.
  intros Hs Hp Hend Hi Hroom Hcap. unfold json_token_str, key_token. cbn [t_type t_end t_start].
  rewrite bool_decide_eq_false_2 by naive_solver. destruct (Z.leb_spec cap 0); [lia|]. cbn [orb].
  pose proof (quoted_length_eq s) as Hq.
  replace (pos + Z.of_nat (length (quoted s)) - 1 - (pos + 1)) with (Z.of_nat (length (concat (escape <$> s)))) by lia.
  rewrite i32_small by lia. rewrite Nat2Z.id.
  destruct (str_chars s (pos + 1) (Z.of_nat (length (concat (escape <$> s)))) cap Hs) with (out := out) (i := 0) (j := 0)
    (f := S (length (concat (escape <$> s)))) as (out1 & H1 & R); [lia|by rewrite Z.add_0_r|lia|lia|lia|lia|].
  rewrite R, bind_ret, Z.add_0_l. destruct (store_bytes_length _ _ _ _ H1) as [Hlen1 _].
  exists (<[length (utf8_text s) := 0]> out1). rewrite store1_Ret, bind_ret by lia. rewrite Nat2Z.id. split; [|done].
  rewrite store_bytes_app, H1, bind_ret by lia. rewrite store_bytes_cons, store1_Ret, bind_ret by lia.
  rewrite store_bytes_nil by (rewrite length_insert; lia). by rewrite Z.add_0_l, Nat2Z.id.
Qed.

(** ** Numbers *)

Lemma int_loop_digits ds : Forall (fun d => 0x30 ≤ d ≤ 0x39) ds → ∀ i v rest,
  input i (ds ++ rest) → 0 ≤ v → digits_value v ds < 2 ^ 31 → token_int_loop js (length ds) i v = Ret (digits_value v ds).
Proof.
  induction 1 as [|d ds Hd Hds IH]; intros i v rest Hi Hv Hr; [done|]. cbn [app length token_int_loop] in *.
  apply (input_cons _ _ Hlen Hint) in Hi as (Hl & _ & Hi). rewrite Hl, bind_ret.
  unfold schar. destruct (Z.ltb_spec d 128); [|lia]. destruct (Z.ltb_spec d 0x30); [lia|]. destruct (Z.ltb_spec 0x39 d); [lia|]. cbn [orb].
  unfold digits_value in *. cbn [foldl] in *. pose proof (digits_value_grows ds (v * 10 + (d - 0x30)) Hds ltac:(lia)) as Hg. unfold digits_value in Hg.
  rewrite i32_small by lia. apply (IH (i + 1) _ rest Hi); [lia|done].
Qed.

Lemma token_int_text n size pos a rest :
  - 2 ^ 31 < n < 2 ^ 31 → input pos (int_text n ++ rest) →
  json_token_int js (Token JSON_NUMBER pos (pos + Z.of_nat (length (int_text n))) size a) = Ret (Some n).
Proof.
  intros Hn Hi. unfold json_token_int. rewrite decide_False by naive_solver. cbn [t_start t_end].
  set (ds := if n =? 0 then [0x30] else reverse (digit_loop 10 (Z.abs n))).
  assert (Forall (fun d => 0x30 ≤ d ≤ 0x39) ds ∧ digits_value 0 ds = Z.abs n) as [Hds Hval].
  { unfold ds. destruct (Z.eqb_spec n 0) as [->|]; [by repeat constructor|]. split; [apply Forall_reverse, digit_loop_digits|].
    apply digit_loop_value. change (10 ^ Z.of_nat 10) with 10000000000. lia. }
  unfold int_text in *. fold ds in Hi |- *. destruct (Z.ltb_spec n 0).
  - cbn [app length] in *. apply (input_cons _ _ Hlen Hint) in Hi as (Hl & _ & Hi). rewrite Hl, bind_ret. cbn [Z.eqb Pos.eqb].
    replace (Z.to_nat (pos + Z.of_nat (S (length ds)) - (pos + 1))) with (length ds) by lia.
    rewrite (int_loop_digits ds Hds (pos + 1) 0 rest Hi), bind_ret, Hval by lia. do 2 f_equal. rewrite i32_small by lia. lia.
  - cbn [app] in *. assert (∃ d ds', ds = d :: ds') as (d & ds' & Eds).
    { destruct ds as [|d ds'] eqn:Eds; [|by eauto]. unfold ds in Eds. destruct (Z.eqb_spec n 0); [done|].
      cbn [digit_loop] in Eds. destruct (Z.ltb_spec 0 (Z.abs n)); [|lia]. rewrite reverse_cons in Eds. by apply app_nil in Eds as [_ ?]. }
    assert (0x30 ≤ d ≤ 0x39) as Hd by (rewrite Eds in Hds; by apply Forall_cons in Hds as [? _]).
    pose proof Hi as Hi'. rewrite Eds in Hi'. apply (input_cons _ _ Hlen Hint) in Hi' as (Hl & _ & _). rewrite Hl, bind_ret.
    destruct (Z.eqb_spec d 0x2d); [lia|]. replace (Z.to_nat (pos + Z.of_nat (length ds) - pos)) with (length ds) by lia.
    rewrite (int_loop_digits ds Hds pos 0 rest Hi), bind_ret, Hval by lia. do 2 f_equal. lia.
Qed.
End reading.

(** ** Walking over the tokens *)

Definition tokens_at (toks : list json_token) (n : Z) (l : list json_token) : Prop :=
  0 ≤ n ∧ ∃ tail, drop (Z.to_nat n) toks = l ++ tail.

Lemma tokens_at_app toks n a b : tokens_at toks n (a ++ b) → tokens_at toks n a ∧ tokens_at toks (n + Z.of_nat (length a)) b.
Proof.
  intros [Hn [tail Ht]]. split; (split; [lia|]).
  - exists (b ++ tail). by rewrite Ht, <-app_assoc.
  - exists tail. replace (Z.to_nat (n + Z.of_nat (length a))) with (Z.to_nat n + length a)%nat by lia.
    by rewrite <-drop_drop, Ht, <-app_assoc, drop_app_length.
Qed.

Lemma tokens_at_cons toks n t l : tokens_at toks n (t :: l) → load1 toks n = Ret t ∧ tokens_at toks (n + 1) l.
Proof.
  intros H. pose proof (tokens_at_app toks n [t] l H) as [_ H1]. split; [|exact H1]. destruct H as [Hn [tail Ht]].
  apply load1_Ret; [done|]. apply (f_equal (fun l => l !! 0%nat)) in Ht. by rewrite lookup_drop, Nat.add_0_r in Ht.
Qed.

Section skipping.
Context {A : Type} (text_of : A → list Z) (ntok_of : A → nat) (toks_of : A → Z → Z → Z → list json_token).
Context (toks : list json_token) (count : Z) (skip : Z → outcome Z).

Lemma repeat_items (l : list A) a :
  Forall (item_closed ntok_of toks_of) l →
  Forall (fun x => ∀ pos n, 0 ≤ pos → tokens_at toks n (toks_of x pos n a) → n + Z.of_nat (ntok_of x) ≤ count → skip n = Ret (n + Z.of_nat (ntok_of x))) l →
  ∀ pos n, 0 ≤ pos → tokens_at toks n (items_tokens text_of ntok_of toks_of l pos n a) → n + Z.of_nat (sum_list (map ntok_of l)) ≤ count →
  repeatM (length l) skip n = Ret (n + Z.of_nat (sum_list (map ntok_of l))).
Proof.
  intros Hc Hs. induction l as [|x l IH]; intros pos n Hpos Ht Hn; cbn [items_tokens length repeatM map] in *.
  - simpl. by rewrite Z.add_0_r.
  - apply Forall_cons in Hc as [Hcx Hc]. apply Forall_cons in Hs as [Hx Hs]. destruct (Hcx pos n a Hpos) as [Hlx _].
    change (sum_list (ntok_of x :: map ntok_of l)) with (ntok_of x + sum_list (map ntok_of l))%nat in *.
    apply tokens_at_app in Ht as [Ht1 Ht2]. rewrite Hlx in Ht2. rewrite (Hx pos n Hpos Ht1), bind_ret by lia.
    rewrite (IH Hc Hs (pos + Z.of_nat (length (text_of x)) + 1) (n + Z.of_nat (ntok_of x)) ltac:(lia) Ht2) by lia. f_equal. lia.
Qed.
End skipping.

Lemma sum_list_le {A} (f : A → nat) x l : x ∈ l → (f x ≤ sum_list (map f l))%nat.
Proof.
  induction 1 as [x l|x y l _ IH]; cbn [map]; [change (sum_list (f x :: map f l)) with (f x + sum_list (map f l))%nat; lia|].
  change (sum_list (f y :: map f l)) with (f y + sum_list (map f l))%nat. lia.
Qed.

Lemma skip_key fuel toks count m k size pos a :
  load1 toks m = Ret (key_token k size pos a) → 0 ≤ m < count → skip_token (S fuel) toks count m = Ret (m + 1).
Proof.
  intros Hl Hm. cbn [skip_token]. destruct (Z.ltb_spec m 0); [lia|]. destruct (Z.leb_spec count m); [lia|]. cbn [orb].
  by rewrite Hl, bind_ret.
Qed.

(** A value is skipped together with all it contains. *)
Lemma skip_tokens_of v : ∀ fuel toks count pos n sup,
  (ntok v ≤ fuel)%nat → 0 ≤ pos → tokens_at toks n (tokens_of v pos n sup) → n + Z.of_nat (ntok v) ≤ count →
  skip_token fuel toks count n = Ret (n + Z.of_nat (ntok v)).
Proof.
  induction v as [s|m|b| |l IH|l IH] using json_induction; intros [|fuel] toks count pos n sup Hf Hpos Ht Hn; cbn [ntok tokens_of] in *; try lia;
    pose proof (tokens_at_cons _ _ _ _ Ht) as [Hl Ht1]; pose proof (proj1 Ht) as Hn0; cbn [skip_token];
    (destruct (Z.ltb_spec n 0); [lia|]); (destruct (Z.leb_spec count n); [lia|]); cbn [orb]; rewrite Hl, bind_ret; cbn [t_type t_size]; try done; rewrite Nat2Z.id.
  - rewrite (repeat_items render ntok tokens_of toks count (skip_token fuel toks count) l n) with (pos := pos + 1); [f_equal; lia| | |lia|done|lia].
    + apply Forall_true. intros v p k a Hp. by apply tokens_of_closed.
    + rewrite Forall_forall in IH |- *. intros v Hv p k Hp Hk Hc. apply (IH v Hv) with (pos := p) (sup := n); try done.
      pose proof (sum_list_le ntok v l Hv). lia.
  - rewrite (repeat_items pair_text (fun kv => S (ntok kv.2)) pair_tokens toks count _ l n) with (pos := pos + 1); [f_equal; lia| | |lia|done|lia].
    + apply Forall_true. intros [k v] p m a Hp. apply pair_tokens_closed; [|done]. apply tokens_of_closed.
    + rewrite Forall_forall in IH |- *. intros [k v] Hv p m Hp Hk Hc. unfold pair_tokens in Hk. cbn [fst snd] in *.
      pose proof (sum_list_le (fun kv => S (ntok kv.2)) (k, v) l Hv). cbn [fst snd] in *. pose proof (proj1 Hk). apply tokens_at_cons in Hk as [Hlk Hk].
      destruct fuel as [|fuel]; [lia|]. rewrite (skip_key _ _ _ _ _ _ _ _ Hlk), bind_ret by lia.
      rewrite (IH _ Hv (S fuel) toks count (p + Z.of_nat (length (quoted k)) + 1) (m + 1) m); cbn [snd]; try lia; [f_equal; lia|done].
Qed.

(** ** Keys *)

Definition key_bytes (k : list Z) : list Z := concat (escape <$> k).

Definition pairs_tokens : list (list Z * json) → Z → Z → Z → list json_token :=
  items_tokens pair_text (fun kv => S (ntok kv.2)) pair_tokens.

Definition pairs_ntok (l : list (list Z * json)) : nat := sum_list (map (fun kv => S (ntok kv.2)) l).

Lemma pairs_ntok_cons k v l : pairs_ntok ((k, v) :: l) = (S (ntok v) + pairs_ntok l)%nat.
Proof. done. Qed.

Section keys.
Context (js : list Z) (len : Z) (Hlen : len ≤ Z.of_nat (length js)) (Hint : len < 2 ^ 31).
Context (key s : list Z) (Hkey : string_at key 0 s) (Hs : Z.of_nat (length s) < 2 ^ 31).
#[local] Set Default Proof Using "Hlen Hint Hkey Hs".

Lemma token_eq_key k size pos a rest :
  input js len pos (quoted k ++ rest) → json_token_eq js (key_token k size pos a) key = Ret (bool_decide (key_bytes k = s)).
Proof.
  intros Hi. unfold json_token_eq, key_token. cbn [t_end t_start]. pose proof (quoted_length_eq k) as Hq.
  replace (pos + Z.of_nat (length (quoted k)) - 1 - (pos + 1)) with (Z.of_nat (length (key_bytes k))) by (unfold key_bytes; lia).
  unfold quoted in Hi. rewrite <-!app_assoc in Hi. cbn [app] in Hi. apply (input_cons _ _ Hlen Hint) in Hi as (_ & _ & Hp & Hl & Hi).
  fold (key_bytes k) in *. rewrite !length_app in *. cbn [length] in *.
  rewrite (strlen_value key 0 s Hkey), bind_ret by (unfold U32; lia). rewrite !i32_small by lia. rewrite u32_small by (unfold is_u32, U32; lia).
  destruct (Z.eqb_spec (Z.of_nat (length (key_bytes k))) (Z.of_nat (length s))) as [E|E]; cbn [negb].
  - unfold memcmp. unfold behind. destruct (string_behind _ _ _ Hkey) as [tail Hb]. unfold behind in Hb. rewrite Hb.
    destruct (Z.leb_spec 0 (pos + 1)); [|lia]. destruct (Z.leb_spec (pos + 1) (Z.of_nat (length js))); [|lia]. cbn [andb]. rewrite !bind_ret.
    destruct (memcmp_loop_zero (Z.to_nat (Z.of_nat (length s))) (drop (Z.to_nat (pos + 1)) js) (s ++ 0 :: tail)) as (r & -> & Hr).
    { rewrite length_drop. lia. }
    { rewrite length_app. lia. }
    rewrite bind_ret. f_equal. rewrite Nat2Z.id, take_app_length in Hr.
    apply (f_equal (take (length s))) in Hi. rewrite take_take, Nat.min_l, take_app_le in Hi by lia.
    rewrite Hi in Hr. rewrite take_ge in Hr by lia. destruct (Z.eqb_spec r 0) as [E0|E0].
    + rewrite bool_decide_eq_true_2; [done|]. by apply Hr.
    + rewrite bool_decide_eq_false_2; [done|]. intros Eq. apply E0. by apply Hr.
  - rewrite bool_decide_eq_false_2; [done|]. intros Eq. apply E. by rewrite Eq.
Qed.

(** The pair [(k, v)] at [cur] and what follows it. *)
Lemma find_key_pair k v l f toks count pos cur a rest :
  0 ≤ pos → tokens_at toks cur (pairs_tokens ((k, v) :: l) pos cur a) → cur + Z.of_nat (pairs_ntok ((k, v) :: l)) ≤ count →
  input js len pos (commas (map pair_text ((k, v) :: l)) ++ rest) →
  find_key_loop (S f) js toks count key cur =
    if bool_decide (key_bytes k = s) then Ret (cur + 1) else find_key_loop f js toks count key (cur + 1 + Z.of_nat (ntok v)).
Proof.
  intros Hpos Ht Hc Hi. rewrite pairs_ntok_cons in Hc. pose proof (proj1 Ht) as H0. unfold pairs_tokens in Ht. cbn [items_tokens] in Ht.
  apply tokens_at_app in Ht as [Ht _]. unfold pair_tokens in Ht. cbn [fst snd] in Ht. apply tokens_at_cons in Ht as [Hl Ht].
  cbn [find_key_loop]. destruct (Z.leb_spec count cur); [lia|]. rewrite Hl, bind_ret. rewrite decide_True by done.
  assert (∃ rest', input js len pos (quoted k ++ rest')) as [rest' Hi'].
  { destruct l as [|y l]; cbn [map commas] in Hi; unfold pair_text in Hi at 1; cbn [fst snd] in Hi; rewrite <-!app_assoc in Hi; eexists; exact Hi. }
  rewrite (token_eq_key k 1 pos a rest' Hi'), bind_ret. destruct (bool_decide _); [done|].
  unfold skip_fuel. rewrite (skip_key _ _ _ _ _ _ _ _ Hl), bind_ret by lia.
  rewrite (skip_tokens_of v _ toks count (pos + Z.of_nat (length (quoted k)) + 1) (cur + 1) cur), bind_ret; [done|lia|lia|done|lia].
Qed.

Lemma pairs_next k v y l pos cur a toks rest :
  0 ≤ pos → tokens_at toks cur (pairs_tokens ((k, v) :: y :: l) pos cur a) → input js len pos (commas (map pair_text ((k, v) :: y :: l)) ++ rest) →
  let pos' := pos + Z.of_nat (length (pair_text (k, v))) + 1 in
  0 ≤ pos' ∧ tokens_at toks (cur + 1 + Z.of_nat (ntok v)) (pairs_tokens (y :: l) pos' (cur + 1 + Z.of_nat (ntok v)) a) ∧
  input js len pos' (commas (map pair_text (y :: l)) ++ rest).
Proof.
  intros Hpos Ht Hi pos'. unfold pos'. split; [lia|]. split.
  - unfold pairs_tokens in Ht. change ((k, v) :: y :: l) with ([(k, v)] ++ y :: l) in Ht. cbn [app] in Ht.
    remember (y :: l) as l'. cbn [items_tokens] in Ht. cbn [fst snd] in Ht. apply tokens_at_app in Ht as [_ Ht].
    destruct (pair_tokens_closed k v (tokens_of_closed v) pos cur a Hpos) as [Hlp _]. rewrite Hlp in Ht.
    replace (cur + 1 + Z.of_nat (ntok v)) with (cur + Z.of_nat (S (ntok v))) by lia. exact Ht.
  - cbn [map] in Hi. rewrite commas_cons, <-app_assoc in Hi. apply (input_app _ _ Hlen Hint) in Hi. cbn [app] in Hi.
    by apply (input_cons _ _ Hlen Hint) in Hi as (_ & _ & Hi).
Qed.

(** The first pair with the key. *)
Lemma find_key_first l1 k v l2 toks count rest : key_bytes k = s → Forall (fun kv => key_bytes kv.1 ≠ s) l1 → ∀ pos cur a,
  0 ≤ pos → tokens_at toks cur (pairs_tokens (l1 ++ (k, v) :: l2) pos cur a) → cur + Z.of_nat (pairs_ntok (l1 ++ (k, v) :: l2)) ≤ count →
  input js len pos (commas (map pair_text (l1 ++ (k, v) :: l2)) ++ rest) →
  ∃ i pos', find_key_loop (length (l1 ++ (k, v) :: l2)) js toks count key cur = Ret i ∧ 0 ≤ pos' ∧
    i = cur + Z.of_nat (pairs_ntok l1) + 1 ∧ tokens_at toks i (tokens_of v pos' i (i - 1)) ∧
    ∃ rest', input js len pos' (render v ++ rest').
Proof.
  intros Hk Hl1. induction Hl1 as [|[k0 v0] l1 Hk0 _ IH]; intros pos cur a Hpos Ht Hc Hi.
  - cbn [app length] in *.
    rewrite (find_key_pair k v l2 (length l2) toks count pos cur a rest Hpos Ht Hc Hi), bool_decide_eq_true_2 by done.
    exists (cur + 1), (pos + Z.of_nat (length (quoted k)) + 1). split; [done|]. split; [lia|]. split; [unfold pairs_ntok; simpl; lia|].
    unfold pairs_tokens in Ht. cbn [items_tokens] in Ht. apply tokens_at_app in Ht as [Ht _]. unfold pair_tokens in Ht. cbn [fst snd] in Ht.
    apply tokens_at_cons in Ht as [_ Ht]. split; [by replace (cur + 1 - 1) with cur by lia|].
    assert (∃ rest', input js len pos (quoted k ++ 0x3a :: render v ++ rest')) as [rest' Hi'].
    { destruct l2 as [|y l2]; cbn [map commas] in Hi; unfold pair_text in Hi at 1; cbn [fst snd] in Hi; rewrite <-!app_assoc in Hi; eexists; exact Hi. }
    exists rest'. apply (input_app _ _ Hlen Hint) in Hi'. by apply (input_cons _ _ Hlen Hint) in Hi' as (_ & _ & ?).
  - cbn [fst] in Hk0. assert (∃ y l, l1 ++ (k, v) :: l2 = y :: l) as (y & l & El) by (destruct l1; cbn [app]; eauto).
    cbn [app] in *. rewrite El in *. destruct (pairs_next k0 v0 y l pos cur a toks rest Hpos Ht Hi) as (Hp' & Ht' & Hi').
    change (length ((k0, v0) :: y :: l)) with (S (length (y :: l))).
    rewrite (find_key_pair k0 v0 (y :: l) _ toks count pos cur a rest Hpos Ht Hc Hi), bool_decide_eq_false_2 by done.
    rewrite pairs_ntok_cons in Hc. destruct (IH _ _ a Hp' Ht' ltac:(lia) Hi') as (i & pos' & E & Hpi & Hi0 & H3 & H4).
    exists i, pos'. split; [done|]. split; [done|]. split; [rewrite pairs_ntok_cons; lia|done].
Qed.

Lemma find_key_none l toks count rest : Forall (fun kv => key_bytes kv.1 ≠ s) l → ∀ pos cur a,
  0 ≤ pos → tokens_at toks cur (pairs_tokens l pos cur a) → cur + Z.of_nat (pairs_ntok l) ≤ count →
  input js len pos (commas (map pair_text l) ++ rest) → find_key_loop (length l) js toks count key cur = Ret (-1).
Proof.
  induction 1 as [|[k0 v0] l Hk0 _ IH]; intros pos cur a Hpos Ht Hc Hi; [done|]. cbn [fst] in Hk0.
  change (length ((k0, v0) :: l)) with (S (length l)).
  rewrite (find_key_pair k0 v0 l _ toks count pos cur a rest Hpos Ht Hc Hi), bool_decide_eq_false_2 by done.
  destruct l as [|y l]; [done|]. destruct (pairs_next k0 v0 y l pos cur a toks rest Hpos Ht Hi) as (Hp' & Ht' & Hi').
  rewrite pairs_ntok_cons in Hc. apply (IH _ _ a Hp' Ht'); [lia|done].
Qed.
End keys.
