(* ===== verification/JsonProps.v ===== *)
(** * JSON: what is written is read back

    The writer, the tokenizer and the functions that read tokens, together. *)

From Stdlib Require Import String.
From S2P Require Import Prelude Ring KString UString Utf8 Json JsonWrite JsonParse JsonRead.

Lemma input_prefix js len pos a b : input js len pos (a ++ b) → input js (pos + Z.of_nat (length a)) pos a.
Proof.
  intros (Hp & Hl & Hs). split; [done|]. split; [done|]. apply (f_equal (take (length a))) in Hs.
  rewrite length_app, take_take, Nat.min_l, take_app_length in Hs by lia. done.
Qed.


(** A document that is written and parsed. *)
Lemma document_tokens v buf cap num toks :
  json_ok v → Z.of_nat (length (render v)) < cap → cap ≤ Z.of_nat (length buf) → cap < 2 ^ 31 →
  Z.of_nat (ntok v) ≤ num → num ≤ Z.of_nat (length toks) →
  let len := Z.of_nat (length (render v)) in
  ∃ w buf' p toks', write_json v (jw_init buf cap) = Ret w ∧ jw_finish w = Ret (len, buf') ∧
    json_parse buf' len num json_init toks = Ret (Z.of_nat (ntok v), p, toks') ∧
    len ≤ Z.of_nat (length buf') ∧ input buf' len 0 (render v) ∧ tokens_at toks' 0 (tokens_of v 0 0 (-1)).
Proof.
  intros Hok Hcap Hbuf Hint Hnum Htoks len. destruct (write_document v buf cap Hok Hcap Hbuf Hint) as (w & buf' & Hw & Hf & Hl & Ht).
  exists w, buf'. unfold len. rewrite (json_parse_text v buf' num toks Hok) by (done || lia). eexists _, _. split; [done|]. split; [done|]. split; [done|].
  split; [lia|]. split; [split; [done|split; [lia|by rewrite drop_0]]|]. split; [done|]. by eexists.
Qed.

(** Writing a document with the writer and parsing what was written succeeds,
    and the tokens are exactly those of the document: the type, the range, the
    number of children and the parent of every value and every key. *)
Theorem json_document_roundtrip v buf cap num toks :
  json_ok v → Z.of_nat (length (render v)) < cap → cap ≤ Z.of_nat (length buf) → cap < 2 ^ 31 →
  Z.of_nat (ntok v) ≤ num → num ≤ Z.of_nat (length toks) →
  ∃ w len buf' p toks', write_json v (jw_init buf cap) = Ret w ∧ jw_finish w = Ret (len, buf') ∧ take (Z.to_nat len) buf' = render v ∧
    json_parse buf' len num json_init toks = Ret (Z.of_nat (ntok v), p, toks') ∧ take (ntok v) toks' = tokens_of v 0 0 (-1).
Proof.
  intros Hok Hcap Hbuf Hint Hnum Htoks. destruct (document_tokens v buf cap num toks) as (w & buf' & p & toks' & Hw & Hf & Hp & _ & Hi & Ht); try done.
  exists w, (Z.of_nat (length (render v))), buf', p, toks'. split; [done|]. split; [done|]. rewrite Nat2Z.id.
  split; [by destruct Hi as (_ & _ & Hi); rewrite drop_0 in Hi|]. split; [done|]. destruct Ht as [_ [tail Ht]]. change (Z.to_nat 0) with 0%nat in Ht.
  rewrite drop_0 in Ht. rewrite Ht. destruct (tokens_of_closed v 0 0 (-1)) as [<- _]; [done|]. apply take_app_length.
Qed.

Lemma commas_elem x l : x ∈ l → (length x ≤ length (commas l))%nat.
Proof.
  induction l as [|y [|z l] IH]; intros Hx; [by apply elem_of_nil in Hx|by apply list_elem_of_singleton in Hx as ->|].
  rewrite commas_cons, length_app. cbn [length]. apply elem_of_cons in Hx as [->|Hx]; [lia|]. specialize (IH Hx). lia.
Qed.

(** The first member with the key. *)
Lemma object_lookup js len toks l1 k v l2 key :
  len ≤ Z.of_nat (length js) → len < 2 ^ 31 → input js len 0 (render (JObject (l1 ++ (k, v) :: l2))) →
  tokens_at toks 0 (tokens_of (JObject (l1 ++ (k, v) :: l2)) 0 0 (-1)) →
  string_at key 0 (key_bytes k) → Forall (fun kv => key_bytes kv.1 ≠ key_bytes k) l1 →
  ∃ i pos, json_find_key js toks (Z.of_nat (ntok (JObject (l1 ++ (k, v) :: l2)))) 0 key = Ret i ∧ i = Z.of_nat (pairs_ntok l1) + 2 ∧
    tokens_at toks i (tokens_of v pos i (i - 1)) ∧ ∃ rest, input js len pos (render v ++ rest).
Proof.
  intros Hlen Hint Hi Ht Hkey Hl1. cbn [render app] in Hi. apply (input_cons _ _ Hlen Hint) in Hi as (_ & _ & Hi). cbn [tokens_of] in Ht.
  change (input js len (0 + 1) (commas (map pair_text (l1 ++ (k, v) :: l2)) ++ [0x7d])) in Hi.
  apply tokens_at_cons in Ht as [Hl Ht]. unfold json_find_key. cbn [ntok]. destruct (Z.ltb_spec 0 0); [lia|].
  match goal with |- context [?a <=? 0] => destruct (Z.leb_spec a 0); [lia|] end. cbn [orb]. rewrite Hl, bind_ret. cbn [t_type t_size].
  rewrite decide_False by naive_solver. rewrite Nat2Z.id.
  assert (Z.of_nat (length (key_bytes k)) < 2 ^ 31) as Hk.
  { pose proof (quoted_length_eq k) as Hq. fold (key_bytes k) in Hq. destruct Hi as (_ & Hi & _). rewrite length_app in Hi.
    assert (length (pair_text (k, v)) ≤ length (commas (map pair_text (l1 ++ (k, v) :: l2))))%nat as Hc.
    { apply commas_elem, list_elem_of_fmap_2. set_solver. }
    change (pair_text (k, v)) with (quoted k ++ [0x3a] ++ render v) in Hc. rewrite !length_app in Hc. lia. }
  destruct (find_key_first js len Hlen Hint key (key_bytes k) Hkey Hk l1 k v l2 toks (Z.of_nat (S (pairs_ntok (l1 ++ (k, v) :: l2)))) [0x7d]
    eq_refl Hl1 (0 + 1) (0 + 1) 0) as (i & pos & E & Hpos & Hi0 & H3 & H4); [lia|exact Ht|lia|exact Hi|].
  exists i, pos. split; [exact E|]. split; [lia|done].
Qed.

Lemma string_value js len toks s i pos a rest out cap :
  len ≤ Z.of_nat (length js) → len < 2 ^ 31 → Forall char_ok s → tokens_at toks i (tokens_of (JString s) pos i a) →
  input js len pos (quoted s ++ rest) → Z.of_nat (length (utf8_text s)) < cap → cap ≤ Z.of_nat (length out) →
  ∃ t out', load1 toks i = Ret t ∧ json_token_str js t out cap = Ret (Z.of_nat (length (utf8_text s)), out') ∧
    store_bytes out 0 (utf8_text s ++ [0]) = Ret out'.
Proof.
  intros Hlen Hint Hs Ht Hi Hroom Hcap. apply tokens_at_cons in Ht as [Hl _]. pose proof (quoted_length_eq s) as Hq.
  pose proof Hi as (_ & Hend & _). rewrite length_app in Hend. unfold quoted in Hi. rewrite <-!app_assoc in Hi. cbn [app] in Hi. pose proof (proj1 Hi) as Hp.
  apply (input_cons _ _ Hlen Hint) in Hi as (_ & _ & Hi). apply input_prefix in Hi.
  set (e := pos + 1 + Z.of_nat (length (concat (escape <$> s)))) in *. assert (e ≤ Z.of_nat (length js) ∧ e < 2 ^ 31) as [He1 He2] by lia.
  destruct (token_str_text js e He1 He2 s 0 pos a out cap) as (out' & H1 & H2); try done; [lia|].
  exists (key_token s 0 pos a), out'. done.
Qed.

(** C39: A string member of an object is read back: the object is written, what was
    written is parsed, [json_find_key] finds the first member with the key, and
    [json_token_str] of the token it finds gives the bytes of the string and a NUL. *)
Theorem json_member_roundtrip l1 k s l2 buf cap num toks key out out_cap :
  let v := JObject (l1 ++ (k, JString s) :: l2) in
  json_ok v → Z.of_nat (length (render v)) < cap → cap ≤ Z.of_nat (length buf) → cap < 2 ^ 31 →
  Z.of_nat (ntok v) ≤ num → num ≤ Z.of_nat (length toks) →
  string_at key 0 (key_bytes k) → Forall (fun kv => key_bytes kv.1 ≠ key_bytes k) l1 →
  Z.of_nat (length (utf8_text s)) < out_cap → out_cap ≤ Z.of_nat (length out) →
  ∃ w len buf' n p toks' i t out', write_json v (jw_init buf cap) = Ret w ∧ jw_finish w = Ret (len, buf') ∧
    json_parse buf' len num json_init toks = Ret (n, p, toks') ∧ json_find_key buf' toks' n 0 key = Ret i ∧ load1 toks' i = Ret t ∧
    json_token_str buf' t out out_cap = Ret (Z.of_nat (length (utf8_text s)), out') ∧ store_bytes out 0 (utf8_text s ++ [0]) = Ret out'.
Proof.
  intros v Hok Hcap Hbuf Hint Hnum Htoks Hkey Hl1 Hroom Hout.
  destruct (document_tokens v buf cap num toks) as (w & buf' & p & toks' & Hw & Hf & Hp & Hlen & Hi & Ht); try done.
  destruct (object_lookup buf' (Z.of_nat (length (render v))) toks' l1 k (JString s) l2 key) as (i & pos & Hfind & _ & Hti & rest & Hri); try done; [lia|].
  assert (Forall char_ok s) as Hs.
  { apply object_ok in Hok. apply Forall_app in Hok as [_ Hok]. by apply Forall_cons in Hok as [[_ ?] _]. }
  destruct (string_value buf' _ toks' s i pos (i - 1) rest out out_cap Hlen ltac:(lia) Hs Hti Hri Hroom Hout) as (t & out' & Hlt & Hstr & Hst).
  by exists w, (Z.of_nat (length (render v))), buf', (Z.of_nat (ntok v)), p, toks', i, t, out'.
Qed.

(** A number that is written is read back as the same number. *)
Theorem json_int_roundtrip n buf cap num toks :
  - 2 ^ 31 < n < 2 ^ 31 → 12 ≤ cap → cap ≤ Z.of_nat (length buf) → cap < 2 ^ 31 → 1 ≤ num → num ≤ Z.of_nat (length toks) →
  ∃ w len buf' p toks' t, jw_int n (jw_init buf cap) = Ret w ∧ jw_finish w = Ret (len, buf') ∧
    json_parse buf' len num json_init toks = Ret (1, p, toks') ∧ load1 toks' 0 = Ret t ∧ json_token_int buf' t = Ret (Some n).
Proof.
  intros Hn Hcap Hbuf Hint Hnum Htoks. assert (Z.of_nat (length (int_text n)) < cap) as Hl.
  { unfold int_text. rewrite length_app. assert (∀ f m, (length (digit_loop f m) ≤ f)%nat) as Hd.
    { intros f. induction f as [|f IH]; intros m; cbn [digit_loop]; [done|]. destruct (0 <? m); cbn [length]; [specialize (IH (m / 10)); lia|lia]. }
    specialize (Hd 10%nat (Z.abs n)). destruct (n <? 0), (n =? 0); rewrite ?length_reverse; cbn [length]; lia. }
  destruct (document_tokens (JInt n) buf cap num toks) as (w & buf' & p & toks' & Hw & Hf & Hp & Hlen & Hi & Ht); try done; [cbn [json_ok]; lia|].
  cbn [tokens_of render] in *. apply tokens_at_cons in Ht as [Ht _]. eexists w, _, buf', p, toks', _. split; [exact Hw|]. split; [exact Hf|].
  split; [exact Hp|]. split; [exact Ht|]. apply (token_int_text buf' (Z.of_nat (length (int_text n))) Hlen ltac:(lia) n 0 0 (-1) []); [done|].
  by rewrite app_nil_r.
Qed.

(** A document with an escape, a two-byte character, a number and nested values. *)
Definition sample : json := JObject [([0x61; 0x0a], JArray [JInt (-12); JNull]); ([0x6b], JString [0xe9; 0x22]); ([0x6b], JBool true)].

Lemma sample_ok : json_ok sample.
Proof.
  assert (∀ cp, (0 <=? cp) && utf8_is_valid_codepoint cp = true → char_ok cp) as Hc.
  { intros cp [? ?]%andb_true_iff. split; [lia|done]. }
  cbn. repeat split; try (by vm_compute); repeat constructor; try (by apply Hc); done.
Qed.

Lemma json_document_roundtrip_witness :
  ∃ w len buf' p toks', write_json sample (jw_init (replicate 64 0) 64) = Ret w ∧ jw_finish w = Ret (len, buf') ∧
    take (Z.to_nat len) buf' = render sample ∧
    json_parse buf' len 10 json_init (replicate 10 fresh_token) = Ret (Z.of_nat (ntok sample), p, toks') ∧
    take (ntok sample) toks' = tokens_of sample 0 0 (-1).
Proof. apply json_document_roundtrip; [exact sample_ok|by vm_compute..]. Defined.

Lemma json_member_roundtrip_witness :
  ∃ w len buf' n p toks' i t out', write_json sample (jw_init (replicate 64 0) 64) = Ret w ∧ jw_finish w = Ret (len, buf') ∧
    json_parse buf' len 10 json_init (replicate 10 fresh_token) = Ret (n, p, toks') ∧ json_find_key buf' toks' n 0 [0x6b; 0] = Ret i ∧
    load1 toks' i = Ret t ∧ json_token_str buf' t (replicate 8 0) 8 = Ret (3, out') ∧ store_bytes (replicate 8 0) 0 [0xc3; 0xa9; 0x22; 0] = Ret out'.
Proof.
  apply (json_member_roundtrip [([0x61; 0x0a], JArray [JInt (-12); JNull])] [0x6b] [0xe9; 0x22] [([0x6b], JBool true)]
    (replicate 64 0) 64 10 (replicate 10 fresh_token) [0x6b; 0] (replicate 8 0) 8).
  - exact sample_ok.
  - by vm_compute.
  - by vm_compute.
  - by vm_compute.
  - by vm_compute.
  - by vm_compute.
  - constructor; [repeat constructor; done|done|by exists []].
  - repeat constructor. by vm_compute.
  - by vm_compute.
  - by vm_compute.
Defined.

Lemma json_int_roundtrip_witness :
  ∃ w len buf' p toks' t, jw_int (-120) (jw_init (replicate 16 0) 16) = Ret w ∧ jw_finish w = Ret (len, buf') ∧
    json_parse buf' len 1 json_init (replicate 1 fresh_token) = Ret (1, p, toks') ∧ load1 toks' 0 = Ret t ∧ json_token_int buf' t = Ret (Some (-120)).
Proof. apply json_int_roundtrip; by vm_compute. Defined.
