(* ===== verification/JsonSafe.v ===== *)
(** * JSON: the tokenizer on any input

    [json_parse] returns for every input, whatever its bytes, and every access is
    inside the input and the tokens. *)

From Stdlib Require Import String.
From S2P Require Import Prelude Ring KString UString Json.

Section safety.
Context (js : list Z) (len num : Z) (Hlen : len ≤ Z.of_nat (length js)).
#[local] Set Default Proof Using "Hlen".

(** What holds between two steps. *)
Record fine (p : json_parser) (toks : list json_token) : Prop := {
  fi_pos : 0 ≤ j_pos p;
  fi_next : 0 ≤ toknext p ≤ num;
  fi_super : -1 ≤ toksuper p < num;
  fi_length : num ≤ Z.of_nat (length toks);
  fi_parents : Forall (fun t => -1 ≤ t_parent t < num) (take (Z.to_nat (toknext p)) toks)
}.

(** A step from position [pos] that returns: behind an error nothing is claimed. *)
Definition steps (pos : Z) (m : outcome (Z * json_parser * list json_token)) : Prop :=
  ∃ r p toks, m = Ret (r, p, toks) ∧ r ≤ 0 ∧ (r = 0 → fine p toks ∧ pos ≤ j_pos p).

Lemma steps_error pos r p toks : r < 0 → steps pos (Ret (r, p, toks)).
Proof using Type. clear Hlen. intros Hr. exists r, p, toks. split; [done|]. split; [lia|]. lia. Qed.

Lemma steps_ok pos p toks : fine p toks → pos ≤ j_pos p → steps pos (Ret (JSON_OK, p, toks)).
Proof using Type. clear Hlen. intros. exists JSON_OK, p, toks. done. Qed.

Lemma load_input pos : 0 ≤ pos < len → ∃ c, load1 js pos = Ret c.
Proof. intros Hp. destruct (lookup_lt_is_Some_2 js (Z.to_nat pos)) as [c Hc]; [lia|]. exists c. apply load1_Ret; [lia|done]. Qed.

(** A new token keeps the parents in range. *)
Lemma fine_push p toks t :
  fine p toks → toknext p < num → -1 ≤ t_parent t < num →
  fine (JParser (j_pos p) (toknext p + 1) (toksuper p) (j_error p)) (<[Z.to_nat (toknext p) := t]> toks).
Proof using Type.
  clear Hlen. intros [H1 H2 H3 H4 H5] Hlt Ht. constructor; cbn [j_pos toknext toksuper]; [done|lia|done|by rewrite length_insert|].
  replace (Z.to_nat (toknext p + 1)) with (S (Z.to_nat (toknext p))) by lia.
  rewrite (take_S_r _ _ t) by (apply list_lookup_insert_eq; lia). rewrite take_insert_ge by lia. apply Forall_app. split; [done|]. by constructor.
Qed.

Lemma close_token_steps pos ty start p toks : fine p toks → pos ≤ j_pos p → steps pos (close_token num ty start p toks).
Proof using Type.
  clear Hlen. intros Hf Hp. unfold close_token, alloc_token. pose proof Hf as [H1 H2 H3 H4 H5].
  destruct (Z.leb_spec num (toknext p)); [rewrite bind_ret; by apply steps_error|].
  rewrite store1_Ret, !bind_ret, store1_Ret, bind_ret by (rewrite ?length_insert; lia). rewrite list_insert_insert_eq.
  cbn [j_pos toksuper]. apply steps_ok; [|done]. by apply fine_push.
Qed.

Lemma fine_at_pos p toks pos : fine p toks → 0 ≤ pos → fine (at_pos pos p) toks.
Proof using Type. clear Hlen. intros [H1 H2 H3 H4 H5] Hp. by constructor. Qed.

Lemma hex_loop_returns n p : 0 ≤ j_pos p → ∃ r p', hex_loop n js len p = Ret (r, p') ∧ r ≤ 0 ∧
  toknext p' = toknext p ∧ toksuper p' = toksuper p ∧ j_pos p ≤ j_pos p'.
Proof.
  revert p. induction n as [|n IH]; intros p Hp; cbn [hex_loop]; [by exists JSON_OK, p|].
  cbn [at_pos j_pos]. destruct (Z.leb_spec len (j_pos p + 1)).
  - eexists _, _. split; [done|]. split; [done|]. cbn. lia.
  - destruct (load_input (j_pos p + 1)) as [c ->]; [lia|]. rewrite bind_ret. destruct (is_hex c).
    + destruct (IH (at_pos (j_pos p + 1) p)) as (r & p' & E & Hr & H1 & H2 & H3); [cbn; lia|]. exists r, p'. cbn in *. split; [done|]. split; [done|]. split; [done|]. split; [done|]. lia.
    + eexists _, _. split; [done|]. split; [done|]. cbn. lia.
Qed.

Lemma fine_moved p p' toks : fine p toks → toknext p' = toknext p → toksuper p' = toksuper p → 0 ≤ j_pos p' → fine p' toks.
Proof using Type. clear Hlen. intros [H1 H2 H3 H4 H5] E1 E2 Hp. by constructor; rewrite ?E1, ?E2. Qed.

Lemma string_loop_steps fuel pos start p toks :
  fine p toks → pos ≤ j_pos p → (Z.to_nat (len - j_pos p) < fuel)%nat → steps pos (string_loop js len num fuel start p toks).
Proof.
  revert p. induction fuel as [|fuel IH]; intros p Hf Hp Hfuel; [lia|]. cbn [string_loop]. pose proof (fi_pos _ _ Hf) as H0.
  destruct (Z.ltb_spec (j_pos p) len); [|by apply steps_error].
  destruct (load_input (j_pos p)) as [c ->]; [lia|]. rewrite bind_ret. destruct (c =? 0x5c).
  - cbn [at_pos j_pos toknext toksuper j_error]. destruct (Z.leb_spec len (j_pos p + 1)); [by apply steps_error|].
    destruct (load_input (j_pos p + 1)) as [c' ->]; [lia|]. rewrite bind_ret. destruct (is_escape c').
    + apply IH; [apply (fine_moved p); try done; cbn; lia|cbn; lia|cbn; lia].
    + destruct (c' =? 0x75); [|by apply steps_error].
      destruct (hex_loop_returns 4 (at_pos (j_pos p + 1) p)) as (r & p' & E & Hr & Ha & Hb & Hc); [cbn; lia|]. cbn in Ha, Hb, Hc.
      rewrite E, bind_ret. destruct (Z.ltb_spec r 0); [by apply steps_error|].
      apply IH; [apply (fine_moved p); try done; cbn; lia|cbn; lia|cbn; lia].
  - destruct (c =? 0x22); [by apply close_token_steps|]. apply IH; [apply fine_at_pos; [done|lia]|cbn; lia|cbn; lia].
Qed.

Lemma primitive_loop_returns fuel p : 0 ≤ j_pos p → (Z.to_nat (len - j_pos p) < fuel)%nat →
  ∃ b p', primitive_loop js len fuel p = Ret (b, p') ∧ toknext p' = toknext p ∧ toksuper p' = toksuper p ∧ j_pos p ≤ j_pos p' ∧
    (b = true → j_pos p < len → (∀ c, load1 js (j_pos p) = Ret c → ends_primitive c = false) → j_pos p < j_pos p').
Proof.
  revert p. induction fuel as [|fuel IH]; intros p H0 Hfuel; [lia|]. cbn [primitive_loop].
  destruct (Z.ltb_spec (j_pos p) len); [|exists true, p; split; [done|]; repeat split; lia].
  destruct (load_input (j_pos p)) as [c Hc]; [lia|]. rewrite Hc, bind_ret. destruct (ends_primitive c) eqn:Ec.
  - exists true, p. split; [done|]. repeat split; [lia|]. intros _ _ Hn. specialize (Hn c eq_refl). congruence.
  - destruct (_ || _); [exists false, p; split; [done|]; repeat split; [lia|done]|].
    destruct (IH (at_pos (j_pos p + 1) p)) as (b & p' & E & H1 & H2 & H3 & _); [cbn; lia|cbn; lia|]. cbn in H1, H2, H3.
    exists b, p'. split; [done|]. split; [done|]. split; [done|]. split; [lia|]. lia.
Qed.

Lemma primitive_not_end c ty : primitive_type c = Some ty → ends_primitive c = false.
Proof using Type.
  clear Hlen. intros H. assert (c = 0x2d ∨ 0x30 ≤ c ≤ 0x39 ∨ 0x61 ≤ c < 0x7b) as Hc.
  { unfold primitive_type in H. zcases_in H; simpl in H; try discriminate H; lia. }
  unfold ends_primitive. repeat (apply orb_false_intro); apply Z.eqb_neq; lia.
Qed.

Lemma parse_primitive_steps p toks : fine p toks → j_pos p < len → steps (j_pos p) (parse_primitive js len num p toks).
Proof.
  intros Hf Hlt. pose proof (fi_pos _ _ Hf) as H0. unfold parse_primitive. destruct (load_input (j_pos p)) as [c Hc]; [lia|].
  rewrite Hc, bind_ret. destruct (primitive_type c) as [ty|] eqn:Ety; [|by apply steps_error].
  destruct (primitive_loop_returns (loop_fuel len p) p H0) as (b & p' & -> & H1 & H2 & H3 & H4); [unfold loop_fuel; lia|].
  rewrite bind_ret. destruct b; cbn [negb]; [|by apply steps_error]. specialize (H4 eq_refl Hlt).
  assert (j_pos p < j_pos p') as Hadv.
  { apply H4. intros c' Hc'. rewrite Hc in Hc'. injection Hc' as <-. by eapply primitive_not_end. }
  assert (fine p' toks) as Hf' by (apply (fine_moved p); done || lia).
  destruct (close_token_steps (j_pos p + 1) ty (j_pos p) p' toks Hf') as (r & p2 & t2 & -> & Hr & Hok); [lia|].
  rewrite bind_ret. destruct (Z.ltb_spec r 0); [by apply steps_error|]. destruct Hok as [Hf2 Hp2]; [lia|].
  apply steps_ok; [apply fine_at_pos; [done|lia]|cbn; lia].
Qed.

Lemma count_child_fine p toks : fine p toks → ∃ toks', count_child p toks = Ret toks' ∧ fine p toks'.
Proof using Type.
  clear Hlen. intros Hf. pose proof Hf as [H1 H2 H3 H4 H5]. unfold count_child. destruct (Z.leb_spec 0 (toksuper p)); [|by exists toks].
  destruct (lookup_lt_is_Some_2 toks (Z.to_nat (toksuper p))) as [t Ht]; [lia|].
  rewrite (load1_Ret _ _ t), bind_ret, store1_Ret by (done || lia). eexists. split; [done|]. constructor; try done; [by rewrite length_insert|].
  destruct (decide (Z.to_nat (toksuper p) < Z.to_nat (toknext p))%nat) as [Hlt|Hge].
  - rewrite take_insert_lt by done. apply Forall_insert; [done|]. cbn [with_size t_parent].
    assert (take (Z.to_nat (toknext p)) toks !! Z.to_nat (toksuper p) = Some t) as Ht' by (by rewrite lookup_take_lt).
    by apply (Forall_lookup_1 _ _ _ _ H5 Ht').
  - by rewrite take_insert_ge by lia.
Qed.

Lemma find_open_returns ok n toks : (n ≤ length toks)%nat →
  ∃ o, find_open ok n toks = Ret o ∧ (∀ i, o = Some i → 0 ≤ i < Z.of_nat n).
Proof using Type.
  clear Hlen. induction n as [|n IH]; intros Hn; cbn [find_open]; [by exists None|].
  destruct (lookup_lt_is_Some_2 toks n) as [t Ht]; [lia|]. rewrite (load1_Ret _ _ t), bind_ret by (rewrite ?Nat2Z.id; done || lia).
  destruct (_ && _); [eexists; split; [done|]; intros i [= <-]; lia|]. destruct IH as (o & -> & Ho); [lia|]. exists o. split; [done|].
  intros i Hi. specialize (Ho i Hi). lia.
Qed.

Lemma fine_super p toks i : fine p toks → -1 ≤ i < num → fine (with_super i p) toks.
Proof using Type. clear Hlen. intros [H1 H2 H3 H4 H5] Hi. by constructor. Qed.

Lemma open_bracket_steps p toks ty : fine p toks → steps (j_pos p)
  ('(tok, p', toks) ← alloc_token num p toks;
   match tok with
   | None => Ret (JSON_ERR_NOMEM, p', toks)
   | Some i =>
       toks ← count_child p' toks;
       toks ← store1 toks i (Token ty (j_pos p') (-1) 0 (toksuper p'));
       Ret (JSON_OK, with_super (toknext p' - 1) p', toks)
   end).
Proof using Type.
  clear Hlen. intros Hf. pose proof Hf as [H1 H2 H3 H4 H5]. unfold alloc_token.
  destruct (Z.leb_spec num (toknext p)); [rewrite bind_ret; by apply steps_error|]. rewrite store1_Ret, !bind_ret by lia. cbn [toksuper toknext j_pos].
  assert (fine (JParser (j_pos p) (toknext p + 1) (toksuper p) (j_error p)) (<[Z.to_nat (toknext p) := fresh_token]> toks)) as Hf1.
  { apply fine_push; [done|lia|]. cbn. lia. }
  destruct (count_child_fine _ _ Hf1) as (toks' & -> & [K1 K2 K3 K4 K5]). cbn [toknext] in *. rewrite bind_ret, store1_Ret, bind_ret by lia.
  apply steps_ok; [|done]. constructor; cbn [with_super j_pos toknext toksuper j_error]; [done|lia|lia|by rewrite length_insert|].
  rewrite take_insert_lt by lia. apply Forall_insert; [done|]. cbn. lia.
Qed.

Lemma close_bracket_steps p toks ok : fine p toks → steps (j_pos p)
  (o ← find_open ok (Z.to_nat (toknext p)) toks;
   match o with
   | None => Ret (JSON_ERR_INVALID, p, toks)
   | Some i =>
       t ← load1 toks i;
       toks ← store1 toks i (with_end (j_pos p + 1) t);
       Ret (JSON_OK, with_super (t_parent t) p, toks)
   end).
Proof using Type.
  clear Hlen. intros Hf. pose proof Hf as [H1 H2 H3 H4 H5]. destruct (find_open_returns ok (Z.to_nat (toknext p)) toks) as (o & -> & Ho); [lia|].
  rewrite bind_ret. destruct o as [i|]; [|by apply steps_error]. specialize (Ho i eq_refl).
  destruct (lookup_lt_is_Some_2 toks (Z.to_nat i)) as [t Ht]; [lia|]. rewrite (load1_Ret _ _ t), bind_ret, store1_Ret, bind_ret by (done || lia).
  assert (take (Z.to_nat (toknext p)) toks !! Z.to_nat i = Some t) as Ht' by (rewrite lookup_take_lt; [done|lia]).
  pose proof (Forall_lookup_1 _ _ _ _ H5 Ht') as Hpar. cbn in Hpar. apply steps_ok; [|done].
  constructor; cbn [with_super j_pos toknext toksuper j_error]; [done|done|done|by rewrite length_insert|].
  rewrite take_insert_lt by lia. by apply Forall_insert.
Qed.

Lemma counted_steps pos m :
  steps pos m → steps pos ('(r, p, toks) ← m; if r <? 0 then Ret (r, p, toks) else toks ← count_child p toks; Ret (JSON_OK, p, toks)).
Proof using Type.
  clear Hlen. intros (r & p & toks & -> & Hr & Hok). rewrite bind_ret. destruct (Z.ltb_spec r 0); [by apply steps_error|].
  destruct Hok as [Hf Hp]; [lia|]. destruct (count_child_fine _ _ Hf) as (toks' & -> & Hf'). rewrite bind_ret. by apply steps_ok.
Qed.

Lemma parse_char_steps p toks : fine p toks → j_pos p < len → steps (j_pos p) (parse_char js len num p toks).
Proof.
  intros Hf Hlt. pose proof (fi_pos _ _ Hf) as H0. unfold parse_char. destruct (load_input (j_pos p)) as [c ->]; [lia|]. rewrite bind_ret.
  destruct (_ || _); [by apply open_bracket_steps|]. destruct (_ || _); [by apply close_bracket_steps|].
  destruct (c =? 0x22).
  { apply counted_steps. unfold parse_string. apply string_loop_steps; [apply fine_at_pos; [done|lia]|cbn; lia|]. unfold loop_fuel. cbn. lia. }
  destruct (_ || _); [by apply steps_ok|].
  destruct (c =? 0x3a). { apply steps_ok; [|done]. apply fine_super; [done|]. destruct Hf. lia. }
  destruct (c =? 0x2c); [|by apply counted_steps, parse_primitive_steps].
  destruct (find_open_returns is_container (Z.to_nat (toknext p)) toks) as (o & -> & Ho); [destruct Hf; lia|]. rewrite bind_ret.
  destruct o as [i|]; [|by apply steps_ok]. apply steps_ok; [|done]. apply fine_super; [done|]. specialize (Ho i eq_refl). destruct Hf. lia.
Qed.

Lemma parse_loop_steps fuel p toks : fine p toks → (Z.to_nat (len - j_pos p) < fuel)%nat → steps (j_pos p) (parse_loop js len num fuel p toks).
Proof.
  revert p toks. induction fuel as [|fuel IH]; intros p toks Hf Hfuel; [lia|]. cbn [parse_loop].
  destruct (Z.ltb_spec (j_pos p) len); [|by apply steps_ok].
  destruct (parse_char_steps p toks Hf) as (r & p' & toks' & -> & Hr & Hok); [done|]. rewrite bind_ret.
  destruct (Z.ltb_spec r 0); [by apply steps_error|]. destruct Hok as [Hf' Hp]; [lia|]. pose proof (fi_pos _ _ Hf).
  destruct (IH (at_pos (j_pos p' + 1) p') toks') as (r2 & p2 & t2 & -> & Hr2 & Hok2); [apply fine_at_pos; [done|lia]|cbn; lia|].
  exists r2, p2, t2. split; [done|]. split; [done|]. intros E. destruct (Hok2 E) as [? Hp2]. cbn in Hp2. split; [done|lia].
Qed.

Lemma unclosed_returns n i toks : 0 ≤ i → i + Z.of_nat n ≤ Z.of_nat (length toks) → ∃ b, unclosed n i toks = Ret b.
Proof using Type.
  clear Hlen. revert i. induction n as [|n IH]; intros i Hi Hn; cbn [unclosed]; [by eexists|].
  destruct (lookup_lt_is_Some_2 toks (Z.to_nat i)) as [t Ht]; [lia|]. rewrite (load1_Ret _ _ t), bind_ret by (done || lia).
  destruct (_ && _); [by eexists|]. apply IH; lia.
Qed.
End safety.

(** C40: The tokenizer returns on every input: whatever the bytes are, [json_parse]
    comes to an end, reads only the input and writes only the given tokens, and its
    result is an error code or a number of tokens that is at most [num]. *)
Theorem json_parse_total js len num toks :
  len ≤ Z.of_nat (length js) → num ≤ Z.of_nat (length toks) →
  ∃ r p toks', json_parse js len num json_init toks = Ret (r, p, toks') ∧ r ≤ Z.max num 0.
Proof.
  intros Hlen Hnum. unfold json_parse. destruct (Z.leb_spec num 0); [eexists _, _, _; split; [done|]; unfold JSON_ERR_NOMEM; lia|].
  destruct (parse_loop_steps js len num Hlen (loop_fuel len json_init) json_init toks) as (r & p & toks' & -> & Hr & Hok).
  { constructor; cbn; (done || lia || constructor). }
  { unfold loop_fuel. cbn. lia. }
  rewrite bind_ret. destruct (Z.ltb_spec r 0); [eexists _, _, _; split; [done|lia]|]. destruct Hok as [[F1 F2 F3 F4 F5] _]; [lia|].
  destruct (unclosed_returns (Z.to_nat (toknext p)) 0 toks') as [b ->]; [done|lia|]. rewrite bind_ret. eexists _, _, _. split; [done|].
  destruct b; [unfold JSON_ERR_PARTIAL|]; lia.
Qed.

Lemma json_parse_total_witness :
  ∃ r p toks', json_parse (chars "{[}]") 4 3 json_init (replicate 3 fresh_token) = Ret (r, p, toks') ∧ r ≤ Z.max 3 0.
Proof. apply json_parse_total; by vm_compute. Defined.

(** Brackets of different kinds match each other: the closing bracket ends the last
    open token of its own kind. *)
Example json_brackets_cross :
  match json_parse (chars "{[}]") 4 3 json_init (replicate 3 fresh_token) with Ret (r, _, _) => r | _ => JSON_ERR_INVALID end = 2.
Proof. reflexivity. Qed.

(** A key without a value: the index that [json_find_key] returns is not the index of
    a token. *)
Example json_key_alone :
  (let js := [0x7b; 0x22; 0x61; 0x22; 0x7d] in
   '(n, _, toks) ← json_parse js 5 3 json_init (replicate 3 fresh_token);
   i ← json_find_key js toks n 0 [0x61; 0]; Ret (n, i)) = Ret (2, 2).
Proof. reflexivity. Qed.
