(* ===== verification/Stdio.v ===== *)
(** * Formatted output: model of src/usr/lib/libc/stdio.c

    [vsnprintf] and its helpers.  A format and a string argument are arrays that hold
    their NUL; reading behind the array, an argument that is missing or of another
    type, and a write outside the buffer are faults.  The other functions of the
    file write to a descriptor. *)

From Stdlib Require Import String.
From S2P Require Import Prelude Ring KString.

Inductive arg : Type :=
  | ArgInt (v : Z)
  | ArgStr (s : option (list Z)).

(** The buffer, or [None] for NULL, and the position. *)
Record out := Out { o_buf : option (list Z); o_pos : Z }.

Section output.
Context (size : Z).

Definition buf_putc (c : Z) (o : out) : outcome out :=
  b ← match o_buf o with
      | Some b => if u32 (o_pos o) <? u32 (size - 1) then b ← store1 b (o_pos o) c; Ret (Some b) else Ret (Some b)
      | None => Ret None
      end;
  Ret (Out b (i32 (o_pos o + 1))).

Fixpoint buf_puts (s : list Z) (o : out) : outcome out :=
  match s with
  | [] => Fault
  | c :: s => if c =? 0 then Ret o else o ← buf_putc c o; buf_puts s o
  end.

Definition buf_putcs (s : list Z) (o : out) : outcome out := foldM (fun o c => buf_putc c o) s o.

(** The array [tmp] has twelve elements, ten are enough. *)
Definition buf_putud (val : Z) (o : out) : outcome out :=
  if val =? 0 then buf_putc 0x30 o else buf_putcs (reverse (digit_loop 12 val)) o.

Definition nibble (val shift : Z) : Z :=
  let digit := Z.land (Z.shiftr val shift) 0x0f in
  if digit <? 10 then 0x30 + digit else 0x61 + digit - 10.

Definition nibbles (val : Z) : list Z := map (nibble val) [28; 24; 20; 16; 12; 8; 4; 0].

(** How many zeros are in front, the last digit left out. *)
Fixpoint leading (n : nat) (tmp : list Z) : Z :=
  match n, tmp with
  | S n, c :: tmp => if c =? 0x30 then 1 + leading n tmp else 0
  | _, _ => 0
  end.

Definition buf_puthex_w (val width : Z) (zero_pad : bool) (o : out) : outcome out :=
  let tmp := nibbles val in
  let start :=
    if negb zero_pad && (width <=? 0) then leading 7 tmp
    else if 0 <? width then Z.max 0 (8 - width) else 0 in
  let len := 8 - start in
  o ← buf_putcs (replicate (Z.to_nat (width - len)) (if zero_pad then 0x30 else 0x20)) o;
  buf_putcs (drop (Z.to_nat start) tmp) o.

Definition buf_puthex (val : Z) (o : out) : outcome out := buf_puthex_w val 0 false o.

(** At most [precision] characters. *)
Fixpoint put_some (precision : nat) (s : list Z) (o : out) : outcome out :=
  match precision with
  | O => Ret o
  | S precision =>
      match s with
      | [] => Fault
      | c :: s => if c =? 0 then Ret o else o ← buf_putc c o; put_some precision s o
      end
  end.

Definition next_int (args : list arg) : outcome (Z * list arg) :=
  match args with ArgInt v :: args => Ret (v, args) | _ => Fault end.

(** One conversion: [None] for the end of the format. *)
Definition convert (c width precision : Z) (zero_pad : bool) (args : list arg) (o : out) : outcome (option (list arg * out)) :=
  if c =? 0x64 then
    '(val, args) ← next_int args;
    if val <? 0 then
      o ← buf_putc 0x2d o; o ← buf_putud (u32 (i32 (- val))) o; Ret (Some (args, o))
    else o ← buf_putud (u32 val) o; Ret (Some (args, o))
  else if c =? 0x75 then
    '(val, args) ← next_int args; o ← buf_putud (u32 val) o; Ret (Some (args, o))
  else if c =? 0x78 then
    '(val, args) ← next_int args; o ← buf_puthex_w (u32 val) width zero_pad o; Ret (Some (args, o))
  else if c =? 0x73 then
    match args with
    | ArgStr s :: args =>
        o ← match s with
            | None => Ret o
            | Some s => if 0 <=? precision then put_some (Z.to_nat precision) s o else buf_puts s o
            end;
        Ret (Some (args, o))
    | _ => Fault
    end
  else if c =? 0x63 then
    '(val, args) ← next_int args; o ← buf_putc (val mod 256) o; Ret (Some (args, o))
  else if c =? 0x25 then o ← buf_putc 0x25 o; Ret (Some (args, o))
  else if c =? 0 then Ret None
  else o ← buf_putc 0x25 o; o ← buf_putc c o; Ret (Some (args, o)).

Definition is_digit (c : Z) : bool := (0x30 <=? c) && (c <=? 0x39).

(** A decimal number in the format, and the format behind it. *)
Fixpoint read_number (fmt : list Z) (acc : Z) : outcome (Z * list Z) :=
  match fmt with
  | [] => Fault
  | c :: rest => if is_digit c then read_number rest (i32 (acc * 10 + (c - 0x30))) else Ret (acc, fmt)
  end.

(** If the next character is [c] it is skipped. *)
Definition accept (c : Z) (fmt : list Z) : outcome (bool * list Z) :=
  match fmt with
  | [] => Fault
  | x :: rest => Ret (if x =? c then (true, rest) else (false, fmt))
  end.

Fixpoint format_loop (fuel : nat) (fmt : list Z) (args : list arg) (o : out) : outcome out :=
  match fuel, fmt with
  | O, _ => Hang
  | S _, [] => Fault
  | S fuel, c :: fmt =>
      if c =? 0 then Ret o
      else if c =? 0x25 then
        '(zero_pad, fmt) ← accept 0x30 fmt;
        '(width, fmt) ← read_number fmt 0;
        '(dot, fmt) ← accept 0x2e fmt;
        '(precision, fmt) ← (if dot : bool then read_number fmt 0 else Ret (-1, fmt));
        match fmt with
        | [] => Fault
        | c :: fmt =>
            r ← convert c width precision zero_pad args o;
            match r with
            | None => Ret o
            | Some (args, o) => format_loop fuel fmt args o
            end
        end
      else o ← buf_putc c o; format_loop fuel fmt args o
  end.

Definition vsnprintf (buf : option (list Z)) (fmt : list Z) (args : list arg) : outcome (Z * option (list Z)) :=
  if size =? 0 then Ret (0, buf)
  else
    o ← format_loop (S (length fmt)) fmt args (Out buf 0);
    b ← match o_buf o with
        | Some b => b ← (if u32 (o_pos o) <? size then store1 b (o_pos o) 0 else store1 b (size - 1) 0); Ret (Some b)
        | None => Ret None
        end;
    Ret (o_pos o, b).

Definition snprintf : option (list Z) → list Z → list arg → outcome (Z * option (list Z)) := vsnprintf.
End output.

(** ** What a format stands for *)

Inductive directive : Type :=
  | Lit (c : Z)
  | DecS
  | DecU
  | Hex (width : Z) (zero : bool)
  | Str
  | StrN (n : Z)
  | Chr
  | Percent.

Definition decimal (n : Z) : list Z := reverse (digit_loop 12 n).

(** How a directive is written. *)
Definition fmt_of (d : directive) : list Z :=
  match d with
  | Lit c => [c]
  | DecS => chars "%d"
  | DecU => chars "%u"
  | Hex width zero => [0x25] ++ (if zero then [0x30] else []) ++ decimal width ++ [0x78]
  | Str => chars "%s"
  | StrN n => [0x25; 0x2e] ++ decimal n ++ [0x73]
  | Chr => chars "%c"
  | Percent => chars "%%"
  end.

Definition number_text (n : Z) : list Z := if n =? 0 then [0x30] else decimal n.

(** The last [n] hexadecimal digits. *)
Fixpoint hex_places (n : nat) (v : Z) : list Z :=
  match n with
  | O => []
  | S n => hex_places n (v / 16) ++ [if v mod 16 <? 10 then 0x30 + v mod 16 else 0x61 + (v mod 16 - 10)]
  end.

(** The number of hexadecimal digits of a value, without leading zeros. *)
Definition hex_count (v : Z) : Z := Z.log2 v / 4 + 1.

(** All digits of the value, and in front of them zeros under the flag, or else blanks, up
    to the width, which is a minimum. *)
Definition hex_text (v width : Z) (zero : bool) : list Z :=
  replicate (Z.to_nat (width - hex_count v)) (if zero then 0x30 else 0x20) ++ hex_places (Z.to_nat (hex_count v)) v.

(** The characters before the NUL, if there is one. *)
Fixpoint before_nul (s : list Z) : option (list Z) :=
  match s with [] => None | c :: s => if c =? 0 then Some [] else cons c <$> before_nul s end.

Definition is_int (v : Z) : bool := (- 2 ^ 31 <=? v) && (v <? 2 ^ 31).
Definition is_uint (v : Z) : bool := (0 <=? v) && (v <? 2 ^ 32).

(** The text of a directive and the arguments behind it; [None] if the first argument
    does not have the type that is read. *)
Definition text_of (d : directive) (args : list arg) : option (list Z * list arg) :=
  match d, args with
  | Lit c, _ => Some ([c], args)
  | Percent, _ => Some ([0x25], args)
  | DecS, ArgInt v :: args => if is_int v then Some ((if v <? 0 then [0x2d] else []) ++ number_text (Z.abs v), args) else None
  | DecU, ArgInt v :: args => if is_uint v then Some (number_text v, args) else None
  | Hex width zero, ArgInt v :: args => if is_uint v then Some (hex_text v width zero, args) else None
  | Chr, ArgInt v :: args => Some ([v mod 256], args)
  | (Str | StrN _), ArgStr None :: args => Some ([], args)
  | Str, ArgStr (Some s) :: args => t ← before_nul s; Some (t, args)
  | StrN n, ArgStr (Some s) :: args => t ← before_nul s; Some (take (Z.to_nat n) t, args)
  | _, _ => None
  end.

Fixpoint expand (ds : list directive) (args : list arg) : option (list Z) :=
  match ds with
  | [] => Some []
  | d :: ds => '(s, args) ← text_of d args; s' ← expand ds args; Some (s ++ s')
  end.

(** The conversions x that the code gets right: without width and flag, or with the flag and
    a width that the value does not exceed. *)
Definition hex_fits (d : directive) (args : list arg) : bool :=
  match d, args with
  | Hex width zero, ArgInt v :: _ => if zero then (0 <? width) && (hex_count v <=? width) else width =? 0
  | _, _ => true
  end.

Fixpoint all_fit (ds : list directive) (args : list arg) : bool :=
  match ds with
  | [] => true
  | d :: ds => hex_fits d args && match text_of d args with Some (_, args) => all_fit ds args | None => true end
  end.

(** Literals are characters, and widths fit an [int]. *)
Definition directive_ok (d : directive) : Prop :=
  match d with
  | Lit c => c ≠ 0 ∧ c ≠ 0x25
  | Hex width _ => 0 ≤ width < 2 ^ 31
  | StrN n => 0 ≤ n < 2 ^ 31
  | _ => True
  end.

(** ** Hexadecimal digits *)

Definition hex_char (d : Z) : Z := if d <? 10 then 0x30 + d else 0x61 + (d - 10).

Lemma hex_places_snoc n v : hex_places (S n) v = hex_places n (v / 16) ++ [hex_char (v mod 16)].
Proof. done. Qed.

Lemma hex_places_length n v : length (hex_places n v) = n.
Proof. revert v. induction n as [|n IH]; intros v; [done|]. rewrite hex_places_snoc, length_app, IH. simpl. lia. Qed.

Lemma hex_places_drop k n v : drop k (hex_places (k + n) v) = hex_places n v.
Proof.
  revert v. induction n as [|n IH]; intros v.
  - rewrite Nat.add_0_r. apply drop_ge. by rewrite hex_places_length.
  - rewrite Nat.add_succ_r, !hex_places_snoc, drop_app_le by (rewrite hex_places_length; lia). by rewrite IH.
Qed.

Lemma drop_places k n v : (k + n = 8)%nat → drop k (hex_places 8 v) = hex_places n v.
Proof. intros <-. apply hex_places_drop. Qed.

Lemma hex_places_cons n v : hex_places (S n) v = hex_char (v / 16 ^ Z.of_nat n mod 16) :: hex_places n v.
Proof.
  revert v. induction n as [|n IH]; intros v; [cbn; by rewrite Z.div_1_r|]. rewrite hex_places_snoc, IH. cbn [app].
  rewrite (hex_places_snoc n v). do 3 f_equal. rewrite Z.div_div by lia. f_equal. rewrite Nat2Z.inj_succ, Z.pow_succ_r by lia. done.
Qed.

Lemma nibble_value v i k : k = 4 * i → 0 ≤ i → nibble v k = hex_char (v / 16 ^ i mod 16).
Proof.
  intros -> Hi. unfold nibble, hex_char. rewrite Z.shiftr_div_pow2 by lia. replace (2 ^ (4 * i)) with (16 ^ i) by (by rewrite Z.pow_mul_r by lia).
  change 0x0f with (Z.ones 4). rewrite Z.land_ones by lia. change (2 ^ 4) with 16. destruct (_ <? 10); [done|lia].
Qed.

Lemma nibbles_places v : nibbles v = hex_places 8 v.
Proof.
  unfold nibbles. cbn [map]. rewrite !hex_places_cons. cbn [hex_places].
  repeat (f_equal; [by apply nibble_value|]). f_equal. by apply nibble_value.
Qed.

Lemma hex_char_zero d : 0 ≤ d < 16 → (hex_char d =? 0x30) = (d =? 0).
Proof. intros Hd. unfold hex_char. zcases; done || lia. Qed.

Lemma leading_places n v : 0 ≤ v < 16 ^ (Z.of_nat n + 1) → leading n (hex_places (S n) v) = Z.of_nat n - Z.log2 v / 4.
Proof.
  intros Hv. induction n as [|n IH]; intros; [|].
  - assert (Z.log2 v / 4 = 0) as ->; [|done]. apply Z.div_small. split; [apply Z.log2_nonneg|].
    destruct (decide (v = 0)) as [->|]; [done|]. apply Z.log2_lt_pow2; [lia|]. change (16 ^ (Z.of_nat 0 + 1)) with 16 in Hv. lia.
  - rewrite hex_places_cons. cbn [leading]. pose proof (Z.mod_pos_bound (v / 16 ^ Z.of_nat (S n)) 16). rewrite hex_char_zero by lia.
    replace (Z.of_nat (S n) + 1) with (Z.succ (Z.of_nat (S n))) in Hv by lia. rewrite Z.pow_succ_r in Hv by lia.
    assert (0 < 16 ^ Z.of_nat (S n)) as Hp by (apply Z.pow_pos_nonneg; lia).
    rewrite (Z.mod_small (v / _)) by (split; [apply Z.div_pos; lia|apply Z.div_lt_upper_bound; lia]).
    destruct (Z.eqb_spec (v / 16 ^ Z.of_nat (S n)) 0) as [E|E].
    + apply Z.div_small_iff in E; [|lia]. replace (Z.of_nat n + 1) with (Z.of_nat (S n)) in IH by lia. rewrite IH by lia. lia.
    + assert (16 ^ Z.of_nat (S n) ≤ v) as Hge.
      { destruct (Z.le_gt_cases (16 ^ Z.of_nat (S n)) v); [done|]. rewrite Z.div_small in E by lia. done. }
      change 16 with (2 ^ 4) in Hge, Hv. rewrite <-Z.pow_mul_r in Hge, Hv by lia. rewrite <-Z.pow_add_r in Hv by lia.
      assert (Z.log2 v / 4 = Z.of_nat (S n)) as ->; [|lia].
      assert (4 * Z.of_nat (S n) ≤ Z.log2 v) by (apply Z.log2_le_pow2; lia). assert (Z.log2 v < 4 + 4 * Z.of_nat (S n)) by (apply Z.log2_lt_pow2; lia).
      symmetry. apply (Z.div_unique _ _ _ (Z.log2 v - 4 * Z.of_nat (S n))); lia.
Qed.

(** What [buf_puthex_w] writes: as many digits as the width says, with no width as many as the
    value has, or eight under the flag. *)
Definition hex_written (v width : Z) (zero : bool) : list Z :=
  if width =? 0 then hex_places (if zero then 8 else Z.to_nat (hex_count v)) v
  else replicate (Z.to_nat (width - 8)) (if zero then 0x30 else 0x20) ++ hex_places (Z.to_nat (Z.min width 8)) v.

Lemma hex_count_range v : 0 ≤ v < 2 ^ 32 → 1 ≤ hex_count v ≤ 8 ∧ v < 16 ^ hex_count v.
Proof.
  intros Hv. unfold hex_count. pose proof (Z.log2_nonneg v).
  assert (Z.log2 v < 32) by (destruct (decide (v = 0)) as [->|]; [done|apply Z.log2_lt_pow2; lia]).
  assert (0 ≤ Z.log2 v / 4 < 8) by (split; [apply Z.div_pos; lia|apply Z.div_lt_upper_bound; lia]).
  split; [lia|]. change 16 with (2 ^ 4). rewrite <-Z.pow_mul_r by lia.
  destruct (decide (v = 0)) as [->|]; [apply Z.pow_pos_nonneg; lia|]. apply Z.log2_lt_pow2; [lia|].
  pose proof (Z.div_mod (Z.log2 v) 4). pose proof (Z.mod_pos_bound (Z.log2 v) 4). lia.
Qed.

(** Places in front of the digits are zeros. *)
Lemma hex_places_zeros n k v : 0 ≤ v < 16 ^ Z.of_nat n → hex_places (k + n) v = replicate k 0x30 ++ hex_places n v.
Proof.
  intros Hv. induction k as [|k IH]; [done|]. rewrite Nat.add_succ_l, hex_places_cons, IH. simpl. f_equal.
  rewrite Z.div_small; [done|]. split; [lia|]. apply (Z.lt_le_trans _ (16 ^ Z.of_nat n)); [lia|]. apply Z.pow_le_mono_r; lia.
Qed.

Lemma hex_written_text v width (zero : bool) : 0 ≤ v < 2 ^ 32 → (if zero then (0 <? width) && (hex_count v <=? width) else width =? 0) = true →
  hex_written v width zero = hex_text v width zero.
Proof.
  intros Hv Hf. destruct (hex_count_range v Hv) as [Hc Hp]. unfold hex_written, hex_text. destruct zero.
  - apply andb_true_iff in Hf as [Hw%Z.ltb_lt Hle%Z.leb_le]. destruct (Z.eqb_spec width 0); [lia|].
    replace (Z.to_nat (Z.min width 8)) with ((Z.to_nat (Z.min width 8 - hex_count v)) + Z.to_nat (hex_count v))%nat by lia.
    rewrite hex_places_zeros by (rewrite Z2Nat.id by lia; lia). rewrite app_assoc, <-replicate_add. do 2 f_equal. lia.
  - apply Z.eqb_eq in Hf as ->. cbn [Z.eqb]. replace (Z.to_nat (0 - hex_count v)) with 0%nat by lia. done.
Qed.

(** ** Reading the format *)

Lemma read_digits ds c rest acc :
  Forall (fun d => 0x30 ≤ d ≤ 0x39) ds → is_digit c = false → 0 ≤ acc → digits_value acc ds < 2 ^ 31 →
  read_number (ds ++ c :: rest) acc = Ret (digits_value acc ds, c :: rest).
Proof.
  intros Hds Hc. revert acc. induction Hds as [|d ds Hd Hds IH]; intros acc Ha Hv; cbn [app read_number]; [by rewrite Hc|].
  assert (is_digit d = true) as -> by (unfold is_digit; lia). unfold digits_value in *. cbn [foldl] in *.
  pose proof (digits_value_grows ds (acc * 10 + (d - 0x30)) Hds ltac:(lia)) as Hg. unfold digits_value in Hg.
  rewrite i32_small by lia. apply IH; [lia|done].
Qed.

Lemma read_decimal n c rest : 0 ≤ n < 2 ^ 31 → is_digit c = false → read_number (decimal n ++ c :: rest) 0 = Ret (n, c :: rest).
Proof.
  intros Hn Hc. assert (digits_value 0 (decimal n) = n) as Hv by (apply digit_loop_value; lia).
  rewrite read_digits; rewrite ?Hv; try done; [|lia]. apply Forall_reverse, digit_loop_digits.
Qed.

Lemma last_digit f m d : 0 ≤ m < 10 ^ Z.of_nat f → last (digit_loop f m) = Some d → d ≠ 0x30.
Proof.
  revert m. induction f as [|f IH]; intros m Hm Hl; cbn [digit_loop] in Hl; [done|]. destruct (Z.ltb_spec 0 m); [|done].
  rewrite Nat2Z.inj_succ, Z.pow_succ_r in Hm by lia. pose proof (Z.div_mod m 10). pose proof (Z.mod_pos_bound m 10).
  rewrite last_cons in Hl. destruct (last (digit_loop f (m / 10))) as [d'|] eqn:E.
  - injection Hl as <-. apply (IH (m / 10)); [|done]. split; [apply Z.div_pos; lia|apply Z.div_lt_upper_bound; lia].
  - injection Hl as <-. apply last_None in E. assert (m / 10 = 0); [|lia]. destruct f as [|f]; [simpl in Hm; apply Z.div_small; lia|].
    cbn [digit_loop] in E. destruct (Z.ltb_spec 0 (m / 10)); [done|]. assert (0 ≤ m / 10) by (apply Z.div_pos; lia). lia.
Qed.

(** A width does not begin with the flag. *)
Lemma accept_decimal n c rest : 0 ≤ n < 2 ^ 31 → c ≠ 0x30 → accept 0x30 (decimal n ++ c :: rest) = Ret (false, decimal n ++ c :: rest).
Proof.
  intros Hn Hc. unfold decimal. destruct (reverse (digit_loop 12 n)) as [|d ds] eqn:E; cbn [app accept].
  - destruct (Z.eqb_spec c 0x30); done.
  - assert (d ≠ 0x30) as Hd.
    { apply (last_digit 12 n); [lia|]. rewrite <-(reverse_involutive (digit_loop 12 n)), E, reverse_cons. by rewrite last_snoc. }
    destruct (Z.eqb_spec d 0x30); done.
Qed.

(** The letter, width, precision and flag of a conversion. *)
Definition conversion (d : directive) : option (Z * Z * Z * bool) :=
  match d with
  | Lit _ => None
  | DecS => Some (0x64, 0, -1, false)
  | DecU => Some (0x75, 0, -1, false)
  | Hex w z => Some (0x78, w, -1, z)
  | Str => Some (0x73, 0, -1, false)
  | StrN n => Some (0x73, 0, n, false)
  | Chr => Some (0x63, 0, -1, false)
  | Percent => Some (0x25, 0, -1, false)
  end.

Lemma format_conversion size d c w p z fuel rest args o :
  conversion d = Some (c, w, p, z) → directive_ok d →
  format_loop size (S fuel) (fmt_of d ++ rest) args o =
    (r ← convert size c w p z args o; match r with None => Ret o | Some (args, o) => format_loop size fuel rest args o end).
Proof.
  intros Hc Hd. destruct d as [l| | |w' z'| |n| |]; cbn [conversion directive_ok] in *; try done; injection Hc as <- <- <- <-; try reflexivity.
  - cbn [fmt_of]. rewrite <-!app_assoc. cbn [app format_loop Z.eqb Pos.eqb]. destruct z'; cbn [app accept Z.eqb Pos.eqb].
    + rewrite bind_ret, read_decimal, bind_ret by done. reflexivity.
    + rewrite accept_decimal, bind_ret, read_decimal, bind_ret by done. reflexivity.
  - cbn [fmt_of app]. rewrite <-!app_assoc. cbn [app format_loop Z.eqb Pos.eqb accept]. rewrite bind_ret. cbn [read_number].
    change (is_digit 0x2e) with false. cbv iota. rewrite bind_ret. cbn [accept Z.eqb Pos.eqb]. rewrite bind_ret.
    rewrite read_decimal, bind_ret by done. reflexivity.
Qed.

Lemma fmt_length ds : (length ds ≤ length (concat (fmt_of <$> ds)))%nat.
Proof.
  induction ds as [|d ds IH]; [done|]. rewrite fmap_cons. cbn [concat length]. rewrite length_app.
  assert (1 ≤ length (fmt_of d))%nat by (destruct d; simpl; lia). lia.
Qed.

Lemma u32_neg v : - 2 ^ 31 ≤ v < 0 → u32 (i32 (- v)) = Z.abs v.
Proof.
  intros Hv. destruct (decide (v = - 2 ^ 31)) as [->|]; [done|]. rewrite i32_small by lia. rewrite u32_small by (unfold is_u32, U32; lia). lia.
Qed.

(** ** Writing into the buffer *)

Section writing.
Context (size : Z) (buf : list Z) (Hsize : 0 < size < 2 ^ 31) (Hbuf : size ≤ Z.of_nat (length buf)).
#[local] Set Default Proof Using "Hsize Hbuf".

(** After the text [t] the buffer holds as much of it as fits. *)
Definition shows (t : list Z) (o : out) : Prop :=
  o_pos o = Z.of_nat (length t) ∧ ∃ b, o_buf o = Some b ∧ store_bytes buf 0 (take (Z.to_nat (size - 1)) t) = Ret b.

Definition prints (m : out → outcome out) (s : list Z) : Prop :=
  ∀ t o, shows t o → Z.of_nat (length t + length s) < 2 ^ 31 → ∃ o', m o = Ret o' ∧ shows (t ++ s) o'.

Lemma prints_ret : prints Ret [].
Proof using Type. clear Hsize Hbuf. intros t o Ho _. exists o. by rewrite app_nil_r. Qed.

Lemma prints_bind f g s1 s2 : prints f s1 → prints g s2 → prints (fun o => o ← f o; g o) (s1 ++ s2).
Proof using Type.
  clear Hsize Hbuf. intros Hf Hg t o Ho Hl. rewrite length_app in Hl. destruct (Hf t o Ho) as (o1 & -> & H1); [lia|].
  destruct (Hg _ o1 H1) as (o2 & E & H2); [rewrite length_app; lia|]. exists o2. rewrite bind_ret. by rewrite app_assoc.
Qed.

Lemma prints_putc c : prints (buf_putc size c) [c].
Proof.
  intros t o (Hpos & b & Hb & Hst) Hl. cbn [length] in Hl. unfold buf_putc. rewrite Hb, Hpos.
  rewrite !u32_small by (unfold is_u32, U32; lia). rewrite i32_small by lia. destruct (Z.ltb_spec (Z.of_nat (length t)) (size - 1)).
  - rewrite take_ge in Hst by lia. destruct (store_bytes_length _ _ _ _ Hst) as [Hlb _].
    rewrite store1_Ret, !bind_ret by lia. eexists. split; [done|]. split; [rewrite length_app; simpl; lia|]. eexists. split; [done|].
    rewrite take_ge by (rewrite length_app; simpl; lia). rewrite store_bytes_app, Hst, bind_ret by lia.
    rewrite store_bytes_cons, store1_Ret, bind_ret by lia. by rewrite store_bytes_nil by (rewrite length_insert; lia).
  - rewrite !bind_ret. eexists. split; [done|]. split; [rewrite length_app; simpl; lia|]. exists b. split; [done|].
    by rewrite take_app_le by lia.
Qed.

Lemma prints_putcs s : prints (buf_putcs size s) s.
Proof.
  induction s as [|c s IH]; [apply prints_ret|]. apply (prints_bind (buf_putc size c) (buf_putcs size s) [c] s); [apply prints_putc|exact IH].
Qed.

Lemma prints_puts s t : before_nul s = Some t → prints (buf_puts size s) t.
Proof.
  revert t. induction s as [|c s IH]; intros t Ht; [done|]. cbn [before_nul buf_puts] in *. destruct (c =? 0); [simplify_eq; apply prints_ret|].
  destruct (before_nul s) as [t'|]; [|done]. injection Ht as <-.
  apply (prints_bind (buf_putc size c) (buf_puts size s) [c] t'); [apply prints_putc|by apply IH].
Qed.

Lemma prints_some n s t : before_nul s = Some t → prints (put_some size n s) (take n t).
Proof.
  revert s t. induction n as [|n IH]; intros s t Ht; [apply prints_ret|]. destruct s as [|c s]; [done|]. cbn [before_nul put_some] in *.
  destruct (c =? 0); [simplify_eq; apply prints_ret|]. destruct (before_nul s) as [t'|] eqn:E; [|done]. injection Ht as <-.
  rewrite firstn_cons. apply (prints_bind (buf_putc size c) (put_some size n s) [c] (take n t')); [apply prints_putc|by apply IH].
Qed.

Lemma prints_ud n : prints (buf_putud size n) (number_text n).
Proof. unfold buf_putud, number_text, decimal. destruct (n =? 0); [apply prints_putc|apply prints_putcs]. Qed.

Lemma prints_hex v width zero : 0 ≤ v < 2 ^ 32 → 0 ≤ width → prints (buf_puthex_w size v width zero) (hex_written v width zero).
Proof.
  intros Hv Hw. unfold buf_puthex_w, hex_written, hex_count. rewrite nibbles_places. destruct (Z.eqb_spec width 0) as [->|Hne].
  - cbn [Z.leb Z.compare Z.ltb]. rewrite andb_true_r. destruct zero; cbn [negb].
    + apply (prints_bind (buf_putcs size []) _ []); [apply prints_ret|apply prints_putcs].
    + rewrite (leading_places 7 v) by (change (16 ^ (Z.of_nat 7 + 1)) with (2 ^ 32); lia).
      assert (0 ≤ Z.log2 v / 4 < 8) as Hd.
      { pose proof (Z.log2_nonneg v). assert (Z.log2 v < 32) by (destruct (decide (v = 0)) as [->|]; [done|apply Z.log2_lt_pow2; lia]).
        split; [apply Z.div_pos; lia|apply Z.div_lt_upper_bound; lia]. }
      replace (Z.to_nat (0 - (8 - (Z.of_nat 7 - Z.log2 v / 4)))) with 0%nat by lia.
      rewrite (drop_places _ (Z.to_nat (Z.log2 v / 4 + 1))) by lia.
      apply (prints_bind (buf_putcs size []) _ []); [apply prints_ret|apply prints_putcs].
  - destruct (Z.leb_spec width 0); [lia|]. rewrite andb_false_r. destruct (Z.ltb_spec 0 width); [|lia].
    replace (width - (8 - Z.max 0 (8 - width))) with (Z.max 0 (width - 8)) by lia.
    replace (Z.to_nat (Z.max 0 (width - 8))) with (Z.to_nat (width - 8)) by lia.
    rewrite (drop_places _ (Z.to_nat (Z.min width 8))) by lia.
    apply prints_bind; apply prints_putcs.
Qed.

(** A conversion writes the text of its directive. *)
Lemma convert_prints d c w p z args s args' :
  conversion d = Some (c, w, p, z) → directive_ok d → hex_fits d args = true → text_of d args = Some (s, args') →
  ∃ m, prints m s ∧ ∀ o, convert size c w p z args o = (o ← m o; Ret (Some (args', o))).
Proof.
  intros Hc Hd Hf Ht. destruct d as [l| | |w' z'| |n| |]; cbn [text_of directive_ok conversion hex_fits] in *; try done; injection Hc as <- <- <- <-.
  - destruct args as [|[v|] args]; try done. destruct (is_int v) eqn:Hv; [|done]. injection Ht as <- <-. unfold is_int in Hv.
    exists (fun o => o ← buf_putcs size (if v <? 0 then [0x2d] else []) o; buf_putud size (Z.abs v) o).
    split; [apply prints_bind; [by apply prints_putcs|by apply prints_ud]|]. intros o. unfold convert. cbn [Z.eqb Pos.eqb next_int]. rewrite bind_ret.
    destruct (Z.ltb_spec v 0).
    + replace (u32 (i32 (- v))) with (Z.abs v) by (symmetry; apply u32_neg; lia). unfold buf_putcs. cbn [foldM]. by destruct (buf_putc size 0x2d o).
    + rewrite u32_small by (unfold is_u32, U32; lia). by rewrite Z.abs_eq by lia.
  - destruct args as [|[v|] args]; try done. destruct (is_uint v) eqn:Hv; [|done]. injection Ht as <- <-. unfold is_uint in Hv.
    exists (buf_putud size v). split; [by apply prints_ud|]. intros o. unfold convert. cbn [Z.eqb Pos.eqb next_int]. rewrite bind_ret.
    by rewrite u32_small by (unfold is_u32, U32; lia).
  - destruct args as [|[v|] args]; try done. destruct (is_uint v) eqn:Hv; [|done]. injection Ht as <- <-. unfold is_uint in Hv.
    rewrite <-hex_written_text by (done || lia). exists (buf_puthex_w size v w' z'). split; [apply prints_hex; (done || lia)|]. intros o. unfold convert. cbn [Z.eqb Pos.eqb next_int]. rewrite bind_ret.
    by rewrite u32_small by (unfold is_u32, U32; lia).
  - destruct args as [|[v|[str|]] args]; try done.
    + destruct (before_nul str) as [t|] eqn:E; [|done]. injection Ht as <- <-. exists (buf_puts size str). split; [by apply prints_puts|]. done.
    + injection Ht as <- <-. exists Ret. split; [apply prints_ret|]. done.
  - destruct args as [|[v|[str|]] args]; try done.
    + destruct (before_nul str) as [t|] eqn:E; [|done]. injection Ht as <- <-. exists (put_some size (Z.to_nat n) str). split; [by apply prints_some|].
      intros o. unfold convert. cbn [Z.eqb Pos.eqb]. by destruct (Z.leb_spec 0 n); [|lia].
    + injection Ht as <- <-. exists Ret. split; [apply prints_ret|]. done.
  - destruct args as [|[v|] args]; try done. injection Ht as <- <-. exists (buf_putc size (v mod 256)). split; [by apply prints_putc|]. done.
  - injection Ht as <- <-. exists (buf_putc size 0x25). split; [by apply prints_putc|]. done.
Qed.

(** A directive of the format writes its text. *)
Lemma directive_prints d args s args' :
  directive_ok d → hex_fits d args = true → text_of d args = Some (s, args') →
  ∃ m, prints m s ∧ ∀ fuel rest o, format_loop size (S fuel) (fmt_of d ++ rest) args o = (o ← m o; format_loop size fuel rest args' o).
Proof.
  intros Hd Hf Ht. destruct (conversion d) as [[[[c w] p] z]|] eqn:Ec.
  - destruct (convert_prints d c w p z args s args' Ec Hd Hf Ht) as (m & Hm & Em). exists m. split; [done|]. intros fuel rest o.
    rewrite (format_conversion size d c w p z) by done. rewrite Em. by destruct (m o).
  - destruct d as [c| | | | | | |]; try done. injection Ht as <- <-. destruct Hd as [H0 H1]. exists (buf_putc size c).
    split; [by apply prints_putc|]. intros. cbn [fmt_of app format_loop]. destruct (Z.eqb_spec c 0); [done|]. by destruct (Z.eqb_spec c 0x25).
Qed.

Lemma format_prints ds : Forall directive_ok ds → ∀ args s, all_fit ds args = true → expand ds args = Some s →
  ∀ fuel, (length ds < fuel)%nat → prints (format_loop size fuel (concat (fmt_of <$> ds) ++ [0]) args) s.
Proof.
  induction 1 as [|d ds Hd _ IH]; intros args s Hfit Hs [|fuel] Hf; try lia.
  - injection Hs as <-. apply prints_ret.
  - cbn [expand all_fit] in Hs, Hfit. apply andb_true_iff in Hfit as [Hfd Hfit]. destruct (text_of d args) as [[s1 args']|] eqn:Ht; [|done]. cbn in Hs.
    destruct (expand ds args') as [s2|] eqn:E; [|done]. injection Hs as <-.
    destruct (directive_prints d args s1 args' Hd Hfd Ht) as (m & Hm & Em). rewrite fmap_cons. cbn [concat]. rewrite <-app_assoc.
    intros t o Ho Hl. rewrite Em. apply (prints_bind m (format_loop size fuel (concat (fmt_of <$> ds) ++ [0]) args')); [done| |done|done].
    apply IH; [done|done|]. simpl in Hf. lia.
Qed.
End writing.

(** C35: [vsnprintf] formats: for a format made of literals and of the conversions d, u,
    x, s, c and percent, where x has no width, or the flag 0 and a width that the value does
    not exceed, the buffer gets the text of the format cut to [size - 1] characters, a NUL
    behind it and no other byte, and the result is the length of the whole text. *)
Theorem vsnprintf_correct ds args text size buf :
  Forall directive_ok ds → all_fit ds args = true → expand ds args = Some text → 0 < size < 2 ^ 31 → size ≤ Z.of_nat (length buf) → Z.of_nat (length text) < 2 ^ 31 →
  ∃ buf', vsnprintf size (Some buf) (concat (fmt_of <$> ds) ++ [0]) args = Ret (Z.of_nat (length text), Some buf') ∧
    store_bytes buf 0 (take (Z.to_nat (size - 1)) text ++ [0]) = Ret buf'.
Proof.
  intros Hds Hfit Ht Hsize Hbuf Hl. unfold vsnprintf. destruct (Z.eqb_spec size 0); [lia|].
  destruct (format_prints size buf Hsize Hbuf ds Hds args text Hfit Ht (S (length (concat (fmt_of <$> ds) ++ [0])))) with (t := @nil Z) (o := Out (Some buf) 0)
    as (o & -> & Hpos & b & Hb & Hst).
  { rewrite length_app. pose proof (fmt_length ds). simpl. lia. }
  { split; [done|]. exists buf. split; [done|]. rewrite take_nil. apply store_bytes_nil. lia. }
  { simpl. lia. }
  cbn [app] in *. rewrite bind_ret, Hb, Hpos. rewrite u32_small by (unfold is_u32, U32; lia).
  destruct (store_bytes_length _ _ _ _ Hst) as [Hlb _].
  assert (store1 b (Z.of_nat (length (take (Z.to_nat (size - 1)) text))) 0 = (if Z.of_nat (length text) <? size then store1 b (Z.of_nat (length text)) 0 else store1 b (size - 1) 0)) as <-.
  { rewrite length_take. destruct (Z.ltb_spec (Z.of_nat (length text)) size); f_equal; lia. }
  rewrite store1_Ret, !bind_ret by (rewrite length_take; lia). eexists. split; [done|].
  rewrite store_bytes_app, Hst, bind_ret by lia. rewrite store_bytes_cons, store1_Ret, bind_ret by (rewrite ?length_take; lia).
  by rewrite store_bytes_nil by (rewrite length_insert, length_take; lia).
Qed.

Lemma vsnprintf_correct_witness :
  ∃ buf', vsnprintf 8 (Some (replicate 10 1)) (chars "%s/%03x" ++ [0]) [ArgStr (Some (chars "home" ++ [0])); ArgInt 0xab] = Ret (8, Some buf') ∧
    store_bytes (replicate 10 1) 0 (take (Z.to_nat (8 - 1)) (chars "home/0ab") ++ [0]) = Ret buf'.
Proof.
  apply (vsnprintf_correct [Str; Lit 0x2f; Hex 3 true] [ArgStr (Some (chars "home" ++ [0])); ArgInt 0xab] (chars "home/0ab") 8 (replicate 10 1)).
  - repeat constructor; done.
  - by vm_compute.
  - by vm_compute.
  - lia.
  - by vm_compute.
  - by vm_compute.
Defined.

(** A width cuts off the digits in front. *)
Example hex_width_truncates :
  match vsnprintf 8 (Some (replicate 8 0)) (chars "%4x" ++ [0]) [ArgInt 0x12345] with Ret (n, Some b) => Some (n, take 5 b) | _ => None end
  = Some (4, chars "2345" ++ [0]).
Proof. reflexivity. Qed.

(** A width without the flag 0 pads with zeros all the same. *)
Example hex_width_pads_zeros :
  match vsnprintf 8 (Some (replicate 8 0)) (chars "%4x" ++ [0]) [ArgInt 0xab] with Ret (n, Some b) => Some (n, take 5 b) | _ => None end
  = Some (4, chars "00ab" ++ [0]).
Proof. reflexivity. Qed.
