(* ===== verification/Path.v ===== *)
(** * Paths of the agent: model of src/usr/lib/libagent/path_utils.c

    C strings are arrays that hold their NUL, outputs are arrays that are passed in
    and returned.  The dentry of the current directory, which a system call returns,
    and the contents of the local array of tokens, which is not initialised, are
    parameters; the other local arrays are written before they are read.  Pointers
    that are tested for NULL and never are in the program are not modelled as
    pointers. *)

From Stdlib Require Import String.
From S2P Require Import Prelude Ring KString UString Stdio Json.

Definition PATHNAME_MAX : Z := 4096.
Definition AGENT_PATH_MAX : Z := 256.
Definition AGENT_DEFAULT_HOME : list Z := c_string "/home/user".

Definition local_array (n : Z) : list Z := replicate (Z.to_nat n) 0.

(** The copied length and the array. *)
Definition safe_copy (dst : list Z) (cap : Z) (src : list Z) : outcome (Z * list Z) :=
  if cap <=? 0 then Ret (0, dst)
  else
    len ← strlen src 0;
    let len := if cap <=? i32 len then cap - 1 else i32 len in
    bytes ← load_bytes src 0 len;
    dst ← store_bytes dst 0 bytes;
    dst ← store1 dst len 0;
    Ret (len, dst).

(** ** The current directory *)

#[local] Set Warnings "-register-all".

Inductive dentry : Type := Dentry (d_parent : option dentry) (d_name : list Z) (d_namelen : Z).

Definition append_name (name : list Z) (namelen : Z) (pos : Z) (buf : list Z) (cap : Z) : outcome (Z * list Z) :=
  if namelen <=? 0 then Ret (pos, buf)
  else
    let name_len := if cap <=? pos + namelen then cap - pos - 1 else namelen in
    if name_len <=? 0 then Ret (-1, buf)
    else
      bytes ← load_bytes name 0 name_len;
      buf ← store_bytes buf pos bytes;
      buf ← store1 buf (pos + name_len) 0;
      Ret (pos + name_len, buf).

(** The slash between two names. *)
Definition append_slash (pos : Z) (buf : list Z) (cap : Z) : outcome (Z * list Z) :=
  if 1 <? pos then
    if cap - 1 <=? pos then Ret (-1, buf)
    else buf ← store1 buf pos 0x2f; buf ← store1 buf (pos + 1) 0; Ret (pos + 1, buf)
  else Ret (pos, buf).

(** The length, or -1, and the array. *)
Fixpoint build_dentry_path (d : dentry) (buf : list Z) (cap : Z) : outcome (Z * list Z) :=
  if cap <=? 1 then Ret (-1, buf)
  else
    let '(Dentry d_parent name namelen) := d in
    let root := buf ← store1 buf 0 0x2f; buf ← store1 buf 1 0; Ret (1, buf) in
    match d_parent with
    | None => root
    | Some parent =>
        is_root ← (if namelen =? 1 then c ← load1 name 0; Ret (c =? 0x2f) else Ret false);
        if is_root : bool then root
        else
          '(pos, buf) ← build_dentry_path parent buf cap;
          if pos <? 0 then Ret (-1, buf)
          else
            '(pos, buf) ← append_slash pos buf cap;
            if pos <? 0 then Ret (-1, buf) else append_name name namelen pos buf cap
    end.

Definition agent_get_current_path (cwd : option dentry) (buf : list Z) (cap : Z) : outcome (Z * list Z) :=
  if cap <=? 1 then Ret (-1, buf)
  else match cwd with None => Ret (-1, buf) | Some d => build_dentry_path d buf cap end.

(** ** Fields of the input *)

Section fields.
Context (tokens : list json_token).

(** The length, or -1, and the array. *)
Definition agent_json_get_string_field (input_json : list Z) (input_len : Z) (key : list Z) (out : list Z) (out_cap : Z) :
    outcome (Z * list Z) :=
  if out_cap <=? 0 then Ret (-1, out)
  else
    '(ntokens, _, toks) ← json_parse input_json input_len 32 json_init tokens;
    if ntokens <? 0 then Ret (-1, out)
    else
      tok ← json_find_key input_json toks ntokens 0 key;
      if tok <? 0 then Ret (-1, out) else t ← load1 toks tok; json_token_str input_json t out out_cap.

(** The number, or [None] for -1. *)
Definition agent_json_get_int_field (input_json : list Z) (input_len : Z) (key : list Z) : outcome (option Z) :=
  '(ntokens, _, toks) ← json_parse input_json input_len 32 json_init tokens;
  if ntokens <? 0 then Ret None
  else
    tok ← json_find_key input_json toks ntokens 0 key;
    if tok <? 0 then Ret None else t ← load1 toks tok; json_token_int input_json t.
End fields.

(** ** Normal form *)

(** The path behind the slashes at its front. *)
Fixpoint skip_slashes (p : list Z) : outcome (list Z) :=
  match p with [] => Fault | c :: rest => if c =? 0x2f then skip_slashes rest else Ret p end.

(** The characters before the next slash or the end, and the path behind them. *)
Fixpoint segment (p : list Z) : outcome (list Z * list Z) :=
  match p with
  | [] => Fault
  | c :: rest => if (c =? 0) || (c =? 0x2f) then Ret ([], p) else '(s, p) ← segment rest; Ret (c :: s, p)
  end.

(** [while (len > 1 && out[len - 1] != '/') len--;] *)
Fixpoint back_loop (fuel : nat) (out : list Z) (len : Z) : outcome Z :=
  match fuel with
  | O => Hang
  | S fuel =>
      if 1 <? len then c ← load1 out (len - 1); if negb (c =? 0x2f) then back_loop fuel out (len - 1) else Ret len
      else Ret len
  end.

(** The array and the length, which is [None] for -1. *)
Definition push_segment (seg : list Z) (out : list Z) (out_cap len : Z) : outcome (list Z * option Z) :=
  let seg_len := Z.of_nat (length seg) in
  if (1 <? len) && (out_cap <=? len + 1) then Ret (out, None)
  else
    '(out, len) ← (if 1 <? len then out ← store1 out len 0x2f; Ret (out, len + 1) else Ret (out, len));
    if out_cap <=? len + seg_len then Ret (out, None)
    else
      out ← store_bytes out len seg;
      out ← store1 out (len + seg_len) 0;
      Ret (out, Some (len + seg_len)).

Definition pop_segment (out : list Z) (len : Z) : outcome (list Z * option Z) :=
  if len <=? 1 then Ret (out, None)
  else
    len ← back_loop (Z.to_nat len) out (len - 1);
    out ← store1 out len 0;
    Ret (out, Some len).

(** Every round takes a segment of the path. *)
Fixpoint normalize_loop (fuel : nat) (p : list Z) (out : list Z) (out_cap len : Z) : outcome (list Z * option Z) :=
  match fuel with
  | O => Hang
  | S fuel =>
      p ← skip_slashes p;
      c ← load1 p 0;
      if c =? 0 then Ret (out, Some len)
      else
        '(seg, p) ← segment p;
        if decide (seg = [0x2e]) then normalize_loop fuel p out out_cap len
        else
          '(out, r) ← (if decide (seg = [0x2e; 0x2e]) then pop_segment out len else push_segment seg out out_cap len);
          match r with None => Ret (out, None) | Some len => normalize_loop fuel p out out_cap len end
  end.

(** The length, or -1, and the array. *)
Definition agent_normalize_path (path : list Z) (out : list Z) (out_cap : Z) : outcome (Z * list Z) :=
  if out_cap <=? 1 then Ret (-1, out)
  else
    c ← load1 path 0;
    if negb (c =? 0x2f) then Ret (-1, out)
    else
      out ← store1 out 0 0x2f;
      out ← store1 out 1 0;
      '(out, r) ← normalize_loop (S (length path)) path out out_cap 1;
      match r with
      | None => Ret (-1, out)
      | Some len =>
          if 1 <? len then
            c ← load1 out (len - 1);
            if c =? 0x2f then out ← store1 out (len - 1) 0; Ret (len - 1, out) else Ret (len, out)
          else Ret (len, out)
      end.

(** ** Composed paths *)

Definition is_string (s : list Z) (lit : string) : outcome bool := r ← strcmp s 0 (c_string lit) 0; Ret (r =? 0).

(** [base] and [name] with a slash between them, in normal form. *)
Definition join_with (base name out : list Z) (out_cap : Z) : outcome (Z * list Z) :=
  root ← is_string base "/";
  '(len, tmp) ← (if root : bool
                 then snprintf PATHNAME_MAX (Some (local_array PATHNAME_MAX)) (c_string "/%s") [ArgStr (Some name)]
                 else snprintf PATHNAME_MAX (Some (local_array PATHNAME_MAX)) (c_string "%s/%s") [ArgStr (Some base); ArgStr (Some name)]);
  if (len <=? 0) || (PATHNAME_MAX <=? len) then Ret (-1, out)
  else match tmp with Some tmp => agent_normalize_path tmp out out_cap | None => Fault end.

Section paths.
Context (cwd : option dentry) (tokens : list json_token).

Definition agent_resolve_path (path : list Z) (out : list Z) (out_cap : Z) : outcome (Z * list Z) :=
  if out_cap <=? 1 then Ret (-1, out)
  else
    c ← load1 path 0;
    if c =? 0 then Ret (-1, out)
    else if c =? 0x2f then agent_normalize_path path out out_cap
    else
      '(r, base) ← agent_get_current_path cwd (local_array PATHNAME_MAX) PATHNAME_MAX;
      '(_, base) ← (if r <? 0 then safe_copy base PATHNAME_MAX AGENT_DEFAULT_HOME else Ret (r, base));
      join_with base path out out_cap.

Definition agent_json_get_normalized_path (input_json : list Z) (input_len : Z) (key : list Z) (out : list Z) (out_cap : Z) :
    outcome (Z * list Z) :=
  '(r, raw) ← agent_json_get_string_field tokens input_json input_len key (local_array AGENT_PATH_MAX) AGENT_PATH_MAX;
  if r <? 0 then Ret (-1, out) else agent_resolve_path raw out out_cap.
End paths.

Definition agent_path_join (base name : list Z) (out : list Z) (out_cap : Z) : outcome (Z * list Z) :=
  if out_cap <=? 1 then Ret (-1, out)
  else c ← load1 name 0; if c =? 0 then Ret (-1, out) else join_with base name out out_cap.

Definition agent_path_is_under (path prefix : list Z) : outcome bool :=
  root ← is_string prefix "/";
  if root : bool then c ← load1 path 0; Ret (c =? 0x2f)
  else
    plen ← strlen prefix 0;
    r ← strncmp path 0 prefix 0 (i32 plen);
    if negb (r =? 0) then Ret false
    else c ← load1 path (i32 plen); Ret ((c =? 0) || (c =? 0x2f)).

(** [None] for the pointers that are NULL. *)
Definition agent_write_error_json (result_buf : list Z) (result_cap : Z) (code message path : option (list Z)) : outcome (Z * list Z) :=
  if result_cap <=? 0 then Ret (-1, result_buf)
  else
    w ← jw_object_start (jw_init result_buf result_cap);
    w ← jw_key (c_string "error") w;
    w ← jw_object_start w;
    w ← jw_key (c_string "code") w;
    w ← jw_string (default (c_string "error") code) w;
    w ← jw_key (c_string "message") w;
    w ← jw_string (default (c_string "operation failed") message) w;
    w ← match path with
        | None => Ret w
        | Some path => c ← load1 path 0; if negb (c =? 0) then w ← jw_key (c_string "path") w; jw_string path w else Ret w
        end;
    w ← jw_object_end w;
    w ← jw_object_end w;
    jw_finish w.
