(* ===== verification/PathNormal.v ===== *)
(** * Paths of the agent: the normal form

    The components of a path, and what [agent_normalize_path] and
    [agent_path_is_under] do with them. *)

From Stdlib Require Import String.
From S2P Require Import Prelude Ring KString UString Stdio Json Path.

(** ** Components *)

Fixpoint split (s : list Z) : list (list Z) :=
  match s with
  | [] => [[]]
  | c :: s => if c =? 0x2f then [] :: split s else match split s with seg :: segs => (c :: seg) :: segs | [] => [[c]] end
  end.

(** The parts between slashes that are neither empty nor a dot. *)
Definition components (s : list Z) : list (list Z) := filter (fun seg => seg ≠ [] ∧ seg ≠ [0x2e]) (split s).

(** The absolute path with the given components. *)
Definition abs (cs : list (list Z)) : list Z := match cs with [] => [0x2f] | _ => concat (cons 0x2f <$> cs) end.

Definition plain (seg : list Z) : Prop := Forall (fun c => c ≠ 0x2f) seg.

Lemma split_nonempty s : ∃ seg segs, split s = seg :: segs.
Proof. destruct s as [|c s]; cbn [split]; [by eexists _, _|]. destruct (c =? 0x2f); [by eexists _, _|]. destruct (split s); by eexists _, _. Qed.

Lemma split_plain seg : plain seg → split seg = [seg].
Proof. induction 1 as [|c seg Hc _ IH]; [done|]. cbn [split]. destruct (Z.eqb_spec c 0x2f); [done|]. by rewrite IH. Qed.

Lemma split_slash seg s : plain seg → split (seg ++ 0x2f :: s) = seg :: split s.
Proof. induction 1 as [|c seg Hc _ IH]; [done|]. cbn [app split]. destruct (Z.eqb_spec c 0x2f); [done|]. by rewrite IH. Qed.

Lemma components_slash s : components (0x2f :: s) = components s.
Proof. unfold components. cbn [split Z.eqb Pos.eqb]. by rewrite filter_cons_False by naive_solver. Qed.

(** The rest of a path behind a component. *)
Definition behind_segment (s : list Z) : Prop := s = [] ∨ ∃ t, s = 0x2f :: t.

Lemma components_segment seg s : plain seg → behind_segment s →
  components (seg ++ s) = (if decide (seg ≠ [] ∧ seg ≠ [0x2e]) then [seg] else []) ++ components s.
Proof.
  intros Hp [->|[t ->]].
  - rewrite app_nil_r. unfold components. rewrite split_plain by done. cbn [split].
    rewrite (filter_cons_False _ []), filter_nil, app_nil_r by naive_solver. rewrite filter_cons, filter_nil. by case_decide.
  - rewrite components_slash. unfold components. rewrite split_slash by done. rewrite filter_cons. by case_decide.
Qed.

(** ** Reading a path *)

Lemma skip_slashes_spec s rest : text s →
  ∃ s', skip_slashes (s ++ 0 :: rest) = Ret (s' ++ 0 :: rest) ∧ components s' = components s ∧ text s' ∧ (length s' ≤ length s)%nat ∧
    (∀ c t, s' = c :: t → c ≠ 0x2f).
Proof.
  induction 1 as [|c s Hc Hs IH]; cbn [app skip_slashes]; [exists []; split_and!; by try constructor|]. destruct (Z.eqb_spec c 0x2f) as [->|Hne].
  - destruct IH as (s' & -> & Hcs & Ht & Hl & Hh). exists s'. rewrite components_slash. simpl. split_and!; try done. lia.
  - exists (c :: s). split_and!; first [done|by constructor|by intros ? ? [= <- <-]].
Qed.

Lemma segment_spec s rest : text s →
  ∃ seg s', s = seg ++ s' ∧ segment (s ++ 0 :: rest) = Ret (seg, s' ++ 0 :: rest) ∧ plain seg ∧ behind_segment s' ∧ text s' ∧
    (∀ c t, s = c :: t → c ≠ 0x2f → seg ≠ []).
Proof.
  induction 1 as [|c s Hc Hs IH]; cbn [app segment].
  - exists [], []. split_and!; first [done|by constructor|by left].
  - destruct (Z.eqb_spec c 0); [lia|]. destruct (Z.eqb_spec c 0x2f) as [->|Hne]; cbn [orb].
    + exists [], (0x2f :: s). split_and!; first [done|by constructor|by right; eexists|by intros ? ? [= <- <-]].
    + destruct IH as (seg & s' & -> & -> & Hp & Hb & Ht & _). rewrite bind_ret. exists (c :: seg), s'. split_and!; first [done|by constructor].
Qed.

(** ** Writing the normal form *)

(** The array begins with a string. *)
Definition holds (out t : list Z) : Prop := take (length t + 1) out = t ++ [0].

Lemma holds_length out t : holds out t → (length t < length out)%nat.
Proof. intros H. apply (f_equal length) in H. rewrite length_take, length_app in H. simpl in H. lia. Qed.

(** What is behind the first [n] bytes may be replaced. *)
Lemma take_stored (out : list Z) n s out' :
  (n ≤ length out)%nat → store_bytes out (Z.of_nat n) s = Ret out' → take (n + length s) out' = take n out ++ s ∧ length out' = length out.
Proof.
  intros Hn H. destruct (store_bytes_length _ _ _ _ H) as [Hl _]. split; [|done].
  destruct (store_bytes_cases out (Z.of_nat n) s) as [(_ & Hle & E)|[_ E]]; rewrite E in H; [|done]. injection H as <-. rewrite Nat2Z.id.
  rewrite app_assoc, take_app_le by (rewrite length_app, length_take; lia). apply take_ge. rewrite length_app, length_take. lia.
Qed.

Lemma holds_take out t : holds out t → take (length t) out = t.
Proof. intros H. apply (f_equal (take (length t))) in H. rewrite take_take, Nat.min_l, take_app_length in H by lia. done. Qed.

Lemma store_behind out t s : holds out t → Z.of_nat (length t + length s) < Z.of_nat (length out) →
  ∃ out', store_bytes out (Z.of_nat (length t)) (s ++ [0]) = Ret out' ∧ holds out' (t ++ s) ∧ length out' = length out.
Proof.
  intros Ht Hl. destruct (store_bytes_Ret out (Z.of_nat (length t)) (s ++ [0])) as (out' & E & _); [lia|rewrite length_app; simpl; lia|].
  destruct (take_stored out (length t) (s ++ [0]) out') as [Htk Hlen]; [lia|done|]. exists out'. split; [done|]. split; [|done].
  unfold holds. rewrite (holds_take _ _ Ht), length_app in Htk. rewrite length_app. simpl in Htk. by rewrite <-Nat.add_assoc, Htk, app_assoc.
Qed.

(** The text of a component behind other ones. *)
Lemma abs_snoc cs seg : abs (cs ++ [seg]) = match cs with [] => 0x2f :: seg | _ => abs cs ++ 0x2f :: seg end.
Proof.
  destruct cs as [|c cs]; [cbn; by rewrite app_nil_r|].
  change (abs ((c :: cs) ++ [seg])) with (concat (cons 0x2f <$> ((c :: cs) ++ [seg]))). rewrite fmap_app, concat_app. cbn. by rewrite app_nil_r.
Qed.

Lemma abs_long c cs : c ≠ [] → (1 < length (abs (c :: cs)))%nat.
Proof. intros Hc. cbn. rewrite length_app. destruct c; [done|]. simpl. lia. Qed.

Lemma push_segment_spec cs seg out cap :
  Forall (fun c => c ≠ []) cs → seg ≠ [] → holds out (abs cs) → cap ≤ Z.of_nat (length out) →
  ∃ out' r, push_segment seg out cap (Z.of_nat (length (abs cs))) = Ret (out', r) ∧ length out' = length out ∧
    if Z.of_nat (length (abs (cs ++ [seg]))) <? cap then r = Some (Z.of_nat (length (abs (cs ++ [seg])))) ∧ holds out' (abs (cs ++ [seg]))
    else r = None.
Proof.
  intros Hcs Hseg Hh Hcap. pose proof (holds_length _ _ Hh) as Hlo. assert (1 ≤ length seg)%nat as Hs1 by (destruct seg; [done|simpl; lia]). unfold push_segment. rewrite abs_snoc. destruct cs as [|c cs].
  - cbn [abs length] in *. change (Z.of_nat 1) with 1. change (1 <? 1) with false. cbn [andb]. cbv iota. rewrite bind_ret.
    destruct (Z.leb_spec cap (1 + Z.of_nat (length seg))), (Z.ltb_spec (Z.of_nat (S (length seg))) cap); try lia; [by exists out, None|].
    destruct (store_behind out [0x2f] seg Hh) as (out' & E & Hh' & Hl'); [simpl in *; lia|]. change (Z.of_nat (length [0x2f])) with 1 in E.
    rewrite store_bytes_app in E by lia. apply bind_ret_inv in E as (o1 & E1 & E). rewrite E1, bind_ret.
    destruct (store_bytes_length _ _ _ _ E1) as [Hl1 _].
    rewrite store_bytes_cons, store1_Ret, bind_ret, store_bytes_nil in E by (rewrite ?length_insert; lia). injection E as E.
    rewrite store1_Ret, bind_ret by lia. exists out', (Some (1 + Z.of_nat (length seg))). rewrite E. split; [done|]. split; [done|].
    split; [f_equal; lia|]. exact Hh'.
  - apply Forall_cons in Hcs as [Hc _]. pose proof (abs_long c cs Hc) as Hlong. set (t := abs (c :: cs)) in *. clearbody t. rewrite length_app. cbn [length].
    destruct (Z.ltb_spec 1 (Z.of_nat (length t))); [|lia]. cbn [andb].
    destruct (Z.leb_spec cap (Z.of_nat (length t) + 1)), (Z.ltb_spec (Z.of_nat (length t + S (length seg))) cap); try lia; [by exists out, None| |].
    + destruct (store_behind out t (0x2f :: seg) Hh) as (out' & E & Hh' & Hl'); [simpl in *; lia|]. cbn [app] in E.
      rewrite store_bytes_cons, store1_Ret, bind_ret in E by lia. rewrite store1_Ret, !bind_ret by lia.
      destruct (Z.leb_spec cap (Z.of_nat (length t) + 1 + Z.of_nat (length seg))); [lia|].
      rewrite store_bytes_app in E by (rewrite length_insert; lia). apply bind_ret_inv in E as (o1 & E1 & E). rewrite E1, bind_ret. destruct (store_bytes_length _ _ _ _ E1) as [Hl1 _]. rewrite length_insert in Hl1.
      rewrite store_bytes_cons, store1_Ret, bind_ret, store_bytes_nil in E by (rewrite ?length_insert; lia). injection E as E.
      rewrite store1_Ret, bind_ret by lia. exists out', (Some (Z.of_nat (length t) + 1 + Z.of_nat (length seg))). rewrite E. split; [done|]. split; [done|].
      split; [f_equal; lia|]. exact Hh'.
    + rewrite store1_Ret, !bind_ret by lia. destruct (Z.leb_spec cap (Z.of_nat (length t) + 1 + Z.of_nat (length seg))); [|lia].
      eexists _, None. split; [done|]. split; [by rewrite length_insert|done].
Qed.

Definition dots : list Z := [0x2e; 0x2e].

Lemma abs_app_length cs ds : (length (abs cs) ≤ length (abs (cs ++ ds)))%nat.
Proof.
  induction ds as [|seg ds IH] using rev_ind; [by rewrite app_nil_r|]. rewrite app_assoc, abs_snoc.
  destruct (cs ++ ds) eqn:E; [|rewrite length_app; lia]. apply app_nil in E as [-> ->]. cbn [abs length]. lia.
Qed.

(** Without a component of two dots the loop appends the components. *)
Lemma normalize_loop_plain n : ∀ s rest fuel out cap cs, (length s ≤ n)%nat → text s → (n < fuel)%nat → Forall (fun seg => seg ≠ dots) (components s) →
  Forall (fun seg => seg ≠ []) cs → holds out (abs cs) → Z.of_nat (length (abs cs)) < cap → cap ≤ Z.of_nat (length out) →
  ∃ out' r, normalize_loop fuel (s ++ 0 :: rest) out cap (Z.of_nat (length (abs cs))) = Ret (out', r) ∧ length out' = length out ∧
    if Z.of_nat (length (abs (cs ++ components s))) <? cap
    then r = Some (Z.of_nat (length (abs (cs ++ components s)))) ∧ holds out' (abs (cs ++ components s)) else r = None.
Proof.
  induction n as [|n IH]; intros s rest [|fuel] out cap cs Hn Hs Hf Hdots Hcs Hh Hfit Hcap; try lia.
  - destruct s; [|simpl in Hn; lia]. cbn. exists out, (Some (Z.of_nat (length (abs cs)))). rewrite app_nil_r. split; [done|]. split; [done|].
    by destruct (Z.ltb_spec (Z.of_nat (length (abs cs))) cap); [|lia].
  - cbn [normalize_loop]. destruct (skip_slashes_spec s rest Hs) as (s1 & -> & Hsame & Hs1 & Hl1 & Hhead).
    rewrite <-Hsame in Hdots |- *. clear Hsame. rewrite bind_ret.
    destruct s1 as [|c t].
    + cbn. exists out, (Some (Z.of_nat (length (abs cs)))). rewrite app_nil_r. split; [done|]. split; [done|].
      by destruct (Z.ltb_spec (Z.of_nat (length (abs cs))) cap); [|lia].
    + rewrite (load1_Ret _ _ c), bind_ret by done. assert (0 < c < 256) as Hc by (by apply Forall_cons in Hs1 as [? _]).
      destruct (Z.eqb_spec c 0); [lia|].
      destruct (segment_spec (c :: t) rest Hs1) as (seg & s2 & E & -> & Hp & Hb & Hs2 & Hne). specialize (Hne c t eq_refl (Hhead c t eq_refl)).
      rewrite bind_ret. rewrite E in *. pose proof (components_segment seg s2 Hp Hb) as Hcomp.
      assert (length s2 ≤ n)%nat as Hl2. { rewrite length_app in Hl1. destruct seg; [done|]. simpl in Hl1. lia. }
      destruct (decide (seg = [0x2e])) as [->|Hdot].
      * rewrite decide_False in Hcomp by naive_solver. rewrite Hcomp in Hdots |- *. cbn [app] in *. apply IH; (done || lia).
      * rewrite decide_True in Hcomp by done. rewrite Hcomp in Hdots |- *. cbn [app] in Hdots. apply Forall_cons in Hdots as [Hd Hdots]. rewrite decide_False by done.
        destruct (push_segment_spec cs seg out cap Hcs Hne Hh Hcap) as (out1 & r1 & -> & Hlo & Hr1). rewrite bind_ret.
        rewrite (app_assoc cs [seg]).
        destruct (Z.ltb_spec (Z.of_nat (length (abs (cs ++ [seg])))) cap).
        -- destruct Hr1 as [-> Hh1]. destruct (IH s2 rest fuel out1 cap (cs ++ [seg])) as (out2 & r2 & -> & Hlo2 & Hr2); try done; try lia.
           { apply Forall_app. split; [done|by constructor]. }
           exists out2, r2. split; [done|]. split; [lia|done].
        -- subst r1. exists out1, None. split; [done|]. split; [done|]. pose proof (abs_app_length (cs ++ [seg]) (components s2)).
           by destruct (Z.ltb_spec (Z.of_nat (length (abs ((cs ++ [seg]) ++ components s2)))) cap); [lia|].
Qed.

Lemma abs_last cs : Forall (fun seg => plain seg ∧ seg ≠ []) cs → ∀ c, (1 < length (abs cs))%nat → abs cs !! (length (abs cs) - 1)%nat = Some c → c ≠ 0x2f.
Proof.
  intros Hcs c Hl Hc. destruct cs as [|seg cs _] using rev_ind; [simpl in Hl; lia|]. apply Forall_app in Hcs as [_ Hcs]. apply Forall_cons in Hcs as [[Hp Hne] _].
  destruct seg as [|x seg _] using rev_ind; [done|]. apply Forall_app in Hp as [_ Hx]. rewrite Forall_singleton in Hx.
  assert (∃ t, abs (cs ++ [seg ++ [x]]) = t ++ [x]) as [t E].
  { rewrite abs_snoc. destruct cs as [|c0 cs']; [exists (0x2f :: seg); done|]. exists (abs (c0 :: cs') ++ 0x2f :: seg). by rewrite <-app_assoc. }
  rewrite E in Hc. rewrite length_app, Nat.add_sub in Hc. rewrite lookup_app_r, Nat.sub_diag in Hc by lia. by injection Hc as <-.
Qed.

Lemma components_plain s : Forall (fun seg => plain seg ∧ seg ≠ []) (components s).
Proof.
  assert (Forall plain (split s)) as H.
  { induction s as [|c s IH]; [repeat constructor|]. cbn [split]. destruct (Z.eqb_spec c 0x2f); [by constructor; [constructor|]|].
    destruct (split s) as [|seg segs]; [by repeat constructor|]. apply Forall_cons in IH as [? ?]. constructor; [by constructor|done]. }
  apply Forall_forall. intros seg Hin. unfold components in Hin. apply list_elem_of_filter in Hin as [[Hne _] Hin].
  rewrite Forall_forall in H. split; [by apply H|done].
Qed.

Lemma normalize_absolute path s out cap :
  string_at path 0 (0x2f :: s) → Forall (fun seg => seg ≠ dots) (components s) → 1 < cap → cap ≤ Z.of_nat (length out) →
  let t := abs (components s) in
  ∃ out', agent_normalize_path path out cap = Ret (if Z.of_nat (length t) <? cap then Z.of_nat (length t) else -1, out') ∧ length out' = length out ∧
    (Z.of_nat (length t) < cap → holds out' t).
Proof.
  intros Hpath Hdots Hcap Hout t. unfold agent_normalize_path. destruct (Z.leb_spec cap 1); [lia|].
  destruct Hpath as [Hs _ [rest Hp]]. change (Z.to_nat 0) with 0%nat in Hp. rewrite drop_0 in Hp. subst path. cbn [app].
  rewrite (load1_Ret _ _ 0x2f), bind_ret by done. cbn [Z.eqb Pos.eqb negb]. apply Forall_cons in Hs as [_ Hs].
  rewrite store1_Ret, bind_ret, store1_Ret, bind_ret by (rewrite ?length_insert; lia).
  set (out1 := <[Z.to_nat 1:=0]> (<[Z.to_nat 0:=0x2f]> out)). assert (length out1 = length out) as Hl1 by (unfold out1; by rewrite !length_insert).
  assert (holds out1 (abs [])) as Hh1. { unfold out1. destruct out as [|x [|y out]]; [simpl in Hout; lia..|done]. }
  destruct (normalize_loop_plain (length (0x2f :: s)) (0x2f :: s) rest (S (length (0x2f :: s ++ 0 :: rest))) out1 cap []) as (out2 & r & E & Hl2 & Hr); try done.
  { by constructor. }
  { simpl. rewrite length_app. lia. }
  { lia. }
  change (Z.of_nat (length (abs []))) with 1 in E. cbn [app] in E. rewrite E, bind_ret. rewrite components_slash in Hr. cbn [app] in Hr. fold t in Hr.
  destruct (Z.ltb_spec (Z.of_nat (length t)) cap) as [Hlt|Hge].
  - destruct Hr as [-> Hh]. destruct (Z.ltb_spec 1 (Z.of_nat (length t))); [|exists out2; split; [done|split; [by etrans|done]]].
    pose proof (holds_length _ _ Hh). destruct (lookup_lt_is_Some_2 t (length t - 1)) as [c Hc]; [lia|].
    assert (c ≠ 0x2f) as Hne by (apply (abs_last _ (components_plain s)); [fold t; lia|exact Hc]).
    rewrite (load1_Ret _ _ c), bind_ret; [|lia|].
    + destruct (Z.eqb_spec c 0x2f); [done|]. exists out2. split; [done|]. split; [by etrans|done].
    + replace (Z.to_nat (Z.of_nat (length t) - 1)) with (length t - 1)%nat by lia.
      rewrite <-(lookup_take_lt out2 (length t)) by lia. by rewrite (holds_take _ _ Hh).
  - subst r. exists out2. split; [done|]. split; [by etrans|lia].
Qed.

(** C36: [agent_normalize_path] of an absolute path without a component of two dots is
    the absolute path of its components, empty ones and single dots left out, if the
    buffer has room for it and its NUL, and an error otherwise. *)
Theorem normalize_path_correct path s out cap :
  string_at path 0 (0x2f :: s) → Forall (fun seg => seg ≠ dots) (components s) → 1 < cap → cap ≤ Z.of_nat (length out) →
  let t := abs (components s) in
  ∃ out', agent_normalize_path path out cap = Ret (if Z.of_nat (length t) <? cap then Z.of_nat (length t) else -1, out') ∧ length out' = length out ∧
    (Z.of_nat (length t) < cap → holds out' t).
Proof. apply normalize_absolute. Qed.

Lemma normalize_path_correct_witness :
  ∃ out', agent_normalize_path (c_string "/home//user/./a/") (replicate 20 1) 20 = Ret (12, out') ∧ length out' = 20%nat ∧
    (12 < 20 → holds out' (chars "/home/user/a")).
Proof.
  apply (normalize_path_correct (c_string "/home//user/./a/") (chars "home//user/./a/") (replicate 20 1) 20).
  - constructor; [repeat constructor; done|done|by exists []].
  - by vm_compute; repeat constructor.
  - lia.
  - by vm_compute.
Defined.

(** ** Paths under other paths *)

Definition conc (cs : list (list Z)) : list Z := concat (cons 0x2f <$> cs).

Definition proper (cs : list (list Z)) : Prop := Forall (fun seg => text seg ∧ plain seg ∧ seg ≠ []) cs.

Lemma plain_split a b x y : plain a → plain b → behind_segment x → behind_segment y → a ++ x = b ++ y → a = b ∧ x = y.
Proof.
  intros Ha. revert b. induction Ha as [|c a Hc _ IH]; intros b Hb Hx Hy E.
  - destruct Hb as [|c b Hc _]; [done|]. cbn [app] in E. subst x. destruct Hx as [?|[? ?]]; simplify_eq.
  - destruct Hb as [|c' b Hc' Hb]; cbn [app] in E; [subst y; destruct Hy as [?|[? ?]]; simplify_eq|]. injection E as -> E.
    by destruct (IH b Hb Hx Hy E) as [-> ->].
Qed.

Lemma conc_behind cs x : behind_segment x → behind_segment (conc cs ++ x).
Proof. destruct cs as [|c cs]; [done|]. intros _. right. by eexists. Qed.

Lemma conc_prefix rs cs x : proper rs → proper cs → behind_segment x → conc rs ++ x = conc cs → rs `prefix_of` cs.
Proof.
  intros Hrs. revert cs. induction Hrs as [|r rs (_ & Hr & _) _ IH]; intros cs Hcs Hx E; [apply prefix_nil|].
  destruct Hcs as [|c cs (_ & Hc & _) Hcs]; [done|]. change (conc (r :: rs)) with (0x2f :: r ++ conc rs) in E.
  change (conc (c :: cs)) with (0x2f :: c ++ conc cs) in E. cbn [app] in E. injection E as E. rewrite <-app_assoc in E.
  destruct (plain_split r c (conc rs ++ x) (conc cs)) as [-> E']; try done; [by apply conc_behind|rewrite <-(app_nil_r (conc cs)); apply conc_behind; by left|].
  apply prefix_cons. by apply IH.
Qed.

Lemma conc_app a b : conc (a ++ b) = conc a ++ conc b.
Proof. unfold conc. by rewrite fmap_app, concat_app. Qed.

Lemma conc_text cs : proper cs → text (conc cs).
Proof.
  induction 1 as [|c cs (Ht & _) _ IH]; [exact (Forall_nil_2 _)|]. change (conc (c :: cs)) with (0x2f :: c ++ conc cs).
  constructor; [lia|]. by apply Forall_app.
Qed.

Lemma abs_text cs : proper cs → text (abs cs).
Proof. intros Hcs. destruct cs; [constructor; [lia|constructor]|by apply (conc_text (l :: cs))]. Qed.

Lemma holds_string out t : text t → holds out t → string_at out 0 t.
Proof.
  intros Ht Hh. constructor; [done|done|]. exists (drop (length t + 1) out). change (Z.to_nat 0) with 0%nat. rewrite drop_0.
  rewrite <-(take_drop (length t + 1) out) at 1. by rewrite Hh, <-app_assoc.
Qed.

Lemma is_string_spec s mem lit : string_at mem 0 s → text (chars lit) → is_string mem lit = Ret (bool_decide (s = chars lit)).
Proof.
  intros Hs Hl. unfold is_string. destruct (strcmp_zero mem 0 s (c_string lit) 0 (chars lit) Hs) as (r & -> & Hr); [by apply literal_at|].
  rewrite bind_ret. f_equal. destruct (Z.eqb_spec r 0) as [E|E]; [rewrite bool_decide_eq_true_2; [done|by apply Hr]|rewrite bool_decide_eq_false_2; [done|]].
  intros Eq. apply E. by apply Hr.
Qed.

(** Behind a string there is its NUL. *)
Lemma string_lookup mem s i : string_at mem 0 s → (i ≤ length s)%nat → load1 mem (Z.of_nat i) = Ret (default 0 (s !! i)).
Proof.
  intros [_ _ [rest E]] Hi. change (Z.to_nat 0) with 0%nat in E. rewrite drop_0 in E. subst mem. apply load1_Ret; [lia|]. rewrite Nat2Z.id.
  destruct (decide (i = length s)) as [->|Hne].
  - rewrite list_lookup_middle by done. by rewrite lookup_ge_None_2 by lia.
  - rewrite lookup_app_l by lia. destruct (lookup_lt_is_Some_2 s i) as [c ->]; [lia|done].
Qed.

(** For paths in normal form [agent_path_is_under] tells exactly whether the
    components of the prefix are the first components of the path. *)
Lemma path_is_under_correct path prefix cs rs :
  proper cs → proper rs → holds path (abs cs) → holds prefix (abs rs) → Z.of_nat (length (abs rs)) < 2 ^ 31 →
  agent_path_is_under path prefix = Ret (bool_decide (rs `prefix_of` cs)).
Proof.
  intros Hcs Hrs Hp Hr Hlen. apply holds_string in Hp; [|by apply abs_text]. apply holds_string in Hr; [|by apply abs_text].
  unfold agent_path_is_under. rewrite (is_string_spec (abs rs)), bind_ret by (done || (repeat constructor; done)).
  destruct rs as [|r rs].
  - rewrite bool_decide_eq_true_2 by done. pose proof (string_lookup path (abs cs) 0 Hp ltac:(lia)) as E. change (Z.of_nat 0) with 0 in E.
    rewrite E, bind_ret. rewrite bool_decide_eq_true_2 by apply prefix_nil. by destruct cs.
  - assert (r ≠ []) as Hne by (by apply Forall_cons in Hrs as [(_ & _ & ?) _]). pose proof (abs_long r rs Hne) as Hl.
    rewrite bool_decide_eq_false_2 by (intros E; rewrite E in Hl; simpl in Hl; lia).
    rewrite (strlen_value prefix 0 _ Hr), bind_ret by (unfold U32; lia). rewrite i32_small by lia.
    destruct (strncmp_prefix path 0 (abs cs) prefix 0 (abs (r :: rs)) Hp Hr) as (d & -> & Hd). rewrite bind_ret.
    change (abs (r :: rs)) with (conc (r :: rs)) in *.
    assert (∀ x, conc (r :: rs) ++ x = abs cs → conc (r :: rs) ++ x = conc cs) as Habs.
    { destruct cs as [|c cs]; [|done]. intros x E. apply (f_equal length) in E. rewrite length_app in E. simpl in *. lia. }
    destruct (Z.eqb_spec d 0) as [E0|E0]; cbn [negb].
    + apply Hd in E0 as [x Hx]. rewrite (string_lookup path (abs cs)), bind_ret by (done || (rewrite Hx, length_app; lia)). f_equal.
      rewrite Hx, lookup_app_r, Nat.sub_diag by lia. pose proof (Habs x (eq_sym Hx)) as Hx'. clear Hx Hd Habs.
      destruct x as [|c x].
      * rewrite bool_decide_eq_true_2; [done|]. apply (conc_prefix _ _ []); try done. by left.
      * assert (c ≠ 0) as Hc0.
        { pose proof (conc_text cs Hcs) as Ht. rewrite <-Hx' in Ht. apply Forall_app in Ht as [_ Ht].
          apply Forall_cons in Ht as [? _]. lia. }
        change (default 0 ((c :: x) !! 0%nat)) with c. destruct (Z.eqb_spec c 0); [done|]. cbn [orb]. destruct (Z.eqb_spec c 0x2f) as [->|Hns].
        -- rewrite bool_decide_eq_true_2; [done|]. apply (conc_prefix _ _ (0x2f :: x)); try done. right. by eexists.
        -- rewrite bool_decide_eq_false_2; [done|]. intros [ds ->]. rewrite conc_app in Hx'. apply app_inv_head in Hx'.
           destruct ds as [|d' ds]; cbn in Hx'; [done|]. by injection Hx' as -> _.
    + rewrite bool_decide_eq_false_2; [done|]. intros [ds ->]. apply E0, Hd. exists (conc ds). change (abs ((r :: rs) ++ ds)) with (conc ((r :: rs) ++ ds)).
      by rewrite conc_app.
Qed.
