(* ===== verification/Permissions.v ===== *)
(** * Permissions of the agent: model of src/usr/lib/libagent/permissions.c

    The policy, its default, its file and the test of a tool call.  The bytes that
    [open] and [read] return for the policy file are a parameter.  The messages of
    [debug_printf] are left out. *)

From Stdlib Require Import String.
From S2P Require Import Prelude Ring KString UString Json Path.

Definition PERM_MAX_PATH_RULES : Z := 16.
Definition PERM_MAX_DENY_CMDS : Z := 16.

Inductive permission_mode : Type := PERM_STRICT | PERM_STANDARD | PERM_PERMISSIVE.
#[export] Instance permission_mode_eq_dec : EqDecision permission_mode.
Proof. solve_decision. Defined.

(** An array of rules and how many of them are in use. *)
Record rules := Rules { r_paths : list (list Z); r_count : Z }.

Record permission_policy := Policy {
  p_mode : permission_mode;
  read_allow : rules;
  read_deny : rules;
  write_allow : rules;
  write_deny : rules;
  deny_commands : rules
}.

Definition with_mode (m : permission_mode) (p : permission_policy) : permission_policy :=
  Policy m (read_allow p) (read_deny p) (write_allow p) (write_deny p) (deny_commands p).
Definition with_read_allow (r : rules) (p : permission_policy) : permission_policy :=
  Policy (p_mode p) r (read_deny p) (write_allow p) (write_deny p) (deny_commands p).
Definition with_read_deny (r : rules) (p : permission_policy) : permission_policy :=
  Policy (p_mode p) (read_allow p) r (write_allow p) (write_deny p) (deny_commands p).
Definition with_write_allow (r : rules) (p : permission_policy) : permission_policy :=
  Policy (p_mode p) (read_allow p) (read_deny p) r (write_deny p) (deny_commands p).
Definition with_write_deny (r : rules) (p : permission_policy) : permission_policy :=
  Policy (p_mode p) (read_allow p) (read_deny p) (write_allow p) r (deny_commands p).
Definition with_deny_commands (r : rules) (p : permission_policy) : permission_policy :=
  Policy (p_mode p) (read_allow p) (read_deny p) (write_allow p) (write_deny p) r.

(** The string at an offset is copied and cut. *)
Definition safe_str (dst : list Z) (dst_cap : Z) (src : list Z) (off : Z) : outcome (list Z) :=
  if dst_cap <=? 0 then Ret dst
  else
    len ← strlen src off;
    let len := if dst_cap <=? i32 len then dst_cap - 1 else i32 len in
    bytes ← load_bytes src off len;
    dst ← store_bytes dst 0 bytes;
    store1 dst len 0.

(** The next rule of an array is set to a string. *)
Definition set_rule (r : rules) (cap : Z) (src : list Z) (off : Z) : outcome rules :=
  rule ← load1 (r_paths r) (r_count r);
  rule ← safe_str rule cap src off;
  paths ← store1 (r_paths r) (r_count r) rule;
  Ret (Rules paths (r_count r + 1)).

(** The result and the rules. *)
Definition store_path_rule (r : rules) (value : list Z) (off : Z) : outcome (Z * rules) :=
  if PERM_MAX_PATH_RULES <=? r_count r then Ret (-1, r)
  else
    value ← behind value off;
    '(len, normalized) ← agent_normalize_path value (local_array 256) 256;
    if len <? 0 then Ret (-1, r) else r ← set_rule r 256 normalized 0; Ret (0, r).

Fixpoint matches_loop (path : list Z) (paths : list (list Z)) (n : nat) (i : Z) : outcome bool :=
  match n with
  | O => Ret false
  | S n =>
      rule ← load1 paths i;
      under ← agent_path_is_under path rule;
      if under : bool then Ret true else matches_loop path paths n (i + 1)
  end.
Definition path_matches_any (path : list Z) (r : rules) : outcome bool := matches_loop path (r_paths r) (Z.to_nat (r_count r)) 0.

Definition path_allowed (path : list Z) (allow deny : rules) : outcome bool :=
  allow_hit ← (if 0 <? r_count allow then path_matches_any path allow else Ret true);
  if negb allow_hit then Ret false
  else denied ← path_matches_any path deny; Ret (negb denied).

(** ** Policies *)

Definition no_rules (cap : Z) : rules := Rules (replicate 16 (local_array cap)) 0.

Definition perm_init : permission_policy :=
  Policy PERM_STANDARD (no_rules 256) (no_rules 256) (no_rules 256) (no_rules 256) (no_rules 64).

Definition perm_set_default : outcome permission_policy :=
  let p := perm_init in
  '(_, r) ← store_path_rule (read_allow p) (c_string "/") 0;
  let p := with_read_allow r p in
  '(_, r) ← store_path_rule (write_allow p) (c_string "/home/user/") 0;
  let p := with_write_allow r p in
  '(_, r) ← store_path_rule (write_allow p) (c_string "/tmp/") 0;
  let p := with_write_allow r p in
  '(_, r) ← store_path_rule (write_allow p) (c_string "/var/agent/") 0;
  let p := with_write_allow r p in
  '(_, r) ← store_path_rule (write_deny p) (c_string "/boot/") 0;
  let p := with_write_deny r p in
  '(_, r) ← store_path_rule (write_deny p) (c_string "/etc/agent/") 0;
  let p := with_write_deny r p in
  r ← set_rule (deny_commands p) 64 (c_string "rm -rf") 0;
  r ← set_rule r 64 (c_string "dd if=") 0;
  r ← set_rule r 64 (c_string "mkfs") 0;
  Ret (with_deny_commands r p).

(** ** The file of a policy *)

Definition starts (buf : list Z) (line : Z) (key : string) : outcome bool :=
  r ← strncmp buf line (c_string key) 0 (Z.of_nat (String.length key)); Ret (r =? 0).

Definition mode_of (buf : list Z) (val : Z) : outcome permission_mode :=
  r ← strcmp buf val (c_string "strict") 0;
  if r =? 0 then Ret PERM_STRICT
  else r ← strcmp buf val (c_string "permissive") 0; Ret (if r =? 0 then PERM_PERMISSIVE else PERM_STANDARD).

(** One line, which starts at [line] and ends with a NUL. *)
Definition policy_line (buf : list Z) (line : Z) (p : permission_policy) : outcome permission_policy :=
  b ← starts buf line "mode=";
  if b : bool then m ← mode_of buf (line + 5); Ret (with_mode m p) else
  b ← starts buf line "read_allow=";
  if b : bool then '(_, r) ← store_path_rule (read_allow p) buf (line + 11); Ret (with_read_allow r p) else
  b ← starts buf line "read_deny=";
  if b : bool then '(_, r) ← store_path_rule (read_deny p) buf (line + 10); Ret (with_read_deny r p) else
  b ← starts buf line "write_allow=";
  if b : bool then '(_, r) ← store_path_rule (write_allow p) buf (line + 12); Ret (with_write_allow r p) else
  b ← starts buf line "write_deny=";
  if b : bool then '(_, r) ← store_path_rule (write_deny p) buf (line + 11); Ret (with_write_deny r p) else
  b ← starts buf line "deny_path=";
  if b : bool then '(_, r) ← store_path_rule (write_deny p) buf (line + 10); Ret (with_write_deny r p) else
  b ← starts buf line "deny_cmd=";
  if b : bool then
    if r_count (deny_commands p) <? PERM_MAX_DENY_CMDS then
      r ← set_rule (deny_commands p) 64 buf (line + 9); Ret (with_deny_commands r p)
    else Ret p
  else Ret p.

(** One round of the loop over the bytes: the array, the start of the line and the policy. *)
Definition policy_byte (nread : Z) (st : list Z * Z * permission_policy) (i : Z) : outcome (list Z * Z * permission_policy) :=
  let '(buf, line_start, p) := st in
  line_end ← (if i =? nread then Ret true else c ← load1 buf i; Ret (c =? 0x0a));
  if line_end : bool then
    buf ← store1 buf i 0;
    c ← load1 buf line_start;
    if (i - line_start <=? 0) || (c =? 0x23) then Ret (buf, i + 1, p)
    else p ← policy_line buf line_start p; Ret (buf, i + 1, p)
  else Ret (buf, line_start, p).

(** The result and the policy; [None] if the file cannot be opened, otherwise the bytes
    that are read. *)
Definition perm_load_policy (file : option (list Z)) : outcome (Z * permission_policy) :=
  match file with
  | None => Ret (-1, perm_init)
  | Some bytes =>
      let bytes := take 2047 bytes in
      let nread := Z.of_nat (length bytes) in
      if nread <=? 0 then Ret (-1, perm_init)
      else
        buf ← store_bytes (local_array 2048) 0 bytes;
        buf ← store1 buf nread 0;
        '(_, _, p) ← foldM (policy_byte nread) (seqZ 0 (nread + 1)) (buf, 0, perm_init);
        Ret (0, p)
  end.

(** ** The test of a call *)

Section check.
Context (cwd : option dentry) (tokens : list json_token).

(** The input, or [None] for NULL. *)
Definition input_path (input_json : option (list Z)) (input_len : Z) (key : string) : outcome (Z * list Z) :=
  match input_json with
  | None => Ret (-1, local_array AGENT_PATH_MAX)
  | Some js => agent_json_get_normalized_path cwd tokens js input_len (c_string key) (local_array AGENT_PATH_MAX) AGENT_PATH_MAX
  end.

(** Whether a path was found that the rules do not allow. *)
Definition refused (found : Z * list Z) (allow deny : rules) : outcome bool :=
  if 0 <? found.1 then ok ← path_allowed found.2 allow deny; Ret (negb ok) else Ret false.

Fixpoint command_denied (command : list Z) (rules : list (list Z)) (n : nat) (i : Z) : outcome bool :=
  match n with
  | O => Ret false
  | S n =>
      rule ← load1 rules i;
      r ← strstr command 0 rule 0;
      match r with Some _ => Ret true | None => command_denied command rules n (i + 1) end
  end.

Definition perm_check_tool (policy : permission_policy) (tool_name : list Z) (input_json : option (list Z)) (input_len : Z) : outcome bool :=
  read_file ← is_string tool_name "read_file";
  list_dir ← is_string tool_name "list_dir";
  match p_mode policy with
  | PERM_PERMISSIVE => Ret true
  | PERM_STRICT => info ← is_string tool_name "get_system_info"; Ret (read_file || list_dir || info)
  | PERM_STANDARD =>
      write_file ← is_string tool_name "write_file";
      rename_path ← is_string tool_name "rename_path";
      path ← (if read_file || list_dir || write_file then input_path input_json input_len "path" else Ret (-1, []));
      from_path ← (if rename_path : bool then input_path input_json input_len "from" else Ret (-1, []));
      to_path ← (if rename_path : bool then input_path input_json input_len "to" else Ret (-1, []));
      no ← (if read_file || list_dir then refused path (read_allow policy) (read_deny policy) else Ret false);
      if no : bool then Ret false
      else
        no ← (if write_file : bool then refused path (write_allow policy) (write_deny policy) else Ret false);
        if no : bool then Ret false
        else
          no ← (if rename_path : bool then refused from_path (write_allow policy) (write_deny policy) else Ret false);
          if no : bool then Ret false
          else
            no ← (if rename_path : bool then refused to_path (write_allow policy) (write_deny policy) else Ret false);
            if no : bool then Ret false
            else
              run_command ← is_string tool_name "run_command";
              match input_json with
              | Some js =>
                  if run_command : bool then
                    '(clen, command) ← agent_json_get_string_field tokens js input_len (c_string "command") (local_array 512) 512;
                    if 0 <? clen then
                      denied ← command_denied command (r_paths (deny_commands policy)) (Z.to_nat (r_count (deny_commands policy))) 0;
                      Ret (negb denied)
                    else Ret true
                  else Ret true
              | None => Ret true
              end
  end.
End check.
