(* ===== verification/PermissionsProps.v ===== *)
(** * Permissions of the agent: what a policy allows

    The rules of a policy as lists of components, and the decision of
    [perm_check_tool] on a call with a JSON input. *)

From Stdlib Require Import String.
From S2P Require Import Prelude Ring KString UString Stdio Utf8 Json JsonWrite JsonParse JsonRead JsonProps Path PathNormal Permissions.

(** ** Rules *)

(** The rules in use are the absolute paths of the given components. *)
Record rules_hold (r : rules) (rss : list (list (list Z))) : Prop := {
  rh_count : r_count r = Z.of_nat (length rss);
  rh_proper : Forall proper rss;
  rh_short : Forall (fun rs => Z.of_nat (length (abs rs)) < 2 ^ 31) rss;
  rh_paths : Forall2 (fun rule rs => holds rule (abs rs)) (take (length rss) (r_paths r)) rss
}.

Definition covered (cs : list (list Z)) (rss : list (list (list Z))) : Prop := Exists (fun rs => rs `prefix_of` cs) rss.

Definition allowed (cs : list (list Z)) (allow deny : list (list (list Z))) : Prop := (allow = [] ∨ covered cs allow) ∧ ¬ covered cs deny.

#[export] Instance covered_dec cs rss : Decision (covered cs rss).
Proof. unfold covered. apply _. Defined.

#[export] Instance allowed_dec cs allow deny : Decision (allowed cs allow deny).
Proof. unfold allowed. apply _. Defined.

Lemma matches_loop_spec path cs paths rss : proper cs → holds path (abs cs) →
  Forall proper rss → Forall (fun rs => Z.of_nat (length (abs rs)) < 2 ^ 31) rss → ∀ i,
  Forall2 (fun rule rs => holds rule (abs rs)) (take (length rss) (drop (Z.to_nat i) paths)) rss → 0 ≤ i →
  matches_loop path paths (length rss) i = Ret (bool_decide (covered cs rss)).
Proof.
  intros Hcs Hp Hrs. induction Hrs as [|rs rss Hr _ IH]; intros Hshort i H2 Hi; cbn [length matches_loop].
  - rewrite bool_decide_eq_false_2; [done|]. by intros ?%Exists_nil.
  - apply Forall_cons in Hshort as [Hs Hshort]. cbn [length] in H2. destruct (drop (Z.to_nat i) paths) as [|rule rest] eqn:E; [by inversion H2|].
    rewrite firstn_cons in H2. apply Forall2_cons in H2 as [Hrule H2].
    assert (paths !! Z.to_nat i = Some rule) as Hl by (apply (f_equal (fun l => l !! 0%nat)) in E; by rewrite lookup_drop, Nat.add_0_r in E).
    assert (drop (Z.to_nat (i + 1)) paths = rest) as E'.
    { replace (Z.to_nat (i + 1)) with (Z.to_nat i + 1)%nat by lia. by rewrite <-drop_drop, E. }
    rewrite (load1_Ret _ _ rule), bind_ret by done. rewrite (path_is_under_correct path rule cs rs), bind_ret by done.
    destruct (decide (rs `prefix_of` cs)) as [Hin|Hin]; [rewrite (bool_decide_eq_true_2 (rs `prefix_of` cs)) by done|rewrite (bool_decide_eq_false_2 (rs `prefix_of` cs)) by done].
    + rewrite bool_decide_eq_true_2; [done|]. by apply Exists_cons_hd.
    + rewrite IH by (done || lia || by rewrite E'). f_equal. apply bool_decide_ext. unfold covered. rewrite Exists_cons. naive_solver.
Qed.

Lemma path_allowed_spec path cs allow deny r_allow r_deny : proper cs → holds path (abs cs) →
  rules_hold r_allow allow → rules_hold r_deny deny → path_allowed path r_allow r_deny = Ret (bool_decide (allowed cs allow deny)).
Proof.
  intros Hcs Hp [A1 A2 A3 A4] [D1 D2 D3 D4]. unfold path_allowed, path_matches_any. rewrite A1, D1, !Nat2Z.id.
  rewrite (matches_loop_spec path cs (r_paths r_deny) deny) by done.
  destruct allow as [|a allow].
  - change (0 <? Z.of_nat (length (@nil (list (list Z))))) with false. cbv iota. rewrite !bind_ret. cbn [negb]. f_equal. rewrite <-bool_decide_not. apply bool_decide_ext. unfold allowed. naive_solver.
  - destruct (Z.ltb_spec 0 (Z.of_nat (length (a :: allow)))); [|simpl in *; lia]. rewrite (matches_loop_spec path cs (r_paths r_allow) (a :: allow)), bind_ret by done.
    destruct (decide (covered cs (a :: allow))) as [Hin|Hin]; [rewrite (bool_decide_eq_true_2 (covered cs (a :: allow))) by done|rewrite (bool_decide_eq_false_2 (covered cs (a :: allow))) by done]; cbn [negb].
    + rewrite bind_ret. f_equal. rewrite <-bool_decide_not. apply bool_decide_ext. unfold allowed. naive_solver.
    + f_equal. symmetry. apply bool_decide_eq_false_2. unfold allowed. naive_solver.
Qed.

(** ** The path of a call *)

Lemma split_length s : length (conc (split s)) = S (length s).
Proof.
  induction s as [|c s IH]; [done|]. cbn [split]. destruct (c =? 0x2f).
  - change (conc ([] :: split s)) with (0x2f :: conc (split s)). simpl. by rewrite IH.
  - destruct (split_nonempty s) as (seg & segs & E). rewrite E in *. change (conc (seg :: segs)) with (0x2f :: seg ++ conc segs) in IH.
    change (conc ((c :: seg) :: segs)) with (0x2f :: c :: seg ++ conc segs). simpl in *. lia.
Qed.

Lemma conc_filter_length P `{!∀ x, Decision (P x)} l : (length (conc (filter P l)) ≤ length (conc l))%nat.
Proof.
  induction l as [|x l IH]; [done|]. rewrite filter_cons. change (conc (x :: l)) with (0x2f :: x ++ conc l).
  case_decide; [change (conc (x :: filter P l)) with (0x2f :: x ++ conc (filter P l))|]; simpl; rewrite !length_app; lia.
Qed.

(** The normal form is not longer than the path. *)
Lemma normal_length s : (length (abs (components s)) ≤ S (length s))%nat.
Proof.
  pose proof (conc_filter_length (fun seg => seg ≠ [] ∧ seg ≠ [0x2e]) (split s)) as H. rewrite split_length in H.
  unfold components. destruct (filter _ (split s)) eqn:E; [simpl; lia|]. exact H.
Qed.

Lemma components_proper s : text s → proper (components s).
Proof.
  intros Hs. assert (Forall text (split s)) as H.
  { induction Hs as [|c s Hc _ IH]; [repeat constructor|]. cbn [split]. destruct (c =? 0x2f); [by constructor; [constructor|]|].
    destruct (split s) as [|seg segs]; [apply Forall_singleton, Forall_singleton; done|]. apply Forall_cons in IH as [? ?]. constructor; [by constructor|done]. }
  pose proof (components_plain s) as Hp. unfold proper. rewrite Forall_forall in Hp, H |- *. intros seg Hin. destruct (Hp seg Hin).
  split_and!; try done. apply H. unfold components in Hin. by apply list_elem_of_filter in Hin as [_ ?].
Qed.

Section call.
Context (cwd : option dentry) (tokens : list json_token).

(** The string member of a request. *)
Lemma string_field js l1 k s l2 key out cap :
  let v := JObject (l1 ++ (k, JString s) :: l2) in
  json_ok v → Z.of_nat (length (render v)) < 2 ^ 31 → take (length (render v)) js = render v → (ntok v ≤ 32 ≤ length tokens)%nat →
  string_at key 0 (key_bytes k) → Forall (fun kv => key_bytes kv.1 ≠ key_bytes k) l1 →
  Z.of_nat (length (utf8_text s)) < cap → cap ≤ Z.of_nat (length out) →
  ∃ out', agent_json_get_string_field tokens js (Z.of_nat (length (render v))) key out cap = Ret (Z.of_nat (length (utf8_text s)), out') ∧
    store_bytes out 0 (utf8_text s ++ [0]) = Ret out'.
Proof.
  intros v Hok Hlen Hjs Hnt Hkey Hl1 Hcap Hout. unfold agent_json_get_string_field. destruct (Z.leb_spec cap 0); [lia|].
  rewrite (json_parse_text v js 32 tokens Hok Hlen Hjs) by lia. rewrite bind_ret. destruct (Z.ltb_spec (Z.of_nat (ntok v)) 0); [lia|].
  assert (Z.of_nat (length (render v)) ≤ Z.of_nat (length js)) as Hjl.
  { apply (f_equal length) in Hjs. rewrite length_take in Hjs. lia. }
  destruct (object_lookup js (Z.of_nat (length (render v))) (tokens_of v 0 0 (-1) ++ drop (ntok v) tokens) l1 k (JString s) l2 key)
    as (i & pos & Hf & Hi & Hti & rest & Hri); try done.
  { split; [done|]. by exists (drop (ntok v) tokens). }
  fold v in Hf. rewrite Hf, bind_ret. destruct (Z.ltb_spec i 0); [lia|].
  assert (Forall char_ok s) as Hs.
  { apply object_ok in Hok. apply Forall_app in Hok as [_ Hok]. by apply Forall_cons in Hok as [[_ ?] _]. }
  destruct (string_value js _ _ s i pos (i - 1) rest out cap Hjl Hlen Hs Hti Hri Hcap Hout) as (t & out' & Ht & Hstr & Hst).
  rewrite Ht, bind_ret, Hstr. by exists out'.
Qed.

(** An absolute path without a component of two dots. *)
Lemma resolve_absolute raw p :
  string_at raw 0 (0x2f :: p) → Forall (fun seg => seg ≠ dots) (components p) → Z.of_nat (length p) < 255 →
  ∃ out, agent_resolve_path cwd raw (local_array AGENT_PATH_MAX) AGENT_PATH_MAX = Ret (Z.of_nat (length (abs (components p))), out) ∧
    holds out (abs (components p)).
Proof.
  intros Hraw Hdots Hl. unfold agent_resolve_path. change (AGENT_PATH_MAX <=? 1) with false. cbv iota.
  pose proof (string_lookup raw _ 0 Hraw ltac:(simpl; lia)) as E. change (Z.of_nat 0) with 0 in E. rewrite E, bind_ret.
  change (default 0 ((0x2f :: p) !! 0%nat)) with 0x2f. cbn [Z.eqb Pos.eqb]. pose proof (normal_length p) as Hn.
  destruct (normalize_absolute raw p (local_array AGENT_PATH_MAX) AGENT_PATH_MAX Hraw Hdots) as (out & -> & _ & Hh); [done|done|].
  unfold AGENT_PATH_MAX in *. destruct (Z.ltb_spec (Z.of_nat (length (abs (components p)))) 256); [|lia]. exists out. split; [done|]. by apply Hh.
Qed.

Lemma input_path_spec js l1 k s l2 p :
  let v := JObject (l1 ++ (chars k, JString s) :: l2) in
  json_ok v → Z.of_nat (length (render v)) < 2 ^ 31 → take (length (render v)) js = render v → (ntok v ≤ 32 ≤ length tokens)%nat →
  text (chars k) → key_bytes (chars k) = chars k → Forall (fun kv => key_bytes kv.1 ≠ chars k) l1 →
  utf8_text s = 0x2f :: p → text p → Z.of_nat (length p) < 255 → Forall (fun seg => seg ≠ dots) (components p) →
  ∃ out, input_path cwd tokens (Some js) (Z.of_nat (length (render v))) k = Ret (Z.of_nat (length (abs (components p))), out) ∧ holds out (abs (components p)).
Proof.
  intros v Hok Hlen Hjs Hnt Hk Hkb Hl1 Hs Hp Hl Hdots. unfold input_path, agent_json_get_normalized_path.
  destruct (string_field js l1 (chars k) s l2 (c_string k) (local_array AGENT_PATH_MAX) AGENT_PATH_MAX) as (raw & E & Hst); try done.
  - rewrite Hkb. by apply literal_at.
  - by rewrite Hkb.
  - rewrite Hs. unfold AGENT_PATH_MAX. simpl. lia.
  - fold v in E. rewrite E, bind_ret. destruct (Z.ltb_spec (Z.of_nat (length (utf8_text s))) 0); [lia|]. apply resolve_absolute; try done. rewrite Hs in Hst.
    apply holds_string; [by constructor|]. destruct (take_stored (local_array AGENT_PATH_MAX) 0 ((0x2f :: p) ++ [0]) raw) as [Ht _]; [lia|done|].
    unfold holds. rewrite take_0, length_app in Ht. exact Ht.
Qed.
End call.

(** ** Decisions *)

(** The rules for the path of a tool. *)
Definition rules_of (tool : string) (policy : permission_policy) : option (rules * rules) :=
  if decide (tool = "read_file" ∨ tool = "list_dir")%string then Some (read_allow policy, read_deny policy)
  else if decide (tool = "write_file")%string then Some (write_allow policy, write_deny policy)
  else None.

Lemma refused_spec n path cs allow deny r_allow r_deny :
  0 < n → proper cs → holds path (abs cs) → rules_hold r_allow allow → rules_hold r_deny deny →
  refused (n, path) r_allow r_deny = Ret (negb (bool_decide (allowed cs allow deny))).
Proof.
  intros Hn Hcs Hp Ha Hd. unfold refused. cbn [fst snd]. destruct (Z.ltb_spec 0 n); [|lia].
  by rewrite (path_allowed_spec path cs allow deny) by done.
Qed.

Lemma abs_positive cs : 0 < Z.of_nat (length (abs cs)).
Proof. destruct cs; simpl; lia. Qed.

(** The comparisons of the name of a tool. *)
Ltac known_strings :=
  repeat match goal with
  | |- context [is_string ?a ?b] => let r := eval vm_compute in (is_string a b) in change (is_string a b) with r
  end;
  rewrite !bind_ret; cbn [orb].

Lemma check_path_spec cwd tokens policy tool r_allow r_deny allow deny js l1 s l2 p :
  let v := JObject (l1 ++ (chars "path", JString s) :: l2) in
  p_mode policy = PERM_STANDARD → rules_of tool policy = Some (r_allow, r_deny) → rules_hold r_allow allow → rules_hold r_deny deny →
  json_ok v → Z.of_nat (length (render v)) < 2 ^ 31 → take (length (render v)) js = render v → (ntok v ≤ 32 ≤ length tokens)%nat →
  Forall (fun kv => key_bytes kv.1 ≠ chars "path") l1 →
  utf8_text s = 0x2f :: p → text p → Z.of_nat (length p) < 255 → Forall (fun seg => seg ≠ dots) (components p) →
  perm_check_tool cwd tokens policy (c_string tool) (Some js) (Z.of_nat (length (render v))) =
    Ret (bool_decide (allowed (components p) allow deny)).
Proof.
  intros v Hmode Htool Ha Hd Hok Hlen Hjs Hnt Hl1 Hs Hp Hl Hdots.
  destruct (input_path_spec cwd tokens js l1 "path" s l2 p) as (path & E & Hh); try done; [repeat constructor; done|]. fold v in E.
  pose proof (refused_spec _ path _ allow deny r_allow r_deny (abs_positive (components p)) (components_proper p Hp) Hh Ha Hd) as Hr.
  unfold perm_check_tool. rewrite Hmode. unfold rules_of in Htool.
  destruct (decide (tool = "read_file" ∨ tool = "list_dir")%string) as [[-> | ->]|_].
  - injection Htool as <- <-. known_strings. rewrite E, !bind_ret. rewrite Hr, !bind_ret. by destruct (bool_decide _).
  - injection Htool as <- <-. known_strings. rewrite E, !bind_ret. rewrite Hr, !bind_ret. by destruct (bool_decide _).
  - destruct (decide (tool = "write_file")%string) as [->|]; [|done]. injection Htool as <- <-. known_strings. rewrite E, !bind_ret. rewrite Hr, !bind_ret. by destruct (bool_decide _).
Qed.


(** A policy with two allowed trees and one denied, and a call that writes into the first. *)
Definition sample_policy : permission_policy :=
  Policy PERM_STANDARD (no_rules 256) (no_rules 256) (Rules [c_string "/home/user"; c_string "/tmp"] 2) (Rules [c_string "/home/user/secret"] 1) (no_rules 64).

Definition sample_call (path : string) : json := JObject [(chars "mode", JString (chars "append")); (chars "path", JString (chars path))].

Lemma sample_rules :
  rules_hold (write_allow sample_policy) [[chars "home"; chars "user"]; [chars "tmp"]] ∧
  rules_hold (write_deny sample_policy) [[chars "home"; chars "user"; chars "secret"]].
Proof. split; constructor; first [done|by repeat constructor]. Qed.

Lemma sample_call_ok path : forallb (fun cp => (0 <=? cp) && utf8_is_valid_codepoint cp) (chars path) = true → json_ok (sample_call path).
Proof.
  intros H. assert (∀ l, forallb (fun cp => (0 <=? cp) && utf8_is_valid_codepoint cp) l = true → Forall char_ok l) as Hl.
  { intros l. rewrite forallb_forall, Forall_forall. intros H' cp Hin. apply list_elem_of_In in Hin. apply H', andb_true_iff in Hin as [? ?]. unfold char_ok. split_and?; (done || lia). }
  assert (∀ k, forallb (fun cp => (0 <? cp) && utf8_is_valid_codepoint cp) k = true → key_ok k) as Hk.
  { intros k. unfold key_ok. rewrite forallb_forall, Forall_forall. intros H' cp Hin. apply list_elem_of_In in Hin. apply H', andb_true_iff in Hin as [? ?]. unfold char_ok. split_and?; (done || lia). }
  cbn [json_ok sample_call foldr fst snd]. split_and!; try (by apply Hk); try (by apply Hl); done.
Qed.


(** Two dots leave a slash behind, and a denied tree is reached through it. *)
Example dots_reach_denied :
  let decide_on path :=
    '(_, out) ← agent_normalize_path (c_string path) (local_array 32) 32;
    ok ← path_allowed out (write_allow sample_policy) (write_deny sample_policy);
    Ret (take 21 out, ok) in
  decide_on "/home/user/secret/f"%string = Ret (chars "/home/user/secret/f" ++ [0; 0], false) ∧
  decide_on "/home/user/x/../secret/f"%string = Ret (chars "/home/user//secret/f" ++ [0], true).
Proof. split; reflexivity. Qed.

(** With more than 32 tokens the input is not parsed, no path is found, and the call is
    allowed whatever the rules say. *)
Example many_tokens_allowed :
  let call l := render (JObject [(chars "path", JString (chars "/home/user/secret/f")); (chars "x", JArray l)]) in
  let check js := perm_check_tool None (replicate 32 fresh_token) sample_policy (c_string "write_file") (Some js) (Z.of_nat (length js)) in
  check (call []) = Ret false ∧ check (call (replicate 28 JNull)) = Ret true.
Proof. split; vm_compute; reflexivity. Qed.

(** ** Adding rules *)

Definition rules_fit (r : rules) : Prop := length (r_paths r) = 16%nat ∧ Forall (fun rule => length rule = 256%nat) (r_paths r).

Lemma safe_str_spec dst src t : holds src t → text t → length dst = 256%nat → (length t < 256)%nat →
  ∃ dst', safe_str dst 256 src 0 = Ret dst' ∧ holds dst' t ∧ length dst' = 256%nat.
Proof.
  intros Hh Ht Hl Hlt. pose proof (holds_length _ _ Hh) as Hls. unfold safe_str. change (256 <=? 0) with false. cbv iota.
  rewrite (strlen_value src 0 t) by (by apply holds_string || (unfold U32; lia)). rewrite bind_ret, i32_small by lia.
  destruct (Z.leb_spec 256 (Z.of_nat (length t))); [lia|]. rewrite load_bytes_Ret by lia. rewrite bind_ret.
  change (Z.to_nat 0) with 0%nat. rewrite drop_0, Nat2Z.id, (holds_take _ _ Hh).
  destruct (store_bytes_Ret dst 0 (t ++ [0])) as (dst' & E & _); [lia|rewrite length_app; simpl; lia|].
  destruct (take_stored dst 0 (t ++ [0]) dst') as [Htk Hlen]; [lia|done|]. rewrite store_bytes_app in E by lia. apply bind_ret_inv in E as (d1 & E1 & E).
  rewrite E1, bind_ret. destruct (store_bytes_length _ _ _ _ E1) as [Hl1 _].
  rewrite store_bytes_cons, store1_Ret, bind_ret, store_bytes_nil in E by (rewrite ?length_insert; lia). injection E as E. rewrite Z.add_0_l in E.
  rewrite store1_Ret by lia. rewrite E. exists dst'. split; [done|]. split; [|lia]. unfold holds. rewrite take_0, length_app in Htk. exact Htk.
Qed.

Lemma set_rule_spec r rss src rs : rules_hold r rss → rules_fit r → (length rss < 16)%nat → proper rs → holds src (abs rs) → (length (abs rs) < 256)%nat →
  ∃ r', set_rule r 256 src 0 = Ret r' ∧ rules_hold r' (rss ++ [rs]) ∧ rules_fit r'.
Proof.
  intros [H1 H2 H3 H4] [F1 F2] Hroom Hrs Hsrc Hl. unfold set_rule. rewrite H1.
  destruct (lookup_lt_is_Some_2 (r_paths r) (length rss)) as [rule Hrule]; [lia|].
  rewrite (load1_Ret _ _ rule), bind_ret by (rewrite ?Nat2Z.id; done || lia). pose proof (Forall_lookup_1 _ _ _ _ F2 Hrule) as Hlr. cbn in Hlr.
  destruct (safe_str_spec rule src (abs rs) Hsrc (abs_text rs Hrs) Hlr Hl) as (rule' & -> & Hh & Hlr'). rewrite bind_ret, store1_Ret, bind_ret by lia.
  rewrite Nat2Z.id. eexists. split; [done|]. split.
  - constructor; cbn [r_count r_paths]; [rewrite length_app; simpl; lia|apply Forall_app; by split; [|constructor]|apply Forall_app; split; [done|constructor; [lia|done]]|].
    rewrite length_app. replace (length rss + length [rs])%nat with (S (length rss)) by (simpl; lia).
    rewrite (take_S_r _ _ rule') by (apply list_lookup_insert_eq; lia). rewrite take_insert_ge by lia. apply Forall2_app; [done|]. by constructor.
  - split; cbn [r_paths]; [by rewrite length_insert|]. by apply Forall_insert.
Qed.

(** A rule for an absolute path is stored with the components of the path. *)
Lemma store_rule_spec r rss value off p :
  rules_hold r rss → rules_fit r → (length rss < 16)%nat → string_at value off (0x2f :: p) → Forall (fun seg => seg ≠ dots) (components p) →
  (length p < 255)%nat → ∃ r', store_path_rule r value off = Ret (0, r') ∧ rules_hold r' (rss ++ [components p]) ∧ rules_fit r'.
Proof.
  intros Hr Hf Hroom Hv Hdots Hl. unfold store_path_rule. rewrite (rh_count _ _ Hr). destruct (Z.leb_spec PERM_MAX_PATH_RULES (Z.of_nat (length rss))).
  { unfold PERM_MAX_PATH_RULES in *. lia. }
  destruct (string_behind _ _ _ Hv) as [rest ->]. rewrite bind_ret. pose proof (at_text _ _ _ Hv) as Ht. apply Forall_cons in Ht as [_ Ht].
  destruct (normalize_absolute ((0x2f :: p) ++ 0 :: rest) p (local_array 256) 256) as (out & E & _ & Hh); [|done|lia|done|].
  { constructor; [apply Hv|done|by exists rest]. }
  rewrite E, bind_ret. pose proof (normal_length p) as Hn. destruct (Z.ltb_spec (Z.of_nat (length (abs (components p)))) 256); [|lia].
  destruct (Z.ltb_spec (Z.of_nat (length (abs (components p)))) 0); [lia|].
  destruct (set_rule_spec r rss out (components p) Hr Hf Hroom (components_proper p Ht)) as (r' & -> & Hr' & Hf'); [by apply Hh|lia|].
  rewrite bind_ret. by exists r'.
Qed.

Lemma no_rules_hold : rules_hold (no_rules 256) [] ∧ rules_fit (no_rules 256).
Proof.
  split; [constructor; try done; constructor|]. split; [by vm_compute|]. apply Forall_replicate. apply length_replicate.
Qed.

(** ** The default policy *)

Definition default_allow : list (list (list Z)) := [[chars "home"; chars "user"]; [chars "tmp"]; [chars "var"; chars "agent"]].
Definition default_deny : list (list (list Z)) := [[chars "boot"]; [chars "etc"; chars "agent"]].

(** A rule that can be stored: an absolute path that fits, without a component of two dots. *)
Definition storable (s : string) : bool :=
  match chars s with
  | [] => false
  | c :: p =>
      (c =? 0x2f) && forallb (fun c => (0 <? c) && (c <? 256)) p && forallb (fun seg => bool_decide (seg ≠ dots)) (components p) && (length p <? 255)%nat
  end.

Lemma store_literal r rss s :
  rules_hold r rss → rules_fit r → (length rss < 16)%nat → storable s = true →
  ∃ r', store_path_rule r (c_string s) 0 = Ret (0, r') ∧ rules_hold r' (rss ++ [components (drop 1 (chars s))]) ∧ rules_fit r'.
Proof.
  intros Hr Hf Hl Hs. unfold storable in Hs. destruct (chars s) as [|c p] eqn:E; [done|]. rewrite !andb_true_iff in Hs. destruct Hs as [[[Hc Ht] Hd] Hp].
  apply Z.eqb_eq in Hc as ->. change (drop 1 (0x2f :: p)) with p. apply store_rule_spec; try done.
  - unfold c_string. rewrite E. apply literal_at. constructor; [lia|]. apply Forall_forall. intros c Hin. rewrite forallb_forall in Ht.
    apply list_elem_of_In, Ht, andb_true_iff in Hin as [? ?]. lia.
  - apply Forall_forall. intros seg Hin. rewrite forallb_forall in Hd. apply list_elem_of_In, Hd, bool_decide_eq_true_1 in Hin. done.
  - by apply Nat.ltb_lt.
Qed.

(** The fields of a policy that is built step by step. *)
Ltac fields :=
  cbn beta zeta iota;
  cbn [perm_init with_read_allow with_write_allow with_write_deny p_mode read_allow read_deny write_allow write_deny deny_commands].

Lemma default_rules : ∃ policy, perm_set_default = Ret policy ∧ p_mode policy = PERM_STANDARD ∧ rules_hold (read_allow policy) [[]] ∧
  rules_hold (read_deny policy) [] ∧ rules_hold (write_allow policy) default_allow ∧ rules_hold (write_deny policy) default_deny.
Proof.
  destruct no_rules_hold as [H0 F0]. unfold perm_set_default.
  destruct (store_literal (read_allow perm_init) [] "/" H0 F0) as (r1 & -> & R1 & _); [simpl; lia|done|]. rewrite bind_ret. cbn beta zeta iota.
  destruct (store_literal (no_rules 256) [] "/home/user/" H0 F0) as (r2 & E2 & R2 & F2); [simpl; lia|done|].
  destruct (store_literal r2 _ "/tmp/" R2 F2) as (r3 & E3 & R3 & F3); [simpl; lia|done|].
  destruct (store_literal r3 _ "/var/agent/" R3 F3) as (r4 & E4 & R4 & _); [simpl; lia|done|].
  destruct (store_literal (no_rules 256) [] "/boot/" H0 F0) as (r5 & E5 & R5 & F5); [simpl; lia|done|].
  destruct (store_literal r5 _ "/etc/agent/" R5 F5) as (r6 & E6 & R6 & _); [simpl; lia|done|].
  fields. rewrite E2, bind_ret. fields. rewrite E3, bind_ret. fields. rewrite E4, bind_ret. fields. rewrite E5, bind_ret. fields. rewrite E6, bind_ret. fields.
  assert (∃ r, (r ← set_rule (no_rules 64) 64 (c_string "rm -rf") 0; r ← set_rule r 64 (c_string "dd if=") 0; set_rule r 64 (c_string "mkfs") 0) = Ret r) as [r E]
    by (eexists; vm_compute; reflexivity).
  apply bind_ret_inv in E as (c1 & -> & E). apply bind_ret_inv in E as (c2 & C2 & E). rewrite bind_ret, C2, bind_ret, E, bind_ret.
  eexists. split; [done|]. split; [done|]. by split_and!.
Qed.

Lemma default_disjoint cs : covered cs default_allow → ¬ covered cs default_deny.
Proof.
  unfold covered, default_allow, default_deny. rewrite !Exists_cons, !Exists_nil. destruct cs as [|c cs].
  - intros [H|[H|[H|[]]]] _; by apply prefix_nil_not in H.
  - intros Ha Hd. assert (∀ a l, a :: l `prefix_of` c :: cs → a = c) as Hh by (intros a l H; by apply prefix_cons_inv_1 in H).
    destruct Ha as [H|[H|[H|[]]]], Hd as [H'|[H'|[]]]; apply Hh in H; apply Hh in H'; rewrite <-H in H'; discriminate H'.
Qed.

(** Under the default policy a write is allowed exactly below /home/user, /tmp and
    /var/agent. *)
Theorem default_policy_writes cwd tokens policy js l1 s l2 p :
  let v := JObject (l1 ++ (chars "path", JString s) :: l2) in
  perm_set_default = Ret policy →
  json_ok v → Z.of_nat (length (render v)) < 2 ^ 31 → take (length (render v)) js = render v → (ntok v ≤ 32 ≤ length tokens)%nat →
  Forall (fun kv => key_bytes kv.1 ≠ chars "path") l1 →
  utf8_text s = 0x2f :: p → text p → Z.of_nat (length p) < 255 → Forall (fun seg => seg ≠ dots) (components p) →
  perm_check_tool cwd tokens policy (c_string "write_file") (Some js) (Z.of_nat (length (render v))) =
    Ret (bool_decide (covered (components p) default_allow)).
Proof.
  intros v Hpol Hok Hlen Hjs Hnt Hl1 Hs Hp Hl Hdots. destruct default_rules as (policy' & E & Hm & _ & _ & Ha & Hd). rewrite E in Hpol. injection Hpol as <-.
  unfold v. rewrite (check_path_spec cwd tokens policy' "write_file" (write_allow policy') (write_deny policy') default_allow default_deny js l1 s l2 p) by done.
  f_equal. apply bool_decide_ext. unfold allowed. pose proof (default_disjoint (components p)). split; [by intros [[?|?] _]|]. intros Hc. split; [by right|auto].
Qed.
