(* ===== verification/Sse.v ===== *)
(** * Server-sent events: model of src/usr/lib/libagent/sse_parser.c

    The parser of the stream of events, over its line buffer and the event it builds,
    and the events a stream stands for.  Pointers that may be NULL are options. *)

From Stdlib Require Import String.
From S2P Require Import Prelude Ring KString UString.

(** ** The code *)

Definition SSE_MAX_EVENT_NAME : Z := 64.
Definition SSE_MAX_DATA_LEN : Z := 8192.

Inductive sse_event_type := SSE_EVENT_NONE | SSE_EVENT_DATA | SSE_EVENT_NEED_MORE | SSE_EVENT_ERROR | SSE_EVENT_DONE.

Record sse_event := Event { event_name : list Z; event_data : list Z; data_len : Z }.

Record sse_parser := Parser {
  line_buf : list Z;
  line_len : Z;
  pending : sse_event;
  has_event_name : bool;
  has_data : bool;
  consumed : Z }.

Definition min_int (a b : Z) : Z := if a <? b then a else b.

Definition reset_pending (p : sse_parser) : outcome sse_parser :=
  n ← store1 (event_name (pending p)) 0 0;
  d ← store1 (event_data (pending p)) 0 0;
  Ret (Parser (line_buf p) (line_len p) (Event n d 0) false false (consumed p)).

(** The part of [process_line] for an empty line. *)
Definition dispatch (p : sse_parser) (out : sse_event) : outcome (bool * sse_parser * sse_event) :=
  if has_data p then
    let e := pending p in
    b ← load_bytes (event_name e) 0 SSE_MAX_EVENT_NAME;
    name ← store_bytes (event_name out) 0 b;
    strip ← (if 0 <? data_len e then c ← load1 (event_data e) (data_len e - 1); Ret (c =? 0x0a) else Ret false);
    let len := if strip : bool then data_len e - 1 else data_len e in
    b ← load_bytes (event_data e) 0 len;
    d ← store_bytes (event_data out) 0 b;
    d ← store1 d len 0;
    name ←
      (if has_event_name p then Ret name
       else
         n ← UString.strncpy name 0 (c_string "message") 0 (SSE_MAX_EVENT_NAME - 1);
         store1 n (SSE_MAX_EVENT_NAME - 1) 0);
    p ← reset_pending (Parser (line_buf p) (line_len p) (Event (event_name e) (event_data e) len)
                        (has_event_name p) (has_data p) (consumed p));
    Ret (true, p, Event name d len)
  else p ← reset_pending p; Ret (false, p, out).

(** The loop that looks for a colon from [i] on. *)
Fixpoint find_colon (line : list Z) (i : Z) (n : nat) : outcome (option Z) :=
  match n with
  | O => Ret None
  | S n => c ← load1 line i; if c =? 0x3a then Ret (Some i) else find_colon line (i + 1) n
  end.

(** The value: the array it points into, the offset and the length. *)
Definition field_value (line : list Z) (len : Z) (colon : option Z) : outcome (Z * list Z * Z * Z) :=
  match colon with
  | Some i =>
      let value := i + 1 in
      space ← (if value <? len then c ← load1 line value; Ret (c =? 0x20) else Ret false);
      let value := if space : bool then value + 1 else value in
      Ret (i, line, value, len - value)
  | None => Ret (len, c_string "", 0, 0)
  end.

Definition set_event_name (p : sse_parser) (value : list Z) (off value_len : Z) : outcome sse_parser :=
  let copy := min_int value_len (SSE_MAX_EVENT_NAME - 1) in
  b ← load_bytes value off copy;
  n ← store_bytes (event_name (pending p)) 0 b;
  n ← store1 n copy 0;
  Ret (Parser (line_buf p) (line_len p) (Event n (event_data (pending p)) (data_len (pending p))) true (has_data p) (consumed p)).

Definition append_data (p : sse_parser) (value : list Z) (off value_len : Z) : outcome sse_parser :=
  let e := pending p in
  if data_len e + value_len + 1 <? SSE_MAX_DATA_LEN then
    b ← load_bytes value off value_len;
    d ← store_bytes (event_data e) (data_len e) b;
    d ← store1 d (data_len e + value_len) 0x0a;
    d ← store1 d (data_len e + value_len + 1) 0;
    Ret (Parser (line_buf p) (line_len p) (Event (event_name e) d (data_len e + value_len + 1)) (has_event_name p) true (consumed p))
  else Ret p.

(** [process_line] is called with the line buffer of the parser; the first result is
    whether an event was dispatched. *)
Definition process_line (p : sse_parser) (len : Z) (out : sse_event) : outcome (bool * sse_parser * sse_event) :=
  let line := line_buf p in
  if len =? 0 then dispatch p out
  else
    c ← load1 line 0;
    if c =? 0x3a then Ret (false, p, out)
    else
      colon ← find_colon line 0 (Z.to_nat len);
      '(name_len, value, off, value_len) ← field_value line len colon;
      is_event ← (if name_len =? 5 then r ← UString.memcmp line 0 (c_string "event") 0 5; Ret (r =? 0) else Ret false);
      if is_event : bool then p ← set_event_name p value off value_len; Ret (false, p, out)
      else
        is_data ← (if name_len =? 4 then r ← UString.memcmp line 0 (c_string "data") 0 4; Ret (r =? 0) else Ret false);
        if is_data : bool then p ← append_data p value off value_len; Ret (false, p, out)
        else Ret (false, p, out).

(** [memset] of the whole structure. *)
Definition sse_parser_init : outcome sse_parser :=
  reset_pending (Parser (replicate (Z.to_nat SSE_MAX_DATA_LEN) 0) 0
    (Event (replicate (Z.to_nat SSE_MAX_EVENT_NAME) 0) (replicate (Z.to_nat SSE_MAX_DATA_LEN) 0) 0) false false 0).

Definition at_line (p : sse_parser) (len cons : Z) : sse_parser :=
  Parser (line_buf p) len (pending p) (has_event_name p) (has_data p) cons.

Fixpoint feed_loop (fuel : nat) (p : sse_parser) (chunk : list Z) (chunk_len i : Z) (out : sse_event) :
    outcome (sse_event_type * sse_parser * sse_event) :=
  match fuel with
  | O => Hang
  | S fuel =>
      if i <? chunk_len then
        c ← load1 chunk i;
        if (c =? 0x0a) || (c =? 0x0d) then
          let next := i + 1 in
          two ← (if (c =? 0x0d) && (next <? chunk_len) then d ← load1 chunk next; Ret (d =? 0x0a) else Ret false);
          let next := if two : bool then next + 1 else next in
          '(event, p, out) ← process_line p (line_len p) out;
          if event : bool then Ret (SSE_EVENT_DATA, at_line p 0 next, out)
          else feed_loop fuel (at_line p 0 next) chunk chunk_len next out
        else if line_len p <? SSE_MAX_DATA_LEN - 1 then
          b ← store1 (line_buf p) (line_len p) c;
          feed_loop fuel (Parser b (line_len p + 1) (pending p) (has_event_name p) (has_data p) (consumed p)) chunk chunk_len (i + 1) out
        else Ret (SSE_EVENT_ERROR, at_line p (line_len p) chunk_len, out)
      else Ret (SSE_EVENT_NEED_MORE, at_line p (line_len p) chunk_len, out)
  end.

(** The results are the code and the two objects. *)
Definition sse_feed (p : option sse_parser) (chunk : option (list Z)) (chunk_len : Z) (out : option sse_event) :
    outcome (sse_event_type * option sse_parser * option sse_event) :=
  match p, out with
  | Some p, Some out =>
      match chunk with
      | Some ch =>
          if chunk_len <=? 0 then Ret (SSE_EVENT_NEED_MORE, Some (at_line p (line_len p) 0), Some out)
          else '(r, p, out) ← feed_loop (S (Z.to_nat (chunk_len - consumed p))) p ch chunk_len (consumed p) out;
               Ret (r, Some p, Some out)
      | None => Ret (SSE_EVENT_NEED_MORE, Some (at_line p (line_len p) 0), Some out)
      end
  | _, _ => Ret (SSE_EVENT_ERROR, p, out)
  end.

Definition sse_consumed (p : option sse_parser) : Z := match p with Some p => consumed p | None => 0 end.

Definition sse_parser_reset : outcome sse_parser := sse_parser_init.

(** ** The loop of the callers

    A received chunk is fed with [consumed] at zero until no more events come out of it. *)

Fixpoint drain_loop (fuel : nat) (p : sse_parser) (chunk : list Z) (out : sse_event) (events : list sse_event) :
    outcome (sse_event_type * sse_parser * sse_event * list sse_event) :=
  match fuel with
  | O => Hang
  | S fuel =>
      '(r, p', out') ← sse_feed (Some p) (Some chunk) (Z.of_nat (length chunk)) (Some out);
      match r, p', out' with
      | SSE_EVENT_DATA, Some p', Some out' => drain_loop fuel p' chunk out' (events ++ [out'])
      | r, p', out' => Ret (r, default p p', default out out', events)
      end
  end.

Definition receive (s : sse_event_type * sse_parser * sse_event * list sse_event) (chunk : list Z) :
    outcome (sse_event_type * sse_parser * sse_event * list sse_event) :=
  let '(r, p, out, events) := s in
  match r with
  | SSE_EVENT_ERROR => Ret s
  | _ => drain_loop (S (length chunk)) (at_line p (line_len p) 0) chunk out events
  end.

(** ** Events of a stream

    What the protocol of server-sent events says of a stream of bytes. *)

(** The lines that end in a stream, and what is behind them; [cur] is the start of the
    line. *)
Fixpoint split_lines (s cur : list Z) : list (list Z) * list Z :=
  match s with
  | [] => ([], cur)
  | c :: s =>
      if c =? 0x0a then let '(ls, r) := split_lines s [] in (cur :: ls, r)
      else if c =? 0x0d then
        match s with
        | d :: s' => if d =? 0x0a then let '(ls, r) := split_lines s' [] in (cur :: ls, r)
                     else let '(ls, r) := split_lines s [] in (cur :: ls, r)
        | [] => ([cur], [])
        end
      else split_lines s (cur ++ [c])
  end.

(** An event that is being built: its type and its data, each line of it ended. *)
Record building := Building { b_name : option (list Z); b_data : option (list Z) }.

Definition field_of (line : list Z) : list Z * list Z :=
  match list_find (fun c => c = 0x3a) line with
  | Some (i, _) =>
      let v := drop (S i) line in
      (take i line, match v with c :: v' => if c =? 0x20 then v' else v | [] => [] end)
  | None => (line, [])
  end.

Definition field_step (b : building) (field : list Z * list Z) : building :=
  let '(name, v) := field in
  if bool_decide (name = chars "event") then Building (Some v) (b_data b)
  else if bool_decide (name = chars "data") then Building (b_name b) (Some (default [] (b_data b) ++ v ++ [0x0a]))
  else b.

(** The type of an event: an empty one counts as none. *)
Definition event_type (n : option (list Z)) : list Z :=
  match n with None | Some [] => chars "message" | Some n => n end.

Definition line_step (b : building) (line : list Z) : building * list (list Z * list Z) :=
  match line with
  | [] =>
      (Building None None,
       match b_data b with
       | Some d => [(event_type (b_name b), take (length d - 1) d)]
       | None => []
       end)
  | c :: _ => (if c =? 0x3a then b else field_step b (field_of line), [])
  end.

Fixpoint run_lines (b : building) (ls : list (list Z)) : building * list (list Z * list Z) :=
  match ls with
  | [] => (b, [])
  | l :: ls => let '(b, e) := line_step b l in let '(b, es) := run_lines b ls in (b, e ++ es)
  end.

(** A chunk on its own; the state is the event that is built and the start of the line. *)
Definition run_chunk (s : building * list Z) (chunk : list Z) : building * list Z * list (list Z * list Z) :=
  let '(b, cur) := s in
  let '(ls, r) := split_lines chunk cur in
  let '(b, es) := run_lines b ls in (b, r, es).

Fixpoint run_chunks (s : building * list Z) (chunks : list (list Z)) : list (list Z * list Z) :=
  match chunks with
  | [] => []
  | c :: chunks => let '(b, r, es) := run_chunk s c in es ++ run_chunks (b, r) chunks
  end.

(** A byte order mark in front of the stream is not part of it. *)
Definition strip_bom (stream : list Z) : list Z :=
  if bool_decide (take 3 stream = [0xef; 0xbb; 0xbf]) then drop 3 stream else stream.

Definition events_of (stream : list Z) : list (list Z * list Z) := run_chunks (Building None None, []) [strip_bom stream].
