(* ===== verification/SseProps.v ===== *)
(** * Events come out as the stream says

    Feeding a stream in chunks gives the events that the standard defines, for streams
    without a byte order mark whose parts fit the buffers.  A terminator of two
    characters that is split between chunks counts twice. *)

From Stdlib Require Import String.
From S2P Require Import Prelude Ring KString UString Words Sse.

(** ** Representation *)

(** The sizes of the arrays, and [cur] read of the line. *)
Record at_cur (p : sse_parser) (cur : list Z) : Prop := {
  m_buf : Z.of_nat (length (line_buf p)) = 8192;
  m_len : line_len p = Z.of_nat (length cur);
  m_cur : take (length cur) (line_buf p) = cur;
  m_fits : Z.of_nat (length cur) ≤ 8191;
  m_name_size : length (event_name (pending p)) = 64%nat;
  m_data_size : Z.of_nat (length (event_data (pending p))) = 8192 }.

(** The event [b] is being built. *)
Record builds (p : sse_parser) (b : building) : Prop := {
  m_has_name : has_event_name p = bool_decide (is_Some (b_name b));
  m_name : ∀ n, b_name b = Some n → n ≠ [] ∧ (length n ≤ 63)%nat ∧ take (length (n ++ [0])) (event_name (pending p)) = n ++ [0];
  m_has_data : has_data p = bool_decide (is_Some (b_data b));
  m_data_len : data_len (pending p) = Z.of_nat (length (default [] (b_data b)));
  m_data : take (length (default [] (b_data b))) (event_data (pending p)) = default [] (b_data b);
  m_data_fits : Z.of_nat (length (default [] (b_data b))) < 8192;
  m_data_end : ∀ d, b_data b = Some d → ∃ d', d = d' ++ [0x0a] }.

Definition models (p : sse_parser) (b : building) (cur : list Z) : Prop := at_cur p cur ∧ builds p b.

Definition sized (out : sse_event) : Prop := length (event_name out) = 64%nat ∧ Z.of_nat (length (event_data out)) = 8192.

(** The object shows the event to a reader of C strings. *)
Record shows (out : sse_event) (e : list Z * list Z) : Prop := {
  s_name : take (length (e.1 ++ [0])) (event_name out) = e.1 ++ [0];
  s_data : take (length (e.2 ++ [0])) (event_data out) = e.2 ++ [0];
  s_len : data_len out = Z.of_nat (length e.2) }.

(** What the parser handles: lines and data that its buffers have room for, and types that
    are not empty and fit theirs. *)
Definition fits_line (b : building) (line : list Z) : Prop :=
  Z.of_nat (length line) ≤ 8191 ∧
  ((field_of line).1 = chars "event" → (1 ≤ length (field_of line).2 ≤ 63)%nat) ∧
  ((field_of line).1 = chars "data" → Z.of_nat (length (default [] (b_data b)) + length (field_of line).2) + 1 < 8192).

Fixpoint fits_lines (b : building) (ls : list (list Z)) : Prop :=
  match ls with
  | [] => True
  | l :: ls => fits_line b l ∧ fits_lines (line_step b l).1 ls
  end.

(** ** Fields *)

Lemma find_colon_spec line cur i : take (length cur) line = cur → (i ≤ length cur)%nat →
  find_colon line (Z.of_nat i) (length cur - i) =
  Ret ((fun r : nat * Z => Z.of_nat (i + r.1)) <$> list_find (fun c => c = 0x3a) (drop i cur)).
Proof.
  intros Hc Hi. remember (length cur - i)%nat as n eqn:En. revert i Hi En. induction n as [|n IH]; intros i Hi En.
  - rewrite drop_ge by lia. done.
  - destruct (lookup_lt_is_Some_2 cur i) as [c Ec]; [lia|]. cbn [find_colon].
    rewrite (load1_prefix line cur (Z.of_nat i) c) by (done || lia || by rewrite Nat2Z.id). rewrite bind_ret.
    rewrite (drop_S cur c i) by done. cbn [list_find]. case_decide as Hd.
    + subst c. rewrite Z.eqb_refl. simpl. do 2 f_equal. lia.
    + destruct (Z.eqb_spec c 0x3a); [done|]. replace (Z.of_nat i + 1) with (Z.of_nat (S i)) by lia. rewrite IH by lia. f_equal.
      destruct (list_find _ (drop (S i) cur)) as [[j y]|]; simpl; [|done]. do 2 f_equal. lia.
Qed.

(** The value as the code points at it. *)
Lemma field_value_spec line cur : take (length cur) line = cur → cur ≠ [] →
  ∃ colon value off, find_colon line 0 (length cur) = Ret colon ∧
    field_value line (Z.of_nat (length cur)) colon =
      Ret (Z.of_nat (length (field_of cur).1), value, off, Z.of_nat (length (field_of cur).2)) ∧
    take (length (field_of cur).1) cur = (field_of cur).1 ∧
    ∀ n, (n ≤ length (field_of cur).2)%nat → load_bytes value off (Z.of_nat n) = Ret (take n (field_of cur).2).
Proof.
  intros Hc Hne. pose proof (find_colon_spec line cur 0 Hc ltac:(lia)) as E. rewrite Nat.sub_0_r, drop_0 in E. change (Z.of_nat 0) with 0 in E.
  unfold field_of. destruct (list_find _ cur) as [[i c]|] eqn:Ef; simpl in E.
  - apply list_find_Some in Ef as (Ei & -> & _). pose proof (lookup_lt_Some _ _ _ Ei) as Hi.
    exists (Some (Z.of_nat i)).
    assert (∀ o n, (o + n ≤ length cur)%nat → load_bytes line (Z.of_nat o) (Z.of_nat n) = Ret (take n (drop o cur))) as L.
    { intros o n Ho. rewrite (load_bytes_prefix line cur) by (done || lia). by rewrite !Nat2Z.id. }
    unfold field_value. cbn [fst snd]. destruct (drop (S i) cur) as [|c v] eqn:Ed.
    + apply (f_equal length) in Ed. rewrite length_drop in Ed. simpl in Ed.
      exists line, (Z.of_nat i + 1). destruct (Z.ltb_spec (Z.of_nat i + 1) (Z.of_nat (length cur))); [lia|]. rewrite bind_ret.
      rewrite length_take, Nat.min_l by lia. split_and!; [done|simpl; do 2 f_equal; lia|done|].
      intros n Hn. simpl in Hn. replace n with 0%nat by lia. replace (Z.of_nat i + 1) with (Z.of_nat (S i)) by lia. by rewrite L by lia.
    + assert (length cur = S i + S (length v))%nat as Hl by (apply (f_equal length) in Ed; rewrite length_drop in Ed; simpl in Ed; lia).
      assert (cur !! S i = Some c) as Ec by (rewrite <-(Nat.add_0_r (S i)), <-lookup_drop, Ed; done).
      destruct (Z.ltb_spec (Z.of_nat i + 1) (Z.of_nat (length cur))); [|lia].
      rewrite (load1_prefix line cur _ c), !bind_ret by (done || lia || by replace (Z.to_nat (Z.of_nat i + 1)) with (S i) by lia).
      rewrite length_take, Nat.min_l by lia. destruct (c =? 0x20).
      * exists line, (Z.of_nat (S (S i))). replace (Z.of_nat i + 1 + 1) with (Z.of_nat (S (S i))) by lia.
        replace (Z.of_nat (length cur) - Z.of_nat (S (S i))) with (Z.of_nat (length v)) by lia. split_and!; [done|done|done|].
        intros n Hn. rewrite L by lia. by rewrite (drop_S cur c) in Ed by done; simplify_eq.
      * exists line, (Z.of_nat (S i)). replace (Z.of_nat i + 1) with (Z.of_nat (S i)) by lia.
        replace (Z.of_nat (length cur) - Z.of_nat (S i)) with (Z.of_nat (length (c :: v))) by (simpl; lia). split_and!; [done|done|done|].
        intros n Hn. simpl in Hn. rewrite L by lia. by rewrite Ed.
  - exists None, (c_string ""), 0. split_and!; [done|done|by rewrite firstn_all|]. intros n Hn. simpl in Hn. by replace n with 0%nat by lia.
Qed.

Lemma memcmp_name line cur name lit : take (length cur) line = cur → take (length name) cur = name → text lit →
  (if Z.of_nat (length name) =? Z.of_nat (length lit) then r ← UString.memcmp line 0 (lit ++ [0]) 0 (Z.of_nat (length lit)); Ret (r =? 0) else Ret false) =
  Ret (bool_decide (name = lit)).
Proof.
  intros Hc Hn Hlit. destruct (Z.eqb_spec (Z.of_nat (length name)) (Z.of_nat (length lit))) as [El|Hne].
  - apply Nat2Z.inj in El. unfold UString.memcmp, behind. change ((0 <=? 0) && (0 <=? Z.of_nat (length ?l))) with (0 <=? Z.of_nat (length l)).
    assert (length name ≤ length cur)%nat by (rewrite <-Hn, length_take; lia).
    assert (length cur ≤ length line)%nat by (rewrite <-Hc, length_take; lia).
    destruct (Z.leb_spec 0 (Z.of_nat (length line))); [|lia]. destruct (Z.leb_spec 0 (Z.of_nat (length (lit ++ [0])))); [|lia].
    rewrite !bind_ret, Nat2Z.id. change (drop (Z.to_nat 0) ?l) with l.
    destruct (UString.memcmp_loop_zero (length lit) line (lit ++ [0])) as (r & -> & Hr); [lia|rewrite length_app; lia|].
    rewrite bind_ret. f_equal. rewrite take_app_length in Hr. rewrite <-El in Hr.
    assert (take (length name) line = name) as Et.
    { rewrite <-Hc, take_take, Nat.min_l in Hn by lia. done. }
    rewrite Et in Hr. case_bool_decide as Hb; destruct (Z.eqb_spec r 0); tauto.
  - f_equal. symmetry. apply bool_decide_eq_false. congruence.
Qed.

(** ** Lines *)

Lemma sse_reset_spec p cur : at_cur p cur → ∃ p', reset_pending p = Ret p' ∧ models p' (Building None None) cur.
Proof.
  intros []. unfold reset_pending. rewrite !store1_Ret by lia. rewrite !bind_ret. eexists. split; [done|]. split; constructor; simpl; try done.
  all: by rewrite length_insert.
Qed.

Lemma message_text : text (chars "message").
Proof. apply (bool_decide_unpack _). vm_compute. exact I. Qed.

(** The name of an event that was given none. *)
Lemma default_name n : length n = 64%nat →
  ∃ n', (n ← UString.strncpy n 0 (c_string "message") 0 (SSE_MAX_EVENT_NAME - 1); store1 n (SSE_MAX_EVENT_NAME - 1) 0) = Ret n' ∧
    length n' = 64%nat ∧ take 8 n' = chars "message" ++ [0].
Proof.
  intros Hn. unfold SSE_MAX_EVENT_NAME. rewrite (UString.strncpy_exact _ 0 (chars "message")); [|apply literal_at, message_text|lia|lia].
  change (take (Z.to_nat (64 - 1)) (chars "message" ++ replicate (Z.to_nat (64 - 1)) 0)) with (chars "message" ++ [0] ++ replicate 55 0).
  destruct (store_bytes_take n [] (chars "message" ++ [0] ++ replicate 55 0) 0) as (n1 & -> & Hl & Ht); [done|done|rewrite Hn; vm_compute; lia|].
  rewrite bind_ret, store1_Ret by lia. eexists. split; [done|]. rewrite length_insert. split; [lia|].
  rewrite app_nil_l, app_assoc in Ht. apply take_shorter in Ht. rewrite take_insert_ge by (vm_compute; lia). exact Ht.
Qed.

Lemma builds_type p b : builds p b → event_type (b_name b) = default (chars "message") (b_name b).
Proof. intros Hb. destruct (b_name b) as [[|c n]|] eqn:E; try done. by destruct (m_name _ _ Hb [] E) as [? _]. Qed.

Lemma dispatch_spec p b cur out : models p b cur → sized out →
  ∃ ev p' out', dispatch p out = Ret (ev, p', out') ∧ models p' (Building None None) cur ∧ sized out' ∧
    match b_data b with
    | Some d => ev = true ∧ shows out' (event_type (b_name b), take (length d - 1) d)
    | None => ev = false
    end.
Proof.
  intros [Hp Hb] [Hon Hod]. rewrite (builds_type p b Hb). unfold dispatch. rewrite (m_has_data _ _ Hb). case_bool_decide as Hd.
  2:{ destruct (sse_reset_spec p cur Hp) as (p' & -> & Hm). rewrite bind_ret. exists false, p', out. destruct (b_data b); [|done]. by destruct Hd. }
  destruct Hd as [d Ed]. destruct (m_data_end _ _ Hb d Ed) as [d' ->]. rewrite Ed.
  pose proof (m_data _ _ Hb) as Hdat. pose proof (m_data_len _ _ Hb) as Hlen. pose proof (m_data_fits _ _ Hb) as Hfit.
  rewrite Ed in Hdat, Hlen, Hfit. cbn [default] in Hdat, Hlen, Hfit. unfold id in Hdat, Hlen, Hfit.
  pose proof (m_name_size _ _ Hp) as Hns. pose proof (m_data_size _ _ Hp) as Hds.
  rewrite load_bytes_Ret by (unfold SSE_MAX_EVENT_NAME; lia). change (drop (Z.to_nat 0) ?l) with l.
  rewrite take_ge by (rewrite Hns; done). rewrite bind_ret.
  destruct (store_bytes_take (event_name out) [] (event_name (pending p)) 0) as (n1 & -> & Hl1 & Ht1); [done|done|simpl; lia|].
  rewrite app_nil_l, Hns, take_ge in Ht1 by lia. subst n1. rewrite bind_ret, Hlen. rewrite length_app in *. cbn [length] in *.
  destruct (Z.ltb_spec 0 (Z.of_nat (length d' + 1))); [|lia].
  rewrite (load1_prefix _ (d' ++ [0x0a]) _ 0x0a); [|by rewrite length_app|lia|].
  2:{ replace (Z.to_nat (Z.of_nat (length d' + 1) - 1)) with (length d') by lia. by apply list_lookup_middle. }
  rewrite !bind_ret. rewrite Z.eqb_refl. cbv iota.
  replace (Z.of_nat (length d' + 1) - 1) with (Z.of_nat (length d')) by lia.
  rewrite (load_bytes_prefix _ (d' ++ [0x0a])) by (rewrite ?length_app; simpl; done || lia).
  change (drop (Z.to_nat 0) ?l) with l. rewrite Nat2Z.id, take_app_length, bind_ret.
  destruct (store_bytes_take (event_data out) [] d' 0) as (o1 & -> & Hlo & Hto); [done|done|simpl; lia|]. rewrite bind_ret, app_nil_l in *.
  destruct (store1_take o1 d' (Z.of_nat (length d')) 0) as (o2 & -> & Hlo2 & Hto2); [done|done|lia|]. rewrite bind_ret.
  assert (∃ n, (if has_event_name p then Ret (event_name (pending p))
      else n ← UString.strncpy (event_name (pending p)) 0 (c_string "message") 0 (SSE_MAX_EVENT_NAME - 1); store1 n (SSE_MAX_EVENT_NAME - 1) 0) = Ret n ∧
    length n = 64%nat ∧ take (length (default (chars "message") (b_name b) ++ [0])) n = default (chars "message") (b_name b) ++ [0]) as (n & -> & Hn & Htn).
  { rewrite (m_has_name _ _ Hb). case_bool_decide as Hs.
    - destruct Hs as [n En]. rewrite En. destruct (m_name _ _ Hb n En) as (_ & _ & Hn). by eexists.
    - assert (b_name b = None) as -> by (destruct (b_name b); [destruct Hs; by eexists|done]). by apply default_name. }
  rewrite bind_ret. match goal with |- context [reset_pending ?q] => destruct (sse_reset_spec q cur) as (p' & -> & Hm) end.
  { destruct Hp. by constructor. }
  rewrite bind_ret. eexists true, p', _. split; [done|]. split; [done|]. split; [split; simpl; lia|]. split; [done|].
  replace (length d' + 1 - 1)%nat with (length d') by lia. rewrite take_app_length. by constructor.
Qed.

Lemma set_event_name_spec p b cur value off v : models p b cur → (1 ≤ length v ≤ 63)%nat →
  (∀ n, (n ≤ length v)%nat → load_bytes value off (Z.of_nat n) = Ret (take n v)) →
  ∃ p', set_event_name p value off (Z.of_nat (length v)) = Ret p' ∧ models p' (Building (Some v) (b_data b)) cur.
Proof.
  intros [Hp Hb] Hlv Hv. unfold set_event_name, min_int, SSE_MAX_EVENT_NAME. change (64 - 1) with 63.
  assert ((if Z.of_nat (length v) <? 63 then Z.of_nat (length v) else 63) = Z.of_nat (length v)) as ->.
  { destruct (Z.ltb_spec (Z.of_nat (length v)) 63); lia. }
  rewrite Hv by lia. rewrite firstn_all, bind_ret. pose proof (m_name_size _ _ Hp) as Hns.
  destruct (store_bytes_take (event_name (pending p)) [] v 0) as (n1 & -> & Hl1 & Ht1); [done|done|simpl; lia|]. rewrite bind_ret.
  rewrite app_nil_l in Ht1. destruct (store1_take n1 v (Z.of_nat (length v)) 0) as (n2 & -> & Hl2 & Ht2); [done|done|lia|].
  rewrite bind_ret. eexists. split; [done|]. split.
  - destruct Hp. constructor; simpl; done || lia.
  - destruct Hb. constructor; simpl; try done. intros m [= <-]. split; [|split; [lia|done]]. intros ->. simpl in Hlv. lia.
Qed.

Lemma append_data_spec p b cur value off v : models p b cur →
  Z.of_nat (length (default [] (b_data b)) + length v) + 1 < 8192 →
  (∀ n, (n ≤ length v)%nat → load_bytes value off (Z.of_nat n) = Ret (take n v)) →
  ∃ p', append_data p value off (Z.of_nat (length v)) = Ret p' ∧ models p' (Building (b_name b) (Some (default [] (b_data b) ++ v ++ [0x0a]))) cur.
Proof.
  intros [Hp Hb] Hf Hv. unfold append_data, SSE_MAX_DATA_LEN. pose proof (m_data_size _ _ Hp) as Hds. rewrite (m_data_len _ _ Hb).
  set (d := default [] (b_data b)) in *. destruct (Z.ltb_spec (Z.of_nat (length d) + Z.of_nat (length v) + 1) 8192); [|lia].
  rewrite Hv by lia. rewrite firstn_all, bind_ret.
  destruct (store_bytes_take (event_data (pending p)) d v (Z.of_nat (length d))) as (d1 & -> & Hl1 & Ht1); [done|apply (m_data _ _ Hb)|lia|].
  rewrite bind_ret. destruct (store1_take d1 (d ++ v) (Z.of_nat (length d) + Z.of_nat (length v)) 0x0a) as (d2 & -> & Hl2 & Ht2);
    [rewrite length_app; lia|done|lia|]. rewrite bind_ret.
  destruct (store1_take d2 ((d ++ v) ++ [0x0a]) (Z.of_nat (length d) + Z.of_nat (length v) + 1) 0) as (d3 & -> & Hl3 & Ht3);
    [rewrite !length_app; simpl; lia|done|lia|]. rewrite bind_ret. eexists. split; [done|]. apply take_shorter in Ht3. rewrite <-app_assoc in Ht3. split.
  - destruct Hp. constructor; simpl; done || lia.
  - destruct Hb. constructor; simpl; try done.
    + rewrite !length_app. simpl. lia.
    + rewrite !length_app. simpl. lia.
    + intros ? [= <-]. exists (d ++ v). by rewrite app_assoc.
Qed.

Lemma process_line_spec p b cur out : models p b cur → sized out → fits_line b cur →
  ∃ ev p' out', process_line p (line_len p) out = Ret (ev, p', out') ∧ models p' (line_step b cur).1 cur ∧ sized out' ∧
    match (line_step b cur).2 with
    | [] => ev = false
    | e :: es => ev = true ∧ es = [] ∧ shows out' e
    end.
Proof.
  intros Hm Hout (_ & Htype & Hfit). destruct Hm as [Hp Hb]. unfold process_line. rewrite (m_len _ _ Hp). pose proof (m_cur _ _ Hp) as Hc.
  destruct (Z.eqb_spec (Z.of_nat (length cur)) 0) as [E0|Hne].
  { destruct cur; [|simpl in E0; lia]. destruct (dispatch_spec p b [] out (conj Hp Hb) Hout) as (ev & p' & out' & -> & Hm' & Ho' & Hev).
    exists ev, p', out'. split; [done|]. split; [done|]. split; [done|]. simpl. destruct (b_data b); [|done]. by destruct Hev. }
  destruct cur as [|c0 cur0] eqn:Ecur; [simpl in Hne; lia|]. rewrite <-Ecur in *.
  rewrite (load1_prefix _ cur 0 c0), bind_ret by (done || by rewrite Ecur).
  assert (line_step b cur = (if c0 =? 0x3a then b else field_step b (field_of cur), [])) as -> by by rewrite Ecur.
  destruct (Z.eqb_spec c0 0x3a).
  { exists false, p, out. by split_and!. }
  destruct (field_value_spec (line_buf p) cur Hc ltac:(by rewrite Ecur)) as (colon & value & off & Ef & Ev & Hn & Hv).
  rewrite Nat2Z.id, Ef, bind_ret, Ev, bind_ret. destruct (field_of cur) as [name v]. cbn [fst snd field_step] in *.
  pose proof (memcmp_name _ cur name (chars "event") Hc Hn ltac:(apply (bool_decide_unpack _); vm_compute; exact I)) as E1.
  change (Z.of_nat (length (chars "event"))) with 5 in E1. change (chars "event" ++ [0]) with (c_string "event") in E1. rewrite E1, bind_ret.
  case_bool_decide as He.
  { destruct (set_event_name_spec p b cur value off v (conj Hp Hb) (Htype He) Hv) as (p' & -> & Hm'). rewrite bind_ret. exists false, p', out. by split_and!. }
  pose proof (memcmp_name _ cur name (chars "data") Hc Hn ltac:(apply (bool_decide_unpack _); vm_compute; exact I)) as E2.
  change (Z.of_nat (length (chars "data"))) with 4 in E2. change (chars "data" ++ [0]) with (c_string "data") in E2. rewrite E2, bind_ret.
  case_bool_decide as Hd.
  { destruct (append_data_spec p b cur value off v (conj Hp Hb) (Hfit Hd) Hv) as (p' & -> & Hm'). rewrite bind_ret. exists false, p', out. by split_and!. }
  exists false, p, out. by split_and!.
Qed.

(** ** Chunks *)

Lemma split_lines_start s cur ls r : split_lines s cur = (ls, r) →
  (length cur ≤ length (hd r ls))%nat.
Proof.
  revert cur. induction s as [|c s IH]; intros cur E; cbn [split_lines] in E; [by simplify_eq|].
  destruct (c =? 0x0a); [destruct (split_lines s []); by simplify_eq|]. destruct (c =? 0x0d).
  - destruct s as [|d s']; [by simplify_eq|]. destruct (d =? 0x0a); destruct (split_lines _ []); by simplify_eq.
  - apply IH in E. rewrite length_app in E. simpl in E. lia.
Qed.

(** What is left of the terminator at the head of [c :: s]. *)
Definition after_end (c : Z) (s : list Z) : list Z :=
  if c =? 0x0d then match s with d :: s' => if d =? 0x0a then s' else s | [] => [] end else s.

Lemma split_lines_end c s cur : (c =? 0x0a) || (c =? 0x0d) = true →
  split_lines (c :: s) cur = (let '(ls, r) := split_lines (after_end c s) [] in (cur :: ls, r)).
Proof.
  intros Hc. cbn [split_lines]. unfold after_end. destruct (Z.eqb_spec c 0x0a) as [->|]; [done|]. cbn [orb] in Hc. rewrite Hc.
  destruct s as [|d s']; [done|]. by destruct (d =? 0x0a).
Qed.

Definition chunk_fits (b : building) (cur s : list Z) : Prop :=
  fits_lines b (split_lines s cur).1 ∧ Z.of_nat (length (split_lines s cur).2) ≤ 8191.

(** A call from [i] on: all lines are read, or the first event is delivered and the rest
    of the chunk is left for the next call. *)
Definition feed_result (b : building) (cur s chunk : list Z) (i : Z) (r : sse_event_type) (p : sse_parser) (out : sse_event) : Prop :=
  match (run_chunk (b, cur) s).2 with
  | [] => r = SSE_EVENT_NEED_MORE ∧ models p (run_chunk (b, cur) s).1.1 (run_chunk (b, cur) s).1.2
  | e :: es =>
      r = SSE_EVENT_DATA ∧ shows out e ∧ i < consumed p ≤ Z.of_nat (length chunk) ∧
      ∃ b1, models p b1 [] ∧ chunk_fits b1 [] (drop (Z.to_nat (consumed p)) chunk) ∧
        run_chunk (b1, []) (drop (Z.to_nat (consumed p)) chunk) = ((run_chunk (b, cur) s).1, es)
  end.

Lemma run_chunk_end c s b cur : (c =? 0x0a) || (c =? 0x0d) = true →
  run_chunk (b, cur) (c :: s) = ((run_chunk ((line_step b cur).1, []) (after_end c s)).1,
    (line_step b cur).2 ++ (run_chunk ((line_step b cur).1, []) (after_end c s)).2).
Proof.
  intros Hc. unfold run_chunk. rewrite split_lines_end by done. destruct (split_lines (after_end c s) []) as [ls r].
  cbn [run_lines]. destruct (line_step b cur) as [b1 e]. cbn [fst snd]. by destruct (run_lines b1 ls).
Qed.

Lemma at_line_models p b cur n : models p b cur → models (at_line p 0 n) b [].
Proof. intros [[] []]. split; constructor; simpl; done || lia. Qed.

Lemma feed_result_weaken b1 cur s s' chunk i j r p out b cur' :
  i ≤ j → (run_chunk (b, cur') s').2 = (run_chunk (b1, cur) s).2 → (run_chunk (b, cur') s').1 = (run_chunk (b1, cur) s).1 →
  feed_result b1 cur s chunk j r p out → feed_result b cur' s' chunk i r p out.
Proof.
  intros Hij E1 E2. unfold feed_result. rewrite E1, E2. destruct (run_chunk (b1, cur) s).2; [done|].
  intros (H1 & H2 & H3 & H4). split_and!; done || lia.
Qed.

(** The end of a line at [i]: whether it takes two characters, and where it ends. *)
Lemma terminator_spec chunk i c : 0 ≤ i < Z.of_nat (length chunk) → chunk !! Z.to_nat i = Some c →
  ∃ two, (if (c =? 0x0d) && (i + 1 <? Z.of_nat (length chunk)) then d ← load1 chunk (i + 1); Ret (d =? 0x0a) else Ret false) = Ret two ∧
    i < (if two : bool then i + 1 + 1 else i + 1) ≤ Z.of_nat (length chunk) ∧
    drop (Z.to_nat (if two : bool then i + 1 + 1 else i + 1)) chunk = after_end c (drop (S (Z.to_nat i)) chunk).
Proof.
  intros Hi Ec. unfold after_end. destruct (c =? 0x0d); cbn [andb].
  - destruct (Z.ltb_spec (i + 1) (Z.of_nat (length chunk))).
    + destruct (lookup_lt_is_Some_2 chunk (S (Z.to_nat i))) as [d Ed]; [lia|].
      rewrite (load1_Ret chunk (i + 1) d), bind_ret by (lia || by replace (Z.to_nat (i + 1)) with (S (Z.to_nat i)) by lia).
      eexists. split; [done|]. rewrite (drop_S chunk d (S (Z.to_nat i))) by done. destruct (d =? 0x0a).
      * split; [lia|]. by replace (Z.to_nat (i + 1 + 1)) with (S (S (Z.to_nat i))) by lia.
      * split; [lia|]. replace (Z.to_nat (i + 1)) with (S (Z.to_nat i)) by lia. by apply drop_S.
    + exists false. split_and!; [done|lia|lia|]. rewrite !drop_ge by lia. done.
  - exists false. split_and!; [done|lia|lia|]. f_equal. lia.
Qed.

Lemma feed_loop_spec fuel chunk : ∀ p b cur i s out, drop (Z.to_nat i) chunk = s → 0 ≤ i ≤ Z.of_nat (length chunk) → (length s < fuel)%nat →
  models p b cur → sized out → chunk_fits b cur s →
  ∃ r p' out', feed_loop fuel p chunk (Z.of_nat (length chunk)) i out = Ret (r, p', out') ∧ sized out' ∧ feed_result b cur s chunk i r p' out'.
Proof.
  induction fuel as [|fuel IH]; intros p b cur i s out Hs Hi Hf Hm Hout [Hfl Hfr]; [lia|]. cbn [feed_loop].
  assert (length s = length chunk - Z.to_nat i)%nat as Hls by by rewrite <-Hs, length_drop.
  destruct (Z.ltb_spec i (Z.of_nat (length chunk))).
  2:{ destruct s; [|simpl in Hls; lia]. eexists _, _, _. split; [done|]. split; [done|]. unfold feed_result. simpl. split; [done|].
      destruct Hm as [[] []]. split; constructor; done. }
  assert (0 ≤ i < Z.of_nat (length chunk)) as Hi' by lia. destruct (lookup_lt_is_Some_2 chunk (Z.to_nat i)) as [c Ec]; [lia|].
  rewrite (load1_Ret chunk i c), bind_ret by (done || lia). rewrite (drop_S chunk c) in Hs by done. subst s.
  set (s := drop (S (Z.to_nat i)) chunk) in *. destruct ((c =? 0x0a) || (c =? 0x0d)) eqn:Eend.
  - destruct (terminator_spec chunk i c Hi' Ec) as (two & -> & Hnext & Hdrop). fold s in Hdrop.
    rewrite bind_ret. set (next := if two then i + 1 + 1 else i + 1) in *.
    rewrite split_lines_end in Hfl, Hfr by done. destruct (split_lines (after_end c s) []) as [ls r] eqn:Esp. cbn [fst snd fits_lines] in Hfl, Hfr.
    destruct Hfl as [Hfit Hfl]. destruct (process_line_spec p b cur out Hm Hout Hfit) as (ev & p1 & out1 & -> & Hm1 & Hout1 & Hev).
    rewrite bind_ret. cbv beta iota. destruct (line_step b cur) as [b1 es] eqn:Els. cbn [fst snd] in *.
    assert (chunk_fits b1 [] (drop (Z.to_nat next) chunk)) as Hcf by (unfold chunk_fits; rewrite Hdrop, Esp; done).
    destruct es as [|e es].
    + subst ev. destruct (IH (at_line p1 0 next) b1 [] next (after_end c s) out1) as (r1 & p2 & out2 & E & Hout2 & Hres); [done|lia| |by eapply at_line_models|done|by rewrite <-Hdrop|].
      { rewrite <-Hdrop, length_drop. cbn [length] in Hf, Hls. clearbody next. lia. }
      exists r1, p2, out2. split; [done|]. split; [done|]. eapply (feed_result_weaken b1 [] (after_end c s)); [|..|done]; [lia|rewrite run_chunk_end by done; by rewrite Els..].
    + destruct Hev as (-> & -> & Hsh). eexists _, _, _. split; [done|]. split; [done|]. unfold feed_result. rewrite run_chunk_end by done. rewrite Els. cbn [fst snd app].
      split; [done|]. split; [done|]. split; [exact Hnext|]. exists b1. split; [by eapply at_line_models|]. cbn [consumed at_line]. split; [done|].
      rewrite Hdrop. by destruct (run_chunk (b1, []) (after_end c s)) as [[? ?] ?].
  - assert (split_lines (c :: s) cur = split_lines s (cur ++ [c])) as Esp.
    { cbn [split_lines]. apply orb_false_iff in Eend as [-> ->]. done. }
    rewrite Esp in Hfl, Hfr. destruct Hm as [Hp Hb]. rewrite (m_len _ _ Hp).
    assert (Z.of_nat (length (cur ++ [c])) ≤ 8191) as Hcl.
    { destruct (split_lines s (cur ++ [c])) as [ls r] eqn:E. apply split_lines_start in E. destruct ls as [|l ls]; simpl in *; [lia|].
      destruct Hfl as [[Hl _] _]. lia. }
    rewrite length_app in Hcl. cbn [length] in Hcl. unfold SSE_MAX_DATA_LEN. destruct (Z.ltb_spec (Z.of_nat (length cur)) (8192 - 1)); [|lia].
    destruct (store1_take (line_buf p) cur (Z.of_nat (length cur)) c) as (lb & -> & Hll & Htl); [done|apply (m_cur _ _ Hp)|pose proof (m_buf _ _ Hp); lia|].
    rewrite bind_ret. match goal with |- context [feed_loop fuel ?q] => destruct (IH q b (cur ++ [c]) (i + 1) s out) as (r1 & p2 & out2 & E & Hout2 & Hres) end;
      [unfold s; f_equal; lia|lia|simpl in Hls; unfold s in *; simpl in Hf; lia| |done|done|].
    { split; [|by destruct Hb; constructor]. destruct Hp. constructor; simpl; [lia|rewrite length_app; simpl; lia|done|rewrite length_app; simpl; lia|done|done]. }
    exists r1, p2, out2. split; [done|]. split; [done|]. eapply feed_result_weaken; [| | |exact Hres]; [lia| |]; unfold run_chunk; by rewrite Esp.
Qed.

Lemma drain_loop_spec fuel chunk : ∀ p b cur out events, 0 ≤ consumed p ≤ Z.of_nat (length chunk) → chunk ≠ [] →
  (length chunk - Z.to_nat (consumed p) < fuel)%nat → models p b cur → sized out → chunk_fits b cur (drop (Z.to_nat (consumed p)) chunk) →
  let s := drop (Z.to_nat (consumed p)) chunk in
  ∃ p' out' outs, drain_loop fuel p chunk out events = Ret (SSE_EVENT_NEED_MORE, p', out', events ++ outs) ∧ sized out' ∧
    models p' (run_chunk (b, cur) s).1.1 (run_chunk (b, cur) s).1.2 ∧ Forall2 shows outs (run_chunk (b, cur) s).2.
Proof.
  induction fuel as [|fuel IH]; intros p b cur out events Hc Hne Hf Hm Hout Hfit s; [lia|]. cbn [drain_loop]. unfold sse_feed.
  destruct (Z.leb_spec (Z.of_nat (length chunk)) 0); [destruct chunk; [done|simpl in *; lia]|].
  destruct (feed_loop_spec (S (Z.to_nat (Z.of_nat (length chunk) - consumed p))) chunk p b cur (consumed p) s out)
    as (r & p1 & out1 & -> & Hout1 & Hres); [done|done|unfold s; rewrite length_drop; lia|done..|].
  rewrite !bind_ret. cbv beta iota. unfold feed_result in Hres. destruct (run_chunk (b, cur) s).2 as [|e es] eqn:Ees.
  - destruct Hres as [-> Hm1]. exists p1, out1, []. rewrite app_nil_r. cbn [default]. split; [done|]. split; [done|]. split; [exact Hm1|constructor].
  - destruct Hres as (-> & Hsh & Hc1 & b1 & Hm1 & Hfit1 & E1).
    destruct (IH p1 b1 [] out1 (events ++ [out1])) as (p2 & out2 & outs & E & Hout2 & Hm2 & Hsh2); [lia|done|lia|done..|].
    exists p2, out2, (out1 :: outs). rewrite E. split; [by rewrite <-app_assoc|]. split; [done|]. rewrite E1 in Hm2, Hsh2. cbn [fst snd] in *.
    split; [done|by constructor].
Qed.

Fixpoint fits_chunks (s : building * list Z) (chunks : list (list Z)) : Prop :=
  match chunks with
  | [] => True
  | c :: cs => chunk_fits s.1 s.2 c ∧ fits_chunks (run_chunk s c).1 cs
  end.

Lemma receive_spec chunks : ∀ r p b cur out events, r ≠ SSE_EVENT_ERROR → Forall (fun c => c ≠ []) chunks → models p b cur → sized out →
  fits_chunks (b, cur) chunks →
  ∃ r' p' out' outs, foldM receive chunks (r, p, out, events) = Ret (r', p', out', events ++ outs) ∧ r' ≠ SSE_EVENT_ERROR ∧
    Forall2 shows outs (run_chunks (b, cur) chunks).
Proof.
  induction chunks as [|c cs IH]; intros r p b cur out events Hr Hne Hm Hout Hfit.
  - exists r, p, out, []. rewrite app_nil_r. split; [done|]. split; [done|constructor].
  - rewrite Forall_cons in Hne. destruct Hne as [Hc Hne]. destruct Hfit as [Hf Hfs]. cbn [fst snd] in Hf.
    assert (models (at_line p (line_len p) 0) b cur) as Hm0 by (destruct Hm as [[] []]; split; by constructor).
    destruct (drain_loop_spec (S (length c)) c (at_line p (line_len p) 0) b cur out events) as (p1 & out1 & outs & E & Hout1 & Hm1 & Hsh);
      [simpl; lia|done|simpl; lia|done..|]. cbn [consumed at_line] in *. change (drop (Z.to_nat 0) c) with c in *.
    cbn [run_chunks]. destruct (run_chunk (b, cur) c) as [[b1 cur1] es] eqn:Er. cbn [fst snd] in *.
    destruct (IH SSE_EVENT_NEED_MORE p1 b1 cur1 out1 (events ++ outs)) as (r' & p' & out' & outs' & E' & Hr' & Hsh'); [done..|].
    exists r', p', out', (outs ++ outs'). split; [|split; [done|by apply Forall2_app]].
    cbn [foldM]. unfold receive at 2. rewrite app_assoc. destruct r; try done; rewrite E, bind_ret; exact E'.
Qed.

Lemma init_models : ∃ p, sse_parser_init = Ret p ∧ models p (Building None None) [].
Proof.
  apply sse_reset_spec. constructor; cbn [line_buf line_len pending event_name event_data length];
    [rewrite length_replicate; unfold SSE_MAX_DATA_LEN; lia|done|done|lia|by rewrite length_replicate|rewrite length_replicate; unfold SSE_MAX_DATA_LEN; lia].
Qed.

(** ** Whole streams *)

(** No terminator of two characters is split between two chunks. *)
Definition unsplit (a b : list Z) : Prop := last a = Some 0x0d → hd 0 b ≠ 0x0a.

Fixpoint all_unsplit (chunks : list (list Z)) : Prop :=
  match chunks with
  | [] => True
  | c :: cs => unsplit c (concat cs) ∧ all_unsplit cs
  end.

Lemma split_lines_app n a b cur : (length a ≤ n)%nat → unsplit a b →
  split_lines (a ++ b) cur =
  (let '(l1, r1) := split_lines a cur in let '(l2, r2) := split_lines b r1 in (l1 ++ l2, r2)).
Proof.
  revert a cur. induction n as [|n IH]; intros a cur Hn Hu.
  { destruct a; [|simpl in Hn; lia]. simpl. by destruct (split_lines b cur). }
  destruct a as [|c a]; [simpl; by destruct (split_lines b cur)|]. simpl in Hn.
  assert (unsplit a b) as Hu' by (intros Hl; apply Hu; rewrite last_cons; by rewrite Hl).
  rewrite <-app_comm_cons. cbn [split_lines]. destruct (Z.eqb_spec c 0x0a) as [->|].
  { rewrite IH by (done || lia). destruct (split_lines a []) as [l1 r1]. by destruct (split_lines b r1). }
  destruct (Z.eqb_spec c 0x0d) as [->|]; [|rewrite IH by (done || lia); done].
  destruct a as [|d a'].
  - rewrite app_nil_l. destruct b as [|d b']; [done|]. specialize (Hu eq_refl). simpl in Hu.
    destruct (Z.eqb_spec d 0x0a); [done|]. by destruct (split_lines (d :: b') []).
  - rewrite <-app_comm_cons. destruct (Z.eqb_spec d 0x0a) as [->|].
    + assert (unsplit a' b) by (intros Hl; apply Hu'; rewrite last_cons; by rewrite Hl).
      rewrite IH by (done || simpl in Hn; lia). destruct (split_lines a' []) as [l1 r1]. by destruct (split_lines b r1).
    + rewrite app_comm_cons, IH by (done || lia). destruct (split_lines (d :: a') []) as [l1 r1]. by destruct (split_lines b r1).
Qed.

Lemma run_lines_app b l1 l2 :
  run_lines b (l1 ++ l2) = (let '(b1, e1) := run_lines b l1 in let '(b2, e2) := run_lines b1 l2 in (b2, e1 ++ e2)).
Proof.
  revert b. induction l1 as [|l l1 IH]; intros b; cbn [app run_lines]; [by destruct (run_lines b l2)|].
  destruct (line_step b l) as [b1 e]. rewrite IH. destruct (run_lines b1 l1) as [b2 e1]. destruct (run_lines b2 l2) as [b3 e2]. by rewrite app_assoc.
Qed.

Lemma fits_lines_app b l1 l2 : fits_lines b (l1 ++ l2) ↔ fits_lines b l1 ∧ fits_lines (run_lines b l1).1 l2.
Proof.
  revert b. induction l1 as [|l l1 IH]; intros b; cbn [app fits_lines run_lines]; [simpl; tauto|].
  rewrite IH. destruct (line_step b l) as [b1 e]. cbn [fst]. destruct (run_lines b1 l1) as [b2 e1]. cbn [fst]. tauto.
Qed.

(** A stream in two parts that do not split a terminator. *)
Lemma stream_parts b cur x y : unsplit x y → chunk_fits b cur (x ++ y) →
  let '(b1, cur1, es) := run_chunk (b, cur) x in
  chunk_fits b cur x ∧ chunk_fits b1 cur1 y ∧
  run_chunk (b, cur) (x ++ y) = ((run_chunk (b1, cur1) y).1, es ++ (run_chunk (b1, cur1) y).2).
Proof.
  intros Hu [Hfl Hfr]. unfold chunk_fits, run_chunk in *. rewrite (split_lines_app (length x)) in * by done.
  destruct (split_lines x cur) as [l1 r1] eqn:E1. destruct (split_lines y r1) as [l2 r2] eqn:E2. cbn [fst snd] in *.
  apply fits_lines_app in Hfl as [Hf1 Hf2]. rewrite run_lines_app. destruct (run_lines b l1) as [b1 e1]. cbn [fst snd] in *.
  rewrite E2. cbn [fst snd]. destruct (run_lines b1 l2) as [b2 e2]. cbn [fst snd]. split_and!; try done.
  apply split_lines_start in E2. destruct l2 as [|l l2]; simpl in *; [lia|]. destruct Hf2 as [[Hl _] _]. lia.
Qed.

Lemma all_chunks b cur chunks : all_unsplit chunks → chunk_fits b cur (concat chunks) →
  fits_chunks (b, cur) chunks ∧ run_chunks (b, cur) chunks = (run_chunk (b, cur) (concat chunks)).2.
Proof.
  revert b cur. induction chunks as [|c cs IH]; intros b cur Hu Hf; [done|]. destruct Hu as [Hu Hus]. cbn [concat fits_chunks run_chunks fst snd] in *.
  pose proof (stream_parts b cur c (concat cs) Hu Hf) as H. destruct (run_chunk (b, cur) c) as [[b1 cur1] es]. destruct H as (H1 & H2 & E).
  destruct (IH b1 cur1 Hus H2) as [H3 E3]. rewrite E, E3. done.
Qed.

(** C38: However a stream without a byte order mark is cut into chunks, as long as no
    two-character terminator is cut in two, feeding them and taking out the events gives the
    events of the stream in order: every object shows the type and the data of its event.
    The hypothesis on sizes says that lines have at most 8191 bytes, the data of an event
    less than 8191 with a newline for each line, and types from 1 to 63. *)
Theorem sse_stream_correct chunks out :
  Forall (fun c => c ≠ []) chunks → all_unsplit chunks → chunk_fits (Building None None) [] (concat chunks) →
  strip_bom (concat chunks) = concat chunks → sized out →
  ∃ r p out' outs, (p ← sse_parser_init; foldM receive chunks (SSE_EVENT_NONE, p, out, [])) = Ret (r, p, out', outs) ∧
    r ≠ SSE_EVENT_ERROR ∧ Forall2 shows outs (events_of (concat chunks)).
Proof.
  intros Hne Hu Hf Hbom Hout. destruct init_models as (p & -> & Hm). rewrite bind_ret. destruct (all_chunks _ _ _ Hu Hf) as [Hfc Er].
  destruct (receive_spec chunks SSE_EVENT_NONE p (Building None None) [] out []) as (r & p' & out' & outs & E & Hr & Hsh); [done..|].
  exists r, p', out', outs. rewrite E. split; [done|]. split; [done|]. unfold events_of. rewrite Hbom. cbn [run_chunks]. rewrite Er in Hsh.
  destruct (run_chunk _ (concat chunks)) as [[? ?] ?]. cbn [snd] in Hsh. by rewrite app_nil_r.
Qed.

Definition blank : sse_event := Event (replicate (Z.to_nat SSE_MAX_EVENT_NAME) 0) (replicate (Z.to_nat SSE_MAX_DATA_LEN) 0) 0.

Lemma blank_sized : sized blank.
Proof.
  split; cbn [blank event_name event_data]; rewrite length_replicate; [done|]. unfold SSE_MAX_DATA_LEN. lia.
Qed.

Lemma sse_stream_correct_witness :
  ∃ r p out' outs, (p ← sse_parser_init; foldM receive [chars "event: ping" ++ [0x0d; 0x0a]; chars "da"; chars "ta: 7" ++ [0x0a; 0x0a]]
      (SSE_EVENT_NONE, p, blank, [])) = Ret (r, p, out', outs) ∧
    r ≠ SSE_EVENT_ERROR ∧ Forall2 shows outs [(chars "ping", chars "7")].
Proof.
  apply (sse_stream_correct [chars "event: ping" ++ [0x0d; 0x0a]; chars "da"; chars "ta: 7" ++ [0x0a; 0x0a]] blank).
  - repeat (apply Forall_cons; split; [discriminate|]). constructor.
  - split; [discriminate|]. split; [discriminate|]. split; [discriminate|exact I].
  - split; [|discriminate]. split; [split; [discriminate|split; [intros _; vm_compute; lia|intros H; discriminate H]]|].
    split; [split; [discriminate|split; [intros H; discriminate H|intros _; reflexivity]]|].
    split; [split; [discriminate|split; [intros H; discriminate H|intros H; discriminate H]]|exact I].
  - reflexivity.
  - exact blank_sized.
Defined.

(** An event field without a value leaves the type empty, where the protocol says message. *)
Example empty_type_kept :
  match (p ← sse_parser_init; receive (SSE_EVENT_NONE, p, blank, []) (chars "event" ++ [0x0a] ++ chars "data:x" ++ [0x0a; 0x0a])) with
  | Ret (_, _, _, outs) => map (fun e => take 1 (event_name e)) outs = [[0]]
  | _ => False
  end ∧
  events_of (chars "event" ++ [0x0a] ++ chars "data:x" ++ [0x0a; 0x0a]) = [(chars "message", [0x78])].
Proof. split; lazy; reflexivity. Qed.

(** ** Terminators that are split *)

Definition plain (t : list Z) : Prop := Forall (fun c => c ≠ 0x0a ∧ c ≠ 0x0d) t.

Lemma split_lines_plain t s cur : plain t → split_lines (t ++ s) cur = split_lines s (cur ++ t).
Proof.
  intros Ht. revert cur. induction Ht as [|c t [H1 H2] _ IH]; intros cur; [by rewrite app_nil_r|].
  cbn [app split_lines]. destruct (Z.eqb_spec c 0x0a); [done|]. destruct (Z.eqb_spec c 0x0d); [done|]. rewrite IH. by rewrite <-app_assoc.
Qed.

(** A line of data. *)
Definition data_line (x : list Z) : list Z := chars "data:" ++ x.

Lemma data_line_plain x : plain x → plain (data_line x).
Proof. intros Hx. apply Forall_app. split; [|done]. repeat (apply Forall_cons; split; [done|]). constructor. Qed.

Lemma data_line_step b x : hd 0 x ≠ 0x20 →
  field_of (data_line x) = (chars "data", x) ∧
  line_step b (data_line x) = (Building (b_name b) (Some (default [] (b_data b) ++ x ++ [0x0a])), []).
Proof.
  intros Hx. assert (field_of (data_line x) = (chars "data", x)) as E.
  { destruct x as [|c x]; [done|]. change (field_of (data_line (c :: x))) with (chars "data", if c =? 0x20 then x else c :: x).
    simpl in Hx. by destruct (Z.eqb_spec c 0x20). }
  split; [done|]. change (line_step b (data_line x)) with (field_step b (field_of (data_line x)), @nil (list Z * list Z)). by rewrite E.
Qed.

Lemma fits_empty b : fits_line b [].
Proof. split; [done|]. split; discriminate. Qed.

Lemma fits_data_line x : hd 0 x ≠ 0x20 → Z.of_nat (length x) < 4000 → fits_line (Building None None) (data_line x).
Proof.
  intros Hx Hl. destruct (data_line_step (Building None None) x Hx) as [F _]. split; [|rewrite F; split; [discriminate|simpl; lia]].
  unfold data_line. rewrite length_app. change (length (chars "data:")) with 5%nat. lia.
Qed.

(** A carriage return at the end of one chunk and the line feed at the start of the
    next count as two ends of line: two lines of data of one event, received this way,
    come out as two events, while the stream says one event with both lines. *)
Theorem sse_split_terminator x y out : plain x → plain y → hd 0 x ≠ 0x20 → hd 0 y ≠ 0x20 →
  Z.of_nat (length x) < 4000 → Z.of_nat (length y) < 4000 → sized out →
  let first := data_line x ++ [0x0d] in
  let second := [0x0a] ++ data_line y ++ [0x0d; 0x0a; 0x0d; 0x0a] in
  (∃ r p out' outs, (p ← sse_parser_init; foldM receive [first; second] (SSE_EVENT_NONE, p, out, [])) = Ret (r, p, out', outs) ∧
     Forall2 shows outs [(chars "message", x); (chars "message", y)]) ∧
  events_of (first ++ second) = [(chars "message", x ++ [0x0a] ++ y)].
Proof.
  intros Hx Hy Hhx Hhy Hlx Hly Hout first second.
  destruct (data_line_step (Building None None) x Hhx) as [Fx Sx]. destruct (data_line_step (Building None None) y Hhy) as [Fy Sy].
  destruct (data_line_step (Building None (Some (x ++ [0x0a]))) y Hhy) as [_ Sy2].
  pose proof (data_line_plain x Hx) as Px. pose proof (data_line_plain y Hy) as Py.
  assert (split_lines first [] = ([data_line x], [])) as E1 by (unfold first; by rewrite split_lines_plain).
  assert (split_lines second [] = ([[]; data_line y; []], [])) as E2.
  { unfold second. cbn [app split_lines]. change (0x0a =? 0x0a) with true. cbv iota. by rewrite split_lines_plain. }
  split.
  - destruct init_models as (p & -> & Hm). rewrite bind_ret.
    destruct (receive_spec [first; second] SSE_EVENT_NONE p (Building None None) [] out []) as (r & p' & out' & outs & E & Hr & Hsh); try done.
    + repeat (apply Forall_cons; split; [by unfold first, second, data_line|]). constructor.
    + cbn [fits_chunks fst snd]. unfold chunk_fits, run_chunk. rewrite E1. cbn [fst snd run_lines fits_lines]. rewrite Sx. cbn [fst snd].
      rewrite E2. cbn [fst snd fits_lines]. change (line_step _ []).1 with (Building None None). rewrite Sy.
      split_and!; try done; apply fits_empty || by apply fits_data_line.
    + exists r, p', out', outs. split; [done|]. cbn [run_chunks] in Hsh. unfold run_chunk in Hsh. rewrite E1 in Hsh. cbn [run_lines] in Hsh.
      rewrite Sx in Hsh. cbv beta iota in Hsh. rewrite E2 in Hsh. cbn [run_lines line_step b_data b_name] in Hsh. rewrite Sy in Hsh. cbn -[take] in Hsh.
      rewrite !length_app in Hsh. cbn [length] in Hsh. rewrite !Nat.add_sub, !take_app_length in Hsh. done.
  - unfold events_of. change (strip_bom (first ++ second)) with (first ++ second). cbn [run_chunks]. unfold run_chunk. assert (split_lines (first ++ second) [] = ([data_line x; data_line y; []], [])) as ->.
    { unfold first, second. rewrite <-app_assoc, split_lines_plain by done. cbn [app split_lines]. change (0x0d =? 0x0a) with false.
      change (0x0d =? 0x0d) with true. change (0x0a =? 0x0a) with true. cbv iota. by rewrite split_lines_plain. }
    cbn [run_lines]. rewrite Sx. cbv beta iota. cbn [default b_data b_name app]. unfold id. rewrite app_nil_l || idtac. rewrite Sy2.
    cbn [line_step b_data b_name default app]. unfold id. rewrite !length_app. cbn [length]. rewrite app_assoc, take_app_length'; [by rewrite <-app_assoc|].
    rewrite !length_app. simpl. lia.
Qed.

Lemma sse_split_terminator_witness :
  (∃ r p out' outs, (p ← sse_parser_init; foldM receive [data_line [0x61] ++ [0x0d]; [0x0a] ++ data_line [0x62] ++ [0x0d; 0x0a; 0x0d; 0x0a]]
      (SSE_EVENT_NONE, p, blank, [])) = Ret (r, p, out', outs) ∧
     Forall2 shows outs [(chars "message", [0x61]); (chars "message", [0x62])]) ∧
  events_of ((data_line [0x61] ++ [0x0d]) ++ [0x0a] ++ data_line [0x62] ++ [0x0d; 0x0a; 0x0d; 0x0a]) = [(chars "message", [0x61; 0x0a; 0x62])].
Proof.
  apply (sse_split_terminator [0x61] [0x62] blank).
  - apply (bool_decide_unpack _). vm_compute. exact I.
  - apply (bool_decide_unpack _). vm_compute. exact I.
  - discriminate.
  - discriminate.
  - reflexivity.
  - reflexivity.
  - exact blank_sized.
Defined.
